(* ===== verification/_CoqProject ===== *)
-Q . S2P
Prelude.v
SecurityTypes.v
Sid.v
Acl.v
AclRepr.v
AclOps.v
AclEdit.v
AclIndex.v
AclIndexOps.v
AclCanonical.v
AclCodec.v
AclCodecOps.v
Token.v
AccessCheck.v
TokenState.v
TokenOps.v
Privilege.v
PrivilegeOps.v
PrivilegeAdjust.v
TokenRelative.v
TokenRelativeOps.v
Sd.v
SdOps.v
SdRelative.v
SdRepr.v
SdRelativeOps.v
SdConvert.v
SdInfo.v
SdSwab.v
SdInherit.v
SdInheritOps.v
SdObject.v
Text.v
Wc16Str.v
RtlString.v
StringOps.v
SidString.v
SidStringOps.v
RbTree.v
RbTreeRepr.v
RbTreeAdd.v
RbTreeOrder.v
RbTreeFix.v
RbTreeRemove.v
RbTreeOps.v
Hash.v
HashRepr.v
HashTable.v
HashMap.v
HashDigest.v
Sddl.v
SddlText.v
SddlAcl.v
SddlRoundTrip.v
SddlDemo.v
Lwmsg.v
LwmsgType.v
LwmsgOps.v
LwmsgData.v
LwmsgMarshal.v
LwmsgHeap.v
LwmsgWire.v
LwmsgMarshalOps.v
LwmsgFill.v
LwmsgUnmarshalOps.v
LwmsgRelease.v
LwmsgRoundTrip.v
LwmsgTry.v
LwmsgSafe.v
LwmsgHost.v
LwmsgDemo.v
LwmsgSession.v
LwmsgSessionOps.v
