(* ===== verification/Prelude.v ===== *)
(** * Likewise security model: SIDs, ACLs, access tokens, security descriptors
      and access checks

    PBIS Open implements the Windows security model on Unix. Its core is the
    library [lwbase] ([src/lwbase/src/security-*.c], types in
    [src/lwbase/include/lw/security-types.h] and
    [src/lwbase/src/security-types-internal.h]): security identifiers (SIDs),
    access control entries and lists (ACEs, ACLs) kept in variable-length
    buffers, access tokens, security descriptors in their absolute and self-relative
    forms, the inheritance of descriptors by new objects, and the check that decides
    whether a token is granted an access by a security descriptor. The file server,
    the registry, the authentication service and the service manager all call it.
    This library is a model of that code, of the string functions, the hash tables and
    the red-black trees of [lwbase], and of the data engine of the message library
    [lwmsg], and the proofs that they are correct.

    ** Parts of the program and files of the development

    - [Prelude]: machine integers, byte-addressed memory, bit flags; the tactics
      ([bsimpl], [zl], [zbits], ...) and hint databases of the development.
    - [SecurityTypes]: status codes, constants and flags, byte swapping
      ([lw/swab.h]), overflow-checked arithmetic ([lw/safeint.h]), the buffer test
      of [security-includes.h].
    - [Sid]: [security-sid.c] up to the conversions to and from strings: the
      operations, the abstract SID ([sid], [sid_at]) and their correctness.
    - [Acl]: the offset interface of [security-acl.c] (initialise, insert, remove,
      iterate, validate). [AclRepr] is the abstract ACL, a list of ACEs, and the
      relation [acl_at] to its bytes; [AclOps] and [AclEdit] prove the reads and
      the updates against it.
    - [AclIndex]: the index interface of [security-acl.c] (add, delete, get by
      index, insertion in canonical order); [AclIndexOps] and [AclCanonical] prove
      it.
    - [AclCodec]: the little-endian wire form of an ACL; [AclCodecOps] proves it.
    - [Token]: generic rights, membership and the access check of
      [security-token.c]; [AccessCheck] proves them against a decision per right.
    - [TokenState]: creation, references and queries of tokens; [TokenOps] is the
      abstract token ([token_spec], [token_repr], [live_token]) and the proofs.
    - [Privilege]: privilege checks and adjustments; [PrivilegeOps] and
      [PrivilegeAdjust] prove them.
    - [TokenRelative]: the self-relative form of a token, in which it is sent
      between processes; [TokenRelativeOps] proves the round trip.
    - [Sd] and [SdRelative]: [security-sd.c], absolute descriptors ([Sd]) and the
      self-relative form with its validation and the conversions ([SdRelative]).
      [SdOps] relates absolute descriptors to an abstract one ([sd_view]), for
      any contents of the parts; [SdRepr] gives its meaning on SIDs and ACLs
      ([sd_spec], [sd_at] for absolute, [rel_at] for self-relative descriptors);
      [SdRelativeOps], [SdConvert], [SdInfo] and [SdSwab] prove the conversions,
      the merging and extraction of parts and the byte-order repair.
    - [SdInherit]: [security-sd-inherit.c]. [SdInheritOps] proves the inheritance
      of ACLs against a function on lists of ACEs; [SdObject] composes it with
      tokens, ACLs and descriptors into a specification of
      [RtlCreatePrivateObjectSecurityEx].
    - [Text]: characters and null-terminated strings in memory, numbers as text;
      [Wc16Str]: [wc16str.c]; [RtlString]: [rtlstring_*.c]; [StringOps] proves
      them on lists of characters.
    - [SidString]: the conversions of [security-sid.c] between SIDs and strings;
      [SidStringOps] proves them against a grammar of SID strings.
    - [RbTree]: [rbtree.c], over a heap of nodes. [RbTreeRepr] relates the heap to a
      tree with a node in focus and the path above it; [RbTreeAdd], [RbTreeFix] and
      [RbTreeRemove] prove that addition, the repair of colors and removal are
      functions on such trees, [RbTreeOrder] what they do to the order and the
      colors, and [RbTreeOps] that the tree is a table in the order of its keys.
    - [Hash]: [hash.c], tables over a heap of nodes, maps of pairs, digests of keys.
      [HashRepr] relates a table to the chains of its buckets and [HashTable] proves
      the operations on them, against the interface [HashFunctions] of digest and
      equality; [HashMap] proves that a map is a set of pairs with distinct keys, and
      [HashDigest] what the functions for strings keep of the interface.
    - [Sddl]: [security-sddl.c] and [security-sddlmapping.c], descriptors as text, in
      an error monad with faults. [SddlText] has the lemmas on strings, codes of flags
      and rights and names of SIDs, [SddlAcl] the ones on ACEs and ACLs, and
      [SddlRoundTrip] what is read back from a text; [SddlDemo] has concrete texts.

    - [Lwmsg], [LwmsgType], [LwmsgData] and [LwmsgMarshal]: the data engine of the
      message library [src/lwmsg] by which the daemons talk to one another. [Lwmsg] has
      the checked sizes ([util.c]), integer conversion ([convert.c]), times and clocks
      ([time.c]); [LwmsgType] the type specifications and their iteration
      ([type-iterate.c]); [LwmsgData] memory, buffers, object maps ([data-context.c]),
      what is read off objects and the release of object graphs ([data-graph.c]);
      [LwmsgMarshal] the marshaller and the unmarshaller ([data-marshal.c],
      [data-unmarshal.c]). [LwmsgOps] proves the first; [LwmsgHeap] has the lemmas on
      memory; [LwmsgWire] is the specification, a relation of objects in memory, values
      and wire forms; [LwmsgMarshalOps] proves the marshaller against it, [LwmsgFill] and
      [LwmsgUnmarshalOps] the unmarshaller, [LwmsgRelease] the release of graphs, and
      [LwmsgRoundTrip] composes them; [LwmsgTry] and [LwmsgSafe] prove what the
      unmarshaller does with bytes that are not the wire form of anything. All this is for
      every allocator that keeps the interface [MallocLaws] and stack that keeps
      [StackLaws]; [LwmsgHost] is such a host and [LwmsgDemo] has concrete types and
      streams.
    - [LwmsgSession]: security tokens of local peers ([security.c],
      [connection-security.c]) and the default sessions of associations, with their
      handles in a linked list ([assoc-session.c]); [LwmsgSessionOps] refines them to
      lists of counted references.

    ** How the code is modelled

    An object in memory is the list of its bytes. A pointer that is read through
    is the list of bytes from its address to the end of the object, the null
    pointer is [None]; a pointer that is written through is the object with an
    offset, and the operation returns the new object. Every access is checked: an
    operation returns [None] when the C code would read or write outside the
    object, follow a null pointer, copy between overlapping ranges with [memcpy]
    or fail an [assert]. So a theorem that an operation returns [Some] result says
    that the code does none of these. Statuses and other results are inside the
    [Some]. Integers are [Z] with the wrap-around of the C type written out
    ([u8], [u16], [u32], [s32]). The byte order of the machine is a parameter
    (class [Host]) and so are the sizes the compiler chooses (class [Layout]); all
    theorems hold for both byte orders. [malloc] and the result of
    [pthread_rwlock_init] are arguments of the operations that use them; what the C
    library does depending on the locale is the class [Locale].

    Loops over counted arrays recurse on the count or on the list. The three [while]
    loops without such a bound take fuel: the one of [RtlpValidAceList] the length of
    the list, the ones of the access check and of [RtlpObjectAclAssignSecurity] the
    number of bytes of the ACL in use. Each turn consumes an ACE of at least four
    bytes, and [RtlpValidAceList_correct] (in [AclIndexOps]), [access_loop_all] (in
    [AccessCheck]) and [assign_loop_ok] (in [SdInheritOps]) prove that the loops
    never run out of it. The loops over null-terminated strings and of the parser of
    SIDs move on in a buffer at each turn and take the bytes of the buffer, and one
    more, as fuel ([slen_from], [parse_loop_spec], [stoull_loop_spec],
    [find_loop_sound]). The local buffers of the inheritance functions start with
    arbitrary contents, which are arguments of the model. The loops and recursions on
    red-black trees take the number of nodes in the heap, and one more
    ([fuel_enough]): each turn moves on along a path; so do the loops on the chains of a
    hash table ([hr_fuel]). The loop that enlarges the block for a parsed
    descriptor takes two turns: the second block has twice the size needed
    ([relative_read]).

    In [lwmsg], where objects point to one another, memory is a map from addresses to
    bytes with the blocks in use, and a program runs in a monad over memory, the buffer
    and the object map ([prog]); a fault is [None] there too. The marshaller and the
    unmarshaller recurse on types that may refer to themselves and take fuel: the
    theorems say that some fuel is enough for every object, and, of [unmarshal_safe], for
    all streams of a type. The loops on buffers take 70
    turns: a buffer doubles at each.

    ** What the theorems show

    - SIDs: equality, the prefix tests, appending a RID and the well-known SIDs do
      what they mean on the abstract SID; a buffer that the validation accepts
      holds a SID within it; encoding on one machine and decoding on another gives
      the SID back.
    - ACLs: [RtlValidAcl] accepts exactly the images of abstract ACLs; iteration
      lists the ACEs in order and ends; insertion and removal are insertion and
      removal in the list, with the exact error otherwise; insertion by the
      [RtlAdd*AceEx] functions keeps denied ACEs before allowed ones and explicit
      before inherited ones; the wire form decodes to the ACL it was made from and
      a validated buffer decodes without a fault.
    - Access checks: the result is the one the ACEs decide, right by right, with
      the rights of the owner and of administrators (and those granted before, when
      they are asked for again); [MAXIMUM_ALLOWED] grants exactly what is allowed; [SYSTEM] is granted everything; no check grants a
      right that does not exist, and a failed one changes nothing.
    - Tokens: a token holds the contents it was created from, in an allocation of
      the exact size; it is freed by the last release only; queries follow the
      two-call protocol and return copies of the contents. Privilege checks are
      right; privilege adjustments change what is asked for, or take everything
      back when the buffer for the previous state is too short (unless privileges
      are removed or named twice: [rollback_misses]).
    - The self-relative form of a token has the size announced for it, and
      reading it back gives a token with the same contents, except for the default
      DACL, which the reader drops.
    - Security descriptors: any sequence of setters acts on the abstract
      descriptor; a descriptor written in self-relative form on one machine fills
      the size announced, is accepted on another and is read back the same; a
      self-relative descriptor that the validation accepts converts without a
      fault; [RtlSetSecurityDescriptorInfo] and [RtlQuerySecurityDescriptorInfo]
      replace and extract exactly the parts asked for.
    - Inheritance: the ACL of a new object is the one the abstract rules give, its
      DACL is in canonical order, the block set aside for it is large enough, and
      the descriptor of a new object is the specified one or the exact error.
    - Strings: comparisons, prefix test, copies and number parsing do what they mean
      on lists of characters. The parser of SID strings accepts exactly a grammar
      ([sid_text]); printing never runs out of its buffer, and a SID printed and
      parsed, in 8-bit characters on any two hosts or in 16-bit characters on one, is
      the same SID.
    - Red-black trees: any sequence of operations on a tree runs without a fault and
      is the same sequence on an ordered list of entries; additions keep the tree
      balanced; searches find what is there; traversals visit it in order; disposal
      frees every node, key and data once.
    - Hash tables: any sequence of operations on a map, whichever allocations fail,
      runs without a fault and is the same sequence on a list of pairs with distinct
      keys; no node leaks; iteration gives every pair once and ends; clearing frees
      every pair once; equal strings have equal digests.
    - SDDL: a descriptor that can be expressed ([sayable], [all_said]) is read back
      from its text the same, on machines of either byte order; the text of a
      descriptor ([sayable]) with ACEs in its DACL gives no ACE more rights than it had,
      and nobody more rights unless a denied ACE loses some. A DACL without ACEs is
      lost ([sddl_empty_dacl_lost]).

    - Messages: sizes are added and multiplied exactly or refused; integers of any width
      and byte order are converted exactly or refused; times are added and compared
      exactly; a clock is monotonic whatever the time of day does; object graphs are
      marshalled to the wire form of their value, into growing blocks and into blocks of
      the caller; what one host marshals another one, of either byte order, unmarshals to
      a graph with the same value; the release of a graph frees its blocks, once, and
      nothing else, so that no memory is lost between the two. On arbitrary bytes, and
      when allocations fail, the unmarshaller does not fault, gives everything back on an
      error, and makes what can be released ([unmarshal_safe], for the types of [sane];
      [alias_faults], [flexible_member_leaks], [length_faults], [release_faults] and
      [null_element_leaks] are about others).
    - Sessions: the handles of a session are counted references; each is cleaned up once,
      by its last release or with the session.

    Where the code does not do what it means to, the theorem says what it does:
    [insert_bad_flags_corrupts] (in [AclEdit]),
    [granted_before_counts_late] and [admin_granted_system_security] (in [AccessCheck]),
    [RtlAdjustTokenPrivileges_needs_buffer], [rollback_misses],
    [remove_privilege_overruns] and its instance [remove_privilege_corrupts_owner]
    (in [PrivilegeAdjust]), [CheckOffset_wraps] and [relative_read_escapes] (in
    [TokenRelativeOps]), [inherit_size_wraps] (in [SdInheritOps]), [big_authority_refused] (in
    [SidStringOps]), [wc16stoull_misses_overflow], [FindSubstring_misses] and
    [wc16_compare_wrong_order] (in [StringOps]), [remove_unbalances] and
    [traverse_ignores_stop] (in [RbTreeOps]), [LwRtlFreeHashMap_faults] (in [HashMap]),
    [caseless_keys_lost] (in [HashDigest]), [sddl_empty_dacl_lost] and [sddl_oversize]
    (in [SddlRoundTrip]), [sddl_misread] and [sddl_faults] (in [SddlDemo]),
    [clock_restarts] (in [LwmsgOps]), [alias_faults], [flexible_member_leaks],
    [length_faults], [range_faults], [release_faults] and [null_element_leaks] (in
    [LwmsgDemo]),
    [session_takes_any_peer] (in [LwmsgSessionOps]), the overlapping copy
    in [RtlRemoveAce_correct], the treatment of explicitly requested rights in
    [access_check_maximum], and the owner and group defaulted from the parent in the
    specification of [SdObject].

    ** What is not modelled

    Locks and atomicity (each operation runs as one step; references are taken as
    sequences of atomic updates), memory exhaustion other than in [malloc]'s
    result, and logging. Of the strings, formatting ([lwprintf.c], [wc16printf.c]) and the
    conversions to multibyte strings. Of [lwmsg], connections, shared sessions and the dispatch of
    calls, which are asynchronous I/O, and the printing of objects; the specification
    [LwmsgWire] leaves out aliased pointers, flexible members and custom types, of which
    the functions are modelled. The daemons, the protocol stacks and the vendored
    libraries (Kerberos, OpenLDAP, OpenSSL, ...) are outside the development. *)

From stdpp Require Export base option list numbers sets.
From Stdlib Require Export ZArith Lia.

#[export] Set Default Goal Selector "!".

#[global] Open Scope Z_scope.

(** * Machine integers *)

Definition u8 (x : Z) : Z := x mod 2 ^ 8.
Definition u16 (x : Z) : Z := x mod 2 ^ 16.
Definition u32 (x : Z) : Z := x mod 2 ^ 32.
Definition u64 (x : Z) : Z := x mod 2 ^ 64.

(** * Byte-addressed memory

    An object in memory is the list of its bytes; [None] is an access outside
    the object (undefined behaviour in C, called a fault below). A pointer that
    is only read through is the list of the bytes from the address it holds to
    the end of the object, and [None] is the null pointer. *)

Abbreviation mem := (list Z).
Abbreviation ptr := (option (list Z)).

(** Locations of a heap of objects, and pointers to them. *)
Abbreviation loc := positive.
Abbreviation nptr := (option positive).

Definition zlen (m : mem) : Z := Z.of_nat (length m).

Definition byte_ok (b : Z) : bool := (0 <=? b) && (b <? 256).
Definition bytes_ok (m : mem) : Prop := Forall (fun b => 0 <= b < 256) m.

Definition rd (m : mem) (off n : Z) : option mem :=
  if (0 <=? off) && (0 <=? n) && (off + n <=? zlen m)
  then Some (take (Z.to_nat n) (drop (Z.to_nat off) m))
  else None.

Definition wr (m : mem) (off : Z) (bs : mem) : option mem :=
  if (0 <=? off) && (off + zlen bs <=? zlen m)
  then Some (take (Z.to_nat off) m ++ bs ++ drop (Z.to_nat (off + zlen bs)) m)
  else None.

(** [LW_PTR_ADD] on a read-only pointer. *)
Definition padd (m : mem) (off : Z) : mem := drop (Z.to_nat off) m.

Definition zeros (n : Z) : mem := replicate (Z.to_nat n) 0.

(** [memcmp(a, b, n) == 0], [memmove], [memcpy], [memset(p, 0, n)]. The last
    three take the source and the destination as offsets of one object;
    [memcpy] between overlapping ranges is undefined. *)
Definition RtlEqualMemory (a b : mem) (n : Z) : option bool :=
  x ← rd a 0 n; y ← rd b 0 n; Some (bool_decide (x = y)).
Definition RtlMoveMemory (m : mem) (dst src n : Z) : option mem :=
  bs ← rd m src n; wr m dst bs.
Definition RtlCopyMemoryWithin (m : mem) (dst src n : Z) : option mem :=
  if (n =? 0) || (dst + n <=? src) || (src + n <=? dst)
  then RtlMoveMemory m dst src n else None.
Definition RtlZeroMemory (m : mem) (off n : Z) : option mem := wr m off (zeros n).

(** * Multi-byte integers in memory *)

Inductive endian := LittleEndian | BigEndian.

#[global] Instance endian_eq_dec : EqDecision endian.
Proof. solve_decision. Defined.

Fixpoint le_decode (bs : mem) : Z :=
  match bs with
  | [] => 0
  | b :: r => b + 256 * le_decode r
  end.

Fixpoint le_encode (n : nat) (v : Z) : mem :=
  match n with
  | O => []
  | S n' => v mod 256 :: le_encode n' (v / 256)
  end.

Definition decode (e : endian) (bs : mem) : Z :=
  match e with
  | LittleEndian => le_decode bs
  | BigEndian => le_decode (rev bs)
  end.

Definition encode (e : endian) (n : nat) (v : Z) : mem :=
  match e with
  | LittleEndian => le_encode n v
  | BigEndian => rev (le_encode n v)
  end.

(** The byte order of the host ([LW_BIG_ENDIAN] or [LW_LITTLE_ENDIAN]). *)
Class Host := host : endian.

Definition ld8 (m : mem) (off : Z) : option Z := le_decode <$> rd m off 1.
Definition ld16 `{Host} (m : mem) (off : Z) : option Z := decode host <$> rd m off 2.
Definition ld32 `{Host} (m : mem) (off : Z) : option Z := decode host <$> rd m off 4.

Definition st8 (m : mem) (off v : Z) : option mem := wr m off (le_encode 1 v).
Definition st16 `{Host} (m : mem) (off v : Z) : option mem := wr m off (encode host 2 v).
Definition st32 `{Host} (m : mem) (off v : Z) : option mem := wr m off (encode host 4 v).

(** * Bit flags: [SetFlag], [ClearFlag], [IsSetFlag], [LW_IS_VALID_FLAGS] *)

Definition SetFlag (v f : Z) : Z := Z.lor v f.
Definition ClearFlag (v f : Z) : Z := Z.ldiff v f.
Definition IsSetFlag (v f : Z) : bool := negb (Z.land v f =? 0).
Definition LW_IS_VALID_FLAGS (f m : Z) : bool := Z.ldiff f m =? 0.

Arguments rd : simpl never.
Arguments wr : simpl never.
Arguments ld8 : simpl never.
Arguments ld16 {_} : simpl never.
Arguments ld32 {_} : simpl never.
Arguments st8 : simpl never.
Arguments st16 {_} : simpl never.
Arguments st32 {_} : simpl never.
Arguments u8 : simpl never.
Arguments u16 : simpl never.
Arguments u32 : simpl never.
Arguments u64 : simpl never.
Arguments zlen : simpl never.
Arguments zeros : simpl never.

(** * Lemmas *)

Create HintDb lw.
Create Rewrite HintDb zlen.

(** Reduce option binds, and nothing else. *)
Ltac bsimpl := cbn [mbind option_bind fmap option_fmap option_map].

(** Decide the tests the executable definitions branch on. *)
Ltac bool_case :=
  match goal with
  | |- context [Z.leb ?a ?b] => destruct (Z.leb_spec a b)
  | |- context [Z.ltb ?a ?b] => destruct (Z.ltb_spec a b)
  | |- context [Z.eqb ?a ?b] => destruct (Z.eqb_spec a b)
  | |- context [bool_decide ?P] => case_bool_decide
  end.

(** Turn boolean hypotheses into propositions. *)
Ltac bool_hyps :=
  repeat match goal with
  | H : _ && _ = true |- _ => apply andb_true_iff in H as [? ?]
  | H : _ || _ = false |- _ => apply orb_false_iff in H as [? ?]
  | H : negb _ = true |- _ => apply negb_true_iff in H
  | H : negb _ = false |- _ => apply negb_false_iff in H
  | H : (_ <=? _) = true |- _ => apply Z.leb_le in H
  | H : (_ <=? _) = false |- _ => apply Z.leb_gt in H
  | H : (_ <? _) = true |- _ => apply Z.ltb_lt in H
  | H : (_ <? _) = false |- _ => apply Z.ltb_ge in H
  | H : (_ =? _) = true |- _ => apply Z.eqb_eq in H
  | H : (_ =? _) = false |- _ => apply Z.eqb_neq in H
  end.

(** Take apart a chain of option binds that succeeded. *)
Ltac bind_hyps :=
  repeat match goal with
  | H : _ ≫= _ = Some _ |- _ => apply bind_Some in H as (? & ? & H); simpl in H
  | H : _ <$> _ = Some _ |- _ => apply fmap_Some in H as (? & ? & ?)
  end.

(** Prove an equation between bit masks bit by bit, from equations between
    bit masks. *)
Create Rewrite HintDb bits.
#[export] Hint Rewrite Z.land_spec Z.lor_spec Z.ldiff_spec Z.lxor_spec Z.bits_0 : bits.
Ltac zbits :=
  apply Z.bits_inj'; let i := fresh "i" in let Hi := fresh "Hi" in intros i Hi;
  repeat match goal with
  | E : @eq Z _ _ |- _ => apply (f_equal (fun z => Z.testbit z i)) in E; cbv beta in E
  end;
  autorewrite with bits in *;
  repeat match goal with E : @eq bool _ _ |- _ => revert E end;
  repeat match goal with
  | |- context [Z.testbit ?x i] => destruct (Z.testbit x i)
  end; simpl; congruence.

(** ** Lengths *)

Lemma zlen_nonneg m : 0 <= zlen m.
Proof. unfold zlen. lia. Qed.

Lemma zlen_nil : zlen [] = 0.
Proof. reflexivity. Qed.

Lemma zlen_cons b m : zlen (b :: m) = 1 + zlen m.
Proof. unfold zlen. simpl. lia. Qed.

Lemma zlen_app a b : zlen (a ++ b) = zlen a + zlen b.
Proof. unfold zlen. rewrite length_app. lia. Qed.

Lemma zlen_zeros n : 0 <= n -> zlen (zeros n) = n.
Proof. intros. unfold zlen, zeros. rewrite length_replicate. lia. Qed.

Lemma zeros_cut n k : 0 <= k <= n -> zeros n = zeros k ++ zeros (n - k).
Proof. intros Hk. unfold zeros. rewrite <- replicate_add. f_equal. lia. Qed.

Lemma zlen_0_inv m : zlen m = 0 -> m = [].
Proof. destruct m; [done|]. rewrite zlen_cons. pose proof (zlen_nonneg m). lia. Qed.

Lemma zlen_split m n : 0 <= n <= zlen m -> exists a b, m = a ++ b /\ zlen a = n.
Proof.
  intros. exists (take (Z.to_nat n) m), (drop (Z.to_nat n) m). rewrite take_drop.
  split; [done|]. unfold zlen in *. rewrite length_take. lia.
Qed.

Lemma zlen_rev m : zlen (rev m) = zlen m.
Proof. unfold zlen. rewrite length_rev. done. Qed.

Lemma zlen_le_encode n v : zlen (le_encode n v) = Z.of_nat n.
Proof.
  revert v. induction n as [|n IH]; intros v; [done|].
  cbn [le_encode]. rewrite zlen_cons, IH. lia.
Qed.

Lemma zlen_encode e n v : zlen (encode e n v) = Z.of_nat n.
Proof. destruct e; simpl; rewrite ?zlen_rev; apply zlen_le_encode. Qed.

#[export] Hint Rewrite zlen_nil zlen_cons zlen_app zlen_rev zlen_le_encode zlen_encode : zlen.

(** Linear arithmetic on lengths of concatenations. *)
Ltac zlen_pos :=
  repeat match goal with
  | |- context [zlen ?m] =>
      lazymatch goal with
      | _ : 0 <= zlen m |- _ => fail
      | _ => pose proof (zlen_nonneg m)
      end
  | _ : context [zlen ?m] |- _ =>
      lazymatch goal with
      | _ : 0 <= zlen m |- _ => fail
      | _ => pose proof (zlen_nonneg m)
      end
  end.
Ltac zl := autorewrite with zlen in *; zlen_pos; lia.

(** ** Reads and writes *)

Lemma rd_at p bs q off n :
  off = zlen p -> n = zlen bs -> rd (p ++ bs ++ q) off n = Some bs.
Proof.
  intros -> ->. unfold rd.
  replace (_ && _ && _) with true by (symmetry; rewrite !andb_true_iff; zl).
  f_equal. unfold zlen. rewrite !Nat2Z.id, drop_app_length, take_app_length. done.
Qed.

Lemma rd_at_0 bs q n : n = zlen bs -> rd (bs ++ q) 0 n = Some bs.
Proof. apply (rd_at []). done. Qed.

Lemma rd_Some m off n bs :
  rd m off n = Some bs <->
  exists p q, m = p ++ bs ++ q /\ zlen p = off /\ zlen bs = n.
Proof.
  split.
  - unfold rd. destruct (_ && _ && _) eqn:E; [|done]. intros [= <-]. bool_hyps.
    exists (take (Z.to_nat off) m), (drop (Z.to_nat n) (drop (Z.to_nat off) m)).
    rewrite take_drop, take_drop. split; [done|].
    unfold zlen in *. rewrite !length_take, length_drop. lia.
  - intros (p & q & -> & <- & <-). apply rd_at; done.
Qed.

Lemma rd_length m off n bs : rd m off n = Some bs -> zlen bs = n.
Proof. intros (p & q & ? & ? & ?)%rd_Some. done. Qed.

Lemma rd_range m off n bs :
  rd m off n = Some bs -> 0 <= off /\ 0 <= n /\ off + n <= zlen m.
Proof. intros (p & q & -> & <- & <-)%rd_Some. zl. Qed.

Lemma rd_ok m off n :
  0 <= off -> 0 <= n -> off + n <= zlen m -> exists bs, rd m off n = Some bs /\ zlen bs = n.
Proof.
  intros ? ? ?. destruct (rd m off n) as [bs|] eqn:E.
  - exists bs. eauto using rd_length.
  - unfold rd in E. destruct (_ && _ && _) eqn:F; [done|].
    apply andb_false_iff in F as [[F|F]%andb_false_iff|F]; bool_hyps; lia.
Qed.

Lemma rd_app_l a b off n : off + n <= zlen a -> rd (a ++ b) off n = rd a off n.
Proof.
  intros H. unfold rd. rewrite zlen_app. pose proof (zlen_nonneg b).
  repeat bool_case; simpl; try lia; try done. f_equal.
  unfold zlen in *. rewrite drop_app_le, take_app_le by (rewrite ?length_drop; lia). done.
Qed.

Lemma rd_app_r a b off n : zlen a <= off -> rd (a ++ b) off n = rd b (off - zlen a) n.
Proof.
  intros H. pose proof (zlen_nonneg a). unfold rd. rewrite zlen_app.
  repeat bool_case; simpl; try lia; try done. f_equal.
  unfold zlen in *. rewrite drop_app_ge by lia. do 2 f_equal. lia.
Qed.

Lemma rd_full m n : n = zlen m -> rd m 0 n = Some m.
Proof. intros ->. rewrite <- (app_nil_r m) at 1. apply (rd_at []); done. Qed.

Lemma rd_padd m k off n :
  0 <= k -> 0 <= off -> 0 < n \/ k <= zlen m -> rd (padd m k) off n = rd m (k + off) n.
Proof.
  intros ? ? ?. unfold rd, padd. rewrite drop_drop.
  assert (zlen (drop (Z.to_nat k) m) = Z.max 0 (zlen m - k)) as ->.
  { unfold zlen. rewrite length_drop. lia. }
  replace (Z.to_nat k + Z.to_nat off)%nat with (Z.to_nat (k + off)) by lia.
  pose proof (zlen_nonneg m). repeat bool_case; simpl; try lia; done.
Qed.

Lemma wr_at p old bs q off :
  off = zlen p -> zlen old = zlen bs -> wr (p ++ old ++ q) off bs = Some (p ++ bs ++ q).
Proof.
  intros -> Hl. unfold wr.
  replace (_ && _) with true by (symmetry; rewrite !andb_true_iff; zl).
  f_equal. unfold zlen in *. rewrite Nat2Z.id, take_app_length. do 2 f_equal.
  rewrite app_assoc. rewrite drop_app_length'; [done|]. rewrite length_app. lia.
Qed.

Lemma wr_at_0 old bs q : zlen old = zlen bs -> wr (old ++ q) 0 bs = Some (bs ++ q).
Proof. apply (wr_at []). done. Qed.

Lemma wr_Some m off bs m' :
  wr m off bs = Some m' <->
  exists p old q, m = p ++ old ++ q /\ m' = p ++ bs ++ q /\ zlen p = off /\ zlen old = zlen bs.
Proof.
  split.
  - unfold wr. destruct (_ && _) eqn:E; [|done]. intros [= <-]. bool_hyps.
    destruct (rd_ok m off (zlen bs)) as (old & Hr & Hl); [zl..|].
    apply rd_Some in Hr as (p & q & -> & <- & _).
    exists p, old, q. split; [done|]. split; [|done].
    unfold zlen in *. rewrite Nat2Z.id, take_app_length. do 2 f_equal.
    rewrite app_assoc, drop_app_length'; [done|]. rewrite length_app. lia.
  - intros (p & old & q & -> & -> & <- & ?). by apply wr_at.
Qed.

Lemma wr_length m off bs m' : wr m off bs = Some m' -> zlen m' = zlen m.
Proof. intros (p & old & q & -> & -> & _ & ?)%wr_Some. zl. Qed.

Lemma wr_ok m off bs :
  0 <= off -> off + zlen bs <= zlen m -> exists m', wr m off bs = Some m' /\ zlen m' = zlen m.
Proof.
  intros ? ?. destruct (rd_ok m off (zlen bs)) as (old & Hr & ?); [zl..|].
  apply rd_Some in Hr as (p & q & -> & <- & ?). exists (p ++ bs ++ q).
  split; [by apply wr_at | zl].
Qed.

Lemma wr_app_l a b off bs :
  off + zlen bs <= zlen a -> wr (a ++ b) off bs = (fun x => x ++ b) <$> wr a off bs.
Proof.
  intros H. destruct (wr a off bs) as [a'|] eqn:E; simpl.
  - apply wr_Some in E as (p & old & q & -> & -> & <- & ?).
    rewrite <- !app_assoc. by apply wr_at.
  - unfold wr in *. rewrite zlen_app. pose proof (zlen_nonneg b).
    revert E. repeat bool_case; simpl; try lia; done.
Qed.

Lemma wr_app_r a b off bs :
  zlen a <= off -> wr (a ++ b) off bs = app a <$> wr b (off - zlen a) bs.
Proof.
  intros H. pose proof (zlen_nonneg a). destruct (wr b (off - zlen a) bs) as [b'|] eqn:E; simpl.
  - apply wr_Some in E as (p & old & q & -> & -> & ? & ?).
    rewrite app_assoc, (app_assoc a p). apply wr_at; [zl|done].
  - unfold wr in *. rewrite zlen_app. revert E. repeat bool_case; simpl; try lia; done.
Qed.

Lemma wr_full m bs : zlen bs = zlen m -> wr m 0 bs = Some bs.
Proof.
  intros ?. pose proof (wr_at [] m bs [] 0 eq_refl) as Hw.
  simpl in Hw. rewrite !app_nil_r in Hw. by apply Hw.
Qed.

Lemma rd_wr_same m off bs m' : wr m off bs = Some m' -> rd m' off (zlen bs) = Some bs.
Proof. intros (p & old & q & -> & -> & <- & ?)%wr_Some. by apply rd_at. Qed.

Lemma rd_wr_other m off bs m' o n :
  wr m off bs = Some m' -> o + n <= off \/ off + zlen bs <= o -> rd m' o n = rd m o n.
Proof.
  intros (p & old & q & -> & -> & <- & ?)%wr_Some [?|?].
  - rewrite !rd_app_l by lia. done.
  - rewrite !(app_assoc p), !rd_app_r by zl. f_equal. zl.
Qed.

(** ** Bytes *)

Lemma bytes_ok_app a b : bytes_ok (a ++ b) <-> bytes_ok a /\ bytes_ok b.
Proof. apply Forall_app. Qed.

Lemma bytes_ok_rev m : bytes_ok (rev m) <-> bytes_ok m.
Proof. unfold bytes_ok. rewrite !List.Forall_forall. setoid_rewrite <- in_rev. done. Qed.

Lemma bytes_ok_zeros n : bytes_ok (zeros n).
Proof. apply Forall_replicate. lia. Qed.

Lemma bytes_ok_rd m off n bs : bytes_ok m -> rd m off n = Some bs -> bytes_ok bs.
Proof. intros Hm (p & q & -> & _)%rd_Some. rewrite !bytes_ok_app in Hm. tauto. Qed.

Lemma bytes_ok_wr m off bs m' : bytes_ok m -> bytes_ok bs -> wr m off bs = Some m' -> bytes_ok m'.
Proof.
  intros Hm Hb (p & old & q & -> & -> & _)%wr_Some. rewrite !bytes_ok_app in *. tauto.
Qed.

Lemma bytes_ok_le_encode n v : bytes_ok (le_encode n v).
Proof.
  revert v. induction n as [|n IH]; intros v; constructor; [|apply IH].
  apply Z.mod_pos_bound. lia.
Qed.

Lemma bytes_ok_encode e n v : bytes_ok (encode e n v).
Proof. destruct e; simpl; rewrite ?bytes_ok_rev; apply bytes_ok_le_encode. Qed.

#[export] Hint Resolve bytes_ok_zeros bytes_ok_le_encode bytes_ok_encode : lw.

(** ** Multi-byte integers *)

Lemma le_decode_range bs : bytes_ok bs -> 0 <= le_decode bs < 256 ^ zlen bs.
Proof.
  induction 1 as [|b bs Hb _ IH]; [done|].
  cbn [le_decode]. rewrite zlen_cons, Z.add_comm, Z.pow_add_r by zl. lia.
Qed.

Lemma le_decode_encode n v : 0 <= v < 256 ^ Z.of_nat n -> le_decode (le_encode n v) = v.
Proof.
  revert v. induction n as [|n IH]; intros v Hv; [simpl in *; lia|].
  cbn [le_decode le_encode]. rewrite Nat2Z.inj_succ, Z.pow_succ_r in Hv by lia.
  rewrite IH; [pose proof (Z.div_mod v 256); lia|].
  split; [apply Z.div_pos; lia | apply Z.div_lt_upper_bound; lia].
Qed.

Lemma le_encode_decode bs : bytes_ok bs -> le_encode (length bs) (le_decode bs) = bs.
Proof.
  induction 1 as [|b bs Hb _ IH]; [done|].
  cbn [le_decode le_encode length]. rewrite (Z.mul_comm 256), Z.mod_add by lia.
  rewrite Z.div_add by lia. rewrite Z.mod_small, Z.div_small by lia. rewrite Z.add_0_l, IH. done.
Qed.

Lemma decode_range e bs : bytes_ok bs -> 0 <= decode e bs < 256 ^ zlen bs.
Proof.
  intros H. destruct e; simpl; [by apply le_decode_range|].
  rewrite <- zlen_rev. by apply le_decode_range, bytes_ok_rev.
Qed.

Lemma decode_encode e n v : 0 <= v < 256 ^ Z.of_nat n -> decode e (encode e n v) = v.
Proof. intros H. destruct e; simpl; rewrite ?rev_involutive; by apply le_decode_encode. Qed.

Lemma encode_decode e bs : bytes_ok bs -> encode e (length bs) (decode e bs) = bs.
Proof.
  intros H. destruct e; simpl; [by apply le_encode_decode|].
  rewrite <- length_rev, le_encode_decode by (by apply bytes_ok_rev). apply rev_involutive.
Qed.

Lemma le_encode_mod n v : le_encode n (v mod 256 ^ Z.of_nat n) = le_encode n v.
Proof.
  revert v. induction n as [|n IH]; intros v; [done|].
  cbn [le_encode]. rewrite Nat2Z.inj_succ, Z.pow_succ_r by lia.
  assert (0 < 256 ^ Z.of_nat n) by (apply Z.pow_pos_nonneg; lia).
  f_equal.
  - rewrite Z.rem_mul_r by lia. rewrite (Z.mul_comm 256), Z.mod_add by lia. apply Z.mod_mod. lia.
  - rewrite Z.rem_mul_r by lia. rewrite (Z.mul_comm 256), Z.div_add by lia.
    rewrite (Z.div_small (v mod 256)) by (apply Z.mod_pos_bound; lia). apply IH.
Qed.

Section Access.
Context `{Host}.

Lemma ld8_range m off v : bytes_ok m -> ld8 m off = Some v -> 0 <= v < 256.
Proof.
  intros Hm (bs & Hr & ->)%fmap_Some. pose proof (rd_length _ _ _ _ Hr) as Hl.
  pose proof (le_decode_range bs (bytes_ok_rd _ _ _ _ Hm Hr)) as Hd. rewrite Hl in Hd. done.
Qed.

Lemma ld16_range m off v : bytes_ok m -> ld16 m off = Some v -> 0 <= v < 65536.
Proof.
  intros Hm (bs & Hr & ->)%fmap_Some. pose proof (rd_length _ _ _ _ Hr) as Hl.
  pose proof (decode_range host bs (bytes_ok_rd _ _ _ _ Hm Hr)) as Hd. rewrite Hl in Hd. done.
Qed.

Lemma ld32_range m off v : bytes_ok m -> ld32 m off = Some v -> 0 <= v < 4294967296.
Proof.
  intros Hm (bs & Hr & ->)%fmap_Some. pose proof (rd_length _ _ _ _ Hr) as Hl.
  pose proof (decode_range host bs (bytes_ok_rd _ _ _ _ Hm Hr)) as Hd. rewrite Hl in Hd. done.
Qed.

Lemma ld8_ok m off : 0 <= off -> off + 1 <= zlen m -> exists v, ld8 m off = Some v.
Proof. intros ? ?. destruct (rd_ok m off 1) as (bs & E & _); [lia..|]. unfold ld8. rewrite E. eauto. Qed.

Lemma ld16_ok m off : 0 <= off -> off + 2 <= zlen m -> exists v, ld16 m off = Some v.
Proof. intros ? ?. destruct (rd_ok m off 2) as (bs & E & _); [lia..|]. unfold ld16. rewrite E. eauto. Qed.

Lemma ld32_ok m off : 0 <= off -> off + 4 <= zlen m -> exists v, ld32 m off = Some v.
Proof. intros ? ?. destruct (rd_ok m off 4) as (bs & E & _); [lia..|]. unfold ld32. rewrite E. eauto. Qed.

Lemma ld8_first a r : ld8 (a :: r) 0 = Some a.
Proof. unfold ld8. rewrite (rd_at [] [a] r) by done. simpl. f_equal. lia. Qed.
Lemma ld8_second a b r : ld8 (a :: b :: r) 1 = Some b.
Proof. unfold ld8. rewrite (rd_at [a] [b] r) by done. simpl. f_equal. lia. Qed.

Lemma ld8_app_l a b off : off + 1 <= zlen a -> ld8 (a ++ b) off = ld8 a off.
Proof. intros. unfold ld8. by rewrite rd_app_l. Qed.
Lemma ld16_app_l a b off : off + 2 <= zlen a -> ld16 (a ++ b) off = ld16 a off.
Proof. intros. unfold ld16. by rewrite rd_app_l. Qed.
Lemma ld32_app_l a b off : off + 4 <= zlen a -> ld32 (a ++ b) off = ld32 a off.
Proof. intros. unfold ld32. by rewrite rd_app_l. Qed.
Lemma ld8_app_r a b off : zlen a <= off -> ld8 (a ++ b) off = ld8 b (off - zlen a).
Proof. intros. unfold ld8. by rewrite rd_app_r. Qed.
Lemma ld16_app_r a b off : zlen a <= off -> ld16 (a ++ b) off = ld16 b (off - zlen a).
Proof. intros. unfold ld16. by rewrite rd_app_r. Qed.
Lemma ld32_app_r a b off : zlen a <= off -> ld32 (a ++ b) off = ld32 b (off - zlen a).
Proof. intros. unfold ld32. by rewrite rd_app_r. Qed.

Lemma ld8_nth a x b off : off = zlen a -> ld8 (a ++ x :: b) off = Some x.
Proof. intros ->. rewrite ld8_app_r by lia. rewrite Z.sub_diag. apply ld8_first. Qed.

Lemma ld8_padd m k off : 0 <= k -> 0 <= off -> ld8 (padd m k) off = ld8 m (k + off).
Proof. intros. unfold ld8. rewrite rd_padd by lia. done. Qed.
Lemma ld16_padd m k off : 0 <= k -> 0 <= off -> ld16 (padd m k) off = ld16 m (k + off).
Proof. intros. unfold ld16. rewrite rd_padd by lia. done. Qed.
Lemma ld32_padd m k off : 0 <= k -> 0 <= off -> ld32 (padd m k) off = ld32 m (k + off).
Proof. intros. unfold ld32. rewrite rd_padd by lia. done. Qed.

Lemma ld8_st8 m off v m' : 0 <= v < 256 -> st8 m off v = Some m' -> ld8 m' off = Some v.
Proof.
  intros Hv Hw. unfold ld8. apply rd_wr_same in Hw. rewrite zlen_le_encode in Hw.
  change (Z.of_nat 1) with 1 in Hw. rewrite Hw. simpl. f_equal. by apply (le_decode_encode 1).
Qed.

Lemma ld16_st16 m off v m' : 0 <= v < 65536 -> st16 m off v = Some m' -> ld16 m' off = Some v.
Proof.
  intros Hv Hw. unfold ld16. apply rd_wr_same in Hw. rewrite zlen_encode in Hw.
  change (Z.of_nat 2) with 2 in Hw. rewrite Hw. simpl. f_equal. by apply (decode_encode host 2).
Qed.

Lemma ld32_st32 m off v m' : 0 <= v < 4294967296 -> st32 m off v = Some m' -> ld32 m' off = Some v.
Proof.
  intros Hv Hw. unfold ld32. apply rd_wr_same in Hw. rewrite zlen_encode in Hw.
  change (Z.of_nat 4) with 4 in Hw. rewrite Hw. simpl. f_equal. by apply (decode_encode host 4).
Qed.
End Access.
