(* ===== verification/SecurityTypes.v ===== *)
(** Status codes, layout constants and flag values of the security headers
    ([lw/ntstatus.h], [lw/security-types.h], [lw/swab.h], [lw/safeint.h],
    [src/security-includes.h]), with the byte-swapping and overflow-checked
    arithmetic the security code is built on. *)

From S2P Require Import Prelude.

(** * NTSTATUS

    The codes the modelled functions return. [ntstatus_code] is the 32-bit
    value of the header; [NT_SUCCESS] tests the sign of that value, as the
    macro does, so an informational code such as [STATUS_NOT_ALL_ASSIGNED]
    counts as a success. *)

Inductive NTSTATUS :=
  | STATUS_SUCCESS
  | STATUS_NOT_ALL_ASSIGNED
  | STATUS_NO_MORE_ENTRIES
  | STATUS_NOT_IMPLEMENTED
  | STATUS_INVALID_PARAMETER
  | STATUS_INVALID_PARAMETER_1
  | STATUS_INVALID_PARAMETER_2
  | STATUS_ACCESS_DENIED
  | STATUS_BUFFER_TOO_SMALL
  | STATUS_UNKNOWN_REVISION
  | STATUS_PRIVILEGE_NOT_HELD
  | STATUS_INVALID_SUB_AUTHORITY
  | STATUS_INVALID_ACL
  | STATUS_INVALID_SID
  | STATUS_INVALID_SECURITY_DESCR
  | STATUS_NO_TOKEN
  | STATUS_INTEGER_OVERFLOW
  | STATUS_INSUFFICIENT_RESOURCES
  | STATUS_NAME_TOO_LONG
  | STATUS_UNMAPPABLE_CHARACTER
  | STATUS_NOT_FOUND
  | STATUS_NOT_SUPPORTED
  | STATUS_INTERNAL_ERROR
  | STATUS_ASSERTION_FAILURE.

#[global] Instance NTSTATUS_eq_dec : EqDecision NTSTATUS.
Proof. solve_decision. Defined.

Definition ntstatus_code (s : NTSTATUS) : Z :=
  match s with
  | STATUS_SUCCESS => 0x00000000
  | STATUS_NOT_ALL_ASSIGNED => 0x00000106
  | STATUS_NO_MORE_ENTRIES => 0x8000001A
  | STATUS_NOT_IMPLEMENTED => 0xC0000002
  | STATUS_INVALID_PARAMETER => 0xC000000D
  | STATUS_INVALID_PARAMETER_1 => 0xC00000EF
  | STATUS_INVALID_PARAMETER_2 => 0xC00000F0
  | STATUS_ACCESS_DENIED => 0xC0000022
  | STATUS_BUFFER_TOO_SMALL => 0xC0000023
  | STATUS_UNKNOWN_REVISION => 0xC0000058
  | STATUS_PRIVILEGE_NOT_HELD => 0xC0000061
  | STATUS_INVALID_SUB_AUTHORITY => 0xC0000076
  | STATUS_INVALID_ACL => 0xC0000077
  | STATUS_INVALID_SID => 0xC0000078
  | STATUS_INVALID_SECURITY_DESCR => 0xC0000079
  | STATUS_NO_TOKEN => 0xC000007C
  | STATUS_INTEGER_OVERFLOW => 0xC0000095
  | STATUS_INSUFFICIENT_RESOURCES => 0xC000009A
  | STATUS_NAME_TOO_LONG => 0xC0000106
  | STATUS_UNMAPPABLE_CHARACTER => 0xC0000162
  | STATUS_NOT_FOUND => 0xC0000225
  | STATUS_NOT_SUPPORTED => 0xC00000BB
  | STATUS_INTERNAL_ERROR => 0xC00000E5
  | STATUS_ASSERTION_FAILURE => 0xC0000420
  end.

Definition NT_SUCCESS (s : NTSTATUS) : bool := ntstatus_code s <? 2 ^ 31.

(** [GOTO_CLEANUP_ON_STATUS] leaves on every code but zero. *)
Definition is_ok (s : NTSTATUS) : bool := bool_decide (s = STATUS_SUCCESS).

(** * SIDs *)

Definition SID_REVISION : Z := 1.
Definition SID_MAX_SUB_AUTHORITIES : Z := 15.
Definition SID_MIN_SIZE : Z := 8.
Definition SID_MAX_SIZE : Z := 68.

Definition SECURITY_WORLD_SID_AUTHORITY : mem := [0; 0; 0; 0; 0; 1].
Definition SECURITY_CREATOR_SID_AUTHORITY : mem := [0; 0; 0; 0; 0; 3].
Definition SECURITY_NT_AUTHORITY : mem := [0; 0; 0; 0; 0; 5].

Definition SECURITY_WORLD_RID : Z := 0.
Definition SECURITY_CREATOR_OWNER_RID : Z := 0.
Definition SECURITY_CREATOR_GROUP_RID : Z := 1.
Definition SECURITY_NETWORK_RID : Z := 2.
Definition SECURITY_INTERACTIVE_RID : Z := 4.
Definition SECURITY_ANONYMOUS_LOGON_RID : Z := 7.
Definition SECURITY_AUTHENTICATED_USER_RID : Z := 11.
Definition SECURITY_LOCAL_SYSTEM_RID : Z := 18.
Definition SECURITY_LOCAL_SERVICE_RID : Z := 19.
Definition SECURITY_BUILTIN_DOMAIN_RID : Z := 32.

Definition DOMAIN_USER_RID_ADMIN : Z := 500.
Definition DOMAIN_USER_RID_GUEST : Z := 501.
Definition DOMAIN_GROUP_RID_ADMINS : Z := 512.
Definition DOMAIN_GROUP_RID_USERS : Z := 513.
Definition DOMAIN_GROUP_RID_GUESTS : Z := 514.
Definition DOMAIN_ALIAS_RID_ADMINS : Z := 544.
Definition DOMAIN_ALIAS_RID_USERS : Z := 545.
Definition DOMAIN_ALIAS_RID_GUESTS : Z := 546.
Definition DOMAIN_ALIAS_RID_POWER_USERS : Z := 547.
Definition DOMAIN_ALIAS_RID_PRINT_OPS : Z := 550.
Definition DOMAIN_ALIAS_RID_BACKUP_OPS : Z := 551.

(** [WELL_KNOWN_SID_TYPE]: the types [RtlCreateWellKnownSid] implements, and
    one constructor for every other value, which it rejects. *)
Inductive WELL_KNOWN_SID_TYPE :=
  | WinWorldSid | WinNetworkSid | WinInteractiveSid | WinCreatorOwnerSid
  | WinCreatorGroupSid | WinAnonymousSid | WinAuthenticatedUserSid
  | WinLocalSystemSid | WinLocalServiceSid | WinBuiltinDomainSid
  | WinBuiltinAdministratorsSid | WinBuiltinUsersSid | WinBuiltinGuestsSid
  | WinBuiltinPowerUsersSid | WinBuiltinPrintOperatorsSid
  | WinBuiltinBackupOperatorsSid
  | WinAccountAdministratorSid | WinAccountGuestSid | WinAccountDomainAdminsSid
  | WinAccountDomainUsersSid | WinAccountDomainGuestsSid
  | WinOtherSid (value : Z).

(** * ACEs and ACLs *)

Definition ACCESS_ALLOWED_ACE_TYPE : Z := 0.
Definition ACCESS_DENIED_ACE_TYPE : Z := 1.
Definition SYSTEM_AUDIT_ACE_TYPE : Z := 2.
Definition ACCESS_ALLOWED_OBJECT_ACE_TYPE : Z := 5.
Definition ACCESS_DENIED_OBJECT_ACE_TYPE : Z := 6.
Definition SYSTEM_AUDIT_OBJECT_ACE_TYPE : Z := 7.

Definition OBJECT_INHERIT_ACE : Z := 0x01.
Definition CONTAINER_INHERIT_ACE : Z := 0x02.
Definition NO_PROPAGATE_INHERIT_ACE : Z := 0x04.
Definition INHERIT_ONLY_ACE : Z := 0x08.
Definition INHERITED_ACE : Z := 0x10.
Definition SUCCESSFUL_ACCESS_ACE_FLAG : Z := 0x40.
Definition FAILED_ACCESS_ACE_FLAG : Z := 0x80.

Definition VALID_ACE_FLAGS_MASK : Z := 0xDF.

Definition ACE_OBJECT_TYPE_PRESENT : Z := 1.
Definition ACE_INHERITED_OBJECT_TYPE_PRESENT : Z := 2.

Definition ACL_REVISION : Z := 2.
Definition ACL_REVISION_DS : Z := 4.
Definition ACL_HEADER_SIZE : Z := 8.
Definition sizeof_ACL : Z := 8.
Definition sizeof_ACE_HEADER : Z := 4.
Definition sizeof_GUID : Z := 16.
Definition ACL_END_ACE_OFFSET : Z := 0xFFFF.

(** * Access masks *)

Definition GENERIC_ALL : Z := 0x10000000.
Definition GENERIC_EXECUTE : Z := 0x20000000.
Definition GENERIC_WRITE : Z := 0x40000000.
Definition GENERIC_READ : Z := 0x80000000.
Definition ACCESS_SYSTEM_SECURITY : Z := 0x01000000.
Definition MAXIMUM_ALLOWED : Z := 0x02000000.
Definition READ_CONTROL : Z := 0x00020000.
Definition WRITE_DAC : Z := 0x00040000.
Definition WRITE_OWNER : Z := 0x00080000.
Definition STANDARD_RIGHTS_ALL : Z := 0x001F0000.
Definition SPECIFIC_RIGHTS_ALL : Z := 0x0000FFFF.
Definition VALID_DESIRED_ACCESS_MASK : Z := 0xF31FFFFF.
Definition VALID_DACL_ACCESS_MASK : Z := 0xF01FFFFF.
Definition VALID_SACL_ACCESS_MASK : Z := 0xF11FFFFF.
Definition VALID_GRANTED_ACCESS_MASK : Z := 0xF11FFFFF.

Record GENERIC_MAPPING := {
  GenericRead : Z;
  GenericWrite : Z;
  GenericExecute : Z;
  GenericAll : Z
}.

(** * Tokens and privileges *)

Definition SE_GROUP_ENABLED : Z := 0x00000004.
Definition SE_PRIVILEGE_ENABLED : Z := 0x00000002.
Definition SE_PRIVILEGE_REMOVED : Z := 0x00000004.
Definition SE_PRIVILEGE_USED_FOR_ACCESS : Z := 0x80000000.
Definition PRIVILEGE_SET_ALL_NECESSARY : Z := 0x00000001.
Definition ACCESS_TOKEN_FLAG_UNIX_PRESENT : Z := 0x00000001.

(** * Security descriptors *)

Definition SECURITY_DESCRIPTOR_REVISION : Z := 1.
Definition SECURITY_DESCRIPTOR_RELATIVE_MIN_SIZE : Z := 20.

Definition SE_OWNER_DEFAULTED : Z := 0x0001.
Definition SE_GROUP_DEFAULTED : Z := 0x0002.
Definition SE_DACL_PRESENT : Z := 0x0004.
Definition SE_DACL_DEFAULTED : Z := 0x0008.
Definition SE_SACL_PRESENT : Z := 0x0010.
Definition SE_SACL_DEFAULTED : Z := 0x0020.
Definition SE_DACL_UNTRUSTED : Z := 0x0040.
Definition SE_SERVER_SECURITY : Z := 0x0080.
Definition SE_DACL_AUTO_INHERIT_REQ : Z := 0x0100.
Definition SE_SACL_AUTO_INHERIT_REQ : Z := 0x0200.
Definition SE_DACL_AUTO_INHERITED : Z := 0x0400.
Definition SE_SACL_AUTO_INHERITED : Z := 0x0800.
Definition SE_DACL_PROTECTED : Z := 0x1000.
Definition SE_SACL_PROTECTED : Z := 0x2000.
Definition SE_RM_CONTROL_VALID : Z := 0x4000.
Definition SE_SELF_RELATIVE : Z := 0x8000.
Definition SE_SET_SECURITY_DESCRIPTOR_CONTROL_MASK : Z := 0x3FC0.

Definition OWNER_SECURITY_INFORMATION : Z := 0x00000001.
Definition GROUP_SECURITY_INFORMATION : Z := 0x00000002.
Definition DACL_SECURITY_INFORMATION : Z := 0x00000004.
Definition SACL_SECURITY_INFORMATION : Z := 0x00000008.
Definition VALID_SECURITY_INFORMATION_MASK : Z := 0x0000000F.

Definition SEF_DACL_AUTO_INHERIT : Z := 0x00000001.
Definition SEF_SACL_AUTO_INHERIT : Z := 0x00000002.
Definition SEF_AVOID_PRIVILEGE_CHECK : Z := 0x00000008.
Definition SEF_AVOID_OWNER_CHECK : Z := 0x00000010.
Definition SEF_DEFAULT_OWNER_FROM_PARENT : Z := 0x00000020.
Definition SEF_DEFAULT_GROUP_FROM_PARENT : Z := 0x00000040.

(** [SecurityDescriptorVerificationErrors]. *)
Inductive SD_ERROR :=
  | REL_SD_VALID_SECURITY_DESCRIPTOR
  | REL_SD_INVALID_SECURITY_INFORMATION_MASK
  | REL_SD_INVALID_LENGTH
  | REL_SD_NOT_SELF_RELATIVE
  | REL_SD_MISSING_OWNER
  | REL_SD_MISSING_GROUP
  | REL_SD_MISSING_SACL
  | REL_SD_MISSING_DACL
  | REL_SD_INVALID_OFFSET_OWNER
  | REL_SD_INVALID_OFFSET_GROUP
  | REL_SD_INVALID_OFFSET_SACL
  | REL_SD_INVALID_OFFSET_DACL
  | REL_SD_INVALID_OFFSET_SIZE
  | ABS_SD_INVALID_HEADER.

#[global] Instance SD_ERROR_eq_dec : EqDecision SD_ERROR.
Proof. solve_decision. Defined.

(** * Byte swapping ([lw/swab.h]) *)

Definition LW_SWAB16 (v : Z) : Z :=
  Z.lor (Z.shiftr (Z.land v 0xFF00) 8) (Z.shiftl (Z.land v 0x00FF) 8).

Definition LW_SWAB32 (v : Z) : Z :=
  Z.lor (Z.lor (Z.lor (Z.shiftr (Z.land v 0xFF000000) 24)
                      (Z.shiftr (Z.land v 0x00FF0000) 8))
               (Z.shiftl (Z.land v 0x0000FF00) 8))
        (Z.shiftl (Z.land v 0x000000FF) 24).

Definition LW_HTOL8 (v : Z) : Z := v.
Definition LW_LTOH8 (v : Z) : Z := v.

Definition LW_HTOL16 `{Host} (v : Z) : Z :=
  match host with BigEndian => LW_SWAB16 v | LittleEndian => v end.
Definition LW_LTOH16 `{Host} (v : Z) : Z :=
  match host with BigEndian => LW_SWAB16 v | LittleEndian => v end.
Definition LW_HTOL32 `{Host} (v : Z) : Z :=
  match host with BigEndian => LW_SWAB32 v | LittleEndian => v end.
Definition LW_LTOH32 `{Host} (v : Z) : Z :=
  match host with BigEndian => LW_SWAB32 v | LittleEndian => v end.

(** * Overflow-checked arithmetic ([lw/safeint.h]) and buffer bounds *)

Definition RtlSafeMultiplyULONG (a b : Z) : NTSTATUS * Z :=
  let result := a * b in
  if 0xFFFFFFFF <? result then (STATUS_INTEGER_OVERFLOW, u32 result)
  else (STATUS_SUCCESS, u32 result).

Definition RtlSafeAddULONG (a b : Z) : NTSTATUS * Z :=
  let result := u32 (a + b) in
  if result <? a then (STATUS_INTEGER_OVERFLOW, result) else (STATUS_SUCCESS, result).

Definition RtlpIsBufferAvailable (MaximumSize Offset Size : Z) : bool :=
  if u32 (Offset + Size) <? Offset then false
  else if MaximumSize <? u32 (Offset + Size) then false
  else true.

(** * Lemmas *)

Lemma land_byte v k : 0 <= k -> Z.land v (Z.shiftl 255 k) = Z.shiftl ((v / 2 ^ k) mod 256) k.
Proof.
  intros Hk. change 255 with (Z.ones 8). change 256 with (2 ^ 8).
  rewrite <- Z.land_ones by lia. rewrite <- Z.shiftr_div_pow2 by lia.
  apply Z.bits_inj'. intros n Hn.
  rewrite Z.land_spec, !Z.shiftl_spec by lia. destruct (Z.ltb_spec n k).
  - rewrite !(Z.testbit_neg_r _ (n - k)) by lia. apply andb_false_r.
  - rewrite Z.land_spec, Z.shiftr_spec by lia. do 2 f_equal. lia.
Qed.

Lemma lor_shiftl_add a b k :
  0 <= k -> 0 <= a < 2 ^ k -> Z.lor (Z.shiftl b k) a = b * 2 ^ k + a.
Proof.
  intros Hk Ha. assert (Z.land (Z.shiftl b k) a = 0) as Hd.
  { apply Z.bits_inj'. intros n Hn. rewrite Z.land_spec, Z.bits_0, Z.shiftl_spec by lia.
    destruct (Z.ltb_spec n k).
    - rewrite Z.testbit_neg_r by lia. done.
    - rewrite <- (Z.mod_small a (2 ^ k)) by lia. rewrite Z.mod_pow2_bits_high by lia.
      apply andb_false_r. }
  rewrite <- Z.lxor_lor, <- Z.add_nocarry_lxor by done. rewrite Z.shiftl_mul_pow2 by lia. done.
Qed.

Lemma LW_SWAB16_spec v :
  LW_SWAB16 v = (v mod 256) * 256 + (v / 256) mod 256.
Proof.
  unfold LW_SWAB16. change 0xFF00 with (Z.shiftl 255 8).
  rewrite <- (Z.shiftl_0_r 0xFF) at 2. rewrite !land_byte by lia.
  rewrite Z.shiftl_0_r, Z.div_1_r, Z.shiftr_shiftl_l, Z.shiftl_0_r by lia.
  rewrite Z.lor_comm, lor_shiftl_add; [done|lia|]. apply Z.mod_pos_bound. lia.
Qed.

Lemma LW_SWAB32_spec v :
  LW_SWAB32 v = (((v mod 256) * 256 + (v / 256) mod 256) * 256 + (v / 65536) mod 256) * 256
                + (v / 16777216) mod 256.
Proof.
  unfold LW_SWAB32.
  change 0xFF000000 with (Z.shiftl 255 24). change 0x00FF0000 with (Z.shiftl 255 16).
  change 0x0000FF00 with (Z.shiftl 255 8).
  replace (Z.land v 255) with (Z.land v (Z.shiftl 255 0)) by done. rewrite !land_byte by lia.
  rewrite !Z.shiftr_shiftl_l, !Z.shiftl_shiftl by lia.
  change (24 - 24) with 0. change (16 - 8) with 8. change (8 + 8) with 16. change (0 + 24) with 24.
  rewrite Z.shiftl_0_r, Z.pow_0_r, Z.div_1_r.
  pose proof (Z.mod_pos_bound (v / 2 ^ 24) 256). pose proof (Z.mod_pos_bound (v / 2 ^ 16) 256).
  pose proof (Z.mod_pos_bound (v / 2 ^ 8) 256).
  rewrite (Z.lor_comm _ (Z.shiftl _ 8)), lor_shiftl_add by lia.
  rewrite (Z.lor_comm _ (Z.shiftl _ 16)), lor_shiftl_add by lia.
  rewrite (Z.lor_comm _ (Z.shiftl _ 24)), lor_shiftl_add by lia.
  change (2 ^ 24) with 16777216 in *. change (2 ^ 16) with 65536 in *. change (2 ^ 8) with 256 in *.
  lia.
Qed.

(** Swapping the bytes of a value is reading it in the other byte order. *)
Lemma swab16_decode bs :
  bytes_ok bs -> zlen bs = 2 -> LW_SWAB16 (decode BigEndian bs) = decode LittleEndian bs.
Proof.
  intros Hb Hl. destruct bs as [|a [|b [|]]]; try (exfalso; zl).
  unfold bytes_ok in Hb. decompose_Forall_hyps.
  simpl decode. rewrite LW_SWAB16_spec. rewrite !Z.mul_0_r, !Z.add_0_r.
  rewrite (Z.mul_comm 256 a), Z.mod_add, Z.div_add by lia.
  rewrite Z.mod_small, Z.div_small, (Z.mod_small (0 + a)) by lia. lia.
Qed.

Lemma swab32_decode bs :
  bytes_ok bs -> zlen bs = 4 -> LW_SWAB32 (decode BigEndian bs) = decode LittleEndian bs.
Proof.
  intros Hb Hl. destruct bs as [|a [|b [|c [|d [|]]]]]; try (exfalso; zl).
  unfold bytes_ok in Hb. decompose_Forall_hyps.
  simpl decode. rewrite LW_SWAB32_spec. rewrite !Z.mul_0_r, !Z.add_0_r.
  Z.div_mod_to_equations. lia.
Qed.

(** Equality of two explicit byte lists, byte by byte. *)
Ltac list_bytes :=
  lazymatch goal with
  | |- _ :: _ = _ :: _ =>
      apply (f_equal2 cons); [Z.div_mod_to_equations; lia | list_bytes]
  | |- _ => reflexivity
  end.

Section Endian.
Context `{Host}.

Lemma LTOH16_decode bs : bytes_ok bs -> zlen bs = 2 -> LW_LTOH16 (decode host bs) = le_decode bs.
Proof. intros. unfold LW_LTOH16. destruct host; [done|]. by rewrite swab16_decode. Qed.

Lemma LTOH32_decode bs : bytes_ok bs -> zlen bs = 4 -> LW_LTOH32 (decode host bs) = le_decode bs.
Proof. intros. unfold LW_LTOH32. destruct host; [done|]. by rewrite swab32_decode. Qed.

Lemma encode_HTOL16 v : encode host 2 (LW_HTOL16 v) = le_encode 2 v.
Proof.
  unfold LW_HTOL16. destruct host; [done|].
  cbn [encode le_encode rev app]. rewrite LW_SWAB16_spec.
  pose proof (Z.mod_pos_bound v 256). pose proof (Z.mod_pos_bound (v / 256) 256).
  set (a := v mod 256) in *. set (b := (v / 256) mod 256) in *. clearbody a b.
  list_bytes.
Qed.

Lemma encode_HTOL32 v : encode host 4 (LW_HTOL32 v) = le_encode 4 v.
Proof.
  unfold LW_HTOL32. destruct host; [done|].
  cbn [encode le_encode rev app]. rewrite LW_SWAB32_spec.
  rewrite (Z.div_div v 256 256), (Z.div_div v (256 * 256) 256) by lia.
  change (256 * 256) with 65536. change (65536 * 256) with 16777216.
  pose proof (Z.mod_pos_bound v 256). pose proof (Z.mod_pos_bound (v / 256) 256).
  pose proof (Z.mod_pos_bound (v / 65536) 256). pose proof (Z.mod_pos_bound (v / 16777216) 256).
  set (a := v mod 256) in *. set (b := (v / 256) mod 256) in *.
  set (c := (v / 65536) mod 256) in *. set (d := (v / 16777216) mod 256) in *.
  clearbody a b c d. list_bytes.
Qed.

(** A field written with [LW_HTOL<n>] on one host reads back with [LW_LTOH<n>]
    on a host of either byte order: what is in memory is little-endian. *)
Lemma ld16_LTOH m off v : bytes_ok m -> ld16 m off = Some v ->
  le_decode <$> rd m off 2 = Some (LW_LTOH16 v).
Proof.
  intros Hm (bs & Hr & ->)%fmap_Some. rewrite Hr. simpl.
  rewrite LTOH16_decode by eauto using bytes_ok_rd, rd_length. done.
Qed.

Lemma ld32_LTOH m off v : bytes_ok m -> ld32 m off = Some v ->
  le_decode <$> rd m off 4 = Some (LW_LTOH32 v).
Proof.
  intros Hm (bs & Hr & ->)%fmap_Some. rewrite Hr. simpl.
  rewrite LTOH32_decode by eauto using bytes_ok_rd, rd_length. done.
Qed.
End Endian.

Lemma is_ok_true s : is_ok s = true <-> s = STATUS_SUCCESS.
Proof. unfold is_ok. case_bool_decide; done. Qed.

Lemma is_ok_success : is_ok STATUS_SUCCESS = true.
Proof. done. Qed.

(** Reduce binds and the status tests after a call that succeeded. *)
Ltac okstep := repeat (progress (bsimpl; rewrite ?is_ok_success; cbn [negb])).

(** The carry test [a + b < a] on unsigned integers of width [w] is exact. *)
Lemma carry_iff w a b :
  0 <= a < w -> 0 <= b < w ->
  ((a + b) mod w < a <-> w <= a + b) /\ (a + b < w -> (a + b) mod w = a + b).
Proof.
  intros. split; [|intros; apply Z.mod_small; lia].
  destruct (Z.lt_ge_cases (a + b) w).
  - rewrite Z.mod_small by lia. lia.
  - assert ((a + b) mod w = a + b - w); [|lia].
    rewrite <- (Z.mod_small (a + b - w) w) by lia.
    rewrite <- (Z.mod_add (a + b - w) 1) by lia. f_equal. lia.
Qed.

Lemma RtlpIsBufferAvailable_iff max off n :
  0 <= off < 2 ^ 32 -> 0 <= n < 2 ^ 32 -> 0 <= max < 2 ^ 32 ->
  RtlpIsBufferAvailable max off n = true <-> off + n <= max.
Proof.
  intros. unfold RtlpIsBufferAvailable, u32.
  destruct (carry_iff (2 ^ 32) off n) as [? ?]; [lia..|].
  repeat bool_case; split; try done; lia.
Qed.

Lemma buffer_available max off n :
  0 <= off -> 0 <= n -> off + n <= max -> max < 2 ^ 32 -> RtlpIsBufferAvailable max off n = true.
Proof. intros. apply RtlpIsBufferAvailable_iff; lia. Qed.

Lemma RtlSafeAddULONG_iff a b :
  0 <= a < 2 ^ 32 -> 0 <= b < 2 ^ 32 ->
  fst (RtlSafeAddULONG a b) = STATUS_SUCCESS <-> a + b < 2 ^ 32.
Proof.
  intros. unfold RtlSafeAddULONG, u32.
  destruct (carry_iff (2 ^ 32) a b) as [? ?]; [lia..|].
  bool_case; simpl; split; try done; lia.
Qed.

(** Testing a flag of one bit reads that bit. *)
Lemma IsSetFlag_bit v k : 0 <= k -> IsSetFlag v (2 ^ k) = Z.testbit v k.
Proof.
  intros Hk. unfold IsSetFlag. destruct (Z.testbit v k) eqn:E; destruct (Z.eqb_spec (Z.land v (2 ^ k)) 0) as [E0|E0]; try done.
  - apply (f_equal (fun z => Z.testbit z k)) in E0. rewrite Z.land_spec, Z.bits_0, E, Z.pow2_bits_true in E0; done.
  - destruct E0. apply Z.bits_inj'. intros i Hi. rewrite Z.land_spec, Z.bits_0, Z.pow2_bits_eqb by done.
    destruct (Z.eqb_spec k i) as [<-|]; [by rewrite E|apply andb_false_r].
Qed.
