(* ===== verification/Sid.v ===== *)
(** Security identifiers: [lwbase/src/security-sid.c], all of it but the string
    conversions, which are in [SidString]. A SID is the byte image of

      UCHAR Revision; UCHAR SubAuthorityCount; UCHAR IdentifierAuthority[6];
      ULONG SubAuthority[];

    in the byte order of the host. Every function works on that image, so a
    read or a write outside the object that holds the SID is a fault ([None]).
    The abstract SID of the specifications is the record [sid]. *)

From S2P Require Import Prelude SecurityTypes.

(** * Operations *)

Section Operations.
Context `{Host}.

Definition Sid_Revision (Sid : mem) : option Z := ld8 Sid 0.
Definition Sid_SubAuthorityCount (Sid : mem) : option Z := ld8 Sid 1.
Definition Sid_IdentifierAuthority (Sid : mem) : option mem := rd Sid 2 6.
Definition Sid_SubAuthority (Sid : mem) (i : Z) : option Z := ld32 Sid (8 + 4 * i).

Definition RtlInitializeSid (Sid IdentifierAuthority : ptr) (SubAuthorityCount : Z)
    : option (NTSTATUS * ptr) :=
  match Sid, IdentifierAuthority with
  | Some sid, Some auth =>
      if SID_MAX_SUB_AUTHORITIES <? SubAuthorityCount
      then Some (STATUS_INVALID_PARAMETER, Sid)
      else
        sid ← st8 sid 0 SID_REVISION;
        sid ← st8 sid 1 SubAuthorityCount;
        a ← rd auth 0 6;
        sid ← wr sid 2 a;
        sid ← RtlZeroMemory sid 8 (4 * SubAuthorityCount);
        Some (STATUS_SUCCESS, Some sid)
  | _, _ => Some (STATUS_INVALID_PARAMETER, Sid)
  end.

Definition RtlLengthRequiredSid (SubAuthorityCount : Z) : Z :=
  u32 (SID_MIN_SIZE + 4 * SubAuthorityCount).

Definition RtlLengthSid (Sid : mem) : option Z :=
  c ← Sid_SubAuthorityCount Sid; Some (RtlLengthRequiredSid c).

Definition RtlValidSid (Sid : ptr) : option bool :=
  match Sid with
  | None => Some false
  | Some sid =>
      r ← Sid_Revision sid;
      if r =? SID_REVISION then
        c ← Sid_SubAuthorityCount sid; Some (c <=? SID_MAX_SUB_AUTHORITIES)
      else Some false
  end.

Definition RtlEqualSid (Sid1 Sid2 : mem) : option bool :=
  c1 ← Sid_SubAuthorityCount Sid1;
  c2 ← Sid_SubAuthorityCount Sid2;
  if c1 =? c2 then
    len ← RtlLengthSid Sid1; RtlEqualMemory Sid1 Sid2 len
  else Some false.

Definition RtlEqualPrefixSid (Sid1 Sid2 : mem) : option bool :=
  c1 ← Sid_SubAuthorityCount Sid1;
  c2 ← Sid_SubAuthorityCount Sid2;
  if c1 =? c2 then
    let count := if 0 <? c1 then c1 - 1 else c1 in
    RtlEqualMemory Sid1 Sid2 (RtlLengthRequiredSid count)
  else Some false.

Definition RtlIsPrefixSid (Prefix Sid : mem) : option bool :=
  len ← RtlLengthSid Prefix;
  let ulAuthSidLength := u32 (len - (1 + 1)) in
  cp ← Sid_SubAuthorityCount Prefix;
  c ← Sid_SubAuthorityCount Sid;
  if cp <=? c then
    rp ← Sid_Revision Prefix;
    r ← Sid_Revision Sid;
    if rp =? r then
      a ← rd Prefix 2 ulAuthSidLength;
      b ← rd Sid 2 ulAuthSidLength;
      Some (bool_decide (a = b))
    else Some false
  else Some false.

Definition RtlCopySid (DestinationSidLength : Z) (DestinationSid SourceSid : mem)
    : option (NTSTATUS * mem) :=
  length ← RtlLengthSid SourceSid;
  if DestinationSidLength <? length
  then Some (STATUS_BUFFER_TOO_SMALL, DestinationSid)
  else
    bs ← rd SourceSid 0 length;
    d ← wr DestinationSid 0 bs;
    Some (STATUS_SUCCESS, d).

Definition RtlAppendRidSid (SidLength : Z) (Sid : mem) (Rid : Z) : option (NTSTATUS * mem) :=
  c ← Sid_SubAuthorityCount Sid;
  if SID_MAX_SUB_AUTHORITIES <=? c then Some (STATUS_INVALID_PARAMETER, Sid)
  else if SidLength <? RtlLengthRequiredSid (c + 1) then Some (STATUS_BUFFER_TOO_SMALL, Sid)
  else
    s ← st32 Sid (8 + 4 * c) Rid;
    s ← st8 s 1 (u8 (c + 1));
    Some (STATUS_SUCCESS, s).

(** [Rid] tells whether the output pointer is non-null; the result carries the
    value stored through it. *)
Definition RtlGetRidSid (Rid : bool) (Sid : ptr) : option (NTSTATUS * option Z) :=
  match Sid with
  | Some sid =>
      if negb Rid then Some (STATUS_INVALID_PARAMETER, None)
      else
        c ← Sid_SubAuthorityCount sid;
        if c =? 0 then Some (STATUS_INVALID_SUB_AUTHORITY, None)
        else v ← Sid_SubAuthority sid (c - 1); Some (STATUS_SUCCESS, Some v)
  | None => Some (STATUS_INVALID_PARAMETER, None)
  end.

(** [RTL_ALLOCATE]: [malloc n] tells whether the allocator has [n] bytes to
    give; the block is cleared. *)
Definition RTL_ALLOCATE (malloc : Z -> bool) (Size : Z) : NTSTATUS * ptr :=
  if malloc Size then (STATUS_SUCCESS, Some (zeros Size))
  else (STATUS_INSUFFICIENT_RESOURCES, None).

Definition RtlDuplicateSid (malloc : Z -> bool) (OriginalSid : mem) : option (NTSTATUS * ptr) :=
  length ← RtlLengthSid OriginalSid;
  match RTL_ALLOCATE malloc length with
  | (STATUS_SUCCESS, Some resultSid) =>
      bs ← rd OriginalSid 0 length;
      r ← wr resultSid 0 bs;
      Some (STATUS_SUCCESS, Some r)
  | (status, _) => Some (status, None)
  end.

Definition RtlpIsValidLittleEndianSidBuffer (Buffer : mem) (BufferSize : Z)
    : option (bool * Z) :=
  if BufferSize <? SID_MIN_SIZE then Some (false, 0)
  else
    c ← Sid_SubAuthorityCount Buffer;
    let size := RtlLengthRequiredSid (LW_LTOH8 c) in
    if negb (RtlpIsBufferAvailable BufferSize 0 size) then Some (false, 0)
    else
      valid ← RtlValidSid (Some Buffer);
      Some (valid, if (valid : bool) then size else 0).

(** The loop of the encoders, of the decoders and of the domain copy: [n] more
    sub-authorities from index [i], each converted by [f], from one SID to the
    SID at [loc] of the destination. *)
Fixpoint map_SubAuthority (f : Z -> Z) (n : nat) (i : Z) (from to : mem) (loc : Z) : option mem :=
  match n with
  | O => Some to
  | S n' =>
      v ← Sid_SubAuthority from i;
      b ← st32 to (loc + 8 + 4 * i) (f v);
      map_SubAuthority f n' (i + 1) from b loc
  end.

Definition RtlpEncodeLittleEndianSid (Sid Buffer : mem) (loc BufferSize : Z)
    : option (NTSTATUS * mem * Z) :=
  size ← RtlLengthSid Sid;
  if BufferSize <? size then Some (STATUS_BUFFER_TOO_SMALL, Buffer, 0)
  else
    r ← Sid_Revision Sid;
    b ← st8 Buffer loc (LW_HTOL8 r);
    c ← Sid_SubAuthorityCount Sid;
    b ← st8 b (loc + 1) (LW_HTOL8 c);
    a ← Sid_IdentifierAuthority Sid;
    b ← wr b (loc + 2) a;
    b ← map_SubAuthority LW_HTOL32 (Z.to_nat c) 0 Sid b loc;
    Some (STATUS_SUCCESS, b, size).

Definition RtlpDecodeLittleEndianSid (LittleEndianSid Sid : mem) (loc : Z) : option mem :=
  r ← Sid_Revision LittleEndianSid;
  s ← st8 Sid loc (LW_LTOH8 r);
  c ← Sid_SubAuthorityCount LittleEndianSid;
  s ← st8 s (loc + 1) (LW_LTOH8 c);
  a ← Sid_IdentifierAuthority LittleEndianSid;
  s ← wr s (loc + 2) a;
  n ← ld8 s (loc + 1);
  map_SubAuthority LW_LTOH32 (Z.to_nat n) 0 LittleEndianSid s loc.

Definition RtlConvertLittleEndianToSid (Buffer : mem) (Length : Z) (Sid : mem) (SidSize : Z)
    : option (NTSTATUS * mem * Z) :=
  if SidSize <? Length then Some (STATUS_BUFFER_TOO_SMALL, Sid, Length)
  else
    s ← RtlpDecodeLittleEndianSid Buffer Sid 0;
    c ← Sid_SubAuthorityCount s;
    Some (STATUS_SUCCESS, s, RtlLengthRequiredSid c).

Definition RtlConvertSidToLittleEndian (Sid Buffer : mem) (Length : Z)
    : option (NTSTATUS * mem * Z) :=
  c ← Sid_SubAuthorityCount Sid;
  let sidSize := RtlLengthRequiredSid c in
  if Length <? sidSize then Some (STATUS_BUFFER_TOO_SMALL, Buffer, 0)
  else
    r ← Sid_Revision Sid;
    b ← st8 Buffer 0 (LW_HTOL8 r);
    b ← st8 b 1 (LW_HTOL8 c);
    a ← Sid_IdentifierAuthority Sid;
    b ← wr b 2 a;
    b ← map_SubAuthority LW_HTOL32 (Z.to_nat c) 0 Sid b 0;
    Some (STATUS_SUCCESS, b, sidSize).

(** ** Well-known SIDs *)

(** [RtlInitializeSid] on the local buffer, then [SubAuthority[0] = rid]. *)
Definition init_one (buf auth : mem) (n rid : Z) : option (NTSTATUS * mem) :=
  '(status, s) ← RtlInitializeSid (Some buf) (Some auth) n;
  s ← s;
  if is_ok status then
    s ← st32 s 8 rid; Some (STATUS_SUCCESS, s)
  else Some (status, s).

(** The first switch: the prefix of the SID, and the index [i] it ends with. *)
Definition well_known_prefix (t : WELL_KNOWN_SID_TYPE) (DomainOrComputerSid : ptr) (buf : mem)
    : option (NTSTATUS * mem * Z) :=
  let one auth rid i := '(st, s) ← init_one buf auth 1 rid; Some (st, s, i) in
  let builtin := '(st, s) ← init_one buf SECURITY_NT_AUTHORITY 2 SECURITY_BUILTIN_DOMAIN_RID;
                 Some (st, s, 1) in
  let account :=
    match DomainOrComputerSid with
    | None => Some (STATUS_INVALID_PARAMETER, buf, 0)
    | Some dom =>
        c ← Sid_SubAuthorityCount dom;
        '(status, s) ← RtlInitializeSid (Some buf) (Some SECURITY_NT_AUTHORITY) (u8 (c + 1));
        s ← s;
        if is_ok status then
          s ← map_SubAuthority id (Z.to_nat c) 0 dom s 0; Some (STATUS_SUCCESS, s, c)
        else Some (status, s, 0)
    end in
  match t with
  | WinWorldSid =>
      '(st, s) ← RtlInitializeSid (Some buf) (Some SECURITY_WORLD_SID_AUTHORITY) 1;
      s ← s; Some (st, s, 0)
  | WinNetworkSid => one SECURITY_WORLD_SID_AUTHORITY SECURITY_NETWORK_RID 0
  | WinInteractiveSid => one SECURITY_WORLD_SID_AUTHORITY SECURITY_INTERACTIVE_RID 0
  | WinCreatorOwnerSid => one SECURITY_CREATOR_SID_AUTHORITY SECURITY_CREATOR_OWNER_RID 0
  | WinCreatorGroupSid => one SECURITY_CREATOR_SID_AUTHORITY SECURITY_CREATOR_GROUP_RID 0
  | WinAnonymousSid => one SECURITY_CREATOR_SID_AUTHORITY SECURITY_ANONYMOUS_LOGON_RID 0
  | WinAuthenticatedUserSid => one SECURITY_NT_AUTHORITY SECURITY_AUTHENTICATED_USER_RID 0
  | WinLocalSystemSid => one SECURITY_NT_AUTHORITY SECURITY_LOCAL_SYSTEM_RID 0
  | WinLocalServiceSid => one SECURITY_NT_AUTHORITY SECURITY_LOCAL_SERVICE_RID 0
  | WinBuiltinDomainSid => one SECURITY_NT_AUTHORITY SECURITY_BUILTIN_DOMAIN_RID 1
  | WinBuiltinAdministratorsSid | WinBuiltinUsersSid | WinBuiltinGuestsSid
  | WinBuiltinPowerUsersSid | WinBuiltinPrintOperatorsSid | WinBuiltinBackupOperatorsSid =>
      builtin
  | WinAccountAdministratorSid | WinAccountGuestSid | WinAccountDomainAdminsSid
  | WinAccountDomainUsersSid | WinAccountDomainGuestsSid => account
  | WinOtherSid _ => Some (STATUS_NOT_IMPLEMENTED, buf, 0)
  end.

(** The second switch: the RID to append, if the type has one. *)
Definition well_known_rid (t : WELL_KNOWN_SID_TYPE) : option Z :=
  match t with
  | WinBuiltinAdministratorsSid => Some DOMAIN_ALIAS_RID_ADMINS
  | WinBuiltinUsersSid => Some DOMAIN_ALIAS_RID_USERS
  | WinBuiltinGuestsSid => Some DOMAIN_ALIAS_RID_GUESTS
  | WinBuiltinPowerUsersSid => Some DOMAIN_ALIAS_RID_POWER_USERS
  | WinBuiltinPrintOperatorsSid => Some DOMAIN_ALIAS_RID_PRINT_OPS
  | WinBuiltinBackupOperatorsSid => Some DOMAIN_ALIAS_RID_BACKUP_OPS
  | WinAccountAdministratorSid => Some DOMAIN_USER_RID_ADMIN
  | WinAccountGuestSid => Some DOMAIN_USER_RID_GUEST
  | WinAccountDomainAdminsSid => Some DOMAIN_GROUP_RID_ADMINS
  | WinAccountDomainUsersSid => Some DOMAIN_GROUP_RID_USERS
  | WinAccountDomainGuestsSid => Some DOMAIN_GROUP_RID_GUESTS
  | _ => None
  end.

(** The cleanup code on failure zeroes [size] bytes of the output, if any. *)
Definition well_known_fail (status : NTSTATUS) (Sid : ptr) (size sizeRequired : Z)
    : option (NTSTATUS * ptr * Z) :=
  match Sid with
  | None => Some (status, None, sizeRequired)
  | Some sid => s ← RtlZeroMemory sid 0 size; Some (status, Some s, sizeRequired)
  end.

Definition RtlCreateWellKnownSid (t : WELL_KNOWN_SID_TYPE) (DomainOrComputerSid Sid : ptr)
    (SidSize : Z) : option (NTSTATUS * ptr * Z) :=
  '(status, buf, i) ← well_known_prefix t DomainOrComputerSid (zeros SID_MAX_SIZE);
  if is_ok status then
    buf ← match well_known_rid t with
          | Some rid => st32 buf (8 + 4 * i) rid
          | None => Some buf
          end;
    sizeRequired ← RtlLengthSid buf;
    if SidSize <? sizeRequired
    then well_known_fail STATUS_BUFFER_TOO_SMALL Sid SidSize sizeRequired
    else
      sid ← Sid;
      bs ← rd buf 0 sizeRequired;
      s ← wr sid 0 bs;
      Some (STATUS_SUCCESS, Some s, sizeRequired)
  else well_known_fail status Sid SidSize 0.

Definition RtlAllocateWellKnownSid (malloc : Z -> bool) (t : WELL_KNOWN_SID_TYPE)
    (DomainOrComputerSid : ptr) : option (NTSTATUS * ptr) :=
  '(status, buf, _) ← RtlCreateWellKnownSid t DomainOrComputerSid
                        (Some (zeros SID_MAX_SIZE)) SID_MAX_SIZE;
  if is_ok status then buf ← buf; RtlDuplicateSid malloc buf
  else Some (status, None).
End Operations.

Arguments RtlInitializeSid : simpl never.
Arguments RtlValidSid : simpl never.
Arguments RtlGetRidSid : simpl never.
Arguments well_known_prefix : simpl never.
Arguments RtlLengthRequiredSid : simpl never.

(** * Specification *)

(** The abstract SID, and its image in memory for a byte order. *)
Record sid := mk_sid {
  sid_revision : Z;
  sid_authority : mem;
  sid_sub : list Z
}.

#[global] Instance sid_eq_dec : EqDecision sid.
Proof. solve_decision. Defined.

Definition sid_count (s : sid) : Z := Z.of_nat (length (sid_sub s)).

Definition sub_bytes (e : endian) (l : list Z) : mem := flat_map (encode e 4) l.

Definition sid_header (s : sid) : mem := [sid_revision s; sid_count s] ++ sid_authority s.

Definition sid_bytes (e : endian) (s : sid) : mem := sid_header s ++ sub_bytes e (sid_sub s).

Arguments sid_bytes : simpl never.

(** A SID whose fields fit their widths; [sid_valid] is what [RtlValidSid] asks. *)
Definition sid_wf (s : sid) : Prop :=
  0 <= sid_revision s < 256 /\ zlen (sid_authority s) = 6 /\ bytes_ok (sid_authority s) /\
  sid_count s < 256 /\ Forall (fun v => 0 <= v < 2 ^ 32) (sid_sub s).

Definition sid_valid (s : sid) : bool :=
  (sid_revision s =? SID_REVISION) && (sid_count s <=? SID_MAX_SUB_AUTHORITIES).

(** [p] points to the image of [s]. *)
Definition sid_at (e : endian) (p : mem) (s : sid) : Prop :=
  sid_wf s /\ exists rest, p = sid_bytes e s ++ rest.

(** * Lemmas *)

Lemma zlen_sub_bytes e l : zlen (sub_bytes e l) = 4 * Z.of_nat (length l).
Proof.
  unfold sub_bytes. induction l as [|v l IH]; [done|].
  cbn [flat_map length]. rewrite zlen_app, zlen_encode, IH. lia.
Qed.

Lemma zlen_sid_header s : sid_wf s -> zlen (sid_header s) = 8.
Proof. intros (_ & ? & _). unfold sid_header. zl. Qed.

Lemma zlen_sid_bytes e s : sid_wf s -> zlen (sid_bytes e s) = 8 + 4 * sid_count s.
Proof. intros Hw. unfold sid_bytes. rewrite zlen_app, zlen_sub_bytes, zlen_sid_header by done. done. Qed.

Lemma sid_count_nonneg s : 0 <= sid_count s.
Proof. unfold sid_count. lia. Qed.

Lemma sub_bytes_app e l k : sub_bytes e (l ++ k) = sub_bytes e l ++ sub_bytes e k.
Proof. apply flat_map_app. Qed.

Lemma sub_bytes_1 e v : sub_bytes e [v] = encode e 4 v.
Proof. unfold sub_bytes. simpl flat_map. apply app_nil_r. Qed.

Lemma bytes_ok_sub_bytes e l : bytes_ok (sub_bytes e l).
Proof.
  unfold sub_bytes. induction l; [constructor|]. simpl. apply bytes_ok_app.
  split; [apply bytes_ok_encode | done].
Qed.

Lemma bytes_ok_sid e s : sid_wf s -> bytes_ok (sid_bytes e s).
Proof.
  intros (? & ? & ? & ? & ?). pose proof (sid_count_nonneg s).
  unfold sid_bytes, sid_header. rewrite !bytes_ok_app.
  split; [split; [|done] | apply bytes_ok_sub_bytes].
  repeat constructor; lia.
Qed.

#[export] Hint Rewrite zlen_sub_bytes zlen_zeros using lia : zlen.
#[export] Hint Rewrite zlen_sid_bytes using done : zlen.

Lemma encode_inj e n v w :
  0 <= v < 256 ^ Z.of_nat n -> 0 <= w < 256 ^ Z.of_nat n ->
  encode e n v = encode e n w -> v = w.
Proof. intros Hv Hw E. rewrite <- (decode_encode e n v), <- (decode_encode e n w), E by done. done. Qed.

Lemma sub_bytes_inj e l k :
  Forall (fun v => 0 <= v < 2 ^ 32) l -> Forall (fun v => 0 <= v < 2 ^ 32) k ->
  length l = length k -> sub_bytes e l = sub_bytes e k -> l = k.
Proof.
  intros Hl. revert k. induction Hl as [|v l Hv Hl IH]; intros [|w k] Hk HL HE; try done.
  apply Forall_cons_iff in Hk as [Hw Hk]. cbn [sub_bytes flat_map] in HE.
  apply app_inj_1 in HE as [HE1 HE2].
  - f_equal; [by apply (encode_inj e 4) | apply IH; [done|simpl in HL; lia|done]].
  - pose proof (zlen_encode e 4 v). pose proof (zlen_encode e 4 w). unfold zlen in *. lia.
Qed.

Lemma sid_bytes_inj e s t :
  sid_wf s -> sid_wf t -> sid_bytes e s = sid_bytes e t -> s = t.
Proof.
  intros Hs Ht HE. pose proof (zlen_sid_header s Hs). pose proof (zlen_sid_header t Ht).
  destruct Hs as (_ & Hsa & _ & _ & Hss), Ht as (_ & Hta & _ & _ & Hts).
  unfold sid_bytes in HE. apply app_inj_1 in HE as [HE1 HE2]; [|unfold zlen in *; lia].
  unfold sid_header in HE1. simpl in HE1. injection HE1 as Hr Hc Ha.
  destruct s as [r a l], t as [r' a' k]; simpl in *. unfold sid_count in Hc; simpl in Hc.
  f_equal; [done..|]. apply (sub_bytes_inj e); auto. lia.
Qed.

(** ** Reading a SID in memory *)

Section Reads.
Context `{Host} (e : endian) (p : mem) (s : sid) (Hat : sid_at e p s).

Lemma sid_at_wf : sid_wf s.
Proof using Hat. apply Hat. Qed.

Lemma sid_at_revision : Sid_Revision p = Some (sid_revision s).
Proof using Hat.
  destruct Hat as (Hw & rest & ->). unfold Sid_Revision, ld8, sid_bytes, sid_header.
  rewrite <- !app_assoc. change ([sid_revision s; sid_count s] ++ ?r)
    with ([] ++ [sid_revision s] ++ (sid_count s :: r)).
  rewrite rd_at by done. simpl. f_equal. lia.
Qed.

Lemma sid_at_count : Sid_SubAuthorityCount p = Some (sid_count s).
Proof using Hat.
  destruct Hat as (Hw & rest & ->). unfold Sid_SubAuthorityCount, ld8, sid_bytes, sid_header.
  rewrite <- !app_assoc. change ([sid_revision s; sid_count s] ++ ?r)
    with ([sid_revision s] ++ [sid_count s] ++ r).
  rewrite rd_at by done. simpl. f_equal. lia.
Qed.

Lemma sid_at_authority : Sid_IdentifierAuthority p = Some (sid_authority s).
Proof using Hat.
  destruct Hat as (Hw & rest & ->). unfold Sid_IdentifierAuthority, sid_bytes, sid_header.
  rewrite <- !app_assoc. apply rd_at; [done|]. destruct Hw as (_ & ? & _). lia.
Qed.

Lemma sid_at_rd : rd p 0 (8 + 4 * sid_count s) = Some (sid_bytes e s).
Proof using Hat.
  destruct Hat as (Hw & rest & ->). apply (rd_at []); [done|]. by rewrite zlen_sid_bytes.
Qed.

Lemma sid_length_small : RtlLengthRequiredSid (sid_count s) = 8 + 4 * sid_count s.
Proof using Hat.
  destruct sid_at_wf as (_ & _ & _ & ? & _). pose proof (sid_count_nonneg s).
  unfold RtlLengthRequiredSid, u32, SID_MIN_SIZE. apply Z.mod_small. lia.
Qed.

Lemma sid_at_length : RtlLengthSid p = Some (8 + 4 * sid_count s).
Proof using Hat. unfold RtlLengthSid. rewrite sid_at_count. simpl. by rewrite sid_length_small. Qed.

Lemma sid_at_zlen : 8 + 4 * sid_count s <= zlen p.
Proof using Hat. destruct Hat as (Hw & rest & ->). rewrite zlen_app, zlen_sid_bytes by done. zl. Qed.

Lemma sid_at_valid : RtlValidSid (Some p) = Some (sid_valid s).
Proof using Hat.
  unfold RtlValidSid, sid_valid. rewrite sid_at_revision. simpl.
  destruct (_ =? _); [|done]. rewrite sid_at_count. done.
Qed.
End Reads.

Lemma sid_at_sub `{Host} p s i v :
  sid_at host p s -> sid_sub s !! i = Some v -> Sid_SubAuthority p (Z.of_nat i) = Some v.
Proof.
  intros (Hw & rest & ->) Hi. apply list_elem_of_split_length in Hi as (l & k & Hl & ->).
  unfold Sid_SubAuthority, ld32, sid_bytes. rewrite Hl, sub_bytes_app.
  change (sub_bytes host (v :: k)) with (encode host 4 v ++ sub_bytes host k).
  rewrite <- !app_assoc, app_assoc. pose proof (zlen_sid_header s Hw).
  rewrite rd_at by zl. simpl. rewrite decode_encode; [done|].
  destruct Hw as (_ & _ & _ & _ & Hs). rewrite Hl in Hs. apply Forall_app in Hs as [_ Hs].
  apply Forall_cons_iff in Hs as [Hv _]. done.
Qed.

#[export] Hint Resolve sid_at_wf sid_at_revision sid_at_count sid_at_authority sid_at_length : lw.

(** ** Comparisons *)

Lemma RtlEqualSid_decide `{Host} e p q s t :
  sid_at e p s -> sid_at e q t -> RtlEqualSid p q = Some (bool_decide (s = t)).
Proof.
  intros Hp Hq. unfold RtlEqualSid.
  rewrite (sid_at_count e p s Hp), (sid_at_count e q t Hq). simpl.
  destruct (Z.eqb_spec (sid_count s) (sid_count t)) as [Hc|Hc].
  - rewrite (sid_at_length e p s Hp). simpl. unfold RtlEqualMemory.
    rewrite (sid_at_rd e p s Hp), Hc, (sid_at_rd e q t Hq). simpl. f_equal.
    apply bool_decide_ext. split; [|by intros ->].
    apply sid_bytes_inj; eauto with lw.
  - f_equal. symmetry. apply bool_decide_eq_false. congruence.
Qed.

Lemma sid_at_split e q t k :
  sid_at e q t -> (k <= length (sid_sub t))%nat ->
  exists rest, q = [sid_revision t; sid_count t] ++
                   (sid_authority t ++ sub_bytes e (take k (sid_sub t))) ++ rest.
Proof.
  intros (Hw & rest & ->) Hk. unfold sid_bytes, sid_header.
  replace (sub_bytes e (sid_sub t))
    with (sub_bytes e (take k (sid_sub t)) ++ sub_bytes e (drop k (sid_sub t)))
    by (rewrite <- sub_bytes_app, take_drop; done).
  eexists. rewrite <- !app_assoc. done.
Qed.

Lemma sid_at_rd_sub e q t k :
  sid_at e q t -> (k <= length (sid_sub t))%nat ->
  rd q 2 (6 + 4 * Z.of_nat k) = Some (sid_authority t ++ sub_bytes e (take k (sid_sub t))).
Proof.
  intros Hq Hk. destruct (sid_at_split e q t k Hq Hk) as (rest & ->).
  apply rd_at; [done|]. destruct (sid_at_wf _ _ _ Hq) as (_ & ? & _).
  rewrite zlen_app, zlen_sub_bytes, length_take. lia.
Qed.

Lemma sid_at_rd_prefix e q t k :
  sid_at e q t -> (k <= length (sid_sub t))%nat ->
  rd q 0 (8 + 4 * Z.of_nat k) =
  Some ([sid_revision t; sid_count t] ++ sid_authority t ++ sub_bytes e (take k (sid_sub t))).
Proof.
  intros Hq Hk. destruct (sid_at_split e q t k Hq Hk) as (rest & ->).
  rewrite (app_assoc [_; _]). apply (rd_at []); [done|].
  destruct (sid_at_wf _ _ _ Hq) as (_ & ? & _).
  rewrite zlen_app, zlen_app, zlen_sub_bytes, length_take. zl.
Qed.

Lemma authority_sub_inj e s t l k :
  sid_wf s -> sid_wf t -> length l = length k ->
  Forall (fun v => 0 <= v < 2 ^ 32) l -> Forall (fun v => 0 <= v < 2 ^ 32) k ->
  sid_authority s ++ sub_bytes e l = sid_authority t ++ sub_bytes e k <->
  sid_authority s = sid_authority t /\ l = k.
Proof.
  intros (_ & Hs & _) (_ & Ht & _) Hlen Hl Hk. split; [|by intros [-> ->]].
  intros HE. apply app_inj_1 in HE as [-> HE]; [|unfold zlen in *; lia].
  split; [done|]. by apply (sub_bytes_inj e).
Qed.

Lemma prefix_take_eq (l k : list Z) : l `prefix_of` k <-> l = take (length l) k.
Proof.
  split; [intros [r ->]; by rewrite take_app_length|].
  intros HE. exists (drop (length l) k). rewrite HE at 1. by rewrite take_drop.
Qed.

(** [RtlIsPrefixSid]: same revision and authority, and the sub-authorities of
    the first SID start those of the second. *)
Definition is_prefix (s t : sid) : Prop :=
  sid_revision s = sid_revision t /\ sid_authority s = sid_authority t /\
  sid_sub s `prefix_of` sid_sub t.

#[global] Instance is_prefix_dec s t : Decision (is_prefix s t).
Proof. unfold is_prefix. apply _. Defined.

Lemma RtlIsPrefixSid_decide `{Host} e p q s t :
  sid_at e p s -> sid_at e q t -> RtlIsPrefixSid p q = Some (bool_decide (is_prefix s t)).
Proof.
  intros Hp Hq. unfold RtlIsPrefixSid.
  pose proof (sid_count_nonneg s). pose proof (sid_at_wf _ _ _ Hp) as Hs.
  pose proof (sid_at_wf _ _ _ Hq) as Ht.
  rewrite (sid_at_length e p s Hp). simpl.
  rewrite (sid_at_count e p s Hp), (sid_at_count e q t Hq). simpl.
  destruct (Z.leb_spec (sid_count s) (sid_count t)) as [Hc|Hc].
  2:{ f_equal. symmetry. apply bool_decide_eq_false. intros (_ & _ & Hpre).
      apply prefix_length in Hpre. unfold sid_count in *. lia. }
  rewrite (sid_at_revision e p s Hp), (sid_at_revision e q t Hq). simpl.
  destruct (Z.eqb_spec (sid_revision s) (sid_revision t)) as [Hr|Hr].
  2:{ f_equal. symmetry. apply bool_decide_eq_false. by intros (? & _). }
  assert (u32 (8 + 4 * sid_count s - (1 + 1)) = 6 + 4 * Z.of_nat (length (sid_sub s))) as ->.
  { unfold sid_count, u32 in *. destruct Hs as (_ & _ & _ & Hs & _). unfold sid_count in Hs.
    rewrite Z.mod_small by lia. lia. }
  unfold sid_count in Hc.
  rewrite (sid_at_rd_sub e p s _ Hp), (sid_at_rd_sub e q t _ Hq) by lia. simpl. f_equal.
  rewrite firstn_all. apply bool_decide_ext.
  destruct Hs as (Hs1 & Hs2 & Hs3 & Hs4 & Hs5), Ht as (Ht1 & Ht2 & Ht3 & Ht4 & Ht5).
  rewrite authority_sub_inj; [|done|done|rewrite length_take; lia|done|by apply Forall_take].
  unfold is_prefix. rewrite prefix_take_eq. tauto.
Qed.

(** [RtlEqualPrefixSid]: equal but for the last sub-authority. *)
Definition equal_prefix (s t : sid) : Prop :=
  length (sid_sub s) = length (sid_sub t) /\
  sid_revision s = sid_revision t /\ sid_authority s = sid_authority t /\
  take (pred (length (sid_sub s))) (sid_sub s) = take (pred (length (sid_sub s))) (sid_sub t).

#[global] Instance equal_prefix_dec s t : Decision (equal_prefix s t).
Proof. unfold equal_prefix. apply _. Defined.

Lemma RtlEqualPrefixSid_decide `{Host} e p q s t :
  sid_at e p s -> sid_at e q t -> RtlEqualPrefixSid p q = Some (bool_decide (equal_prefix s t)).
Proof.
  intros Hp Hq. unfold RtlEqualPrefixSid.
  pose proof (sid_at_wf _ _ _ Hp) as Hs. pose proof (sid_at_wf _ _ _ Hq) as Ht.
  rewrite (sid_at_count e p s Hp), (sid_at_count e q t Hq). simpl.
  destruct (Z.eqb_spec (sid_count s) (sid_count t)) as [Hc|Hc].
  2:{ f_equal. symmetry. apply bool_decide_eq_false. intros (? & _).
      unfold sid_count in *. lia. }
  set (n := pred (length (sid_sub s))).
  assert (RtlLengthRequiredSid (if 0 <? sid_count s then sid_count s - 1 else sid_count s)
          = 8 + 4 * Z.of_nat n) as ->.
  { destruct Hs as (_ & _ & _ & Hs & _). unfold sid_count, RtlLengthRequiredSid, u32, SID_MIN_SIZE in *.
    bool_case; rewrite Z.mod_small; lia. }
  unfold sid_count in Hc. unfold RtlEqualMemory.
  rewrite (sid_at_rd_prefix e p s n Hp), (sid_at_rd_prefix e q t n Hq) by lia.
  simpl. f_equal. apply bool_decide_ext. unfold equal_prefix. fold n.
  assert (Forall (fun v => 0 <= v < 2 ^ 32) (take n (sid_sub s))) by apply Forall_take, Hs.
  assert (Forall (fun v => 0 <= v < 2 ^ 32) (take n (sid_sub t))) by apply Forall_take, Ht.
  pose proof (authority_sub_inj e s t (take n (sid_sub s)) (take n (sid_sub t)) Hs Ht) as HI.
  split.
  - intros [= Hr _ HE]. apply HI in HE as [? ?]; [|rewrite !length_take; lia|done..].
    split_and!; try done. lia.
  - intros (_ & Hr & Ha & Hl). unfold sid_count. rewrite Hr, Hc, Ha, Hl. done.
Qed.

(** ** The little-endian codec *)

Section Codec.
Context `{Host}.

Lemma sid_at_sub_decode e p s i v :
  sid_at e p s -> sid_sub s !! i = Some v ->
  Sid_SubAuthority p (Z.of_nat i) = Some (decode host (encode e 4 v)).
Proof.
  intros (Hw & rest & ->) Hi. apply list_elem_of_split_length in Hi as (l & k & Hl & ->).
  unfold Sid_SubAuthority, ld32, sid_bytes. rewrite Hl, sub_bytes_app.
  change (sub_bytes e (v :: k)) with (encode e 4 v ++ sub_bytes e k).
  rewrite <- !app_assoc, app_assoc. pose proof (zlen_sid_header s Hw).
  rewrite rd_at by zl. done.
Qed.

(** [f] converts a sub-authority read from an image in order [e1] so that
    storing it gives the image in order [e2]. *)
Definition converts (f : Z -> Z) (e1 e2 : endian) : Prop :=
  forall v, 0 <= v < 2 ^ 32 -> encode host 4 (f (decode host (encode e1 4 v))) = encode e2 4 v.

Lemma converts_HTOL32 : converts LW_HTOL32 host LittleEndian.
Proof. intros v Hv. rewrite decode_encode by done. apply encode_HTOL32. Qed.

Lemma converts_LTOH32 : converts LW_LTOH32 LittleEndian host.
Proof.
  intros v Hv. rewrite LTOH32_decode by (auto with lw; apply zlen_encode).
  change (encode LittleEndian 4 v) with (le_encode 4 v). by rewrite (le_decode_encode 4).
Qed.

Lemma converts_id : converts id host host.
Proof. intros v Hv. unfold id. by rewrite decode_encode. Qed.

Lemma map_SubAuthority_spec f e1 e2 p s (Hf : converts f e1 e2) (Hp : sid_at e1 p s) :
  forall k l pre old post loc,
  sid_sub s = l ++ k -> zlen pre = loc + 8 + 4 * Z.of_nat (length l) ->
  zlen old = 4 * Z.of_nat (length k) ->
  map_SubAuthority f (length k) (Z.of_nat (length l)) p (pre ++ old ++ post) loc =
  Some (pre ++ sub_bytes e2 k ++ post).
Proof.
  induction k as [|v k IH]; intros l pre old post loc Hl Hpre Hold.
  - apply zlen_0_inv in Hold as ->. done.
  - cbn [map_SubAuthority length]. cbn [length] in Hold.
    rewrite (sid_at_sub_decode e1 p s (length l) v Hp)
      by (rewrite Hl; apply list_lookup_middle; done). simpl.
    destruct (zlen_split old 4) as (o4 & old' & -> & Ho4); [lia|]. rewrite zlen_app in Hold.
    unfold st32. rewrite <- Hpre, <- app_assoc, wr_at by (autorewrite with zlen; lia). simpl.
    assert (0 <= v < 2 ^ 32) as Hv.
    { destruct (sid_at_wf _ _ _ Hp) as (_ & _ & _ & _ & Hs). rewrite Hl in Hs.
      apply Forall_app in Hs as [_ Hs]. by apply Forall_cons_iff in Hs as [Hs _]. }
    rewrite (Hf v Hv), app_assoc.
    replace (Z.of_nat (length l) + 1) with (Z.of_nat (length (l ++ [v])))
      by (rewrite length_app; simpl; lia).
    rewrite IH.
    + cbn [sub_bytes flat_map]. rewrite <- !app_assoc. done.
    + rewrite Hl, <- app_assoc. done.
    + rewrite length_app. simpl. autorewrite with zlen. lia.
    + lia.
Qed.

(** The loop over all the sub-authorities, after the header is written. *)
Lemma map_SubAuthority_all f e1 e2 p s pre old post :
  converts f e1 e2 -> sid_at e1 p s -> zlen old = 4 * Z.of_nat (length (sid_sub s)) ->
  map_SubAuthority f (Z.to_nat (sid_count s)) 0 p
    (pre ++ sid_revision s :: sid_count s :: sid_authority s ++ old ++ post) (zlen pre) =
  Some (pre ++ sid_bytes e2 s ++ post).
Proof.
  intros Hf Hp Hold. unfold sid_count at 1. rewrite Nat2Z.id.
  pose proof (zlen_sid_header s (sid_at_wf _ _ _ Hp)).
  pose proof (map_SubAuthority_spec f e1 e2 p s Hf Hp (sid_sub s) []
                (pre ++ sid_header s) old post (zlen pre) eq_refl) as HM.
  unfold sid_bytes, sid_header in *. rewrite <- !app_assoc in *. simpl in HM.
  apply HM; zl.
Qed.

Lemma le_encode_1 v : 0 <= v < 256 -> le_encode 1 v = [v].
Proof. intros. cbn. rewrite Z.mod_small by lia. done. Qed.

(** The three header stores, on a destination [pre ++ old ++ post]. *)
Lemma st_revision pre o0 rest v :
  0 <= v < 256 -> st8 (pre ++ o0 :: rest) (zlen pre) v = Some (pre ++ v :: rest).
Proof.
  intros. unfold st8. rewrite le_encode_1 by done.
  apply (wr_at pre [o0] [v] rest); done.
Qed.

Lemma st_count pre o0 o1 rest v :
  0 <= v < 256 -> st8 (pre ++ o0 :: o1 :: rest) (zlen pre + 1) v = Some (pre ++ o0 :: v :: rest).
Proof.
  intros. unfold st8. rewrite le_encode_1 by done.
  pose proof (wr_at (pre ++ [o0]) [o1] [v] rest (zlen pre + 1)) as Hw.
  rewrite <- !app_assoc in Hw. apply Hw; zl.
Qed.

Lemma wr_authority pre o0 o1 old rest a :
  zlen old = zlen a ->
  wr (pre ++ o0 :: o1 :: old ++ rest) (zlen pre + 2) a = Some (pre ++ o0 :: o1 :: a ++ rest).
Proof.
  intros. pose proof (wr_at (pre ++ [o0; o1]) old a rest (zlen pre + 2)) as Hw.
  rewrite <- !app_assoc in Hw. apply Hw; zl.
Qed.

Lemma st_revision_0 o0 rest v : 0 <= v < 256 -> st8 (o0 :: rest) 0 v = Some (v :: rest).
Proof. apply (st_revision []). Qed.
Lemma st_count_0 o0 o1 rest v :
  0 <= v < 256 -> st8 (o0 :: o1 :: rest) 1 v = Some (o0 :: v :: rest).
Proof. apply (st_count []). Qed.
Lemma wr_authority_0 o0 o1 old rest a :
  zlen old = zlen a -> wr (o0 :: o1 :: old ++ rest) 2 a = Some (o0 :: o1 :: a ++ rest).
Proof. apply (wr_authority []). Qed.

(** A destination long enough for the image of [s] splits at its fields. *)
Lemma sid_dest_split s old :
  sid_wf s -> zlen old = 8 + 4 * sid_count s ->
  exists o0 o1 o6 osub, old = o0 :: o1 :: o6 ++ osub /\ zlen o6 = 6 /\
    zlen osub = 4 * Z.of_nat (length (sid_sub s)).
Proof.
  intros Hw Hl. pose proof (sid_count_nonneg s).
  destruct old as [|o0 [|o1 old]]; [zl..|]. rewrite !zlen_cons in Hl.
  destruct (zlen_split old 6) as (o6 & osub & -> & H6); [lia|].
  exists o0, o1, o6, osub. rewrite zlen_app in Hl. unfold sid_count in *.
  split_and!; [done|done|lia].
Qed.

Lemma RtlpEncodeLittleEndianSid_spec p s pre old post size :
  sid_at host p s -> zlen old = 8 + 4 * sid_count s -> 8 + 4 * sid_count s <= size ->
  RtlpEncodeLittleEndianSid p (pre ++ old ++ post) (zlen pre) size =
  Some (STATUS_SUCCESS, pre ++ sid_bytes LittleEndian s ++ post, 8 + 4 * sid_count s).
Proof.
  intros Hp Hold Hsz. pose proof (sid_at_wf _ _ _ Hp) as Hw. pose proof (sid_count_nonneg s).
  destruct (sid_dest_split s old Hw Hold) as (o0 & o1 & o6 & osub & -> & H6 & Hsub).
  destruct Hw as (Hr & Ha & _ & Hc & _).
  unfold RtlpEncodeLittleEndianSid, LW_HTOL8. rewrite (sid_at_length _ _ _ Hp). simpl.
  replace (size <? _) with false by (symmetry; apply Z.ltb_ge; lia).
  rewrite (sid_at_revision _ _ _ Hp). simpl. rewrite st_revision by done. simpl.
  rewrite (sid_at_count _ _ _ Hp). simpl. rewrite st_count by lia. simpl.
  rewrite (sid_at_authority _ _ _ Hp). simpl.
  rewrite <- app_assoc, wr_authority by lia. simpl.
  rewrite (map_SubAuthority_all _ _ _ _ _ _ _ _ converts_HTOL32 Hp) by done. done.
Qed.

(** [RtlConvertSidToLittleEndian] is the encoder at the start of the buffer. *)
Lemma RtlConvertSidToLittleEndian_encode p buf size : RtlConvertSidToLittleEndian p buf size = RtlpEncodeLittleEndianSid p buf 0 size.
Proof. unfold RtlConvertSidToLittleEndian, RtlpEncodeLittleEndianSid, RtlLengthSid. by destruct (Sid_SubAuthorityCount p). Qed.

Lemma RtlpDecodeLittleEndianSid_spec p s pre old post :
  sid_at LittleEndian p s -> zlen old = 8 + 4 * sid_count s ->
  RtlpDecodeLittleEndianSid p (pre ++ old ++ post) (zlen pre) =
  Some (pre ++ sid_bytes host s ++ post).
Proof.
  intros Hp Hold. pose proof (sid_at_wf _ _ _ Hp) as Hw. pose proof (sid_count_nonneg s).
  destruct (sid_dest_split s old Hw Hold) as (o0 & o1 & o6 & osub & -> & H6 & Hsub).
  pose proof Hw as (Hr & Ha & _ & Hc & _).
  unfold RtlpDecodeLittleEndianSid, LW_LTOH8.
  rewrite (sid_at_revision _ _ _ Hp). simpl. rewrite st_revision by done. simpl.
  rewrite (sid_at_count _ _ _ Hp). simpl. rewrite st_count by lia. simpl.
  rewrite (sid_at_authority _ _ _ Hp). simpl.
  rewrite <- app_assoc, wr_authority by lia. simpl.
  assert (ld8 (pre ++ sid_revision s :: sid_count s :: sid_authority s ++ osub ++ post)
            (zlen pre + 1) = Some (sid_count s)) as ->.
  { rewrite ld8_app_r by lia. replace (zlen pre + 1 - zlen pre) with 1 by lia.
    apply ld8_second. }
  simpl. apply (map_SubAuthority_all _ _ _ _ _ _ _ _ converts_LTOH32 Hp). done.
Qed.
End Codec.

(** ** Parsing an image *)

Lemma sub_bytes_parse e n l :
  bytes_ok l -> zlen l = 4 * Z.of_nat n ->
  exists sub, l = sub_bytes e sub /\ length sub = n /\ Forall (fun v => 0 <= v < 2 ^ 32) sub.
Proof.
  revert l. induction n as [|n IH]; intros l Hb Hl.
  - apply zlen_0_inv in Hl as ->. exists []. done.
  - destruct (zlen_split l 4) as (w & r & -> & Hw); [lia|]. rewrite zlen_app in Hl.
    apply bytes_ok_app in Hb as [Hbw Hbr].
    destruct (IH r Hbr) as (sub & -> & <- & Hs); [lia|].
    pose proof (decode_range e w Hbw) as Hd. rewrite Hw in Hd.
    exists (decode e w :: sub). split; [|split; [done|by constructor]].
    cbn [sub_bytes flat_map]. f_equal. rewrite <- (encode_decode e w Hbw) at 1.
    f_equal. unfold zlen in Hw. lia.
Qed.

Lemma sid_parse e b c :
  bytes_ok b -> ld8 b 1 = Some c -> 8 + 4 * c <= zlen b ->
  exists s rest, b = sid_bytes e s ++ rest /\ sid_wf s /\ sid_count s = c.
Proof.
  intros Hb Hc Hl. pose proof (ld8_range _ _ _ Hb Hc).
  destruct b as [|r [|c' b]]; [zl..|]. rewrite ld8_second in Hc. injection Hc as ->.
  rewrite !zlen_cons in Hl.
  destruct (zlen_split b 6) as (a & b' & -> & Ha); [lia|]. rewrite zlen_app in Hl.
  destruct (zlen_split b' (4 * c)) as (l & rest & -> & Hsub); [lia|].
  apply Forall_cons_iff in Hb as [Hr Hb]. apply Forall_cons_iff in Hb as [_ Hb].
  apply bytes_ok_app in Hb as [Hba Hb]. apply bytes_ok_app in Hb as [Hbl _].
  destruct (sub_bytes_parse e (Z.to_nat c) l Hbl) as (sub & -> & Hlen & Hf); [lia|].
  assert (sid_count (mk_sid r a sub) = c) as Hcount by (unfold sid_count; simpl; lia).
  exists (mk_sid r a sub), rest. split_and!; [|unfold sid_wf; simpl|done].
  - unfold sid_bytes, sid_header. rewrite Hcount. simpl. rewrite <- app_assoc. done.
  - split_and!; try done; lia.
Qed.

Lemma sid_at_det e p s t : sid_at e p s -> sid_at e p t -> s = t.
Proof.
  intros Hs Ht. pose proof (sid_at_count _ _ _ Hs) as Hcs. pose proof (sid_at_count _ _ _ Ht) as Hct.
  rewrite Hcs in Hct. injection Hct as Hc.
  pose proof (sid_at_rd _ _ _ Hs) as Hrs. pose proof (sid_at_rd _ _ _ Ht) as Hrt.
  rewrite Hc, Hrt in Hrs. apply (sid_bytes_inj e); [eauto with lw..|congruence].
Qed.

Lemma RtlLengthRequiredSid_small c : 0 <= c < 256 -> RtlLengthRequiredSid c = 8 + 4 * c.
Proof. intros. unfold RtlLengthRequiredSid, u32, SID_MIN_SIZE. apply Z.mod_small. lia. Qed.

(** ** Building SIDs *)

Section Build.
Context `{Host}.

Lemma RtlInitializeSid_spec o0 o1 o6 osub post a n :
  zlen o6 = 6 -> zlen a = 6 -> 0 <= n <= 15 -> zlen osub = 4 * n ->
  RtlInitializeSid (Some (o0 :: o1 :: o6 ++ osub ++ post)) (Some a) n =
  Some (STATUS_SUCCESS, Some (1 :: n :: a ++ zeros (4 * n) ++ post)).
Proof.
  intros H6 Ha Hn Hsub. unfold RtlInitializeSid, SID_MAX_SUB_AUTHORITIES, SID_REVISION.
  replace (15 <? n) with false by (symmetry; apply Z.ltb_ge; lia).
  rewrite st_revision_0 by lia. bsimpl.
  rewrite st_count_0 by lia. bsimpl. rewrite (rd_full a) by lia. bsimpl.
  rewrite wr_authority_0 by lia. bsimpl. unfold RtlZeroMemory.
  pose proof (wr_at ([1; n] ++ a) osub (zeros (4 * n)) post 8) as Hw.
  rewrite <- !app_assoc in Hw. simpl in Hw. rewrite Hw; [done|zl|zl].
Qed.

(** The image of a SID with one more sub-authority. *)
Definition sid_snoc (s : sid) (rid : Z) : sid :=
  mk_sid (sid_revision s) (sid_authority s) (sid_sub s ++ [rid]).

Lemma sid_count_snoc s rid : sid_count (sid_snoc s rid) = sid_count s + 1.
Proof. unfold sid_count, sid_snoc. simpl. rewrite length_app. simpl. lia. Qed.

Lemma sid_wf_snoc s rid :
  sid_wf s -> sid_count s < 255 -> 0 <= rid < 2 ^ 32 -> sid_wf (sid_snoc s rid).
Proof.
  intros (? & ? & ? & ? & ?) ? ?. unfold sid_wf. rewrite sid_count_snoc. simpl.
  split_and!; try done; try lia. apply Forall_app. split; [done|]. constructor; [done | constructor].
Qed.

Lemma RtlAppendRidSid_spec s old post len rid :
  sid_wf s -> sid_count s < 15 -> 0 <= rid < 2 ^ 32 -> zlen old = 4 ->
  8 + 4 * (sid_count s + 1) <= len ->
  RtlAppendRidSid len (sid_bytes host s ++ old ++ post) rid =
  Some (STATUS_SUCCESS, sid_bytes host (sid_snoc s rid) ++ post).
Proof.
  intros Hw Hc Hr Hold Hlen. pose proof (sid_count_nonneg s).
  assert (sid_at host (sid_bytes host s ++ old ++ post) s) as Hat by (split; eauto).
  unfold RtlAppendRidSid, SID_MAX_SUB_AUTHORITIES. rewrite (sid_at_count _ _ _ Hat). bsimpl.
  replace (15 <=? sid_count s) with false by (symmetry; apply Z.leb_gt; lia).
  rewrite RtlLengthRequiredSid_small by lia.
  replace (len <? _) with false by (symmetry; apply Z.ltb_ge; lia).
  unfold st32. rewrite wr_at by (rewrite ?zlen_sid_bytes, ?zlen_encode by done; lia). bsimpl.
  unfold u8. rewrite Z.mod_small by lia.
  unfold sid_bytes, sid_header. rewrite <- !app_assoc. simpl.
  rewrite st_count_0 by lia. bsimpl.
  rewrite sid_count_snoc, sub_bytes_app, sub_bytes_1, <- !app_assoc. done.
Qed.

Lemma sid_at_snoc_rid s rid rest :
  sid_wf s -> sid_count s < 255 -> 0 <= rid < 2 ^ 32 ->
  RtlGetRidSid true (Some (sid_bytes host (sid_snoc s rid) ++ rest)) =
  Some (STATUS_SUCCESS, Some rid).
Proof.
  intros Hw Hc Hr. pose proof (sid_count_nonneg s).
  assert (sid_at host (sid_bytes host (sid_snoc s rid) ++ rest) (sid_snoc s rid)) as Hat.
  { split; [by apply sid_wf_snoc | eauto]. }
  unfold RtlGetRidSid. cbn [negb]. rewrite (sid_at_count _ _ _ Hat), sid_count_snoc. bsimpl.
  replace (sid_count s + 1 =? 0) with false by (symmetry; apply Z.eqb_neq; lia).
  replace (sid_count s + 1 - 1) with (sid_count s) by lia. unfold sid_count.
  rewrite (sid_at_sub _ _ (length (sid_sub s)) rid Hat); [done|].
  simpl. by apply list_lookup_middle.
Qed.

(** ** Well-known SIDs *)

(** What [RtlCreateWellKnownSid] produces: a table of SIDs for the fixed types;
    for the account types, the NT authority with the sub-authorities of the
    domain and the RID. *)
Definition well_known_sid (t : WELL_KNOWN_SID_TYPE) (dom : option sid) : option sid :=
  let fixed auth sub := Some (mk_sid 1 [0; 0; 0; 0; 0; auth] sub) in
  let account rid :=
    d ← dom; if sid_count d <? 15 then fixed 5 (sid_sub d ++ [rid]) else None in
  match t with
  | WinWorldSid => fixed 1 [0]
  | WinNetworkSid => fixed 1 [2]
  | WinInteractiveSid => fixed 1 [4]
  | WinCreatorOwnerSid => fixed 3 [0]
  | WinCreatorGroupSid => fixed 3 [1]
  | WinAnonymousSid => fixed 3 [7]
  | WinAuthenticatedUserSid => fixed 5 [11]
  | WinLocalSystemSid => fixed 5 [18]
  | WinLocalServiceSid => fixed 5 [19]
  | WinBuiltinDomainSid => fixed 5 [32]
  | WinBuiltinAdministratorsSid => fixed 5 [32; 544]
  | WinBuiltinUsersSid => fixed 5 [32; 545]
  | WinBuiltinGuestsSid => fixed 5 [32; 546]
  | WinBuiltinPowerUsersSid => fixed 5 [32; 547]
  | WinBuiltinPrintOperatorsSid => fixed 5 [32; 550]
  | WinBuiltinBackupOperatorsSid => fixed 5 [32; 551]
  | WinAccountAdministratorSid => account 500
  | WinAccountGuestSid => account 501
  | WinAccountDomainAdminsSid => account 512
  | WinAccountDomainUsersSid => account 513
  | WinAccountDomainGuestsSid => account 514
  | WinOtherSid _ => None
  end.

Lemma fixed_sid_wf auth sub :
  0 <= auth < 256 -> (length sub <= 15)%nat -> Forall (fun v => 0 <= v < 2 ^ 32) sub ->
  sid_wf (mk_sid 1 [0; 0; 0; 0; 0; auth] sub) /\
  sid_valid (mk_sid 1 [0; 0; 0; 0; 0; auth] sub) = true.
Proof.
  intros Ha Hl Hs. unfold sid_wf, sid_valid, sid_count, SID_MAX_SUB_AUTHORITIES. simpl.
  split; [|apply Z.leb_le; lia]. split_and!; try done; try lia.
  unfold bytes_ok. rewrite !Forall_cons_iff. split_and!; try lia. constructor.
Qed.

Lemma well_known_sid_wf t dom s :
  from_option sid_wf True dom -> well_known_sid t dom = Some s -> sid_wf s /\ sid_valid s = true.
Proof.
  intros Hd Hs. destruct t; simpl in Hs;
    try (injection Hs as <-; apply fixed_sid_wf; [lia|simpl; lia|rewrite !Forall_cons_iff;
         split_and!; try lia; constructor]);
    try done; apply bind_Some in Hs as (d & -> & Hs);
    destruct (Z.ltb_spec (sid_count d) 15); try done; injection Hs as <-;
    destruct Hd as (_ & _ & _ & _ & Hsub); unfold sid_count in *;
    (apply fixed_sid_wf; [lia|rewrite length_app; simpl; lia|]);
    apply Forall_app; (split; [done|constructor; [lia|constructor]]).
Qed.

(** The local buffer after the two switches. *)
Definition well_known_buffer (t : WELL_KNOWN_SID_TYPE) (dom : ptr) : option mem :=
  '(status, buf, i) ← well_known_prefix t dom (zeros SID_MAX_SIZE);
  if is_ok status then
    match well_known_rid t with
    | Some rid => st32 buf (8 + 4 * i) rid
    | None => Some buf
    end
  else None.

Definition well_known_dom (dom : option sid) (pdom : ptr) : Prop :=
  match dom, pdom with
  | Some d, Some p => sid_at host p d
  | None, None => True
  | _, _ => False
  end.

Lemma account_prefix d p :
  sid_at host p d -> sid_count d < 15 ->
  exists o4 rest, zlen o4 = 4 /\
  (c ← Sid_SubAuthorityCount p;
   '(status, s) ← RtlInitializeSid (Some (zeros SID_MAX_SIZE)) (Some SECURITY_NT_AUTHORITY) (u8 (c + 1));
   s ← s;
   if is_ok status then
     s ← map_SubAuthority id (Z.to_nat c) 0 p s 0; Some (STATUS_SUCCESS, s, c)
   else Some (status, s, 0)) =
  Some (STATUS_SUCCESS,
        ([1; sid_count d + 1] ++ SECURITY_NT_AUTHORITY ++ sub_bytes host (sid_sub d)) ++ o4 ++ rest,
        sid_count d).
Proof.
  intros Hp Hc. pose proof (sid_count_nonneg d). set (n := sid_count d) in *.
  exists (zeros 4), (zeros (60 - 4 * (n + 1))). split; [done|].
  rewrite (sid_at_count _ _ _ Hp). bsimpl. fold n. unfold u8. rewrite Z.mod_small by lia.
  assert (zeros SID_MAX_SIZE = 0 :: 0 :: zeros 6 ++ zeros (4 * (n + 1)) ++ zeros (60 - 4 * (n + 1))) as ->.
  { unfold zeros, SID_MAX_SIZE. rewrite <- !replicate_add.
    change (0 :: 0 :: ?l) with (replicate 2 0 ++ l). rewrite <- replicate_add. f_equal. lia. }
  rewrite RtlInitializeSid_spec by first [done | rewrite zlen_zeros; lia | lia]. bsimpl.
  assert (zeros (4 * (n + 1)) = zeros (4 * n) ++ zeros 4) as ->.
  { unfold zeros. rewrite <- replicate_add. f_equal. lia. }
  pose proof (map_SubAuthority_spec id host host p d converts_id Hp (sid_sub d) []
    ([1; n + 1] ++ SECURITY_NT_AUTHORITY) (zeros (4 * n)) (zeros 4 ++ zeros (60 - 4 * (n + 1))) 0
    eq_refl eq_refl) as HM.
  rewrite zlen_zeros in HM by lia. specialize (HM eq_refl).
  assert (Z.to_nat n = length (sid_sub d)) as -> by (unfold n, sid_count; lia).
  rewrite <- !app_assoc in *. simpl app in *. change (is_ok STATUS_SUCCESS) with true. cbv iota.
  change (Z.of_nat (length [])) with 0 in HM. rewrite HM. done.
Qed.

Lemma well_known_buffer_account d p rid :
  sid_at host p d -> sid_count d < 15 -> 0 <= rid < 2 ^ 32 ->
  exists rest,
  ('(status, buf, i) ← (c ← Sid_SubAuthorityCount p;
     '(status, s) ← RtlInitializeSid (Some (zeros SID_MAX_SIZE)) (Some SECURITY_NT_AUTHORITY) (u8 (c + 1));
     s ← s;
     if is_ok status then
       s ← map_SubAuthority id (Z.to_nat c) 0 p s 0; Some (STATUS_SUCCESS, s, c)
     else Some (status, s, 0));
   if is_ok status then st32 buf (8 + 4 * i) rid else None) =
  Some (sid_bytes host (mk_sid 1 SECURITY_NT_AUTHORITY (sid_sub d ++ [rid])) ++ rest).
Proof.
  intros Hp Hc Hr. destruct (account_prefix d p Hp Hc) as (o4 & rest & H4 & ->).
  exists rest. bsimpl. change (is_ok STATUS_SUCCESS) with true. cbv iota.
  unfold st32. rewrite wr_at.
  - f_equal. unfold sid_bytes, sid_header, sid_count at 2. simpl sid_sub. rewrite sub_bytes_app, sub_bytes_1.
    simpl sid_revision. simpl sid_authority. rewrite length_app. simpl length.
    rewrite <- !app_assoc. do 2 f_equal. unfold sid_count. f_equal. lia.
  - rewrite !zlen_app, zlen_sub_bytes. unfold sid_count. change (zlen SECURITY_NT_AUTHORITY) with 6. zl.
  - rewrite zlen_encode, H4. done.
Qed.

Lemma well_known_buffer_spec t dom pdom s :
  well_known_dom dom pdom -> well_known_sid t dom = Some s ->
  exists rest, well_known_buffer t pdom = Some (sid_bytes host s ++ rest).
Proof.
  intros Hd Hs. unfold well_known_buffer.
  destruct t; simpl in Hs;
    try (injection Hs as <-; exists (zeros 56); destruct H; vm_compute; reflexivity);
    try (injection Hs as <-; exists (zeros 52); destruct H; vm_compute; reflexivity);
    try done; apply bind_Some in Hs as (d & -> & Hs);
    (destruct pdom as [p|]; [|done]);
    (destruct (Z.ltb_spec (sid_count d) 15) as [Hc|]; [|done]); injection Hs as <-;
    (eapply well_known_buffer_account; [exact Hd|exact Hc|lia]).
Qed.

Lemma RtlCreateWellKnownSid_unfold t dom Sid size buf :
  well_known_buffer t dom = Some buf ->
  RtlCreateWellKnownSid t dom Sid size =
  (sizeRequired ← RtlLengthSid buf;
   if size <? sizeRequired
   then well_known_fail STATUS_BUFFER_TOO_SMALL Sid size sizeRequired
   else
     sid ← Sid;
     bs ← rd buf 0 sizeRequired;
     s ← wr sid 0 bs;
     Some (STATUS_SUCCESS, Some s, sizeRequired)).
Proof.
  unfold well_known_buffer, RtlCreateWellKnownSid. intros HB.
  destruct (well_known_prefix _ _ _) as [[[st b] i]|]; [|done].
  cbn [mbind option_bind] in *. destruct (is_ok st); [|done]. rewrite HB. done.
Qed.
End Build.

(** * Properties *)

Section Properties.
Context `{Host}.

(** [RtlEqualSid], which compares the counts and then the memory, decides
    equality of the SIDs its arguments point to, and never reads outside them. *)
Theorem RtlEqualSid_correct p q s t :
  sid_at host p s -> sid_at host q t -> RtlEqualSid p q = Some (bool_decide (s = t)).
Proof. apply RtlEqualSid_decide. Qed.

(** [RtlIsPrefixSid] decides that the first SID is a prefix of the second
    (same revision and authority, sub-authorities a prefix), and
    [RtlEqualPrefixSid] that the two agree on all but the last sub-authority. *)
Theorem sid_prefix_tests_correct p q s t :
  sid_at host p s -> sid_at host q t ->
  RtlIsPrefixSid p q = Some (bool_decide (is_prefix s t)) /\
  RtlEqualPrefixSid p q = Some (bool_decide (equal_prefix s t)).
Proof.
  intros Hp Hq. split.
  - by apply (RtlIsPrefixSid_decide host).
  - by apply (RtlEqualPrefixSid_decide host).
Qed.

Lemma RtlpIsValidLittleEndianSidBuffer_spec b size :
  bytes_ok b -> 0 <= size <= zlen b -> size < 2 ^ 32 ->
  is_Some (RtlpIsValidLittleEndianSidBuffer b size) /\
  forall used, RtlpIsValidLittleEndianSidBuffer b size = Some (true, used) <->
    exists s, sid_at LittleEndian b s /\ sid_valid s = true /\
              used = 8 + 4 * sid_count s /\ used <= size.
Proof.
  intros Hb Hs Hs32. unfold RtlpIsValidLittleEndianSidBuffer, LW_LTOH8, SID_MIN_SIZE.
  destruct (Z.ltb_spec size 8).
  { split; [done|]. intros used. split; [done|].
    intros (s & _ & _ & -> & ?). pose proof (sid_count_nonneg s). lia. }
  destruct (ld8_ok b 1) as [c Hc]; [lia..|]. pose proof (ld8_range _ _ _ Hb Hc).
  unfold Sid_SubAuthorityCount at 1 2. rewrite Hc. bsimpl.
  rewrite RtlLengthRequiredSid_small by lia.
  pose proof (RtlpIsBufferAvailable_iff size 0 (8 + 4 * c)) as HA.
  destruct (RtlpIsBufferAvailable size 0 (8 + 4 * c)) eqn:Hav; simpl.
  - destruct (sid_parse LittleEndian b c Hb Hc) as (s & rest & HE & Hw & Hcs); [lia|].
    assert (sid_at LittleEndian b s) as Hat by (split; eauto).
    rewrite (sid_at_valid _ _ _ Hat). bsimpl. split; [eauto|]. intros used. split.
    + destruct (sid_valid s) eqn:Hv; [|done]. intros [= <-]. exists s. split_and!; try done; lia.
    + intros (t & Ht & Hv & -> & _). rewrite <- (sid_at_det _ _ _ _ Hat Ht), Hcs in *.
      by rewrite Hv.
  - split; [done|]. intros used. split; [done|]. intros (s & Hat & _ & -> & ?).
    pose proof (sid_at_count _ _ _ Hat) as Hcs. unfold Sid_SubAuthorityCount in Hcs.
    rewrite Hc in Hcs. injection Hcs as ->. lia.
Qed.

(** [RtlpIsValidLittleEndianSidBuffer] on a buffer of at least the size it
    is told: it never reads outside the buffer, and it accepts exactly the
    buffers that start with the little-endian image of a valid SID that fits in
    the size, returning the size of that image. *)
Theorem RtlpIsValidLittleEndianSidBuffer_correct b size :
  bytes_ok b -> 0 <= size <= zlen b -> size < 2 ^ 32 ->
  is_Some (RtlpIsValidLittleEndianSidBuffer b size) /\
  forall used, RtlpIsValidLittleEndianSidBuffer b size = Some (true, used) <->
    exists s, sid_at LittleEndian b s /\ sid_valid s = true /\
              used = 8 + 4 * sid_count s /\ used <= size.
Proof. apply RtlpIsValidLittleEndianSidBuffer_spec. Qed.

Lemma RtlDuplicateSid_spec malloc p s : sid_at host p s ->
  RtlDuplicateSid malloc p =
    Some (if malloc (8 + 4 * sid_count s) then (STATUS_SUCCESS, Some (sid_bytes host s)) else (STATUS_INSUFFICIENT_RESOURCES, None)).
Proof.
  intros Hp. unfold RtlDuplicateSid, RTL_ALLOCATE. rewrite (sid_at_length _ _ _ Hp). bsimpl. pose proof (sid_count_nonneg s).
  destruct (malloc _); [|done]. rewrite (sid_at_rd _ _ _ Hp). bsimpl.
  rewrite <- (app_nil_r (zeros _)), wr_at_0; [by rewrite app_nil_r|].
  rewrite zlen_zeros, zlen_sid_bytes; [done|by eapply sid_at_wf|lia].
Qed.

(** [RtlCreateWellKnownSid] writes the image of the SID of the table
    [well_known_sid] (for an account type: the domain's sub-authorities and the
    RID) into a buffer that holds it and reports its size; when the buffer is
    too small it fails, zeroes the buffer and reports the size needed.
    [RtlAllocateWellKnownSid] returns the same SID in a block of its size. *)
Theorem RtlCreateWellKnownSid_correct malloc t dom pdom s old post size :
  well_known_dom dom pdom -> well_known_sid t dom = Some s ->
  let n := 8 + 4 * sid_count s in
  sid_valid s = true /\
  (zlen old = n -> n <= size ->
   RtlCreateWellKnownSid t pdom (Some (old ++ post)) size =
   Some (STATUS_SUCCESS, Some (sid_bytes host s ++ post), n)) /\
  (zlen old = size -> size < n ->
   RtlCreateWellKnownSid t pdom (Some (old ++ post)) size =
   Some (STATUS_BUFFER_TOO_SMALL, Some (zeros size ++ post), n)) /\
  RtlAllocateWellKnownSid malloc t pdom =
  Some (if malloc n then (STATUS_SUCCESS, Some (sid_bytes host s)) else (STATUS_INSUFFICIENT_RESOURCES, None)).
Proof.
  intros Hd Hs n. pose proof (sid_count_nonneg s).
  destruct (well_known_sid_wf t dom s) as [Hw Hv]; [|done|].
  { destruct dom, pdom; simpl in *; try done. apply Hd. }
  destruct (well_known_buffer_spec t dom pdom s Hd Hs) as (rest & HB).
  assert (sid_at host (sid_bytes host s ++ rest) s) as Hat by (split; eauto).
  unfold RtlAllocateWellKnownSid. rewrite !(RtlCreateWellKnownSid_unfold _ _ _ _ _ HB), (sid_at_length _ _ _ Hat). bsimpl.
  assert (n <= SID_MAX_SIZE).
  { pose proof Hv as Hv'. unfold sid_valid, SID_MAX_SUB_AUTHORITIES in Hv'. bool_hyps. unfold n, SID_MAX_SIZE. lia. }
  fold n. split_and!; [done|intros Hold Hsz..|].
  - replace (size <? n) with false by (symmetry; apply Z.ltb_ge; lia). unfold n.
    rewrite (sid_at_rd _ _ _ Hat). bsimpl.
    rewrite wr_at_0; [done|]. by rewrite zlen_sid_bytes.
  - replace (size <? n) with true by (symmetry; apply Z.ltb_lt; lia).
    unfold well_known_fail, RtlZeroMemory. pose proof (zlen_nonneg old).
    rewrite wr_at_0; [done|]. rewrite zlen_zeros; lia.
  - destruct (Z.ltb_spec SID_MAX_SIZE n); [lia|]. unfold n. rewrite (sid_at_rd _ _ _ Hat). bsimpl. fold n.
    destruct (zlen_split (zeros SID_MAX_SIZE) n) as (z & z' & -> & Hz); [rewrite zlen_zeros; unfold SID_MAX_SIZE in *; lia|].
    rewrite wr_at_0 by (by rewrite zlen_sid_bytes). bsimpl. rewrite is_ok_success. bsimpl. apply RtlDuplicateSid_spec. split; eauto.
Qed.

(** [RtlCopySid] copies the image of the SID into a buffer that holds it and
    leaves a shorter one as it was; [RtlDuplicateSid] returns the image in a
    block of its size, or fails with the allocator. *)
Theorem sid_copies_correct malloc p s old post len :
  sid_at host p s -> zlen old = 8 + 4 * sid_count s ->
  let n := 8 + 4 * sid_count s in
  RtlCopySid len (old ++ post) p =
    Some (if n <=? len then (STATUS_SUCCESS, sid_bytes host s ++ post) else (STATUS_BUFFER_TOO_SMALL, old ++ post)) /\
  RtlDuplicateSid malloc p =
    Some (if malloc n then (STATUS_SUCCESS, Some (sid_bytes host s)) else (STATUS_INSUFFICIENT_RESOURCES, None)).
Proof.
  intros Hp Hold n. split; [|by apply RtlDuplicateSid_spec]. unfold RtlCopySid. rewrite (sid_at_length _ _ _ Hp). bsimpl.
  fold n. destruct (Z.ltb_spec len n), (Z.leb_spec n len); [lia|done| |lia].
  unfold n. rewrite (sid_at_rd _ _ _ Hp). bsimpl. rewrite wr_at_0; [done|]. by rewrite zlen_sid_bytes by (by eapply sid_at_wf).
Qed.

(** [RtlAppendRidSid] appends the RID to the SID in place when there is a
    sub-authority slot and the buffer holds the longer image; [RtlGetRidSid]
    then returns that RID, and the old SID is a prefix of the new one. With 15
    sub-authorities, or a buffer too small, the SID is left as it was. *)
Theorem RtlAppendRidSid_correct s old post len rid :
  sid_wf s -> zlen old = 4 -> 0 <= rid < 2 ^ 32 ->
  let p := sid_bytes host s ++ old ++ post in
  (sid_count s < 15 -> 8 + 4 * (sid_count s + 1) <= len ->
   let p' := sid_bytes host (sid_snoc s rid) ++ post in
   RtlAppendRidSid len p rid = Some (STATUS_SUCCESS, p') /\
   RtlGetRidSid true (Some p') = Some (STATUS_SUCCESS, Some rid) /\
   RtlIsPrefixSid p p' = Some true) /\
  (15 <= sid_count s -> RtlAppendRidSid len p rid = Some (STATUS_INVALID_PARAMETER, p)) /\
  (sid_count s < 15 -> len < 8 + 4 * (sid_count s + 1) ->
   RtlAppendRidSid len p rid = Some (STATUS_BUFFER_TOO_SMALL, p)).
Proof.
  intros Hw Hold Hr p. pose proof (sid_count_nonneg s).
  assert (sid_at host p s) as Hat by (split; [done|subst p; eauto]).
  assert (15 <= sid_count s \/ sid_count s < 15) as Hcase by lia.
  split_and!.
  - intros Hc Hlen p'. split_and!.
    + by apply RtlAppendRidSid_spec.
    + apply sid_at_snoc_rid; [done|lia|done].
    + assert (sid_at host p' (sid_snoc s rid)) as Hat'.
      { split; [apply sid_wf_snoc; [done|lia|done] | subst p'; eauto]. }
      rewrite (RtlIsPrefixSid_decide host _ _ _ _ Hat Hat'). f_equal.
      apply bool_decide_eq_true. split_and!; [done..|]. simpl. by eexists.
  - intros Hc. unfold RtlAppendRidSid, SID_MAX_SUB_AUTHORITIES.
    rewrite (sid_at_count _ _ _ Hat). bsimpl.
    replace (15 <=? sid_count s) with true by (symmetry; apply Z.leb_le; lia). done.
  - intros Hc Hlen. unfold RtlAppendRidSid, SID_MAX_SUB_AUTHORITIES.
    rewrite (sid_at_count _ _ _ Hat). bsimpl.
    replace (15 <=? sid_count s) with false by (symmetry; apply Z.leb_gt; lia).
    rewrite RtlLengthRequiredSid_small by lia.
    replace (len <? _) with true by (symmetry; apply Z.ltb_lt; lia). done.
Qed.
End Properties.

(** C9: a SID written by [RtlpEncodeLittleEndianSid] on a host of one byte order
    and read by [RtlpDecodeLittleEndianSid] on a host of either byte order is the
    same SID; the encoder writes exactly the bytes of the image, at the place it
    is told, whatever surrounds it. [RtlConvertSidToLittleEndian] and
    [RtlConvertLittleEndianToSid] are such a pair too, with the size of the SID;
    either leaves a buffer that is too short as it was. *)
Theorem sid_codec_roundtrip h1 h2 s p pre old post size dpre dold dpost :
  @sid_at h1 p s -> zlen old = 8 + 4 * sid_count s -> 8 + 4 * sid_count s <= size ->
  zlen dold = 8 + 4 * sid_count s ->
  let n := 8 + 4 * sid_count s in
  exists b, @RtlpEncodeLittleEndianSid h1 p (pre ++ old ++ post) (zlen pre) size = Some (STATUS_SUCCESS, pre ++ b ++ post, n) /\
            @RtlpDecodeLittleEndianSid h2 (b ++ post) (dpre ++ dold ++ dpost) (zlen dpre) =
              Some (dpre ++ sid_bytes h2 s ++ dpost) /\
            @RtlConvertSidToLittleEndian h1 p (old ++ post) size = Some (STATUS_SUCCESS, b ++ post, n) /\
            @RtlConvertLittleEndianToSid h2 (b ++ post) n (dold ++ dpost) size = Some (STATUS_SUCCESS, sid_bytes h2 s ++ dpost, n) /\
            forall short buf, short < n ->
              @RtlConvertSidToLittleEndian h1 p buf short = Some (STATUS_BUFFER_TOO_SMALL, buf, 0) /\
              @RtlConvertLittleEndianToSid h2 (b ++ post) n buf short = Some (STATUS_BUFFER_TOO_SMALL, buf, n).
Proof.
  intros Hp Hold Hsz Hdold n. pose proof (sid_at_wf _ _ _ Hp) as Hw. pose proof (sid_count_nonneg s).
  assert (Hc : sid_count s < 256) by (destruct Hw as (_ & _ & _ & ? & _); lia).
  assert (Hb : sid_at LittleEndian (sid_bytes LittleEndian s ++ post) s) by (split; eauto).
  exists (sid_bytes LittleEndian s). split; [by apply (@RtlpEncodeLittleEndianSid_spec h1)|].
  split; [by apply (@RtlpDecodeLittleEndianSid_spec h2)|].
  split; [rewrite RtlConvertSidToLittleEndian_encode; by apply (@RtlpEncodeLittleEndianSid_spec h1 p s [])|]. split.
  - unfold RtlConvertLittleEndianToSid. destruct (Z.ltb_spec size n); [lia|].
    pose proof (@RtlpDecodeLittleEndianSid_spec h2 _ s [] dold dpost Hb Hdold) as E. cbn [app] in E.
    change (zlen []) with 0 in E. change (@host h2) with h2 in E. rewrite E. bsimpl.
    assert (sid_at h2 (sid_bytes h2 s ++ dpost) s) as Hat by (split; eauto). rewrite (sid_at_count _ _ _ Hat). bsimpl.
    by rewrite RtlLengthRequiredSid_small by lia.
  - intros short buf Hs. unfold RtlConvertSidToLittleEndian, RtlConvertLittleEndianToSid.
    rewrite (sid_at_count _ _ _ Hp). bsimpl. rewrite RtlLengthRequiredSid_small by lia. fold n.
    by destruct (Z.ltb_spec short n); [|lia].
Qed.

(** * Witnesses *)

Definition sid_system : sid := mk_sid 1 [0; 0; 0; 0; 0; 5] [18].
Definition sid_builtin : sid := mk_sid 1 [0; 0; 0; 0; 0; 5] [32].
Definition sid_admins : sid := mk_sid 1 [0; 0; 0; 0; 0; 5] [32; 544].
Definition sid_domain : sid := mk_sid 1 [0; 0; 0; 0; 0; 5] [21; 11; 22; 33].

Lemma known_sid_wf e s :
  s ∈ [sid_system; sid_builtin; sid_admins; sid_domain] ->
  sid_wf s /\ sid_at e (sid_bytes e s) s.
Proof.
  intros Hin. assert (sid_wf s) as Hw.
  { rewrite !elem_of_cons in Hin. destruct Hin as [->|[->|[->|[->|Hin]]]];
      [apply fixed_sid_wf; [lia|simpl; lia|repeat constructor; done]..|].
    by apply not_elem_of_nil in Hin. }
  split; [done|]. split; [done|]. exists []. by rewrite app_nil_r.
Qed.

Lemma RtlEqualSid_correct_witness :
  RtlEqualSid (sid_bytes BigEndian sid_system) (sid_bytes BigEndian sid_admins) = Some false.
Proof.
  apply (@RtlEqualSid_correct BigEndian _ _ sid_system sid_admins);
    apply known_sid_wf; set_solver.
Defined.

Lemma sid_prefix_tests_correct_witness :
  RtlIsPrefixSid (sid_bytes LittleEndian sid_builtin) (sid_bytes LittleEndian sid_admins) = Some true /\
  RtlEqualPrefixSid (sid_bytes LittleEndian sid_builtin) (sid_bytes LittleEndian sid_admins) = Some false.
Proof.
  apply (@sid_prefix_tests_correct LittleEndian _ _ sid_builtin sid_admins);
    apply known_sid_wf; set_solver.
Defined.

Lemma RtlpIsValidLittleEndianSidBuffer_correct_witness :
  RtlpIsValidLittleEndianSidBuffer (sid_bytes LittleEndian sid_admins) 16 = Some (true, 16).
Proof.
  apply (RtlpIsValidLittleEndianSidBuffer_correct (sid_bytes LittleEndian sid_admins) 16).
  - apply bytes_ok_sid, known_sid_wf; [exact LittleEndian | set_solver].
  - vm_compute. split; discriminate.
  - lia.
  - exists sid_admins. split; [apply known_sid_wf; set_solver|]. vm_compute. split; [done|split; done].
Defined.

Lemma sid_codec_roundtrip_witness :
  exists b, @RtlpEncodeLittleEndianSid BigEndian (sid_bytes BigEndian sid_admins)
              ([7] ++ zeros 16 ++ [9]) 1 16 = Some (STATUS_SUCCESS, [7] ++ b ++ [9], 16) /\
            @RtlpDecodeLittleEndianSid LittleEndian (b ++ [9]) ([] ++ zeros 16 ++ []) 0 =
              Some ([] ++ sid_bytes LittleEndian sid_admins ++ []).
Proof.
  destruct (sid_codec_roundtrip BigEndian LittleEndian sid_admins (sid_bytes BigEndian sid_admins)
              [7] (zeros 16) [9] 16 [] (zeros 16) []) as (b & H1 & H2 & _); [apply known_sid_wf; set_solver|done..|].
  exists b. split; [exact H1|exact H2].
Defined.

Lemma sid_copies_correct_witness :
  RtlCopySid 16 (zeros 16 ++ [9]) (sid_bytes LittleEndian sid_admins) = Some (STATUS_SUCCESS, sid_bytes LittleEndian sid_admins ++ [9]).
Proof.
  apply (@sid_copies_correct LittleEndian (fun _ => true) _ sid_admins (zeros 16) [9] 16); [apply known_sid_wf; set_solver|done].
Defined.

Lemma RtlCreateWellKnownSid_correct_witness :
  @RtlCreateWellKnownSid LittleEndian WinAccountDomainAdminsSid
    (Some (sid_bytes LittleEndian sid_domain)) (Some (zeros 28 ++ [])) 68 =
  Some (STATUS_SUCCESS, Some (sid_bytes LittleEndian
          (mk_sid 1 [0; 0; 0; 0; 0; 5] [21; 11; 22; 33; 512]) ++ []), 28).
Proof.
  destruct (@RtlCreateWellKnownSid_correct LittleEndian (fun _ => true) WinAccountDomainAdminsSid (Some sid_domain)
              (Some (sid_bytes LittleEndian sid_domain))
              (mk_sid 1 [0; 0; 0; 0; 0; 5] [21; 11; 22; 33; 512]) (zeros 28) [] 68)
    as (_ & Hok & _); [apply known_sid_wf; set_solver | done |].
  apply Hok; done.
Defined.

Lemma RtlAppendRidSid_correct_witness :
  @RtlAppendRidSid LittleEndian 16 (sid_bytes LittleEndian sid_builtin ++ zeros 4 ++ []) 544 =
  Some (STATUS_SUCCESS, sid_bytes LittleEndian sid_admins ++ []).
Proof.
  destruct (@RtlAppendRidSid_correct LittleEndian sid_builtin (zeros 4) [] 16 544) as (Hok & _);
    [apply (known_sid_wf LittleEndian); set_solver | done | lia |].
  apply Hok; done.
Defined.
