(* ===== verification/Acl.v ===== *)
(** Access control lists: the operations of [lwbase/src/security-acl.c] on the
    in-memory ACL, but for the little-endian conversions, which are in
    [AclCodec].

    An ACL is the byte image of the header

      UCHAR AclRevision; UCHAR Sbz1; USHORT AclSize; USHORT AceCount; USHORT Sbz2;

    followed by the ACEs, packed one after the other, and by unused bytes up to
    [AclSize]. An ACE starts with

      UCHAR AceType; UCHAR AceFlags; USHORT AceSize;

    and, for the standard types, goes on with [ACCESS_MASK Mask] and a SID. A
    location in the ACL that is written through is an offset from its start. *)

From S2P Require Import Prelude SecurityTypes Sid.

Section Operations.
Context `{Host}.

(** * Fields *)

Definition Ace_AceType (a : mem) : option Z := ld8 a 0.
Definition Ace_AceFlags (a : mem) : option Z := ld8 a 1.
Definition Ace_AceSize (a : mem) : option Z := ld16 a 2.
Definition Ace_Mask (a : mem) : option Z := ld32 a 4.

Definition Acl_AclRevision (a : mem) : option Z := ld8 a 0.
Definition Acl_Sbz1 (a : mem) : option Z := ld8 a 1.
Definition Acl_AclSize (a : mem) : option Z := ld16 a 2.
Definition Acl_AceCount (a : mem) : option Z := ld16 a 4.
Definition Acl_Sbz2 (a : mem) : option Z := ld16 a 6.

Definition RtlpGetSidAccessAllowedAce (Ace : mem) : mem := padd Ace 8.

(** The SID of an object ACE follows the GUIDs that its [Flags] say are there. *)
Definition RtlpGetSidAccessAllowedObjectAce (Ace : mem) : option mem :=
  flags ← ld32 Ace 8;
  Some (if flags =? 0 then padd Ace 12
        else if (flags =? ACE_OBJECT_TYPE_PRESENT) || (flags =? ACE_INHERITED_OBJECT_TYPE_PRESENT)
        then padd Ace 28
        else padd Ace 44).

(** * ACE functions *)

Definition RtlpValidAceHeader (Ace : ptr) : option bool :=
  match Ace with
  | None => Some false
  | Some a =>
      size ← Ace_AceSize a;
      if sizeof_ACE_HEADER <=? size then
        f ← Ace_AceFlags a; Some (LW_IS_VALID_FLAGS f VALID_ACE_FLAGS_MASK)
      else Some false
  end.

Definition RtlLengthAccessAllowedAce (Sid : mem) : option Z :=
  n ← RtlLengthSid Sid; Some (u16 (8 + n)).

Definition RtlLengthAccessAllowedObjectAce (Sid : mem) (AceFlags : Z) : option Z :=
  let Size := 12 in
  let Size :=
    if AceFlags =? 0 then Size
    else if (AceFlags =? ACE_OBJECT_TYPE_PRESENT) || (AceFlags =? ACE_INHERITED_OBJECT_TYPE_PRESENT)
    then u16 (Size + sizeof_GUID)
    else u16 (Size + 2 * sizeof_GUID) in
  n ← RtlLengthSid Sid; Some (u16 (Size + n)).

Definition RtlLengthAccessDeniedAce (Sid : mem) : option Z :=
  n ← RtlLengthSid Sid; Some (u16 (8 + n)).
Definition RtlLengthSystemAuditAce (Sid : mem) : option Z :=
  n ← RtlLengthSid Sid; Some (u16 (8 + n)).
Definition RtlLengthAccessAuditAce (Sid : mem) : option Z :=
  n ← RtlLengthSid Sid; Some (u16 (8 + n)).

(** The two validity tests return the status they store; the boolean they
    return is [NT_SUCCESS] of it. *)
Definition RtlpValidAccessAllowedAce (AceSize : Z) (Sid : mem) : option NTSTATUS :=
  sizeRequired ← RtlLengthAccessAllowedAce Sid;
  if negb (sizeRequired =? AceSize) then Some STATUS_INVALID_ACL
  else
    v ← RtlValidSid (Some Sid);
    Some (if (v : bool) then STATUS_SUCCESS else STATUS_INVALID_SID).

Definition RtlpValidAccessAllowedObjectAce (AceSize AceFlags : Z) (Sid : mem) : option NTSTATUS :=
  sizeRequired ← RtlLengthAccessAllowedObjectAce Sid AceFlags;
  if negb (sizeRequired =? AceSize) then Some STATUS_INVALID_ACL
  else
    v ← RtlValidSid (Some Sid);
    Some (if (v : bool) then STATUS_SUCCESS else STATUS_INVALID_SID).

Definition RtlpVerifyAceEx (Ace : ptr) (VerifyAceType : bool) : option NTSTATUS :=
  ok ← RtlpValidAceHeader Ace;
  if negb ok then Some STATUS_INVALID_ACL
  else if negb VerifyAceType then Some STATUS_SUCCESS
  else
    a ← Ace;
    t ← Ace_AceType a;
    let validMask :=
      if (t =? ACCESS_ALLOWED_ACE_TYPE) || (t =? ACCESS_DENIED_ACE_TYPE) then VALID_DACL_ACCESS_MASK
      else if t =? SYSTEM_AUDIT_ACE_TYPE then VALID_SACL_ACCESS_MASK
      else if (t =? ACCESS_ALLOWED_OBJECT_ACE_TYPE) || (t =? ACCESS_DENIED_OBJECT_ACE_TYPE)
      then VALID_DACL_ACCESS_MASK
      else if t =? SYSTEM_AUDIT_OBJECT_ACE_TYPE then VALID_SACL_ACCESS_MASK
      else 0 in
    if (t =? ACCESS_ALLOWED_ACE_TYPE) || (t =? ACCESS_DENIED_ACE_TYPE) || (t =? SYSTEM_AUDIT_ACE_TYPE)
    then
      mask ← Ace_Mask a;
      if negb (LW_IS_VALID_FLAGS mask validMask) then Some STATUS_INVALID_ACL
      else size ← Ace_AceSize a; RtlpValidAccessAllowedAce size (RtlpGetSidAccessAllowedAce a)
    else if (t =? ACCESS_ALLOWED_OBJECT_ACE_TYPE) || (t =? ACCESS_DENIED_OBJECT_ACE_TYPE)
            || (t =? SYSTEM_AUDIT_OBJECT_ACE_TYPE)
    then
      mask ← Ace_Mask a;
      if negb (LW_IS_VALID_FLAGS mask validMask) then Some STATUS_INVALID_ACL
      else
        size ← Ace_AceSize a;
        flags ← ld32 a 8;
        sid ← RtlpGetSidAccessAllowedObjectAce a;
        RtlpValidAccessAllowedObjectAce size flags sid
    else Some STATUS_INVALID_ACL.

Definition RtlpValidAce (Ace : ptr) : option bool :=
  st ← RtlpVerifyAceEx Ace false; Some (NT_SUCCESS st).

(** The common body of the three [RtlInitialize*Ace] functions, on the ACE at
    [loc] of the object [m]: they differ in the type they store and in whether
    they check the mask. *)
Definition initialize_ace (AceType : Z) (CheckMask : bool) (m : mem) (loc AceLength AceFlags AccessMask : Z)
    (Sid : ptr) : option (NTSTATUS * mem) :=
  sid ← Sid;
  size ← RtlLengthAccessAllowedAce sid;
  if negb (LW_IS_VALID_FLAGS AceFlags VALID_ACE_FLAGS_MASK)
     || (CheckMask && negb (LW_IS_VALID_FLAGS AccessMask VALID_DACL_ACCESS_MASK))
  then Some (STATUS_INVALID_PARAMETER, m)
  else
    v ← RtlValidSid Sid;
    if negb v then Some (STATUS_INVALID_PARAMETER, m)
    else if AceLength <? size then Some (STATUS_BUFFER_TOO_SMALL, m)
    else
      m ← st8 m loc AceType;
      m ← st8 m (loc + 1) (u8 AceFlags);
      m ← st16 m (loc + 2) size;
      m ← st32 m (loc + 4) AccessMask;
      n ← RtlLengthSid sid;
      bs ← rd sid 0 n;
      m ← wr m (loc + 8) bs;
      Some (STATUS_SUCCESS, m).

Definition RtlInitializeAccessAllowedAce := initialize_ace ACCESS_ALLOWED_ACE_TYPE false.
Definition RtlInitializeAccessDeniedAce := initialize_ace ACCESS_DENIED_ACE_TYPE true.
Definition RtlInitializeSystemAuditAce := initialize_ace SYSTEM_AUDIT_ACE_TYPE true.

(** * ACL functions (API2) *)

Definition RtlpValidAclRevision (AclRevision : Z) : bool :=
  (AclRevision =? ACL_REVISION) || (AclRevision =? ACL_REVISION_DS).

Definition RtlpValidAclHeader (Acl : ptr) : option bool :=
  match Acl with
  | None => Some false
  | Some a =>
      size ← Acl_AclSize a;
      if negb (sizeof_ACL <=? size) then Some false
      else
        r ← Acl_AclRevision a;
        if negb (RtlpValidAclRevision r) then Some false
        else
          z1 ← Acl_Sbz1 a;
          if negb (z1 =? 0) then Some false
          else
            z2 ← Acl_Sbz2 a;
            if negb (z2 =? 0) then Some false
            else
              c ← Acl_AceCount a;
              Some (c <=? (0xFFFF - sizeof_ACL) / sizeof_ACE_HEADER)
  end.

Definition RtlInitializeAcl (Acl : mem) (AclLength AclRevision : Z)
    : option (NTSTATUS * mem * Z) :=
  if negb (AclRevision =? ACL_REVISION) && negb (AclRevision =? ACL_REVISION_DS)
  then Some (STATUS_INVALID_PARAMETER, Acl, sizeof_ACL)
  else if 0xFFFF <? AclLength then Some (STATUS_INVALID_PARAMETER, Acl, sizeof_ACL)
  else if AclLength <? sizeof_ACL then Some (STATUS_BUFFER_TOO_SMALL, Acl, sizeof_ACL)
  else
    a ← st8 Acl 0 (u8 AclRevision);
    a ← st16 a 2 (u16 AclLength);
    a ← st16 a 4 0;
    a ← st8 a 1 0;
    a ← st16 a 6 0;
    a ← RtlZeroMemory a sizeof_ACL (AclLength - sizeof_ACL);
    Some (STATUS_SUCCESS, a, sizeof_ACL).

Definition RtlCreateAcl (Acl : mem) (AclLength AclRevision : Z) : option (NTSTATUS * mem) :=
  '(status, acl, _) ← RtlInitializeAcl Acl AclLength AclRevision; Some (status, acl).

(** The location is the offset of the ACE from the start of the ACL. *)
Definition RtlpGetAceLocationFromOffset (Acl : ptr) (AclSizeUsed AceOffset : Z)
    : option (NTSTATUS * option Z) :=
  ok ← RtlpValidAclHeader Acl;
  if negb ok then Some (STATUS_INVALID_ACL, None)
  else
    a ← Acl;
    size ← Acl_AclSize a;
    if (AclSizeUsed <? sizeof_ACL) || (size <? AclSizeUsed) then Some (STATUS_INVALID_ACL, None)
    else
      let endOffset := u16 (AclSizeUsed - sizeof_ACL) in
      if AceOffset =? ACL_END_ACE_OFFSET then Some (STATUS_SUCCESS, Some (sizeof_ACL + endOffset))
      else if endOffset <=? AceOffset then Some (STATUS_INVALID_PARAMETER, None)
      else Some (STATUS_SUCCESS, Some (sizeof_ACL + AceOffset)).

Definition RtlpCheckEnoughAclBuffer (AclSize AclSizeUsed AceSize : Z) : NTSTATUS :=
  let sizeNeeded := AclSizeUsed + AceSize in
  if 0xFFFF <? sizeNeeded then STATUS_INTEGER_OVERFLOW
  else if AclSize <? sizeNeeded then STATUS_BUFFER_TOO_SMALL
  else STATUS_SUCCESS.

Definition RtlpMakeRoomForAceAtLocation (Acl : mem) (AclSizeUsed AceLocation AceSize : Z)
    : option (NTSTATUS * mem) :=
  size ← Acl_AclSize Acl;
  let status := RtlpCheckEnoughAclBuffer size AclSizeUsed AceSize in
  if is_ok status then
    a ← RtlMoveMemory Acl (AceLocation + AceSize) AceLocation (AclSizeUsed - AceLocation);
    Some (STATUS_SUCCESS, a)
  else Some (status, Acl).

Definition RtlInsertAce (Acl : ptr) (AclSizeUsed AceOffset : Z) (Ace : ptr)
    : option (NTSTATUS * ptr * Z) :=
  v ← RtlpValidAce Ace;
  if negb v then Some (STATUS_INVALID_PARAMETER, Acl, AclSizeUsed)
  else
    '(status, loc) ← RtlpGetAceLocationFromOffset Acl AclSizeUsed AceOffset;
    if negb (is_ok status) then Some (status, Acl, AclSizeUsed)
    else
      loc ← loc;
      acl ← Acl;
      ace ← Ace;
      aceSize ← Ace_AceSize ace;
      '(status, acl) ← RtlpMakeRoomForAceAtLocation acl AclSizeUsed loc aceSize;
      if negb (is_ok status) then Some (status, Some acl, AclSizeUsed)
      else
        bs ← rd ace 0 aceSize;
        acl ← wr acl loc bs;
        count ← Acl_AceCount acl;
        acl ← st16 acl 4 (u16 (count + 1));
        Some (STATUS_SUCCESS, Some acl, u16 (AclSizeUsed + aceSize)).

(** The common tail of [RtlInsertAccess*Ace] and [RtlAdd*AceEx]: make room at
    [loc], initialise the ACE there, count it. *)
Definition insert_new_ace (init : mem -> Z -> Z -> Z -> Z -> ptr -> option (NTSTATUS * mem))
    (acl : mem) (sizeUsed loc AceFlags AccessMask : Z) (Sid : ptr)
    : option (NTSTATUS * mem * Z) :=
  sid ← Sid;
  aceSize ← RtlLengthAccessAllowedAce sid;
  '(status, acl) ← RtlpMakeRoomForAceAtLocation acl sizeUsed loc aceSize;
  if negb (is_ok status) then Some (status, acl, sizeUsed)
  else
    '(status, acl) ← init acl loc aceSize (u16 AceFlags) AccessMask Sid;
    if negb (is_ok status) then Some (status, acl, sizeUsed)
    else
      count ← Acl_AceCount acl;
      acl ← st16 acl 4 (u16 (count + 1));
      Some (STATUS_SUCCESS, acl, u16 (sizeUsed + aceSize)).

(** [RtlInsertAccessAllowedAce] and [RtlInsertAccessDeniedAce]: the result
    carries the status, the ACL, the size used and the location of the new ACE. *)
Definition insert_access_ace (init : mem -> Z -> Z -> Z -> Z -> ptr -> option (NTSTATUS * mem))
    (Acl : ptr) (AclSizeUsed AceOffset AceFlags AccessMask : Z) (Sid : ptr)
    : option (NTSTATUS * ptr * Z * option Z) :=
  v ← RtlValidSid Sid;
  if negb v then Some (STATUS_INVALID_PARAMETER, Acl, AclSizeUsed, None)
  else
    '(status, loc) ← RtlpGetAceLocationFromOffset Acl AclSizeUsed AceOffset;
    if negb (is_ok status) then Some (status, Acl, AclSizeUsed, None)
    else
      loc ← loc;
      acl ← Acl;
      '(status, acl, used) ← insert_new_ace init acl AclSizeUsed loc AceFlags AccessMask Sid;
      if is_ok status then Some (status, Some acl, used, Some loc)
      else Some (status, Some acl, AclSizeUsed, None).

Definition RtlInsertAccessAllowedAce := insert_access_ace RtlInitializeAccessAllowedAce.

(** The denied variant stores the location through [Ace] without a null test. *)
Definition RtlInsertAccessDeniedAce (Acl : ptr) (AclSizeUsed AceOffset AceFlags AccessMask : Z)
    (Sid : ptr) (Ace : bool) : option (NTSTATUS * ptr * Z * option Z) :=
  r ← insert_access_ace RtlInitializeAccessDeniedAce Acl AclSizeUsed AceOffset AceFlags AccessMask Sid;
  if Ace then Some r else None.

Definition RtlpRemoveAceFromLocation (Acl : mem) (AclSizeUsed AceLocation : Z)
    : option (NTSTATUS * mem * Z) :=
  aceSize ← Ace_AceSize (padd Acl AceLocation);
  if aceSize <? sizeof_ACE_HEADER then Some (STATUS_INVALID_ACL, Acl, AclSizeUsed)
  else
    let aceEnd := AceLocation + aceSize in
    let aclEnd := AclSizeUsed in
    if aclEnd <? aceEnd then Some (STATUS_INVALID_ACL, Acl, AclSizeUsed)
    else
      a ← RtlCopyMemoryWithin Acl AceLocation aceEnd (aclEnd - aceEnd);
      a ← RtlZeroMemory a (aclEnd - aceSize) aceSize;
      count ← Acl_AceCount a;
      a ← st16 a 4 (u16 (count - 1));
      Some (STATUS_SUCCESS, a, u16 (AclSizeUsed - aceSize)).

Definition RtlRemoveAce (Acl : ptr) (AclSizeUsed AceOffset : Z) : option (NTSTATUS * ptr * Z) :=
  if AceOffset =? ACL_END_ACE_OFFSET then Some (STATUS_INVALID_PARAMETER, Acl, AclSizeUsed)
  else
    '(status, loc) ← RtlpGetAceLocationFromOffset Acl AclSizeUsed AceOffset;
    if negb (is_ok status) then Some (status, Acl, AclSizeUsed)
    else
      loc ← loc;
      acl ← Acl;
      '(status, acl, used) ← RtlpRemoveAceFromLocation acl AclSizeUsed loc;
      Some (status, Some acl, used).

(** The result: the status, the next offset and the location of the ACE. *)
Definition RtlIterateAce (Acl : mem) (AclSizeUsed AceOffset : Z)
    : option (NTSTATUS * Z * option Z) :=
  if AceOffset =? ACL_END_ACE_OFFSET then Some (STATUS_NO_MORE_ENTRIES, AceOffset, None)
  else
    empty ← (if AceOffset =? 0 then c ← Acl_AceCount Acl; Some (c =? 0) else Some false);
    if (empty : bool) then Some (STATUS_NO_MORE_ENTRIES, AceOffset, None)
    else
      '(status, loc) ← RtlpGetAceLocationFromOffset (Some Acl) AclSizeUsed AceOffset;
      if negb (is_ok status) then Some (status, AceOffset, None)
      else
        loc ← loc;
        aceSize ← Ace_AceSize (padd Acl loc);
        if aceSize <? sizeof_ACE_HEADER then Some (STATUS_INVALID_ACL, AceOffset, None)
        else
          let aceEnd := loc + aceSize in
          if AclSizeUsed <? aceEnd then Some (STATUS_INVALID_ACL, AceOffset, None)
          else if aceEnd =? AclSizeUsed then Some (STATUS_SUCCESS, ACL_END_ACE_OFFSET, Some loc)
          else Some (STATUS_SUCCESS, u16 (AceOffset + aceSize), Some loc).

Definition RtlGetAclRevision (Acl : mem) : option Z := Acl_AclRevision Acl.
Definition RtlGetAclSize (Acl : mem) : option Z := Acl_AclSize Acl.
Definition RtlGetAclAceCount (Acl : mem) : option Z := Acl_AceCount Acl.

(** The loop of [RtlGetAclSizeUsed]: [n] more ACEs from offset [sizeUsed]. *)
Fixpoint sum_ace_sizes (n : nat) (Acl : mem) (sizeUsed : Z) : option Z :=
  match n with
  | O => Some sizeUsed
  | S n' =>
      s ← Ace_AceSize (padd Acl sizeUsed);
      sum_ace_sizes n' Acl (u16 (sizeUsed + s))
  end.

Definition RtlGetAclSizeUsed (Acl : mem) : option Z :=
  c ← Acl_AceCount Acl; sum_ace_sizes (Z.to_nat c) Acl sizeof_ACL.

(** The loop of [RtlValidAcl]; [None] inside is an ACL found invalid. *)
Fixpoint valid_acl_loop (n : nat) (Acl : mem) (AclSize sizeUsed : Z) : option (option Z) :=
  match n with
  | O => Some (Some sizeUsed)
  | S n' =>
      let ace := padd Acl sizeUsed in
      v ← RtlpValidAce (Some ace);
      if negb v then Some None
      else
        s ← Ace_AceSize ace;
        let sizeUsed := u16 (sizeUsed + s) in
        if sizeUsed <? s then Some None
        else if AclSize <? sizeUsed then Some None
        else valid_acl_loop n' Acl AclSize sizeUsed
  end.

(** The boolean and the value stored through [AclSizeUsed]. *)
Definition RtlValidAcl (Acl : ptr) : option (bool * Z) :=
  ok ← RtlpValidAclHeader Acl;
  if negb ok then Some (false, 0)
  else
    a ← Acl;
    c ← Acl_AceCount a;
    size ← Acl_AclSize a;
    r ← valid_acl_loop (Z.to_nat c) a size sizeof_ACL;
    match r with
    | Some used => Some (true, used)
    | None => Some (false, 0)
    end.

Fixpoint valid_offset_loop (n : nat) (Acl : mem) (AclSize AceOffset sizeUsed : Z) : option bool :=
  match n with
  | O => Some false
  | S n' =>
      if AceOffset =? sizeUsed - sizeof_ACL then Some true
      else
        s ← Ace_AceSize (padd Acl sizeUsed);
        let sizeUsed := u16 (sizeUsed + s) in
        if sizeUsed <? s then Some false
        else if AclSize <? sizeUsed then Some false
        else valid_offset_loop n' Acl AclSize AceOffset sizeUsed
  end.

Definition RtlValidAceOffset (Acl : ptr) (AceOffset : Z) : option bool :=
  ok ← RtlpValidAclHeader Acl;
  if negb ok then Some false
  else
    a ← Acl;
    c ← Acl_AceCount a;
    size ← Acl_AclSize a;
    valid_offset_loop (Z.to_nat c) a size AceOffset sizeof_ACL.
End Operations.
