(* ===== verification/AclRepr.v ===== *)
(** The abstract view of an ACL, a revision, a size and a list of ACEs, and the
    relation [acl_at] between it and the bytes in memory; what the primitive
    reads and moves of [Acl] do to it. *)

From S2P Require Import Prelude SecurityTypes Sid Acl.

(** * The abstract ACL *)

(** An ACE is its bytes. It is well formed when its [AceSize] field is its
    length and its flags are ones [RtlpValidAceHeader] accepts. *)
Definition ace_wf `{Host} (a : mem) : Prop :=
  bytes_ok a /\ 4 <= zlen a < 65536 /\ Ace_AceSize a = Some (zlen a) /\
  exists f, Ace_AceFlags a = Some f /\ LW_IS_VALID_FLAGS f VALID_ACE_FLAGS_MASK = true.

Record acl := mk_acl {
  acl_revision : Z;
  acl_size : Z;
  acl_aces : list mem
}.

Definition aces_len (l : list mem) : Z := zlen (concat l).
Definition acl_used (a : acl) : Z := 8 + aces_len (acl_aces a).

Definition acl_header `{Host} (rev size count : Z) : mem :=
  [rev; 0] ++ encode host 2 size ++ encode host 2 count ++ [0; 0].

Definition acl_wf `{Host} (a : acl) : Prop :=
  RtlpValidAclRevision (acl_revision a) = true /\ acl_used a <= acl_size a < 65536 /\
  Forall ace_wf (acl_aces a).

Definition acl_count (a : acl) : Z := Z.of_nat (length (acl_aces a)).

(** [p] points to an object that holds the whole of the ACL [a]. *)
Definition acl_at `{Host} (p : mem) (a : acl) : Prop :=
  acl_wf a /\ acl_size a <= zlen p /\
  exists slack, p = acl_header (acl_revision a) (acl_size a) (acl_count a) ++
                    concat (acl_aces a) ++ slack.

(** The same ACL with other ACEs. *)
Definition acl_with (a : acl) (l : list mem) : acl := mk_acl (acl_revision a) (acl_size a) l.

(** * Lemmas *)

Lemma aces_len_nonneg l : 0 <= aces_len l.
Proof. apply zlen_nonneg. Qed.

Lemma aces_len_nil : aces_len [] = 0.
Proof. reflexivity. Qed.

Lemma aces_len_app l r : aces_len (l ++ r) = aces_len l + aces_len r.
Proof. unfold aces_len. rewrite concat_app. apply zlen_app. Qed.

Lemma aces_len_cons x r : aces_len (x :: r) = zlen x + aces_len r.
Proof. unfold aces_len. simpl. apply zlen_app. Qed.

Lemma padd_app a b n : n = zlen a -> padd (a ++ b) n = b.
Proof. intros ->. unfold padd, zlen. rewrite Nat2Z.id. apply drop_app_length. Qed.

Section Repr.
Context `{Host}.

Lemma aces_len_count l : Forall ace_wf l -> 4 * Z.of_nat (length l) <= aces_len l.
Proof.
  induction 1 as [|x l (_ & Hx & _) _ IH]; [done|].
  rewrite aces_len_cons. simpl length. lia.
Qed.

Lemma acl_count_range a : acl_wf a -> 0 <= acl_count a <= 16381.
Proof.
  intros (_ & Hs & Hf). pose proof (aces_len_count _ Hf). unfold acl_count, acl_used in *. lia.
Qed.

Lemma zlen_acl_header r s c : zlen (acl_header r s c) = 8.
Proof. unfold acl_header. zl. Qed.

Lemma acl_header_fields r s c rest :
  0 <= s < 65536 -> 0 <= c < 65536 ->
  let p := acl_header r s c ++ rest in
  Acl_AclRevision p = Some r /\ Acl_Sbz1 p = Some 0 /\ Acl_AclSize p = Some s /\
  Acl_AceCount p = Some c /\ Acl_Sbz2 p = Some 0.
Proof.
  intros Hs Hc p. subst p. unfold acl_header. split_and!.
  - apply ld8_first.
  - apply ld8_second.
  - unfold Acl_AclSize, ld16. rewrite <- !app_assoc, rd_at by zl. simpl.
    by rewrite (decode_encode host 2).
  - unfold Acl_AceCount, ld16. rewrite <- !app_assoc, app_assoc, rd_at by zl. simpl.
    by rewrite (decode_encode host 2).
  - unfold Acl_Sbz2, ld16. rewrite <- !app_assoc, app_assoc, app_assoc, rd_at by zl. simpl.
    f_equal. destruct host; done.
Qed.

Lemma st_count_header r s c v rest :
  st16 (acl_header r s c ++ rest) 4 v = Some (acl_header r s v ++ rest).
Proof.
  unfold st16, acl_header. rewrite <- !app_assoc, app_assoc.
  rewrite wr_at by zl. rewrite <- app_assoc. done.
Qed.

Section At.
Context (p : mem) (a : acl) (Hat : acl_at p a).

Lemma acl_at_fields :
  Acl_AclRevision p = Some (acl_revision a) /\ Acl_Sbz1 p = Some 0 /\
  Acl_AclSize p = Some (acl_size a) /\ Acl_AceCount p = Some (acl_count a) /\ Acl_Sbz2 p = Some 0.
Proof using Hat.
  destruct Hat as (Hw & Hl & slack & ->). pose proof (acl_count_range _ Hw).
  destruct Hw as (_ & Hs & _). pose proof (aces_len_nonneg (acl_aces a)). unfold acl_used in Hs.
  apply acl_header_fields; lia.
Qed.

Lemma acl_at_valid_header : RtlpValidAclHeader (Some p) = Some true.
Proof using Hat.
  destruct acl_at_fields as (H1 & H2 & H3 & H4 & H5). destruct Hat as (Hw & _).
  pose proof (acl_count_range _ Hw) as Hc. destruct Hw as (Hr & Hs & _).
  pose proof (aces_len_nonneg (acl_aces a)). unfold acl_used in Hs.
  unfold RtlpValidAclHeader, sizeof_ACL. rewrite H3. bsimpl.
  replace (8 <=? acl_size a) with true by (symmetry; apply Z.leb_le; lia). simpl negb. cbv iota.
  rewrite H1. bsimpl. rewrite Hr. simpl negb. cbv iota. rewrite H2. bsimpl. simpl negb. cbv iota.
  rewrite H5. bsimpl. simpl negb. cbv iota. rewrite H4. bsimpl. f_equal. apply Z.leb_le.
  change ((65535 - 8) / sizeof_ACE_HEADER) with 16381. lia.
Qed.

Lemma acl_at_padd l r :
  acl_aces a = l ++ r -> exists slack, padd p (8 + aces_len l) = concat r ++ slack.
Proof using Hat.
  intros Hl. destruct Hat as (_ & _ & slack & ->). exists slack.
  rewrite Hl, concat_app, <- app_assoc, app_assoc. apply padd_app.
  rewrite zlen_app, zlen_acl_header. done.
Qed.
End At.

(** ** Reading an ACE *)

Lemma ace_size_app x rest : ace_wf x -> Ace_AceSize (x ++ rest) = Some (zlen x).
Proof. intros (_ & ? & <- & _). unfold Ace_AceSize. apply ld16_app_l. lia. Qed.

Lemma valid_ace_app x rest : ace_wf x -> RtlpValidAce (Some (x ++ rest)) = Some true.
Proof.
  intros Hx. pose proof (ace_size_app x rest Hx) as Hs. destruct Hx as (_ & Hl & _ & f & Hf & Hv).
  unfold RtlpValidAce, RtlpVerifyAceEx, RtlpValidAceHeader, sizeof_ACE_HEADER. rewrite Hs. bsimpl.
  replace (4 <=? zlen x) with true by (symmetry; apply Z.leb_le; lia).
  unfold Ace_AceFlags in *. rewrite ld8_app_l, Hf by lia. bsimpl. rewrite Hv. done.
Qed.

(** An ACE the validity test accepts, with enough bytes behind it, is well formed. *)
Lemma valid_ace_inv q n :
  bytes_ok q -> RtlpValidAce (Some q) = Some true -> Ace_AceSize q = Some n -> n <= zlen q ->
  exists x rest, q = x ++ rest /\ ace_wf x /\ zlen x = n.
Proof.
  intros Hb Hv Hn Hl. unfold RtlpValidAce, RtlpVerifyAceEx, RtlpValidAceHeader, sizeof_ACE_HEADER in Hv.
  rewrite Hn in Hv. cbn [mbind option_bind] in Hv.
  pose proof (ld16_range _ _ _ Hb Hn). destruct (Z.leb_spec 4 n); [|done].
  destruct (Ace_AceFlags q) as [f|] eqn:Hf; [|done]. cbn [mbind option_bind] in Hv.
  destruct (LW_IS_VALID_FLAGS f VALID_ACE_FLAGS_MASK) eqn:Hfl; [|done].
  destruct (zlen_split q n) as (x & rest & -> & Hx); [lia|]. exists x, rest.
  apply bytes_ok_app in Hb as [Hbx _]. unfold Ace_AceSize, Ace_AceFlags in *.
  rewrite ld16_app_l in Hn by lia. rewrite ld8_app_l in Hf by lia.
  split_and!; try done. unfold ace_wf, Ace_AceSize, Ace_AceFlags.
  split_and!; try done; try lia; try congruence. eauto.
Qed.
End Repr.

#[export] Hint Resolve acl_at_valid_header : lw.
