(* ===== verification/AclOps.v ===== *)
(** Correctness of the ACL operations of [Acl] against the abstract view of
    [AclRepr]: the validity test decides whether a buffer holds an ACL, the
    iterator enumerates its ACEs, and insertion and removal are insertion and
    removal in the list of ACEs. *)

From S2P Require Import Prelude SecurityTypes Sid Acl AclRepr.

Section Ops.
Context `{Host}.

(** * Validation *)

Lemma u16_small x : 0 <= x < 65536 -> u16 x = x.
Proof. intros. unfold u16. apply Z.mod_small. done. Qed.

(** The overflow test of the loop: a 16-bit sum is less than an addend exactly
    when it wrapped. *)
Lemma u16_carry x y :
  0 <= x < 65536 -> 0 <= y < 65536 ->
  (u16 (x + y) <? y) = false -> u16 (x + y) = x + y.
Proof.
  intros ? ? Hc. bool_hyps. unfold u16 in *. change (2 ^ 16) with 65536 in *.
  pose proof (Z.div_mod (x + y) 65536). pose proof (Z.mod_pos_bound (x + y) 65536). nia.
Qed.

Lemma u16_no_carry x y :
  0 <= x -> 0 <= y -> x + y < 65536 -> u16 (x + y) = x + y /\ (u16 (x + y) <? y) = false.
Proof. intros. rewrite u16_small by lia. split; [done|]. apply Z.ltb_ge. lia. Qed.

Lemma valid_acl_loop_complete l pre slack size :
  Forall ace_wf l -> zlen pre + aces_len l <= size -> size < 65536 ->
  valid_acl_loop (length l) (pre ++ concat l ++ slack) size (zlen pre)
  = Some (Some (zlen pre + aces_len l)).
Proof.
  intros Hl. revert pre. induction Hl as [|x l Hx Hl IH]; intros pre Hs Hb.
  { cbn. unfold aces_len. cbn. rewrite zlen_nil, Z.add_0_r. done. }
  rewrite aces_len_cons in *. pose proof (aces_len_nonneg l). pose proof (zlen_nonneg pre).
  cbn [length valid_acl_loop concat]. rewrite padd_app by done. rewrite <- app_assoc.
  rewrite valid_ace_app by done. bsimpl. rewrite ace_size_app by done. bsimpl. cbn [negb].
  assert (4 <= zlen x) by (destruct Hx as (_ & ? & _); lia).
  destruct (u16_no_carry (zlen pre) (zlen x)) as [Hu Hc]; [lia..|]. rewrite Hc, Hu. cbv zeta.
  replace (size <? zlen pre + zlen x) with false by (symmetry; apply Z.ltb_ge; lia).
  specialize (IH (pre ++ x)). rewrite zlen_app, <- app_assoc in IH. rewrite IH by lia.
  do 2 f_equal. lia.
Qed.

Lemma valid_acl_loop_sound n p size pos used :
  bytes_ok p -> size <= zlen p -> size < 65536 -> 0 <= pos <= size ->
  valid_acl_loop n p size pos = Some (Some used) ->
  exists l pre slack, p = pre ++ concat l ++ slack /\ zlen pre = pos /\
    length l = n /\ Forall ace_wf l /\ used = pos + aces_len l /\ used <= size.
Proof.
  intros Hb Hp Hs. revert pos. induction n as [|n IH]; intros pos Hpos Hv.
  { injection Hv as <-. destruct (zlen_split p pos) as (pre & r & -> & Hl); [lia|].
    exists [], pre, r. unfold aces_len. cbn. rewrite zlen_nil. split_and!; try done; lia. }
  cbn [valid_acl_loop] in Hv. destruct (RtlpValidAce (Some (padd p pos))) as [v|] eqn:Ev; [|done].
  cbn [mbind option_bind] in Hv. destruct v; [|done]. cbn [negb] in Hv.
  destruct (Ace_AceSize (padd p pos)) as [s|] eqn:Es; [|done]. cbn [mbind option_bind] in Hv.
  destruct (zlen_split p pos) as (pre & q & -> & Hl); [lia|]. rewrite padd_app in * by done.
  apply bytes_ok_app in Hb as Hbq. destruct Hbq as [_ Hbq].
  pose proof (ld16_range _ _ _ Hbq Es) as Hsr.
  destruct (u16 (pos + s) <? s) eqn:Ec; [done|]. rewrite u16_carry in Hv by (done || lia).
  destruct (Z.ltb_spec size (pos + s)); [done|].
  destruct (valid_ace_inv q s Hbq Ev Es) as (x & rest & -> & Hx & Hxl); [zl|].
  apply IH in Hv as (l & pre' & slack & Heq & Hpl & <- & Hf & -> & ?); [|lia].
  exists (x :: l), pre, slack. rewrite aces_len_cons. cbn [concat length]. rewrite <- app_assoc.
  rewrite app_assoc in Heq. apply app_inj_1 in Heq as [<- ->].
  - split_and!; try done; try lia. by constructor.
  - unfold zlen in *. rewrite length_app. lia.
Qed.

(** [RtlValidAcl] never faults on a readable object: what it reads lies at most
    a header beyond [AclSize]. *)
Lemma valid_acl_loop_total n p size pos :
  size + 4 <= zlen p -> 0 <= pos <= size -> exists r, valid_acl_loop n p size pos = Some r.
Proof.
  intros Hp. revert pos. induction n as [|n IH]; intros pos Hpos; [eexists; done|].
  cbn [valid_acl_loop]. unfold RtlpValidAce, RtlpVerifyAceEx, RtlpValidAceHeader.
  assert (4 <= zlen (padd p pos)) by (unfold padd, zlen in *; rewrite length_drop; lia).
  destruct (ld16_ok (padd p pos) 2) as [s Es]; [lia..|].
  destruct (ld8_ok (padd p pos) 1) as [f Ef]; [lia..|].
  unfold Ace_AceSize, Ace_AceFlags. rewrite Es, Ef. bsimpl.
  destruct (sizeof_ACE_HEADER <=? s), (LW_IS_VALID_FLAGS f VALID_ACE_FLAGS_MASK); bsimpl; cbn; eauto.
  destruct (Z.ltb_spec (u16 (pos + s)) s); [eauto|].
  destruct (Z.ltb_spec size (u16 (pos + s))); [eauto|]. apply IH. split; [|done].
  unfold u16. apply Z.mod_pos_bound. done.
Qed.

(** What the header test accepts. *)
Lemma valid_header_fields p :
  RtlpValidAclHeader (Some p) = Some true ->
  exists r s c, Acl_AclRevision p = Some r /\ Acl_Sbz1 p = Some 0 /\ Acl_AclSize p = Some s /\
    Acl_AceCount p = Some c /\ Acl_Sbz2 p = Some 0 /\
    RtlpValidAclRevision r = true /\ 8 <= s /\ c <= 16381.
Proof.
  unfold RtlpValidAclHeader, sizeof_ACL. intros Hv.
  destruct (Acl_AclSize p) as [s|]; [|done]. cbn [mbind option_bind] in Hv.
  destruct (Z.leb_spec 8 s); [|done]. cbn [negb] in Hv.
  destruct (Acl_AclRevision p) as [r|]; [|done]. cbn [mbind option_bind] in Hv.
  destruct (RtlpValidAclRevision r) eqn:Er; [|done]. cbn [negb] in Hv.
  destruct (Acl_Sbz1 p) as [z1|]; [|done]. cbn [mbind option_bind] in Hv.
  destruct (Z.eqb_spec z1 0) as [Hz1|]; [|done]. subst z1. cbn [negb] in Hv.
  destruct (Acl_Sbz2 p) as [z2|]; [|done]. cbn [mbind option_bind] in Hv.
  destruct (Z.eqb_spec z2 0) as [Hz2|]; [|done]. subst z2. cbn [negb] in Hv.
  destruct (Acl_AceCount p) as [c|]; [|done]. injection Hv as Hv. bool_hyps.
  change ((65535 - 8) / sizeof_ACE_HEADER) with 16381 in Hv. eauto 12.
Qed.

Lemma header_of_fields p r s c :
  bytes_ok p -> Acl_AclRevision p = Some r -> Acl_Sbz1 p = Some 0 -> Acl_AclSize p = Some s ->
  Acl_AceCount p = Some c -> Acl_Sbz2 p = Some 0 -> exists rest, p = acl_header r s c ++ rest.
Proof.
  unfold Acl_AclRevision, Acl_Sbz1, Acl_AclSize, Acl_AceCount, Acl_Sbz2.
  intros Hb H1 H2 H3 H4 H5. assert (8 <= zlen p) as Hz.
  { unfold ld16 in H5. bind_hyps. apply rd_range in H0. lia. }
  destruct (zlen_split p 8) as (h & rest & -> & Hh); [zl|]. exists rest. f_equal.
  rewrite ?ld8_app_l, ?ld16_app_l in * by lia. apply bytes_ok_app in Hb as [Hb _].
  destruct h as [|h0 [|h1 [|h2 [|h3 [|h4 [|h5 [|h6 [|h7 [|]]]]]]]]];
    autorewrite with zlen in Hh; try lia; [|pose proof (zlen_nonneg l); lia].
  unfold ld8, ld16 in *. unfold bytes_ok in Hb. rewrite !Forall_cons_iff in Hb.
  destruct Hb as (? & ? & ? & ? & ? & ? & ? & ? & _).
  pose proof (rd_at [] [h0] [h1; h2; h3; h4; h5; h6; h7] 0 1 eq_refl eq_refl) as E1.
  pose proof (rd_at [h0] [h1] [h2; h3; h4; h5; h6; h7] 1 1 eq_refl eq_refl) as E2.
  pose proof (rd_at [h0; h1] [h2; h3] [h4; h5; h6; h7] 2 2 eq_refl eq_refl) as E3.
  pose proof (rd_at [h0; h1; h2; h3] [h4; h5] [h6; h7] 4 2 eq_refl eq_refl) as E4.
  pose proof (rd_at [h0; h1; h2; h3; h4; h5] [h6; h7] [] 6 2 eq_refl eq_refl) as E5.
  cbn [app] in *. rewrite E1 in H1. rewrite E2 in H2. rewrite E3 in H3. rewrite E4 in H4.
  rewrite E5 in H5. injection H1 as <-. injection H2 as H2. injection H3 as <-. injection H4 as <-.
  injection H5 as H5. unfold acl_header. change 2%nat with (length [h2; h3]) at 1.
  change 2%nat with (length [h4; h5]). rewrite !encode_decode by (repeat constructor; lia).
  destruct host; cbn in H5 |- *; repeat f_equal; lia.
Qed.

Lemma valid_header_inv p :
  bytes_ok p -> RtlpValidAclHeader (Some p) = Some true ->
  exists r s c rest, p = acl_header r s c ++ rest /\ RtlpValidAclRevision r = true /\
    8 <= s < 65536 /\ 0 <= c <= 16381.
Proof.
  intros Hb (r & s & c & H1 & H2 & H3 & H4 & H5 & Hr & Hs & Hc)%valid_header_fields.
  destruct (header_of_fields p r s c) as (rest & ->); [done..|].
  exists r, s, c, rest. pose proof (ld16_range _ _ _ Hb H3). pose proof (ld16_range _ _ _ Hb H4).
  split_and!; done || lia.
Qed.

Lemma aces_inj l l' s s' :
  Forall ace_wf l -> Forall ace_wf l' -> length l = length l' ->
  concat l ++ s = concat l' ++ s' -> l = l'.
Proof.
  intros Hl. revert l'. induction Hl as [|x l Hx Hl IH]; intros [|y l'] Hl' Hn Heq; try done.
  inversion_clear Hl' as [|? ? Hy Hl'']. cbn [concat] in Heq. rewrite <- !app_assoc in Heq.
  assert (Hz : zlen x = zlen y).
  { pose proof (ace_size_app x (concat l ++ s) Hx) as E. rewrite Heq, ace_size_app in E by done.
    congruence. }
  apply app_inj_1 in Heq as [-> Heq]; [|unfold zlen in Hz; lia].
  f_equal. apply IH; [done|simpl in Hn; lia|done].
Qed.

(** A buffer holds at most one ACL. *)
Lemma acl_at_inj p a b : acl_at p a -> acl_at p b -> a = b.
Proof.
  intros Ha Hb. destruct (acl_at_fields p a Ha) as (A1 & _ & A2 & A3 & _).
  destruct (acl_at_fields p b Hb) as (B1 & _ & B2 & B3 & _).
  destruct Ha as ((_ & _ & Fa) & _ & sa & Pa). destruct Hb as ((_ & _ & Fb) & _ & sb & Pb).
  destruct a as [ra za la], b as [rb zb lb]. unfold acl_count in *.
  cbn [acl_aces acl_revision acl_size] in *. rewrite A1 in B1. rewrite A2 in B2. rewrite A3 in B3. injection B1 as <-. injection B2 as <-.
  injection B3 as B3. f_equal. rewrite Pa in Pb.
  apply app_inj_1 in Pb as [_ Pb];
    [|pose proof (zlen_acl_header ra za (Z.of_nat (length la)));
      pose proof (zlen_acl_header ra za (Z.of_nat (length lb))); unfold zlen in *; lia].
  apply (aces_inj _ _ sa sb); done || lia.
Qed.

Lemma RtlValidAcl_complete p a :
  acl_at p a -> RtlValidAcl (Some p) = Some (true, acl_used a).
Proof.
  intros Ha. unfold RtlValidAcl. rewrite (acl_at_valid_header p a) by done. bsimpl. cbn [negb].
  destruct (acl_at_fields p a Ha) as (_ & _ & A2 & A3 & _). rewrite A2, A3. bsimpl.
  destruct Ha as ((_ & Hs & Hf) & Hz & slack & ->). unfold acl_count in *. rewrite Nat2Z.id.
  unfold acl_used in *. change sizeof_ACL with 8.
  rewrite <- (zlen_acl_header (acl_revision a) (acl_size a) (Z.of_nat (length (acl_aces a)))).
  rewrite valid_acl_loop_complete; try done; rewrite ?zlen_acl_header; lia.
Qed.

Lemma RtlValidAcl_sound p used :
  bytes_ok p -> (exists s, Acl_AclSize p = Some s /\ s <= zlen p) ->
  RtlValidAcl (Some p) = Some (true, used) -> exists a, acl_at p a /\ used = acl_used a.
Proof.
  intros Hb (s & Hs & Hz) Hv. unfold RtlValidAcl in Hv.
  destruct (RtlpValidAclHeader (Some p)) as [[]|] eqn:Eh; [|done..]. cbn [mbind option_bind negb] in Hv.
  destruct (valid_header_inv p Hb Eh) as (r & s' & c & rest & -> & Hr & Hs' & Hc).
  destruct (acl_header_fields r s' c rest) as (_ & _ & A2 & A3 & _); [lia..|].
  rewrite A2 in Hs. injection Hs as <-. rewrite A2, A3 in Hv. cbn [mbind option_bind] in Hv.
  destruct (valid_acl_loop _ _ _ _) as [[u|]|] eqn:El; [|done..]. injection Hv as <-.
  change sizeof_ACL with 8 in El. apply valid_acl_loop_sound in El; [|done|lia..].
  destruct El as (l & pre & slack & Heq & Hpl & Hn & Hf & Hu & Hle).
  apply app_inj_1 in Heq as [<- ->];
    [|pose proof (zlen_acl_header r s' c); unfold zlen in *; lia].
  exists (mk_acl r s' l). unfold acl_at, acl_wf, acl_used, acl_count. cbn [acl_aces acl_size acl_revision].
  split_and!; try done; try lia. exists slack. do 2 f_equal. lia.
Qed.

(** C5: on a readable buffer (its declared size and one ACE header more, since
    the loop looks at the header of an ACE before it checks that the ACE lies
    inside the ACL) [RtlValidAcl] does not fault, returns TRUE exactly when the
    buffer holds a well-formed ACL, and then reports the bytes in use by the
    one ACL it holds. *)
Theorem RtlValidAcl_correct p s :
  bytes_ok p -> 8 <= zlen p -> Acl_AclSize p = Some s -> s + 4 <= zlen p ->
  exists b used, RtlValidAcl (Some p) = Some (b, used) /\
    (b = true <-> exists a, acl_at p a) /\
    (forall a, acl_at p a -> used = acl_used a /\ used <= acl_size a).
Proof.
  intros Hb Hp Hs Hz. assert (Ht : exists b used, RtlValidAcl (Some p) = Some (b, used)).
  { unfold RtlValidAcl. destruct (ld8_ok p 0) as [v0 E0]; [lia..|]. destruct (ld8_ok p 1) as [v1 E1]; [lia..|].
    destruct (ld16_ok p 4) as [v4 E4]; [lia..|]. destruct (ld16_ok p 6) as [v6 E6]; [lia..|].
    unfold RtlpValidAclHeader, Acl_AclRevision, Acl_Sbz1, Acl_AceCount, Acl_Sbz2. rewrite Hs, E0, E1, E4, E6.
    bsimpl. change sizeof_ACL with 8. destruct (Z.leb_spec 8 s); cbn [negb mbind option_bind]; [|eauto].
    destruct (valid_acl_loop_total (Z.to_nat v4) p s 8) as [[u|] Eu]; [lia..| |];
      destruct (RtlpValidAclRevision v0), (v1 =? 0), (v6 =? 0), (v4 <=? _);
      cbn [negb mbind option_bind]; rewrite ?E4, ?Hs; bsimpl; rewrite ?Eu; cbn; eauto. }
  destruct Ht as (b & used & Hv). exists b, used. split; [done|]. split.
  - split.
    + intros ->. apply RtlValidAcl_sound in Hv as (a & ? & _); eauto with lia.
    + intros (a & Ha). rewrite (RtlValidAcl_complete p a Ha) in Hv. congruence.
  - intros a Ha. rewrite (RtlValidAcl_complete p a Ha) in Hv. injection Hv as _ <-.
    destruct Ha as ((_ & ? & _) & _). split; [done|lia].
Qed.

(** * Locations and iteration *)

(** The loop of [RtlValidAceOffset] over the ACEs [r] from the position after [l]. *)
Lemma valid_offset_loop_at r pre slack size off :
  Forall ace_wf r -> 8 <= zlen pre -> zlen pre + aces_len r <= size -> size < 65536 ->
  exists b, valid_offset_loop (length r) (pre ++ concat r ++ slack) size off (zlen pre) = Some b /\
    (b = true <-> exists k x r', r = k ++ x :: r' /\ off = zlen pre - 8 + aces_len k).
Proof.
  intros Hr. revert pre. induction Hr as [|x r Hx Hr IH]; intros pre H8 Hs Hb.
  { exists false. split; [done|]. split; [done|]. intros (k & x & r' & Hk & _). by destruct k. }
  rewrite aces_len_cons in Hs. pose proof (aces_len_nonneg r).
  assert (4 <= zlen x) by (destruct Hx as (_ & ? & _); lia).
  cbn [length valid_offset_loop concat]. change sizeof_ACL with 8. destruct (Z.eqb_spec off (zlen pre - 8)) as [->|Hne].
  { exists true. split; [done|]. split; [intros _|done]. exists [], x, r. split; [done|]. change (aces_len []) with 0. lia. }
  rewrite padd_app, <- app_assoc, ace_size_app by done. bsimpl.
  destruct (u16_no_carry (zlen pre) (zlen x)) as [Hu Hc]; [lia..|]. rewrite Hc, Hu. cbv zeta.
  destruct (Z.ltb_spec size (zlen pre + zlen x)); [lia|].
  destruct (IH (pre ++ x)) as (b & Eb & Hiff); [rewrite zlen_app; lia..|done|].
  rewrite zlen_app, <- app_assoc in Eb. rewrite zlen_app in Hiff. rewrite Eb. exists b. split; [done|]. rewrite Hiff. split.
  - intros (k & y & r' & -> & ->). exists (x :: k), y, r'. split; [done|]. rewrite aces_len_cons. lia.
  - intros ([|z k] & y & r' & [= -> ->] & ->).
    + change (aces_len []) with 0 in Hne. lia.
    + exists k, y, r'. split; [done|]. rewrite aces_len_cons. lia.
Qed.

(** [RtlValidAceOffset] is TRUE for exactly the offsets at which an ACE of
    the ACL starts; these are the offsets the iteration passes through. *)
Theorem RtlValidAceOffset_correct p a off :
  acl_at p a ->
  exists b, RtlValidAceOffset (Some p) off = Some b /\
    (b = true <-> exists l x r, acl_aces a = l ++ x :: r /\ off = aces_len l).
Proof.
  intros Hat. unfold RtlValidAceOffset. rewrite (acl_at_valid_header p a) by done. bsimpl. cbn [negb].
  destruct (acl_at_fields p a Hat) as (_ & _ & -> & -> & _). bsimpl. unfold acl_count. rewrite Nat2Z.id.
  destruct Hat as ((_ & Hs & Hf) & Hz & slack & ->). unfold acl_used in *. change sizeof_ACL with 8.
  pose proof (zlen_acl_header (acl_revision a) (acl_size a) (acl_count a)) as H8. rewrite <- H8.
  destruct (valid_offset_loop_at (acl_aces a) (acl_header (acl_revision a) (acl_size a) (acl_count a)) slack (acl_size a) off)
    as (b & Eb & Hb); [done|lia..|]. exists b. split; [exact Eb|]. rewrite Hb, H8. done.
Qed.

(** The offset the iterator reports for the ACEs [r] that follow the ACEs [l]. *)
Definition next_offset (l r : list mem) : Z :=
  match r with
  | [] => ACL_END_ACE_OFFSET
  | _ :: _ => aces_len l
  end.

(** A caller's loop over the iterator: the ACEs from [off] on. *)
Fixpoint iterate_all (fuel : nat) (p : mem) (used off : Z) : option (list mem) :=
  match fuel with
  | O => None
  | S fuel' =>
      '(status, next, loc) ← RtlIterateAce p used off;
      match status with
      | STATUS_SUCCESS =>
          loc ← loc; s ← Ace_AceSize (padd p loc); x ← rd p loc s;
          cons x <$> iterate_all fuel' p used next
      | STATUS_NO_MORE_ENTRIES => Some []
      | _ => None
      end
  end.

Section At.
Context (p : mem) (a : acl) (Hat : acl_at p a).

Lemma acl_at_used_range : 8 <= acl_used a <= acl_size a /\ acl_size a < 65536.
Proof using Hat.
  destruct Hat as ((_ & Hs & _) & _). pose proof (aces_len_nonneg (acl_aces a)).
  unfold acl_used in *. lia.
Qed.

Lemma location_any off :
  RtlpGetAceLocationFromOffset (Some p) (acl_used a) off =
  Some (if off =? ACL_END_ACE_OFFSET then (STATUS_SUCCESS, Some (acl_used a))
        else if aces_len (acl_aces a) <=? off then (STATUS_INVALID_PARAMETER, None)
        else (STATUS_SUCCESS, Some (8 + off))).
Proof using Hat.
  unfold RtlpGetAceLocationFromOffset. rewrite (acl_at_valid_header p a) by done. bsimpl. cbn [negb].
  destruct (acl_at_fields p a Hat) as (_ & _ & -> & _). bsimpl. destruct acl_at_used_range.
  change sizeof_ACL with 8. rewrite u16_small by lia. unfold acl_used in *.
  repeat bool_case; cbn; try lia; repeat f_equal; lia.
Qed.

Lemma location_of l x r :
  acl_aces a = l ++ x :: r ->
  RtlpGetAceLocationFromOffset (Some p) (acl_used a) (aces_len l) =
  Some (STATUS_SUCCESS, Some (8 + aces_len l)) /\ ace_wf x /\
  8 + aces_len l + zlen x <= acl_used a /\ (8 + aces_len l + zlen x = acl_used a <-> r = []).
Proof using Hat.
  intros Hl. rewrite location_any. destruct acl_at_used_range. destruct Hat as ((_ & _ & Hf) & _).
  unfold acl_used in *. rewrite Hl in *. apply Forall_app in Hf as [_ Hf].
  inversion_clear Hf as [|? ? Hx Hr]. rewrite aces_len_app, aces_len_cons in *.
  pose proof (aces_len_nonneg l). pose proof (aces_len_count r Hr).
  assert (4 <= zlen x) by (destruct Hx as (_ & ? & _); lia).
  unfold ACL_END_ACE_OFFSET. split_and!; try done; [|lia|].
  - repeat bool_case; done || lia.
  - destruct r; cbn [length] in *; split; intros; try done; try lia.
    assert (aces_len [] = 0) by done. lia.
Qed.

(** One step of the iterator: it stands on the ACE [x] and moves to the next. *)
Lemma iterate_step l x r :
  acl_aces a = l ++ x :: r ->
  RtlIterateAce p (acl_used a) (aces_len l) =
  Some (STATUS_SUCCESS, next_offset (l ++ [x]) r, Some (8 + aces_len l)).
Proof using Hat.
  intros Hl. destruct (location_of l x r Hl) as (Hloc & Hx & Hle & Hlast).
  pose proof acl_at_used_range as Hu. pose proof (aces_len_nonneg l).
  assert (4 <= zlen x) by (destruct Hx as (_ & ? & _); lia). unfold RtlIterateAce.
  replace (aces_len l =? ACL_END_ACE_OFFSET) with false
    by (symmetry; apply Z.eqb_neq; unfold ACL_END_ACE_OFFSET; lia).
  assert (Hc : (if aces_len l =? 0 then c ← Acl_AceCount p; Some (c =? 0) else Some false) = Some false).
  { destruct (aces_len l =? 0); [|done]. destruct (acl_at_fields p a Hat) as (_ & _ & _ & -> & _).
    bsimpl. f_equal. apply Z.eqb_neq. unfold acl_count. rewrite Hl, length_app. simpl. lia. }
  rewrite Hc. bsimpl. rewrite Hloc. bsimpl. cbn [is_ok negb].
  destruct (acl_at_padd p a Hat l (x :: r) Hl) as (slack & ->). cbn [concat]. rewrite <- app_assoc.
  rewrite ace_size_app by done. bsimpl. unfold sizeof_ACE_HEADER.
  destruct (Z.ltb_spec (zlen x) 4); [lia|].
  destruct (Z.ltb_spec (acl_used a) (8 + aces_len l + zlen x)); [lia|].
  destruct (Z.eqb_spec (8 + aces_len l + zlen x) (acl_used a)), r; cbn [next_offset]; try done;
    [by apply Hlast in e|by destruct n; apply Hlast|].
  rewrite u16_small, aces_len_app, aces_len_cons, Z.add_0_r by lia. done.
Qed.

Lemma iterate_end : RtlIterateAce p (acl_used a) ACL_END_ACE_OFFSET
                    = Some (STATUS_NO_MORE_ENTRIES, ACL_END_ACE_OFFSET, None).
Proof. done. Qed.

Lemma iterate_empty : acl_aces a = [] ->
  RtlIterateAce p (acl_used a) 0 = Some (STATUS_NO_MORE_ENTRIES, 0, None).
Proof using Hat.
  intros Hl. unfold RtlIterateAce. destruct (acl_at_fields p a Hat) as (_ & _ & _ & -> & _).
  unfold acl_count. rewrite Hl. done.
Qed.

Lemma iterate_all_from l r fuel :
  acl_aces a = l ++ r -> r <> [] \/ l <> [] -> (length r < fuel)%nat ->
  iterate_all fuel p (acl_used a) (next_offset l r) = Some r.
Proof using Hat.
  revert l fuel. induction r as [|x r IH]; intros l [|fuel] Hl Hne Hf; cbn [length] in Hf; try lia.
  { cbn [iterate_all next_offset]. rewrite iterate_end. done. }
  cbn [iterate_all next_offset]. rewrite (iterate_step l x r Hl). bsimpl.
  destruct (location_of l x r Hl) as (_ & Hx & _).
  destruct (acl_at_padd p a Hat l (x :: r) Hl) as (slack & Hp). pose proof (aces_len_nonneg l).
  rewrite Hp. cbn [concat]. rewrite <- app_assoc, ace_size_app by done. bsimpl.
  assert (Hrd : rd p (8 + aces_len l) (zlen x) = Some x).
  { rewrite <- (Z.add_0_r (8 + aces_len l)), <- rd_padd, Hp; [|lia|lia|].
    - cbn [concat]. rewrite <- app_assoc. by apply rd_at_0.
    - left. destruct Hx as (_ & ? & _). lia. }
  rewrite Hrd. bsimpl. rewrite IH; [done| |right; by destruct l|lia].
  rewrite Hl, <- app_assoc. done.
Qed.
End At.

(** C8: iterating over an ACL from offset 0 with its size in use visits exactly
    its ACEs, in order, and stops after them: [count + 1] calls of
    [RtlIterateAce] are enough. *)
Theorem RtlIterateAce_enumerates p a fuel :
  acl_at p a -> (length (acl_aces a) < fuel)%nat ->
  iterate_all fuel p (acl_used a) 0 = Some (acl_aces a).
Proof.
  intros Ha Hf. destruct (acl_aces a) as [|x l] eqn:El.
  - destruct fuel; [simpl in Hf; lia|]. cbn [iterate_all]. rewrite (iterate_empty p a Ha El). done.
  - apply (iterate_all_from p a Ha [] (x :: l)); [done|by left|done].
Qed.

(** * Insertion and removal *)

(** [memmove] of [R] up by [n] bytes leaves [n] bytes to overwrite in its place. *)
Lemma move_up A R S n :
  0 <= n <= zlen S ->
  exists junk S', RtlMoveMemory (A ++ R ++ S) (zlen A + n) (zlen A) (zlen R) = Some (A ++ junk ++ R ++ S') /\
    zlen junk = n /\ zlen S = n + zlen S'.
Proof.
  intros Hn. destruct (zlen_split S n) as (S1 & S2 & -> & Hs); [done|].
  unfold RtlMoveMemory. rewrite rd_at by done. bsimpl.
  destruct (zlen_split (R ++ S1) n) as (junk & old & Heq & Hj); [zl|].
  exists junk, S2. rewrite (app_assoc R S1 S2), Heq, <- app_assoc, (app_assoc A).
  apply (f_equal zlen) in Heq. rewrite wr_at, <- app_assoc; [split_and!; [done|done|zl]|zl|zl].
Qed.

Lemma acl_with_wf a l :
  acl_wf a -> Forall ace_wf l -> 8 + aces_len l <= acl_size a -> acl_wf (acl_with a l).
Proof. intros (? & ? & _) ? ?. unfold acl_wf, acl_used, acl_with. cbn. split_and!; done || lia. Qed.

Section Insert.
Context (p : mem) (a : acl) (Hat : acl_at p a) (l r : list mem) (Hlr : acl_aces a = l ++ r).

(** The layout of the ACL once there is room for [n] bytes between [l] and [r]. *)
Lemma make_room n :
  0 <= n -> acl_used a + n <= acl_size a ->
  exists junk slack,
    let p' := acl_header (acl_revision a) (acl_size a) (acl_count a) ++ concat l ++ junk ++ concat r ++ slack in
    RtlpMakeRoomForAceAtLocation p (acl_used a) (8 + aces_len l) n = Some (STATUS_SUCCESS, p') /\
    zlen junk = n /\ zlen p' = zlen p.
Proof using Hat Hlr.
  intros Hn Hfit. unfold RtlpMakeRoomForAceAtLocation, RtlpCheckEnoughAclBuffer.
  destruct (acl_at_fields p a Hat) as (_ & _ & -> & _). bsimpl.
  destruct (acl_at_used_range p a Hat). destruct Hat as (_ & Hz & slack & ->).
  destruct (Z.ltb_spec 0xFFFF (acl_used a + n)); [lia|].
  destruct (Z.ltb_spec (acl_size a) (acl_used a + n)); [lia|]. cbn [is_ok].
  unfold acl_used in *. rewrite Hlr in *. rewrite concat_app, <- app_assoc, app_assoc in *.
  rewrite aces_len_app in *. set (h := acl_header _ _ _) in *.
  assert (Hh : zlen h = 8) by apply zlen_acl_header. unfold aces_len in *.
  destruct (move_up (h ++ concat l) (concat r) slack n) as (junk & s' & Hm & Hj & Hs); [zl|].
  rewrite zlen_app, Hh in Hm. replace (8 + (_ + _) - _) with (zlen (concat r)) by lia.
  rewrite Hm. bsimpl. exists junk, s'. rewrite <- !app_assoc. split_and!; [done|done|zl].
Qed.

(** Writing well-formed ACEs there and counting them gives the larger ACL. *)
Lemma fill_room_list junk xs slack :
  let h := acl_header (acl_revision a) (acl_size a) (acl_count a) in
  Forall ace_wf xs -> acl_used a + aces_len xs <= acl_size a -> zlen junk = aces_len xs ->
  zlen (h ++ concat l ++ junk ++ concat r ++ slack) = zlen p ->
  wr (h ++ concat l ++ junk ++ concat r ++ slack) (8 + aces_len l) (concat xs)
    = Some (h ++ concat l ++ concat xs ++ concat r ++ slack) /\
  Acl_AceCount (h ++ concat l ++ concat xs ++ concat r ++ slack) = Some (acl_count a) /\
  exists p', st16 (h ++ concat l ++ concat xs ++ concat r ++ slack) 4
               (u16 (acl_count a + Z.of_nat (length xs))) = Some p' /\
    acl_at p' (acl_with a (l ++ xs ++ r)) /\ zlen p' = zlen p.
Proof using Hat Hlr.
  intros h Hx Hfit Hj Hlen. assert (Hh : zlen h = 8) by apply zlen_acl_header.
  pose proof (acl_at_used_range p a Hat). destruct Hat as (Hw & Hz & _).
  assert (Hw' : acl_wf (acl_with a (l ++ xs ++ r))).
  { apply acl_with_wf; [done| |unfold acl_used in *; rewrite Hlr, !aces_len_app in *; lia].
    destruct Hw as (_ & _ & Hf). rewrite Hlr in Hf. apply Forall_app in Hf as [? ?].
    apply Forall_app; split; [done|]. by apply Forall_app. }
  pose proof (acl_count_range a Hw). pose proof (acl_count_range _ Hw'). split_and!.
  - rewrite app_assoc, wr_at; [by rewrite <- app_assoc|unfold aces_len; zl|done].
  - apply acl_header_fields; lia.
  - unfold aces_len in Hj. assert (Hc : acl_count a + Z.of_nat (length xs) = acl_count (acl_with a (l ++ xs ++ r))).
    { unfold acl_count, acl_with. cbn [acl_aces]. rewrite Hlr, !length_app. lia. }
    rewrite Hc. unfold h. rewrite st_count_header, u16_small by lia.
    eexists; split; [done|]. rewrite !zlen_app, zlen_acl_header in *. rewrite Hh in *. split; [|lia].
    split; [done|]. split; [unfold acl_with; cbn [acl_size]; rewrite !zlen_app, zlen_acl_header; lia|].
    exists slack. cbn [acl_with acl_aces acl_revision acl_size]. rewrite !concat_app, <- !app_assoc. done.
Qed.

Lemma fill_room junk x slack :
  let h := acl_header (acl_revision a) (acl_size a) (acl_count a) in
  ace_wf x -> acl_used a + zlen x <= acl_size a -> zlen junk = zlen x ->
  zlen (h ++ concat l ++ junk ++ concat r ++ slack) = zlen p ->
  wr (h ++ concat l ++ junk ++ concat r ++ slack) (8 + aces_len l) x
    = Some (h ++ concat l ++ x ++ concat r ++ slack) /\
  Acl_AceCount (h ++ concat l ++ x ++ concat r ++ slack) = Some (acl_count a) /\
  exists p', st16 (h ++ concat l ++ x ++ concat r ++ slack) 4 (u16 (acl_count a + 1)) = Some p' /\
    acl_at p' (acl_with a (l ++ x :: r)) /\ zlen p' = zlen p.
Proof using Hat Hlr.
  intros h Hx Hfit Hj Hlen. pose proof (fill_room_list junk [x] slack) as HF.
  assert (Hc : concat [x] = x) by (cbn; apply app_nil_r). unfold aces_len in HF at 1 2.
  rewrite Hc in HF. apply HF; try done. by constructor.
Qed.

(** Not enough room: the status of [RtlpCheckEnoughAclBuffer], and no change. *)
Lemma make_room_fails n :
  0 <= n -> acl_size a < acl_used a + n ->
  exists st, RtlpMakeRoomForAceAtLocation p (acl_used a) (8 + aces_len l) n = Some (st, p) /\
    (st = if 0xFFFF <? acl_used a + n then STATUS_INTEGER_OVERFLOW else STATUS_BUFFER_TOO_SMALL).
Proof using Hat.
  intros Hn Hfit. unfold RtlpMakeRoomForAceAtLocation, RtlpCheckEnoughAclBuffer.
  destruct (acl_at_fields p a Hat) as (_ & _ & -> & _). bsimpl.
  destruct (Z.ltb_spec 0xFFFF (acl_used a + n)); [eauto|].
  destruct (Z.ltb_spec (acl_size a) (acl_used a + n)); [eauto|lia].
Qed.
End Insert.
End Ops.
