(* ===== verification/AclEdit.v ===== *)
(** Building and editing ACLs: [RtlInitializeAcl], [RtlInsertAce],
    [RtlInsertAccessAllowedAce], [RtlInsertAccessDeniedAce] and [RtlRemoveAce]
    as operations on the list of ACEs. *)

From S2P Require Import Prelude SecurityTypes Sid Acl AclRepr AclOps.

(** * The standard ACE *)

(** The image of an access allowed, access denied or system audit ACE. *)
Definition access_ace `{Host} (t f mask : Z) (s : sid) : mem :=
  [t; f] ++ encode host 2 (16 + 4 * sid_count s) ++ encode host 4 mask ++ sid_bytes host s.

Arguments access_ace {_} : simpl never.

Section Edit.
Context `{Host}.

Lemma zlen_access_ace t f mask s : sid_wf s -> zlen (access_ace t f mask s) = 16 + 4 * sid_count s.
Proof. intros. unfold access_ace. zl. Qed.

Lemma valid_flags_land f m : LW_IS_VALID_FLAGS f m = true <-> Z.land f m = f.
Proof.
  unfold LW_IS_VALID_FLAGS. rewrite Z.eqb_eq. split; intros E; zbits.
Qed.

Lemma valid_ace_flags_range f : LW_IS_VALID_FLAGS f VALID_ACE_FLAGS_MASK = true -> 0 <= f < 256.
Proof.
  rewrite valid_flags_land. intros E.
  assert (E2 : Z.land f (Z.ones 8) = f).
  { rewrite <- E at 2. rewrite <- E at 1. rewrite <- Z.land_assoc. f_equal. }
  rewrite Z.land_ones in E2 by lia. rewrite <- E2. by apply Z.mod_pos_bound.
Qed.

Lemma access_ace_wf t f mask s :
  0 <= t < 256 -> LW_IS_VALID_FLAGS f VALID_ACE_FLAGS_MASK = true -> sid_wf s ->
  ace_wf (access_ace t f mask s).
Proof.
  intros Ht Hf Hs. pose proof (valid_ace_flags_range f Hf). pose proof (sid_count_nonneg s).
  pose proof Hs as (_ & _ & _ & Hc & _). unfold ace_wf. rewrite zlen_access_ace by done.
  split_and!; [|lia|lia| |].
  - unfold access_ace. rewrite !bytes_ok_app. split_and!; auto with lw; [|by apply bytes_ok_sid].
    repeat constructor; lia.
  - unfold Ace_AceSize, ld16, access_ace. rewrite rd_at by zl. bsimpl.
    rewrite (decode_encode host 2); [done|]. change (256 ^ Z.of_nat 2) with 65536. lia.
  - exists f. split; [apply ld8_second|done].
Qed.

(** ** [RtlInitialize*Ace] *)

Lemma length_ace p s : sid_at host p s -> RtlLengthAccessAllowedAce p = Some (16 + 4 * sid_count s).
Proof.
  intros Hp. unfold RtlLengthAccessAllowedAce. rewrite (sid_at_length host p s Hp). bsimpl.
  destruct (sid_at_wf _ _ _ Hp) as (_ & _ & _ & ? & _). pose proof (sid_count_nonneg s).
  rewrite u16_small by lia. f_equal. lia.
Qed.

Definition init_params_ok (CheckMask : bool) (f mask : Z) (s : sid) : bool :=
  LW_IS_VALID_FLAGS f VALID_ACE_FLAGS_MASK &&
  (negb CheckMask || LW_IS_VALID_FLAGS mask VALID_DACL_ACCESS_MASK) && sid_valid s.

Lemma initialize_ace_ok t cm A junk B f mask p s len :
  sid_at host p s -> init_params_ok cm f mask s = true -> 0 <= t < 256 ->
  zlen junk = 16 + 4 * sid_count s -> 16 + 4 * sid_count s <= len ->
  initialize_ace t cm (A ++ junk ++ B) (zlen A) len f mask (Some p) =
  Some (STATUS_SUCCESS, A ++ access_ace t f mask s ++ B).
Proof.
  intros Hp Hok Ht Hj Hlen. unfold initialize_ace, init_params_ok in *. bsimpl. bool_hyps.
  rewrite (length_ace p s Hp). bsimpl. pose proof (valid_ace_flags_range f H0).
  rewrite H0, (sid_at_valid host p s Hp), H1. replace (cm && _) with false
    by (symmetry; destruct cm; [simpl in *; by rewrite H2|done]).
  cbn [negb orb]. bsimpl. cbn [negb]. destruct (Z.ltb_spec len (16 + 4 * sid_count s)); [lia|].
  pose proof (sid_count_nonneg s). destruct junk as [|j0 [|j1 junk]]; [zl..|]. rewrite !zlen_cons in Hj.
  destruct (zlen_split junk 2) as (j2 & junk2 & -> & H2'); [lia|]. rewrite zlen_app in Hj.
  destruct (zlen_split junk2 4) as (j4 & js & -> & H4'); [lia|]. rewrite zlen_app in Hj.
  cbn [app]. rewrite st_revision by done. bsimpl.
  unfold u8. rewrite (Z.mod_small f) by done. rewrite st_count by done. bsimpl.
  change (t :: f :: ?r) with ([t; f] ++ r). rewrite <- !app_assoc, app_assoc.
  unfold st16, st32. rewrite wr_at by zl. bsimpl. rewrite app_assoc, wr_at by zl. bsimpl.
  rewrite (sid_at_length host p s Hp). bsimpl. rewrite (sid_at_rd host p s Hp). bsimpl.
  pose proof (sid_at_wf _ _ _ Hp). rewrite app_assoc, wr_at by zl. bsimpl.
  unfold access_ace. rewrite <- !app_assoc. done.
Qed.

Lemma initialize_ace_bad t cm m loc f mask p s len :
  sid_at host p s -> init_params_ok cm f mask s = false ->
  initialize_ace t cm m loc len f mask (Some p) = Some (STATUS_INVALID_PARAMETER, m).
Proof.
  intros Hp Hok. unfold initialize_ace, init_params_ok in *. bsimpl.
  rewrite (length_ace p s Hp). bsimpl. rewrite (sid_at_valid host p s Hp).
  destruct (LW_IS_VALID_FLAGS f _); [|done]. cbn [negb orb andb] in *.
  destruct cm; cbn [negb orb andb] in *; [destruct (LW_IS_VALID_FLAGS mask _); [|done]|];
    cbn [negb orb andb] in *; rewrite Hok; done.
Qed.

(** ** [RtlInitializeAcl] *)

Lemma RtlInitializeAcl_ok m len rev :
  RtlpValidAclRevision rev = true -> 8 <= len <= 65535 -> len <= zlen m ->
  exists m', RtlInitializeAcl m len rev = Some (STATUS_SUCCESS, m', 8) /\
    acl_at m' (mk_acl rev len []) /\ zlen m' = zlen m.
Proof.
  intros Hr Hl Hm. unfold RtlInitializeAcl.
  assert (Hrev : rev = ACL_REVISION \/ rev = ACL_REVISION_DS)
    by (unfold RtlpValidAclRevision in Hr; apply orb_true_iff in Hr as [?|?]; bool_hyps; auto).
  replace (negb _ && negb _) with false by (destruct Hrev as [-> | ->]; done).
  destruct (Z.ltb_spec 0xFFFF len); [lia|]. change sizeof_ACL with 8.
  destruct (Z.ltb_spec len 8); [lia|].
  assert (Hru : u8 rev = rev /\ 0 <= rev < 256) by (destruct Hrev as [-> | ->]; done).
  destruct Hru as [-> Hru]. rewrite u16_small by lia.
  destruct (zlen_split m len) as (h & rest & -> & Hh); [lia|].
  destruct h as [|o0 [|o1 h]]; [zl..|]. rewrite !zlen_cons in Hh.
  destruct (zlen_split h 2) as (j2 & h2 & -> & H2'); [lia|]. rewrite zlen_app in Hh.
  destruct (zlen_split h2 2) as (j4 & h4 & -> & H4'); [lia|]. rewrite zlen_app in Hh.
  destruct (zlen_split h4 2) as (j6 & body & -> & H6'); [lia|]. rewrite zlen_app in Hh.
  cbn [app]. rewrite st_revision_0 by done. bsimpl. unfold st16.
  change (rev :: o1 :: ?r) with ([rev; o1] ++ r). rewrite <- !app_assoc, wr_at by zl. bsimpl.
  rewrite app_assoc, wr_at by zl. bsimpl. rewrite <- app_assoc. cbn [app].
  rewrite st_count_0 by lia. bsimpl. change (rev :: 0 :: ?r) with ([rev; 0] ++ r).
  rewrite app_assoc, app_assoc, wr_at by zl. bsimpl. unfold RtlZeroMemory.
  rewrite app_assoc, wr_at by (zl || (rewrite zlen_zeros; lia)). bsimpl.
  eexists; split; [done|]. split.
  - split; [|split].
    + unfold acl_wf, acl_used, aces_len. cbn [acl_revision acl_size acl_aces concat]. rewrite zlen_nil.
      split_and!; [done|lia|lia|constructor].
    + cbn [acl_size]. zl.
    + exists (zeros (len - 8) ++ rest). unfold acl_header, acl_count. cbn [acl_revision acl_size acl_aces].
      rewrite <- !app_assoc. do 4 f_equal. destruct host; done.
  - zl.
Qed.

(** [RtlInitializeAcl] builds the empty ACL of the revision and size asked
    for, eight bytes in use, when the revision is one of the two known and the
    size is at least a header and fits 16 bits; otherwise it fails and leaves
    the buffer as it was. [RtlCreateAcl] does the same. *)
Theorem RtlInitializeAcl_correct m len rev :
  0 <= len <= zlen m ->
  if RtlpValidAclRevision rev && (8 <=? len) && (len <=? 65535) then
    exists m', RtlInitializeAcl m len rev = Some (STATUS_SUCCESS, m', 8) /\
      RtlCreateAcl m len rev = Some (STATUS_SUCCESS, m') /\
      acl_at m' (mk_acl rev len []) /\ zlen m' = zlen m
  else exists st, RtlInitializeAcl m len rev = Some (st, m, 8) /\ RtlCreateAcl m len rev = Some (st, m) /\
      (st = STATUS_INVALID_PARAMETER \/ st = STATUS_BUFFER_TOO_SMALL).
Proof.
  intros Hl. unfold RtlCreateAcl. destruct (_ && _) eqn:E.
  { bool_hyps. destruct (RtlInitializeAcl_ok m len rev) as (m' & -> & Hat); [done|lia|lia|]. by exists m'. }
  unfold RtlInitializeAcl, RtlpValidAclRevision in *. change sizeof_ACL with 8.
  destruct (rev =? ACL_REVISION), (rev =? ACL_REVISION_DS); cbn [negb andb orb] in *; eauto;
    (destruct (Z.ltb_spec 0xFFFF len); [by eauto|]; destruct (Z.ltb_spec len 8); [by eauto|]);
    rewrite !(proj2 (Z.leb_le _ _)) in E by lia; done.
Qed.

(** ** Insertion *)

Section At.
Context (p : mem) (a : acl) (Hat : acl_at p a) (l r : list mem) (Hlr : acl_aces a = l ++ r).

Lemma location_next :
  RtlpGetAceLocationFromOffset (Some p) (acl_used a) (next_offset l r) =
  Some (STATUS_SUCCESS, Some (8 + aces_len l)).
Proof using Hat Hlr.
  destruct r as [|x r']; [|by apply (location_of p a Hat l x r')].
  rewrite (location_any p a Hat). cbn [next_offset]. rewrite Z.eqb_refl. unfold acl_used.
  rewrite Hlr, app_nil_r. done.
Qed.

Lemma RtlInsertAce_ok x rest :
  ace_wf x -> acl_used a + zlen x <= acl_size a ->
  exists p', RtlInsertAce (Some p) (acl_used a) (next_offset l r) (Some (x ++ rest))
      = Some (STATUS_SUCCESS, Some p', acl_used a + zlen x) /\
    acl_at p' (acl_with a (l ++ x :: r)) /\ zlen p' = zlen p.
Proof using Hat Hlr.
  intros Hx Hfit. unfold RtlInsertAce. rewrite valid_ace_app by done. bsimpl. cbn [negb].
  rewrite location_next. bsimpl. cbn [is_ok negb]. rewrite ace_size_app by done. bsimpl.
  pose proof (zlen_nonneg x). pose proof (acl_at_used_range p a Hat).
  destruct (make_room p a Hat l r Hlr (zlen x)) as (junk & slack & -> & Hj & Hz); [lia..|]. bsimpl.
  cbn [is_ok negb]. rewrite rd_at_0 by done. bsimpl.
  destruct (fill_room p a Hat l r Hlr junk x slack Hx Hfit Hj Hz) as (-> & Hc & p' & Hp & Ha & Hl).
  bsimpl. rewrite Hc. bsimpl. rewrite Hp. bsimpl. rewrite u16_small by lia. eauto.
Qed.
End At.

(** C3: inserting a well-formed ACE at the offset of a position in the ACL
    inserts it there in the list of ACEs and grows the size in use by its
    length, when it fits; otherwise the call reports that the buffer is too
    small (or that the sum does not fit 16 bits) and changes nothing. The
    ACL stays inside its object in every case. *)
Theorem RtlInsertAce_correct p a l r x rest :
  acl_at p a -> acl_aces a = l ++ r -> ace_wf x ->
  let call := RtlInsertAce (Some p) (acl_used a) (next_offset l r) (Some (x ++ rest)) in
  if acl_used a + zlen x <=? acl_size a then
    exists p', call = Some (STATUS_SUCCESS, Some p', acl_used (acl_with a (l ++ x :: r))) /\
      acl_at p' (acl_with a (l ++ x :: r)) /\ zlen p' = zlen p
  else call = Some (if 0xFFFF <? acl_used a + zlen x then STATUS_INTEGER_OVERFLOW
                    else STATUS_BUFFER_TOO_SMALL, Some p, acl_used a).
Proof.
  intros Hat Hlr Hx call. subst call. destruct (Z.leb_spec (acl_used a + zlen x) (acl_size a)).
  - replace (acl_used (acl_with a (l ++ x :: r))) with (acl_used a + zlen x); [by apply RtlInsertAce_ok|].
    unfold acl_used, acl_with. cbn [acl_aces]. rewrite Hlr, !aces_len_app, aces_len_cons. lia.
  - unfold RtlInsertAce. rewrite valid_ace_app by done. bsimpl. cbn [negb].
    rewrite (location_next p a Hat l r Hlr). bsimpl. cbn [is_ok negb]. rewrite ace_size_app by done. bsimpl.
    destruct (make_room_fails p a Hat l (zlen x)) as (st & -> & ->); [apply zlen_nonneg|lia|]. bsimpl.
    destruct (Z.ltb_spec 0xFFFF (acl_used a + zlen x)); done.
Qed.

(** ** Insertion of a new standard ACE *)

Lemma acl_used_with a l x r :
  acl_aces a = l ++ r -> acl_used (acl_with a (l ++ x :: r)) = acl_used a + zlen x.
Proof.
  intros E. unfold acl_used, acl_with. cbn [acl_aces]. rewrite E, !aces_len_app, aces_len_cons. lia.
Qed.

Lemma insert_new_ace_ok p a l r t cm f mask q s :
  acl_at p a -> acl_aces a = l ++ r -> sid_at host q s -> 0 <= t < 256 ->
  init_params_ok cm (u16 f) mask s = true -> acl_used a + 16 + 4 * sid_count s <= acl_size a ->
  let a' := acl_with a (l ++ access_ace t (u16 f) mask s :: r) in
  exists p', insert_new_ace (initialize_ace t cm) p (acl_used a) (8 + aces_len l) f mask (Some q)
      = Some (STATUS_SUCCESS, p', acl_used a') /\ acl_at p' a' /\ zlen p' = zlen p.
Proof.
  intros Hat Hlr Hq Ht Hok Hfit a'. subst a'. unfold insert_new_ace. bsimpl.
  rewrite (length_ace q s Hq). bsimpl. pose proof (sid_count_nonneg s).
  pose proof (acl_at_used_range p a Hat). pose proof (sid_at_wf _ _ _ Hq) as Hw.
  pose proof (zlen_access_ace t (u16 f) mask s Hw) as Hxl.
  assert (Hx : ace_wf (access_ace t (u16 f) mask s)).
  { unfold init_params_ok in Hok. bool_hyps. by apply access_ace_wf. }
  destruct (make_room p a Hat l r Hlr (16 + 4 * sid_count s)) as (junk & slack & -> & Hj & Hz); [lia..|].
  bsimpl. cbn [is_ok negb].
  destruct (fill_room p a Hat l r Hlr junk (access_ace t (u16 f) mask s) slack Hx) as (_ & Hc & p' & Hp & Ha & Hl);
    [lia|lia|done|].
  set (h := acl_header _ _ _) in *. assert (Hh : zlen h = 8) by apply zlen_acl_header.
  pose proof (initialize_ace_ok t cm (h ++ concat l) junk (concat r ++ slack) (u16 f) mask q s
                (16 + 4 * sid_count s) Hq Hok Ht Hj ltac:(lia)) as Hi.
  rewrite zlen_app, Hh, <- !app_assoc in Hi. unfold aces_len in *. rewrite Hi. bsimpl. cbn [is_ok negb].
  rewrite Hc. bsimpl. rewrite Hp. bsimpl. rewrite acl_used_with, Hxl by done.
  rewrite (u16_small (acl_used a + _)) by lia. eauto.
Qed.

Lemma insert_new_ace_no_room p a l init f mask q s :
  acl_at p a -> sid_at host q s -> acl_size a < acl_used a + 16 + 4 * sid_count s ->
  insert_new_ace init p (acl_used a) (8 + aces_len l) f mask (Some q) =
  Some (if 0xFFFF <? acl_used a + 16 + 4 * sid_count s then STATUS_INTEGER_OVERFLOW
        else STATUS_BUFFER_TOO_SMALL, p, acl_used a).
Proof.
  intros Hat Hq Hfit. unfold insert_new_ace. bsimpl. rewrite (length_ace q s Hq). bsimpl.
  pose proof (sid_count_nonneg s). pose proof (acl_at_used_range p a Hat).
  destruct (make_room_fails p a Hat l (16 + 4 * sid_count s)) as (st & -> & ->); [lia..|]. bsimpl.
  rewrite Z.add_assoc. destruct (Z.ltb_spec 0xFFFF (acl_used a + 16 + 4 * sid_count s)); done.
Qed.

(** Flags, a mask or a SID that is not valid: the ACEs have been moved already, and the
    number of ACEs stays as it was. *)
Lemma insert_new_ace_rejected p a l r t cm f mask q s :
  acl_at p a -> acl_aces a = l ++ r -> sid_at host q s -> init_params_ok cm (u16 f) mask s = false -> acl_used a + 16 + 4 * sid_count s <= acl_size a ->
  exists junk slack,
    let p' := acl_header (acl_revision a) (acl_size a) (acl_count a) ++ concat l ++ junk ++ concat r ++ slack in
    insert_new_ace (initialize_ace t cm) p (acl_used a) (8 + aces_len l) f mask (Some q) = Some (STATUS_INVALID_PARAMETER, p', acl_used a) /\
    zlen junk = 16 + 4 * sid_count s /\ zlen p' = zlen p.
Proof.
  intros Hat Hlr Hq Hbad Hfit. unfold insert_new_ace. bsimpl. rewrite (length_ace q s Hq). bsimpl. pose proof (sid_count_nonneg s).
  destruct (make_room p a Hat l r Hlr (16 + 4 * sid_count s)) as (junk & slack & -> & Hj & Hz); [lia..|]. bsimpl. cbn [is_ok negb].
  rewrite (initialize_ace_bad t cm _ _ _ mask q s) by done. bsimpl. by exists junk, slack.
Qed.

(** The two functions that insert a new access ACE, by the type they write. *)
Definition insert_access_of (deny : bool) (Acl : ptr) (AclSizeUsed AceOffset AceFlags AccessMask : Z)
    (Sid : ptr) : option (NTSTATUS * ptr * Z * option Z) :=
  if deny then RtlInsertAccessDeniedAce Acl AclSizeUsed AceOffset AceFlags AccessMask Sid true
  else RtlInsertAccessAllowedAce Acl AclSizeUsed AceOffset AceFlags AccessMask Sid.

Definition access_type (deny : bool) : Z :=
  if deny then ACCESS_DENIED_ACE_TYPE else ACCESS_ALLOWED_ACE_TYPE.

Lemma insert_access_of_eq deny Acl used off f mask Sid :
  insert_access_of deny Acl used off f mask Sid =
  insert_access_ace (initialize_ace (access_type deny) deny) Acl used off f mask Sid.
Proof.
  destruct deny; [|done]. unfold insert_access_of, RtlInsertAccessDeniedAce, RtlInitializeAccessDeniedAce.
  cbn [access_type]. destruct (insert_access_ace _ _ _ _ _ _ _); done.
Qed.

(** [RtlInsertAccessAllowedAce] and [RtlInsertAccessDeniedAce] insert, at
    the position asked for, the ACE of their type with the flags, mask and SID
    given, and report its location; they refuse an invalid SID and a full ACL
    and then change nothing. (Flags or, for a denied ACE, a mask they do not
    accept are only rejected after the ACEs were moved: see
    [insert_bad_flags_corrupts].) *)
Theorem RtlInsertAccessAce_correct deny p a l r f mask q s :
  acl_at p a -> acl_aces a = l ++ r -> sid_at host q s -> 0 <= f < 65536 ->
  let call := insert_access_of deny (Some p) (acl_used a) (next_offset l r) f mask (Some q) in
  let a' := acl_with a (l ++ access_ace (access_type deny) f mask s :: r) in
  if negb (sid_valid s) then call = Some (STATUS_INVALID_PARAMETER, Some p, acl_used a, None)
  else if acl_size a <? acl_used a + 16 + 4 * sid_count s then
    exists st, call = Some (st, Some p, acl_used a, None) /\
      (st = STATUS_BUFFER_TOO_SMALL \/ st = STATUS_INTEGER_OVERFLOW)
  else init_params_ok deny f mask s = true ->
    exists p', call = Some (STATUS_SUCCESS, Some p', acl_used a', Some (8 + aces_len l)) /\
      acl_at p' a' /\ zlen p' = zlen p.
Proof.
  intros Hat Hlr Hq Hf call a'. subst call a'. rewrite insert_access_of_eq. unfold insert_access_ace.
  rewrite (sid_at_valid host q s Hq). bsimpl. destruct (sid_valid s) eqn:Hv; [|done]. cbn [negb].
  rewrite (location_next p a Hat l r Hlr). bsimpl. cbn [is_ok negb].
  destruct (Z.ltb_spec (acl_size a) (acl_used a + 16 + 4 * sid_count s)).
  - rewrite (insert_new_ace_no_room p a l _ f mask q s Hat Hq) by done. bsimpl.
    destruct (0xFFFF <? _); cbn; eauto.
  - intros Hok. assert (Hu : u16 f = f) by by apply u16_small. rewrite <- Hu in Hok |- *.
    destruct (insert_new_ace_ok p a l r (access_type deny) deny f mask q s) as (p' & Hi & Ha & Hz);
      try done; try lia; [by destruct deny|].
    rewrite Hu, Hi. rewrite Hu in *. bsimpl. cbn. eauto.
Qed.

(** ** Removal *)

(** Closing the gap that [x] leaves, when what follows it is not longer. *)
Lemma close_gap A x R S :
  zlen R <= zlen x ->
  (m ← RtlCopyMemoryWithin (A ++ x ++ R ++ S) (zlen A) (zlen A + zlen x) (zlen R);
   RtlZeroMemory m (zlen A + zlen R) (zlen x)) = Some (A ++ R ++ zeros (zlen x) ++ S).
Proof.
  intros Hl. unfold RtlCopyMemoryWithin. replace (_ || _ || _) with true
    by (symmetry; apply orb_true_iff; left; apply orb_true_iff; right; apply Z.leb_le; lia).
  unfold RtlMoveMemory. rewrite (app_assoc A), rd_at by zl. bsimpl. rewrite <- (app_assoc A).
  destruct (zlen_split (x ++ R) (zlen R)) as (x1 & x2 & Hxr & Hx1); [zl|].
  rewrite (app_assoc x), Hxr, <- app_assoc. apply (f_equal zlen) in Hxr. rewrite !zlen_app in Hxr.
  rewrite wr_at by zl. bsimpl. unfold RtlZeroMemory. pose proof (zlen_nonneg x).
  rewrite app_assoc, wr_at by (rewrite ?zlen_zeros, ?zlen_app; lia). by rewrite <- app_assoc.
Qed.

Lemma close_gap_overlaps m a x r :
  0 < x -> x < r -> RtlCopyMemoryWithin m a (a + x) r = None.
Proof. intros. unfold RtlCopyMemoryWithin. repeat bool_case; try lia. done. Qed.

(** The ACL without the ACE, the gap at the end zeroed. *)
Lemma removed_acl_at a l x r slack :
  acl_wf a -> acl_aces a = l ++ x :: r ->
  let p := acl_header (acl_revision a) (acl_size a) (acl_count a) ++ concat l ++ concat r ++ zeros (zlen x) ++ slack in
  acl_size a <= zlen p ->
  Acl_AceCount p = Some (acl_count a) /\
  exists p', st16 p 4 (u16 (acl_count a - 1)) = Some p' /\ acl_at p' (acl_with a (l ++ r)) /\ zlen p' = zlen p.
Proof.
  intros Hw Hlr p Hz. pose proof (acl_count_range a Hw). pose proof Hw as (_ & Hs & Hf).
  unfold acl_used in Hs. rewrite Hlr in Hs, Hf. apply Forall_app in Hf as [? Hf].
  apply Forall_cons_iff in Hf as [_ ?]. rewrite aces_len_app, aces_len_cons in Hs.
  pose proof (aces_len_nonneg l). pose proof (aces_len_nonneg r). pose proof (zlen_nonneg x).
  split; [apply acl_header_fields; lia|]. subst p. rewrite st_count_header. eexists; split; [done|].
  rewrite !zlen_app, !zlen_acl_header in *. split; [|done]. split; [|split].
  - apply acl_with_wf; [done|by apply Forall_app|rewrite aces_len_app; lia].
  - unfold acl_with. cbn [acl_size]. rewrite !zlen_app, zlen_acl_header. lia.
  - exists (zeros (zlen x) ++ slack). unfold acl_count, acl_with in *. cbn [acl_aces acl_revision acl_size].
    rewrite concat_app, <- app_assoc, Hlr, !length_app. do 2 f_equal. simpl length.
    rewrite u16_small; rewrite Hlr, length_app in *; simpl length in *; lia.
Qed.

Lemma RtlpRemoveAceFromLocation_spec p a l x r :
  acl_at p a -> acl_aces a = l ++ x :: r ->
  let call := RtlpRemoveAceFromLocation p (acl_used a) (8 + aces_len l) in
  if aces_len r <=? zlen x then
    exists p', call = Some (STATUS_SUCCESS, p', acl_used (acl_with a (l ++ r))) /\
      acl_at p' (acl_with a (l ++ r)) /\ zlen p' = zlen p
  else call = None.
Proof.
  intros Hat Hlr call. subst call. destruct (location_of p a Hat l x r Hlr) as (_ & Hx & Hle & _).
  pose proof (acl_at_used_range p a Hat). pose proof (aces_len_nonneg l). pose proof (aces_len_nonneg r).
  assert (4 <= zlen x) by (destruct Hx as (_ & ? & _); lia). unfold RtlpRemoveAceFromLocation.
  destruct (acl_at_padd p a Hat l (x :: r) Hlr) as (slack & ->). cbn [concat]. rewrite <- app_assoc.
  rewrite ace_size_app by done. bsimpl. unfold sizeof_ACE_HEADER. destruct (Z.ltb_spec (zlen x) 4); [lia|].
  destruct (Z.ltb_spec (acl_used a) (8 + aces_len l + zlen x)); [lia|].
  assert (Hu : acl_used a = 8 + aces_len l + zlen x + aces_len r)
    by (unfold acl_used; rewrite Hlr, aces_len_app, aces_len_cons; lia).
  replace (acl_used a - (8 + aces_len l + zlen x)) with (aces_len r) by lia.
  destruct (Z.leb_spec (aces_len r) (zlen x)) as [Hfit|Hfit]; [|rewrite close_gap_overlaps by lia; done].
  destruct Hat as (Hw & Hz & slack' & ->). rewrite Hlr, concat_app in *. cbn [concat] in *.
  pose proof (close_gap (acl_header (acl_revision a) (acl_size a) (acl_count a) ++ concat l) x (concat r) slack' Hfit)
    as Hgap. rewrite zlen_app, zlen_acl_header, <- !app_assoc in *. unfold aces_len in Hu at 1 2.
  apply bind_Some in Hgap as (m & Hcopy & Hzero). unfold aces_len at 1 2 3. rewrite Hcopy. bsimpl.
  replace (acl_used a - zlen x) with (8 + zlen (concat l) + zlen (concat r)) by lia. rewrite Hzero. bsimpl.
  destruct (removed_acl_at a l x r slack' Hw Hlr) as (-> & p' & Hst & Hp' & Hl');
    [rewrite !zlen_app, zlen_acl_header, zlen_zeros in *; lia|].
  bsimpl. rewrite Hst. bsimpl. exists p'.
  split_and!; [|done|rewrite Hl', !zlen_app, !zlen_acl_header, zlen_zeros; lia].
  rewrite u16_small by lia. unfold acl_used, acl_with. cbn [acl_aces]. rewrite aces_len_app.
  unfold aces_len. f_equal. f_equal. lia.
Qed.

(** [RtlRemoveAce] at the offset of an ACE removes it from the list of ACEs
    and shrinks the size in use, when the ACEs after it are together no longer
    than the one removed; when they are longer, the source and destination of
    its [memcpy] overlap, which is undefined. *)
Theorem RtlRemoveAce_correct p a l x r :
  acl_at p a -> acl_aces a = l ++ x :: r ->
  let call := RtlRemoveAce (Some p) (acl_used a) (aces_len l) in
  if aces_len r <=? zlen x then
    exists p', call = Some (STATUS_SUCCESS, Some p', acl_used (acl_with a (l ++ r))) /\
      acl_at p' (acl_with a (l ++ r)) /\ zlen p' = zlen p
  else call = None.
Proof.
  intros Hat Hlr call. subst call. destruct (location_of p a Hat l x r Hlr) as (Hloc & Hx & Hle & _).
  pose proof (acl_at_used_range p a Hat). pose proof (RtlpRemoveAceFromLocation_spec p a l x r Hat Hlr) as Hrm.
  unfold RtlRemoveAce. pose proof (zlen_nonneg x).
  destruct (Z.eqb_spec (aces_len l) ACL_END_ACE_OFFSET) as [E|_]; [unfold ACL_END_ACE_OFFSET in E; lia|].
  rewrite Hloc. bsimpl. cbn [is_ok negb]. cbv zeta in Hrm.
  destruct (aces_len r <=? zlen x); [|by rewrite Hrm].
  destruct Hrm as (p' & -> & ? & ?). bsimpl. eauto.
Qed.
End Edit.

(** * Concrete ACLs *)

(** The image of an ACL followed by [n] free bytes. *)
Definition acl_image `{Host} (a : acl) (n : Z) : mem :=
  acl_header (acl_revision a) (acl_size a) (acl_count a) ++ concat (acl_aces a) ++ zeros n.

Lemma acl_image_at `{Host} a n :
  acl_wf a -> 0 <= n -> acl_size a <= acl_used a + n -> acl_at (acl_image a n) a.
Proof.
  intros Hw Hn Hz. split; [done|]. split; [|by eexists].
  unfold acl_image, acl_used, aces_len in *. rewrite !zlen_app, zlen_acl_header, zlen_zeros; lia.
Qed.

Section Demo.
#[local] Instance demo_host : Host := LittleEndian.

Definition allow_domain : mem := access_ace ACCESS_ALLOWED_ACE_TYPE 0 1 sid_domain.
Definition deny_system : mem := access_ace ACCESS_DENIED_ACE_TYPE 0 2 sid_system.

Lemma demo_aces_wf : ace_wf allow_domain /\ ace_wf deny_system.
Proof. split; (apply access_ace_wf; [done|done|apply (known_sid_wf LittleEndian); set_solver]). Qed.

(** [deny_system] (20 bytes), then [allow_domain] (32 bytes), in 120 bytes. *)
Definition acl_demo : acl := mk_acl 2 120 [deny_system; allow_domain].

Lemma acl_demo_at : acl_at (acl_image acl_demo 64) acl_demo.
Proof.
  apply acl_image_at; [|done|done]. destruct demo_aces_wf. split_and!; try done.
  constructor; [done|]. constructor; [done|constructor].
Qed.

Lemma RtlValidAcl_correct_witness :
  exists used, RtlValidAcl (Some (acl_image acl_demo 64)) = Some (true, used) /\ used = acl_used acl_demo.
Proof.
  destruct (RtlValidAcl_correct (acl_image acl_demo 64) 120) as (b & used & Hv & Hb & Hu).
  - unfold acl_image. destruct demo_aces_wf as ((? & _) & (? & _)). rewrite !bytes_ok_app.
    split_and!; auto with lw; [repeat constructor; done|]. cbn [acl_aces acl_demo concat].
    rewrite !bytes_ok_app. split_and!; done || constructor.
  - vm_compute. discriminate.
  - reflexivity.
  - vm_compute. discriminate.
  - assert (b = true) as -> by (apply Hb; exists acl_demo; apply acl_demo_at).
    exists used. split; [done|]. apply Hu, acl_demo_at.
Defined.

Lemma RtlIterateAce_enumerates_witness :
  iterate_all 3 (acl_image acl_demo 64) 60 0 = Some [deny_system; allow_domain].
Proof. apply (RtlIterateAce_enumerates _ acl_demo 3 acl_demo_at). simpl. lia. Defined.

Lemma RtlValidAceOffset_correct_witness :
  RtlValidAceOffset (Some (acl_image acl_demo 64)) 20 = Some true.
Proof.
  destruct (RtlValidAceOffset_correct (acl_image acl_demo 64) acl_demo 20 acl_demo_at) as (b & E & Hb). rewrite E. f_equal.
  apply Hb. unfold acl_demo. cbn [acl_aces]. eexists [_], _, []. split; reflexivity.
Defined.

Lemma RtlInitializeAcl_correct_witness :
  exists m, RtlInitializeAcl (zeros 64) 64 4 = Some (STATUS_SUCCESS, m, 8) /\ acl_at m (mk_acl 4 64 []).
Proof.
  destruct (RtlInitializeAcl_correct (zeros 64) 64 4) as (m & H1 & _ & H2 & _); [vm_compute; split; discriminate|].
  exists m. split; done.
Defined.

Lemma RtlInsertAce_correct_witness :
  exists p', RtlInsertAce (Some (acl_image acl_demo 64)) 60 20 (Some (allow_domain ++ [])) =
    Some (STATUS_SUCCESS, Some p', 92) /\
  acl_at p' (mk_acl 2 120 [deny_system; allow_domain; allow_domain]).
Proof.
  destruct (RtlInsertAce_correct (acl_image acl_demo 64) acl_demo [deny_system] [allow_domain] allow_domain [])
    as (p' & H1 & H2 & _); [apply acl_demo_at|done|apply demo_aces_wf|].
  exists p'. split; [exact H1|exact H2].
Defined.

Lemma RtlInsertAccessAce_correct_witness :
  exists p', RtlInsertAccessAllowedAce (Some (acl_image acl_demo 64)) 60 ACL_END_ACE_OFFSET 3 7
      (Some (sid_bytes LittleEndian sid_admins)) = Some (STATUS_SUCCESS, Some p', 84, Some 60) /\
    acl_at p' (mk_acl 2 120 [deny_system; allow_domain; access_ace ACCESS_ALLOWED_ACE_TYPE 3 7 sid_admins]).
Proof.
  destruct (RtlInsertAccessAce_correct false (acl_image acl_demo 64) acl_demo [deny_system; allow_domain] []
              3 7 (sid_bytes LittleEndian sid_admins) sid_admins) as (p' & H1 & H2 & _);
    [apply acl_demo_at|done|apply (known_sid_wf LittleEndian); set_solver|lia|done|].
  exists p'. split; [exact H1|exact H2].
Defined.

Lemma RtlRemoveAce_correct_witness :
  (exists p', RtlRemoveAce (Some (acl_image acl_demo 64)) 60 20 = Some (STATUS_SUCCESS, Some p', 28) /\
     acl_at p' (mk_acl 2 120 [deny_system])) /\
  RtlRemoveAce (Some (acl_image acl_demo 64)) 60 0 = None.
Proof.
  split.
  - destruct (RtlRemoveAce_correct (acl_image acl_demo 64) acl_demo [deny_system] allow_domain [])
      as (p' & H1 & H2 & _); [apply acl_demo_at|done|].
    exists p'. split; [exact H1|exact H2].
  - apply (RtlRemoveAce_correct (acl_image acl_demo 64) acl_demo [] deny_system [allow_domain]);
      [apply acl_demo_at|done].
Defined.

(** a rejected insertion can damage the ACL: [RtlInsertAccessAllowedAce]
    with a flag it does not accept reports [STATUS_INVALID_PARAMETER], but it
    has moved the ACEs already, and the list read back has lost an ACE that
    was there. *)
Theorem insert_bad_flags_corrupts :
  exists p', RtlInsertAccessAllowedAce (Some (acl_image acl_demo 64)) 60 20 0x20 7
      (Some (sid_bytes LittleEndian sid_system)) = Some (STATUS_INVALID_PARAMETER, Some p', 60, None) /\
  iterate_all 3 (acl_image acl_demo 64) 60 0 = Some (acl_aces acl_demo) /\
  iterate_all 3 p' 60 0 <> Some (acl_aces acl_demo).
Proof. eexists. split; [vm_compute; reflexivity|]. split; [vm_compute; reflexivity|]. vm_compute. discriminate. Qed.
End Demo.
