(* ===== verification/AclIndex.v ===== *)
(** The index-based ACL interface of [lwbase/src/security-acl.c]: adding,
    deleting and getting ACEs by index, and adding access ACEs in the order of
    a canonical ACL. *)

From S2P Require Import Prelude SecurityTypes Sid Acl AclRepr AclOps AclEdit.

Section Operations.
Context `{Host}.

(** The index that stands for the end of the ACL. *)
Definition MAXULONG : Z := 0xFFFFFFFF.

(** The loop of [RtlpGetAceLocationFromIndex]: [n] ACEs are left. *)
Fixpoint index_loop (n : nat) (Acl : mem) (AclSize AceIndex aceIndex sizeUsed aceOffset : Z)
    : option (NTSTATUS * Z * Z) :=
  match n with
  | O => Some (STATUS_SUCCESS, sizeUsed, aceOffset)
  | S n' =>
      let ace := padd Acl sizeUsed in
      v ← RtlpValidAce (Some ace);
      if negb v then Some (STATUS_INVALID_ACL, 0, 0)
      else
        let aceOffset := if aceIndex =? AceIndex then u16 (sizeUsed - sizeof_ACL) else aceOffset in
        s ← Ace_AceSize ace;
        let sizeUsed := u16 (sizeUsed + s) in
        if sizeUsed <? s then Some (STATUS_INVALID_ACL, 0, 0)
        else if AclSize <? sizeUsed then Some (STATUS_INVALID_ACL, 0, 0)
        else index_loop n' Acl AclSize AceIndex (u16 (aceIndex + 1)) sizeUsed aceOffset
  end.

(** The status, the size used, the offset and the location of the ACE. *)
Definition RtlpGetAceLocationFromIndex (Acl : mem) (AceIndex : Z)
    : option (NTSTATUS * Z * Z * option Z) :=
  count ← Acl_AceCount Acl;
  if (count <=? AceIndex) && negb (AceIndex =? MAXULONG)
  then Some (STATUS_INVALID_PARAMETER, 0, 0, None)
  else
    ok ← RtlpValidAclHeader (Some Acl);
    if negb ok then Some (STATUS_INVALID_ACL, 0, 0, None)
    else
      size ← Acl_AclSize Acl;
      '(status, sizeUsed, aceOffset) ← index_loop (Z.to_nat count) Acl size AceIndex 0 sizeof_ACL 0;
      if negb (is_ok status) then Some (status, 0, 0, None)
      else if (aceOffset =? 0) && negb (AceIndex =? MAXULONG) && negb (AceIndex =? 0)
      then Some (STATUS_ASSERTION_FAILURE, 0, 0, None)
      else
        let aceOffset :=
          if (aceOffset =? 0) && (AceIndex =? MAXULONG) then u16 (sizeUsed - sizeof_ACL) else aceOffset in
        if size <? sizeUsed then Some (STATUS_INVALID_ACL, 0, 0, None)
        else Some (STATUS_SUCCESS, sizeUsed, aceOffset, Some (sizeof_ACL + aceOffset)).

(** The [while] loop of [RtlpValidAceList]; it runs out of fuel on no list of
    at most [fuel] bytes, since every ACE it accepts is at least a header long. *)
Fixpoint ace_list_loop (fuel : nat) (AceList : mem) (AceListLength aceOffset aceCount : Z)
    : option (NTSTATUS * Z) :=
  if aceOffset <? AceListLength then
    match fuel with
    | O => None
    | S fuel' =>
        let aceHeader := padd AceList aceOffset in
        if AceListLength <? sizeof_ACE_HEADER + aceOffset then Some (STATUS_INVALID_PARAMETER, 0)
        else
          s ← Ace_AceSize aceHeader;
          if AceListLength <? aceOffset + s then Some (STATUS_INVALID_PARAMETER, 0)
          else
            v ← RtlpValidAce (Some aceHeader);
            if negb v then Some (STATUS_INVALID_PARAMETER, 0)
            else ace_list_loop fuel' AceList AceListLength (aceOffset + s) (u16 (aceCount + 1))
    end
  else if aceOffset =? AceListLength then Some (STATUS_SUCCESS, aceCount)
  else Some (STATUS_INVALID_PARAMETER, 0).

Definition RtlpValidAceList (AceList : mem) (AceListLength : Z) : option (NTSTATUS * Z) :=
  if (AceListLength =? 0) || (0xFFFF - sizeof_ACL <? AceListLength)
  then Some (STATUS_INVALID_PARAMETER, 0)
  else ace_list_loop (Z.to_nat AceListLength) AceList AceListLength 0 0.

Definition RtlAddAce (Acl : ptr) (AceRevision StartingAceIndex : Z) (AceList : ptr) (AceListLength : Z)
    : option (NTSTATUS * ptr) :=
  if AceListLength =? 0 then Some (STATUS_SUCCESS, Acl)
  else
    match AceList with
    | None => Some (STATUS_INVALID_PARAMETER, Acl)
    | Some aces =>
        ok ← RtlpValidAclHeader Acl;
        if negb ok then Some (STATUS_INVALID_ACL, Acl)
        else
          acl ← Acl;
          rev ← Acl_AclRevision acl;
          size ← Acl_AclSize acl;
          if negb (RtlpValidAclRevision AceRevision) || (rev <? AceRevision)
          then Some (STATUS_INVALID_PARAMETER, Acl)
          else if size - sizeof_ACL <? AceListLength then Some (STATUS_BUFFER_TOO_SMALL, Acl)
          else
            '(status, aceListCount) ← RtlpValidAceList aces AceListLength;
            if negb (is_ok status) then Some (status, Acl)
            else
              '(status, sizeUsed, aceOffset, loc) ← RtlpGetAceLocationFromIndex acl StartingAceIndex;
              if negb (is_ok status) then Some (status, Acl)
              else
                loc ← loc;
                '(status, acl) ← RtlpMakeRoomForAceAtLocation acl sizeUsed loc (u16 AceListLength);
                if negb (is_ok status) then Some (status, Some acl)
                else
                  bs ← rd aces 0 AceListLength;
                  acl ← wr acl loc bs;
                  count ← Acl_AceCount acl;
                  acl ← st16 acl 4 (u16 (count + aceListCount));
                  Some (STATUS_SUCCESS, Some acl)
    end.

Definition RtlDeleteAce (Acl : mem) (AceIndex : Z) : option (NTSTATUS * mem) :=
  if AceIndex =? MAXULONG then Some (STATUS_INVALID_PARAMETER, Acl)
  else
    '(status, sizeUsed, _, loc) ← RtlpGetAceLocationFromIndex Acl AceIndex;
    if negb (is_ok status) then Some (status, Acl)
    else
      loc ← loc;
      '(status, acl, _) ← RtlpRemoveAceFromLocation Acl sizeUsed loc;
      Some (status, acl).

(** The status and the location stored through [Ace]. *)
Definition RtlGetAce (Acl : mem) (AceIndex : Z) : option (NTSTATUS * option Z) :=
  if AceIndex =? MAXULONG then Some (STATUS_INVALID_PARAMETER, None)
  else
    '(status, _, _, loc) ← RtlpGetAceLocationFromIndex Acl AceIndex;
    Some (status, if NT_SUCCESS status then loc else None).

Definition RtlpCompareAceFlagsForInsert (AceFlags1 AceFlags2 : Z) : Z :=
  let bInherited1 := IsSetFlag AceFlags1 INHERITED_ACE in
  let bInheritOnly1 := IsSetFlag AceFlags1 INHERIT_ONLY_ACE in
  let bInherited2 := IsSetFlag AceFlags2 INHERITED_ACE in
  let bInheritOnly2 := IsSetFlag AceFlags2 INHERIT_ONLY_ACE in
  if bInherited1 then
    if negb bInherited2 then 1
    else if bInheritOnly1 then (if negb bInheritOnly2 then -1 else 0)
    else if bInheritOnly2 then 1
    else 0
  else
    if bInherited2 then -1
    else if bInheritOnly1 then (if negb bInheritOnly2 then -1 else 0)
    else if bInheritOnly2 then 1
    else 0.

(** The checks the three [RtlAdd*AceEx] functions start with. *)
Definition check_add_ace (Acl : ptr) (AceRevision : Z) (Sid : ptr) : option NTSTATUS :=
  ok ← RtlpValidAclHeader Acl;
  if negb ok then Some STATUS_INVALID_ACL
  else
    acl ← Acl;
    rev ← Acl_AclRevision acl;
    if negb (RtlpValidAclRevision AceRevision) || (rev <? AceRevision)
    then Some STATUS_INVALID_PARAMETER
    else
      v ← RtlValidSid Sid;
      Some (if (v : bool) then STATUS_SUCCESS else STATUS_INVALID_PARAMETER).

(** The loop that looks for the ACE to insert before: [stop] is its [break]
    condition on the type and the flags of the ACE it stands on. The result:
    the status and the location of that ACE, [None] when the loop ran to its end. *)
Fixpoint scan_aces (stop : Z -> Z -> bool) (n : nat) (Acl : mem) (sizeUsed aceOffset : Z)
    : option (NTSTATUS * option Z) :=
  match n with
  | O => Some (STATUS_SUCCESS, None)
  | S n' =>
      '(status, aceOffset, aceHeader) ← RtlIterateAce Acl sizeUsed aceOffset;
      if negb (is_ok status) then Some (status, None)
      else
        loc ← aceHeader;
        t ← Ace_AceType (padd Acl loc);
        f ← Ace_AceFlags (padd Acl loc);
        if stop t f then Some (STATUS_SUCCESS, Some loc)
        else scan_aces stop n' Acl sizeUsed aceOffset
  end.

(** The common body of [RtlAddAccessAllowedAceEx] and [RtlAddAccessDeniedAceEx]. *)
Definition add_access_ace_ex (stop : Z -> Z -> bool)
    (init : mem -> Z -> Z -> Z -> Z -> ptr -> option (NTSTATUS * mem))
    (Acl : ptr) (AceRevision AceFlags AccessMask : Z) (Sid : ptr) : option (NTSTATUS * ptr) :=
  status ← check_add_ace Acl AceRevision Sid;
  if negb (is_ok status) then Some (status, Acl)
  else
    acl ← Acl;
    count ← Acl_AceCount acl;
    sizeUsed ← (if 0 <? count then RtlGetAclSizeUsed acl else Some 0);
    '(status, loc) ← scan_aces stop (Z.to_nat count) acl sizeUsed 0;
    if negb (is_ok status) then Some (status, Acl)
    else
      '(status, sizeUsed, loc) ←
        match loc with
        | Some _ => Some (STATUS_SUCCESS, sizeUsed, loc)
        | None =>
            '(status, sizeUsed, _, loc) ← RtlpGetAceLocationFromIndex acl MAXULONG;
            Some (status, sizeUsed, loc)
        end;
      if negb (is_ok status) then Some (status, Acl)
      else
        loc ← loc;
        '(status, acl, _) ← insert_new_ace init acl sizeUsed loc AceFlags AccessMask Sid;
        Some (status, Some acl).

Definition stop_allowed (AceFlags t f : Z) : bool :=
  (t =? ACCESS_ALLOWED_ACE_TYPE) && (RtlpCompareAceFlagsForInsert AceFlags f <=? 0).

Definition stop_denied (AceFlags t f : Z) : bool :=
  (t =? ACCESS_ALLOWED_ACE_TYPE) ||
  ((t =? ACCESS_DENIED_ACE_TYPE) && (RtlpCompareAceFlagsForInsert AceFlags f <=? 0)).

Definition RtlAddAccessAllowedAceEx (Acl : ptr) (AceRevision AceFlags AccessMask : Z) (Sid : ptr) :=
  add_access_ace_ex (stop_allowed AceFlags) RtlInitializeAccessAllowedAce Acl AceRevision AceFlags
    AccessMask Sid.

Definition RtlAddAccessDeniedAceEx (Acl : ptr) (AceRevision AceFlags AccessMask : Z) (Sid : ptr) :=
  add_access_ace_ex (stop_denied AceFlags) RtlInitializeAccessDeniedAce Acl AceRevision AceFlags
    AccessMask Sid.

Definition RtlAddSystemAuditAceEx (Acl : ptr) (AceRevision AceFlags AccessMask : Z) (Sid : ptr)
    : option (NTSTATUS * ptr) :=
  status ← check_add_ace Acl AceRevision Sid;
  if negb (is_ok status) then Some (status, Acl)
  else
    acl ← Acl;
    '(status, sizeUsed, _, loc) ← RtlpGetAceLocationFromIndex acl MAXULONG;
    if negb (is_ok status) then Some (status, Acl)
    else
      loc ← loc;
      '(status, acl, _) ← insert_new_ace RtlInitializeSystemAuditAce acl sizeUsed loc AceFlags AccessMask Sid;
      Some (status, Some acl).
End Operations.
