(* ===== verification/AclIndexOps.v ===== *)
(** Correctness of the index-based ACL operations of [AclIndex]: an index is a
    position in the list of ACEs, adding and deleting by index are insertion
    and deletion there, and the validity test of an ACE list terminates and
    decides whether the bytes are a list of well-formed ACEs. *)

From S2P Require Import Prelude SecurityTypes Sid Acl AclRepr AclOps AclEdit AclIndex.

Section Ops.
Context `{Host}.

(** * From an index to a location *)

Lemma index_loop_skip l pre rest size idx i k off :
  Forall ace_wf l -> 8 <= zlen pre -> zlen pre + aces_len l <= size -> size < 65536 ->
  i + Z.of_nat (length l) <= idx \/ idx < i -> 0 <= i -> i + Z.of_nat (length l) < 65536 ->
  index_loop (length l + k) (pre ++ concat l ++ rest) size idx i (zlen pre) off =
  index_loop k (pre ++ concat l ++ rest) size idx (i + Z.of_nat (length l)) (zlen pre + aces_len l) off.
Proof.
  intros Hl. revert pre i. induction Hl as [|x l Hx Hl IH]; intros pre i Hp Hs Hb Hi Hi0 Hi1.
  { cbn. unfold aces_len. cbn. rewrite zlen_nil, !Z.add_0_r. done. }
  rewrite aces_len_cons in *. cbn [length] in *. pose proof (aces_len_nonneg l).
  cbn [Nat.add index_loop concat]. rewrite padd_app by done. rewrite <- app_assoc.
  rewrite valid_ace_app by done. bsimpl. rewrite ace_size_app by done. bsimpl. cbn [negb].
  assert (4 <= zlen x) by (destruct Hx as (_ & ? & _); lia).
  destruct (Z.eqb_spec i idx); [lia|].
  destruct (u16_no_carry (zlen pre) (zlen x)) as [Hu Hc]; [lia..|]. rewrite Hc, Hu.
  destruct (Z.ltb_spec size (zlen pre + zlen x)); [lia|]. rewrite u16_small by lia.
  specialize (IH (pre ++ x) (i + 1)). rewrite zlen_app, <- app_assoc in IH. rewrite IH by lia.
  f_equal; lia.
Qed.

Section At.
Context (p : mem) (a : acl) (Hat : acl_at p a).

Lemma acl_at_layout l r :
  acl_aces a = l ++ r ->
  exists slack, p = acl_header (acl_revision a) (acl_size a) (acl_count a) ++ concat l ++ concat r ++ slack.
Proof using Hat. intros Hl. destruct Hat as (_ & _ & slack & ->). exists slack. by rewrite Hl, concat_app, <- app_assoc. Qed.

(** The loop from the start, over the ACEs before the index. *)
Lemma index_loop_at l r idx :
  acl_aces a = l ++ r -> Z.of_nat (length l) <= idx ->
  index_loop (Z.to_nat (acl_count a)) p (acl_size a) idx 0 8 0 =
  index_loop (length r) p (acl_size a) idx (Z.of_nat (length l)) (8 + aces_len l) 0.
Proof using Hat.
  intros Hl Hi. pose proof (acl_at_used_range p a Hat) as Hu. destruct (acl_at_layout l r Hl) as (slack & ->).
  destruct Hat as (Hw & _). pose proof (acl_count_range a Hw). destruct Hw as (_ & _ & Hf).
  unfold acl_used in Hu. unfold acl_count at 1. rewrite Nat2Z.id. unfold acl_count in *.
  rewrite Hl, ?length_app, ?aces_len_app in *. apply Forall_app in Hf as [Hf Hr].
  pose proof (aces_len_nonneg r). set (h := acl_header _ _ _).
  assert (Hh : zlen h = 8) by apply zlen_acl_header. rewrite <- Hh.
  rewrite index_loop_skip; try done; try lia.
Qed.

Lemma index_loop_rest l r idx off :
  acl_aces a = l ++ r -> idx < Z.of_nat (length l) ->
  index_loop (length r) p (acl_size a) idx (Z.of_nat (length l)) (8 + aces_len l) off
  = Some (STATUS_SUCCESS, acl_used a, off).
Proof using Hat.
  intros Hl Hi. pose proof (acl_at_used_range p a Hat) as Hu. destruct (acl_at_layout l r Hl) as (slack & ->).
  destruct Hat as (Hw & _). pose proof (acl_count_range a Hw). destruct Hw as (_ & _ & Hf).
  unfold acl_used in *. unfold acl_count in *. rewrite Hl, ?length_app, ?aces_len_app in *.
  apply Forall_app in Hf as [Hf Hr]. set (h := acl_header _ _ _).
  assert (Hh : zlen h = 8) by apply zlen_acl_header.
  replace (8 + aces_len l) with (zlen (h ++ concat l)) by (rewrite zlen_app, Hh; done).
  rewrite app_assoc, <- (Nat.add_0_r (length r)). pose proof (aces_len_nonneg l).
  rewrite index_loop_skip; rewrite ?zlen_app, ?Hh; unfold aces_len in *; try done; try lia; try by right.
  cbn [index_loop]. do 3 f_equal. lia.
Qed.

Lemma location_index l x r :
  acl_aces a = l ++ x :: r ->
  RtlpGetAceLocationFromIndex p (Z.of_nat (length l)) =
  Some (STATUS_SUCCESS, acl_used a, aces_len l, Some (8 + aces_len l)).
Proof using Hat.
  intros Hl. pose proof (acl_at_used_range p a Hat) as Hu. unfold RtlpGetAceLocationFromIndex.
  destruct (acl_at_fields p a Hat) as (_ & _ & HS & HC & _). rewrite HC, HS. bsimpl.
  destruct (location_of p a Hat l x r Hl) as (_ & Hx & Hle & _).
  assert (Hr : 0 <= Z.of_nat (length l) < acl_count a)
    by (unfold acl_count; rewrite Hl, length_app; simpl length; lia).
  pose proof (acl_count_range a (proj1 Hat)). unfold MAXULONG.
  destruct (Z.leb_spec (acl_count a) (Z.of_nat (length l))); [lia|]. cbn [andb].
  rewrite (acl_at_valid_header p a Hat). bsimpl. cbn [negb]. change sizeof_ACL with 8.
  rewrite (index_loop_at l (x :: r)) by done || lia. cbn [length index_loop].
  destruct (acl_at_padd p a Hat l (x :: r) Hl) as (slack & ->). cbn [concat]. rewrite <- app_assoc.
  rewrite valid_ace_app by done. bsimpl. rewrite ace_size_app by done. bsimpl. cbn [negb].
  rewrite Z.eqb_refl. pose proof (aces_len_nonneg l). assert (4 <= zlen x) by (destruct Hx as (_ & ? & _); lia).
  destruct (u16_no_carry (8 + aces_len l) (zlen x)) as [-> ->]; [lia..|].
  destruct (Z.ltb_spec (acl_size a) (8 + aces_len l + zlen x)); [lia|].
  rewrite (u16_small (Z.of_nat (length l) + 1)) by lia.
  pose proof (index_loop_rest (l ++ [x]) r (Z.of_nat (length l)) (u16 (8 + aces_len l - 8))) as HR.
  rewrite <- app_assoc, length_app, Nat2Z.inj_add, aces_len_app, aces_len_cons, Z.add_0_r, Z.add_assoc in HR.
  cbn [length] in HR. change (Z.of_nat 1) with 1 in HR.
  change sizeof_ACL with 8. rewrite HR; [|done|lia]. bsimpl. cbn [is_ok negb].
  replace (8 + aces_len l - 8) with (aces_len l) by lia. rewrite u16_small by lia.
  destruct (Z.eqb_spec (Z.of_nat (length l)) 0xFFFFFFFF); [lia|]. cbn [negb]. rewrite andb_true_r, andb_false_r.
  destruct (Z.eqb_spec (aces_len l) 0) as [E|_].
  - assert (l = []) as ->; [|cbn; destruct (Z.ltb_spec (acl_size a) (acl_used a)); [lia|done]].
    destruct l as [|y l']; [done|]. rewrite aces_len_cons in E. destruct Hat as ((_ & _ & Hf) & _).
    rewrite Hl in Hf. apply Forall_cons_iff in Hf as [(_ & ? & _) _]. pose proof (aces_len_nonneg l'). lia.
  - destruct (Z.ltb_spec (acl_size a) (acl_used a)); [lia|done].
Qed.

Lemma location_index_end :
  RtlpGetAceLocationFromIndex p MAXULONG =
  Some (STATUS_SUCCESS, acl_used a, aces_len (acl_aces a), Some (acl_used a)).
Proof using Hat.
  pose proof (acl_at_used_range p a Hat) as Hu. unfold RtlpGetAceLocationFromIndex.
  destruct (acl_at_fields p a Hat) as (_ & _ & HS & HC & _). rewrite HC, HS. bsimpl.
  rewrite Z.eqb_refl, andb_false_r. rewrite (acl_at_valid_header p a Hat). bsimpl. cbn [negb].
  pose proof (acl_count_range a (proj1 Hat)) as Hc. change sizeof_ACL with 8.
  rewrite (index_loop_at (acl_aces a) []); [|by rewrite app_nil_r|unfold acl_count, MAXULONG in *; lia].
  cbn [length index_loop]. bsimpl. cbn [is_ok negb andb]. rewrite Z.eqb_refl, andb_false_r. cbn [andb].
  unfold acl_used in *. rewrite u16_small by lia. destruct (Z.ltb_spec (acl_size a) (8 + aces_len (acl_aces a))); [lia|].
  do 4 f_equal; lia.
Qed.

Lemma location_index_out i :
  acl_count a <= i -> i <> MAXULONG ->
  RtlpGetAceLocationFromIndex p i = Some (STATUS_INVALID_PARAMETER, 0, 0, None).
Proof using Hat.
  intros Hi Hm. unfold RtlpGetAceLocationFromIndex.
  destruct (acl_at_fields p a Hat) as (_ & _ & _ & -> & _). bsimpl.
  destruct (Z.leb_spec (acl_count a) i); [|lia]. destruct (Z.eqb_spec i MAXULONG); [lia|done].
Qed.
End At.

(** [RtlGetAce] returns, for an index below the number of ACEs, the address
    at which that ACE is stored, and [STATUS_INVALID_PARAMETER] and no address
    for every other index; the revision, the size and the number of ACEs the
    accessors return are those of the ACL. *)
Theorem RtlGetAce_correct p a i :
  acl_at p a -> 0 <= i < 2 ^ 32 ->
  RtlGetAclRevision p = Some (acl_revision a) /\ RtlGetAclSize p = Some (acl_size a) /\
  RtlGetAclAceCount p = Some (acl_count a) /\
  match acl_aces a !! Z.to_nat i with
  | Some x => exists loc, RtlGetAce p i = Some (STATUS_SUCCESS, Some loc) /\ rd p loc (zlen x) = Some x
  | None => RtlGetAce p i = Some (STATUS_INVALID_PARAMETER, None)
  end.
Proof.
  intros Hat Hi. destruct (acl_at_fields p a Hat) as (? & _ & ? & ? & _). do 3 (split; [done|]).
  pose proof (acl_count_range a (proj1 Hat)) as Hc. unfold RtlGetAce.
  destruct (acl_aces a !! Z.to_nat i) as [x|] eqn:E.
  - apply list_elem_of_split_length in E as (l & r & Hl & Hn). exists (8 + aces_len l).
    replace i with (Z.of_nat (length l)) by lia. unfold acl_count in Hc. rewrite Hl, length_app in Hc.
    destruct (Z.eqb_spec (Z.of_nat (length l)) MAXULONG) as [E|_]; [unfold MAXULONG in E; lia|].
    rewrite (location_index p a Hat l x r Hl). split; [done|].
    destruct (acl_at_layout p a Hat l (x :: r) Hl) as (slack & ->). cbn [concat].
    rewrite app_assoc, <- (app_assoc x). apply rd_at; [rewrite zlen_app, zlen_acl_header; done|done].
  - apply lookup_ge_None in E. destruct (Z.eqb_spec i MAXULONG); [done|].
    rewrite (location_index_out p a Hat i); [done|unfold acl_count; lia|done].
Qed.

(** [RtlDeleteAce] removes the ACE at an index from the list of ACEs, when
    the ACEs after it are together no longer than it (otherwise its [memcpy]
    overlaps, as for [RtlRemoveAce]); an index that names no ACE is refused and
    nothing changes. *)
Theorem RtlDeleteAce_correct p a i :
  acl_at p a -> 0 <= i < 2 ^ 32 ->
  match acl_aces a !! Z.to_nat i with
  | Some x =>
      let l' := delete (Z.to_nat i) (acl_aces a) in
      if aces_len (drop (S (Z.to_nat i)) (acl_aces a)) <=? zlen x then
        exists p', RtlDeleteAce p i = Some (STATUS_SUCCESS, p') /\ acl_at p' (acl_with a l') /\ zlen p' = zlen p
      else RtlDeleteAce p i = None
  | None => RtlDeleteAce p i = Some (STATUS_INVALID_PARAMETER, p)
  end.
Proof.
  intros Hat Hi. pose proof (acl_count_range a (proj1 Hat)) as Hc. unfold RtlDeleteAce.
  destruct (acl_aces a !! Z.to_nat i) as [x|] eqn:E.
  - apply list_elem_of_split_length in E as (l & r & Hl & Hn).
    rewrite Hl, Hn, delete_middle. change (l ++ x :: r) with (l ++ [x] ++ r). rewrite app_assoc.
    rewrite (drop_app_length' (l ++ [x]) r) by (rewrite length_app; simpl; lia).
    replace i with (Z.of_nat (length l)) by lia. unfold acl_count in Hc. rewrite Hl, length_app in Hc.
    destruct (Z.eqb_spec (Z.of_nat (length l)) MAXULONG) as [E|_]; [unfold MAXULONG in E; lia|].
    rewrite (location_index p a Hat l x r Hl). bsimpl. cbn [is_ok negb].
    pose proof (RtlpRemoveAceFromLocation_spec p a l x r Hat Hl) as Hrm. cbv zeta in *.
    destruct (aces_len r <=? zlen x); [|by rewrite Hrm].
    destruct Hrm as (p' & -> & ? & ?). bsimpl. eauto.
  - apply lookup_ge_None in E. destruct (Z.eqb_spec i MAXULONG); [done|].
    rewrite (location_index_out p a Hat i); [done|unfold acl_count; lia|done].
Qed.

(** * ACE lists *)

(** The first [n] bytes of [q] are the ACEs [xs]. *)
Definition ace_list (q : mem) (n : Z) (xs : list mem) : Prop :=
  Forall ace_wf xs /\ aces_len xs = n /\ exists rest, q = concat xs ++ rest.

Lemma ace_list_cons_inv q n xs :
  ace_list q n xs -> 0 < n ->
  exists x xs' rest, xs = x :: xs' /\ q = x ++ rest /\ ace_wf x /\ ace_list rest (n - zlen x) xs' /\ zlen x <= n.
Proof.
  intros (Hf & Hn & rest & ->) Hp. destruct xs as [|x xs]; [rewrite aces_len_nil in Hn; lia|].
  apply Forall_cons_iff in Hf as [Hx Hf]. rewrite aces_len_cons in Hn. pose proof (aces_len_nonneg xs).
  exists x, xs, (concat xs ++ rest). cbn [concat]. rewrite <- app_assoc.
  unfold ace_list. split_and!; try done; try lia. eauto.
Qed.

Lemma ace_list_cons x rest n xs :
  ace_wf x -> ace_list rest (n - zlen x) xs -> ace_list (x ++ rest) n (x :: xs).
Proof.
  intros Hx (Hf & Hn & rest' & ->). split_and!; [by constructor|rewrite aces_len_cons; lia|].
  exists rest'. cbn [concat]. by rewrite <- app_assoc.
Qed.

Lemma ace_list_inj q n xs ys : ace_list q n xs -> ace_list q n ys -> xs = ys.
Proof.
  revert q n ys. induction xs as [|x xs IH]; intros q n ys Hx Hy.
  - destruct ys as [|y ys]; [done|]. destruct Hx as (_ & <- & _), Hy as (Hf & Hl & _).
    rewrite aces_len_nil, aces_len_cons in Hl. apply Forall_cons_iff in Hf as [(_ & ? & _) _].
    pose proof (aces_len_nonneg ys). lia.
  - assert (Hn : 0 < n).
    { destruct Hx as (Hf & <- & _). rewrite aces_len_cons. apply Forall_cons_iff in Hf as [(_ & ? & _) _].
      pose proof (aces_len_nonneg xs). lia. }
    apply ace_list_cons_inv in Hx as (? & ? & rx & [= <- <-] & -> & Hx & Hxs & _); [|done].
    apply ace_list_cons_inv in Hy as (y & ys' & ry & -> & Ey & Hy & Hys & _); [|done].
    pose proof (ace_size_app x rx Hx) as E. rewrite Ey, ace_size_app in E by done. injection E as E.
    apply app_inj_1 in Ey as [-> ->]; [|unfold zlen in E; lia]. f_equal. by apply (IH ry (n - zlen y)).
Qed.

Lemma ace_list_head q n xs :
  ace_list q n xs -> 0 < n ->
  RtlpValidAce (Some q) = Some true /\ exists s, Ace_AceSize q = Some s /\ 4 <= s <= n.
Proof.
  intros Hxs Hn. apply ace_list_cons_inv in Hxs as (x & ? & rest & _ & -> & Hx & _ & Hle); [|done].
  split; [by apply valid_ace_app|]. exists (zlen x). rewrite ace_size_app by done.
  destruct Hx as (_ & ? & _). split; [done|lia].
Qed.

Lemma ace_list_tail x rest n xs :
  ace_wf x -> 0 < n -> ace_list (x ++ rest) n xs -> exists xs', ace_list rest (n - zlen x) xs'.
Proof.
  intros Hx Hn Hxs. apply ace_list_cons_inv in Hxs as (y & xs' & rest' & _ & Ey & Hy & Hl & _); [|done].
  pose proof (ace_size_app x rest Hx) as E1. rewrite Ey, (ace_size_app y rest' Hy) in E1. injection E1 as E1.
  apply app_inj_1 in Ey as [<- <-]; [eauto|unfold zlen in *; lia].
Qed.

Lemma valid_ace_total q : 4 <= zlen q -> exists s v, Ace_AceSize q = Some s /\ RtlpValidAce (Some q) = Some v.
Proof.
  intros Hq. destruct (ld16_ok q 2) as [s Es]; [lia..|]. destruct (ld8_ok q 1) as [f Ef]; [lia..|]. exists s.
  unfold RtlpValidAce, RtlpVerifyAceEx, RtlpValidAceHeader, Ace_AceSize, Ace_AceFlags. rewrite Es, Ef. bsimpl.
  destruct (sizeof_ACE_HEADER <=? s), (LW_IS_VALID_FLAGS f VALID_ACE_FLAGS_MASK); bsimpl; cbn; eauto.
Qed.

Lemma padd_padd p a b : 0 <= a -> 0 <= b -> padd (padd p a) b = padd p (a + b).
Proof. intros. unfold padd. rewrite drop_drop. f_equal. lia. Qed.

Lemma ace_list_loop_decide fuel p len off count :
  bytes_ok p -> len <= zlen p -> len < 65536 -> 0 <= off <= len -> len - off <= Z.of_nat fuel ->
  0 <= count -> count + (len - off) < 65536 ->
  (exists xs, ace_list (padd p off) (len - off) xs /\
     ace_list_loop fuel p len off count = Some (STATUS_SUCCESS, count + Z.of_nat (length xs))) \/
  (~ (exists xs, ace_list (padd p off) (len - off) xs) /\
     ace_list_loop fuel p len off count = Some (STATUS_INVALID_PARAMETER, 0)).
Proof.
  intros Hb Hl Hlen. revert off count. induction fuel as [|fuel IH]; intros off count Hoff Hfuel Hc0 Hc;
    cbn [ace_list_loop]; unfold sizeof_ACE_HEADER; destruct (Z.ltb_spec off len); try lia.
  1,3: destruct (Z.eqb_spec off len); [|lia]; left; exists []; rewrite Z.add_0_r; split; [|done];
    (split_and!; [by apply Forall_nil|rewrite aces_len_nil; lia|eauto]).
  set (q := padd p off). assert (Hq : zlen q = zlen p - off) by (unfold q, padd, zlen in *; rewrite length_drop; lia).
  assert (Hbq : bytes_ok q) by by apply Forall_drop.
  destruct (Z.ltb_spec len (4 + off)).
  { right. split; [|done]. intros (xs & Hxs). apply ace_list_head in Hxs as (_ & s & _ & ?); lia. }
  destruct (valid_ace_total q) as (n & v & En & Ev); [lia|]. rewrite En. bsimpl.
  destruct (Z.ltb_spec len (off + n)).
  { right. split; [|done]. intros (xs & Hxs). apply ace_list_head in Hxs as (_ & s & Es & ?); [|lia].
    rewrite En in Es. injection Es as <-. lia. }
  rewrite Ev. bsimpl. destruct v; cbn [negb].
  2:{ right. split; [|done]. intros (xs & Hxs). apply ace_list_head in Hxs as (Ev' & _); [|lia]. congruence. }
  destruct (valid_ace_inv q n Hbq Ev En) as (x & rest & Eq & Hx & Hxl); [lia|].
  assert (4 <= n) by (destruct Hx as (_ & ? & _); lia). rewrite u16_small by lia.
  assert (Hpadd : padd p (off + n) = rest).
  { rewrite <- padd_padd by lia. fold q. rewrite Eq. by apply padd_app. }
  specialize (IH (off + n) (count + 1)). rewrite Hpadd in IH. replace (len - (off + n)) with (len - off - zlen x) in IH by lia.
  destruct IH as [(xs & Hxs & ->)|(Hxs & ->)]; [lia..| |]; rewrite Eq.
  - left. exists (x :: xs). split; [by apply ace_list_cons|]. simpl length. do 2 f_equal. lia.
  - right. split; [|done]. intros (xs & H'). apply ace_list_tail in H' as (? & ?); [by eauto|done|lia].
Qed.

Lemma RtlpValidAceList_decide q n :
  bytes_ok q -> 0 < n <= 65527 -> n <= zlen q ->
  (exists xs, ace_list q n xs /\ RtlpValidAceList q n = Some (STATUS_SUCCESS, Z.of_nat (length xs))) \/
  (~ (exists xs, ace_list q n xs) /\ RtlpValidAceList q n = Some (STATUS_INVALID_PARAMETER, 0)).
Proof.
  intros Hb Hn Hq. unfold RtlpValidAceList. change (0xFFFF - sizeof_ACL) with 65527.
  destruct (Z.eqb_spec n 0); [lia|]. destruct (Z.ltb_spec 65527 n); [lia|]. cbn [orb].
  pose proof (ace_list_loop_decide (Z.to_nat n) q n 0 0) as HD. rewrite Z.sub_0_r in HD.
  change (padd q 0) with q in HD. apply HD; done || lia.
Qed.

(** the loop of [RtlpValidAceList] terminates, and on a readable list it
    succeeds exactly when the bytes are one or more well-formed ACEs end to
    end, of at most what an ACL can hold, and then counts them. *)
Theorem RtlpValidAceList_correct q n :
  bytes_ok q -> 0 <= n <= zlen q ->
  exists st c, RtlpValidAceList q n = Some (st, c) /\
    (st = STATUS_SUCCESS <-> 0 < n <= 65527 /\ exists xs, ace_list q n xs) /\
    (forall xs, 0 < n <= 65527 -> ace_list q n xs -> c = Z.of_nat (length xs)).
Proof.
  intros Hb Hn. destruct (decide (0 < n <= 65527)) as [Hr|Hr].
  - destruct (RtlpValidAceList_decide q n) as [(xs & Hxs & ->)|(Hxs & ->)]; [done|done|lia| |].
    + do 2 eexists. split; [done|]. split; [split; eauto|]. intros ys _ Hys.
      by rewrite (ace_list_inj q n xs ys).
    + do 2 eexists. split; [done|]. split; [split; [done|intros (_ & ?); done]|]. intros ys _ ?. exfalso; eauto.
  - unfold RtlpValidAceList. change (0xFFFF - sizeof_ACL) with 65527.
    replace ((n =? 0) || (65527 <? n)) with true; [|symmetry; repeat bool_case; try lia; done].
    do 2 eexists. split; [done|]. split; [split; [done|intros (? & _); done]|]. intros; lia.
Qed.

(** The index that names the position between [l] and [r]. *)
Definition index_between (l r : list mem) : Z :=
  match r with
  | [] => MAXULONG
  | _ :: _ => Z.of_nat (length l)
  end.

Lemma location_index_between p a l r :
  acl_at p a -> acl_aces a = l ++ r ->
  RtlpGetAceLocationFromIndex p (index_between l r) =
  Some (STATUS_SUCCESS, acl_used a, aces_len l, Some (8 + aces_len l)).
Proof.
  intros Hat Hl. destruct r as [|x r]; [|by apply (location_index p a Hat l x r)].
  cbn [index_between]. rewrite (location_index_end p a Hat). unfold acl_used. by rewrite Hl, app_nil_r.
Qed.

(** [RtlAddAce] with a list of well-formed ACEs and the index of a position
    inserts the ACEs there, in order, when they fit the ACL; when they do not,
    it says so and changes nothing. *)
Theorem RtlAddAce_correct p a l r q n xs rev :
  acl_at p a -> acl_aces a = l ++ r -> bytes_ok q -> n <= zlen q -> ace_list q n xs -> xs <> [] ->
  RtlpValidAclRevision rev = true -> rev <= acl_revision a ->
  let call := RtlAddAce (Some p) rev (index_between l r) (Some q) n in
  if acl_used a + n <=? acl_size a then
    exists p', call = Some (STATUS_SUCCESS, Some p') /\ acl_at p' (acl_with a (l ++ xs ++ r)) /\ zlen p' = zlen p
  else exists st, call = Some (st, Some p) /\ (st = STATUS_BUFFER_TOO_SMALL \/ st = STATUS_INTEGER_OVERFLOW).
Proof.
  intros Hat Hl Hb Hnq Hxs Hne Hr1 Hr2 call. subst call.
  pose proof Hxs as (Hf & Hn & rest & Eq). pose proof (acl_at_used_range p a Hat).
  assert (Hpos : 4 <= n).
  { destruct xs as [|x xs']; [done|]. rewrite aces_len_cons in Hn. apply Forall_cons_iff in Hf as [(_ & ? & _) _].
    pose proof (aces_len_nonneg xs'). lia. }
  unfold RtlAddAce. destruct (Z.eqb_spec n 0); [lia|]. rewrite (acl_at_valid_header p a Hat). bsimpl. cbn [negb].
  destruct (acl_at_fields p a Hat) as (HR & _ & HS & _ & _). rewrite HR, HS, Hr1. bsimpl. cbn [negb orb].
  destruct (Z.ltb_spec (acl_revision a) rev); [lia|]. change sizeof_ACL with 8.
  destruct (Z.ltb_spec (acl_size a - 8) n).
  { destruct (Z.leb_spec (acl_used a + n) (acl_size a)); [lia|]. eauto. }
  destruct (RtlpValidAceList_decide q n) as [(ys & Hys & ->)|(Hno & _)]; [done|lia|lia| |exfalso; eauto].
  rewrite (ace_list_inj q n ys xs Hys Hxs). bsimpl. cbn [is_ok negb].
  rewrite (location_index_between p a l r Hat Hl). bsimpl. cbn [is_ok negb]. rewrite u16_small by lia.
  destruct (Z.leb_spec (acl_used a + n) (acl_size a)).
  - destruct (make_room p a Hat l r Hl n) as (junk & slack & -> & Hj & Hz); [lia..|]. bsimpl. cbn [is_ok negb].
    destruct (fill_room_list p a Hat l r Hl junk xs slack) as (Hw & Hc & p' & Hp' & Ha' & Hz'); [done|lia|lia|done|].
    rewrite Eq, rd_at_0 by (unfold aces_len in Hn; lia). bsimpl. rewrite Hw. bsimpl. rewrite Hc. bsimpl.
    rewrite Hp'. bsimpl. eauto.
  - destruct (make_room_fails p a Hat l n) as (st & -> & ->); [lia..|]. bsimpl.
    destruct (0xFFFF <? _); cbn; eauto.
Qed.
End Ops.

(** * Concrete inputs *)

#[local] Existing Instance demo_host.

Lemma RtlGetAce_correct_witness :
  (exists loc, RtlGetAce (acl_image acl_demo 64) 1 = Some (STATUS_SUCCESS, Some loc) /\
     rd (acl_image acl_demo 64) loc 32 = Some allow_domain) /\
  RtlGetAce (acl_image acl_demo 64) 2 = Some (STATUS_INVALID_PARAMETER, None).
Proof.
  split.
  - apply (RtlGetAce_correct (acl_image acl_demo 64) acl_demo 1); [apply acl_demo_at|lia].
  - apply (RtlGetAce_correct (acl_image acl_demo 64) acl_demo 2); [apply acl_demo_at|lia].
Defined.

Lemma RtlDeleteAce_correct_witness :
  exists p', RtlDeleteAce (acl_image acl_demo 64) 1 = Some (STATUS_SUCCESS, p') /\
    acl_at p' (mk_acl 2 120 [deny_system]).
Proof.
  destruct (RtlDeleteAce_correct (acl_image acl_demo 64) acl_demo 1) as (p' & H1 & H2 & _);
    [apply acl_demo_at|lia|]. exists p'. split; [exact H1|exact H2].
Defined.

Lemma demo_ace_list :
  bytes_ok (concat [deny_system; deny_system]) /\
  ace_list (concat [deny_system; deny_system]) 40 [deny_system; deny_system].
Proof.
  destruct demo_aces_wf as [_ Hd]. split.
  - cbn [concat]. rewrite !bytes_ok_app. split_and!; [apply Hd|apply Hd|constructor].
  - split_and!; [|done|exists []; by rewrite app_nil_r]. constructor; [done|]. constructor; [done|constructor].
Qed.

Lemma RtlpValidAceList_correct_witness :
  exists c, RtlpValidAceList (concat [deny_system; deny_system]) 40 = Some (STATUS_SUCCESS, c) /\ c = 2.
Proof.
  destruct demo_ace_list as [Hb Hl].
  destruct (RtlpValidAceList_correct (concat [deny_system; deny_system]) 40)
    as (st & c & Hv & Hst & Hc); [done|vm_compute; split; discriminate|].
  assert (st = STATUS_SUCCESS) as -> by (apply Hst; split; [lia|eauto]).
  exists c. split; [done|]. apply (Hc [deny_system; deny_system]); [lia|done].
Defined.

Lemma RtlAddAce_correct_witness :
  exists p', RtlAddAce (Some (acl_image acl_demo 64)) 2 1 (Some (concat [deny_system; deny_system])) 40
      = Some (STATUS_SUCCESS, Some p') /\
    acl_at p' (mk_acl 2 120 [deny_system; deny_system; deny_system; allow_domain]).
Proof.
  destruct demo_ace_list as [Hb Hl].
  destruct (RtlAddAce_correct (acl_image acl_demo 64) acl_demo [deny_system] [allow_domain]
              (concat [deny_system; deny_system]) 40 [deny_system; deny_system] 2) as (p' & H1 & H2 & _);
    [apply acl_demo_at|done|done|vm_compute; discriminate|done|done|done|vm_compute; discriminate|].
  exists p'. split; [exact H1|exact H2].
Defined.
