(* ===== verification/AclCanonical.v ===== *)
(** [RtlAddAccessAllowedAceEx], [RtlAddAccessDeniedAceEx] and
    [RtlAddSystemAuditAceEx]: where they put the new ACE, and that an ACL in
    canonical order (denied before allowed, each by the rank of its inheritance
    flags) stays in canonical order. *)

From S2P Require Import Prelude SecurityTypes Sid Acl AclRepr AclOps AclEdit AclIndex AclIndexOps.
From Stdlib Require Import Sorted.

(** * The order *)

(** The rank of an ACE in the order [RtlpCompareAceFlagsForInsert] documents. *)
Definition flags_rank (f : Z) : Z :=
  match IsSetFlag f INHERITED_ACE, IsSetFlag f INHERIT_ONLY_ACE with
  | false, true => 1
  | false, false => 2
  | true, true => 3
  | true, false => 4
  end.

Lemma compare_flags_sgn f g : RtlpCompareAceFlagsForInsert f g = Z.sgn (flags_rank f - flags_rank g).
Proof.
  unfold RtlpCompareAceFlagsForInsert, flags_rank.
  destruct (IsSetFlag f INHERITED_ACE), (IsSetFlag f INHERIT_ONLY_ACE),
    (IsSetFlag g INHERITED_ACE), (IsSetFlag g INHERIT_ONLY_ACE); reflexivity.
Qed.

(** [RtlpCompareAceFlagsForInsert] is the three-way comparison of the
    documented ranks: non-inherited inherit-only, non-inherited, inherited
    inherit-only, inherited; in particular it is antisymmetric and transitive. *)
Lemma RtlpCompareAceFlagsForInsert_correct f g h :
  RtlpCompareAceFlagsForInsert f g = Z.sgn (flags_rank f - flags_rank g) /\
  RtlpCompareAceFlagsForInsert g f = - RtlpCompareAceFlagsForInsert f g /\
  (RtlpCompareAceFlagsForInsert f g <= 0 -> RtlpCompareAceFlagsForInsert g h <= 0 ->
   RtlpCompareAceFlagsForInsert f h <= 0).
Proof. rewrite !compare_flags_sgn. lia. Qed.

Definition ace_type (x : mem) : Z := default (-1) (Ace_AceType x).
Definition ace_flags (x : mem) : Z := default 0 (Ace_AceFlags x).

Definition is_access_ace (x : mem) : Prop :=
  ace_type x = ACCESS_ALLOWED_ACE_TYPE \/ ace_type x = ACCESS_DENIED_ACE_TYPE.

Definition ace_key (x : mem) : Z :=
  flags_rank (ace_flags x) + (if ace_type x =? ACCESS_ALLOWED_ACE_TYPE then 4 else 0).

Definition ace_le (x y : mem) : Prop := ace_key x <= ace_key y.

(** A canonical discretionary ACL. *)
Definition canonical (l : list mem) : Prop := Forall is_access_ace l /\ StronglySorted ace_le l.

(** Insertion before the first element that [stop] holds of. *)
Fixpoint insert_before (stop : mem -> bool) (x : mem) (l : list mem) : list mem :=
  match l with
  | [] => [x]
  | y :: l' => if stop y then x :: l else y :: insert_before stop x l'
  end.

Lemma insert_before_Forall (P : mem -> Prop) stop x l :
  P x -> Forall P l -> Forall P (insert_before stop x l).
Proof. intros Hx. induction 1 as [|y l Hy Hl IH]; cbn; [by constructor|]. destruct (stop y); by repeat constructor. Qed.

Lemma insert_before_sorted stop x l :
  (forall y, y ∈ l -> stop y = true <-> ace_le x y) ->
  StronglySorted ace_le l -> StronglySorted ace_le (insert_before stop x l).
Proof.
  intros Hs. induction 1 as [|y l Hl IH Hy]; cbn; [by repeat constructor|].
  destruct (stop y) eqn:E.
  - assert (ace_le x y) by (apply Hs; [by left|done]). constructor; [by constructor|].
    constructor; [done|]. eapply Forall_impl; [exact Hy|]. unfold ace_le in *. intros; lia.
  - constructor; [apply IH; intros; apply Hs; by right|]. apply insert_before_Forall; [|done].
    assert (~ ace_le x y) by (intros ?%Hs; [congruence|by left]). unfold ace_le in *. lia.
Qed.

Lemma insert_before_split stop x l :
  exists l1 l2, l = l1 ++ l2 /\ insert_before stop x l = l1 ++ x :: l2 /\
    Forall (fun y => stop y = false) l1 /\ (l2 = [] \/ exists y l2', l2 = y :: l2' /\ stop y = true).
Proof.
  induction l as [|y l (l1 & l2 & -> & IH & Hf & H2)]; cbn; [by exists [], []; auto|].
  destruct (stop y) eqn:E; [exists [], (y :: l1 ++ l2); eauto 10|].
  exists (y :: l1), l2. rewrite IH. split_and!; try done. by constructor.
Qed.

Definition stop_ace (deny : bool) (f : Z) (y : mem) : bool :=
  (if deny then stop_denied f else stop_allowed f) (ace_type y) (ace_flags y).

Section Canonical.
Context `{Host}.

Lemma ace_type_access t f mask s : 0 <= t < 256 -> ace_type (access_ace t f mask s) = t.
Proof. intros. unfold ace_type, Ace_AceType, access_ace. cbn [app]. rewrite ld8_first. done. Qed.

Lemma ace_flags_access t f mask s : ace_flags (access_ace t f mask s) = f.
Proof. unfold ace_flags, Ace_AceFlags, access_ace. cbn [app]. rewrite ld8_second. done. Qed.

Lemma flags_rank_range f : 1 <= flags_rank f <= 4.
Proof. unfold flags_rank. repeat case_match; lia. Qed.

(** The [break] conditions of the two loops compare the keys. *)
Lemma stop_ace_key deny f mask s y :
  is_access_ace y ->
  stop_ace deny f y = true <-> ace_le (access_ace (access_type deny) f mask s) y.
Proof.
  intros Hy. unfold ace_le, ace_key. rewrite ace_type_access by (destruct deny; done). rewrite ace_flags_access.
  pose proof (flags_rank_range f). pose proof (flags_rank_range (ace_flags y)).
  unfold stop_ace. destruct deny; unfold stop_allowed, stop_denied; rewrite compare_flags_sgn;
    destruct Hy as [-> | ->]; cbn [access_type];
    unfold ACCESS_DENIED_ACE_TYPE, ACCESS_ALLOWED_ACE_TYPE; cbn [Z.eqb Pos.eqb andb orb]; rewrite ?Z.leb_le; lia.
Qed.

Lemma canonical_insert deny f mask s l :
  canonical l -> canonical (insert_before (stop_ace deny f) (access_ace (access_type deny) f mask s) l).
Proof.
  intros (Hf & Hs). split.
  - apply insert_before_Forall; [|done]. unfold is_access_ace. rewrite ace_type_access by (by destruct deny).
    destruct deny; auto.
  - apply insert_before_sorted; [|done]. intros y Hy. apply stop_ace_key.
    rewrite Forall_forall in Hf. by apply Hf.
Qed.

(** * The scan *)

Lemma sum_ace_sizes_spec l pre rest :
  Forall ace_wf l -> zlen pre + aces_len l < 65536 ->
  sum_ace_sizes (length l) (pre ++ concat l ++ rest) (zlen pre) = Some (zlen pre + aces_len l).
Proof.
  intros Hl. revert pre. induction Hl as [|x l Hx Hl IH]; intros pre Hs.
  { cbn. rewrite aces_len_nil, Z.add_0_r. done. }
  rewrite aces_len_cons in *. pose proof (aces_len_nonneg l). pose proof (zlen_nonneg pre).
  pose proof (zlen_nonneg x). cbn [length sum_ace_sizes concat]. rewrite padd_app by done. rewrite <- app_assoc.
  rewrite ace_size_app by done. bsimpl. rewrite u16_small by lia.
  specialize (IH (pre ++ x)). rewrite zlen_app, <- app_assoc in IH. rewrite IH by lia. f_equal. lia.
Qed.

Section At.
Context (p : mem) (a : acl) (Hat : acl_at p a).

(** [RtlGetAclSizeUsed] is the size in use. *)
Lemma RtlGetAclSizeUsed_spec : RtlGetAclSizeUsed p = Some (acl_used a).
Proof using Hat.
  unfold RtlGetAclSizeUsed. destruct (acl_at_fields p a Hat) as (_ & _ & _ & -> & _). bsimpl.
  pose proof (acl_at_used_range p a Hat). destruct Hat as ((_ & _ & Hf) & _ & slack & ->).
  unfold acl_count, acl_used in *. rewrite Nat2Z.id. change sizeof_ACL with 8.
  rewrite <- (zlen_acl_header (acl_revision a) (acl_size a) (Z.of_nat (length (acl_aces a)))).
  rewrite sum_ace_sizes_spec; [done|done|]. rewrite zlen_acl_header. lia.
Qed.

Lemma read_ace l x r :
  acl_aces a = l ++ x :: r ->
  Ace_AceType (padd p (8 + aces_len l)) = Some (ace_type x) /\
  Ace_AceFlags (padd p (8 + aces_len l)) = Some (ace_flags x).
Proof using Hat.
  intros Hl. destruct (location_of p a Hat l x r Hl) as (_ & (_ & Hx & _) & _).
  destruct (acl_at_padd p a Hat l (x :: r) Hl) as (slack & ->). cbn [concat]. rewrite <- app_assoc.
  unfold Ace_AceType, Ace_AceFlags, ace_type, ace_flags. rewrite !ld8_app_l by lia.
  destruct (ld8_ok x 0) as [? E]; [lia..|]. destruct (ld8_ok x 1) as [? E']; [lia..|].
  unfold Ace_AceType, Ace_AceFlags. rewrite E, E'. done.
Qed.

Lemma scan_aces_spec stop l2 l r :
  acl_aces a = l ++ l2 ++ r -> Forall (fun y => stop (ace_type y) (ace_flags y) = false) l2 ->
  scan_aces stop (length (l2 ++ r)) p (acl_used a) (next_offset l (l2 ++ r)) =
  scan_aces stop (length r) p (acl_used a) (next_offset (l ++ l2) r).
Proof using Hat.
  revert l. induction l2 as [|x l2 IH]; intros l Hl Hs; [by rewrite app_nil_r|].
  apply Forall_cons_iff in Hs as [Hx Hs]. cbn [length app scan_aces next_offset].
  rewrite (iterate_step p a Hat l x (l2 ++ r)) by done. bsimpl. cbn [is_ok negb].
  destruct (read_ace l x (l2 ++ r)) as [-> ->]; [done|]. bsimpl. rewrite Hx.
  change (l ++ x :: l2) with (l ++ [x] ++ l2). rewrite app_assoc. apply IH; [|done].
  rewrite Hl, <- app_assoc. done.
Qed.
End At.

(** The location the loop and the code after it settle on. *)
Lemma scan_aces_location p a stop l1 l2 :
  acl_at p a -> acl_aces a = l1 ++ l2 ->
  Forall (fun y => stop (ace_type y) (ace_flags y) = false) l1 ->
  l2 = [] \/ (exists y l2', l2 = y :: l2' /\ stop (ace_type y) (ace_flags y) = true) ->
  scan_aces stop (Z.to_nat (acl_count a)) p (acl_used a) 0 =
  Some (STATUS_SUCCESS, match l2 with [] => None | _ :: _ => Some (8 + aces_len l1) end).
Proof.
  intros Hat Hl Hf H2. unfold acl_count. rewrite Nat2Z.id. destruct (acl_aces a) as [|z zs] eqn:Ez.
  { destruct l1; [|done]. simpl in Hl. subst. done. }
  change 0 with (next_offset [] (z :: zs)). rewrite Hl, (scan_aces_spec p a Hat stop l1 [] l2) by (cbn [app]; done || congruence).
  destruct H2 as [-> | (y & l2' & -> & Hs)]; [done|]. cbn [length scan_aces next_offset app].
  rewrite (iterate_step p a Hat l1 y l2') by congruence. bsimpl. cbn [is_ok negb].
  destruct (read_ace p a Hat l1 y l2') as [-> ->]; [congruence|]. bsimpl. by rewrite Hs.
Qed.

Lemma check_add_ace_spec p a rev q s :
  acl_at p a -> sid_at host q s ->
  check_add_ace (Some p) rev (Some q) =
  Some (if RtlpValidAclRevision rev && (rev <=? acl_revision a) && sid_valid s then STATUS_SUCCESS
        else STATUS_INVALID_PARAMETER).
Proof.
  intros Hat Hq. unfold check_add_ace. rewrite (acl_at_valid_header p a Hat). bsimpl. cbn [negb].
  destruct (acl_at_fields p a Hat) as (-> & _). bsimpl. rewrite (sid_at_valid host q s Hq). bsimpl.
  destruct (RtlpValidAclRevision rev); [|done]. cbn [negb orb andb]. rewrite Z.ltb_antisym.
  destruct (rev <=? acl_revision a); [|done]. cbn [negb andb]. done.
Qed.

Definition add_access_of (deny : bool) (Acl : ptr) (AceRevision AceFlags AccessMask : Z) (Sid : ptr) :=
  if deny then RtlAddAccessDeniedAceEx Acl AceRevision AceFlags AccessMask Sid
  else RtlAddAccessAllowedAceEx Acl AceRevision AceFlags AccessMask Sid.

(** Once the parameters pass, the two functions insert at the split of the list
    that their [break] condition makes. *)
Section Add.
Context (p : mem) (a : acl) (Hat : acl_at p a) (q : mem) (s : sid) (Hq : sid_at host q s).
Context (l1 l2 : list mem) (Hl : acl_aces a = l1 ++ l2) (rev : Z).
Context (Hok : RtlpValidAclRevision rev && (rev <=? acl_revision a) && sid_valid s = true).

Lemma add_access_ace_ex_eq stop init f mask :
  Forall (fun y => stop (ace_type y) (ace_flags y) = false) l1 ->
  l2 = [] \/ (exists y l2', l2 = y :: l2' /\ stop (ace_type y) (ace_flags y) = true) ->
  add_access_ace_ex stop init (Some p) rev f mask (Some q) =
  ('(status, acl, _) ← insert_new_ace init p (acl_used a) (8 + aces_len l1) f mask (Some q);
   Some (status, Some acl)).
Proof using Hat Hq Hl Hok.
  intros Hf H2. unfold add_access_ace_ex. rewrite (check_add_ace_spec p a rev q s Hat Hq), Hok.
  bsimpl. cbn [is_ok negb]. destruct (acl_at_fields p a Hat) as (_ & _ & _ & -> & _). bsimpl.
  rewrite (RtlGetAclSizeUsed_spec p a Hat). pose proof (location_index_end p a Hat) as Hend.
  pose proof (scan_aces_location p a stop l1 l2 Hat Hl Hf H2) as Hscan. unfold acl_used in Hend at 2.
  rewrite Hl in Hend. destruct (Z.ltb_spec 0 (acl_count a)) as [Hp|Hz]; bsimpl.
  - rewrite Hscan. bsimpl. cbn [is_ok negb]. destruct l2 as [|y l2']; [|done].
    rewrite app_nil_r in Hend. rewrite Hend. done.
  - assert (acl_count a = 0) as Hc by (unfold acl_count in *; lia). unfold acl_count in *.
    rewrite Hl, length_app in Hc. destruct l1, l2; try (simpl in Hc; lia). rewrite Hl. cbn. cbn in Hend.
    rewrite Hend. done.
Qed.

Lemma add_access_of_eq deny f mask :
  Forall (fun y => stop_ace deny f y = false) l1 ->
  l2 = [] \/ (exists y l2', l2 = y :: l2' /\ stop_ace deny f y = true) ->
  add_access_of deny (Some p) rev f mask (Some q) =
  ('(status, acl, _) ← insert_new_ace (initialize_ace (access_type deny) deny) p (acl_used a)
                         (8 + aces_len l1) f mask (Some q);
   Some (status, Some acl)).
Proof using Hat Hq Hl Hok. intros Hf H2. destruct deny; by apply add_access_ace_ex_eq. Qed.
End Add.

(** The success case. *)
Lemma add_access_ok deny p a rev f mask q s :
  acl_at p a -> sid_at host q s -> 0 <= f < 65536 ->
  RtlpValidAclRevision rev && (rev <=? acl_revision a) && sid_valid s = true ->
  acl_used a + 16 + 4 * sid_count s <= acl_size a -> init_params_ok deny f mask s = true ->
  exists p', add_access_of deny (Some p) rev f mask (Some q) = Some (STATUS_SUCCESS, Some p') /\ zlen p' = zlen p /\
    acl_at p' (acl_with a (insert_before (stop_ace deny f) (access_ace (access_type deny) f mask s) (acl_aces a))).
Proof.
  intros Hat Hq Hf Hok Hfit Hp.
  destruct (insert_before_split (stop_ace deny f) (access_ace (access_type deny) f mask s) (acl_aces a))
    as (l1 & l2 & Hl & -> & Hs1 & Hs2).
  rewrite (add_access_of_eq p a Hat q s Hq l1 l2 Hl rev Hok deny f mask Hs1 Hs2).
  assert (Hu : u16 f = f) by by apply u16_small. rewrite <- Hu in Hp.
  destruct (insert_new_ace_ok p a l1 l2 (access_type deny) deny f mask q s) as (p' & -> & Ha & Hz);
    try done; try lia; [by destruct deny|]. bsimpl. exists p'. by rewrite Hu in Ha.
Qed.

(** Only the flags that the ACE keeps count for its place. *)
Lemma flags_rank_u16 f : flags_rank (u16 f) = flags_rank f.
Proof.
  unfold flags_rank. change INHERITED_ACE with (2 ^ 4). change INHERIT_ONLY_ACE with (2 ^ 3). rewrite !IsSetFlag_bit by lia.
  unfold u16. by rewrite !Z.mod_pow2_bits_low by lia.
Qed.

Lemma stop_ace_u16 deny f y : stop_ace deny (u16 f) y = stop_ace deny f y.
Proof. unfold stop_ace. destruct deny; unfold stop_denied, stop_allowed; by rewrite !compare_flags_sgn, flags_rank_u16. Qed.

Lemma insert_before_ext stop stop' x l : (forall y, stop y = stop' y) -> insert_before stop x l = insert_before stop' x l.
Proof. intros E. induction l as [|y l IH]; [done|]. cbn. by rewrite E, IH. Qed.


(** [RtlAddSystemAuditAceEx] appends the audit ACE to the ACL, under the
    same conditions. *)
Theorem RtlAddSystemAuditAceEx_correct p a rev f mask q s :
  acl_at p a -> sid_at host q s -> 0 <= f < 65536 ->
  let call := RtlAddSystemAuditAceEx (Some p) rev f mask (Some q) in
  if negb (RtlpValidAclRevision rev && (rev <=? acl_revision a) && sid_valid s)
  then call = Some (STATUS_INVALID_PARAMETER, Some p)
  else if acl_size a <? acl_used a + 16 + 4 * sid_count s then
    exists st, call = Some (st, Some p) /\ (st = STATUS_BUFFER_TOO_SMALL \/ st = STATUS_INTEGER_OVERFLOW)
  else init_params_ok true f mask s = true ->
    exists p', call = Some (STATUS_SUCCESS, Some p') /\ zlen p' = zlen p /\
      acl_at p' (acl_with a (acl_aces a ++ [access_ace SYSTEM_AUDIT_ACE_TYPE f mask s])).
Proof.
  intros Hat Hq Hf call. subst call. unfold RtlAddSystemAuditAceEx.
  rewrite (check_add_ace_spec p a rev q s Hat Hq). destruct (_ && _ && _); [|done]. bsimpl. cbn [is_ok negb].
  rewrite (location_index_end p a Hat). bsimpl. cbn [is_ok negb].
  destruct (Z.ltb_spec (acl_size a) (acl_used a + 16 + 4 * sid_count s)).
  - pose proof (insert_new_ace_no_room p a (acl_aces a) RtlInitializeSystemAuditAce f mask q s Hat Hq) as Hn.
    change (8 + aces_len (acl_aces a)) with (acl_used a) in Hn. rewrite Hn by done. bsimpl.
    destruct (0xFFFF <? _); eauto.
  - intros Hp. assert (Hu : u16 f = f) by by apply u16_small. rewrite <- Hu in Hp.
    destruct (insert_new_ace_ok p a (acl_aces a) [] SYSTEM_AUDIT_ACE_TYPE true f mask q s) as (p' & Hi & Ha & Hz);
      try done; try lia; [by rewrite app_nil_r|]. change (8 + aces_len (acl_aces a)) with (acl_used a) in Hi.
    unfold RtlInitializeSystemAuditAce. rewrite Hi. bsimpl. exists p'. rewrite Hu in Ha. done.
Qed.
End Canonical.

(** * Concrete inputs *)

#[local] Existing Instance demo_host.


Lemma RtlAddSystemAuditAceEx_correct_witness :
  exists p', RtlAddSystemAuditAceEx (Some (acl_image acl_demo 64)) 2 0x40 6
      (Some (sid_bytes LittleEndian sid_admins)) = Some (STATUS_SUCCESS, Some p') /\
    acl_at p' (mk_acl 2 120 [deny_system; allow_domain; access_ace SYSTEM_AUDIT_ACE_TYPE 0x40 6 sid_admins]).
Proof.
  destruct (RtlAddSystemAuditAceEx_correct (acl_image acl_demo 64) acl_demo 2 0x40 6
              (sid_bytes LittleEndian sid_admins) sid_admins) as (p' & H1 & _ & H2);
    [apply acl_demo_at|apply (known_sid_wf LittleEndian); set_solver|lia|done|].
  exists p'. split; [exact H1|exact H2].
Defined.
