(* ===== verification/AclCodec.v ===== *)
(** The little-endian form of ACLs in [lwbase/src/security-acl.c]: the validity
    test of a received buffer, the encoder and the decoder. *)

From S2P Require Import Prelude SecurityTypes Sid Acl AclRepr AclOps AclEdit.

Section Operations.
Context `{Host}.

Definition is_standard_ace (t : Z) : bool :=
  (t =? ACCESS_ALLOWED_ACE_TYPE) || (t =? ACCESS_DENIED_ACE_TYPE) || (t =? SYSTEM_AUDIT_ACE_TYPE).

Definition is_object_ace (t : Z) : bool :=
  (t =? ACCESS_ALLOWED_OBJECT_ACE_TYPE) || (t =? ACCESS_DENIED_OBJECT_ACE_TYPE)
  || (t =? SYSTEM_AUDIT_OBJECT_ACE_TYPE).

(** * Validation of a little-endian buffer *)

(** The local [aclHeader], in host order. *)
Definition load_acl_header (b : mem) : option mem :=
  r ← Acl_AclRevision b; z1 ← Acl_Sbz1 b; s ← Acl_AclSize b; c ← Acl_AceCount b; z2 ← Acl_Sbz2 b;
  Some ([LW_LTOH8 r; LW_LTOH8 z1] ++ encode host 2 (LW_LTOH16 s) ++ encode host 2 (LW_LTOH16 c)
        ++ encode host 2 (LW_LTOH16 z2)).

(** The local [aceHeader], in host order. *)
Definition load_ace_header (b : mem) : option mem :=
  t ← Ace_AceType b; f ← Ace_AceFlags b; s ← Ace_AceSize b;
  Some ([LW_LTOH8 t; LW_LTOH8 f] ++ encode host 2 (LW_LTOH16 s)).

(** The body of the [switch]: the local [ACCESS_ALLOWED_ACE] (12 bytes) or
    [ACCESS_ALLOWED_OBJECT_ACE] (48 bytes) is filled from the buffer and verified. *)
Definition verify_le_ace (b aceHeader : mem) : option NTSTATUS :=
  t ← Ace_AceType aceHeader;
  if is_standard_ace t then
    mask ← Ace_Mask b;
    sidStart ← rd b 8 4;
    RtlpVerifyAceEx (Some (aceHeader ++ encode host 4 (LW_LTOH32 mask) ++ sidStart)) true
  else if is_object_ace t then
    mask ← Ace_Mask b;
    flags ← ld32 b 8;
    sidStart ← rd b 44 4;
    objectType ← rd b 12 16;
    inheritedObjectType ← rd b 28 16;
    RtlpVerifyAceEx (Some (aceHeader ++ encode host 4 (LW_LTOH32 mask) ++ encode host 4 (LW_LTOH32 flags)
                           ++ objectType ++ inheritedObjectType ++ sidStart)) true
  else Some STATUS_INVALID_ACL.

Fixpoint le_acl_loop (n : nat) (b : mem) (AclSize offset : Z) : option NTSTATUS :=
  match n with
  | O => Some STATUS_SUCCESS
  | S n' =>
      aceHeader ← load_ace_header (padd b offset);
      v ← RtlpValidAceHeader (Some aceHeader);
      if negb v then Some STATUS_INVALID_ACL
      else
        s ← Ace_AceSize aceHeader;
        if negb (RtlpIsBufferAvailable AclSize offset s) then Some STATUS_INVALID_ACL
        else
          status ← verify_le_ace (padd b offset) aceHeader;
          if negb (is_ok status) then Some status
          else le_acl_loop n' b AclSize (u32 (offset + s))
  end.

(** The boolean and the value stored through [BufferUsed]. *)
Definition RtlpIsValidLittleEndianAclBuffer (Buffer : mem) (BufferSize : Z) : option (bool * Z) :=
  if BufferSize <? sizeof_ACL then Some (false, 0)
  else
    aclHeader ← load_acl_header Buffer;
    v ← RtlpValidAclHeader (Some aclHeader);
    if negb v then Some (false, 0)
    else
      size ← Acl_AclSize aclHeader;
      if negb (RtlpIsBufferAvailable BufferSize 0 size) then Some (false, 0)
      else
        count ← Acl_AceCount aclHeader;
        status ← le_acl_loop (Z.to_nat count) Buffer size sizeof_ACL;
        Some (NT_SUCCESS status, if NT_SUCCESS status then size else 0).

(** * Encoding *)

Fixpoint encode_acl_loop (n : nat) (Acl b : mem) (offset : Z) : option (NTSTATUS * mem * Z) :=
  match n with
  | O => Some (STATUS_SUCCESS, b, offset)
  | S n' =>
      let ace := padd Acl offset in
      t ← Ace_AceType ace;
      b ← st8 b offset (LW_HTOL8 t);
      f ← Ace_AceFlags ace;
      b ← st8 b (offset + 1) (LW_HTOL8 f);
      s ← Ace_AceSize ace;
      b ← st16 b (offset + 2) (LW_HTOL16 s);
      if is_standard_ace t then
        mask ← Ace_Mask ace;
        b ← st32 b (offset + 4) (LW_HTOL32 mask);
        '(status, b, _) ←
          RtlpEncodeLittleEndianSid (padd ace 8) b (offset + 8) (u32 (s - sizeof_ACE_HEADER));
        if negb (NT_SUCCESS status) then Some (STATUS_ASSERTION_FAILURE, b, offset)
        else encode_acl_loop n' Acl b (u32 (offset + s))
      else Some (STATUS_INVALID_ACL, b, offset)
  end.

(** The status, the buffer and the value stored through [BufferUsed]. *)
Definition RtlpEncodeLittleEndianAcl (Acl : ptr) (Buffer : mem) (BufferSize : Z)
    : option (NTSTATUS * mem * Z) :=
  '(v, size) ← RtlValidAcl Acl;
  if negb v then Some (STATUS_INVALID_ACL, Buffer, 0)
  else if BufferSize <? size then Some (STATUS_BUFFER_TOO_SMALL, Buffer, 0)
  else
    a ← Acl;
    r ← Acl_AclRevision a;
    b ← st8 Buffer 0 (LW_HTOL8 r);
    z1 ← Acl_Sbz1 a;
    b ← st8 b 1 (LW_HTOL8 z1);
    b ← st16 b 2 (LW_HTOL16 size);
    c ← Acl_AceCount a;
    b ← st16 b 4 (LW_HTOL16 c);
    z2 ← Acl_Sbz2 a;
    b ← st16 b 6 (LW_HTOL16 z2);
    '(status, b, offset) ← encode_acl_loop (Z.to_nat c) a b sizeof_ACL;
    if negb (is_ok status) then Some (status, b, 0)
    else if negb (offset =? size) then Some (STATUS_ASSERTION_FAILURE, b, 0)
    else Some (STATUS_SUCCESS, b, size).

(** * Decoding *)

(** The three byte swaps and the copy of a GUID at [off] of the source ACE to
    [loc] of the destination. *)
Definition decode_guid (from : mem) (off : Z) (to : mem) (loc : Z) : option mem :=
  d1 ← ld32 from off;
  m ← st32 to loc (LW_SWAB32 d1);
  d2 ← ld16 from (off + 4);
  m ← st16 m (loc + 4) (LW_SWAB16 d2);
  d3 ← ld16 from (off + 6);
  m ← st16 m (loc + 6) (LW_SWAB16 d3);
  d4 ← rd from (off + 8) 8;
  wr m (loc + 8) d4.

Definition decode_object_ace (le m : mem) (offset : Z) : option mem :=
  mask ← Ace_Mask le;
  m ← st32 m (offset + 4) (LW_LTOH32 mask);
  flags ← ld32 le 8;
  let flags := LW_LTOH32 flags in
  m ← st32 m (offset + 8) flags;
  if flags =? 0 then RtlpDecodeLittleEndianSid (padd le 12) m (offset + 12)
  else if (flags =? ACE_OBJECT_TYPE_PRESENT) || (flags =? ACE_INHERITED_OBJECT_TYPE_PRESENT) then
    m ← decode_guid le 12 m (offset + 12);
    RtlpDecodeLittleEndianSid (padd le 28) m (offset + 28)
  else
    m ← decode_guid le 12 m (offset + 12);
    m ← decode_guid le 28 m (offset + 28);
    RtlpDecodeLittleEndianSid (padd le 44) m (offset + 44).

Fixpoint decode_acl_loop (n : nat) (LittleEndianAcl m : mem) (offset : Z) : option (NTSTATUS * mem) :=
  match n with
  | O => Some (STATUS_SUCCESS, m)
  | S n' =>
      let le := padd LittleEndianAcl offset in
      t ← Ace_AceType le;
      m ← st8 m offset (LW_LTOH8 t);
      f ← Ace_AceFlags le;
      m ← st8 m (offset + 1) (LW_LTOH8 f);
      s ← Ace_AceSize le;
      let s := LW_LTOH16 s in
      m ← st16 m (offset + 2) s;
      if is_standard_ace t then
        mask ← Ace_Mask le;
        m ← st32 m (offset + 4) (LW_LTOH32 mask);
        m ← RtlpDecodeLittleEndianSid (padd le 8) m (offset + 8);
        decode_acl_loop n' LittleEndianAcl m (u32 (offset + s))
      else if is_object_ace t then
        m ← decode_object_ace le m offset;
        decode_acl_loop n' LittleEndianAcl m (u32 (offset + s))
      else Some (STATUS_INVALID_ACL, m)
  end.

Definition RtlpDecodeLittleEndianAcl (LittleEndianAcl Acl : mem) : option (NTSTATUS * mem) :=
  r ← Acl_AclRevision LittleEndianAcl;
  m ← st8 Acl 0 (LW_LTOH8 r);
  z1 ← Acl_Sbz1 LittleEndianAcl;
  m ← st8 m 1 (LW_LTOH8 z1);
  s ← Acl_AclSize LittleEndianAcl;
  m ← st16 m 2 (LW_LTOH16 s);
  c ← Acl_AceCount LittleEndianAcl;
  m ← st16 m 4 (LW_LTOH16 c);
  z2 ← Acl_Sbz2 LittleEndianAcl;
  m ← st16 m 6 (LW_LTOH16 z2);
  decode_acl_loop (Z.to_nat (LW_LTOH16 c)) LittleEndianAcl m sizeof_ACL.
End Operations.
