(* ===== verification/AclCodecOps.v ===== *)
(** Correctness of the little-endian ACL codec of [AclCodec] on ACLs of
    standard ACEs: encoding gives the little-endian image whatever the host,
    the validity test accepts that image, and decoding it gives the same ACL in
    the byte order of the decoding host. *)

From S2P Require Import Prelude SecurityTypes Sid Acl AclRepr AclOps AclEdit AclCodec.

(** * Standard ACEs *)

Record std_ace := mk_std_ace {
  sa_type : Z;
  sa_flags : Z;
  sa_mask : Z;
  sa_sid : sid
}.

Definition std_bytes (e : endian) (x : std_ace) : mem :=
  @access_ace e (sa_type x) (sa_flags x) (sa_mask x) (sa_sid x).

Definition std_len (x : std_ace) : Z := 16 + 4 * sid_count (sa_sid x).

Definition std_wf (x : std_ace) : Prop :=
  is_standard_ace (sa_type x) = true /\ LW_IS_VALID_FLAGS (sa_flags x) VALID_ACE_FLAGS_MASK = true /\
  0 <= sa_mask x < 2 ^ 32 /\ sid_wf (sa_sid x).

(** What the validity test of a received buffer asks in addition. *)
Definition std_valid (x : std_ace) : Prop :=
  std_wf x /\ sid_valid (sa_sid x) = true /\
  LW_IS_VALID_FLAGS (sa_mask x)
    (if sa_type x =? SYSTEM_AUDIT_ACE_TYPE then VALID_SACL_ACCESS_MASK else VALID_DACL_ACCESS_MASK) = true.

Definition std_concat (e : endian) (xs : list std_ace) : mem := concat (map (std_bytes e) xs).

(** The image in byte order [e] of an ACL of standard ACEs. *)
Definition std_acl_image (e : endian) (rev size : Z) (xs : list std_ace) : mem :=
  @acl_header e rev size (Z.of_nat (length xs)) ++ std_concat e xs.

Fixpoint std_lens (xs : list std_ace) : Z :=
  match xs with
  | [] => 0
  | x :: xs' => std_len x + std_lens xs'
  end.

(** * Lemmas *)

Lemma std_wf_facts x :
  std_wf x -> 0 <= sa_type x < 256 /\ 0 <= sa_flags x < 256 /\ 16 <= std_len x < 65536 /\
    (forall e, zlen (std_bytes e x) = std_len x).
Proof.
  intros (Ht & Hf & Hm & Hs). pose proof (valid_ace_flags_range _ Hf). pose proof (sid_count_nonneg (sa_sid x)).
  pose proof Hs as (_ & _ & _ & Hc & _). unfold std_len. split_and!; try lia.
  1,2: unfold is_standard_ace in Ht; rewrite !orb_true_iff, !Z.eqb_eq in Ht; revert Ht;
       unfold ACCESS_ALLOWED_ACE_TYPE, ACCESS_DENIED_ACE_TYPE, SYSTEM_AUDIT_ACE_TYPE; lia.
  intros e. by apply zlen_access_ace.
Qed.

Lemma zlen_std_concat e xs : Forall std_wf xs -> zlen (std_concat e xs) = std_lens xs.
Proof.
  induction 1 as [|x xs Hx _ IH]; [done|]. destruct (std_wf_facts x Hx) as (_ & _ & _ & Hl).
  unfold std_concat in *. cbn [map concat std_lens]. rewrite zlen_app, IH, Hl. done.
Qed.

Lemma std_lens_nonneg xs : Forall std_wf xs -> 0 <= std_lens xs.
Proof. intros H. rewrite <- (zlen_std_concat LittleEndian xs H). apply zlen_nonneg. Qed.

Lemma std_ace_wf `{Host} x : std_wf x -> ace_wf (std_bytes host x).
Proof.
  intros Hx. destruct (std_wf_facts x Hx) as (? & _). destruct Hx as (_ & ? & _ & ?).
  by apply access_ace_wf.
Qed.

Section Codec.
Context `{Host}.

(** Reading the fields of an image in byte order [e]. *)
Lemma std_fields e x rest :
  std_wf x ->
  let p := std_bytes e x ++ rest in
  Ace_AceType p = Some (sa_type x) /\ Ace_AceFlags p = Some (sa_flags x) /\
  Ace_AceSize p = Some (decode host (encode e 2 (std_len x))) /\
  Ace_Mask p = Some (decode host (encode e 4 (sa_mask x))) /\
  sid_at e (padd p 8) (sa_sid x).
Proof.
  intros Hx p. subst p. unfold std_bytes, access_ace. split_and!.
  - apply ld8_first.
  - apply ld8_second.
  - unfold Ace_AceSize, ld16. rewrite <- !app_assoc, rd_at by zl. done.
  - unfold Ace_Mask, ld32. rewrite <- !app_assoc, app_assoc, rd_at by zl. done.
  - split; [apply Hx|]. exists rest. rewrite <- !app_assoc, app_assoc, app_assoc. apply padd_app. zl.
Qed.

Lemma LTOH16_le v : 0 <= v < 65536 -> LW_LTOH16 (decode host (encode LittleEndian 2 v)) = v.
Proof.
  intros Hv. rewrite LTOH16_decode by (auto with lw; apply zlen_encode).
  change (encode LittleEndian 2 v) with (le_encode 2 v). by rewrite (le_decode_encode 2).
Qed.

Lemma LTOH32_le v : 0 <= v < 2 ^ 32 -> LW_LTOH32 (decode host (encode LittleEndian 4 v)) = v.
Proof.
  intros Hv. rewrite LTOH32_decode by (auto with lw; apply zlen_encode).
  change (encode LittleEndian 4 v) with (le_encode 4 v). by rewrite (le_decode_encode 4).
Qed.

(** The four stores of the fields of an ACE. *)
Lemma store_ace_fields pre old post t f s mask :
  0 <= t < 256 -> 0 <= f < 256 -> 8 <= zlen old ->
  exists m1 m2 m3 osid, let loc := zlen pre in
    st8 (pre ++ old ++ post) loc t = Some m1 /\ st8 m1 (loc + 1) f = Some m2 /\
    st16 m2 (loc + 2) s = Some m3 /\
    st32 m3 (loc + 4) mask =
      Some ((pre ++ [t; f] ++ encode host 2 s ++ encode host 4 mask) ++ osid ++ post) /\
    zlen osid = zlen old - 8 /\ zlen (pre ++ [t; f] ++ encode host 2 s ++ encode host 4 mask) = loc + 8.
Proof.
  intros Ht Hf Hl. destruct old as [|j0 [|j1 old]]; [zl..|]. rewrite !zlen_cons in *.
  destruct (zlen_split old 2) as (j2 & old2 & -> & H2'); [lia|]. rewrite zlen_app in Hl.
  destruct (zlen_split old2 4) as (j4 & osid & -> & H4'); [lia|]. rewrite !zlen_app in *.
  eexists _, _, _, osid. cbv zeta. cbn [app]. rewrite <- !app_assoc.
  rewrite (st_revision pre j0) by done. split; [reflexivity|].
  rewrite (st_count pre t j1) by done. split; [reflexivity|]. unfold st16, st32.
  change (t :: f :: ?r) with ([t; f] ++ r). rewrite (app_assoc pre), wr_at by zl. split; [reflexivity|].
  rewrite (app_assoc (pre ++ _)), wr_at by zl. rewrite <- !app_assoc. split_and!; [done|lia|zl].
Qed.

(** One ACE written out: header stores followed by the SID. *)
Lemma std_bytes_split e x :
  std_bytes e x = ([sa_type x; sa_flags x] ++ encode e 2 (std_len x) ++ encode e 4 (sa_mask x)) ++ sid_bytes e (sa_sid x).
Proof. unfold std_bytes, access_ace, std_len. by rewrite <- !app_assoc. Qed.

Lemma u32_small x : 0 <= x < 2 ^ 32 -> u32 x = x.
Proof. intros. unfold u32. by apply Z.mod_small. Qed.

Lemma encode_acl_loop_spec xs spre srest bpre old post :
  Forall std_wf xs -> zlen spre = zlen bpre -> zlen old = std_lens xs -> zlen bpre + std_lens xs < 65536 ->
  encode_acl_loop (length xs) (spre ++ std_concat host xs ++ srest) (bpre ++ old ++ post) (zlen bpre) =
  Some (STATUS_SUCCESS, bpre ++ std_concat LittleEndian xs ++ post, zlen bpre + std_lens xs).
Proof.
  intros Hxs. revert spre bpre old. induction Hxs as [|x xs Hx Hxs IH]; intros spre bpre old Hpre Hold Hb.
  { apply zlen_0_inv in Hold as ->. cbn. rewrite Z.add_0_r. done. }
  cbn [std_lens] in *. pose proof (std_lens_nonneg xs Hxs). destruct (std_wf_facts x Hx) as (Ht & Hf & Hl & Hz).
  pose proof (zlen_nonneg bpre). unfold std_concat. cbn [length encode_acl_loop map concat].
  rewrite <- !app_assoc, padd_app by done. fold (std_concat host xs) (std_concat LittleEndian xs).
  destruct (std_fields host x (std_concat host xs ++ srest) Hx) as (-> & -> & Hsz & Hmask & Hsid). cbv zeta in *.
  rewrite Hsz, Hmask, !decode_encode; [|change (256 ^ Z.of_nat 2) with 65536; lia|apply Hx]. bsimpl.
  destruct (zlen_split old (std_len x)) as (o & old' & -> & Ho); [lia|]. rewrite zlen_app in Hold.
  rewrite <- app_assoc. unfold LW_HTOL8.
  destruct (store_ace_fields bpre o (old' ++ post) (sa_type x) (sa_flags x) (LW_HTOL16 (std_len x))
              (LW_HTOL32 (sa_mask x))) as (m1 & m2 & m3 & osid & -> & E2 & E3 & E4 & Hos & Hloc); [lia..|].
  bsimpl. rewrite E2. bsimpl. rewrite E3. bsimpl. destruct Hx as (-> & _ & _ & Hs). rewrite E4. bsimpl.
  unfold std_len, sizeof_ACE_HEADER in *. pose proof (sid_count_nonneg (sa_sid x)).
  rewrite (u32_small (16 + 4 * _ - 4)), <- Hloc by lia.
  rewrite (RtlpEncodeLittleEndianSid_spec _ (sa_sid x)) by (done || lia). bsimpl. cbn [NT_SUCCESS negb].
  rewrite u32_small by lia. rewrite encode_HTOL16, encode_HTOL32.
  replace (NT_SUCCESS STATUS_SUCCESS) with true by done. cbn [negb].
  change (le_encode 2 (16 + 4 * sid_count (sa_sid x))) with (encode LittleEndian 2 (std_len x)).
  change (le_encode 4) with (encode LittleEndian 4). rewrite (app_assoc _ (sid_bytes LittleEndian _)).
  rewrite <- (app_assoc bpre), <- std_bytes_split, <- app_assoc.
  specialize (IH (spre ++ std_bytes host x) (bpre ++ std_bytes LittleEndian x) old').
  rewrite !zlen_app, !Hz, <- !app_assoc in IH. unfold std_len in IH. rewrite IH by lia. do 2 f_equal. lia.
Qed.

Lemma decode_acl_loop_spec xs spre srest bpre old post :
  Forall std_wf xs -> zlen spre = zlen bpre -> zlen old = std_lens xs -> zlen bpre + std_lens xs < 65536 ->
  decode_acl_loop (length xs) (spre ++ std_concat LittleEndian xs ++ srest) (bpre ++ old ++ post) (zlen bpre) =
  Some (STATUS_SUCCESS, bpre ++ std_concat host xs ++ post).
Proof.
  intros Hxs. revert spre bpre old. induction Hxs as [|x xs Hx Hxs IH]; intros spre bpre old Hpre Hold Hb.
  { apply zlen_0_inv in Hold as ->. done. }
  cbn [std_lens] in *. pose proof (std_lens_nonneg xs Hxs). destruct (std_wf_facts x Hx) as (Ht & Hf & Hl & Hz).
  pose proof (zlen_nonneg bpre). unfold std_concat. cbn [length decode_acl_loop map concat].
  rewrite <- !app_assoc, padd_app by done. fold (std_concat host xs) (std_concat LittleEndian xs).
  destruct (std_fields LittleEndian x (std_concat LittleEndian xs ++ srest) Hx) as (-> & -> & Hsz & Hmask & Hsid).
  cbv zeta in *. rewrite Hsz, Hmask. bsimpl. rewrite LTOH16_le, LTOH32_le; [|apply Hx|lia].
  destruct (zlen_split old (std_len x)) as (o & old' & -> & Ho); [lia|]. rewrite zlen_app in Hold.
  rewrite <- app_assoc. unfold LW_LTOH8.
  destruct (store_ace_fields bpre o (old' ++ post) (sa_type x) (sa_flags x) (std_len x) (sa_mask x))
    as (m1 & m2 & m3 & osid & -> & E2 & E3 & E4 & Hos & Hloc); [lia..|].
  bsimpl. rewrite E2. bsimpl. rewrite E3. bsimpl. destruct Hx as (-> & _ & _ & Hs). rewrite E4. bsimpl.
  pose proof (sid_count_nonneg (sa_sid x)). rewrite <- Hloc. pose proof (eq_refl : std_len x = 16 + 4 * sid_count (sa_sid x)).
  rewrite (RtlpDecodeLittleEndianSid_spec _ (sa_sid x)) by (done || lia). bsimpl.
  rewrite u32_small by lia. rewrite (app_assoc _ (sid_bytes host _)).
  rewrite <- (app_assoc bpre), <- std_bytes_split, <- app_assoc.
  specialize (IH (spre ++ std_bytes LittleEndian x) (bpre ++ std_bytes host x) old').
  rewrite !zlen_app, !Hz, <- !app_assoc in IH. rewrite IH by lia. done.
Qed.

(** The five stores of the ACL header. *)
Lemma store_acl_header old post r s c z2 :
  0 <= r < 256 -> zlen old = 8 ->
  exists m1 m2 m3 m4,
    st8 (old ++ post) 0 r = Some m1 /\ st8 m1 1 0 = Some m2 /\ st16 m2 2 s = Some m3 /\
    st16 m3 4 c = Some m4 /\
    st16 m4 6 z2 = Some ([r; 0] ++ encode host 2 s ++ encode host 2 c ++ encode host 2 z2 ++ post).
Proof.
  intros Hr Hl. destruct old as [|j0 [|j1 old]]; [zl..|]. rewrite !zlen_cons in *.
  destruct (zlen_split old 2) as (j2 & old2 & -> & H2'); [lia|]. rewrite zlen_app in Hl.
  destruct (zlen_split old2 2) as (j4 & j6 & -> & H4'); [lia|]. rewrite !zlen_app in *.
  eexists _, _, _, _. cbn [app]. rewrite <- !app_assoc.
  rewrite (st_revision_0 j0) by done. split; [reflexivity|].
  rewrite (st_count_0 r j1) by done. split; [reflexivity|]. unfold st16.
  change (r :: 0 :: ?t) with ([r; 0] ++ t). rewrite wr_at by zl. split; [reflexivity|].
  rewrite app_assoc, wr_at by zl. split; [reflexivity|].
  rewrite app_assoc, wr_at by zl. rewrite <- !app_assoc. done.
Qed.

(** An ACL of standard ACEs, in memory in host order. *)
Definition std_acl (rev size : Z) (xs : list std_ace) : acl := mk_acl rev size (map (std_bytes host) xs).

Lemma aces_len_std xs : Forall std_wf xs -> aces_len (map (std_bytes host) xs) = std_lens xs.
Proof. intros. unfold aces_len. fold (std_concat host xs). by apply zlen_std_concat. Qed.

Lemma std_acl_wf rev size xs :
  Forall std_wf xs -> RtlpValidAclRevision rev = true -> 8 + std_lens xs <= size < 65536 ->
  acl_wf (std_acl rev size xs).
Proof.
  intros Hxs Hr Hs. unfold acl_wf, std_acl, acl_used. cbn [acl_aces acl_revision acl_size].
  rewrite aces_len_std by done. split_and!; try done; try lia. apply Forall_map.
  eapply Forall_impl; [exact Hxs|]. intros x Hx. by apply std_ace_wf.
Qed.

Lemma revision_range rev : RtlpValidAclRevision rev = true -> 0 <= rev < 256.
Proof.
  unfold RtlpValidAclRevision, ACL_REVISION, ACL_REVISION_DS. rewrite orb_true_iff, !Z.eqb_eq. lia.
Qed.

Lemma RtlpEncodeLittleEndianAcl_ok p rev size xs old post bs :
  acl_at p (std_acl rev size xs) -> Forall std_wf xs -> zlen old = 8 + std_lens xs -> 8 + std_lens xs <= bs ->
  RtlpEncodeLittleEndianAcl (Some p) (old ++ post) bs =
  Some (STATUS_SUCCESS, std_acl_image LittleEndian rev (8 + std_lens xs) xs ++ post, 8 + std_lens xs).
Proof.
  intros Hat Hxs Hold Hbs. unfold RtlpEncodeLittleEndianAcl. rewrite (RtlValidAcl_complete p _ Hat). bsimpl.
  pose proof (std_lens_nonneg xs Hxs). pose proof (acl_at_used_range _ _ Hat) as [Hu Hsz].
  unfold acl_used, std_acl in *. cbn [acl_aces acl_size] in *. rewrite aces_len_std in * by done. cbn [negb].
  destruct (Z.ltb_spec bs (8 + std_lens xs)); [lia|].
  destruct (acl_at_fields p _ Hat) as (-> & -> & _ & -> & ->). destruct Hat as ((Hr & _) & _ & slack & ->).
  unfold acl_count in *. cbn [acl_revision acl_aces acl_size] in *. rewrite length_map in *. bsimpl. unfold LW_HTOL8.
  apply revision_range in Hr. destruct (zlen_split old 8) as (h & old' & -> & Hh); [lia|]. rewrite zlen_app in Hold.
  rewrite <- app_assoc. fold (std_concat host xs).
  destruct (store_acl_header h (old' ++ post) rev (LW_HTOL16 (8 + std_lens xs)) (LW_HTOL16 (Z.of_nat (length xs)))
              (LW_HTOL16 0)) as (m1 & m2 & m3 & m4 & -> & E2 & E3 & E4 & E5); [done..|].
  bsimpl. rewrite E2. bsimpl. rewrite E3. bsimpl. rewrite E4. bsimpl. rewrite E5. bsimpl.
  rewrite !encode_HTOL16, Nat2Z.id. set (h' := @acl_header LittleEndian rev (8 + std_lens xs) (Z.of_nat (length xs))).
  pose proof (@zlen_acl_header LittleEndian rev (8 + std_lens xs) (Z.of_nat (length xs))) as Hh'. fold h' in Hh'.
  replace ([rev; 0] ++ le_encode 2 (8 + std_lens xs) ++ le_encode 2 (Z.of_nat (length xs)) ++ le_encode 2 0 ++ old' ++ post)
    with (h' ++ old' ++ post) by (unfold h', acl_header; rewrite <- !app_assoc; done).
  change sizeof_ACL with 8. rewrite <- Hh'. rewrite encode_acl_loop_spec; [|done|by rewrite zlen_acl_header|lia|lia].
  bsimpl. cbn [is_ok negb]. rewrite Z.eqb_refl. unfold std_acl_image. fold h'. by rewrite <- app_assoc.
Qed.

(** Reading the header of the little-endian image. *)
Lemma le_header_fields rev size n rest :
  let p := @acl_header LittleEndian rev size n ++ rest in
  Acl_AclRevision p = Some rev /\ Acl_Sbz1 p = Some 0 /\
  Acl_AclSize p = Some (decode host (encode LittleEndian 2 size)) /\
  Acl_AceCount p = Some (decode host (encode LittleEndian 2 n)) /\
  Acl_Sbz2 p = Some (decode host (encode LittleEndian 2 0)).
Proof.
  intros p. subst p. unfold acl_header, host at 1. split_and!.
  - apply ld8_first.
  - apply ld8_second.
  - unfold Acl_AclSize, ld16. rewrite <- !app_assoc, rd_at by zl. done.
  - unfold Acl_AceCount, ld16. rewrite <- !app_assoc, app_assoc, rd_at by zl. done.
  - unfold Acl_Sbz2, ld16. rewrite <- !app_assoc, app_assoc, app_assoc, rd_at by zl. done.
Qed.

Lemma std_lens_count xs : Forall std_wf xs -> 16 * Z.of_nat (length xs) <= std_lens xs.
Proof.
  induction 1 as [|x xs Hx _ IH]; [done|]. destruct (std_wf_facts x Hx) as (_ & _ & ? & _).
  cbn [std_lens length]. lia.
Qed.

Lemma RtlpDecodeLittleEndianAcl_ok rev size xs srest old post :
  Forall std_wf xs -> RtlpValidAclRevision rev = true -> 8 + std_lens xs <= size < 65536 ->
  zlen old = 8 + std_lens xs ->
  RtlpDecodeLittleEndianAcl (std_acl_image LittleEndian rev size xs ++ srest) (old ++ post) =
  Some (STATUS_SUCCESS, std_acl_image host rev size xs ++ post).
Proof.
  intros Hxs Hr Hsz Hold. unfold RtlpDecodeLittleEndianAcl, std_acl_image. rewrite <- app_assoc.
  pose proof (std_lens_nonneg xs Hxs). apply revision_range in Hr. pose proof (std_lens_count xs Hxs) as Hn.
  destruct (le_header_fields rev size (Z.of_nat (length xs)) (std_concat LittleEndian xs ++ srest))
    as (-> & -> & -> & -> & ->). bsimpl. rewrite !LTOH16_le by lia. unfold LW_LTOH8.
  destruct (zlen_split old 8) as (h & old' & -> & Hh); [lia|]. rewrite zlen_app in Hold. rewrite <- app_assoc.
  destruct (store_acl_header h (old' ++ post) rev size (Z.of_nat (length xs)) 0)
    as (m1 & m2 & m3 & m4 & -> & E2 & E3 & E4 & E5); [done..|].
  bsimpl. rewrite E2. bsimpl. rewrite E3. bsimpl. rewrite E4. bsimpl. rewrite E5. bsimpl. rewrite Nat2Z.id.
  pose proof (zlen_acl_header rev size (Z.of_nat (length xs))) as Hh'.
  set (h' := acl_header rev _ _) in Hh'. pose proof (@zlen_acl_header LittleEndian rev size (Z.of_nat (length xs))).
  replace ([rev; 0] ++ _) with (h' ++ old' ++ post)
    by (unfold h', acl_header; rewrite <- !app_assoc; repeat f_equal; destruct host; done).
  change sizeof_ACL with 8. rewrite <- Hh'.
  rewrite decode_acl_loop_spec; [|done|lia|lia|lia]. fold h'. by rewrite <- app_assoc.
Qed.

(** The decoded image is an ACL in memory. *)
Lemma std_acl_image_at rev size xs post :
  Forall std_wf xs -> RtlpValidAclRevision rev = true -> 8 + std_lens xs <= size < 65536 ->
  size <= 8 + std_lens xs + zlen post ->
  acl_at (std_acl_image host rev size xs ++ post) (std_acl rev size xs).
Proof.
  intros Hxs Hr Hs Hz. split; [by apply std_acl_wf|]. split.
  - unfold std_acl_image, std_acl. cbn [acl_size]. rewrite !zlen_app, zlen_acl_header, zlen_std_concat by done. lia.
  - exists post. unfold std_acl_image, std_acl, acl_count. cbn [acl_aces acl_size acl_revision].
    rewrite length_map, <- app_assoc. done.
Qed.

Definition std_mask (t : Z) : Z :=
  if t =? SYSTEM_AUDIT_ACE_TYPE then VALID_SACL_ACCESS_MASK else VALID_DACL_ACCESS_MASK.

(** What [RtlpVerifyAceEx] asks of a standard ACE, by the fields it reads. *)
Lemma verify_std img t f len mask r c :
  Ace_AceType img = Some t -> Ace_AceFlags img = Some f -> Ace_AceSize img = Some len ->
  Ace_Mask img = Some mask -> Sid_Revision (padd img 8) = Some r -> Sid_SubAuthorityCount (padd img 8) = Some c ->
  is_standard_ace t = true -> 0 <= c < 256 ->
  RtlpVerifyAceEx (Some img) true = Some STATUS_SUCCESS <->
  4 <= len /\ LW_IS_VALID_FLAGS f VALID_ACE_FLAGS_MASK = true /\ LW_IS_VALID_FLAGS mask (std_mask t) = true /\
  len = 16 + 4 * c /\ r = SID_REVISION /\ c <= SID_MAX_SUB_AUTHORITIES.
Proof.
  intros Ht Hf Hl Hm Hr Hc Hst Hc0. unfold RtlpVerifyAceEx, RtlpValidAceHeader, sizeof_ACE_HEADER.
  rewrite Hl. bsimpl. rewrite Hf. bsimpl. rewrite Ht. bsimpl. unfold is_standard_ace in Hst.
  destruct (Z.leb_spec 4 len); [|split; [done|intros (? & _); lia]]. bsimpl.
  destruct (LW_IS_VALID_FLAGS f _); cbn [negb]; [|split; [done|intros (_ & ? & _); done]].
  rewrite Hst, Hm, Hl. bsimpl.
  assert (Hmask : (if (t =? ACCESS_ALLOWED_ACE_TYPE) || (t =? ACCESS_DENIED_ACE_TYPE) then VALID_DACL_ACCESS_MASK
     else if t =? SYSTEM_AUDIT_ACE_TYPE then VALID_SACL_ACCESS_MASK
     else if (t =? ACCESS_ALLOWED_OBJECT_ACE_TYPE) || (t =? ACCESS_DENIED_OBJECT_ACE_TYPE) then VALID_DACL_ACCESS_MASK
     else if t =? SYSTEM_AUDIT_OBJECT_ACE_TYPE then VALID_SACL_ACCESS_MASK else 0) = std_mask t).
  { unfold std_mask. rewrite !orb_true_iff, !Z.eqb_eq in Hst. destruct Hst as [[-> | ->] | ->]; done. }
  rewrite Hmask. destruct (LW_IS_VALID_FLAGS mask _); cbn [negb]; [|split; [done|intros (_ & _ & ? & _); done]].
  unfold RtlpValidAccessAllowedAce, RtlLengthAccessAllowedAce, RtlLengthSid, RtlpGetSidAccessAllowedAce.
  unfold Sid_SubAuthorityCount in *. rewrite Hc. bsimpl. rewrite RtlLengthRequiredSid_small, u16_small by lia.
  unfold RtlValidSid. rewrite Hr. unfold Sid_SubAuthorityCount. rewrite Hc. bsimpl.
  destruct (Z.eqb_spec (8 + (8 + 4 * c)) len); cbn [negb]; [|split; [done|intros (_ & _ & _ & ? & _); lia]].
  destruct (Z.eqb_spec r SID_REVISION); cbn; [|split; [done|intros (_ & _ & _ & _ & ? & _); done]].
  destruct (Z.leb_spec c SID_MAX_SUB_AUTHORITIES); [|split; [done|intros (_ & _ & _ & _ & _ & ?); lia]].
  split; [intros _|done]. split_and!; try done; lia.
Qed.

(** The local ACE of the validity test, read back. *)
Lemma local_std_fields t f len mask r c a0 a1 :
  0 <= len < 65536 -> 0 <= mask < 2 ^ 32 ->
  let img := ([t; f] ++ encode host 2 len) ++ encode host 4 mask ++ [r; c; a0; a1] in
  Ace_AceType img = Some t /\ Ace_AceFlags img = Some f /\ Ace_AceSize img = Some len /\
  Ace_Mask img = Some mask /\ Sid_Revision (padd img 8) = Some r /\ Sid_SubAuthorityCount (padd img 8) = Some c.
Proof.
  intros Hl Hm img. subst img. assert (Hpadd : padd (([t; f] ++ encode host 2 len) ++ encode host 4 mask ++ [r; c; a0; a1]) 8
    = [r; c; a0; a1]) by (rewrite app_assoc; apply padd_app; zl).
  split_and!; rewrite ?Hpadd; try apply ld8_first; try apply ld8_second.
  - unfold Ace_AceSize, ld16. rewrite <- app_assoc, rd_at by zl. bsimpl. by rewrite (decode_encode host 2).
  - unfold Ace_Mask, ld32. rewrite rd_at by zl. bsimpl. by rewrite (decode_encode host 4).
Qed.

(** The validity test accepts a valid standard ACE. *)
Lemma verify_le_ace_ok x rest :
  std_valid x ->
  verify_le_ace (std_bytes LittleEndian x ++ rest) ([sa_type x; sa_flags x] ++ encode host 2 (std_len x))
  = Some STATUS_SUCCESS.
Proof.
  intros (Hx & Hv & Hm). destruct (std_wf_facts x Hx) as (Ht & Hf & Hl & _).
  destruct (std_fields LittleEndian x rest Hx) as (_ & _ & _ & Hmask & _). unfold verify_le_ace.
  unfold Ace_AceType at 1. change (ld8 _ 0) with (ld8 (sa_type x :: sa_flags x :: encode host 2 (std_len x)) 0).
  rewrite ld8_first. bsimpl. pose proof Hx as (Hst & Hfl & Hmr & Hs). rewrite Hst.
  rewrite Hmask. bsimpl. rewrite LTOH32_le by done. destruct (sa_sid x) as [srev sauth ssub] eqn:Esid.
  pose proof Hs as (Hs1 & Hs2 & _ & Hcount & _). cbn [sid_revision sid_authority] in *.
  destruct sauth as [|a0 [|a1 sauth]]; [zl..|].
  set (s := mk_sid srev (a0 :: a1 :: sauth) ssub) in *. pose proof (sid_count_nonneg s).
  assert (Hrd : rd (std_bytes LittleEndian x ++ rest) 8 4 = Some [srev; sid_count s; a0; a1]).
  { rewrite std_bytes_split, Esid. unfold sid_bytes, sid_header. fold s. cbn [sid_revision sid_authority s].
    change ([srev; sid_count s] ++ a0 :: a1 :: sauth) with ([srev; sid_count s; a0; a1] ++ sauth).
    rewrite <- !app_assoc, app_assoc, app_assoc. apply rd_at; zl. }
  rewrite Hrd. bsimpl.
  destruct (local_std_fields (sa_type x) (sa_flags x) (std_len x) (sa_mask x) srev (sid_count s) a0 a1)
    as (F1 & F2 & F3 & F4 & F5 & F6); [lia|done|].
  apply (verify_std _ _ _ _ _ _ _ F1 F2 F3 F4 F5 F6 Hst); [lia|]. unfold sid_valid in Hv. bool_hyps.
  unfold std_len in *. rewrite Esid in *. split_and!; done || lia.
Qed.

(** The local ACE header of the test. *)
Lemma load_std_header x rest :
  std_wf x ->
  load_ace_header (std_bytes LittleEndian x ++ rest) = Some ([sa_type x; sa_flags x] ++ encode host 2 (std_len x)).
Proof.
  intros Hx. destruct (std_fields LittleEndian x rest Hx) as (E1 & E2 & E3 & _). cbv zeta in *.
  unfold load_ace_header. rewrite E1, E2, E3. bsimpl. destruct (std_wf_facts x Hx) as (_ & _ & ? & _).
  rewrite LTOH16_le by lia. done.
Qed.

Lemma local_header_fields t f len :
  0 <= len < 65536 -> let h := [t; f] ++ encode host 2 len in
  Ace_AceType h = Some t /\ Ace_AceFlags h = Some f /\ Ace_AceSize h = Some len.
Proof.
  intros Hl h. subst h. split_and!; [apply ld8_first|apply ld8_second|].
  unfold Ace_AceSize, ld16. rewrite <- (app_nil_r (encode _ _ _)), rd_at by zl. bsimpl.
  by rewrite (decode_encode host 2).
Qed.

Lemma le_acl_loop_complete xs pre rest size :
  Forall std_valid xs -> zlen pre + std_lens xs <= size -> size < 65536 ->
  le_acl_loop (length xs) (pre ++ std_concat LittleEndian xs ++ rest) size (zlen pre) = Some STATUS_SUCCESS.
Proof.
  intros Hxs. revert pre. induction Hxs as [|x xs Hx Hxs IH]; intros pre Hs Hb; [done|].
  cbn [std_lens] in Hs. assert (Hw : std_wf x) by apply Hx. destruct (std_wf_facts x Hw) as (_ & _ & Hl & Hz).
  assert (0 <= std_lens xs).
  { apply std_lens_nonneg. eapply Forall_impl; [exact Hxs|]. intros y Hy. apply Hy. }
  pose proof (zlen_nonneg pre). unfold std_concat. cbn [length le_acl_loop map concat].
  rewrite <- !app_assoc, padd_app by done. fold (std_concat LittleEndian xs).
  rewrite load_std_header by done. bsimpl. unfold RtlpValidAceHeader.
  destruct (local_header_fields (sa_type x) (sa_flags x) (std_len x)) as (_ & F2 & F3); [lia|]. cbv zeta in *.
  rewrite F2, F3. bsimpl. destruct Hw as (_ & -> & _). unfold sizeof_ACE_HEADER.
  destruct (Z.leb_spec 4 (std_len x)); [|lia]. bsimpl. cbn [negb]. rewrite buffer_available by lia.
  cbn [negb]. rewrite verify_le_ace_ok by done. bsimpl. cbn [is_ok negb]. rewrite u32_small by lia.
  specialize (IH (pre ++ std_bytes LittleEndian x)). rewrite zlen_app, Hz, <- app_assoc in IH. apply IH; lia.
Qed.

Lemma le_acl_buffer_complete rev size xs rest bs :
  Forall std_valid xs -> RtlpValidAclRevision rev = true -> 8 + std_lens xs <= size < 65536 ->
  size <= bs < 2 ^ 32 ->
  RtlpIsValidLittleEndianAclBuffer (std_acl_image LittleEndian rev size xs ++ rest) bs = Some (true, size).
Proof.
  intros Hxs Hr Hs Hb. assert (Hw : Forall std_wf xs) by (eapply Forall_impl; [exact Hxs|]; intros y Hy; apply Hy).
  pose proof (std_lens_count xs Hw). pose proof (std_lens_nonneg xs Hw).
  unfold RtlpIsValidLittleEndianAclBuffer, std_acl_image. rewrite <- app_assoc. change sizeof_ACL with 8.
  destruct (Z.ltb_spec bs 8); [lia|]. unfold load_acl_header, LW_LTOH8.
  destruct (le_header_fields rev size (Z.of_nat (length xs)) (std_concat LittleEndian xs ++ rest))
    as (-> & -> & -> & -> & ->). bsimpl. rewrite !LTOH16_le by lia.
  replace ([rev; 0] ++ _) with (acl_header rev size (Z.of_nat (length xs)) ++ [])
    by (rewrite app_nil_r; unfold acl_header; repeat f_equal; destruct host; done).
  destruct (acl_header_fields rev size (Z.of_nat (length xs)) []) as (F1 & F2 & F3 & F4 & F5); [lia..|].
  cbv zeta in *. unfold RtlpValidAclHeader. rewrite F1, F2, F3, F4, F5. bsimpl. change sizeof_ACL with 8.
  destruct (Z.leb_spec 8 size); [|lia]. cbn [negb]. rewrite Hr. cbn [negb Z.eqb]. bsimpl.
  change ((0xFFFF - 8) / sizeof_ACE_HEADER) with 16381. destruct (Z.leb_spec (Z.of_nat (length xs)) 16381); [|lia].
  cbn [negb]. rewrite buffer_available by lia. cbn [negb]. rewrite Nat2Z.id.
  rewrite <- (@zlen_acl_header LittleEndian rev size (Z.of_nat (length xs))).
  rewrite le_acl_loop_complete; [done|done|rewrite (@zlen_acl_header LittleEndian); lia|lia].
Qed.

(** ** What the validity test accepts *)

(** A standard ACE the test accepts is the image of a valid one. *)
Lemma verify_le_ace_std q h :
  bytes_ok q -> load_ace_header q = Some h -> verify_le_ace q h = Some STATUS_SUCCESS ->
  (exists t, Ace_AceType h = Some t /\ is_standard_ace t = true) ->
  (forall len, Ace_AceSize h = Some len -> len <= zlen q) ->
  exists x rest, q = std_bytes LittleEndian x ++ rest /\ std_valid x /\
    h = [sa_type x; sa_flags x] ++ encode host 2 (std_len x).
Proof.
  intros Hb Hh Hv (t' & Ht' & Hst) Hfit. unfold verify_le_ace in Hv. rewrite Ht' in Hv. cbn [mbind option_bind] in Hv.
  rewrite Hst in Hv. destruct (Ace_Mask q) as [m|] eqn:Em; [|done]. cbn [mbind option_bind] in Hv.
  destruct (rd q 8 4) as [ss|] eqn:Er; [|done]. cbn [mbind option_bind] in Hv.
  apply rd_range in Er as Hz. destruct q as [|t [|f q]]; [zl..|].
  destruct (zlen_split q 2) as (w2 & q2 & -> & H2); [zl|].
  destruct (zlen_split q2 4) as (w4 & tail & -> & H4); [zl|].
  change (t :: f :: ?r) with ([t; f] ++ r) in *. rewrite !bytes_ok_app in Hb. destruct Hb as (Hb1 & Hb2 & Hb4 & Hbt).
  assert (t' = t /\ h = [t; f] ++ encode host 2 (le_decode w2)) as [-> ->].
  { unfold load_ace_header in Hh. destruct (Ace_AceType _) eqn:E1 in Hh; [|done]. cbn [mbind option_bind] in Hh.
    destruct (Ace_AceFlags _) eqn:E2 in Hh; [|done]. cbn [mbind option_bind] in Hh.
    unfold Ace_AceType in E1. cbn [app] in E1. rewrite ld8_first in E1. injection E1 as <-.
    unfold Ace_AceFlags in E2. cbn [app] in E2. rewrite ld8_second in E2. injection E2 as <-.
    unfold Ace_AceSize, ld16 in Hh. rewrite rd_at in Hh by zl. cbn [fmap option_fmap option_map mbind option_bind] in Hh.
    rewrite LTOH16_decode in Hh by done. injection Hh as <-. split; [|done].
    unfold Ace_AceType in Ht'. cbn [app] in Ht'. rewrite ld8_first in Ht'. by injection Ht' as <-. }
  assert (m = decode host w4) as ->.
  { unfold Ace_Mask, ld32 in Em. rewrite app_assoc, rd_at in Em by zl. by injection Em as <-. }
  rewrite LTOH32_decode in Hv by done.
  pose proof (le_decode_range w2 Hb2) as Hw2. rewrite H2 in Hw2. pose proof (le_decode_range w4 Hb4) as Hw4. rewrite H4 in Hw4.
  destruct (zlen_split tail 4) as (s4 & tail' & -> & Hs4); [zl|].
  assert (ss = s4) as ->.
  { rewrite app_assoc, app_assoc, rd_at in Er by zl. by injection Er as <-. }
  destruct s4 as [|r [|c [|a0 [|a1 [|]]]]]; try (exfalso; zl).
  destruct (local_std_fields t f (le_decode w2) (le_decode w4) r c a0 a1) as (F1 & F2 & F3 & F4 & F5 & F6); [done..|].
  cbv zeta in *. assert (Hc : ld8 (([r; c; a0; a1]) ++ tail') 1 = Some c) by apply ld8_second.
  pose proof (ld8_range _ _ _ Hbt Hc) as Hcr.
  apply (verify_std _ _ _ _ _ _ _ F1 F2 F3 F4 F5 F6 Hst Hcr) in Hv as (_ & Hfl & Hmk & Hlen & -> & Hmax).
  destruct (local_header_fields t f (le_decode w2)) as (_ & _ & F7); [done|]. apply Hfit in F7.
  destruct (sid_parse LittleEndian _ c Hbt Hc) as (s & rest & Eq & Hs & Hsc); [zl|].
  assert (Hrev : sid_revision s = SID_REVISION).
  { pose proof (sid_at_revision LittleEndian _ s (conj Hs (ex_intro _ rest eq_refl))) as E. rewrite <- Eq in E.
    unfold Sid_Revision in E. cbn [app] in E. rewrite ld8_first in E. by injection E as <-. }
  exists (mk_std_ace t f (le_decode w4) s), rest.
  assert (Hsl : std_len (mk_std_ace t f (le_decode w4) s) = le_decode w2) by (unfold std_len; cbn; lia).
  rewrite std_bytes_split, Hsl. cbn [sa_type sa_flags sa_mask sa_sid encode].
  split; [|split; [|done]]; [|split; [|split]].
  - pose proof (le_encode_decode w2 Hb2) as E2. pose proof (le_encode_decode w4 Hb4) as E4. unfold zlen in *.
    replace (length w2) with 2%nat in E2 by lia. replace (length w4) with 4%nat in E4 by lia.
    by rewrite E2, E4, Eq, <- !app_assoc.
  - unfold std_wf. cbn [sa_type sa_flags sa_mask sa_sid]. split_and!; try done; apply Hw4.
  - cbn [sa_sid]. unfold sid_valid. rewrite Hrev, Hsc. cbn. by apply Z.leb_le.
  - done.
Qed.

(** The statuses verification can return. *)
Ltac status_cases H :=
  repeat first
    [ discriminate H
    | injection H as <-; by auto
    | match type of H with
      | mbind _ ?x = Some _ => destruct x; cbn [mbind option_bind] in H
      | (if ?b then _ else _) = Some _ => destruct b; cbn [negb] in H
      end ].

Lemma verify_status a v st :
  RtlpVerifyAceEx a v = Some st -> st = STATUS_SUCCESS \/ st = STATUS_INVALID_ACL \/ st = STATUS_INVALID_SID.
Proof.
  assert (Hstd : forall z p st, RtlpValidAccessAllowedAce z p = Some st ->
    st = STATUS_SUCCESS \/ st = STATUS_INVALID_ACL \/ st = STATUS_INVALID_SID).
  { intros z p st' E. unfold RtlpValidAccessAllowedAce in E. status_cases E. injection E as <-. case_match; auto. }
  assert (Hobj : forall z f p st, RtlpValidAccessAllowedObjectAce z f p = Some st ->
    st = STATUS_SUCCESS \/ st = STATUS_INVALID_ACL \/ st = STATUS_INVALID_SID).
  { intros z f p st' E. unfold RtlpValidAccessAllowedObjectAce in E. status_cases E. injection E as <-. case_match; auto. }
  intros E. unfold RtlpVerifyAceEx in E. status_cases E; eauto.
Qed.

Lemma le_acl_loop_status n b size off st :
  le_acl_loop n b size off = Some st -> NT_SUCCESS st = true -> st = STATUS_SUCCESS.
Proof.
  revert off. induction n as [|n IH]; intros off E Hs; cbn [le_acl_loop] in E; [by injection E as <-|].
  destruct (load_ace_header (padd b off)) as [h|]; [|done]. cbn [mbind option_bind] in E.
  destruct (RtlpValidAceHeader (Some h)) as [[]|]; [|injection E as <-; done|done]. cbn [mbind option_bind negb] in E.
  destruct (Ace_AceSize h); [|done]. cbn [mbind option_bind] in E.
  destruct (RtlpIsBufferAvailable _ _ _); [|injection E as <-; done]. cbn [negb] in E.
  destruct (verify_le_ace (padd b off) h) as [s'|] eqn:Ev; [|done]. cbn [mbind option_bind] in E.
  destruct (is_ok s') eqn:Ek; [by apply IH in E|]. injection E as <-. unfold verify_le_ace in Ev.
  status_cases Ev; try (apply verify_status in Ev as [-> | [-> | ->]]; done).
Qed.

(** One of the [n] little-endian ACEs from [off] on is an object ACE. *)
Fixpoint object_ace_in (n : nat) (b : mem) (off : Z) : bool :=
  match n with
  | O => false
  | S n' =>
      match Ace_AceType (padd b off), rd (padd b off) 2 2 with
      | Some t, Some w => is_object_ace t || object_ace_in n' b (off + le_decode w)
      | _, _ => false
      end
  end.

(** The little-endian ACL at [b] has an object ACE. *)
Definition object_acl (b : mem) : bool :=
  match rd b 4 2 with Some w => object_ace_in (Z.to_nat (le_decode w)) b 8 | None => false end.

Lemma load_ace_header_inv q h :
  bytes_ok q -> load_ace_header q = Some h ->
  bytes_ok h /\ exists t, Ace_AceType h = Some t /\ Ace_AceType q = Some t /\ exists w, rd q 2 2 = Some w.
Proof.
  intros Hb Hh. unfold load_ace_header, LW_LTOH8 in Hh. destruct (Ace_AceType q) as [t|] eqn:Et; [|done].
  cbn [mbind option_bind] in Hh. destruct (Ace_AceFlags q) as [f|] eqn:Ef; [|done]. cbn [mbind option_bind] in Hh.
  destruct (Ace_AceSize q) as [z|] eqn:Ez; [|done]. injection Hh as <-. split.
  - constructor; [by eapply ld8_range|]. constructor; [by eapply ld8_range|]. apply bytes_ok_encode.
  - exists t. split; [apply ld8_first|]. split; [done|]. unfold Ace_AceSize, ld16 in Ez. destruct (rd q 2 2); [eauto|done].
Qed.

Lemma le_acl_loop_sound n b size off :
  bytes_ok b -> size <= zlen b -> size < 65536 -> 0 <= off <= size ->
  object_ace_in n b off = false -> le_acl_loop n b size off = Some STATUS_SUCCESS ->
  exists xs pre rest, b = pre ++ std_concat LittleEndian xs ++ rest /\ zlen pre = off /\ length xs = n /\
    Forall std_valid xs /\ off + std_lens xs <= size.
Proof.
  intros Hb Hz Hs. revert off. induction n as [|n IH]; intros off Hoff Hobj Hl.
  { destruct (zlen_split b off) as (pre & rest & -> & Hp); [lia|]. exists [], pre, rest.
    cbn [std_lens]. split_and!; try done; try lia. }
  cbn [le_acl_loop object_ace_in] in *. destruct (zlen_split b off) as (pre & q & -> & Hp); [lia|].
  rewrite padd_app in Hl, Hobj by done. destruct (load_ace_header q) as [h|] eqn:Eh; [|done]. cbn [mbind option_bind] in Hl.
  destruct (RtlpValidAceHeader (Some h)) as [[]|] eqn:Ev; [|done..]. cbn [mbind option_bind negb] in Hl.
  destruct (Ace_AceSize h) as [len|] eqn:El; [|done]. cbn [mbind option_bind] in Hl.
  apply bytes_ok_app in Hb as Hbq. destruct Hbq as [_ Hbq].
  destruct (load_ace_header_inv q h Hbq Eh) as (Hbh & t & Ht & Htq & w & Hw).
  pose proof (ld16_range _ _ _ Hbh El) as Hlr. rewrite Htq, Hw in Hobj. apply orb_false_iff in Hobj as [Hot Hobj].
  destruct (RtlpIsBufferAvailable size off len) eqn:Ea; [|done]. apply RtlpIsBufferAvailable_iff in Ea; [|lia..].
  cbn [negb] in Hl. destruct (verify_le_ace q h) as [st|] eqn:Es; [|done]. cbn [mbind option_bind] in Hl.
  destruct (is_ok st) eqn:Ek; [|injection Hl as ->; done]. apply is_ok_true in Ek as ->. cbn [negb] in Hl.
  rewrite u32_small in Hl by lia. destruct (is_standard_ace t) eqn:Est.
  - destruct (verify_le_ace_std q h Hbq Eh Es) as (x & rest & -> & Hx & ->); [by eauto| |].
    { intros len' E. rewrite El in E. injection E as <-. zl. }
    destruct (std_wf_facts x) as (_ & _ & Hxl & Hxz); [apply Hx|].
    destruct (local_header_fields (sa_type x) (sa_flags x) (std_len x)) as (_ & _ & F3); [lia|]. cbv zeta in F3.
    rewrite F3 in El. injection El as <-.
    assert (Hw' : le_decode w = std_len x).
    { rewrite std_bytes_split, <- !app_assoc, rd_at in Hw by zl. injection Hw as <-. cbn [encode]. apply (le_decode_encode 2). lia. }
    rewrite Hw' in Hobj. apply IH in Hl as (xs & pre' & rest' & Heq & Hpl & <- & Hf & Hle); [|lia|done].
    exists (x :: xs), pre, rest'. cbn [std_lens length]. split_and!; try done; try lia; [|by constructor].
    rewrite app_assoc in Heq. apply app_inj_1 in Heq as [<- ->].
    + unfold std_concat. cbn [map concat]. by rewrite <- !app_assoc.
    + specialize (Hxz LittleEndian). unfold zlen in *. rewrite length_app. lia.
  - unfold verify_le_ace in Es. rewrite Ht in Es. cbn [mbind option_bind] in Es. by rewrite Est, Hot in Es.
Qed.

Lemma le_encode_decode_n n w : bytes_ok w -> zlen w = Z.of_nat n -> le_encode n (le_decode w) = w.
Proof. intros Hb Hl. rewrite <- (le_encode_decode w Hb) at 2. f_equal. unfold zlen in Hl. lia. Qed.

Lemma le_header_inv b h :
  bytes_ok b -> 8 <= zlen b -> load_acl_header b = Some h -> RtlpValidAclHeader (Some h) = Some true ->
  exists rev size n rest, b = @acl_header LittleEndian rev size n ++ rest /\ h = acl_header rev size n /\
    RtlpValidAclRevision rev = true /\ 8 <= size < 65536 /\ 0 <= n <= 16381.
Proof.
  intros Hb Hz Hh Hv. destruct b as [|r [|z1 b]]; [zl..|].
  destruct (zlen_split b 2) as (w2 & b2 & -> & H2); [zl|].
  destruct (zlen_split b2 2) as (w4 & b4 & -> & H4); [zl|]. destruct (zlen_split b4 2) as (w6 & rest & -> & H6); [zl|].
  change (r :: z1 :: ?t) with ([r; z1] ++ t) in *. rewrite !bytes_ok_app in Hb. destruct Hb as (Hb1 & Hb2 & Hb4 & Hb6 & _).
  assert (h = [r; z1] ++ encode host 2 (le_decode w2) ++ encode host 2 (le_decode w4) ++ encode host 2 (le_decode w6)) as ->.
  { unfold load_acl_header, LW_LTOH8, Acl_AclRevision, Acl_Sbz1, Acl_AclSize, Acl_AceCount, Acl_Sbz2 in Hh.
    change (ld8 _ 0) with (ld8 (r :: z1 :: w2 ++ w4 ++ w6 ++ rest) 0) in Hh. rewrite ld8_first in Hh.
    change (ld8 _ 1) with (ld8 (r :: z1 :: w2 ++ w4 ++ w6 ++ rest) 1) in Hh. rewrite ld8_second in Hh. unfold ld16 in Hh.
    rewrite (rd_at [r; z1] w2 _ 2 2) in Hh by zl. rewrite (app_assoc [r; z1]), (rd_at _ w4 _ 4 2) in Hh by zl.
    rewrite (app_assoc ([r; z1] ++ w2)), (rd_at _ w6 _ 6 2) in Hh by zl.
    cbn [fmap option_fmap option_map mbind option_bind] in Hh. rewrite !LTOH16_decode in Hh by done. by injection Hh as <-. }
  apply valid_header_inv in Hv as (rev & size & n & rest' & Heq & Hr & Hs & Hn).
  2:{ rewrite !bytes_ok_app. split_and!; auto with lw. }
  pose proof (le_decode_range w2 Hb2) as R2. pose proof (le_decode_range w4 Hb4) as R4.
  pose proof (le_decode_range w6 Hb6) as R6. rewrite H2 in R2. rewrite H4 in R4. rewrite H6 in R6.
  unfold acl_header in Heq. rewrite <- !app_assoc in Heq. injection Heq as -> -> Heq.
  assert (Hlen : forall v, length (encode host 2 v) = 2%nat) by (intros v; pose proof (zlen_encode host 2 v); unfold zlen in *; lia).
  apply app_inj_1 in Heq as [E2 Heq]; [|by rewrite !Hlen]. apply app_inj_1 in Heq as [E4 Heq]; [|by rewrite !Hlen].
  apply (f_equal (take 2)) in Heq. rewrite <- (Hlen (le_decode w6)) in Heq at 1. rewrite firstn_all in Heq. cbn in Heq.
  assert (E6 : encode host 2 (le_decode w6) = encode host 2 0) by (rewrite Heq; destruct host; done).
  apply encode_inj in E2, E4, E6; [|done || lia..]. exists rev, size, n, rest. split; [|split; [|split_and!; done || lia]].
  - unfold acl_header, host. cbn [encode]. rewrite <- E2, <- E4, !(le_encode_decode_n 2) by done. cbn [app]. do 2 f_equal.
    rewrite <- (le_encode_decode_n 2 w6), E6, <- !app_assoc by done. done.
  - rewrite E2, E4, E6. unfold acl_header. repeat f_equal. destruct host; done.
Qed.
End Codec.

(** C10: a discretionary or system ACL of standard ACEs encoded on a host of one
    byte order is accepted by the validity test and decoded on a host of any
    byte order to the same ACL: same revision, same ACEs (type, flags, mask and
    SID), the size now the bytes in use. *)
Theorem acl_codec_roundtrip h1 h2 p rev size xs old post bs dold dpost :
  @acl_at h1 p (@std_acl h1 rev size xs) -> Forall std_valid xs ->
  zlen old = 8 + std_lens xs -> 8 + std_lens xs <= bs < 2 ^ 32 -> zlen dold = 8 + std_lens xs ->
  exists b,
    @RtlpEncodeLittleEndianAcl h1 (Some p) (old ++ post) bs = Some (STATUS_SUCCESS, b ++ post, 8 + std_lens xs) /\
    @RtlpIsValidLittleEndianAclBuffer h2 (b ++ post) bs = Some (true, 8 + std_lens xs) /\
    exists d, @RtlpDecodeLittleEndianAcl h2 (b ++ post) (dold ++ dpost) = Some (STATUS_SUCCESS, d) /\
      @acl_at h2 d (@std_acl h2 rev (8 + std_lens xs) xs) /\ zlen d = zlen (dold ++ dpost).
Proof.
  intros Hp Hxs Hold Hbs Hd.
  assert (Hw : Forall std_wf xs) by (eapply Forall_impl; [exact Hxs|]; intros y Hy; apply Hy).
  pose proof (@acl_at_used_range h1 _ _ Hp) as [Hu Hsz]. pose proof Hp as ((Hr & _) & _).
  unfold acl_used, std_acl in Hu, Hsz, Hr. cbn [acl_aces acl_size acl_revision] in Hu, Hsz, Hr.
  pose proof (@aces_len_std h1 xs Hw) as Hlen. rewrite Hlen in Hu.
  exists (std_acl_image LittleEndian rev (8 + std_lens xs) xs). split_and!.
  - apply (@RtlpEncodeLittleEndianAcl_ok h1 p rev size); done || lia.
  - apply (@le_acl_buffer_complete h2); done || lia.
  - eexists. split; [apply (@RtlpDecodeLittleEndianAcl_ok h2); done || lia|]. split.
    + apply (@std_acl_image_at h2); done || (pose proof (zlen_nonneg dpost); lia).
    + unfold std_acl_image. rewrite !zlen_app, (@zlen_acl_header h2), zlen_std_concat by done. lia.
Qed.

Lemma le_acl_buffer_sound h b n used :
  bytes_ok b -> 0 <= n <= zlen b -> n < 2 ^ 32 ->
  @RtlpIsValidLittleEndianAclBuffer h b n = Some (true, used) ->
  object_acl b = false ->
  used <= n /\
  exists rev xs rest, b = std_acl_image LittleEndian rev used xs ++ rest /\ Forall std_valid xs /\
    8 + std_lens xs <= used < 65536 /\ RtlpValidAclRevision rev = true.
Proof.
  intros Hb Hn Hn32 Hv Hobj. unfold RtlpIsValidLittleEndianAclBuffer in Hv. change sizeof_ACL with 8 in Hv.
  destruct (Z.ltb_spec n 8); [done|]. destruct (load_acl_header b) as [hd|] eqn:Eh; [|done].
  cbn [mbind option_bind] in Hv. destruct (RtlpValidAclHeader (Some hd)) as [[]|] eqn:Ev; [|done..].
  cbn [mbind option_bind negb] in Hv.
  destruct (le_header_inv b hd Hb ltac:(lia) Eh Ev) as (rev & size & c & rest & -> & -> & Hr & Hs & Hc).
  destruct (acl_header_fields rev size c []) as (_ & _ & F3 & F4 & _); [lia..|]. rewrite app_nil_r in F3, F4.
  rewrite F3, F4 in Hv. cbn [mbind option_bind] in Hv.
  destruct (RtlpIsBufferAvailable n 0 size) eqn:Ea; [|done]. apply RtlpIsBufferAvailable_iff in Ea; [|lia..]. cbn [negb] in Hv.
  destruct (le_acl_loop _ _ _ _) as [st|] eqn:El; [|done]. cbn [mbind option_bind] in Hv.
  injection Hv as Hst Hu. rewrite Hst in Hu. subst size. apply (le_acl_loop_status _ _ _ _ _ El) in Hst as ->. split; [lia|].
  assert (Hobj' : object_ace_in (Z.to_nat c) (@acl_header LittleEndian rev used c ++ rest) 8 = false).
  { unfold object_acl, acl_header, host in Hobj. rewrite <- !app_assoc in Hobj. rewrite app_assoc, rd_at in Hobj by zl.
    cbn [encode] in Hobj. rewrite (le_decode_encode 2) in Hobj by (change (256 ^ Z.of_nat 2) with 65536; lia).
    unfold acl_header, host. cbn [encode]. rewrite <- !app_assoc in *. exact Hobj. }
  apply le_acl_loop_sound in El as (xs & pre & rest' & Heq & Hp & Hl & Hxs & Hle); [|done|lia..|done].
  pose proof (@zlen_acl_header LittleEndian rev used c) as Hh.
  apply app_inj_1 in Heq as [<- ->]; [|unfold zlen in *; lia]. exists rev, xs, rest'.
  assert (Hw : Forall std_wf xs) by (eapply Forall_impl; [exact Hxs|]; intros y Hy; apply Hy).
  assert (Hb' : @acl_header LittleEndian rev used c ++ std_concat LittleEndian xs ++ rest'
                = std_acl_image LittleEndian rev used xs ++ rest').
  { unfold std_acl_image. rewrite <- app_assoc. do 2 f_equal. lia. }
  rewrite Hb'. split_and!; done || lia.
Qed.

(** C37: what the validity test accepts can be decoded: a buffer of [n] readable
    bytes it accepts, none of whose ACEs is an object ACE, starts with the
    little-endian image of an ACL of valid standard ACEs whose size is the one
    reported and at most [n], and decoding it into any object of the reported
    size succeeds without a fault and gives that ACL. *)
Theorem validated_acl_decodes h b n used :
  bytes_ok b -> 0 <= n <= zlen b -> n < 2 ^ 32 ->
  @RtlpIsValidLittleEndianAclBuffer h b n = Some (true, used) ->
  object_acl b = false ->
  used <= n /\
  exists rev xs rest, b = std_acl_image LittleEndian rev used xs ++ rest /\ Forall std_valid xs /\
    8 + std_lens xs <= used /\
    forall d, used <= zlen d ->
      exists d', @RtlpDecodeLittleEndianAcl h b d = Some (STATUS_SUCCESS, d') /\
        @acl_at h d' (@std_acl h rev used xs) /\ zlen d' = zlen d.
Proof.
  intros Hb Hn Hn32 Hv Hobj. destruct (le_acl_buffer_sound h b n used Hb Hn Hn32 Hv Hobj) as [Hu (rev & xs & rest & -> & Hxs & Hl & Hr)].
  split; [done|]. exists rev, xs, rest.
  assert (Hw : Forall std_wf xs) by (eapply Forall_impl; [exact Hxs|]; intros y Hy; apply Hy).
  split_and!; [done..|lia|]. intros d Hd. pose proof (std_lens_nonneg xs Hw).
  destruct (zlen_split d (8 + std_lens xs)) as (old & post & -> & Hold); [lia|]. rewrite zlen_app in Hd.
  eexists. split; [apply RtlpDecodeLittleEndianAcl_ok; done || lia|]. split.
  - apply std_acl_image_at; done || lia.
  - unfold std_acl_image. rewrite !zlen_app, zlen_acl_header, zlen_std_concat by done. lia.
Qed.

(** * Concrete inputs *)

Definition demo_std : list std_ace :=
  [mk_std_ace ACCESS_DENIED_ACE_TYPE 0 2 sid_system; mk_std_ace ACCESS_ALLOWED_ACE_TYPE 0x13 0x1F01FF sid_domain].

Lemma demo_std_valid : Forall std_valid demo_std.
Proof.
  constructor; [|constructor; [|constructor]]; (split; [|split; vm_compute; reflexivity]);
    (split; [vm_compute; reflexivity|]; split; [vm_compute; reflexivity|]; split; [vm_compute; split; [discriminate|done]|]);
    apply (known_sid_wf LittleEndian); set_solver.
Qed.

Lemma demo_std_wf : Forall std_wf demo_std.
Proof. eapply Forall_impl; [exact demo_std_valid|]. intros x Hx. apply Hx. Qed.

Lemma demo_std_at h : @acl_at h (std_acl_image h 2 64 demo_std ++ zeros 4) (@std_acl h 2 64 demo_std).
Proof. apply std_acl_image_at; [apply demo_std_wf|done|vm_compute; split; [discriminate|done]|vm_compute; discriminate]. Qed.

Lemma acl_codec_roundtrip_witness :
  exists b, @RtlpEncodeLittleEndianAcl BigEndian (Some (std_acl_image BigEndian 2 64 demo_std ++ zeros 4)) (zeros 60 ++ []) 60
              = Some (STATUS_SUCCESS, b ++ [], 60) /\
    exists d, @RtlpDecodeLittleEndianAcl LittleEndian (b ++ []) (zeros 60 ++ [7]) = Some (STATUS_SUCCESS, d) /\
      @acl_at LittleEndian d (@std_acl LittleEndian 2 60 demo_std).
Proof.
  destruct (acl_codec_roundtrip BigEndian LittleEndian (std_acl_image BigEndian 2 64 demo_std ++ zeros 4) 2 64 demo_std
              (zeros 60) [] 60 (zeros 60) [7]) as (b & H1 & _ & d & H2 & H3 & _);
    [apply demo_std_at|apply demo_std_valid|done|vm_compute; split; [discriminate|done]|done|].
  exists b. split; [exact H1|]. exists d. split; [exact H2|exact H3].
Defined.

Lemma validated_acl_decodes_witness :
  exists d', @RtlpDecodeLittleEndianAcl BigEndian (std_acl_image LittleEndian 2 60 demo_std) (zeros 60) = Some (STATUS_SUCCESS, d').
Proof.
  destruct (validated_acl_decodes BigEndian (std_acl_image LittleEndian 2 60 demo_std) 60 60)
    as (_ & (rev & xs & rest & _ & _ & _ & Hd)).
  - apply Forall_forall. intros x Hx. apply (list_elem_of_lookup_1 _ x) in Hx as (i & Hi).
    assert (Hall : forallb byte_ok (std_acl_image LittleEndian 2 60 demo_std) = true) by (vm_compute; reflexivity).
    rewrite forallb_forall in Hall. specialize (Hall x). unfold byte_ok in Hall.
    apply list_elem_of_lookup_2, list_elem_of_In in Hi. apply Hall in Hi. bool_hyps. lia.
  - vm_compute. split; discriminate.
  - lia.
  - vm_compute. reflexivity.
  - vm_compute. reflexivity.
  - destruct (Hd (zeros 60)) as (d' & Hd' & _); [vm_compute; discriminate|]. exists d'. exact Hd'.
Defined.
