(* ===== verification/Token.v ===== *)
(** Access tokens and access checks: [RtlMapGenericMask],
    [RtlIsSidMemberOfToken], [RtlAccessCheck] and [RtlAccessCheckEx] of
    [lwbase/src/security-token.c].

    A token in memory is one allocation of a structure and of the SIDs, the
    privileges and the ACL its fields point to; here it is a record whose
    pointer fields hold the bytes from the address they hold to the end of the
    object ([TokenState] builds this view from the allocation). The readers-writer lock is not
    modelled: each function runs as one step. *)

From S2P Require Import Prelude SecurityTypes Sid Acl.

(** * Data *)

Record SID_AND_ATTRIBUTES := {
  sa_Sid : ptr;
  sa_Attributes : Z
}.

(** [Groups] is the array with its count; [Privileges] is the pointer to the
    array of [PrivilegeCount] privileges. *)
Record ACCESS_TOKEN := {
  ReferenceCount : Z;
  Flags : Z;
  User : SID_AND_ATTRIBUTES;
  Groups : list SID_AND_ATTRIBUTES;
  PrivilegeCount : Z;
  Privileges : mem;
  Owner : ptr;
  PrimaryGroup : ptr;
  DefaultDacl : ptr;
  Uid : Z;
  Gid : Z;
  Umask : Z
}.

Record SECURITY_DESCRIPTOR_ABSOLUTE := {
  sd_Revision : Z;
  sd_Sbz1 : Z;
  sd_Control : Z;
  sd_Owner : ptr;
  sd_Group : ptr;
  sd_Sacl : ptr;
  sd_Dacl : ptr
}.

(** * Access masks *)

Definition RtlpMapGenericMaskSingleFlag (AccessMask GenericFlag SpecificFlags : Z) : Z :=
  if IsSetFlag AccessMask GenericFlag then SetFlag (ClearFlag AccessMask GenericFlag) SpecificFlags
  else AccessMask.

Definition RtlMapGenericMask (AccessMask : Z) (GenericMapping : GENERIC_MAPPING) : Z :=
  let m := RtlpMapGenericMaskSingleFlag AccessMask GENERIC_READ (GenericRead GenericMapping) in
  let m := RtlpMapGenericMaskSingleFlag m GENERIC_WRITE (GenericWrite GenericMapping) in
  let m := RtlpMapGenericMaskSingleFlag m GENERIC_EXECUTE (GenericExecute GenericMapping) in
  RtlpMapGenericMaskSingleFlag m GENERIC_ALL (GenericAll GenericMapping).

Section Operations.
Context `{Host}.

(** * Membership *)

Fixpoint is_member_of_groups (Sid : mem) (groups : list SID_AND_ATTRIBUTES) : option bool :=
  match groups with
  | [] => Some false
  | sidInfo :: groups' =>
      if IsSetFlag (sa_Attributes sidInfo) SE_GROUP_ENABLED then
        g ← sa_Sid sidInfo;
        e ← RtlEqualSid Sid g;
        if (e : bool) then Some true else is_member_of_groups Sid groups'
      else is_member_of_groups Sid groups'
  end.

Definition RtlIsSidMemberOfToken (AccessToken : ACCESS_TOKEN) (Sid : mem) : option bool :=
  u ← sa_Sid (User AccessToken);
  e ← RtlEqualSid Sid u;
  if (e : bool) then Some true else is_member_of_groups Sid (Groups AccessToken).

(** * Access checks *)

(** The [while] loop of [RtlAccessCheckEx]: the status with which it leaves
    ([STATUS_SUCCESS] when it leaves by its condition or at the end of the
    ACL), the granted and the desired access. Each turn consumes an ACE, so
    that the bytes in use by the ACL are fuel enough. *)
Fixpoint access_loop (fuel : nat) (AccessToken : ACCESS_TOKEN) (GenericMapping : GENERIC_MAPPING)
    (wantMaxAllowed : bool) (dacl : mem) (aclSizeUsed aceOffset : Z)
    (grantedAccess deniedAccess desiredAccess : Z) : option (NTSTATUS * Z * Z) :=
  if wantMaxAllowed || negb (desiredAccess =? 0) then
    match fuel with
    | O => None
    | S fuel' =>
        '(status, aceOffset, loc) ← RtlIterateAce dacl aclSizeUsed aceOffset;
        if bool_decide (status = STATUS_NO_MORE_ENTRIES) then Some (STATUS_SUCCESS, grantedAccess, desiredAccess)
        else if negb (is_ok status) then Some (status, grantedAccess, desiredAccess)
        else
          loc ← loc;
          let ace := padd dacl loc in
          let next := access_loop fuel' AccessToken GenericMapping wantMaxAllowed dacl aclSizeUsed aceOffset in
          t ← Ace_AceType ace;
          if t =? ACCESS_ALLOWED_ACE_TYPE then
            mask ← Ace_Mask ace;
            let mask := RtlMapGenericMask mask GenericMapping in
            if wantMaxAllowed || IsSetFlag desiredAccess mask then
              m ← RtlIsSidMemberOfToken AccessToken (RtlpGetSidAccessAllowedAce ace);
              if (m : bool) then
                let grantedAccess :=
                  if wantMaxAllowed then SetFlag grantedAccess (Z.ldiff mask deniedAccess)
                  else SetFlag grantedAccess (Z.land mask desiredAccess) in
                next grantedAccess deniedAccess (ClearFlag desiredAccess grantedAccess)
              else next grantedAccess deniedAccess desiredAccess
            else next grantedAccess deniedAccess desiredAccess
          else if t =? ACCESS_DENIED_ACE_TYPE then
            mask ← Ace_Mask ace;
            let mask := RtlMapGenericMask mask GenericMapping in
            if wantMaxAllowed || IsSetFlag desiredAccess mask then
              m ← RtlIsSidMemberOfToken AccessToken (RtlpGetSidAccessAllowedAce ace);
              if (m : bool) then
                if wantMaxAllowed then
                  let deniedAccess := SetFlag deniedAccess mask in
                  next grantedAccess deniedAccess (ClearFlag desiredAccess deniedAccess)
                else Some (STATUS_ACCESS_DENIED, grantedAccess, desiredAccess)
              else next grantedAccess deniedAccess desiredAccess
            else next grantedAccess deniedAccess desiredAccess
          else next grantedAccess deniedAccess desiredAccess
    end
  else Some (STATUS_SUCCESS, grantedAccess, desiredAccess).

(** [RtlCreateWellKnownSid] into the local [sidBuffer], whose 68 bytes hold
    whatever was on the stack. *)
Definition well_known_local (t : WELL_KNOWN_SID_TYPE) (sidBuffer : mem) : option (NTSTATUS * mem) :=
  '(status, s, _) ← RtlCreateWellKnownSid t None (Some sidBuffer) SID_MAX_SIZE;
  s ← s; Some (status, s).

(** Everything is allowed: the two places that grant without a DACL. *)
Definition grant_all (wantMaxAllowed : bool) (GenericMapping : GENERIC_MAPPING) (grantedAccess desiredAccess : Z) : Z :=
  let desiredAccess :=
    if wantMaxAllowed then
      RtlMapGenericMask (SetFlag (SetFlag desiredAccess STANDARD_RIGHTS_ALL) GENERIC_ALL) GenericMapping
    else desiredAccess in
  SetFlag grantedAccess desiredAccess.

(** The body between the parameter checks and [cleanup]: the status, the
    granted and the remaining desired access. *)
Definition access_check_body (sd : SECURITY_DESCRIPTOR_ABSOLUTE) (AccessToken : ACCESS_TOKEN)
    (owner sidBuffer : mem) (wantMaxAllowed : bool) (GenericMapping : GENERIC_MAPPING)
    (grantedAccess desiredAccess : Z) : option (NTSTATUS * Z * Z) :=
  '(status, sidBuffer) ← well_known_local WinLocalSystemSid sidBuffer;
  if negb (is_ok status) then Some (status, grantedAccess, desiredAccess)
  else
    isSystem ← RtlIsSidMemberOfToken AccessToken sidBuffer;
    if (isSystem : bool) then
      Some (STATUS_SUCCESS, grant_all wantMaxAllowed GenericMapping grantedAccess desiredAccess, 0)
    else
      '(status, sidBuffer, grantedAccess, desiredAccess) ←
        (if wantMaxAllowed || IsSetFlag desiredAccess ACCESS_SYSTEM_SECURITY then
           '(status, sidBuffer) ← well_known_local WinBuiltinAdministratorsSid sidBuffer;
           if negb (is_ok status) then Some (status, sidBuffer, grantedAccess, desiredAccess)
           else
             isAdmin ← RtlIsSidMemberOfToken AccessToken sidBuffer;
             if (isAdmin : bool) then
               Some (STATUS_SUCCESS, sidBuffer, SetFlag grantedAccess ACCESS_SYSTEM_SECURITY,
                     ClearFlag desiredAccess ACCESS_SYSTEM_SECURITY)
             else if IsSetFlag desiredAccess ACCESS_SYSTEM_SECURITY then
               Some (STATUS_PRIVILEGE_NOT_HELD, sidBuffer, grantedAccess, desiredAccess)
             else Some (STATUS_SUCCESS, sidBuffer, grantedAccess, desiredAccess)
         else Some (STATUS_SUCCESS, sidBuffer, grantedAccess, desiredAccess));
      if negb (is_ok status) then Some (status, grantedAccess, desiredAccess)
      else
        '(status, sidBuffer, grantedAccess, desiredAccess) ←
          (if wantMaxAllowed || IsSetFlag desiredAccess WRITE_OWNER then
             '(status, sidBuffer) ← well_known_local WinBuiltinAdministratorsSid sidBuffer;
             if negb (is_ok status) then Some (status, sidBuffer, grantedAccess, desiredAccess)
             else
               isAdmin ← RtlIsSidMemberOfToken AccessToken sidBuffer;
               if (isAdmin : bool) then
                 Some (STATUS_SUCCESS, sidBuffer, SetFlag grantedAccess WRITE_OWNER,
                       ClearFlag desiredAccess WRITE_OWNER)
               else Some (STATUS_SUCCESS, sidBuffer, grantedAccess, desiredAccess)
           else Some (STATUS_SUCCESS, sidBuffer, grantedAccess, desiredAccess));
        if negb (is_ok status) then Some (status, grantedAccess, desiredAccess)
        else
          '(grantedAccess, desiredAccess) ←
            (if wantMaxAllowed || IsSetFlag desiredAccess (Z.lor READ_CONTROL WRITE_DAC) then
               isOwner ← RtlIsSidMemberOfToken AccessToken owner;
               if (isOwner : bool) then
                 let desiredAccess :=
                   if wantMaxAllowed then Z.lor desiredAccess (Z.lor READ_CONTROL WRITE_DAC) else desiredAccess in
                 let grantedAccess :=
                   SetFlag grantedAccess (Z.land (Z.lor READ_CONTROL WRITE_DAC) desiredAccess) in
                 Some (grantedAccess, ClearFlag desiredAccess grantedAccess)
               else Some (grantedAccess, desiredAccess)
             else Some (grantedAccess, desiredAccess));
          match sd_Dacl sd with
          | None => Some (STATUS_SUCCESS, grant_all wantMaxAllowed GenericMapping grantedAccess desiredAccess, 0)
          | Some dacl =>
              '(valid, aclSizeUsed) ← RtlValidAcl (Some dacl);
              if negb valid then Some (STATUS_INVALID_ACL, grantedAccess, desiredAccess)
              else
                '(status, grantedAccess, desiredAccess) ←
                  access_loop (Z.to_nat aclSizeUsed) AccessToken GenericMapping wantMaxAllowed dacl aclSizeUsed 0
                    grantedAccess 0 desiredAccess;
                if negb (is_ok status) then Some (status, grantedAccess, desiredAccess)
                else Some (if desiredAccess =? 0 then STATUS_SUCCESS else STATUS_ACCESS_DENIED,
                           grantedAccess, desiredAccess)
          end.

(** The result: the returned boolean, the remaining desired access, the granted
    access and the access status. *)
Definition access_check_cleanup (PreviouslyGrantedAccess : Z) (r : NTSTATUS * Z * Z)
    : bool * Z * Z * NTSTATUS :=
  let '(status, grantedAccess, desiredAccess) := r in
  let status :=
    if NT_SUCCESS status && negb (LW_IS_VALID_FLAGS grantedAccess VALID_GRANTED_ACCESS_MASK)
    then STATUS_ASSERTION_FAILURE else status in
  let grantedAccess := if NT_SUCCESS status then grantedAccess else PreviouslyGrantedAccess in
  (NT_SUCCESS status, desiredAccess, grantedAccess, status).

Definition RtlAccessCheckEx (SecurityDescriptor : option SECURITY_DESCRIPTOR_ABSOLUTE)
    (AccessToken : option ACCESS_TOKEN) (DesiredAccess PreviouslyGrantedAccess : Z)
    (GenericMapping : option GENERIC_MAPPING) (sidBuffer : mem) : option (bool * Z * Z * NTSTATUS) :=
  access_check_cleanup PreviouslyGrantedAccess <$>
  match SecurityDescriptor, AccessToken, GenericMapping with
  | Some sd, Some token, Some gm =>
      if negb (LW_IS_VALID_FLAGS DesiredAccess VALID_DESIRED_ACCESS_MASK)
      then Some (STATUS_INVALID_PARAMETER, PreviouslyGrantedAccess, DesiredAccess)
      else if negb (LW_IS_VALID_FLAGS PreviouslyGrantedAccess VALID_GRANTED_ACCESS_MASK)
      then Some (STATUS_INVALID_PARAMETER, PreviouslyGrantedAccess, DesiredAccess)
      else
        match sd_Owner sd, sd_Group sd with
        | Some owner, Some _ =>
            let wantMaxAllowed := IsSetFlag DesiredAccess MAXIMUM_ALLOWED in
            let desiredAccess := RtlMapGenericMask (ClearFlag DesiredAccess MAXIMUM_ALLOWED) gm in
            access_check_body sd token owner sidBuffer wantMaxAllowed gm PreviouslyGrantedAccess desiredAccess
        | _, _ => Some (STATUS_INVALID_SECURITY_DESCR, PreviouslyGrantedAccess, DesiredAccess)
        end
  | _, _, _ => Some (STATUS_INVALID_PARAMETER, PreviouslyGrantedAccess, DesiredAccess)
  end.

(** [RtlAccessCheck] passes no [RemainingDesiredAccess]. *)
Definition RtlAccessCheck (SecurityDescriptor : option SECURITY_DESCRIPTOR_ABSOLUTE)
    (AccessToken : option ACCESS_TOKEN) (DesiredAccess PreviouslyGrantedAccess : Z)
    (GenericMapping : option GENERIC_MAPPING) (sidBuffer : mem) : option (bool * Z * NTSTATUS) :=
  '(ok, _, granted, status) ←
    RtlAccessCheckEx SecurityDescriptor AccessToken DesiredAccess PreviouslyGrantedAccess GenericMapping sidBuffer;
  Some (ok, granted, status).
End Operations.
