(* ===== verification/AccessCheck.v ===== *)
(** What an access check decides: the semantics of [RtlAccessCheckEx] of
    [Token] bit by bit. A right is decided by the first ACE of the DACL whose
    SID is in the token and whose mask has the right. *)

From S2P Require Import Prelude SecurityTypes Sid Acl AclRepr AclOps AclEdit AclCodec AclCodecOps Token.

(** * The abstract token *)

Record tok := mk_tok {
  tk_user : sid;
  tk_groups : list (sid * Z)
}.

Definition member (k : tok) (s : sid) : bool :=
  bool_decide (s = tk_user k) ||
  existsb (fun '(g, attr) => IsSetFlag attr SE_GROUP_ENABLED && bool_decide (s = g)) (tk_groups k).

(** [T] holds the user and the groups of [k]. *)
Definition token_at `{Host} (T : ACCESS_TOKEN) (k : tok) : Prop :=
  (exists u, sa_Sid (User T) = Some u /\ sid_at host u (tk_user k)) /\
  Forall2 (fun x '(g, attr) => sa_Attributes x = attr /\ exists p, sa_Sid x = Some p /\ sid_at host p g)
    (Groups T) (tk_groups k).

(** * The decision on one right *)

(** What the ACE [x] says about the right [b]: [Some true] allows it, [Some
    false] denies it, [None] leaves it to the ACEs that follow. *)
Definition ace_decides (k : tok) (gm : GENERIC_MAPPING) (x : std_ace) (b : Z) : option bool :=
  if member k (sa_sid x) && Z.testbit (RtlMapGenericMask (sa_mask x) gm) b then
    if sa_type x =? ACCESS_ALLOWED_ACE_TYPE then Some true
    else if sa_type x =? ACCESS_DENIED_ACE_TYPE then Some false
    else None
  else None.

Fixpoint decide_right (k : tok) (gm : GENERIC_MAPPING) (xs : list std_ace) (b : Z) : option bool :=
  match xs with
  | [] => None
  | x :: xs' =>
      match ace_decides k gm x b with
      | Some d => Some d
      | None => decide_right k gm xs' b
      end
  end.

(** Rights held without the DACL, by administrators and by the owner. *)
Definition implicit_rights (admin owner : bool) : Z :=
  Z.lor (if admin then Z.lor ACCESS_SYSTEM_SECURITY WRITE_OWNER else 0)
        (if owner then Z.lor READ_CONTROL WRITE_DAC else 0).

(** * Lemmas *)

Section Lemmas.
Context `{Host}.

Lemma is_member_of_groups_spec q s gs ks :
  sid_at host q s ->
  Forall2 (fun x '(g, attr) => sa_Attributes x = attr /\ exists p, sa_Sid x = Some p /\ sid_at host p g) gs ks ->
  is_member_of_groups q gs =
  Some (existsb (fun '(g, attr) => IsSetFlag attr SE_GROUP_ENABLED && bool_decide (s = g)) ks).
Proof.
  intros Hq. induction 1 as [|x [g attr] gs ks (<- & p & Hp & Hg) _ IH]; [done|].
  cbn [is_member_of_groups existsb]. destruct (IsSetFlag _ _); [|done]. rewrite Hp. bsimpl.
  rewrite (RtlEqualSid_decide host q p s g Hq Hg). bsimpl. cbn [andb]. case_bool_decide; done.
Qed.

Lemma RtlIsSidMemberOfToken_spec T k q s :
  token_at T k -> sid_at host q s -> RtlIsSidMemberOfToken T q = Some (member k s).
Proof.
  intros ((u & Hu & Hus) & Hg) Hq. unfold RtlIsSidMemberOfToken, member. rewrite Hu. bsimpl.
  rewrite (RtlEqualSid_decide host q u s _ Hq Hus). bsimpl. case_bool_decide; [done|]. cbn [orb].
  by apply is_member_of_groups_spec.
Qed.

Lemma well_known_local_spec t s buf :
  well_known_sid t None = Some s -> zlen buf = 68 ->
  exists buf', well_known_local t buf = Some (STATUS_SUCCESS, buf') /\ sid_at host buf' s /\ zlen buf' = 68.
Proof.
  intros Hs Hb. pose proof (sid_count_nonneg s). unfold well_known_local.
  destruct (well_known_sid_wf t None s) as [Hw Hv]; [done|done|].
  destruct (well_known_buffer_spec t None None s I Hs) as (rest & HB).
  assert (Hat : sid_at host (sid_bytes host s ++ rest) s) by (split; eauto).
  rewrite (RtlCreateWellKnownSid_unfold _ _ _ _ _ HB), (sid_at_length _ _ _ Hat). bsimpl.
  unfold sid_valid, SID_MAX_SUB_AUTHORITIES in Hv. bool_hyps. unfold SID_MAX_SIZE.
  destruct (Z.ltb_spec 68 (8 + 4 * sid_count s)); [lia|]. rewrite (sid_at_rd _ _ _ Hat). bsimpl.
  destruct (zlen_split buf (8 + 4 * sid_count s)) as (old & post & -> & Hold); [lia|].
  rewrite wr_at_0 by (rewrite zlen_sid_bytes; done). bsimpl. eexists. split; [done|].
  split; [split; eauto|]. rewrite zlen_app, zlen_sid_bytes in * by done. lia.
Qed.

(** ** The loop as a function of the list of ACEs *)

Fixpoint eval_aces (k : tok) (gm : GENERIC_MAPPING) (max : bool) (xs : list std_ace) (g d w : Z) : NTSTATUS * Z * Z :=
  match xs with
  | [] => (STATUS_SUCCESS, g, w)
  | x :: xs' =>
      if max || negb (w =? 0) then
        let m := RtlMapGenericMask (sa_mask x) gm in
        let hit := (max || IsSetFlag w m) && member k (sa_sid x) in
        if (sa_type x =? ACCESS_ALLOWED_ACE_TYPE) && hit then
          let g := Z.lor g (if max then Z.ldiff m d else Z.land m w) in
          eval_aces k gm max xs' g d (Z.ldiff w g)
        else if (sa_type x =? ACCESS_DENIED_ACE_TYPE) && hit then
          if max then let d := Z.lor d m in eval_aces k gm max xs' g d (Z.ldiff w d)
          else (STATUS_ACCESS_DENIED, g, w)
        else eval_aces k gm max xs' g d w
      else (STATUS_SUCCESS, g, w)
  end.

Lemma eval_aces_done k gm xs g d : eval_aces k gm false xs g d 0 = (STATUS_SUCCESS, g, 0).
Proof. destruct xs; done. Qed.

Section Loop.
Context (p : mem) (rev size : Z) (xs : list std_ace) (Hat : acl_at p (std_acl rev size xs)).
Context (Hxs : Forall std_wf xs) (T : ACCESS_TOKEN) (k : tok) (HT : token_at T k) (gm : GENERIC_MAPPING).

(** One turn of the loop on the ACE [x]. *)
Lemma access_loop_step fuel max l x r g d w :
  xs = l ++ x :: r -> max || negb (w =? 0) = true ->
  let next := access_loop fuel T gm max p (acl_used (std_acl rev size xs))
                (next_offset (map (std_bytes host) (l ++ [x])) (map (std_bytes host) r)) in
  access_loop (S fuel) T gm max p (acl_used (std_acl rev size xs))
    (next_offset (map (std_bytes host) l) (map (std_bytes host) (x :: r))) g d w =
  let m := RtlMapGenericMask (sa_mask x) gm in
  let hit := (max || IsSetFlag w m) && member k (sa_sid x) in
  if (sa_type x =? ACCESS_ALLOWED_ACE_TYPE) && hit then
    let g := Z.lor g (if max then Z.ldiff m d else Z.land m w) in next g d (Z.ldiff w g)
  else if (sa_type x =? ACCESS_DENIED_ACE_TYPE) && hit then
    if max then let d := Z.lor d m in next g d (Z.ldiff w d)
    else Some (STATUS_ACCESS_DENIED, g, w)
  else next g d w.
Proof using Hat Hxs HT.
  intros Hl Hgo next. cbn [access_loop map next_offset]. rewrite Hgo.
  assert (Hw : std_wf x) by (rewrite Hl in Hxs; apply Forall_app in Hxs as [_ Hf]; by apply Forall_cons_iff in Hf as [? _]).
  assert (Haces : acl_aces (std_acl rev size xs) = map (std_bytes host) l ++ std_bytes host x :: map (std_bytes host) r)
    by (unfold std_acl; cbn [acl_aces]; rewrite Hl, map_app; done).
  rewrite (iterate_step p _ Hat _ _ _ Haces). bsimpl.
  replace (map (std_bytes host) l ++ [std_bytes host x]) with (map (std_bytes host) (l ++ [x])) by (rewrite map_app; done).
  cbn [bool_decide is_ok negb]. replace (bool_decide (STATUS_SUCCESS = STATUS_NO_MORE_ENTRIES)) with false by done.
  destruct (acl_at_padd p _ Hat _ _ Haces) as (slack & ->). cbn [concat]. rewrite <- app_assoc.
  destruct (std_fields host x (concat (map (std_bytes host) r) ++ slack) Hw) as (-> & _ & _ & Hm & Hs). bsimpl.
  rewrite Hm, decode_encode by apply Hw. bsimpl. unfold RtlpGetSidAccessAllowedAce.
  rewrite (RtlIsSidMemberOfToken_spec T k _ _ HT Hs). bsimpl. fold next. unfold SetFlag, ClearFlag. cbv zeta.
  destruct (sa_type x =? ACCESS_ALLOWED_ACE_TYPE) eqn:E1; cbn [andb].
  - destruct (max || IsSetFlag w _); cbn [andb].
    + destruct (member k (sa_sid x)); [by destruct max|]. apply Z.eqb_eq in E1. by rewrite E1.
    + apply Z.eqb_eq in E1. by rewrite E1.
  - destruct (sa_type x =? ACCESS_DENIED_ACE_TYPE); cbn [andb]; [|done].
    destruct (max || IsSetFlag w _); cbn [andb]; [|done]. by destruct (member k (sa_sid x)).
Qed.

Lemma access_loop_eval fuel max l r g d w :
  xs = l ++ r -> (r <> [] \/ l <> []) -> (length r < fuel)%nat ->
  access_loop fuel T gm max p (acl_used (std_acl rev size xs))
    (next_offset (map (std_bytes host) l) (map (std_bytes host) r)) g d w =
  Some (eval_aces k gm max r g d w).
Proof using Hat Hxs HT.
  revert fuel l g d w. induction r as [|x r IH]; intros [|fuel] l g d w Hl Hne Hf; cbn [length] in Hf; try lia.
  { cbn [access_loop map next_offset eval_aces]. destruct (max || _); [|done]. rewrite iterate_end. done. }
  destruct (max || negb (w =? 0)) eqn:Hgo.
  2:{ destruct max; [done|]. cbn [orb] in Hgo. bool_hyps. subst w. rewrite eval_aces_done. done. }
  rewrite access_loop_step by done. cbn [eval_aces]. rewrite Hgo. cbv zeta.
  assert (HI : forall g d w, access_loop fuel T gm max p (acl_used (std_acl rev size xs))
    (next_offset (map (std_bytes host) (l ++ [x])) (map (std_bytes host) r)) g d w = Some (eval_aces k gm max r g d w)).
  { intros. apply IH; [by rewrite <- app_assoc|right; by destruct l|lia]. }
  rewrite !HI. repeat case_match; done.
Qed.

End Loop.

Lemma access_loop_all p rev size xs T k gm max g w :
  acl_at p (std_acl rev size xs) -> Forall std_wf xs -> token_at T k ->
  access_loop (Z.to_nat (acl_used (std_acl rev size xs))) T gm max p (acl_used (std_acl rev size xs)) 0 g 0 w =
  Some (eval_aces k gm max xs g 0 w).
Proof.
  intros Hat Hxs HT. pose proof (acl_at_used_range p _ Hat) as Hu.
  pose proof (aces_len_std xs Hxs) as Hlen. pose proof (std_lens_count xs Hxs).
  assert (Hused : acl_used (std_acl rev size xs) = 8 + std_lens xs)
    by (unfold acl_used, std_acl; cbn [acl_aces]; lia).
  destruct xs as [|x xs].
  - destruct (Z.to_nat _) as [|n] eqn:En; [rewrite Hused in En; cbn in En; lia|]. cbn [access_loop eval_aces].
    destruct (max || _); [|done]. rewrite (iterate_empty p _ Hat) by done. done.
  - pose proof (access_loop_eval p rev size (x :: xs) Hat Hxs T k HT gm
      (Z.to_nat (acl_used (std_acl rev size (x :: xs)))) max [] (x :: xs) g 0 w) as HE.
    apply HE; [done|by left|rewrite Hused; lia].
Qed.

(** ** The loop, bit by bit *)

(** No right of [w] is in [g]. *)
Definition disjoint_masks (g w : Z) : Prop := forall b, 0 <= b -> Z.testbit g b = true -> Z.testbit w b = false.

Lemma disjoint_land g w : Z.land g w = 0 <-> disjoint_masks g w.
Proof.
  unfold disjoint_masks. split.
  - intros E b Hb Hg. apply (f_equal (fun z => Z.testbit z b)) in E. rewrite Z.land_spec, Hg, Z.bits_0 in E. done.
  - intros Hd. apply Z.bits_inj'. intros b Hb. rewrite Z.land_spec, Z.bits_0.
    destruct (Z.testbit g b) eqn:E; [|done]. by rewrite Hd.
Qed.

Lemma not_set_flag w m b : IsSetFlag w m = false -> Z.testbit w b = true -> Z.testbit m b = false.
Proof.
  unfold IsSetFlag. rewrite negb_false_iff, Z.eqb_eq. intros E Hw.
  apply (f_equal (fun z => Z.testbit z b)) in E. rewrite Z.land_spec, Hw, Z.bits_0 in E. done.
Qed.

(** Every right of [w] is allowed by the DACL. *)
Definition all_allowed (k : tok) (gm : GENERIC_MAPPING) (xs : list std_ace) (w : Z) : Prop :=
  forall b, 0 <= b -> Z.testbit w b = true -> decide_right k gm xs b = Some true.

(** An ACE that does not hit decides no right of [w]. *)
Lemma ace_decides_miss k gm x w b :
  IsSetFlag w (RtlMapGenericMask (sa_mask x) gm) && member k (sa_sid x) = false ->
  Z.testbit w b = true -> ace_decides k gm x b = None.
Proof.
  intros Hm Hw. unfold ace_decides. apply andb_false_iff in Hm as [Hm|Hm]; [|by rewrite Hm].
  rewrite (not_set_flag _ _ _ Hm Hw), andb_false_r. done.
Qed.

(** Without [MAXIMUM_ALLOWED]: the loop succeeds when the DACL allows every right of
    [w]; when it succeeds, each of them is allowed or has been granted before. *)
Lemma eval_aces_strict k gm xs : forall g w,
  (all_allowed k gm xs w -> eval_aces k gm false xs g 0 w = (STATUS_SUCCESS, Z.lor g w, 0)) /\
  (forall g', eval_aces k gm false xs g 0 w = (STATUS_SUCCESS, g', 0) -> g' = Z.lor g w /\
     forall b, 0 <= b -> Z.testbit w b = true -> Z.testbit g b = true \/ decide_right k gm xs b = Some true) /\
  (exists st g' w', eval_aces k gm false xs g 0 w = (st, g', w') /\ (st = STATUS_SUCCESS \/ st = STATUS_ACCESS_DENIED)).
Proof.
  induction xs as [|x xs IH]; intros g w.
  { cbn [eval_aces]. split_and!; [intros Ha| |eauto 8].
    - assert (w = 0) as ->; [|by rewrite Z.lor_0_r]. apply Z.bits_inj'. intros b Hb. rewrite Z.bits_0.
      destruct (Z.testbit w b) eqn:E; [|done]. by specialize (Ha b Hb E).
    - intros g' [= -> ->]. rewrite Z.lor_0_r. split; [done|]. intros b Hb Hw. by rewrite Z.bits_0 in Hw. }
  destruct (Z.eqb_spec w 0) as [->|Hw].
  { rewrite eval_aces_done, Z.lor_0_r. split_and!; [done| |eauto 8]. intros g' [= ->]. split; [done|]. intros b Hb Hw. by rewrite Z.bits_0 in Hw. }
  cbn [eval_aces]. destruct (Z.eqb_spec w 0); [done|]. cbn [orb negb].
  set (m := RtlMapGenericMask (sa_mask x) gm).
  assert (Hskip : (forall b, 0 <= b -> Z.testbit w b = true -> ace_decides k gm x b = None) ->
    (all_allowed k gm (x :: xs) w -> eval_aces k gm false xs g 0 w = (STATUS_SUCCESS, Z.lor g w, 0)) /\
    (forall g', eval_aces k gm false xs g 0 w = (STATUS_SUCCESS, g', 0) -> g' = Z.lor g w /\
       forall b, 0 <= b -> Z.testbit w b = true -> Z.testbit g b = true \/ decide_right k gm (x :: xs) b = Some true) /\
    (exists st g' w', eval_aces k gm false xs g 0 w = (st, g', w') /\ (st = STATUS_SUCCESS \/ st = STATUS_ACCESS_DENIED))).
  { intros Hnone. destruct (IH g w) as (I1 & I2 & I3). split_and!; [|intros g' E; destruct (I2 g' E) as [-> Hall]; split; [done|]|done].
    - intros Ha. apply I1. intros b Hb Hwb. specialize (Ha b Hb Hwb). cbn [decide_right] in Ha. by rewrite (Hnone b Hb Hwb) in Ha.
    - intros b Hb Hwb. cbn [decide_right]. rewrite (Hnone b Hb Hwb). by apply Hall. }
  destruct (IsSetFlag w m && member k (sa_sid x)) eqn:Hit.
  2:{ rewrite !andb_false_r. apply Hskip. intros b _. by apply ace_decides_miss. }
  rewrite !andb_true_r. apply andb_true_iff in Hit as [Hset Hmem]. fold m in Hset.
  assert (Hdec : forall b, ace_decides k gm x b = if Z.testbit m b then
      (if sa_type x =? ACCESS_ALLOWED_ACE_TYPE then Some true
       else if sa_type x =? ACCESS_DENIED_ACE_TYPE then Some false else None) else None)
    by (intros b; unfold ace_decides; fold m; by rewrite Hmem).
  destruct (sa_type x =? ACCESS_ALLOWED_ACE_TYPE) eqn:Et; [|destruct (sa_type x =? ACCESS_DENIED_ACE_TYPE) eqn:Et2].
  - destruct (IH (Z.lor g (Z.land m w)) (Z.ldiff w (Z.lor g (Z.land m w)))) as (I1 & I2 & I3).
    replace (Z.lor (Z.lor g (Z.land m w)) _) with (Z.lor g w) in I1, I2 by zbits.
    split_and!; [|intros g' E; destruct (I2 g' E) as [-> Hall]; split; [done|]|done].
    + intros Ha. apply I1. intros b Hb. rewrite Z.ldiff_spec, Z.lor_spec, Z.land_spec. intros Hwb. specialize (Ha b Hb).
      cbn [decide_right] in Ha. rewrite Hdec in Ha. destruct (Z.testbit w b), (Z.testbit g b), (Z.testbit m b); try done. by apply Ha.
    + intros b Hb Hwb. specialize (Hall b Hb). rewrite Z.ldiff_spec, Z.lor_spec, Z.land_spec, Hwb in Hall. cbn [decide_right]. rewrite Hdec.
      destruct (Z.testbit g b), (Z.testbit m b); auto.
  - split_and!; [|done|eauto 8]. intros Ha. exfalso. unfold IsSetFlag in Hset. bool_hyps. apply Hset.
    apply Z.bits_inj'. intros b Hb. rewrite Z.land_spec, Z.bits_0. specialize (Ha b Hb). cbn [decide_right] in Ha.
    rewrite Hdec in Ha. destruct (Z.testbit w b), (Z.testbit m b); try done. by specialize (Ha eq_refl).
  - apply Hskip. intros b _ _. rewrite Hdec. by destruct (Z.testbit m b).
Qed.

Definition allows (r : option bool) : bool := bool_decide (r = Some true).
(** With [MAXIMUM_ALLOWED] the loop visits every ACE and grants what the DACL
    allows; the desired rights it leaves are not decided by the DACL, and those that
    it takes away are decided or have been granted before. *)
Lemma eval_aces_max k gm xs : forall g d w, disjoint_masks d w ->
  exists g' w', eval_aces k gm true xs g d w = (STATUS_SUCCESS, g', w') /\
  forall b, 0 <= b ->
    Z.testbit g' b = Z.testbit g b || (negb (Z.testbit d b) && allows (decide_right k gm xs b)) /\
    (Z.testbit w' b = true -> Z.testbit w b = true /\ decide_right k gm xs b = None) /\
    (Z.testbit w b = true -> Z.testbit w' b = true \/ Z.testbit g b = true \/ decide_right k gm xs b <> None).
Proof.
  induction xs as [|x xs IH]; intros g d w Hd.
  { exists g, w. split; [done|]. intros b Hb. cbn. rewrite andb_false_r, orb_false_r. auto. }
  cbn [eval_aces orb decide_right andb]. unfold ace_decides. set (m := RtlMapGenericMask (sa_mask x) gm).
  destruct (member k (sa_sid x)); rewrite ?andb_true_r, ?andb_false_r; [|by apply IH]. cbn [andb].
  destruct (sa_type x =? ACCESS_ALLOWED_ACE_TYPE).
  - destruct (IH (Z.lor g (Z.ldiff m d)) d (Z.ldiff w (Z.lor g (Z.ldiff m d)))) as (g' & w' & -> & Hb').
    + intros b Hb Hdb. rewrite Z.ldiff_spec, (Hd b Hb Hdb). done.
    + exists g', w'. split; [done|]. intros b Hb. destruct (Hb' b Hb) as (-> & Hl & Hr).
      rewrite Z.ldiff_spec, Z.lor_spec, Z.ldiff_spec in *. specialize (Hd b Hb).
      destruct (Z.testbit w b), (Z.testbit w' b), (Z.testbit g b), (Z.testbit m b), (Z.testbit d b); cbn in *; rewrite ?orb_false_r in *; intuition congruence.
  - destruct (sa_type x =? ACCESS_DENIED_ACE_TYPE).
    + destruct (IH g (Z.lor d m) (Z.ldiff w (Z.lor d m))) as (g' & w' & -> & Hb').
      * intros b Hb. rewrite Z.ldiff_spec. intros ->. apply andb_false_r.
      * exists g', w'. split; [done|]. intros b Hb. destruct (Hb' b Hb) as (-> & Hl & Hr).
        rewrite Z.ldiff_spec, !Z.lor_spec in *. specialize (Hd b Hb).
        destruct (Z.testbit w b), (Z.testbit w' b), (Z.testbit g b), (Z.testbit m b), (Z.testbit d b); cbn in *; rewrite ?orb_false_r in *; intuition congruence.
    + destruct (IH g d w Hd) as (g' & w' & -> & Hb'). exists g', w'. split; [done|]. intros b Hb.
      destruct (Z.testbit m b); by apply Hb'.
Qed.

(** ** Generic rights *)

(** A mapping to specific and standard rights only. *)
Definition mapping_ok (gm : GENERIC_MAPPING) : Prop :=
  Forall (fun m => LW_IS_VALID_FLAGS m (Z.lor STANDARD_RIGHTS_ALL SPECIFIC_RIGHTS_ALL) = true)
    [GenericRead gm; GenericWrite gm; GenericExecute gm; GenericAll gm].

Definition generic_bits : Z := Z.lor (Z.lor GENERIC_READ GENERIC_WRITE) (Z.lor GENERIC_EXECUTE GENERIC_ALL).

Lemma map_single_spec m f s b :
  0 <= b -> Z.testbit (RtlpMapGenericMaskSingleFlag m f s) b =
  (Z.testbit m b && negb (Z.testbit f b)) || (IsSetFlag m f && Z.testbit s b).
Proof.
  intros Hb. unfold RtlpMapGenericMaskSingleFlag, SetFlag, ClearFlag. destruct (IsSetFlag m f) eqn:E.
  - rewrite Z.lor_spec, Z.ldiff_spec. done.
  - cbn [andb]. rewrite orb_false_r. destruct (Z.testbit m b) eqn:Em; [|done].
    by rewrite (not_set_flag m f b E Em).
Qed.

Lemma valid_flags_bit f m b : LW_IS_VALID_FLAGS f m = true -> 0 <= b -> Z.testbit m b = false -> Z.testbit f b = false.
Proof.
  rewrite valid_flags_land. intros E Hb Hm. rewrite <- E, Z.land_spec, Hm. apply andb_false_r.
Qed.

Lemma map_single_bit m i s b :
  0 <= i -> 0 <= b -> Z.testbit (RtlpMapGenericMaskSingleFlag m (2 ^ i) s) b =
  (Z.testbit m b && negb (i =? b)) || (Z.testbit m i && Z.testbit s b).
Proof. intros Hi Hb. rewrite map_single_spec, IsSetFlag_bit, Z.pow2_bits_eqb by done. done. Qed.

(** A generic bit is not touched by the mapping of another one. *)
Lemma map_single_keep m i s j :
  LW_IS_VALID_FLAGS s (Z.lor STANDARD_RIGHTS_ALL SPECIFIC_RIGHTS_ALL) = true ->
  28 <= i <= 31 -> 28 <= j <= 31 -> i <> j ->
  Z.testbit (RtlpMapGenericMaskSingleFlag m (2 ^ i) s) j = Z.testbit m j.
Proof.
  intros Hs Hi Hj Hij. rewrite map_single_bit by lia. destruct (Z.eqb_spec i j); [done|].
  rewrite (valid_flags_bit s _ j Hs), andb_false_r, orb_false_r, andb_true_r; [done|lia|].
  assert (j = 28 \/ j = 29 \/ j = 30 \/ j = 31) as [-> | [-> | [-> | ->]]] by lia; done.
Qed.

Lemma generic_bits_spec b : 0 <= b ->
  Z.testbit generic_bits b = (31 =? b) || (30 =? b) || (29 =? b) || (28 =? b).
Proof.
  intros Hb. unfold generic_bits. rewrite !Z.lor_spec. change GENERIC_READ with (2 ^ 31).
  change GENERIC_WRITE with (2 ^ 30). change GENERIC_EXECUTE with (2 ^ 29). change GENERIC_ALL with (2 ^ 28).
  rewrite !Z.pow2_bits_eqb by lia. by rewrite !orb_assoc.
Qed.

Lemma map_mask_spec gm m b :
  mapping_ok gm -> 0 <= b ->
  Z.testbit (RtlMapGenericMask m gm) b =
  (Z.testbit m b && negb (Z.testbit generic_bits b)) ||
  (Z.testbit m 31 && Z.testbit (GenericRead gm) b) || (Z.testbit m 30 && Z.testbit (GenericWrite gm) b) ||
  (Z.testbit m 29 && Z.testbit (GenericExecute gm) b) || (Z.testbit m 28 && Z.testbit (GenericAll gm) b).
Proof.
  intros Hok Hb. unfold mapping_ok in Hok. rewrite !Forall_cons_iff in Hok. destruct Hok as (H1 & H2 & H3 & H4 & _).
  assert (Hnb : forall s, LW_IS_VALID_FLAGS s (Z.lor STANDARD_RIGHTS_ALL SPECIFIC_RIGHTS_ALL) = true ->
    Z.testbit generic_bits b = true -> Z.testbit s b = false).
  { intros s Hs Hgb. apply (valid_flags_bit s _ b Hs Hb). rewrite generic_bits_spec in Hgb by done.
    rewrite !orb_true_iff, !Z.eqb_eq in Hgb. destruct Hgb as [[[<- | <-] | <-] | <-]; done. }
  unfold RtlMapGenericMask. change GENERIC_READ with (2 ^ 31). change GENERIC_WRITE with (2 ^ 30).
  change GENERIC_EXECUTE with (2 ^ 29). change GENERIC_ALL with (2 ^ 28).
  rewrite (map_single_bit _ 28), (map_single_bit _ 29), (map_single_bit _ 30), (map_single_bit _ 31) by lia.
  rewrite !map_single_keep by (done || lia). rewrite generic_bits_spec in * by done.
  destruct (31 =? b) eqn:E31, (30 =? b) eqn:E30, (29 =? b) eqn:E29, (28 =? b) eqn:E28; bool_hyps; try lia;
    cbn [orb negb] in *; rewrite ?andb_false_r, ?andb_true_r, ?orb_false_r; try done;
    rewrite !Hnb by done; by rewrite ?andb_false_r, ?orb_false_r.
Qed.

(** ** The rights decided before the DACL *)

(** The granted and the desired access after the tests for administrators and
    for the owner. *)
Definition before_dacl (max admin own : bool) (g w : Z) : Z * Z :=
  let '(g, w) := if admin && (max || IsSetFlag w ACCESS_SYSTEM_SECURITY)
                 then (Z.lor g ACCESS_SYSTEM_SECURITY, Z.ldiff w ACCESS_SYSTEM_SECURITY) else (g, w) in
  let '(g, w) := if admin && (max || IsSetFlag w WRITE_OWNER)
                 then (Z.lor g WRITE_OWNER, Z.ldiff w WRITE_OWNER) else (g, w) in
  if own && (max || IsSetFlag w (Z.lor READ_CONTROL WRITE_DAC)) then
    let w := if max then Z.lor w (Z.lor READ_CONTROL WRITE_DAC) else w in
    let g := Z.lor g (Z.land (Z.lor READ_CONTROL WRITE_DAC) w) in
    (g, Z.ldiff w g)
  else (g, w).

Lemma access_check_body_spec sd T k owner so buf max gm g w :
  token_at T k -> sid_at host owner so -> zlen buf = 68 ->
  let admin := member k sid_admins in
  access_check_body sd T owner buf max gm g w =
  if member k sid_system then Some (STATUS_SUCCESS, grant_all max gm g w, 0)
  else if IsSetFlag w ACCESS_SYSTEM_SECURITY && negb admin then Some (STATUS_PRIVILEGE_NOT_HELD, g, w)
  else
    let '(g, w) := before_dacl max admin (member k so) g w in
    match sd_Dacl sd with
    | None => Some (STATUS_SUCCESS, grant_all max gm g w, 0)
    | Some dacl =>
        '(valid, used) ← RtlValidAcl (Some dacl);
        if negb valid then Some (STATUS_INVALID_ACL, g, w)
        else
          '(st, g, w) ← access_loop (Z.to_nat used) T gm max dacl used 0 g 0 w;
          if negb (is_ok st) then Some (st, g, w)
          else Some (if w =? 0 then STATUS_SUCCESS else STATUS_ACCESS_DENIED, g, w)
    end.
Proof.
  intros HT Ho Hb admin. unfold access_check_body.
  destruct (well_known_local_spec WinLocalSystemSid sid_system buf) as (b1 & -> & Hb1 & Hz1); [done|done|].
  bsimpl. cbn [is_ok negb]. rewrite (RtlIsSidMemberOfToken_spec T k _ _ HT Hb1). bsimpl.
  destruct (member k sid_system); [done|].
  destruct (well_known_local_spec WinBuiltinAdministratorsSid sid_admins b1) as (b2 & Hk2 & Hb2 & Hz2); [done|done|].
  destruct (well_known_local_spec WinBuiltinAdministratorsSid sid_admins b2) as (b3 & Hk3 & Hb3 & _); [done|done|].
  pose proof (RtlIsSidMemberOfToken_spec T k _ _ HT Hb2) as Hm2. pose proof (RtlIsSidMemberOfToken_spec T k _ _ HT Hb3) as Hm3.
  rewrite Hk2. unfold before_dacl. fold admin in Hm2, Hm3.
  destruct (max || IsSetFlag w ACCESS_SYSTEM_SECURITY) eqn:E1; okstep.
  - rewrite Hm2. okstep. destruct admin; cbn [andb negb]; rewrite ?andb_false_r, ?andb_true_r.
    + okstep. unfold SetFlag, ClearFlag. rewrite Hk3.
      destruct (max || IsSetFlag _ WRITE_OWNER); okstep; rewrite ?Hm3; okstep;
        rewrite (RtlIsSidMemberOfToken_spec T k _ _ HT Ho); okstep;
        destruct (max || IsSetFlag _ (Z.lor READ_CONTROL WRITE_DAC)), (member k so); done.
    + destruct (IsSetFlag w ACCESS_SYSTEM_SECURITY); [done|]. okstep. unfold SetFlag, ClearFlag. rewrite Hk3.
      destruct (max || IsSetFlag _ WRITE_OWNER); okstep; rewrite ?Hm3; okstep;
        rewrite (RtlIsSidMemberOfToken_spec T k _ _ HT Ho); okstep;
        destruct (max || IsSetFlag _ (Z.lor READ_CONTROL WRITE_DAC)), (member k so); done.
  - apply orb_false_iff in E1 as [-> E1]. rewrite E1, ?andb_false_r. okstep. rewrite Hk2. unfold SetFlag, ClearFlag.
    cbn [andb]. destruct (false || IsSetFlag _ WRITE_OWNER); okstep; rewrite ?Hm2; okstep;
      destruct admin; cbn [andb]; okstep;
      rewrite (RtlIsSidMemberOfToken_spec T k _ _ HT Ho); okstep;
      destruct (false || IsSetFlag _ (Z.lor READ_CONTROL WRITE_DAC)), (member k so); done.
Qed.

Lemma set_single v i : 0 <= i -> IsSetFlag v (2 ^ i) = true -> Z.land v (2 ^ i) = 2 ^ i.
Proof.
  intros Hi. rewrite IsSetFlag_bit by done. intros E. apply Z.bits_inj'. intros b Hb.
  rewrite Z.land_spec, Z.pow2_bits_eqb by done. destruct (Z.eqb_spec i b) as [<-|]; [by rewrite E|].
  apply andb_false_r.
Qed.

(** The desired rights that are implicit are granted and no longer desired; where the
    owner asks for rights of an owner, so are those that have been granted before. *)
Lemma before_dacl_spec max admin own g w :
  let '(g', w') := before_dacl max admin own g w in
  let i := implicit_rights admin own in
  g' = Z.lor g (if max then i else Z.land i w) /\ (w' = Z.ldiff w i \/ w' = Z.ldiff (Z.ldiff w i) g).
Proof.
  unfold before_dacl, implicit_rights.
  assert (Hnw : forall v f, IsSetFlag v f = false -> Z.land v f = 0)
    by (intros v f E; unfold IsSetFlag in E; bool_hyps; done).
  pose proof (fun v => set_single v 24 ltac:(lia)) as S1. change (2 ^ 24) with ACCESS_SYSTEM_SECURITY in S1.
  pose proof (fun v => set_single v 19 ltac:(lia)) as S2. change (2 ^ 19) with WRITE_OWNER in S2.
  assert (D1 : Z.land ACCESS_SYSTEM_SECURITY WRITE_OWNER = 0) by done.
  assert (D2 : Z.land ACCESS_SYSTEM_SECURITY (Z.lor READ_CONTROL WRITE_DAC) = 0) by done.
  assert (D3 : Z.land WRITE_OWNER (Z.lor READ_CONTROL WRITE_DAC) = 0) by done.
  set (ass := ACCESS_SYSTEM_SECURITY) in *. set (wo := WRITE_OWNER) in *. set (rw := Z.lor READ_CONTROL WRITE_DAC) in *.
  clearbody ass wo rw. destruct max; cbn [orb]; rewrite ?andb_true_r.
  - destruct admin, own; cbn; (split; [zbits|]); first [left; zbits; fail|right; zbits].
  - destruct admin; cbn [andb].
    + destruct (IsSetFlag w ass) eqn:E1; [apply S1 in E1|apply Hnw in E1];
        match goal with |- context [IsSetFlag ?v wo] => destruct (IsSetFlag v wo) eqn:E2; [apply S2 in E2|apply Hnw in E2] end;
        match goal with |- context [IsSetFlag ?v rw] => destruct (IsSetFlag v rw) eqn:E3; [|apply Hnw in E3] end;
        destruct own; cbn [andb]; (split; [zbits|]); first [left; zbits; fail|right; zbits].
    + destruct (IsSetFlag w rw) eqn:E3; [|apply Hnw in E3]; destruct own; cbn [andb]; (split; [zbits|]); first [left; zbits; fail|right; zbits].
Qed.

(** ** Validity of the granted access *)

Lemma valid_flags_bits f m : LW_IS_VALID_FLAGS f m = true <-> forall b, 0 <= b -> Z.testbit f b = true -> Z.testbit m b = true.
Proof.
  rewrite valid_flags_land. split.
  - intros E b Hb. rewrite <- E, Z.land_spec. destruct (Z.testbit f b), (Z.testbit m b); done.
  - intros Hi. apply Z.bits_inj'. intros b Hb. rewrite Z.land_spec. specialize (Hi b Hb).
    destruct (Z.testbit f b); [by rewrite Hi|done].
Qed.

Lemma valid_flags_trans f m n : LW_IS_VALID_FLAGS f m = true -> LW_IS_VALID_FLAGS m n = true -> LW_IS_VALID_FLAGS f n = true.
Proof. rewrite !valid_flags_bits. auto. Qed.

Lemma valid_flags_lor f g m :
  LW_IS_VALID_FLAGS f m = true -> LW_IS_VALID_FLAGS g m = true -> LW_IS_VALID_FLAGS (Z.lor f g) m = true.
Proof. rewrite !valid_flags_land. intros. zbits. Qed.

(** Mapping stays within any mask that has all specific and standard rights. *)
Lemma map_mask_within gm m M :
  mapping_ok gm -> LW_IS_VALID_FLAGS (Z.lor STANDARD_RIGHTS_ALL SPECIFIC_RIGHTS_ALL) M = true -> LW_IS_VALID_FLAGS m M = true ->
  LW_IS_VALID_FLAGS (RtlMapGenericMask m gm) M = true.
Proof.
  intros Hok Hle Hm. rewrite (valid_flags_bits _ M). rewrite (valid_flags_bits m) in Hm. intros b Hb. rewrite map_mask_spec by done.
  unfold mapping_ok in Hok. rewrite !Forall_cons_iff in Hok. destruct Hok as (H1 & H2 & H3 & H4 & _).
  pose proof (valid_flags_trans _ _ _ H1 Hle) as V1. pose proof (valid_flags_trans _ _ _ H2 Hle) as V2.
  pose proof (valid_flags_trans _ _ _ H3 Hle) as V3. pose proof (valid_flags_trans _ _ _ H4 Hle) as V4.
  rewrite valid_flags_bits in V1, V2, V3, V4. rewrite !orb_true_iff, !andb_true_iff. intros [[[[[? _]|[_ ?]]|[_ ?]]|[_ ?]]|[_ ?]]; auto.
Qed.

(** Mapping a mask of valid rights gives valid rights. *)
Lemma map_mask_valid gm m :
  mapping_ok gm -> LW_IS_VALID_FLAGS m VALID_GRANTED_ACCESS_MASK = true ->
  LW_IS_VALID_FLAGS (RtlMapGenericMask m gm) VALID_GRANTED_ACCESS_MASK = true.
Proof. intros. by apply map_mask_within. Qed.

Lemma clear_max_valid w :
  LW_IS_VALID_FLAGS w VALID_DESIRED_ACCESS_MASK = true ->
  LW_IS_VALID_FLAGS (ClearFlag w MAXIMUM_ALLOWED) VALID_GRANTED_ACCESS_MASK = true.
Proof.
  rewrite !valid_flags_land. unfold ClearFlag. intros E.
  assert (E2 : Z.ldiff VALID_DESIRED_ACCESS_MASK MAXIMUM_ALLOWED = VALID_GRANTED_ACCESS_MASK) by done.
  rewrite <- E2. zbits.
Qed.
End Lemmas.

(** * Properties *)

Section Properties.
Context `{Host}.

(** [RtlIsSidMemberOfToken] is TRUE exactly for the user's SID and for the
    SIDs of the groups that are enabled in the token. *)
Theorem RtlIsSidMemberOfToken_correct T k q s :
  token_at T k -> sid_at host q s ->
  exists b, RtlIsSidMemberOfToken T q = Some b /\
    (b = true <-> s = tk_user k \/ exists attr, (s, attr) ∈ tk_groups k /\ IsSetFlag attr SE_GROUP_ENABLED = true).
Proof.
  intros HT Hq. exists (member k s). split; [by apply RtlIsSidMemberOfToken_spec|].
  unfold member. rewrite orb_true_iff, bool_decide_eq_true, existsb_exists. f_equiv. split.
  - intros ([g attr] & Hin & Hb). bool_hyps. apply bool_decide_eq_true in H1 as <-.
    exists attr. split; [by apply list_elem_of_In|done].
  - intros (attr & Hin & Ha). exists (s, attr). split; [by apply list_elem_of_In|].
    rewrite Ha. cbn. by apply bool_decide_eq_true.
Qed.

(** [RtlMapGenericMask], with a mapping to specific and standard rights,
    replaces each generic right of the mask by the rights it is mapped to and
    keeps the others; no generic right is left. *)
Theorem RtlMapGenericMask_correct gm m b :
  mapping_ok gm -> 0 <= b ->
  (Z.testbit (RtlMapGenericMask m gm) b = true <->
   (Z.testbit m b = true /\ Z.testbit generic_bits b = false) \/
   (IsSetFlag m GENERIC_READ = true /\ Z.testbit (GenericRead gm) b = true) \/
   (IsSetFlag m GENERIC_WRITE = true /\ Z.testbit (GenericWrite gm) b = true) \/
   (IsSetFlag m GENERIC_EXECUTE = true /\ Z.testbit (GenericExecute gm) b = true) \/
   (IsSetFlag m GENERIC_ALL = true /\ Z.testbit (GenericAll gm) b = true)) /\
  Z.land (RtlMapGenericMask m gm) generic_bits = 0.
Proof.
  intros Hok Hb. split.
  - rewrite map_mask_spec by done. change GENERIC_READ with (2 ^ 31). change GENERIC_WRITE with (2 ^ 30).
    change GENERIC_EXECUTE with (2 ^ 29). change GENERIC_ALL with (2 ^ 28). rewrite !IsSetFlag_bit by lia.
    rewrite !orb_true_iff, !andb_true_iff, negb_true_iff. tauto.
  - apply Z.bits_inj'. intros c Hc. rewrite Z.land_spec, Z.bits_0, map_mask_spec by done.
    destruct (Z.testbit generic_bits c) eqn:Eg; [|apply andb_false_r]. cbn [negb]. rewrite andb_false_r, andb_true_r. cbn [orb].
    unfold mapping_ok in Hok. rewrite !Forall_cons_iff in Hok. destruct Hok as (H1 & H2 & H3 & H4 & _).
    assert (Hn : Z.testbit (Z.lor STANDARD_RIGHTS_ALL SPECIFIC_RIGHTS_ALL) c = false).
    { rewrite generic_bits_spec in Eg by done. rewrite !orb_true_iff, !Z.eqb_eq in Eg.
      destruct Eg as [[[<- | <-] | <-] | <-]; done. }
    rewrite (valid_flags_bit _ _ c H1 Hc Hn), (valid_flags_bit _ _ c H2 Hc Hn), (valid_flags_bit _ _ c H3 Hc Hn),
      (valid_flags_bit _ _ c H4 Hc Hn), !andb_false_r. done.
Qed.

Section Check.
Context (T : ACCESS_TOKEN) (k : tok) (HT : token_at T k).
Context (sd : SECURITY_DESCRIPTOR_ABSOLUTE) (owner group : mem) (so : sid).
Context (Howner : sd_Owner sd = Some owner) (Hgroup : sd_Group sd = Some group) (Hso : sid_at host owner so).
Context (gm : GENERIC_MAPPING) (Hgm : mapping_ok gm) (buf : mem) (Hbuf : zlen buf = 68).
Context (desired prev : Z) (Hdes : LW_IS_VALID_FLAGS desired VALID_DESIRED_ACCESS_MASK = true).
Context (Hprev : LW_IS_VALID_FLAGS prev VALID_GRANTED_ACCESS_MASK = true).

(** The rights asked for, generic rights mapped. *)
Definition asked : Z := RtlMapGenericMask (ClearFlag desired MAXIMUM_ALLOWED) gm.

Definition check : option (bool * Z * Z * NTSTATUS) :=
  RtlAccessCheckEx (Some sd) (Some T) desired prev (Some gm) buf.

Lemma asked_valid : LW_IS_VALID_FLAGS asked VALID_GRANTED_ACCESS_MASK = true.
Proof using Hdes Hgm. by apply map_mask_valid, clear_max_valid. Qed.

Lemma check_unfold :
  check = access_check_cleanup prev <$>
          access_check_body sd T owner buf (IsSetFlag desired MAXIMUM_ALLOWED) gm prev asked.
Proof using Howner Hgroup Hdes Hprev.
  unfold check, RtlAccessCheckEx. rewrite Hdes, Hprev, Howner, Hgroup. done.
Qed.

Lemma cleanup_ok g w :
  LW_IS_VALID_FLAGS g VALID_GRANTED_ACCESS_MASK = true ->
  access_check_cleanup prev (STATUS_SUCCESS, g, w) = (true, w, g, STATUS_SUCCESS).
Proof. intros Hg. unfold access_check_cleanup. by rewrite Hg. Qed.

(** The rights of SYSTEM, and of anyone when there is no DACL. *)
Lemma grant_all_valid max g w :
  LW_IS_VALID_FLAGS g VALID_GRANTED_ACCESS_MASK = true -> LW_IS_VALID_FLAGS w VALID_GRANTED_ACCESS_MASK = true ->
  LW_IS_VALID_FLAGS (grant_all max gm g w) VALID_GRANTED_ACCESS_MASK = true.
Proof using Hgm.
  intros Hg Hw. unfold grant_all, SetFlag. apply valid_flags_lor; [done|]. destruct max; [|done].
  apply map_mask_valid; [done|]. by repeat apply valid_flags_lor.
Qed.

(** a token of SYSTEM is granted everything it asks for, whatever the
    security descriptor says, and with [MAXIMUM_ALLOWED] also the standard
    rights and the rights [GENERIC_ALL] maps to. *)
Theorem access_check_system :
  member k sid_system = true ->
  exists granted, check = Some (true, 0, granted, STATUS_SUCCESS) /\
    granted = Z.lor prev (if IsSetFlag desired MAXIMUM_ALLOWED
                          then RtlMapGenericMask (Z.lor (Z.lor asked STANDARD_RIGHTS_ALL) GENERIC_ALL) gm else asked).
Proof using HT Hso Howner Hgroup Hdes Hprev Hgm Hbuf.
  intros Hs. rewrite check_unfold, (access_check_body_spec sd T k owner so) by done. rewrite Hs. cbn [fmap option_fmap option_map].
  rewrite cleanup_ok by (apply grant_all_valid; [done|apply asked_valid]). eexists. split; [done|]. unfold grant_all.
  destruct (IsSetFlag desired MAXIMUM_ALLOWED); done.
Qed.

Definition implicit : Z := implicit_rights (member k sid_admins) (member k so).

(** The rights left to the DACL: those asked for that are not implicit, with or without
    those that have been granted before. *)
Definition left_to_dacl (w : Z) : Prop := w = Z.ldiff asked implicit \/ w = Z.ldiff (Z.ldiff asked implicit) prev.

Lemma left_in w b : left_to_dacl w -> 0 <= b -> Z.testbit w b = true -> Z.testbit asked b = true /\ Z.testbit implicit b = false.
Proof using. intros [-> | ->] Hb; rewrite !Z.ldiff_spec, !andb_true_iff, !negb_true_iff; tauto. Qed.

Lemma left_out w b : left_to_dacl w -> 0 <= b -> Z.testbit asked b = true -> Z.testbit w b = true \/ Z.testbit prev b = true \/ Z.testbit implicit b = true.
Proof using. intros [-> | ->] Hb Ha; rewrite !Z.ldiff_spec, Ha; destruct (Z.testbit implicit b), (Z.testbit prev b); auto. Qed.

Lemma left_granted w : left_to_dacl w -> Z.lor (Z.lor prev (Z.land implicit asked)) w = Z.lor prev asked.
Proof using. clear. unfold left_to_dacl. set (i := implicit). set (a := asked). clearbody i a. intros [-> | ->]; zbits. Qed.

(** The DACL: absent, or a list of ACEs of the common layout. *)
Definition dacl_at (dacl : option (list std_ace)) : Prop :=
  match dacl with
  | None => sd_Dacl sd = None
  | Some xs => exists p rev size, sd_Dacl sd = Some p /\ acl_at p (std_acl rev size xs) /\ Forall std_wf xs
  end.

(** A right that the token may have: SYSTEM every one, everybody every one when there
    is no DACL, and otherwise what is implicit or what the first ACE that decides the
    right allows. *)
Definition entitled (dacl : option (list std_ace)) (b : Z) : Prop :=
  member k sid_system = true \/ dacl = None \/ Z.testbit implicit b = true \/
  exists xs, dacl = Some xs /\ decide_right k gm xs b = Some true.

Section Dacl.
Context (Hsys : member k sid_system = false).
Context (p : mem) (rev size : Z) (xs : list std_ace) (Hdacl : sd_Dacl sd = Some p).
Context (Hat : acl_at p (std_acl rev size xs)) (Hxs : Forall std_wf xs).

(** The check is the evaluation of the list of ACEs on the rights that are not implicit. *)
Lemma check_dacl : exists w0, left_to_dacl w0 /\
  check = Some (access_check_cleanup prev
    (if IsSetFlag asked ACCESS_SYSTEM_SECURITY && negb (member k sid_admins)
     then (STATUS_PRIVILEGE_NOT_HELD, prev, asked)
     else
       let max := IsSetFlag desired MAXIMUM_ALLOWED in
       let '(st, g, w) := eval_aces k gm max xs (Z.lor prev (if max then implicit else Z.land implicit asked)) 0 w0 in
       if negb (is_ok st) then (st, g, w) else (if w =? 0 then STATUS_SUCCESS else STATUS_ACCESS_DENIED, g, w))).
Proof using HT Hso Howner Hgroup Hdes Hprev Hbuf Hsys Hdacl Hat Hxs.
  rewrite check_unfold, (access_check_body_spec sd T k owner so) by done. rewrite Hsys.
  destruct (IsSetFlag asked ACCESS_SYSTEM_SECURITY && _); [eexists; split; [by left|done]|].
  pose proof (before_dacl_spec (IsSetFlag desired MAXIMUM_ALLOWED) (member k sid_admins) (member k so) prev asked) as Hbd.
  destruct (before_dacl _ _ _ _ _) as [g w0]. destruct Hbd as [-> Hw0]. fold implicit in *. exists w0. split; [done|]. rewrite Hdacl.
  rewrite (RtlValidAcl_complete p _ Hat). bsimpl. cbn [negb].
  rewrite (access_loop_all p rev size xs T k gm _ _ _ Hat Hxs HT). bsimpl. cbv zeta.
  destruct (eval_aces _ _ _ _ _ _ _) as [[st g] w]. destruct (is_ok st); done.
Qed.

(** The check with a DACL and without [MAXIMUM_ALLOWED]. *)
Lemma check_dacl_strict :
  IsSetFlag desired MAXIMUM_ALLOWED = false -> IsSetFlag asked ACCESS_SYSTEM_SECURITY && negb (member k sid_admins) = false ->
  exists ok rem granted st, check = Some (ok, rem, granted, st) /\
    ((forall b, 0 <= b -> Z.testbit asked b = true -> Z.testbit implicit b = true \/ decide_right k gm xs b = Some true) -> ok = true) /\
    (ok = true -> forall b, 0 <= b -> Z.testbit asked b = true ->
       Z.testbit prev b = true \/ Z.testbit implicit b = true \/ decide_right k gm xs b = Some true) /\
    (ok = true -> granted = Z.lor prev asked /\ rem = 0 /\ st = STATUS_SUCCESS) /\
    (ok = false -> granted = prev /\ st = STATUS_ACCESS_DENIED).
Proof using HT Hso Howner Hgroup Hgm Hdes Hprev Hbuf Hsys Hdacl Hat Hxs.
  intros Hmax Hass. destruct check_dacl as (w0 & Hw0 & ->). rewrite Hmax, Hass. cbv zeta iota.
  destruct (eval_aces_strict k gm xs (Z.lor prev (Z.land implicit asked)) w0) as (Hyes & Hno & st & g & w & He & Hst).
  rewrite He in Hyes, Hno |- *. rewrite left_granted in Hyes, Hno by done.
  assert (Hall : (forall b, 0 <= b -> Z.testbit asked b = true -> Z.testbit implicit b = true \/ decide_right k gm xs b = Some true) -> st = STATUS_SUCCESS /\ w = 0).
  { intros Ha. assert (Hal : all_allowed k gm xs w0).
    { intros b Hb Hwb. destruct (left_in w0 b Hw0 Hb Hwb) as [Hab Hi]. destruct (Ha b Hb Hab); [congruence|done]. }
    by apply Hyes in Hal as [= -> -> ->]. }
  assert (Hdone : is_ok st && (w =? 0) = true -> g = Z.lor prev asked /\ forall b, 0 <= b -> Z.testbit asked b = true ->
       Z.testbit prev b = true \/ Z.testbit implicit b = true \/ decide_right k gm xs b = Some true).
  { intros [Ek Ew]%andb_true_iff. apply is_ok_true in Ek as ->. apply Z.eqb_eq in Ew as ->. destruct (Hno g eq_refl) as [-> Hb']. split; [done|].
    intros b Hb Hab. destruct (left_out w0 b Hw0 Hb Hab) as [Hwb|[Hp|Hi]]; [|by left|by right; left].
    destruct (Hb' b Hb Hwb) as [Hg|Hx]; [|by right; right]. rewrite Z.lor_spec, Z.land_spec in Hg.
    apply orb_true_iff in Hg as [Hg|Hg]; [by left|]. apply andb_true_iff in Hg as [Hg _]. by right; left. }
  destruct (is_ok st) eqn:Ek; cbn [negb andb] in *.
  - apply is_ok_true in Ek as ->. destruct (Z.eqb_spec w 0) as [->|Hw].
    + destruct Hdone as [-> Hb']; [done|]. rewrite cleanup_ok by (apply valid_flags_lor; [done|apply asked_valid]). by do 4 eexists.
    + do 4 eexists. split; [done|]. cbn. split_and!; try done. intros Ha. by destruct (Hall Ha).
  - destruct Hst as [-> | ->]; [done|]. do 4 eexists. split; [done|]. cbn. split_and!; try done. intros Ha. by destruct (Hall Ha).
Qed.

(** Every right the DACL allows is valid. *)
Lemma decide_valid b :
  Forall std_valid xs -> 0 <= b -> decide_right k gm xs b = Some true -> Z.testbit VALID_GRANTED_ACCESS_MASK b = true.
Proof using Hgm.
  clear -Hgm. intros Hv Hb. induction Hv as [|x xs' Hx Hv IH]; [done|]. cbn [decide_right]. unfold ace_decides at 1.
  destruct (member k (sa_sid x)); [|exact IH]. cbn [andb].
  destruct (Z.testbit (RtlMapGenericMask (sa_mask x) gm) b) eqn:Em; [|exact IH]. intros _. revert Em.
  assert (Hok : LW_IS_VALID_FLAGS (sa_mask x) VALID_GRANTED_ACCESS_MASK = true).
  { destruct Hx as (_ & _ & Hm). eapply valid_flags_trans; [exact Hm|]. destruct (sa_type x =? SYSTEM_AUDIT_ACE_TYPE); done. }
  pose proof (map_mask_valid gm _ Hgm Hok) as Hmv. rewrite valid_flags_bits in Hmv. by apply Hmv.
Qed.

End Dacl.

(** a security descriptor without a DACL grants a token that is not
    SYSTEM's everything it asks for, but [ACCESS_SYSTEM_SECURITY] to none but
    administrators. *)
Theorem access_check_no_dacl :
  member k sid_system = false -> sd_Dacl sd = None -> IsSetFlag desired MAXIMUM_ALLOWED = false ->
  check = Some (if IsSetFlag asked ACCESS_SYSTEM_SECURITY && negb (member k sid_admins)
                then (false, asked, prev, STATUS_PRIVILEGE_NOT_HELD)
                else (true, 0, Z.lor prev asked, STATUS_SUCCESS)).
Proof using HT Hso Howner Hgroup Hgm Hdes Hprev Hbuf.
  intros Hsys Hno Hmax. rewrite check_unfold, (access_check_body_spec sd T k owner so) by done. rewrite Hsys, Hmax, Hno.
  destruct (IsSetFlag asked ACCESS_SYSTEM_SECURITY && _); [done|].
  pose proof (before_dacl_spec false (member k sid_admins) (member k so) prev asked) as Hbd.
  destruct (before_dacl _ _ _ _ _) as [g w]. destruct Hbd as [-> Hw]. fold implicit in *. unfold grant_all, SetFlag.
  cbn [fmap option_fmap option_map]. rewrite left_granted by done.
  rewrite cleanup_ok; [done|]. apply valid_flags_lor; [done|apply asked_valid].
Qed.

(** C1: [RtlAccessCheckEx] without [MAXIMUM_ALLOWED], for a descriptor with an owner and
    a group, and no DACL or a DACL of ACEs of the common layout. A token that is not
    SYSTEM's or an administrator's is refused [ACCESS_SYSTEM_SECURITY]. Otherwise the
    check succeeds when the token is entitled to every right that it asks for; when it
    succeeds, the token is entitled to each of them or it was granted before; and when
    none was granted before, it succeeds exactly when the token is entitled to all. On
    success all of them are granted and none is left; on failure the access granted
    does not change. *)
Theorem access_check_strict dacl :
  dacl_at dacl -> IsSetFlag desired MAXIMUM_ALLOWED = false ->
  exists ok rem granted st, check = Some (ok, rem, granted, st) /\
  if negb (member k sid_system) && IsSetFlag asked ACCESS_SYSTEM_SECURITY && negb (member k sid_admins)
  then ok = false /\ granted = prev /\ st = STATUS_PRIVILEGE_NOT_HELD
  else
    ((forall b, 0 <= b -> Z.testbit asked b = true -> entitled dacl b) -> ok = true) /\
    (ok = true -> forall b, 0 <= b -> Z.testbit asked b = true -> Z.testbit prev b = true \/ entitled dacl b) /\
    (Z.land prev asked = 0 -> (ok = true <-> forall b, 0 <= b -> Z.testbit asked b = true -> entitled dacl b)) /\
    (ok = true -> granted = Z.lor prev asked /\ rem = 0 /\ st = STATUS_SUCCESS) /\
    (ok = false -> granted = prev /\ st = STATUS_ACCESS_DENIED).
Proof using HT Hso Howner Hgroup Hgm Hdes Hprev Hbuf.
  intros Hdacl Hmax.
  assert (Hexact : forall ok : bool, (ok = true -> forall b, 0 <= b -> Z.testbit asked b = true -> Z.testbit prev b = true \/ entitled dacl b) ->
    ((forall b, 0 <= b -> Z.testbit asked b = true -> entitled dacl b) -> ok = true) ->
    Z.land prev asked = 0 -> (ok = true <-> forall b, 0 <= b -> Z.testbit asked b = true -> entitled dacl b)).
  { intros ok H1 H2 Hd. rewrite disjoint_land in Hd. split; [|done]. intros Hok b Hb Hab. destruct (H1 Hok b Hb Hab) as [Hp|He]; [|done].
    rewrite (Hd b Hb Hp) in Hab. done. }
  destruct (member k sid_system) eqn:Hsys; cbn [negb andb].
  { destruct (access_check_system Hsys) as (granted & -> & Hg). rewrite Hmax in Hg. assert (He : forall b, entitled dacl b) by (intros b; by left).
    do 4 eexists. split; [done|]. split_and!; try done. intros _ b _ _. by right. }
  destruct dacl as [xs|].
  - destruct Hdacl as (p & rev & size & Hp & Hat & Hxs). destruct (IsSetFlag asked ACCESS_SYSTEM_SECURITY && negb (member k sid_admins)) eqn:Ea.
    { destruct (check_dacl Hsys p rev size xs Hp Hat Hxs) as (w0 & _ & ->). rewrite Ea. cbn. eauto 10. }
    destruct (check_dacl_strict Hsys p rev size xs Hp Hat Hxs Hmax Ea) as (ok & rem & granted & st & -> & H1 & H2 & H3 & H4). exists ok, rem, granted, st. split; [done|].
    assert (E : forall b, entitled (Some xs) b <-> Z.testbit implicit b = true \/ decide_right k gm xs b = Some true).
    { clear -Hsys. intros b. unfold entitled. rewrite Hsys. split; [intros [?|[?|[?|(ys & [= <-] & ?)]]]; auto; done|intros [?|?]; eauto 6]. }
    setoid_rewrite E. setoid_rewrite E in Hexact. split_and!; try done. by apply Hexact.
  - rewrite (access_check_no_dacl Hsys Hdacl Hmax). assert (He : forall b, entitled None b) by (intros b; right; by left).
    destruct (IsSetFlag asked ACCESS_SYSTEM_SECURITY && _); do 4 eexists; (split; [done|]); [done|]. split_and!; try done. intros _ b _ _. by right.
Qed.
End Check.

(** ** What holds of every access check *)

Definition subset_mask (a b : Z) : Prop := Z.land a b = a.

Lemma subset_refl a : subset_mask a a.
Proof. apply Z.land_diag. Qed.

Lemma subset_trans a b c : subset_mask a b -> subset_mask b c -> subset_mask a c.
Proof. unfold subset_mask. intros. zbits. Qed.

Lemma subset_lor a b : subset_mask a (Z.lor a b).
Proof. unfold subset_mask. zbits. Qed.

#[local] Hint Resolve subset_refl subset_lor : core.

Lemma access_loop_grows fuel T gm max dacl used : forall off g d w st g' w',
  access_loop fuel T gm max dacl used off g d w = Some (st, g', w') -> subset_mask g g'.
Proof.
  induction fuel as [|fuel IH]; intros off g d w st g' w' E; cbn [access_loop] in E.
  { destruct (max || _); [done|]. by injection E as _ <- _. }
  destruct (max || negb (w =? 0)); [|by injection E as _ <- _].
  destruct (RtlIterateAce dacl used off) as [[[st' off'] loc]|]; [|done]. cbn [mbind option_bind] in E.
  case_bool_decide; [by injection E as _ <- _|]. destruct (is_ok st'); [|by injection E as _ <- _]. cbn [negb] in E.
  destruct loc as [loc|]; [|done]. cbn [mbind option_bind] in E.
  destruct (Ace_AceType _) as [t|]; [|done]. cbn [mbind option_bind] in E.
  destruct (t =? ACCESS_ALLOWED_ACE_TYPE); [|destruct (t =? ACCESS_DENIED_ACE_TYPE); [|by eapply IH]].
  all: destruct (Ace_Mask _) as [m|]; [|done]; cbn [mbind option_bind] in E.
  all: destruct (max || IsSetFlag _ _); [|by eapply IH].
  all: destruct (RtlIsSidMemberOfToken _ _) as [[]|]; [| |done]; cbn [mbind option_bind] in E; [|by eapply IH].
  - eapply subset_trans; [|by eapply IH]. destruct max; apply subset_lor.
  - destruct max; [by eapply IH|by injection E as _ <- _].
Qed.

Lemma subset_lor_r a b c : subset_mask a b -> subset_mask a (Z.lor b c).
Proof. unfold subset_mask. intros. zbits. Qed.

#[local] Hint Resolve subset_lor_r : core.

(** Follow every path of a chain of calls that returned. *)
Ltac paths :=
  repeat match goal with
  | E : Some _ = Some _ |- _ => injection E; clear E; intros; subst
  | E : None = Some _ |- _ => discriminate E
  | E : (if ?b then _ else _) = Some _ |- _ => destruct b
  | E : mbind _ ?x = Some _ |- _ => let F := fresh in destruct x as [?|] eqn:F; cbn [mbind option_bind] in E
  | v : (_ * _)%type |- _ => destruct v
  | E : match ?o with Some _ => _ | None => _ end = Some _ |- _ => destruct o
  end.

Lemma access_check_body_grows sd T owner buf max gm g w st g' w' :
  access_check_body sd T owner buf max gm g w = Some (st, g', w') -> subset_mask g g'.
Proof.
  unfold access_check_body, grant_all, SetFlag. intros E. paths; eauto 6.
  all: eapply subset_trans; [|eapply access_loop_grows; eassumption]; eauto 6.
Qed.

(** whatever the descriptor, the token and the masks, an access check that
    returns says TRUE exactly when the status it stores is a success; a failed
    check leaves the access granted before, and a successful one only adds to
    it and grants only rights that exist. [RtlAccessCheck] gives the same answer
    without the rights left. *)
Theorem RtlAccessCheckEx_safe SD T desired prev GM buf ok rem granted st :
  RtlAccessCheckEx SD T desired prev GM buf = Some (ok, rem, granted, st) ->
  RtlAccessCheck SD T desired prev GM buf = Some (ok, granted, st) /\
  ok = NT_SUCCESS st /\ subset_mask prev granted /\
  (ok = false -> granted = prev) /\
  (ok = true -> LW_IS_VALID_FLAGS granted VALID_GRANTED_ACCESS_MASK = true).
Proof.
  intros E. split; [unfold RtlAccessCheck; by rewrite E|]. revert E.
  unfold RtlAccessCheckEx. intros ([[st' g] w] & Eb & Ec)%fmap_Some.
  assert (Hg : subset_mask prev g) by (paths; eauto using access_check_body_grows).
  unfold access_check_cleanup in Ec. injection Ec as -> -> -> ->.
  destruct (NT_SUCCESS st') eqn:Es; cbn [andb]; [|rewrite Es; by eauto].
  destruct (LW_IS_VALID_FLAGS g VALID_GRANTED_ACCESS_MASK) eqn:Ev; cbn [negb]; [rewrite Es; by eauto|].
  replace (NT_SUCCESS STATUS_ASSERTION_FAILURE) with false by done. by eauto.
Qed.
End Properties.

(** * Concrete inputs *)

#[local] Existing Instance demo_host.

Definition demo_image (s : sid) : mem := sid_bytes LittleEndian s.

Definition demo_token (user : sid) (groups : list (sid * Z)) : ACCESS_TOKEN :=
  {| ReferenceCount := 1; Flags := 0;
     User := {| sa_Sid := Some (demo_image user); sa_Attributes := 0 |};
     Groups := map (fun '(g, a) => {| sa_Sid := Some (demo_image g); sa_Attributes := a |}) groups;
     PrivilegeCount := 0; Privileges := []; Owner := None; PrimaryGroup := None; DefaultDacl := None; Uid := 0; Gid := 0; Umask := 0 |}.

Definition demo_sd (owner : sid) (dacl : ptr) : SECURITY_DESCRIPTOR_ABSOLUTE :=
  {| sd_Revision := 1; sd_Sbz1 := 0; sd_Control := 0; sd_Owner := Some (demo_image owner);
     sd_Group := Some (demo_image sid_admins); sd_Sacl := None; sd_Dacl := dacl |}.

Definition file_mapping : GENERIC_MAPPING :=
  {| GenericRead := 0x120089; GenericWrite := 0x120116; GenericExecute := 0x1200A0; GenericAll := 0x1F01FF |}.

Definition demo_dacl : mem := std_acl_image LittleEndian 2 64 demo_std ++ zeros 4.

Lemma file_mapping_ok : mapping_ok file_mapping.
Proof. repeat constructor. Qed.

Lemma demo_token_at user groups :
  user ∈ [sid_system; sid_builtin; sid_admins; sid_domain] ->
  Forall (fun '(g, _) => g ∈ [sid_system; sid_builtin; sid_admins; sid_domain]) groups ->
  token_at (demo_token user groups) (mk_tok user groups).
Proof.
  intros Hu Hg. split.
  - eexists. split; [done|]. by apply known_sid_wf.
  - cbn. induction Hg as [|[g a] gs Hg _ IH]; constructor; [|done]. split; [done|]. eexists. split; [done|].
    by apply known_sid_wf.
Qed.

Definition demo_user : ACCESS_TOKEN := demo_token sid_domain [(sid_builtin, 4); (sid_admins, 0)].
Definition demo_user_tok : tok := mk_tok sid_domain [(sid_builtin, 4); (sid_admins, 0)].

Lemma demo_user_at : token_at demo_user demo_user_tok.
Proof. apply demo_token_at; [set_solver|]. repeat constructor; set_solver. Qed.

Lemma demo_owner_at s : s ∈ [sid_system; sid_builtin; sid_admins; sid_domain] -> sid_at host (demo_image s) s.
Proof. apply known_sid_wf. Qed.

Lemma RtlIsSidMemberOfToken_correct_witness :
  exists b, RtlIsSidMemberOfToken demo_user (demo_image sid_admins) = Some b /\ b <> true.
Proof.
  destruct (RtlIsSidMemberOfToken_correct demo_user demo_user_tok (demo_image sid_admins) sid_admins)
    as (b & Hb & Hiff); [apply demo_user_at|apply demo_owner_at; set_solver|].
  exists b. split; [done|]. intros E. apply Hiff in E as [E|(attr & Hin & Ha)]; [done|].
  unfold demo_user_tok in Hin. cbn [tk_groups] in Hin. rewrite !elem_of_cons in Hin. destruct Hin as [E|[E|E]]; [done| |by apply not_elem_of_nil in E].
  injection E as ->. done.
Defined.

Lemma RtlMapGenericMask_correct_witness :
  Z.land (RtlMapGenericMask (Z.lor GENERIC_READ GENERIC_WRITE) file_mapping) generic_bits = 0.
Proof. apply (RtlMapGenericMask_correct file_mapping _ 0); [apply file_mapping_ok|lia]. Defined.

Lemma access_check_system_witness :
  exists granted, RtlAccessCheckEx (Some (demo_sd sid_admins None)) (Some (demo_token sid_system [])) GENERIC_READ 0
    (Some file_mapping) (zeros 68) = Some (true, 0, granted, STATUS_SUCCESS) /\ granted = 0x120089.
Proof.
  apply (access_check_system (demo_token sid_system []) (mk_tok sid_system []) (demo_token_at sid_system [] ltac:(set_solver) ltac:(constructor))
    (demo_sd sid_admins None) (demo_image sid_admins) (demo_image sid_admins) sid_admins eq_refl eq_refl
    (demo_owner_at sid_admins ltac:(set_solver)) file_mapping file_mapping_ok (zeros 68) eq_refl GENERIC_READ 0 eq_refl eq_refl).
  reflexivity.
Defined.

Lemma access_check_strict_witness :
  exists ok rem granted st,
    RtlAccessCheckEx (Some (demo_sd sid_admins (Some demo_dacl))) (Some demo_user) GENERIC_READ 0 (Some file_mapping) (zeros 68)
      = Some (ok, rem, granted, st) /\ (ok = true -> granted = 0x120089) /\ (ok = false -> granted = 0 /\ st = STATUS_ACCESS_DENIED).
Proof.
  destruct (access_check_strict demo_user demo_user_tok demo_user_at (demo_sd sid_admins (Some demo_dacl))
    (demo_image sid_admins) (demo_image sid_admins) sid_admins eq_refl eq_refl (demo_owner_at sid_admins ltac:(set_solver))
    file_mapping file_mapping_ok (zeros 68) eq_refl GENERIC_READ 0 eq_refl eq_refl
    (Some demo_std) (ex_intro _ demo_dacl (ex_intro _ 2 (ex_intro _ 64 (conj eq_refl (conj (demo_std_at LittleEndian) demo_std_wf))))) eq_refl)
    as (ok & rem & granted & st & Hc & _ & _ & _ & Hok & Hno).
  exists ok, rem, granted, st. split; [exact Hc|]. split; [|exact Hno]. intros E. by apply Hok in E as [-> _].
Defined.

(** A right that was granted before and is asked for again is passed over only once an
    ACE allows some other right: with the right 1 granted before, 1 alone is refused by
    a DACL that allows 2, while 1 and 2 together are granted. *)
Definition two_dacl : mem := std_acl_image LittleEndian 2 64 [mk_std_ace ACCESS_ALLOWED_ACE_TYPE 0 2 sid_domain] ++ zeros 4.
Lemma granted_before_counts_late :
  let check desired prev := RtlAccessCheckEx (Some (demo_sd sid_admins (Some two_dacl))) (Some demo_user) desired prev (Some file_mapping) (zeros 68) in
  check 1 1 = Some (false, 1, 1, STATUS_ACCESS_DENIED) /\ check 3 1 = Some (true, 0, 3, STATUS_SUCCESS).
Proof. vm_compute. split; reflexivity. Qed.

(** [ACCESS_SYSTEM_SECURITY] is granted to administrators, whatever the DACL says. *)
Lemma admin_granted_system_security :
  RtlAccessCheckEx (Some (demo_sd sid_domain (Some two_dacl))) (Some (demo_token sid_builtin [(sid_admins, SE_GROUP_ENABLED)]))
    ACCESS_SYSTEM_SECURITY 0 (Some file_mapping) (zeros 68) = Some (true, 0, ACCESS_SYSTEM_SECURITY, STATUS_SUCCESS).
Proof. vm_compute. reflexivity. Qed.


Lemma access_check_no_dacl_witness :
  RtlAccessCheckEx (Some (demo_sd sid_admins None)) (Some demo_user) 3 0 (Some file_mapping) (zeros 68)
  = Some (true, 0, 3, STATUS_SUCCESS).
Proof.
  apply (access_check_no_dacl demo_user demo_user_tok demo_user_at (demo_sd sid_admins None)
    (demo_image sid_admins) (demo_image sid_admins) sid_admins eq_refl eq_refl (demo_owner_at sid_admins ltac:(set_solver))
    file_mapping file_mapping_ok (zeros 68) eq_refl 3 0 eq_refl eq_refl eq_refl eq_refl eq_refl).
Defined.

Lemma RtlAccessCheckEx_safe_witness :
  NT_SUCCESS STATUS_ACCESS_DENIED = false /\ subset_mask 0 0.
Proof.
  destruct (RtlAccessCheckEx_safe (Some (demo_sd sid_admins (Some demo_dacl))) (Some (demo_token sid_builtin [])) GENERIC_READ 0
    (Some file_mapping) (zeros 68) false 0x120089 0 STATUS_ACCESS_DENIED) as (_ & H1 & H2 & _); [vm_compute; reflexivity|].
  split; [by rewrite <- H1|exact H2].
Defined.
