(* ===== verification/TokenState.v ===== *)
(** The life of an access token and its queries: [RtlCreateAccessToken],
    [RtlReferenceAccessToken], [RtlReleaseAccessToken],
    [RtlQueryAccessTokenInformation] and [RtlQueryAccessTokenUnixInformation] of
    [lwbase/src/security-token.c].

    A token is one allocation: the structure, then the bytes its pointers point
    into. [TOKEN_BLOCK] is that allocation, with the pointers as offsets into the
    bytes after the structure; [token_of] is the token as its readers see it. *)

From S2P Require Import Prelude SecurityTypes Sid Acl Token.

(** * Data *)

(** The sizes the C compiler chooses: of a pointer, and of [ACCESS_TOKEN], which
    embeds the platform's [pthread_rwlock_t]. *)
Class Layout := {
  sizeof_pointer : Z;
  sizeof_ACCESS_TOKEN : Z;
  sizeof_pointer_range : 4 <= sizeof_pointer <= 8;
  sizeof_ACCESS_TOKEN_range : 0 < sizeof_ACCESS_TOKEN < 65536
}.

Definition sizeof_SID_AND_ATTRIBUTES `{Layout} : Z := 2 * sizeof_pointer.
Definition sizeof_TOKEN_USER `{Layout} : Z := sizeof_SID_AND_ATTRIBUTES.
Definition sizeof_TOKEN_GROUPS `{Layout} : Z := sizeof_pointer.
Definition sizeof_TOKEN_OWNER `{Layout} : Z := sizeof_pointer.
Definition sizeof_TOKEN_PRIMARY_GROUP `{Layout} : Z := sizeof_pointer.
Definition sizeof_TOKEN_DEFAULT_DACL `{Layout} : Z := sizeof_pointer.
Definition sizeof_LUID_AND_ATTRIBUTES : Z := 12.
Definition sizeof_TOKEN_PRIVILEGES : Z := 4.

Record TOKEN_UNIX := {
  tu_Uid : Z;
  tu_Gid : Z;
  tu_Umask : Z
}.

Record TOKEN_BLOCK := {
  tb_ReferenceCount : Z;
  tb_Flags : Z;
  tb_UserAttributes : Z;
  tb_UserSid : Z;
  tb_Groups : list (Z * Z);
  tb_PrivilegeCount : Z;
  tb_Privileges : Z;
  tb_Owner : option Z;
  tb_PrimaryGroup : option Z;
  tb_DefaultDacl : option Z;
  tb_Unix : TOKEN_UNIX;
  tb_data : mem
}.

Definition token_of (b : TOKEN_BLOCK) : ACCESS_TOKEN :=
  let at_ off := padd (tb_data b) off in
  {| ReferenceCount := tb_ReferenceCount b;
     Flags := tb_Flags b;
     User := {| sa_Sid := Some (at_ (tb_UserSid b)); sa_Attributes := tb_UserAttributes b |};
     Groups := map (fun '(off, attr) => {| sa_Sid := Some (at_ off); sa_Attributes := attr |}) (tb_Groups b);
     PrivilegeCount := tb_PrivilegeCount b;
     Privileges := at_ (tb_Privileges b);
     Owner := at_ <$> tb_Owner b;
     PrimaryGroup := at_ <$> tb_PrimaryGroup b;
     DefaultDacl := at_ <$> tb_DefaultDacl b;
     Uid := tu_Uid (tb_Unix b);
     Gid := tu_Gid (tb_Unix b);
     Umask := tu_Umask (tb_Unix b) |}.

(** A [LUID] is kept as its two 32-bit halves, as they lie in memory. *)
Record LUID := {
  LowPart : Z;
  HighPart : Z
}.

Record LUID_AND_ATTRIBUTES := {
  la_Luid : LUID;
  la_Attributes : Z
}.

#[global] Instance LUID_eq_dec : EqDecision LUID.
Proof. solve_decision. Defined.
#[global] Instance LUID_AND_ATTRIBUTES_eq_dec : EqDecision LUID_AND_ATTRIBUTES.
Proof. solve_decision. Defined.

(** [TOKEN_PRIVILEGES] in memory: the count, then the privileges. *)
Definition TokenPrivileges_PrivilegeCount `{Host} (p : mem) : option Z := ld32 p 0.
Definition TokenPrivileges_Privileges (p : mem) : mem := padd p sizeof_TOKEN_PRIVILEGES.

(** The two's complement value of a 32-bit [LONG]. *)
Definition s32 (x : Z) : Z := (x + 2 ^ 31) mod 2 ^ 32 - 2 ^ 31.

Definition set_ReferenceCount (b : TOKEN_BLOCK) (n : Z) : TOKEN_BLOCK :=
  {| tb_ReferenceCount := n; tb_Flags := tb_Flags b; tb_UserAttributes := tb_UserAttributes b;
     tb_UserSid := tb_UserSid b; tb_Groups := tb_Groups b; tb_PrivilegeCount := tb_PrivilegeCount b;
     tb_Privileges := tb_Privileges b; tb_Owner := tb_Owner b; tb_PrimaryGroup := tb_PrimaryGroup b;
     tb_DefaultDacl := tb_DefaultDacl b; tb_Unix := tb_Unix b; tb_data := tb_data b |}.

(** The token classes and what [RtlQueryAccessTokenInformation] stores in the
    caller's structure, with pointers as offsets into the caller's buffer. *)
Definition TokenUser : Z := 1.
Definition TokenGroups : Z := 2.
Definition TokenPrivileges : Z := 3.
Definition TokenOwner : Z := 4.
Definition TokenPrimaryGroup : Z := 5.
Definition TokenDefaultDacl : Z := 6.

Inductive TOKEN_INFORMATION :=
  | InfoUser (Attributes Sid : Z)
  | InfoGroups (Groups : list (Z * Z))
  | InfoPrivileges
  | InfoOwner (Owner : Z)
  | InfoPrimaryGroup (PrimaryGroup : Z)
  | InfoDefaultDacl (DefaultDacl : option Z).

Section Operations.
Context `{Host} `{Layout}.

(** [RtlCopyMemory(location, Data, DataSize)], and the location after it. *)
Definition RtlpAppendData (data : mem) (Location : Z) (Data : mem) (DataSize : Z) : option (mem * Z) :=
  bs ← rd Data 0 DataSize;
  data ← wr data Location bs;
  Some (data, Location + DataSize).

(** * Creation *)

Fixpoint check_groups (groups : list SID_AND_ATTRIBUTES) : option NTSTATUS :=
  match groups with
  | [] => Some STATUS_SUCCESS
  | g :: groups' =>
      match sa_Sid g with
      | None => Some STATUS_INVALID_PARAMETER
      | Some _ =>
          v ← RtlValidSid (sa_Sid g);
          if negb v then Some STATUS_INVALID_SID else check_groups groups'
      end
  end.

(** [p && !RtlValidSid(p)]. *)
Definition optional_sid_bad (p : ptr) : option bool :=
  match p with
  | None => Some false
  | Some _ => v ← RtlValidSid p; Some (negb v)
  end.

(** The checks on the arguments, up to the one on the default DACL. *)
Definition create_check (User : SID_AND_ATTRIBUTES) (Groups : list SID_AND_ATTRIBUTES)
    (Owner PrimaryGroup DefaultDacl : ptr) : option NTSTATUS :=
  v ← RtlValidSid (sa_Sid User);
  bad ← (if negb v then Some true
         else
           o ← optional_sid_bad Owner;
           if (o : bool) then Some true else optional_sid_bad PrimaryGroup);
  if (bad : bool) then Some STATUS_INVALID_SID
  else if negb (sa_Attributes User =? 0) then Some STATUS_INVALID_PARAMETER
  else
    status ← check_groups Groups;
    if negb (is_ok status) then Some status
    else
      match DefaultDacl with
      | None => Some STATUS_SUCCESS
      | Some _ =>
          '(v, _) ← RtlValidAcl DefaultDacl;
          Some (if (v : bool) then STATUS_SUCCESS else STATUS_INVALID_ACL)
      end.

(** [RtlSafeAddULONG(&requiredSize, requiredSize, size)] after the calls before
    it succeeded. *)
Definition add_size (acc : NTSTATUS * Z) (size : Z) : NTSTATUS * Z :=
  if is_ok (fst acc) then RtlSafeAddULONG (snd acc) size else acc.

(** The size of an array, then its addition to the required size. *)
Definition add_array (acc : NTSTATUS * Z) (elem count : Z) : NTSTATUS * Z :=
  if is_ok (fst acc) then
    let '(status, size) := RtlSafeMultiplyULONG elem count in
    if is_ok status then RtlSafeAddULONG (snd acc) size else (status, snd acc)
  else acc.

Definition add_sid (acc : NTSTATUS * Z) (p : ptr) : option (NTSTATUS * Z) :=
  match p with
  | None => Some acc
  | Some s => n ← RtlLengthSid s; Some (add_size acc n)
  end.

Definition add_acl (acc : NTSTATUS * Z) (p : ptr) : option (NTSTATUS * Z) :=
  match p with
  | None => Some acc
  | Some a => n ← Acl_AclSize a; Some (add_size acc n)
  end.

Fixpoint add_groups (acc : NTSTATUS * Z) (groups : list SID_AND_ATTRIBUTES) : option (NTSTATUS * Z) :=
  match groups with
  | [] => Some acc
  | g :: groups' => s ← sa_Sid g; acc ← add_sid acc (Some s); add_groups acc groups'
  end.

(** The size of the allocation. *)
Definition create_size (User : SID_AND_ATTRIBUTES) (Groups : list SID_AND_ATTRIBUTES) (Privileges : ptr)
    (Owner PrimaryGroup DefaultDacl : ptr) : option (NTSTATUS * Z) :=
  acc ← add_sid (STATUS_SUCCESS, sizeof_ACCESS_TOKEN) (sa_Sid User);
  acc ← add_sid acc Owner;
  acc ← add_sid acc PrimaryGroup;
  acc ← add_acl acc DefaultDacl;
  acc ← add_groups (add_array acc sizeof_SID_AND_ATTRIBUTES (Z.of_nat (length Groups))) Groups;
  if negb (is_ok (fst acc)) then Some acc
  else
    p ← Privileges;
    n ← TokenPrivileges_PrivilegeCount p;
    Some (add_array acc sizeof_LUID_AND_ATTRIBUTES n).

(** The copies into the allocation. Each returns the bytes, the next location
    and the pointer stored in the structure. *)
Fixpoint append_groups (data : mem) (location : Z) (groups : list SID_AND_ATTRIBUTES)
    : option (mem * Z * list (Z * Z)) :=
  match groups with
  | [] => Some (data, location, [])
  | g :: groups' =>
      s ← sa_Sid g;
      n ← RtlLengthSid s;
      '(data, next) ← RtlpAppendData data location s n;
      '(data, next, l) ← append_groups data next groups';
      Some (data, next, (location, sa_Attributes g) :: l)
  end.

Definition append_sid (data : mem) (location : Z) (p : ptr) : option (mem * Z * option Z) :=
  match p with
  | None => Some (data, location, None)
  | Some s =>
      n ← RtlLengthSid s;
      '(data, next) ← RtlpAppendData data location s n;
      Some (data, next, Some location)
  end.

Definition append_acl (data : mem) (location : Z) (p : ptr) : option (mem * Z * option Z) :=
  match p with
  | None => Some (data, location, None)
  | Some a =>
      n ← Acl_AclSize a;
      '(data, next) ← RtlpAppendData data location a n;
      Some (data, next, Some location)
  end.

(** The initialisation of the allocation [data], and the location it ends at. *)
Definition create_fill (data : mem) (User : SID_AND_ATTRIBUTES) (Groups : list SID_AND_ATTRIBUTES)
    (Privileges : mem) (Owner PrimaryGroup DefaultDacl : ptr) (Unix : option TOKEN_UNIX)
    : option (TOKEN_BLOCK * Z) :=
  s ← sa_Sid User;
  n ← RtlLengthSid s;
  '(data, groups) ← RtlpAppendData data 0 s n;
  let location := groups + sizeof_SID_AND_ATTRIBUTES * Z.of_nat (length Groups) in
  '(data, privileges, l) ← append_groups data location Groups;
  count ← TokenPrivileges_PrivilegeCount Privileges;
  bs ← rd (TokenPrivileges_Privileges Privileges) 0 (sizeof_LUID_AND_ATTRIBUTES * count);
  data ← wr data privileges bs;
  '(data, location, owner) ← append_sid data (privileges + sizeof_LUID_AND_ATTRIBUTES * count) Owner;
  '(data, location, group) ← append_sid data location PrimaryGroup;
  '(data, location, dacl) ← append_acl data location DefaultDacl;
  Some ({| tb_ReferenceCount := 1;
           tb_Flags := match Unix with Some _ => SetFlag 0 ACCESS_TOKEN_FLAG_UNIX_PRESENT | None => 0 end;
           tb_UserAttributes := sa_Attributes User;
           tb_UserSid := 0;
           tb_Groups := l;
           tb_PrivilegeCount := count;
           tb_Privileges := privileges;
           tb_Owner := owner;
           tb_PrimaryGroup := group;
           tb_DefaultDacl := dacl;
           tb_Unix := match Unix with Some u => u | None => {| tu_Uid := 0; tu_Gid := 0; tu_Umask := 0 |} end;
           tb_data := data |}, location).

(** * References *)

Definition RtlReferenceAccessToken (AccessToken : TOKEN_BLOCK) : TOKEN_BLOCK :=
  set_ReferenceCount AccessToken (s32 (tb_ReferenceCount AccessToken + 1)).

(** What is left in the caller's pointer and in the heap: [Some None] when there
    was no token or when it is freed; [None] when the assertion fails. *)
Definition RtlReleaseAccessToken (AccessToken : option TOKEN_BLOCK) : option (option TOKEN_BLOCK) :=
  match AccessToken with
  | None => Some None
  | Some accessToken =>
      let count := s32 (tb_ReferenceCount accessToken - 1) in
      if count <? 0 then None
      else if count =? 0 then Some None
      else Some (Some (set_ReferenceCount accessToken count))
  end.

(** [cleanup] of [RtlCreateAccessToken]. *)
Definition create_cleanup (status : NTSTATUS) (token : option TOKEN_BLOCK)
    : option (NTSTATUS * option TOKEN_BLOCK) :=
  token ← (if negb (NT_SUCCESS status) then RtlReleaseAccessToken token else Some token);
  Some (status, token).

(** The structure before its fields are set. *)
Definition cleared_token (data : mem) : TOKEN_BLOCK :=
  {| tb_ReferenceCount := 1; tb_Flags := 0; tb_UserAttributes := 0; tb_UserSid := 0; tb_Groups := [];
     tb_PrivilegeCount := 0; tb_Privileges := 0; tb_Owner := None; tb_PrimaryGroup := None;
     tb_DefaultDacl := None; tb_Unix := {| tu_Uid := 0; tu_Gid := 0; tu_Umask := 0 |}; tb_data := data |}.

(** [rwlock_init] is [None] when [pthread_rwlock_init] succeeds and otherwise the
    status [LwErrnoToNtStatus] makes of its error. [Owner], [PrimaryGroup] and
    [DefaultDacl] are structures of one pointer. *)
Definition RtlCreateAccessToken (malloc : Z -> bool) (rwlock_init : option NTSTATUS)
    (User : option SID_AND_ATTRIBUTES) (Groups : option (list SID_AND_ATTRIBUTES)) (Privileges : ptr)
    (Owner PrimaryGroup DefaultDacl : option ptr) (Unix : option TOKEN_UNIX)
    : option (NTSTATUS * option TOKEN_BLOCK) :=
  match User, Groups, Owner, PrimaryGroup, DefaultDacl with
  | Some User, Some Groups, Some Owner, Some PrimaryGroup, Some DefaultDacl =>
      match sa_Sid User with
      | None => create_cleanup STATUS_INVALID_PARAMETER None
      | Some _ =>
          status ← create_check User Groups Owner PrimaryGroup DefaultDacl;
          if negb (is_ok status) then create_cleanup status None
          else
            '(status, requiredSize) ← create_size User Groups Privileges Owner PrimaryGroup DefaultDacl;
            if negb (is_ok status) then create_cleanup status None
            else if negb (malloc requiredSize) then create_cleanup STATUS_INSUFFICIENT_RESOURCES None
            else
              let data := zeros (requiredSize - sizeof_ACCESS_TOKEN) in
              match rwlock_init with
              | Some status => create_cleanup status (Some (cleared_token data))
              | None =>
                  Privileges ← Privileges;
                  '(token, location) ← create_fill data User Groups Privileges Owner PrimaryGroup DefaultDacl Unix;
                  if negb (location =? requiredSize - sizeof_ACCESS_TOKEN)
                  then create_cleanup STATUS_ASSERTION_FAILURE (Some token)
                  else create_cleanup STATUS_SUCCESS (Some token)
              end
      end
  | _, _, _, _, _ => create_cleanup STATUS_INVALID_PARAMETER None
  end.

(** * Queries *)

(** The required size, by class. *)
Definition query_size (AccessToken : ACCESS_TOKEN) (TokenInformationClass : Z) : option (NTSTATUS * Z) :=
  if TokenInformationClass =? TokenUser then
    s ← sa_Sid (User AccessToken);
    n ← RtlLengthSid s;
    Some (RtlSafeAddULONG sizeof_TOKEN_USER n)
  else if TokenInformationClass =? TokenGroups then
    let acc := RtlSafeMultiplyULONG sizeof_SID_AND_ATTRIBUTES (Z.of_nat (length (Groups AccessToken))) in
    add_groups (add_size acc sizeof_TOKEN_GROUPS) (Groups AccessToken)
  else if TokenInformationClass =? TokenPrivileges then
    let acc := RtlSafeMultiplyULONG sizeof_LUID_AND_ATTRIBUTES (PrivilegeCount AccessToken) in
    Some (add_size acc sizeof_TOKEN_PRIVILEGES)
  else if TokenInformationClass =? TokenOwner then
    s ← Owner AccessToken;
    n ← RtlLengthSid s;
    Some (RtlSafeAddULONG sizeof_TOKEN_OWNER n)
  else if TokenInformationClass =? TokenPrimaryGroup then
    s ← PrimaryGroup AccessToken;
    n ← RtlLengthSid s;
    Some (RtlSafeAddULONG sizeof_TOKEN_PRIMARY_GROUP n)
  else if TokenInformationClass =? TokenDefaultDacl then
    n ← match DefaultDacl AccessToken with Some a => Acl_AclSize a | None => Some 0 end;
    Some (RtlSafeAddULONG sizeof_TOKEN_DEFAULT_DACL n)
  else Some (STATUS_INVALID_PARAMETER, 0).

(** The copy into the caller's buffer, by class: what the structure holds, the
    buffer and the location after the copy. *)
Definition query_copy (AccessToken : ACCESS_TOKEN) (TokenInformationClass : Z) (buf : mem)
    : option (TOKEN_INFORMATION * mem * Z) :=
  if TokenInformationClass =? TokenUser then
    s ← sa_Sid (User AccessToken);
    n ← RtlLengthSid s;
    '(buf, location) ← RtlpAppendData buf sizeof_TOKEN_USER s n;
    Some (InfoUser (sa_Attributes (User AccessToken)) sizeof_TOKEN_USER, buf, location)
  else if TokenInformationClass =? TokenGroups then
    let location := sizeof_TOKEN_GROUPS +
                    sizeof_SID_AND_ATTRIBUTES * Z.of_nat (length (Groups AccessToken)) in
    '(buf, location, l) ← append_groups buf location (Groups AccessToken);
    Some (InfoGroups l, buf, location)
  else if TokenInformationClass =? TokenPrivileges then
    let size := sizeof_LUID_AND_ATTRIBUTES * PrivilegeCount AccessToken in
    buf ← st32 buf 0 (PrivilegeCount AccessToken);
    buf ← (if PrivilegeCount AccessToken =? 0 then Some buf
           else bs ← rd (Privileges AccessToken) 0 size; wr buf sizeof_TOKEN_PRIVILEGES bs);
    Some (InfoPrivileges, buf, sizeof_TOKEN_PRIVILEGES + size)
  else if TokenInformationClass =? TokenOwner then
    s ← Owner AccessToken;
    n ← RtlLengthSid s;
    '(buf, location) ← RtlpAppendData buf sizeof_TOKEN_OWNER s n;
    Some (InfoOwner sizeof_TOKEN_OWNER, buf, location)
  else if TokenInformationClass =? TokenPrimaryGroup then
    s ← PrimaryGroup AccessToken;
    n ← RtlLengthSid s;
    '(buf, location) ← RtlpAppendData buf sizeof_TOKEN_PRIMARY_GROUP s n;
    Some (InfoPrimaryGroup sizeof_TOKEN_PRIMARY_GROUP, buf, location)
  else
    '(buf, location, dacl) ← append_acl buf sizeof_TOKEN_DEFAULT_DACL (DefaultDacl AccessToken);
    Some (InfoDefaultDacl dacl, buf, location).

(** The status, what is stored through [TokenInformation], and the required
    size, which is stored through [ReturnedLength] when there is one. *)
Definition RtlQueryAccessTokenInformation (AccessToken : option ACCESS_TOKEN) (TokenInformationClass : Z)
    (TokenInformation : ptr) (TokenInformationLength : Z) (ReturnedLength : bool)
    : option (NTSTATUS * option (TOKEN_INFORMATION * mem) * Z) :=
  match AccessToken with
  | Some AccessToken =>
      if negb ReturnedLength then Some (STATUS_INVALID_PARAMETER, None, 0)
      else if bool_decide (TokenInformation = None) && negb (TokenInformationLength =? 0)
      then Some (STATUS_INVALID_PARAMETER, None, 0)
      else
        '(status, requiredSize) ← query_size AccessToken TokenInformationClass;
        if negb (is_ok status) then Some (status, None, requiredSize)
        else if TokenInformationLength <? requiredSize then Some (STATUS_BUFFER_TOO_SMALL, None, requiredSize)
        else
          match TokenInformation with
          | None => Some (STATUS_ASSERTION_FAILURE, None, requiredSize)
          | Some buf =>
              '(info, buf, location) ← query_copy AccessToken TokenInformationClass buf;
              Some (if location =? requiredSize then STATUS_SUCCESS else STATUS_ASSERTION_FAILURE,
                    Some (info, buf), requiredSize)
          end
  | None => Some (STATUS_INVALID_PARAMETER, None, 0)
  end.

(** The structure stored through [TokenInformation] is zero on failure. *)
Definition RtlQueryAccessTokenUnixInformation (AccessToken : option ACCESS_TOKEN) : NTSTATUS * TOKEN_UNIX :=
  match AccessToken with
  | Some t =>
      if IsSetFlag (Flags t) ACCESS_TOKEN_FLAG_UNIX_PRESENT
      then (STATUS_SUCCESS, {| tu_Uid := Uid t; tu_Gid := Gid t; tu_Umask := Umask t |})
      else (STATUS_NOT_FOUND, {| tu_Uid := 0; tu_Gid := 0; tu_Umask := 0 |})
  | None => (STATUS_INVALID_PARAMETER, {| tu_Uid := 0; tu_Gid := 0; tu_Umask := 0 |})
  end.
End Operations.
