(* ===== verification/TokenOps.v ===== *)
(** What a token holds, as an abstract value, and that creating, referencing and
    querying a token are operations on that value. *)

From S2P Require Import Prelude SecurityTypes Sid Acl AclRepr AclOps AclEdit AclCodec AclCodecOps Token AccessCheck TokenState.

(** * The abstract contents of a token *)

Record token_spec := mk_ts {
  ts_user : sid;
  ts_groups : list (sid * Z);
  ts_privs : list LUID_AND_ATTRIBUTES;
  ts_owner : option sid;
  ts_group : option sid;
  ts_dacl : option acl;
  ts_unix : option TOKEN_UNIX
}.

Definition ts_tok (ts : token_spec) : tok := mk_tok (ts_user ts) (ts_groups ts).

Definition priv_bytes (e : endian) (p : LUID_AND_ATTRIBUTES) : mem :=
  encode e 4 (LowPart (la_Luid p)) ++ encode e 4 (HighPart (la_Luid p)) ++ encode e 4 (la_Attributes p).
Definition privs_bytes (e : endian) (l : list LUID_AND_ATTRIBUTES) : mem := flat_map (priv_bytes e) l.
Definition priv_count (l : list LUID_AND_ATTRIBUTES) : Z := Z.of_nat (length l).

Definition sid_size (s : sid) : Z := 8 + 4 * sid_count s.
Definition opt_size {A} (f : A -> Z) (o : option A) : Z := match o with Some x => f x | None => 0 end.
Definition groups_size (l : list (sid * Z)) : Z := foldr (fun g n => sid_size (fst g) + n) 0 l.
Definition groups_bytes (e : endian) (l : list (sid * Z)) : mem := flat_map (fun g => sid_bytes e (fst g)) l.

(** The offsets at which [append_groups] puts the SIDs. *)
Fixpoint group_offsets (loc : Z) (l : list (sid * Z)) : list (Z * Z) :=
  match l with
  | [] => []
  | (g, attr) :: l' => (loc, attr) :: group_offsets (loc + sid_size g) l'
  end.

Section Representation.
Context `{Host} `{Layout}.

Definition group_at (x : SID_AND_ATTRIBUTES) (g : sid * Z) : Prop :=
  sa_Attributes x = snd g /\ exists p, sa_Sid x = Some p /\ sid_at host p (fst g).

(** The SIDs and the ACL of [ts], through the pointers given. *)
Definition contents_at (User : SID_AND_ATTRIBUTES) (Groups : list SID_AND_ATTRIBUTES)
    (Owner PrimaryGroup DefaultDacl : ptr) (ts : token_spec) : Prop :=
  group_at User (ts_user ts, 0) /\ Forall2 group_at Groups (ts_groups ts) /\
  option_Forall2 (sid_at host) Owner (ts_owner ts) /\
  option_Forall2 (sid_at host) PrimaryGroup (ts_group ts) /\
  option_Forall2 acl_at DefaultDacl (ts_dacl ts).

Definition privileges_at (count : Z) (p : mem) (l : list LUID_AND_ATTRIBUTES) : Prop :=
  count = priv_count l /\ exists rest, p = privs_bytes host l ++ rest.

Definition unix_at (T : ACCESS_TOKEN) (u : option TOKEN_UNIX) : Prop :=
  match u with
  | Some u => IsSetFlag (Flags T) ACCESS_TOKEN_FLAG_UNIX_PRESENT = true /\
              {| tu_Uid := Uid T; tu_Gid := Gid T; tu_Umask := Umask T |} = u
  | None => IsSetFlag (Flags T) ACCESS_TOKEN_FLAG_UNIX_PRESENT = false
  end.

(** The token [T] holds [ts]. *)
Definition token_repr (T : ACCESS_TOKEN) (ts : token_spec) : Prop :=
  contents_at (User T) (Groups T) (Owner T) (PrimaryGroup T) (DefaultDacl T) ts /\
  privileges_at (PrivilegeCount T) (Privileges T) (ts_privs ts) /\ unix_at T (ts_unix ts).

(** The bytes a token needs after its structure. *)
Definition ts_size (ts : token_spec) : Z :=
  sid_size (ts_user ts) + sizeof_SID_AND_ATTRIBUTES * Z.of_nat (length (ts_groups ts)) +
  groups_size (ts_groups ts) + 12 * priv_count (ts_privs ts) +
  opt_size sid_size (ts_owner ts) + opt_size sid_size (ts_group ts) + opt_size acl_size (ts_dacl ts).

(** [RtlCreateAccessToken] takes valid SIDs only. *)
Definition opt_valid (o : option sid) : bool := match o with Some s => sid_valid s | None => true end.
Definition ts_valid (ts : token_spec) : bool :=
  sid_valid (ts_user ts) && (opt_valid (ts_owner ts) && opt_valid (ts_group ts)) &&
  forallb (fun g => sid_valid (fst g)) (ts_groups ts).

(** * Lemmas *)

(** ** Sizes *)

Lemma sid_size_range s : sid_wf s -> 8 <= sid_size s <= 1028.
Proof. intros (_ & _ & _ & Hc & _). pose proof (sid_count_nonneg s). unfold sid_size. lia. Qed.

Lemma zlen_sid_size e s : sid_wf s -> zlen (sid_bytes e s) = sid_size s.
Proof. apply zlen_sid_bytes. Qed.

Lemma zlen_priv_bytes e p : zlen (priv_bytes e p) = 12.
Proof. unfold priv_bytes. zl. Qed.

Lemma zlen_privs_bytes e l : zlen (privs_bytes e l) = 12 * priv_count l.
Proof.
  unfold priv_count. induction l as [|p l IH]; [done|]. cbn [privs_bytes flat_map length].
  rewrite zlen_app, zlen_priv_bytes. unfold privs_bytes in IH. rewrite IH. lia.
Qed.

Lemma acl_size_range p a : acl_at p a -> 8 <= acl_size a < 65536.
Proof. intros ((_ & Hs & _) & _). pose proof (aces_len_nonneg (acl_aces a)). unfold acl_used in Hs. lia. Qed.

(** The state of the size computation when [n] bytes were added up. *)
Definition acc_at (acc : NTSTATUS * Z) (n : Z) : Prop :=
  0 <= n /\ (if n <? 2 ^ 32 then acc = (STATUS_SUCCESS, n) else fst acc = STATUS_INTEGER_OVERFLOW).

Lemma add_size_at acc n k : acc_at acc n -> 0 <= k < 2 ^ 32 -> acc_at (add_size acc k) (n + k).
Proof.
  intros [Hn Ha] Hk. split; [lia|]. unfold add_size. destruct (Z.ltb_spec n (2 ^ 32)).
  - subst acc. cbn [fst snd]. rewrite is_ok_success. unfold RtlSafeAddULONG, u32.
    destruct (carry_iff (2 ^ 32) n k) as [Hc Hm]; [lia..|].
    destruct (Z.ltb_spec ((n + k) mod 2 ^ 32) n); destruct (Z.ltb_spec (n + k) (2 ^ 32)); try lia; [done|].
    by rewrite Hm.
  - rewrite Ha. cbn. destruct (Z.ltb_spec (n + k) (2 ^ 32)); [lia|done].
Qed.

Lemma add_array_at acc n e c :
  acc_at acc n -> 0 < e < 2 ^ 32 -> 0 <= c < 2 ^ 32 -> acc_at (add_array acc e c) (n + e * c).
Proof.
  intros Ha He Hc. assert (0 <= e * c) by nia. unfold add_array.
  pose proof Ha as [Hn Hs]. destruct (Z.ltb_spec n (2 ^ 32)).
  - subst acc. cbn [fst snd]. rewrite is_ok_success. unfold RtlSafeMultiplyULONG.
    destruct (Z.ltb_spec 0xFFFFFFFF (e * c)) as [Hb|Hb].
    + split; [lia|]. destruct (Z.ltb_spec (n + e * c) (2 ^ 32)); [lia|done].
    + rewrite is_ok_success. unfold u32. rewrite Z.mod_small by lia.
      pose proof (add_size_at (STATUS_SUCCESS, n) n (e * c) Ha) as Hq.
      unfold add_size in Hq. cbn [fst snd] in Hq. rewrite is_ok_success in Hq. apply Hq. lia.
  - rewrite Hs. cbn. split; [lia|]. destruct (Z.ltb_spec (n + e * c) (2 ^ 32)); [lia|done].
Qed.

Lemma add_sid_at acc n p s :
  acc_at acc n -> sid_at host p s -> exists acc', add_sid acc (Some p) = Some acc' /\ acc_at acc' (n + sid_size s).
Proof.
  intros Ha Hp. pose proof (sid_size_range s (sid_at_wf _ _ _ Hp)). unfold add_sid.
  rewrite (sid_at_length host p s Hp). bsimpl. eexists. split; [done|]. apply add_size_at; [done|].
  unfold sid_size in *. lia.
Qed.

Lemma add_opt_sid_at acc n p s :
  acc_at acc n -> option_Forall2 (sid_at host) p s ->
  exists acc', add_sid acc p = Some acc' /\ acc_at acc' (n + opt_size sid_size s).
Proof.
  intros Ha [p' s' Hp|]; [by apply add_sid_at|]. exists acc. cbn. by rewrite Z.add_0_r.
Qed.

Lemma add_opt_acl_at acc n p a :
  acc_at acc n -> option_Forall2 acl_at p a ->
  exists acc', add_acl acc p = Some acc' /\ acc_at acc' (n + opt_size acl_size a).
Proof.
  intros Ha [p' a' Hp|]; [|exists acc; cbn; by rewrite Z.add_0_r].
  pose proof (acl_size_range _ _ Hp). unfold add_acl.
  destruct (acl_at_fields p' a' Hp) as (_ & _ & E & _). rewrite E. bsimpl. eexists. split; [done|].
  apply add_size_at; [done|cbn [opt_size]; lia].
Qed.

Lemma add_groups_at Gs gs : Forall2 group_at Gs gs -> forall acc n, acc_at acc n ->
  exists acc', add_groups acc Gs = Some acc' /\ acc_at acc' (n + groups_size gs).
Proof.
  induction 1 as [|x g Gs gs (_ & p & Hs & Hp) _ IH]; intros acc n Ha; cbn [add_groups groups_size foldr].
  { exists acc. by rewrite Z.add_0_r. }
  rewrite Hs. bsimpl. destruct (add_sid_at acc n p (fst g) Ha Hp) as (acc1 & -> & Ha1). bsimpl.
  rewrite Z.add_assoc. by apply IH.
Qed.

(** The size computation of [RtlCreateAccessToken] is exact. *)
Lemma create_size_at U Gs P O G D ts rest :
  contents_at U Gs O G D ts -> Z.of_nat (length (ts_groups ts)) < 2 ^ 32 -> priv_count (ts_privs ts) < 2 ^ 32 ->
  P = encode host 4 (priv_count (ts_privs ts)) ++ rest ->
  exists acc, create_size U Gs (Some P) O G D = Some acc /\ acc_at acc (sizeof_ACCESS_TOKEN + ts_size ts).
Proof.
  intros (Hu & Hg & Ho & Hpg & Hd) Hn Hp ->. pose proof sizeof_pointer_range. pose proof sizeof_ACCESS_TOKEN_range.
  destruct Hu as (_ & pu & Eu & Hu). cbn [fst] in Hu. unfold create_size. rewrite Eu.
  assert (Hz0 : acc_at (STATUS_SUCCESS, sizeof_ACCESS_TOKEN) sizeof_ACCESS_TOKEN).
  { split; [lia|]. destruct (Z.ltb_spec sizeof_ACCESS_TOKEN (2 ^ 32)); [done|lia]. }
  destruct (add_sid_at _ _ _ _ Hz0 Hu) as (a1 & -> & Hz1). bsimpl.
  destruct (add_opt_sid_at _ _ _ _ Hz1 Ho) as (a2 & -> & Hz2). bsimpl.
  destruct (add_opt_sid_at _ _ _ _ Hz2 Hpg) as (a3 & -> & Hz3). bsimpl.
  destruct (add_opt_acl_at _ _ _ _ Hz3 Hd) as (a4 & -> & Hz4). bsimpl.
  rewrite (Forall2_length _ _ _ Hg).
  assert (Hsz : 0 < sizeof_SID_AND_ATTRIBUTES < 2 ^ 32) by (unfold sizeof_SID_AND_ATTRIBUTES; lia).
  pose proof (add_array_at _ _ _ _ Hz4 Hsz (conj (Nat2Z.is_nonneg _) Hn)) as Hz4'.
  destruct (add_groups_at _ _ Hg _ _ Hz4') as (a5 & -> & Hz5). bsimpl.
  pose proof Hz5 as [Hn5 E5]. unfold ts_size.
  destruct (Z.ltb_spec (sizeof_ACCESS_TOKEN + sid_size (ts_user ts) + opt_size sid_size (ts_owner ts) +
    opt_size sid_size (ts_group ts) + opt_size acl_size (ts_dacl ts) +
    sizeof_SID_AND_ATTRIBUTES * Z.of_nat (length (ts_groups ts)) + groups_size (ts_groups ts)) (2 ^ 32)) as [Hlt|Hge].
  - assert (Ef : fst a5 = STATUS_SUCCESS) by (by rewrite E5). rewrite Ef, is_ok_success. cbn [negb].
    unfold TokenPrivileges_PrivilegeCount, ld32. rewrite rd_at_0 by zl. bsimpl.
    rewrite decode_encode by (unfold priv_count in *; lia).
    eexists. split; [done|].
    pose proof (add_array_at a5 _ 12 (priv_count (ts_privs ts)) Hz5 ltac:(lia) ltac:(unfold priv_count in *; lia)) as Hz6.
    match goal with |- acc_at _ ?y => match type of Hz6 with acc_at _ ?x => replace y with x by lia end end. exact Hz6.
  - rewrite E5. cbn [is_ok bool_decide]. eexists. split; [done|]. unfold priv_count.
    split; [lia|]. match goal with |- context [?x <? 2 ^ 32] => destruct (Z.ltb_spec x (2 ^ 32)) end; [lia|done].
Qed.

(** ** Copies *)

Lemma append_data_at pre old post src bs n loc :
  loc = zlen pre -> n = zlen bs -> zlen old = zlen bs -> rd src 0 n = Some bs ->
  RtlpAppendData (pre ++ old ++ post) loc src n = Some (pre ++ bs ++ post, loc + n).
Proof. intros -> -> Hl Hr. unfold RtlpAppendData. rewrite Hr. bsimpl. by rewrite wr_at. Qed.

Lemma append_data_at_0 old post src bs n :
  n = zlen bs -> zlen old = zlen bs -> rd src 0 n = Some bs ->
  RtlpAppendData (old ++ post) 0 src n = Some (bs ++ post, n).
Proof. apply (append_data_at []). done. Qed.

(** The room for [n] bytes at the start of [old]. *)
Lemma room old n : 0 <= n <= zlen old -> exists a b, old = a ++ b /\ zlen a = n /\ zlen b = zlen old - n.
Proof. intros Hn. destruct (zlen_split old n) as (a & b & -> & <-); [lia|]. exists a, b. repeat split. zl. Qed.

Lemma append_sid_at pre old post p s loc :
  loc = zlen pre -> sid_at host p s -> zlen old = sid_size s ->
  append_sid (pre ++ old ++ post) loc (Some p) = Some (pre ++ sid_bytes host s ++ post, loc + sid_size s, Some loc).
Proof.
  intros Hl Hp Ho. unfold append_sid. rewrite (sid_at_length host p s Hp). bsimpl.
  rewrite (append_data_at _ _ _ _ (sid_bytes host s)); try done.
  - by rewrite zlen_sid_bytes by (eapply sid_at_wf, Hp).
  - by rewrite zlen_sid_size by (eapply sid_at_wf, Hp).
  - by apply sid_at_rd.
Qed.

Definition opt_bytes {A} (f : A -> mem) (o : option A) : mem := match o with Some x => f x | None => [] end.

Lemma zlen_opt_sid p s : option_Forall2 (sid_at host) p s -> zlen (opt_bytes (sid_bytes host) s) = opt_size sid_size s.
Proof. intros [p' s' Hp|]; [|done]. cbn. by rewrite zlen_sid_size by (eapply sid_at_wf, Hp). Qed.

Lemma append_opt_sid_at pre old post p s loc :
  loc = zlen pre -> option_Forall2 (sid_at host) p s -> zlen old = opt_size sid_size s ->
  append_sid (pre ++ old ++ post) loc p =
    Some (pre ++ opt_bytes (sid_bytes host) s ++ post, loc + opt_size sid_size s, (fun _ => loc) <$> s).
Proof.
  intros Hl [p' s' Hp|] Ho; [by apply append_sid_at|]. cbn in *. apply zlen_0_inv in Ho as ->.
  by rewrite Z.add_0_r.
Qed.

(** The bytes of an ACL up to its size are the same ACL. *)
Lemma acl_at_rd p a : acl_at p a ->
  exists bs, rd p 0 (acl_size a) = Some bs /\ zlen bs = acl_size a /\ forall rest, acl_at (bs ++ rest) a.
Proof.
  intros Ha. pose proof (acl_size_range _ _ Ha) as Hr. destruct Ha as (Hw & Hz & slack & ->).
  pose proof Hw as (_ & Hs & _). unfold acl_used, aces_len in Hs.
  destruct (zlen_split slack (acl_size a - 8 - zlen (concat (acl_aces a)))) as (s1 & s2 & -> & Hs1).
  { rewrite !zlen_app, zlen_acl_header in Hz. zl. }
  exists (acl_header (acl_revision a) (acl_size a) (acl_count a) ++ concat (acl_aces a) ++ s1).
  assert (Hl : zlen (acl_header (acl_revision a) (acl_size a) (acl_count a) ++ concat (acl_aces a) ++ s1) = acl_size a).
  { rewrite !zlen_app, zlen_acl_header. lia. }
  split; [|split; [done|]].
  - replace (acl_header _ _ _ ++ _ ++ s1 ++ s2)
      with ((acl_header (acl_revision a) (acl_size a) (acl_count a) ++ concat (acl_aces a) ++ s1) ++ s2)
      by (by rewrite <- !app_assoc).
    by apply rd_at_0.
  - intros rest. split; [done|]. split; [zl|]. exists (s1 ++ rest). by rewrite <- !app_assoc.
Qed.

Lemma append_opt_acl_at pre old post p a loc :
  loc = zlen pre -> option_Forall2 acl_at p a -> zlen old = opt_size acl_size a ->
  exists bs, append_acl (pre ++ old ++ post) loc p =
      Some (pre ++ bs ++ post, loc + opt_size acl_size a, (fun _ => loc) <$> a) /\
    zlen bs = opt_size acl_size a /\ forall x rest, a = Some x -> acl_at (bs ++ rest) x.
Proof.
  intros Hl [p' a' Hp|] Ho; cbn [append_acl opt_size fmap option_fmap option_map] in *.
  - destruct (acl_at_fields p' a' Hp) as (_ & _ & E & _). rewrite E. bsimpl.
    destruct (acl_at_rd p' a' Hp) as (bs & Hr & Hz & Hat). exists bs.
    rewrite (append_data_at _ _ _ _ bs) by (try done; lia). bsimpl. split; [done|]. split; [done|].
    intros x rest [= <-]. apply Hat.
  - exists []. apply zlen_0_inv in Ho as ->. by rewrite Z.add_0_r.
Qed.

Lemma groups_size_nonneg Gs gs : Forall2 group_at Gs gs -> 0 <= groups_size gs.
Proof.
  induction 1 as [|x g Gs gs (_ & p & _ & Hp) _ IH]; [done|]. cbn.
  pose proof (sid_size_range _ (sid_at_wf _ _ _ Hp)). unfold groups_size in IH. lia.
Qed.

Lemma zlen_groups_bytes Gs gs : Forall2 group_at Gs gs -> zlen (groups_bytes host gs) = groups_size gs.
Proof.
  induction 1 as [|x g Gs gs (_ & p & _ & Hp) _ IH]; [done|]. cbn [groups_bytes flat_map groups_size foldr].
  unfold groups_bytes, groups_size in IH. rewrite zlen_app, IH, zlen_sid_size by (eapply sid_at_wf, Hp). done.
Qed.

Lemma append_groups_at Gs gs : Forall2 group_at Gs gs -> forall pre old post loc,
  loc = zlen pre -> zlen old = groups_size gs ->
  append_groups (pre ++ old ++ post) loc Gs =
    Some (pre ++ groups_bytes host gs ++ post, loc + groups_size gs, group_offsets loc gs).
Proof.
  induction 1 as [|x [g attr] Gs gs (Hattr & p & Hs & Hp) HF IH]; intros pre old post loc Hl Ho.
  { apply zlen_0_inv in Ho as ->. cbn. by rewrite Z.add_0_r. }
  cbn [fst snd] in *. cbn [groups_size foldr fst] in Ho. fold (groups_size gs) in Ho.
  pose proof (sid_size_range _ (sid_at_wf _ _ _ Hp)). pose proof (groups_size_nonneg _ _ HF).
  destruct (room old (sid_size g)) as (o1 & o2 & -> & Ho1 & Ho2); [lia|]. rewrite Ho in Ho2.
  cbn [append_groups]. rewrite Hs. bsimpl. rewrite (sid_at_length host p g Hp). bsimpl.
  pose proof (zlen_sid_size host g (sid_at_wf _ _ _ Hp)) as Hzs.
  rewrite <- (app_assoc o1), (append_data_at pre o1 (o2 ++ post) p (sid_bytes host g));
    [|done|by rewrite Hzs|lia|by apply sid_at_rd]. bsimpl.
  rewrite (app_assoc pre), (IH (pre ++ sid_bytes host g) o2 post); [|rewrite zlen_app, Hzs; unfold sid_size; lia|lia].
  bsimpl. cbn [groups_bytes flat_map fst groups_size foldr group_offsets].
  rewrite <- !app_assoc, Hattr. unfold groups_bytes, groups_size, sid_size. do 3 f_equal. lia.
Qed.

Lemma padd_split pre bs post off : off = zlen pre -> padd (pre ++ bs ++ post) off = bs ++ post.
Proof. apply padd_app. Qed.

(** The SIDs of the groups, through the offsets. *)
Lemma group_offsets_at Gs gs : Forall2 group_at Gs gs -> forall pre post loc data,
  loc = zlen pre -> data = pre ++ groups_bytes host gs ++ post ->
  Forall2 group_at (map (fun '(off, attr) => {| sa_Sid := Some (padd data off); sa_Attributes := attr |})
                        (group_offsets loc gs)) gs.
Proof.
  induction 1 as [|x [g attr] Gs gs (_ & p & _ & Hp) _ IH]; intros pre post loc data Hl ->; [constructor|].
  cbn [fst] in Hp. pose proof (sid_at_wf _ _ _ Hp) as Hw.
  cbn [group_offsets map groups_bytes flat_map fst]. constructor.
  - split; [done|]. eexists. split; [done|]. rewrite <- app_assoc, padd_split by done.
    split; [done|]. eexists. done.
  - eapply (IH (pre ++ sid_bytes host g) post).
    + rewrite zlen_app, zlen_sid_size by done. lia.
    + by rewrite <- !app_assoc.
Qed.

(** ** Creation *)

Lemma check_groups_at Gs gs : Forall2 group_at Gs gs ->
  check_groups Gs = Some (if forallb (fun g => sid_valid (fst g)) gs then STATUS_SUCCESS else STATUS_INVALID_SID).
Proof.
  induction 1 as [|x g Gs gs (_ & p & Hs & Hp) _ IH]; [done|]. cbn [check_groups forallb].
  rewrite Hs, (sid_at_valid host p (fst g) Hp). bsimpl. rewrite IH. by destruct (sid_valid (fst g)).
Qed.

Lemma optional_sid_at p s :
  option_Forall2 (sid_at host) p s -> optional_sid_bad p = Some (negb (opt_valid s)).
Proof. intros [p' s' Hp|]; [|done]. cbn [optional_sid_bad]. by rewrite (sid_at_valid host p' s' Hp). Qed.

Lemma create_check_at U Gs O G D ts : contents_at U Gs O G D ts ->
  create_check U Gs O G D = Some (if ts_valid ts then STATUS_SUCCESS else STATUS_INVALID_SID).
Proof.
  intros ((Hz & pu & Eu & Hu) & Hg & Ho & Hpg & Hd). cbn [fst snd] in *.
  unfold create_check, ts_valid. rewrite Eu, (sid_at_valid host pu _ Hu), Hz. bsimpl.
  rewrite (optional_sid_at _ _ Ho), (optional_sid_at _ _ Hpg), (check_groups_at _ _ Hg).
  destruct (sid_valid (ts_user ts)); [|done]. bsimpl. cbn [negb andb].
  destruct (opt_valid (ts_owner ts)); [|done]. cbn [negb andb]. bsimpl.
  destruct (opt_valid (ts_group ts)); [|done]. cbn [negb andb]. bsimpl.
  change (0 =? 0) with true. cbn [negb]. bsimpl.
  destruct (forallb _ _); [|done]. rewrite is_ok_success. cbn [negb].
  destruct Hd as [pd a Hd|]; [|done]. by rewrite (RtlValidAcl_complete _ _ Hd).
Qed.

Lemma unix_flags (u : option TOKEN_UNIX) :
  IsSetFlag (match u with Some _ => SetFlag 0 ACCESS_TOKEN_FLAG_UNIX_PRESENT | None => 0 end)
    ACCESS_TOKEN_FLAG_UNIX_PRESENT = bool_decide (is_Some u).
Proof. by destruct u. Qed.

(** A SID behind an optional pointer into the token. *)
Lemma opt_sid_repr p s pre post data off :
  option_Forall2 (sid_at host) p s -> data = pre ++ opt_bytes (sid_bytes host) s ++ post -> off = zlen pre ->
  option_Forall2 (sid_at host) (padd data <$> ((fun _ => off) <$> s)) s.
Proof.
  intros [p' s' Hp|] -> ->; [|constructor]. cbn. rewrite padd_split by done. constructor.
  split; [eapply sid_at_wf, Hp|]. eexists. done.
Qed.

(** The seven regions of the allocation. *)
Lemma token_regions data ts Gs :
  sid_wf (ts_user ts) -> Forall2 group_at Gs (ts_groups ts) ->
  0 <= opt_size sid_size (ts_owner ts) -> 0 <= opt_size sid_size (ts_group ts) -> 0 <= opt_size acl_size (ts_dacl ts) ->
  zlen data = ts_size ts ->
  exists u arr g p o pg d, data = u ++ arr ++ g ++ p ++ o ++ pg ++ d /\
    zlen u = sid_size (ts_user ts) /\ zlen arr = sizeof_SID_AND_ATTRIBUTES * Z.of_nat (length (ts_groups ts)) /\
    zlen g = groups_size (ts_groups ts) /\ zlen p = 12 * priv_count (ts_privs ts) /\
    zlen o = opt_size sid_size (ts_owner ts) /\ zlen pg = opt_size sid_size (ts_group ts) /\
    zlen d = opt_size acl_size (ts_dacl ts).
Proof.
  intros Hu Hg Ho Hpg Hd Hz. unfold ts_size in Hz. pose proof sizeof_pointer_range.
  pose proof (groups_size_nonneg _ _ Hg). pose proof (sid_size_range _ Hu).
  assert (0 <= sizeof_SID_AND_ATTRIBUTES * Z.of_nat (length (ts_groups ts))) by (unfold sizeof_SID_AND_ATTRIBUTES; lia).
  assert (0 <= priv_count (ts_privs ts)) by (unfold priv_count; lia).
  destruct (room data (sid_size (ts_user ts))) as (u & r1 & -> & Eu & E1); [lia|]. rewrite Hz in E1.
  destruct (room r1 (sizeof_SID_AND_ATTRIBUTES * Z.of_nat (length (ts_groups ts)))) as (arr & r2 & -> & Ea & E2); [lia|].
  rewrite E1 in E2. destruct (room r2 (groups_size (ts_groups ts))) as (g & r3 & -> & Eg & E3); [lia|]. rewrite E2 in E3.
  destruct (room r3 (12 * priv_count (ts_privs ts))) as (p & r4 & -> & Ep & E4); [lia|]. rewrite E3 in E4.
  destruct (room r4 (opt_size sid_size (ts_owner ts))) as (o & r5 & -> & Eo & E5); [lia|]. rewrite E4 in E5.
  destruct (room r5 (opt_size sid_size (ts_group ts))) as (pg & d & -> & Epg & E6); [lia|]. rewrite E5 in E6.
  exists u, arr, g, p, o, pg, d. repeat (split; [done|]). lia.
Qed.

Lemma opt_sid_size_nonneg p s : option_Forall2 (sid_at host) p s -> 0 <= opt_size sid_size s.
Proof. intros [p' s' Hp|]; [|done]. cbn. pose proof (sid_size_range _ (sid_at_wf _ _ _ Hp)). lia. Qed.

Lemma opt_acl_size_nonneg p a : option_Forall2 acl_at p a -> 0 <= opt_size acl_size a.
Proof. intros [p' a' Hp|]; [|done]. cbn. pose proof (acl_size_range _ _ Hp). lia. Qed.

(** The bytes of the token: the regions in order. *)
Definition token_bytes (ts : token_spec) (arr db : mem) : mem :=
  sid_bytes host (ts_user ts) ++ arr ++ groups_bytes host (ts_groups ts) ++ privs_bytes host (ts_privs ts) ++
  opt_bytes (sid_bytes host) (ts_owner ts) ++ opt_bytes (sid_bytes host) (ts_group ts) ++ db.

Definition groups_loc (ts : token_spec) : Z :=
  sid_size (ts_user ts) + sizeof_SID_AND_ATTRIBUTES * Z.of_nat (length (ts_groups ts)).
Definition privs_loc (ts : token_spec) : Z := groups_loc ts + groups_size (ts_groups ts).
Definition owner_loc (ts : token_spec) : Z := privs_loc ts + 12 * priv_count (ts_privs ts).
Definition group_loc (ts : token_spec) : Z := owner_loc ts + opt_size sid_size (ts_owner ts).
Definition dacl_loc (ts : token_spec) : Z := group_loc ts + opt_size sid_size (ts_group ts).

Definition token_block (ts : token_spec) (arr db : mem) : TOKEN_BLOCK :=
  {| tb_ReferenceCount := 1;
     tb_Flags := match ts_unix ts with Some _ => SetFlag 0 ACCESS_TOKEN_FLAG_UNIX_PRESENT | None => 0 end;
     tb_UserAttributes := 0; tb_UserSid := 0; tb_Groups := group_offsets (groups_loc ts) (ts_groups ts);
     tb_PrivilegeCount := priv_count (ts_privs ts); tb_Privileges := privs_loc ts;
     tb_Owner := (fun _ => owner_loc ts) <$> ts_owner ts;
     tb_PrimaryGroup := (fun _ => group_loc ts) <$> ts_group ts;
     tb_DefaultDacl := (fun _ => dacl_loc ts) <$> ts_dacl ts;
     tb_Unix := match ts_unix ts with Some u => u | None => {| tu_Uid := 0; tu_Gid := 0; tu_Umask := 0 |} end;
     tb_data := token_bytes ts arr db |}.

Lemma create_fill_at U Gs O G D ts data rest :
  contents_at U Gs O G D ts -> priv_count (ts_privs ts) < 2 ^ 32 -> zlen data = ts_size ts ->
  exists arr db,
    create_fill data U Gs (encode host 4 (priv_count (ts_privs ts)) ++ privs_bytes host (ts_privs ts) ++ rest) O G D (ts_unix ts)
      = Some (token_block ts arr db, ts_size ts) /\
    zlen arr = sizeof_SID_AND_ATTRIBUTES * Z.of_nat (length (ts_groups ts)) /\
    zlen db = opt_size acl_size (ts_dacl ts) /\
    forall x r, ts_dacl ts = Some x -> acl_at (db ++ r) x.
Proof.
  intros ((Ez & pu & Eu & Hu) & Hg & Ho & Hpg & Hd) Hp Hz. cbn [fst snd] in *.
  pose proof (sid_at_wf _ _ _ Hu) as Hw. pose proof (zlen_sid_size host _ Hw) as Hzu.
  destruct (token_regions data ts Gs Hw Hg (opt_sid_size_nonneg _ _ Ho) (opt_sid_size_nonneg _ _ Hpg)
    (opt_acl_size_nonneg _ _ Hd) Hz) as (u & arr & g & p & o & pg & d & -> & Lu & La & Lg & Lp & Lo & Lpg & Ld).
  clear Hz. exists arr.
  pose proof (zlen_groups_bytes _ _ Hg) as Hzg. pose proof (zlen_opt_sid _ _ Ho) as Hzo.
  pose proof (zlen_opt_sid _ _ Hpg) as Hzpg. pose proof (zlen_privs_bytes host (ts_privs ts)) as Hzp.
  set (P := encode host 4 _ ++ _ ++ rest).
  unfold create_fill. rewrite Eu. bsimpl. rewrite (sid_at_length host pu _ Hu). bsimpl.
  change (8 + 4 * sid_count (ts_user ts)) with (sid_size (ts_user ts)).
  rewrite (append_data_at_0 u _ pu (sid_bytes host (ts_user ts))); [|done|lia|by apply (sid_at_rd host)]. bsimpl.
  rewrite (Forall2_length _ _ _ Hg).
  rewrite (app_assoc (sid_bytes host (ts_user ts))), (append_groups_at _ _ Hg) by (rewrite ?zlen_app; lia). bsimpl.
  assert (Ec : TokenPrivileges_PrivilegeCount P = Some (priv_count (ts_privs ts))).
  { unfold TokenPrivileges_PrivilegeCount, ld32, P. rewrite rd_at_0 by zl. bsimpl.
    by rewrite decode_encode by (unfold priv_count in *; lia). }
  rewrite Ec. bsimpl. unfold TokenPrivileges_Privileges, P, sizeof_TOKEN_PRIVILEGES, sizeof_LUID_AND_ATTRIBUTES.
  rewrite (padd_app (encode host 4 _)) by zl. rewrite rd_at_0 by done. bsimpl.
  rewrite <- !app_assoc, (app_assoc _ arr), (app_assoc (_ ++ arr)), wr_at by (rewrite ?zlen_app; lia). bsimpl.
  rewrite (app_assoc ((_ ++ arr) ++ _)), (append_opt_sid_at _ o _ O (ts_owner ts)) by (rewrite ?zlen_app; try done; lia). bsimpl.
  rewrite (app_assoc (((_ ++ arr) ++ _) ++ _)), (append_opt_sid_at _ pg _ G (ts_group ts)) by (rewrite ?zlen_app; try done; lia). bsimpl.
  rewrite <- (app_nil_r d), (app_assoc ((((_ ++ arr) ++ _) ++ _) ++ _)).
  edestruct (append_opt_acl_at ((((((sid_bytes host (ts_user ts) ++ arr) ++ groups_bytes host (ts_groups ts)) ++
    privs_bytes host (ts_privs ts)) ++ opt_bytes (sid_bytes host) (ts_owner ts)) ++ opt_bytes (sid_bytes host) (ts_group ts)))
    d [] D (ts_dacl ts)) as (db & -> & Hdb & Hat); [|done|done|].
  { rewrite !zlen_app, Hzu, Hzg, Hzo, Hzpg, Hzp, La. reflexivity. }
  bsimpl. exists db. split; [|by eauto]. rewrite Ez, app_nil_r. unfold token_block, token_bytes, ts_size.
  unfold dacl_loc, group_loc, owner_loc, privs_loc, groups_loc. by rewrite <- !app_assoc.
Qed.

Section Block.
Context (U : SID_AND_ATTRIBUTES) (Gs : list SID_AND_ATTRIBUTES) (O G D : ptr) (ts : token_spec).
Context (Hc : contents_at U Gs O G D ts) (arr db : mem).
Context (Harr : zlen arr = sizeof_SID_AND_ATTRIBUTES * Z.of_nat (length (ts_groups ts))).
Context (Hdb : forall x r, ts_dacl ts = Some x -> acl_at (db ++ r) x).

Lemma token_block_repr : token_repr (token_of (token_block ts arr db)) ts.
Proof using Hc Harr Hdb.
  destruct Hc as ((_ & pu & _ & Hu) & Hg & Ho & Hpg & Hd). cbn [fst] in Hu.
  pose proof (sid_at_wf _ _ _ Hu) as Hw. pose proof (zlen_sid_size host _ Hw) as Hzu.
  pose proof (zlen_groups_bytes _ _ Hg) as Hzg. pose proof (zlen_opt_sid _ _ Ho) as Hzo.
  pose proof (zlen_opt_sid _ _ Hpg) as Hzpg. pose proof (zlen_privs_bytes host (ts_privs ts)) as Hzp.
  split; [|split].
  - split; [|split; [|split; [|split]]].
    + split; [done|]. eexists. split; [done|]. split; [done|]. eexists. reflexivity.
    + eapply (group_offsets_at _ _ Hg (sid_bytes host (ts_user ts) ++ arr)).
      * rewrite zlen_app, Hzu, Harr. done.
      * unfold token_block, tb_data, token_bytes. by rewrite <- !app_assoc.
    + eapply (opt_sid_repr _ _ (sid_bytes host (ts_user ts) ++ arr ++ groups_bytes host (ts_groups ts) ++
        privs_bytes host (ts_privs ts))); [exact Ho|unfold token_block, tb_data, token_bytes; by rewrite <- !app_assoc|].
      rewrite !zlen_app, Hzu, Harr, Hzg, Hzp. unfold owner_loc, privs_loc, groups_loc. lia.
    + eapply (opt_sid_repr _ _ (sid_bytes host (ts_user ts) ++ arr ++ groups_bytes host (ts_groups ts) ++
        privs_bytes host (ts_privs ts) ++ opt_bytes (sid_bytes host) (ts_owner ts)));
        [exact Hpg|unfold token_block, tb_data, token_bytes; by rewrite <- !app_assoc|].
      rewrite !zlen_app, Hzu, Harr, Hzg, Hzp, Hzo. unfold group_loc, owner_loc, privs_loc, groups_loc. lia.
    + cbn. destruct (ts_dacl ts) as [a|] eqn:Ea; [|constructor]. cbn. constructor.
      unfold token_bytes. rewrite !app_assoc, padd_app.
      * rewrite <- (app_nil_r db). by apply Hdb.
      * rewrite !zlen_app, Hzu, Harr, Hzg, Hzp, Hzo, Hzpg. done.
  - split; [done|]. cbn. unfold token_bytes.
    exists (opt_bytes (sid_bytes host) (ts_owner ts) ++ opt_bytes (sid_bytes host) (ts_group ts) ++ db).
    rewrite !(app_assoc (sid_bytes host _)), (app_assoc (_ ++ arr)), padd_app; [done|].
    rewrite !zlen_app, Hzu, Harr, Hzg. done.
  - unfold unix_at. cbn. destruct (ts_unix ts) as [[]|]; done.
Qed.

Lemma token_block_length : zlen db = opt_size acl_size (ts_dacl ts) -> zlen (tb_data (token_block ts arr db)) = ts_size ts.
Proof using Hc Harr.
  intros Hd. destruct Hc as ((_ & pu & _ & Hu) & Hg & Ho & Hpg & _). cbn [fst] in Hu.
  unfold token_block, tb_data, token_bytes, ts_size.
  rewrite !zlen_app, (zlen_sid_size host _ (sid_at_wf _ _ _ Hu)), (zlen_groups_bytes _ _ Hg), (zlen_opt_sid _ _ Ho),
    (zlen_opt_sid _ _ Hpg), zlen_privs_bytes. lia.
Qed.

End Block.

(** The invariant of a live token: its allocation has the regions of
    [RtlCreateAccessToken] and holds [ts]. *)
Definition live_token (b : TOKEN_BLOCK) (ts : token_spec) : Prop :=
  exists arr db n U Gs O G D,
    b = set_ReferenceCount (token_block ts arr db) n /\ contents_at U Gs O G D ts /\
    zlen arr = sizeof_SID_AND_ATTRIBUTES * Z.of_nat (length (ts_groups ts)) /\
    (forall x r, ts_dacl ts = Some x -> acl_at (db ++ r) x).

Lemma live_token_repr b ts : live_token b ts -> token_repr (token_of b) ts.
Proof.
  intros (arr & db & n & U & Gs & O & G & D & -> & Hc & Harr & Hdb).
  apply (token_block_repr U Gs O G D ts Hc arr db Harr Hdb).
Qed.

Lemma live_token_set_ref b ts n : live_token b ts -> live_token (set_ReferenceCount b n) ts.
Proof.
  intros (arr & db & m & U & Gs & O & G & D & -> & H3). exists arr, db, n, U, Gs, O, G, D. split; [done|exact H3].
Qed.

(** The status of [RtlCreateAccessToken] on these contents. *)
Definition create_status (ts : token_spec) (malloc : Z -> bool) (lock : option NTSTATUS) : NTSTATUS :=
  if negb (ts_valid ts) then STATUS_INVALID_SID
  else if 2 ^ 32 <=? sizeof_ACCESS_TOKEN + ts_size ts then STATUS_INTEGER_OVERFLOW
  else if negb (malloc (sizeof_ACCESS_TOKEN + ts_size ts)) then STATUS_INSUFFICIENT_RESOURCES
  else match lock with Some status => status | None => STATUS_SUCCESS end.

Lemma create_cleanup_fail st b : NT_SUCCESS st = false -> b = None \/ (exists t, b = Some t /\ tb_ReferenceCount t = 1) ->
  create_cleanup st b = Some (st, None).
Proof.
  intros Hs Hb. unfold create_cleanup. rewrite Hs. cbn [negb]. destruct Hb as [-> | (t & -> & Ht)]; [done|].
  cbn [RtlReleaseAccessToken]. rewrite Ht. done.
Qed.

Lemma RtlCreateAccessToken_spec malloc lock U Gs O G D ts rest :
  contents_at U Gs O G D ts ->
  Z.of_nat (length (ts_groups ts)) < 2 ^ 32 -> priv_count (ts_privs ts) < 2 ^ 32 ->
  (forall st, lock = Some st -> NT_SUCCESS st = false) ->
  exists tok,
    RtlCreateAccessToken malloc lock (Some U) (Some Gs)
      (Some (encode host 4 (priv_count (ts_privs ts)) ++ privs_bytes host (ts_privs ts) ++ rest))
      (Some O) (Some G) (Some D) (ts_unix ts) = Some (create_status ts malloc lock, tok) /\
    (create_status ts malloc lock <> STATUS_SUCCESS -> tok = None) /\
    (create_status ts malloc lock = STATUS_SUCCESS ->
      exists b, tok = Some b /\ tb_ReferenceCount b = 1 /\ live_token b ts /\ token_repr (token_of b) ts /\
                zlen (tb_data b) = ts_size ts).
Proof.
  intros Hc Hn Hp Hlock. unfold RtlCreateAccessToken, create_status.
  assert (exists pu, sa_Sid U = Some pu) as (pu & ->) by (destruct Hc as ((_ & pu & Eu & _) & _); eauto).
  rewrite (create_check_at _ _ _ _ _ _ Hc). bsimpl. destruct (ts_valid ts); cbn [negb].
  2: { cbn [is_ok bool_decide NTSTATUS_eq_dec decide]. exists None. rewrite create_cleanup_fail by auto. done. }
  rewrite is_ok_success. cbn [negb].
  edestruct (create_size_at U Gs _ O G D ts (privs_bytes host (ts_privs ts) ++ rest) Hc Hn Hp eq_refl) as ((st & n) & -> & Hacc & Hst). bsimpl.
  destruct (Z.ltb_spec (sizeof_ACCESS_TOKEN + ts_size ts) (2 ^ 32)) as [Hlt|Hge].
  2: { cbn [fst] in Hst. subst st. destruct (Z.leb_spec (2 ^ 32) (sizeof_ACCESS_TOKEN + ts_size ts)); [|lia].
       cbn [is_ok bool_decide NTSTATUS_eq_dec decide]. exists None. rewrite create_cleanup_fail by auto. done. }
  injection Hst as -> ->. rewrite is_ok_success. cbn [negb].
  destruct (Z.leb_spec (2 ^ 32) (sizeof_ACCESS_TOKEN + ts_size ts)); [lia|].
  destruct (malloc _); cbn [negb]; [|exists None; rewrite create_cleanup_fail by auto; done].
  destruct lock as [st|].
  { rewrite create_cleanup_fail by eauto. eexists. split; [done|]. split; [done|]. intros ->.
    by specialize (Hlock _ eq_refl). }
  bsimpl. replace (sizeof_ACCESS_TOKEN + ts_size ts - sizeof_ACCESS_TOKEN) with (ts_size ts) by lia.
  assert (Hpos : 0 <= ts_size ts).
  { destruct Hc as ((_ & p' & _ & Hu) & Hg & Ho & Hpg & Hd). pose proof (sid_size_range _ (sid_at_wf _ _ _ Hu)).
    pose proof (groups_size_nonneg _ _ Hg). pose proof (opt_sid_size_nonneg _ _ Ho).
    pose proof (opt_sid_size_nonneg _ _ Hpg). pose proof (opt_acl_size_nonneg _ _ Hd).
    pose proof sizeof_pointer_range. unfold ts_size, priv_count, sizeof_SID_AND_ATTRIBUTES. cbn [fst] in *. nia. }
  destruct (create_fill_at U Gs O G D ts (zeros (ts_size ts)) rest Hc Hp) as (arr & db & -> & Harr & Hdb & Hacl);
    [by rewrite zlen_zeros|].
  bsimpl. rewrite Z.eqb_refl. cbn [negb]. eexists. split; [done|]. split; [done|]. intros _.
  exists (token_block ts arr db). split; [done|]. split; [done|].
  split; [exists arr, db, 1, U, Gs, O, G, D; split; [done|]; split; [done|]; by split|]. split; [by eapply token_block_repr|by eapply token_block_length].
Qed.

(** C6: [RtlCreateAccessToken] copies a token's contents: given pointers to
    SIDs, privileges and a default DACL, it checks the SIDs, computes the size of
    the allocation without overflow (or reports the overflow), and the token it
    returns, with one reference, holds the same user, groups, privileges,
    owner, primary group, default DACL and Unix identity, in an allocation it
    fills exactly (the final assertion never fails). On every failure no token
    is left behind. *)
Theorem RtlCreateAccessToken_correct malloc lock U Gs O G D ts rest :
  contents_at U Gs O G D ts ->
  Z.of_nat (length (ts_groups ts)) < 2 ^ 32 -> priv_count (ts_privs ts) < 2 ^ 32 ->
  (forall st, lock = Some st -> NT_SUCCESS st = false) ->
  exists tok,
    RtlCreateAccessToken malloc lock (Some U) (Some Gs)
      (Some (encode host 4 (priv_count (ts_privs ts)) ++ privs_bytes host (ts_privs ts) ++ rest))
      (Some O) (Some G) (Some D) (ts_unix ts) = Some (create_status ts malloc lock, tok) /\
    (create_status ts malloc lock <> STATUS_SUCCESS -> tok = None) /\
    (create_status ts malloc lock = STATUS_SUCCESS ->
      exists b, tok = Some b /\ tb_ReferenceCount b = 1 /\ live_token b ts /\ token_repr (token_of b) ts /\
                zlen (tb_data b) = ts_size ts).
Proof. apply RtlCreateAccessToken_spec. Qed.

(** * References *)

Inductive ref_op := Reference | Release.

(** The holders left after the operations; [None] when one of them uses the
    token after the last holder gave it up. *)
Fixpoint holders (n : Z) (ops : list ref_op) : option Z :=
  match ops with
  | [] => Some n
  | op :: ops' => if n <=? 0 then None else holders (match op with Reference => n + 1 | Release => n - 1 end) ops'
  end.

(** The operations on one token, by whatever threads, in the order in which
    their atomic updates happen; [None] is a use of freed memory or a failed
    assertion. *)
Fixpoint run_refs (token : option TOKEN_BLOCK) (ops : list ref_op) : option (option TOKEN_BLOCK) :=
  match ops, token with
  | [], _ => Some token
  | _, None => None
  | Reference :: ops', Some t => run_refs (Some (RtlReferenceAccessToken t)) ops'
  | Release :: ops', Some t => token ← RtlReleaseAccessToken (Some t); run_refs token ops'
  end.

Lemma s32_small x : - 2 ^ 31 <= x < 2 ^ 31 -> s32 x = x.
Proof. intros. unfold s32. rewrite Z.mod_small by lia. lia. Qed.

Lemma run_refs_holders ops : forall b n, 0 < n -> n + Z.of_nat (length ops) < 2 ^ 31 ->
  run_refs (Some (set_ReferenceCount b n)) ops =
    (fun m => if m =? 0 then None else Some (set_ReferenceCount b m)) <$> holders n ops.
Proof.
  induction ops as [|op ops IH]; intros b n Hn Hl; cbn [run_refs holders length] in *.
  { cbn. destruct (Z.eqb_spec n 0); [lia|done]. }
  destruct (Z.leb_spec n 0); [lia|]. destruct op.
  - unfold RtlReferenceAccessToken. cbn [tb_ReferenceCount set_ReferenceCount]. rewrite s32_small by lia.
    apply (IH b (n + 1)); lia.
  - cbn [RtlReleaseAccessToken tb_ReferenceCount set_ReferenceCount]. rewrite s32_small by lia.
    destruct (Z.ltb_spec (n - 1) 0); [lia|]. destruct (Z.eqb_spec (n - 1) 0) as [Hz|Hz]; bsimpl.
    + rewrite Hz. destruct ops as [|[] ops]; done.
    + apply (IH b (n - 1)); lia.
Qed.

(** C36: a token is freed exactly once and at the right moment: in any sequence of
    [RtlReferenceAccessToken] and [RtlReleaseAccessToken] on a token with [n]
    references, the token is freed by the release that gives up the last
    reference and by no other, nothing but the count changes before, and the
    sequence goes wrong exactly when it goes on after that. *)
Theorem token_references_correct b n ops :
  tb_ReferenceCount b = n -> 0 < n -> n + Z.of_nat (length ops) < 2 ^ 31 ->
  run_refs (Some b) ops =
    (fun m => if m =? 0 then None else Some (set_ReferenceCount b m)) <$> holders n ops.
Proof. intros <- ? ?. rewrite <- run_refs_holders by done. by destruct b. Qed.

(** * Queries *)

(** The bytes a query of the class needs; [None] when the class is unknown, or
    when the token has no such part. *)
Definition query_need (ts : token_spec) (class : Z) : option Z :=
  if class =? TokenUser then Some (sizeof_TOKEN_USER + sid_size (ts_user ts))
  else if class =? TokenGroups then
    Some (sizeof_SID_AND_ATTRIBUTES * Z.of_nat (length (ts_groups ts)) + sizeof_TOKEN_GROUPS + groups_size (ts_groups ts))
  else if class =? TokenPrivileges then Some (12 * priv_count (ts_privs ts) + 4)
  else if class =? TokenOwner then (fun s => sizeof_TOKEN_OWNER + sid_size s) <$> ts_owner ts
  else if class =? TokenPrimaryGroup then (fun s => sizeof_TOKEN_PRIMARY_GROUP + sid_size s) <$> ts_group ts
  else if class =? TokenDefaultDacl then Some (sizeof_TOKEN_DEFAULT_DACL + opt_size acl_size (ts_dacl ts))
  else None.

(** What the caller finds in its buffer. *)
Definition info_at (class : Z) (info : TOKEN_INFORMATION) (buf : mem) (ts : token_spec) : Prop :=
  match info with
  | InfoUser attr off => class = TokenUser /\ attr = 0 /\ sid_at host (padd buf off) (ts_user ts)
  | InfoGroups l =>
      class = TokenGroups /\
      Forall2 group_at (map (fun '(off, attr) => {| sa_Sid := Some (padd buf off); sa_Attributes := attr |}) l)
        (ts_groups ts)
  | InfoPrivileges =>
      class = TokenPrivileges /\
      exists count, TokenPrivileges_PrivilegeCount buf = Some count /\
                    privileges_at count (TokenPrivileges_Privileges buf) (ts_privs ts)
  | InfoOwner off => class = TokenOwner /\ exists s, ts_owner ts = Some s /\ sid_at host (padd buf off) s
  | InfoPrimaryGroup off => class = TokenPrimaryGroup /\ exists s, ts_group ts = Some s /\ sid_at host (padd buf off) s
  | InfoDefaultDacl off => class = TokenDefaultDacl /\ option_Forall2 acl_at (padd buf <$> off) (ts_dacl ts)
  end.

Lemma safe_add_at a b : 0 <= a < 2 ^ 32 -> 0 <= b < 2 ^ 32 -> acc_at (RtlSafeAddULONG a b) (a + b).
Proof.
  intros Ha Hb. pose proof (add_size_at (STATUS_SUCCESS, a) a b) as Hq. unfold add_size in Hq. cbn [fst snd] in Hq.
  rewrite is_ok_success in Hq. apply Hq; [|done]. split; [lia|]. destruct (Z.ltb_spec a (2 ^ 32)); [done|lia].
Qed.

Lemma safe_mul_at a b : 0 <= a < 2 ^ 32 -> 0 <= b < 2 ^ 32 -> acc_at (RtlSafeMultiplyULONG a b) (a * b).
Proof.
  intros Ha Hb. unfold RtlSafeMultiplyULONG, u32. split; [nia|].
  destruct (Z.ltb_spec 0xFFFFFFFF (a * b)); destruct (Z.ltb_spec (a * b) (2 ^ 32)); try lia; [done|].
  rewrite Z.mod_small by nia. done.
Qed.

Lemma acl_size_at p a : option_Forall2 acl_at p a ->
  (match p with Some x => Acl_AclSize x | None => Some 0 end) = Some (opt_size acl_size a) /\
  0 <= opt_size acl_size a < 2 ^ 32.
Proof.
  intros [p' a' Hp|]; [|done]. pose proof (acl_size_range _ _ Hp). destruct (acl_at_fields p' a' Hp) as (_ & _ & -> & _).
  cbn [opt_size]. split; [done|lia].
Qed.

Lemma layout_sizes :
  0 < sizeof_SID_AND_ATTRIBUTES < 2 ^ 32 /\ 0 < sizeof_pointer < 2 ^ 32.
Proof. pose proof sizeof_pointer_range. unfold sizeof_SID_AND_ATTRIBUTES. lia. Qed.

(** The class of a query, case by case. *)
Ltac query_class class :=
  destruct (Z.eqb_spec class TokenUser) as [->|?];
  [|destruct (Z.eqb_spec class TokenGroups) as [->|?];
  [|destruct (Z.eqb_spec class TokenPrivileges) as [->|?];
  [|destruct (Z.eqb_spec class TokenOwner) as [->|?];
  [|destruct (Z.eqb_spec class TokenPrimaryGroup) as [->|?];
  [|destruct (Z.eqb_spec class TokenDefaultDacl) as [->|?]]]]]].

Lemma sid_part_size p s n : option_Forall2 (sid_at host) p s -> n < 2 ^ 32 ->
  (fun s => sizeof_pointer + sid_size s) <$> s = Some n ->
  exists q x, p = Some q /\ s = Some x /\ sid_at host q x /\ n = sizeof_pointer + sid_size x.
Proof. intros [q x Hq|] Hn E; [|done]. injection E as <-. by exists q, x. Qed.

Lemma query_size_at T ts class n :
  token_repr T ts -> query_need ts class = Some n -> n < 2 ^ 32 ->
  Z.of_nat (length (ts_groups ts)) < 2 ^ 32 ->
  query_size T class = Some (STATUS_SUCCESS, n) /\ 0 < n.
Proof.
  intros (((_ & pu & Eu & Hu) & Hg & Ho & Hpg & Hd) & (Hpc & _) & _) Hq Hn Hlen. cbn [fst] in Hu.
  destruct layout_sizes as [Hs1 Hs2].
  assert (Hsid : forall q x, sid_at host q x -> 0 < sid_size x < 2 ^ 32).
  { intros q x Hx. pose proof (sid_size_range x (sid_at_wf _ _ _ Hx)). lia. }
  assert (Hfin : forall acc m, acc_at acc m -> m = n -> acc = (STATUS_SUCCESS, n)).
  { intros acc m [_ Ha] ->. by destruct (Z.ltb_spec n (2 ^ 32)); [|lia]. }
  unfold query_size, query_need in *. query_class class; [| | | | | |done].
  - pose proof (Hsid _ _ Hu). rewrite Eu. bsimpl. rewrite (sid_at_length host pu _ Hu). bsimpl.
    change (8 + 4 * sid_count (ts_user ts)) with (sid_size (ts_user ts)). injection Hq as Hq. unfold sizeof_TOKEN_USER in *.
    split; [|lia]. f_equal. eapply Hfin; [apply safe_add_at; lia|done].
  - injection Hq as Hq. rewrite (Forall2_length _ _ _ Hg). pose proof (groups_size_nonneg _ _ Hg). unfold sizeof_TOKEN_GROUPS in *.
    assert (Hm : acc_at (RtlSafeMultiplyULONG sizeof_SID_AND_ATTRIBUTES (Z.of_nat (length (ts_groups ts))))
      (sizeof_SID_AND_ATTRIBUTES * Z.of_nat (length (ts_groups ts)))) by (apply safe_mul_at; lia).
    apply (add_size_at _ _ sizeof_pointer) in Hm; [|lia].
    destruct (add_groups_at _ _ Hg _ _ Hm) as (acc & -> & Ha).
    split; [|nia]. f_equal. by eapply Hfin.
  - injection Hq as Hq. rewrite Hpc. assert (0 <= priv_count (ts_privs ts)) by (unfold priv_count; lia).
    split; [|lia]. f_equal. eapply Hfin; [apply add_size_at; [apply safe_mul_at|]|done]; unfold sizeof_LUID_AND_ATTRIBUTES, sizeof_TOKEN_PRIVILEGES; lia.
  - destruct (sid_part_size _ _ _ Ho Hn Hq) as (q & x & -> & _ & Hx & ->). pose proof (Hsid _ _ Hx). bsimpl.
    rewrite (sid_at_length host q x Hx). bsimpl. change (8 + 4 * sid_count x) with (sid_size x).
    split; [|lia]. f_equal. eapply Hfin; [apply safe_add_at; unfold sizeof_TOKEN_OWNER; lia|done].
  - destruct (sid_part_size _ _ _ Hpg Hn Hq) as (q & x & -> & _ & Hx & ->). pose proof (Hsid _ _ Hx). bsimpl.
    rewrite (sid_at_length host q x Hx). bsimpl. change (8 + 4 * sid_count x) with (sid_size x).
    split; [|lia]. f_equal. eapply Hfin; [apply safe_add_at; unfold sizeof_TOKEN_PRIMARY_GROUP; lia|done].
  - injection Hq as Hq. destruct (acl_size_at _ _ Hd) as [-> Hr]. bsimpl. unfold sizeof_TOKEN_DEFAULT_DACL in *.
    split; [|lia]. f_equal. eapply Hfin; [apply safe_add_at; lia|done].
Qed.

(** The copy of one SID after the header of the caller's structure. *)
Lemma query_copy_sid hdr buf p s : 
  0 <= hdr -> sid_at host p s -> hdr + sid_size s <= zlen buf ->
  exists buf', RtlpAppendData buf hdr p (sid_size s) = Some (buf', hdr + sid_size s) /\
    zlen buf' = zlen buf /\ sid_at host (padd buf' hdr) s.
Proof.
  intros Hh Hp Hz. pose proof (sid_at_wf _ _ _ Hp) as Hw. pose proof (sid_size_range s Hw).
  destruct (room buf hdr) as (h & r & -> & Hhl & Hrl); [lia|].
  destruct (room r (sid_size s)) as (o & t & -> & Hol & _); [lia|].
  pose proof (zlen_sid_size host s Hw) as Hzs.
  rewrite (append_data_at h o t p (sid_bytes host s)); [|done|done|lia|by apply (sid_at_rd host)].
  eexists. split; [done|]. split; [rewrite !zlen_app; lia|]. rewrite padd_app by done. split; [done|]. by eexists.
Qed.

(** The copy of the privileges. *)
Lemma query_copy_privileges l rest buf :
  12 * priv_count l + 4 < 2 ^ 32 -> 12 * priv_count l + 4 <= zlen buf ->
  exists b1 b2, st32 buf 0 (priv_count l) = Some b1 /\
    (if priv_count l =? 0 then Some b1
     else bs ← rd (privs_bytes host l ++ rest) 0 (sizeof_LUID_AND_ATTRIBUTES * priv_count l);
          wr b1 sizeof_TOKEN_PRIVILEGES bs) = Some b2 /\
    zlen b2 = zlen buf /\
    exists count, TokenPrivileges_PrivilegeCount b2 = Some count /\
                  privileges_at count (TokenPrivileges_Privileges b2) l.
Proof.
  intros Hn Hz. assert (0 <= priv_count l) by (unfold priv_count; lia).
  pose proof (zlen_privs_bytes host l) as Hzp.
  destruct (room buf 4) as (h & r & -> & Hh & Hr); [lia|].
  destruct (room r (12 * priv_count l)) as (o & t & -> & Hol & _); [lia|].
  exists (encode host 4 (priv_count l) ++ o ++ t), (encode host 4 (priv_count l) ++ privs_bytes host l ++ t).
  unfold st32. rewrite wr_at_0 by zl. split; [done|]. split.
  { destruct (Z.eqb_spec (priv_count l) 0) as [E|E].
    - rewrite E in Hol, Hzp. apply zlen_0_inv in Hol as ->. apply zlen_0_inv in Hzp as ->. done.
    - rewrite rd_at_0 by done. bsimpl. apply wr_at; [unfold sizeof_TOKEN_PRIVILEGES; zl|lia]. }
  split; [rewrite !zlen_app, zlen_encode; lia|]. exists (priv_count l).
  unfold TokenPrivileges_PrivilegeCount, TokenPrivileges_Privileges, ld32, sizeof_TOKEN_PRIVILEGES.
  rewrite rd_at_0 by zl. bsimpl. rewrite decode_encode by lia. split; [done|].
  rewrite padd_app by zl. split; [done|]. by eexists.
Qed.

Lemma query_copy_at T ts class n buf :
  token_repr T ts -> query_need ts class = Some n -> n < 2 ^ 32 -> n <= zlen buf ->
  exists info buf', query_copy T class buf = Some (info, buf', n) /\ zlen buf' = zlen buf /\ info_at class info buf' ts.
Proof.
  intros (((Ez & pu & Eu & Hu) & Hg & Ho & Hpg & Hd) & (Hpc & prest & Hp) & _) Hq Hn Hz. cbn [fst snd] in *.
  destruct layout_sizes as [Hs1 Hs2]. unfold query_copy, query_need in *. query_class class; [| | | | | |done].
  - injection Hq as <-. rewrite Eu. bsimpl. rewrite (sid_at_length host pu _ Hu). bsimpl.
    destruct (query_copy_sid sizeof_TOKEN_USER buf pu (ts_user ts)) as (buf' & E & Hl & Hat); [unfold sizeof_TOKEN_USER; lia|done..|].
    unfold sid_size in E |- * at 1. rewrite E. bsimpl. do 2 eexists. split; [done|]. split; [done|]. by rewrite Ez.
  - injection Hq as <-. pose proof (groups_size_nonneg _ _ Hg). rewrite (Forall2_length _ _ _ Hg). unfold sizeof_TOKEN_GROUPS in *.
    destruct (room buf (sizeof_pointer + sizeof_SID_AND_ATTRIBUTES * Z.of_nat (length (ts_groups ts))))
      as (h & r & -> & Hh & Hr); [nia|].
    destruct (room r (groups_size (ts_groups ts))) as (o & t & -> & Hol & _); [nia|].
    rewrite (append_groups_at _ _ Hg) by done. bsimpl. do 2 eexists. split; [do 3 f_equal; lia|].
    split; [rewrite !zlen_app, (zlen_groups_bytes _ _ Hg); lia|]. split; [done|].
    by eapply (group_offsets_at _ _ Hg h t).
  - injection Hq as <-. rewrite Hpc, Hp. destruct (query_copy_privileges (ts_privs ts) prest buf Hn Hz) as (b1 & b2 & -> & Hb2 & Hl & Hat).
    bsimpl. rewrite Hb2. bsimpl. exists InfoPrivileges, b2. split; [by rewrite Z.add_comm|]. by split.
  - destruct (sid_part_size _ _ _ Ho Hn Hq) as (q & x & -> & Ex & Hx & ->). bsimpl. rewrite (sid_at_length host q x Hx). bsimpl.
    destruct (query_copy_sid sizeof_TOKEN_OWNER buf q x) as (buf' & E & Hl & Hat); [unfold sizeof_TOKEN_OWNER; lia|done..|].
    unfold sid_size in E |- * at 1. rewrite E. bsimpl. do 2 eexists. split; [done|]. split; [done|]. split; [done|]. by eauto.
  - destruct (sid_part_size _ _ _ Hpg Hn Hq) as (q & x & -> & Ex & Hx & ->). bsimpl. rewrite (sid_at_length host q x Hx). bsimpl.
    destruct (query_copy_sid sizeof_TOKEN_PRIMARY_GROUP buf q x) as (buf' & E & Hl & Hat); [unfold sizeof_TOKEN_PRIMARY_GROUP; lia|done..|].
    unfold sid_size in E |- * at 1. rewrite E. bsimpl. do 2 eexists. split; [done|]. split; [done|]. split; [done|]. by eauto.
  - injection Hq as <-. unfold sizeof_TOKEN_DEFAULT_DACL in *. pose proof (opt_acl_size_nonneg _ _ Hd).
    destruct (room buf sizeof_pointer) as (h & r & -> & Hh & Hr); [lia|].
    destruct (room r (opt_size acl_size (ts_dacl ts))) as (o & t & -> & Hol & _); [lia|].
    destruct (append_opt_acl_at h o t (DefaultDacl T) (ts_dacl ts) sizeof_pointer) as (bs & -> & Hbs & Hat); [done..|].
    bsimpl. do 2 eexists. split; [done|]. split; [rewrite !zlen_app; lia|]. split; [done|].
    destruct (ts_dacl ts) as [a|]; [|constructor]. cbn. rewrite padd_app by done. constructor. by apply Hat.
Qed.

(** The calls of a query: without a buffer, with one that is too short, and with
    one that is long enough. *)
Lemma query_information_at T ts class n :
  token_repr T ts -> query_need ts class = Some n -> n < 2 ^ 32 -> Z.of_nat (length (ts_groups ts)) < 2 ^ 32 ->
  RtlQueryAccessTokenInformation (Some T) class None 0 true = Some (STATUS_BUFFER_TOO_SMALL, None, n) /\
  (forall buf, zlen buf < n ->
    RtlQueryAccessTokenInformation (Some T) class (Some buf) (zlen buf) true = Some (STATUS_BUFFER_TOO_SMALL, None, n)) /\
  (forall buf, n <= zlen buf ->
    exists info buf',
      RtlQueryAccessTokenInformation (Some T) class (Some buf) (zlen buf) true = Some (STATUS_SUCCESS, Some (info, buf'), n) /\
      zlen buf' = zlen buf /\ info_at class info buf' ts).
Proof.
  intros HT Hq Hn Hlen. destruct (query_size_at T ts class n HT Hq Hn Hlen) as [Hs Hpos].
  unfold RtlQueryAccessTokenInformation. cbn [negb]. rewrite Hs. okstep.
  split; [|split].
  - rewrite bool_decide_eq_true_2 by done. change (0 =? 0) with true. cbn [negb andb].
    by destruct (Z.ltb_spec 0 n); [|lia].
  - intros buf Hb. rewrite bool_decide_eq_false_2 by done. cbn [andb]. by destruct (Z.ltb_spec (zlen buf) n); [|lia].
  - intros buf Hb. rewrite bool_decide_eq_false_2 by done. cbn [andb]. destruct (Z.ltb_spec (zlen buf) n); [lia|].
    destruct (query_copy_at T ts class n buf HT Hq Hn Hb) as (info & buf' & -> & Hl & Hi). bsimpl.
    rewrite Z.eqb_refl. by exists info, buf'.
Qed.

(** the two-call protocol of [RtlQueryAccessTokenInformation]: for each class of
    information the token has, a call without a buffer, or with one that is too
    short, reports the length needed and stores nothing; a call with a buffer of
    at least that length succeeds, reports the same length, stays within it, and
    the structure in the buffer then leads to copies of the token's SIDs, groups,
    privileges or ACL. The Unix identity is returned when the token has one. *)
Theorem RtlQueryAccessTokenInformation_correct T ts class n :
  token_repr T ts -> query_need ts class = Some n -> n < 2 ^ 32 -> Z.of_nat (length (ts_groups ts)) < 2 ^ 32 ->
  RtlQueryAccessTokenInformation (Some T) class None 0 true = Some (STATUS_BUFFER_TOO_SMALL, None, n) /\
  (forall buf, zlen buf < n ->
    RtlQueryAccessTokenInformation (Some T) class (Some buf) (zlen buf) true = Some (STATUS_BUFFER_TOO_SMALL, None, n)) /\
  (forall buf, n <= zlen buf ->
    exists info buf',
      RtlQueryAccessTokenInformation (Some T) class (Some buf) (zlen buf) true = Some (STATUS_SUCCESS, Some (info, buf'), n) /\
      zlen buf' = zlen buf /\ info_at class info buf' ts) /\
  RtlQueryAccessTokenUnixInformation (Some T) =
    match ts_unix ts with
    | Some u => (STATUS_SUCCESS, u)
    | None => (STATUS_NOT_FOUND, {| tu_Uid := 0; tu_Gid := 0; tu_Umask := 0 |})
    end.
Proof.
  intros HT Hq Hn Hlen. destruct (query_information_at T ts class n HT Hq Hn Hlen) as (H1 & H2 & H3). do 3 (split; [done|]).
  destruct HT as (_ & _ & Hu). unfold unix_at in Hu. cbn [RtlQueryAccessTokenUnixInformation].
  destruct (ts_unix ts) as [u|]; [destruct Hu as [-> <-]|rewrite Hu]; done.
Qed.
End Representation.

(** * Concrete inputs *)

#[local] Existing Instance demo_host.

Definition demo_layout : Layout.
Proof. refine {| sizeof_pointer := 8; sizeof_ACCESS_TOKEN := 184 |}; lia. Defined.
#[local] Existing Instance demo_layout.

Definition shutdown_privilege : LUID_AND_ATTRIBUTES := {| la_Luid := {| LowPart := 19; HighPart := 0 |}; la_Attributes := 2 |}.
Definition backup_privilege : LUID_AND_ATTRIBUTES := {| la_Luid := {| LowPart := 17; HighPart := 0 |}; la_Attributes := 0 |}.

Definition demo_ts : token_spec :=
  mk_ts sid_domain [(sid_builtin, 4); (sid_admins, 0)] [shutdown_privilege; backup_privilege] (Some sid_domain) None None
    (Some {| tu_Uid := 1000; tu_Gid := 100; tu_Umask := 18 |}).

Definition demo_sa (s : sid) (a : Z) : SID_AND_ATTRIBUTES := {| sa_Sid := Some (demo_image s); sa_Attributes := a |}.

Lemma demo_contents :
  contents_at (demo_sa sid_domain 0) [demo_sa sid_builtin 4; demo_sa sid_admins 0] (Some (demo_image sid_domain)) None None demo_ts.
Proof.
  assert (Hk : forall s a, s ∈ [sid_system; sid_builtin; sid_admins; sid_domain] -> group_at (demo_sa s a) (s, a)).
  { intros s a Hs. split; [done|]. eexists. split; [done|]. by apply known_sid_wf. }
  split; [|split; [|split; [|split]]]; [| | |constructor..].
  - apply Hk. set_solver.
  - repeat constructor; apply Hk; set_solver.
  - constructor. apply known_sid_wf. set_solver.
Qed.

Lemma RtlCreateAccessToken_correct_witness :
  exists b, RtlCreateAccessToken (fun _ => true) None (Some (demo_sa sid_domain 0)) (Some [demo_sa sid_builtin 4; demo_sa sid_admins 0])
    (Some (encode LittleEndian 4 2 ++ privs_bytes LittleEndian [shutdown_privilege; backup_privilege] ++ [])) (Some (Some (demo_image sid_domain)))
    (Some None) (Some None) (Some {| tu_Uid := 1000; tu_Gid := 100; tu_Umask := 18 |}) = Some (STATUS_SUCCESS, Some b) /\
    token_repr (token_of b) demo_ts.
Proof.
  destruct (RtlCreateAccessToken_correct (fun _ => true) None _ _ _ _ _ demo_ts [] demo_contents)
    as (tok & E & _ & Hok); [done..|].
  destruct Hok as (b & -> & _ & _ & Hr & _); [done|]. exists b. split; [exact E|exact Hr].
Defined.

Definition demo_block : TOKEN_BLOCK :=
  token_block demo_ts (zeros 32) [].

Lemma demo_block_live : live_token demo_block demo_ts.
Proof. do 2 eexists. exists 1. do 5 eexists. split; [done|]. split; [apply demo_contents|]. done. Qed.

Lemma demo_block_repr : token_repr (token_of demo_block) demo_ts.
Proof. apply live_token_repr, demo_block_live. Qed.

Lemma token_references_correct_witness :
  run_refs (Some demo_block) [Reference; Release; Reference; Release; Release] = Some None.
Proof. rewrite (token_references_correct demo_block 1); [reflexivity|reflexivity|lia|reflexivity]. Defined.

Lemma RtlQueryAccessTokenInformation_correct_witness :
  RtlQueryAccessTokenInformation (Some (token_of demo_block)) TokenGroups None 0 true = Some (STATUS_BUFFER_TOO_SMALL, None, 68).
Proof. by apply (RtlQueryAccessTokenInformation_correct _ demo_ts TokenGroups 68 demo_block_repr). Defined.
