(* ===== verification/Privilege.v ===== *)
(** Privileges of a token: [RtlPrivilegeCheck], [RtlpAppendTokenPrivileges] and
    [RtlAdjustTokenPrivileges] of [lwbase/src/security-token.c], and
    [lwbase/src/security-privileges.c].

    The array of privileges lies inside the allocation of the token, in front of
    the owner, the primary group and the default DACL: the operations below read
    and write it there. *)

From S2P Require Import Prelude SecurityTypes Sid Acl Token TokenState.

(** * Data *)

(** The array [Privilege] with its count. *)
Record PRIVILEGE_SET := {
  ps_Control : Z;
  ps_Privilege : list LUID_AND_ATTRIBUTES
}.

(** The variables of [RtlAdjustTokenPrivileges]. *)
Record adjust_state := {
  as_status : NTSTATUS;
  as_Privileges : mem;
  as_PrivilegeCount : Z;
  as_PreviousState : ptr;
  as_returnedIndex : Z;
  as_BufferUsed : Z;
  as_adjustedCount : Z
}.

Definition set_attributes (p : LUID_AND_ATTRIBUTES) (attr : Z) : LUID_AND_ATTRIBUTES :=
  {| la_Luid := la_Luid p; la_Attributes := attr |}.

Definition set_status (st : adjust_state) (status : NTSTATUS) : adjust_state :=
  {| as_status := status; as_Privileges := as_Privileges st; as_PrivilegeCount := as_PrivilegeCount st;
     as_PreviousState := as_PreviousState st; as_returnedIndex := as_returnedIndex st;
     as_BufferUsed := as_BufferUsed st; as_adjustedCount := as_adjustedCount st |}.

Definition set_privileges (b : TOKEN_BLOCK) (count : Z) (data : mem) : TOKEN_BLOCK :=
  {| tb_ReferenceCount := tb_ReferenceCount b; tb_Flags := tb_Flags b; tb_UserAttributes := tb_UserAttributes b;
     tb_UserSid := tb_UserSid b; tb_Groups := tb_Groups b; tb_PrivilegeCount := count;
     tb_Privileges := tb_Privileges b; tb_Owner := tb_Owner b; tb_PrimaryGroup := tb_PrimaryGroup b;
     tb_DefaultDacl := tb_DefaultDacl b; tb_Unix := tb_Unix b; tb_data := data |}.

Section Operations.
Context `{Host}.

(** A [LUID_AND_ATTRIBUTES] in memory, and its stores. *)
Definition ld_privilege (m : mem) (off : Z) : option LUID_AND_ATTRIBUTES :=
  lo ← ld32 m off;
  hi ← ld32 m (off + 4);
  a ← ld32 m (off + 8);
  Some {| la_Luid := {| LowPart := lo; HighPart := hi |}; la_Attributes := a |}.

Definition st_attributes (m : mem) (off attr : Z) : option mem := st32 m (off + 8) attr.

Definition st_privilege (m : mem) (off : Z) (p : LUID_AND_ATTRIBUTES) : option mem :=
  m ← st32 m off (LowPart (la_Luid p));
  m ← st32 m (off + 4) (HighPart (la_Luid p));
  st_attributes m off (la_Attributes p).

Definition RtlEqualLuid (Luid1 Luid2 : LUID) : bool :=
  (HighPart Luid1 =? HighPart Luid2) && (LowPart Luid1 =? LowPart Luid2).

Definition RtlConvertLongToLuid (Long : Z) : LUID := {| LowPart := u32 Long; HighPart := 0 |}.
Definition RtlConvertUlongToLuid (Ulong : Z) : LUID := {| LowPart := Ulong; HighPart := 0 |}.

(** A [PRIVILEGE_SET] in memory: [PrivilegeCount], [Control] and the array. *)
Definition RtlLengthRequiredPrivilegeSet (PrivilegeCount : Z) : Z := u32 (8 + sizeof_LUID_AND_ATTRIBUTES * PrivilegeCount).
Definition RtlLengthPrivilegeSet (PrivilegeSet : mem) : option Z :=
  PrivilegeCount ← ld32 PrivilegeSet 0; Some (RtlLengthRequiredPrivilegeSet PrivilegeCount).

Definition RtlCopyPrivilegeSet (DestinationPrivilegeSetLength : Z) (DestinationPrivilegeSet SourcePrivilegeSet : mem) : option (NTSTATUS * mem) :=
  length ← RtlLengthPrivilegeSet SourcePrivilegeSet;
  if DestinationPrivilegeSetLength <? length then Some (STATUS_BUFFER_TOO_SMALL, DestinationPrivilegeSet)
  else
    bs ← rd SourcePrivilegeSet 0 length;
    d ← wr DestinationPrivilegeSet 0 bs;
    Some (STATUS_SUCCESS, d).

(** * RtlPrivilegeCheck *)

(** The inner loop, with [n] privileges of the token left: whether it leaves by
    [GOTO_CLEANUP], the privileges still needed and the required privilege. *)
Fixpoint check_assigned (n : nat) (pPrivileges : mem) (iAssigned Control : Z) (privilegesNeeded : Z)
    (required : LUID_AND_ATTRIBUTES) : option (bool * Z * LUID_AND_ATTRIBUTES) :=
  match n with
  | O => Some (false, privilegesNeeded, required)
  | S n' =>
      assigned ← ld_privilege pPrivileges (sizeof_LUID_AND_ATTRIBUTES * iAssigned);
      let all := IsSetFlag Control PRIVILEGE_SET_ALL_NECESSARY in
      if RtlEqualLuid (la_Luid required) (la_Luid assigned) then
        if IsSetFlag (la_Attributes assigned) SE_PRIVILEGE_ENABLED then
          let privilegesNeeded := if 0 <? privilegesNeeded then privilegesNeeded - 1 else privilegesNeeded in
          let privilegesNeeded := if negb all then 0 else privilegesNeeded in
          check_assigned n' pPrivileges (iAssigned + 1) Control privilegesNeeded
            (set_attributes required (Z.lor (la_Attributes required) SE_PRIVILEGE_USED_FOR_ACCESS))
        else if all then Some (true, privilegesNeeded, required)
        else check_assigned n' pPrivileges (iAssigned + 1) Control privilegesNeeded required
      else check_assigned n' pPrivileges (iAssigned + 1) Control privilegesNeeded required
  end.

Fixpoint check_required (count : nat) (pPrivileges : mem) (Control privilegesNeeded : Z)
    (required : list LUID_AND_ATTRIBUTES) : option (Z * list LUID_AND_ATTRIBUTES) :=
  match required with
  | [] => Some (privilegesNeeded, [])
  | r :: required' =>
      '(stop, privilegesNeeded, r) ← check_assigned count pPrivileges 0 Control privilegesNeeded r;
      if (stop : bool) then Some (privilegesNeeded, r :: required')
      else
        '(privilegesNeeded, required') ← check_required count pPrivileges Control privilegesNeeded required';
        Some (privilegesNeeded, r :: required')
  end.

Definition RtlPrivilegeCheck (RequiredPrivileges : PRIVILEGE_SET) (AccessToken : ACCESS_TOKEN)
    : option (bool * PRIVILEGE_SET) :=
  '(privilegesNeeded, l) ←
    check_required (Z.to_nat (PrivilegeCount AccessToken)) (Privileges AccessToken) (ps_Control RequiredPrivileges)
      (Z.of_nat (length (ps_Privilege RequiredPrivileges))) (ps_Privilege RequiredPrivileges);
  Some (privilegesNeeded =? 0, {| ps_Control := ps_Control RequiredPrivileges; ps_Privilege := l |}).

(** * RtlAdjustTokenPrivileges *)

Definition RtlpAppendTokenPrivileges (Buffer : ptr) (BufferLength : Z) (AppendPrivilege : LUID_AND_ATTRIBUTES)
    (Index : Z) : option (NTSTATUS * ptr * Z) :=
  let bufferUsed := u32 (sizeof_TOKEN_PRIVILEGES + sizeof_LUID_AND_ATTRIBUTES * u32 (Index + 1)) in
  if bufferUsed <=? BufferLength then
    m ← Buffer;
    m ← st_privilege m (sizeof_TOKEN_PRIVILEGES + sizeof_LUID_AND_ATTRIBUTES * Index) AppendPrivilege;
    m ← st32 m 0 (u32 (Index + 1));
    Some (STATUS_SUCCESS, Some m, bufferUsed)
  else Some (STATUS_BUFFER_TOO_SMALL, Buffer, bufferUsed).

(** Save the privilege at [assignedIndex] in [PreviousState] and, when that
    succeeded, change its attributes by [f] and add [n] to [adjustedCount]. *)
Definition save_and_set (BufferLength assignedIndex : Z) (f : Z -> Z) (n : Z) (st : adjust_state)
    : option adjust_state :=
  let off := sizeof_LUID_AND_ATTRIBUTES * assignedIndex in
  p ← ld_privilege (as_Privileges st) off;
  '(status, prev, used) ← RtlpAppendTokenPrivileges (as_PreviousState st) BufferLength p (as_returnedIndex st);
  m ← (if is_ok status then st_attributes (as_Privileges st) off (f (la_Attributes p)) else Some (as_Privileges st));
  Some {| as_status := status;
          as_Privileges := m;
          as_PrivilegeCount := as_PrivilegeCount st;
          as_PreviousState := prev;
          as_returnedIndex := u32 (as_returnedIndex st + 1);
          as_BufferUsed := used;
          as_adjustedCount := if is_ok status then as_adjustedCount st + n else as_adjustedCount st |}.

Fixpoint disable_all (n : nat) (BufferLength assignedIndex : Z) (st : adjust_state) : option adjust_state :=
  match n with
  | O => Some st
  | S n' =>
      st ← save_and_set BufferLength assignedIndex (fun a => ClearFlag a SE_PRIVILEGE_ENABLED) 0 st;
      disable_all n' BufferLength (assignedIndex + 1) st
  end.

(** The branch for [SE_PRIVILEGE_REMOVED]. The size of the move is
    [sizeof(pPrivileges[0]) * PrivilegeCount - assignedIndex - 1] bytes. *)
Definition remove_privilege (assignedIndex : Z) (st : adjust_state) : option adjust_state :=
  let count := as_PrivilegeCount st in
  let m := as_Privileges st in
  m ← (if assignedIndex + 1 <? count then
         RtlMoveMemory m (sizeof_LUID_AND_ATTRIBUTES * assignedIndex) (sizeof_LUID_AND_ATTRIBUTES * (assignedIndex + 1))
           (sizeof_LUID_AND_ATTRIBUTES * count - assignedIndex - 1)
       else Some m);
  m ← RtlZeroMemory m (sizeof_LUID_AND_ATTRIBUTES * (count - 1)) sizeof_LUID_AND_ATTRIBUTES;
  Some {| as_status := as_status st;
          as_Privileges := m;
          as_PrivilegeCount := count - 1;
          as_PreviousState := as_PreviousState st;
          as_returnedIndex := as_returnedIndex st;
          as_BufferUsed := as_BufferUsed st;
          as_adjustedCount := as_adjustedCount st + 1 |}.

(** The body of the inner loop when the LUIDs are equal. *)
Definition adjust_found (BufferLength assignedIndex newAttributes : Z) (st : adjust_state) : option adjust_state :=
  st ← (if newAttributes =? 0
        then save_and_set BufferLength assignedIndex (fun a => ClearFlag a SE_PRIVILEGE_ENABLED) 1 st else Some st);
  st ← (if IsSetFlag newAttributes SE_PRIVILEGE_ENABLED
        then save_and_set BufferLength assignedIndex (fun a => SetFlag a SE_PRIVILEGE_ENABLED) 1 st else Some st);
  if IsSetFlag newAttributes SE_PRIVILEGE_REMOVED then remove_privilege assignedIndex st else Some st.

(** The inner loop, with [n] privileges of the token left. *)
Fixpoint adjust_one (n : nat) (BufferLength assignedIndex : Z) (new : LUID_AND_ATTRIBUTES) (st : adjust_state)
    : option adjust_state :=
  match n with
  | O => Some st
  | S n' =>
      p ← ld_privilege (as_Privileges st) (sizeof_LUID_AND_ATTRIBUTES * assignedIndex);
      if RtlEqualLuid (la_Luid new) (la_Luid p) then adjust_found BufferLength assignedIndex (la_Attributes new) st
      else adjust_one n' BufferLength (assignedIndex + 1) new st
  end.

Fixpoint adjust_each (BufferLength : Z) (news : list LUID_AND_ATTRIBUTES) (st : adjust_state) : option adjust_state :=
  match news with
  | [] => Some st
  | new :: news' =>
      st ← adjust_one (Z.to_nat (as_PrivilegeCount st)) BufferLength 0 new st;
      adjust_each BufferLength news' st
  end.

(** The loops that put the attributes saved in [PreviousState] back. *)
Fixpoint rollback_one (n : nat) (assignedIndex : Z) (saved : LUID_AND_ATTRIBUTES) (m : mem) : option mem :=
  match n with
  | O => Some m
  | S n' =>
      let off := sizeof_LUID_AND_ATTRIBUTES * assignedIndex in
      p ← ld_privilege m off;
      m ← (if RtlEqualLuid (la_Luid saved) (la_Luid p) then st_attributes m off (la_Attributes saved) else Some m);
      rollback_one n' (assignedIndex + 1) saved m
  end.

Fixpoint rollback (n : nat) (returnedIndex : Z) (prev : mem) (count : nat) (m : mem) : option mem :=
  match n with
  | O => Some m
  | S n' =>
      saved ← ld_privilege prev (sizeof_TOKEN_PRIVILEGES + sizeof_LUID_AND_ATTRIBUTES * returnedIndex);
      m ← rollback_one count 0 saved m;
      rollback n' (returnedIndex + 1) prev count m
  end.

(** [cleanup], up to the unlocking. *)
Definition adjust_cleanup (BufferLength : Z) (st : adjust_state) : option adjust_state :=
  match as_PreviousState st with
  | Some prev =>
      if BufferLength <? as_BufferUsed st then
        n ← TokenPrivileges_PrivilegeCount prev;
        m ← rollback (Z.to_nat n) 0 prev (Z.to_nat (as_PrivilegeCount st)) (as_Privileges st);
        Some {| as_status := STATUS_BUFFER_TOO_SMALL;
                as_Privileges := m;
                as_PrivilegeCount := as_PrivilegeCount st;
                as_PreviousState := as_PreviousState st;
                as_returnedIndex := as_returnedIndex st;
                as_BufferUsed := as_BufferUsed st;
                as_adjustedCount := as_adjustedCount st |}
      else Some st
  | None => Some st
  end.

(** The work between the declarations and [cleanup]. *)
Definition adjust_body (DisableAll : bool) (NewState : option (list LUID_AND_ATTRIBUTES)) (BufferLength : Z)
    (st : adjust_state) : option adjust_state :=
  match NewState, DisableAll with
  | None, false => Some (set_status st STATUS_INVALID_PARAMETER)
  | _, _ =>
      if bool_decide (NewState = None) && (0 <? BufferLength) then Some (set_status st STATUS_INVALID_PARAMETER)
      else if as_PrivilegeCount st =? 0 then Some (set_status st STATUS_NOT_ALL_ASSIGNED)
      else if DisableAll then disable_all (Z.to_nat (as_PrivilegeCount st)) BufferLength 0 st
      else news ← NewState; adjust_each BufferLength news st
  end.

(** [NewState] is the array with its count. The result: the status, the token,
    the caller's [PreviousState] and what is stored through [pReturnedLength],
    which is stored through also when it is null. *)
Definition RtlAdjustTokenPrivileges (AccessToken : TOKEN_BLOCK) (DisableAll : bool)
    (NewState : option (list LUID_AND_ATTRIBUTES)) (BufferLength : Z) (PreviousState : ptr) (pReturnedLength : bool)
    : option (NTSTATUS * TOKEN_BLOCK * ptr * Z) :=
  let off := tb_Privileges AccessToken in
  st ← adjust_body DisableAll NewState BufferLength
         {| as_status := STATUS_SUCCESS; as_Privileges := padd (tb_data AccessToken) off;
            as_PrivilegeCount := tb_PrivilegeCount AccessToken; as_PreviousState := PreviousState;
            as_returnedIndex := 0; as_BufferUsed := 0; as_adjustedCount := 0 |};
  st ← adjust_cleanup BufferLength st;
  let token := set_privileges AccessToken (as_PrivilegeCount st)
                 (take (Z.to_nat off) (tb_data AccessToken) ++ as_Privileges st) in
  status ← (if is_ok (as_status st) && negb DisableAll then
              news ← NewState;
              Some (if as_adjustedCount st <? Z.of_nat (length news) then STATUS_NOT_ALL_ASSIGNED else as_status st)
            else Some (as_status st));
  if negb pReturnedLength then None
  else
    Some (status, token, as_PreviousState st,
          if bool_decide (status ∈ [STATUS_SUCCESS; STATUS_BUFFER_TOO_SMALL; STATUS_NOT_ALL_ASSIGNED])
          then as_BufferUsed st else 0).
End Operations.
