(* ===== verification/PrivilegeOps.v ===== *)
(** What the privilege checks and adjustments of [Privilege] do to the list of
    privileges a token holds. *)

From S2P Require Import Prelude SecurityTypes Sid Acl AclRepr AclOps AclEdit AclCodec AclCodecOps Token AccessCheck TokenState TokenOps Privilege.

(** * Specification *)

Definition priv_wf (p : LUID_AND_ATTRIBUTES) : Prop :=
  0 <= LowPart (la_Luid p) < 2 ^ 32 /\ 0 <= HighPart (la_Luid p) < 2 ^ 32 /\ 0 <= la_Attributes p < 2 ^ 32.

Definition is_enabled (p : LUID_AND_ATTRIBUTES) : bool := IsSetFlag (la_Attributes p) SE_PRIVILEGE_ENABLED.

(** The privilege [l] is enabled in the list. *)
Definition holds_enabled (ps : list LUID_AND_ATTRIBUTES) (l : LUID) : bool :=
  existsb (fun p => bool_decide (l = la_Luid p) && is_enabled p) ps.

(** A required privilege, marked when it is enabled in the token. *)
Definition mark_used (ps : list LUID_AND_ATTRIBUTES) (r : LUID_AND_ATTRIBUTES) : LUID_AND_ATTRIBUTES :=
  if holds_enabled ps (la_Luid r)
  then set_attributes r (Z.lor (la_Attributes r) SE_PRIVILEGE_USED_FOR_ACCESS) else r.

(** * Lemmas *)

Lemma priv_count_app l k : priv_count (l ++ k) = priv_count l + priv_count k.
Proof. unfold priv_count. rewrite length_app. lia. Qed.

Lemma priv_count_cons p l : priv_count (p :: l) = 1 + priv_count l.
Proof. unfold priv_count. cbn. lia. Qed.

Lemma priv_count_nonneg l : 0 <= priv_count l.
Proof. unfold priv_count. lia. Qed.

Lemma privs_bytes_app e l k : privs_bytes e (l ++ k) = privs_bytes e l ++ privs_bytes e k.
Proof. apply flat_map_app. Qed.

Lemma privs_bytes_cons e p l : privs_bytes e (p :: l) = priv_bytes e p ++ privs_bytes e l.
Proof. done. Qed.

Lemma RtlEqualLuid_decide l k : RtlEqualLuid l k = bool_decide (l = k).
Proof.
  unfold RtlEqualLuid. destruct l as [a b], k as [c d]. cbn. destruct (Z.eqb_spec b d), (Z.eqb_spec a c); cbn;
    symmetry; [apply bool_decide_eq_true_2; congruence|apply bool_decide_eq_false_2; congruence..].
Qed.

Section Memory.
Context `{Host}.

Lemma ld_privilege_at pre p post off :
  priv_wf p -> off = zlen pre -> ld_privilege (pre ++ priv_bytes host p ++ post) off = Some p.
Proof.
  intros (Hl & Hh & Ha) ->. unfold ld_privilege, ld32, priv_bytes. rewrite <- !app_assoc.
  rewrite (rd_at pre _ _ (zlen pre) 4) by zl. bsimpl. rewrite decode_encode by done.
  rewrite (app_assoc pre), (rd_at _ _ _ (zlen pre + 4) 4) by zl. bsimpl. rewrite decode_encode by done.
  rewrite (app_assoc (pre ++ _)), (rd_at _ _ _ (zlen pre + 8) 4) by zl. bsimpl. rewrite decode_encode by done.
  by destruct p as [[? ?] ?].
Qed.

Lemma st_attributes_at pre p post off v :
  off = zlen pre ->
  st_attributes (pre ++ priv_bytes host p ++ post) off v = Some (pre ++ priv_bytes host (set_attributes p v) ++ post).
Proof.
  intros ->. unfold st_attributes, st32, priv_bytes, set_attributes. cbn [la_Luid la_Attributes]. rewrite <- !app_assoc.
  rewrite (app_assoc pre), (app_assoc (pre ++ _)), wr_at by zl. by rewrite <- !app_assoc.
Qed.

Lemma st_privilege_at pre old post off p :
  off = zlen pre -> zlen old = 12 -> st_privilege (pre ++ old ++ post) off p = Some (pre ++ priv_bytes host p ++ post).
Proof.
  intros -> Hl. unfold st_privilege, st_attributes, st32, priv_bytes.
  destruct (room old 4) as (o1 & r & -> & H1 & H2); [lia|]. rewrite Hl in H2.
  destruct (room r 4) as (o2 & o3 & -> & H3 & H4); [lia|]. rewrite <- !app_assoc.
  rewrite wr_at by zl. bsimpl. rewrite (app_assoc pre), wr_at by zl. bsimpl.
  rewrite (app_assoc (pre ++ _)), wr_at by zl. by rewrite <- !app_assoc.
Qed.

(** The privilege at an index of the array. *)
Lemma ld_privilege_index l p k rest :
  priv_wf p -> ld_privilege (privs_bytes host (l ++ p :: k) ++ rest) (sizeof_LUID_AND_ATTRIBUTES * priv_count l) = Some p.
Proof.
  intros Hp. rewrite privs_bytes_app, privs_bytes_cons, <- !app_assoc. apply ld_privilege_at; [done|].
  by rewrite zlen_privs_bytes.
Qed.

Lemma st_attributes_index l p k rest v :
  st_attributes (privs_bytes host (l ++ p :: k) ++ rest) (sizeof_LUID_AND_ATTRIBUTES * priv_count l) v =
    Some (privs_bytes host (l ++ set_attributes p v :: k) ++ rest).
Proof.
  rewrite !privs_bytes_app, !privs_bytes_cons, <- !app_assoc. by rewrite st_attributes_at by (by rewrite zlen_privs_bytes).
Qed.
End Memory.

(** ** The privilege check *)

(** One required privilege against the privileges of the token. *)
Fixpoint check_list (all : bool) (ps : list LUID_AND_ATTRIBUTES) (needed : Z) (r : LUID_AND_ATTRIBUTES)
    : bool * Z * LUID_AND_ATTRIBUTES :=
  match ps with
  | [] => (false, needed, r)
  | p :: ps' =>
      if bool_decide (la_Luid r = la_Luid p) then
        if is_enabled p then
          check_list all ps' (if all then (if 0 <? needed then needed - 1 else needed) else 0)
            (set_attributes r (Z.lor (la_Attributes r) SE_PRIVILEGE_USED_FOR_ACCESS))
        else if all then (true, needed, r) else check_list all ps' needed r
      else check_list all ps' needed r
  end.

Lemma check_assigned_list `{Host} control k : Forall priv_wf k -> forall l rest needed r,
  check_assigned (length k) (privs_bytes host (l ++ k) ++ rest) (priv_count l) control needed r =
    Some (check_list (IsSetFlag control PRIVILEGE_SET_ALL_NECESSARY) k needed r).
Proof.
  induction 1 as [|p k Hp _ IH]; intros l rest needed r; [done|]. cbn [check_assigned check_list length].
  rewrite ld_privilege_index by done. bsimpl. rewrite RtlEqualLuid_decide. unfold is_enabled.
  replace (priv_count l + 1) with (priv_count (l ++ [p])) by (rewrite priv_count_app; done).
  replace (l ++ p :: k) with ((l ++ [p]) ++ k) by (by rewrite <- app_assoc). rewrite !IH.
  destruct (bool_decide _), (IsSetFlag (la_Attributes p) SE_PRIVILEGE_ENABLED), (IsSetFlag control PRIVILEGE_SET_ALL_NECESSARY); done.
Qed.

Lemma check_list_any ps : forall needed r,
  check_list false ps needed r =
    (false, if holds_enabled ps (la_Luid r) then 0 else needed, mark_used ps r).
Proof.
  induction ps as [|p ps IH]; intros needed r; [done|]. unfold mark_used, holds_enabled in *. cbn [check_list existsb].
  destruct (bool_decide (la_Luid r = la_Luid p)); [|apply IH]. destruct (is_enabled p); [|apply IH].
  cbn [andb orb]. rewrite IH. cbn [la_Luid set_attributes la_Attributes].
  destruct (existsb _ ps); [|done]. unfold set_attributes. cbn. by rewrite <- Z.lor_assoc, Z.lor_diag.
Qed.

Lemma holds_enabled_notin ps l : l ∉ map la_Luid ps -> holds_enabled ps l = false.
Proof.
  intros Hn. unfold holds_enabled. induction ps as [|p ps IH]; [done|]. cbn in *. rewrite elem_of_cons in Hn.
  rewrite bool_decide_eq_false_2 by tauto. cbn. tauto.
Qed.

Lemma check_list_notin all ps : forall needed r, la_Luid r ∉ map la_Luid ps -> check_list all ps needed r = (false, needed, r).
Proof.
  induction ps as [|p ps IH]; intros needed r Hn; [done|]. cbn in *. rewrite elem_of_cons in Hn.
  rewrite bool_decide_eq_false_2 by tauto. apply IH. tauto.
Qed.

(** With distinct privileges in the token, a required privilege counts once. *)
Lemma check_list_all ps : NoDup (map la_Luid ps) -> forall needed r, 0 < needed ->
  if holds_enabled ps (la_Luid r) then check_list true ps needed r = (false, needed - 1, mark_used ps r)
  else exists stop, check_list true ps needed r = (stop, needed, r).
Proof.
  induction ps as [|p ps IH]; intros Hd needed r Hn; [by exists false|]. cbn in Hd. apply NoDup_cons in Hd as [Hni Hd].
  specialize (IH Hd needed r Hn). unfold mark_used in *. cbn [holds_enabled existsb check_list] in *.
  fold (holds_enabled ps (la_Luid r)) in *. case_bool_decide as E.
  - rewrite E in *. rewrite (holds_enabled_notin ps) in * by done. rewrite orb_false_r. cbn [andb].
    destruct (is_enabled p); [|by exists true]. rewrite check_list_notin by (by cbn; rewrite E).
    by destruct (Z.ltb_spec 0 needed); [|lia].
  - cbn [andb orb]. destruct (holds_enabled ps (la_Luid r)); done.
Qed.

Section Check.
Context `{Host} (ps : list LUID_AND_ATTRIBUTES) (rest : mem) (control : Z) (Hwf : Forall priv_wf ps).

Let holds (r : LUID_AND_ATTRIBUTES) : bool := holds_enabled ps (la_Luid r).

Lemma check_assigned_all needed r :
  check_assigned (length ps) (privs_bytes host ps ++ rest) 0 control needed r =
    Some (check_list (IsSetFlag control PRIVILEGE_SET_ALL_NECESSARY) ps needed r).
Proof using Hwf. apply (check_assigned_list control ps Hwf []). Qed.

Lemma check_required_any reqs :
  IsSetFlag control PRIVILEGE_SET_ALL_NECESSARY = false -> forall needed,
  check_required (length ps) (privs_bytes host ps ++ rest) control needed reqs =
    Some (if existsb holds reqs then 0 else needed, map (mark_used ps) reqs).
Proof using Hwf.
  intros Hc. induction reqs as [|r reqs IH]; intros needed; [done|]. cbn [check_required existsb map].
  rewrite check_assigned_all, Hc, check_list_any. bsimpl. rewrite IH. bsimpl. fold (holds r).
  destruct (holds r), (existsb holds reqs); done.
Qed.

Lemma check_required_all reqs :
  IsSetFlag control PRIVILEGE_SET_ALL_NECESSARY = true -> NoDup (map la_Luid ps) -> forall needed,
  Z.of_nat (length reqs) <= needed ->
  exists n l, check_required (length ps) (privs_bytes host ps ++ rest) control needed reqs = Some (n, l) /\
    needed - Z.of_nat (length reqs) <= n /\
    (n = needed - Z.of_nat (length reqs) <-> forallb holds reqs = true) /\
    (forallb holds reqs = true -> l = map (mark_used ps) reqs).
Proof using Hwf.
  intros Hc Hd. induction reqs as [|r reqs IH]; intros needed Hn; cbn [length check_required forallb] in *.
  { exists needed, []. split; [done|]. cbn. split; [lia|]. split; [|done]. split; [done|lia]. }
  rewrite check_assigned_all, Hc. pose proof (check_list_all ps Hd needed r ltac:(lia)) as Hr. fold (holds r) in *.
  destruct (holds r); cbn [andb].
  - rewrite Hr. bsimpl. destruct (IH (needed - 1)) as (n & l & -> & Hle & Hiff & Hl); [lia|]. bsimpl.
    exists n, (mark_used ps r :: l). split; [done|]. split; [lia|]. split; [rewrite <- Hiff; lia|].
    intros E. by rewrite (Hl E).
  - destruct Hr as ([] & ->); bsimpl.
    + do 2 eexists. split; [done|]. split; [lia|]. split; [|done]. split; [lia|done].
    + destruct (IH needed) as (n & l & -> & Hle & _); [lia|]. bsimpl.
      do 2 eexists. split; [done|]. split; [lia|]. split; [|done]. split; [lia|done].
Qed.
End Check.

(** [RtlPrivilegeCheck] answers, for a set of required privileges, whether the
    token has them enabled: all of them when the set says that all are
    necessary (and the token lists no privilege twice), at least one of them (or
    none are required) otherwise; a required privilege is marked as used for the
    access when the check succeeds on it. *)
Theorem RtlPrivilegeCheck_correct `{Host} T ps set :
  privileges_at (PrivilegeCount T) (Privileges T) ps -> Forall priv_wf ps -> NoDup (map la_Luid ps) ->
  exists ok set',
    RtlPrivilegeCheck set T = Some (ok, set') /\ ps_Control set' = ps_Control set /\
    (if IsSetFlag (ps_Control set) PRIVILEGE_SET_ALL_NECESSARY
     then ok = true <-> Forall (fun r => holds_enabled ps (la_Luid r) = true) (ps_Privilege set)
     else ok = true <-> ps_Privilege set = [] \/ Exists (fun r => holds_enabled ps (la_Luid r) = true) (ps_Privilege set)) /\
    (ok = true -> ps_Privilege set' = map (mark_used ps) (ps_Privilege set)).
Proof.
  intros (Hc & rest & Hp) Hwf Hd. unfold RtlPrivilegeCheck. rewrite Hc, Hp. unfold priv_count. rewrite Nat2Z.id.
  destruct (IsSetFlag (ps_Control set) PRIVILEGE_SET_ALL_NECESSARY) eqn:Ec.
  - destruct (check_required_all ps rest _ Hwf (ps_Privilege set) Ec Hd _ (Z.le_refl _)) as (n & l & -> & _ & Hiff & Hl).
    bsimpl. do 2 eexists. split; [done|]. split; [done|]. rewrite Z.sub_diag in Hiff.
    rewrite Z.eqb_eq, Hiff, forallb_forall, <- List.Forall_forall. cbn [ps_Privilege].
    split; [done|]. intros Hf. apply Hl, forallb_forall, List.Forall_forall, Hf.
  - rewrite (check_required_any ps rest _ Hwf _ Ec). bsimpl. do 2 eexists. split; [done|]. split; [done|].
    cbn [ps_Privilege]. split; [|done]. rewrite Exists_exists.
    destruct (existsb _ (ps_Privilege set)) eqn:Ee.
    + split; [intros _; right|done]. apply existsb_exists in Ee as (r & Hin & Hr). exists r. by rewrite list_elem_of_In.
    + rewrite Z.eqb_eq. split; [destruct (ps_Privilege set); [auto|cbn; lia]|].
      intros [-> | (r & Hin & Hr)]; [done|]. exfalso. apply list_elem_of_In in Hin.
      assert (existsb (fun r => holds_enabled ps (la_Luid r)) (ps_Privilege set) = true) as Et; [|congruence].
      apply existsb_exists. eauto.
Qed.
(** * Privilege sets *)

Definition privilege_set_bytes (e : endian) (control : Z) (ps : list LUID_AND_ATTRIBUTES) : mem :=
  encode e 4 (priv_count ps) ++ encode e 4 control ++ privs_bytes e ps.

Lemma RtlLengthPrivilegeSet_at `{Host} control ps rest : 12 * priv_count ps + 8 < 2 ^ 32 ->
  RtlLengthPrivilegeSet (privilege_set_bytes host control ps ++ rest) = Some (zlen (privilege_set_bytes host control ps)).
Proof.
  intros Hl. assert (0 <= priv_count ps) by (unfold priv_count; lia). unfold RtlLengthPrivilegeSet, ld32, privilege_set_bytes. rewrite <- !app_assoc.
  rewrite rd_at_0 by (by rewrite (zlen_encode _ 4)). cbn [fmap option_fmap option_map]. rewrite decode_encode by lia. bsimpl.
  unfold RtlLengthRequiredPrivilegeSet, sizeof_LUID_AND_ATTRIBUTES, u32. rewrite Z.mod_small by lia. rewrite !zlen_app, !zlen_encode, zlen_privs_bytes. f_equal. lia.
Qed.

(** [RtlCopyPrivilegeSet] copies the set when the length given for the destination
    is enough for it, and changes nothing otherwise. *)
Theorem RtlCopyPrivilegeSet_correct `{Host} control ps rest d n : 12 * priv_count ps + 8 < 2 ^ 32 -> n <= zlen d ->
  let image := privilege_set_bytes host control ps in
  RtlCopyPrivilegeSet n d (image ++ rest) =
    Some (if n <? zlen image then (STATUS_BUFFER_TOO_SMALL, d) else (STATUS_SUCCESS, image ++ drop (length image) d)).
Proof.
  intros Hl Hd image. unfold RtlCopyPrivilegeSet. subst image. rewrite RtlLengthPrivilegeSet_at by done. bsimpl.
  destruct (Z.ltb_spec n (zlen (privilege_set_bytes host control ps))); [done|]. rewrite rd_at_0 by done. bsimpl.
  destruct (zlen_split d (zlen (privilege_set_bytes host control ps))) as (a & b & -> & Ha); [split; [apply zlen_nonneg|lia]|].
  rewrite wr_at_0 by done. bsimpl. rewrite drop_app_length' by (unfold zlen in Ha; lia). done.
Qed.
