(* ===== verification/PrivilegeAdjust.v ===== *)
(** [RtlAdjustTokenPrivileges] as an operation on the list of privileges: what it
    changes, what it saves for the caller, and how it takes its changes back. *)

From S2P Require Import Prelude SecurityTypes Sid Acl AclRepr AclOps AclEdit AclCodec AclCodecOps Token AccessCheck TokenState TokenOps Privilege PrivilegeOps.

(** * Specification *)

(** What one entry of [NewState] makes of a privilege. *)
Definition new_attributes (new attr : Z) : Z :=
  if new =? 0 then ClearFlag attr SE_PRIVILEGE_ENABLED
  else if IsSetFlag new SE_PRIVILEGE_ENABLED then SetFlag attr SE_PRIVILEGE_ENABLED
  else attr.

Definition adjusted (p new : LUID_AND_ATTRIBUTES) : LUID_AND_ATTRIBUTES :=
  if bool_decide (la_Luid new = la_Luid p)
  then set_attributes p (new_attributes (la_Attributes new) (la_Attributes p)) else p.

(** The privileges after all entries. *)
Definition adjust_list (news ps : list LUID_AND_ATTRIBUTES) : list LUID_AND_ATTRIBUTES :=
  map (fun p => foldl adjusted p news) ps.

(** An entry of [NewState] that asks for a change [RtlAdjustTokenPrivileges] counts. *)
Definition asks_change (new : LUID_AND_ATTRIBUTES) : bool :=
  (la_Attributes new =? 0) || IsSetFlag (la_Attributes new) SE_PRIVILEGE_ENABLED.

(** The privileges as they were that the entries change, in order. *)
Definition saved_by (news ps : list LUID_AND_ATTRIBUTES) : list LUID_AND_ATTRIBUTES :=
  omap (fun new => if asks_change new
                   then snd <$> list_find (fun p => la_Luid p = la_Luid new) ps else None) news.

(** The entries that amount to [DisableAll]. *)
Definition disable_entries (ps : list LUID_AND_ATTRIBUTES) : list LUID_AND_ATTRIBUTES :=
  map (fun p => set_attributes p 0) ps.

(** [TOKEN_PRIVILEGES] in a buffer of [L] bytes; the count is there once a
    privilege is. *)
Definition saved_at `{Host} (L : Z) (buf : mem) (sv : list LUID_AND_ATTRIBUTES) : Prop :=
  zlen buf = L /\ exists hdr rest, buf = hdr ++ privs_bytes host sv ++ rest /\ zlen hdr = 4 /\
    (sv <> [] -> hdr = encode host 4 (priv_count sv)).

(** * Plans: the saves and changes by index *)

Definition plan := list (nat * (Z -> Z)).

Definition change (f : Z -> Z) (p : LUID_AND_ATTRIBUTES) : LUID_AND_ATTRIBUTES := set_attributes p (f (la_Attributes p)).

Definition apply_plan (pl : plan) (ps : list LUID_AND_ATTRIBUTES) : list LUID_AND_ATTRIBUTES :=
  foldl (fun ps '(i, f) => alter (change f) i ps) ps pl.

Definition plan_saves (pl : plan) (ps : list LUID_AND_ATTRIBUTES) : list LUID_AND_ATTRIBUTES :=
  omap (fun '(i, _) => ps !! i) pl.

Definition keeps_width (f : Z -> Z) : Prop := forall a, 0 <= a < 2 ^ 32 -> 0 <= f a < 2 ^ 32.

Definition plan_ok (pl : plan) (n : nat) : Prop :=
  NoDup (map fst pl) /\ Forall (fun '(i, f) => (i < n)%nat /\ keeps_width f) pl.

Fixpoint run_plan `{Host} (L n : Z) (pl : plan) (st : adjust_state) : option adjust_state :=
  match pl with
  | [] => Some st
  | (i, f) :: pl' => st ← save_and_set L (Z.of_nat i) f n st; run_plan L n pl' st
  end.

(** * Lemmas *)

Lemma priv_wf_change f p : keeps_width f -> priv_wf p -> priv_wf (change f p).
Proof. intros Hf (? & ? & ?). repeat split; try apply Hf; cbn; lia. Qed.

Lemma alter_split (f : LUID_AND_ATTRIBUTES -> LUID_AND_ATTRIBUTES) l p k :
  alter f (length l) (l ++ p :: k) = l ++ f p :: k.
Proof. rewrite alter_app_r_alt by lia. by rewrite Nat.sub_diag. Qed.

Lemma Forall_wf_alter f i ps : keeps_width f -> Forall priv_wf ps -> Forall priv_wf (alter (change f) i ps).
Proof. intros Hf Hw. apply Forall_alter; [done|]. intros. by apply priv_wf_change. Qed.

Lemma plan_ok_cons i f pl n :
  plan_ok ((i, f) :: pl) n -> (i < n)%nat /\ keeps_width f /\ (i ∉ map fst pl) /\ plan_ok pl n.
Proof. intros [Hd Hf]. cbn in Hd. apply NoDup_cons in Hd as [? ?]. apply Forall_cons in Hf as [[? ?] ?].
  unfold plan_ok. tauto. Qed.

Lemma plan_saves_alter pl i g ps : i ∉ map fst pl -> plan_saves pl (alter g i ps) = plan_saves pl ps.
Proof.
  unfold plan_saves. induction pl as [|[j f] pl IH]; intros Hn; [done|]. cbn in *. rewrite elem_of_cons in Hn.
  rewrite list_lookup_alter_ne by tauto. rewrite IH by tauto. done.
Qed.

Lemma plan_saves_length pl ps : plan_ok pl (length ps) -> length (plan_saves pl ps) = length pl.
Proof.
  induction pl as [|[i f] pl IH]; intros Hp; [done|]. apply plan_ok_cons in Hp as (Hi & _ & _ & Hp).
  cbn. destruct (lookup_lt_is_Some_2 ps i Hi) as [p ->]. cbn. f_equal. by apply IH.
Qed.

Section Run.
Context `{Host} (L n : Z) (HL : 0 <= L < 2 ^ 32).

Lemma append_fits buf sv p :
  saved_at L buf sv -> 4 + 12 * (priv_count sv + 1) <= L ->
  exists buf', RtlpAppendTokenPrivileges (Some buf) L p (priv_count sv) =
    Some (STATUS_SUCCESS, Some buf', 4 + 12 * (priv_count sv + 1)) /\ saved_at L buf' (sv ++ [p]).
Proof using HL.
  intros (Hz & hdr & rest & -> & Hh & _) Hf. pose proof (priv_count_nonneg sv).
  unfold RtlpAppendTokenPrivileges, sizeof_TOKEN_PRIVILEGES, sizeof_LUID_AND_ATTRIBUTES, u32.
  rewrite (Z.mod_small (priv_count sv + 1)), Z.mod_small by lia.
  destruct (Z.leb_spec (4 + 12 * (priv_count sv + 1)) L); [|lia]. bsimpl.
  rewrite !zlen_app, zlen_privs_bytes, Hh in Hz. destruct (room rest 12) as (o & t & -> & Ho & Ht); [lia|].
  rewrite (app_assoc hdr), st_privilege_at by (rewrite ?zlen_app, ?zlen_privs_bytes; lia). bsimpl.
  rewrite <- !app_assoc. unfold st32. rewrite wr_at_0 by zl. bsimpl. eexists. split; [done|]. split.
  - rewrite !zlen_app, zlen_encode, zlen_privs_bytes, zlen_priv_bytes. rewrite zlen_app in Hz. lia.
  - exists (encode host 4 (priv_count sv + 1)), t. rewrite privs_bytes_app, priv_count_app, <- !app_assoc.
    split; [by rewrite privs_bytes_cons; cbn; rewrite app_nil_r|]. split; [zl|done].
Qed.

Lemma append_over prev p j :
  0 <= j -> 4 + 12 * (j + 1) < 2 ^ 32 -> L < 4 + 12 * (j + 1) ->
  RtlpAppendTokenPrivileges prev L p j = Some (STATUS_BUFFER_TOO_SMALL, prev, 4 + 12 * (j + 1)).
Proof.
  intros Hj Hw Ho. unfold RtlpAppendTokenPrivileges, sizeof_TOKEN_PRIVILEGES, sizeof_LUID_AND_ATTRIBUTES, u32.
  rewrite (Z.mod_small (j + 1)), Z.mod_small by lia. by destruct (Z.leb_spec (4 + 12 * (j + 1)) L); [lia|].
Qed.

(** A state of the loop: the privileges are [ps], followed by [tail]. *)
Definition state_at (st : adjust_state) (ps : list LUID_AND_ATTRIBUTES) (tail : mem) : Prop :=
  as_Privileges st = privs_bytes host ps ++ tail /\ as_PrivilegeCount st = priv_count ps /\ Forall priv_wf ps.

Lemma state_at_split st ps tail i : state_at st ps tail -> (i < length ps)%nat ->
  exists l p k, ps = l ++ p :: k /\ length l = i /\ priv_wf p.
Proof.
  intros (_ & _ & Hw) Hi. destruct (lookup_lt_is_Some_2 ps i Hi) as [p Hp].
  exists (take i ps), p, (drop (S i) ps). split; [by rewrite take_drop_middle|].
  split; [rewrite length_take; lia|]. eapply Forall_lookup_1; done.
Qed.

Lemma save_and_set_fits st ps tail buf sv i f :
  state_at st ps tail -> keeps_width f -> (i < length ps)%nat ->
  as_PreviousState st = Some buf -> saved_at L buf sv -> as_returnedIndex st = priv_count sv ->
  4 + 12 * (priv_count sv + 1) <= L ->
  exists st' p buf', save_and_set L (Z.of_nat i) f n st = Some st' /\ ps !! i = Some p /\
    state_at st' (alter (change f) i ps) tail /\ as_PreviousState st' = Some buf' /\ saved_at L buf' (sv ++ [p]) /\
    as_returnedIndex st' = priv_count sv + 1 /\ as_status st' = STATUS_SUCCESS /\
    as_BufferUsed st' = 4 + 12 * (priv_count sv + 1) /\ as_adjustedCount st' = as_adjustedCount st + n.
Proof using HL.
  intros Hst Hf Hi Hb Hsv Hj Hfit. destruct (state_at_split st ps tail i Hst Hi) as (l & p & k & -> & <- & Hp).
  destruct (append_fits buf sv p Hsv Hfit) as (buf' & Ha & Hsv'). pose proof (priv_count_nonneg sv).
  destruct Hst as (Hm & Hc & Hw). unfold save_and_set. rewrite Hm, Hb, Hj. fold (priv_count l).
  rewrite ld_privilege_index by done. bsimpl. rewrite Ha. bsimpl. rewrite is_ok_success, st_attributes_index. bsimpl.
  eexists _, p, buf'. split; [done|]. cbn [as_status as_Privileges as_PrivilegeCount as_PreviousState as_returnedIndex as_BufferUsed as_adjustedCount].
  rewrite alter_split, list_lookup_middle by done. split; [done|]. split; [|repeat (split; [done|]); split; [|done]].
  - split; [done|]. split; [rewrite Hc, !priv_count_app, !priv_count_cons; done|].
    apply Forall_app in Hw as [? Hw']. apply Forall_cons in Hw' as [? ?]. apply Forall_app. split; [done|].
    constructor; [by apply priv_wf_change|done].
  - unfold u32. apply Z.mod_small. lia.
Qed.

(** The fields of the state of the loop that a failed save leaves alone. *)
Definition same_privileges (st st' : adjust_state) : Prop :=
  as_Privileges st' = as_Privileges st /\ as_PrivilegeCount st' = as_PrivilegeCount st /\
  as_PreviousState st' = as_PreviousState st /\ as_adjustedCount st' = as_adjustedCount st.

Lemma save_and_set_over st ps tail i f j :
  state_at st ps tail -> (i < length ps)%nat -> as_returnedIndex st = j -> 0 <= j ->
  4 + 12 * (j + 1) < 2 ^ 32 -> L < 4 + 12 * (j + 1) ->
  exists st', save_and_set L (Z.of_nat i) f n st = Some st' /\ same_privileges st st' /\
    as_returnedIndex st' = j + 1 /\ as_status st' = STATUS_BUFFER_TOO_SMALL /\ as_BufferUsed st' = 4 + 12 * (j + 1).
Proof.
  intros Hst Hi Hj Hpos Hw Ho. destruct (state_at_split st ps tail i Hst Hi) as (l & p & k & -> & <- & Hp).
  destruct Hst as (Hm & Hc & _). unfold save_and_set. rewrite Hm, Hj. fold (priv_count l).
  rewrite ld_privilege_index by done. bsimpl. rewrite append_over by done. bsimpl.
  change (is_ok STATUS_BUFFER_TOO_SMALL) with false. bsimpl. eexists. split; [done|].
  split; [by repeat split|]. cbn. split; [unfold u32; apply Z.mod_small; lia|done].
Qed.

Lemma run_plan_app p1 p2 st : run_plan L n (p1 ++ p2) st = st' ← run_plan L n p1 st; run_plan L n p2 st'.
Proof.
  revert st. induction p1 as [|[i f] p1 IH]; intros st; [done|]. cbn [run_plan app].
  destruct (save_and_set _ _ _ _ _); [|done]. bsimpl. apply IH.
Qed.

(** The saves that fit in the buffer. *)
Lemma run_plan_fits pl : forall st ps tail buf sv,
  state_at st ps tail -> plan_ok pl (length ps) -> as_PreviousState st = Some buf -> saved_at L buf sv ->
  as_returnedIndex st = priv_count sv -> 4 + 12 * (priv_count sv + Z.of_nat (length pl)) <= L ->
  exists st' buf', run_plan L n pl st = Some st' /\ state_at st' (apply_plan pl ps) tail /\
    as_PreviousState st' = Some buf' /\ saved_at L buf' (sv ++ plan_saves pl ps) /\
    as_returnedIndex st' = priv_count sv + Z.of_nat (length pl) /\
    as_adjustedCount st' = as_adjustedCount st + n * Z.of_nat (length pl) /\
    (pl <> [] -> as_status st' = STATUS_SUCCESS /\ as_BufferUsed st' = 4 + 12 * as_returnedIndex st') /\
    (pl = [] -> st' = st).
Proof using HL.
  induction pl as [|[i f] pl IH]; intros st ps tail buf sv Hst Hpl Hb Hsv Hj Hfit; cbn [run_plan apply_plan foldl length] in *.
  { exists st, buf. unfold plan_saves. cbn. rewrite app_nil_r. repeat (split; [done || lia|]). done. }
  apply plan_ok_cons in Hpl as (Hi & Hf & Hni & Hpl).
  destruct (save_and_set_fits st ps tail buf sv i f) as (st1 & p & buf1 & -> & Hlk & Hst1 & Hb1 & Hsv1 & Hj1 & Hs1 & Hu1 & Ha1);
    [done..|lia|]. bsimpl.
  assert (Hlen : length (alter (change f) i ps) = length ps) by apply length_alter.
  destruct (IH st1 (alter (change f) i ps) tail buf1 (sv ++ [p])) as (st' & buf' & -> & Hst' & Hb' & Hsv' & Hj' & Ha' & Hne & Hnil);
    [done|by rewrite Hlen|done|done|by rewrite Hj1, priv_count_app|rewrite priv_count_app; change (priv_count [p]) with 1; lia|].
  exists st', buf'. split; [done|]. split; [done|]. split; [done|]. rewrite plan_saves_alter, <- app_assoc in Hsv' by done.
  split; [unfold plan_saves in *; cbn; rewrite Hlk; exact Hsv'|].
  rewrite priv_count_app in Hj'. change (priv_count [p]) with 1 in Hj'.
  split; [lia|]. split; [lia|]. split; [|done]. intros _. destruct pl as [|x pl]; [|by apply Hne].
  rewrite (Hnil eq_refl) in *. split; [done|]. by rewrite Hu1, Hj1.
Qed.

(** The saves after the buffer is full. *)
Lemma run_plan_over pl : forall st ps tail j,
  state_at st ps tail -> Forall (fun '(i, _) => (i < length ps)%nat) pl -> as_returnedIndex st = j -> 0 <= j ->
  4 + 12 * (j + Z.of_nat (length pl)) < 2 ^ 32 -> L < 4 + 12 * (j + 1) ->
  exists st', run_plan L n pl st = Some st' /\ same_privileges st st' /\
    (pl <> [] -> as_status st' = STATUS_BUFFER_TOO_SMALL /\ as_BufferUsed st' = 4 + 12 * (j + Z.of_nat (length pl))) /\
    (pl = [] -> st' = st).
Proof.
  induction pl as [|[i f] pl IH]; intros st ps tail j Hst Hpl Hj Hpos Hw Ho; cbn [run_plan length] in *.
  { exists st. by repeat split. }
  apply Forall_cons in Hpl as [Hi Hpl].
  destruct (save_and_set_over st ps tail i f j) as (st1 & -> & (E1 & E2 & E3 & E4) & Hj1 & Hs1 & Hu1); [done || lia..|]. bsimpl.
  assert (Hst1 : state_at st1 ps tail) by (destruct Hst as (? & ? & ?); repeat split; congruence).
  destruct (IH st1 ps tail (j + 1)) as (st' & -> & (F1 & F2 & F3 & F4) & Hne & Hnil); [done || lia..|].
  exists st'. split; [done|]. split; [repeat split; congruence|]. split; [|done]. intros _.
  destruct pl as [|x pl]; [|destruct Hne as [-> ->]; [done|split; [done|cbn [length]; lia]]].
  rewrite (Hnil eq_refl). split; [done|]. rewrite Hu1. cbn [length]. lia.
Qed.
End Run.

(** ** The plans of the two kinds of requests *)

Definition clear_enabled (a : Z) : Z := ClearFlag a SE_PRIVILEGE_ENABLED.
Definition set_enabled (a : Z) : Z := SetFlag a SE_PRIVILEGE_ENABLED.

Definition new_change (new : Z) : option (Z -> Z) :=
  if new =? 0 then Some clear_enabled else if IsSetFlag new SE_PRIVILEGE_ENABLED then Some set_enabled else None.

Definition disable_plan (n : nat) : plan := map (fun i => (i, clear_enabled)) (seq 0 n).

Definition first_index (luids : list LUID) (l : LUID) : option nat := fst <$> list_find (eq l) luids.

Definition adjust_plan (luids : list LUID) (news : list LUID_AND_ATTRIBUTES) : plan :=
  omap (fun new => f ← new_change (la_Attributes new); i ← first_index luids (la_Luid new); Some (i, f)) news.

Lemma first_index_Some luids l i : first_index luids l = Some i -> luids !! i = Some l.
Proof. intros ([j x] & E & ->)%fmap_Some. apply list_find_Some in E as (E & -> & _). done. Qed.

Lemma first_index_cons luids l k :
  first_index (k :: luids) l = if bool_decide (l = k) then Some 0%nat else S <$> first_index luids l.
Proof.
  unfold first_index. cbn [list_find]. rewrite decide_bool_decide. case_bool_decide; [done|].
  destruct (list_find (eq l) luids) as [[i x]|]; done.
Qed.

Lemma first_index_middle l x r : x ∉ l -> first_index (l ++ x :: r) x = Some (length l).
Proof.
  induction l as [|y l IH]; intros Hn; cbn [app]; rewrite first_index_cons; [by rewrite bool_decide_eq_true_2|].
  apply not_elem_of_cons in Hn as [Hy Hn]. rewrite bool_decide_eq_false_2 by done. by rewrite IH.
Qed.

Lemma keeps_width_clear : keeps_width clear_enabled.
Proof.
  intros a Ha. unfold clear_enabled, ClearFlag.
  destruct (Z.ldiff_le (Z.ldiff a SE_PRIVILEGE_ENABLED) a); [lia| |lia]. zbits.
Qed.

Lemma keeps_width_set : keeps_width set_enabled.
Proof.
  intros a Ha. unfold set_enabled, SetFlag. assert (0 <= Z.lor a SE_PRIVILEGE_ENABLED) by (apply Z.lor_nonneg; unfold SE_PRIVILEGE_ENABLED; lia).
  split; [done|]. destruct (Z.eq_dec (Z.lor a SE_PRIVILEGE_ENABLED) 0); [lia|]. apply Z.log2_lt_pow2; [lia|].
  rewrite Z.log2_lor by (unfold SE_PRIVILEGE_ENABLED; lia). apply Z.max_lub_lt; [|done].
  destruct (Z.eq_dec a 0) as [->|]; [done|]. apply Z.log2_lt_pow2; lia.
Qed.

Lemma keeps_width_new new f : new_change new = Some f -> keeps_width f.
Proof.
  unfold new_change. destruct (new =? 0); [intros [= <-]; apply keeps_width_clear|].
  destruct (IsSetFlag _ _); [intros [= <-]; apply keeps_width_set|done].
Qed.

Lemma new_attributes_change new a : new_attributes new a = match new_change new with Some f => f a | None => a end.
Proof. unfold new_attributes, new_change. destruct (new =? 0); [done|]. by destruct (IsSetFlag _ _). Qed.

Lemma asks_change_some new : asks_change new = bool_decide (is_Some (new_change (la_Attributes new))).
Proof.
  unfold asks_change, new_change. destruct (_ =? 0); cbn [orb].
  - symmetry. apply bool_decide_eq_true_2. by eexists.
  - destruct (IsSetFlag _ _); symmetry; [apply bool_decide_eq_true_2; by eexists|].
    apply bool_decide_eq_false_2. by intros [? ?].
Qed.

Lemma disable_plan_ok n : plan_ok (disable_plan n) n.
Proof.
  unfold disable_plan. split.
  - rewrite map_map. cbn. rewrite map_id. apply NoDup_seq.
  - apply Forall_map, Forall_seq. intros i Hi. split; [lia|apply keeps_width_clear].
Qed.

Lemma adjust_plan_ok luids news : NoDup (map la_Luid news) -> plan_ok (adjust_plan luids news) (length luids).
Proof.
  intros Hd. unfold adjust_plan. split.
  - induction news as [|new news IH]; [constructor|]. cbn in Hd. apply NoDup_cons in Hd as [Hni Hd]. cbn.
    destruct (new_change (la_Attributes new)) as [f|]; [|by apply IH]. bsimpl.
    destruct (first_index luids (la_Luid new)) as [i|] eqn:Ei; [|by apply IH]. bsimpl. cbn. apply NoDup_cons. split; [|by apply IH].
    intros ([j g] & -> & Hin)%list_elem_of_fmap. apply list_elem_of_omap in Hin as (new' & Hin & Hn').
    cbn [fst] in Ei. destruct (new_change _); [|done]. cbn [mbind option_bind] in Hn'.
    destruct (first_index luids (la_Luid new')) as [j'|] eqn:Ej; [|done]. injection Hn' as -> _.
    apply first_index_Some in Ei, Ej. apply Hni, list_elem_of_fmap. exists new'. split; [congruence|done].
  - apply Forall_forall. intros [i f] Hin. apply list_elem_of_omap in Hin as (new & _ & Hn).
    destruct (new_change _) as [f'|] eqn:Ef; [|done]. cbn [mbind option_bind] in Hn.
    destruct (first_index luids (la_Luid new)) as [i'|] eqn:Ei; [|done]. injection Hn as -> ->.
    split; [by eapply lookup_lt_Some, first_index_Some|by eapply keeps_width_new].
Qed.

Section Plans.
Context `{Host} (L : Z).

Lemma disable_all_plan m : forall i st,
  disable_all m L (Z.of_nat i) st = run_plan L 0 (map (fun i => (i, clear_enabled)) (seq i m)) st.
Proof.
  induction m as [|m IH]; intros i st; [done|]. cbn [disable_all seq map run_plan].
  change (fun a => ClearFlag a SE_PRIVILEGE_ENABLED) with clear_enabled. destruct (save_and_set _ _ _ _ _) as [st'|]; [|done]. bsimpl.
  rewrite <- IH. f_equal. lia.
Qed.

Lemma adjust_found_plan i new st :
  IsSetFlag new SE_PRIVILEGE_REMOVED = false ->
  adjust_found L i new st = match new_change new with Some f => save_and_set L i f 1 st | None => Some st end.
Proof.
  intros Hr. unfold adjust_found, new_change. rewrite Hr. destruct (Z.eqb_spec new 0) as [->|].
  - change (IsSetFlag 0 SE_PRIVILEGE_ENABLED) with false. change (fun a => ClearFlag a SE_PRIVILEGE_ENABLED) with clear_enabled. by destruct (save_and_set _ _ _ _ _).
  - bsimpl. change (fun a => SetFlag a SE_PRIVILEGE_ENABLED) with set_enabled. destruct (IsSetFlag new SE_PRIVILEGE_ENABLED); [|reflexivity]. by destruct (save_and_set _ _ _ _ _).
Qed.

Lemma adjust_one_find new k : forall l st tail,
  state_at st (l ++ k) tail ->
  adjust_one (length k) L (priv_count l) new st =
    match first_index (map la_Luid k) (la_Luid new) with
    | Some i => adjust_found L (priv_count l + Z.of_nat i) (la_Attributes new) st
    | None => Some st
    end.
Proof.
  induction k as [|p k IH]; intros l st tail Hst; [done|]. pose proof Hst as (Hm & _ & Hw).
  assert (Hp : priv_wf p) by (apply Forall_app in Hw as [_ Hw]; by apply Forall_cons in Hw as [? _]).
  cbn [length adjust_one map]. rewrite Hm, ld_privilege_index by done. bsimpl.
  rewrite RtlEqualLuid_decide, first_index_cons. case_bool_decide.
  - by rewrite Z.add_0_r.
  - replace (priv_count l + 1) with (priv_count (l ++ [p])) by (rewrite priv_count_app; done).
    rewrite (IH (l ++ [p]) st tail) by (by rewrite <- app_assoc). rewrite priv_count_app.
    destruct (first_index _ _) as [i|]; [|done]. cbn. f_equal. change (priv_count [p]) with 1. lia.
Qed.

(** A save changes no LUID. *)
Lemma save_and_set_luids n st ps tail i f st' :
  state_at st ps tail -> (i < length ps)%nat -> keeps_width f -> save_and_set L (Z.of_nat i) f n st = Some st' ->
  exists ps', state_at st' ps' tail /\ map la_Luid ps' = map la_Luid ps.
Proof.
  intros Hst Hi Hf. destruct (state_at_split st ps tail i Hst Hi) as (l & p & k & -> & <- & Hp).
  destruct Hst as (Hm & Hc & Hw). unfold save_and_set. rewrite Hm. fold (priv_count l). rewrite ld_privilege_index by done. bsimpl.
  destruct (RtlpAppendTokenPrivileges _ _ _ _) as [[[status prev] used]|]; [|done]. bsimpl.
  rewrite st_attributes_index. destruct (is_ok status); bsimpl; intros [= <-].
  - exists (l ++ change f p :: k). split; [|by rewrite !map_app].
    split; [done|]. split; [cbn; rewrite Hc, !priv_count_app, !priv_count_cons; done|].
    apply Forall_app in Hw as [? Hw']. apply Forall_cons in Hw' as [? ?]. apply Forall_app. split; [done|].
    constructor; [by apply priv_wf_change|done].
  - exists (l ++ p :: k). by repeat split.
Qed.

Lemma adjust_each_plan news luids : Forall (fun new => IsSetFlag (la_Attributes new) SE_PRIVILEGE_REMOVED = false) news ->
  forall st ps tail, state_at st ps tail -> map la_Luid ps = luids ->
  adjust_each L news st = run_plan L 1 (adjust_plan luids news) st.
Proof.
  induction 1 as [|new news Hr _ IH]; intros st ps tail Hst Hl; [done|]. cbn [adjust_each adjust_plan omap list_omap].
  pose proof Hst as (_ & Hc & _). rewrite Hc. unfold priv_count. rewrite Nat2Z.id.
  pose proof (adjust_one_find new ps [] st tail Hst) as Ho. change (priv_count []) with 0 in Ho. rewrite Ho, Hl. clear Ho.
  destruct (first_index luids (la_Luid new)) as [i|] eqn:Ei.
  2: { bsimpl. rewrite (IH st ps tail Hst Hl). by destruct (new_change _). }
  rewrite Z.add_0_l, adjust_found_plan by done.
  destruct (new_change (la_Attributes new)) as [f|] eqn:Ef; bsimpl; [|by apply (IH st ps tail)]. cbn [run_plan].
  destruct (save_and_set L (Z.of_nat i) f 1 st) as [st'|] eqn:Es; [|done]. bsimpl.
  destruct (save_and_set_luids 1 st ps tail i f st' Hst) as (ps' & Hst' & Hl'); [|by eapply keeps_width_new|done|].
  { rewrite <- (length_map la_Luid ps), Hl. by eapply lookup_lt_Some, first_index_Some. }
  apply (IH st' ps' tail Hst'). congruence.
Qed.
End Plans.

(** ** What the plans do *)

Lemma apply_plan_length pl : forall ps, length (apply_plan pl ps) = length ps.
Proof. induction pl as [|[i f] pl IH]; intros ps; [done|]. cbn. unfold apply_plan in IH. rewrite IH. apply length_alter. Qed.

Lemma apply_disable_plan ps : apply_plan (disable_plan (length ps)) ps = map (change clear_enabled) ps.
Proof.
  assert (Hg : forall l k, apply_plan (map (fun i => (i, clear_enabled)) (seq (length l) (length k))) (l ++ k)
                       = l ++ map (change clear_enabled) k); [|by apply (Hg [])].
  intros l k. revert l. induction k as [|p k IH]; intros l; [done|]. cbn [length seq map apply_plan foldl].
  rewrite alter_split. specialize (IH (l ++ [change clear_enabled p])). rewrite length_app, Nat.add_1_r, <- !app_assoc in IH.
  exact IH.
Qed.

Lemma saves_disable_plan ps : plan_saves (disable_plan (length ps)) ps = ps.
Proof.
  assert (Hg : forall l k, plan_saves (map (fun i => (i, clear_enabled)) (seq (length l) (length k))) (l ++ k) = k); [|by apply (Hg [])].
  intros l k. revert l. induction k as [|p k IH]; intros l; [done|]. cbn [length seq map].
  specialize (IH (l ++ [p])). rewrite length_app, Nat.add_1_r, <- app_assoc in IH. unfold plan_saves in *. cbn.
  rewrite list_lookup_middle by done. f_equal. exact IH.
Qed.

(** With distinct LUIDs, changing the first match is changing every match. *)
Lemma alter_first_index f new ps i :
  NoDup (map la_Luid ps) -> first_index (map la_Luid ps) (la_Luid new) = Some i ->
  new_change (la_Attributes new) = Some f -> alter (change f) i ps = map (fun p => adjusted p new) ps.
Proof.
  intros Hd Hi Hf. revert i Hi. induction ps as [|p ps IH]; intros i Hi; [done|].
  cbn in Hd. apply NoDup_cons in Hd as [Hni Hd]. cbn [map] in Hi. rewrite first_index_cons in Hi. cbn [map].
  unfold adjusted at 1. case_bool_decide as E.
  - injection Hi as <-. cbn. rewrite new_attributes_change, Hf. f_equal. rewrite <- (map_id ps) at 1.
    apply map_ext_in. intros q Hq. unfold adjusted. rewrite bool_decide_eq_false_2; [done|]. intros E'.
    apply Hni, list_elem_of_fmap. exists q. split; [congruence|by apply list_elem_of_In].
  - destruct (first_index _ _) as [j|]; [|done]. injection Hi as <-. cbn. f_equal. by apply IH.
Qed.

Lemma adjusted_luid p new : la_Luid (adjusted p new) = la_Luid p.
Proof. unfold adjusted. by case_bool_decide. Qed.

Lemma adjusted_id p new : new_change (la_Attributes new) = None -> adjusted p new = p.
Proof.
  intros E. unfold adjusted. case_bool_decide; [|done]. rewrite new_attributes_change, E. by destruct p as [[? ?] ?].
Qed.

Lemma adjusted_notin ps new :
  first_index (map la_Luid ps) (la_Luid new) = None -> map (fun p => adjusted p new) ps = ps.
Proof.
  induction ps as [|p ps IH]; intros E; [done|]. cbn [map] in *. rewrite first_index_cons in E. unfold adjusted at 1.
  destruct (bool_decide (la_Luid new = la_Luid p)); [done|]. f_equal. apply IH. by destruct (first_index _ _).
Qed.

Lemma apply_adjust_plan news : forall ps, NoDup (map la_Luid ps) ->
  apply_plan (adjust_plan (map la_Luid ps) news) ps = adjust_list news ps.
Proof.
  induction news as [|new news IH]; intros ps Hd; [by unfold adjust_list; rewrite map_id|].
  assert (Hm : map la_Luid (map (fun p => adjusted p new) ps) = map la_Luid ps).
  { rewrite map_map. apply map_ext. intros. apply adjusted_luid. }
  assert (Hr : adjust_list (new :: news) ps = adjust_list news (map (fun p => adjusted p new) ps)).
  { unfold adjust_list. by rewrite map_map. }
  rewrite Hr, <- IH by (by rewrite Hm). rewrite Hm. unfold adjust_plan. cbn [omap list_omap].
  destruct (new_change (la_Attributes new)) as [f|] eqn:Ef.
  - bsimpl. destruct (first_index _ (la_Luid new)) as [i|] eqn:Ei; bsimpl.
    + cbn [apply_plan foldl]. by rewrite (alter_first_index f new ps i).
    + by rewrite adjusted_notin.
  - bsimpl. f_equal. rewrite <- (map_id ps) at 1. apply map_ext. intros. by rewrite adjusted_id.
Qed.

Lemma find_luid ps l :
  snd <$> list_find (fun p => la_Luid p = l) ps = i ← first_index (map la_Luid ps) l; ps !! i.
Proof.
  induction ps as [|p ps IH]; [done|]. cbn [map list_find]. rewrite first_index_cons.
  rewrite decide_bool_decide. destruct (decide (la_Luid p = l)) as [->|Hn].
  - by rewrite !bool_decide_eq_true_2.
  - rewrite !bool_decide_eq_false_2 by congruence. destruct (list_find _ ps) as [[j q]|]; cbn in *; rewrite IH;
      by destruct (first_index _ _).
Qed.

Lemma saves_adjust_plan news ps : plan_saves (adjust_plan (map la_Luid ps) news) ps = saved_by news ps.
Proof.
  unfold plan_saves, adjust_plan, saved_by. induction news as [|new news IH]; [done|].
  cbn [omap list_omap]. rewrite asks_change_some, find_luid.
  destruct (new_change (la_Attributes new)) as [f|]; bsimpl; [|exact IH]. rewrite bool_decide_eq_true_2 by (by eexists).
  destruct (first_index _ _) as [i|] eqn:Ei; bsimpl; [|exact IH]. cbn [omap list_omap].
  destruct (ps !! i) as [q|] eqn:Eq; [|exact IH]. f_equal. exact IH.
Qed.

(** ** Taking changes back *)

Definition restore (p s : LUID_AND_ATTRIBUTES) : LUID_AND_ATTRIBUTES :=
  if bool_decide (la_Luid s = la_Luid p) then set_attributes p (la_Attributes s) else p.

Lemma restore_luid p s : la_Luid (restore p s) = la_Luid p.
Proof. unfold restore. by case_bool_decide. Qed.

Lemma restore_wf p s : priv_wf p -> priv_wf s -> priv_wf (restore p s).
Proof. intros (? & ? & ?) (? & ? & ?). unfold restore. case_bool_decide; unfold priv_wf; cbn; tauto. Qed.

(** The saved privileges put the original ones back. *)
Lemma restore_all p sv : forall c,
  la_Luid c = la_Luid p -> c = p \/ p ∈ sv -> (forall s, s ∈ sv -> la_Luid s = la_Luid p -> s = p) ->
  foldl restore c sv = p.
Proof.
  induction sv as [|s sv IH]; intros c Hl Hc Hs; cbn.
  { destruct Hc as [Hc|Hc]; [done|by apply not_elem_of_nil in Hc]. }
  apply IH; [by rewrite restore_luid|..|].
  - unfold restore. case_bool_decide as E.
    + left. assert (s = p) as -> by (apply Hs; [left|congruence]). destruct c, p. cbn in *. by subst.
    + destruct Hc as [Hc|Hc]; [by left|]. apply elem_of_cons in Hc as [Hc|Hc]; [|by right].
      subst s. by destruct E.
  - intros s' Hin. apply Hs. by right.
Qed.

Section Rollback.
Context `{Host}.

Lemma rollback_one_at s tail k : Forall priv_wf k -> forall l,
  rollback_one (length k) (priv_count l) s (privs_bytes host (l ++ k) ++ tail) =
    Some (privs_bytes host (l ++ map (fun p => restore p s) k) ++ tail).
Proof.
  induction 1 as [|p k Hp _ IH]; intros l; [done|]. cbn [length rollback_one map].
  rewrite ld_privilege_index by done. bsimpl. rewrite RtlEqualLuid_decide, st_attributes_index.
  assert (Hr : (if bool_decide (la_Luid s = la_Luid p) then Some (privs_bytes host (l ++ set_attributes p (la_Attributes s) :: k) ++ tail)
                else Some (privs_bytes host (l ++ p :: k) ++ tail)) = Some (privs_bytes host ((l ++ [restore p s]) ++ k) ++ tail)).
  { unfold restore. rewrite <- app_assoc. by destruct (bool_decide _). }
  rewrite Hr. bsimpl. replace (priv_count l + 1) with (priv_count (l ++ [restore p s])) by (rewrite priv_count_app; done).
  rewrite IH. by rewrite <- app_assoc.
Qed.

Lemma rollback_at hdr rest tail sv : zlen hdr = 4 -> forall done ps, Forall priv_wf sv -> Forall priv_wf ps ->
  rollback (length sv) (priv_count done) (hdr ++ privs_bytes host (done ++ sv) ++ rest) (length ps) (privs_bytes host ps ++ tail) =
    Some (privs_bytes host (map (fun p => foldl restore p sv) ps) ++ tail).
Proof.
  intros Hh. induction sv as [|s sv IH]; intros dn ps Hsv Hps; [by cbn; rewrite map_id|].
  apply Forall_cons in Hsv as [Hs Hsv]. cbn [length rollback].
  rewrite privs_bytes_app, privs_bytes_cons, <- !app_assoc, (app_assoc hdr), ld_privilege_at;
    [|done|rewrite zlen_app, zlen_privs_bytes, Hh; reflexivity]. bsimpl.
  pose proof (rollback_one_at s tail ps Hps []) as Hone. cbn [app] in Hone. change (priv_count []) with 0 in Hone.
  rewrite Hone. bsimpl.
  replace (length ps) with (length (map (fun p => restore p s) ps)) by apply length_map.
  replace (priv_count dn + 1) with (priv_count (dn ++ [s])) by (rewrite priv_count_app; done).
  specialize (IH (dn ++ [s]) (map (fun p => restore p s) ps) Hsv).
  rewrite <- (app_assoc dn), privs_bytes_app, privs_bytes_app in IH. cbn [privs_bytes flat_map] in IH.
  rewrite app_nil_r, <- !app_assoc, (app_assoc hdr) in IH. rewrite map_map in IH. apply IH.
  apply Forall_map. eapply Forall_impl; [exact Hps|]. intros p Hp. by apply restore_wf.
Qed.
End Rollback.

Lemma nodup_luid ps s p :
  NoDup (map la_Luid ps) -> s ∈ ps -> p ∈ ps -> la_Luid s = la_Luid p -> s = p.
Proof.
  intros Hd [i Hi]%list_elem_of_lookup [j Hj]%list_elem_of_lookup E.
  assert (i = j) as ->; [|congruence]. apply (NoDup_lookup (la_Luid <$> ps) i j (la_Luid s) Hd).
  - by rewrite list_lookup_fmap, Hi.
  - by rewrite list_lookup_fmap, Hj, E.
Qed.

(** A privilege that is the original one, or that was saved. *)
Definition recoverable (sv : list LUID_AND_ATTRIBUTES) (c p : LUID_AND_ATTRIBUTES) : Prop :=
  la_Luid c = la_Luid p /\ (c = p \/ p ∈ sv).

Lemma apply_plan_recoverable sv ps pl : forall cur,
  Forall (fun '(i, _) => forall p, ps !! i = Some p -> p ∈ sv) pl ->
  Forall2 (recoverable sv) cur ps -> Forall2 (recoverable sv) (apply_plan pl cur) ps.
Proof.
  induction pl as [|[i f] pl IH]; intros cur Hpl Hc; [done|]. apply Forall_cons in Hpl as [Hi Hpl]. cbn [apply_plan foldl].
  apply IH; [done|]. apply Forall2_alter_l; [done|]. intros x y Hx Hy [Hl _]. split; [done|]. right. by apply Hi.
Qed.

Lemma recover_all sv cur ps :
  Forall2 (recoverable sv) cur ps -> NoDup (map la_Luid ps) -> Forall (fun s => s ∈ ps) sv ->
  map (fun c => foldl restore c sv) cur = ps.
Proof.
  intros HF Hd Hsv. rewrite Forall_forall in Hsv.
  assert (Hg : forall qs, (forall q, q ∈ qs -> q ∈ ps) -> Forall2 (recoverable sv) cur qs ->
                 map (fun c => foldl restore c sv) cur = qs); [|by apply Hg].
  clear HF. induction cur as [|c cur IH]; intros qs Hin HF; inversion HF as [|? p ? qs' [Hl Hr] HF']; subst; [done|].
  cbn [map]. f_equal.
  - apply restore_all; [done..|]. intros s Hs E. apply (nodup_luid ps); [done|by apply Hsv| |done]. apply Hin. left.
  - apply IH; [|done]. intros q Hq. apply Hin. by right.
Qed.

Lemma to_nat_count ps : Z.to_nat (priv_count ps) = length ps.
Proof. apply Nat2Z.id. Qed.

Lemma priv_count_pos ps : ps <> [] -> 0 < priv_count ps.
Proof. destruct ps as [|p ps]; [done|]. intros _. rewrite priv_count_cons. pose proof (priv_count_nonneg ps). lia. Qed.

Definition with_privs (ts : token_spec) (ps : list LUID_AND_ATTRIBUTES) : token_spec :=
  mk_ts (ts_user ts) (ts_groups ts) ps (ts_owner ts) (ts_group ts) (ts_dacl ts) (ts_unix ts).

Lemma plan_saves_in pl ps : Forall (fun s => s ∈ ps) (plan_saves pl ps).
Proof.
  apply Forall_forall. intros s ([i f] & _ & Hs)%list_elem_of_omap. by apply list_elem_of_lookup_2 in Hs.
Qed.

Lemma plan_saves_index pl ps : Forall (fun '(i, _) => forall p, ps !! i = Some p -> p ∈ plan_saves pl ps) pl.
Proof.
  apply Forall_forall. intros [i f] Hin p Hp. apply list_elem_of_omap. by exists (i, f).
Qed.

Lemma plan_ok_app p1 p2 n : plan_ok (p1 ++ p2) n -> plan_ok p1 n /\ Forall (fun '(i, _) => (i < n)%nat) p2.
Proof.
  intros [Hd Hf]. rewrite map_app in Hd. apply NoDup_app in Hd as (Hd & _ & _). apply Forall_app in Hf as [Hf1 Hf2].
  split; [done|]. eapply Forall_impl; [exact Hf2|]. by intros [i f] [? ?].
Qed.

Section Live.
Context `{Host} `{Layout}.

(** What follows the privileges: the owner, the primary group and the default DACL. *)
Lemma live_token_tail b ts : live_token b ts ->
  exists pre db, let tail := opt_bytes (sid_bytes host) (ts_owner ts) ++ opt_bytes (sid_bytes host) (ts_group ts) ++ db in
    tb_data b = pre ++ privs_bytes host (ts_privs ts) ++ tail /\ zlen pre = tb_Privileges b /\
    tb_PrivilegeCount b = priv_count (ts_privs ts) /\
    forall ps, length ps = length (ts_privs ts) ->
      live_token (set_privileges b (priv_count ps) (pre ++ privs_bytes host ps ++ tail)) (with_privs ts ps).
Proof.
  intros (arr & db & n & U & Gs & O & G & D & -> & Hc & Harr & Hdb).
  exists (sid_bytes host (ts_user ts) ++ arr ++ groups_bytes host (ts_groups ts)), db. intros tail.
  split; [by cbn; unfold token_bytes; rewrite <- !app_assoc|]. split.
  { destruct Hc as ((_ & pu & _ & Hu) & Hg & _). cbn [fst] in Hu.
    rewrite !zlen_app, (zlen_sid_size host _ (sid_at_wf _ _ _ Hu)), (zlen_groups_bytes _ _ Hg), Harr. cbn.
    unfold privs_loc, groups_loc. lia. }
  split; [done|]. intros ps Hl. exists arr, db, n, U, Gs, O, G, D. split; [|by split; [|split]].
  unfold tail, set_privileges, set_ReferenceCount, token_block, token_bytes, with_privs, dacl_loc, group_loc, owner_loc,
    privs_loc, groups_loc, priv_count. cbn. rewrite Hl, <- !app_assoc. done.
Qed.

Lemma live_token_privs b ts : live_token b ts ->
  exists pre tail, tb_data b = pre ++ privs_bytes host (ts_privs ts) ++ tail /\ zlen pre = tb_Privileges b /\
    tb_PrivilegeCount b = priv_count (ts_privs ts) /\
    forall ps, length ps = length (ts_privs ts) ->
      live_token (set_privileges b (priv_count ps) (pre ++ privs_bytes host ps ++ tail)) (with_privs ts ps).
Proof. intros (pre & db & Hb)%live_token_tail. eexists pre, _. exact Hb. Qed.
End Live.

(** ** The whole operation *)

Section Adjust.
Context `{Host} `{Layout} (b : TOKEN_BLOCK) (ts : token_spec) (Hb : live_token b ts).
Context (all : bool) (news : list LUID_AND_ATTRIBUTES) (L : Z) (buf : mem).

Definition request_plan : plan :=
  if all then disable_plan (length (ts_privs ts)) else adjust_plan (map la_Luid (ts_privs ts)) news.

(** The privileges after the request, and those saved for the caller. *)
Definition request_result : list LUID_AND_ATTRIBUTES :=
  if all then map (fun p => set_attributes p (ClearFlag (la_Attributes p) SE_PRIVILEGE_ENABLED)) (ts_privs ts)
  else adjust_list news (ts_privs ts).
Definition request_saves : list LUID_AND_ATTRIBUTES :=
  if all then ts_privs ts else saved_by news (ts_privs ts).

Context (Hwf : Forall priv_wf (ts_privs ts)) (Hne : ts_privs ts <> []).
Context (Hnodup : NoDup (map la_Luid (ts_privs ts))) (Hnews : NoDup (map la_Luid news)).
Context (Hkeep : Forall (fun new => IsSetFlag (la_Attributes new) SE_PRIVILEGE_REMOVED = false) news).
Context (HL : 0 <= L < 2 ^ 32) (Hbuf : zlen buf = L).

Lemma request_plan_ok : plan_ok request_plan (length (ts_privs ts)).
Proof using Hnews.
  unfold request_plan. destruct all; [apply disable_plan_ok|].
  rewrite <- (length_map la_Luid (ts_privs ts)). by apply adjust_plan_ok.
Qed.

Lemma request_plan_apply : apply_plan request_plan (ts_privs ts) = request_result.
Proof using Hnodup. unfold request_plan, request_result. destruct all; [apply apply_disable_plan|by apply apply_adjust_plan]. Qed.

Lemma request_plan_saves : plan_saves request_plan (ts_privs ts) = request_saves.
Proof. unfold request_plan, request_saves. destruct all; [apply saves_disable_plan|apply saves_adjust_plan]. Qed.

Lemma request_plan_length : Z.of_nat (length request_plan) = priv_count request_saves.
Proof using Hnews.
  rewrite <- request_plan_saves. unfold priv_count. by rewrite plan_saves_length by apply request_plan_ok.
Qed.

Definition start_state (prev : ptr) (m : mem) : adjust_state :=
  {| as_status := STATUS_SUCCESS; as_Privileges := m; as_PrivilegeCount := tb_PrivilegeCount b;
     as_PreviousState := prev; as_returnedIndex := 0; as_BufferUsed := 0; as_adjustedCount := 0 |}.

Lemma adjust_body_plan prev tail : tb_PrivilegeCount b = priv_count (ts_privs ts) ->
  let st := start_state prev (privs_bytes host (ts_privs ts) ++ tail) in
  adjust_body all (Some news) L st = run_plan L (if all then 0 else 1) request_plan st.
Proof using Hwf Hne Hkeep.
  intros Hc st. unfold adjust_body. cbn [as_PrivilegeCount st start_state]. rewrite bool_decide_eq_false_2 by done. cbn [andb].
  rewrite Hc. destruct (Z.eqb_spec (priv_count (ts_privs ts)) 0) as [E|_].
  { pose proof (priv_count_pos _ Hne). lia. }
  unfold request_plan. destruct all.
  - unfold priv_count. rewrite Nat2Z.id. apply (disable_all_plan L _ 0).
  - bsimpl. eapply adjust_each_plan; [done| |done]. repeat split; [|done]. exact Hc.
Qed.

Lemma saved_at_nil : 4 <= L -> saved_at L buf [].
Proof using Hbuf.
  intros Hl. split; [done|]. destruct (room buf 4) as (h & r & E & Hh & _); [lia|]. exists h, r. by rewrite E.
Qed.

(** The status of a request that succeeds: entries without a privilege to change
    are reported. *)
Definition request_status : NTSTATUS :=
  if negb all && (priv_count request_saves <? Z.of_nat (length news)) then STATUS_NOT_ALL_ASSIGNED else STATUS_SUCCESS.


(** The entries whose saves fit, and those after them. *)
Lemma split_plan c : 0 <= c < priv_count request_saves ->
  exists p1 p2, request_plan = p1 ++ p2 /\ Z.of_nat (length p1) = c /\ p2 <> [] /\
    Z.of_nat (length p1) + Z.of_nat (length p2) = priv_count request_saves.
Proof using Hnews.
  intros Hc. pose proof request_plan_length as Hlen. exists (take (Z.to_nat c) request_plan), (drop (Z.to_nat c) request_plan).
  rewrite take_drop. assert (length (take (Z.to_nat c) request_plan) = Z.to_nat c) as -> by (rewrite length_take; lia).
  assert (Hd : length (drop (Z.to_nat c) request_plan) = (length request_plan - Z.to_nat c)%nat) by apply length_drop.
  repeat split; [lia| |lia]. intros Ed. rewrite Ed in Hd. cbn in Hd. lia.
Qed.

(** What [cleanup] does when some saves fitted and the others did not. *)
Lemma adjust_cleanup_restores st buf' sv cur tail :
  state_at st cur tail -> as_PreviousState st = Some buf' -> saved_at L buf' sv -> sv <> [] ->
  L < as_BufferUsed st -> Forall2 (recoverable sv) cur (ts_privs ts) -> Forall (fun s => s ∈ ts_privs ts) sv ->
  exists st', adjust_cleanup L st = Some st' /\ as_status st' = STATUS_BUFFER_TOO_SMALL /\
    as_Privileges st' = privs_bytes host (ts_privs ts) ++ tail /\ as_PrivilegeCount st' = priv_count cur /\
    as_PreviousState st' = Some buf' /\ as_BufferUsed st' = as_BufferUsed st.
Proof using Hwf Hnodup HL.
  intros (Hm & Hc & Hw) Hp (Hz & hdr & rest & -> & Hh & Hhdr) Hsv Hu Hrec Hin. unfold adjust_cleanup. rewrite Hp.
  destruct (Z.ltb_spec L (as_BufferUsed st)); [|lia].
  rewrite !zlen_app, zlen_privs_bytes in Hz. pose proof (priv_count_nonneg sv). pose proof (zlen_nonneg rest).
  assert (Hn : TokenPrivileges_PrivilegeCount (hdr ++ privs_bytes host sv ++ rest) = Some (priv_count sv)).
  { unfold TokenPrivileges_PrivilegeCount, ld32. rewrite rd_at_0 by done. bsimpl. rewrite Hhdr by done.
    by rewrite decode_encode by lia. }
  rewrite Hn. bsimpl. rewrite Hm, Hc, !to_nat_count.
  assert (Hwsv : Forall priv_wf sv).
  { eapply Forall_impl; [exact Hin|]. intros s Hs. rewrite Forall_forall in Hwf. by apply Hwf. }
  pose proof (rollback_at hdr rest tail sv Hh [] cur Hwsv Hw) as Hrb. change (priv_count []) with 0 in Hrb.
  cbn [app] in Hrb. rewrite Hrb. bsimpl.
  rewrite (recover_all sv cur (ts_privs ts)) by done. eexists. split; [done|]. cbn. done.
Qed.

(** C4: a request to enable or disable privileges (one by one or all of them) that
    removes none and names none twice, on a token that has no privilege twice. When the
    buffer can hold some of the previous state but not all of it,
    [RtlAdjustTokenPrivileges] takes back every change it made: it returns
    [STATUS_BUFFER_TOO_SMALL] with the length needed, and the token is the one it was
    given. Without these conditions it is not ([rollback_misses]). *)
Theorem RtlAdjustTokenPrivileges_rollback :
  16 <= L -> L < 4 + 12 * priv_count request_saves -> 4 + 12 * priv_count request_saves < 2 ^ 32 ->
  exists buf',
    RtlAdjustTokenPrivileges b all (Some news) L (Some buf) true =
      Some (STATUS_BUFFER_TOO_SMALL, b, Some buf', 4 + 12 * priv_count request_saves).
Proof using Hb Hwf Hne Hnodup Hnews Hkeep HL Hbuf.
  intros H16 Hover Hmax. destruct (live_token_privs b ts Hb) as (pre & tail & E & Hpre & Hc & _).
  set (c := (L - 4) / 12). assert (Hcap : 1 <= c /\ 4 + 12 * c <= L < 4 + 12 * (c + 1)).
  { unfold c. pose proof (Z.div_mod (L - 4) 12). pose proof (Z.mod_pos_bound (L - 4) 12). lia. }
  destruct (split_plan c) as (p1 & p2 & Ep & Hl1 & Hp2 & Hl12); [lia|].
  pose proof request_plan_ok as Hok. rewrite Ep in Hok. apply plan_ok_app in Hok as [Hok1 Hok2].
  unfold RtlAdjustTokenPrivileges. rewrite E, (padd_app pre) by done. fold (start_state (Some buf) (privs_bytes host (ts_privs ts) ++ tail)).
  rewrite adjust_body_plan, Ep, run_plan_app by done.
  destruct (run_plan_fits L (if all then 0 else 1) HL p1 (start_state (Some buf) (privs_bytes host (ts_privs ts) ++ tail))
    (ts_privs ts) tail buf []) as (st1 & buf1 & -> & Hst1 & Hprev1 & Hsv1 & Hj1 & _);
    [by repeat split|done|done|apply saved_at_nil; lia|done|change (priv_count []) with 0; lia|]. bsimpl.
  change (priv_count []) with 0 in Hj1. rewrite Z.add_0_l in Hj1. cbn [app] in Hsv1.
  destruct (run_plan_over L (if all then 0 else 1) HL p2 st1 (apply_plan p1 (ts_privs ts)) tail c)
    as (st2 & -> & (F1 & F2 & F3 & F4) & Hne2 & _); [done|by rewrite apply_plan_length|lia..|]. bsimpl.
  destruct (Hne2 Hp2) as [Hs2 Hu2].
  assert (Hsvne : plan_saves p1 (ts_privs ts) <> []).
  { intros En. apply (f_equal length) in En. rewrite plan_saves_length in En by done. cbn in En. lia. }
  destruct (adjust_cleanup_restores st2 buf1 (plan_saves p1 (ts_privs ts)) (apply_plan p1 (ts_privs ts)) tail)
    as (st3 & -> & Hs3 & Hm3 & Hc3 & Hp3 & Hu3).
  { destruct Hst1 as (? & ? & ?). repeat split; congruence. }
  { congruence. }
  { done. }
  { done. }
  { rewrite Hu2. lia. }
  { apply apply_plan_recoverable; [apply plan_saves_index|]. apply Forall_Forall2_diag, Forall_forall. intros p _. by split; [|left]. }
  { apply plan_saves_in. }
  bsimpl. rewrite Hs3. change (is_ok STATUS_BUFFER_TOO_SMALL) with false. cbn [andb]. bsimpl. cbn [negb].
  rewrite bool_decide_eq_true_2 by (right; left). rewrite Hm3, Hc3, Hp3, Hu3, Hu2. exists buf1.
  assert (Htake : take (Z.to_nat (tb_Privileges b)) (pre ++ privs_bytes host (ts_privs ts) ++ tail) = pre).
  { rewrite <- Hpre. unfold zlen. by rewrite Nat2Z.id, take_app_length. }
  rewrite Htake. unfold priv_count at 1. rewrite apply_plan_length. fold (priv_count (ts_privs ts)). rewrite <- Hc, <- E.
  do 3 f_equal; [|lia]. do 2 f_equal. by destruct b.
Qed.

(** without a buffer for the previous state (which the interface says is
    optional) [RtlAdjustTokenPrivileges] cannot enable or disable a privilege: it
    leaves the token as it is and returns [STATUS_BUFFER_TOO_SMALL]. *)
Theorem RtlAdjustTokenPrivileges_needs_buffer :
  L < 16 -> request_saves <> [] -> 4 + 12 * priv_count request_saves < 2 ^ 32 ->
  RtlAdjustTokenPrivileges b all (Some news) L None true =
    Some (STATUS_BUFFER_TOO_SMALL, b, None, 4 + 12 * priv_count request_saves).
Proof using Hb Hwf Hne Hnews Hkeep HL.
  intros Hsmall Hsv Hmax. destruct (live_token_privs b ts Hb) as (pre & tail & E & Hpre & Hc & _).
  pose proof request_plan_ok as [_ Hok]. pose proof request_plan_length as Hlen. pose proof (priv_count_pos _ Hsv).
  unfold RtlAdjustTokenPrivileges. rewrite E, (padd_app pre) by done.
  fold (start_state None (privs_bytes host (ts_privs ts) ++ tail)). rewrite adjust_body_plan by done.
  destruct (run_plan_over L (if all then 0 else 1) HL request_plan (start_state None (privs_bytes host (ts_privs ts) ++ tail))
    (ts_privs ts) tail 0) as (st & -> & (F1 & F2 & F3 & F4) & Hst & _);
    [by repeat split|eapply Forall_impl; [exact Hok|]; by intros [i f] [? ?]|done|lia|lia|lia|].
  destruct Hst as [Hs Hu]; [intros Ep; rewrite Ep in Hlen; cbn [length] in Hlen; lia|]. bsimpl.
  unfold adjust_cleanup. rewrite F3. cbn [as_PreviousState start_state]. bsimpl. rewrite Hs.
  change (is_ok STATUS_BUFFER_TOO_SMALL) with false. cbn [andb]. bsimpl. cbn [negb].
  rewrite bool_decide_eq_true_2 by (right; left). rewrite F1, F2, F3, Hu. cbn [as_Privileges as_PrivilegeCount as_PreviousState start_state].
  assert (Htake : take (Z.to_nat (tb_Privileges b)) (pre ++ privs_bytes host (ts_privs ts) ++ tail) = pre).
  { rewrite <- Hpre. unfold zlen. by rewrite Nat2Z.id, take_app_length. }
  rewrite Htake, <- E. do 3 f_equal; [|lia]. do 2 f_equal. by destruct b.
Qed.
End Adjust.

(** ** Removal *)

(** The bytes that follow the privileges after the removal of the one at index [i],
    when it is not the last: [11 * i - 1] of them are overwritten by those that are
    twelve bytes further. *)
Definition after_removal (i : nat) (tail : mem) : mem := take (11 * i - 1) (drop 12 tail) ++ drop (11 * i - 1) tail.

Section Removal.
Context `{Host}.

Lemma shifted_tail (i : nat) (pp tail t1 : mem) k : zlen pp = 12 * (k + 1) -> 0 <= k -> t1 = take (11 * (i + 1)) tail -> (11 * (i + 1) <= length tail)%nat ->
  drop 12 (t1 ++ drop (Z.to_nat (12 * k) + 11 * (i + 1)) (pp ++ tail)) = after_removal i tail.
Proof.
  intros Hp Hk -> Hl. unfold zlen in Hp. unfold after_removal. destruct i as [|i].
  - change (11 * 0 - 1)%nat with 0%nat. cbn [take drop]. rewrite drop_app_ge by (rewrite length_take; lia). rewrite length_take, drop_drop, Nat.min_l by lia.
    rewrite drop_app_ge by lia. replace (_ - length pp)%nat with 0%nat by lia. done.
  - rewrite drop_app_le by (rewrite length_take; lia). rewrite drop_app_ge by lia. rewrite take_drop_commute. f_equal; f_equal; [f_equal|]; lia.
Qed.

(** Writing over the first bytes of what follows [A]. *)
Lemma wr_over A bs X off : off = zlen A -> zlen bs <= zlen X -> wr (A ++ X) off bs = Some (A ++ bs ++ drop (length bs) X).
Proof.
  intros -> Hl. unfold zlen in Hl. rewrite <- (take_drop (length bs) X) at 1. apply wr_at; [done|]. unfold zlen. rewrite length_take. lia.
Qed.

Lemma remove_privilege_at l p r tail st : state_at st (l ++ p :: r) tail -> r <> [] ->
  remove_privilege (priv_count l) st =
    if zlen tail <? 11 * (priv_count l + 1) then None
    else Some {| as_status := as_status st; as_Privileges := privs_bytes host (l ++ r) ++ zeros 12 ++ after_removal (length l) tail;
                 as_PrivilegeCount := priv_count (l ++ r); as_PreviousState := as_PreviousState st; as_returnedIndex := as_returnedIndex st;
                 as_BufferUsed := as_BufferUsed st; as_adjustedCount := as_adjustedCount st + 1 |}.
Proof.
  intros (Hm & Hc & _) Hr. unfold remove_privilege. rewrite Hm, Hc, !priv_count_app, priv_count_cons. pose proof (priv_count_pos _ Hr) as Hk. pose proof (priv_count_nonneg l) as Hi.
  destruct (Z.ltb_spec (priv_count l + 1) (priv_count l + (1 + priv_count r))); [|lia]. unfold sizeof_LUID_AND_ATTRIBUTES, RtlMoveMemory, RtlZeroMemory.
  rewrite !privs_bytes_app, privs_bytes_cons, <- !app_assoc. pose proof (zlen_privs_bytes host l) as Zl. pose proof (zlen_privs_bytes host r) as Zr. pose proof (zlen_priv_bytes host p) as Zp.
  set (A := privs_bytes host l) in *. set (P := priv_bytes host p) in *. set (R := privs_bytes host r) in *.
  destruct (Z.ltb_spec (zlen tail) (11 * (priv_count l + 1))) as [Hs|Hs].
  { unfold rd. replace (_ && _ && _) with false; [done|]. symmetry. apply andb_false_iff. right. apply Z.leb_gt. rewrite !zlen_app. lia. }
  assert (Hn : (11 * (length l + 1) <= length tail)%nat) by (unfold zlen, priv_count in Hs; lia). set (t1 := take (11 * (length l + 1)) tail).
  assert (Zt : zlen t1 = 11 * (priv_count l + 1)) by (unfold zlen, t1, priv_count; rewrite length_take; lia).
  assert (Et : tail = t1 ++ drop (11 * (length l + 1)) tail) by (by unfold t1; rewrite take_drop).
  assert (Hrd : rd (A ++ P ++ R ++ tail) (12 * (priv_count l + 1)) (12 * (priv_count l + (1 + priv_count r)) - priv_count l - 1) = Some (R ++ t1)).
  { rewrite Et, (app_assoc A), (app_assoc R). apply rd_at; rewrite zlen_app; lia. }
  rewrite Hrd. bsimpl. rewrite wr_over by (rewrite ?zlen_app; lia). bsimpl. rewrite (app_assoc P), <- (app_assoc R t1), app_assoc.
  assert (Hz : zlen (zeros 12) <= zlen (t1 ++ drop (length (R ++ t1)) ((P ++ R) ++ tail))).
  { change (zlen (zeros 12)) with 12. unfold zlen in *. rewrite !length_app, length_drop, !length_app in *. lia. }
  rewrite wr_over by (done || (rewrite ?zlen_app; lia)).
  bsimpl. rewrite <- app_assoc. do 4 f_equal; [|lia]. do 2 f_equal. change (length (zeros 12)) with 12%nat.
  rewrite <- (shifted_tail (length l) (P ++ R) tail t1 (priv_count r)); [|rewrite zlen_app; lia|lia|done|done]. do 2 f_equal. f_equal.
  rewrite length_app. unfold zlen in Zr, Zt. unfold priv_count in *. lia.
Qed.

(** C38: removing a privilege that is not the last one of the token moves
    [sizeof(pPrivileges[0]) * PrivilegeCount - assignedIndex - 1] bytes, where only the
    privileges that follow were meant. For every token, with [i] privileges before the
    one that is removed: the call faults when fewer than [11 * (i + 1)] bytes follow the
    privileges in the token's memory (the owner, the primary group and the default
    DACL). Otherwise it succeeds, the privilege is gone and the others are kept, but
    the first [11 * i - 1] of the bytes that follow are overwritten by those that are
    twelve bytes further: only the first privilege can be removed without harm. *)
Theorem remove_privilege_overruns `{Layout} b ts l p r new L prev :
  live_token b ts -> ts_privs ts = l ++ p :: r -> r <> [] -> Forall priv_wf (ts_privs ts) -> 0 <= L ->
  la_Luid new = la_Luid p -> la_Luid new ∉ map la_Luid l -> la_Attributes new = SE_PRIVILEGE_REMOVED ->
  exists pre dacl, let tail := opt_bytes (sid_bytes host) (ts_owner ts) ++ opt_bytes (sid_bytes host) (ts_group ts) ++ dacl in
    tb_data b = pre ++ privs_bytes host (l ++ p :: r) ++ tail /\ zlen pre = tb_Privileges b /\
    RtlAdjustTokenPrivileges b false (Some [new]) L prev true =
      if zlen tail <? 11 * (priv_count l + 1) then None
      else Some (STATUS_SUCCESS, set_privileges b (priv_count (l ++ r)) (pre ++ privs_bytes host (l ++ r) ++ zeros 12 ++ after_removal (length l) tail), prev, 0).
Proof.
  intros Hb Hps Hr Hwf HL Hl Hn Ha. destruct (live_token_tail b ts Hb) as (pre & dacl & E & Hpre & Hc & _). exists pre, dacl. intros tail. fold tail in E. rewrite Hps in E, Hc, Hwf. split; [done|]. split; [done|].
  unfold RtlAdjustTokenPrivileges. rewrite E, (padd_app pre) by done. unfold adjust_body. cbn [as_PrivilegeCount]. rewrite bool_decide_eq_false_2 by done. cbn [andb].
  rewrite Hc. destruct (Z.eqb_spec (priv_count (l ++ p :: r)) 0) as [Ez|_]; [rewrite priv_count_app, priv_count_cons in Ez; pose proof (priv_count_nonneg l); pose proof (priv_count_nonneg r); lia|].
  bsimpl. cbn [adjust_each as_PrivilegeCount]. match goal with |- context [adjust_one _ _ _ _ ?s] => set (st := s) end.
  assert (Hst : state_at st (l ++ p :: r) tail) by (by repeat split).
  pose proof (adjust_one_find L new (l ++ p :: r) [] st tail Hst) as Ho. change (priv_count []) with 0 in Ho. assert (Ec : Z.to_nat (priv_count (l ++ p :: r)) = length (l ++ p :: r)) by (unfold priv_count; lia). rewrite Ec. cbn [app] in Ho.
  rewrite Ho, map_app. cbn [map]. rewrite Hl, first_index_middle, length_map by (by rewrite <- Hl). clear Ho. rewrite Z.add_0_l. change (Z.of_nat (length l)) with (priv_count l).
  unfold adjust_found. rewrite Ha. change (SE_PRIVILEGE_REMOVED =? 0) with false. change (IsSetFlag SE_PRIVILEGE_REMOVED SE_PRIVILEGE_ENABLED) with false.
  change (IsSetFlag SE_PRIVILEGE_REMOVED SE_PRIVILEGE_REMOVED) with true. bsimpl. rewrite (remove_privilege_at l p r tail st Hst Hr).
  destruct (zlen tail <? 11 * (priv_count l + 1)); [done|]. bsimpl. unfold adjust_cleanup, st. cbn [as_PreviousState as_BufferUsed as_status as_adjustedCount as_Privileges as_PrivilegeCount].
  destruct (Z.ltb_spec L 0); [lia|]. rewrite <- Hpre. unfold zlen at 1. rewrite Nat2Z.id, take_app_length. by destruct prev.
Qed.
End Removal.
(** * Concrete inputs *)

#[local] Existing Instance demo_host.
#[local] Existing Instance demo_layout.

Lemma demo_privs_wf : Forall priv_wf (ts_privs demo_ts).
Proof. repeat constructor; vm_compute; congruence. Qed.
Lemma demo_privs_nodup : NoDup (map la_Luid (ts_privs demo_ts)).
Proof. cbn. rewrite !NoDup_cons, not_elem_of_cons. repeat split; [congruence|by apply not_elem_of_nil..|constructor]. Qed.

Lemma RtlPrivilegeCheck_correct_witness :
  exists ok set', RtlPrivilegeCheck {| ps_Control := 1; ps_Privilege := [shutdown_privilege] |} (token_of demo_block)
    = Some (ok, set') /\ (ok = true -> ps_Privilege set' = map (mark_used (ts_privs demo_ts)) [shutdown_privilege]).
Proof.
  destruct (RtlPrivilegeCheck_correct (token_of demo_block) (ts_privs demo_ts) {| ps_Control := 1; ps_Privilege := [shutdown_privilege] |})
    as (ok & set' & E & _ & _ & Hm).
  - apply demo_block_repr.
  - apply demo_privs_wf.
  - apply demo_privs_nodup.
  - exists ok, set'. split; [exact E|exact Hm].
Defined.

Definition enable_backup : LUID_AND_ATTRIBUTES := {| la_Luid := {| LowPart := 17; HighPart := 0 |}; la_Attributes := 2 |}.

Lemma enable_keeps : Forall (fun new => IsSetFlag (la_Attributes new) SE_PRIVILEGE_REMOVED = false) [enable_backup].
Proof. by repeat constructor. Qed.


Lemma RtlAdjustTokenPrivileges_rollback_witness :
  exists buf', RtlAdjustTokenPrivileges demo_block true (Some []) 16 (Some (zeros 16)) true
    = Some (STATUS_BUFFER_TOO_SMALL, demo_block, Some buf', 28).
Proof.
  apply (RtlAdjustTokenPrivileges_rollback demo_block demo_ts demo_block_live true [] 16 (zeros 16)
    demo_privs_wf ltac:(discriminate) demo_privs_nodup NoDup_nil_2 (Forall_nil_2 _) ltac:(lia) eq_refl);
    vm_compute; congruence.
Defined.

Lemma RtlAdjustTokenPrivileges_needs_buffer_witness :
  RtlAdjustTokenPrivileges demo_block false (Some [enable_backup]) 0 None true
    = Some (STATUS_BUFFER_TOO_SMALL, demo_block, None, 16).
Proof.
  apply (RtlAdjustTokenPrivileges_needs_buffer demo_block demo_ts demo_block_live false [enable_backup] 0
    demo_privs_wf ltac:(discriminate) (NoDup_singleton _) enable_keeps ltac:(lia));
    vm_compute; congruence.
Defined.

(** A token with three privileges, and the request to remove the second. *)
Definition restore_privilege : LUID_AND_ATTRIBUTES := {| la_Luid := {| LowPart := 18; HighPart := 0 |}; la_Attributes := 2 |}.
Definition three_ts : token_spec := with_privs demo_ts [shutdown_privilege; backup_privilege; restore_privilege].
Definition three_block : TOKEN_BLOCK := token_block three_ts (zeros 32) [].
Definition remove_backup : LUID_AND_ATTRIBUTES := {| la_Luid := {| LowPart := 17; HighPart := 0 |}; la_Attributes := 4 |}.

Lemma three_block_live : live_token three_block three_ts.
Proof. do 2 eexists. exists 1. do 5 eexists. split; [done|]. split; [apply demo_contents|]. done. Qed.

(** Ten bytes after the privileges are overwritten. *)
Lemma remove_privilege_overruns_witness :
  exists pre dacl, let tail := opt_bytes (sid_bytes host) (ts_owner three_ts) ++ opt_bytes (sid_bytes host) (ts_group three_ts) ++ dacl in
    tb_data three_block = pre ++ privs_bytes host [shutdown_privilege; backup_privilege; restore_privilege] ++ tail /\ zlen pre = tb_Privileges three_block /\
    RtlAdjustTokenPrivileges three_block false (Some [remove_backup]) 0 None true =
      if zlen tail <? 22 then None
      else Some (STATUS_SUCCESS, set_privileges three_block 2
                   (pre ++ privs_bytes host [shutdown_privilege; restore_privilege] ++ zeros 12 ++ take 10 (drop 12 tail) ++ drop 10 tail), None, 0).
Proof.
  apply (remove_privilege_overruns three_block three_ts [shutdown_privilege] backup_privilege [restore_privilege] remove_backup 0 None three_block_live eq_refl);
    [discriminate|repeat constructor; vm_compute; congruence|lia|reflexivity| |reflexivity].
  cbn. rewrite not_elem_of_cons. split; [congruence|apply not_elem_of_nil].
Defined.

(** The owner of that token, which follows the privileges, is not a valid SID any more. *)
Lemma remove_privilege_corrupts_owner :
  RtlValidSid (Owner (token_of three_block)) = Some true /\
  exists b', RtlAdjustTokenPrivileges three_block false (Some [remove_backup]) 0 None true = Some (STATUS_SUCCESS, b', None, 0) /\
    RtlValidSid (Owner (token_of b')) = Some false.
Proof. split; [vm_compute; reflexivity|eexists; split; vm_compute; reflexivity]. Qed.

(** Where the changes are not taken back. A privilege that the request removes stays
    removed. Of a privilege that the request names twice, the state before the second
    change is put back last: here a privilege that was disabled is left enabled. *)
Lemma rollback_misses :
  let remove_first := {| la_Luid := la_Luid shutdown_privilege; la_Attributes := SE_PRIVILEGE_REMOVED |} in
  let disable_backup := {| la_Luid := la_Luid backup_privilege; la_Attributes := 0 |} in
  (exists b' buf', RtlAdjustTokenPrivileges three_block false (Some [remove_first; enable_backup; restore_privilege]) 16 (Some (zeros 16)) true
     = Some (STATUS_BUFFER_TOO_SMALL, b', Some buf', 28) /\ tb_PrivilegeCount three_block = 3 /\ tb_PrivilegeCount b' = 2) /\
  (exists b' buf', RtlAdjustTokenPrivileges three_block false (Some [enable_backup; disable_backup; restore_privilege]) 28 (Some (zeros 28)) true
     = Some (STATUS_BUFFER_TOO_SMALL, b', Some buf', 40) /\
     (la_Attributes <$> ld_privilege (padd (tb_data three_block) (tb_Privileges three_block)) 12) = Some 0 /\
     (la_Attributes <$> ld_privilege (padd (tb_data b') (tb_Privileges b')) 12) = Some SE_PRIVILEGE_ENABLED).
Proof. split; do 2 eexists; split_and!; vm_compute; reflexivity. Qed.
