(* ===== verification/TokenRelative.v ===== *)
(** The self-relative form of an access token, one buffer in which every pointer
    is an offset: [RtlAccessTokenToSelfRelativeAccessToken] and
    [RtlSelfRelativeAccessTokenToAccessToken] of [lwbase/src/security-token.c].

    The pointers [Groups] and [Privileges] of a token are never null:
    [RtlCreateAccessToken], the only function that makes tokens, sets both. *)

From S2P Require Import Prelude SecurityTypes Sid Acl Token TokenState.

(** * Data: the offsets of the fields of [ACCESS_TOKEN_SELF_RELATIVE] *)

Definition Relative_Flags : Z := 0.
Definition Relative_UserSidOffset : Z := 4.
Definition Relative_UserAttributes : Z := 8.
Definition Relative_GroupCount : Z := 12.
Definition Relative_GroupsOffset : Z := 16.
Definition Relative_PrivilegeCount : Z := 20.
Definition Relative_PrivilegesOffset : Z := 24.
Definition Relative_OwnerOffset : Z := 28.
Definition Relative_PrimaryGroupOffset : Z := 32.
Definition Relative_DefaultDaclOffset : Z := 36.
Definition Relative_Uid : Z := 40.
Definition Relative_Gid : Z := 44.
Definition Relative_Umask : Z := 48.
Definition sizeof_ACCESS_TOKEN_SELF_RELATIVE : Z := 52.
Definition sizeof_SID_AND_ATTRIBUTES_SELF_RELATIVE : Z := 8.

Definition Align32 (ulValue : Z) : Z :=
  let ulRem := ulValue mod 32 in
  if negb (ulRem =? 0) then u32 (ulValue + (32 - ulRem)) else ulValue.

Definition CheckOffset (ulOffset ulSize ulMaxSize : Z) : NTSTATUS :=
  if u32 (ulMaxSize - ulOffset) <? ulSize then STATUS_BUFFER_TOO_SMALL else STATUS_SUCCESS.

(** [ulOffset += n; Align32(&ulOffset)]. *)
Definition advance (ulOffset n : Z) : Z := Align32 (u32 (ulOffset + n)).

Section Operations.
Context `{Host} `{Layout}.

(** * Size *)

Definition advance_sid (ulOffset : Z) (p : ptr) : option Z :=
  match p with
  | None => Some ulOffset
  | Some s => n ← RtlLengthSid s; Some (advance ulOffset n)
  end.

Fixpoint advance_groups (ulOffset : Z) (groups : list SID_AND_ATTRIBUTES) : option Z :=
  match groups with
  | [] => Some ulOffset
  | g :: groups' => s ← sa_Sid g; off ← advance_sid ulOffset (Some s); advance_groups off groups'
  end.

Definition RtlAccessTokenRelativeSize (pToken : ACCESS_TOKEN) : option Z :=
  let size := advance 0 sizeof_ACCESS_TOKEN_SELF_RELATIVE in
  s ← sa_Sid (User pToken);
  size ← advance_sid size (Some s);
  let size := advance size (sizeof_SID_AND_ATTRIBUTES_SELF_RELATIVE * Z.of_nat (length (Groups pToken))) in
  size ← advance_groups size (Groups pToken);
  let size := advance size (sizeof_LUID_AND_ATTRIBUTES * PrivilegeCount pToken) in
  size ← advance_sid size (Owner pToken);
  size ← advance_sid size (PrimaryGroup pToken);
  match DefaultDacl pToken with
  | None => Some size
  | Some a => n ← RtlGetAclSize a; Some (advance size n)
  end.

(** * Writing *)

(** [memcpy(pBuffer + ulOffset, src, n)] and the offset after it. *)
Definition put (pBuffer : mem) (ulOffset : Z) (src : mem) (n : Z) : option (mem * Z) :=
  bs ← rd src 0 n;
  pBuffer ← wr pBuffer ulOffset bs;
  Some (pBuffer, advance ulOffset n).

(** A SID whose offset goes into the field [field]. *)
Definition put_sid (pBuffer : mem) (ulOffset field : Z) (p : ptr) : option (mem * Z) :=
  match p with
  | None => b ← st32 pBuffer field 0; Some (b, ulOffset)
  | Some s => b ← st32 pBuffer field ulOffset; n ← RtlLengthSid s; put b ulOffset s n
  end.

(** The loop over the groups; [pGroups] is the offset of the next element of the
    array. *)
Fixpoint put_groups (pBuffer : mem) (pGroups ulOffset : Z) (groups : list SID_AND_ATTRIBUTES) : option (mem * Z) :=
  match groups with
  | [] => Some (pBuffer, ulOffset)
  | g :: groups' =>
      b ← st32 pBuffer (pGroups + 4) (sa_Attributes g);
      s ← sa_Sid g;
      b ← st32 b pGroups ulOffset;
      n ← RtlLengthSid s;
      '(b, ulOffset) ← put b ulOffset s n;
      put_groups b (pGroups + sizeof_SID_AND_ATTRIBUTES_SELF_RELATIVE) ulOffset groups'
  end.

(** The fields that are copied. *)
Definition put_header (pToken : ACCESS_TOKEN) (pBuffer : mem) : option mem :=
  b ← st32 pBuffer Relative_Flags (Flags pToken);
  b ← st32 b Relative_UserAttributes (sa_Attributes (User pToken));
  b ← st32 b Relative_GroupCount (Z.of_nat (length (Groups pToken)));
  b ← st32 b Relative_PrivilegeCount (PrivilegeCount pToken);
  b ← st32 b Relative_Uid (Uid pToken);
  b ← st32 b Relative_Gid (Gid pToken);
  st32 b Relative_Umask (Umask pToken).

(** The copy into the buffer, and the offset it ends at. *)
Definition put_token (pToken : ACCESS_TOKEN) (pBuffer : mem) : option (mem * Z) :=
  b ← put_header pToken pBuffer;
  s ← sa_Sid (User pToken);
  '(b, ulOffset) ← put_sid b (advance 0 sizeof_ACCESS_TOKEN_SELF_RELATIVE) Relative_UserSidOffset (Some s);
  b ← st32 b Relative_GroupsOffset ulOffset;
  '(b, ulOffset) ← put_groups b ulOffset
                     (advance ulOffset (sizeof_SID_AND_ATTRIBUTES_SELF_RELATIVE * Z.of_nat (length (Groups pToken))))
                     (Groups pToken);
  b ← st32 b Relative_PrivilegesOffset ulOffset;
  '(b, ulOffset) ← put b ulOffset (Privileges pToken) (sizeof_LUID_AND_ATTRIBUTES * PrivilegeCount pToken);
  '(b, ulOffset) ← put_sid b ulOffset Relative_OwnerOffset (Owner pToken);
  '(b, ulOffset) ← put_sid b ulOffset Relative_PrimaryGroupOffset (PrimaryGroup pToken);
  match DefaultDacl pToken with
  | None => b ← st32 b Relative_DefaultDaclOffset 0; Some (b, ulOffset)
  | Some a => b ← st32 b Relative_DefaultDaclOffset ulOffset; n ← RtlGetAclSize a; put b ulOffset a n
  end.

(** The status, the caller's buffer and the size stored through [pulSize]. *)
Definition RtlAccessTokenToSelfRelativeAccessToken (pToken : ACCESS_TOKEN) (pRelative : ptr) (ulSize : Z)
    : option (NTSTATUS * ptr * Z) :=
  ulRelativeSize ← RtlAccessTokenRelativeSize pToken;
  match pRelative with
  | None => Some (STATUS_SUCCESS, None, ulRelativeSize)
  | Some pBuffer =>
      if ulSize <? ulRelativeSize then Some (STATUS_BUFFER_TOO_SMALL, pRelative, ulRelativeSize)
      else
        '(b, ulOffset) ← put_token pToken pBuffer;
        if negb (ulOffset =? ulRelativeSize) then None
        else Some (STATUS_SUCCESS, Some b, ulRelativeSize)
  end.

(** * Reading *)

Definition RtlValidateSelfRelativeSid (pSid : mem) (ulOffset ulRelativeSize : Z) : option NTSTATUS :=
  let status := CheckOffset ulOffset SID_MIN_SIZE ulRelativeSize in
  if negb (is_ok status) then Some status
  else n ← RtlLengthSid pSid; Some (CheckOffset ulOffset n ulRelativeSize).

(** The loop over [n] more groups of the array at [pGroups]: the status and the
    elements made. *)
Fixpoint get_groups (n : nat) (pBuffer : mem) (pGroups ulRelativeSize : Z)
    : option (NTSTATUS * list SID_AND_ATTRIBUTES) :=
  match n with
  | O => Some (STATUS_SUCCESS, [])
  | S n' =>
      attr ← ld32 pBuffer (pGroups + 4);
      ulOffset ← ld32 pBuffer pGroups;
      let pSid := padd pBuffer ulOffset in
      status ← RtlValidateSelfRelativeSid pSid ulOffset ulRelativeSize;
      if negb (is_ok status) then Some (status, [])
      else
        '(status, l) ← get_groups n' pBuffer (pGroups + sizeof_SID_AND_ATTRIBUTES_SELF_RELATIVE) ulRelativeSize;
        Some (status, {| sa_Sid := Some pSid; sa_Attributes := attr |} :: l)
  end.

(** The two products and the sum with the size of the header: the size of the
    array in the buffer and of the array to allocate. *)
Definition array_sizes (elem real_elem header count : Z) : NTSTATUS * Z * Z :=
  let '(status, size) := RtlSafeMultiplyULONG elem count in
  if negb (is_ok status) then (status, size, 0)
  else
    let '(status, real) := RtlSafeMultiplyULONG real_elem count in
    if negb (is_ok status) then (status, size, real)
    else let '(status, real) := RtlSafeAddULONG real header in (status, size, real).

(** The array of groups; [None] inside is the null pointer. *)
Definition get_group_array (malloc : Z -> bool) (pBuffer : mem) (ulRelativeSize : Z)
    : option (NTSTATUS * option (list SID_AND_ATTRIBUTES)) :=
  ulOffset ← ld32 pBuffer Relative_GroupsOffset;
  if ulOffset =? 0 then Some (STATUS_SUCCESS, None)
  else
    count ← ld32 pBuffer Relative_GroupCount;
    let '(status, size, real) :=
      array_sizes sizeof_SID_AND_ATTRIBUTES_SELF_RELATIVE sizeof_SID_AND_ATTRIBUTES sizeof_TOKEN_GROUPS count in
    if negb (is_ok status) then Some (status, None)
    else
      let status := CheckOffset ulOffset size ulRelativeSize in
      if negb (is_ok status) then Some (status, None)
      else if negb (malloc real) then Some (STATUS_INSUFFICIENT_RESOURCES, None)
      else
        '(status, l) ← get_groups (Z.to_nat count) pBuffer ulOffset ulRelativeSize;
        Some (status, Some l).

(** The [TOKEN_PRIVILEGES]. *)
Definition get_privileges (malloc : Z -> bool) (pBuffer : mem) (ulRelativeSize : Z) : option (NTSTATUS * ptr) :=
  ulOffset ← ld32 pBuffer Relative_PrivilegesOffset;
  if ulOffset =? 0 then Some (STATUS_SUCCESS, None)
  else
    count ← ld32 pBuffer Relative_PrivilegeCount;
    let '(status, size, real) :=
      array_sizes sizeof_LUID_AND_ATTRIBUTES sizeof_LUID_AND_ATTRIBUTES sizeof_TOKEN_PRIVILEGES count in
    if negb (is_ok status) then Some (status, None)
    else
      let status := CheckOffset ulOffset size ulRelativeSize in
      if negb (is_ok status) then Some (status, None)
      else
        match RTL_ALLOCATE malloc real with
        | (STATUS_SUCCESS, Some p) =>
            p ← st32 p 0 count;
            bs ← rd (padd pBuffer ulOffset) 0 (sizeof_LUID_AND_ATTRIBUTES * count);
            p ← wr p sizeof_TOKEN_PRIVILEGES bs;
            Some (STATUS_SUCCESS, Some p)
        | (status, _) => Some (status, None)
        end.

(** A SID whose offset is in the field [field]; an offset of zero is no SID. *)
Definition get_sid (pBuffer : mem) (field ulRelativeSize : Z) : option (NTSTATUS * ptr) :=
  ulOffset ← ld32 pBuffer field;
  if ulOffset =? 0 then Some (STATUS_SUCCESS, None)
  else
    let pSid := padd pBuffer ulOffset in
    status ← RtlValidateSelfRelativeSid pSid ulOffset ulRelativeSize;
    Some (status, if is_ok status then Some pSid else None).

(** The default DACL of the new token is none. *)
Definition RtlSelfRelativeAccessTokenToAccessToken (malloc : Z -> bool) (rwlock_init : option NTSTATUS)
    (pRelative : mem) (ulRelativeSize : Z) : option (NTSTATUS * option TOKEN_BLOCK) :=
  let status := CheckOffset 0 sizeof_ACCESS_TOKEN_SELF_RELATIVE ulRelativeSize in
  if negb (is_ok status) then Some (status, None)
  else
    flags ← ld32 pRelative Relative_Flags;
    unix ← (if IsSetFlag flags ACCESS_TOKEN_FLAG_UNIX_PRESENT then
              uid ← ld32 pRelative Relative_Uid;
              gid ← ld32 pRelative Relative_Gid;
              umask ← ld32 pRelative Relative_Umask;
              Some (Some {| tu_Uid := uid; tu_Gid := gid; tu_Umask := umask |})
            else Some None);
    attr ← ld32 pRelative Relative_UserAttributes;
    ulOffset ← ld32 pRelative Relative_UserSidOffset;
    let pSid := padd pRelative ulOffset in
    status ← RtlValidateSelfRelativeSid pSid ulOffset ulRelativeSize;
    if negb (is_ok status) then Some (status, None)
    else
      '(status, groups) ← get_group_array malloc pRelative ulRelativeSize;
      if negb (is_ok status) then Some (status, None)
      else
        '(status, privileges) ← get_privileges malloc pRelative ulRelativeSize;
        if negb (is_ok status) then Some (status, None)
        else
          '(status, owner) ← get_sid pRelative Relative_OwnerOffset ulRelativeSize;
          if negb (is_ok status) then Some (status, None)
          else
            '(status, group) ← get_sid pRelative Relative_PrimaryGroupOffset ulRelativeSize;
            if negb (is_ok status) then Some (status, None)
            else
              RtlCreateAccessToken malloc rwlock_init (Some {| sa_Sid := Some pSid; sa_Attributes := attr |})
                groups privileges (Some owner) (Some group) (Some None) unix.
End Operations.
