(* ===== verification/TokenRelativeOps.v ===== *)
(** The self-relative form of a token holds its contents, and a token read from
    it holds them again. *)

From S2P Require Import Prelude SecurityTypes Sid Acl AclRepr AclOps AclEdit AclCodec AclCodecOps Token AccessCheck TokenState TokenOps TokenRelative.

(** * Specification *)

(** The next multiple of 32. *)
Definition up32 (n : Z) : Z := 32 * ((n + 31) / 32).

Definition opt_up {A} (f : A -> Z) (o : option A) : Z := match o with Some x => up32 (f x) | None => 0 end.
Definition groups_up (l : list (sid * Z)) : Z := foldr (fun g n => up32 (sid_size (fst g)) + n) 0 l.

(** The size of the self-relative form. *)
Definition relative_size (ts : token_spec) : Z :=
  64 + up32 (sid_size (ts_user ts)) + up32 (8 * Z.of_nat (length (ts_groups ts))) + groups_up (ts_groups ts) +
  up32 (12 * priv_count (ts_privs ts)) + opt_up sid_size (ts_owner ts) + opt_up sid_size (ts_group ts) +
  opt_up acl_size (ts_dacl ts).

(** A token without a default DACL. *)
Definition without_dacl (ts : token_spec) : token_spec :=
  mk_ts (ts_user ts) (ts_groups ts) (ts_privs ts) (ts_owner ts) (ts_group ts) None (ts_unix ts).

Section Relative.
Context `{Host} `{Layout}.

(** The buffer [m] of [size] bytes holds the SID at an offset. *)
Definition sid_in (m : mem) (size off : Z) (s : sid) : Prop :=
  sid_wf s /\ 0 < off < 2 ^ 32 /\ off + sid_size s <= size /\ rd m off (sid_size s) = Some (sid_bytes host s).

Definition opt_sid_in (m : mem) (size field : Z) (o : option sid) : Prop :=
  match o with
  | None => ld32 m field = Some 0
  | Some s => exists off, ld32 m field = Some off /\ sid_in m size off s
  end.

Fixpoint groups_in (m : mem) (size pGroups : Z) (gs : list (sid * Z)) : Prop :=
  match gs with
  | [] => True
  | (g, attr) :: gs' =>
      (exists off, ld32 m (pGroups + 4) = Some attr /\ ld32 m pGroups = Some off /\ sid_in m size off g) /\
      groups_in m size (pGroups + 8) gs'
  end.

Definition unix_in (m : mem) (u : option TOKEN_UNIX) : Prop :=
  exists flags, ld32 m Relative_Flags = Some flags /\
    match u with
    | Some u => IsSetFlag flags ACCESS_TOKEN_FLAG_UNIX_PRESENT = true /\ ld32 m Relative_Uid = Some (tu_Uid u) /\
                ld32 m Relative_Gid = Some (tu_Gid u) /\ ld32 m Relative_Umask = Some (tu_Umask u)
    | None => IsSetFlag flags ACCESS_TOKEN_FLAG_UNIX_PRESENT = false
    end.

(** The self-relative form of the contents [ts] (but for the default DACL). *)
Definition relative_at (m : mem) (size : Z) (ts : token_spec) : Prop :=
  52 <= size /\ unix_in m (ts_unix ts) /\
  (ld32 m Relative_UserAttributes = Some 0 /\
   exists off, ld32 m Relative_UserSidOffset = Some off /\ sid_in m size off (ts_user ts)) /\
  (ld32 m Relative_GroupCount = Some (Z.of_nat (length (ts_groups ts))) /\
   exists off, ld32 m Relative_GroupsOffset = Some off /\ 0 < off < 2 ^ 32 /\
     off + 8 * Z.of_nat (length (ts_groups ts)) <= size /\ groups_in m size off (ts_groups ts)) /\
  (ld32 m Relative_PrivilegeCount = Some (priv_count (ts_privs ts)) /\
   exists off, ld32 m Relative_PrivilegesOffset = Some off /\ 0 < off < 2 ^ 32 /\
     off + 12 * priv_count (ts_privs ts) <= size /\
     rd m off (12 * priv_count (ts_privs ts)) = Some (privs_bytes host (ts_privs ts))) /\
  opt_sid_in m size Relative_OwnerOffset (ts_owner ts) /\
  opt_sid_in m size Relative_PrimaryGroupOffset (ts_group ts).

(** * Reading *)

Lemma CheckOffset_ok off n max : 0 <= off -> 0 <= n -> off + n <= max -> max < 2 ^ 32 -> CheckOffset off n max = STATUS_SUCCESS.
Proof.
  intros. unfold CheckOffset, u32. rewrite Z.mod_small by lia. by destruct (Z.ltb_spec (max - off) n); [lia|].
Qed.

Lemma sid_in_at m size off s : sid_in m size off s -> sid_at host (padd m off) s.
Proof.
  intros (Hw & Ho & _ & Hr). split; [done|]. apply rd_Some in Hr as (p & q & -> & <- & _). exists q. by rewrite padd_app.
Qed.

Lemma validate_sid_in m size off s : sid_in m size off s -> size < 2 ^ 32 ->
  RtlValidateSelfRelativeSid (padd m off) off size = Some STATUS_SUCCESS.
Proof.
  intros Hs Hm. pose proof (sid_in_at _ _ _ _ Hs) as Hat. destruct Hs as (Hw & Ho & Hsz & _). pose proof (sid_size_range s Hw).
  unfold RtlValidateSelfRelativeSid. rewrite CheckOffset_ok by (unfold SID_MIN_SIZE; lia). okstep.
  rewrite (sid_at_length host _ s Hat). bsimpl. change (8 + 4 * sid_count s) with (sid_size s).
  by rewrite CheckOffset_ok by lia.
Qed.

Lemma get_sid_in m size field o : opt_sid_in m size field o -> size < 2 ^ 32 ->
  exists p, get_sid m field size = Some (STATUS_SUCCESS, p) /\ option_Forall2 (sid_at host) p o.
Proof.
  intros Ho Hm. unfold get_sid, opt_sid_in in *. destruct o as [s|].
  - destruct Ho as (off & -> & Hs). bsimpl. destruct (Z.eqb_spec off 0); [destruct Hs; lia|].
    rewrite (validate_sid_in _ _ _ _ Hs Hm). bsimpl. rewrite is_ok_success. eexists. split; [done|]. constructor.
    by eapply sid_in_at.
  - rewrite Ho. bsimpl. eexists. split; [done|]. constructor.
Qed.

Lemma get_groups_in m size : size < 2 ^ 32 -> forall gs pGroups, groups_in m size pGroups gs ->
  exists Gs, get_groups (length gs) m pGroups size = Some (STATUS_SUCCESS, Gs) /\ Forall2 group_at Gs gs.
Proof.
  intros Hm. induction gs as [|[g attr] gs IH]; intros pGroups Hg; [by exists []|].
  destruct Hg as ((off & Ha & Ho & Hs) & Hg). cbn [get_groups length]. rewrite Ha. bsimpl. rewrite Ho. bsimpl.
  rewrite (validate_sid_in _ _ _ _ Hs Hm). okstep. destruct (IH _ Hg) as (Gs & E & HF).
  unfold sizeof_SID_AND_ATTRIBUTES_SELF_RELATIVE. rewrite E. bsimpl. eexists. split; [done|]. constructor; [|done].
  split; [done|]. eexists. split; [done|]. by eapply sid_in_at.
Qed.

Lemma array_sizes_ok elem real header count :
  0 < elem < 2 ^ 16 -> 0 < real < 2 ^ 16 -> 0 <= header < 2 ^ 16 -> 0 <= count -> real * count + header < 2 ^ 32 -> elem * count < 2 ^ 32 ->
  array_sizes elem real header count = (STATUS_SUCCESS, elem * count, real * count + header).
Proof.
  intros He Hr Hh Hc Hs Hs'. unfold array_sizes, RtlSafeMultiplyULONG, RtlSafeAddULONG, u32.
  destruct (Z.ltb_spec 0xFFFFFFFF (elem * count)); [lia|]. okstep.
  destruct (Z.ltb_spec 0xFFFFFFFF (real * count)); [nia|]. okstep.
  rewrite !(Z.mod_small (real * count)) by nia. rewrite !Z.mod_small by nia.
  by destruct (Z.ltb_spec (real * count + header) (real * count)); [lia|].
Qed.

Lemma get_privileges_in malloc m size ts : relative_at m size ts -> size < 2 ^ 32 ->
  12 * priv_count (ts_privs ts) + 4 < 2 ^ 32 -> malloc (12 * priv_count (ts_privs ts) + 4) = true ->
  get_privileges malloc m size =
    Some (STATUS_SUCCESS, Some (encode host 4 (priv_count (ts_privs ts)) ++ privs_bytes host (ts_privs ts) ++ [])).
Proof.
  intros (_ & _ & _ & _ & (Ec & off & Eo & Ho & Hs & Hr) & _) Hm Hlen Hmal. unfold get_privileges. rewrite Eo. bsimpl.
  destruct (Z.eqb_spec off 0); [lia|]. rewrite Ec. bsimpl. assert (0 <= priv_count (ts_privs ts)) by (unfold priv_count; lia).
  rewrite array_sizes_ok by (unfold sizeof_LUID_AND_ATTRIBUTES, sizeof_TOKEN_PRIVILEGES; lia).
  rewrite is_ok_success. cbn [negb]. unfold sizeof_LUID_AND_ATTRIBUTES, sizeof_TOKEN_PRIVILEGES.
  rewrite CheckOffset_ok by lia. rewrite is_ok_success. cbn [negb]. unfold RTL_ALLOCATE. rewrite Hmal.
  assert (Hz : zlen (zeros (12 * priv_count (ts_privs ts) + 4)) = 12 * priv_count (ts_privs ts) + 4) by (apply zlen_zeros; lia).
  destruct (room (zeros (12 * priv_count (ts_privs ts) + 4)) 4) as (h & r & Ez & Hh & Hrl); [lia|].
  rewrite Hz in Hrl. rewrite Ez. clear Hz Ez. unfold st32. rewrite wr_at_0 by zl. bsimpl.
  apply rd_Some in Hr as (pre & q & -> & <- & Hzp). rewrite padd_app, rd_at_0 by done. bsimpl.
  rewrite <- (app_nil_r r), wr_at by zl. done.
Qed.

Lemma get_group_array_in malloc m size ts : relative_at m size ts -> size < 2 ^ 32 ->
  sizeof_SID_AND_ATTRIBUTES * Z.of_nat (length (ts_groups ts)) + sizeof_TOKEN_GROUPS < 2 ^ 32 ->
  malloc (sizeof_SID_AND_ATTRIBUTES * Z.of_nat (length (ts_groups ts)) + sizeof_TOKEN_GROUPS) = true ->
  exists Gs, get_group_array malloc m size = Some (STATUS_SUCCESS, Some Gs) /\ Forall2 group_at Gs (ts_groups ts).
Proof.
  intros (_ & _ & _ & (Ec & off & Eo & Ho & Hs & Hg) & _) Hm Hlen Hmal. unfold get_group_array. rewrite Eo. bsimpl.
  destruct (Z.eqb_spec off 0); [lia|]. rewrite Ec. bsimpl. pose proof sizeof_pointer_range.
  rewrite array_sizes_ok; unfold sizeof_SID_AND_ATTRIBUTES_SELF_RELATIVE, sizeof_SID_AND_ATTRIBUTES, sizeof_TOKEN_GROUPS in *; [|lia..].
  rewrite is_ok_success. cbn [negb]. rewrite CheckOffset_ok by lia. rewrite is_ok_success, Hmal. cbn [negb]. rewrite Nat2Z.id.
  destruct (get_groups_in m size Hm _ _ Hg) as (Gs & -> & HF). bsimpl. eauto.
Qed.

(** A token read from the self-relative form holds what the form holds. *)
Lemma read_relative malloc lock m size ts :
  relative_at m size ts -> size < 2 ^ 32 -> 
  sizeof_SID_AND_ATTRIBUTES * Z.of_nat (length (ts_groups ts)) + sizeof_TOKEN_GROUPS < 2 ^ 32 ->
  12 * priv_count (ts_privs ts) + 4 < 2 ^ 32 ->
  malloc (sizeof_SID_AND_ATTRIBUTES * Z.of_nat (length (ts_groups ts)) + sizeof_TOKEN_GROUPS) = true ->
  malloc (12 * priv_count (ts_privs ts) + 4) = true ->
  (forall st, lock = Some st -> NT_SUCCESS st = false) ->
  exists tok, RtlSelfRelativeAccessTokenToAccessToken malloc lock m size =
      Some (create_status (without_dacl ts) malloc lock, tok) /\
    (create_status (without_dacl ts) malloc lock <> STATUS_SUCCESS -> tok = None) /\
    (create_status (without_dacl ts) malloc lock = STATUS_SUCCESS ->
      exists b, tok = Some b /\ tb_ReferenceCount b = 1 /\ live_token b (without_dacl ts)).
Proof.
  intros Hrel Hm Hlg Hlp Hmg Hmp Hlock.
  destruct (get_group_array_in malloc m size ts Hrel Hm Hlg Hmg) as (Gs & Eg & Hg).
  pose proof (get_privileges_in malloc m size ts Hrel Hm Hlp Hmp) as Ep.
  destruct Hrel as (Hsz & (flags & Ef & Hunix) & (Ea & uoff & Eu & Hu) & _ & _ & Ho & Hpg).
  destruct (get_sid_in _ _ _ _ Ho Hm) as (po & Eo & Hpo). destruct (get_sid_in _ _ _ _ Hpg Hm) as (pg & Epg & Hppg).
  unfold RtlSelfRelativeAccessTokenToAccessToken, sizeof_ACCESS_TOKEN_SELF_RELATIVE.
  rewrite CheckOffset_ok by lia. rewrite is_ok_success. cbn [negb]. rewrite Ef. bsimpl.
  assert (Hun : (if IsSetFlag flags ACCESS_TOKEN_FLAG_UNIX_PRESENT then
    uid ← ld32 m Relative_Uid; gid ← ld32 m Relative_Gid; umask ← ld32 m Relative_Umask;
    Some (Some {| tu_Uid := uid; tu_Gid := gid; tu_Umask := umask |}) else Some None) = Some (ts_unix ts)).
  { destruct (ts_unix ts) as [[uid gid umask]|]; [destruct Hunix as (-> & -> & -> & ->)|rewrite Hunix]; done. }
  rewrite Hun. bsimpl. rewrite Ea. bsimpl. rewrite Eu. bsimpl. rewrite (validate_sid_in _ _ _ _ Hu Hm). okstep.
  rewrite Eg. okstep. rewrite Ep. okstep. rewrite Eo. okstep. rewrite Epg. okstep.
  assert (Hc : contents_at {| sa_Sid := Some (padd m uoff); sa_Attributes := 0 |} Gs po pg None (without_dacl ts)).
  { split; [|split; [done|split; [done|split; [done|constructor]]]]. split; [done|]. eexists. split; [done|]. by eapply sid_in_at. }
  pose proof sizeof_pointer_range. destruct (RtlCreateAccessToken_spec malloc lock _ _ _ _ _ _ [] Hc) as (tok & E & Hno & Hyes).
  { cbn. unfold sizeof_SID_AND_ATTRIBUTES, sizeof_TOKEN_GROUPS in *. lia. }
  { cbn. unfold priv_count in *. lia. }
  { done. }
  exists tok. split; [exact E|]. split; [exact Hno|]. intros Es. destruct (Hyes Es) as (b & ? & ? & ? & _). by exists b.
Qed.

(** * Writing *)

(** ** Alignment *)

Lemma up32_range n : 0 <= n -> n <= up32 n < n + 32 /\ up32 n mod 32 = 0.
Proof. intros Hn. unfold up32. rewrite Z.mul_comm, Z.mod_mul by lia. Z.div_mod_to_equations. lia. Qed.

Lemma advance_at off n : 0 <= off -> off mod 32 = 0 -> 0 <= n -> off + up32 n < 2 ^ 32 -> advance off n = off + up32 n.
Proof.
  intros Ho Ha Hn Hs. pose proof (up32_range n Hn). unfold advance, Align32, u32. rewrite (Z.mod_small (off + n)) by lia.
  assert (Hm : (off + n) mod 32 = n mod 32) by (rewrite Z.add_mod, Ha, Z.add_0_l, Z.mod_mod by lia; done).
  rewrite Hm. unfold up32 in *. destruct (Z.eqb_spec (n mod 32) 0) as [E|E]; cbn [negb].
  - Z.div_mod_to_equations. lia.
  - rewrite Z.mod_small; Z.div_mod_to_equations; lia.
Qed.

Lemma aligned_add off n : off mod 32 = 0 -> 0 <= n -> (off + up32 n) mod 32 = 0.
Proof. intros Ha Hn. pose proof (up32_range n Hn). rewrite Z.add_mod, Ha by lia. Z.div_mod_to_equations. lia. Qed.

(** ** Facts: what the buffer holds at which offset *)

Definition facts := list (Z * mem).

Definition holds_facts (m : mem) (F : facts) : Prop := Forall (fun '(o, bs) => rd m o (zlen bs) = Some bs) F.

(** No fact is about a byte from [a] to [b]. *)
Definition outside (F : facts) (a b : Z) : Prop := Forall (fun '(o, bs) => o + zlen bs <= a \/ b <= o) F.

Lemma outside_sub F a b c d : outside F a b -> a <= c -> d <= b -> outside F c d.
Proof. intros HF ? ?. eapply Forall_impl; [exact HF|]. intros [o bs] [?|?]; [left|right]; lia. Qed.

Lemma holds_wr m F o bs :
  holds_facts m F -> outside F o (o + zlen bs) -> 0 <= o -> o + zlen bs <= zlen m ->
  exists m', wr m o bs = Some m' /\ zlen m' = zlen m /\ holds_facts m' ((o, bs) :: F).
Proof.
  intros HF HO Ho Hz. destruct (wr_ok m o bs) as (m' & E & Hl); [done..|]. exists m'. split; [done|]. split; [done|].
  constructor; [by eapply rd_wr_same|]. unfold holds_facts, outside in *. rewrite Forall_forall in *.
  intros [o' bs'] Hin. specialize (HF _ Hin). specialize (HO _ Hin). cbn in *. rewrite <- HF. eapply rd_wr_other; [exact E|]. lia.
Qed.

Lemma holds_st m F o v :
  holds_facts m F -> outside F o (o + 4) -> 0 <= o -> o + 4 <= zlen m ->
  exists m', st32 m o v = Some m' /\ zlen m' = zlen m /\ holds_facts m' ((o, encode host 4 v) :: F).
Proof. intros. unfold st32. apply holds_wr; rewrite ?zlen_encode; done. Qed.

Lemma holds_put m F off src n bs :
  holds_facts m F -> outside F off (off + n) -> 0 <= off -> off mod 32 = 0 -> zlen bs = n -> rd src 0 n = Some bs ->
  off + up32 n <= zlen m -> zlen m < 2 ^ 32 ->
  exists m', put m off src n = Some (m', off + up32 n) /\ zlen m' = zlen m /\ holds_facts m' ((off, bs) :: F).
Proof.
  intros HF HO Ho Ha Hn Hr Hz Hm. pose proof (zlen_nonneg bs). pose proof (up32_range n ltac:(lia)).
  destruct (holds_wr m F off bs) as (m' & E & Hl & HF'); [done|by rewrite Hn|done|lia|].
  exists m'. split; [|done]. unfold put. rewrite Hr. bsimpl. rewrite E. bsimpl. by rewrite advance_at by lia.
Qed.

Lemma fact_ld32 m F o v : holds_facts m F -> (o, encode host 4 v) ∈ F -> 0 <= v < 2 ^ 32 -> ld32 m o = Some v.
Proof.
  intros HF Hin Hv. unfold holds_facts in HF. rewrite Forall_forall in HF. specialize (HF _ Hin). cbn in HF.
  rewrite zlen_encode in HF. unfold ld32. change (Z.of_nat 4) with 4 in HF. rewrite HF. bsimpl. by rewrite decode_encode.
Qed.

Lemma fact_sid m F size off s : holds_facts m F -> (off, sid_bytes host s) ∈ F -> sid_wf s -> 0 < off < 2 ^ 32 ->
  off + sid_size s <= size -> sid_in m size off s.
Proof.
  intros HF Hin Hw Ho Hs. unfold holds_facts in HF. rewrite Forall_forall in HF. specialize (HF _ Hin). cbn in HF.
  rewrite zlen_sid_size in HF by done. by repeat (split; [done|]).
Qed.

(** ** Groups *)

Fixpoint group_facts (pGroups loc : Z) (gs : list (sid * Z)) : facts :=
  match gs with
  | [] => []
  | (g, attr) :: gs' =>
      (loc, sid_bytes host g) :: (pGroups, encode host 4 loc) :: (pGroups + 4, encode host 4 attr) ::
      group_facts (pGroups + 8) (loc + up32 (sid_size g)) gs'
  end.

Lemma groups_up_nonneg Gs gs : Forall2 group_at Gs gs -> 0 <= groups_up gs.
Proof.
  induction 1 as [|x g Gs gs (_ & p & _ & Hp) _ IH]; [done|]. cbn. fold (groups_up gs).
  pose proof (sid_size_range _ (sid_at_wf _ _ _ Hp)). pose proof (up32_range (sid_size (fst g)) ltac:(lia)). lia.
Qed.

(** Where the facts about the groups lie. *)
Lemma group_facts_range Gs gs : Forall2 group_at Gs gs -> forall pGroups loc,
  Forall (fun '(o, bs) => (pGroups <= o /\ o + zlen bs <= pGroups + 8 * Z.of_nat (length gs)) \/
                          (loc <= o /\ o + zlen bs <= loc + groups_up gs)) (group_facts pGroups loc gs).
Proof.
  induction 1 as [|x [g attr] Gs gs (_ & p & _ & Hp) HF IH]; intros pGroups loc; [constructor|].
  cbn [fst] in Hp. pose proof (sid_at_wf _ _ _ Hp) as Hw. pose proof (sid_size_range _ Hw).
  pose proof (up32_range (sid_size g) ltac:(lia)). pose proof (groups_up_nonneg _ _ HF).
  cbn [group_facts length groups_up foldr fst]. fold (groups_up gs).
  repeat (apply Forall_cons; split; [rewrite ?zlen_encode, ?zlen_sid_size by done; lia|]).
  eapply Forall_impl; [apply IH|]. intros [o bs] Ho. lia.
Qed.

Lemma put_groups_at Gs gs : Forall2 group_at Gs gs -> forall m F pGroups loc,
  holds_facts m F -> 0 <= pGroups -> pGroups + 8 * Z.of_nat (length gs) <= loc -> loc mod 32 = 0 ->
  loc + groups_up gs <= zlen m -> zlen m < 2 ^ 32 ->
  outside F pGroups (pGroups + 8 * Z.of_nat (length gs)) -> outside F loc (loc + groups_up gs) ->
  exists m', put_groups m pGroups loc Gs = Some (m', loc + groups_up gs) /\ zlen m' = zlen m /\
    holds_facts m' (group_facts pGroups loc gs ++ F).
Proof.
  induction 1 as [|x [g attr] Gs gs (Hattr & p & Hs & Hp) HF IH]; intros m F pGroups loc Hm Hpg Hle Ha Hz Hw Ho1 Ho2.
  { exists m. cbn. by rewrite Z.add_0_r. }
  cbn [fst snd] in *. pose proof (sid_at_wf _ _ _ Hp) as Hws. pose proof (sid_size_range _ Hws).
  pose proof (up32_range (sid_size g) ltac:(lia)) as Hu. pose proof (groups_up_nonneg _ _ HF).
  cbn [length groups_up foldr fst] in *. fold (groups_up gs) in *.
  assert (Hel : zlen (encode host 4 attr) = 4) by (by rewrite zlen_encode). assert (He : zlen (encode host 4 loc) = 4) by (by rewrite zlen_encode).
  cbn [put_groups]. rewrite Hattr, Hs.
  destruct (holds_st m F (pGroups + 4) attr Hm) as (m1 & -> & Hl1 & Hm1); [by eapply outside_sub; [exact Ho1|lia..]|lia..|].
  bsimpl.
  destruct (holds_st m1 _ pGroups loc Hm1) as (m2 & -> & Hl2 & Hm2).
  { constructor; [lia|]. eapply outside_sub; [exact Ho1|lia..]. }
  { lia. }
  { lia. }
  bsimpl. rewrite (sid_at_length host p g Hp). bsimpl. change (8 + 4 * sid_count g) with (sid_size g).
  destruct (holds_put m2 _ loc p (sid_size g) (sid_bytes host g) Hm2) as (m3 & -> & Hl3 & Hm3);
    [|lia|done|by apply zlen_sid_size|by apply (sid_at_rd host)|lia|lia|].
  { do 2 (constructor; [lia|]). eapply outside_sub; [exact Ho2|lia..]. }
  bsimpl. unfold sizeof_SID_AND_ATTRIBUTES_SELF_RELATIVE.
  destruct (IH m3 ((loc, sid_bytes host g) :: (pGroups, encode host 4 loc) :: (pGroups + 4, encode host 4 attr) :: F)
    (pGroups + 8) (loc + up32 (sid_size g))) as (m' & -> & Hl' & Hm'); [done|lia|lia|by apply aligned_add; lia|lia|lia| | |].
  { do 3 (constructor; [rewrite ?zlen_sid_size by done; lia|]). eapply outside_sub; [exact Ho1|lia..]. }
  { do 3 (constructor; [rewrite ?zlen_sid_size by done; lia|]). eapply outside_sub; [exact Ho2|lia..]. }
  exists m'. split; [do 2 f_equal; lia|]. split; [lia|]. unfold holds_facts in *. cbn [group_facts app].
  rewrite !Forall_app, !Forall_cons in *. rewrite Forall_app. tauto.
Qed.

(** ** The buffer while it is written *)

Definition field_facts (H : list (Z * Z)) : facts := map (fun '(f, v) => (f, encode host 4 v)) H.

(** The fields [Hd] are written, and the facts [B] about the bytes from 64 up to
    [cur]; [cur] is the next offset. *)
Definition written (N : Z) (m : mem) (Hd : list (Z * Z)) (B : facts) (cur : Z) : Prop :=
  zlen m = N /\ N < 2 ^ 32 /\ 64 <= cur <= N /\ cur mod 32 = 0 /\
  holds_facts m (field_facts Hd ++ B) /\
  Forall (fun '(f, _) => 0 <= f <= 48) Hd /\ Forall (fun '(o, bs) => 64 <= o /\ o + zlen bs <= cur) B.

Lemma fields_outside Hd a b : Forall (fun '(f, _) => 0 <= f <= 48) Hd -> 64 <= a -> outside (field_facts Hd) a b.
Proof.
  intros HH Ha. apply Forall_map. eapply Forall_impl; [exact HH|]. intros [f v] Hf. cbn. rewrite zlen_encode. lia.
Qed.

Lemma write_field N m Hd B cur f v :
  written N m Hd B cur -> 0 <= f <= 48 -> Forall (fun '(f', _) => f' + 4 <= f \/ f + 4 <= f') Hd ->
  exists m', st32 m f v = Some m' /\ written N m' ((f, v) :: Hd) B cur.
Proof.
  intros (Hz & HN & Hc & Ha & HF & HH & HB) Hf Hnew.
  destruct (holds_st m _ f v HF) as (m' & E & Hl & HF'); [|lia..|].
  - apply Forall_app. split.
    + apply Forall_map. eapply Forall_impl; [exact Hnew|]. intros [f' v'] Hd'. cbn. rewrite zlen_encode. lia.
    + eapply Forall_impl; [exact HB|]. intros [o bs] [? ?]. lia.
  - exists m'. split; [done|]. repeat (split; [done || lia|]). split; [by constructor|done].
Qed.

Lemma write_put N m Hd B cur src n bs :
  written N m Hd B cur -> rd src 0 n = Some bs -> cur + up32 n <= N ->
  exists m', put m cur src n = Some (m', cur + up32 n) /\ written N m' Hd ((cur, bs) :: B) (cur + up32 n).
Proof.
  intros (Hz & HN & Hc & Ha & HF & HH & HB) Hr Hn. pose proof (rd_length _ _ _ _ Hr) as Hbs. pose proof (zlen_nonneg bs).
  pose proof (up32_range n ltac:(lia)).
  destruct (holds_put m _ cur src n bs HF) as (m' & E & Hl & HF'); [|lia|done|done|done|lia|lia|].
  - apply Forall_app. split; [by apply fields_outside; [|lia]|]. eapply Forall_impl; [exact HB|]. intros [o b] [? ?]. lia.
  - exists m'. split; [done|]. repeat (split; [done || lia|]). split; [by apply aligned_add; lia|]. split.
    + unfold holds_facts in *. rewrite Forall_cons, Forall_app in HF'. rewrite Forall_app, Forall_cons. tauto.
    + split; [done|]. constructor; [lia|]. eapply Forall_impl; [exact HB|]. intros [o b] [? ?]. lia.
Qed.

(** What is known of an optional SID once it is written. *)
Definition opt_field (cur : Z) (o : option sid) : Z := match o with Some _ => cur | None => 0 end.
Definition opt_fact (cur : Z) (o : option sid) : facts := match o with Some s => [(cur, sid_bytes host s)] | None => [] end.

Lemma write_sid N m Hd B cur f p o :
  written N m Hd B cur -> 0 <= f <= 48 -> Forall (fun '(f', _) => f' + 4 <= f \/ f + 4 <= f') Hd ->
  option_Forall2 (sid_at host) p o -> cur + opt_up sid_size o <= N ->
  exists m', put_sid m cur f p = Some (m', cur + opt_up sid_size o) /\
    written N m' ((f, opt_field cur o) :: Hd) (opt_fact cur o ++ B) (cur + opt_up sid_size o).
Proof.
  intros Hw Hf Hnew [q s Hq|] Hn; cbn [put_sid opt_up opt_field opt_fact app] in *.
  - destruct (write_field N m Hd B cur f cur Hw Hf Hnew) as (m1 & -> & Hw1). bsimpl.
    rewrite (sid_at_length host q s Hq). bsimpl. change (8 + 4 * sid_count s) with (sid_size s).
    apply (write_put N m1 _ B cur q (sid_size s)); [done|by apply (sid_at_rd host)|done].
  - destruct (write_field N m Hd B cur f 0 Hw Hf Hnew) as (m1 & -> & Hw1). bsimpl. rewrite Z.add_0_r. eauto.
Qed.

Lemma write_groups N m Hd B cur Gs gs :
  written N m Hd B cur -> Forall2 group_at Gs gs ->
  cur + up32 (8 * Z.of_nat (length gs)) + groups_up gs <= N ->
  let loc := cur + up32 (8 * Z.of_nat (length gs)) in
  exists m', put_groups m cur loc Gs = Some (m', loc + groups_up gs) /\
    written N m' Hd (group_facts cur loc gs ++ B) (loc + groups_up gs).
Proof.
  intros (Hz & HN & Hc & Ha & HF & HH & HB) Hg Hn loc. pose proof (up32_range (8 * Z.of_nat (length gs)) ltac:(lia)) as Hu.
  pose proof (groups_up_nonneg _ _ Hg). unfold loc.
  assert (Ho : forall b, outside (field_facts Hd ++ B) cur b).
  { intros b. apply Forall_app. split; [by apply fields_outside; [|lia]|]. eapply Forall_impl; [exact HB|]. intros [o bs] [? ?]. lia. }
  destruct (put_groups_at Gs gs Hg m _ cur loc HF) as (m' & E & Hl & HF'); unfold loc; [lia|lia|by apply aligned_add; lia|lia|lia|apply Ho| |].
  - eapply outside_sub; [apply (Ho (cur + up32 (8 * Z.of_nat (length gs)) + groups_up gs))|lia..].
  - exists m'. split; [done|]. repeat (split; [done || lia|]). split.
    { rewrite Z.add_mod by lia. replace (groups_up gs mod 32) with 0; [by rewrite aligned_add by lia|]. symmetry.
      clear -Hg. induction Hg as [|x g Gs gs (_ & p & _ & Hp) _ IH]; [done|]. cbn. fold (groups_up gs).
      pose proof (sid_size_range _ (sid_at_wf _ _ _ Hp)). rewrite Z.add_mod, IH by lia. rewrite Z.add_0_r, Z.mod_mod by lia.
      apply up32_range. lia. }
    split; [unfold holds_facts in *; rewrite !Forall_app in *; tauto|]. split; [done|]. apply Forall_app. split.
    + eapply Forall_impl; [apply (group_facts_range _ _ Hg)|]. intros [o bs] Hr. unfold loc in *. lia.
    + eapply Forall_impl; [exact HB|]. intros [o bs] [? ?]. lia.
Qed.

(** ** Reading the facts back *)

Lemma written_field N m Hd B cur f v : written N m Hd B cur -> (f, v) ∈ Hd -> 0 <= v < 2 ^ 32 -> ld32 m f = Some v.
Proof.
  intros (_ & _ & _ & _ & HF & _) Hin Hv. eapply fact_ld32; [exact HF| |done]. apply elem_of_app. left.
  apply list_elem_of_fmap. by exists (f, v).
Qed.

Lemma written_sid N m Hd B cur off s :
  written N m Hd B cur -> (off, sid_bytes host s) ∈ B -> sid_wf s -> sid_in m cur off s.
Proof.
  intros (_ & HN & Hc & _ & HF & _ & HB) Hin Hw. rewrite Forall_forall in HB. pose proof (HB _ Hin) as Hb. cbn in Hb.
  rewrite zlen_sid_size in Hb by done. pose proof (sid_size_range s Hw).
  eapply fact_sid; [exact HF|apply elem_of_app; by right|done|lia|lia].
Qed.

Lemma written_opt_sid N m Hd B cur f loc o p :
  written N m Hd B cur -> (f, opt_field loc o) ∈ Hd -> (forall s, o = Some s -> (loc, sid_bytes host s) ∈ B) ->
  option_Forall2 (sid_at host) p o -> 0 <= loc < 2 ^ 32 -> opt_sid_in m cur f o.
Proof.
  intros Hw Hin HB Ho Hl. inversion Ho as [q s Hq|]; subst; cbn in *.
  - exists loc. split; [eapply written_field; [exact Hw|exact Hin|done]|]. eapply written_sid; [exact Hw|by apply HB|eapply sid_at_wf, Hq].
  - eapply written_field; [exact Hw|exact Hin|lia].
Qed.

Lemma written_groups N m Hd B cur Gs gs : Forall2 group_at Gs gs -> Forall (fun g => 0 <= snd g < 2 ^ 32) gs ->
  written N m Hd B cur -> forall pGroups loc, 0 <= loc -> loc + groups_up gs < 2 ^ 32 ->
  (forall x, x ∈ group_facts pGroups loc gs -> x ∈ B) -> groups_in m cur pGroups gs.
Proof.
  intros Hg Ha Hw. induction Hg as [|x [g attr] Gs gs (_ & p & _ & Hp) Hg IH]; intros pGroups loc Hl0 Hl HB; [done|].
  apply Forall_cons in Ha as [Hat Ha]. cbn [fst snd] in *. pose proof (sid_at_wf _ _ _ Hp) as Hws. pose proof (sid_size_range _ Hws).
  pose proof (up32_range (sid_size g) ltac:(lia)). pose proof (groups_up_nonneg _ _ Hg).
  cbn [groups_up foldr fst] in Hl. fold (groups_up gs) in Hl. cbn [group_facts] in HB. cbn [groups_in].
  pose proof Hw as (_ & _ & _ & _ & HF & _). split.
  - exists loc. split; [|split].
    + eapply fact_ld32; [exact HF|apply elem_of_app; right; apply HB; rewrite !elem_of_cons; tauto|done].
    + eapply fact_ld32; [exact HF|apply elem_of_app; right; apply HB; rewrite !elem_of_cons; tauto|lia].
    + eapply written_sid; [exact Hw|apply HB; rewrite !elem_of_cons; tauto|done].
  - apply (IH Ha (pGroups + 8) (loc + up32 (sid_size g))); [lia|lia|]. intros y Hy. apply HB. rewrite !elem_of_cons. tauto.
Qed.

(** ** The whole token *)

(** What the fields of the structure must satisfy to fit their 32 bits. *)
Definition token_words (T : ACCESS_TOKEN) (ts : token_spec) : Prop :=
  0 <= Flags T < 2 ^ 32 /\ 0 <= Uid T < 2 ^ 32 /\ 0 <= Gid T < 2 ^ 32 /\ 0 <= Umask T < 2 ^ 32 /\
  Forall (fun g => 0 <= snd g < 2 ^ 32) (ts_groups ts).

(** The offsets of the parts. *)
Definition rel_groups (ts : token_spec) : Z := 64 + up32 (sid_size (ts_user ts)).
Definition rel_sids (ts : token_spec) : Z := rel_groups ts + up32 (8 * Z.of_nat (length (ts_groups ts))).
Definition rel_privs (ts : token_spec) : Z := rel_sids ts + groups_up (ts_groups ts).
Definition rel_owner (ts : token_spec) : Z := rel_privs ts + up32 (12 * priv_count (ts_privs ts)).
Definition rel_group (ts : token_spec) : Z := rel_owner ts + opt_up sid_size (ts_owner ts).
Definition rel_dacl (ts : token_spec) : Z := rel_group ts + opt_up sid_size (ts_group ts).

Lemma opt_up_nonneg p o : option_Forall2 (sid_at host) p o -> 0 <= opt_up sid_size o.
Proof.
  intros [q s Hq|]; [|done]. cbn. pose proof (sid_size_range _ (sid_at_wf _ _ _ Hq)).
  pose proof (up32_range (sid_size s) ltac:(lia)). lia.
Qed.

Lemma rel_offsets T ts : token_repr T ts -> 
  64 < rel_groups ts /\ rel_groups ts <= rel_sids ts /\ rel_sids ts <= rel_privs ts /\ rel_privs ts <= rel_owner ts /\
  rel_owner ts <= rel_group ts /\ rel_group ts <= rel_dacl ts /\ rel_dacl ts <= relative_size ts /\
  relative_size ts = rel_dacl ts + opt_up acl_size (ts_dacl ts).
Proof.
  intros (((_ & pu & _ & Hu) & Hg & Ho & Hpg & Hd) & _). cbn [fst] in Hu.
  pose proof (sid_size_range _ (sid_at_wf _ _ _ Hu)). pose proof (up32_range (sid_size (ts_user ts)) ltac:(lia)).
  pose proof (up32_range (8 * Z.of_nat (length (ts_groups ts))) ltac:(lia)). pose proof (groups_up_nonneg _ _ Hg).
  assert (0 <= priv_count (ts_privs ts)) by (unfold priv_count; lia).
  pose proof (up32_range (12 * priv_count (ts_privs ts)) ltac:(lia)).
  pose proof (opt_up_nonneg _ _ Ho). pose proof (opt_up_nonneg _ _ Hpg).
  assert (0 <= opt_up acl_size (ts_dacl ts)).
  { destruct Hd as [q a Hq|]; [|done]. pose proof (acl_size_range _ _ Hq). cbn. pose proof (up32_range (acl_size a) ltac:(lia)). lia. }
  unfold relative_size, rel_dacl, rel_group, rel_owner, rel_privs, rel_sids, rel_groups. lia.
Qed.

Lemma start_written m N : zlen m = N -> N < 2 ^ 32 -> 64 <= N -> written N m [] [] 64.
Proof. intros Hz HN H64. split; [done|]. split; [done|]. split; [lia|]. split; [done|]. split; [constructor|]. split; constructor. Qed.

(** Write one more field. *)
Ltac fresh_field :=
  repeat (apply Forall_cons; split;
    [unfold Relative_Flags, Relative_UserSidOffset, Relative_UserAttributes, Relative_GroupCount, Relative_GroupsOffset,
       Relative_PrivilegeCount, Relative_PrivilegesOffset, Relative_OwnerOffset, Relative_PrimaryGroupOffset,
       Relative_DefaultDaclOffset, Relative_Uid, Relative_Gid, Relative_Umask; lia|]); apply Forall_nil_2.
Ltac field_step Hw :=
  match goal with
  | |- context [st32 ?m ?f ?v] =>
      let m' := fresh "m" in let E := fresh "E" in let Hw' := fresh "Hw" in
      destruct (write_field _ m _ _ _ f v Hw) as (m' & E & Hw'); [by vm_compute|fresh_field|];
      rewrite E; bsimpl; clear Hw E; rename Hw' into Hw
  end.

Lemma put_header_at N T m : written N m [] [] 64 ->
  exists m', put_header T m = Some m' /\
    written N m' [(Relative_Umask, Umask T); (Relative_Gid, Gid T); (Relative_Uid, Uid T); (Relative_PrivilegeCount, PrivilegeCount T);
      (Relative_GroupCount, Z.of_nat (length (Groups T))); (Relative_UserAttributes, sa_Attributes (User T)); (Relative_Flags, Flags T)] [] 64.
Proof.
  intros Hw. unfold put_header.
  do 7 (field_step Hw). eauto.
Qed.

(** The fields and the facts of a written token. *)
Definition token_fields (T : ACCESS_TOKEN) (ts : token_spec) : list (Z * Z) :=
  [(Relative_PrimaryGroupOffset, opt_field (rel_group ts) (ts_group ts)); (Relative_OwnerOffset, opt_field (rel_owner ts) (ts_owner ts));
   (Relative_PrivilegesOffset, rel_privs ts); (Relative_GroupsOffset, rel_groups ts); (Relative_UserSidOffset, 64);
   (Relative_Umask, Umask T); (Relative_Gid, Gid T); (Relative_Uid, Uid T); (Relative_PrivilegeCount, PrivilegeCount T);
   (Relative_GroupCount, Z.of_nat (length (Groups T))); (Relative_UserAttributes, sa_Attributes (User T)); (Relative_Flags, Flags T)].
Definition token_facts (ts : token_spec) : facts :=
  opt_fact (rel_group ts) (ts_group ts) ++ opt_fact (rel_owner ts) (ts_owner ts) ++ (rel_privs ts, privs_bytes host (ts_privs ts)) ::
  group_facts (rel_groups ts) (rel_sids ts) (ts_groups ts) ++ [(64, sid_bytes host (ts_user ts))].

Lemma put_token_written T ts m N :
  token_repr T ts -> zlen m = N -> relative_size ts <= N -> N < 2 ^ 32 ->
  exists m' Hd B, put_token T m = Some (m', relative_size ts) /\ written N m' (Hd ++ token_fields T ts) (B ++ token_facts ts) (relative_size ts).
Proof.
  intros HT Hz Hs HN. pose proof (rel_offsets T ts HT) as Hoff.
  destruct HT as (((Ez & pu & Eu & Hu) & Hg & Ho & Hpg & Hd) & (Hpc & prest & Hp) & _). cbn [fst snd] in *.
  unfold put_token. destruct (put_header_at N T m) as (m1 & -> & Hw); [apply start_written; lia|]. bsimpl. rewrite Eu. bsimpl.
  change (advance 0 sizeof_ACCESS_TOKEN_SELF_RELATIVE) with 64.
  edestruct (write_sid N m1 _ _ 64 Relative_UserSidOffset (Some pu) (Some (ts_user ts)) Hw) as (m2 & -> & Hw2);
    [by vm_compute|fresh_field|by constructor|cbn [opt_up]; unfold rel_groups in Hoff; lia|]. clear Hw. bsimpl.
  cbn [opt_up opt_field opt_fact app] in *. fold (rel_groups ts) in *. field_step Hw2.
  rewrite (Forall2_length _ _ _ Hg).
  assert (Ha1 : rel_groups ts mod 32 = 0) by apply Hw2.
  rewrite advance_at; unfold sizeof_SID_AND_ATTRIBUTES_SELF_RELATIVE; [|lia|done|lia|fold (rel_sids ts); lia]. fold (rel_sids ts).
  destruct (write_groups N _ _ _ (rel_groups ts) (Groups T) (ts_groups ts) Hw2 Hg) as (m4 & E4 & Hw4);
    [fold (rel_sids ts); fold (rel_privs ts); lia|]. fold (rel_sids ts) in E4, Hw4. fold (rel_privs ts) in E4, Hw4.
  rewrite E4. bsimpl. clear Hw2 E4. field_step Hw4. unfold sizeof_LUID_AND_ATTRIBUTES. rewrite Hpc, Hp.
  destruct (write_put N _ _ _ (rel_privs ts) (privs_bytes host (ts_privs ts) ++ prest) (12 * priv_count (ts_privs ts))
    (privs_bytes host (ts_privs ts)) Hw4) as (m6 & -> & Hw6);
    [apply rd_at_0; by rewrite zlen_privs_bytes|fold (rel_owner ts); lia|]. fold (rel_owner ts) in *. bsimpl. clear Hw4.
  edestruct (write_sid N m6 _ _ (rel_owner ts) Relative_OwnerOffset (Owner T) (ts_owner ts) Hw6) as (m7 & -> & Hw7);
    [by vm_compute|fresh_field|done|fold (rel_group ts); lia|]. fold (rel_group ts) in *. bsimpl. clear Hw6.
  edestruct (write_sid N m7 _ _ (rel_group ts) Relative_PrimaryGroupOffset (PrimaryGroup T) (ts_group ts) Hw7) as (m8 & -> & Hw8);
    [by vm_compute|fresh_field|done|fold (rel_dacl ts); lia|]. fold (rel_dacl ts) in *. bsimpl. clear Hw7.
  assert (Hend : relative_size ts = rel_dacl ts + opt_up acl_size (ts_dacl ts)) by lia. rewrite Hend in *.
  destruct (DefaultDacl T) as [q|], (ts_dacl ts) as [a|]; inversion Hd as [? ? Hq|]; subst.
  - field_step Hw8. unfold RtlGetAclSize. destruct (acl_at_fields q a Hq) as (_ & _ & -> & _). bsimpl.
    destruct (acl_at_rd q a Hq) as (bs & Hr & _). cbn [opt_up] in *.
    edestruct (write_put (zlen m) _ _ _ (rel_dacl ts) q (acl_size a) bs Hw8 Hr) as (m9 & -> & Hw9); [lia|].
    exists m9, [(Relative_DefaultDaclOffset, rel_dacl ts)], [(rel_dacl ts, bs)]. split; [done|exact Hw9].
  - field_step Hw8. cbn [opt_up] in *. rewrite Z.add_0_r in *. eexists _, [(Relative_DefaultDaclOffset, 0)], [].
    split; [done|exact Hw8].
Qed.

Lemma opt_fact_in loc o s : o = Some s -> (loc, sid_bytes host s) ∈ opt_fact loc o.
Proof. intros ->. left. Qed.

(** Membership in the fields and the facts of a written token. *)
Ltac in_fields := unfold token_fields; rewrite !elem_of_cons; tauto.
Ltac in_facts := unfold token_facts; rewrite ?elem_of_app, ?elem_of_cons, ?elem_of_app, ?elem_of_cons; tauto.

Lemma relative_of_written T ts m N Hd B :
  token_repr T ts -> token_words T ts -> relative_size ts <= N -> N < 2 ^ 32 ->
  written N m (Hd ++ token_fields T ts) (B ++ token_facts ts) (relative_size ts) ->
  relative_at m (relative_size ts) ts.
Proof.
  intros HT (Hf & Hu1 & Hu2 & Hu3 & Hga) Hs HN Hw. pose proof (rel_offsets T ts HT) as Hoff.
  destruct HT as (((Ez & pu & Eu & Hu) & Hg & Ho & Hpg & Hd') & (Hpc & prest & Hp) & Hun). cbn [fst snd] in *.
  assert (HH : forall f v, (f, v) ∈ token_fields T ts -> 0 <= v < 2 ^ 32 -> ld32 m f = Some v).
  { intros f v Hin Hv. eapply written_field; [exact Hw|apply elem_of_app; by right|done]. }
  assert (HB : forall x, x ∈ token_facts ts -> x ∈ B ++ token_facts ts) by (intros; apply elem_of_app; by right).
  assert (Hlen : 0 <= priv_count (ts_privs ts)) by (unfold priv_count; lia).
  pose proof (up32_range (8 * Z.of_nat (length (ts_groups ts))) ltac:(lia)) as Hup.
  pose proof (up32_range (12 * priv_count (ts_privs ts)) ltac:(lia)) as Hup'.
  pose proof (groups_up_nonneg _ _ Hg). pose proof (Forall2_length _ _ _ Hg) as Hgl.
  assert (Hsid : rel_groups ts + 8 * Z.of_nat (length (ts_groups ts)) <= rel_sids ts) by (unfold rel_sids; lia).
  assert (Hown : rel_privs ts + 12 * priv_count (ts_privs ts) <= rel_owner ts) by (unfold rel_owner; lia).
  split; [lia|]. split; [|split; [|split; [|split; [|split]]]].
  - exists (Flags T). split; [apply HH; [in_fields|done]|]. unfold unix_at in Hun. destruct (ts_unix ts) as [u|]; [|done].
    destruct Hun as [Hset <-]. split; [done|]. cbn [tu_Uid tu_Gid tu_Umask]. split; [|split]; (apply HH; [in_fields|done]).
  - split; [apply HH; [rewrite <- Ez; in_fields|lia]|]. exists 64. split; [apply HH; [in_fields|lia]|].
    eapply written_sid; [exact Hw|apply HB; in_facts|by eapply sid_at_wf].
  - split; [rewrite <- Hgl; apply HH; [in_fields|lia]|]. exists (rel_groups ts). split; [apply HH; [in_fields|lia]|].
    split; [lia|]. split; [lia|]. apply (written_groups _ _ _ _ _ _ _ Hg Hga Hw _ (rel_sids ts)); [lia|fold (rel_privs ts); lia|].
    intros x Hx. apply HB. unfold token_facts. rewrite !elem_of_app, elem_of_cons, elem_of_app. do 3 right. left. exact Hx.
  - split; [rewrite <- Hpc; apply HH; [in_fields|lia]|]. exists (rel_privs ts). split; [apply HH; [in_fields|lia]|].
    split; [lia|]. split; [lia|]. destruct Hw as (_ & _ & _ & _ & HF & _). unfold holds_facts in HF. rewrite Forall_forall in HF.
    rewrite <- (zlen_privs_bytes host). apply (HF (rel_privs ts, privs_bytes host (ts_privs ts))).
    apply elem_of_app. right. apply HB. in_facts.
  - eapply (written_opt_sid _ _ _ _ _ _ (rel_owner ts)); [exact Hw|apply elem_of_app; right; in_fields| |exact Ho|lia].
    intros s Es. apply HB. pose proof (opt_fact_in (rel_owner ts) _ s Es). unfold token_facts. rewrite !elem_of_app. tauto.
  - eapply (written_opt_sid _ _ _ _ _ _ (rel_group ts)); [exact Hw|apply elem_of_app; right; in_fields| |exact Hpg|lia].
    intros s Es. apply HB. pose proof (opt_fact_in (rel_group ts) _ s Es). unfold token_facts. rewrite !elem_of_app. tauto.
Qed.

(** ** The size announced *)

Lemma advance_sid_at off p o : 0 <= off -> off mod 32 = 0 -> option_Forall2 (sid_at host) p o -> off + opt_up sid_size o < 2 ^ 32 ->
  advance_sid off p = Some (off + opt_up sid_size o) /\ (off + opt_up sid_size o) mod 32 = 0.
Proof.
  intros Ho Ha [q s Hq|] Hs; cbn [advance_sid opt_up] in *; [|by rewrite Z.add_0_r].
  pose proof (sid_size_range _ (sid_at_wf _ _ _ Hq)). rewrite (sid_at_length host q s Hq). bsimpl.
  change (8 + 4 * sid_count s) with (sid_size s). rewrite advance_at by lia. split; [done|apply aligned_add; lia].
Qed.

Lemma advance_groups_at Gs gs : Forall2 group_at Gs gs -> forall off, 0 <= off -> off mod 32 = 0 -> off + groups_up gs < 2 ^ 32 ->
  advance_groups off Gs = Some (off + groups_up gs) /\ (off + groups_up gs) mod 32 = 0.
Proof.
  induction 1 as [|x [g attr] Gs gs (_ & p & Hs & Hp) HF IH]; intros off Ho Ha Hz; [cbn; by rewrite Z.add_0_r|].
  cbn [fst groups_up foldr advance_groups] in *. fold (groups_up gs) in *. rewrite Hs. bsimpl.
  pose proof (groups_up_nonneg _ _ HF). pose proof (sid_size_range _ (sid_at_wf _ _ _ Hp)).
  pose proof (up32_range (sid_size g) ltac:(lia)).
  destruct (advance_sid_at off (Some p) (Some g)) as [-> Ha']; [lia|done|by constructor|cbn [opt_up]; lia|]. bsimpl.
  cbn [opt_up] in *. rewrite Z.add_assoc. apply IH; [lia|done|lia].
Qed.

Lemma RtlAccessTokenRelativeSize_at T ts : token_repr T ts -> relative_size ts < 2 ^ 32 ->
  RtlAccessTokenRelativeSize T = Some (relative_size ts).
Proof.
  intros HT Hs. pose proof (rel_offsets T ts HT) as Hoff.
  destruct HT as (((Ez & pu & Eu & Hu) & Hg & Ho & Hpg & Hd) & (Hpc & _) & _). cbn [fst snd] in *.
  assert (0 <= priv_count (ts_privs ts)) by (unfold priv_count; lia).
  unfold RtlAccessTokenRelativeSize. change (advance 0 sizeof_ACCESS_TOKEN_SELF_RELATIVE) with 64. rewrite Eu. bsimpl.
  destruct (advance_sid_at 64 (Some pu) (Some (ts_user ts))) as [-> Ha1]; [lia|done|by constructor|cbn [opt_up]; fold (rel_groups ts); lia|].
  bsimpl. cbn [opt_up] in *. fold (rel_groups ts) in *. unfold sizeof_SID_AND_ATTRIBUTES_SELF_RELATIVE, sizeof_LUID_AND_ATTRIBUTES.
  rewrite (Forall2_length _ _ _ Hg), Hpc. rewrite advance_at; [|lia|done|lia|fold (rel_sids ts); lia]. fold (rel_sids ts).
  pose proof (aligned_add _ (8 * Z.of_nat (length (ts_groups ts))) Ha1 ltac:(lia)) as Ha2. fold (rel_sids ts) in Ha2.
  destruct (advance_groups_at _ _ Hg (rel_sids ts)) as [-> Ha3]; [lia|done|fold (rel_privs ts); lia|].
  bsimpl. fold (rel_privs ts) in *. rewrite advance_at; [|lia|done|lia|fold (rel_owner ts); lia].
  pose proof (aligned_add _ (12 * priv_count (ts_privs ts)) Ha3 ltac:(lia)) as Ha4. fold (rel_owner ts) in *.
  destruct (advance_sid_at (rel_owner ts) _ _ ltac:(lia) Ha4 Ho) as [-> Ha5]; [fold (rel_group ts); lia|]. bsimpl. fold (rel_group ts) in *.
  destruct (advance_sid_at (rel_group ts) _ _ ltac:(lia) Ha5 Hpg) as [-> Ha6]; [fold (rel_dacl ts); lia|]. bsimpl. fold (rel_dacl ts) in *.
  destruct Hoff as (? & ? & ? & ? & ? & ? & ? & Hend). rewrite Hend in *.
  inversion Hd as [q a Hq Eq Ea|Eq Ea]; rewrite <- Ea in *; cbn [opt_up] in *; [|by rewrite Z.add_0_r].
  unfold RtlGetAclSize. destruct (acl_at_fields q a Hq) as (_ & _ & -> & _). bsimpl. pose proof (acl_size_range _ _ Hq).
  by rewrite advance_at by lia.
Qed.

(** * The round trip *)

(** C35: The self-relative form of a token.  Called without a buffer, the writer
    announces the size; a shorter buffer is left as it is; in a buffer that is
    long enough the writer ends at the size announced (its assertion holds), and
    the reader, given that size, creates a token with the same user, groups,
    privileges, owner, primary group and Unix identity, with the status of
    [RtlCreateAccessToken] for those contents.  The default DACL is dropped. *)
Theorem token_relative_roundtrip malloc lock T ts m :
  token_repr T ts -> token_words T ts -> relative_size ts < 2 ^ 32 -> zlen m < 2 ^ 32 ->
  sizeof_SID_AND_ATTRIBUTES * Z.of_nat (length (ts_groups ts)) + sizeof_TOKEN_GROUPS < 2 ^ 32 ->
  12 * priv_count (ts_privs ts) + 4 < 2 ^ 32 ->
  malloc (sizeof_SID_AND_ATTRIBUTES * Z.of_nat (length (ts_groups ts)) + sizeof_TOKEN_GROUPS) = true ->
  malloc (12 * priv_count (ts_privs ts) + 4) = true ->
  (forall st, lock = Some st -> NT_SUCCESS st = false) ->
  (forall ulSize, RtlAccessTokenToSelfRelativeAccessToken T None ulSize = Some (STATUS_SUCCESS, None, relative_size ts)) /\
  (forall ulSize, ulSize < relative_size ts ->
    RtlAccessTokenToSelfRelativeAccessToken T (Some m) ulSize = Some (STATUS_BUFFER_TOO_SMALL, Some m, relative_size ts)) /\
  (relative_size ts <= zlen m ->
    exists m' tok,
      RtlAccessTokenToSelfRelativeAccessToken T (Some m) (zlen m) = Some (STATUS_SUCCESS, Some m', relative_size ts) /\
      RtlSelfRelativeAccessTokenToAccessToken malloc lock m' (relative_size ts) =
        Some (create_status (without_dacl ts) malloc lock, tok) /\
      (create_status (without_dacl ts) malloc lock <> STATUS_SUCCESS -> tok = None) /\
      (create_status (without_dacl ts) malloc lock = STATUS_SUCCESS ->
        exists b, tok = Some b /\ tb_ReferenceCount b = 1 /\ live_token b (without_dacl ts))).
Proof.
  intros HT Hwords Hs Hm Hlg Hlp Hmg Hmp Hlock. unfold RtlAccessTokenToSelfRelativeAccessToken.
  rewrite (RtlAccessTokenRelativeSize_at T ts HT Hs). bsimpl. split; [done|]. split.
  { intros n Hn. by destruct (Z.ltb_spec n (relative_size ts)); [|lia]. }
  intros Hz. destruct (Z.ltb_spec (zlen m) (relative_size ts)); [lia|].
  destruct (put_token_written T ts m (zlen m) HT eq_refl Hz Hm) as (m' & Hd & B & -> & Hw). bsimpl. rewrite Z.eqb_refl. cbn [negb].
  pose proof (relative_of_written T ts m' _ Hd B HT Hwords Hz Hm Hw) as Hrel.
  destruct (read_relative malloc lock m' _ ts Hrel Hs Hlg Hlp Hmg Hmp Hlock) as (tok & Htok). by exists m', tok.
Qed.
End Relative.

(** * Offsets beyond the buffer *)

(** [CheckOffset] subtracts in 32 bits: it accepts the ranges within the
    buffer, and also every offset beyond the end of the buffer whose distance
    from the end, taken modulo 2^32, leaves room. *)
Lemma CheckOffset_wraps off n max :
  0 <= off < 2 ^ 32 -> 0 <= n < 2 ^ 32 -> 0 <= max < 2 ^ 32 ->
  CheckOffset off n max = STATUS_SUCCESS <-> off + n <= max \/ (max < off /\ n <= 2 ^ 32 + max - off).
Proof.
  intros Ho Hn Hm. unfold CheckOffset, u32. destruct (Z.leb_spec off max).
  - rewrite Z.mod_small by lia. destruct (Z.ltb_spec (max - off) n); split; try done; lia.
  - rewrite <- (Z.mod_add (max - off) 1), Z.mod_small by lia.
    destruct (Z.ltb_spec (max - off + 1 * 2 ^ 32) n); split; try done; lia.
Qed.

(** * Concrete inputs *)

#[local] Existing Instance demo_host.
#[local] Existing Instance demo_layout.

(** A header whose user SID is at the offset 100. *)
Definition escaping_header : mem := zeros 4 ++ encode LittleEndian 4 100 ++ zeros 44.

(** A header of 52 bytes that puts the user SID at the offset 100 passes the
    check of the offset, and the reader goes on to read beyond the buffer. *)
Theorem relative_read_escapes :
  zlen escaping_header = sizeof_ACCESS_TOKEN_SELF_RELATIVE /\
  CheckOffset 100 SID_MIN_SIZE sizeof_ACCESS_TOKEN_SELF_RELATIVE = STATUS_SUCCESS /\
  RtlSelfRelativeAccessTokenToAccessToken (fun _ => true) None escaping_header sizeof_ACCESS_TOKEN_SELF_RELATIVE = None.
Proof. split; [reflexivity|]. split; vm_compute; reflexivity. Qed.

Lemma token_relative_roundtrip_witness :
  exists m b, RtlAccessTokenToSelfRelativeAccessToken (token_of demo_block) (Some (zeros 512)) 512 = Some (STATUS_SUCCESS, Some m, 256) /\
    RtlSelfRelativeAccessTokenToAccessToken (fun _ => true) None m 256 = Some (STATUS_SUCCESS, Some b) /\
    live_token b (without_dacl demo_ts).
Proof.
  destruct (token_relative_roundtrip (fun _ => true) None (token_of demo_block) demo_ts (zeros 512) demo_block_repr) as (_ & _ & Hw);
    [|done..|].
  { repeat (split; [vm_compute; split; congruence|]). repeat constructor; vm_compute; congruence. }
  destruct Hw as (m & tok & E & Er & _ & Hok); [done|].
  assert (Hst : create_status (without_dacl demo_ts) (fun _ => true) None = STATUS_SUCCESS) by reflexivity.
  assert (Hsz : relative_size demo_ts = 256) by reflexivity. assert (Hz : zlen (zeros 512) = 512) by reflexivity.
  rewrite Hsz, Hz in E. rewrite Hsz, Hst in Er. destruct (Hok Hst) as (b & -> & _ & Hb). exists m, b.
  split; [exact E|]. split; [exact Er|exact Hb].
Defined.
