(* ===== verification/Sd.v ===== *)
(** Security descriptors in absolute form: [lwbase/src/security-sd.c] without
    the self-relative form (which is in [SdRelative]).

    An absolute security descriptor is a structure with pointers to its SIDs and
    ACLs. [RtlpGetSidSecurityDescriptor] and its siblings take the address of a
    field; here they take the value of the field, and the setters a function that
    stores it. *)

From S2P Require Import Prelude SecurityTypes Sid Acl Token TokenState.

(** * Fields *)

Definition set_Control (sd : SECURITY_DESCRIPTOR_ABSOLUTE) (v : Z) : SECURITY_DESCRIPTOR_ABSOLUTE :=
  {| sd_Revision := sd_Revision sd; sd_Sbz1 := sd_Sbz1 sd; sd_Control := v; sd_Owner := sd_Owner sd;
     sd_Group := sd_Group sd; sd_Sacl := sd_Sacl sd; sd_Dacl := sd_Dacl sd |}.
Definition set_Owner (sd : SECURITY_DESCRIPTOR_ABSOLUTE) (p : ptr) : SECURITY_DESCRIPTOR_ABSOLUTE :=
  {| sd_Revision := sd_Revision sd; sd_Sbz1 := sd_Sbz1 sd; sd_Control := sd_Control sd; sd_Owner := p;
     sd_Group := sd_Group sd; sd_Sacl := sd_Sacl sd; sd_Dacl := sd_Dacl sd |}.
Definition set_Group (sd : SECURITY_DESCRIPTOR_ABSOLUTE) (p : ptr) : SECURITY_DESCRIPTOR_ABSOLUTE :=
  {| sd_Revision := sd_Revision sd; sd_Sbz1 := sd_Sbz1 sd; sd_Control := sd_Control sd; sd_Owner := sd_Owner sd;
     sd_Group := p; sd_Sacl := sd_Sacl sd; sd_Dacl := sd_Dacl sd |}.
Definition set_Sacl (sd : SECURITY_DESCRIPTOR_ABSOLUTE) (p : ptr) : SECURITY_DESCRIPTOR_ABSOLUTE :=
  {| sd_Revision := sd_Revision sd; sd_Sbz1 := sd_Sbz1 sd; sd_Control := sd_Control sd; sd_Owner := sd_Owner sd;
     sd_Group := sd_Group sd; sd_Sacl := p; sd_Dacl := sd_Dacl sd |}.
Definition set_Dacl (sd : SECURITY_DESCRIPTOR_ABSOLUTE) (p : ptr) : SECURITY_DESCRIPTOR_ABSOLUTE :=
  {| sd_Revision := sd_Revision sd; sd_Sbz1 := sd_Sbz1 sd; sd_Control := sd_Control sd; sd_Owner := sd_Owner sd;
     sd_Group := sd_Group sd; sd_Sacl := sd_Sacl sd; sd_Dacl := p |}.

Definition is_null (p : ptr) : bool := match p with Some _ => false | None => true end.

(** * Creation and validity *)

(** A structure of zeros. *)
Definition zero_sd : SECURITY_DESCRIPTOR_ABSOLUTE :=
  {| sd_Revision := 0; sd_Sbz1 := 0; sd_Control := 0; sd_Owner := None; sd_Group := None; sd_Sacl := None; sd_Dacl := None |}.

Definition RtlCreateSecurityDescriptorAbsolute (SecurityDescriptor : SECURITY_DESCRIPTOR_ABSOLUTE) (Revision : Z)
    : NTSTATUS * SECURITY_DESCRIPTOR_ABSOLUTE :=
  if negb (Revision =? SECURITY_DESCRIPTOR_REVISION) then (STATUS_UNKNOWN_REVISION, SecurityDescriptor)
  else (STATUS_SUCCESS,
        {| sd_Revision := u8 Revision; sd_Sbz1 := 0; sd_Control := 0; sd_Owner := None; sd_Group := None;
           sd_Sacl := None; sd_Dacl := None |}).

Definition RtlpVerifySecurityDescriptorHeader (SecurityDescriptor : SECURITY_DESCRIPTOR_ABSOLUTE) : NTSTATUS :=
  let control := sd_Control SecurityDescriptor in
  if negb (sd_Revision SecurityDescriptor =? SECURITY_DESCRIPTOR_REVISION) then STATUS_UNKNOWN_REVISION
  else if negb (sd_Sbz1 SecurityDescriptor =? 0) && negb (IsSetFlag control SE_RM_CONTROL_VALID)
  then STATUS_INVALID_SECURITY_DESCR
  else if IsSetFlag control SE_SELF_RELATIVE then STATUS_INVALID_SECURITY_DESCR
  else if is_null (sd_Owner SecurityDescriptor) && IsSetFlag control SE_OWNER_DEFAULTED
  then STATUS_INVALID_SECURITY_DESCR
  else if is_null (sd_Group SecurityDescriptor) && IsSetFlag control SE_GROUP_DEFAULTED
  then STATUS_INVALID_SECURITY_DESCR
  else if negb (IsSetFlag control SE_DACL_PRESENT)
          && (negb (is_null (sd_Dacl SecurityDescriptor)) || IsSetFlag control SE_DACL_DEFAULTED)
  then STATUS_INVALID_SECURITY_DESCR
  else if negb (IsSetFlag control SE_SACL_PRESENT)
          && (negb (is_null (sd_Sacl SecurityDescriptor)) || IsSetFlag control SE_SACL_DEFAULTED)
  then STATUS_INVALID_SECURITY_DESCR
  else STATUS_SUCCESS.

Section Operations.
Context `{Host} `{Layout}.

Definition sizeof_SECURITY_DESCRIPTOR_ABSOLUTE : Z := 5 * sizeof_pointer.

(** [p && !RtlValidSid(p)] and [p && !RtlValidAcl(p, NULL)]. *)
Definition invalid_sid (p : ptr) : option bool :=
  match p with None => Some false | Some _ => v ← RtlValidSid p; Some (negb v) end.
Definition invalid_acl (p : ptr) : option bool :=
  match p with None => Some false | Some _ => '(v, _) ← RtlValidAcl p; Some (negb v) end.

Definition RtlValidSecurityDescriptor (SecurityDescriptor : SECURITY_DESCRIPTOR_ABSOLUTE) : option bool :=
  if negb (NT_SUCCESS (RtlpVerifySecurityDescriptorHeader SecurityDescriptor)) then Some false
  else
    bad ← invalid_sid (sd_Owner SecurityDescriptor);
    if (bad : bool) then Some false
    else
      bad ← invalid_sid (sd_Group SecurityDescriptor);
      if (bad : bool) then Some false
      else
        bad ← invalid_acl (sd_Dacl SecurityDescriptor);
        if (bad : bool) then Some false
        else
          bad ← invalid_acl (sd_Sacl SecurityDescriptor);
          Some (negb bad).

(** * Sizes *)

(** [if (p) size += ...]. *)
Definition plus_sid (size : Z) (p : ptr) : option Z :=
  match p with None => Some size | Some s => n ← RtlLengthSid s; Some (u32 (size + n)) end.
Definition plus_acl (size : Z) (p : ptr) : option Z :=
  match p with None => Some size | Some a => n ← Acl_AclSize a; Some (u32 (size + n)) end.

Definition RtlLengthSecurityDescriptor (SecurityDescriptor : SECURITY_DESCRIPTOR_ABSOLUTE) : option Z :=
  size ← plus_sid sizeof_SECURITY_DESCRIPTOR_ABSOLUTE (sd_Owner SecurityDescriptor);
  size ← plus_sid size (sd_Group SecurityDescriptor);
  size ← plus_acl size (sd_Dacl SecurityDescriptor);
  plus_acl size (sd_Sacl SecurityDescriptor).

(** [if (p) { if (!valid) fail; size += ...; }]; [None] inside is the failure. *)
Definition used_sid (size : Z) (p : ptr) : option (option Z) :=
  match p with
  | None => Some (Some size)
  | Some s =>
      v ← RtlValidSid p;
      if negb v then Some None else n ← RtlLengthSid s; Some (Some (u32 (size + n)))
  end.
Definition used_acl (size : Z) (p : ptr) : option (option Z) :=
  match p with
  | None => Some (Some size)
  | Some _ => '(v, used) ← RtlValidAcl p; Some (if negb v then None else Some (u32 (size + used)))
  end.

(** A header that is not valid leaves the status a success and the size that of
    the header. *)
Definition RtlpGetSizeUsedSecurityDescriptor (SecurityDescriptor : SECURITY_DESCRIPTOR_ABSOLUTE) : option (NTSTATUS * Z) :=
  if negb (NT_SUCCESS (RtlpVerifySecurityDescriptorHeader SecurityDescriptor))
  then Some (STATUS_SUCCESS, sizeof_SECURITY_DESCRIPTOR_ABSOLUTE)
  else
    let fail := Some (STATUS_INVALID_SECURITY_DESCR, 0) in
    size ← used_sid sizeof_SECURITY_DESCRIPTOR_ABSOLUTE (sd_Owner SecurityDescriptor);
    match size with
    | None => fail
    | Some size =>
        size ← used_sid size (sd_Group SecurityDescriptor);
        match size with
        | None => fail
        | Some size =>
            size ← used_acl size (sd_Dacl SecurityDescriptor);
            match size with
            | None => fail
            | Some size =>
                size ← used_acl size (sd_Sacl SecurityDescriptor);
                match size with None => fail | Some size => Some (STATUS_SUCCESS, size) end
            end
        end
    end.
End Operations.

(** * The control bits *)

(** The status, and the values stored through [Control] and [Revision]. *)
Definition RtlGetSecurityDescriptorControl (SecurityDescriptor : SECURITY_DESCRIPTOR_ABSOLUTE) : NTSTATUS * Z * Z :=
  let status := RtlpVerifySecurityDescriptorHeader SecurityDescriptor in
  if negb (is_ok status) then (status, 0, 0)
  else (status, sd_Control SecurityDescriptor, sd_Revision SecurityDescriptor).

Definition RtlSetSecurityDescriptorControl (SecurityDescriptor : SECURITY_DESCRIPTOR_ABSOLUTE) (BitsToChange BitsToSet : Z)
    : NTSTATUS * SECURITY_DESCRIPTOR_ABSOLUTE :=
  let status := RtlpVerifySecurityDescriptorHeader SecurityDescriptor in
  if negb (is_ok status) then (status, SecurityDescriptor)
  else if negb (LW_IS_VALID_FLAGS BitsToChange SE_SET_SECURITY_DESCRIPTOR_CONTROL_MASK)
          || negb (Z.ldiff (Z.lor BitsToChange BitsToSet) BitsToChange =? 0)
  then (STATUS_INVALID_PARAMETER, SecurityDescriptor)
  else
    let control := SetFlag (sd_Control SecurityDescriptor) BitsToSet in
    let bitsToClear := Z.ldiff BitsToChange BitsToSet in
    (status, set_Control SecurityDescriptor (ClearFlag control bitsToClear)).

(** * SIDs *)

(** The status, and the values stored through [Sid] and [IsSidDefaulted]. *)
Definition RtlpGetSidSecurityDescriptor (SecurityDescriptor : SECURITY_DESCRIPTOR_ABSOLUTE) (Sid : ptr) (DefaultedBit : Z)
    : NTSTATUS * ptr * bool :=
  let status := RtlpVerifySecurityDescriptorHeader SecurityDescriptor in
  if negb (is_ok status) then (status, None, false)
  else (status, Sid, IsSetFlag (sd_Control SecurityDescriptor) DefaultedBit).

Definition RtlGetOwnerSecurityDescriptor (SecurityDescriptor : SECURITY_DESCRIPTOR_ABSOLUTE) : NTSTATUS * ptr * bool :=
  RtlpGetSidSecurityDescriptor SecurityDescriptor (sd_Owner SecurityDescriptor) SE_OWNER_DEFAULTED.
Definition RtlGetGroupSecurityDescriptor (SecurityDescriptor : SECURITY_DESCRIPTOR_ABSOLUTE) : NTSTATUS * ptr * bool :=
  RtlpGetSidSecurityDescriptor SecurityDescriptor (sd_Group SecurityDescriptor) SE_GROUP_DEFAULTED.

(** [if (on) SetFlag(v, f); else ClearFlag(v, f);]. *)
Definition put_flag (on : bool) (v f : Z) : Z := if on then SetFlag v f else ClearFlag v f.

Definition RtlpSetSidSecurityDescriptor (SecurityDescriptor : SECURITY_DESCRIPTOR_ABSOLUTE)
    (set : SECURITY_DESCRIPTOR_ABSOLUTE -> ptr -> SECURITY_DESCRIPTOR_ABSOLUTE) (DefaultedBit : Z)
    (Sid : ptr) (IsSidDefaulted : bool) : NTSTATUS * SECURITY_DESCRIPTOR_ABSOLUTE :=
  if is_null Sid && IsSidDefaulted then (STATUS_INVALID_PARAMETER, SecurityDescriptor)
  else
    let status := RtlpVerifySecurityDescriptorHeader SecurityDescriptor in
    if negb (is_ok status) then (status, SecurityDescriptor)
    else
      let sd := set SecurityDescriptor Sid in
      (status, set_Control sd (put_flag IsSidDefaulted (sd_Control sd) DefaultedBit)).

Definition RtlSetOwnerSecurityDescriptor (SecurityDescriptor : SECURITY_DESCRIPTOR_ABSOLUTE) (Owner : ptr) (IsOwnerDefaulted : bool) :=
  RtlpSetSidSecurityDescriptor SecurityDescriptor set_Owner SE_OWNER_DEFAULTED Owner IsOwnerDefaulted.
Definition RtlSetGroupSecurityDescriptor (SecurityDescriptor : SECURITY_DESCRIPTOR_ABSOLUTE) (Group : ptr) (IsGroupDefaulted : bool) :=
  RtlpSetSidSecurityDescriptor SecurityDescriptor set_Group SE_GROUP_DEFAULTED Group IsGroupDefaulted.

(** * ACLs *)

(** The status, and the values stored through [IsAclPresent], [Acl] and
    [IsAclDefaulted]. *)
Definition RtlpGetAclSecurityDescriptor (SecurityDescriptor : SECURITY_DESCRIPTOR_ABSOLUTE) (PresentBit : Z) (Acl : ptr) (DefaultedBit : Z)
    : NTSTATUS * bool * ptr * bool :=
  let status := RtlpVerifySecurityDescriptorHeader SecurityDescriptor in
  if negb (is_ok status) then (status, false, None, false)
  else (status, IsSetFlag (sd_Control SecurityDescriptor) PresentBit, Acl,
        IsSetFlag (sd_Control SecurityDescriptor) DefaultedBit).

Definition RtlGetSaclSecurityDescriptor (SecurityDescriptor : SECURITY_DESCRIPTOR_ABSOLUTE) : NTSTATUS * bool * ptr * bool :=
  RtlpGetAclSecurityDescriptor SecurityDescriptor SE_SACL_PRESENT (sd_Sacl SecurityDescriptor) SE_SACL_DEFAULTED.
Definition RtlGetDaclSecurityDescriptor (SecurityDescriptor : SECURITY_DESCRIPTOR_ABSOLUTE) : NTSTATUS * bool * ptr * bool :=
  RtlpGetAclSecurityDescriptor SecurityDescriptor SE_DACL_PRESENT (sd_Dacl SecurityDescriptor) SE_DACL_DEFAULTED.

Definition RtlpSetAclSecurityDescriptor (SecurityDescriptor : SECURITY_DESCRIPTOR_ABSOLUTE) (PresentBit : Z)
    (set : SECURITY_DESCRIPTOR_ABSOLUTE -> ptr -> SECURITY_DESCRIPTOR_ABSOLUTE) (DefaultedBit : Z)
    (IsAclPresent : bool) (Acl : ptr) (IsAclDefaulted : bool) : NTSTATUS * SECURITY_DESCRIPTOR_ABSOLUTE :=
  let status := RtlpVerifySecurityDescriptorHeader SecurityDescriptor in
  if negb (is_ok status) then (status, SecurityDescriptor)
  else
    let sd := set_Control SecurityDescriptor (put_flag IsAclPresent (sd_Control SecurityDescriptor) PresentBit) in
    let acl := if IsAclPresent then Acl else None in
    let isAclDefaulted := if IsAclPresent then IsAclDefaulted else false in
    let sd := set sd acl in
    (status, set_Control sd (put_flag isAclDefaulted (sd_Control sd) DefaultedBit)).

Definition RtlSetSaclSecurityDescriptor (SecurityDescriptor : SECURITY_DESCRIPTOR_ABSOLUTE) (IsSaclPresent : bool) (Sacl : ptr)
    (IsSaclDefaulted : bool) :=
  RtlpSetAclSecurityDescriptor SecurityDescriptor SE_SACL_PRESENT set_Sacl SE_SACL_DEFAULTED IsSaclPresent Sacl IsSaclDefaulted.
Definition RtlSetDaclSecurityDescriptor (SecurityDescriptor : SECURITY_DESCRIPTOR_ABSOLUTE) (IsDaclPresent : bool) (Dacl : ptr)
    (IsDaclDefaulted : bool) :=
  RtlpSetAclSecurityDescriptor SecurityDescriptor SE_DACL_PRESENT set_Dacl SE_DACL_DEFAULTED IsDaclPresent Dacl IsDaclDefaulted.

(** [RtlpFreeAbsoluteSecurityDescriptor]: the pointers it hands to [RTL_FREE],
    after the structure itself. *)
Definition RtlpFreeAbsoluteSecurityDescriptor (pSecDesc : SECURITY_DESCRIPTOR_ABSOLUTE) : list ptr :=
  let '(_, pOwner, _) := RtlGetOwnerSecurityDescriptor pSecDesc in
  let '(_, pGroup, _) := RtlGetGroupSecurityDescriptor pSecDesc in
  let '(_, _, pDacl, _) := RtlGetDaclSecurityDescriptor pSecDesc in
  let '(_, _, pSacl, _) := RtlGetSaclSecurityDescriptor pSecDesc in
  [pOwner; pGroup; pDacl; pSacl].
