(* ===== verification/SdOps.v ===== *)
(** Correctness of the operations on absolute security descriptors of [Sd]: the
    header invariant, the operations as updates of an abstract view, and the
    validity test. *)

From S2P Require Import Prelude SecurityTypes Sid Acl AclRepr AclOps Token TokenState Sd.

(** * Single bits *)

Lemma put_flag_bit on v k i : 0 <= k -> 0 <= i -> Z.testbit (put_flag on v (2 ^ k)) i = if k =? i then on else Z.testbit v i.
Proof.
  intros Hk Hi. destruct on; cbn [put_flag]; unfold SetFlag, ClearFlag; autorewrite with bits; rewrite Z.pow2_bits_eqb by done;
    destruct (k =? i); rewrite ?orb_true_r, ?orb_false_r, ?andb_true_r, ?andb_false_r; done.
Qed.

Lemma IsSetFlag_put on v j k : 0 <= j -> 0 <= k -> IsSetFlag (put_flag on v (2 ^ k)) (2 ^ j) = if k =? j then on else IsSetFlag v (2 ^ j).
Proof. intros. rewrite !IsSetFlag_bit by done. by apply put_flag_bit. Qed.

Lemma ldiff_put on v k m : Z.land (2 ^ k) m = 2 ^ k -> Z.ldiff (put_flag on v (2 ^ k)) m = Z.ldiff v m.
Proof. intros E. destruct on; cbn [put_flag]; unfold SetFlag, ClearFlag; zbits. Qed.

(** The control bits as powers of two. *)
Lemma control_bits :
  SE_OWNER_DEFAULTED = 2 ^ 0 /\ SE_GROUP_DEFAULTED = 2 ^ 1 /\ SE_DACL_PRESENT = 2 ^ 2 /\ SE_DACL_DEFAULTED = 2 ^ 3 /\
  SE_SACL_PRESENT = 2 ^ 4 /\ SE_SACL_DEFAULTED = 2 ^ 5 /\ SE_RM_CONTROL_VALID = 2 ^ 14 /\ SE_SELF_RELATIVE = 2 ^ 15.
Proof. done. Qed.

Ltac to_bits :=
  destruct control_bits as (E0 & E1 & E2 & E3 & E4 & E5 & E6 & E7); rewrite ?E0, ?E1, ?E2, ?E3, ?E4, ?E5, ?E6, ?E7;
  clear E0 E1 E2 E3 E4 E5 E6 E7.

(** * The header invariant *)

Record header_wf (sd : SECURITY_DESCRIPTOR_ABSOLUTE) : Prop := {
  hw_revision : sd_Revision sd = 1;
  hw_sbz1 : sd_Sbz1 sd = 0 \/ IsSetFlag (sd_Control sd) SE_RM_CONTROL_VALID = true;
  hw_relative : IsSetFlag (sd_Control sd) SE_SELF_RELATIVE = false;
  hw_owner : IsSetFlag (sd_Control sd) SE_OWNER_DEFAULTED = true -> sd_Owner sd <> None;
  hw_group : IsSetFlag (sd_Control sd) SE_GROUP_DEFAULTED = true -> sd_Group sd <> None;
  hw_dacl : IsSetFlag (sd_Control sd) SE_DACL_PRESENT = false -> sd_Dacl sd = None /\ IsSetFlag (sd_Control sd) SE_DACL_DEFAULTED = false;
  hw_sacl : IsSetFlag (sd_Control sd) SE_SACL_PRESENT = false -> sd_Sacl sd = None /\ IsSetFlag (sd_Control sd) SE_SACL_DEFAULTED = false
}.

Lemma verify_header_iff sd : RtlpVerifySecurityDescriptorHeader sd = STATUS_SUCCESS <-> header_wf sd.
Proof.
  unfold RtlpVerifySecurityDescriptorHeader, SECURITY_DESCRIPTOR_REVISION. split.
  - intros E. repeat match type of E with (if ?b then _ else _) = _ => destruct b eqn:?; [done|] end.
    bool_hyps. split; [done|..].
    + destruct (Z.eqb_spec (sd_Sbz1 sd) 0); [by left|right]. by destruct (IsSetFlag (sd_Control sd) SE_RM_CONTROL_VALID).
    + done.
    + intros Ho En. by rewrite Ho, En in *.
    + intros Ho En. by rewrite Ho, En in *.
    + intros Ho. rewrite Ho in *. destruct (sd_Dacl sd); [done|]. by destruct (IsSetFlag _ SE_DACL_DEFAULTED).
    + intros Ho. rewrite Ho in *. destruct (sd_Sacl sd); [done|]. by destruct (IsSetFlag _ SE_SACL_DEFAULTED).
  - intros [-> Hs -> Ho Hg Hd Ha]. cbn [negb Z.eqb].
    replace (_ && negb (IsSetFlag _ SE_RM_CONTROL_VALID)) with false by (destruct Hs as [-> | ->]; [done|by rewrite andb_false_r]).
    replace (is_null (sd_Owner sd) && _) with false
      by (destruct (IsSetFlag _ SE_OWNER_DEFAULTED); [destruct (sd_Owner sd); [done|by destruct Ho]|by rewrite andb_false_r]).
    replace (is_null (sd_Group sd) && _) with false
      by (destruct (IsSetFlag _ SE_GROUP_DEFAULTED); [destruct (sd_Group sd); [done|by destruct Hg]|by rewrite andb_false_r]).
    destruct (IsSetFlag _ SE_DACL_PRESENT); [|destruct Hd as [-> ->]; [done|]];
      (destruct (IsSetFlag _ SE_SACL_PRESENT); [done|destruct Ha as [-> ->]; done]).
Qed.

(** Whatever is wrong with a header is an error. *)
Lemma verify_header_error sd : ~ header_wf sd ->
  is_ok (RtlpVerifySecurityDescriptorHeader sd) = false /\ NT_SUCCESS (RtlpVerifySecurityDescriptorHeader sd) = false.
Proof.
  intros Hn. rewrite <- verify_header_iff in Hn. revert Hn. unfold RtlpVerifySecurityDescriptorHeader.
  repeat match goal with |- context [if ?b then _ else _] => destruct b; [by split|] end. done.
Qed.

#[global] Instance header_wf_dec sd : Decision (header_wf sd).
Proof.
  destruct (decide (RtlpVerifySecurityDescriptorHeader sd = STATUS_SUCCESS)) as [E|E]; [left|right]; by rewrite <- verify_header_iff.
Defined.

(** * The abstract view *)

(** A SID with its defaulted bit, an ACL with its defaulted bit when present,
    the control bits that do not belong to one of them, and the byte [Sbz1]. The
    types of SIDs and ACLs are parameters: memory objects for the view of a
    descriptor, abstract SIDs and ACLs for its meaning. *)
Record sd_view (S A : Type) := mk_view {
  v_owner : option S * bool;
  v_group : option S * bool;
  v_dacl : option (option A * bool);
  v_sacl : option (option A * bool);
  v_bits : Z;
  v_sbz1 : Z
}.
Arguments mk_view {_ _} _ _ _ _ _ _.
Arguments v_owner {_ _} _.
Arguments v_group {_ _} _.
Arguments v_dacl {_ _} _.
Arguments v_sacl {_ _} _.
Arguments v_bits {_ _} _.
Arguments v_sbz1 {_ _} _.

Definition part_bits : Z := 0x3F.

Definition view (sd : SECURITY_DESCRIPTOR_ABSOLUTE) : sd_view mem mem :=
  let c := sd_Control sd in
  {| v_owner := (sd_Owner sd, IsSetFlag c SE_OWNER_DEFAULTED);
     v_group := (sd_Group sd, IsSetFlag c SE_GROUP_DEFAULTED);
     v_dacl := if IsSetFlag c SE_DACL_PRESENT then Some (sd_Dacl sd, IsSetFlag c SE_DACL_DEFAULTED) else None;
     v_sacl := if IsSetFlag c SE_SACL_PRESENT then Some (sd_Sacl sd, IsSetFlag c SE_SACL_DEFAULTED) else None;
     v_bits := Z.ldiff c part_bits;
     v_sbz1 := sd_Sbz1 sd |}.

(** The operations that change a descriptor, in the code and on the view. *)
Inductive sd_op :=
  | SetOwner (p : ptr) (defaulted : bool)
  | SetGroup (p : ptr) (defaulted : bool)
  | SetDacl (present : bool) (p : ptr) (defaulted : bool)
  | SetSacl (present : bool) (p : ptr) (defaulted : bool)
  | SetControl (change set : Z).

Definition run_op (op : sd_op) (sd : SECURITY_DESCRIPTOR_ABSOLUTE) : NTSTATUS * SECURITY_DESCRIPTOR_ABSOLUTE :=
  match op with
  | SetOwner p d => RtlSetOwnerSecurityDescriptor sd p d
  | SetGroup p d => RtlSetGroupSecurityDescriptor sd p d
  | SetDacl b p d => RtlSetDaclSecurityDescriptor sd b p d
  | SetSacl b p d => RtlSetSaclSecurityDescriptor sd b p d
  | SetControl c s => RtlSetSecurityDescriptorControl sd c s
  end.

Definition spec_op (op : sd_op) (v : sd_view mem mem) : NTSTATUS * sd_view mem mem :=
  match op with
  | SetOwner p d =>
      if is_null p && d then (STATUS_INVALID_PARAMETER, v)
      else (STATUS_SUCCESS, mk_view (p, d) (v_group v) (v_dacl v) (v_sacl v) (v_bits v) (v_sbz1 v))
  | SetGroup p d =>
      if is_null p && d then (STATUS_INVALID_PARAMETER, v)
      else (STATUS_SUCCESS, mk_view (v_owner v) (p, d) (v_dacl v) (v_sacl v) (v_bits v) (v_sbz1 v))
  | SetDacl b p d => (STATUS_SUCCESS, mk_view (v_owner v) (v_group v) (if b then Some (p, d) else None) (v_sacl v) (v_bits v) (v_sbz1 v))
  | SetSacl b p d => (STATUS_SUCCESS, mk_view (v_owner v) (v_group v) (v_dacl v) (if b then Some (p, d) else None) (v_bits v) (v_sbz1 v))
  | SetControl c s =>
      if (Z.ldiff c SE_SET_SECURITY_DESCRIPTOR_CONTROL_MASK =? 0) && (Z.ldiff s c =? 0)
      then (STATUS_SUCCESS, mk_view (v_owner v) (v_group v) (v_dacl v) (v_sacl v) (Z.lor (Z.ldiff (v_bits v) c) s) (v_sbz1 v))
      else (STATUS_INVALID_PARAMETER, v)
  end.

(** A sequence of operations, with the status of each. *)
Fixpoint run_ops (ops : list sd_op) (sd : SECURITY_DESCRIPTOR_ABSOLUTE) : list NTSTATUS * SECURITY_DESCRIPTOR_ABSOLUTE :=
  match ops with
  | [] => ([], sd)
  | op :: ops' => let '(st, sd) := run_op op sd in let '(sts, sd) := run_ops ops' sd in (st :: sts, sd)
  end.

Fixpoint spec_ops (ops : list sd_op) (v : sd_view mem mem) : list NTSTATUS * sd_view mem mem :=
  match ops with
  | [] => ([], v)
  | op :: ops' => let '(st, v) := spec_op op v in let '(sts, v) := spec_ops ops' v in (st :: sts, v)
  end.

(** ** Each operation *)

(** The bits a setter does not own. *)
Ltac view_bits :=
  rewrite ?IsSetFlag_put by lia; cbn [Z.eqb Pos.eqb];
  rewrite ?ldiff_put by done.

Ltac solve_header Hw :=
  destruct Hw as [Hr Hs Hrel Ho Hg Hd Ha]; split; cbn; revert Hs Hrel Ho Hg Hd Ha; to_bits; intros Hs Hrel Ho Hg Hd Ha; view_bits; try done.
Ltac solve_view := unfold view; cbn; to_bits; f_equal; f_equal; view_bits; done.

Section Setters.
Context (sd : SECURITY_DESCRIPTOR_ABSOLUTE) (Hw : header_wf sd).

(** An operation keeps the invariant and does to the view what its
    specification says. *)
Definition refines (op : sd_op) : Prop :=
  header_wf (snd (run_op op sd)) /\ (fst (run_op op sd), view (snd (run_op op sd))) = spec_op op (view sd).

Lemma set_owner_refines p d : refines (SetOwner p d).
Proof using Hw.
  unfold refines. cbn [run_op spec_op]. unfold RtlSetOwnerSecurityDescriptor, RtlpSetSidSecurityDescriptor.
  destruct (is_null p && d) eqn:Hp; [done|]. rewrite (proj2 (verify_header_iff sd) Hw), is_ok_success. cbn [negb fst snd]. split.
  - solve_header Hw. intros ->. by destruct p.
  - solve_view.
Qed.

Lemma set_group_refines p d : refines (SetGroup p d).
Proof using Hw.
  unfold refines. cbn [run_op spec_op]. unfold RtlSetGroupSecurityDescriptor, RtlpSetSidSecurityDescriptor.
  destruct (is_null p && d) eqn:Hp; [done|]. rewrite (proj2 (verify_header_iff sd) Hw), is_ok_success. cbn [negb fst snd]. split.
  - solve_header Hw. intros ->. by destruct p.
  - solve_view.
Qed.

Lemma set_dacl_refines b p d : refines (SetDacl b p d).
Proof using Hw.
  unfold refines. cbn [run_op spec_op]. unfold RtlSetDaclSecurityDescriptor, RtlpSetAclSecurityDescriptor.
  rewrite (proj2 (verify_header_iff sd) Hw), is_ok_success. cbn [negb fst snd]. split.
  - solve_header Hw. intros ->. done.
  - unfold view; cbn; to_bits; f_equal; f_equal; view_bits; by destruct b.
Qed.

Lemma set_sacl_refines b p d : refines (SetSacl b p d).
Proof using Hw.
  unfold refines. cbn [run_op spec_op]. unfold RtlSetSaclSecurityDescriptor, RtlpSetAclSecurityDescriptor.
  rewrite (proj2 (verify_header_iff sd) Hw), is_ok_success. cbn [negb fst snd]. split.
  - solve_header Hw. intros ->. done.
  - unfold view; cbn; to_bits; f_equal; f_equal; view_bits; by destruct b.
Qed.

(** A bit outside what may be changed is left alone. *)
Lemma control_frame c s v k :
  Z.ldiff c SE_SET_SECURITY_DESCRIPTOR_CONTROL_MASK = 0 -> Z.ldiff s c = 0 ->
  0 <= k -> Z.testbit SE_SET_SECURITY_DESCRIPTOR_CONTROL_MASK k = false ->
  IsSetFlag (ClearFlag (SetFlag v s) (Z.ldiff c s)) (2 ^ k) = IsSetFlag v (2 ^ k).
Proof.
  intros Hc Hs Hk Hm. rewrite !IsSetFlag_bit by done. unfold ClearFlag, SetFlag. rewrite !Z.ldiff_spec, Z.lor_spec.
  apply (f_equal (fun z => Z.testbit z k)) in Hc, Hs. rewrite Z.ldiff_spec, Z.bits_0 in Hc, Hs. rewrite Hm, andb_true_r in Hc.
  rewrite Hc in *. rewrite andb_true_r in Hs. rewrite Hs. by rewrite orb_false_r, andb_true_r.
Qed.

Lemma set_control_refines c s : refines (SetControl c s).
Proof using Hw.
  unfold refines. cbn [run_op spec_op]. unfold RtlSetSecurityDescriptorControl, LW_IS_VALID_FLAGS.
  rewrite (proj2 (verify_header_iff sd) Hw), is_ok_success. cbn [negb].
  replace (Z.ldiff (Z.lor c s) c) with (Z.ldiff s c) by zbits.
  destruct (Z.eqb_spec (Z.ldiff c SE_SET_SECURITY_DESCRIPTOR_CONTROL_MASK) 0) as [Hc|]; [|done].
  destruct (Z.eqb_spec (Z.ldiff s c) 0) as [Hs'|]; [|done]. cbn [andb orb negb fst snd].
  assert (Hf : forall k, 0 <= k -> Z.testbit SE_SET_SECURITY_DESCRIPTOR_CONTROL_MASK k = false ->
    IsSetFlag (ClearFlag (SetFlag (sd_Control sd) s) (Z.ldiff c s)) (2 ^ k) = IsSetFlag (sd_Control sd) (2 ^ k))
    by (intros; by apply control_frame).
  split.
  - destruct Hw as [Hr Hs Hrel Ho Hg Hd Ha]; split; cbn; revert Hs Hrel Ho Hg Hd Ha; to_bits; intros Hs Hrel Ho Hg Hd Ha; rewrite ?Hf by done; done.
  - unfold view; cbn; to_bits. f_equal. rewrite !Hf by done. f_equal. unfold ClearFlag, SetFlag.
    assert (E : Z.land part_bits SE_SET_SECURITY_DESCRIPTOR_CONTROL_MASK = 0) by done. clear Hf.
    revert Hc E. generalize part_bits, SE_SET_SECURITY_DESCRIPTOR_CONTROL_MASK. intros m m' Hc E. zbits.
Qed.

Lemma run_op_refines op : refines op.
Proof using Hw.
  destruct op; [apply set_owner_refines|apply set_group_refines|apply set_dacl_refines|apply set_sacl_refines|apply set_control_refines].
Qed.
End Setters.

(** On a header that is not valid every operation fails and changes nothing. *)
Lemma run_op_invalid op sd : ~ header_wf sd -> is_ok (fst (run_op op sd)) = false /\ snd (run_op op sd) = sd.
Proof.
  intros Hn. destruct (verify_header_error sd Hn) as [E _].
  destruct op; cbn [run_op];
    unfold RtlSetOwnerSecurityDescriptor, RtlSetGroupSecurityDescriptor, RtlpSetSidSecurityDescriptor, RtlSetDaclSecurityDescriptor,
      RtlSetSaclSecurityDescriptor, RtlpSetAclSecurityDescriptor, RtlSetSecurityDescriptorControl;
    try (destruct (is_null p && defaulted); [done|]); rewrite E; done.
Qed.

Lemma run_ops_refines ops sd : header_wf sd ->
  header_wf (snd (run_ops ops sd)) /\ (fst (run_ops ops sd), view (snd (run_ops ops sd))) = spec_ops ops (view sd).
Proof.
  revert sd. induction ops as [|op ops IH]; intros sd Hw; [done|]. cbn [run_ops spec_ops].
  destruct (run_op_refines sd Hw op) as [Hw' <-]. destruct (run_op op sd) as [st sd']. cbn [fst snd] in *.
  destruct (IH sd' Hw') as [Hw'' <-]. destruct (run_ops ops sd'). done.
Qed.

(** ** Reading *)

Definition acl_answer (o : option (ptr * bool)) : NTSTATUS * bool * ptr * bool :=
  match o with Some (p, d) => (STATUS_SUCCESS, true, p, d) | None => (STATUS_SUCCESS, false, None, false) end.

Lemma getters_view sd : header_wf sd ->
  RtlGetOwnerSecurityDescriptor sd = (STATUS_SUCCESS, fst (v_owner (view sd)), snd (v_owner (view sd))) /\
  RtlGetGroupSecurityDescriptor sd = (STATUS_SUCCESS, fst (v_group (view sd)), snd (v_group (view sd))) /\
  RtlGetDaclSecurityDescriptor sd = acl_answer (v_dacl (view sd)) /\
  RtlGetSaclSecurityDescriptor sd = acl_answer (v_sacl (view sd)) /\
  RtlGetSecurityDescriptorControl sd = (STATUS_SUCCESS, sd_Control sd, 1).
Proof.
  intros Hw. unfold RtlGetOwnerSecurityDescriptor, RtlGetGroupSecurityDescriptor, RtlpGetSidSecurityDescriptor, RtlGetDaclSecurityDescriptor,
    RtlGetSaclSecurityDescriptor, RtlpGetAclSecurityDescriptor, RtlGetSecurityDescriptorControl.
  rewrite (proj2 (verify_header_iff sd) Hw), is_ok_success. cbn [negb view v_owner v_group v_dacl v_sacl fst snd]. do 2 (split; [done|]).
  destruct Hw as [-> _ _ _ _ Hd Ha]. split; [|split; [|done]].
  - destruct (IsSetFlag _ SE_DACL_PRESENT); [done|]. by destruct Hd as [-> ->].
  - destruct (IsSetFlag _ SE_SACL_PRESENT); [done|]. by destruct Ha as [-> ->].
Qed.

Lemma getters_invalid sd : ~ header_wf sd ->
  exists st, is_ok st = false /\ RtlGetOwnerSecurityDescriptor sd = (st, None, false) /\ RtlGetGroupSecurityDescriptor sd = (st, None, false) /\
    RtlGetDaclSecurityDescriptor sd = (st, false, None, false) /\ RtlGetSaclSecurityDescriptor sd = (st, false, None, false) /\
    RtlGetSecurityDescriptorControl sd = (st, 0, 0).
Proof.
  intros Hn. destruct (verify_header_error sd Hn) as [E _]. exists (RtlpVerifySecurityDescriptorHeader sd).
  unfold RtlGetOwnerSecurityDescriptor, RtlGetGroupSecurityDescriptor, RtlpGetSidSecurityDescriptor, RtlGetDaclSecurityDescriptor,
    RtlGetSaclSecurityDescriptor, RtlpGetAclSecurityDescriptor, RtlGetSecurityDescriptorControl. by rewrite E.
Qed.

(** * Properties *)

(** The descriptor [RtlCreateSecurityDescriptorAbsolute] makes. *)
Definition empty_view : sd_view mem mem := mk_view (None, false) (None, false) None None 0 0.

(** Whatever sequence of setters is applied to a descriptor that
    [RtlCreateSecurityDescriptorAbsolute] made, the header stays valid, every
    setter has the status and the effect of its specification on the abstract
    view (a part changes, the other parts and control bits do not; a rejected
    call changes nothing), the getters answer from that view, and freeing the
    descriptor frees exactly its parts. *)
Theorem sd_operations_refine junk ops :
  exists sd0, RtlCreateSecurityDescriptorAbsolute junk SECURITY_DESCRIPTOR_REVISION = (STATUS_SUCCESS, sd0) /\
  let '(sts, sd) := run_ops ops sd0 in
  let '(sts', v) := spec_ops ops empty_view in
  RtlpVerifySecurityDescriptorHeader sd = STATUS_SUCCESS /\ sts = sts' /\
  RtlGetOwnerSecurityDescriptor sd = (STATUS_SUCCESS, fst (v_owner v), snd (v_owner v)) /\
  RtlGetGroupSecurityDescriptor sd = (STATUS_SUCCESS, fst (v_group v), snd (v_group v)) /\
  RtlGetDaclSecurityDescriptor sd = acl_answer (v_dacl v) /\
  RtlGetSaclSecurityDescriptor sd = acl_answer (v_sacl v) /\
  Z.ldiff (sd_Control sd) part_bits = v_bits v /\
  RtlpFreeAbsoluteSecurityDescriptor sd = [sd_Owner sd; sd_Group sd; sd_Dacl sd; sd_Sacl sd].
Proof.
  eexists. split; [reflexivity|]. set (sd0 := Build_SECURITY_DESCRIPTOR_ABSOLUTE _ _ _ _ _ _ _).
  assert (H0 : header_wf sd0) by (by apply verify_header_iff).
  destruct (run_ops_refines ops sd0 H0) as [Hw E]. change (view sd0) with empty_view in E.
  destruct (run_ops ops sd0) as [sts sd]. destruct (spec_ops ops empty_view) as [sts' v]. cbn [fst snd] in *.
  injection E as -> <-. destruct (getters_view sd Hw) as (G1 & G2 & G3 & G4 & _).
  split; [by apply verify_header_iff|]. do 5 (split; [done|]). split; [done|].
  unfold RtlpFreeAbsoluteSecurityDescriptor. rewrite G1, G2. cbn [view v_owner v_group fst]. unfold RtlGetDaclSecurityDescriptor, RtlGetSaclSecurityDescriptor,
    RtlpGetAclSecurityDescriptor. rewrite (proj2 (verify_header_iff sd) Hw). done.
Qed.

(** A descriptor whose header is not valid is neither changed nor read. *)
Lemma sd_operations_invalid sd op : RtlpVerifySecurityDescriptorHeader sd <> STATUS_SUCCESS ->
  is_ok (fst (run_op op sd)) = false /\ snd (run_op op sd) = sd /\ RtlpFreeAbsoluteSecurityDescriptor sd = [None; None; None; None].
Proof.
  intros Hn. rewrite verify_header_iff in Hn. destruct (run_op_invalid op sd Hn) as [? ?]. do 2 (split; [done|]).
  destruct (getters_invalid sd Hn) as (st & _ & G1 & G2 & G3 & G4 & _). unfold RtlpFreeAbsoluteSecurityDescriptor. by rewrite G1, G2, G3, G4.
Qed.

(** [RtlSetSecurityDescriptorControl] sets the bits of [BitsToSet], clears
    the other bits of [BitsToChange] and leaves every other bit; it refuses bits
    that belong to a part of the descriptor, and bits to set that are not among
    the bits to change. *)
Theorem RtlSetSecurityDescriptorControl_correct sd change set :
  RtlpVerifySecurityDescriptorHeader sd = STATUS_SUCCESS ->
  let '(st, sd') := RtlSetSecurityDescriptorControl sd change set in
  if (Z.ldiff change SE_SET_SECURITY_DESCRIPTOR_CONTROL_MASK =? 0) && (Z.ldiff set change =? 0) then
    st = STATUS_SUCCESS /\
    (forall i, 0 <= i -> Z.testbit (sd_Control sd') i = if Z.testbit change i then Z.testbit set i else Z.testbit (sd_Control sd) i) /\
    set_Control sd' (sd_Control sd) = sd
  else st = STATUS_INVALID_PARAMETER /\ sd' = sd.
Proof.
  intros Hv. unfold RtlSetSecurityDescriptorControl, LW_IS_VALID_FLAGS. rewrite Hv, is_ok_success. cbn [negb].
  replace (Z.ldiff (Z.lor change set) change) with (Z.ldiff set change) by zbits.
  destruct (Z.eqb_spec (Z.ldiff change SE_SET_SECURITY_DESCRIPTOR_CONTROL_MASK) 0) as [Hc|]; [|done].
  destruct (Z.eqb_spec (Z.ldiff set change) 0) as [Hs|]; [|done]. cbn [andb orb negb]. split; [done|]. split; [|by destruct sd].
  intros i Hi. cbn [sd_Control set_Control]. unfold ClearFlag, SetFlag. apply (f_equal (fun z => Z.testbit z i)) in Hs.
  rewrite !Z.ldiff_spec, Z.lor_spec. rewrite Z.ldiff_spec, Z.bits_0 in Hs.
  destruct (Z.testbit change i), (Z.testbit set i), (Z.testbit (sd_Control sd) i); done.
Qed.

Lemma RtlSetSecurityDescriptorControl_correct_witness :
  let sd := {| sd_Revision := 1; sd_Sbz1 := 0; sd_Control := SE_DACL_PRESENT; sd_Owner := None; sd_Group := None; sd_Sacl := None; sd_Dacl := None |} in
  Z.testbit (sd_Control (snd (RtlSetSecurityDescriptorControl sd SE_DACL_PROTECTED SE_DACL_PROTECTED))) 2 = true.
Proof.
  intros sd. pose proof (RtlSetSecurityDescriptorControl_correct sd SE_DACL_PROTECTED SE_DACL_PROTECTED) as Q.
  destruct Q as (_ & Hbit & _); [reflexivity|]. apply (Hbit 2). lia.
Defined.
