(* ===== verification/SdRelative.v ===== *)
(** Self-relative security descriptors: the second half of
    [lwbase/src/security-sd.c]. A self-relative descriptor is one block of
    little-endian bytes, a header with the offsets of the SIDs and ACLs that
    follow it. *)

From S2P Require Import Prelude SecurityTypes Sid Acl AclCodec Token TokenState Sd.
From Stdlib Require Import String.

(** * The header *)

Record SECURITY_DESCRIPTOR_RELATIVE := {
  rel_Revision : Z;
  rel_Sbz1 : Z;
  rel_Control : Z;
  rel_Owner : Z;
  rel_Group : Z;
  rel_Sacl : Z;
  rel_Dacl : Z
}.

(** [status = ...; GOTO_CLEANUP_ON_STATUS(status); ...]: go on with the state
    after a success, leave with the status and the state otherwise. *)
Definition then_ok {A} (r : option (NTSTATUS * A)) (k : A -> option (NTSTATUS * A)) : option (NTSTATUS * A) :=
  '(status, a) ← r;
  if negb (is_ok status) then Some (status, a) else k a.

(** The table [rel_sd_error_codes] and the search in it. *)
Definition rel_sd_error_codes : list (SD_ERROR * string) :=
  [ (REL_SD_INVALID_SECURITY_INFORMATION_MASK,
     "Invalid security information mask; this indicates a programming issue/corrupted security descriptor."%string);
    (REL_SD_INVALID_LENGTH,
     "Invalid security descriptor length. The security descriptor does not meet the minimum size."%string);
    (REL_SD_NOT_SELF_RELATIVE,
     "Expected a relative security descriptor, but the control field does not contain the self-relative flag."%string);
    (REL_SD_MISSING_OWNER, "Requested owner information but none was returned."%string);
    (REL_SD_MISSING_GROUP, "Requested group information but none was returned."%string);
    (REL_SD_MISSING_SACL, "Missing system access control list."%string);
    (REL_SD_MISSING_DACL, "Missing discretionary access control list."%string);
    (REL_SD_INVALID_OFFSET_OWNER, "Failed to validate the owner information."%string);
    (REL_SD_INVALID_OFFSET_GROUP, "Failed to validate the group information."%string);
    (REL_SD_INVALID_OFFSET_SACL, "Failed to validate the system access control list."%string);
    (REL_SD_INVALID_OFFSET_DACL, "Failed to validate the discretionary access control list."%string);
    (REL_SD_INVALID_OFFSET_SIZE, "Invalid offset; computed size is larger than buffer."%string);
    (ABS_SD_INVALID_HEADER, "Failed to validate constructed security descriptor absolute header."%string) ].

Fixpoint find_message (table : list (SD_ERROR * string)) (error : SD_ERROR) : string :=
  match table with
  | [] => "Unknown error."%string
  | (e, msg) :: table' => if bool_decide (e = error) then msg else find_message table' error
  end.

Definition RtlValidRelativeSecurityDescriptorErrorMessage (error : SD_ERROR) : string :=
  find_message rel_sd_error_codes error.

Section Operations.
Context `{Host} `{Layout}.

(** The local [relHeader], in host order. *)
Definition load_relHeader (SecurityDescriptor : mem) : option SECURITY_DESCRIPTOR_RELATIVE :=
  r ← ld8 SecurityDescriptor 0;
  z ← ld8 SecurityDescriptor 1;
  c ← ld16 SecurityDescriptor 2;
  o ← ld32 SecurityDescriptor 4;
  g ← ld32 SecurityDescriptor 8;
  s ← ld32 SecurityDescriptor 12;
  d ← ld32 SecurityDescriptor 16;
  Some {| rel_Revision := LW_LTOH8 r; rel_Sbz1 := LW_LTOH8 z; rel_Control := LW_LTOH16 c; rel_Owner := LW_LTOH32 o;
          rel_Group := LW_LTOH32 g; rel_Sacl := LW_LTOH32 s; rel_Dacl := LW_LTOH32 d |}.

(** [Offset ? LW_PTR_ADD(SecurityDescriptor, Offset) : NULL]. *)
Definition relative_part (SecurityDescriptor : mem) (Offset : Z) : ptr :=
  if Offset =? 0 then None else Some (padd SecurityDescriptor Offset).

(** The local [absHeader]. *)
Definition make_absHeader (SecurityDescriptor : mem) (relHeader : SECURITY_DESCRIPTOR_RELATIVE) : SECURITY_DESCRIPTOR_ABSOLUTE :=
  {| sd_Revision := rel_Revision relHeader;
     sd_Sbz1 := rel_Sbz1 relHeader;
     sd_Control := ClearFlag (rel_Control relHeader) SE_SELF_RELATIVE;
     sd_Owner := relative_part SecurityDescriptor (rel_Owner relHeader);
     sd_Group := relative_part SecurityDescriptor (rel_Group relHeader);
     sd_Sacl := relative_part SecurityDescriptor (rel_Sacl relHeader);
     sd_Dacl := relative_part SecurityDescriptor (rel_Dacl relHeader) |}.

(** * Validation *)

(** The status and the new value of [SizeUsed]. *)
Definition RtlpVerifyRelativeSecurityDescriptorOffset (SecurityDescriptor : mem) (SecurityDescriptorLength SizeUsed Offset : Z)
    (IsValidBufferCallback : mem -> Z -> option (bool * Z)) : option (NTSTATUS * Z) :=
  if Offset =? 0 then Some (STATUS_SUCCESS, SizeUsed)
  else if SecurityDescriptorLength <? Offset then Some (STATUS_ASSERTION_FAILURE, SizeUsed)
  else
    '(valid, size) ← IsValidBufferCallback (padd SecurityDescriptor Offset) (u32 (SecurityDescriptorLength - Offset));
    if negb valid then Some (STATUS_INVALID_SECURITY_DESCR, SizeUsed)
    else Some (STATUS_SUCCESS, u32 (SizeUsed + size)).

(** The part of the function after the header was checked: the four offsets.
    The subcode is stored before the status is looked at. *)
Definition verify_offsets (SecurityDescriptor : mem) (SecurityDescriptorLength : Z) (relHeader : SECURITY_DESCRIPTOR_RELATIVE)
    : option (NTSTATUS * SD_ERROR) :=
  '(status, sizeUsed) ← RtlpVerifyRelativeSecurityDescriptorOffset SecurityDescriptor SecurityDescriptorLength
                          SECURITY_DESCRIPTOR_RELATIVE_MIN_SIZE (rel_Owner relHeader) RtlpIsValidLittleEndianSidBuffer;
  if negb (is_ok status) then Some (status, REL_SD_INVALID_OFFSET_OWNER)
  else
    '(status, sizeUsed) ← RtlpVerifyRelativeSecurityDescriptorOffset SecurityDescriptor SecurityDescriptorLength
                            sizeUsed (rel_Group relHeader) RtlpIsValidLittleEndianSidBuffer;
    if negb (is_ok status) then Some (status, REL_SD_INVALID_OFFSET_GROUP)
    else
      '(status, sizeUsed) ← RtlpVerifyRelativeSecurityDescriptorOffset SecurityDescriptor SecurityDescriptorLength
                              sizeUsed (rel_Sacl relHeader) RtlpIsValidLittleEndianAclBuffer;
      if negb (is_ok status) then Some (status, REL_SD_INVALID_OFFSET_SACL)
      else
        '(status, sizeUsed) ← RtlpVerifyRelativeSecurityDescriptorOffset SecurityDescriptor SecurityDescriptorLength
                                sizeUsed (rel_Dacl relHeader) RtlpIsValidLittleEndianAclBuffer;
        if negb (is_ok status) then Some (status, REL_SD_INVALID_OFFSET_DACL)
        else if SecurityDescriptorLength <? sizeUsed then Some (STATUS_ASSERTION_FAILURE, REL_SD_INVALID_OFFSET_SIZE)
        else Some (STATUS_SUCCESS, REL_SD_INVALID_OFFSET_DACL).

(** The status, and the value stored through [ErrorSubcode]. *)
Definition RtlpVerifyRelativeSecurityDescriptorWithErrorSubcode (SecurityDescriptor : mem)
    (SecurityDescriptorLength RequiredInformation : Z) : option (NTSTATUS * SD_ERROR) :=
  if negb (LW_IS_VALID_FLAGS RequiredInformation VALID_SECURITY_INFORMATION_MASK)
  then Some (STATUS_INVALID_PARAMETER, REL_SD_INVALID_SECURITY_INFORMATION_MASK)
  else if SecurityDescriptorLength <? SECURITY_DESCRIPTOR_RELATIVE_MIN_SIZE
  then Some (STATUS_INVALID_SECURITY_DESCR, REL_SD_INVALID_LENGTH)
  else
    relHeader ← load_relHeader SecurityDescriptor;
    if negb (IsSetFlag (rel_Control relHeader) SE_SELF_RELATIVE)
    then Some (STATUS_INVALID_SECURITY_DESCR, REL_SD_NOT_SELF_RELATIVE)
    else if IsSetFlag RequiredInformation OWNER_SECURITY_INFORMATION && (rel_Owner relHeader =? 0)
    then Some (STATUS_INVALID_SECURITY_DESCR, REL_SD_MISSING_OWNER)
    else if IsSetFlag RequiredInformation GROUP_SECURITY_INFORMATION && (rel_Group relHeader =? 0)
    then Some (STATUS_INVALID_SECURITY_DESCR, REL_SD_MISSING_GROUP)
    else if IsSetFlag RequiredInformation SACL_SECURITY_INFORMATION && negb (IsSetFlag (rel_Control relHeader) SE_SACL_PRESENT)
    then Some (STATUS_INVALID_SECURITY_DESCR, REL_SD_MISSING_SACL)
    else if IsSetFlag RequiredInformation DACL_SECURITY_INFORMATION && negb (IsSetFlag (rel_Control relHeader) SE_DACL_PRESENT)
    then Some (STATUS_INVALID_SECURITY_DESCR, REL_SD_MISSING_DACL)
    else
      let status := RtlpVerifySecurityDescriptorHeader (make_absHeader SecurityDescriptor relHeader) in
      if negb (is_ok status) then Some (status, ABS_SD_INVALID_HEADER)
      else verify_offsets SecurityDescriptor SecurityDescriptorLength relHeader.

Definition RtlpVerifyRelativeSecurityDescriptor (SecurityDescriptor : mem) (SecurityDescriptorLength RequiredInformation : Z)
    : option NTSTATUS :=
  '(status, _) ← RtlpVerifyRelativeSecurityDescriptorWithErrorSubcode SecurityDescriptor SecurityDescriptorLength RequiredInformation;
  Some status.

Definition RtlValidRelativeSecurityDescriptor (SecurityDescriptor : mem) (SecurityDescriptorLength RequiredInformation : Z)
    : option bool :=
  status ← RtlpVerifyRelativeSecurityDescriptor SecurityDescriptor SecurityDescriptorLength RequiredInformation;
  Some (NT_SUCCESS status).

Definition RtlValidRelativeSecurityDescriptorWithErrorSubcode (SecurityDescriptor : mem)
    (SecurityDescriptorLength RequiredInformation : Z) : option (bool * SD_ERROR) :=
  '(status, subcode) ← RtlpVerifyRelativeSecurityDescriptorWithErrorSubcode SecurityDescriptor SecurityDescriptorLength RequiredInformation;
  Some (NT_SUCCESS status, subcode).

(** * Sizes *)

(** The size of the little-endian SID or ACL at [p], 0 when there is none. *)
Definition required_sid (p : ptr) : option Z :=
  match p with
  | None => Some 0
  | Some s => c ← Sid_SubAuthorityCount s; Some (RtlLengthRequiredSid (LW_LTOH8 c))
  end.
Definition required_acl (p : ptr) : option Z :=
  match p with
  | None => Some 0
  | Some a => n ← Acl_AclSize a; Some (LW_LTOH16 n)
  end.

(** [if (SecurityDescriptor->Field) size += ...]: the test is on the field as it
    is in memory. *)
Definition plus_relative (SecurityDescriptor : mem) (required : ptr -> option Z) (field size : Z) : option Z :=
  o ← ld32 SecurityDescriptor field;
  if o =? 0 then Some size
  else n ← required (Some (padd SecurityDescriptor (LW_LTOH32 o))); Some (u32 (size + n)).

Definition RtlLengthSecurityDescriptorRelative (SecurityDescriptor : mem) : option Z :=
  size ← plus_relative SecurityDescriptor required_sid 4 SECURITY_DESCRIPTOR_RELATIVE_MIN_SIZE;
  size ← plus_relative SecurityDescriptor required_sid 8 size;
  size ← plus_relative SecurityDescriptor required_acl 16 size;
  plus_relative SecurityDescriptor required_acl 12 size.

(** * From absolute to self-relative *)

(** [if (Sid) { encode it at offset; store the offset in the header; advance }]:
    the buffer and the next offset. *)
Definition write_sid (Sid : ptr) (field size : Z) (state : mem * Z) : option (NTSTATUS * (mem * Z)) :=
  let '(b, offset) := state in
  match Sid with
  | None => Some (STATUS_SUCCESS, (b, offset))
  | Some sid =>
      '(status, b, used) ← RtlpEncodeLittleEndianSid sid b offset (u32 (size - offset));
      if negb (is_ok status) then Some (status, (b, offset))
      else b ← st32 b field (LW_HTOL32 offset); Some (STATUS_SUCCESS, (b, u32 (offset + used)))
  end.

(** The same for an ACL, which is encoded at the pointer [LwRtlOffsetToPointer]
    gives. *)
Definition write_acl (Acl : ptr) (field size : Z) (state : mem * Z) : option (NTSTATUS * (mem * Z)) :=
  let '(b, offset) := state in
  match Acl with
  | None => Some (STATUS_SUCCESS, (b, offset))
  | Some _ =>
      '(status, r, used) ← RtlpEncodeLittleEndianAcl Acl (padd b offset) (u32 (size - offset));
      let b := take (Z.to_nat offset) b ++ r in
      if negb (is_ok status) then Some (status, (b, offset))
      else b ← st32 b field (LW_HTOL32 offset); Some (STATUS_SUCCESS, (b, u32 (offset + used)))
  end.

(** The conversion, once the buffer is known to be large enough. *)
Definition write_relative (sd : SECURITY_DESCRIPTOR_ABSOLUTE) (b : mem) (size : Z) : option (NTSTATUS * mem) :=
  b ← st8 b 0 (LW_HTOL8 (sd_Revision sd));
  b ← st8 b 1 (LW_HTOL8 (sd_Sbz1 sd));
  b ← st16 b 2 (LW_HTOL16 (Z.lor (sd_Control sd) SE_SELF_RELATIVE));
  '(status, (b, _)) ←
    then_ok (write_sid (sd_Owner sd) 4 size (b, SECURITY_DESCRIPTOR_RELATIVE_MIN_SIZE)) (fun s =>
    then_ok (write_sid (sd_Group sd) 8 size s) (fun s =>
    then_ok (write_acl (sd_Dacl sd) 16 size s) (fun s =>
    write_acl (sd_Sacl sd) 12 size s)));
  Some (status, b).

(** The status, the buffer and the value stored through [BufferLength]. *)
Definition RtlAbsoluteToSelfRelativeSD (AbsoluteSecurityDescriptor : option SECURITY_DESCRIPTOR_ABSOLUTE)
    (SelfRelativeSecurityDescriptor : ptr) (BufferLength : option Z) : option (NTSTATUS * ptr * option Z) :=
  match AbsoluteSecurityDescriptor, BufferLength with
  | Some sd, Some size =>
      if (0 <? size) && is_null SelfRelativeSecurityDescriptor
      then Some (STATUS_INVALID_PARAMETER, SelfRelativeSecurityDescriptor, Some 0)
      else
        v ← RtlValidSecurityDescriptor sd;
        if negb v then Some (STATUS_INVALID_SECURITY_DESCR, SelfRelativeSecurityDescriptor, Some 0)
        else
          '(status, sizeRequired) ← RtlpGetSizeUsedSecurityDescriptor sd;
          if negb (is_ok status) then Some (status, SelfRelativeSecurityDescriptor, Some sizeRequired)
          else
            let sizeRequired := u32 (sizeRequired - sizeof_SECURITY_DESCRIPTOR_ABSOLUTE) in
            let sizeRequired := u32 (sizeRequired + SECURITY_DESCRIPTOR_RELATIVE_MIN_SIZE) in
            if size <? sizeRequired then Some (STATUS_BUFFER_TOO_SMALL, SelfRelativeSecurityDescriptor, Some sizeRequired)
            else
              b ← SelfRelativeSecurityDescriptor;
              '(status, b) ← write_relative sd b size;
              Some (status, Some b, Some sizeRequired)
  | _, _ => Some (STATUS_INVALID_PARAMETER, SelfRelativeSecurityDescriptor, (fun _ => 0) <$> BufferLength)
  end.

(** * Swapping a descriptor in place *)

(** The buffer, and the value before the swap. *)
Definition RtlHTOL32Stream (m : mem) (cursor : Z) : option (mem * Z) :=
  i32 ← ld32 m cursor;
  m ← st32 m cursor (LW_HTOL32 i32);
  Some (m, i32).

Fixpoint swab_stream (n : nat) (m : mem) (cursor : Z) : option mem :=
  match n with
  | O => Some m
  | S n' => '(m, _) ← RtlHTOL32Stream m cursor; swab_stream n' m (cursor + 4)
  end.

(** The buffer and the value stored through [pLen]. *)
Definition RtlEncodeLittleEndianSidSwab (m : mem) (cursor : Z) : option (mem * Z) :=
  subAuthorityCount ← ld8 m (cursor + 1);
  m ← swab_stream (Z.to_nat subAuthorityCount) m (cursor + 8);
  Some (m, RtlLengthRequiredSid subAuthorityCount).

Fixpoint swab_aces (n : nat) (m : mem) (cursor : Z) : option (mem * Z) :=
  match n with
  | O => Some (m, cursor)
  | S n' =>
      aceSize ← ld16 m (cursor + 2);
      m ← st16 m (cursor + 2) (LW_HTOL16 aceSize);
      mask ← ld32 m (cursor + 4);
      m ← st32 m (cursor + 4) (LW_HTOL32 mask);
      '(m, _) ← RtlEncodeLittleEndianSidSwab m (cursor + 8);
      swab_aces n' m (cursor + aceSize)
  end.

Definition RtlpEncodeLittleEndianAclSwab (m : mem) (cursor : Z) : option (mem * Z) :=
  aceCount ← ld16 m (cursor + 4);
  size ← ld16 m (cursor + 2);
  m ← st16 m (cursor + 2) (LW_HTOL16 size);
  m ← st16 m (cursor + 4) (LW_HTOL16 aceCount);
  sbz2 ← ld16 m (cursor + 6);
  m ← st16 m (cursor + 6) (LW_HTOL16 sbz2);
  '(m, last) ← swab_aces (Z.to_nat aceCount) m (cursor + sizeof_ACL);
  Some (m, u32 (last - cursor)).

(** One item: [swab] is applied at [offset] when [there], and the offset goes
    into the header when the item is not empty. *)
Definition swab_item (swab : mem -> Z -> option (mem * Z)) (there : bool) (field : Z) (state : mem * Z) : option (mem * Z) :=
  let '(m, offset) := state in
  '(m, itemLen) ← (if there then swab m offset else Some (m, 0));
  m ← (if 0 <? itemLen then st32 m field (LW_HTOL32 offset) else Some m);
  Some (m, u32 (offset + itemLen)).

Definition RtlAbsoluteToSelfRelativeSDSwab (SelfRelativeSecurityDescriptor : ptr) (BufferLength : Z) : option (NTSTATUS * ptr) :=
  match SelfRelativeSecurityDescriptor with
  | None => Some (STATUS_INVALID_PARAMETER, None)
  | Some m =>
      if BufferLength =? 0 then Some (STATUS_INVALID_PARAMETER, Some m)
      else
        control ← ld16 m 2;
        m ← st16 m 2 (LW_HTOL16 control);
        let offset := SECURITY_DESCRIPTOR_RELATIVE_MIN_SIZE in
        '(m, offset) ← swab_item RtlEncodeLittleEndianSidSwab (offset <? BufferLength) 4 (m, offset);
        hasGroup ← (if offset <? BufferLength then group ← ld32 m 8; Some (negb (group =? 0)) else Some false);
        '(m, offset) ← swab_item RtlEncodeLittleEndianSidSwab hasGroup 8 (m, offset);
        '(m, offset) ← swab_item RtlpEncodeLittleEndianAclSwab (offset <? BufferLength) 16 (m, offset);
        '(m, offset) ← swab_item RtlpEncodeLittleEndianAclSwab (offset <? BufferLength) 12 (m, offset);
        Some (STATUS_SUCCESS, Some m)
  end.

(** * From self-relative to absolute *)

(** The optional output buffers of [RtlSelfRelativeToAbsoluteSD], and the
    lengths that go with them ([None] is a null pointer). *)
Record abs_buffers := mk_buffers {
  b_sd : option SECURITY_DESCRIPTOR_ABSOLUTE;
  b_dacl : ptr;
  b_sacl : ptr;
  b_owner : ptr;
  b_group : ptr
}.
Record abs_lengths := mk_lengths {
  l_sd : option Z;
  l_dacl : option Z;
  l_sacl : option Z;
  l_owner : option Z;
  l_group : option Z
}.

(** [if (p) *p = v;]. *)
Definition store_length (p : option Z) (v : Z) : option Z := (fun _ => v) <$> p.

Definition store_lengths (p : abs_lengths) (sd dacl sacl owner group : Z) : abs_lengths :=
  mk_lengths (store_length (l_sd p) sd) (store_length (l_dacl p) dacl) (store_length (l_sacl p) sacl)
    (store_length (l_owner p) owner) (store_length (l_group p) group).

(** [if (Sid && absHeader.Sid) decode; if (AbsoluteSecurityDescriptor) set]. *)
Definition convert_sid (from to : ptr) (set : SECURITY_DESCRIPTOR_ABSOLUTE -> ptr -> SECURITY_DESCRIPTOR_ABSOLUTE)
    (sd : option SECURITY_DESCRIPTOR_ABSOLUTE) : option (ptr * option SECURITY_DESCRIPTOR_ABSOLUTE) :=
  match to, from with
  | Some d, Some s => d ← RtlpDecodeLittleEndianSid s d 0; Some (Some d, (fun sd => set sd (Some d)) <$> sd)
  | _, _ => Some (to, sd)
  end.

Definition convert_acl (from to : ptr) (set : SECURITY_DESCRIPTOR_ABSOLUTE -> ptr -> SECURITY_DESCRIPTOR_ABSOLUTE)
    (sd : option SECURITY_DESCRIPTOR_ABSOLUTE) : option (NTSTATUS * (ptr * option SECURITY_DESCRIPTOR_ABSOLUTE)) :=
  match to, from with
  | Some d, Some s =>
      '(status, d) ← RtlpDecodeLittleEndianAcl s d;
      Some (status, (Some d, if negb (is_ok status) then sd else (fun sd => set sd (Some d)) <$> sd))
  | _, _ => Some (STATUS_SUCCESS, (to, sd))
  end.

(** The conversion, once the buffers are known to be large enough. *)
Definition write_absolute (absHeader : SECURITY_DESCRIPTOR_ABSOLUTE) (out : abs_buffers) : option (NTSTATUS * abs_buffers) :=
  let sd := (fun _ => absHeader) <$> b_sd out in
  '(owner, sd) ← convert_sid (sd_Owner absHeader) (b_owner out) set_Owner sd;
  '(group, sd) ← convert_sid (sd_Group absHeader) (b_group out) set_Group sd;
  '(status, (sacl, sd)) ← convert_acl (sd_Sacl absHeader) (b_sacl out) set_Sacl sd;
  if negb (is_ok status) then Some (status, mk_buffers sd (b_dacl out) sacl owner group)
  else
    '(status, (dacl, sd)) ← convert_acl (sd_Dacl absHeader) (b_dacl out) set_Dacl sd;
    Some (status, mk_buffers sd dacl sacl owner group).

(** [(Size > 0) && !Buffer]. *)
Definition missing (size : Z) {A} (buffer : option A) : bool :=
  (0 <? size) && match buffer with Some _ => false | None => true end.

(** The status, the buffers and the lengths afterwards. *)
Definition RtlSelfRelativeToAbsoluteSD (SelfRelativeSecurityDescriptor : mem) (out : abs_buffers) (len : abs_lengths)
    : option (NTSTATUS * abs_buffers * abs_lengths) :=
  match len with
  | mk_lengths (Some securityDescriptorSize) (Some daclSize) (Some saclSize) (Some ownerSize) (Some groupSize) =>
      if missing securityDescriptorSize (b_sd out) || missing daclSize (b_dacl out) || missing saclSize (b_sacl out)
         || missing ownerSize (b_owner out) || missing groupSize (b_group out)
      then Some (STATUS_INVALID_PARAMETER, out, store_lengths len 0 0 0 0 0)
      else
        relHeader ← load_relHeader SelfRelativeSecurityDescriptor;
        if negb (IsSetFlag (rel_Control relHeader) SE_SELF_RELATIVE)
        then Some (STATUS_ASSERTION_FAILURE, out, store_lengths len 0 0 0 0 0)
        else
          let absHeader := make_absHeader SelfRelativeSecurityDescriptor relHeader in
          if negb (NT_SUCCESS (RtlpVerifySecurityDescriptorHeader absHeader))
          then Some (STATUS_ASSERTION_FAILURE, out, store_lengths len 0 0 0 0 0)
          else
            let securityDescriptorSizeRequired := sizeof_SECURITY_DESCRIPTOR_ABSOLUTE in
            ownerSizeRequired ← required_sid (sd_Owner absHeader);
            groupSizeRequired ← required_sid (sd_Group absHeader);
            saclSizeRequired ← required_acl (sd_Sacl absHeader);
            daclSizeRequired ← required_acl (sd_Dacl absHeader);
            let len := store_lengths len securityDescriptorSizeRequired daclSizeRequired saclSizeRequired
                         ownerSizeRequired groupSizeRequired in
            if (securityDescriptorSize <? securityDescriptorSizeRequired) || (ownerSize <? ownerSizeRequired)
               || (groupSize <? groupSizeRequired) || (saclSize <? saclSizeRequired) || (daclSize <? daclSizeRequired)
            then Some (STATUS_BUFFER_TOO_SMALL, out, len)
            else '(status, out) ← write_absolute absHeader out; Some (status, out, len)
  | _ => Some (STATUS_INVALID_PARAMETER, out, store_lengths len 0 0 0 0 0)
  end.

(** * Allocating an absolute descriptor *)

Context (malloc : Z -> bool).

(** [if (length) RTL_ALLOCATE]. *)
Definition allocate_part (length : Z) : NTSTATUS * ptr :=
  if length =? 0 then (STATUS_SUCCESS, None) else RTL_ALLOCATE malloc length.

(** The status and the descriptor. *)
Definition RtlpCreateAbsSecDescFromRelative (pRelSecDesc : mem) : option (NTSTATUS * option SECURITY_DESCRIPTOR_ABSOLUTE) :=
  '(status, _, len) ← RtlSelfRelativeToAbsoluteSD pRelSecDesc (mk_buffers None None None None None)
                        (mk_lengths (Some 0) (Some 0) (Some 0) (Some 0) (Some 0));
  let status := if bool_decide (status = STATUS_BUFFER_TOO_SMALL) then STATUS_SUCCESS else status in
  if negb (is_ok status) then Some (status, None)
  else
    match len with
    | mk_lengths (Some ulAbsSecDescLen) (Some ulDaclLen) (Some ulSaclLen) (Some ulOwnerLen) (Some ulGroupLen) =>
        let '(status, pOwner) := allocate_part ulOwnerLen in
        if negb (is_ok status) then Some (status, None)
        else
          let '(status, pGroup) := allocate_part ulGroupLen in
          if negb (is_ok status) then Some (status, None)
          else
            let '(status, pDacl) := allocate_part ulDaclLen in
            if negb (is_ok status) then Some (status, None)
            else
              let '(status, pSacl) := allocate_part ulSaclLen in
              if negb (is_ok status) then Some (status, None)
              else
                let '(status, pAbsSecDesc) := RTL_ALLOCATE malloc ulAbsSecDescLen in
                if negb (is_ok status) then Some (status, None)
                else
                  '(status, out, _) ← RtlSelfRelativeToAbsoluteSD pRelSecDesc
                                        (mk_buffers ((fun _ => zero_sd) <$> pAbsSecDesc) pDacl pSacl pOwner pGroup) len;
                  if negb (is_ok status) then Some (status, None) else Some (status, b_sd out)
    | _ => None
    end.

(** * Reading and replacing parts of a descriptor *)

Definition DaclControlChange : Z :=
  Z.lor (Z.lor (Z.lor SE_DACL_PROTECTED SE_DACL_AUTO_INHERITED) SE_DACL_AUTO_INHERIT_REQ) SE_DACL_UNTRUSTED.
Definition SaclControlChange : Z :=
  Z.lor (Z.lor SE_SACL_PROTECTED SE_SACL_AUTO_INHERITED) SE_SACL_AUTO_INHERIT_REQ.

(** The blocks that the part before the conversion hands to [LW_RTL_FREE] are
    exactly those of the parts that are replaced, so they do not appear. *)
Definition drop_owner (sd : SECURITY_DESCRIPTOR_ABSOLUTE) : NTSTATUS * SECURITY_DESCRIPTOR_ABSOLUTE :=
  let '(status, _, _) := RtlGetOwnerSecurityDescriptor sd in
  if negb (is_ok status) then (status, sd) else RtlSetOwnerSecurityDescriptor sd None false.

Definition drop_group (sd : SECURITY_DESCRIPTOR_ABSOLUTE) : NTSTATUS * SECURITY_DESCRIPTOR_ABSOLUTE :=
  let '(status, _, _) := RtlGetGroupSecurityDescriptor sd in
  if negb (is_ok status) then (status, sd) else RtlSetGroupSecurityDescriptor sd None false.

Definition drop_dacl (sd : SECURITY_DESCRIPTOR_ABSOLUTE) : NTSTATUS * SECURITY_DESCRIPTOR_ABSOLUTE :=
  let '(status, _, _, _) := RtlGetDaclSecurityDescriptor sd in
  if negb (is_ok status) then (status, sd)
  else
    let '(status, sd) := RtlSetDaclSecurityDescriptor sd false None false in
    if negb (is_ok status) then (status, sd) else RtlSetSecurityDescriptorControl sd DaclControlChange 0.

Definition drop_sacl (sd : SECURITY_DESCRIPTOR_ABSOLUTE) : NTSTATUS * SECURITY_DESCRIPTOR_ABSOLUTE :=
  let '(status, _, _, _) := RtlGetSaclSecurityDescriptor sd in
  if negb (is_ok status) then (status, sd)
  else
    let '(status, sd) := RtlSetSaclSecurityDescriptor sd false None false in
    if negb (is_ok status) then (status, sd) else RtlSetSecurityDescriptorControl sd SaclControlChange 0.

(** [if (condition) { ... }] around a step. *)
Definition step_if {A} (c : bool) (f : A -> NTSTATUS * A) (a : A) : option (NTSTATUS * A) :=
  Some (if c then f a else (STATUS_SUCCESS, a)).

Definition RtlQuerySecurityDescriptorInfo (SecurityInformation : Z) (SecurityDescriptor : ptr) (Length : option Z)
    (ObjectSecurityDescriptor : mem) : option (NTSTATUS * ptr * option Z) :=
  if SecurityInformation =? 0 then Some (STATUS_INVALID_PARAMETER, SecurityDescriptor, Length)
  else
    '(status, abs) ← RtlpCreateAbsSecDescFromRelative ObjectSecurityDescriptor;
    if negb (is_ok status) then Some (status, SecurityDescriptor, Length)
    else
      sd ← abs;
      '(status, sd) ←
        then_ok (step_if (negb (IsSetFlag SecurityInformation OWNER_SECURITY_INFORMATION)) drop_owner sd) (fun sd =>
        then_ok (step_if (negb (IsSetFlag SecurityInformation GROUP_SECURITY_INFORMATION)) drop_group sd) (fun sd =>
        then_ok (step_if (negb (IsSetFlag SecurityInformation DACL_SECURITY_INFORMATION)) drop_dacl sd) (fun sd =>
        step_if (negb (IsSetFlag SecurityInformation SACL_SECURITY_INFORMATION)) drop_sacl sd)));
      if negb (is_ok status) then Some (status, SecurityDescriptor, Length)
      else RtlAbsoluteToSelfRelativeSD (Some sd) SecurityDescriptor Length.

(** The state of [RtlSetSecurityDescriptorInfo]: the object's descriptor and the
    input descriptor, whose parts move to the first. *)
Definition move_owner (state : SECURITY_DESCRIPTOR_ABSOLUTE * SECURITY_DESCRIPTOR_ABSOLUTE)
    : NTSTATUS * (SECURITY_DESCRIPTOR_ABSOLUTE * SECURITY_DESCRIPTOR_ABSOLUTE) :=
  let '(obj, input) := state in
  let '(status, _, _) := RtlGetOwnerSecurityDescriptor obj in
  if negb (is_ok status) then (status, (obj, input))
  else
    let '(status, pInputOwnerSid, bInputOwnerDefaulted) := RtlGetOwnerSecurityDescriptor input in
    if negb (is_ok status) then (status, (obj, input))
    else
      let '(status, input) := RtlSetOwnerSecurityDescriptor input None false in
      if negb (is_ok status) then (status, (obj, input))
      else
        let '(status, obj) := RtlSetOwnerSecurityDescriptor obj pInputOwnerSid bInputOwnerDefaulted in
        (status, (obj, input)).

Definition move_group (state : SECURITY_DESCRIPTOR_ABSOLUTE * SECURITY_DESCRIPTOR_ABSOLUTE)
    : NTSTATUS * (SECURITY_DESCRIPTOR_ABSOLUTE * SECURITY_DESCRIPTOR_ABSOLUTE) :=
  let '(obj, input) := state in
  let '(status, _, _) := RtlGetGroupSecurityDescriptor obj in
  if negb (is_ok status) then (status, (obj, input))
  else
    let '(status, pInputGroupSid, bInputGroupDefaulted) := RtlGetGroupSecurityDescriptor input in
    if negb (is_ok status) then (status, (obj, input))
    else
      let '(status, input) := RtlSetGroupSecurityDescriptor input None false in
      if negb (is_ok status) then (status, (obj, input))
      else
        let '(status, obj) := RtlSetGroupSecurityDescriptor obj pInputGroupSid bInputGroupDefaulted in
        (status, (obj, input)).

Definition move_dacl (InputSecDescControl : Z) (state : SECURITY_DESCRIPTOR_ABSOLUTE * SECURITY_DESCRIPTOR_ABSOLUTE)
    : NTSTATUS * (SECURITY_DESCRIPTOR_ABSOLUTE * SECURITY_DESCRIPTOR_ABSOLUTE) :=
  let '(obj, input) := state in
  let '(status, _, _, _) := RtlGetDaclSecurityDescriptor obj in
  if negb (is_ok status) then (status, (obj, input))
  else
    let '(status, _, pInputDacl, bInputDaclDefaulted) := RtlGetDaclSecurityDescriptor input in
    if negb (is_ok status) then (status, (obj, input))
    else
      let '(status, input) := RtlSetDaclSecurityDescriptor input false None false in
      if negb (is_ok status) then (status, (obj, input))
      else
        let '(status, obj) := RtlSetSecurityDescriptorControl obj DaclControlChange 0 in
        if negb (is_ok status) then (status, (obj, input))
        else
          let '(status, obj) := RtlSetDaclSecurityDescriptor obj true pInputDacl bInputDaclDefaulted in
          if negb (is_ok status) then (status, (obj, input))
          else
            let DaclControlSet := Z.land InputSecDescControl DaclControlChange in
            let '(status, obj) := RtlSetSecurityDescriptorControl obj DaclControlChange DaclControlSet in
            (status, (obj, input)).

Definition move_sacl (InputSecDescControl : Z) (state : SECURITY_DESCRIPTOR_ABSOLUTE * SECURITY_DESCRIPTOR_ABSOLUTE)
    : NTSTATUS * (SECURITY_DESCRIPTOR_ABSOLUTE * SECURITY_DESCRIPTOR_ABSOLUTE) :=
  let '(obj, input) := state in
  let '(status, _, _, _) := RtlGetSaclSecurityDescriptor obj in
  if negb (is_ok status) then (status, (obj, input))
  else
    let '(status, _, pInputSacl, bInputSaclDefaulted) := RtlGetSaclSecurityDescriptor input in
    if negb (is_ok status) then (status, (obj, input))
    else
      let '(status, input) := RtlSetSaclSecurityDescriptor input false None false in
      if negb (is_ok status) then (status, (obj, input))
      else
        let '(status, obj) := RtlSetSecurityDescriptorControl obj SaclControlChange 0 in
        if negb (is_ok status) then (status, (obj, input))
        else
          let '(status, obj) := RtlSetSaclSecurityDescriptor obj true pInputSacl bInputSaclDefaulted in
          if negb (is_ok status) then (status, (obj, input))
          else
            let SaclControlSet := Z.land InputSecDescControl SaclControlChange in
            let '(status, obj) := RtlSetSecurityDescriptorControl obj SaclControlChange SaclControlSet in
            (status, (obj, input)).

Definition RtlSetSecurityDescriptorInfo (SecurityInformation : Z) (InputSecurityDescriptor ObjectSecurityDescriptor : mem)
    (NewObjectSecurityDescriptor : ptr) (NewObjectSecurityDescriptorLength : option Z) : option (NTSTATUS * ptr * option Z) :=
  let leave status := Some (status, NewObjectSecurityDescriptor, NewObjectSecurityDescriptorLength) in
  if SecurityInformation =? 0 then leave STATUS_INVALID_PARAMETER
  else
    '(status, obj) ← RtlpCreateAbsSecDescFromRelative ObjectSecurityDescriptor;
    if negb (is_ok status) then leave status
    else
      '(status, input) ← RtlpCreateAbsSecDescFromRelative InputSecurityDescriptor;
      if negb (is_ok status) then leave status
      else
        obj ← obj;
        input ← input;
        let '(status, InputSecDescControl, _) := RtlGetSecurityDescriptorControl input in
        if negb (is_ok status) then leave status
        else
          '(status, (obj, _)) ←
            then_ok (step_if (IsSetFlag SecurityInformation OWNER_SECURITY_INFORMATION) move_owner (obj, input)) (fun s =>
            then_ok (step_if (IsSetFlag SecurityInformation GROUP_SECURITY_INFORMATION) move_group s) (fun s =>
            then_ok (step_if (IsSetFlag SecurityInformation DACL_SECURITY_INFORMATION) (move_dacl InputSecDescControl) s) (fun s =>
            step_if (IsSetFlag SecurityInformation SACL_SECURITY_INFORMATION) (move_sacl InputSecDescControl) s)));
          if negb (is_ok status) then leave status
          else RtlAbsoluteToSelfRelativeSD (Some obj) NewObjectSecurityDescriptor NewObjectSecurityDescriptorLength.
End Operations.
