(* ===== verification/SdRepr.v ===== *)
(** The meaning of a security descriptor: the abstract view of [SdOps] over
    abstract SIDs and ACLs of standard ACEs, the relation [sd_at] to an absolute
    descriptor in memory and the relation [rel_at] to a self-relative one, and
    the validity test and the sizes of absolute descriptors. *)

From S2P Require Import Prelude SecurityTypes Sid Acl AclRepr AclOps AclEdit AclCodec AclCodecOps Token TokenState Sd SdOps SdRelative.

(** * Abstract descriptors *)

Record acl_spec := mk_acl_spec {
  as_revision : Z;
  as_size : Z;
  as_aces : list std_ace
}.

Definition as_used (a : acl_spec) : Z := 8 + std_lens (as_aces a).

(** The ACL without its slack: what encoding keeps. *)
Definition fit (a : acl_spec) : acl_spec := mk_acl_spec (as_revision a) (as_used a) (as_aces a).

Definition acl_spec_wf (a : acl_spec) : Prop :=
  Forall std_wf (as_aces a) /\ RtlpValidAclRevision (as_revision a) = true /\ as_used a <= as_size a < 65536.

Abbreviation sd_spec := (sd_view sid acl_spec).

(** The ACL of an answer that may be absent, or present and null. *)
Definition acl_of {A} (o : option (option A * bool)) : option A := match o with Some (a, _) => a | None => None end.

Definition map_acls {S A B} (f : A -> B) (s : sd_view S A) : sd_view S B :=
  let g := fmap (fun x : option A * bool => (f <$> x.1, x.2)) in
  mk_view (v_owner s) (v_group s) (g (v_dacl s)) (g (v_sacl s)) (v_bits s) (v_sbz1 s).

(** The bytes each part takes; an absent part takes none. *)
Definition sid_len (o : option sid) : Z := match o with Some s => 8 + 4 * sid_count s | None => 0 end.
Definition acl_len (o : option acl_spec) : Z := match o with Some a => as_used a | None => 0 end.

(** The size of the self-relative form. *)
Definition rel_size (s : sd_spec) : Z :=
  20 + sid_len (v_owner s).1 + sid_len (v_group s).1 + acl_len (acl_of (v_dacl s)) + acl_len (acl_of (v_sacl s)).

(** Every SID is one [RtlValidSid] accepts. *)
Definition sids_valid (s : sd_spec) : Prop :=
  (forall x, (v_owner s).1 = Some x -> sid_valid x = true) /\ (forall x, (v_group s).1 = Some x -> sid_valid x = true).

(** Every ACE is one the validity test of a received ACL accepts. *)
Definition aces_valid (s : sd_spec) : Prop :=
  (forall a, acl_of (v_dacl s) = Some a -> Forall std_valid (as_aces a)) /\
  (forall a, acl_of (v_sacl s) = Some a -> Forall std_valid (as_aces a)).

(** * Descriptors in memory *)

Definition flagged {A B} (R : A -> B -> Prop) (x : A * bool) (y : B * bool) : Prop := R x.1 y.1 /\ x.2 = y.2.

Record view_rel {S A S' A'} (RS : S -> S' -> Prop) (RA : A -> A' -> Prop) (v : sd_view S A) (s : sd_view S' A') : Prop := {
  vr_owner : flagged (option_Forall2 RS) (v_owner v) (v_owner s);
  vr_group : flagged (option_Forall2 RS) (v_group v) (v_group s);
  vr_dacl : option_Forall2 (flagged (option_Forall2 RA)) (v_dacl v) (v_dacl s);
  vr_sacl : option_Forall2 (flagged (option_Forall2 RA)) (v_sacl v) (v_sacl s);
  vr_bits : v_bits v = v_bits s;
  vr_sbz1 : v_sbz1 v = v_sbz1 s
}.

(** The ACL [a] in the byte order of the host, and as little-endian bytes. *)
Definition acl_mem `{Host} (p : mem) (a : acl_spec) : Prop :=
  acl_spec_wf a /\ acl_at p (std_acl (as_revision a) (as_size a) (as_aces a)).
Definition acl_le (p : mem) (a : acl_spec) : Prop :=
  acl_spec_wf a /\ exists rest, p = std_acl_image LittleEndian (as_revision a) (as_size a) (as_aces a) ++ rest.

(** The structure [sd] and the objects it points to mean [s]. *)
Record sd_means (RS : mem -> sid -> Prop) (RA : mem -> acl_spec -> Prop) (sd : SECURITY_DESCRIPTOR_ABSOLUTE) (s : sd_spec) : Prop := {
  sm_header : header_wf sd;
  sm_control : 0 <= sd_Control sd < 65536;
  sm_sbz1 : 0 <= sd_Sbz1 sd < 256;
  sm_view : view_rel RS RA (view sd) s
}.
Definition sd_at `{Host} : SECURITY_DESCRIPTOR_ABSOLUTE -> sd_spec -> Prop := sd_means (sid_at host) acl_mem.

(** The header of a self-relative descriptor as bytes. *)
Definition rel_header (e : endian) (h : SECURITY_DESCRIPTOR_RELATIVE) : mem :=
  [rel_Revision h; rel_Sbz1 h] ++ encode e 2 (rel_Control h) ++ encode e 4 (rel_Owner h) ++ encode e 4 (rel_Group h)
  ++ encode e 4 (rel_Sacl h) ++ encode e 4 (rel_Dacl h).

Record rel_ok (h : SECURITY_DESCRIPTOR_RELATIVE) : Prop := {
  ro_revision : 0 <= rel_Revision h < 256;
  ro_sbz1 : 0 <= rel_Sbz1 h < 256;
  ro_control : 0 <= rel_Control h < 65536;
  ro_owner : 0 <= rel_Owner h < 2 ^ 32;
  ro_group : 0 <= rel_Group h < 2 ^ 32;
  ro_sacl : 0 <= rel_Sacl h < 2 ^ 32;
  ro_dacl : 0 <= rel_Dacl h < 2 ^ 32
}.

(** The bytes [b] are a self-relative descriptor that means [s]. *)
Definition rel_at (b : mem) (s : sd_spec) : Prop :=
  exists h rest, b = rel_header LittleEndian h ++ rest /\ rel_ok h /\ IsSetFlag (rel_Control h) SE_SELF_RELATIVE = true /\
    sd_means (sid_at LittleEndian) acl_le (make_absHeader b h) s.

(** * Lemmas *)

Section Means.
Context {RS : mem -> sid -> Prop} {RA : mem -> acl_spec -> Prop} {sd : SECURITY_DESCRIPTOR_ABSOLUTE} {s : sd_spec}.

(** The parts of a descriptor, and how to show that it has a meaning. *)
Lemma means_parts : sd_means RS RA sd s ->
  option_Forall2 RS (sd_Owner sd) (v_owner s).1 /\ option_Forall2 RS (sd_Group sd) (v_group s).1 /\
  option_Forall2 RA (sd_Dacl sd) (acl_of (v_dacl s)) /\ option_Forall2 RA (sd_Sacl sd) (acl_of (v_sacl s)).
Proof.
  intros [[_ _ _ _ _ Hd Hs] _ _ [Vo Vg Vd Vs _ _]]. cbn [view v_owner v_group v_dacl v_sacl] in *.
  split; [apply Vo|]. split; [apply Vg|]. split.
  - destruct (IsSetFlag _ SE_DACL_PRESENT); [|destruct Hd as [-> _]; [done|]]; inversion Vd as [? [a d] [? _] E E'|E E']; [done|constructor].
  - destruct (IsSetFlag _ SE_SACL_PRESENT); [|destruct Hs as [-> _]; [done|]]; inversion Vs as [? [a d] [? _] E E'|E E']; [done|constructor].
Qed.
End Means.

(** A descriptor with the header of another and parts that mean the same. *)
Lemma means_change RS RA RS' RA' sd sd' s s' :
  sd_means RS RA sd s ->
  sd_Revision sd' = sd_Revision sd -> sd_Sbz1 sd' = sd_Sbz1 sd -> sd_Control sd' = sd_Control sd ->
  option_Forall2 RS' (sd_Owner sd') (v_owner s').1 -> option_Forall2 RS' (sd_Group sd') (v_group s').1 ->
  option_Forall2 RA' (sd_Dacl sd') (acl_of (v_dacl s')) -> option_Forall2 RA' (sd_Sacl sd') (acl_of (v_sacl s')) ->
  view_rel eq (fun _ _ => True) s s' -> sd_means RS' RA' sd' s'.
Proof.
  intros Hm Er Ez Ec Po Pg Pd Ps Hv. pose proof (means_parts Hm) as (Qo & Qg & Qd & Qs).
  destruct Hm as [[H1 H2 H3 H4 H5 H6 H7] Hc Hz [Vo Vg Vd Vs Vb Vz]]. destruct Hv as [Wo Wg Wd Ws Wb Wz].
  cbn [view v_owner v_group v_dacl v_sacl v_bits v_sbz1] in *. destruct Vo as [_ Vo], Vg as [_ Vg], Wo as [Eo Wo], Wg as [Eg Wg].
  cbn [fst snd] in *.
  assert (Ho : sd_Owner sd' = None -> sd_Owner sd = None) by (intros En; rewrite En in Po; inversion Po as [|X Y]; rewrite <- Y in Eo; inversion Eo as [|X' Y']; rewrite <- X' in Qo; by inversion Qo).
  assert (Hg : sd_Group sd' = None -> sd_Group sd = None) by (intros En; rewrite En in Pg; inversion Pg as [|X Y]; rewrite <- Y in Eg; inversion Eg as [|X' Y']; rewrite <- X' in Qg; by inversion Qg).
  assert (Hd : IsSetFlag (sd_Control sd) SE_DACL_PRESENT = false -> v_dacl s' = None).
  { intros En. rewrite En in Vd. inversion Vd as [|X Y]. rewrite <- Y in Wd. by inversion Wd. }
  assert (Hs : IsSetFlag (sd_Control sd) SE_SACL_PRESENT = false -> v_sacl s' = None).
  { intros En. rewrite En in Vs. inversion Vs as [|X Y]. rewrite <- Y in Ws. by inversion Ws. }
  split; rewrite ?Ec, ?Ez; try done.
  - split; rewrite ?Ec, ?Ez, ?Er; [done..| | | |].
    + intros Hf En. by apply H4, Ho.
    + intros Hf En. by apply H5, Hg.
    + intros En. split; [|by apply H6]. rewrite (Hd En) in Pd. by inversion Pd.
    + intros En. split; [|by apply H7]. rewrite (Hs En) in Ps. by inversion Ps.
  - split; cbn [view v_owner v_group v_dacl v_sacl v_bits v_sbz1]; rewrite ?Ec, ?Ez; try (by split; cbn; congruence); try congruence.
    + destruct (IsSetFlag _ SE_DACL_PRESENT); [|rewrite Hd by done; constructor].
      inversion Vd as [? y [_ F] E E'|E E']. rewrite <- E' in Wd. inversion Wd as [? y' [_ F'] E1 E2|E1 E2].
      rewrite <- E2 in Pd. destruct y as [y d], y' as [y' d']. cbn in *. constructor. split; cbn; congruence.
    + destruct (IsSetFlag _ SE_SACL_PRESENT); [|rewrite Hs by done; constructor].
      inversion Vs as [? y [_ F] E E'|E E']. rewrite <- E' in Ws. inversion Ws as [? y' [_ F'] E1 E2|E1 E2].
      rewrite <- E2 in Ps. destruct y as [y d], y' as [y' d']. cbn in *. constructor. split; cbn; congruence.
Qed.

Lemma sid_len_range s : sid_wf s -> 8 <= 8 + 4 * sid_count s <= 1028.
Proof. intros (_ & _ & _ & ? & _). pose proof (sid_count_nonneg s). lia. Qed.

Lemma opt_sid_len_range e p o : option_Forall2 (sid_at e) p o -> 0 <= sid_len o <= 1028.
Proof. intros [q s [Hw _]|]; cbn [sid_len]; [pose proof (sid_len_range s Hw)|]; lia. Qed.

Lemma as_used_range a : acl_spec_wf a -> 8 <= as_used a <= as_size a /\ as_size a < 65536.
Proof. intros (Hx & _ & ?). pose proof (std_lens_nonneg _ Hx). unfold as_used in *. lia. Qed.

Lemma opt_acl_len_range (R : mem -> acl_spec -> Prop) p o :
  (forall q a, R q a -> acl_spec_wf a) -> option_Forall2 R p o -> 0 <= acl_len o < 65536.
Proof. intros HR [q a Ha|]; cbn [acl_len]; [pose proof (as_used_range a (HR _ _ Ha))|]; lia. Qed.

Lemma zlen_rel_header e h : zlen (rel_header e h) = 20.
Proof. unfold rel_header. zl. Qed.

(** The fields of the header, in either byte order. *)
Lemma rel_header_reads e h rest :
  let m := rel_header e h ++ rest in
  ld8 m 0 = Some (rel_Revision h) /\ ld8 m 1 = Some (rel_Sbz1 h) /\ rd m 2 2 = Some (encode e 2 (rel_Control h)) /\
  rd m 4 4 = Some (encode e 4 (rel_Owner h)) /\ rd m 8 4 = Some (encode e 4 (rel_Group h)) /\
  rd m 12 4 = Some (encode e 4 (rel_Sacl h)) /\ rd m 16 4 = Some (encode e 4 (rel_Dacl h)).
Proof.
  unfold rel_header. split; [apply ld8_first|]. split; [apply ld8_second|]. rewrite <- !app_assoc. split_and!.
  - apply rd_at; zl.
  - rewrite app_assoc. apply rd_at; zl.
  - do 2 rewrite app_assoc. apply rd_at; zl.
  - do 3 rewrite app_assoc. apply rd_at; zl.
  - do 4 rewrite app_assoc. apply rd_at; zl.
Qed.

Section Read.
Context `{Host}.

Lemma load_relHeader_image h rest : rel_ok h -> load_relHeader (rel_header LittleEndian h ++ rest) = Some h.
Proof.
  intros [Hr Hz Hc Ho Hg Hs Hd]. destruct (rel_header_reads LittleEndian h rest) as (F0 & F1 & F2 & F4 & F8 & F12 & F16).
  unfold load_relHeader, ld16, ld32. rewrite F0, F1, F2, F4, F8, F12, F16. bsimpl. rewrite LTOH16_le, !LTOH32_le by done. by destruct h.
Qed.

Lemma required_sid_le p o : option_Forall2 (sid_at LittleEndian) p o -> required_sid p = Some (sid_len o).
Proof.
  intros [q s Hs|]; [|done]. cbn [required_sid sid_len]. rewrite (sid_at_count _ _ _ Hs). bsimpl. unfold LW_LTOH8.
  by rewrite (sid_length_small _ _ _ Hs).
Qed.

Definition acl_room (o : option acl_spec) : Z := match o with Some a => as_size a | None => 0 end.

Lemma required_acl_le p o : option_Forall2 acl_le p o -> required_acl p = Some (acl_room o).
Proof.
  intros [q a [Hw [rest ->]]|]; [|done]. cbn [required_acl acl_room]. unfold std_acl_image. rewrite <- app_assoc.
  pose proof (as_used_range a Hw).
  destruct (le_header_fields (as_revision a) (as_size a) (Z.of_nat (length (as_aces a))) (std_concat LittleEndian (as_aces a) ++ rest))
    as (_ & _ & -> & _). bsimpl. by rewrite LTOH16_le by lia.
Qed.

(** ** Absolute descriptors *)

Definition sid_bad (o : option sid) : bool := match o with Some s => negb (sid_valid s) | None => false end.

Lemma invalid_sid_at p o : option_Forall2 (sid_at host) p o -> invalid_sid p = Some (sid_bad o).
Proof. intros [q s Hs|]; [|done]. cbn [invalid_sid sid_bad]. by rewrite (sid_at_valid _ _ _ Hs). Qed.

Lemma acl_mem_valid p a : acl_mem p a -> RtlValidAcl (Some p) = Some (true, as_used a).
Proof.
  intros [[Hx _] Ha]. rewrite (RtlValidAcl_complete _ _ Ha). unfold acl_used, std_acl. cbn [acl_aces]. by rewrite aces_len_std.
Qed.

Lemma invalid_acl_at p o : option_Forall2 acl_mem p o -> invalid_acl p = Some false.
Proof. intros [q a Ha|]; [|done]. cbn [invalid_acl]. by rewrite (acl_mem_valid _ _ Ha). Qed.

Lemma used_sid_at size p o : option_Forall2 (sid_at host) p o -> sid_bad o = false -> 0 <= size < 2 ^ 31 ->
  used_sid size p = Some (Some (size + sid_len o)).
Proof.
  intros Ho Hb Hs. pose proof (opt_sid_len_range _ _ _ Ho). destruct Ho as [q s Hq|]; cbn [used_sid sid_len sid_bad] in *; [|by rewrite Z.add_0_r].
  apply negb_false_iff in Hb. rewrite (sid_at_valid _ _ _ Hq), Hb. bsimpl. cbn [negb]. rewrite (sid_at_length _ _ _ Hq). bsimpl.
  by rewrite u32_small by lia.
Qed.

Lemma used_acl_at size p o : option_Forall2 acl_mem p o -> 0 <= size < 2 ^ 31 -> used_acl size p = Some (Some (size + acl_len o)).
Proof.
  intros [q a Ha|] Hs; cbn [used_acl acl_len]; [|by rewrite Z.add_0_r]. rewrite (acl_mem_valid _ _ Ha). bsimpl. cbn [negb].
  pose proof (as_used_range a (proj1 Ha)). by rewrite u32_small by lia.
Qed.

Context `{Layout}.

Lemma sids_bad_iff s : sids_valid s <-> sid_bad (v_owner s).1 = false /\ sid_bad (v_group s).1 = false.
Proof.
  unfold sids_valid, sid_bad. destruct (v_owner s).1 as [x|], (v_group s).1 as [y|]; cbn; rewrite ?negb_false_iff;
    split; intros [A B]; split; try done; try (by apply A); try (by apply B); intros ? [= <-]; done.
Qed.

Lemma valid_sd_at sd s : sd_at sd s -> RtlValidSecurityDescriptor sd = Some (negb (sid_bad (v_owner s).1) && negb (sid_bad (v_group s).1)).
Proof.
  intros Hm. destruct (means_parts Hm) as (Po & Pg & Pd & Ps). destruct Hm as [Hw _ _ _].
  unfold RtlValidSecurityDescriptor. rewrite (proj2 (verify_header_iff sd) Hw). cbn [NT_SUCCESS negb].
  rewrite (invalid_sid_at _ _ Po), (invalid_sid_at _ _ Pg), (invalid_acl_at _ _ Pd), (invalid_acl_at _ _ Ps). bsimpl.
  by destruct (sid_bad (v_owner s).1), (sid_bad (v_group s).1).
Qed.

Lemma size_used_at sd s : sd_at sd s -> sids_valid s ->
  RtlpGetSizeUsedSecurityDescriptor sd = Some (STATUS_SUCCESS, sizeof_SECURITY_DESCRIPTOR_ABSOLUTE + (rel_size s - 20)) /\
  20 <= rel_size s < 2 ^ 18.
Proof.
  intros Hm [Bo Bg]%sids_bad_iff. destruct (means_parts Hm) as (Po & Pg & Pd & Ps). destruct Hm as [Hw _ _ _].
  pose proof sizeof_pointer_range. pose proof (opt_sid_len_range _ _ _ Po). pose proof (opt_sid_len_range _ _ _ Pg).
  assert (HR : forall q a, acl_mem q a -> acl_spec_wf a) by (intros q a Ha; apply Ha).
  pose proof (opt_acl_len_range _ _ _ HR Pd). pose proof (opt_acl_len_range _ _ _ HR Ps). unfold rel_size.
  split; [|lia]. unfold RtlpGetSizeUsedSecurityDescriptor. rewrite (proj2 (verify_header_iff sd) Hw). cbn [NT_SUCCESS negb].
  unfold sizeof_SECURITY_DESCRIPTOR_ABSOLUTE.
  rewrite (used_sid_at _ _ _ Po) by (done || lia). bsimpl. rewrite (used_sid_at _ _ _ Pg) by (done || lia). bsimpl.
  rewrite (used_acl_at _ _ _ Pd) by lia. bsimpl. rewrite (used_acl_at _ _ _ Ps) by lia. bsimpl. do 2 f_equal. lia.
Qed.
End Read.
