(* ===== verification/SdRelativeOps.v ===== *)
(** Correctness of the conversions of [SdRelative] between the absolute and the
    self-relative form of a security descriptor, and of the validity test of a
    self-relative one. *)

From S2P Require Import Prelude SecurityTypes Sid Acl AclRepr AclOps AclEdit AclCodec AclCodecOps Token TokenState Sd SdOps SdRelative SdRepr.

(** * Writing the self-relative form *)

(** The little-endian bytes of each part. *)
Definition sid_part (o : option sid) : mem := match o with Some s => sid_bytes LittleEndian s | None => [] end.
Definition acl_part (o : option acl_spec) : mem :=
  match o with Some a => std_acl_image LittleEndian (as_revision a) (as_used a) (as_aces a) | None => [] end.

(** An offset field: the offset of a part that is there, what was in the buffer
    otherwise. *)
Definition field {A} (o : option A) (off : Z) (old : mem) : mem := match o with Some _ => le_encode 4 off | None => old end.

Lemma zlen_field {A} (o : option A) off old : zlen old = 4 -> zlen (field o off old) = 4.
Proof. intros. destruct o; [apply zlen_le_encode|done]. Qed.

Lemma zlen_sid_part e p o : option_Forall2 (sid_at e) p o -> zlen (sid_part o) = sid_len o.
Proof. intros [q s [Hw _]|]; [|done]. by apply zlen_sid_bytes. Qed.

Lemma zlen_acl_part (R : mem -> acl_spec -> Prop) p o :
  (forall q a, R q a -> acl_spec_wf a) -> option_Forall2 R p o -> zlen (acl_part o) = acl_len o.
Proof.
  intros HR [q a Ha|]; [|done]. destruct (HR _ _ Ha) as [Hx _]. cbn [acl_part acl_len]. unfold std_acl_image.
  by rewrite zlen_app, zlen_acl_header, zlen_std_concat.
Qed.

Section Encode.
Context `{Host} `{Layout}.

Lemma st32_HTOL A old B v f : f = zlen A -> zlen old = 4 -> st32 (A ++ old ++ B) f (LW_HTOL32 v) = Some (A ++ le_encode 4 v ++ B).
Proof. intros -> Ho. unfold st32. rewrite wr_at; [|done|by rewrite zlen_encode]. by rewrite encode_HTOL32. Qed.

(** The state between two parts: the header [A ++ old ++ B] with the offset
    field [old] at hand, the parts [dn] written so far, and the rest of the
    buffer. *)
Section Put.
Context (A old B dn rest post : mem) (size f off : Z) (b : mem).
Context (Hb : b = A ++ old ++ B ++ dn ++ rest ++ post) (Hf : f = zlen A) (Hoff : off = 20 + zlen dn)
  (Hold : zlen old = 4) (Hhdr : zlen A + zlen B = 16) (Hsize : off + zlen rest <= size < 2 ^ 32).

Lemma put_pre : off = zlen (A ++ old ++ B ++ dn) /\ b = (A ++ old ++ B ++ dn) ++ rest ++ post /\ 0 <= zlen dn.
Proof using Hb Hoff Hold Hhdr. rewrite !zlen_app, Hb, <- !app_assoc. pose proof (zlen_nonneg dn). split_and!; [lia|done|lia]. Qed.

Lemma put_sid_at p o : option_Forall2 (sid_at host) p o -> zlen rest = sid_len o ->
  write_sid p f size (b, off) =
  Some (STATUS_SUCCESS, (A ++ field o off old ++ B ++ dn ++ sid_part o ++ post, off + sid_len o)).
Proof using Hb Hf Hoff Hold Hhdr Hsize.
  intros Ho Hr. destruct put_pre as (Hpre & Eb & ?). pose proof (opt_sid_len_range _ _ _ Ho) as Hn. unfold write_sid.
  destruct Ho as [q s Hs|]; cbn [sid_len sid_part field] in *.
  - rewrite Eb, Hpre at 1. rewrite (RtlpEncodeLittleEndianSid_spec _ _ _ _ _ _ Hs) by (done || (rewrite u32_small; lia)). okstep.
    rewrite <- !app_assoc, st32_HTOL by done. bsimpl. rewrite u32_small by lia. done.
  - apply zlen_0_inv in Hr as ->. by rewrite Z.add_0_r, Hb.
Qed.

Lemma put_acl_at p o : option_Forall2 acl_mem p o -> zlen rest = acl_len o ->
  write_acl p f size (b, off) =
  Some (STATUS_SUCCESS, (A ++ field o off old ++ B ++ dn ++ acl_part o ++ post, off + acl_len o)).
Proof using Hb Hf Hoff Hold Hhdr Hsize.
  intros Ho Hr. destruct put_pre as (Hpre & Eb & ?). unfold write_acl. destruct Ho as [q a [Hw Ha]|]; cbn [acl_len acl_part field] in *.
  - pose proof (as_used_range a Hw) as Hu. rewrite Eb, padd_app by done. unfold as_used in *.
    rewrite (RtlpEncodeLittleEndianAcl_ok _ _ _ _ _ _ _ Ha) by (apply Hw || done || (rewrite u32_small; lia)). okstep.
    replace (take (Z.to_nat off) _) with (A ++ old ++ B ++ dn)
      by (rewrite Hpre; unfold zlen; by rewrite Nat2Z.id, take_app_length).
    rewrite <- !app_assoc, st32_HTOL by done. bsimpl. rewrite u32_small by lia. done.
  - apply zlen_0_inv in Hr as ->. by rewrite Z.add_0_r, Hb.
Qed.
End Put.

(** The offsets of the parts. *)
Definition group_off (s : sd_spec) : Z := 20 + sid_len (v_owner s).1.
Definition dacl_off (s : sd_spec) : Z := group_off s + sid_len (v_group s).1.
Definition sacl_off (s : sd_spec) : Z := dacl_off s + acl_len (acl_of (v_dacl s)).

(** What the conversion leaves in a buffer whose four offset fields were [fo],
    [fg], [fs] and [fd], with [post] behind the parts. *)
Definition rel_image (control : Z) (s : sd_spec) (fo fg fs fd post : mem) : mem :=
  ([1; v_sbz1 s] ++ le_encode 2 (Z.lor control SE_SELF_RELATIVE) ++ field (v_owner s).1 20 fo ++ field (v_group s).1 (group_off s) fg
   ++ field (acl_of (v_sacl s)) (sacl_off s) fs ++ field (acl_of (v_dacl s)) (dacl_off s) fd)
  ++ (sid_part (v_owner s).1 ++ sid_part (v_group s).1 ++ acl_part (acl_of (v_dacl s)) ++ acl_part (acl_of (v_sacl s)) ++ post).

(** A buffer for the self-relative form: the header with its fields, the room
    for the parts, and the rest. *)
Record buffer_for (s : sd_spec) (b fo fg fs fd post : mem) : Prop := {
  bf_split : exists j body, b = (j ++ fo ++ fg ++ fs ++ fd) ++ body ++ post /\ zlen j = 4 /\ zlen body = rel_size s - 20;
  bf_fields : zlen fo = 4 /\ zlen fg = 4 /\ zlen fs = 4 /\ zlen fd = 4
}.

Lemma store_rel_header j rest r z c : zlen j = 4 -> 0 <= r < 256 -> 0 <= z < 256 ->
  exists m1 m2, st8 (j ++ rest) 0 r = Some m1 /\ st8 m1 1 z = Some m2 /\
    st16 m2 2 (LW_HTOL16 c) = Some ([r; z] ++ le_encode 2 c ++ rest).
Proof.
  intros Hj Hr Hz. destruct j as [|j0 [|j1 j]]; [zl..|]. rewrite !zlen_cons in Hj. eexists _, _. cbn [app].
  rewrite st_revision_0 by done. split; [reflexivity|]. rewrite (st_count_0 r j1) by done. split; [reflexivity|]. unfold st16.
  change (r :: z :: ?t) with ([r; z] ++ t). rewrite wr_at by zl. by rewrite encode_HTOL16.
Qed.

Lemma write_relative_at sd s b size fo fg fs fd post :
  sd_at sd s -> sids_valid s -> buffer_for s b fo fg fs fd post -> rel_size s <= size < 2 ^ 32 ->
  write_relative sd b size = Some (STATUS_SUCCESS, rel_image (sd_Control sd) s fo fg fs fd post).
Proof.
  intros Hm Hv Hb Hsz. destruct (means_parts Hm) as (Po & Pg & Pd & Ps). destruct (size_used_at sd s Hm Hv) as [_ Hrange].
  assert (HR : forall q a, acl_mem q a -> acl_spec_wf a) by (intros q a Ha; apply Ha).
  pose proof (opt_sid_len_range _ _ _ Po). pose proof (opt_sid_len_range _ _ _ Pg).
  pose proof (opt_acl_len_range _ _ _ HR Pd). pose proof (opt_acl_len_range _ _ _ HR Ps).
  pose proof (zlen_sid_part _ _ _ Po). pose proof (zlen_sid_part _ _ _ Pg). pose proof (zlen_acl_part _ _ _ HR Pd).
  destruct Hb as [(j & body & -> & Hj & Hbody) (Hfo & Hfg & Hfs & Hfd)].
  destruct Hm as [[Hrev _ _ _ _ _ _] _ Hz [_ _ _ _ _ Vz]]. cbn [view v_sbz1] in Vz. unfold rel_size in *.
  destruct (zlen_split body (sid_len (v_owner s).1)) as (r1 & body1 & -> & Hr1); [lia|]. rewrite zlen_app in Hbody.
  destruct (zlen_split body1 (sid_len (v_group s).1)) as (r2 & body2 & -> & Hr2); [lia|]. rewrite zlen_app in Hbody.
  destruct (zlen_split body2 (acl_len (acl_of (v_dacl s)))) as (r3 & r4 & -> & Hr3); [lia|]. rewrite zlen_app in Hbody.
  unfold write_relative, LW_HTOL8. rewrite Hrev, <- !app_assoc.
  destruct (store_rel_header j (fo ++ fg ++ fs ++ fd ++ r1 ++ r2 ++ r3 ++ r4 ++ post) 1 (sd_Sbz1 sd) (Z.lor (sd_Control sd) SE_SELF_RELATIVE))
    as (m1 & m2 & -> & E2 & E3); [done..|]. bsimpl. rewrite E2. bsimpl. rewrite E3. bsimpl. clear E2 E3 m1 m2.
  change SECURITY_DESCRIPTOR_RELATIVE_MIN_SIZE with 20. unfold rel_image, sacl_off, dacl_off, group_off. rewrite <- Vz.
  set (c := le_encode 2 _). set (h := [1; sd_Sbz1 sd] ++ c). assert (Hh : zlen h = 4) by (unfold h, c; zl).
  replace ([1; sd_Sbz1 sd] ++ c ++ fo ++ _) with (h ++ fo ++ (fg ++ fs ++ fd) ++ [] ++ r1 ++ r2 ++ r3 ++ r4 ++ post)
    by (unfold h; cbn [app]; by rewrite <- !app_assoc).
  unfold then_ok. set (o1 := field (v_owner s).1 20 fo). assert (Ho1 : zlen o1 = 4) by (by apply zlen_field).
  rewrite (put_sid_at h fo (fg ++ fs ++ fd) [] r1 (r2 ++ r3 ++ r4 ++ post) size 4 20 _ eq_refl) with (o := (v_owner s).1) by (done || zl).
  okstep. fold o1. set (g1 := field (v_group s).1 (20 + sid_len (v_owner s).1) fg). assert (Hg1 : zlen g1 = 4) by (by apply zlen_field).
  rewrite (put_sid_at (h ++ o1) fg (fs ++ fd) (sid_part (v_owner s).1) r2 (r3 ++ r4 ++ post) size 8) with (o := (v_group s).1)
    by (done || (by rewrite <- !app_assoc) || zl).
  okstep. fold g1. set (d1 := field (acl_of (v_dacl s)) (20 + sid_len (v_owner s).1 + sid_len (v_group s).1) fd).
  assert (Hd1 : zlen d1 = 4) by (by apply zlen_field).
  rewrite (put_acl_at (h ++ o1 ++ g1 ++ fs) fd [] (sid_part (v_owner s).1 ++ sid_part (v_group s).1) r3 (r4 ++ post) size 16)
    with (o := acl_of (v_dacl s)) by (done || (by rewrite <- !app_assoc) || zl).
  okstep. fold d1.
  rewrite (put_acl_at (h ++ o1 ++ g1) fs d1 (sid_part (v_owner s).1 ++ sid_part (v_group s).1 ++ acl_part (acl_of (v_dacl s))) r4 post size 12)
    with (o := acl_of (v_sacl s)) by (done || (by rewrite <- !app_assoc) || zl).
  bsimpl. unfold h. by rewrite <- !app_assoc.
Qed.

(** The whole operation on a descriptor that is valid. *)
Lemma absolute_to_relative_at sd s p n :
  sd_at sd s -> sids_valid s -> 0 <= n < 2 ^ 32 -> (0 < n -> p <> None) ->
  RtlAbsoluteToSelfRelativeSD (Some sd) p (Some n) =
  if n <? rel_size s then Some (STATUS_BUFFER_TOO_SMALL, p, Some (rel_size s))
  else (b ← p; '(st, b) ← write_relative sd b n; Some (st, Some b, Some (rel_size s))).
Proof.
  intros Hm Hv Hn Hp. unfold RtlAbsoluteToSelfRelativeSD. destruct (size_used_at sd s Hm Hv) as [E Hr].
  replace ((0 <? n) && is_null p) with false by (destruct (Z.ltb_spec 0 n); [|done]; destruct p; [done|by destruct Hp]).
  rewrite (valid_sd_at sd s Hm). apply sids_bad_iff in Hv as [-> ->]. bsimpl. cbn [negb andb]. rewrite E. okstep.
  change SECURITY_DESCRIPTOR_RELATIVE_MIN_SIZE with 20. pose proof sizeof_pointer_range. unfold sizeof_SECURITY_DESCRIPTOR_ABSOLUTE.
  rewrite !u32_small by (rewrite ?u32_small; lia).
  replace (5 * sizeof_pointer + (rel_size s - 20) - 5 * sizeof_pointer + 20) with (rel_size s) by lia. done.
Qed.

(** ** The result is a self-relative descriptor *)

(** The value of an offset field. *)
Definition off_of {A} (o : option A) (off : Z) : Z := match o with Some _ => off | None => 0 end.

Lemma field_off {A} (o : option A) off old : (o = None -> old = zeros 4) -> field o off old = encode LittleEndian 4 (off_of o off).
Proof. destruct o; intros E; [done|]. by rewrite E. Qed.

(** The header fields of absent parts are zero. *)
Definition clean (s : sd_spec) (fo fg fs fd : mem) : Prop :=
  ((v_owner s).1 = None -> fo = zeros 4) /\ ((v_group s).1 = None -> fg = zeros 4) /\
  (acl_of (v_sacl s) = None -> fs = zeros 4) /\ (acl_of (v_dacl s) = None -> fd = zeros 4).

Lemma relative_part_off {A} (R : mem -> A -> Prop) b (o : option A) off pre rest :
  0 < off -> b = pre ++ rest -> zlen pre = off -> (forall a, o = Some a -> R rest a) ->
  option_Forall2 R (relative_part b (off_of o off)) o.
Proof.
  intros Hoff -> <- HR. unfold relative_part. destruct o as [a|]; cbn [off_of]; [|constructor].
  destruct (Z.eqb_spec (zlen pre) 0); [lia|]. rewrite padd_app by done. constructor. by apply HR.
Qed.

Lemma clear_self_relative c : IsSetFlag c SE_SELF_RELATIVE = false -> ClearFlag (Z.lor c SE_SELF_RELATIVE) SE_SELF_RELATIVE = c.
Proof.
  unfold IsSetFlag, ClearFlag. intros E%negb_false_iff%Z.eqb_eq. revert E. generalize SE_SELF_RELATIVE. intros m E. zbits.
Qed.

Lemma self_relative_range c : 0 <= c < 65536 -> 0 <= Z.lor c SE_SELF_RELATIVE < 65536.
Proof.
  intros Hc. assert (0 <= Z.lor c SE_SELF_RELATIVE) by (apply Z.lor_nonneg; split; [lia|done]). split; [done|].
  apply (Z.log2_lt_pow2 _ 16).
  - assert (Z.lor c SE_SELF_RELATIVE <> 0); [|lia]. intros E%Z.lor_eq_0_iff. by destruct E.
  - rewrite Z.log2_lor by (done || lia). apply Z.max_lub_lt; [|done]. destruct (Z.eq_dec c 0) as [->|]; [done|]. apply Z.log2_lt_pow2; lia.
Qed.

Lemma self_relative_set c : IsSetFlag (Z.lor c SE_SELF_RELATIVE) SE_SELF_RELATIVE = true.
Proof. change SE_SELF_RELATIVE with (2 ^ 15). rewrite IsSetFlag_bit by lia. rewrite Z.lor_spec, Z.pow2_bits_true by lia. apply orb_true_r. Qed.

Lemma map_acls_rel (s : sd_spec) : view_rel eq (fun _ _ => True) s (map_acls fit s).
Proof.
  split; cbn; try done.
  - destruct (v_dacl s) as [[[a|] d]|]; cbn; repeat constructor.
  - destruct (v_sacl s) as [[[a|] d]|]; cbn; repeat constructor.
Qed.

Lemma acl_of_map (s : sd_spec) : acl_of (v_dacl (map_acls fit s)) = fit <$> acl_of (v_dacl s) /\ acl_of (v_sacl (map_acls fit s)) = fit <$> acl_of (v_sacl s).
Proof. by destruct s as [? ? [[[?|] ?]|] [[[?|] ?]|] ? ?]. Qed.

Lemma acl_part_le p o rest : option_Forall2 acl_mem p o -> forall a, fit <$> o = Some a -> acl_le (acl_part o ++ rest) a.
Proof.
  intros [q a [Hw _]|] a' [= <-]. split; [|by exists rest]. pose proof (as_used_range a Hw). destruct Hw as (? & ? & ?).
  unfold acl_spec_wf, fit, as_used in *. cbn [as_aces as_revision as_size]. split_and!; try done; lia.
Qed.

Lemma sid_part_le e p o rest : option_Forall2 (sid_at e) p o -> forall s, o = Some s -> sid_at LittleEndian (sid_part o ++ rest) s.
Proof. intros [q s [Hw _]|] s' [= <-]. split; [done|by exists rest]. Qed.

Lemma off_of_fmap {A B} (f : A -> B) (o : option A) off : off_of (f <$> o) off = off_of o off.
Proof. by destruct o. Qed.
Lemma off_of_range {A} (o : option A) off : 0 <= off < 2 ^ 32 -> 0 <= off_of o off < 2 ^ 32.
Proof. destruct o; cbn; lia. Qed.

(** The header written. *)
Definition image_header (control : Z) (s : sd_spec) : SECURITY_DESCRIPTOR_RELATIVE :=
  {| rel_Revision := 1; rel_Sbz1 := v_sbz1 s; rel_Control := Z.lor control SE_SELF_RELATIVE;
     rel_Owner := off_of (v_owner s).1 20; rel_Group := off_of (v_group s).1 (group_off s);
     rel_Sacl := off_of (acl_of (v_sacl s)) (sacl_off s); rel_Dacl := off_of (acl_of (v_dacl s)) (dacl_off s) |}.

Lemma rel_image_means sd s fo fg fs fd post : sd_at sd s -> sids_valid s -> clean s fo fg fs fd ->
  let h := image_header (sd_Control sd) s in let b := rel_image (sd_Control sd) s fo fg fs fd post in
  zlen b = rel_size s + zlen post /\ (exists rest, b = rel_header LittleEndian h ++ rest) /\ rel_ok h /\
  IsSetFlag (rel_Control h) SE_SELF_RELATIVE = true /\ sd_means (sid_at LittleEndian) acl_le (make_absHeader b h) (map_acls fit s).
Proof.
  intros Hm Hv (C1 & C2 & C3 & C4). destruct (means_parts Hm) as (Po & Pg & Pd & Ps). destruct (size_used_at sd s Hm Hv) as [_ Hrange].
  assert (HR : forall q a, acl_mem q a -> acl_spec_wf a) by (intros q a Ha; apply Ha).
  pose proof (opt_sid_len_range _ _ _ Po). pose proof (opt_sid_len_range _ _ _ Pg).
  pose proof (opt_acl_len_range _ _ _ HR Pd). pose proof (opt_acl_len_range _ _ _ HR Ps).
  pose proof (zlen_sid_part _ _ _ Po) as L1. pose proof (zlen_sid_part _ _ _ Pg) as L2.
  pose proof (zlen_acl_part _ _ _ HR Pd) as L3. pose proof (zlen_acl_part _ _ _ HR Ps) as L4.
  intros h. unfold rel_image. rewrite !field_off by done. set (body := sid_part _ ++ _).
  change ([1; v_sbz1 s] ++ _) with (rel_header LittleEndian h).
  assert (F : rel_Revision h = 1 /\ rel_Sbz1 h = v_sbz1 s /\ rel_Control h = Z.lor (sd_Control sd) SE_SELF_RELATIVE /\
    rel_Owner h = off_of (v_owner s).1 20 /\ rel_Group h = off_of (v_group s).1 (group_off s) /\
    rel_Sacl h = off_of (acl_of (v_sacl s)) (sacl_off s) /\ rel_Dacl h = off_of (acl_of (v_dacl s)) (dacl_off s)) by done.
  clearbody h. destruct F as (F1 & F2 & F3 & F4 & F5 & F6 & F7). pose proof (zlen_rel_header LittleEndian h) as Lh.
  split; [unfold body; rewrite !zlen_app; unfold rel_size; lia|]. unfold rel_size in Hrange. split; [by exists body|]. pose proof Hm as [Hw Hc Hz Hvw]. pose proof (vr_sbz1 _ _ _ _ Hvw) as Vz. cbn [view v_sbz1] in Vz.
  split. { split; rewrite ?F1, ?F2, ?F3, ?F4, ?F5, ?F6, ?F7; try (apply off_of_range; unfold sacl_off, dacl_off, group_off; lia); try lia. by apply self_relative_range. }
  split; [rewrite F3; apply self_relative_set|]. destruct (acl_of_map s) as [Ed Es].
  apply (means_change (sid_at host) acl_mem _ _ sd _ s); rewrite ?Ed, ?Es;
    cbn [make_absHeader sd_Revision sd_Sbz1 sd_Control sd_Owner sd_Group sd_Dacl sd_Sacl map_acls v_owner v_group];
    rewrite ?F1, ?F2, ?F3, ?F4, ?F5, ?F6, ?F7; try done.
  - by rewrite (hw_revision _ Hw).
  - by rewrite clear_self_relative by apply Hw.
  - apply (relative_part_off _ _ _ _ (rel_header LittleEndian h) body); [lia|done|lia|]. by apply (sid_part_le _ _ _ _ Po).
  - apply (relative_part_off _ _ _ _ (rel_header LittleEndian h ++ sid_part (v_owner s).1) (drop (length (sid_part (v_owner s).1)) body));
      unfold body; rewrite ?drop_app_length; rewrite <- ?app_assoc; rewrite ?zlen_app; unfold group_off; try done; try lia.
    by apply (sid_part_le _ _ _ _ Pg).
  - rewrite <- (off_of_fmap fit (acl_of (v_dacl s))). apply (relative_part_off _ _ _ _ (rel_header LittleEndian h ++ sid_part (v_owner s).1 ++ sid_part (v_group s).1)
      (acl_part (acl_of (v_dacl s)) ++ acl_part (acl_of (v_sacl s)) ++ post));
      unfold body; rewrite <- ?app_assoc; rewrite ?zlen_app; unfold dacl_off, group_off; try done; try lia.
    by apply (acl_part_le _ _ _ Pd).
  - rewrite <- (off_of_fmap fit (acl_of (v_sacl s))). apply (relative_part_off _ _ _ _ (rel_header LittleEndian h ++ sid_part (v_owner s).1 ++ sid_part (v_group s).1
      ++ acl_part (acl_of (v_dacl s))) (acl_part (acl_of (v_sacl s)) ++ post));
      unfold body; rewrite <- ?app_assoc; rewrite ?zlen_app; unfold sacl_off, dacl_off, group_off; try done; try lia.
    by apply (acl_part_le _ _ _ Ps).
  - apply map_acls_rel.
Qed.

Lemma rel_image_at sd s fo fg fs fd post : sd_at sd s -> sids_valid s -> clean s fo fg fs fd ->
  rel_at (rel_image (sd_Control sd) s fo fg fs fd post) (map_acls fit s).
Proof.
  intros Hm Hv Hc. destruct (rel_image_means sd s fo fg fs fd post Hm Hv Hc) as (_ & (rest & E) & ? & ? & ?).
  exists (image_header (sd_Control sd) s), rest. done.
Qed.
End Encode.

(** * Reading the self-relative form *)

Section Decode.
Context `{Host} `{Layout}.

(** A buffer holds [n] bytes when a part needs it. *)
Definition has_room {A} (o : option A) (p : ptr) (n : Z) : Prop := o <> None -> exists d, p = Some d /\ n <= zlen d.

(** The field of the descriptor after a part was converted. *)
Definition set_part {A} (o : option A) (set : SECURITY_DESCRIPTOR_ABSOLUTE -> ptr -> SECURITY_DESCRIPTOR_ABSOLUTE)
    (sd : SECURITY_DESCRIPTOR_ABSOLUTE) (p : ptr) : SECURITY_DESCRIPTOR_ABSOLUTE :=
  match o with Some _ => set sd p | None => sd end.

Lemma convert_sid_at p o d set sd : option_Forall2 (sid_at LittleEndian) p o -> has_room o d (sid_len o) ->
  exists d', convert_sid p d set (Some sd) = Some (d', Some (set_part o set sd d')) /\
    option_Forall2 (sid_at host) (match o with Some _ => d' | None => None end) o.
Proof.
  intros Ho Hr. destruct Ho as [q s Hs|]; cbn [sid_len set_part] in *.
  - destruct Hr as (m & -> & Hm); [done|]. pose proof (sid_at_wf _ _ _ Hs) as Hw. pose proof (sid_count_nonneg s).
    destruct (zlen_split m (8 + 4 * sid_count s)) as (old & post & -> & Hl); [lia|].
    exists (Some (sid_bytes host s ++ post)). cbn [convert_sid].
    rewrite (RtlpDecodeLittleEndianSid_spec q s [] old post Hs Hl : RtlpDecodeLittleEndianSid q (old ++ post) 0 = _). bsimpl. split; [done|]. constructor. split; [done|by exists post].
  - exists d. split; [by destruct d|constructor].
Qed.

Lemma convert_acl_at p o d set sd : option_Forall2 acl_le p o -> has_room o d (acl_room o) ->
  exists d', convert_acl p d set (Some sd) = Some (STATUS_SUCCESS, (d', Some (set_part o set sd d'))) /\
    option_Forall2 acl_mem (match o with Some _ => d' | None => None end) o.
Proof.
  intros Ho Hr. destruct Ho as [q a [Hw [rest ->]]|]; cbn [acl_room set_part] in *.
  - destruct Hr as (m & -> & Hm); [done|]. pose proof (as_used_range a Hw) as Hu. pose proof Hw as (Hx & Hrev & _). unfold as_used in Hu.
    destruct (zlen_split m (8 + std_lens (as_aces a))) as (old & post & -> & Hl); [lia|]. rewrite zlen_app in Hm.
    exists (Some (std_acl_image host (as_revision a) (as_size a) (as_aces a) ++ post)). cbn [convert_acl].
    rewrite RtlpDecodeLittleEndianAcl_ok by (done || lia). okstep. split; [done|]. constructor. split; [done|].
    apply std_acl_image_at; done || lia.
  - exists d. split; [by destruct d|constructor].
Qed.

(** Room for every part of [s]. *)
Definition buffers_for (s : sd_spec) (out : abs_buffers) : Prop :=
  b_sd out <> None /\ has_room (v_owner s).1 (b_owner out) (sid_len (v_owner s).1) /\
  has_room (v_group s).1 (b_group out) (sid_len (v_group s).1) /\
  has_room (acl_of (v_dacl s)) (b_dacl out) (acl_room (acl_of (v_dacl s))) /\
  has_room (acl_of (v_sacl s)) (b_sacl out) (acl_room (acl_of (v_sacl s))).

Lemma view_rel_refl (s : sd_spec) : view_rel eq (fun _ _ => True) s s.
Proof.
  split; try done; try (split; [by apply option_Forall2_refl|done]).
  - destruct (v_dacl s) as [[[a|] d]|]; repeat constructor.
  - destruct (v_sacl s) as [[[a|] d]|]; repeat constructor.
Qed.

Lemma write_absolute_at hd s out : sd_means (sid_at LittleEndian) acl_le hd s -> buffers_for s out ->
  exists out' sd, write_absolute hd out = Some (STATUS_SUCCESS, out') /\ b_sd out' = Some sd /\ sd_at sd s.
Proof.
  intros Hm (Bs & Bo & Bg & Bd & Ba). destruct (means_parts Hm) as (Po & Pg & Pd & Ps). unfold write_absolute.
  destruct (b_sd out) as [sd0|]; [|done]. bsimpl.
  destruct (convert_sid_at _ _ _ set_Owner hd Po Bo) as (d1 & -> & Q1). bsimpl. set (sd1 := set_part _ _ _ _).
  destruct (convert_sid_at _ _ _ set_Group sd1 Pg Bg) as (d2 & -> & Q2). bsimpl. set (sd2 := set_part _ _ sd1 _).
  destruct (convert_acl_at _ _ _ set_Sacl sd2 Ps Ba) as (d3 & -> & Q3). okstep. set (sd3 := set_part _ _ sd2 _).
  destruct (convert_acl_at _ _ _ set_Dacl sd3 Pd Bd) as (d4 & -> & Q4). bsimpl. eexists _, (set_part _ set_Dacl sd3 d4).
  split; [done|]. split; [done|].
  assert (N : forall A B (R R' : A -> B -> Prop) (p : option A), option_Forall2 R p None -> option_Forall2 R' p None)
    by (intros A B R R' p Hp; inversion Hp; constructor).
  apply (means_change _ _ _ _ hd _ s s Hm); [..|apply view_rel_refl]; unfold sd3, sd2, sd1, set_part; clear -Q1 Q2 Q3 Q4 Po Pg Pd Ps N;
    revert Q1 Q2 Q3 Q4 Po Pg Pd Ps;
    destruct (v_owner s).1, (v_group s).1, (acl_of (v_sacl s)), (acl_of (v_dacl s)); intros; cbn; eauto.
Qed.

(** The lengths the operation reports. *)
Definition lens_of (s : sd_spec) : abs_lengths :=
  mk_lengths (Some sizeof_SECURITY_DESCRIPTOR_ABSOLUTE) (Some (acl_room (acl_of (v_dacl s)))) (Some (acl_room (acl_of (v_sacl s))))
    (Some (sid_len (v_owner s).1)) (Some (sid_len (v_group s).1)).

(** The operation on a self-relative descriptor, in terms of its meaning. *)
Lemma relative_to_absolute_at b s out zs zd za zo zg : rel_at b s ->
  missing zs (b_sd out) || missing zd (b_dacl out) || missing za (b_sacl out) || missing zo (b_owner out) || missing zg (b_group out) = false ->
  let small := (zs <? sizeof_SECURITY_DESCRIPTOR_ABSOLUTE) || (zo <? sid_len (v_owner s).1) || (zg <? sid_len (v_group s).1)
               || (za <? acl_room (acl_of (v_sacl s))) || (zd <? acl_room (acl_of (v_dacl s))) in
  if small then RtlSelfRelativeToAbsoluteSD b out (mk_lengths (Some zs) (Some zd) (Some za) (Some zo) (Some zg))
                = Some (STATUS_BUFFER_TOO_SMALL, out, lens_of s)
  else buffers_for s out ->
    exists out' sd, RtlSelfRelativeToAbsoluteSD b out (mk_lengths (Some zs) (Some zd) (Some za) (Some zo) (Some zg))
                    = Some (STATUS_SUCCESS, out', lens_of s) /\ b_sd out' = Some sd /\ sd_at sd s.
Proof.
  intros (h & rest & Eb & Hok & Hself & Hm) Hmiss small. destruct (means_parts Hm) as (Po & Pg & Pd & Ps).
  assert (E : RtlSelfRelativeToAbsoluteSD b out (mk_lengths (Some zs) (Some zd) (Some za) (Some zo) (Some zg)) =
    if small then Some (STATUS_BUFFER_TOO_SMALL, out, lens_of s)
    else ('(st, out) ← write_absolute (make_absHeader b h) out; Some (st, out, lens_of s))).
  { unfold RtlSelfRelativeToAbsoluteSD. rewrite Hmiss, Eb, load_relHeader_image, <- Eb by done. bsimpl. rewrite Hself. cbn [negb].
    rewrite (proj2 (verify_header_iff _) (sm_header _ _ _ _ Hm)). cbn [NT_SUCCESS negb].
    rewrite (required_sid_le _ _ Po), (required_sid_le _ _ Pg), (required_acl_le _ _ Pd), (required_acl_le _ _ Ps). done. }
  rewrite E. destruct small; [done|]. intros Hout. destruct (write_absolute_at _ s out Hm Hout) as (out' & sd & -> & ? & ?).
  exists out', sd. done.
Qed.

(** ** Into fresh blocks *)

Section Create.
Context (malloc : Z -> bool).

(** The allocator has the blocks for [s]. *)
Definition part_fits (n : Z) : bool := (n =? 0) || malloc n.
Definition memory_for (s : sd_spec) : bool :=
  part_fits (sid_len (v_owner s).1) && part_fits (sid_len (v_group s).1) && part_fits (acl_room (acl_of (v_dacl s)))
  && part_fits (acl_room (acl_of (v_sacl s))) && malloc sizeof_SECURITY_DESCRIPTOR_ABSOLUTE.

Lemma allocate_part_spec n : allocate_part malloc n =
  (if part_fits n then STATUS_SUCCESS else STATUS_INSUFFICIENT_RESOURCES, if (n =? 0) || negb (malloc n) then None else Some (zeros n)).
Proof. unfold allocate_part, part_fits, RTL_ALLOCATE. destruct (n =? 0); [done|]. by destruct (malloc n). Qed.

(** A block of the size of a part has room for it, and the size is not larger. *)
Lemma allocated_room {A} (o : option A) n : (o <> None -> 0 < n) -> 0 <= n -> part_fits n = true ->
  let p := if (n =? 0) || negb (malloc n) then None else Some (zeros n) in has_room o p n /\ missing n p = false.
Proof.
  unfold part_fits, missing. intros Ho Hn Hf. destruct (Z.eqb_spec n 0) as [->|]; cbn [orb negb] in *.
  - split; [|done]. intros Hs%Ho. lia.
  - rewrite Hf. cbn. split; [|by rewrite andb_false_r]. intros _. exists (zeros n). split; [done|]. rewrite zlen_zeros; lia.
Qed.

Lemma rel_at_lens b s : rel_at b s ->
  (0 <= sid_len (v_owner s).1 /\ ((v_owner s).1 <> None -> 0 < sid_len (v_owner s).1)) /\
  (0 <= sid_len (v_group s).1 /\ ((v_group s).1 <> None -> 0 < sid_len (v_group s).1)) /\
  (0 <= acl_room (acl_of (v_dacl s)) /\ (acl_of (v_dacl s) <> None -> 0 < acl_room (acl_of (v_dacl s)))) /\
  (0 <= acl_room (acl_of (v_sacl s)) /\ (acl_of (v_sacl s) <> None -> 0 < acl_room (acl_of (v_sacl s)))).
Proof.
  intros (h & rest & _ & _ & _ & Hm). destruct (means_parts Hm) as (Po & Pg & Pd & Ps).
  assert (S : forall p o, option_Forall2 (sid_at LittleEndian) p o -> 0 <= sid_len o /\ (o <> None -> 0 < sid_len o)).
  { intros p o [q x [Hw _]|]; cbn [sid_len]; [pose proof (sid_len_range x Hw)|]; split; done || lia. }
  assert (A : forall p o, option_Forall2 acl_le p o -> 0 <= acl_room o /\ (o <> None -> 0 < acl_room o)).
  { intros p o [q x [Hw _]|]; cbn [acl_room]; [pose proof (as_used_range x Hw)|]; split; done || lia. }
  exact (conj (S _ _ Po) (conj (S _ _ Pg) (conj (A _ _ Pd) (A _ _ Ps)))).
Qed.

Lemma create_abs_at b s : rel_at b s ->
  if memory_for s then exists sd, RtlpCreateAbsSecDescFromRelative malloc b = Some (STATUS_SUCCESS, Some sd) /\ sd_at sd s
  else RtlpCreateAbsSecDescFromRelative malloc b = Some (STATUS_INSUFFICIENT_RESOURCES, None).
Proof.
  intros Hb. pose proof sizeof_pointer_range. destruct (rel_at_lens b s Hb) as ((Lo & Lo') & (Lg & Lg') & (Ld & Ld') & (La & La')).
  pose proof (relative_to_absolute_at b s (mk_buffers None None None None None) 0 0 0 0 0 Hb eq_refl) as Q. cbv zeta in Q.
  replace (0 <? sizeof_SECURITY_DESCRIPTOR_ABSOLUTE) with true in Q by (symmetry; apply Z.ltb_lt; unfold sizeof_SECURITY_DESCRIPTOR_ABSOLUTE; lia).
  cbn [orb] in Q. unfold RtlpCreateAbsSecDescFromRelative, memory_for. rewrite Q. bsimpl. clear Q.
  rewrite bool_decide_eq_true_2, is_ok_success by done. cbn [negb lens_of]. rewrite !allocate_part_spec.
  destruct (part_fits (sid_len (v_owner s).1)) eqn:Fo; [|done]. destruct (part_fits (sid_len (v_group s).1)) eqn:Fg; [|done].
  destruct (part_fits (acl_room (acl_of (v_dacl s)))) eqn:Fd; [|done]. destruct (part_fits (acl_room (acl_of (v_sacl s)))) eqn:Fa; [|done].
  unfold RTL_ALLOCATE. cbn [andb]. destruct (malloc sizeof_SECURITY_DESCRIPTOR_ABSOLUTE) eqn:Fs; [|done]. okstep.
  destruct (allocated_room _ _ Lo' Lo Fo) as [Ro Mo]. destruct (allocated_room _ _ Lg' Lg Fg) as [Rg Mg].
  destruct (allocated_room _ _ Ld' Ld Fd) as [Rd Md]. destruct (allocated_room _ _ La' La Fa) as [Ra Ma].
  set (out := mk_buffers _ _ _ _ _).
  pose proof (relative_to_absolute_at b s out sizeof_SECURITY_DESCRIPTOR_ABSOLUTE (acl_room (acl_of (v_dacl s)))
    (acl_room (acl_of (v_sacl s))) (sid_len (v_owner s).1) (sid_len (v_group s).1) Hb) as Q.
  cbv zeta in Q. rewrite !Z.ltb_irrefl in Q. cbn [orb] in Q. destruct Q as (out' & sd & E & Esd & Hsd).
  - unfold out. cbn [b_sd b_dacl b_sacl b_owner b_group]. rewrite Mo, Mg, Md, Ma. unfold missing. bsimpl. by rewrite andb_false_r.
  - done.
  - change (mk_lengths _ _ _ _ _) with (lens_of s) in E at 1. rewrite E. okstep. exists sd. by rewrite Esd.
Qed.
End Create.
End Decode.

(** * Validation *)

(** The information a caller requires is there. *)
Definition has_information (req : Z) (s : sd_spec) : Prop :=
  (IsSetFlag req OWNER_SECURITY_INFORMATION = true -> (v_owner s).1 <> None) /\
  (IsSetFlag req GROUP_SECURITY_INFORMATION = true -> (v_group s).1 <> None) /\
  (IsSetFlag req SACL_SECURITY_INFORMATION = true -> v_sacl s <> None) /\
  (IsSetFlag req DACL_SECURITY_INFORMATION = true -> v_dacl s <> None).

Section Validate.
Context `{Host}.

(** A part at offset [off] lies inside the first [n] bytes. *)
Definition inside {A} (o : option A) (off len n : Z) : Prop := o <> None -> off + len <= n.

Section Offset.
Context (b : mem) (n used off : Z).
Context (Hn : n <= zlen b) (Hn32 : n < 2 ^ 32) (Hoff : 0 <= off < 2 ^ 32) (Hused : 0 <= used < 2 ^ 31).

Lemma verify_offset_sid o : bytes_ok b ->
  option_Forall2 (sid_at LittleEndian) (relative_part b off) o -> sid_bad o = false -> inside o off (sid_len o) n ->
  RtlpVerifyRelativeSecurityDescriptorOffset b n used off RtlpIsValidLittleEndianSidBuffer = Some (STATUS_SUCCESS, used + sid_len o).
Proof using Hn Hn32 Hoff Hused.
  intros Hb Ho Hbad Hin. pose proof (opt_sid_len_range _ _ _ Ho). unfold RtlpVerifyRelativeSecurityDescriptorOffset. unfold relative_part in Ho.
  destruct (Z.eqb_spec off 0); inversion Ho as [q s Hs E1 E2|E1 E2]; subst o; cbn [sid_len] in *; [by rewrite Z.add_0_r|].
  specialize (Hin ltac:(done)). destruct (Z.ltb_spec n off); [lia|]. rewrite u32_small by lia. cbn [sid_bad] in Hbad. apply negb_false_iff in Hbad.
  assert (Hb' : bytes_ok (padd b off)) by (unfold padd; by apply Forall_drop).
  assert (Hl : zlen (padd b off) = zlen b - off) by (unfold padd, zlen in *; rewrite length_drop; lia).
  destruct (RtlpIsValidLittleEndianSidBuffer_spec (padd b off) (n - off) Hb') as [_ Hv]; [lia..|].
  rewrite (proj2 (Hv (8 + 4 * sid_count s))) by (exists s; split_and!; done || lia). bsimpl. cbn [negb]. by rewrite u32_small by lia.
Qed.

Lemma verify_offset_acl o : option_Forall2 acl_le (relative_part b off) o ->
  (forall a, o = Some a -> Forall std_valid (as_aces a)) -> inside o off (acl_room o) n ->
  RtlpVerifyRelativeSecurityDescriptorOffset b n used off RtlpIsValidLittleEndianAclBuffer = Some (STATUS_SUCCESS, used + acl_room o).
Proof using Hn Hn32 Hoff Hused.
  intros Ho Hval Hin. unfold RtlpVerifyRelativeSecurityDescriptorOffset. unfold relative_part in Ho.
  destruct (Z.eqb_spec off 0); inversion Ho as [q a [Hw [rest Ea]] E1 E2|E1 E2]; subst o; cbn [acl_room] in *; [by rewrite Z.add_0_r|].
  specialize (Hin ltac:(done)). pose proof (as_used_range a Hw) as Hu. pose proof Hw as (_ & Hr & _).
  destruct (Z.ltb_spec n off); [lia|]. rewrite u32_small, Ea by lia. unfold as_used in Hu.
  rewrite le_acl_buffer_complete by (done || lia || by apply Hval). bsimpl. cbn [negb]. by rewrite u32_small by lia.
Qed.
End Offset.

(** The bytes the parts of [s] take, as the validity test counts them. *)
Definition rel_room (s : sd_spec) : Z :=
  20 + sid_len (v_owner s).1 + sid_len (v_group s).1 + acl_room (acl_of (v_sacl s)) + acl_room (acl_of (v_dacl s)).

(** All parts lie inside the first [n] bytes. *)
Definition all_inside (h : SECURITY_DESCRIPTOR_RELATIVE) (s : sd_spec) (n : Z) : Prop :=
  inside (v_owner s).1 (rel_Owner h) (sid_len (v_owner s).1) n /\ inside (v_group s).1 (rel_Group h) (sid_len (v_group s).1) n /\
  inside (acl_of (v_sacl s)) (rel_Sacl h) (acl_room (acl_of (v_sacl s))) n /\
  inside (acl_of (v_dacl s)) (rel_Dacl h) (acl_room (acl_of (v_dacl s))) n.

Lemma opt_acl_room_range p o : option_Forall2 acl_le p o -> 0 <= acl_room o < 65536.
Proof. intros [q a [Hw _]|]; cbn [acl_room]; [pose proof (as_used_range a Hw)|]; lia. Qed.

(** A null offset field is an absent part, and the other way round. *)
Lemma relative_part_none {A} (R : mem -> A -> Prop) b off o : option_Forall2 R (relative_part b off) o -> (off =? 0) = bool_decide (o = None).
Proof. unfold relative_part. destruct (off =? 0); intros Ho; inversion Ho; subst; symmetry; [by apply bool_decide_eq_true_2|by apply bool_decide_eq_false_2]. Qed.

Lemma required_holds req f (c : bool) : (IsSetFlag req f = true -> c = false) -> IsSetFlag req f && c = false.
Proof. destruct (IsSetFlag req f); [|done]. intros E. by rewrite E. Qed.

Lemma clear_frame c k : 0 <= k -> k <> 15 -> IsSetFlag (ClearFlag c SE_SELF_RELATIVE) (2 ^ k) = IsSetFlag c (2 ^ k).
Proof.
  intros Hk H15. change SE_SELF_RELATIVE with (2 ^ 15). change (ClearFlag c ?m) with (put_flag false c m). rewrite IsSetFlag_put by lia.
  destruct (Z.eqb_spec 15 k); [lia|done].
Qed.

Lemma clear_range c f : 0 <= c < 65536 -> 0 <= ClearFlag c f < 65536.
Proof.
  intros Hc. assert (E : Z.land c (Z.ones 16) = c) by (rewrite Z.land_ones by lia; by apply Z.mod_small).
  replace (ClearFlag c f) with (Z.land (ClearFlag c f) (Z.ones 16)).
  - rewrite Z.land_ones by lia. by apply Z.mod_pos_bound.
  - unfold ClearFlag. revert E. generalize (Z.ones 16). intros m E. zbits.
Qed.

Lemma relative_present RS RA b h s : sd_means RS RA (make_absHeader b h) s ->
  negb (IsSetFlag (rel_Control h) SE_DACL_PRESENT) = bool_decide (v_dacl s = None) /\
  negb (IsSetFlag (rel_Control h) SE_SACL_PRESENT) = bool_decide (v_sacl s = None).
Proof.
  intros [_ _ _ [_ _ Vd Vs _ _]]. cbn [view v_dacl v_sacl make_absHeader sd_Control] in Vd, Vs.
  change SE_DACL_PRESENT with (2 ^ 2) in *. change SE_SACL_PRESENT with (2 ^ 4) in *. rewrite clear_frame in Vd, Vs by lia.
  split; [destruct (IsSetFlag _ (2 ^ 2)); inversion Vd|destruct (IsSetFlag _ (2 ^ 4)); inversion Vs]; symmetry;
    (by apply bool_decide_eq_true_2) || by apply bool_decide_eq_false_2.
Qed.

Lemma verify_relative_complete b n req h rest s :
  bytes_ok b -> b = rel_header LittleEndian h ++ rest -> rel_ok h -> IsSetFlag (rel_Control h) SE_SELF_RELATIVE = true ->
  sd_means (sid_at LittleEndian) acl_le (make_absHeader b h) s -> sids_valid s -> aces_valid s -> has_information req s ->
  LW_IS_VALID_FLAGS req VALID_SECURITY_INFORMATION_MASK = true -> all_inside h s n -> rel_room s <= n <= zlen b -> n < 2 ^ 32 ->
  RtlpVerifyRelativeSecurityDescriptorWithErrorSubcode b n req = Some (STATUS_SUCCESS, REL_SD_INVALID_OFFSET_DACL).
Proof.
  intros Hbytes Eb Hok Hself Hm [Bo Bg]%sids_bad_iff [Ad Aa] (Ro & Rg & Rs & Rd) Hreq (Io & Ig & Is & Id) Hn Hn32.
  destruct (means_parts Hm) as (Po & Pg & Pd & Ps). cbn [make_absHeader sd_Owner sd_Group sd_Dacl sd_Sacl] in *.
  pose proof (opt_sid_len_range _ _ _ Po). pose proof (opt_sid_len_range _ _ _ Pg). pose proof (opt_acl_room_range _ _ Pd).
  pose proof (opt_acl_room_range _ _ Ps). unfold rel_room in Hn. pose proof Hok as [_ _ _ Ko Kg Ks Kd].
  unfold RtlpVerifyRelativeSecurityDescriptorWithErrorSubcode. rewrite Hreq. change SECURITY_DESCRIPTOR_RELATIVE_MIN_SIZE with 20. cbn [negb].
  destruct (Z.ltb_spec n 20); [lia|]. rewrite Eb, load_relHeader_image, <- Eb by done. bsimpl. rewrite Hself. cbn [negb].
  rewrite (relative_part_none _ _ _ _ Po), (relative_part_none _ _ _ _ Pg).
  rewrite (required_holds req OWNER_SECURITY_INFORMATION) by (intros F; apply bool_decide_eq_false_2, (Ro F)).
  rewrite (required_holds req GROUP_SECURITY_INFORMATION) by (intros F; apply bool_decide_eq_false_2, (Rg F)).
  destruct (relative_present _ _ _ _ _ Hm) as [-> ->].
  rewrite (required_holds req SACL_SECURITY_INFORMATION) by (intros F; apply bool_decide_eq_false_2, (Rs F)).
  rewrite (required_holds req DACL_SECURITY_INFORMATION) by (intros F; apply bool_decide_eq_false_2, (Rd F)).
  rewrite (proj2 (verify_header_iff _) (sm_header _ _ _ _ Hm)), is_ok_success. cbn [negb].
  unfold verify_offsets. change SECURITY_DESCRIPTOR_RELATIVE_MIN_SIZE with 20.
  rewrite (verify_offset_sid b n 20 (rel_Owner h)) with (o := (v_owner s).1) by (done || lia). okstep.
  rewrite (verify_offset_sid b n _ (rel_Group h)) with (o := (v_group s).1) by (done || lia). okstep.
  rewrite (verify_offset_acl b n _ (rel_Sacl h)) with (o := acl_of (v_sacl s)) by (done || lia). okstep.
  rewrite (verify_offset_acl b n _ (rel_Dacl h)) with (o := acl_of (v_dacl s)) by (done || lia). okstep.
  destruct (Z.ltb_spec n (20 + sid_len (v_owner s).1 + sid_len (v_group s).1 + acl_room (acl_of (v_sacl s)) + acl_room (acl_of (v_dacl s)))); [lia|done].
Qed.

(** ** What an accepted buffer means *)

(** A descriptor whose parts have a meaning has one. *)
Lemma means_build RS RA sd o g d a :
  header_wf sd -> 0 <= sd_Control sd < 65536 -> 0 <= sd_Sbz1 sd < 256 ->
  option_Forall2 RS (sd_Owner sd) o -> option_Forall2 RS (sd_Group sd) g ->
  option_Forall2 RA (sd_Dacl sd) d -> option_Forall2 RA (sd_Sacl sd) a ->
  exists s, sd_means RS RA sd s /\ (v_owner s).1 = o /\ (v_group s).1 = g /\ acl_of (v_dacl s) = d /\ acl_of (v_sacl s) = a.
Proof.
  intros Hw Hc Hz Po Pg Pd Pa. set (c := sd_Control sd).
  exists (mk_view (o, IsSetFlag c SE_OWNER_DEFAULTED) (g, IsSetFlag c SE_GROUP_DEFAULTED)
            (if IsSetFlag c SE_DACL_PRESENT then Some (d, IsSetFlag c SE_DACL_DEFAULTED) else None)
            (if IsSetFlag c SE_SACL_PRESENT then Some (a, IsSetFlag c SE_SACL_DEFAULTED) else None) (Z.ldiff c part_bits) (sd_Sbz1 sd)).
  pose proof (hw_dacl _ Hw) as H6. pose proof (hw_sacl _ Hw) as H7. cbn [v_owner v_group v_dacl v_sacl fst]. split; [split; try done|].
  - split; cbn; fold c; try done; [destruct (IsSetFlag c SE_DACL_PRESENT)|destruct (IsSetFlag c SE_SACL_PRESENT)]; by repeat constructor.
  - do 2 (split; [done|]). fold c in H6, H7. split.
    + destruct (IsSetFlag c SE_DACL_PRESENT); [done|]. destruct H6 as [E6 _]; [done|]. rewrite E6 in Pd. by inversion Pd.
    + destruct (IsSetFlag c SE_SACL_PRESENT); [done|]. destruct H7 as [E7 _]; [done|]. rewrite E7 in Pa. by inversion Pa.
Qed.

Lemma le_field b off n v : bytes_ok b -> rd b off (Z.of_nat n) = Some v -> encode LittleEndian n (le_decode v) = v /\ 0 <= le_decode v < 256 ^ Z.of_nat n.
Proof.
  intros Hb Hr. pose proof (rd_length _ _ _ _ Hr) as Hl. pose proof (bytes_ok_rd _ _ _ _ Hb Hr) as Hv.
  pose proof (le_decode_range v Hv) as Hd. rewrite Hl in Hd. split; [by apply le_encode_decode_n|done].
Qed.

Lemma load_relHeader_inv b : bytes_ok b -> 20 <= zlen b ->
  exists h rest, load_relHeader b = Some h /\ b = rel_header LittleEndian h ++ rest /\ rel_ok h.
Proof.
  intros Hb Hl. destruct b as [|r [|z b]]; [zl..|]. rewrite !zlen_cons in Hl.
  destruct (zlen_split b 2) as (w2 & b2 & -> & L2); [lia|]. rewrite zlen_app in Hl.
  destruct (zlen_split b2 4) as (w4 & b4 & -> & L4); [lia|]. rewrite zlen_app in Hl.
  destruct (zlen_split b4 4) as (w8 & b8 & -> & L8); [lia|]. rewrite zlen_app in Hl.
  destruct (zlen_split b8 4) as (w12 & b12 & -> & L12); [lia|]. rewrite zlen_app in Hl.
  destruct (zlen_split b12 4) as (w16 & rest & -> & L16); [lia|]. apply Forall_cons_iff in Hb as [Hr [Hz Hb]%Forall_cons_iff].
  fold (bytes_ok (w2 ++ w4 ++ w8 ++ w12 ++ w16 ++ rest)) in Hb. rewrite !bytes_ok_app in Hb. destruct Hb as (B2 & B4 & B8 & B12 & B16 & _).
  set (h := {| rel_Revision := r; rel_Sbz1 := z; rel_Control := le_decode w2; rel_Owner := le_decode w4; rel_Group := le_decode w8;
               rel_Sacl := le_decode w12; rel_Dacl := le_decode w16 |}).
  assert (E : r :: z :: w2 ++ w4 ++ w8 ++ w12 ++ w16 ++ rest = rel_header LittleEndian h ++ rest).
  { unfold rel_header, h. cbn [rel_Revision rel_Sbz1 rel_Control rel_Owner rel_Group rel_Sacl rel_Dacl encode].
    rewrite !(le_encode_decode_n 2), !(le_encode_decode_n 4) by done. cbn [app]. by rewrite <- !app_assoc. }
  assert (Hok : rel_ok h).
  { pose proof (le_decode_range w2 B2) as D2. pose proof (le_decode_range w4 B4) as D4. pose proof (le_decode_range w8 B8) as D8.
    pose proof (le_decode_range w12 B12) as D12. pose proof (le_decode_range w16 B16) as D16.
    rewrite L2 in D2. rewrite L4 in D4. rewrite L8 in D8. rewrite L12 in D12. rewrite L16 in D16. split; done. }
  exists h, rest. rewrite E. split; [by apply load_relHeader_image|done].
Qed.

Section Sound.
Context (b : mem) (n : Z) (Hb : bytes_ok b) (Hn : 0 <= n <= zlen b) (Hn32 : n < 2 ^ 32).

Lemma padd_room off : 0 <= off <= n -> bytes_ok (padd b off) /\ zlen (padd b off) = zlen b - off.
Proof using Hb Hn. intros. split; [unfold padd; by apply Forall_drop|]. unfold padd, zlen in *. rewrite length_drop. lia. Qed.

Lemma verify_offset_sid_sound used off used' : 0 <= off ->
  RtlpVerifyRelativeSecurityDescriptorOffset b n used off RtlpIsValidLittleEndianSidBuffer = Some (STATUS_SUCCESS, used') ->
  exists o, option_Forall2 (sid_at LittleEndian) (relative_part b off) o /\ sid_bad o = false.
Proof using Hb Hn Hn32.
  intros Hoff Hv. unfold RtlpVerifyRelativeSecurityDescriptorOffset in Hv. unfold relative_part.
  destruct (Z.eqb_spec off 0); [exists None; split; [constructor|done]|]. destruct (Z.ltb_spec n off); [done|].
  destruct (padd_room off) as [Hb' Hl]; [lia|]. rewrite u32_small in Hv by lia.
  destruct (RtlpIsValidLittleEndianSidBuffer_spec (padd b off) (n - off) Hb') as [[[v sz] E] Hiff]; [lia..|].
  rewrite E in Hv. cbn [mbind option_bind] in Hv. destruct v; [|done]. apply Hiff in E as (x & Hx & Hvx & _).
  exists (Some x). split; [by constructor|]. cbn [sid_bad]. by rewrite Hvx.
Qed.

Lemma verify_offset_acl_sound used off used' : 0 <= off -> object_acl (padd b off) = false ->
  RtlpVerifyRelativeSecurityDescriptorOffset b n used off RtlpIsValidLittleEndianAclBuffer = Some (STATUS_SUCCESS, used') ->
  exists o, option_Forall2 acl_le (relative_part b off) o /\ forall a, o = Some a -> Forall std_valid (as_aces a).
Proof using Hb Hn Hn32.
  intros Hoff Hobj Hv. unfold RtlpVerifyRelativeSecurityDescriptorOffset in Hv. unfold relative_part.
  destruct (Z.eqb_spec off 0); [exists None; split; [constructor|done]|]. destruct (Z.ltb_spec n off); [done|].
  destruct (padd_room off) as [Hb' Hl]; [lia|]. rewrite u32_small in Hv by lia.
  destruct (RtlpIsValidLittleEndianAclBuffer (padd b off) (n - off)) as [[v sz]|] eqn:E; [|done]. cbn [mbind option_bind] in Hv.
  destruct v; [|done]. apply le_acl_buffer_sound in E as [_ (rev & xs & rest & Eq & Hxs & Hl' & Hr)]; [|done|lia..|done].
  exists (Some (mk_acl_spec rev sz xs)). split; [|by intros a [= <-]]. constructor. split; [|by exists rest].
  split; [|split; [done|unfold as_used; cbn [as_aces as_size]; lia]]. cbn [as_aces]. eapply Forall_impl; [exact Hxs|]. intros y Hy; apply Hy.
Qed.

(** No ACL of the self-relative descriptor has an object ACE. *)
Definition no_object_aces : Prop := forall h, load_relHeader b = Some h ->
  object_acl (padd b (rel_Dacl h)) = false /\ object_acl (padd b (rel_Sacl h)) = false.

Lemma required_inv req f (c : bool) : IsSetFlag req f && c = false -> IsSetFlag req f = true -> c = false.
Proof using. intros E F. by rewrite F in E. Qed.

Lemma verify_relative_sound req sub : no_object_aces ->
  RtlpVerifyRelativeSecurityDescriptorWithErrorSubcode b n req = Some (STATUS_SUCCESS, sub) ->
  exists s, rel_at b s /\ sids_valid s /\ aces_valid s /\ has_information req s.
Proof using Hb Hn Hn32.
  intros Hobj Hv. unfold RtlpVerifyRelativeSecurityDescriptorWithErrorSubcode in Hv.
  change SECURITY_DESCRIPTOR_RELATIVE_MIN_SIZE with 20 in Hv. destruct (LW_IS_VALID_FLAGS req _); [|done]. cbn [negb] in Hv.
  destruct (Z.ltb_spec n 20); [done|]. destruct (load_relHeader_inv b Hb) as (h & rest & El & Eb & Hok); [lia|].
  destruct (Hobj h El) as [Od Oa]. rewrite El in Hv. cbn [mbind option_bind] in Hv.
  destruct (IsSetFlag (rel_Control h) SE_SELF_RELATIVE) eqn:Hself; [|done]. cbn [negb] in Hv.
  destruct (_ && (rel_Owner h =? 0)) eqn:Ro; [done|]. destruct (_ && (rel_Group h =? 0)) eqn:Rg; [done|].
  destruct (_ && negb (IsSetFlag _ SE_SACL_PRESENT)) eqn:Rs; [done|]. destruct (_ && negb (IsSetFlag _ SE_DACL_PRESENT)) eqn:Rd; [done|].
  destruct (is_ok _) eqn:Ek in Hv; [|by injection Hv as Hv _; rewrite Hv in Ek]. cbn [negb] in Hv. apply is_ok_true, verify_header_iff in Ek.
  pose proof Hok as [_ Hz Hc Ko Kg Ks Kd]. unfold verify_offsets in Hv.
  assert (step : forall A (r : option (NTSTATUS * Z)) (k : Z -> option (NTSTATUS * A)) e x,
    ('(st, u) ← r; if negb (is_ok st) then Some (st, e) else k u) = Some (STATUS_SUCCESS, x) ->
    exists u, r = Some (STATUS_SUCCESS, u) /\ k u = Some (STATUS_SUCCESS, x)).
  { intros A [[st u]|] k e x E; [|done]. cbn [mbind option_bind] in E. destruct (is_ok st) eqn:Est; [|by injection E as -> _].
    apply is_ok_true in Est as ->. eauto. }
  apply step in Hv as (u1 & E1 & Hv). apply step in Hv as (u2 & E2 & Hv). apply step in Hv as (u3 & E3 & Hv).
  apply step in Hv as (u4 & E4 & _).
  apply verify_offset_sid_sound in E1 as (o & Po & Bo); [|lia]. apply verify_offset_sid_sound in E2 as (g & Pg & Bg); [|lia].
  apply verify_offset_acl_sound in E3 as (a & Pa & Va); [|lia|done]. apply verify_offset_acl_sound in E4 as (d & Pd & Vd); [|lia|done].
  destruct (means_build (sid_at LittleEndian) acl_le (make_absHeader b h) o g d a Ek) as (s & Hm & So & Sg & Sd' & Sa); try done.
  { cbn [make_absHeader sd_Control]. by apply clear_range. }
  exists s. split; [by exists h, rest|]. split; [apply sids_bad_iff; by rewrite So, Sg|].
  split; [by split; rewrite ?Sd', ?Sa|]. destruct (relative_present _ _ _ _ _ Hm) as [Fd Fs]. unfold has_information. rewrite So, Sg.
  rewrite (relative_part_none _ _ _ _ Po) in Ro. rewrite (relative_part_none _ _ _ _ Pg) in Rg. rewrite Fd in Rd. rewrite Fs in Rs.
  split_and!; intros F; eapply bool_decide_eq_false_1; eapply required_inv; eassumption.
Qed.
End Sound.
End Validate.

(** * A concrete descriptor *)

Definition demo_acl : acl_spec := mk_acl_spec 2 64 demo_std.
Definition demo_spec : sd_spec := mk_view (Some sid_system, false) (Some sid_domain, false) (Some (Some demo_acl, false)) None 0 0.
Definition demo_descriptor (e : endian) : SECURITY_DESCRIPTOR_ABSOLUTE :=
  {| sd_Revision := 1; sd_Sbz1 := 0; sd_Control := SE_DACL_PRESENT; sd_Owner := Some (sid_bytes e sid_system);
     sd_Group := Some (sid_bytes e sid_domain); sd_Sacl := None; sd_Dacl := Some (std_acl_image e 2 64 demo_std ++ zeros 4) |}.

Lemma demo_sd_at h : @sd_at h (demo_descriptor h) demo_spec.
Proof.
  assert (S : forall s, s = sid_system \/ s = sid_domain -> sid_at h (sid_bytes h s) s).
  { intros s Hs. apply known_sid_wf. destruct Hs as [-> | ->]; set_solver. }
  assert (A : @acl_mem h (std_acl_image h 2 64 demo_std ++ zeros 4) demo_acl).
  { split; [|apply demo_std_at]. split; [apply demo_std_wf|]. vm_compute. intuition congruence. }
  split; [apply verify_header_iff; vm_compute; reflexivity|vm_compute; intuition congruence|vm_compute; intuition congruence|].
  split; try done.
  - split; [constructor; apply S; by left|done].
  - split; [constructor; apply S; by right|done].
  - constructor. split; [constructor; exact A|done].
  - constructor.
Qed.

Lemma demo_valid : sids_valid demo_spec /\ aces_valid demo_spec.
Proof.
  split; split; cbn [demo_spec v_owner v_group v_dacl v_sacl acl_of fst].
  - intros x [= <-]. reflexivity.
  - intros x [= <-]. reflexivity.
  - intros a [= <-]. exact demo_std_valid.
  - intros a [=].
Qed.
