(* ===== verification/SdConvert.v ===== *)
(** The conversions between the two forms of a security descriptor as a whole:
    round trip across hosts, errors, and the safety of converting what the
    validity test accepted. *)

From S2P Require Import Prelude SecurityTypes Sid Acl AclRepr AclOps AclEdit AclCodec AclCodecOps Token TokenState TokenOps Sd SdOps SdRelative SdRepr SdRelativeOps.

(** * The bytes written *)

Lemma bytes_ok_acl_image rev size xs : RtlpValidAclRevision rev = true -> Forall std_wf xs -> bytes_ok (std_acl_image LittleEndian rev size xs).
Proof.
  intros Hr%revision_range Hx. unfold std_acl_image, acl_header, std_concat. rewrite !bytes_ok_app. split_and!.
  - repeat constructor; lia.
  - apply bytes_ok_encode.
  - apply bytes_ok_encode.
  - repeat constructor; lia.
  - induction Hx as [|x xs Hw _ IH]; [constructor|]. cbn [map concat]. apply bytes_ok_app. split; [|done].
    apply (@std_ace_wf LittleEndian x Hw).
Qed.

Lemma bytes_ok_rel_image `{Host} sd s fo fg fs fd post :
  sd_at sd s -> bytes_ok (fo ++ fg ++ fs ++ fd ++ post) -> bytes_ok (rel_image (sd_Control sd) s fo fg fs fd post).
Proof.
  intros Hm. destruct (means_parts Hm) as (Po & Pg & Pd & Ps). destruct Hm as [_ _ Hz [_ _ _ _ _ Vz]]. cbn [view v_sbz1] in Vz.
  assert (S : forall p o, option_Forall2 (sid_at host) p o -> bytes_ok (sid_part o)) by (intros p o [q x [Hw _]|]; [by apply bytes_ok_sid|constructor]).
  assert (A : forall p o, option_Forall2 acl_mem p o -> bytes_ok (acl_part o))
    by (intros p o [q x [(Hx & Hr & _) _]|]; [by apply bytes_ok_acl_image|constructor]).
  assert (F : forall X (o : option X) off f, bytes_ok f -> bytes_ok (field o off f)) by (intros X [x|] off f Hf; [apply bytes_ok_le_encode|done]).
  rewrite !bytes_ok_app. intros (F1 & F2 & F3 & F4 & F5). unfold rel_image. rewrite !bytes_ok_app. split_and!; eauto.
  - repeat constructor; lia.
  - apply bytes_ok_le_encode.
Qed.

(** The image as the validity test sees it. *)
Lemma rel_image_accepted `{Layout} (h1 h2 : Host) sd s fo fg fs fd post n req :
  @sd_at h1 sd s -> sids_valid s -> aces_valid s -> clean s fo fg fs fd -> bytes_ok (fo ++ fg ++ fs ++ fd ++ post) ->
  LW_IS_VALID_FLAGS req VALID_SECURITY_INFORMATION_MASK = true -> has_information req s ->
  rel_size s <= n <= rel_size s + zlen post -> n < 2 ^ 32 ->
  @RtlpVerifyRelativeSecurityDescriptorWithErrorSubcode h2 (rel_image (sd_Control sd) s fo fg fs fd post) n req
    = Some (STATUS_SUCCESS, REL_SD_INVALID_OFFSET_DACL).
Proof.
  intros Hm Hv Ha Hc Hb Hreq (Io & Ig & Ia & Id) Hn Hn32. destruct (rel_image_means sd s fo fg fs fd post Hm Hv Hc) as (L & (rest & E) & Hok & Hs & Hm').
  destruct (means_parts Hm) as (Po & Pg & Pd & Ps). destruct (acl_of_map s) as [Ed Es].
  assert (HR : forall q a, @acl_mem h1 q a -> acl_spec_wf a) by (intros q a Hq; apply Hq).
  pose proof (opt_sid_len_range _ _ _ Po). pose proof (opt_sid_len_range _ _ _ Pg).
  pose proof (opt_acl_len_range _ _ _ HR Pd). pose proof (opt_acl_len_range _ _ _ HR Ps).
  assert (R : forall o, acl_room (fit <$> o) = acl_len o) by (by intros [a|]).
  apply (@verify_relative_complete h2 _ n req (image_header (sd_Control sd) s) rest (map_acls fit s)); try done.
  - by apply (@bytes_ok_rel_image h1).
  - destruct Ha as [Va Vs]. split; rewrite ?Ed, ?Es; intros a (a' & E' & ->)%fmap_Some; [by apply (Va a')|by apply (Vs a')].
  - split_and!; [done..| |]; intros F; cbn; [intros E'; apply (Ia F)|intros E'; apply (Id F)]; by apply fmap_None in E'.
  - unfold all_inside, inside. rewrite Ed, Es, !R. unfold rel_size in Hn.
    split_and!; cbn [map_acls v_owner v_group image_header rel_Owner rel_Group rel_Sacl rel_Dacl]; unfold sacl_off, dacl_off, group_off.
    + destruct (v_owner s).1; cbn [off_of]; [lia|done].
    + destruct (v_group s).1; cbn [off_of]; [lia|done].
    + destruct (acl_of (v_sacl s)); cbn [off_of]; [lia|done].
    + destruct (acl_of (v_dacl s)); cbn [off_of]; [lia|done].
  - unfold rel_room. rewrite Ed, Es, !R. cbn [map_acls v_owner v_group]. unfold rel_size in *. lia.
Qed.

(** A status that counts as a success is [STATUS_SUCCESS]. *)
Lemma verify_offset_status b n used off f st u :
  RtlpVerifyRelativeSecurityDescriptorOffset b n used off f = Some (st, u) -> NT_SUCCESS st = true -> st = STATUS_SUCCESS.
Proof.
  unfold RtlpVerifyRelativeSecurityDescriptorOffset. destruct (off =? 0); [by intros [= <- _]|]. destruct (n <? off); [by intros [= <- _]|].
  destruct (f _ _) as [[[] z]|]; cbn; [by intros [= <- _]|by intros [= <- _]|done].
Qed.

Lemma verify_relative_status `{Host} b n req st sub :
  RtlpVerifyRelativeSecurityDescriptorWithErrorSubcode b n req = Some (st, sub) -> NT_SUCCESS st = true -> st = STATUS_SUCCESS.
Proof.
  intros E Hs. unfold RtlpVerifyRelativeSecurityDescriptorWithErrorSubcode in E.
  repeat match type of E with
  | Some _ = Some _ => injection E as <- <-; done
  | mbind _ (load_relHeader b) = _ => destruct (load_relHeader b); [cbn [mbind option_bind] in E|done]
  | (if negb (is_ok _) then _ else _) = _ => destruct (is_ok _) eqn:Ek in E; cbn [negb] in E; [clear Ek|]
  | (if ?c then _ else _) = _ => destruct c
  end.
  - unfold verify_offsets in E.
    repeat match type of E with
    | Some _ = Some _ => injection E as <- <-; (done || by eapply verify_offset_status)
    | mbind _ ?r = _ => destruct r as [[? ?]|] eqn:?; [cbn [mbind option_bind] in E|done]
    | (if ?c then _ else _) = _ => destruct c
    end.
  - injection E as <- <-. destruct (decide (header_wf (make_absHeader b s))) as [Hw|Hw]; [by apply verify_header_iff|].
    apply verify_header_error in Hw as [_ Hw]. congruence.
Qed.

(** * Properties *)

Section Properties.
Context `{Layout}.

(** C27: A security descriptor converted to the self-relative form on a host of
    one byte order is accepted by the validity test on a host of either byte
    order and converts back there to a descriptor with the same meaning: same
    owner, group, control bits, and ACLs with the same ACEs, whose sizes are now
    the bytes in use. The buffer needs [rel_size] bytes and zeros in the offset
    fields of the parts that are not there; the conversion back fails only when
    memory runs out. *)
Theorem sd_conversion_roundtrip (h1 h2 : Host) malloc sd s b n req fo fg fs fd post :
  @sd_at h1 sd s -> sids_valid s -> aces_valid s -> buffer_for s b fo fg fs fd post -> clean s fo fg fs fd ->
  bytes_ok b -> zlen b = n -> n < 2 ^ 32 ->
  LW_IS_VALID_FLAGS req VALID_SECURITY_INFORMATION_MASK = true -> has_information req s ->
  exists b', @RtlAbsoluteToSelfRelativeSD h1 _ (Some sd) (Some b) (Some n) = Some (STATUS_SUCCESS, Some b', Some (rel_size s)) /\
    zlen b' = n /\ @RtlValidRelativeSecurityDescriptor h2 b' n req = Some true /\
    (if memory_for malloc (map_acls fit s)
     then exists sd', @RtlpCreateAbsSecDescFromRelative h2 _ malloc b' = Some (STATUS_SUCCESS, Some sd') /\ @sd_at h2 sd' (map_acls fit s)
     else @RtlpCreateAbsSecDescFromRelative h2 _ malloc b' = Some (STATUS_INSUFFICIENT_RESOURCES, None)).
Proof.
  intros Hm Hv Ha Hbuf Hc Hb Hn Hn32 Hreq Hinfo. destruct (size_used_at sd s Hm Hv) as [_ Hr].
  pose proof Hbuf as [(j & body & Eb & Hj & Hbody) (L1 & L2 & L3 & L4)].
  assert (Hz : zlen b = rel_size s + zlen post) by (rewrite Eb, !zlen_app in *; lia). pose proof (zlen_nonneg post).
  exists (rel_image (sd_Control sd) s fo fg fs fd post).
  destruct (rel_image_means sd s fo fg fs fd post Hm Hv Hc) as (Hl & _). split_and!.
  - rewrite (absolute_to_relative_at sd s) by (done || lia). destruct (Z.ltb_spec n (rel_size s)); [lia|]. bsimpl.
    rewrite (write_relative_at sd s b n fo fg fs fd post) by (done || lia). done.
  - lia.
  - unfold RtlValidRelativeSecurityDescriptor, RtlpVerifyRelativeSecurityDescriptor.
    assert (Hf : bytes_ok (fo ++ fg ++ fs ++ fd ++ post)) by (rewrite Eb, !bytes_ok_app in Hb; rewrite !bytes_ok_app; tauto).
    rewrite (rel_image_accepted h1 h2); [done..|lia|done].
  - by apply (@create_abs_at h2), (@rel_image_at h1).
Qed.

(** What [RtlAbsoluteToSelfRelativeSD] refuses: a null descriptor or length,
    a length without a buffer, a descriptor with a SID that is not valid, and a
    buffer that is too small, for which it reports the size needed. In each case
    the buffer is left alone. *)
Theorem absolute_to_relative_errors (h : Host) sd s p n :
  sd_at sd s -> 0 <= n < 2 ^ 32 ->
  RtlAbsoluteToSelfRelativeSD None p (Some n) = Some (STATUS_INVALID_PARAMETER, p, Some 0) /\
  RtlAbsoluteToSelfRelativeSD (Some sd) p None = Some (STATUS_INVALID_PARAMETER, p, None) /\
  (0 < n -> RtlAbsoluteToSelfRelativeSD (Some sd) None (Some n) = Some (STATUS_INVALID_PARAMETER, None, Some 0)) /\
  ((0 < n -> p <> None) -> ~ sids_valid s ->
   RtlAbsoluteToSelfRelativeSD (Some sd) p (Some n) = Some (STATUS_INVALID_SECURITY_DESCR, p, Some 0)) /\
  ((0 < n -> p <> None) -> sids_valid s -> n < rel_size s ->
   RtlAbsoluteToSelfRelativeSD (Some sd) p (Some n) = Some (STATUS_BUFFER_TOO_SMALL, p, Some (rel_size s))).
Proof.
  intros Hm Hn. split; [done|]. split; [done|]. split_and!.
  - intros Hp. unfold RtlAbsoluteToSelfRelativeSD. destruct (Z.ltb_spec 0 n); [done|lia].
  - intros Hp Hv. unfold RtlAbsoluteToSelfRelativeSD.
    replace ((0 <? n) && is_null p) with false by (destruct (Z.ltb_spec 0 n); [|done]; destruct p; [done|by destruct Hp]).
    rewrite (valid_sd_at sd s Hm). bsimpl. rewrite sids_bad_iff in Hv.
    destruct (sid_bad (v_owner s).1), (sid_bad (v_group s).1); try done. by destruct Hv.
  - intros Hp Hv Hs. rewrite (absolute_to_relative_at sd s) by done. destruct (Z.ltb_spec n (rel_size s)); [done|lia].
Qed.

(** C28: A self-relative descriptor (without object ACEs) that the validity test
    accepts has a meaning, with valid SIDs and ACEs and the information that was
    required; converting it to the absolute form reads nothing outside the
    buffer, and gives a descriptor with that meaning or fails for lack of
    memory. *)
Theorem validated_sd_converts (h : Host) malloc b n req :
  bytes_ok b -> 0 <= n <= zlen b -> n < 2 ^ 32 -> no_object_aces b -> RtlValidRelativeSecurityDescriptor b n req = Some true ->
  exists s, rel_at b s /\ sids_valid s /\ aces_valid s /\ has_information req s /\
    (if memory_for malloc s
     then exists sd, RtlpCreateAbsSecDescFromRelative malloc b = Some (STATUS_SUCCESS, Some sd) /\ sd_at sd s /\
            RtlValidSecurityDescriptor sd = Some true
     else RtlpCreateAbsSecDescFromRelative malloc b = Some (STATUS_INSUFFICIENT_RESOURCES, None)).
Proof.
  intros Hb Hn Hn32 Hobj Hv. unfold RtlValidRelativeSecurityDescriptor, RtlpVerifyRelativeSecurityDescriptor in Hv.
  destruct (RtlpVerifyRelativeSecurityDescriptorWithErrorSubcode b n req) as [[st sub]|] eqn:E; [|done]. cbn [mbind option_bind] in Hv.
  assert (st = STATUS_SUCCESS) as -> by (eapply verify_relative_status; [exact E|congruence]).
  destruct (verify_relative_sound b n Hb Hn Hn32 req sub Hobj E) as (s & Hs & Vs & Va & Hi). exists s. do 4 (split; [done|]).
  pose proof (create_abs_at malloc b s Hs) as Hc. destruct (memory_for malloc s); [|done]. destruct Hc as (sd & Hsd & Hat).
  exists sd. do 2 (split; [done|]). rewrite (valid_sd_at sd s Hat). apply sids_bad_iff in Vs as [-> ->]. done.
Qed.
End Properties.

(** * Sizes *)

Lemma null_offset `{Host} v : 0 <= v < 2 ^ 32 -> (decode host (encode LittleEndian 4 v) =? 0) = (v =? 0).
Proof.
  intros Hv. pose proof (LTOH32_le v Hv) as E. destruct (Z.eqb_spec v 0) as [->|]; [by destruct host|]. apply Z.eqb_neq. intros E0.
  rewrite E0 in E. unfold LW_LTOH32 in E. change (LW_SWAB32 0) with 0 in E. destruct host; lia.
Qed.

Lemma plus_relative_at `{Host} {X} (R : mem -> X -> Prop) (req : ptr -> option Z) (len : option X -> Z) b f v o size :
  rd b f 4 = Some (encode LittleEndian 4 v) -> 0 <= v < 2 ^ 32 -> option_Forall2 R (relative_part b v) o ->
  (forall p o, option_Forall2 R p o -> req p = Some (len o)) -> len None = 0 -> 0 <= len o -> 0 <= size -> size + len o < 2 ^ 32 ->
  plus_relative b req f size = Some (size + len o).
Proof.
  intros Hf Hv Ho Hreq H0 Hl Hs Hb. unfold plus_relative, ld32. rewrite Hf. bsimpl. rewrite null_offset, LTOH32_le by done.
  unfold relative_part in Ho. destruct (v =? 0); [inversion Ho; subst; by rewrite H0, Z.add_0_r|].
  rewrite (Hreq _ _ Ho). bsimpl. by rewrite u32_small by lia.
Qed.

(** The size functions on descriptors with a meaning. *)
Lemma length_relative_at `{Host} b s : rel_at b s -> RtlLengthSecurityDescriptorRelative b = Some (rel_room s).
Proof.
  intros (h & rest & Eb & Hok & _ & Hm). destruct (means_parts Hm) as (Po & Pg & Pd & Ps). cbn [make_absHeader sd_Owner sd_Group sd_Dacl sd_Sacl] in *.
  pose proof (opt_sid_len_range _ _ _ Po). pose proof (opt_sid_len_range _ _ _ Pg).
  pose proof (opt_acl_room_range _ _ Pd). pose proof (opt_acl_room_range _ _ Ps). destruct Hok as [_ _ _ Ko Kg Ks Kd].
  destruct (rel_header_reads LittleEndian h rest) as (_ & _ & _ & F4 & F8 & F12 & F16). rewrite <- Eb in F4, F8, F12, F16.
  unfold RtlLengthSecurityDescriptorRelative, rel_room. change SECURITY_DESCRIPTOR_RELATIVE_MIN_SIZE with 20.
  rewrite (plus_relative_at _ _ sid_len _ _ _ _ _ F4 Ko Po required_sid_le) by (done || lia). bsimpl.
  rewrite (plus_relative_at _ _ sid_len _ _ _ _ _ F8 Kg Pg required_sid_le) by (done || lia). bsimpl.
  rewrite (plus_relative_at _ _ acl_room _ _ _ _ _ F16 Kd Pd required_acl_le) by (done || lia). bsimpl.
  rewrite (plus_relative_at _ _ acl_room _ _ _ _ _ F12 Ks Ps required_acl_le) by (done || lia). f_equal. lia.
Qed.

Lemma length_absolute_at `{Host} `{Layout} sd s : sd_at sd s ->
  RtlLengthSecurityDescriptor sd = Some (sizeof_SECURITY_DESCRIPTOR_ABSOLUTE + (rel_room s - 20)).
Proof.
  intros Hm. destruct (means_parts Hm) as (Po & Pg & Pd & Ps). pose proof sizeof_pointer_range.
  pose proof (opt_sid_len_range _ _ _ Po). pose proof (opt_sid_len_range _ _ _ Pg).
  assert (S : forall size p o, option_Forall2 (sid_at host) p o -> 0 <= size < 2 ^ 31 -> plus_sid size p = Some (size + sid_len o)).
  { intros size p o Ho Hs. pose proof (opt_sid_len_range _ _ _ Ho). destruct Ho as [q x Hx|]; cbn [plus_sid sid_len] in *; [|by rewrite Z.add_0_r].
    rewrite (sid_at_length _ _ _ Hx). bsimpl. by rewrite u32_small by lia. }
  assert (A : forall size p o, option_Forall2 acl_mem p o -> 0 <= size < 2 ^ 31 -> plus_acl size p = Some (size + acl_room o) /\ 0 <= acl_room o < 65536).
  { intros size p o Ho Hs. destruct Ho as [q a [Hw Ha]|]; cbn [plus_acl acl_room]; [|split; [by rewrite Z.add_0_r|lia]].
    pose proof (as_used_range a Hw). destruct (acl_at_fields _ _ Ha) as (_ & _ & -> & _). bsimpl. cbn [std_acl acl_size]. split; [by rewrite u32_small by lia|lia]. }
  unfold RtlLengthSecurityDescriptor, sizeof_SECURITY_DESCRIPTOR_ABSOLUTE, rel_room.
  rewrite (S _ _ _ Po) by lia. bsimpl. rewrite (S _ _ _ Pg) by lia. bsimpl.
  destruct (A (5 * sizeof_pointer + sid_len (v_owner s).1 + sid_len (v_group s).1) _ _ Pd) as [-> ?]; [lia|]. bsimpl.
  destruct (A (5 * sizeof_pointer + sid_len (v_owner s).1 + sid_len (v_group s).1 + acl_room (acl_of (v_dacl s))) _ _ Ps) as [-> ?]; [lia|]. f_equal. lia.
Qed.

(** * Concrete inputs *)

#[local] Existing Instance demo_layout.

Lemma sd_conversion_roundtrip_witness :
  exists b' sd', @RtlAbsoluteToSelfRelativeSD BigEndian _ (Some (demo_descriptor BigEndian)) (Some (zeros 120)) (Some 120)
      = Some (STATUS_SUCCESS, Some b', Some 116) /\
    @RtlpCreateAbsSecDescFromRelative LittleEndian _ (fun _ => true) b' = Some (STATUS_SUCCESS, Some sd') /\
    @sd_at LittleEndian sd' (map_acls fit demo_spec).
Proof.
  destruct (sd_conversion_roundtrip BigEndian LittleEndian (fun _ => true) (demo_descriptor BigEndian) demo_spec (zeros 120) 120 0 (zeros 4) (zeros 4) (zeros 4)
    (zeros 4) (zeros 4)) as (b' & E & _ & _ & sd' & E' & Hsd).
  - apply demo_sd_at.
  - apply demo_valid.
  - apply demo_valid.
  - split; [|repeat split; reflexivity]. exists (zeros 4), (zeros 96). repeat split; reflexivity.
  - split_and!; intros _; reflexivity.
  - apply bytes_ok_zeros.
  - reflexivity.
  - reflexivity.
  - reflexivity.
  - split_and!; vm_compute; discriminate.
  - exists b', sd'. split; [exact E|]. split; [exact E'|exact Hsd].
Defined.

Lemma absolute_to_relative_errors_witness :
  @RtlAbsoluteToSelfRelativeSD LittleEndian _ (Some (demo_descriptor LittleEndian)) None (Some 0) = Some (STATUS_BUFFER_TOO_SMALL, None, Some 116).
Proof.
  destruct (absolute_to_relative_errors LittleEndian (demo_descriptor LittleEndian) demo_spec None 0) as (_ & _ & _ & _ & E).
  - apply demo_sd_at.
  - split; [discriminate|reflexivity].
  - apply E; [intros ?; lia|apply demo_valid|reflexivity].
Defined.

(** The self-relative form of the concrete descriptor. *)
Definition demo_rel : mem := rel_image SE_DACL_PRESENT demo_spec (zeros 4) (zeros 4) (zeros 4) (zeros 4) [].

Lemma validated_sd_converts_witness :
  exists sd s, @RtlpCreateAbsSecDescFromRelative BigEndian _ (fun _ => true) demo_rel = Some (STATUS_SUCCESS, Some sd) /\ @sd_at BigEndian sd s.
Proof.
  destruct (validated_sd_converts BigEndian (fun _ => true) demo_rel 116 OWNER_SECURITY_INFORMATION)
    as (s & _ & _ & _ & _ & Hs).
  - apply (bytes_ok_rel_image (H := LittleEndian) (demo_descriptor LittleEndian)); [apply demo_sd_at|]. repeat constructor; lia.
  - vm_compute. split; discriminate.
  - reflexivity.
  - intros h Hh. vm_compute in Hh. injection Hh as <-. split; vm_compute; reflexivity.
  - vm_compute. reflexivity.
  - cbn in Hs. unfold memory_for, part_fits in Hs. rewrite !orb_true_r in Hs. destruct Hs as (sd & E & Hsd & _). exists sd, s. split; [exact E|exact Hsd].
Defined.
