(* ===== verification/SdInfo.v ===== *)
(** Reading and replacing parts of a self-relative security descriptor:
    [RtlQuerySecurityDescriptorInfo] and [RtlSetSecurityDescriptorInfo] refine
    operations on the abstract view. *)

From S2P Require Import Prelude SecurityTypes Sid Acl AclRepr AclOps AclEdit AclCodec AclCodecOps Token TokenState TokenOps Sd SdOps SdRelative SdRepr SdRelativeOps.

(** * The operations on views *)

Section Views.
Context {S A : Type}.
Implicit Types (v o i : sd_view S A).

Definition no_owner v := mk_view (None, false) (v_group v) (v_dacl v) (v_sacl v) (v_bits v) (v_sbz1 v).
Definition no_group v := mk_view (v_owner v) (None, false) (v_dacl v) (v_sacl v) (v_bits v) (v_sbz1 v).
Definition no_dacl v := mk_view (v_owner v) (v_group v) None (v_sacl v) (Z.ldiff (v_bits v) DaclControlChange) (v_sbz1 v).
Definition no_sacl v := mk_view (v_owner v) (v_group v) (v_dacl v) None (Z.ldiff (v_bits v) SaclControlChange) (v_sbz1 v).

(** What is left when only the parts of [info] are asked for. *)
Definition query_view (info : Z) v :=
  let v := if IsSetFlag info OWNER_SECURITY_INFORMATION then v else no_owner v in
  let v := if IsSetFlag info GROUP_SECURITY_INFORMATION then v else no_group v in
  let v := if IsSetFlag info DACL_SECURITY_INFORMATION then v else no_dacl v in
  if IsSetFlag info SACL_SECURITY_INFORMATION then v else no_sacl v.

Definition take_owner i o := mk_view (v_owner i) (v_group o) (v_dacl o) (v_sacl o) (v_bits o) (v_sbz1 o).
Definition take_group i o := mk_view (v_owner o) (v_group i) (v_dacl o) (v_sacl o) (v_bits o) (v_sbz1 o).

(** The ACL becomes present, even when the input has none. *)
Definition present (a : option (option A * bool)) : option (option A * bool) :=
  Some match a with Some x => x | None => (None, false) end.
Definition take_bits (mask : Z) i o := Z.lor (Z.ldiff (v_bits o) mask) (Z.land (v_bits i) mask).
Definition take_dacl i o := mk_view (v_owner o) (v_group o) (present (v_dacl i)) (v_sacl o) (take_bits DaclControlChange i o) (v_sbz1 o).
Definition take_sacl i o := mk_view (v_owner o) (v_group o) (v_dacl o) (present (v_sacl i)) (take_bits SaclControlChange i o) (v_sbz1 o).

(** The object's descriptor with the parts of [info] taken from the input. *)
Definition set_view (info : Z) i o :=
  let o := if IsSetFlag info OWNER_SECURITY_INFORMATION then take_owner i o else o in
  let o := if IsSetFlag info GROUP_SECURITY_INFORMATION then take_group i o else o in
  let o := if IsSetFlag info DACL_SECURITY_INFORMATION then take_dacl i o else o in
  if IsSetFlag info SACL_SECURITY_INFORMATION then take_sacl i o else o.
End Views.

(** * Relations *)

Section Relate.
Context {S A S' A' : Type} (RS : S -> S' -> Prop) (RA : A -> A' -> Prop).

Lemma query_view_rel info v s : view_rel RS RA v s -> view_rel RS RA (query_view info v) (query_view info s).
Proof.
  assert (N : flagged (option_Forall2 RS) (None, false) (None, false)) by (repeat constructor).
  assert (N' : option_Forall2 (flagged (option_Forall2 RA)) None None) by constructor.
  intros [H1 H2 H3 H4 H5 H6]. unfold query_view.
  destruct (IsSetFlag info OWNER_SECURITY_INFORMATION), (IsSetFlag info GROUP_SECURITY_INFORMATION),
    (IsSetFlag info DACL_SECURITY_INFORMATION), (IsSetFlag info SACL_SECURITY_INFORMATION); split; cbn; congruence || done.
Qed.

Lemma present_rel a b : option_Forall2 (flagged (option_Forall2 RA)) a b -> option_Forall2 (flagged (option_Forall2 RA)) (present a) (present b).
Proof. intros [x y Hxy|]; constructor; [done|]. by repeat constructor. Qed.

Lemma set_view_rel info i j v s : view_rel RS RA i j -> view_rel RS RA v s -> view_rel RS RA (set_view info i v) (set_view info j s).
Proof.
  intros [G1 G2 G3 G4 G5 G6] [H1 H2 H3 H4 H5 H6]. apply present_rel in G3 as G3'. apply present_rel in G4 as G4'. unfold set_view.
  destruct (IsSetFlag info OWNER_SECURITY_INFORMATION), (IsSetFlag info GROUP_SECURITY_INFORMATION),
    (IsSetFlag info DACL_SECURITY_INFORMATION), (IsSetFlag info SACL_SECURITY_INFORMATION);
    split; repeat (progress (unfold take_bits; cbn -[present])); rewrite ?G5, ?H5; congruence || done.
Qed.
End Relate.

(** * The steps on absolute descriptors *)

(** A step succeeds, keeps the header valid and does [f] to the view. *)
Definition does (step : NTSTATUS * SECURITY_DESCRIPTOR_ABSOLUTE) (sd : SECURITY_DESCRIPTOR_ABSOLUTE) (f : sd_view mem mem -> sd_view mem mem) : Prop :=
  exists sd', step = (STATUS_SUCCESS, sd') /\ header_wf sd' /\ view sd' = f (view sd).

(** A setter whose specification succeeds. *)
Lemma run_op_does op sd v : header_wf sd -> spec_op op (view sd) = (STATUS_SUCCESS, v) ->
  exists sd', run_op op sd = (STATUS_SUCCESS, sd') /\ header_wf sd' /\ view sd' = v.
Proof.
  intros Hw E. destruct (run_op_refines sd Hw op) as [Hw' Hs]. rewrite E in Hs. destruct (run_op op sd) as [st sd'].
  injection Hs as Hst <-. cbn [fst snd] in *. subst st. eauto.
Qed.

Lemma set_owner_does sd p d : header_wf sd -> is_null p && d = false ->
  exists sd', RtlSetOwnerSecurityDescriptor sd p d = (STATUS_SUCCESS, sd') /\ header_wf sd' /\
    view sd' = mk_view (p, d) (v_group (view sd)) (v_dacl (view sd)) (v_sacl (view sd)) (v_bits (view sd)) (v_sbz1 (view sd)).
Proof. intros Hw Hp. apply (run_op_does (SetOwner p d)); [done|]. cbn [spec_op]. by rewrite Hp. Qed.

Lemma set_group_does sd p d : header_wf sd -> is_null p && d = false ->
  exists sd', RtlSetGroupSecurityDescriptor sd p d = (STATUS_SUCCESS, sd') /\ header_wf sd' /\
    view sd' = mk_view (v_owner (view sd)) (p, d) (v_dacl (view sd)) (v_sacl (view sd)) (v_bits (view sd)) (v_sbz1 (view sd)).
Proof. intros Hw Hp. apply (run_op_does (SetGroup p d)); [done|]. cbn [spec_op]. by rewrite Hp. Qed.

Lemma set_dacl_does sd b p d : header_wf sd ->
  exists sd', RtlSetDaclSecurityDescriptor sd b p d = (STATUS_SUCCESS, sd') /\ header_wf sd' /\
    view sd' = mk_view (v_owner (view sd)) (v_group (view sd)) (if b then Some (p, d) else None) (v_sacl (view sd)) (v_bits (view sd)) (v_sbz1 (view sd)).
Proof. intros Hw. by apply (run_op_does (SetDacl b p d)). Qed.

Lemma set_sacl_does sd b p d : header_wf sd ->
  exists sd', RtlSetSaclSecurityDescriptor sd b p d = (STATUS_SUCCESS, sd') /\ header_wf sd' /\
    view sd' = mk_view (v_owner (view sd)) (v_group (view sd)) (v_dacl (view sd)) (if b then Some (p, d) else None) (v_bits (view sd)) (v_sbz1 (view sd)).
Proof. intros Hw. by apply (run_op_does (SetSacl b p d)). Qed.

Lemma set_control_does sd c x : header_wf sd -> Z.ldiff c SE_SET_SECURITY_DESCRIPTOR_CONTROL_MASK = 0 -> Z.ldiff x c = 0 ->
  exists sd', RtlSetSecurityDescriptorControl sd c x = (STATUS_SUCCESS, sd') /\ header_wf sd' /\
    view sd' = mk_view (v_owner (view sd)) (v_group (view sd)) (v_dacl (view sd)) (v_sacl (view sd)) (Z.lor (Z.ldiff (v_bits (view sd)) c) x) (v_sbz1 (view sd)).
Proof. intros Hw Hc Hx. apply (run_op_does (SetControl c x)); [done|]. cbn [spec_op]. by rewrite Hc, Hx. Qed.

(** A defaulted SID is there. *)
Lemma defaulted_there sd : header_wf sd -> is_null (v_owner (view sd)).1 && (v_owner (view sd)).2 = false /\
  is_null (v_group (view sd)).1 && (v_group (view sd)).2 = false.
Proof.
  intros [_ _ _ Ho Hg _ _]. cbn [view v_owner v_group fst snd]. split.
  - destruct (IsSetFlag _ SE_OWNER_DEFAULTED); [|apply andb_false_r]. by destruct (sd_Owner sd); [|destruct Ho].
  - destruct (IsSetFlag _ SE_GROUP_DEFAULTED); [|apply andb_false_r]. by destruct (sd_Group sd); [|destruct Hg].
Qed.

Ltac step L :=
  let sd := fresh "sd" in let E := fresh "E" in let Hw := fresh "Hw" in let V := fresh "V" in
  destruct L as (sd & E & Hw & V); rewrite E; okstep.

Section Drop.
Context (sd : SECURITY_DESCRIPTOR_ABSOLUTE) (Hw : header_wf sd).

Lemma drop_owner_does : does (drop_owner sd) sd no_owner.
Proof using Hw. unfold does, drop_owner. destruct (getters_view sd Hw) as (-> & _). okstep. by apply set_owner_does. Qed.
Lemma drop_group_does : does (drop_group sd) sd no_group.
Proof using Hw. unfold does, drop_group. destruct (getters_view sd Hw) as (_ & -> & _). okstep. by apply set_group_does. Qed.

Lemma acl_answer_status o : exists p a d, acl_answer o = (STATUS_SUCCESS, p, a, d).
Proof using. destruct o as [[a d]|]; cbn; eauto. Qed.

Lemma drop_dacl_does : does (drop_dacl sd) sd no_dacl.
Proof using Hw.
  unfold does, drop_dacl. destruct (getters_view sd Hw) as (_ & _ & -> & _). destruct (acl_answer_status (v_dacl (view sd))) as (? & ? & ? & ->).
  okstep. step (set_dacl_does sd false None false Hw). step (set_control_does sd0 DaclControlChange 0 Hw0 eq_refl eq_refl).
  exists sd1. split; [done|]. split; [done|]. rewrite V0, V. cbn. by rewrite Z.lor_0_r.
Qed.

Lemma drop_sacl_does : does (drop_sacl sd) sd no_sacl.
Proof using Hw.
  unfold does, drop_sacl. destruct (getters_view sd Hw) as (_ & _ & _ & -> & _). destruct (acl_answer_status (v_sacl (view sd))) as (? & ? & ? & ->).
  okstep. step (set_sacl_does sd false None false Hw). step (set_control_does sd0 SaclControlChange 0 Hw0 eq_refl eq_refl).
  exists sd1. split; [done|]. split; [done|]. rewrite V0, V. cbn. by rewrite Z.lor_0_r.
Qed.
End Drop.

(** The state of [RtlSetSecurityDescriptorInfo]: the view of the object became
    [f] of the views of input and object, the view of the input [g] of itself. *)
Definition moves (step : NTSTATUS * (SECURITY_DESCRIPTOR_ABSOLUTE * SECURITY_DESCRIPTOR_ABSOLUTE)) (obj input : SECURITY_DESCRIPTOR_ABSOLUTE)
    (f : sd_view mem mem -> sd_view mem mem -> sd_view mem mem) (g : sd_view mem mem -> sd_view mem mem) : Prop :=
  exists obj' input', step = (STATUS_SUCCESS, (obj', input')) /\ header_wf obj' /\ header_wf input' /\
    view obj' = f (view input) (view obj) /\ view input' = g (view input).

Definition clear_dacl (v : sd_view mem mem) := mk_view (v_owner v) (v_group v) None (v_sacl v) (v_bits v) (v_sbz1 v).
Definition clear_sacl (v : sd_view mem mem) := mk_view (v_owner v) (v_group v) (v_dacl v) None (v_bits v) (v_sbz1 v).

Section Move.
Context (obj input : SECURITY_DESCRIPTOR_ABSOLUTE) (Hobj : header_wf obj) (Hin : header_wf input).

Lemma move_owner_does : moves (move_owner (obj, input)) obj input take_owner no_owner.
Proof using Hobj Hin.
  unfold moves, move_owner. destruct (getters_view obj Hobj) as (-> & _), (getters_view input Hin) as (-> & _). okstep.
  step (set_owner_does input None false Hin eq_refl). step (set_owner_does obj _ _ Hobj (proj1 (defaulted_there input Hin))).
  exists sd0, sd. do 3 (split; [done|]). split; [|done]. rewrite V0. unfold take_owner. by destruct (v_owner (view input)).
Qed.

Lemma move_group_does : moves (move_group (obj, input)) obj input take_group no_group.
Proof using Hobj Hin.
  unfold moves, move_group. destruct (getters_view obj Hobj) as (_ & -> & _), (getters_view input Hin) as (_ & -> & _). okstep.
  step (set_group_does input None false Hin eq_refl). step (set_group_does obj _ _ Hobj (proj2 (defaulted_there input Hin))).
  exists sd0, sd. do 3 (split; [done|]). split; [|done]. rewrite V0. unfold take_group. by destruct (v_group (view input)).
Qed.

Lemma acl_answer_present o : exists p, acl_answer o = (STATUS_SUCCESS, p, fst (default (None, false) o), snd (default (None, false) o)).
Proof using. destruct o as [[a d]|]; cbn; eauto. Qed.

Lemma set_bits_twice b c m : Z.lor (Z.ldiff (Z.lor (Z.ldiff b m) 0) m) (Z.land c m) = Z.lor (Z.ldiff b m) (Z.land c m).
Proof using. zbits. Qed.

Lemma moved_bits c m : Z.ldiff (Z.land c m) m = 0.
Proof using. zbits. Qed.

Lemma move_dacl_does c : Z.land c DaclControlChange = Z.land (v_bits (view input)) DaclControlChange ->
  moves (move_dacl c (obj, input)) obj input take_dacl clear_dacl.
Proof using Hobj Hin.
  intros Hc. unfold moves, move_dacl. destruct (getters_view obj Hobj) as (_ & _ & -> & _), (getters_view input Hin) as (_ & _ & -> & _).
  destruct (acl_answer_status (v_dacl (view obj))) as (? & ? & ? & ->). destruct (acl_answer_present (v_dacl (view input))) as (? & ->). okstep.
  step (set_dacl_does input false None false Hin). step (set_control_does obj DaclControlChange 0 Hobj eq_refl eq_refl).
  step (set_dacl_does sd0 true (fst (default (None, false) (v_dacl (view input)))) (snd (default (None, false) (v_dacl (view input)))) Hw0).
  step (set_control_does sd1 DaclControlChange (Z.land c DaclControlChange) Hw1 eq_refl (moved_bits c _)).
  exists sd2, sd. do 3 (split; [done|]). split; [|done]. rewrite V2, V1, V0. unfold take_dacl, take_bits, present.
  cbn [v_owner v_group v_dacl v_sacl v_bits v_sbz1]. rewrite set_bits_twice, Hc. by destruct (v_dacl (view input)) as [[a d]|].
Qed.

Lemma move_sacl_does c : Z.land c SaclControlChange = Z.land (v_bits (view input)) SaclControlChange ->
  moves (move_sacl c (obj, input)) obj input take_sacl clear_sacl.
Proof using Hobj Hin.
  intros Hc. unfold moves, move_sacl. destruct (getters_view obj Hobj) as (_ & _ & _ & -> & _), (getters_view input Hin) as (_ & _ & _ & -> & _).
  destruct (acl_answer_status (v_sacl (view obj))) as (? & ? & ? & ->). destruct (acl_answer_present (v_sacl (view input))) as (? & ->). okstep.
  step (set_sacl_does input false None false Hin). step (set_control_does obj SaclControlChange 0 Hobj eq_refl eq_refl).
  step (set_sacl_does sd0 true (fst (default (None, false) (v_sacl (view input)))) (snd (default (None, false) (v_sacl (view input)))) Hw0).
  step (set_control_does sd1 SaclControlChange (Z.land c SaclControlChange) Hw1 eq_refl (moved_bits c _)).
  exists sd2, sd. do 3 (split; [done|]). split; [|done]. rewrite V2, V1, V0. unfold take_sacl, take_bits, present.
  cbn [v_owner v_group v_dacl v_sacl v_bits v_sbz1]. rewrite set_bits_twice, Hc. by destruct (v_sacl (view input)) as [[a d]|].
Qed.
End Move.

(** * All steps together *)

Lemma query_steps info sd : header_wf sd ->
  exists sd', then_ok (step_if (negb (IsSetFlag info OWNER_SECURITY_INFORMATION)) drop_owner sd) (fun sd =>
              then_ok (step_if (negb (IsSetFlag info GROUP_SECURITY_INFORMATION)) drop_group sd) (fun sd =>
              then_ok (step_if (negb (IsSetFlag info DACL_SECURITY_INFORMATION)) drop_dacl sd) (fun sd =>
              step_if (negb (IsSetFlag info SACL_SECURITY_INFORMATION)) drop_sacl sd))) = Some (STATUS_SUCCESS, sd') /\
    header_wf sd' /\ view sd' = query_view info (view sd).
Proof.
  intros Hw. unfold query_view.
  assert (step : forall (c : bool) f g sd, header_wf sd -> (forall sd, header_wf sd -> does (f sd) sd g) ->
    exists sd', step_if (negb c) f sd = Some (STATUS_SUCCESS, sd') /\ header_wf sd' /\ view sd' = if c then view sd else g (view sd)).
  { unfold step_if. intros [] f g sd0 H0 Hf; cbn; [eauto|]. destruct (Hf sd0 H0) as (sd' & -> & ? & ?). eauto. }
  destruct (step (IsSetFlag info OWNER_SECURITY_INFORMATION) _ _ sd Hw drop_owner_does) as (sd1 & -> & H1 & V1). unfold then_ok. okstep.
  destruct (step (IsSetFlag info GROUP_SECURITY_INFORMATION) _ _ sd1 H1 drop_group_does) as (sd2 & -> & H2 & V2). okstep.
  destruct (step (IsSetFlag info DACL_SECURITY_INFORMATION) _ _ sd2 H2 drop_dacl_does) as (sd3 & -> & H3 & V3). okstep.
  destruct (step (IsSetFlag info SACL_SECURITY_INFORMATION) _ _ sd3 H3 drop_sacl_does) as (sd4 & -> & H4 & V4).
  exists sd4. split; [done|]. split; [done|]. by rewrite V4, V3, V2, V1.
Qed.

Lemma view_control_bits sd m : Z.land part_bits m = 0 -> Z.land (sd_Control sd) m = Z.land (v_bits (view sd)) m.
Proof. cbn [view v_bits]. generalize part_bits. intros p E. zbits. Qed.

Lemma set_steps info obj input : header_wf obj -> header_wf input ->
  exists obj' input',
    then_ok (step_if (IsSetFlag info OWNER_SECURITY_INFORMATION) move_owner (obj, input)) (fun s =>
    then_ok (step_if (IsSetFlag info GROUP_SECURITY_INFORMATION) move_group s) (fun s =>
    then_ok (step_if (IsSetFlag info DACL_SECURITY_INFORMATION) (move_dacl (sd_Control input)) s) (fun s =>
    step_if (IsSetFlag info SACL_SECURITY_INFORMATION) (move_sacl (sd_Control input)) s))) = Some (STATUS_SUCCESS, (obj', input')) /\
    header_wf obj' /\ view obj' = set_view info (view input) (view obj).
Proof.
  intros Hobj Hin. unfold set_view. set (i0 := view input).
  pose proof (view_control_bits input DaclControlChange eq_refl) as Bd. pose proof (view_control_bits input SaclControlChange eq_refl) as Bs.
  set (c := sd_Control input) in *. fold i0 in Bd, Bs. unfold then_ok.
  assert (step : forall (b : bool) s o i f g, header_wf o -> header_wf i -> (b = true -> moves (s (o, i)) o i f g) ->
    exists o' i', step_if b s (o, i) = Some (STATUS_SUCCESS, (o', i')) /\ header_wf o' /\ header_wf i' /\
      view o' = (if b then f (view i) (view o) else view o) /\ view i' = if b then g (view i) else view i).
  { unfold step_if. intros [] s o i f g Ho Hi Hs; cbn; [|eauto 10]. destruct Hs as (o' & i' & -> & ?); [done|]. eauto. }
  destruct (step (IsSetFlag info OWNER_SECURITY_INFORMATION) move_owner obj input take_owner no_owner)
    as (o1 & i1 & -> & Ho1 & Hi1 & Vo1 & Vi1); [done|done|intros _; by apply move_owner_does|]. okstep.
  destruct (step (IsSetFlag info GROUP_SECURITY_INFORMATION) move_group o1 i1 take_group no_group)
    as (o2 & i2 & -> & Ho2 & Hi2 & Vo2 & Vi2); [done|done|intros _; by apply move_group_does|]. okstep.
  assert (B2 : v_bits (view i2) = v_bits i0) by (rewrite Vi2, Vi1; by destruct (IsSetFlag info OWNER_SECURITY_INFORMATION), (IsSetFlag info GROUP_SECURITY_INFORMATION)).
  destruct (step (IsSetFlag info DACL_SECURITY_INFORMATION) (move_dacl c) o2 i2 take_dacl clear_dacl)
    as (o3 & i3 & -> & Ho3 & Hi3 & Vo3 & Vi3); [done|done|intros _; apply move_dacl_does; by rewrite ?B2|]. okstep.
  assert (B3 : v_bits (view i3) = v_bits i0) by (rewrite Vi3, <- B2; by destruct (IsSetFlag info DACL_SECURITY_INFORMATION)).
  destruct (step (IsSetFlag info SACL_SECURITY_INFORMATION) (move_sacl c) o3 i3 take_sacl clear_sacl)
    as (o4 & i4 & -> & Ho4 & Hi4 & Vo4 & Vi4); [done|done|intros _; apply move_sacl_does; by rewrite ?B3|].
  exists o4, i4. split; [done|]. split; [done|]. rewrite Vo4, Vo3, Vo2, Vo1, Vi3, Vi2, Vi1. fold i0.
  by destruct (IsSetFlag info OWNER_SECURITY_INFORMATION), (IsSetFlag info GROUP_SECURITY_INFORMATION),
    (IsSetFlag info DACL_SECURITY_INFORMATION), (IsSetFlag info SACL_SECURITY_INFORMATION).
Qed.

(** * From views to descriptors *)

Lemma control_range sd : 0 <= v_bits (view sd) < 65536 -> 0 <= sd_Control sd < 65536.
Proof.
  cbn [view v_bits]. set (c := sd_Control sd). change part_bits with (Z.ones 6). rewrite Z.ldiff_ones_r, Z.shiftl_mul_pow2, Z.shiftr_div_pow2 by lia.
  change (2 ^ 6) with 64. Z.div_mod_to_equations. lia.
Qed.

Lemma means_of_view RS RA sd s : header_wf sd -> view_rel RS RA (view sd) s -> 0 <= v_bits s < 65536 -> 0 <= v_sbz1 s < 256 -> sd_means RS RA sd s.
Proof.
  intros Hw Hv Hb Hz. split; [done| | |done].
  - apply control_range. by rewrite (vr_bits _ _ _ _ Hv).
  - pose proof (vr_sbz1 _ _ _ _ Hv) as E. cbn [view v_sbz1] in E. by rewrite E.
Qed.

Lemma means_bits RS RA sd s : sd_means RS RA sd s -> 0 <= v_bits s < 65536 /\ 0 <= v_sbz1 s < 256.
Proof.
  intros [_ Hc Hz Hv]. rewrite <- (vr_bits _ _ _ _ Hv), <- (vr_sbz1 _ _ _ _ Hv). split; [|done]. by apply clear_range.
Qed.

Lemma query_view_bits {S A} info (s : sd_view S A) : 0 <= v_bits s < 65536 -> 0 <= v_bits (query_view info s) < 65536 /\ v_sbz1 (query_view info s) = v_sbz1 s.
Proof.
  intros Hb. unfold query_view. destruct (IsSetFlag info OWNER_SECURITY_INFORMATION), (IsSetFlag info GROUP_SECURITY_INFORMATION),
    (IsSetFlag info DACL_SECURITY_INFORMATION), (IsSetFlag info SACL_SECURITY_INFORMATION); cbn; (split; [|done]);
    repeat apply clear_range; done.
Qed.

Lemma take_bits_range x y m : 0 <= x < 65536 -> 0 <= y < 65536 -> 0 <= Z.lor (Z.ldiff x m) (Z.land y m) < 65536.
Proof.
  intros Hx Hy. assert (Ex : Z.land x (Z.ones 16) = x) by (rewrite Z.land_ones by lia; by apply Z.mod_small).
  assert (Ey : Z.land y (Z.ones 16) = y) by (rewrite Z.land_ones by lia; by apply Z.mod_small).
  replace (Z.lor _ _) with (Z.land (Z.lor (Z.ldiff x m) (Z.land y m)) (Z.ones 16)).
  - rewrite Z.land_ones by lia. by apply Z.mod_pos_bound.
  - revert Ex Ey. generalize (Z.ones 16). intros k Ex Ey. zbits.
Qed.

Lemma set_view_bits {S A} info (i s : sd_view S A) : 0 <= v_bits s < 65536 -> 0 <= v_bits i < 65536 ->
  0 <= v_bits (set_view info i s) < 65536 /\ v_sbz1 (set_view info i s) = v_sbz1 s.
Proof.
  intros Hb Hi. unfold set_view. destruct (IsSetFlag info OWNER_SECURITY_INFORMATION), (IsSetFlag info GROUP_SECURITY_INFORMATION),
    (IsSetFlag info DACL_SECURITY_INFORMATION), (IsSetFlag info SACL_SECURITY_INFORMATION);
    (split; [|done]); cbn [take_sacl take_dacl take_owner take_group v_bits]; unfold take_bits; cbn [v_bits];
    repeat (apply take_bits_range; [|done]); done.
Qed.

Lemma query_sids_valid info s : sids_valid s -> sids_valid (query_view info s).
Proof.
  intros [Ho Hg]. unfold query_view. destruct (IsSetFlag info OWNER_SECURITY_INFORMATION), (IsSetFlag info GROUP_SECURITY_INFORMATION),
    (IsSetFlag info DACL_SECURITY_INFORMATION), (IsSetFlag info SACL_SECURITY_INFORMATION); split; cbn; done.
Qed.

Lemma set_sids_valid info i s : sids_valid i -> sids_valid s -> sids_valid (set_view info i s).
Proof.
  intros [Io Ig] [Ho Hg]. unfold set_view. destruct (IsSetFlag info OWNER_SECURITY_INFORMATION), (IsSetFlag info GROUP_SECURITY_INFORMATION),
    (IsSetFlag info DACL_SECURITY_INFORMATION), (IsSetFlag info SACL_SECURITY_INFORMATION); split; cbn; done.
Qed.

Section Properties.
Context `{Host} `{Layout} (malloc : Z -> bool).

(** The result of writing [s] into a buffer whose header is cleared: the size
    needed when it is too small, the self-relative form of [s] otherwise. *)
Definition writes_relative (s : sd_spec) (b : mem) (n : Z) (r : option (NTSTATUS * ptr * option Z)) : Prop :=
  if n <? rel_size s then r = Some (STATUS_BUFFER_TOO_SMALL, Some b, Some (rel_size s))
  else exists b', r = Some (STATUS_SUCCESS, Some b', Some (rel_size s)) /\ rel_at b' (map_acls fit s) /\ zlen b' = zlen b.

Lemma written_at sd s rest n : sd_at sd s -> sids_valid s -> 0 <= n <= zlen (zeros 20 ++ rest) -> n < 2 ^ 32 ->
  writes_relative s (zeros 20 ++ rest) n (RtlAbsoluteToSelfRelativeSD (Some sd) (Some (zeros 20 ++ rest)) (Some n)).
Proof using.
  intros Hm Hv Hn Hn32. unfold writes_relative. rewrite (absolute_to_relative_at sd s) by (done || lia).
  destruct (Z.ltb_spec n (rel_size s)); [done|]. bsimpl. destruct (size_used_at sd s Hm Hv) as [_ Hr].
  rewrite zlen_app, zlen_zeros in Hn by lia. destruct (zlen_split rest (rel_size s - 20)) as (body & post & -> & Hb); [lia|].
  assert (Hbuf : buffer_for s (zeros 20 ++ body ++ post) (zeros 4) (zeros 4) (zeros 4) (zeros 4) post).
  { split; [|done]. exists (zeros 4), body. done. }
  assert (Hc : clean s (zeros 4) (zeros 4) (zeros 4) (zeros 4)) by done.
  rewrite (write_relative_at sd s _ n (zeros 4) (zeros 4) (zeros 4) (zeros 4) post) by (done || lia). bsimpl.
  eexists. split; [done|]. split; [by apply rel_image_at|]. destruct (rel_image_means sd s _ _ _ _ post Hm Hv Hc) as (-> & _).
  rewrite !zlen_app, zlen_zeros by lia. lia.
Qed.

(** [RtlQuerySecurityDescriptorInfo] returns the self-relative descriptor
    that has exactly the parts asked for: owner and group when requested, the
    ACLs with their control bits when requested, and nothing of the others. It
    reports the size needed when the buffer is too small, and fails without
    touching the buffer when nothing is asked for or memory runs out. *)
Theorem query_info_refines info obj s rest n :
  rel_at obj s -> sids_valid s -> 0 <= n <= 20 + zlen rest -> n < 2 ^ 32 ->
  let b := zeros 20 ++ rest in
  let r := RtlQuerySecurityDescriptorInfo malloc info (Some b) (Some n) obj in
  if info =? 0 then r = Some (STATUS_INVALID_PARAMETER, Some b, Some n)
  else if memory_for malloc s then writes_relative (query_view info s) b n r
  else r = Some (STATUS_INSUFFICIENT_RESOURCES, Some b, Some n).
Proof.
  intros Hs Hv Hn Hn32 b r. subst r. unfold RtlQuerySecurityDescriptorInfo. destruct (info =? 0); [done|].
  pose proof (create_abs_at malloc obj s Hs) as Hc. destruct (memory_for malloc s); [|by rewrite Hc].
  destruct Hc as (sd & -> & Hsd). okstep. pose proof Hsd as [Hw _ _ Hvw].
  destruct (query_steps info sd Hw) as (sd' & -> & Hw' & Hv'). okstep.
  destruct (means_bits _ _ _ _ Hsd) as [Bb Bz]. destruct (query_view_bits info s Bb) as [Qb Qz].
  apply written_at; [|by apply query_sids_valid|unfold b; rewrite zlen_app, zlen_zeros by lia; lia|done].
  apply means_of_view; [done| |done|by rewrite Qz]. rewrite Hv'. by apply query_view_rel.
Qed.

(** C29: [RtlSetSecurityDescriptorInfo] returns the self-relative descriptor of
    the object with the requested parts, and the control bits that belong to the
    requested ACLs, replaced by those of the input; a requested ACL that the
    input lacks becomes present and null. *)
Theorem set_info_refines info obj s input i rest n :
  rel_at obj s -> rel_at input i -> sids_valid s -> sids_valid i -> 0 <= n <= 20 + zlen rest -> n < 2 ^ 32 ->
  let b := zeros 20 ++ rest in
  let r := RtlSetSecurityDescriptorInfo malloc info input obj (Some b) (Some n) in
  if info =? 0 then r = Some (STATUS_INVALID_PARAMETER, Some b, Some n)
  else if memory_for malloc s && memory_for malloc i then writes_relative (set_view info i s) b n r
  else r = Some (STATUS_INSUFFICIENT_RESOURCES, Some b, Some n).
Proof.
  intros Hs Hi Vs Vi Hn Hn32 b r. subst r. unfold RtlSetSecurityDescriptorInfo. destruct (info =? 0); [done|].
  pose proof (create_abs_at malloc obj s Hs) as Hc. destruct (memory_for malloc s); [|by rewrite Hc].
  destruct Hc as (sd & -> & Hsd). okstep. cbn [andb].
  pose proof (create_abs_at malloc input i Hi) as Hc. destruct (memory_for malloc i); [|by rewrite Hc].
  destruct Hc as (sdi & -> & Hsdi). okstep. pose proof Hsd as [Hw _ _ Hvw]. pose proof Hsdi as [Hwi _ _ Hvwi].
  destruct (getters_view sdi Hwi) as (_ & _ & _ & _ & ->). okstep.
  destruct (set_steps info sd sdi Hw Hwi) as (sd' & in' & -> & Hw' & Hv'). okstep.
  destruct (means_bits _ _ _ _ Hsd) as [Bb Bz]. destruct (means_bits _ _ _ _ Hsdi) as [Ib Iz]. destruct (set_view_bits info i s Bb Ib) as [Qb Qz].
  apply written_at; [|by apply set_sids_valid|unfold b; rewrite zlen_app, zlen_zeros by lia; lia|done].
  apply means_of_view; [done| |done|by rewrite Qz]. rewrite Hv'. by apply set_view_rel.
Qed.

(** What is set can be read back: after a set, a query for the same parts gives
    the parts of the input, whatever the object had. *)
Lemma query_set_view (info : Z) (i o : sd_spec) :
  (IsSetFlag info DACL_SECURITY_INFORMATION = true -> v_dacl i <> None) ->
  (IsSetFlag info SACL_SECURITY_INFORMATION = true -> v_sacl i <> None) ->
  let q := query_view info (set_view info i o) in
  v_owner q = v_owner (query_view info i) /\ v_group q = v_group (query_view info i) /\
  v_dacl q = v_dacl (query_view info i) /\ v_sacl q = v_sacl (query_view info i).
Proof using.
  intros Hd Hs. unfold query_view, set_view.
  destruct (IsSetFlag info OWNER_SECURITY_INFORMATION), (IsSetFlag info GROUP_SECURITY_INFORMATION),
    (IsSetFlag info DACL_SECURITY_INFORMATION), (IsSetFlag info SACL_SECURITY_INFORMATION); cbn; split_and!; try done;
    try (destruct (v_dacl i); [done|by destruct Hd]); try (destruct (v_sacl i); [done|by destruct Hs]).
Qed.
End Properties.

(** * Concrete inputs *)

#[local] Existing Instance demo_layout.
#[local] Existing Instance demo_host.

Definition demo_object : mem := rel_image SE_DACL_PRESENT demo_spec (zeros 4) (zeros 4) (zeros 4) (zeros 4) [].

Lemma demo_object_at : rel_at demo_object (map_acls fit demo_spec).
Proof.
  apply (rel_image_at (demo_descriptor demo_host) demo_spec (zeros 4) (zeros 4) (zeros 4) (zeros 4) []);
    [apply demo_sd_at|apply demo_valid|split_and!; intros _; reflexivity].
Qed.

Lemma demo_object_valid : sids_valid (map_acls fit demo_spec).
Proof. apply demo_valid. Qed.

Lemma query_info_refines_witness :
  exists b', RtlQuerySecurityDescriptorInfo (fun _ => true) OWNER_SECURITY_INFORMATION (Some (zeros 40)) (Some 40) demo_object
               = Some (STATUS_SUCCESS, Some b', Some 32) /\ rel_at b' (map_acls fit (query_view OWNER_SECURITY_INFORMATION (map_acls fit demo_spec))).
Proof.
  pose proof (query_info_refines (fun _ => true) OWNER_SECURITY_INFORMATION demo_object (map_acls fit demo_spec) (zeros 20) 40
    demo_object_at demo_object_valid) as Q.
  destruct Q as (b' & E & Hb & _); [vm_compute; split; discriminate|reflexivity|]. exists b'. split; [exact E|exact Hb].
Defined.

Lemma set_info_refines_witness :
  exists b', RtlSetSecurityDescriptorInfo (fun _ => true) GROUP_SECURITY_INFORMATION demo_object demo_object (Some (zeros 120)) (Some 120)
               = Some (STATUS_SUCCESS, Some b', Some 116) /\
             rel_at b' (map_acls fit (set_view GROUP_SECURITY_INFORMATION (map_acls fit demo_spec) (map_acls fit demo_spec))).
Proof.
  pose proof (set_info_refines (fun _ => true) GROUP_SECURITY_INFORMATION demo_object (map_acls fit demo_spec) demo_object (map_acls fit demo_spec)
    (zeros 100) 120 demo_object_at demo_object_at demo_object_valid demo_object_valid) as Q.
  destruct Q as (b' & E & Hb & _); [vm_compute; split; discriminate|reflexivity|]. exists b'. split; [exact E|exact Hb].
Defined.
