(* ===== verification/SdSwab.v ===== *)
(** The repair of descriptors that an earlier version stored in the byte order
    of the host: [RtlAbsoluteToSelfRelativeSDSwab] turns the native image of a
    self-relative descriptor into the little-endian one. *)

From S2P Require Import Prelude SecurityTypes Sid Acl AclRepr AclOps AclEdit AclCodec AclCodecOps Token TokenState TokenOps Sd SdOps SdRelative SdRepr SdRelativeOps.

Section Swab.
Context `{Host}.

(** ** Values *)

Lemma htol32_at A B v cursor : cursor = zlen A -> 0 <= v < 2 ^ 32 ->
  RtlHTOL32Stream (A ++ encode host 4 v ++ B) cursor = Some (A ++ encode LittleEndian 4 v ++ B, v).
Proof.
  intros -> Hv. unfold RtlHTOL32Stream, ld32, st32. rewrite rd_at by zl. bsimpl. rewrite (decode_encode host 4) by done.
  rewrite wr_at by zl. bsimpl. by rewrite encode_HTOL32.
Qed.

Lemma swab_stream_at l A B cursor : cursor = zlen A -> Forall (fun v => 0 <= v < 2 ^ 32) l ->
  swab_stream (length l) (A ++ sub_bytes host l ++ B) cursor = Some (A ++ sub_bytes LittleEndian l ++ B).
Proof.
  intros Hc Hl. revert A cursor Hc. induction Hl as [|v l Hv Hl IH]; intros A cursor Hc; [done|].
  cbn [swab_stream length sub_bytes flat_map]. rewrite <- !app_assoc, htol32_at by done. bsimpl.
  change (flat_map (encode ?e 4) l) with (sub_bytes e l). rewrite app_assoc, IH by (subst cursor; zl). by rewrite <- app_assoc.
Qed.

Lemma swab_sid_at s A B cursor : cursor = zlen A -> sid_wf s ->
  RtlEncodeLittleEndianSidSwab (A ++ sid_bytes host s ++ B) cursor = Some (A ++ sid_bytes LittleEndian s ++ B, 8 + 4 * sid_count s).
Proof.
  intros -> Hw. pose proof (zlen_sid_header s Hw) as Hh. pose proof (sid_count_nonneg s). unfold RtlEncodeLittleEndianSidSwab.
  assert (Hat : sid_at host (sid_bytes host s ++ B) s) by (split; [done|by exists B]).
  rewrite ld8_app_r by lia. replace (zlen A + 1 - zlen A) with 1 by lia.
  pose proof (sid_at_count _ _ _ Hat) as Hc. unfold Sid_SubAuthorityCount in Hc. rewrite Hc. bsimpl.
  rewrite (sid_length_small _ _ _ Hat). unfold sid_bytes. rewrite <- !app_assoc, app_assoc. unfold sid_count. rewrite Nat2Z.id.
  rewrite swab_stream_at; [|zl|apply Hw]. bsimpl. by rewrite <- !app_assoc.
Qed.

(** A 16-bit field. *)
Lemma swab16_at A B v off : off = zlen A -> 0 <= v < 65536 ->
  ld16 (A ++ encode host 2 v ++ B) off = Some v /\ st16 (A ++ encode host 2 v ++ B) off (LW_HTOL16 v) = Some (A ++ encode LittleEndian 2 v ++ B).
Proof.
  intros -> Hv. unfold ld16, st16. rewrite rd_at, wr_at by zl. split; [|by rewrite encode_HTOL16]. simpl. by rewrite (decode_encode host 2).
Qed.

Lemma swab16_in m m' A B v off : off = zlen A -> 0 <= v < 65536 ->
  m = A ++ encode host 2 v ++ B -> m' = A ++ encode LittleEndian 2 v ++ B ->
  ld16 m off = Some v /\ st16 m off (LW_HTOL16 v) = Some m'.
Proof. intros ? ? -> ->. by apply swab16_at. Qed.

(** ** ACLs *)

Lemma swab_aces_at xs A B cursor : cursor = zlen A -> Forall std_wf xs ->
  swab_aces (length xs) (A ++ std_concat host xs ++ B) cursor = Some (A ++ std_concat LittleEndian xs ++ B, cursor + std_lens xs).
Proof.
  intros Hc Hx. revert A cursor Hc. induction Hx as [|x xs Hx Hxs IH]; intros A cursor Hc; [cbn; by rewrite Z.add_0_r|].
  cbn [swab_aces length std_lens]. unfold std_concat. cbn [map concat]. fold (std_concat host xs). fold (std_concat LittleEndian xs).
  destruct (std_wf_facts x Hx) as (_ & _ & Hl & Hz). pose proof (Hz LittleEndian) as HzL. destruct Hx as (_ & _ & Hm & Hs).
  rewrite !std_bytes_split, <- !app_assoc. rewrite std_bytes_split in HzL. set (tf := [sa_type x; sa_flags x]) in *.
  assert (Lt : zlen tf = 2) by done. clearbody tf. assert (Htf : zlen (A ++ tf) = cursor + 2) by zl.
  destruct (swab16_at (A ++ tf) (encode host 4 (sa_mask x) ++ sid_bytes host (sa_sid x) ++ std_concat host xs ++ B) (std_len x) (cursor + 2))
    as [E1 E2]; [done|lia|].
  rewrite (app_assoc A tf), E1. bsimpl. rewrite E2. bsimpl. unfold ld32, st32.
  rewrite (app_assoc (A ++ tf)), rd_at by zl. bsimpl. rewrite (decode_encode host 4) by done. rewrite wr_at by zl. bsimpl.
  rewrite encode_HTOL32. change (le_encode 4 (sa_mask x)) with (encode LittleEndian 4 (sa_mask x)).
  rewrite (app_assoc _ (encode LittleEndian 4 _)), swab_sid_at by (done || zl). bsimpl.
  rewrite (app_assoc _ (sid_bytes LittleEndian _)).
  rewrite IH by (rewrite !zlen_app in *; lia). rewrite <- !app_assoc. do 2 f_equal. lia.
Qed.

Lemma swab_acl_at a A B cursor : cursor = zlen A -> acl_spec_wf a ->
  RtlpEncodeLittleEndianAclSwab (A ++ std_acl_image host (as_revision a) (as_size a) (as_aces a) ++ B) cursor =
  Some (A ++ std_acl_image LittleEndian (as_revision a) (as_size a) (as_aces a) ++ B, as_used a).
Proof.
  intros -> Hw. pose proof (as_used_range a Hw) as Hu. destruct Hw as (Hx & Hr & _). unfold as_used in *. pose proof (std_lens_count _ Hx) as Hn.
  set (n := Z.of_nat (length (as_aces a))) in *. set (sz := as_size a) in *. set (rz := [as_revision a; 0]).
  assert (I : forall e, std_acl_image e (as_revision a) sz (as_aces a) = rz ++ encode e 2 sz ++ encode e 2 n ++ encode e 2 0 ++ std_concat e (as_aces a)).
  { intros e. unfold std_acl_image, acl_header, host. rewrite <- !app_assoc. by destruct e. }
  rewrite !I. clear I. assert (Lz : zlen rz = 2) by done. clearbody rz. set (C := std_concat host (as_aces a)). rewrite <- !app_assoc.
  unfold RtlpEncodeLittleEndianAclSwab.
  set (M1 := A ++ rz ++ encode LittleEndian 2 sz ++ encode host 2 n ++ encode host 2 0 ++ C ++ B).
  set (M2 := A ++ rz ++ encode LittleEndian 2 sz ++ encode LittleEndian 2 n ++ encode host 2 0 ++ C ++ B).
  destruct (swab16_in (A ++ rz ++ encode host 2 sz ++ encode host 2 n ++ encode host 2 0 ++ C ++ B)
    (A ++ rz ++ encode host 2 sz ++ encode LittleEndian 2 n ++ encode host 2 0 ++ C ++ B) (A ++ rz ++ encode host 2 sz)
    (encode host 2 0 ++ C ++ B) n (zlen A + 4)) as [-> _]; [zl|lia|by rewrite <- !app_assoc..|].
  destruct (swab16_in (A ++ rz ++ encode host 2 sz ++ encode host 2 n ++ encode host 2 0 ++ C ++ B) M1 (A ++ rz)
    (encode host 2 n ++ encode host 2 0 ++ C ++ B) sz (zlen A + 2)) as [E1 E2]; [zl|lia|unfold M1; by rewrite <- !app_assoc..|].
  bsimpl. rewrite E1. bsimpl. rewrite E2. bsimpl.
  destruct (swab16_in M1 M2 (A ++ rz ++ encode LittleEndian 2 sz) (encode host 2 0 ++ C ++ B) n (zlen A + 4)) as [_ ->];
    [zl|lia|unfold M1, M2; by rewrite <- !app_assoc..|]. bsimpl.
  destruct (swab16_in M2 (A ++ rz ++ encode LittleEndian 2 sz ++ encode LittleEndian 2 n ++ encode LittleEndian 2 0 ++ C ++ B)
    (A ++ rz ++ encode LittleEndian 2 sz ++ encode LittleEndian 2 n) (C ++ B) 0 (zlen A + 6)) as [E3 E4];
    [zl|lia|unfold M2; by rewrite <- !app_assoc..|]. rewrite E3. bsimpl. rewrite E4. bsimpl.
  set (P := A ++ rz ++ encode LittleEndian 2 sz ++ encode LittleEndian 2 n ++ encode LittleEndian 2 0).
  replace (A ++ rz ++ _) with (P ++ C ++ B) by (unfold P; by rewrite <- !app_assoc). unfold n, C. rewrite Nat2Z.id.
  rewrite swab_aces_at by (done || (unfold P; change sizeof_ACL with 8; zl)). bsimpl. unfold P. rewrite <- !app_assoc. do 2 f_equal.
  change sizeof_ACL with 8. rewrite u32_small; lia.
Qed.

(** ** The whole descriptor *)

Definition sid_part_in (e : endian) (o : option sid) : mem := match o with Some x => sid_bytes e x | None => [] end.
Definition acl_part_in (e : endian) (o : option acl_spec) : mem :=
  match o with Some a => std_acl_image e (as_revision a) (as_used a) (as_aces a) | None => [] end.

(** The self-relative form of [s] with every integer in byte order [e]. *)
Definition native_image (e : endian) (control : Z) (s : sd_spec) : mem :=
  rel_header e (image_header control s)
  ++ sid_part_in e (v_owner s).1 ++ sid_part_in e (v_group s).1 ++ acl_part_in e (acl_of (v_dacl s)) ++ acl_part_in e (acl_of (v_sacl s)).

Lemma native_image_le control s :
  native_image LittleEndian control s = rel_image control s (zeros 4) (zeros 4) (zeros 4) (zeros 4) [].
Proof using.
  unfold native_image, rel_image. rewrite !field_off by done. rewrite app_nil_r. done.
Qed.

Section Item.
Context (A old B dn P P' post : mem) (f off len : Z) (m : mem).
Context (Hm : m = A ++ old ++ B ++ dn ++ P ++ post) (Hf : f = zlen A) (Hoff : off = 20 + zlen dn) (Hold : zlen old = 4)
  (Hhdr : zlen A + zlen B = 16).

Lemma swab_item_at swab : swab m off = Some (A ++ old ++ B ++ dn ++ P' ++ post, len) -> 0 < len -> off + len < 2 ^ 32 ->
  swab_item swab true f (m, off) = Some (A ++ encode LittleEndian 4 off ++ B ++ dn ++ P' ++ post, off + len).
Proof using Hm Hf Hoff Hold.
  intros E Hl Ho. pose proof (zlen_nonneg dn). unfold swab_item. rewrite E. bsimpl. destruct (Z.ltb_spec 0 len); [|lia].
  rewrite st32_HTOL by done. bsimpl. by rewrite u32_small by lia.
Qed.

Lemma swab_sid_item x : P = sid_bytes host x -> P' = sid_bytes LittleEndian x -> sid_wf x -> len = 8 + 4 * sid_count x -> off + len < 2 ^ 32 ->
  swab_item RtlEncodeLittleEndianSidSwab true f (m, off) = Some (A ++ encode LittleEndian 4 off ++ B ++ dn ++ P' ++ post, off + len).
Proof using Hm Hf Hoff Hold Hhdr.
  intros EP EP' Hw Hl Ho. pose proof (sid_count_nonneg x). apply swab_item_at; [|lia|done].
  replace m with ((A ++ old ++ B ++ dn) ++ sid_bytes host x ++ post) by (rewrite Hm, EP, <- !app_assoc; done).
  rewrite swab_sid_at by (done || zl). rewrite <- !app_assoc. subst P' len. done.
Qed.

Lemma swab_acl_item a : P = std_acl_image host (as_revision a) (as_used a) (as_aces a) ->
  P' = std_acl_image LittleEndian (as_revision a) (as_used a) (as_aces a) -> acl_spec_wf a -> len = as_used a -> off + len < 2 ^ 32 ->
  swab_item RtlpEncodeLittleEndianAclSwab true f (m, off) = Some (A ++ encode LittleEndian 4 off ++ B ++ dn ++ P' ++ post, off + len).
Proof using Hm Hf Hoff Hold Hhdr.
  intros EP EP' Hw Hl Ho. pose proof (as_used_range a Hw) as Hu. apply swab_item_at; [|lia|done].
  replace m with ((A ++ old ++ B ++ dn) ++ std_acl_image host (as_revision a) (as_used a) (as_aces a) ++ post) by (rewrite Hm, EP, <- !app_assoc; done).
  assert (Hfit : acl_spec_wf (fit a)) by (destruct Hw as (? & ? & ?); unfold acl_spec_wf, fit, as_used in *; cbn [as_aces as_revision as_size]; split_and!; try done; lia).
  rewrite (swab_acl_at (fit a)) by (done || zl). rewrite <- !app_assoc. subst P' len. done.
Qed.
End Item.

(** An absent item changes nothing. *)
Lemma swab_item_absent swab f m off : 0 <= off < 2 ^ 32 -> swab_item swab false f (m, off) = Some (m, off).
Proof using. intros Ho. cbn. rewrite Z.add_0_r. by rewrite u32_small. Qed.

Lemma encode_zero e : encode e 4 0 = encode LittleEndian 4 0.
Proof using. by destruct e. Qed.

(** The group and the SACL may be absent; their offset field is then zero. *)
Lemma swab_opt_sid A B dn post f off n o m :
  m = A ++ encode host 4 (off_of o off) ++ B ++ dn ++ sid_part_in host o ++ post -> f = zlen A -> off = 20 + zlen dn -> zlen A + zlen B = 16 ->
  (forall x, o = Some x -> sid_wf x) -> off + sid_len o < n -> 0 <= n < 2 ^ 32 ->
  exists has, (if off <? n then group ← ld32 m f; Some (negb (group =? 0)) else Some false) = Some has /\
  swab_item RtlEncodeLittleEndianSidSwab has f (m, off) =
  Some (A ++ encode LittleEndian 4 (off_of o off) ++ B ++ dn ++ sid_part_in LittleEndian o ++ post, off + sid_len o).
Proof using.
  intros Hm Hf Hoff Hh Hw Hn Hn32. pose proof (zlen_nonneg dn).
  assert (0 <= sid_len o) by (destruct o as [x|]; cbn [sid_len]; [pose proof (sid_count_nonneg x)|]; lia).
  destruct (Z.ltb_spec off n); [|lia]. unfold ld32. rewrite Hm, rd_at, <- Hm by zl. bsimpl.
  rewrite (decode_encode host 4) by (destruct o; cbn [off_of]; lia). destruct o as [x|]; cbn [off_of sid_len sid_part_in] in *.
  - destruct (Z.eqb_spec off 0); [lia|]. exists true. split; [done|].
    by rewrite (swab_sid_item A (encode host 4 off) B dn (sid_bytes host x) (sid_bytes LittleEndian x) post f off (8 + 4 * sid_count x) m) with (x := x)
      by (done || apply zlen_encode || lia || by apply Hw).
  - exists false. split; [done|]. rewrite swab_item_absent by lia. by rewrite Z.add_0_r, Hm, encode_zero.
Qed.

Lemma swab_opt_acl A B dn post f off n o m :
  m = A ++ encode host 4 (off_of o off) ++ B ++ dn ++ acl_part_in host o ++ post -> f = zlen A -> off = 20 + zlen dn -> zlen A + zlen B = 16 ->
  (forall a, o = Some a -> acl_spec_wf a) -> n = off + acl_len o -> 0 <= n < 2 ^ 32 ->
  swab_item RtlpEncodeLittleEndianAclSwab (off <? n) f (m, off) =
  Some (A ++ encode LittleEndian 4 (off_of o off) ++ B ++ dn ++ acl_part_in LittleEndian o ++ post, off + acl_len o).
Proof using.
  intros Hm Hf Hoff Hh Hw Hn Hn32. pose proof (zlen_nonneg dn). destruct o as [a|]; cbn [off_of acl_len acl_part_in] in *.
  - pose proof (as_used_range a (Hw a eq_refl)). destruct (Z.ltb_spec off n); [|lia].
    by rewrite (swab_acl_item A (encode host 4 off) B dn (std_acl_image host (as_revision a) (as_used a) (as_aces a))
      (std_acl_image LittleEndian (as_revision a) (as_used a) (as_aces a)) post f off (as_used a) m) with (a := a)
      by (done || apply zlen_encode || lia || by apply Hw).
  - destruct (Z.ltb_spec off n); [lia|]. rewrite swab_item_absent by lia. by rewrite Z.add_0_r, Hm, encode_zero.
Qed.

(** The run on an image with an owner and a DACL, from the header fields on. *)
Definition raw_image (e : endian) (rz : mem) (C : Z) (o : sid) (g : option sid) (d : acl_spec) (a : option acl_spec) : mem :=
  let goff := 20 + (8 + 4 * sid_count o) in
  let doff := goff + sid_len g in
  (rz ++ encode e 2 C ++ encode e 4 20 ++ encode e 4 (off_of g goff) ++ encode e 4 (off_of a (doff + as_used d)) ++ encode e 4 doff)
  ++ sid_bytes e o ++ sid_part_in e g ++ acl_part_in e (Some d) ++ acl_part_in e a.

Lemma swab_run rz C o g d a n :
  zlen rz = 2 -> 0 <= C < 65536 -> sid_wf o -> acl_spec_wf d ->
  (forall x, g = Some x -> sid_wf x) -> (forall x, a = Some x -> acl_spec_wf x) ->
  n = 20 + (8 + 4 * sid_count o) + sid_len g + as_used d + acl_len a -> 0 <= sid_len g -> 0 <= acl_len a -> n < 2 ^ 32 ->
  RtlAbsoluteToSelfRelativeSDSwab (Some (raw_image host rz C o g d a)) n = Some (STATUS_SUCCESS, Some (raw_image LittleEndian rz C o g d a)).
Proof using.
  intros Lz HC Wo Wd Wg Wa Hn Hg Ha Hn32. pose proof (sid_len_range o Wo) as Ro. pose proof (as_used_range d Wd) as Rd.
  assert (Lg : forall e, zlen (sid_part_in e g) = sid_len g) by (intros e; destruct g as [x|]; [by apply zlen_sid_bytes, Wg|done]).
  assert (Ld : forall e, zlen (acl_part_in e (Some d)) = as_used d)
    by (intros e; cbn [acl_part_in]; unfold std_acl_image; rewrite zlen_app, zlen_acl_header, zlen_std_concat by apply Wd; done).
  unfold raw_image, RtlAbsoluteToSelfRelativeSDSwab. set (goff := 20 + (8 + 4 * sid_count o)) in *. set (doff := goff + sid_len g) in *.
  set (og := off_of g goff). set (oa := off_of a (doff + as_used d)). change SECURITY_DESCRIPTOR_RELATIVE_MIN_SIZE with 20.
  set (oh := sid_bytes host o). set (ol := sid_bytes LittleEndian o).
  assert (Loh : zlen oh = 8 + 4 * sid_count o) by (by apply zlen_sid_bytes). assert (Lol : zlen ol = 8 + 4 * sid_count o) by (by apply zlen_sid_bytes).
  destruct (Z.eqb_spec n 0); [lia|]. rewrite <- !app_assoc.
  destruct (swab16_at rz (encode host 4 20 ++ encode host 4 og ++ encode host 4 oa ++ encode host 4 doff ++ oh ++ sid_part_in host g
    ++ acl_part_in host (Some d) ++ acl_part_in host a) C 2) as [E1 E2]; [lia|done|]. rewrite E1. bsimpl. rewrite E2. bsimpl. clear E1 E2.
  destruct (Z.ltb_spec 20 n); [|lia].
  erewrite (swab_sid_item (rz ++ encode LittleEndian 2 C) (encode host 4 20) (encode host 4 og ++ encode host 4 oa ++ encode host 4 doff) []
    oh ol (sid_part_in host g ++ acl_part_in host (Some d) ++ acl_part_in host a) 4 20 (8 + 4 * sid_count o)) with (x := o)
    by (done || lia || (by rewrite <- !app_assoc) || zl). bsimpl. fold goff.
  edestruct (swab_opt_sid ((rz ++ encode LittleEndian 2 C) ++ encode LittleEndian 4 20) (encode host 4 oa ++ encode host 4 doff) ol
    (acl_part_in host (Some d) ++ acl_part_in host a) 8 goff n g) as (has & -> & E); [by rewrite <- !app_assoc|zl|zl|zl|done|lia|lia|].
  bsimpl. rewrite E. bsimpl. fold doff og. clear E has.
  destruct (Z.ltb_spec doff n); [|lia].
  erewrite (swab_acl_item ((rz ++ encode LittleEndian 2 C) ++ encode LittleEndian 4 20 ++ encode LittleEndian 4 og ++ encode host 4 oa)
    (encode host 4 doff) [] (ol ++ sid_part_in LittleEndian g) (acl_part_in host (Some d)) (acl_part_in LittleEndian (Some d)) (acl_part_in host a)
    16 doff (as_used d)) with (a := d)
    by (done || lia || (by rewrite <- !app_assoc) || apply zlen_encode || (rewrite ?zlen_app, ?Lg, ?zlen_encode, ?zlen_nil; lia)). bsimpl.
  erewrite (swab_opt_acl ((rz ++ encode LittleEndian 2 C) ++ encode LittleEndian 4 20 ++ encode LittleEndian 4 og) (encode LittleEndian 4 doff)
    (ol ++ sid_part_in LittleEndian g ++ acl_part_in LittleEndian (Some d)) [] 12 (doff + as_used d) n a)
    by (done || lia || (by rewrite <- !app_assoc, ?app_nil_r) || apply zlen_encode || (rewrite ?zlen_app, ?Lg, ?Ld, ?zlen_encode; lia)). bsimpl.
  by rewrite <- !app_assoc, !app_nil_r.
Qed.
End Swab.

(** * Property *)

(** [RtlAbsoluteToSelfRelativeSDSwab] turns the self-relative form of a
    descriptor with an owner and a DACL that was stored in the byte order of the
    host into the little-endian form, which means the same; on a little-endian
    host it changes nothing. *)
Theorem swab_repairs `{Layout} (h : Host) sd s o d :
  sd_at sd s -> sids_valid s -> (v_owner s).1 = Some o -> acl_of (v_dacl s) = Some d ->
  RtlAbsoluteToSelfRelativeSDSwab (Some (native_image host (sd_Control sd) s)) (rel_size s) =
    Some (STATUS_SUCCESS, Some (native_image LittleEndian (sd_Control sd) s)) /\
  rel_at (native_image LittleEndian (sd_Control sd) s) (map_acls fit s).
Proof.
  intros Hm Hv Ho Hd. split; [|rewrite native_image_le; by apply rel_image_at].
  destruct (size_used_at sd s Hm Hv) as [_ Hr]. destruct (means_parts Hm) as (Po & Pg & Pd & Ps). pose proof (sm_control _ _ _ _ Hm) as Hc.
  apply self_relative_range in Hc. unfold native_image. set (hd := image_header (sd_Control sd) s).
  assert (F : rel_Control hd = Z.lor (sd_Control sd) SE_SELF_RELATIVE /\ rel_Owner hd = 20 /\ rel_Group hd = off_of (v_group s).1 (group_off s) /\
    rel_Sacl hd = off_of (acl_of (v_sacl s)) (sacl_off s) /\ rel_Dacl hd = dacl_off s) by (unfold hd; cbn; by rewrite Ho, Hd).
  destruct F as (F3 & F4 & F5 & F6 & F7). unfold rel_header. rewrite F3, F4, F5, F6, F7. clear F3 F4 F5 F6 F7.
  set (rz := [rel_Revision hd; rel_Sbz1 hd]). assert (Lz : zlen rz = 2) by done. clearbody rz. clear hd.
  unfold rel_size, sacl_off, dacl_off, group_off in *. rewrite Ho, Hd in *. cbn [sid_len acl_len sid_part_in off_of] in *.
  assert (Wo : sid_wf o) by (inversion Po as [? ? [? _]|]; done). assert (Wd : acl_spec_wf d) by (inversion Pd as [? ? [? _]|]; done).
  assert (HR : forall q x, acl_mem q x -> acl_spec_wf x) by (intros q x Hx; apply Hx).
  pose proof (opt_sid_len_range _ _ _ Pg). pose proof (opt_acl_len_range _ _ _ HR Ps).
  apply (swab_run rz _ o (v_group s).1 d (acl_of (v_sacl s))); try done; try lia.
  - intros x E. rewrite E in Pg. inversion Pg as [? ? [? _]|]; done.
  - intros x E. rewrite E in Ps. inversion Ps as [? ? [? _]|]; done.
Qed.

#[local] Existing Instance demo_layout.

Lemma swab_repairs_witness :
  @RtlAbsoluteToSelfRelativeSDSwab BigEndian (Some (native_image BigEndian SE_DACL_PRESENT demo_spec)) 116 =
  Some (STATUS_SUCCESS, Some (native_image LittleEndian SE_DACL_PRESENT demo_spec)).
Proof.
  destruct (swab_repairs BigEndian (demo_descriptor BigEndian) demo_spec sid_system demo_acl) as [E _];
    [apply demo_sd_at|apply demo_valid|reflexivity|reflexivity|exact E].
Defined.
