(* ===== verification/SdInherit.v ===== *)
(** Security descriptors of new objects: [lwbase/src/security-sd-inherit.c]. The
    descriptor of a new object is made from the descriptor its creator asks for,
    the descriptor of its parent and the token of the creator.

    The local buffers of the functions hold whatever was on the stack: they are
    arguments ([inherit_locals]), one set per call ([frame]). *)

From S2P Require Import Prelude SecurityTypes Sid Acl AclIndex AclCodec Token TokenState Sd SdRelative.

(** * Local buffers *)

(** [union { SID sid; BYTE buffer[SID_MAX_SIZE]; } CreatorOwner, CreatorGroup],
    [union { TOKEN_OWNER; BYTE[SID_MAX_SIZE]; } TokenOwnerBuffer] and
    [struct { TOKEN_PRIMARY_GROUP; BYTE[SID_MAX_SIZE]; } TokenPrimaryGroupBuffer]. *)
Record inherit_locals := mk_locals {
  l_CreatorOwner : mem;
  l_CreatorGroup : mem;
  l_TokenOwnerBuffer : mem;
  l_TokenPrimaryGroupBuffer : mem
}.

(** The calls that have such buffers. *)
Inductive frame := FrameOwner | FrameGroup | FrameDacl | FrameDefaultDacl | FrameSacl.

(** The size of an object that is aligned like a pointer. *)
Definition round_up `{Layout} (n : Z) : Z := (n + sizeof_pointer - 1) / sizeof_pointer * sizeof_pointer.

Definition sizeof_TokenOwnerBuffer `{Layout} : Z := round_up SID_MAX_SIZE.
Definition sizeof_TokenPrimaryGroupBuffer `{Layout} : Z := round_up (sizeof_TOKEN_PRIMARY_GROUP + SID_MAX_SIZE).

(** [sizeof(ACCESS_ALLOWED_ACE)], which is that of the other two types: the
    header, the mask and [SidStart]. *)
Definition sizeof_ACCESS_ALLOWED_ACE : Z := 12.

(** The bytes the code sets aside for an ACE. *)
Definition ace_room : Z := sizeof_ACCESS_ALLOWED_ACE + SID_MAX_SIZE.

(** CREATOR OWNER, CREATOR GROUP, and the SIDs of the token that replace them. *)
Record creator_sids := mk_creator {
  cs_CreatorOwner : mem;
  cs_CreatorGroup : mem;
  cs_Owner : mem;
  cs_PrimaryGroup : mem
}.

Section Operations.
Context `{Host} `{Layout} (malloc : Z -> bool).

(** A query of the token for [TokenOwner] or [TokenPrimaryGroup] into a local
    buffer: the status and the pointer that the structure holds. *)
Definition query_token_sid (UserToken : option ACCESS_TOKEN) (class : Z) (buffer : mem) (size : Z) : option (NTSTATUS * ptr) :=
  '(status, info, _) ← RtlQueryAccessTokenInformation UserToken class (Some buffer) size true;
  if negb (is_ok status) then Some (status, None)
  else
    match info with
    | Some (InfoOwner off, b) | Some (InfoPrimaryGroup off, b) => Some (status, Some (padd b off))
    | _ => None
    end.

(** The four SIDs that [RtlpObjectAclAssignSecurity] and
    [RtlpObjectInheritSecurity] start with. *)
Definition get_creator_sids (UserToken : option ACCESS_TOKEN) (l : inherit_locals) : option (NTSTATUS * option creator_sids) :=
  '(status, creatorOwner) ← well_known_local WinCreatorOwnerSid (l_CreatorOwner l);
  if negb (is_ok status) then Some (status, None)
  else
    '(status, creatorGroup) ← well_known_local WinCreatorGroupSid (l_CreatorGroup l);
    if negb (is_ok status) then Some (status, None)
    else
      '(status, owner) ← query_token_sid UserToken TokenOwner (l_TokenOwnerBuffer l) sizeof_TokenOwnerBuffer;
      if negb (is_ok status) then Some (status, None)
      else
        '(status, group) ← query_token_sid UserToken TokenPrimaryGroup (l_TokenPrimaryGroupBuffer l) sizeof_TokenPrimaryGroupBuffer;
        if negb (is_ok status) then Some (status, None)
        else
          owner ← owner;
          group ← group;
          Some (STATUS_SUCCESS, Some (mk_creator creatorOwner creatorGroup owner group)).

(** CREATOR OWNER and CREATOR GROUP become the owner and the group of the token. *)
Definition replace_creator (sids : creator_sids) (aceSid : mem) : option mem :=
  e ← RtlEqualSid aceSid (cs_CreatorOwner sids);
  if (e : bool) then Some (cs_Owner sids)
  else
    e ← RtlEqualSid aceSid (cs_CreatorGroup sids);
    Some (if (e : bool) then cs_PrimaryGroup sids else aceSid).

(** The [switch] on the type of the ACE; other types are skipped. *)
Definition add_ace_of_type (AceType : Z) (pAcl : mem) (AceFlags mask : Z) (aceSid : mem) : option (NTSTATUS * mem) :=
  if AceType =? ACCESS_ALLOWED_ACE_TYPE then
    '(status, p) ← RtlAddAccessAllowedAceEx (Some pAcl) ACL_REVISION AceFlags mask (Some aceSid); p ← p; Some (status, p)
  else if AceType =? ACCESS_DENIED_ACE_TYPE then
    '(status, p) ← RtlAddAccessDeniedAceEx (Some pAcl) ACL_REVISION AceFlags mask (Some aceSid); p ← p; Some (status, p)
  else if AceType =? SYSTEM_AUDIT_ACE_TYPE then
    '(status, p) ← RtlAddSystemAuditAceEx (Some pAcl) ACL_REVISION AceFlags mask (Some aceSid); p ← p; Some (status, p)
  else Some (STATUS_SUCCESS, pAcl).

(** * Copies of an ACL *)

Definition RtlpDuplicateAcl (Acl : ptr) : option (NTSTATUS * ptr) :=
  acl ← Acl;
  daclSize ← RtlGetAclSize acl;
  match RTL_ALLOCATE malloc daclSize with
  | (STATUS_SUCCESS, Some newAcl) =>
      bs ← rd acl 0 daclSize;
      newAcl ← wr newAcl 0 bs;
      Some (STATUS_SUCCESS, Some newAcl)
  | (status, _) => Some (status, None)
  end.

(** The [while] loop of [RtlpObjectAclAssignSecurity]. Each turn consumes an ACE,
    so that the bytes in use by the ACL are fuel enough. *)
Fixpoint assign_loop (fuel : nat) (sids : creator_sids) (pSrcAcl : mem) (srcAclSizeUsed aceOffset : Z) (pGenericMap : GENERIC_MAPPING)
    (pAcl : mem) : option (NTSTATUS * mem) :=
  match fuel with
  | O => None
  | S fuel' =>
      '(status, aceOffset, aceHeader) ← RtlIterateAce pSrcAcl srcAclSizeUsed aceOffset;
      if bool_decide (status = STATUS_NO_MORE_ENTRIES) then Some (STATUS_SUCCESS, pAcl)
      else if negb (is_ok status) then Some (status, pAcl)
      else
        loc ← aceHeader;
        let ace := padd pSrcAcl loc in
        t ← Ace_AceType ace;
        if is_standard_ace t then
          mask ← Ace_Mask ace;
          aceSid ← replace_creator sids (RtlpGetSidAccessAllowedAce ace);
          flags ← Ace_AceFlags ace;
          '(status, pAcl) ← add_ace_of_type t pAcl flags (RtlMapGenericMask mask pGenericMap) aceSid;
          if negb (is_ok status) then Some (status, pAcl)
          else assign_loop fuel' sids pSrcAcl srcAclSizeUsed aceOffset pGenericMap pAcl
        else assign_loop fuel' sids pSrcAcl srcAclSizeUsed aceOffset pGenericMap pAcl
  end.

(** The status and [*ppObjectAcl]. *)
Definition RtlpObjectAclAssignSecurity (pUserToken : option ACCESS_TOKEN) (pSrcAcl : ptr) (pGenericMap : GENERIC_MAPPING)
    (l : inherit_locals) : option (NTSTATUS * ptr) :=
  srcAcl ← pSrcAcl;
  count ← RtlGetAclAceCount srcAcl;
  let aclSize := u16 (ACL_HEADER_SIZE + count * ace_room) in
  if aclSize =? 0 then Some (STATUS_INVALID_SECURITY_DESCR, None)
  else
    '(status, sids) ← get_creator_sids pUserToken l;
    if negb (is_ok status) then Some (status, None)
    else
      let '(status, pAcl) := RTL_ALLOCATE malloc aclSize in
      if negb (is_ok status) then Some (status, None)
      else
        pAcl ← pAcl;
        '(status, pAcl) ← RtlCreateAcl pAcl aclSize ACL_REVISION;
        if negb (is_ok status) then Some (status, None)
        else
          sids ← sids;
          srcAclSizeUsed ← RtlGetAclSizeUsed srcAcl;
          '(status, pAcl) ← assign_loop (Z.to_nat srcAclSizeUsed) sids srcAcl srcAclSizeUsed 0 pGenericMap pAcl;
          if negb (is_ok status) then Some (status, None) else Some (STATUS_SUCCESS, Some pAcl).

(** * Inheritance *)

(** Case (b): [n] ACEs of the creator are left, the first of them at index [i]. *)
Fixpoint add_creator_aces (n : nat) (i : Z) (CreateAcl : mem) (GenericMap : GENERIC_MAPPING) (pAcl : mem) : option (NTSTATUS * mem) :=
  match n with
  | O => Some (STATUS_SUCCESS, pAcl)
  | S n' =>
      '(status, pAceHeader) ← RtlGetAce CreateAcl i;
      if negb (is_ok status) then Some (status, pAcl)
      else
        loc ← pAceHeader;
        let ace := padd CreateAcl loc in
        t ← Ace_AceType ace;
        if is_standard_ace t then
          mask ← Ace_Mask ace;
          flags ← Ace_AceFlags ace;
          '(status, pAcl) ← add_ace_of_type t pAcl flags (RtlMapGenericMask mask GenericMap) (RtlpGetSidAccessAllowedAce ace);
          if negb (is_ok status) then Some (status, pAcl) else add_creator_aces n' (u16 (i + 1)) CreateAcl GenericMap pAcl
        else add_creator_aces n' (u16 (i + 1)) CreateAcl GenericMap pAcl
  end.

(** [AceFlags &= ~(CONTAINER_INHERIT_ACE|OBJECT_INHERIT_ACE|INHERIT_ONLY_ACE);
    AceFlags |= INHERITED_ACE;]. *)
Definition inherited_flags (AceFlags : Z) : Z :=
  SetFlag (ClearFlag AceFlags (Z.lor (Z.lor CONTAINER_INHERIT_ACE OBJECT_INHERIT_ACE) INHERIT_ONLY_ACE)) INHERITED_ACE.

(** One turn of case (c) on the ACE at [ace]. *)
Definition inherit_ace (IsContainerObject : bool) (sids : creator_sids) (GenericMap : GENERIC_MAPPING) (ace pAcl : mem)
    : option (NTSTATUS * mem) :=
  flags ← Ace_AceFlags ace;
  if (IsContainerObject && negb (IsSetFlag flags CONTAINER_INHERIT_ACE)) || (negb IsContainerObject && negb (IsSetFlag flags OBJECT_INHERIT_ACE))
  then Some (STATUS_SUCCESS, pAcl)
  else
    t ← Ace_AceType ace;
    if negb (is_standard_ace t) then Some (STATUS_SUCCESS, pAcl)
    else
      mask ← Ace_Mask ace;
      let aceSid := RtlpGetSidAccessAllowedAce ace in
      '(status, pAcl) ← (if IsContainerObject && negb (IsSetFlag flags NO_PROPAGATE_INHERIT_ACE)
                         then add_ace_of_type t pAcl flags mask aceSid
                         else Some (STATUS_SUCCESS, pAcl));
      if negb (is_ok status) then Some (status, pAcl)
      else
        aceSid ← replace_creator sids aceSid;
        add_ace_of_type t pAcl (inherited_flags flags) (RtlMapGenericMask mask GenericMap) aceSid.

(** Case (c): [n] ACEs of the parent are left, the first of them at index [i]. *)
Fixpoint add_parent_aces (n : nat) (i : Z) (ParentAcl : mem) (IsContainerObject : bool) (sids : creator_sids) (GenericMap : GENERIC_MAPPING)
    (pAcl : mem) : option (NTSTATUS * mem) :=
  match n with
  | O => Some (STATUS_SUCCESS, pAcl)
  | S n' =>
      '(status, pAceHeader) ← RtlGetAce ParentAcl i;
      if negb (is_ok status) then Some (status, pAcl)
      else
        loc ← pAceHeader;
        '(status, pAcl) ← inherit_ace IsContainerObject sids GenericMap (padd ParentAcl loc) pAcl;
        if negb (is_ok status) then Some (status, pAcl)
        else add_parent_aces n' (u16 (i + 1)) ParentAcl IsContainerObject sids GenericMap pAcl
  end.

(** [Acl ? RtlGetAclAceCount(Acl) : 0]. *)
Definition optional_count (Acl : ptr) : option Z :=
  match Acl with Some a => RtlGetAclAceCount a | None => Some 0 end.

Definition inherit_size (ParentAcl CreateAcl : ptr) : option Z :=
  usAclSize ← match CreateAcl with
              | Some a => count ← RtlGetAclAceCount a; Some (u16 (ACL_HEADER_SIZE + count * ace_room))
              | None => Some 0
              end;
  match ParentAcl with
  | Some a => count ← RtlGetAclAceCount a; Some (u16 (usAclSize + (ACL_HEADER_SIZE + count * 2 * ace_room)))
  | None => Some usAclSize
  end.

(** The status, [*NewAcl] and [*IsNewAclDefaulted]. *)
Definition RtlpObjectInheritSecurity (ParentAcl CreateAcl : ptr) (CreatorIsAclDefaulted IsContainerObject : bool)
    (AccessToken : option ACCESS_TOKEN) (GenericMap : GENERIC_MAPPING) (l : inherit_locals) : option (NTSTATUS * ptr * bool) :=
  if is_null ParentAcl && CreatorIsAclDefaulted then
    '(status, pAcl) ← RtlpObjectAclAssignSecurity AccessToken CreateAcl GenericMap l;
    if negb (is_ok status) then Some (status, None, false) else Some (status, pAcl, true)
  else
    usAclSize ← inherit_size ParentAcl CreateAcl;
    if usAclSize <=? 0 then Some (STATUS_INVALID_SECURITY_DESCR, None, false)
    else
      '(status, sids) ← get_creator_sids AccessToken l;
      if negb (is_ok status) then Some (status, None, false)
      else
        let '(status, pAcl) := RTL_ALLOCATE malloc usAclSize in
        if negb (is_ok status) then Some (status, None, false)
        else
          pAcl ← pAcl;
          '(status, pAcl) ← RtlCreateAcl pAcl usAclSize ACL_REVISION;
          if negb (is_ok status) then Some (status, None, false)
          else
            sids ← sids;
            usCreatorNumAces ← optional_count CreateAcl;
            '(status, pAcl) ← add_creator_aces (Z.to_nat usCreatorNumAces) 0 (default [] CreateAcl) GenericMap pAcl;
            if negb (is_ok status) then Some (status, None, false)
            else
              usParentNumAces ← optional_count ParentAcl;
              '(status, pAcl) ← add_parent_aces (Z.to_nat usParentNumAces) 0 (default [] ParentAcl) IsContainerObject sids GenericMap pAcl;
              if negb (is_ok status) then Some (status, None, false)
              else Some (STATUS_SUCCESS, Some pAcl, CreatorIsAclDefaulted).

(** * Owner and group *)

(** [RtlpObjectSetOwner] and [RtlpObjectSetGroup] are the same code on another
    field; [get] and [set] are the getter and the setter of the field, [class],
    [buffer] and [size] those of the query of the token. *)
Section SetSid.
Context (get : SECURITY_DESCRIPTOR_ABSOLUTE -> NTSTATUS * ptr * bool)
  (set : SECURITY_DESCRIPTOR_ABSOLUTE -> ptr -> bool -> NTSTATUS * SECURITY_DESCRIPTOR_ABSOLUTE)
  (DefaultFromParent class : Z) (buffer : mem) (size : Z)
  (pSecurityDescriptor : SECURITY_DESCRIPTOR_ABSOLUTE) (pParentSecDesc pCreatorSecDesc : option SECURITY_DESCRIPTOR_ABSOLUTE)
  (AutoInheritFlags : Z) (pUserToken : option ACCESS_TOKEN).

(** A copy of [sid] is stored in the new descriptor. *)
Definition set_sid_copy (sid : ptr) (bDefaulted : bool) : option (NTSTATUS * SECURITY_DESCRIPTOR_ABSOLUTE) :=
  s ← sid;
  '(status, pSid) ← RtlDuplicateSid malloc s;
  if negb (is_ok status) then Some (status, pSecurityDescriptor) else Some (set pSecurityDescriptor pSid bDefaulted).

Definition set_sid_from_token : option (NTSTATUS * SECURITY_DESCRIPTOR_ABSOLUTE) :=
  '(status, sid) ← query_token_sid pUserToken class buffer size;
  if negb (is_ok status) then Some (status, pSecurityDescriptor) else set_sid_copy sid true.

(** Defaulting from the parent, with the SID of the creator, and else from the
    token. *)
Definition set_sid_from_parent (pCreatorSid : ptr) : option (NTSTATUS * SECURITY_DESCRIPTOR_ABSOLUTE) :=
  match pParentSecDesc with
  | Some parent =>
      if IsSetFlag AutoInheritFlags DefaultFromParent then
        let '(status, pParentSid, _) := get parent in
        if negb (is_ok status) then Some (status, pSecurityDescriptor)
        else if negb (is_null pParentSid) then set_sid_copy pCreatorSid true
        else set_sid_from_token
      else set_sid_from_token
  | None => set_sid_from_token
  end.

Definition object_set_sid : option (NTSTATUS * SECURITY_DESCRIPTOR_ABSOLUTE) :=
  match pCreatorSecDesc with
  | Some creator =>
      let '(status, pCreatorSid, bDefaulted) := get creator in
      if negb (is_ok status) then Some (status, pSecurityDescriptor)
      else
        match pCreatorSid with
        | Some sid =>
            T ← pUserToken;
            m ← RtlIsSidMemberOfToken T sid;
            if (m : bool) then set_sid_copy pCreatorSid bDefaulted else set_sid_from_parent pCreatorSid
        | None => set_sid_from_parent None
        end
  | None => set_sid_from_parent None
  end.
End SetSid.

Definition RtlpObjectSetOwner (pSecurityDescriptor : SECURITY_DESCRIPTOR_ABSOLUTE)
    (pParentSecDesc pCreatorSecDesc : option SECURITY_DESCRIPTOR_ABSOLUTE) (AutoInheritFlags : Z) (pUserToken : option ACCESS_TOKEN)
    (l : inherit_locals) : option (NTSTATUS * SECURITY_DESCRIPTOR_ABSOLUTE) :=
  object_set_sid RtlGetOwnerSecurityDescriptor RtlSetOwnerSecurityDescriptor SEF_DEFAULT_OWNER_FROM_PARENT TokenOwner
    (l_TokenOwnerBuffer l) sizeof_TokenOwnerBuffer pSecurityDescriptor pParentSecDesc pCreatorSecDesc AutoInheritFlags pUserToken.

Definition RtlpObjectSetGroup (pSecurityDescriptor : SECURITY_DESCRIPTOR_ABSOLUTE)
    (pParentSecDesc pCreatorSecDesc : option SECURITY_DESCRIPTOR_ABSOLUTE) (AutoInheritFlags : Z) (pUserToken : option ACCESS_TOKEN)
    (l : inherit_locals) : option (NTSTATUS * SECURITY_DESCRIPTOR_ABSOLUTE) :=
  object_set_sid RtlGetGroupSecurityDescriptor RtlSetGroupSecurityDescriptor SEF_DEFAULT_GROUP_FROM_PARENT TokenPrimaryGroup
    (l_TokenPrimaryGroupBuffer l) sizeof_TokenPrimaryGroupBuffer pSecurityDescriptor pParentSecDesc pCreatorSecDesc AutoInheritFlags pUserToken.

(** * The ACLs *)

(** [if (pSecDesc) status = RtlGet[DS]aclSecurityDescriptor(...)]: absent, null
    and not defaulted otherwise. *)
Definition optional_acl (get : SECURITY_DESCRIPTOR_ABSOLUTE -> NTSTATUS * bool * ptr * bool) (sd : option SECURITY_DESCRIPTOR_ABSOLUTE)
    : NTSTATUS * bool * ptr * bool :=
  match sd with Some sd => get sd | None => (STATUS_SUCCESS, false, None, false) end.

Definition optional_control (sd : option SECURITY_DESCRIPTOR_ABSOLUTE) : NTSTATUS * Z :=
  match sd with
  | Some sd => let '(status, control, _) := RtlGetSecurityDescriptorControl sd in (status, control)
  | None => (STATUS_SUCCESS, 0)
  end.

(** [pParentSecDesc && (AutoInheritFlags & flag)]: the parent, when it counts. *)
Definition parent_if (flags flag : Z) (sd : option SECURITY_DESCRIPTOR_ABSOLUTE) : option SECURITY_DESCRIPTOR_ABSOLUTE :=
  if IsSetFlag flags flag then sd else None.

(** The [if] of [RtlpObjectSetDacl] that falls back on the default DACL of the
    token: the status, the DACL and whether it is defaulted. *)
Definition default_dacl (bIsContainerObject bParentIsDaclPresent : bool) (pUserToken : option ACCESS_TOKEN) (pGenericMap : GENERIC_MAPPING)
    (l : inherit_locals) : option (NTSTATUS * ptr * bool) :=
  '(status, _, ulTokenDefaultDaclLength) ← RtlQueryAccessTokenInformation pUserToken TokenDefaultDacl None 0 true;
  '(status, info) ←
    (if bool_decide (status = STATUS_BUFFER_TOO_SMALL) then
       let '(status, pBuffer) := RTL_ALLOCATE malloc ulTokenDefaultDaclLength in
       if negb (is_ok status) then Some (status, None)
       else
         '(status, info, _) ← RtlQueryAccessTokenInformation pUserToken TokenDefaultDacl pBuffer ulTokenDefaultDaclLength true;
         Some (status, info)
     else Some (status, None));
  if negb (is_ok status) then Some (status, None, false)
  else
    match info with
    | Some (InfoDefaultDacl off, b) =>
        '(status, pFinalDacl, _) ← RtlpObjectInheritSecurity None (padd b <$> off) true bIsContainerObject pUserToken pGenericMap l;
        if negb (is_ok status) then Some (status, None, false)
        else Some (status, pFinalDacl, negb bParentIsDaclPresent)
    | _ => None
    end.

(** [Dacl] has no ACE: [!pFinalDacl || RtlGetAclAceCount(pFinalDacl) == 0]. *)
Definition no_aces (Acl : ptr) : option bool :=
  match Acl with None => Some true | Some a => n ← RtlGetAclAceCount a; Some (n =? 0) end.

(** The bits set in the control field of the new descriptor. *)
Definition inherited_control (creatorControl Protected AutoInheritFlags AutoInherit AutoInherited : Z) : Z :=
  if IsSetFlag creatorControl Protected then Protected
  else if IsSetFlag AutoInheritFlags AutoInherit then AutoInherited
  else 0.

Definition RtlpObjectSetDacl (pSecurityDescriptor : SECURITY_DESCRIPTOR_ABSOLUTE)
    (pParentSecDesc pCreatorSecDesc : option SECURITY_DESCRIPTOR_ABSOLUTE) (bIsContainerObject : bool) (AutoInheritFlags : Z)
    (pUserToken : option ACCESS_TOKEN) (pGenericMap : GENERIC_MAPPING) (l ld : inherit_locals)
    : option (NTSTATUS * SECURITY_DESCRIPTOR_ABSOLUTE) :=
  let keep status := Some (status, pSecurityDescriptor) in
  let '(status, bParentIsDaclPresent, pParentDacl, bParentIsDaclDefaulted) :=
    optional_acl RtlGetDaclSecurityDescriptor (parent_if AutoInheritFlags SEF_DACL_AUTO_INHERIT pParentSecDesc) in
  if negb (is_ok status) then keep status
  else
    let '(status, bCreatorIsDaclPresent, pCreatorDacl, bCreatorIsDaclDefaulted) :=
      optional_acl RtlGetDaclSecurityDescriptor pCreatorSecDesc in
    if negb (is_ok status) then keep status
    else
      let '(status, CreatorSecDescControl) := optional_control pCreatorSecDesc in
      if negb (is_ok status) then keep status
      else
        '(status, pFinalDacl, bFinalIsDaclDefaulted) ←
          (if bCreatorIsDaclPresent && IsSetFlag CreatorSecDescControl SE_DACL_PROTECTED then
             '(status, acl) ← RtlpDuplicateAcl pCreatorDacl; Some (status, acl, false)
           else if bParentIsDaclPresent || bCreatorIsDaclPresent then
             RtlpObjectInheritSecurity (if bParentIsDaclPresent then pParentDacl else None)
               (if bCreatorIsDaclPresent then pCreatorDacl else None) bCreatorIsDaclDefaulted bIsContainerObject pUserToken pGenericMap l
           else Some (STATUS_SUCCESS, None, false));
        if negb (is_ok status) then keep status
        else
          empty ← no_aces pFinalDacl;
          '(status, pFinalDacl, bFinalIsDaclDefaulted) ←
            (if (empty : bool) then default_dacl bIsContainerObject bParentIsDaclPresent pUserToken pGenericMap ld
             else Some (STATUS_SUCCESS, pFinalDacl, bFinalIsDaclDefaulted));
          if negb (is_ok status) then keep status
          else
            let '(status, sd) :=
              RtlSetSecurityDescriptorControl pSecurityDescriptor (Z.lor SE_DACL_PROTECTED SE_DACL_AUTO_INHERITED)
                (inherited_control CreatorSecDescControl SE_DACL_PROTECTED AutoInheritFlags SEF_DACL_AUTO_INHERIT SE_DACL_AUTO_INHERITED) in
            if negb (is_ok status) then Some (status, sd)
            else Some (RtlSetDaclSecurityDescriptor sd (negb (is_null pFinalDacl)) pFinalDacl bFinalIsDaclDefaulted).

Definition RtlpObjectSetSacl (SecurityDescriptor : SECURITY_DESCRIPTOR_ABSOLUTE)
    (ParentSecDesc CreatorSecDesc : option SECURITY_DESCRIPTOR_ABSOLUTE) (IsContainerObject : bool) (AutoInheritFlags : Z)
    (AccessToken : option ACCESS_TOKEN) (GenericMap : GENERIC_MAPPING) (l : inherit_locals)
    : option (NTSTATUS * SECURITY_DESCRIPTOR_ABSOLUTE) :=
  let keep status := Some (status, SecurityDescriptor) in
  let '(status, parentIsSaclPresent, parentSacl, parentIsSaclDefaulted) :=
    optional_acl RtlGetSaclSecurityDescriptor (parent_if AutoInheritFlags SEF_SACL_AUTO_INHERIT ParentSecDesc) in
  if negb (is_ok status) then keep status
  else
    let '(status, creatorIsSaclPresent, creatorSacl, creatorIsSaclDefaulted) :=
      optional_acl RtlGetSaclSecurityDescriptor CreatorSecDesc in
    if negb (is_ok status) then keep status
    else
      let '(status, creatorSecDescControl) := optional_control CreatorSecDesc in
      if negb (is_ok status) then keep status
      else
        '(status, finalSacl, finalIsSaclDefaulted) ←
          (if IsSetFlag creatorSecDescControl SE_SACL_PROTECTED then
             if (creatorIsSaclPresent : bool) then '(status, acl) ← RtlpDuplicateAcl creatorSacl; Some (status, acl, false)
             else Some (STATUS_SUCCESS, None, false)
           else if parentIsSaclPresent || creatorIsSaclPresent then
             RtlpObjectInheritSecurity (if parentIsSaclPresent then parentSacl else None)
               (if creatorIsSaclPresent then creatorSacl else None) creatorIsSaclDefaulted IsContainerObject AccessToken GenericMap l
           else Some (STATUS_SUCCESS, None, false));
        if negb (is_ok status) then keep status
        else
          let '(status, sd) :=
            RtlSetSecurityDescriptorControl SecurityDescriptor (Z.lor SE_SACL_PROTECTED SE_SACL_AUTO_INHERITED)
              (inherited_control creatorSecDescControl SE_SACL_PROTECTED AutoInheritFlags SEF_SACL_AUTO_INHERIT SE_SACL_AUTO_INHERITED) in
          if negb (is_ok status) then Some (status, sd)
          else Some (RtlSetSaclSecurityDescriptor sd (negb (is_null finalSacl)) finalSacl finalIsSaclDefaulted).

(** * New objects *)

(** [if (pSecDesc) RtlpCreateAbsSecDescFromRelative]. *)
Definition optional_absolute (pSecDesc : ptr) : option (NTSTATUS * option SECURITY_DESCRIPTOR_ABSOLUTE) :=
  match pSecDesc with Some p => RtlpCreateAbsSecDescFromRelative malloc p | None => Some (STATUS_SUCCESS, None) end.

(** The new absolute descriptor. *)
Definition make_object_sd (parent creator : option SECURITY_DESCRIPTOR_ABSOLUTE) (bIsContainerObject : bool) (AutoInheritFlags : Z)
    (pUserToken : option ACCESS_TOKEN) (pGenericMap : GENERIC_MAPPING) (stack : frame -> inherit_locals)
    : option (NTSTATUS * SECURITY_DESCRIPTOR_ABSOLUTE) :=
  then_ok (Some (RtlCreateSecurityDescriptorAbsolute zero_sd SECURITY_DESCRIPTOR_REVISION)) (fun sd =>
  then_ok (RtlpObjectSetOwner sd parent creator AutoInheritFlags pUserToken (stack FrameOwner)) (fun sd =>
  then_ok (RtlpObjectSetGroup sd parent creator AutoInheritFlags pUserToken (stack FrameGroup)) (fun sd =>
  then_ok (RtlpObjectSetDacl sd parent creator bIsContainerObject AutoInheritFlags pUserToken pGenericMap (stack FrameDacl) (stack FrameDefaultDacl)) (fun sd =>
  RtlpObjectSetSacl sd parent creator bIsContainerObject AutoInheritFlags pUserToken pGenericMap (stack FrameSacl))))).

(** The status, [*ppNewSecDesc] and [*pNewSecDescLength]; [out] tells whether
    both pointers are there. *)
Definition RtlCreatePrivateObjectSecurityEx (pParentSecDesc pCreatorSecDesc : ptr) (out : bool) (bIsContainerObject : bool)
    (AutoInheritFlags : Z) (pUserToken : option ACCESS_TOKEN) (pGenericMap : option GENERIC_MAPPING) (stack : frame -> inherit_locals)
    : option (NTSTATUS * ptr * Z) :=
  match pGenericMap with
  | None => Some (STATUS_INVALID_PARAMETER, None, 0)
  | Some gm =>
      let avoid := Z.lor SEF_AVOID_OWNER_CHECK SEF_AVOID_PRIVILEGE_CHECK in
      if negb out then Some (STATUS_INVALID_PARAMETER, None, 0)
      else if negb (negb (Z.land AutoInheritFlags avoid =? avoid)) && match pUserToken with None => true | Some _ => false end
      then Some (STATUS_NO_TOKEN, None, 0)
      else
        '(status, parent) ← optional_absolute pParentSecDesc;
        if negb (is_ok status) then Some (status, None, 0)
        else
          '(status, creator) ← optional_absolute pCreatorSecDesc;
          if negb (is_ok status) then Some (status, None, 0)
          else
            let '(status, _) := RTL_ALLOCATE malloc sizeof_SECURITY_DESCRIPTOR_ABSOLUTE in
            if negb (is_ok status) then Some (status, None, 0)
            else
              '(status, sd) ← make_object_sd parent creator bIsContainerObject AutoInheritFlags pUserToken gm stack;
              if negb (is_ok status) then Some (status, None, 0)
              else
                '(status, pNewSecDesc, length) ← RtlAbsoluteToSelfRelativeSD (Some sd) None (Some 0);
                length ← length;
                '(status, pNewSecDesc, length) ←
                  (if bool_decide (status = STATUS_BUFFER_TOO_SMALL) then
                     let '(status, pNewSecDesc) := RTL_ALLOCATE malloc length in
                     if negb (is_ok status) then Some (status, None, length)
                     else
                       '(status, pNewSecDesc, length) ← RtlAbsoluteToSelfRelativeSD (Some sd) pNewSecDesc (Some length);
                       length ← length;
                       Some (status, pNewSecDesc, length)
                   else Some (status, pNewSecDesc, length));
                if negb (is_ok status) then Some (status, None, 0) else Some (status, pNewSecDesc, length)
  end.
End Operations.
