(* ===== verification/SdInheritOps.v ===== *)
(** The ACL of a new object: what [RtlpObjectInheritSecurity] and
    [RtlpObjectAclAssignSecurity] of [SdInherit] build, as a function of the ACEs
    of the creator and of the parent; that the room they set aside is enough, and
    that the result is in canonical order. *)

From S2P Require Import Prelude SecurityTypes Sid Acl AclRepr AclOps AclEdit AclIndex AclIndexOps AclCanonical AclCodec AclCodecOps Token AccessCheck TokenState TokenOps Sd SdOps SdRelative SdRepr SdRelativeOps SdInherit.
From Stdlib Require Import Sorted.

(** * The ACEs of the new ACL *)

(** The ACEs the [break] conditions of the two scans stop at; an audit ACE goes
    to the end. *)
Definition std_stop (x y : std_ace) : bool :=
  if sa_type x =? ACCESS_ALLOWED_ACE_TYPE then stop_allowed (sa_flags x) (sa_type y) (sa_flags y)
  else if sa_type x =? ACCESS_DENIED_ACE_TYPE then stop_denied (sa_flags x) (sa_type y) (sa_flags y)
  else false.

Fixpoint place (x : std_ace) (l : list std_ace) : list std_ace :=
  match l with
  | [] => [x]
  | y :: l' => if std_stop x y then x :: l else y :: place x l'
  end.

(** The ACEs [xs] placed one after the other. *)
Definition place_all (l xs : list std_ace) : list std_ace := foldl (fun l x => place x l) l xs.

Definition sid_creator_owner : sid := mk_sid 1 [0; 0; 0; 0; 0; 3] [0].
Definition sid_creator_group : sid := mk_sid 1 [0; 0; 0; 0; 0; 3] [1].

Section Aces.
Context (gm : GENERIC_MAPPING) (owner group : sid).

Definition replace_sid (s : sid) : sid :=
  if bool_decide (s = sid_creator_owner) then owner else if bool_decide (s = sid_creator_group) then group else s.

(** An ACE of the creator: the generic rights are mapped. *)
Definition creator_ace (x : std_ace) : std_ace :=
  mk_std_ace (sa_type x) (sa_flags x) (RtlMapGenericMask (sa_mask x) gm) (sa_sid x).

(** An ACE of the default DACL: the creator's SIDs are replaced too. *)
Definition default_ace (x : std_ace) : std_ace :=
  mk_std_ace (sa_type x) (sa_flags x) (RtlMapGenericMask (sa_mask x) gm) (replace_sid (sa_sid x)).

(** The ACE that takes effect on the child. *)
Definition effective_ace (x : std_ace) : std_ace :=
  mk_std_ace (sa_type x) (inherited_flags (sa_flags x)) (RtlMapGenericMask (sa_mask x) gm) (replace_sid (sa_sid x)).

(** What an ACE of the parent gives the child: nothing when it is not meant for
    this kind of object; a container also keeps the ACE to hand it on. *)
Definition child_aces (container : bool) (x : std_ace) : list std_ace :=
  if IsSetFlag (sa_flags x) (if container then CONTAINER_INHERIT_ACE else OBJECT_INHERIT_ACE) then
    (if container && negb (IsSetFlag (sa_flags x) NO_PROPAGATE_INHERIT_ACE) then [x] else []) ++ [effective_ace x]
  else [].

Definition new_aces (container : bool) (parent creator : list std_ace) : list std_ace :=
  place_all [] (map creator_ace creator ++ flat_map (child_aces container) parent).
End Aces.

(** An ACE the [RtlAdd*AceEx] functions accept. *)
Definition addable (x : std_ace) : Prop :=
  std_wf x /\ sid_valid (sa_sid x) = true /\ LW_IS_VALID_FLAGS (sa_mask x) VALID_DACL_ACCESS_MASK = true.

(** * Lemmas *)

(** ** Placing an ACE *)

Lemma place_perm x l : place x l ≡ₚ x :: l.
Proof.
  induction l as [|y l IH]; cbn [place]; [done|]. destruct (std_stop x y); [done|]. rewrite IH. apply Permutation_swap.
Qed.

Lemma place_Forall P x l : P x -> Forall P l -> Forall P (place x l).
Proof. intros Hx Hl. rewrite place_perm. by constructor. Qed.

Lemma std_lens_perm l l' : l ≡ₚ l' -> std_lens l = std_lens l'.
Proof. induction 1; cbn [std_lens]; lia. Qed.

Lemma place_all_perm xs l : place_all l xs ≡ₚ l ++ xs.
Proof.
  unfold place_all. revert l. induction xs as [|x xs IH]; intros l; cbn [foldl]; [by rewrite app_nil_r|].
  rewrite IH, place_perm. cbn [app]. apply Permutation_middle.
Qed.

Lemma place_all_app l xs ys : place_all l (xs ++ ys) = place_all (place_all l xs) ys.
Proof. apply foldl_app. Qed.

Lemma std_lens_app xs ys : std_lens (xs ++ ys) = std_lens xs + std_lens ys.
Proof. induction xs as [|x xs IH]; cbn [app std_lens]; lia. Qed.

Lemma std_key `{Host} x : std_wf x -> ace_type (std_bytes host x) = sa_type x /\ ace_flags (std_bytes host x) = sa_flags x.
Proof. intros Hx. destruct (std_wf_facts x Hx) as (? & _). split; [by apply ace_type_access|apply ace_flags_access]. Qed.

Lemma place_bytes `{Host} x l :
  std_wf x -> Forall std_wf l ->
  map (std_bytes host) (place x l) =
  if sa_type x =? SYSTEM_AUDIT_ACE_TYPE then map (std_bytes host) l ++ [std_bytes host x]
  else insert_before (stop_ace (sa_type x =? ACCESS_DENIED_ACE_TYPE) (sa_flags x)) (std_bytes host x) (map (std_bytes host) l).
Proof.
  intros Hx Hl. assert (Ht : sa_type x = ACCESS_ALLOWED_ACE_TYPE \/ sa_type x = ACCESS_DENIED_ACE_TYPE \/ sa_type x = SYSTEM_AUDIT_ACE_TYPE).
  { destruct Hx as (Ht & _). unfold is_standard_ace in Ht. rewrite !orb_true_iff, !Z.eqb_eq in Ht. tauto. }
  induction Hl as [|y l Hy Hl IH]; [by destruct (sa_type x =? _)|].
  destruct (std_wf_facts y Hy) as (Hty & _). cbn [place map]. unfold stop_ace, std_stop in *. cbn [insert_before].
  destruct (std_key y) as [-> ->]; [done|].
  destruct Ht as [E | [E | E]]; rewrite E in *;
    unfold ACCESS_ALLOWED_ACE_TYPE, ACCESS_DENIED_ACE_TYPE, SYSTEM_AUDIT_ACE_TYPE in *; cbn [Z.eqb Pos.eqb] in *.
  - destruct (stop_allowed _ _ _); [done|]. cbn [map]. by rewrite IH.
  - destruct (stop_denied _ _ _); [done|]. cbn [map]. by rewrite IH.
  - cbn [map app]. by rewrite IH.
Qed.

(** ** Adding an ACE to the new ACL *)

Lemma addable_len x : addable x -> 0 <= std_len x <= 76.
Proof.
  intros (_ & Hv & _). unfold sid_valid, SID_MAX_SUB_AUTHORITIES in Hv. bool_hyps. pose proof (sid_count_nonneg (sa_sid x)). unfold std_len. lia.
Qed.

Lemma addable_wf xs : Forall addable xs -> Forall std_wf xs.
Proof. intros Hx. eapply Forall_impl; [exact Hx|]. by intros x (? & _). Qed.

Lemma addable_lens xs : Forall addable xs -> 0 <= std_lens xs <= 76 * Z.of_nat (length xs).
Proof. induction 1 as [|x xs Hx _ IH]; cbn [std_lens length]; [done|]. pose proof (addable_len x Hx). lia. Qed.

(** The ACEs the code makes can be added when the ones it starts from can. *)
Lemma dacl_mask_range m : LW_IS_VALID_FLAGS m VALID_DACL_ACCESS_MASK = true -> 0 <= m < 2 ^ 32.
Proof.
  rewrite valid_flags_land. intros E. assert (E2 : Z.land m (Z.ones 32) = m).
  { rewrite <- E at 2. rewrite <- E at 1. rewrite <- Z.land_assoc. f_equal. }
  rewrite Z.land_ones in E2 by lia. rewrite <- E2. by apply Z.mod_pos_bound.
Qed.

Lemma map_mask_dacl gm m : mapping_ok gm -> LW_IS_VALID_FLAGS m VALID_DACL_ACCESS_MASK = true ->
  LW_IS_VALID_FLAGS (RtlMapGenericMask m gm) VALID_DACL_ACCESS_MASK = true.
Proof. intros. by apply map_mask_within. Qed.

Lemma inherited_flags_valid f : LW_IS_VALID_FLAGS f VALID_ACE_FLAGS_MASK = true -> LW_IS_VALID_FLAGS (inherited_flags f) VALID_ACE_FLAGS_MASK = true.
Proof.
  intros Hf. apply valid_flags_lor; [|done]. rewrite valid_flags_bits in *. intros b Hb. unfold ClearFlag. rewrite Z.ldiff_spec.
  intros [? _]%andb_true_iff. by apply Hf.
Qed.

(** A SID that an ACE may hold. *)
Definition good_sid (s : sid) : Prop := sid_wf s /\ sid_valid s = true.

Section Made.
Context (gm : GENERIC_MAPPING) (Hgm : mapping_ok gm) (owner group : sid) (Ho : good_sid owner) (Hg : good_sid group).

Lemma make_addable x f s : addable x -> LW_IS_VALID_FLAGS f VALID_ACE_FLAGS_MASK = true -> good_sid s ->
  addable (mk_std_ace (sa_type x) f (RtlMapGenericMask (sa_mask x) gm) s).
Proof using Hgm.
  intros ((Ht & _ & _ & _) & _ & Hm) Hf [Hw Hv]. pose proof (map_mask_dacl gm _ Hgm Hm) as Hd.
  split; [|done]. split_and!; try done; by apply dacl_mask_range.
Qed.

Lemma addable_sid x : addable x -> good_sid (sa_sid x) /\ LW_IS_VALID_FLAGS (sa_flags x) VALID_ACE_FLAGS_MASK = true.
Proof using. intros ((_ & Hf & _ & Hs) & Hv & _). done. Qed.

Lemma replace_good s : good_sid s -> good_sid (replace_sid owner group s).
Proof using Ho Hg. intros. unfold replace_sid. by repeat case_bool_decide. Qed.

Lemma creator_addable x : addable x -> addable (creator_ace gm x).
Proof using Hgm. intros Hx. destruct (addable_sid x Hx). by apply make_addable. Qed.

Lemma default_addable x : addable x -> addable (default_ace gm owner group x).
Proof using Hgm Ho Hg. intros Hx. destruct (addable_sid x Hx). apply make_addable; [done..|by apply replace_good]. Qed.

Lemma effective_addable x : addable x -> addable (effective_ace gm owner group x).
Proof using Hgm Ho Hg. intros Hx. destruct (addable_sid x Hx). apply make_addable; [done|by apply inherited_flags_valid|by apply replace_good]. Qed.

Lemma child_addable container x : addable x -> Forall addable (child_aces gm owner group container x).
Proof using Hgm Ho Hg.
  intros Hx. unfold child_aces. destruct (IsSetFlag _ _); [|done]. apply Forall_app. split; [destruct (container && _); [apply Forall_singleton|]; done|].
  by apply Forall_singleton, effective_addable.
Qed.

Lemma child_length container x : (length (child_aces gm owner group container x) <= 2)%nat.
Proof using. unfold child_aces. destruct (IsSetFlag _ _); [|cbn; lia]. destruct (container && _); cbn; lia. Qed.

Lemma place_all_addable xs l : Forall addable l -> Forall addable xs -> Forall addable (place_all l xs).
Proof using. intros. rewrite place_all_perm. by apply Forall_app. Qed.
End Made.

Section Add.
Context `{Host}.

Lemma add_ace_of_type_ok p size xs x q :
  acl_at p (std_acl ACL_REVISION size xs) -> Forall addable xs -> addable x -> sid_at host q (sa_sid x) ->
  8 + std_lens xs + std_len x <= size ->
  exists p', add_ace_of_type (sa_type x) p (sa_flags x) (sa_mask x) q = Some (STATUS_SUCCESS, p') /\
    acl_at p' (std_acl ACL_REVISION size (place x xs)).
Proof.
  intros Hat Hxs Hx Hq Hfit. pose proof Hx as ((Ht & Hf & Hm & Hs) & Hv & Hmv).
  pose proof (std_wf_facts x (proj1 Hx)) as (_ & Hfr & _). pose proof (place_bytes x xs (proj1 Hx) (addable_wf _ Hxs)) as Hpl.
  assert (Hroom : acl_used (std_acl ACL_REVISION size xs) + 16 + 4 * sid_count (sa_sid x) <= size).
  { unfold acl_used, std_acl; cbn [acl_aces]. rewrite aces_len_std by (by apply addable_wf). unfold std_len in Hfit. lia. }
  assert (Hrev : RtlpValidAclRevision ACL_REVISION && (ACL_REVISION <=? acl_revision (std_acl ACL_REVISION size xs)) && sid_valid (sa_sid x) = true)
    by (by rewrite Hv).
  assert (Hin : forall cm, init_params_ok cm (sa_flags x) (sa_mask x) (sa_sid x) = true)
    by (intros cm; unfold init_params_ok; rewrite Hf, Hmv, Hv; by destruct cm).
  unfold is_standard_ace in Ht. rewrite !orb_true_iff, !Z.eqb_eq in Ht. unfold add_ace_of_type, std_acl, std_bytes in *.
  destruct Ht as [[E|E]|E]; rewrite E in *; cbn [Z.eqb Pos.eqb] in *.
  - destruct (add_access_ok false p _ ACL_REVISION (sa_flags x) (sa_mask x) q (sa_sid x) Hat Hq) as (p' & Ha & _ & Hp'); [lia|done..|].
    exists p'. cbn [add_access_of] in Ha. rewrite Ha. bsimpl. split; [done|]. by rewrite Hpl.
  - destruct (add_access_ok true p _ ACL_REVISION (sa_flags x) (sa_mask x) q (sa_sid x) Hat Hq) as (p' & Ha & _ & Hp'); [lia|done..|].
    exists p'. cbn [add_access_of] in Ha. rewrite Ha. bsimpl. split; [done|]. by rewrite Hpl.
  - pose proof (RtlAddSystemAuditAceEx_correct p _ ACL_REVISION (sa_flags x) (sa_mask x) q (sa_sid x) Hat Hq) as Ha. cbv zeta in Ha.
    cbn [acl_size] in Ha. rewrite Hrev, (proj2 (Z.ltb_ge _ _) Hroom) in Ha. cbn [negb] in Ha.
    destruct Ha as (p' & Ha & _ & Hp'); [lia|done|]. exists p'. rewrite Ha. bsimpl. split; [done|]. by rewrite Hpl.
Qed.

(** ** The SIDs of the token *)

Definition sids_at (cs : creator_sids) (owner group : sid) : Prop :=
  sid_at host (cs_CreatorOwner cs) sid_creator_owner /\ sid_at host (cs_CreatorGroup cs) sid_creator_group /\
  sid_at host (cs_Owner cs) owner /\ sid_at host (cs_PrimaryGroup cs) group.

Lemma replace_creator_ok cs owner group q s :
  sids_at cs owner group -> sid_at host q s ->
  exists q', replace_creator cs q = Some q' /\ sid_at host q' (replace_sid owner group s).
Proof.
  intros (Hco & Hcg & Ho & Hg) Hq. unfold replace_creator, replace_sid.
  rewrite (RtlEqualSid_decide host _ _ _ _ Hq Hco). bsimpl. case_bool_decide; [by eauto|].
  rewrite (RtlEqualSid_decide host _ _ _ _ Hq Hcg). bsimpl. case_bool_decide; eauto.
Qed.

(** ** The loops *)

(** The ACE at a position: where [RtlGetAce] finds it and what it holds. *)
Lemma std_ace_read src rev size xs l x r : acl_at src (std_acl rev size xs) -> std_wf x -> xs = l ++ x :: r ->
  let loc := 8 + aces_len (map (std_bytes host) l) in
  RtlGetAce src (Z.of_nat (length l)) = Some (STATUS_SUCCESS, Some loc) /\ Z.of_nat (length l) < 16381 /\
  Ace_AceType (padd src loc) = Some (sa_type x) /\ Ace_AceFlags (padd src loc) = Some (sa_flags x) /\
  Ace_Mask (padd src loc) = Some (sa_mask x) /\ sid_at host (RtlpGetSidAccessAllowedAce (padd src loc)) (sa_sid x).
Proof using.
  intros Hsrc Hx Hl loc. pose proof (acl_count_range _ (proj1 Hsrc)) as Hc.
  assert (Haces : acl_aces (std_acl rev size xs) = map (std_bytes host) l ++ std_bytes host x :: map (std_bytes host) r) by (unfold std_acl; cbn [acl_aces]; by rewrite Hl, map_app).
  unfold acl_count in Hc. rewrite Haces, length_app in Hc. cbn [length] in Hc. rewrite length_map in Hc.
  pose proof (location_index src _ Hsrc _ _ _ Haces) as Hloc. rewrite length_map in Hloc. split.
  - unfold RtlGetAce. destruct (Z.eqb_spec (Z.of_nat (length l)) MAXULONG) as [E|_]; [unfold MAXULONG in E; lia|].
    rewrite Hloc. done.
  - destruct (acl_at_padd src _ Hsrc _ _ Haces) as (slack & E). subst loc. rewrite E. cbn [concat]. rewrite <- app_assoc.
    destruct (std_fields host x (concat (map (std_bytes host) r) ++ slack) Hx) as (-> & -> & _ & -> & Hs).
    rewrite decode_encode by apply Hx. split_and!; try done. lia.
Qed.

Section Source.
Context (src : mem) (rev size : Z) (xs : list std_ace) (Hsrc : acl_at src (std_acl rev size xs)) (Hxs : Forall addable xs).

Lemma source_aces l x r : xs = l ++ x :: r -> acl_aces (std_acl rev size xs) = map (std_bytes host) l ++ std_bytes host x :: map (std_bytes host) r.
Proof using. intros E. unfold std_acl. cbn [acl_aces]. by rewrite E, map_app. Qed.

Lemma source_ace l x r : xs = l ++ x :: r ->
  let loc := 8 + aces_len (map (std_bytes host) l) in
  RtlGetAce src (Z.of_nat (length l)) = Some (STATUS_SUCCESS, Some loc) /\ addable x /\ Z.of_nat (length l) < 16381 /\
  Ace_AceType (padd src loc) = Some (sa_type x) /\ Ace_AceFlags (padd src loc) = Some (sa_flags x) /\
  Ace_Mask (padd src loc) = Some (sa_mask x) /\ sid_at host (RtlpGetSidAccessAllowedAce (padd src loc)) (sa_sid x).
Proof using Hsrc Hxs.
  intros Hl loc. assert (Hx : addable x) by (rewrite Hl in Hxs; apply Forall_app in Hxs as [_ Hf]; by apply Forall_cons_iff in Hf as [? _]).
  destruct (std_ace_read src rev size xs l x r Hsrc (proj1 Hx) Hl) as [Hg Hr]. by split; [|split].
Qed.
Context (gm : GENERIC_MAPPING) (Hgm : mapping_ok gm) (owner group : sid) (Ho : good_sid owner) (Hg : good_sid group).
Context (new : Z) (cs : creator_sids) (Hcs : sids_at cs owner group).

(** The ACL under construction holds [acc]. *)
Definition built (p : mem) (acc : list std_ace) : Prop := acl_at p (std_acl ACL_REVISION new acc) /\ Forall addable acc.

Lemma build_step p acc x q : built p acc -> addable x -> sid_at host q (sa_sid x) -> 8 + std_lens acc + std_len x <= new ->
  exists p', add_ace_of_type (sa_type x) p (sa_flags x) (sa_mask x) q = Some (STATUS_SUCCESS, p') /\ built p' (place x acc).
Proof using.
  intros [Hp Ha] Hx Hq Hfit. destruct (add_ace_of_type_ok p new acc x q) as (p' & E & Hp'); [done..|].
  exists p'. split; [done|]. split; [done|]. by apply place_Forall.
Qed.

Lemma place_len x acc : std_lens (place x acc) = std_len x + std_lens acc.
Proof using. by rewrite (std_lens_perm _ _ (place_perm x acc)). Qed.

(** Case (b) of the algorithm. *)
Lemma add_creator_aces_ok r : forall l acc p, xs = l ++ r -> built p acc ->
  8 + std_lens acc + 76 * Z.of_nat (length r) <= new ->
  exists p', add_creator_aces (length r) (Z.of_nat (length l)) src gm p = Some (STATUS_SUCCESS, p') /\
    built p' (place_all acc (map (creator_ace gm) r)).
Proof using Hsrc Hxs Hgm.
  induction r as [|x r IH]; intros l acc p Hl Hb Hfit; [by exists p|]. cbn [length] in Hfit.
  destruct (source_ace l x r Hl) as (Hget & Hx & Hc & Ht & Hf & Hm & Hs). cbn [length add_creator_aces map].
  rewrite Hget. okstep. rewrite Ht. bsimpl. rewrite (proj1 (proj1 Hx)), Hm, Hf. bsimpl.
  pose proof (creator_addable gm Hgm x Hx) as Hy. pose proof (addable_len _ Hy).
  destruct (build_step p acc (creator_ace gm x) _ Hb Hy Hs) as (p1 & E & Hb1); [lia|]. cbn [creator_ace sa_type sa_flags sa_mask] in E.
  rewrite E. okstep. rewrite u16_small by lia. replace (Z.of_nat (length l) + 1) with (Z.of_nat (length (l ++ [x]))) by (rewrite length_app; cbn; lia).
  apply IH; [by rewrite <- app_assoc|done|]. rewrite place_len. lia.
Qed.

(** One ACE of the parent. *)
Lemma inherit_ace_ok container l x r acc p : xs = l ++ x :: r -> built p acc -> 8 + std_lens acc + 152 <= new ->
  exists p', inherit_ace container cs gm (padd src (8 + aces_len (map (std_bytes host) l))) p = Some (STATUS_SUCCESS, p') /\
    built p' (place_all acc (child_aces gm owner group container x)).
Proof using Hsrc Hxs Hgm Ho Hg Hcs.
  intros Hl Hb Hfit. destruct (source_ace l x r Hl) as (_ & Hx & _ & Ht & Hf & Hm & Hs). unfold inherit_ace, child_aces.
  rewrite Hf. bsimpl. replace (container && _ || _) with (negb (IsSetFlag (sa_flags x) (if container then CONTAINER_INHERIT_ACE else OBJECT_INHERIT_ACE)))
    by (destruct container; cbn; by rewrite ?orb_false_r).
  destruct (IsSetFlag _ _); cbn [negb]; [|by exists p]. rewrite Ht. bsimpl. rewrite (proj1 (proj1 Hx)). cbn [negb]. rewrite Hm. bsimpl.
  pose proof (addable_len _ Hx). pose proof (effective_addable gm Hgm owner group Ho Hg x Hx) as He. pose proof (addable_len _ He).
  destruct (replace_creator_ok cs owner group _ _ Hcs Hs) as (q' & Hq & Hq'). destruct (container && _).
  - destruct (build_step p acc x _ Hb Hx Hs) as (p1 & E & Hb1); [lia|]. rewrite E. okstep. rewrite Hq. bsimpl.
    apply (build_step p1 _ (effective_ace gm owner group x)); [done..|]. rewrite place_len. lia.
  - okstep. rewrite Hq. bsimpl. apply (build_step p _ (effective_ace gm owner group x)); [done..|]. lia.
Qed.

(** Case (c) of the algorithm. *)
Lemma add_parent_aces_ok container r : forall l acc p, xs = l ++ r -> built p acc ->
  8 + std_lens acc + 152 * Z.of_nat (length r) <= new ->
  exists p', add_parent_aces (length r) (Z.of_nat (length l)) src container cs gm p = Some (STATUS_SUCCESS, p') /\
    built p' (place_all acc (flat_map (child_aces gm owner group container) r)).
Proof using Hsrc Hxs Hgm Ho Hg Hcs.
  induction r as [|x r IH]; intros l acc p Hl Hb Hfit; [by exists p|]. cbn [length] in Hfit.
  destruct (source_ace l x r Hl) as (Hget & Hx & Hc & _). cbn [length add_parent_aces flat_map]. rewrite Hget. okstep.
  destruct (inherit_ace_ok container l x r acc p Hl Hb) as (p1 & -> & Hb1); [lia|]. okstep. rewrite u16_small by lia.
  replace (Z.of_nat (length l) + 1) with (Z.of_nat (length (l ++ [x]))) by (rewrite length_app; cbn; lia). rewrite place_all_app.
  apply IH; [by rewrite <- app_assoc|done|]. rewrite (std_lens_perm _ _ (place_all_perm _ acc)), std_lens_app.
  pose proof (addable_lens _ (child_addable gm Hgm owner group Ho Hg container x Hx)). pose proof (child_length gm owner group container x). lia.
Qed.

(** The loop over the default DACL. *)
Lemma assign_loop_ok fuel r : forall l acc p, xs = l ++ r -> (r <> [] \/ l <> []) -> (length r < fuel)%nat -> built p acc ->
  8 + std_lens acc + 76 * Z.of_nat (length r) <= new ->
  exists p', assign_loop fuel cs src (acl_used (std_acl rev size xs)) (next_offset (map (std_bytes host) l) (map (std_bytes host) r)) gm p
             = Some (STATUS_SUCCESS, p') /\ built p' (place_all acc (map (default_ace gm owner group) r)).
Proof using Hsrc Hxs Hgm Ho Hg Hcs.
  revert fuel. induction r as [|x r IH]; intros [|fuel] l acc p Hl Hne Hf Hb Hfit; cbn [length] in *; try lia.
  { cbn [assign_loop map next_offset]. rewrite iterate_end. bsimpl. by exists p. }
  destruct (source_ace l x r Hl) as (_ & Hx & _ & Ht & Hfl & Hm & Hs). cbn [assign_loop map next_offset].
  rewrite (iterate_step src _ Hsrc _ _ _ (source_aces l x r Hl)). bsimpl. rewrite bool_decide_eq_false_2 by done. okstep.
  rewrite Ht. bsimpl. rewrite (proj1 (proj1 Hx)), Hm. bsimpl.
  destruct (replace_creator_ok cs owner group _ _ Hcs Hs) as (q' & -> & Hq'). bsimpl. rewrite Hfl. bsimpl.
  pose proof (default_addable gm Hgm owner group Ho Hg x Hx) as Hy. pose proof (addable_len _ Hy).
  destruct (build_step p acc (default_ace gm owner group x) q' Hb Hy Hq') as (p1 & E & Hb1); [lia|]. cbn [default_ace sa_type sa_flags sa_mask] in E.
  rewrite E. okstep. replace (map (std_bytes host) l ++ [std_bytes host x]) with (map (std_bytes host) (l ++ [x])) by (rewrite map_app; done).
  apply IH; [by rewrite <- app_assoc|right; by destruct l|lia|done|]. rewrite place_len. lia.
Qed.
End Source.
End Add.

(** * The functions *)

Definition opt_aces (o : option acl_spec) : list std_ace := match o with Some a => as_aces a | None => [] end.
Definition aces_addable (o : option acl_spec) : Prop := Forall addable (opt_aces o).

(** The room set aside for the new ACL, before it is truncated to 16 bits. *)
Definition inherit_need (parent creator : option acl_spec) : Z :=
  opt_size (fun a => 8 + 80 * Z.of_nat (length (as_aces a))) creator + opt_size (fun a => 8 + 160 * Z.of_nat (length (as_aces a))) parent.

Lemma good_sid_size s : good_sid s -> 8 <= sid_size s <= 68.
Proof.
  intros [Hw Hv]. pose proof (sid_size_range s Hw). unfold sid_valid, SID_MAX_SUB_AUTHORITIES in Hv. bool_hyps. unfold sid_size in *. lia.
Qed.

Lemma round_up_ge `{Layout} n : n <= round_up n.
Proof.
  unfold round_up. pose proof sizeof_pointer_range. pose proof (Z.div_mod (n + sizeof_pointer - 1) sizeof_pointer).
  pose proof (Z.mod_pos_bound (n + sizeof_pointer - 1) sizeof_pointer). lia.
Qed.

Lemma opt_aces_none : aces_addable None.
Proof. apply Forall_nil. done. Qed.

(** An allocation of [need] bytes made into an empty ACL. *)
Lemma empty_acl `{Host} malloc need : malloc need = true -> 8 <= need < 65536 ->
  exists p, RTL_ALLOCATE malloc need = (STATUS_SUCCESS, Some (zeros need)) /\
    RtlCreateAcl (zeros need) need ACL_REVISION = Some (STATUS_SUCCESS, p) /\ built need p [].
Proof.
  intros Hm Hn. unfold RTL_ALLOCATE, RtlCreateAcl. rewrite Hm.
  destruct (RtlInitializeAcl_ok (zeros need) need ACL_REVISION) as (p & -> & Hp & _); [done|lia|rewrite zlen_zeros; lia|].
  exists p. split; [done|]. split; [done|]. split; [done|]. by apply Forall_nil.
Qed.

(** A finished ACL means its ACEs. *)
Lemma built_means `{Host} need p aces : built need p aces -> acl_mem p (mk_acl_spec ACL_REVISION need aces).
Proof.
  intros [Hp Ha]. split; [|done]. pose proof (acl_at_used_range _ _ Hp) as Hu. destruct Hp as ((_ & Hs & _) & _).
  unfold acl_used, std_acl in *. cbn [acl_aces acl_size] in *. rewrite aces_len_std in * by (by apply addable_wf).
  split_and!; [by apply addable_wf|done|unfold as_used; cbn [as_aces as_size]; lia..].
Qed.

Lemma count_at `{Host} p o : option_Forall2 acl_mem p o -> optional_count p = Some (Z.of_nat (length (opt_aces o))).
Proof.
  intros [q a [_ Ha]|]; [|done]. cbn [optional_count opt_aces]. unfold RtlGetAclAceCount. destruct (acl_at_fields q _ Ha) as (_ & _ & _ & -> & _).
  unfold acl_count, std_acl. cbn [acl_aces]. by rewrite length_map.
Qed.

Lemma inherit_size_at `{Host} pp pc parent creator :
  option_Forall2 acl_mem pp parent -> option_Forall2 acl_mem pc creator -> inherit_need parent creator < 65536 ->
  inherit_size pp pc = Some (inherit_need parent creator).
Proof.
  intros Hp Hc Hneed. pose proof (count_at _ _ Hp) as Cp. pose proof (count_at _ _ Hc) as Cc. revert Cp Cc Hneed. unfold inherit_size, inherit_need.
  change ACL_HEADER_SIZE with 8. change ace_room with 80.
  destruct Hc as [qc ac _|], Hp as [qp ap _|]; intros Cp Cc Hneed'; cbn [optional_count opt_aces opt_size] in *; rewrite ?Cc, ?Cp; bsimpl; rewrite ?Cp; bsimpl;
    cbn [length]; rewrite ?(u16_small (8 + _ * 80)) by lia; rewrite ?u16_small by lia; f_equal; lia.
Qed.

Lemma inherit_size_wrap `{Host} pp pc parent creator :
  option_Forall2 acl_mem pp parent -> option_Forall2 acl_mem pc creator ->
  inherit_size pp pc = Some (inherit_need parent creator mod 2 ^ 16).
Proof.
  intros Hp Hc. pose proof (count_at _ _ Hp) as Cp. pose proof (count_at _ _ Hc) as Cc. revert Cp Cc. unfold inherit_size, inherit_need, u16.
  change ACL_HEADER_SIZE with 8. change ace_room with 80. change (2 ^ 16) with 65536.
  destruct Hc as [qc ac _|], Hp as [qp ap _|]; intros Cp Cc; cbn [optional_count opt_aces opt_size] in *; rewrite ?Cc; bsimpl; rewrite ?Cp; bsimpl;
    rewrite ?Z.add_mod_idemp_l by lia; try reflexivity; cbn [length]; do 2 f_equal; lia.
Qed.

Definition acl_result `{Host} (x : NTSTATUS * ptr * bool) (y : NTSTATUS * option acl_spec * bool) : Prop :=
  x.1.1 = y.1.1 /\ option_Forall2 acl_mem x.1.2 y.1.2 /\ x.2 = y.2.

Lemma acl_result_some `{Host} x st a d : option_Forall2 acl_result x (Some (st, Some a, d)) -> exists p, x = Some (st, Some p, d) /\ acl_mem p a.
Proof.
  intros Hr. inversion Hr as [[[st' p] d'] y (E1 & E2 & E3) E4 E5|]. cbn [fst snd] in *. subst st' d'. inversion E2. eauto.
Qed.

(** ** Canonical order *)

Definition access_type_ace (x : std_ace) : Prop := sa_type x = ACCESS_ALLOWED_ACE_TYPE \/ sa_type x = ACCESS_DENIED_ACE_TYPE.

Lemma place_canonical `{Host} x l : addable x -> Forall addable l -> access_type_ace x ->
  canonical (map (std_bytes host) l) -> canonical (map (std_bytes host) (place x l)).
Proof.
  intros Hx Hl Ht Hc. rewrite place_bytes by (apply Hx || by apply addable_wf).
  assert (E : sa_type x = access_type (sa_type x =? ACCESS_DENIED_ACE_TYPE)) by (by destruct Ht as [-> | ->]).
  replace (sa_type x =? SYSTEM_AUDIT_ACE_TYPE) with false by (by destruct Ht as [-> | ->]).
  replace (std_bytes host x) with (access_ace (access_type (sa_type x =? ACCESS_DENIED_ACE_TYPE)) (sa_flags x) (sa_mask x) (sa_sid x))
    by (by rewrite <- E). by apply canonical_insert.
Qed.

Lemma place_all_canonical `{Host} xs : forall l, Forall addable l -> Forall addable xs -> Forall access_type_ace xs ->
  canonical (map (std_bytes host) l) -> canonical (map (std_bytes host) (place_all l xs)).
Proof.
  induction xs as [|x xs IH]; intros l Hl Hx Ht Hc; [done|]. apply Forall_cons_iff in Hx as [Hx Hxs]. apply Forall_cons_iff in Ht as [Ht Hts].
  cbn [place_all foldl]. apply IH; [by apply place_Forall|done|done|by apply place_canonical].
Qed.

Section Functions.
Context `{Host} `{Layout} (malloc : Z -> bool).
Context (T : ACCESS_TOKEN) (ts : token_spec) (HT : token_repr T ts) (Hgroups : Z.of_nat (length (ts_groups ts)) < 2 ^ 32).
Context (owner group : sid) (Howner : ts_owner ts = Some owner) (Hgroup : ts_group ts = Some group).
Context (Ho : good_sid owner) (Hg : good_sid group).

Definition locals_ok (l : inherit_locals) : Prop :=
  zlen (l_CreatorOwner l) = SID_MAX_SIZE /\ zlen (l_CreatorGroup l) = SID_MAX_SIZE /\
  zlen (l_TokenOwnerBuffer l) = sizeof_TokenOwnerBuffer /\ zlen (l_TokenPrimaryGroupBuffer l) = sizeof_TokenPrimaryGroupBuffer.

(** The owner of the token, with the structure in front of it, fits the local
    union [TokenOwnerBuffer]. *)
Definition owner_fits : bool := sizeof_TOKEN_OWNER + sid_size owner <=? sizeof_TokenOwnerBuffer.

Lemma query_owner_ok l : locals_ok l ->
  if owner_fits then exists q, query_token_sid (Some T) TokenOwner (l_TokenOwnerBuffer l) sizeof_TokenOwnerBuffer = Some (STATUS_SUCCESS, Some q) /\ sid_at host q owner
  else query_token_sid (Some T) TokenOwner (l_TokenOwnerBuffer l) sizeof_TokenOwnerBuffer = Some (STATUS_BUFFER_TOO_SMALL, None).
Proof using HT Hgroups Howner Ho.
  intros (_ & _ & Hl & _). pose proof sizeof_pointer_range. pose proof (good_sid_size _ Ho). unfold owner_fits, sizeof_TOKEN_OWNER, query_token_sid. rewrite <- Hl.
  destruct (query_information_at T ts TokenOwner (sizeof_pointer + sid_size owner) HT) as (_ & Hs & Hq); [cbn; by rewrite Howner|lia|done|].
  destruct (Z.leb_spec (sizeof_pointer + sid_size owner) (zlen (l_TokenOwnerBuffer l))).
  - destruct (Hq (l_TokenOwnerBuffer l)) as (info & b & -> & _ & Hi); [done|]. okstep.
    destruct info; destruct Hi as [E Hi]; try done. destruct Hi as (s & Es & Hs'). rewrite Howner in Es. injection Es as <-. eauto.
  - by rewrite Hs.
Qed.

Lemma query_group_ok l : locals_ok l ->
  exists q, query_token_sid (Some T) TokenPrimaryGroup (l_TokenPrimaryGroupBuffer l) sizeof_TokenPrimaryGroupBuffer = Some (STATUS_SUCCESS, Some q) /\ sid_at host q group.
Proof using HT Hgroups Hgroup Hg.
  intros (_ & _ & _ & Hl). pose proof sizeof_pointer_range. pose proof (good_sid_size _ Hg). unfold query_token_sid. rewrite <- Hl.
  destruct (query_information_at T ts TokenPrimaryGroup (sizeof_pointer + sid_size group) HT) as (_ & _ & Hq); [cbn; by rewrite Hgroup|lia|done|].
  destruct (Hq (l_TokenPrimaryGroupBuffer l)) as (info & b & -> & _ & Hi).
  - rewrite Hl. unfold sizeof_TokenPrimaryGroupBuffer, sizeof_TOKEN_PRIMARY_GROUP, SID_MAX_SIZE. pose proof (round_up_ge (sizeof_pointer + 68)). lia.
  - okstep. destruct info; destruct Hi as [E Hi]; try done. destruct Hi as (s & Es & Hs'). rewrite Hgroup in Es. injection Es as <-. eauto.
Qed.

Lemma get_creator_sids_ok l : locals_ok l ->
  if owner_fits then exists cs, get_creator_sids (Some T) l = Some (STATUS_SUCCESS, Some cs) /\ sids_at cs owner group
  else get_creator_sids (Some T) l = Some (STATUS_BUFFER_TOO_SMALL, None).
Proof using HT Hgroups Howner Hgroup Ho Hg.
  intros Hl. pose proof (query_owner_ok l Hl) as Qo. destruct (query_group_ok l Hl) as (qg & Qg & Hqg). pose proof Hl as (L1 & L2 & _ & _).
  unfold get_creator_sids.
  destruct (well_known_local_spec WinCreatorOwnerSid sid_creator_owner (l_CreatorOwner l)) as (b1 & -> & Hb1 & _); [done|done|]. okstep.
  destruct (well_known_local_spec WinCreatorGroupSid sid_creator_group (l_CreatorGroup l)) as (b2 & -> & Hb2 & _); [done|done|]. okstep.
  destruct owner_fits; [|by rewrite Qo]. destruct Qo as (qo & -> & Hqo). okstep. rewrite Qg. okstep. eexists. split; [done|]. done.
Qed.
Context (gm : GENERIC_MAPPING) (Hgm : mapping_ok gm).

(** Making an ACL of [need] bytes for the ACEs [aces]. *)
Definition make_acl (need : Z) (aces : list std_ace) : NTSTATUS * option acl_spec :=
  if negb owner_fits then (STATUS_BUFFER_TOO_SMALL, None)
  else if malloc need then (STATUS_SUCCESS, Some (mk_acl_spec ACL_REVISION need aces))
  else (STATUS_INSUFFICIENT_RESOURCES, None).

(** What [RtlpObjectInheritSecurity] does: [None] when it follows a null pointer. *)
Definition inherit_spec (container : bool) (parent creator : option acl_spec) (defaulted : bool)
    : option (NTSTATUS * option acl_spec * bool) :=
  match parent, defaulted, creator with
  | None, true, None => None
  | None, true, Some c =>
      let r := make_acl (inherit_need None creator) (place_all [] (map (default_ace gm owner group) (as_aces c))) in
      Some (r, is_ok r.1)
  | None, false, None => Some (STATUS_INVALID_SECURITY_DESCR, None, false)
  | _, _, _ =>
      let r := make_acl (inherit_need parent creator) (new_aces gm owner group container (opt_aces parent) (opt_aces creator)) in
      Some (r, is_ok r.1 && defaulted)
  end.

Lemma make_acl_none need aces st a : make_acl need aces = (st, a) -> is_ok st = false -> a = None.
Proof using. unfold make_acl. destruct (negb owner_fits), (malloc need); by intros [= <- <-]. Qed.

Lemma RtlpObjectAclAssignSecurity_spec l pc c :
  locals_ok l -> acl_mem pc c -> Forall addable (as_aces c) -> inherit_need None (Some c) < 65536 ->
  exists r, RtlpObjectAclAssignSecurity malloc (Some T) (Some pc) gm l = Some r /\
    let y := make_acl (inherit_need None (Some c)) (place_all [] (map (default_ace gm owner group) (as_aces c))) in
    r.1 = y.1 /\ option_Forall2 acl_mem r.2 y.2.
Proof using HT Hgroups Howner Hgroup Ho Hg Hgm.
  intros Hl [Hw Hc] Ha Hn. pose proof (get_creator_sids_ok l Hl) as Hsids. unfold inherit_need in *. cbn [opt_size] in *. rewrite Z.add_0_r in *.
  unfold RtlpObjectAclAssignSecurity, make_acl. bsimpl. destruct (acl_at_fields pc _ Hc) as (_ & _ & _ & HC & _). unfold RtlGetAclAceCount.
  rewrite HC. bsimpl. unfold acl_count, std_acl. cbn [acl_aces]. rewrite length_map. change ACL_HEADER_SIZE with 8. change ace_room with 80.
  rewrite u16_small by lia. rewrite (Z.mul_comm _ 80). set (need := 8 + 80 * Z.of_nat (length (as_aces c))) in *.
  destruct (Z.eqb_spec need 0); [lia|]. destruct owner_fits; [|rewrite Hsids; cbn; eauto using None_Forall2].
  destruct Hsids as (cs & -> & Hcs). okstep. destruct (malloc need) eqn:Hm; [|unfold RTL_ALLOCATE; rewrite Hm; cbn; eauto using None_Forall2].
  destruct (empty_acl malloc need Hm) as (p & -> & Ep & Hb); [lia|]. okstep. rewrite Ep. okstep. rewrite (RtlGetAclSizeUsed_spec pc _ Hc). bsimpl.
  assert (Hloop : exists p', assign_loop (Z.to_nat (acl_used (std_acl (as_revision c) (as_size c) (as_aces c)))) cs pc
      (acl_used (std_acl (as_revision c) (as_size c) (as_aces c))) 0 gm p = Some (STATUS_SUCCESS, p') /\
      built need p' (place_all [] (map (default_ace gm owner group) (as_aces c)))).
  { pose proof (acl_at_used_range pc _ Hc) as Hu. pose proof (std_lens_count _ (addable_wf _ Ha)) as Hcnt.
    assert (Hused : acl_used (std_acl (as_revision c) (as_size c) (as_aces c)) = 8 + std_lens (as_aces c))
      by (unfold acl_used, std_acl; cbn [acl_aces]; by rewrite aces_len_std by (by apply addable_wf)).
    destruct (as_aces c) as [|x xs] eqn:Ex.
    - destruct (Z.to_nat _) as [|n'] eqn:En; [rewrite Hused in En; cbn in En; lia|]. cbn [assign_loop].
      rewrite (iterate_empty pc _ Hc) by done. bsimpl. exists p. done.
    - apply (assign_loop_ok pc (as_revision c) (as_size c) (x :: xs) Hc Ha gm Hgm owner group Ho Hg need cs Hcs _ (x :: xs) []); try done.
      + by left.
      + rewrite Hused. lia.
      + cbn [std_lens]. lia. }
  destruct Hloop as (p' & -> & Hb'). okstep. eexists. split; [done|]. cbn. split; [done|]. constructor. by apply built_means.
Qed.

Section Acls.
Context (l : inherit_locals) (Hl : locals_ok l).
Context (pp pc : ptr) (parent creator : option acl_spec) (Hp : option_Forall2 acl_mem pp parent) (Hc : option_Forall2 acl_mem pc creator).
Context (Ap : aces_addable parent) (Ac : aces_addable creator) (Hneed : inherit_need parent creator < 65536).

(** Cases (b) and (c), in the ACL that was made for them. *)
Lemma inherit_body container cs need p : sids_at cs owner group -> built need p [] -> inherit_need parent creator <= need ->
  exists p1 p2, add_creator_aces (length (opt_aces creator)) 0 (default [] pc) gm p = Some (STATUS_SUCCESS, p1) /\
    add_parent_aces (length (opt_aces parent)) 0 (default [] pp) container cs gm p1 = Some (STATUS_SUCCESS, p2) /\
    built need p2 (new_aces gm owner group container (opt_aces parent) (opt_aces creator)).
Proof using Hp Hc Ap Ac Hgm Ho Hg Hneed Hgroups.
  intros Hcs Hb Hn. unfold new_aces, inherit_need in *. rewrite place_all_app.
  assert (H1 : exists p1, add_creator_aces (length (opt_aces creator)) 0 (default [] pc) gm p = Some (STATUS_SUCCESS, p1) /\
      built need p1 (place_all [] (map (creator_ace gm) (opt_aces creator)))).
  { destruct Hc as [qc ac [_ Ha]|]; cbn [opt_aces default opt_size] in *; [|by exists p].
    apply (add_creator_aces_ok qc _ _ _ Ha Ac gm Hgm need (as_aces ac) []); [done..|]. cbn [std_lens].
    destruct parent; cbn [opt_size] in Hn; lia. }
  destruct H1 as (p1 & E1 & Hb1). exists p1. rewrite E1.
  assert (Hlen : std_lens (place_all [] (map (creator_ace gm) (opt_aces creator))) <= 76 * Z.of_nat (length (opt_aces creator))).
  { rewrite (std_lens_perm _ _ (place_all_perm _ _)). cbn [app].
    pose proof (addable_lens (map (creator_ace gm) (opt_aces creator))) as Hq. rewrite length_map in Hq. apply Hq.
    apply Forall_map. eapply Forall_impl; [exact Ac|]. intros x Hx. by apply creator_addable. }
  destruct Hp as [qp ap [_ Ha]|]; cbn [opt_aces default opt_size] in *; [|by exists p1].
  destruct (add_parent_aces_ok qp _ _ _ Ha Ap gm Hgm owner group Ho Hg need cs Hcs container (as_aces ap) [] _ p1 eq_refl Hb1) as (p2 & E2 & Hb2).
  - destruct creator; cbn [opt_size opt_aces] in *; cbn [length] in Hlen; lia.
  - exists p2. by split.
Qed.

Lemma RtlpObjectInheritSecurity_spec container d :
  option_Forall2 acl_result (RtlpObjectInheritSecurity malloc pp pc d container (Some T) gm l) (inherit_spec container parent creator d).
Proof using HT Hgroups Howner Hgroup Ho Hg Hgm Hl Hp Hc Ap Ac Hneed.
  destruct (is_null pp && d) eqn:Ecase.
  - apply andb_true_iff in Ecase as [En ->]. destruct pp as [|]; [done|]. inversion Hp as [|E1 E2]. subst parent.
    unfold RtlpObjectInheritSecurity. cbn [is_null andb]. inversion Hc as [qc ac Ha E3 E4|E3 E4]; subst pc creator; [|constructor].
    destruct (RtlpObjectAclAssignSecurity_spec l qc ac Hl Ha Ac Hneed) as ([st q] & -> & E & Hq). cbn [fst snd] in E. subst st. bsimpl.
    cbn [inherit_spec]. destruct (make_acl _ _) as [st a] eqn:Er. cbn [fst snd] in *.
    destruct (is_ok st) eqn:Es; cbn [negb]; constructor; (split; [done|split; [|done]]); [done|]. cbn [fst snd].
    rewrite (make_acl_none _ _ st a Er Es). constructor.
  - unfold RtlpObjectInheritSecurity. rewrite Ecase, (inherit_size_at pp pc parent creator Hp Hc Hneed). bsimpl.
    assert (Hspec : (parent <> None \/ creator <> None) -> inherit_spec container parent creator d =
      let r := make_acl (inherit_need parent creator) (new_aces gm owner group container (opt_aces parent) (opt_aces creator)) in
      Some (r, is_ok r.1 && d)).
    { intros Hne. destruct Hp, d, Hc; try done; by destruct Hne. }
    destruct (Z.leb_spec (inherit_need parent creator) 0) as [Hz|Hz].
    { assert (parent = None /\ creator = None) as [-> ->]
        by (unfold inherit_need in Hz; destruct parent, creator; cbn [opt_size] in Hz; split; try done; lia).
      inversion Hp; subst pp. inversion Hc; subst pc. destruct d; [done|]. constructor. by repeat constructor. }
    assert (Hne : parent <> None \/ creator <> None)
      by (unfold inherit_need in Hz; destruct parent; [by left|]; destruct creator; [by right|]; cbn in Hz; lia).
    rewrite (Hspec Hne). cbv zeta. pose proof (get_creator_sids_ok l Hl) as Hsids. unfold make_acl.
    destruct owner_fits; [|rewrite Hsids; constructor; by repeat constructor]. destruct Hsids as (cs & -> & Hcs). okstep.
    destruct (malloc (inherit_need parent creator)) eqn:Hm; [|unfold RTL_ALLOCATE; rewrite Hm; constructor; by repeat constructor].
    assert (8 <= inherit_need parent creator)
      by (unfold inherit_need; destruct parent, creator; cbn [opt_size]; try lia; by destruct Hne).
    destruct (empty_acl malloc _ Hm) as (p & -> & Ep & Hb); [lia|]. okstep. rewrite Ep. okstep.
    destruct (inherit_body container cs _ p Hcs Hb) as (p1 & p2 & E1 & E2 & Hb2); [lia|].
    rewrite (count_at _ _ Hc). bsimpl. rewrite Nat2Z.id, E1. okstep. rewrite (count_at _ _ Hp). bsimpl. rewrite Nat2Z.id, E2. okstep.
    constructor. split; [done|]. split; [|done]. constructor. by apply built_means.
Qed.

(** The ACEs of the new object. *)
Lemma new_sources_access container : Forall access_type_ace (opt_aces parent) -> Forall access_type_ace (opt_aces creator) ->
  Forall access_type_ace (map (creator_ace gm) (opt_aces creator) ++ flat_map (child_aces gm owner group container) (opt_aces parent)).
Proof using.
  intros Tp Tc. apply Forall_app. split.
  - by apply Forall_map.
  - apply Forall_flat_map. eapply Forall_impl; [exact Tp|]. intros x Hx. unfold child_aces. destruct (IsSetFlag _ _); [|by apply Forall_nil].
    apply Forall_app. split; [|by apply Forall_singleton]. destruct (container && _); [by apply Forall_singleton|by apply Forall_nil].
Qed.

Lemma new_sources_addable container :
  Forall addable (map (creator_ace gm) (opt_aces creator) ++ flat_map (child_aces gm owner group container) (opt_aces parent)).
Proof using Hgm Ho Hg Ap Ac.
  apply Forall_app. split.
  - apply Forall_map. eapply Forall_impl; [exact Ac|]. intros x Hx. by apply creator_addable.
  - apply Forall_flat_map. eapply Forall_impl; [exact Ap|]. intros x Hx. by apply child_addable.
Qed.

Lemma new_aces_addable container : Forall addable (new_aces gm owner group container (opt_aces parent) (opt_aces creator)).
Proof using Hgm Ho Hg Ap Ac. apply place_all_addable; [by apply Forall_nil|apply new_sources_addable]. Qed.

Lemma new_aces_room container :
  (parent <> None \/ creator <> None) ->
  8 + std_lens (new_aces gm owner group container (opt_aces parent) (opt_aces creator)) <= inherit_need parent creator.
Proof using Hgm Ho Hg Ap Ac.
  intros Hne. unfold new_aces. rewrite (std_lens_perm _ _ (place_all_perm _ _)). cbn [app]. rewrite std_lens_app.
  assert (H1 : std_lens (map (creator_ace gm) (opt_aces creator)) <= 76 * Z.of_nat (length (opt_aces creator))).
  { pose proof (addable_lens (map (creator_ace gm) (opt_aces creator))) as Hq. rewrite length_map in Hq. apply Hq.
    apply Forall_map. eapply Forall_impl; [exact Ac|]. intros x Hx. by apply creator_addable. }
  assert (H2 : std_lens (flat_map (child_aces gm owner group container) (opt_aces parent)) <= 152 * Z.of_nat (length (opt_aces parent))).
  { unfold aces_addable in Ap. revert Ap. generalize (opt_aces parent). clear -Hgm Ho Hg. induction 1 as [|x xs Hx _ IH]; [done|]. cbn [flat_map length]. rewrite std_lens_app.
    pose proof (addable_lens _ (child_addable gm Hgm owner group Ho Hg container x Hx)). pose proof (child_length gm owner group container x). lia. }
  clear -H1 H2 Hne. unfold inherit_need. destruct parent, creator; cbn [opt_aces opt_size length] in *; try lia. by destruct Hne.
Qed.

(** C25: [RtlpObjectInheritSecurity] builds the ACL that the comment in front of
    it describes: without a parent ACL a defaulted creator ACL is taken over with
    CREATOR OWNER and CREATOR GROUP replaced; otherwise the ACEs of the creator,
    with their generic rights mapped, and then for each ACE of the parent that is
    meant for this kind of object the ACE that takes effect, preceded in a
    container by the ACE to be handed on; each of them placed in canonical
    order. Errors are the exact ones: no ACL at all, a token owner too long for
    the local buffer, no memory; without a parent and with a null defaulted ACL a
    null pointer is followed. *)
Theorem RtlpObjectInheritSecurity_refines container d :
  option_Forall2 acl_result (RtlpObjectInheritSecurity malloc pp pc d container (Some T) gm l) (inherit_spec container parent creator d).
Proof using HT Hgroups Howner Hgroup Ho Hg Hgm Hl Hp Hc Ap Ac Hneed. apply RtlpObjectInheritSecurity_spec. Qed.

(** The size [RtlpObjectInheritSecurity] sets aside is the sum it computes,
    truncated to 16 bits; the untruncated sum is always enough for the new ACL,
    header and ACEs, whatever the ACEs of the creator and of the parent. *)
Theorem inherit_room_bounds container :
  (parent <> None \/ creator <> None) ->
  inherit_size pp pc = Some (inherit_need parent creator mod 2 ^ 16) /\
  0 < 8 + std_lens (new_aces gm owner group container (opt_aces parent) (opt_aces creator)) <= inherit_need parent creator.
Proof using Hgm Ho Hg Ap Ac Hp Hc.
  intros Hne. split; [by apply inherit_size_wrap|]. split; [|by apply new_aces_room].
  pose proof (addable_lens _ (new_aces_addable container)) as [Hr _]. clear -Hr. lia.
Qed.

(** C26: The ACL of a new object whose parent and creator ACLs hold allowed and
    denied ACEs only is in canonical order, whatever the order of theirs, and its
    ACEs are exactly the creator's and the inherited ones. *)
Theorem inherited_dacl_canonical container d :
  is_null pp && d = false -> (parent <> None \/ creator <> None) -> owner_fits = true -> malloc (inherit_need parent creator) = true ->
  Forall access_type_ace (opt_aces parent) -> Forall access_type_ace (opt_aces creator) ->
  exists p aces, RtlpObjectInheritSecurity malloc pp pc d container (Some T) gm l = Some (STATUS_SUCCESS, Some p, d) /\
    acl_mem p (mk_acl_spec ACL_REVISION (inherit_need parent creator) aces) /\ canonical (map (std_bytes host) aces) /\
    aces ≡ₚ map (creator_ace gm) (opt_aces creator) ++ flat_map (child_aces gm owner group container) (opt_aces parent).
Proof using HT Hgroups Howner Hgroup Ho Hg Hgm Hl Hp Hc Ap Ac Hneed.
  intros Hcase Hne Hfit Hm Tp Tc. pose proof (RtlpObjectInheritSecurity_spec container d) as Hr.
  assert (Hspec : inherit_spec container parent creator d = Some (STATUS_SUCCESS,
      Some (mk_acl_spec ACL_REVISION (inherit_need parent creator) (new_aces gm owner group container (opt_aces parent) (opt_aces creator))), d)).
  { revert Hm. destruct Hp, d, Hc; try done; unfold inherit_spec, make_acl; intros Hm; rewrite ?Hfit, ?Hm; try done; by destruct Hne. }
  rewrite Hspec in Hr. apply acl_result_some in Hr as (p & -> & Ha). do 2 eexists. split; [done|]. split; [done|]. split; [|unfold new_aces; by rewrite place_all_perm].
  apply place_all_canonical; [|by apply new_sources_addable|by apply new_sources_access|by repeat constructor].
  by apply Forall_nil.
Qed.
End Acls.
End Functions.

(** * Concrete inputs *)

#[local] Existing Instance demo_host.
#[local] Existing Instance demo_layout.

Definition demo_acl_mem : mem := std_acl_image LittleEndian 2 64 demo_std ++ zeros 4.

Definition demo_creator : ACCESS_TOKEN :=
  {| ReferenceCount := 1; Flags := 0; User := demo_sa sid_domain 0; Groups := [demo_sa sid_builtin 4]; PrivilegeCount := 0; Privileges := [];
     Owner := Some (demo_image sid_domain); PrimaryGroup := Some (demo_image sid_admins); DefaultDacl := Some demo_acl_mem;
     Uid := 0; Gid := 0; Umask := 0 |}.

Definition demo_creator_ts : token_spec :=
  mk_ts sid_domain [(sid_builtin, 4)] [] (Some sid_domain) (Some sid_admins) (Some (std_acl 2 64 demo_std)) None.

Lemma demo_image_at s : s ∈ [sid_system; sid_builtin; sid_admins; sid_domain] -> sid_at host (demo_image s) s.
Proof. intros Hs. apply known_sid_wf. done. Qed.

Lemma demo_creator_repr : token_repr demo_creator demo_creator_ts.
Proof.
  assert (Hsa : forall s a, s ∈ [sid_system; sid_builtin; sid_admins; sid_domain] -> group_at (demo_sa s a) (s, a)).
  { intros s a Hs. split; [done|]. exists (demo_image s). split; [done|]. by apply demo_image_at. }
  split; [|split; [by split; [|exists []]|done]]. split; [apply Hsa; set_solver|]. split; [constructor; [apply Hsa; set_solver|constructor]|].
  split; [constructor; apply demo_image_at; set_solver|]. split; [constructor; apply demo_image_at; set_solver|]. constructor. apply demo_std_at.
Qed.

Lemma demo_good s : s ∈ [sid_system; sid_builtin; sid_admins; sid_domain] -> good_sid s.
Proof.
  intros Hs. split; [apply (known_sid_wf LittleEndian); done|]. rewrite !elem_of_cons in Hs.
  destruct Hs as [->|[->|[->|[->|Hs]]]]; [done..|]. by apply not_elem_of_nil in Hs.
Qed.

Lemma demo_addable : Forall addable demo_std.
Proof.
  pose proof demo_std_wf as Hw. unfold demo_std in *. apply Forall_cons_iff in Hw as [H1 Hw]. apply Forall_cons_iff in Hw as [H2 _].
  constructor; [split; [done|by vm_compute]|]. constructor; [split; [done|by vm_compute]|constructor].
Qed.

Lemma demo_acl_at : acl_mem demo_acl_mem demo_acl.
Proof. split; [|apply demo_std_at]. split; [apply demo_std_wf|]. vm_compute. intuition congruence. Qed.

Definition demo_locals : inherit_locals := mk_locals (zeros 68) (zeros 68) (zeros 72) (zeros 80).

Lemma demo_locals_ok : locals_ok demo_locals.
Proof. by vm_compute. Qed.

(** The ACEs a container gets from [demo_std] as the ACL of its parent: the
    second ACE, to be handed on and in effect. *)
Definition demo_child : list std_ace :=
  [mk_std_ace ACCESS_DENIED_ACE_TYPE 0 2 sid_system; mk_std_ace ACCESS_ALLOWED_ACE_TYPE 0x10 0x1F01FF sid_domain;
   mk_std_ace ACCESS_ALLOWED_ACE_TYPE 0x13 0x1F01FF sid_domain; mk_std_ace ACCESS_ALLOWED_ACE_TYPE 0x13 0x1F01FF sid_domain].

Lemma RtlpObjectInheritSecurity_refines_witness :
  exists p, RtlpObjectInheritSecurity (fun _ => true) (Some demo_acl_mem) (Some demo_acl_mem) false true (Some demo_creator) file_mapping demo_locals
              = Some (STATUS_SUCCESS, Some p, false) /\ acl_mem p (mk_acl_spec 2 496 demo_child).
Proof.
  pose proof (RtlpObjectInheritSecurity_refines (fun _ => true) demo_creator demo_creator_ts demo_creator_repr eq_refl sid_domain sid_admins
    eq_refl eq_refl (demo_good sid_domain ltac:(set_solver)) (demo_good sid_admins ltac:(set_solver)) file_mapping file_mapping_ok
    demo_locals demo_locals_ok (Some demo_acl_mem) (Some demo_acl_mem) (Some demo_acl) (Some demo_acl)
    (Some_Forall2 _ _ _ demo_acl_at) (Some_Forall2 _ _ _ demo_acl_at) demo_addable demo_addable eq_refl true false) as Q.
  replace (inherit_spec _ _ _ _ _ _ _ _) with (Some (STATUS_SUCCESS, Some (mk_acl_spec 2 496 demo_child), false)) in Q by (by vm_compute).
  apply acl_result_some in Q as (p & E & Hp). exists p. split; [exact E|exact Hp].
Defined.

Lemma inherit_room_bounds_witness :
  inherit_size (Some demo_acl_mem) (Some demo_acl_mem) = Some 496 /\ 8 + std_lens demo_child <= 496.
Proof.
  destruct (inherit_room_bounds sid_domain sid_admins (demo_good sid_domain ltac:(set_solver)) (demo_good sid_admins ltac:(set_solver))
    file_mapping file_mapping_ok (Some demo_acl_mem) (Some demo_acl_mem) (Some demo_acl) (Some demo_acl)
    (Some_Forall2 _ _ _ demo_acl_at) (Some_Forall2 _ _ _ demo_acl_at) demo_addable demo_addable true) as [E [_ B]]; [by left|].
  split; [exact E|exact B].
Defined.

Lemma inherited_dacl_canonical_witness :
  exists p aces, RtlpObjectInheritSecurity (fun _ => true) (Some demo_acl_mem) (Some demo_acl_mem) false true (Some demo_creator) file_mapping demo_locals
              = Some (STATUS_SUCCESS, Some p, false) /\ acl_mem p (mk_acl_spec 2 496 aces) /\ canonical (map (std_bytes host) aces).
Proof.
  destruct (inherited_dacl_canonical (fun _ => true) demo_creator demo_creator_ts demo_creator_repr eq_refl sid_domain sid_admins
    eq_refl eq_refl (demo_good sid_domain ltac:(set_solver)) (demo_good sid_admins ltac:(set_solver)) file_mapping file_mapping_ok
    demo_locals demo_locals_ok (Some demo_acl_mem) (Some demo_acl_mem) (Some demo_acl) (Some demo_acl)
    (Some_Forall2 _ _ _ demo_acl_at) (Some_Forall2 _ _ _ demo_acl_at) demo_addable demo_addable eq_refl true false) as (p & aces & E & Hp & Hc & _).
  - reflexivity.
  - by left.
  - reflexivity.
  - reflexivity.
  - constructor; [by right|]. constructor; [by left|constructor].
  - constructor; [by right|]. constructor; [by left|constructor].
  - exists p, aces. split; [exact E|]. split; [exact Hp|exact Hc].
Defined.

(** An ACL of 820 ACEs. *)
Definition many_aces : mem := std_acl_image LittleEndian 2 16408 (repeat (mk_std_ace ACCESS_ALLOWED_ACE_TYPE 0 1 sid_system) 820).

(** The size of the new ACL wraps around at 16 bits: for an ACL of 820 ACEs,
    which is valid and takes 16408 bytes, the size set aside is 72 bytes, and
    inheritance fails for lack of room at the fourth ACE. *)
Theorem inherit_size_wraps :
  RtlValidAcl (Some many_aces) = Some (true, 16408) /\ inherit_size None (Some many_aces) = Some 72 /\
  RtlpObjectInheritSecurity (fun _ => true) None (Some many_aces) false true (Some demo_creator) file_mapping demo_locals
    = Some (STATUS_BUFFER_TOO_SMALL, None, false).
Proof. vm_compute. done. Qed.
