(* ===== verification/SdObject.v ===== *)
(** The security descriptor of a new object: what
    [RtlCreatePrivateObjectSecurityEx] of [SdInherit] makes of the descriptors of
    the parent and of the creator and of the creator's token, as a function on
    abstract descriptors with its errors. *)

From S2P Require Import Prelude SecurityTypes Sid Acl AclRepr AclOps AclEdit AclCodec AclCodecOps Token AccessCheck TokenState TokenOps Sd SdOps SdRelative SdRepr SdRelativeOps SdInfo SdInherit SdInheritOps.

(** * The specification *)

(** A result with the status of the code: [None] when the code follows a null
    pointer, a value after a success only. *)
Abbreviation outcome A := (option (NTSTATUS * option A)).

Definition and_then {A B} (r : outcome A) (k : A -> outcome B) : outcome B :=
  '(status, a) ← r; if is_ok status then a ← a; k a else Some (status, None).

Section Spec.
Context `{Layout} (malloc : Z -> bool) (ts : token_spec) (owner group : sid) (dacl : option acl_spec) (gm : GENERIC_MAPPING).

Definition copy_sid (s : sid) (defaulted : bool) : outcome (sid * bool) :=
  Some (if malloc (sid_size s) then (STATUS_SUCCESS, Some (s, defaulted)) else (STATUS_INSUFFICIENT_RESOURCES, None)).

(** The owner (or group): the creator's when the token has it; otherwise, when
    it is to come from the parent and the parent has one, again the creator's
    (not the parent's), defaulted; otherwise the token's, [mine], defaulted. *)
Definition token_sid (mine : sid) (fits : bool) : outcome (sid * bool) :=
  if fits then copy_sid mine true else Some (STATUS_BUFFER_TOO_SMALL, None).
Definition parent_sid (mine : sid) (fits from_parent : bool) (parent : option (option sid * bool)) (creator : option sid) : outcome (sid * bool) :=
  match parent with
  | Some (Some _, _) => if from_parent then s ← creator; copy_sid s true else token_sid mine fits
  | _ => token_sid mine fits
  end.
Definition pick_sid (mine : sid) (fits from_parent : bool) (parent creator : option (option sid * bool)) : outcome (sid * bool) :=
  match creator with
  | Some (Some s, defaulted) => if member (ts_tok ts) s then copy_sid s defaulted else parent_sid mine fits from_parent parent (Some s)
  | _ => parent_sid mine fits from_parent parent None
  end.

Definition is_present {A} (o : option A) : bool := match o with Some _ => true | None => false end.
Definition is_defaulted {A} (o : option (A * bool)) : bool := match o with Some (_, d) => d | None => false end.

Definition copy_acl (a : option acl_spec) : option (NTSTATUS * option acl_spec * bool) :=
  a ← a;
  Some (if malloc (as_size a) then (STATUS_SUCCESS, Some a, false) else (STATUS_INSUFFICIENT_RESOURCES, None, false)).

(** The ACL inherited from [parent] and [creator], which are absent, or present
    and perhaps null. *)
Definition inherit_acl (container : bool) (parent creator : option (option acl_spec * bool)) : option (NTSTATUS * option acl_spec * bool) :=
  if is_present parent || is_present creator
  then inherit_spec malloc owner group gm container (acl_of parent) (acl_of creator) (is_defaulted creator)
  else Some (STATUS_SUCCESS, None, false).

(** The default DACL of the token, when the DACL has no ACE. *)
Definition default_acl (container parent : bool) : option (NTSTATUS * option acl_spec * bool) :=
  if malloc (sizeof_TOKEN_DEFAULT_DACL + opt_size as_size dacl) then
    '(status, a, _) ← inherit_spec malloc owner group gm container None dacl true;
    Some (if is_ok status then (status, a, negb parent) else (status, None, false))
  else Some (STATUS_INSUFFICIENT_RESOURCES, None, false).

Definition make_dacl (container : bool) (parent creator : option (option acl_spec * bool)) (protected : bool)
    : option (NTSTATUS * option acl_spec * bool) :=
  '(status, a, d) ← (if is_present creator && protected then copy_acl (acl_of creator) else inherit_acl container parent creator);
  if is_ok status then
    if (length (opt_aces a) =? 0)%nat then default_acl container (is_present parent) else Some (status, a, d)
  else Some (status, None, false).

Definition make_sacl (container : bool) (parent creator : option (option acl_spec * bool)) (protected : bool)
    : option (NTSTATUS * option acl_spec * bool) :=
  if protected then (if is_present creator then copy_acl (acl_of creator) else Some (STATUS_SUCCESS, None, false))
  else inherit_acl container parent creator.

(** An ACL in its place, with its control bits. *)
Definition store_dacl (r : option (NTSTATUS * option acl_spec * bool)) (bits : Z) (s : sd_spec) : outcome sd_spec :=
  '(status, a, d) ← r;
  Some (status, if is_ok status then
    Some (mk_view (v_owner s) (v_group s) ((fun a => (Some a, d)) <$> a) (v_sacl s)
            (Z.lor (Z.ldiff (v_bits s) (Z.lor SE_DACL_PROTECTED SE_DACL_AUTO_INHERITED)) bits) (v_sbz1 s)) else None).
Definition store_sacl (r : option (NTSTATUS * option acl_spec * bool)) (bits : Z) (s : sd_spec) : outcome sd_spec :=
  '(status, a, d) ← r;
  Some (status, if is_ok status then
    Some (mk_view (v_owner s) (v_group s) (v_dacl s) ((fun a => (Some a, d)) <$> a)
            (Z.lor (Z.ldiff (v_bits s) (Z.lor SE_SACL_PROTECTED SE_SACL_AUTO_INHERITED)) bits) (v_sbz1 s)) else None).

Definition with_owner (s : sd_spec) (x : sid * bool) : sd_spec := mk_view (Some x.1, x.2) (v_group s) (v_dacl s) (v_sacl s) (v_bits s) (v_sbz1 s).
Definition with_group (s : sd_spec) (x : sid * bool) : sd_spec := mk_view (v_owner s) (Some x.1, x.2) (v_dacl s) (v_sacl s) (v_bits s) (v_sbz1 s).
Definition store_sid (with_part : sd_spec -> sid * bool -> sd_spec) (s : sd_spec) (r : outcome (sid * bool)) : outcome sd_spec :=
  and_then r (fun x => Some (STATUS_SUCCESS, Some (with_part s x))).
Definition blank : sd_spec := mk_view (None, false) (None, false) None None 0 0.

(** The parent's ACL when inheritance of that kind is asked for. *)
Definition inheritable {A B} (flags flag : Z) (part : A -> option B) (parent : option A) : option B :=
  if IsSetFlag flags flag then p ← parent; part p else None.

Definition creator_bits (creator : option sd_spec) : Z := match creator with Some c => v_bits c | None => 0 end.

Section Object.
Context (parent creator : option sd_spec) (container : bool) (flags : Z).

Definition parent_dacl := inheritable flags SEF_DACL_AUTO_INHERIT v_dacl parent.
Definition parent_sacl := inheritable flags SEF_SACL_AUTO_INHERIT v_sacl parent.
Definition creator_dacl := c ← creator; v_dacl c.
Definition creator_sacl := c ← creator; v_sacl c.

Definition object_spec : outcome sd_spec :=
  let bits := creator_bits creator in
  and_then (store_sid with_owner blank
              (pick_sid owner (owner_fits owner) (IsSetFlag flags SEF_DEFAULT_OWNER_FROM_PARENT) (v_owner <$> parent) (v_owner <$> creator))) (fun s =>
  and_then (store_sid with_group s
              (pick_sid group true (IsSetFlag flags SEF_DEFAULT_GROUP_FROM_PARENT) (v_group <$> parent) (v_group <$> creator))) (fun s =>
  and_then (store_dacl (make_dacl container parent_dacl creator_dacl (IsSetFlag bits SE_DACL_PROTECTED))
              (inherited_control bits SE_DACL_PROTECTED flags SEF_DACL_AUTO_INHERIT SE_DACL_AUTO_INHERITED) s) (fun s =>
  store_sacl (make_sacl container parent_sacl creator_sacl (IsSetFlag bits SE_SACL_PROTECTED))
    (inherited_control bits SE_SACL_PROTECTED flags SEF_SACL_AUTO_INHERIT SE_SACL_AUTO_INHERITED) s))).

(** Memory for the local copies of the descriptors given, and for the result. *)
Definition memory_given (s : option sd_spec) : bool := match s with Some s => memory_for malloc s | None => true end.

Definition new_object_spec : outcome sd_spec :=
  if memory_given parent && memory_given creator && malloc sizeof_SECURITY_DESCRIPTOR_ABSOLUTE then
    and_then object_spec (fun s => Some (if malloc (rel_size s) then (STATUS_SUCCESS, Some s) else (STATUS_INSUFFICIENT_RESOURCES, None)))
  else Some (STATUS_INSUFFICIENT_RESOURCES, None).
End Object.
End Spec.

(** * Lemmas *)

Section Refine.
Context `{Host} `{Layout} (malloc : Z -> bool).

(** A descriptor and its specification after the same step. *)
Definition sd_outcome (x : NTSTATUS * SECURITY_DESCRIPTOR_ABSOLUTE) (y : NTSTATUS * option sd_spec) : Prop :=
  x.1 = y.1 /\ match y.2 with Some s => is_ok y.1 = true /\ sd_at x.2 s | None => is_ok y.1 = false end.

Lemma then_ok_refines x y k f : option_Forall2 sd_outcome x y ->
  (forall sd s, sd_at sd s -> option_Forall2 sd_outcome (k sd) (f s)) -> option_Forall2 sd_outcome (then_ok x k) (and_then y f).
Proof.
  intros [[st sd] [st' o] [E Ho]|] Hk; [|constructor]. cbn [fst snd] in *. subst st'. unfold then_ok, and_then. bsimpl.
  destruct o as [s|]; [destruct Ho as [-> Hs]; cbn [negb]; by apply Hk|]. rewrite Ho. cbn [negb]. by constructor.
Qed.

Lemma get_owner_at sd s : sd_at sd s ->
  exists q, RtlGetOwnerSecurityDescriptor sd = (STATUS_SUCCESS, q, (v_owner s).2) /\ option_Forall2 (sid_at host) q (v_owner s).1.
Proof using.
  intros [Hw _ _ Hv]. destruct (getters_view sd Hw) as (-> & _). destruct (vr_owner _ _ _ _ Hv) as [Ho E]. rewrite E. eauto.
Qed.

Lemma get_group_at sd s : sd_at sd s ->
  exists q, RtlGetGroupSecurityDescriptor sd = (STATUS_SUCCESS, q, (v_group s).2) /\ option_Forall2 (sid_at host) q (v_group s).1.
Proof using.
  intros [Hw _ _ Hv]. destruct (getters_view sd Hw) as (_ & -> & _). destruct (vr_group _ _ _ _ Hv) as [Ho E]. rewrite E. eauto.
Qed.

Lemma set_owner_at sd s q x d : sd_at sd s -> sid_at host q x ->
  exists sd', RtlSetOwnerSecurityDescriptor sd (Some q) d = (STATUS_SUCCESS, sd') /\ sd_at sd' (with_owner s (x, d)).
Proof using.
  intros Hs Hq. destruct (means_bits _ _ _ _ Hs) as [Hb Hz]. pose proof Hs as [Hw _ _ [Vo Vg Vd Va Vb Vz]].
  destruct (set_owner_does sd (Some q) d Hw eq_refl) as (sd' & -> & Hw' & V'). exists sd'. split; [done|].
  apply means_of_view; [done| |done|done]. rewrite V'. split; try done. split; [by constructor|done].
Qed.

Lemma set_group_at sd s q x d : sd_at sd s -> sid_at host q x ->
  exists sd', RtlSetGroupSecurityDescriptor sd (Some q) d = (STATUS_SUCCESS, sd') /\ sd_at sd' (with_group s (x, d)).
Proof using.
  intros Hs Hq. destruct (means_bits _ _ _ _ Hs) as [Hb Hz]. pose proof Hs as [Hw _ _ [Vo Vg Vd Va Vb Vz]].
  destruct (set_group_does sd (Some q) d Hw eq_refl) as (sd' & -> & Hw' & V'). exists sd'. split; [done|].
  apply means_of_view; [done| |done|done]. rewrite V'. split; try done. split; [by constructor|done].
Qed.

(** ** The ACLs *)

(** What a getter of an ACL answers. *)
Definition acl_answered (x : NTSTATUS * bool * ptr * bool) (o : option (option acl_spec * bool)) : Prop :=
  exists q, x = (STATUS_SUCCESS, is_present o, q, is_defaulted o) /\ option_Forall2 acl_mem q (acl_of o).

Lemma acl_answer_at v o : option_Forall2 (flagged (option_Forall2 acl_mem)) v o -> acl_answered (acl_answer v) o.
Proof using.
  intros [[q d] [a d'] [Ha Hd]|]; [|exists None; split; [done|constructor]]. cbn [fst snd] in *. subst d'. exists q. by split.
Qed.

Lemma optional_dacl_at sd s : option_Forall2 sd_at sd s -> acl_answered (optional_acl RtlGetDaclSecurityDescriptor sd) (s ≫= v_dacl).
Proof using.
  intros [sd' s' [Hw _ _ Hv]|]; [|exists None; split; [done|constructor]]. cbn [optional_acl]. destruct (getters_view sd' Hw) as (_ & _ & -> & _).
  apply acl_answer_at, (vr_dacl _ _ _ _ Hv).
Qed.

Lemma optional_sacl_at sd s : option_Forall2 sd_at sd s -> acl_answered (optional_acl RtlGetSaclSecurityDescriptor sd) (s ≫= v_sacl).
Proof using.
  intros [sd' s' [Hw _ _ Hv]|]; [|exists None; split; [done|constructor]]. cbn [optional_acl]. destruct (getters_view sd' Hw) as (_ & _ & _ & -> & _).
  apply acl_answer_at, (vr_sacl _ _ _ _ Hv).
Qed.

Lemma parent_if_at flags flag sd s : option_Forall2 sd_at sd s ->
  option_Forall2 sd_at (parent_if flags flag sd) (if IsSetFlag flags flag then s else None).
Proof using. intros Hs. unfold parent_if. destruct (IsSetFlag flags flag); [done|constructor]. Qed.

(** The control bits of the creator that do not belong to a part. *)
Lemma optional_control_at sd s : option_Forall2 sd_at sd s ->
  exists c, optional_control sd = (STATUS_SUCCESS, c) /\ forall m, Z.land part_bits m = 0 -> IsSetFlag c m = IsSetFlag (creator_bits s) m.
Proof using.
  intros [sd' s' [Hw _ _ Hv]|]; [|by exists 0]. cbn [optional_control]. destruct (getters_view sd' Hw) as (_ & _ & _ & _ & ->).
  exists (sd_Control sd'). split; [done|]. intros m Hm. unfold IsSetFlag. rewrite (view_control_bits sd' m Hm). cbn [creator_bits].
  by rewrite (vr_bits _ _ _ _ Hv).
Qed.

Lemma RtlpDuplicateAcl_refines q a : option_Forall2 acl_mem q a ->
  option_Forall2 acl_result ('(status, acl) ← RtlpDuplicateAcl malloc q; Some (status, acl, false)) (copy_acl malloc a).
Proof using.
  intros [p x Hx|]; [|constructor]. pose proof Hx as [Hw Hat]. unfold RtlpDuplicateAcl, copy_acl. bsimpl. unfold RtlGetAclSize.
  destruct (acl_at_fields p _ Hat) as (_ & _ & -> & _). bsimpl. cbn [std_acl acl_size]. unfold RTL_ALLOCATE.
  destruct (malloc (as_size x)); bsimpl; [|by repeat constructor]. destruct (acl_at_rd p _ Hat) as (bs & Hr & Hz & Hbs). cbn [std_acl acl_size] in Hr, Hz.
  rewrite Hr. bsimpl. pose proof (as_used_range x Hw).
  replace (zeros (as_size x)) with (zeros (as_size x) ++ []) by apply app_nil_r. rewrite wr_at_0 by (rewrite zlen_zeros; lia). bsimpl.
  constructor. split; [done|]. split; [|done]. constructor. by split.
Qed.

Lemma set_bits_range x y m : 0 <= x < 65536 -> 0 <= y < 65536 -> Z.ldiff y m = 0 -> 0 <= Z.lor (Z.ldiff x m) y < 65536.
Proof using.
  intros Hx Hy E. assert (Ey : Z.land y m = y) by (revert E; clear; intros E; zbits). rewrite <- Ey. by apply take_bits_range.
Qed.

(** Storing an ACL that was made. *)
Lemma store_dacl_refines x r change sd s : option_Forall2 acl_result x r -> sd_at sd s -> 0 <= change < 65536 ->
  Z.ldiff change (Z.lor SE_DACL_PROTECTED SE_DACL_AUTO_INHERITED) = 0 ->
  option_Forall2 sd_outcome
    ('(status, p, d) ← x;
     if negb (is_ok status) then Some (status, sd)
     else
       let '(status, sd) := RtlSetSecurityDescriptorControl sd (Z.lor SE_DACL_PROTECTED SE_DACL_AUTO_INHERITED) change in
       if negb (is_ok status) then Some (status, sd) else Some (RtlSetDaclSecurityDescriptor sd (negb (is_null p)) p d))
    (store_dacl r change s).
Proof using.
  intros [[[st p] d] [[st' a] d'] (E1 & Ha & E3)|] Hs Hcr Hc; [|constructor]. cbn [fst snd] in *. subst st' d'. unfold store_dacl. bsimpl.
  destruct (is_ok st) eqn:Est; cbn [negb]; [|by repeat constructor]. pose proof Hs as [Hw _ _ [Vo Vg Vd Va Vb Vz]].
  destruct (means_bits _ _ _ _ Hs) as [Hb Hz].
  destruct (set_control_does sd (Z.lor SE_DACL_PROTECTED SE_DACL_AUTO_INHERITED) change Hw eq_refl Hc) as (sd1 & -> & Hw1 & V1). okstep.
  destruct (set_dacl_does sd1 (negb (is_null p)) p d Hw1) as (sd2 & -> & Hw2 & V2). apply is_ok_true in Est as ->. constructor. split; [done|]. split; [done|]. cbn [fst snd].
  apply means_of_view; [done| |cbn [v_bits]; by apply set_bits_range|done]. rewrite V2, V1. split; try done.
  - cbn [v_dacl]. destruct Ha; cbn [is_null negb fmap option_fmap option_map]; [constructor; split; [by constructor|done]|constructor].
  - cbn [v_bits]. by rewrite Vb.
Qed.
Lemma store_sacl_refines x r change sd s : option_Forall2 acl_result x r -> sd_at sd s -> 0 <= change < 65536 ->
  Z.ldiff change (Z.lor SE_SACL_PROTECTED SE_SACL_AUTO_INHERITED) = 0 ->
  option_Forall2 sd_outcome
    ('(status, p, d) ← x;
     if negb (is_ok status) then Some (status, sd)
     else
       let '(status, sd) := RtlSetSecurityDescriptorControl sd (Z.lor SE_SACL_PROTECTED SE_SACL_AUTO_INHERITED) change in
       if negb (is_ok status) then Some (status, sd) else Some (RtlSetSaclSecurityDescriptor sd (negb (is_null p)) p d))
    (store_sacl r change s).
Proof using.
  intros [[[st p] d] [[st' a] d'] (E1 & Ha & E3)|] Hs Hcr Hc; [|constructor]. cbn [fst snd] in *. subst st' d'. unfold store_sacl. bsimpl.
  destruct (is_ok st) eqn:Est; cbn [negb]; [|by repeat constructor]. pose proof Hs as [Hw _ _ [Vo Vg Vd Va Vb Vz]].
  destruct (means_bits _ _ _ _ Hs) as [Hb Hz].
  destruct (set_control_does sd (Z.lor SE_SACL_PROTECTED SE_SACL_AUTO_INHERITED) change Hw eq_refl Hc) as (sd1 & -> & Hw1 & V1). okstep.
  destruct (set_sacl_does sd1 (negb (is_null p)) p d Hw1) as (sd2 & -> & Hw2 & V2). apply is_ok_true in Est as ->. constructor. split; [done|]. split; [done|]. cbn [fst snd].
  apply means_of_view; [done| |cbn [v_bits]; by apply set_bits_range|done]. rewrite V2, V1. split; try done.
  - cbn [v_sacl]. destruct Ha; cbn [is_null negb fmap option_fmap option_map]; [constructor; split; [by constructor|done]|constructor].
  - cbn [v_bits]. by rewrite Vb.
Qed.
Lemma no_aces_at q a : option_Forall2 acl_mem q a -> no_aces q = Some (length (opt_aces a) =? 0)%nat.
Proof using.
  intros Hq. pose proof (count_at q a Hq) as Hc. destruct Hq as [p x Hp|]; [|done]. cbn [no_aces optional_count opt_aces] in *. rewrite Hc. bsimpl.
  f_equal. destruct (length (as_aces x)); done.
Qed.

Lemma inherited_control_range c p f b i : 0 <= p < 65536 -> 0 <= i < 65536 ->
  0 <= inherited_control c p f b i < 65536 /\ Z.ldiff (inherited_control c p f b i) (Z.lor p i) = 0.
Proof using.
  intros Hp Hi. unfold inherited_control. destruct (IsSetFlag c p); [|destruct (IsSetFlag f b)]; (split; [lia|]); zbits.
Qed.

(** ** Valid SIDs *)

Lemma and_then_inv {A B} (r : outcome A) (k : A -> outcome B) st b :
  and_then r k = Some (st, Some b) -> exists a, r = Some (STATUS_SUCCESS, Some a) /\ k a = Some (st, Some b).
Proof using.
  unfold and_then. destruct r as [[st' a]|]; [|done]. bsimpl. destruct (is_ok st') eqn:E; [|done]. apply is_ok_true in E as ->.
  destruct a; [|done]. eauto.
Qed.

Lemma copy_sid_inv s d st x e : copy_sid malloc s d = Some (st, Some (x, e)) -> x = s.
Proof using. unfold copy_sid. destruct (malloc _); [|done]. by intros [= _ <- _]. Qed.

Lemma pick_sid_valid ts mine fits fp parent creator st x d :
  sid_valid mine = true -> (forall y e, creator = Some (Some y, e) -> sid_valid y = true) ->
  pick_sid malloc ts mine fits fp parent creator = Some (st, Some (x, d)) -> sid_valid x = true.
Proof using.
  intros Hm Hc. assert (Htok : token_sid malloc mine fits = Some (st, Some (x, d)) -> sid_valid x = true).
  { unfold token_sid. destruct fits; [|done]. by intros ->%copy_sid_inv. }
  assert (Hpar : forall c, (forall y, c = Some y -> sid_valid y = true) -> parent_sid malloc mine fits fp parent c = Some (st, Some (x, d)) -> sid_valid x = true).
  { intros c Hcy. unfold parent_sid. destruct parent as [[[p|] pd]|]; [|done..]. destruct fp; [|done]. destruct c as [y|]; [|done]. bsimpl.
    intros ->%copy_sid_inv. by apply Hcy. }
  unfold pick_sid. destruct creator as [[[s|] e]|]; [|by apply Hpar..]. destruct (member (ts_tok ts) s).
  - intros ->%copy_sid_inv. by eapply Hc.
  - apply Hpar. intros y [= <-]. by eapply Hc.
Qed.

Lemma zeros_split n : 20 <= n -> zeros n = zeros 20 ++ zeros (n - 20).
Proof using. intros Hn. apply zeros_cut. lia. Qed.

Context (T : ACCESS_TOKEN) (ts : token_spec) (HT : token_repr T ts) (Hgroups : Z.of_nat (length (ts_groups ts)) < 2 ^ 32).

Lemma token_repr_at : token_at T (ts_tok ts).
Proof using HT.
  destruct HT as (((_ & u & Eu & Hu) & Hg & _) & _). split; [by exists u|]. cbn [ts_tok tk_groups].
  eapply Forall2_impl; [exact Hg|]. intros x [g a] (? & p & ? & ?). by eauto.
Qed.

(** ** Owner and group *)

Section SetSid.
Context (get : SECURITY_DESCRIPTOR_ABSOLUTE -> NTSTATUS * ptr * bool).
Context (set : SECURITY_DESCRIPTOR_ABSOLUTE -> ptr -> bool -> NTSTATUS * SECURITY_DESCRIPTOR_ABSOLUTE).
Context (part : sd_spec -> option sid * bool) (with_part : sd_spec -> sid * bool -> sd_spec).
Context (Hget : forall sd s, sd_at sd s -> exists q, get sd = (STATUS_SUCCESS, q, (part s).2) /\ option_Forall2 (sid_at host) q (part s).1).
Context (Hset : forall sd s q x d, sd_at sd s -> sid_at host q x ->
  exists sd', set sd (Some q) d = (STATUS_SUCCESS, sd') /\ sd_at sd' (with_part s (x, d))).
Context (flag class : Z) (buffer : mem) (size : Z) (mine : sid) (fits : bool).
Context (Hquery : if fits then exists q, query_token_sid (Some T) class buffer size = Some (STATUS_SUCCESS, Some q) /\ sid_at host q mine
                  else query_token_sid (Some T) class buffer size = Some (STATUS_BUFFER_TOO_SMALL, None)).

Context (sd : SECURITY_DESCRIPTOR_ABSOLUTE) (s : sd_spec) (Hs : sd_at sd s).
Context (parent creator : option SECURITY_DESCRIPTOR_ABSOLUTE) (sp sc : option sd_spec).
Context (Hp : option_Forall2 sd_at parent sp) (Hc : option_Forall2 sd_at creator sc) (flags : Z).

Lemma set_sid_copy_refines q x d : sid_at host q x ->
  option_Forall2 sd_outcome (set_sid_copy malloc set sd (Some q) d) (store_sid with_part s (copy_sid malloc x d)).
Proof using Hset Hs.
  intros Hq. unfold set_sid_copy, copy_sid, sid_size. bsimpl. rewrite (RtlDuplicateSid_spec malloc q x Hq). bsimpl.
  destruct (malloc (8 + 4 * sid_count x)); okstep; [|by repeat constructor].
  destruct (Hset sd s (sid_bytes host x) x d Hs) as (sd' & -> & Hsd').
  - split; [by apply (sid_at_wf _ _ _ Hq)|]. exists []. by rewrite app_nil_r.
  - unfold store_sid, and_then. bsimpl. rewrite is_ok_success. bsimpl. constructor. by split.
Qed.

Lemma set_sid_from_token_refines :
  option_Forall2 sd_outcome (set_sid_from_token malloc set class buffer size sd (Some T)) (store_sid with_part s (token_sid malloc mine fits)).
Proof using Hset Hs Hquery.
  unfold set_sid_from_token, token_sid. destruct fits; [|rewrite Hquery; by repeat constructor].
  destruct Hquery as (q & -> & Hq). okstep. by apply set_sid_copy_refines.
Qed.

Lemma set_sid_from_parent_refines q c : option_Forall2 (sid_at host) q c ->
  option_Forall2 sd_outcome (set_sid_from_parent malloc get set flag class buffer size sd parent flags (Some T) q)
    (store_sid with_part s (parent_sid malloc mine fits (IsSetFlag flags flag) (part <$> sp) c)).
Proof using Hget Hset Hs Hquery Hp.
  intros Hqc. pose proof set_sid_from_token_refines as Htoken. unfold set_sid_from_parent, parent_sid.
  destruct Hp as [pp' sp' Hpp|]; [|done]. cbn [fmap option_fmap option_map].
  destruct (Hget _ _ Hpp) as (qp & E & Hqp). rewrite E. destruct (part sp') as [po pd]. cbn [fst snd] in *.
  destruct (IsSetFlag flags flag); [|by destruct Hqp]. okstep. destruct Hqp as [qp xp Hqp|]; cbn [is_null negb]; [|done].
  destruct Hqc as [q c Hqc|]; bsimpl; [by apply set_sid_copy_refines|constructor].
Qed.

Lemma object_set_sid_refines :
  option_Forall2 sd_outcome (object_set_sid malloc get set flag class buffer size sd parent creator flags (Some T))
    (store_sid with_part s (pick_sid malloc ts mine fits (IsSetFlag flags flag) (part <$> sp) (part <$> sc))).
Proof using HT Hget Hset Hs Hquery Hp Hc.
  pose proof set_sid_from_parent_refines as Hparent. unfold object_set_sid, pick_sid.
  destruct Hc as [cc sc' Hcc|]; cbn [fmap option_fmap option_map]; [|apply Hparent; constructor].
  destruct (Hget _ _ Hcc) as (qc & E & Hqc). rewrite E. okstep. destruct (part sc') as [co cd]. cbn [fst snd] in *.
  destruct Hqc as [qc xc Hqc|]; [|apply Hparent; constructor]. bsimpl.
  rewrite (RtlIsSidMemberOfToken_spec T (ts_tok ts) qc xc token_repr_at Hqc). bsimpl.
  destruct (member (ts_tok ts) xc); [by apply set_sid_copy_refines|]. apply Hparent. by constructor.
Qed.
End SetSid.

Context (owner group : sid) (Howner : ts_owner ts = Some owner) (Hgroup : ts_group ts = Some group).
Context (Ho : good_sid owner) (Hg : good_sid group) (gm : GENERIC_MAPPING) (Hgm : mapping_ok gm).

(** The default DACL of the token. *)
Context (dacl : option acl_spec) (Hdacl : ts_dacl ts = (fun a => std_acl (as_revision a) (as_size a) (as_aces a)) <$> dacl).
Context (Wdacl : forall a, dacl = Some a -> acl_spec_wf a) (Adacl : aces_addable dacl) (Ndacl : inherit_need None dacl < 65536).

Lemma dacl_means p : option_Forall2 acl_at p (ts_dacl ts) -> option_Forall2 acl_mem p dacl.
Proof using Hdacl Wdacl.
  clear Adacl Ndacl. rewrite Hdacl. destruct dacl as [a|]; cbn; intros Hp; inversion Hp; constructor. split; [by apply Wdacl|done].
Qed.

Lemma default_dacl_refines container present l : locals_ok l ->
  option_Forall2 acl_result (default_dacl malloc container present (Some T) gm l) (default_acl malloc owner group dacl gm container present).
Proof using HT Hgroups Howner Hgroup Ho Hg Hgm Hdacl Wdacl Adacl Ndacl.
  intros Hl. pose proof sizeof_pointer_range. unfold default_dacl, default_acl. set (n := sizeof_TOKEN_DEFAULT_DACL + opt_size as_size dacl).
  assert (En : query_need ts TokenDefaultDacl = Some n) by (unfold query_need, n; rewrite Hdacl; by destruct dacl).
  assert (Hn : 0 <= n < 2 ^ 32).
  { unfold n, sizeof_TOKEN_DEFAULT_DACL. destruct dacl as [a|]; cbn [opt_size]; [|lia]. pose proof (as_used_range a (Wdacl a eq_refl)). lia. }
  destruct (query_information_at T ts TokenDefaultDacl n HT En) as (-> & _ & Hq); [lia|done|]. bsimpl. rewrite bool_decide_eq_true_2 by done.
  unfold RTL_ALLOCATE. destruct (malloc n); okstep; [|by repeat constructor].
  destruct (Hq (zeros n)) as (info & b & E & _ & Hi); [rewrite zlen_zeros; lia|]. rewrite zlen_zeros in E by lia. rewrite E. okstep.
  destruct info; destruct Hi as [Ei Hi]; try done. apply dacl_means in Hi.
  pose proof (RtlpObjectInheritSecurity_spec malloc T ts HT Hgroups owner group Howner Hgroup Ho Hg gm Hgm l Hl None (padd b <$> DefaultDacl) None dacl
    ltac:(constructor) Hi (opt_aces_none) Adacl Ndacl container true) as Hr.
  destruct Hr as [[[st p] d] [[st' a] d'] (E1 & Ha & E3)|]; [|constructor]. cbn [fst snd] in *. subst st' d'. bsimpl.
  destruct (is_ok st); cbn [negb]; constructor; split; try done; split; done || constructor.
Qed.

Lemma masked_acl (o : option (option acl_spec * bool)) q :
  option_Forall2 acl_mem q (acl_of o) -> option_Forall2 acl_mem (if is_present o then q else None) (acl_of o).
Proof using. destruct o; [done|]. constructor. Qed.

Section Inherit.
Context (container : bool) (parent creator : option (option acl_spec * bool)).
Context (Ap : aces_addable (acl_of parent)) (Ac : aces_addable (acl_of creator)) (Hneed : inherit_need (acl_of parent) (acl_of creator) < 65536).

Lemma inherit_acl_refines qp qc l : locals_ok l -> option_Forall2 acl_mem qp (acl_of parent) -> option_Forall2 acl_mem qc (acl_of creator) ->
  option_Forall2 acl_result
    (if is_present parent || is_present creator
     then RtlpObjectInheritSecurity malloc (if is_present parent then qp else None) (if is_present creator then qc else None) (is_defaulted creator)
            container (Some T) gm l
     else Some (STATUS_SUCCESS, None, false))
    (inherit_acl malloc owner group gm container parent creator).
Proof using HT Hgroups Howner Hgroup Ho Hg Hgm Ap Ac Hneed.
  intros Hl Hp Hc. unfold inherit_acl. destruct (is_present parent || is_present creator); [|by repeat constructor].
  by apply (RtlpObjectInheritSecurity_spec malloc T ts); [..|apply masked_acl|apply masked_acl| | |].
Qed.
End Inherit.

(** ** The four steps *)

Section Object.
Context (parent creator : option SECURITY_DESCRIPTOR_ABSOLUTE) (sp sc : option sd_spec) (container : bool) (flags : Z).
Context (Hp : option_Forall2 sd_at parent sp) (Hc : option_Forall2 sd_at creator sc).

(** The ACLs that are inherited have ACEs that can be added, and not too many. *)
Definition acls_ok (p c : option (option acl_spec * bool)) : Prop :=
  aces_addable (acl_of p) /\ aces_addable (acl_of c) /\ inherit_need (acl_of p) (acl_of c) < 65536.

Context (Kd : acls_ok (parent_dacl sp flags) (creator_dacl sc)) (Ks : acls_ok (parent_sacl sp flags) (creator_sacl sc)).

Lemma RtlpObjectSetDacl_refines sd s l ld : sd_at sd s -> locals_ok l -> locals_ok ld ->
  option_Forall2 sd_outcome (RtlpObjectSetDacl malloc sd parent creator container flags (Some T) gm l ld)
    (store_dacl (make_dacl malloc owner group dacl gm container (parent_dacl sp flags) (creator_dacl sc) (IsSetFlag (creator_bits sc) SE_DACL_PROTECTED))
       (inherited_control (creator_bits sc) SE_DACL_PROTECTED flags SEF_DACL_AUTO_INHERIT SE_DACL_AUTO_INHERITED) s).
Proof using HT Hgroups Howner Hgroup Ho Hg Hgm Hdacl Wdacl Adacl Ndacl Hp Hc Kd.
  intros Hs Hl Hld. unfold RtlpObjectSetDacl. destruct Kd as (Ap & Ac & Hn).
  destruct (optional_dacl_at _ _ (parent_if_at flags SEF_DACL_AUTO_INHERIT _ _ Hp)) as (qp & -> & Hqp). okstep.
  destruct (optional_dacl_at _ _ Hc) as (qc & -> & Hqc). okstep. change (sc ≫= v_dacl) with (creator_dacl sc) in *.
  replace ((if IsSetFlag flags SEF_DACL_AUTO_INHERIT then sp else None) ≫= v_dacl) with (parent_dacl sp flags) in *
    by (unfold parent_dacl, inheritable; by destruct (IsSetFlag _ _)).
  destruct (optional_control_at _ _ Hc) as (c & -> & Hbits). okstep.
  replace (inherited_control c SE_DACL_PROTECTED) with (inherited_control (creator_bits sc) SE_DACL_PROTECTED)
    by (unfold inherited_control; by rewrite Hbits).
  rewrite (Hbits SE_DACL_PROTECTED eq_refl). unfold make_dacl.
  destruct (inherited_control_range (creator_bits sc) SE_DACL_PROTECTED flags SEF_DACL_AUTO_INHERIT SE_DACL_AUTO_INHERITED) as [Hr1 Hr2]; [done..|].
  match goal with |- context [mbind _ ?x] => set (first := x) end.
  assert (Hfirst : option_Forall2 acl_result first
    (if is_present (creator_dacl sc) && IsSetFlag (creator_bits sc) SE_DACL_PROTECTED then copy_acl malloc (acl_of (creator_dacl sc))
     else inherit_acl malloc owner group gm container (parent_dacl sp flags) (creator_dacl sc))).
  { unfold first. destruct (is_present _ && _); [by apply RtlpDuplicateAcl_refines|by apply inherit_acl_refines]. }
  destruct Hfirst as [[[st f] d] [[st' a] d'] (E1 & Ha & E3)|]; [|constructor]. cbn [fst snd] in *. subst st' d'. bsimpl.
  destruct (is_ok st) eqn:Est; cbn [negb]; [|unfold store_dacl; bsimpl; rewrite Est; by repeat constructor].
  rewrite (no_aces_at f a Ha). bsimpl. destruct (length (opt_aces a) =? 0)%nat.
  - by apply store_dacl_refines; [apply default_dacl_refines|..].
  - apply is_ok_true in Est as ->. by apply (store_dacl_refines (Some (STATUS_SUCCESS, f, d))); [constructor|..].
Qed.

Lemma RtlpObjectSetSacl_refines sd s l : sd_at sd s -> locals_ok l ->
  option_Forall2 sd_outcome (RtlpObjectSetSacl malloc sd parent creator container flags (Some T) gm l)
    (store_sacl (make_sacl malloc owner group gm container (parent_sacl sp flags) (creator_sacl sc) (IsSetFlag (creator_bits sc) SE_SACL_PROTECTED))
       (inherited_control (creator_bits sc) SE_SACL_PROTECTED flags SEF_SACL_AUTO_INHERIT SE_SACL_AUTO_INHERITED) s).
Proof using HT Hgroups Howner Hgroup Ho Hg Hgm Hp Hc Ks.
  intros Hs Hl. unfold RtlpObjectSetSacl. destruct Ks as (Ap & Ac & Hn).
  destruct (optional_sacl_at _ _ (parent_if_at flags SEF_SACL_AUTO_INHERIT _ _ Hp)) as (qp & -> & Hqp). okstep.
  destruct (optional_sacl_at _ _ Hc) as (qc & -> & Hqc). okstep. change (sc ≫= v_sacl) with (creator_sacl sc) in *.
  replace ((if IsSetFlag flags SEF_SACL_AUTO_INHERIT then sp else None) ≫= v_sacl) with (parent_sacl sp flags) in *
    by (unfold parent_sacl, inheritable; by destruct (IsSetFlag _ _)).
  destruct (optional_control_at _ _ Hc) as (c & -> & Hbits). okstep.
  replace (inherited_control c SE_SACL_PROTECTED) with (inherited_control (creator_bits sc) SE_SACL_PROTECTED)
    by (unfold inherited_control; by rewrite Hbits).
  rewrite (Hbits SE_SACL_PROTECTED eq_refl). unfold make_sacl.
  destruct (inherited_control_range (creator_bits sc) SE_SACL_PROTECTED flags SEF_SACL_AUTO_INHERIT SE_SACL_AUTO_INHERITED) as [Hr1 Hr2]; [done..|].
  apply store_sacl_refines; [|done..]. destruct (IsSetFlag (creator_bits sc) SE_SACL_PROTECTED).
  - destruct (is_present (creator_sacl sc)); [by apply RtlpDuplicateAcl_refines|by repeat constructor].
  - by apply inherit_acl_refines.
Qed.

Context (stack : frame -> inherit_locals) (Hstack : forall f, locals_ok (stack f)).

Lemma make_object_sd_refines :
  option_Forall2 sd_outcome (make_object_sd malloc parent creator container flags (Some T) gm stack)
    (object_spec malloc ts owner group dacl gm sp sc container flags).
Proof using HT Hgroups Howner Hgroup Ho Hg Hgm Hdacl Wdacl Adacl Ndacl Hp Hc Kd Ks Hstack.
  unfold make_object_sd, object_spec.
  set (sd0 := {| sd_Revision := 1; sd_Sbz1 := 0; sd_Control := 0; sd_Owner := None; sd_Group := None; sd_Sacl := None; sd_Dacl := None |}).
  change (RtlCreateSecurityDescriptorAbsolute zero_sd SECURITY_DESCRIPTOR_REVISION) with (STATUS_SUCCESS, sd0).
  assert (Hblank : sd_at sd0 blank).
  { apply means_of_view; [by apply verify_header_iff| |done|done]. split; try done; try constructor; try constructor. }
  unfold then_ok at 1. okstep.
  apply then_ok_refines.
  { apply (object_set_sid_refines RtlGetOwnerSecurityDescriptor RtlSetOwnerSecurityDescriptor v_owner with_owner get_owner_at set_owner_at); try done.
    by apply (query_owner_ok T ts HT Hgroups owner Howner Ho). }
  intros sd1 s1 H1. apply then_ok_refines.
  { apply (object_set_sid_refines RtlGetGroupSecurityDescriptor RtlSetGroupSecurityDescriptor v_group with_group get_group_at set_group_at); try done.
    by apply (query_group_ok T ts HT Hgroups group Hgroup Hg). }
  intros sd2 s2 H2. apply then_ok_refines; [by apply RtlpObjectSetDacl_refines|]. intros sd3 s3 H3. by apply RtlpObjectSetSacl_refines.
Qed.
End Object.

(** * New objects *)

Section New.
Context (pp pc : ptr) (sp sc : option sd_spec) (Hp : option_Forall2 rel_at pp sp) (Hc : option_Forall2 rel_at pc sc).
Context (Hvalid : forall c, sc = Some c -> sids_valid c) (container : bool) (flags : Z).
Context (Kd : acls_ok (parent_dacl sp flags) (creator_dacl sc)) (Ks : acls_ok (parent_sacl sp flags) (creator_sacl sc)).
Context (stack : frame -> inherit_locals) (Hstack : forall f, locals_ok (stack f)).

Lemma optional_absolute_at p s : option_Forall2 rel_at p s ->
  if memory_given malloc s then exists sd, optional_absolute malloc p = Some (STATUS_SUCCESS, sd) /\ option_Forall2 sd_at sd s
  else optional_absolute malloc p = Some (STATUS_INSUFFICIENT_RESOURCES, None).
Proof using.
  intros [b s' Hb|]; cbn [memory_given optional_absolute]; [|exists None; split; [done|constructor]].
  pose proof (create_abs_at malloc b s' Hb) as Hq. destruct (memory_for malloc s'); [|done]. destruct Hq as (sd & -> & Hsd).
  exists (Some sd). split; [done|]. by constructor.
Qed.

Lemma object_sids_valid st s : object_spec malloc ts owner group dacl gm sp sc container flags = Some (st, Some s) -> sids_valid s.
Proof using Ho Hg Hvalid.
  unfold object_spec. intros E. apply and_then_inv in E as (s1 & E1 & E). apply and_then_inv in E as (s2 & E2 & E).
  apply and_then_inv in E as (s3 & E3 & E4). apply and_then_inv in E1 as ([x1 d1] & P1 & [= <-]). apply and_then_inv in E2 as ([x2 d2] & P2 & [= <-]).
  apply pick_sid_valid in P1; [|apply Ho|intros y e (c & Ec & Ey)%fmap_Some; apply (proj1 (Hvalid c Ec)); by rewrite <- Ey].
  apply pick_sid_valid in P2; [|apply Hg|intros y e (c & Ec & Ey)%fmap_Some; apply (proj2 (Hvalid c Ec)); by rewrite <- Ey].
  unfold store_dacl in E3. destruct (make_dacl _ _ _ _ _ _ _ _ _) as [[[st3 a3] d3]|]; [|done]. cbn in E3. destruct (is_ok st3); [|done]. injection E3 as _ <-.
  unfold store_sacl in E4. destruct (make_sacl _ _ _ _ _ _ _ _) as [[[st4 a4] d4]|]; [|done]. cbn in E4. destruct (is_ok st4); [|done]. injection E4 as _ <-.
  split; cbn; intros x [= <-]; done.
Qed.

(** C24: [RtlCreatePrivateObjectSecurityEx] returns the self-relative form of the
    descriptor that the specification [new_object_spec] makes of the descriptors
    of the parent and of the creator and of the token (owner and group, the DACL
    and SACL by protection, inheritance or the default DACL of the token, and the
    control bits), in a block of exactly its size; or the exact error status,
    with nothing returned; it follows a null pointer exactly where the
    specification says so. *)
Theorem RtlCreatePrivateObjectSecurityEx_refines :
  let r := RtlCreatePrivateObjectSecurityEx malloc pp pc true container flags (Some T) (Some gm) stack in
  match new_object_spec malloc ts owner group dacl gm sp sc container flags with
  | None => r = None
  | Some (st, None) => r = Some (st, None, 0)
  | Some (st, Some s) => exists b, r = Some (st, Some b, rel_size s) /\ rel_at b (map_acls fit s) /\ zlen b = rel_size s
  end.
Proof using HT Hgroups Howner Hgroup Ho Hg Hgm Hdacl Wdacl Adacl Ndacl Hp Hc Hvalid Kd Ks Hstack.
  intros r. subst r. unfold RtlCreatePrivateObjectSecurityEx, new_object_spec. cbn [negb]. rewrite andb_false_r.
  pose proof (optional_absolute_at pp sp Hp) as Ep. destruct (memory_given malloc sp); [|by rewrite Ep]. destruct Ep as (parent & -> & Hpar). okstep.
  pose proof (optional_absolute_at pc sc Hc) as Ec. destruct (memory_given malloc sc); [|by rewrite Ec]. destruct Ec as (creator & -> & Hcre). okstep.
  cbn [andb]. unfold RTL_ALLOCATE. destruct (malloc sizeof_SECURITY_DESCRIPTOR_ABSOLUTE); [|done]. okstep.
  pose proof (make_object_sd_refines parent creator sp sc container flags Hpar Hcre Kd Ks stack Hstack) as Hr.
  pose proof object_sids_valid as Hsv.
  destruct Hr as [[st sd] [st' o] [E Ho']|]; [|done]. cbn [fst snd] in *. subst st'. bsimpl. unfold and_then. bsimpl.
  destruct o as [s|]; [|by rewrite Ho']. destruct Ho' as [Est Hsd]. rewrite Est. bsimpl. cbn [negb]. specialize (Hsv st s eq_refl).
  destruct (size_used_at sd s Hsd Hsv) as [_ Hsize].
  rewrite (absolute_to_relative_at sd s None 0) by (done || lia). destruct (Z.ltb_spec 0 (rel_size s)); [|lia]. bsimpl.
  rewrite bool_decide_eq_true_2 by done. destruct (malloc (rel_size s)); [|done]. okstep.
  pose proof (written_at sd s (zeros (rel_size s - 20)) (rel_size s) Hsd Hsv) as Hw. rewrite <- zeros_split in Hw by lia.
  rewrite zlen_zeros in Hw by lia. unfold writes_relative in Hw. rewrite Z.ltb_irrefl in Hw. destruct Hw as (b & -> & Hb & Hzb); [lia|lia|].
  okstep. exists b. split; [done|]. split; [done|]. by rewrite zlen_zeros in Hzb by lia.
Qed.
End New.
End Refine.

(** * Concrete inputs *)

#[local] Existing Instance demo_host.
#[local] Existing Instance demo_layout.

(** The descriptor given both as the parent's and as the creator's. *)
Definition demo_given : sd_spec := map_acls fit demo_spec.

Definition demo_new_object : sd_spec :=
  mk_view (Some sid_domain, true) (Some sid_domain, false) (Some (Some (mk_acl_spec 2 496 demo_child), false)) None SE_DACL_AUTO_INHERITED 0.

Lemma demo_given_ok : acls_ok (parent_dacl (Some demo_given) SEF_DACL_AUTO_INHERIT) (creator_dacl (Some demo_given)) /\
  acls_ok (parent_sacl (Some demo_given) SEF_DACL_AUTO_INHERIT) (creator_sacl (Some demo_given)).
Proof. split; (split; [|split]); [apply demo_addable|apply demo_addable|done|apply opt_aces_none|apply opt_aces_none|done]. Qed.

Lemma demo_default_wf a : Some demo_acl = Some a -> acl_spec_wf a.
Proof. intros [= <-]. apply demo_acl_at. Qed.

Lemma RtlCreatePrivateObjectSecurityEx_refines_witness :
  exists b, RtlCreatePrivateObjectSecurityEx (fun _ => true) (Some demo_object) (Some demo_object) true true SEF_DACL_AUTO_INHERIT
              (Some demo_creator) (Some file_mapping) (fun _ => demo_locals) = Some (STATUS_SUCCESS, Some b, zlen b) /\
            rel_at b (map_acls fit demo_new_object).
Proof.
  pose proof (RtlCreatePrivateObjectSecurityEx_refines (fun _ => true) demo_creator demo_creator_ts demo_creator_repr eq_refl sid_domain sid_admins
    eq_refl eq_refl (demo_good sid_domain ltac:(set_solver)) (demo_good sid_admins ltac:(set_solver)) file_mapping file_mapping_ok
    (Some demo_acl) eq_refl demo_default_wf demo_addable eq_refl (Some demo_object) (Some demo_object) (Some demo_given) (Some demo_given)
    (Some_Forall2 _ _ _ demo_object_at) (Some_Forall2 _ _ _ demo_object_at) ltac:(intros c [= <-]; exact demo_object_valid) true SEF_DACL_AUTO_INHERIT
    (proj1 demo_given_ok) (proj2 demo_given_ok) (fun _ => demo_locals) (fun _ => demo_locals_ok)) as Q.
  cbv zeta in Q. replace (new_object_spec _ _ _ _ _ _ _ _ _ _) with (Some (STATUS_SUCCESS, Some demo_new_object)) in Q by (by vm_compute).
  destruct Q as (b & E & Hb & Hz). exists b. rewrite Hz. split; [exact E|exact Hb].
Defined.
