(* ===== verification/Text.v ===== *)
(** Text in memory: characters of one byte ([CHAR]) or two ([WCHAR], in the byte
    order of the host), null-terminated strings, and what the code uses of the C
    library to measure and print them. *)

From S2P Require Import Prelude.

(** * Characters and strings in memory *)

Inductive char_type := CHAR | WCHAR.

Definition width (t : char_type) : Z := match t with CHAR => 1 | WCHAR => 2 end.

Section Memory.
Context `{Host}.

Definition enc (t : char_type) (c : Z) : mem :=
  match t with CHAR => le_encode 1 c | WCHAR => encode host 2 c end.

(** [p[i]] and [p[i] = c]. *)
Definition ldc (t : char_type) (p : mem) (i : Z) : option Z :=
  match t with CHAR => ld8 p i | WCHAR => ld16 p (2 * i) end.
Definition stc (t : char_type) (p : mem) (i c : Z) : option mem := wr p (width t * i) (enc t c).

Definition chars (t : char_type) (cs : list Z) : mem := concat (map (enc t) cs).

(** [strlen] and [wc16slen]: the first null character. A turn of the loop either
    ends it or moves on within the object, so that one turn more than the object
    has bytes is enough. *)
Fixpoint slen (t : char_type) (n : nat) (i : Z) (p : mem) : option Z :=
  match n with
  | O => None
  | S n' => c ← ldc t p i; if c =? 0 then Some i else slen t n' (i + 1) p
  end.
Definition strlen (t : char_type) (p : mem) : option Z := slen t (S (length p)) 0 p.

Definition char_ok (t : char_type) (c : Z) : Prop := 0 <= c < 256 ^ width t.
Definition text (t : char_type) (cs : list Z) : Prop := Forall (fun c => 0 < c < 256 ^ width t) cs.

(** [p] points to the null-terminated string [cs]. *)
Definition cstr (t : char_type) (p : mem) (cs : list Z) : Prop :=
  text t cs /\ exists rest, p = chars t (cs ++ [0]) ++ rest.
End Memory.

Arguments ldc {_} : simpl never.
Arguments stc {_} : simpl never.
Arguments chars {_} : simpl never.
Arguments enc {_} : simpl never.

(** * Numbers as text *)

(** [%u]. Ten digits are enough for 32 bits. *)
Fixpoint dec_digits (n : nat) (v : Z) (acc : list Z) : list Z :=
  match n with
  | O => acc
  | S n' => let acc := 48 + v mod 10 :: acc in if v <? 10 then acc else dec_digits n' (v / 10) acc
  end.
Definition format_u (v : Z) : list Z := dec_digits 10 v [].

(** [%.2X] of a byte. *)
Definition hex_digit (d : Z) : Z := if d <? 10 then 48 + d else 55 + d.
Definition format_2X (v : Z) : list Z := [hex_digit (v / 16); hex_digit (v mod 16)].

(** [snprintf(p + off, size, ...)] where the format expands to [out]: what fits
    is stored and terminated, the result is the length of the whole. *)
Definition snprintf (p : mem) (off size : Z) (out : list Z) : option (mem * Z) :=
  if size =? 0 then Some (p, zlen out)
  else p ← wr p off (take (Z.to_nat (size - 1)) out ++ [0]); Some (p, zlen out).

(** The value of a string of decimal digits. *)
Definition digit (c : Z) : bool := (48 <=? c) && (c <=? 57).
Definition dec_value (v : Z) (ds : list Z) : Z := fold_left (fun v c => v * 10 + (c - 48)) ds v.

(** * Lemmas *)

Section Lemmas.
Context `{Host} (t : char_type).

Lemma width_pos : 0 < width t.
Proof. by destruct t. Qed.

Lemma zlen_enc c : zlen (enc t c) = width t.
Proof. unfold enc. destruct t; cbn [width]; [apply (zlen_le_encode 1)|apply (zlen_encode _ 2)]. Qed.

Lemma chars_nil : chars t [] = [].
Proof. done. Qed.

Lemma chars_cons c cs : chars t (c :: cs) = enc t c ++ chars t cs.
Proof. done. Qed.

Lemma chars_app a b : chars t (a ++ b) = chars t a ++ chars t b.
Proof. unfold chars. by rewrite map_app, concat_app. Qed.

Lemma zlen_chars cs : zlen (chars t cs) = width t * zlen cs.
Proof.
  induction cs as [|c cs IH]; [rewrite chars_nil, zlen_nil; lia|].
  rewrite chars_cons, zlen_app, zlen_enc, IH, zlen_cons. lia.
Qed.

Lemma text_ok cs : text t cs -> Forall (char_ok t) cs.
Proof. intros Ht. eapply Forall_impl; [exact Ht|]. intros c. unfold char_ok. lia. Qed.

Lemma ldc_at a c r : char_ok t c -> ldc t (chars t a ++ enc t c ++ r) (zlen a) = Some c.
Proof.
  intros Hc. pose proof (zlen_chars a) as Ha. revert Hc Ha. unfold ldc, char_ok. destruct t; cbn [width]; unfold enc; intros Hc Ha.
  - unfold ld8. rewrite (rd_at _ (le_encode 1 c)) by (rewrite ?(zlen_le_encode 1); lia). cbn [fmap option_fmap option_map]. by rewrite le_decode_encode.
  - unfold ld16. rewrite (rd_at _ (encode host 2 c)) by (rewrite ?(zlen_encode _ 2); lia). cbn [fmap option_fmap option_map]. by rewrite decode_encode.
Qed.

Lemma ldc_lookup cs r (i : nat) c : Forall (char_ok t) cs -> cs !! i = Some c -> ldc t (chars t cs ++ r) (Z.of_nat i) = Some c.
Proof.
  intros Hok Hi. pose proof (Forall_lookup_1 _ _ _ _ Hok Hi) as Hc. apply list_elem_of_split_length in Hi as (a & b & -> & ->).
  rewrite chars_app, chars_cons, <- !app_assoc. by apply ldc_at.
Qed.

Lemma padd_chars a b : padd (chars t a ++ b) (width t * zlen a) = b.
Proof. unfold padd. apply drop_app_length'. pose proof (zlen_chars a). unfold zlen in *. lia. Qed.

Lemma stc_at a x c r : zlen x = width t -> stc t (chars t a ++ x ++ r) (zlen a) c = Some (chars t a ++ enc t c ++ r).
Proof. intros Hx. unfold stc. apply wr_at; [by rewrite zlen_chars|by rewrite zlen_enc]. Qed.

Lemma slen_from all rest k : Forall (char_ok t) all -> all !! k = Some 0 -> forall n i, (i <= k < i + n)%nat ->
  (forall j c, (i <= j < k)%nat -> all !! j = Some c -> c <> 0) -> slen t n (Z.of_nat i) (chars t all ++ rest) = Some (Z.of_nat k).
Proof.
  intros Hok Hk. induction n as [|n IH]; intros i Hi Hnz; [lia|]. cbn [slen].
  destruct (decide (i = k)) as [->|Hne]; [by rewrite (ldc_lookup _ _ _ 0)|].
  destruct (lookup_lt_is_Some_2 all i) as [c Hc]; [apply lookup_lt_Some in Hk; lia|].
  rewrite (ldc_lookup _ _ _ c) by done. bsimpl. destruct (Z.eqb_spec c 0) as [->|_]; [by destruct (Hnz i 0); [lia|done|]|].
  replace (Z.of_nat i + 1) with (Z.of_nat (S i)) by lia. apply IH; [lia|]. intros j d Hj. apply Hnz. lia.
Qed.

Lemma char_ok_0 : char_ok t 0.
Proof. unfold char_ok. destruct t; cbn; lia. Qed.

Lemma text_term cs : text t cs -> Forall (char_ok t) (cs ++ [0]).
Proof. intros Ht. apply Forall_app_2; [by apply text_ok|]. constructor; [apply char_ok_0|constructor]. Qed.

Lemma strlen_at p cs : cstr t p cs -> strlen t p = Some (zlen cs).
Proof.
  intros (Ht & rest & ->). apply (slen_from (cs ++ [0]) rest (length cs)) with (i := O).
  - by apply text_term.
  - by rewrite lookup_app_r, Nat.sub_diag by lia.
  - pose proof (zlen_chars (cs ++ [0])) as Hz. pose proof width_pos as Hw. rewrite zlen_app in Hz. change (zlen [0]) with 1 in Hz.
    rewrite length_app. unfold zlen in Hz. nia.
  - intros j c Hj Hc. rewrite lookup_app_l in Hc by lia. pose proof (Forall_lookup_1 _ _ _ _ Ht Hc) as Hb. cbv beta in Hb. lia.
Qed.
Lemma chars_split_at pre c r rest : chars t (pre ++ c :: r) ++ rest = chars t pre ++ enc t c ++ chars t r ++ rest.
Proof. by rewrite chars_app, chars_cons, <- !app_assoc. Qed.

Lemma width_num cs : width t * zlen cs / width t = zlen cs.
Proof. rewrite Z.mul_comm. apply Z.div_mul. pose proof width_pos. lia. Qed.
End Lemmas.

Lemma chars_CHAR `{Host} cs : Forall (fun c => 0 <= c < 256) cs -> chars CHAR cs = cs.
Proof.
  induction 1 as [|c cs Hc Hcs IH]; [done|]. rewrite chars_cons, IH. unfold enc. cbn. by rewrite Z.mod_small.
Qed.

(** ** Numbers *)

Lemma dec_value_app v a b : dec_value v (a ++ b) = dec_value (dec_value v a) b.
Proof. apply fold_left_app. Qed.

Lemma dec_digits_spec n : forall k v acc, (1 <= k <= n)%nat -> 0 <= v < 10 ^ Z.of_nat k ->
  exists ds, dec_digits n v acc = ds ++ acc /\ (1 <= length ds <= k)%nat /\ forallb digit ds = true /\ dec_value 0 ds = v.
Proof.
  induction n as [|n IH]; intros k v acc Hk Hv; [lia|]. cbn [dec_digits]. pose proof (Z.mod_pos_bound v 10) as Hm.
  assert (Hd : digit (48 + v mod 10) = true) by (unfold digit; rewrite andb_true_iff, !Z.leb_le; lia).
  destruct (Z.ltb_spec v 10).
  - exists [48 + v mod 10]. cbn. rewrite Hd. split_and!; [done|lia|lia|done|]. rewrite Z.mod_small; lia.
  - destruct k as [|[|k]]; [lia|rewrite Z.pow_1_r in Hv; lia|].
    destruct (IH (S k) (v / 10) (48 + v mod 10 :: acc)) as (ds & -> & Hl & Hds & Hval); [lia|split; [apply Z.div_pos; lia|]|].
    { apply Z.div_lt_upper_bound; [lia|]. replace (10 * 10 ^ Z.of_nat (S k)) with (10 ^ Z.of_nat (S (S k))); [lia|]. rewrite (Nat2Z.inj_succ (S k)), Z.pow_succ_r; lia. }
    exists (ds ++ [48 + v mod 10]). rewrite <- app_assoc, length_app, forallb_app, Hds, dec_value_app, Hval. cbn. rewrite Hd.
    split_and!; [done|lia|lia|done|]. pose proof (Z.div_mod v 10). lia.
Qed.

Lemma format_u_spec k v : (1 <= k <= 10)%nat -> 0 <= v < 10 ^ Z.of_nat k ->
  (1 <= length (format_u v) <= k)%nat /\ forallb digit (format_u v) = true /\ dec_value 0 (format_u v) = v.
Proof.
  intros Hk Hv. destruct (dec_digits_spec 10 k v []) as (ds & E & Hl & Hd & Hval); [done..|].
  unfold format_u. rewrite E, app_nil_r. done.
Qed.

Lemma snprintf_at pre old post out off size : off = zlen pre -> zlen old = zlen out + 1 -> zlen out < size ->
  snprintf (pre ++ old ++ post) off size out = Some (pre ++ (out ++ [0]) ++ post, zlen out).
Proof.
  intros -> Ho Hs. unfold snprintf. pose proof (zlen_nonneg out). destruct (Z.eqb_spec size 0); [lia|].
  rewrite take_ge by (unfold zlen in *; lia). rewrite wr_at; [done|done|]. rewrite zlen_app. change (zlen [0]) with 1. lia.
Qed.

Lemma digit_char t ds : forallb digit ds = true -> text t ds.
Proof.
  intros Hd. apply Forall_forall. intros c Hc.
  assert (Hx : digit c = true) by (apply (proj1 (forallb_forall digit ds)); [done|by apply list_elem_of_In]).
  unfold digit in Hx. bool_hyps. destruct t; cbn; lia.
Qed.

Lemma hex_digit_char d : 0 <= d < 16 -> 0 < hex_digit d < 128.
Proof. unfold hex_digit. intros. destruct (Z.ltb_spec d 10); lia. Qed.
