(* ===== verification/Wc16Str.v ===== *)
(** Strings of 16-bit characters: [lwbase/src/wc16str.c] but for the conversions to
    multibyte strings. What the C library does depending on the locale (case
    conversion, [iconv], [mbstowcs]) is the parameter [Locale]. *)

From S2P Require Import Prelude Text.

(** * The locale *)

(** [iconv_from_mb input room] is [iconv] from the encoding of the locale to 16-bit
    characters on all of [input] with [room] bytes of output: whether it reported
    no error, and what it wrote; [None] when [iconv_open] fails. [mbstrlen] is
    [mbstowcs(NULL, s, 0)], [None] for its error. *)
Class Locale := {
  towupper : Z -> Z;
  towlower : Z -> Z;
  tolower : Z -> Z;
  toupper : Z -> Z;
  mbstrlen : list Z -> option Z;
  iconv_from_mb : list Z -> Z -> option (bool * mem)
}.

(** * Operations *)

Section Operations.
Context `{Host}.

Definition get_digit_in_base (c base : Z) : Z :=
  let digit :=
    if (48 <=? c) && (c <=? 57) then c - 48
    else if (97 <=? c) && (c <=? 122) then c - 97 + 10
    else if (65 <=? c) && (c <=? 90) then c - 65 + 10
    else -1 in
  if base <=? digit then -1 else digit.

(** [NULL] has length 0. *)
Definition wc16slen (str : ptr) : option Z :=
  match str with None => Some 0 | Some p => strlen WCHAR p end.

Fixpoint snlen_loop (n : nat) (i : Z) (str : mem) : option Z :=
  match n with
  | O => Some i
  | S n' => c ← ldc WCHAR str i; if c =? 0 then Some i else snlen_loop n' (i + 1) str
  end.
Definition wc16snlen (str : mem) (n : Z) : option Z := snlen_loop (Z.to_nat n) 0 str.

(** The destination as it is after the copy; [None] inside for a null result. *)
Definition wc16scpy (dst src : ptr) : option ptr :=
  match dst, src with
  | Some d, Some s =>
      len ← wc16slen src;
      bs ← rd s 0 ((len + 1) * 2);
      d ← wr d 0 bs;
      Some (Some d)
  | _, _ => Some None
  end.

(** [fresh n] is the block of [n] bytes that [malloc] returns, with the contents
    it happens to have. *)
Definition wc16sdup (fresh : Z -> ptr) (str : ptr) : option ptr :=
  match str with
  | None => Some None
  | Some s =>
      len ← wc16slen str;
      let size := (len + 1) * 2 in
      match fresh size with
      | None => Some None
      | Some out => bs ← rd s 0 size; out ← wr out 0 bs; Some (Some out)
      end
  end.

Definition wc16sndup (fresh : Z -> ptr) (str : ptr) (max_characters : Z) : option ptr :=
  match str with
  | None => Some None
  | Some s =>
      len ← snlen_loop (Z.to_nat max_characters) 0 s;
      match fresh ((len + 1) * 2) with
      | None => Some None
      | Some out =>
          bs ← rd s 0 (len * 2);
          out ← wr out 0 bs;
          out ← stc WCHAR out len 0;
          Some (Some out)
      end
  end.

(** The copies return the destination and the index the result points to. *)
Fixpoint sncpy_loop (n : nat) (i : Z) (dest src : mem) : option (mem * Z) :=
  match n with
  | O => Some (dest, i)
  | S n' =>
      c ← ldc WCHAR src i;
      dest ← stc WCHAR dest i c;
      if c =? 0 then Some (dest, i) else sncpy_loop n' (i + 1) dest src
  end.
Definition wc16sncpy (dest src : mem) (n : Z) : option (mem * Z) := sncpy_loop (Z.to_nat n) 0 dest src.

Fixpoint pncpy_loop (n : nat) (i : Z) (dest src : mem) : option (mem * Z) :=
  match n with
  | O => Some (dest, i)
  | S n' =>
      c ← ldc WCHAR src i;
      dest ← stc WCHAR dest i c;
      if (c =? 0) || match n' with O => true | _ => false end then Some (dest, i)
      else pncpy_loop n' (i + 1) dest src
  end.
Definition wc16pncpy (dest src : mem) (n : Z) : option (mem * Z) :=
  if n =? 0 then Some (dest, 0) else pncpy_loop (Z.to_nat n) 0 dest src.

Fixpoint w16memset_loop (n : nat) (i fill : Z) (dest : mem) : option mem :=
  match n with
  | O => Some dest
  | S n' => dest ← stc WCHAR dest i fill; w16memset_loop n' (i + 1) fill dest
  end.
Definition w16memset (dest : mem) (fill n : Z) : option mem := w16memset_loop (Z.to_nat n) 0 fill dest.

Definition wc16oncpy (dest src : mem) (n : Z) : option (mem * Z) :=
  '(dest, diff, done) ←
    (if n =? 0 then Some (dest, 0, false)
     else
       '(dest, cursor) ← wc16pncpy dest src n;
       c ← ldc WCHAR dest cursor;
       Some (dest, cursor + 1, c =? 0));
  if (done : bool) then Some (dest, diff)
  else
    len ← wc16slen (Some (padd src (2 * diff)));
    Some (dest, diff + len + 1).

(** The sign of [memcmp]. *)
Fixpoint memcmp (a b : mem) : Z :=
  match a, b with
  | x :: a, y :: b => if x <? y then -1 else if y <? x then 1 else memcmp a b
  | _, _ => 0
  end.

Definition wc16sncmp (s1 s2 : ptr) (n : Z) : option Z :=
  match s1, s2 with
  | Some p1, Some p2 =>
      s1_len ← wc16slen s1;
      s2_len ← wc16slen s2;
      let s1_len := Z.min s1_len n in
      let s2_len := Z.min s2_len n in
      if negb (s1_len =? s2_len) then
        let sLenDiff := s1_len - s2_len in
        Some (if (2 ^ 31 - 1 <? sLenDiff) || (sLenDiff <? - 2 ^ 31) then if 0 <? sLenDiff then 1 else -1 else sLenDiff)
      else
        a ← rd p1 0 (s1_len * 2);
        b ← rd p2 0 (s1_len * 2);
        Some (memcmp a b)
  | _, _ => Some (-1)
  end.

(** [SIZE_MAX] is larger than any length. *)
Definition wc16scmp (s1 s2 : ptr) : option Z := wc16sncmp s1 s2 (2 ^ 64 - 1).

(** [_wc16stoull]. *)
Inductive errno_result := errno_unchanged | EINVAL | ERANGE.

Fixpoint stoull_loop (n : nat) (i result : Z) (bOverflowed : bool) (base : Z) (input : mem) : option (Z * Z * bool) :=
  match n with
  | O => None
  | S n' =>
      c ← ldc WCHAR input i;
      let digit := get_digit_in_base c base in
      if digit <? 0 then Some (i, result, bOverflowed)
      else
        let old_result := result in
        let result := u64 (u64 (result * base) + digit) in
        stoull_loop n' (i + 1) result (bOverflowed || (result <? old_result)) base input
  end.

(** The base that a prefix gives when none is asked for, and where the digits
    start. *)
Definition stoull_base (input : mem) (base i : Z) : option (Z * Z) :=
  if negb (base =? 0) then Some (base, i)
  else
    let p := padd input (2 * i) in
    hex ← wc16sncmp (Some p) (Some (chars WCHAR [48; 120; 0])) 2;
    is_hex ← (if hex =? 0 then c ← ldc WCHAR p 2; Some (0 <=? get_digit_in_base c 16) else Some false);
    if (is_hex : bool) then Some (16, i + 2)
    else
      octal ← wc16sncmp (Some p) (Some (chars WCHAR [48; 0])) 1;
      is_octal ← (if octal =? 0 then c ← ldc WCHAR p 1; Some (0 <=? get_digit_in_base c 8) else Some false);
      if (is_octal : bool) then Some (8, i + 1) else Some (10, i).

(** The value, the index [*end] is set to (when it is) and [errno]. Negating the
    smallest [long long] is undefined. *)
Definition wc16stoull (input : mem) (base : Z) : option (Z * option Z * errno_result) :=
  if (base <? 0) || (base =? 1) || (36 <? base) then Some (0, None, EINVAL)
  else
    c ← ldc WCHAR input 0;
    bNegate ← (if c =? 45 then d ← ldc WCHAR input 1; Some (0 <=? get_digit_in_base d (if base =? 0 then 10 else base)) else Some false);
    '(base, i) ← stoull_base input base (if (bNegate : bool) then 1 else 0);
    '(i, result, bOverflowed) ← stoull_loop (S (length input)) i 0 false base input;
    if (bOverflowed : bool) then Some (2 ^ 64 - 1, Some i, ERANGE)
    else if (bNegate : bool) then if result =? 2 ^ 63 then None else Some (u64 (- result), Some i, errno_unchanged)
    else Some (result, Some i, errno_unchanged).

(** [swab] on a big-endian host, a copy on a little-endian one. *)
Fixpoint swab (bs : mem) : mem :=
  match bs with a :: b :: r => b :: a :: swab r | _ => [] end.

Definition to_le_units (bs : mem) : mem := match host with BigEndian => swab bs | LittleEndian => bs end.

Definition wc16stowc16les (dest src : mem) (cchcopy : Z) : option (mem * Z) :=
  cbout ← wc16snlen src cchcopy;
  let cbout := if cbout <? cchcopy then cbout + 1 else cbout in
  bs ← rd src 0 (cbout * 2);
  dest ← wr dest 0 (to_le_units bs);
  last ← (if 0 <? cbout then ldc WCHAR src (cbout - 1) else Some 1);
  Some (dest, if last =? 0 then cbout - 1 else cbout).

Definition wc16lestowc16s (dest src : mem) (cchcopy : Z) : option (mem * Z) := wc16stowc16les dest src cchcopy.

Section Locale.
Context `{Locale}.

(** [-1] stands for [(size_t)-1]. *)
Definition mbstowc16s (dest src : mem) (cchcopy : Z) : option (mem * Z) :=
  cbin ← strlen CHAR src;
  input ← rd src 0 cbin;
  match iconv_from_mb input (cchcopy * 2) with
  | None => Some (dest, -1)
  | Some (ok, out) =>
      dest ← wr dest 0 out;
      let cbout := cchcopy * 2 - zlen out in
      dest ← (if 2 <=? cbout then wr dest (zlen out) (enc WCHAR 0) else Some dest);
      if negb ok && negb (cbout =? 0) then Some (dest, -1)
      else Some (dest, cchcopy - cbout / 2)
  end.

Definition ambstowc16s (fresh : Z -> ptr) (input : ptr) : option ptr :=
  match input with
  | None => Some None
  | Some src =>
      len ← strlen CHAR src;
      s ← rd src 0 len;
      match mbstrlen s with
      | None => Some None
      | Some cchlen =>
          match fresh ((cchlen + 1) * 2) with
          | None => Some None
          | Some buffer =>
              '(buffer, count) ← mbstowc16s buffer src (cchlen + 1);
              if count =? cchlen then Some (Some buffer) else Some None
          end
      end
  end.

Fixpoint caseconv_loop (fconv : Z -> Z) (n : nat) (i : Z) (s : mem) : option mem :=
  match n with
  | O => Some s
  | S n' => c ← ldc WCHAR s i; s ← stc WCHAR s i (u16 (fconv c)); caseconv_loop fconv n' (i + 1) s
  end.
Definition wc16scaseconv (fconv : Z -> Z) (s : ptr) : option ptr :=
  match s with
  | None => Some None
  | Some p => len ← wc16slen s; p ← caseconv_loop fconv (Z.to_nat len) 0 p; Some (Some p)
  end.
Definition wc16supper (s : ptr) : option ptr := wc16scaseconv towupper s.
Definition wc16slower (s : ptr) : option ptr := wc16scaseconv towlower s.
End Locale.
End Operations.
