(* ===== verification/RtlString.v ===== *)
(** Counted and null-terminated strings: [lwbase/src/rtlstring_ansi.c],
    [rtlstring_unicode.c], [rtlstring_cstring.c] and [rtlstring_wc16string.c], but
    for the functions that format or convert to multibyte strings. The functions
    on [ANSI_STRING] and on [UNICODE_STRING] that differ only in the type of the
    characters are instances of one definition. *)

From S2P Require Import Prelude SecurityTypes Text Wc16Str.

(** * Data *)

(** [ANSI_STRING] and [UNICODE_STRING]; the lengths are [USHORT], in bytes. *)
Record STRING := mk_string {
  str_Length : Z;
  str_MaximumLength : Z;
  str_Buffer : ptr
}.

Definition null_string : STRING := mk_string 0 0 None.

(** [LW_ANSI_STRING_MAX_CHARS] and [LW_UNICODE_STRING_MAX_CHARS]. *)
Definition STRING_MAX_CHARS (t : char_type) : Z := match t with CHAR => 65535 | WCHAR => 65535 / 2 end.

Definition LwRtlIsDecimalDigit (c : Z) : bool := (48 <=? c) && (c <=? 57).
Definition LwRtlDecimalDigitValue (c : Z) : Z := c - 48.
Definition LW_RTL_STRING_NUM_CHARS (t : char_type) (s : STRING) : Z := str_Length s / width t.

(** [char] is signed. *)
Definition s8 (c : Z) : Z := (c + 2 ^ 7) mod 2 ^ 8 - 2 ^ 7.

(** * Operations *)

Section Operations.
Context `{Host}.

(** [LwRtlMemoryAllocate]: no block of no bytes. *)
Definition LwRtlMemoryAllocate (malloc : Z -> ptr) (Size : Z) (Clear : bool) : ptr :=
  if Size <=? 0 then None else p ← malloc Size; Some (if Clear then zeros Size else p).

Definition allocate_status (p : ptr) : NTSTATUS :=
  match p with Some _ => STATUS_SUCCESS | None => STATUS_INSUFFICIENT_RESOURCES end.

Definition LW_RTL_STRING_IS_NULL_TERMINATED (t : char_type) (String : option STRING) : option bool :=
  match String with
  | None => Some false
  | Some s =>
      match str_Buffer s with
      | None => Some false
      | Some b =>
          if str_Length s <? str_MaximumLength s
          then c ← ldc t b (LW_RTL_STRING_NUM_CHARS t s); Some (c =? 0)
          else Some false
      end
  end.

Section Counted.
Context (t : char_type).

Definition optional_strlen (SourceString : ptr) : option Z :=
  match SourceString with Some p => strlen t p | None => Some 0 end.

Definition string_of (SourceString : ptr) (length : Z) : STRING :=
  let Length := u16 (length * width t) in mk_string Length (u16 (Length + width t)) SourceString.

Definition StringInit (SourceString : ptr) : option STRING :=
  length ← optional_strlen SourceString; Some (string_of SourceString (Z.min length (STRING_MAX_CHARS t))).

Definition StringInitEx (SourceString : ptr) : option (NTSTATUS * STRING) :=
  length ← optional_strlen SourceString;
  Some (if STRING_MAX_CHARS t <? length then (STATUS_INVALID_PARAMETER, null_string)
        else (STATUS_SUCCESS, string_of SourceString length)).

(** [pNewString] tells whether the output pointer is non-null. *)
Definition StringDuplicate (malloc : Z -> ptr) (pNewString : bool) (pOriginalString : option STRING) : option (NTSTATUS * STRING) :=
  match pOriginalString with
  | None => Some (STATUS_INVALID_PARAMETER, null_string)
  | Some o =>
      if negb pNewString then Some (STATUS_INVALID_PARAMETER, null_string)
      else
        match str_Buffer o with
        | Some b =>
            if 0 <? str_Length o then
              let MaximumLength := u16 (str_Length o + width t) in
              match LwRtlMemoryAllocate malloc MaximumLength true with
              | None => Some (STATUS_INSUFFICIENT_RESOURCES, null_string)
              | Some n =>
                  bs ← rd b 0 (str_Length o);
                  n ← wr n 0 bs;
                  n ← stc t n (str_Length o / width t) 0;
                  Some (STATUS_SUCCESS, mk_string (str_Length o) MaximumLength (Some n))
              end
            else Some (STATUS_SUCCESS, null_string)
        | None => Some (STATUS_SUCCESS, null_string)
        end
  end.

(** The buffer is freed. *)
Definition StringFree (pString : STRING) : STRING := null_string.

(** A prefix has the length of the string it is compared with; [IsEqual] is the
    comparison of the type. *)
Definition StringIsPrefix (IsEqual : STRING -> STRING -> bool -> option bool) (pPrefix pString : STRING) (bIsCaseSensitive : bool) : option bool :=
  if str_Length pString <? str_Length pPrefix then Some false
  else IsEqual pPrefix (mk_string (str_Length pPrefix) (str_Length pPrefix) (str_Buffer pString)) bIsCaseSensitive.

(** The loop of [ParseULONG] over [n] more characters: the status, the index and
    the value. *)
Fixpoint parse_digits (n : nat) (index value : Z) (Buffer : ptr) : option (NTSTATUS * Z * Z) :=
  match n with
  | O => Some (STATUS_SUCCESS, index, value)
  | S n' =>
      b ← Buffer;
      c ← ldc t b index;
      if LwRtlIsDecimalDigit c then
        let value := u64 (value * 10 + LwRtlDecimalDigitValue c) in
        if 0xFFFFFFFF <? value then Some (STATUS_INTEGER_OVERFLOW, index, value)
        else parse_digits n' (index + 1) value Buffer
      else Some (STATUS_SUCCESS, index, value)
  end.

Definition StringParseULONG (pString : option STRING) : option (NTSTATUS * Z * STRING) :=
  match pString with
  | None => Some (STATUS_INVALID_PARAMETER, 0, null_string)
  | Some s =>
      let numChars := LW_RTL_STRING_NUM_CHARS t s in
      '(status, index, value) ← parse_digits (Z.to_nat numChars) 0 0 (str_Buffer s);
      if negb (is_ok status) then Some (status, u32 value, s)
      else if index =? 0 then Some (STATUS_NOT_FOUND, u32 value, s)
      else
        let Length := u16 (str_Length s - width t * index) in
        Some (STATUS_SUCCESS, u32 value, mk_string Length Length (b ← str_Buffer s; Some (padd b (width t * index))))
  end.
End Counted.

Definition LwRtlAnsiStringInit := StringInit CHAR.
Definition LwRtlUnicodeStringInit := StringInit WCHAR.
Definition LwRtlAnsiStringInitEx := StringInitEx CHAR.
Definition LwRtlUnicodeStringInitEx := StringInitEx WCHAR.
Definition LwRtlAnsiStringDuplicate := StringDuplicate CHAR.
Definition LwRtlUnicodeStringDuplicate := StringDuplicate WCHAR.
Definition LwRtlAnsiStringFree := StringFree.
Definition LwRtlUnicodeStringFree := StringFree.
Definition LwRtlAnsiStringParseULONG := StringParseULONG CHAR.
Definition LwRtlUnicodeStringParseULONG := StringParseULONG WCHAR.

Definition LwRtlCStringDuplicate (malloc : Z -> ptr) (pszOriginalString : ptr) : option (NTSTATUS * ptr) :=
  match pszOriginalString with
  | None => Some (STATUS_INVALID_PARAMETER, None)
  | Some s =>
      length ← strlen CHAR s;
      let size := (length + 1) * 1 in
      match LwRtlMemoryAllocate malloc size false with
      | None => Some (STATUS_INSUFFICIENT_RESOURCES, None)
      | Some n => bs ← rd s 0 size; n ← wr n 0 bs; Some (STATUS_SUCCESS, Some n)
      end
  end.

Definition LwRtlWC16StringNumChars (pszString : ptr) : option Z := wc16slen pszString.

Definition LwRtlWC16StringDuplicate (malloc : Z -> ptr) (pszOriginalString : ptr) : option (NTSTATUS * ptr) :=
  match pszOriginalString with
  | None => Some (STATUS_INVALID_PARAMETER, None)
  | Some s =>
      length ← LwRtlWC16StringNumChars pszOriginalString;
      let size := (length + 1) * 2 in
      match LwRtlMemoryAllocate malloc size true with
      | None => Some (STATUS_INSUFFICIENT_RESOURCES, None)
      | Some n => bs ← rd s 0 size; n ← wr n 0 bs; Some (STATUS_SUCCESS, Some n)
      end
  end.

Definition LwRtlAnsiStringAllocateFromCString (malloc : Z -> ptr) (pszString : ptr) : option (NTSTATUS * STRING) :=
  '(status, pszNewString) ← LwRtlCStringDuplicate malloc pszString;
  if negb (is_ok status) then Some (status, null_string)
  else
    '(status, newString) ← LwRtlAnsiStringInitEx pszNewString;
    Some (status, if is_ok status then newString else null_string).

(** The length is not checked: it wraps around at 16 bits. *)
Definition unicode_of (pszNewString : ptr) : option STRING :=
  length ← wc16slen pszNewString;
  let Length := u16 (length * 2) in Some (mk_string Length (u16 (Length + 2)) pszNewString).

Definition LwRtlUnicodeStringAllocateFromWC16String (malloc : Z -> ptr) (pszString : ptr) : option (NTSTATUS * STRING) :=
  '(status, pszNewString) ← LwRtlWC16StringDuplicate malloc pszString;
  if negb (is_ok status) then Some (status, null_string)
  else s ← unicode_of pszNewString; Some (STATUS_SUCCESS, s).

Definition LwRtlWC16StringAllocateFromUnicodeString (malloc : Z -> ptr) (pOriginalString : option STRING) : option (NTSTATUS * ptr) :=
  '(status, s) ← LwRtlUnicodeStringDuplicate malloc true pOriginalString;
  Some (status, if is_ok status then str_Buffer s else None).

(** [strncmp(...) == 0] and its kin, on [n] characters compared after [f]. *)
Fixpoint strneq (t : char_type) (f : Z -> Z) (n : nat) (i : Z) (s1 s2 : mem) : option bool :=
  match n with
  | O => Some true
  | S n' =>
      c1 ← ldc t s1 i;
      c2 ← ldc t s2 i;
      if negb (f c1 =? f c2) then Some false
      else if c1 =? 0 then Some true
      else strneq t f n' (i + 1) s1 s2
  end.

(** The loop of [LwRtlUnicodeStringIsEqual]: it does not stop at a null. *)
Fixpoint unicode_equal (f : Z -> option Z) (n : nat) (i : Z) (s1 s2 : mem) : option bool :=
  match n with
  | O => Some true
  | S n' =>
      c1 ← ldc WCHAR s1 i;
      c2 ← ldc WCHAR s2 i;
      c1 ← f c1;
      c2 ← f c2;
      if negb (c1 =? c2) then Some false else unicode_equal f n' (i + 1) s1 s2
  end.

(** [LwRtlCStringFindSubstring] and [LwRtlWC16StringFindSubstring]: [h], [hret] and
    [nd] are indices. [same] is the test for equal characters. The loop moves on in
    the haystack at each turn. *)
Fixpoint find_loop (t : char_type) (same : Z -> Z -> bool) (n : nat) (h hret nd : Z) (pHaystack pNeedle : mem) : option (option Z) :=
  match n with
  | O => None
  | S n' =>
      let finish := c ← ldc t pNeedle nd; Some (if c =? 0 then Some hret else None) in
      ch ← ldc t pHaystack h;
      if ch =? 0 then finish
      else
        cn ← ldc t pNeedle nd;
        if cn =? 0 then finish
        else if same ch cn then find_loop t same n' (h + 1) hret (nd + 1) pHaystack pNeedle
        else find_loop t same n' (h + 1) (h + 1) 0 pHaystack pNeedle
  end.

(** [LwRtlWC16StringCompare]: the difference of the first two characters that
    differ, as an [INT16]. *)
Definition s16 (x : Z) : Z := (x + 2 ^ 15) mod 2 ^ 16 - 2 ^ 15.

Fixpoint wc16_compare (n : nat) (i : Z) (s1 s2 : mem) : option Z :=
  match n with
  | O => None
  | S n' =>
      c1 ← ldc WCHAR s1 i;
      c2 ← ldc WCHAR s2 i;
      if negb (c1 =? 0) && negb (c2 =? 0) && (c1 =? c2) then wc16_compare n' (i + 1) s1 s2
      else Some (s16 (c1 - c2))
  end.
Definition LwRtlWC16StringCompare (pString1 pString2 : mem) : option Z := wc16_compare (S (length pString1)) 0 pString1 pString2.

(** [strcmp] and [strcasecmp]: the sign of the first difference after [f]. *)
Fixpoint strcmp (f : Z -> Z) (n : nat) (i : Z) (s1 s2 : mem) : option Z :=
  match n with
  | O => None
  | S n' =>
      c1 ← ldc CHAR s1 i;
      c2 ← ldc CHAR s2 i;
      if f c1 =? f c2 then if c1 =? 0 then Some 0 else strcmp f n' (i + 1) s1 s2
      else Some (f c1 - f c2)
  end.

(** The loops of [LwRtlWC16StringIsEqual]. *)
Fixpoint wc16_equal (f : Z -> option Z) (n : nat) (i : Z) (s1 s2 : mem) : option bool :=
  match n with
  | O => None
  | S n' =>
      c1 ← ldc WCHAR s1 i;
      c2 ← ldc WCHAR s2 i;
      if negb (c1 =? 0) && negb (c2 =? 0) then
        d1 ← f c1;
        d2 ← f c2;
        if negb (d1 =? d2) then Some false else wc16_equal f n' (i + 1) s1 s2
      else Some ((c1 =? 0) && (c2 =? 0))
  end.

Section Locale.
Context `{Locale}.

(** A character converted by [wc16supper] in a string of its own. *)
Definition upper_char (c : Z) : option Z :=
  p ← wc16supper (Some (chars WCHAR [c; 0])); p ← p; ldc WCHAR p 0.

Definition fold_case (t : char_type) (c : Z) : Z := match t with CHAR => toupper (s8 c) | WCHAR => towupper c end.

Definition same_char (t : char_type) (isCaseSensitive : bool) (a b : Z) : bool :=
  (a =? b) || (negb isCaseSensitive && (fold_case t a =? fold_case t b)).

Definition FindSubstring (t : char_type) (pHaystack pNeedle : mem) (isCaseSensitive : bool) : option (option Z) :=
  find_loop t (same_char t isCaseSensitive) (S (length pHaystack)) 0 0 0 pHaystack pNeedle.
Definition LwRtlCStringFindSubstring := FindSubstring CHAR.
Definition LwRtlWC16StringFindSubstring := FindSubstring WCHAR.

Definition LwRtlAnsiStringIsEqual (pString1 pString2 : STRING) (bIsCaseSensitive : bool) : option bool :=
  if negb (str_Length pString1 =? str_Length pString2) then Some false
  else
    let n := Z.to_nat (LW_RTL_STRING_NUM_CHARS CHAR pString1) in
    match n with
    | O => Some true
    | _ => b1 ← str_Buffer pString1; b2 ← str_Buffer pString2;
           strneq CHAR (if bIsCaseSensitive then fun c => c else tolower) n 0 b1 b2
    end.

Definition LwRtlUnicodeStringIsEqual (pString1 pString2 : STRING) (bIsCaseSensitive : bool) : option bool :=
  if negb (str_Length pString1 =? str_Length pString2) then Some false
  else
    let n := Z.to_nat (str_Length pString1 / 2) in
    match n with
    | O => Some true
    | _ => b1 ← str_Buffer pString1; b2 ← str_Buffer pString2;
           unicode_equal (if bIsCaseSensitive then Some else upper_char) n 0 b1 b2
    end.

Definition LwRtlAnsiStringIsPrefix := StringIsPrefix LwRtlAnsiStringIsEqual.
Definition LwRtlUnicodeStringIsPrefix := StringIsPrefix LwRtlUnicodeStringIsEqual.

Definition LwRtlCStringCompare (pString1 pString2 : mem) (bIsCaseSensitive : bool) : option Z :=
  innerResult ← strcmp (if bIsCaseSensitive then fun c => c else tolower) (S (length pString1)) 0 pString1 pString2;
  Some (if 0 <? innerResult then 1 else if innerResult <? 0 then -1 else 0).
Definition LwRtlCStringIsEqual (pString1 pString2 : mem) (bIsCaseSensitive : bool) : option bool :=
  r ← LwRtlCStringCompare pString1 pString2 bIsCaseSensitive; Some (r =? 0).

Definition LwRtlWC16StringIsEqual (pString1 pString2 : mem) (bIsCaseSensitive : bool) : option bool :=
  wc16_equal (if bIsCaseSensitive then Some else upper_char) (S (length pString1)) 0 pString1 pString2.

(** [eilseq] tells whether [errno] is [EILSEQ] after a failure. *)
Definition LwRtlWC16StringAllocateFromCString (fresh : Z -> ptr) (eilseq : bool) (pszOriginalString : ptr) : option (NTSTATUS * ptr) :=
  match pszOriginalString with
  | None => Some (STATUS_SUCCESS, None)
  | Some _ =>
      p ← ambstowc16s fresh pszOriginalString;
      match p with
      | None => Some (if eilseq then STATUS_UNMAPPABLE_CHARACTER else STATUS_INSUFFICIENT_RESOURCES, None)
      | Some _ => Some (STATUS_SUCCESS, p)
      end
  end.

Definition LwRtlUnicodeStringAllocateFromCString (fresh : Z -> ptr) (eilseq : bool) (pszString : ptr) : option (NTSTATUS * STRING) :=
  '(status, pszNewString) ← LwRtlWC16StringAllocateFromCString fresh eilseq pszString;
  if negb (is_ok status) then Some (status, null_string)
  else s ← unicode_of pszNewString; Some (STATUS_SUCCESS, s).

Definition LwRtlUnicodeStringAllocateFromAnsiString (malloc : Z -> ptr) (eilseq : bool) (pOriginalString : option STRING) : option (NTSTATUS * STRING) :=
  terminated ← LW_RTL_STRING_IS_NULL_TERMINATED CHAR pOriginalString;
  '(status, pszTerminatedString) ←
    (if (terminated : bool) then Some (STATUS_SUCCESS, o ← pOriginalString; str_Buffer o)
     else '(status, s) ← LwRtlAnsiStringDuplicate malloc true pOriginalString; Some (status, str_Buffer s));
  if negb (is_ok status) then Some (status, null_string)
  else LwRtlUnicodeStringAllocateFromCString malloc eilseq pszTerminatedString.
End Locale.
End Operations.

(** * Specification *)

(** [S] is the counted string [cs]. *)
Definition string_at `{Host} (t : char_type) (S : STRING) (cs : list Z) : Prop :=
  Forall (char_ok t) cs /\ str_Length S = width t * zlen cs /\ str_Length S < 65536 /\ exists rest, str_Buffer S = Some (chars t cs ++ rest).
