(* ===== verification/StringOps.v ===== *)
(** Strings: what the functions of [Wc16Str] and [RtlString] do on the lists of
    characters that the strings hold. *)

From S2P Require Import Prelude SecurityTypes Text Wc16Str RtlString.

(** * Counted strings *)

Section Counted.
Context `{Host} (t : char_type).

(** Duplicating a counted string gives a new string with the same characters
    and a null after them, in a block of exactly that size; a string so long that
    the size of the copy does not fit 16 bits is refused. *)
Theorem StringDuplicate_correct malloc S cs : string_at t S cs -> cs <> [] -> (forall n, 0 < n -> malloc n <> None) ->
  StringDuplicate t malloc true (Some S) =
    Some (if str_Length S + width t <? 65536
          then (STATUS_SUCCESS, mk_string (str_Length S) (str_Length S + width t) (Some (chars t (cs ++ [0]))))
          else (STATUS_INSUFFICIENT_RESOURCES, null_string)).
Proof.
  intros (Hok & Hl & H16 & rest & Hb) Hne Hm. unfold StringDuplicate. cbn [negb]. rewrite Hb. pose proof (width_pos t) as Hw.
  assert (Hn : 0 < zlen cs) by (destruct cs; [done|rewrite zlen_cons; pose proof (zlen_nonneg cs); lia]).
  destruct (Z.ltb_spec 0 (str_Length S)); [|nia]. unfold LwRtlMemoryAllocate. destruct (Z.ltb_spec (str_Length S + width t) 65536) as [Hs|Hs].
  - unfold u16. rewrite Z.mod_small by lia. destruct (Z.leb_spec (str_Length S + width t) 0); [lia|].
    destruct (malloc (str_Length S + width t)) as [blk|] eqn:Em; [|by destruct (Hm (str_Length S + width t)); [lia|]]. bsimpl.
    rewrite rd_at_0 by (by rewrite zlen_chars). bsimpl. rewrite (zeros_cut (str_Length S + width t) (str_Length S)) by lia.
    rewrite wr_at_0 by (rewrite zlen_zeros, zlen_chars by lia; lia). bsimpl. replace (str_Length S + width t - str_Length S) with (width t) by lia.
    rewrite Hl at 1. rewrite width_num. pose proof (stc_at t cs (zeros (width t)) 0 []) as E. rewrite !app_nil_r in E. rewrite E by (apply zlen_zeros; lia). bsimpl.
    by rewrite chars_app, chars_cons, chars_nil, app_nil_r.
  - assert (E : str_Length S + width t = 65536) by (destruct t; cbn [width] in *; [lia|]; assert (str_Length S <> 65535) by lia; lia).
    unfold u16. rewrite E. done.
Qed.
End Counted.

(** Without regard to case, characters are compared after [wc16supper]. *)
Section Equal.
Context `{Host}.

Lemma unicode_equal_spec : forall l1 l2 pre1 pre2 r1 r2, zlen pre1 = zlen pre2 -> length l1 = length l2 -> Forall (char_ok WCHAR) l1 -> Forall (char_ok WCHAR) l2 ->
  unicode_equal Some (length l1) (zlen pre1) (chars WCHAR (pre1 ++ l1) ++ r1) (chars WCHAR (pre2 ++ l2) ++ r2) = Some (bool_decide (l1 = l2)).
Proof.
  induction l1 as [|c1 l1 IH]; intros [|c2 l2] pre1 pre2 r1 r2 Hp Hl H1 H2; [done..|]. cbn [length unicode_equal].
  apply Forall_cons_iff in H1 as [Hc1 H1]. apply Forall_cons_iff in H2 as [Hc2 H2].
  rewrite !chars_split_at, ldc_at by done. bsimpl. rewrite Hp, ldc_at by done. bsimpl. rewrite <- !chars_split_at.
  destruct (Z.eqb_spec c1 c2) as [->|Hne]; cbn [negb]; [|rewrite bool_decide_eq_false_2 by congruence; done].
  assert (E : zlen pre2 + 1 = zlen (pre1 ++ [c2])) by (rewrite zlen_app, zlen_cons, zlen_nil; lia). rewrite E.
  specialize (IH l2 (pre1 ++ [c2]) (pre2 ++ [c2]) r1 r2). rewrite <- !app_assoc in IH. cbn [app] in IH. rewrite IH; [|rewrite !zlen_app; lia|by injection Hl|done..].
  f_equal. apply bool_decide_ext. split; [by intros ->|by intros [= ->]].
Qed.

Lemma string_at_num S cs : string_at WCHAR S cs -> Z.to_nat (str_Length S / 2) = length cs.
Proof. intros (_ & -> & _). pose proof (width_num WCHAR cs) as E. cbn [width] in *. rewrite E. unfold zlen. lia. Qed.

Lemma LwRtlUnicodeStringIsEqual_spec `{Locale} S1 S2 cs1 cs2 : string_at WCHAR S1 cs1 -> string_at WCHAR S2 cs2 ->
  LwRtlUnicodeStringIsEqual S1 S2 true = Some (bool_decide (cs1 = cs2)).
Proof.
  intros HS1 HS2. unfold LwRtlUnicodeStringIsEqual. rewrite (string_at_num S1 cs1 HS1). destruct HS1 as (H1 & L1 & _ & r1 & B1). destruct HS2 as (H2 & L2 & _ & r2 & B2).
  rewrite L1, L2. cbn [width]. destruct (Z.eqb_spec (2 * zlen cs1) (2 * zlen cs2)) as [E|E]; cbn [negb].
  - assert (Hl : length cs1 = length cs2) by (unfold zlen in E; lia). rewrite B1, B2. bsimpl. pose proof (unicode_equal_spec cs1 cs2 [] [] r1 r2 eq_refl Hl H1 H2) as Hu.
    cbn [app] in Hu. rewrite zlen_nil in Hu. rewrite Hu. destruct (length cs1) eqn:El; [|done].
    destruct cs1, cs2; done.
  - rewrite bool_decide_eq_false_2; [done|]. intros ->. done.
Qed.

(** The case-sensitive comparisons of [UNICODE_STRING]s decide equality of the
    characters, and the prefix test decides the prefix relation. *)
Theorem unicode_comparisons_correct `{Locale} S1 S2 cs1 cs2 : string_at WCHAR S1 cs1 -> string_at WCHAR S2 cs2 ->
  LwRtlUnicodeStringIsEqual S1 S2 true = Some (bool_decide (cs1 = cs2)) /\
  LwRtlUnicodeStringIsPrefix S1 S2 true = Some (bool_decide (cs1 `prefix_of` cs2)).
Proof.
  intros HS1 HS2. split; [by apply LwRtlUnicodeStringIsEqual_spec|]. unfold LwRtlUnicodeStringIsPrefix, StringIsPrefix.
  pose proof HS1 as (H1 & L1 & S16 & _). pose proof HS2 as (H2 & L2 & _ & r2 & B2). cbn [width] in *.
  destruct (Z.ltb_spec (str_Length S2) (str_Length S1)) as [Hlt|Hge].
  - rewrite bool_decide_eq_false_2; [done|]. intros Hp%prefix_length. unfold zlen in *. lia.
  - assert (Hl : (length cs1 <= length cs2)%nat) by (unfold zlen in *; lia).
    rewrite (LwRtlUnicodeStringIsEqual_spec _ _ cs1 (take (length cs1) cs2) HS1).
    + f_equal. apply bool_decide_ext. split; [intros E; rewrite E; apply prefix_take|]. intros [k ->]. by rewrite take_app_length.
    + split; [by apply Forall_take|]. cbn [str_Length str_Buffer width]. rewrite L1. unfold zlen at 1 2. rewrite length_take, Nat.min_l by done. split; [done|]. split; [lia|].
      exists (chars WCHAR (drop (length cs1) cs2) ++ r2). by rewrite B2, app_assoc, <- chars_app, take_drop.
Qed.
End Equal.

(** * Substrings *)

Section Find.
Context `{Host} (t : char_type) (same : Z -> Z -> bool) (cs ns hr nr : list Z) (Hcs : text t cs) (Hns : text t ns).

(** [ns] occurs in [cs] at [i]. *)
Definition occurs (i : nat) : Prop := Forall2 (fun a b => same a b = true) (take (length ns) (drop i cs)) ns.

Lemma ldc_text l r (i : nat) : text t l -> (i <= length l)%nat ->
  exists c, ldc t (chars t (l ++ [0]) ++ r) (Z.of_nat i) = Some c /\ (l ++ [0]) !! i = Some c /\ (c = 0 <-> i = length l).
Proof using.
  intros Hl Hi. destruct (lookup_lt_is_Some_2 (l ++ [0]) i) as [c Hc]; [rewrite length_app; cbn; lia|]. exists c.
  split; [by apply ldc_lookup; [apply text_term|]|]. split; [done|]. destruct (decide (i = length l)) as [->|Hne].
  - rewrite lookup_app_r, Nat.sub_diag in Hc by lia. by injection Hc as <-.
  - rewrite lookup_app_l in Hc by lia. pose proof (Forall_lookup_1 _ _ _ _ Hl Hc) as Hx. cbv beta in Hx. lia.
Qed.

Lemma find_loop_sound n : forall h k : nat, (k <= h <= length cs)%nat -> (k <= length ns)%nat -> (length cs - h < n)%nat ->
  Forall2 (fun a b => same a b = true) (take k (drop (h - k) cs)) (take k ns) ->
  exists r, find_loop t same n (Z.of_nat h) (Z.of_nat (h - k)) (Z.of_nat k) (chars t (cs ++ [0]) ++ hr) (chars t (ns ++ [0]) ++ nr) = Some r /\
    forall i, r = Some i -> exists j : nat, i = Z.of_nat j /\ occurs j.
Proof using Hcs Hns.
  induction n as [|n IH]; intros h k Hh Hk Hn Hm; [lia|]. cbn [find_loop].
  destruct (ldc_text cs hr h Hcs) as (ch & -> & Lh & Zh); [lia|]. destruct (ldc_text ns nr k Hns Hk) as (cn & -> & Ln & Zn). bsimpl.
  assert (Hfin : exists r, Some (if cn =? 0 then Some (Z.of_nat (h - k)) else None) = Some r /\ forall i, r = Some i -> exists j : nat, i = Z.of_nat j /\ occurs j).
  { eexists. split; [done|]. destruct (Z.eqb_spec cn 0) as [E|E]; [|done]. intros i [= <-]. exists (h - k)%nat. split; [done|].
    apply Zn in E. subst k. unfold occurs. by rewrite (take_ge ns) in Hm by lia. }
  destruct (Z.eqb_spec ch 0) as [Ec|Ec]; [done|]. destruct (Z.eqb_spec cn 0) as [En|En]; [done|]. clear Hfin.
  assert (h <> length cs) by tauto. assert (k <> length ns) by tauto. rewrite lookup_app_l in Lh, Ln by lia.
  replace (Z.of_nat h + 1) with (Z.of_nat (S h)) by lia. destruct (same ch cn) eqn:Es.
  - replace (Z.of_nat k + 1) with (Z.of_nat (S k)) by lia. replace (h - k)%nat with (S h - S k)%nat by lia. apply IH; [lia|lia|lia|].
    replace (S h - S k)%nat with (h - k)%nat by lia. rewrite (take_S_r _ k ch), (take_S_r _ k cn) by (done || (rewrite lookup_drop; by replace (h - k + k)%nat with h by lia)).
    apply Forall2_app; [done|]. by constructor.
  - specialize (IH (S h) 0%nat). rewrite Nat.sub_0_r in IH. apply IH; [lia|lia|lia|constructor].
Qed.
End Find.

(** The search for a substring ends, and a position it reports is one where
    the needle occurs (characters are compared as asked). *)
Theorem FindSubstring_sound `{Host} `{Locale} t hay needle cs ns cased : cstr t hay cs -> cstr t needle ns ->
  exists r, FindSubstring t hay needle cased = Some r /\ forall i, r = Some i -> exists j : nat, i = Z.of_nat j /\ occurs (same_char t cased) cs ns j.
Proof.
  intros (Hcs & hr & ->) (Hns & nr & ->). apply (find_loop_sound t (same_char t cased) cs ns hr nr Hcs Hns _ 0 0); [lia|lia| |constructor].
  rewrite length_app. pose proof (zlen_chars t (cs ++ [0])) as Hz. pose proof (width_pos t). rewrite zlen_app in Hz. change (zlen [0]) with 1 in Hz. unfold zlen in Hz. nia.
Qed.

(** The search misses substrings: it does not go back after a partial match,
    so that ["ab"] is not found in ["aab"]. *)
Theorem FindSubstring_misses `{Host} `{Locale} : let hay := chars CHAR [97; 97; 98; 0] in let needle := chars CHAR [97; 98; 0] in
  LwRtlCStringFindSubstring hay needle true = Some None /\ occurs (same_char CHAR true) [97; 97; 98] [97; 98] 1.
Proof. split; [by vm_compute|]. by repeat constructor. Qed.

(** * Numbers *)

Definition base_value (base v : Z) (ds : list Z) : Z := fold_left (fun v c => v * base + get_digit_in_base c base) ds v.
Definition digits_in (base : Z) (ds : list Z) : Prop := Forall (fun c => 0 <= get_digit_in_base c base) ds.

Section Stoull.
Context `{Host} (base : Z) (Hbase : 2 <= base <= 36).

Lemma get_digit_range c : get_digit_in_base c base < base.
Proof using Hbase.
  unfold get_digit_in_base. match goal with |- (if ?b then _ else ?d) < _ => destruct b eqn:E end; [lia|]. bool_hyps. done.
Qed.

Lemma base_value_mono ds : forall v, 0 <= v -> digits_in base ds -> v <= base_value base v ds.
Proof using Hbase.
  induction ds as [|c ds IH]; intros v Hv Hd; [cbn; lia|]. apply Forall_cons_iff in Hd as [Hc Hd]. cbn [base_value fold_left]. fold (base_value base).
  specialize (IH (v * base + get_digit_in_base c base) ltac:(nia) Hd). unfold base_value in *. nia.
Qed.

Lemma stoull_loop_spec e rest ds : forall n pre v, digits_in base ds -> Forall (char_ok WCHAR) (ds ++ [e]) -> get_digit_in_base e base < 0 ->
  0 <= v -> base_value base v ds < 2 ^ 64 -> (length ds < n)%nat ->
  stoull_loop n (zlen pre) v false base (chars WCHAR (pre ++ ds ++ [e]) ++ rest) = Some (zlen pre + zlen ds, base_value base v ds, false).
Proof using Hbase.
  induction ds as [|c ds IH]; intros n pre v Hd Hok He Hv HV Hn; (destruct n as [|n]; [cbn in Hn; lia|]); cbn [stoull_loop app].
  - apply Forall_cons_iff in Hok as [Hce _]. rewrite chars_split_at, ldc_at by done. bsimpl. destruct (Z.ltb_spec (get_digit_in_base e base) 0); [|lia].
    rewrite zlen_nil, Z.add_0_r. done.
  - cbn [app] in Hok. apply Forall_cons_iff in Hok as [Hcc Hok]. apply Forall_cons_iff in Hd as [Hc Hd]. rewrite chars_split_at, ldc_at by done. bsimpl. rewrite <- chars_split_at.
    destruct (Z.ltb_spec (get_digit_in_base c base) 0); [lia|]. change (base_value base v (c :: ds)) with (base_value base (v * base + get_digit_in_base c base) ds) in *.
    pose proof (base_value_mono ds (v * base + get_digit_in_base c base) ltac:(nia) Hd). unfold u64. rewrite (Z.mod_small (v * base)) by nia. rewrite Z.mod_small by nia.
    destruct (Z.ltb_spec (v * base + get_digit_in_base c base) v); [nia|]. cbn [orb].
    specialize (IH n (pre ++ [c]) (v * base + get_digit_in_base c base) Hd Hok He). rewrite <- app_assoc, zlen_app, zlen_cons, zlen_nil in IH. cbn [app] in IH.
    rewrite zlen_cons. replace (zlen pre + (1 + zlen ds)) with (zlen pre + (1 + 0) + zlen ds) by lia. apply IH; [nia|done|cbn in Hn; lia].
Qed.

(** [wc16stoull] in a base from 2 to 36 reads the longest run of digits, with a
    minus sign before it if there is one, stops at the first character that is not
    a digit, and returns the value (its negative modulo [2^64] after a minus sign)
    when it fits 64 bits. *)
Theorem wc16stoull_correct (neg : bool) ds e rest : let text := (if neg then [45] else []) ++ ds ++ [e] in
  ds <> [] -> digits_in base ds -> get_digit_in_base e base < 0 -> Forall (char_ok WCHAR) (ds ++ [e]) ->
  base_value base 0 ds < 2 ^ 64 -> (neg = true -> base_value base 0 ds <> 2 ^ 63) ->
  wc16stoull (chars WCHAR text ++ rest) base =
    Some (if neg then u64 (- base_value base 0 ds) else base_value base 0 ds, Some (zlen text - 1), errno_unchanged).
Proof using Hbase.
  intros text Hne Hd He Hok HV Hneg. unfold wc16stoull.
  destruct (Z.ltb_spec base 0), (Z.eqb_spec base 1), (Z.ltb_spec 36 base); try lia. cbn [orb].
  destruct ds as [|c ds']; [done|]. pose proof (Forall_cons_1 _ _ _ Hd) as [Hc _]. pose proof (Forall_cons_1 _ _ _ Hok) as [Hcc _].
  assert (H45 : c <> 45) by (intros ->; unfold get_digit_in_base in Hc; cbn in Hc; destruct (Z.leb_spec base (-1)); lia).
  assert (Hlen : forall pre, (length ((c :: ds')) < S (length (chars WCHAR (pre ++ (c :: ds') ++ [e]) ++ rest)))%nat).
  { intros pre. rewrite length_app. pose proof (zlen_chars WCHAR (pre ++ (c :: ds') ++ [e])) as Hz. rewrite !zlen_app in Hz. cbn [width] in Hz. unfold zlen in Hz. lia. }
  pose proof (base_value_mono (c :: ds') 0 ltac:(lia) Hd) as HV0. unfold stoull_base. destruct (Z.eqb_spec base 0); [lia|]. cbn [negb]. subst text.
  destruct neg; cbn [app].
  - rewrite chars_cons, <- app_assoc. rewrite (ldc_at WCHAR [] 45 _ ltac:(split; [lia|done]) : ldc WCHAR (enc WCHAR 45 ++ _) 0 = Some 45). bsimpl.
    rewrite chars_cons, <- app_assoc. pose proof (ldc_at WCHAR [45] c (chars WCHAR (ds' ++ [e]) ++ rest) Hcc) as El.
    rewrite chars_cons, chars_nil, app_nil_r in El. change (zlen [45]) with 1 in El. rewrite El. bsimpl. destruct (Z.leb_spec 0 (get_digit_in_base c base)); [|lia]. rewrite Z.eqb_refl. bsimpl.
    pose proof (stoull_loop_spec e rest (c :: ds') _ [45] 0 Hd Hok He ltac:(lia) HV (Hlen [45])) as Eloop. cbn [app] in Eloop. rewrite !chars_cons, <- !app_assoc in Eloop.
    change (zlen [45]) with 1 in Eloop. rewrite Eloop. bsimpl. destruct (Z.eqb_spec (base_value base 0 (c :: ds')) (2 ^ 63)); [by destruct (Hneg eq_refl)|].
    do 3 f_equal. f_equal. rewrite !zlen_cons, zlen_app, zlen_cons, zlen_nil. lia.
  - rewrite chars_cons, <- app_assoc. rewrite (ldc_at WCHAR [] c _ Hcc : ldc WCHAR (enc WCHAR c ++ _) 0 = Some c). bsimpl. destruct (Z.eqb_spec c 45); [done|]. bsimpl.
    pose proof (stoull_loop_spec e rest (c :: ds') _ [] 0 Hd Hok He ltac:(lia) HV (Hlen [])) as Eloop. cbn [app] in Eloop. rewrite !chars_cons, <- !app_assoc in Eloop.
    change (zlen []) with 0 in Eloop. rewrite Eloop. bsimpl. do 3 f_equal. f_equal. rewrite !zlen_cons, zlen_app, zlen_cons, zlen_nil. lia.
Qed.
End Stoull.

(** The overflow test of [wc16stoull] misses overflows that wrap around to a
    larger number: 30000000000000000000 is read as 11553255926290448384, without an
    error. *)
Theorem wc16stoull_misses_overflow `{Host} :
  wc16stoull (chars WCHAR (51 :: repeat 48 19 ++ [0])) 10 = Some (11553255926290448384, Some 20, errno_unchanged) /\
  base_value 10 0 (51 :: repeat 48 19) = 30000000000000000000.
Proof. destruct host eqn:E; unfold host in *; subst; vm_compute; done. Qed.

(** * Copies *)

Section Copy.
Context `{Host} (cs r : list Z) (Hcs : text WCHAR cs).

Lemma all_lookup (i : nat) : (i <= length cs)%nat -> exists c, (cs ++ [0]) !! i = Some c /\ ldc WCHAR (chars WCHAR (cs ++ [0]) ++ r) (Z.of_nat i) = Some c /\ (c = 0 <-> i = length cs).
Proof using Hcs. intros Hi. destruct (ldc_text WCHAR cs r i Hcs Hi) as (c & ? & ? & ?). eauto. Qed.

Lemma pncpy_loop_spec n : forall (i : nat) d, (i <= length cs)%nat -> (1 <= n)%nat ->
  let m := Nat.min n (length cs + 1 - i) in (2 * m <= length d)%nat ->
  pncpy_loop n (Z.of_nat i) (chars WCHAR (take i (cs ++ [0])) ++ d) (chars WCHAR (cs ++ [0]) ++ r)
    = Some (chars WCHAR (take (i + m) (cs ++ [0])) ++ drop (2 * m) d, Z.of_nat (i + m - 1)).
Proof using Hcs.
  induction n as [|n IH]; intros i d Hi Hn m Hd; [lia|]. cbn [pncpy_loop]. destruct (all_lookup i Hi) as (c & Lc & -> & Zc). bsimpl.
  destruct d as [|x [|y d]]; [subst m; cbn [length] in Hd; lia..|].
  assert (Hz : zlen (take i (cs ++ [0])) = Z.of_nat i) by (unfold zlen; rewrite length_take, length_app; cbn; lia).
  assert (E : stc WCHAR (chars WCHAR (take i (cs ++ [0])) ++ x :: y :: d) (Z.of_nat i) c = Some (chars WCHAR (take (S i) (cs ++ [0])) ++ d)).
  { rewrite <- Hz. rewrite (stc_at WCHAR (take i (cs ++ [0])) [x; y] c d) by done. rewrite (take_S_r _ i c) by done. by rewrite chars_app, chars_cons, chars_nil, app_nil_r, <- app_assoc. }
  rewrite E. bsimpl. destruct (Z.eqb_spec c 0) as [E0|E0]; cbn [orb].
  - apply Zc in E0. replace m with 1%nat by (subst m; lia). replace (i + 1)%nat with (S i) by lia. do 3 f_equal. lia.
  - assert (i <> length cs) by tauto. destruct n as [|n'].
    + replace m with 1%nat by (subst m; lia). replace (i + 1)%nat with (S i) by lia. do 3 f_equal. lia.
    + replace (Z.of_nat i + 1) with (Z.of_nat (S i)) by lia. rewrite IH by (subst m; cbn [length] in Hd; lia).
      replace (S i + Nat.min (S n') (length cs + 1 - S i))%nat with (i + m)%nat by (subst m; lia).
      replace (2 * m)%nat with (S (S (2 * Nat.min (S n') (length cs + 1 - S i)))) by (subst m; lia). done.
Qed.

(** [wc16oncpy] copies the string with its terminator, or as much of it as
    there is room for, leaves the rest of the destination as it was, and returns
    the room the whole string takes. *)
Theorem wc16oncpy_correct n dest : 0 <= n -> 2 * Z.min n (zlen cs + 1) <= zlen dest ->
  wc16oncpy dest (chars WCHAR (cs ++ [0]) ++ r) n
    = Some (chars WCHAR (take (Z.to_nat n) (cs ++ [0])) ++ drop (Z.to_nat (2 * Z.min n (zlen cs + 1))) dest, zlen cs + 1).
Proof using Hcs.
  intros Hn Hd. unfold wc16oncpy. destruct (Z.eqb_spec n 0) as [->|Hn0].
  - bsimpl. unfold padd. cbn [wc16slen]. rewrite Z.mul_0_r. change (drop (Z.to_nat 0) ?l) with l.
    rewrite (strlen_at WCHAR _ cs) by (split; [done|by exists r]). bsimpl. rewrite Z.min_l by (pose proof (zlen_nonneg cs); lia). done.
  - unfold wc16pncpy. destruct (Z.eqb_spec n 0); [lia|]. set (m := Nat.min (Z.to_nat n) (length cs + 1)).
    pose proof (pncpy_loop_spec (Z.to_nat n) 0 dest ltac:(lia) ltac:(lia)) as E. rewrite Nat.sub_0_r in E. fold m in E. cbn [Nat.add] in E.
    change (chars WCHAR (take 0 (cs ++ [0])) ++ dest) with dest in E. change (Z.of_nat 0) with 0 in E.
    assert (Hm : Z.of_nat m = Z.min n (zlen cs + 1)) by (subst m; unfold zlen; lia). rewrite E by (unfold zlen in Hd; lia). bsimpl.
    assert (Hall : take m (cs ++ [0]) = take (Z.to_nat n) (cs ++ [0])).
    { subst m. destruct (Nat.min_spec (Z.to_nat n) (length cs + 1)) as [[_ ->]|[Hx ->]]; [done|]. rewrite !take_ge by (rewrite length_app; cbn; lia). done. }
    destruct (all_lookup (m - 1)) as (c & Lc & _ & Zc); [subst m; lia|].
    assert (El : ldc WCHAR (chars WCHAR (take m (cs ++ [0])) ++ drop (2 * m) dest) (Z.of_nat (m - 1)) = Some c).
    { apply ldc_lookup; [apply Forall_take; by apply text_term|]. rewrite lookup_take_lt by (subst m; lia). done. }
    rewrite El. bsimpl. rewrite Hall. replace (2 * m)%nat with (Z.to_nat (2 * Z.min n (zlen cs + 1))) by lia.
    destruct (Z.eqb_spec c 0) as [E0|E0].
    + apply Zc in E0. do 2 f_equal. unfold zlen. subst m. lia.
    + assert (m - 1 <> length cs)%nat by tauto. assert (Hmn : m = Z.to_nat n) by (subst m; lia). cbn [wc16slen].
      replace (Z.of_nat (m - 1) + 1) with (Z.of_nat m) by lia.
      assert (Ep : padd (chars WCHAR (cs ++ [0]) ++ r) (2 * Z.of_nat m) = chars WCHAR (drop m cs ++ [0]) ++ r).
      { rewrite <- (take_drop m cs) at 1. rewrite <- app_assoc, chars_app, <- app_assoc. replace (Z.of_nat m) with (zlen (take m cs)) by (unfold zlen; rewrite length_take; lia). apply (padd_chars WCHAR). }
      rewrite Ep, (strlen_at WCHAR _ (drop m cs)) by (split; [by apply Forall_drop|by exists r]). bsimpl. do 2 f_equal. unfold zlen. rewrite length_drop. lia.
Qed.
End Copy.

(** [LwRtlWC16StringCompare] orders characters that are more than 32767 apart
    the wrong way round: the difference does not fit the [INT16] it returns. *)
Theorem wc16_compare_wrong_order `{Host} :
  LwRtlWC16StringCompare (chars WCHAR [0x9000; 0]) (chars WCHAR [1; 0]) = Some (-28673).
Proof. destruct host eqn:E; unfold host in *; subst; by vm_compute. Qed.

(** * Concrete inputs *)

Definition sample_unicode (n : Z) : STRING := mk_string (2 * n) (2 * n) (Some (@chars LittleEndian WCHAR [83; 45; 49])).

Lemma sample_unicode_at : @string_at LittleEndian WCHAR (sample_unicode 2) [83; 45] /\ @string_at LittleEndian WCHAR (sample_unicode 3) [83; 45; 49].
Proof.
  split; (split; [repeat constructor; cbn; lia|split; [done|split; [done|]]]); [exists (@chars LittleEndian WCHAR [49])|exists []]; done.
Qed.

(** The locale plays no part in comparisons with regard to case. *)
Definition plain_locale : Locale :=
  {| towupper c := c; towlower c := c; tolower c := c; toupper c := c; mbstrlen cs := Some (zlen cs); iconv_from_mb _ _ := None |}.

Lemma StringDuplicate_correct_witness :
  @StringDuplicate LittleEndian WCHAR (fun n => Some (zeros n)) true (Some (sample_unicode 2))
    = Some (STATUS_SUCCESS, mk_string 4 6 (Some (@chars LittleEndian WCHAR [83; 45; 0]))).
Proof. rewrite (@StringDuplicate_correct LittleEndian WCHAR (fun n => Some (zeros n)) (sample_unicode 2) [83; 45] (proj1 sample_unicode_at)); done. Defined.

Lemma unicode_comparisons_correct_witness :
  @LwRtlUnicodeStringIsEqual LittleEndian plain_locale (sample_unicode 2) (sample_unicode 3) true = Some false /\
  @LwRtlUnicodeStringIsPrefix LittleEndian plain_locale (sample_unicode 2) (sample_unicode 3) true = Some true.
Proof.
  destruct (@unicode_comparisons_correct LittleEndian plain_locale (sample_unicode 2) (sample_unicode 3) [83; 45] [83; 45; 49] (proj1 sample_unicode_at) (proj2 sample_unicode_at)) as [-> ->].
  split; reflexivity.
Defined.

Lemma FindSubstring_sound_witness :
  exists r, @FindSubstring LittleEndian plain_locale CHAR [98; 97; 98; 0] [97; 98; 0] true = Some r /\
    forall i, r = Some i -> exists j : nat, i = Z.of_nat j /\ occurs (@same_char plain_locale CHAR true) [98; 97; 98] [97; 98] j.
Proof. apply FindSubstring_sound; (split; [repeat constructor; lia|by exists []]). Defined.

Lemma wc16stoull_correct_witness :
  @wc16stoull LittleEndian (@chars LittleEndian WCHAR [45; 102; 70; 0]) 16 = Some (2 ^ 64 - 255, Some 3, errno_unchanged).
Proof.
  pose proof (@wc16stoull_correct LittleEndian 16 ltac:(lia) true [102; 70] 0 []) as Q. cbv zeta in Q. rewrite app_nil_r in Q.
  apply Q; [done|repeat constructor; vm_compute; done|reflexivity|repeat constructor; cbn; lia|vm_compute; done|vm_compute; done].
Defined.

Lemma wc16oncpy_correct_witness :
  @wc16oncpy LittleEndian (zeros 6) (@chars LittleEndian WCHAR [83; 45; 49; 0]) 2 = Some (@chars LittleEndian WCHAR [83; 45] ++ zeros 2, 4).
Proof.
  pose proof (@wc16oncpy_correct LittleEndian [83; 45; 49] [] ltac:(repeat constructor; cbn; lia) 2 (zeros 6) ltac:(lia)) as Q. rewrite app_nil_r in Q.
  apply Q. vm_compute. done.
Defined.
