(* ===== verification/SidString.v ===== *)
(** SIDs as text: the conversions of [lwbase/src/security-sid.c] between SIDs and
    strings such as [S-1-5-21-11-22-33-500]. The parsers of [ANSI_STRING] and of
    [UNICODE_STRING] differ only in the type of the characters and are instances of
    one definition. *)

From S2P Require Import Prelude SecurityTypes Sid Text Wc16Str RtlString.

Section Operations.
Context `{Host}.

(** * Printing *)

Definition RTLP_STRING_SID_MAX_CHARS (SubAuthorityCount : Z) : Z := 2 + 3 + 1 + 14 + (1 + 10) * SubAuthorityCount + 1.

(** What the format strings expand to: ["S-%u-0x%.2X%.2X%.2X%.2X%.2X%.2X"],
    ["S-%u-%u"] and ["-%u"]. *)
Definition format_hex_authority (Revision : Z) (Value : list Z) : list Z :=
  [83; 45] ++ format_u Revision ++ [45; 48; 120] ++ concat (map format_2X Value).
Definition format_authority (Revision value : Z) : list Z := [83; 45] ++ format_u Revision ++ [45] ++ format_u value.
Definition format_sub (SubAuthority : Z) : list Z := 45 :: format_u SubAuthority.

(** The authority as a 32-bit number. *)
Definition authority_value (Value : mem) : option Z :=
  v5 ← ld8 Value 5;
  v4 ← ld8 Value 4;
  v3 ← ld8 Value 3;
  v2 ← ld8 Value 2;
  Some (Z.lor (Z.lor (Z.lor (Z.lor 0 v5) (Z.shiftl v4 8)) (Z.shiftl v3 16)) (Z.shiftl v2 24)).

(** The loop over [n] more sub-authorities from index [i]. *)
Fixpoint print_sub_authorities (n : nat) (i : Z) (Sid result : mem) (size count : Z) : option mem :=
  match n with
  | O => Some result
  | S n' =>
      v ← Sid_SubAuthority Sid i;
      '(result, written) ← snprintf result count (u64 (size - count)) (format_sub v);
      print_sub_authorities n' (i + 1) Sid result size (count + written)
  end.

(** [StringSid] tells whether the output pointer is non-null. *)
Definition RtlAllocateCStringFromSid (malloc : Z -> bool) (StringSid : bool) (Sid : ptr) : option (NTSTATUS * ptr) :=
  if negb StringSid then Some (STATUS_INVALID_PARAMETER, None)
  else
    valid ← RtlValidSid Sid;
    if negb valid then Some (STATUS_INVALID_PARAMETER, None)
    else
      Sid ← Sid;
      c ← Sid_SubAuthorityCount Sid;
      let size := RTLP_STRING_SID_MAX_CHARS c in
      let '(status, result) := RTL_ALLOCATE malloc size in
      if negb (is_ok status) then Some (status, None)
      else
        result ← result;
        Revision ← Sid_Revision Sid;
        Value ← Sid_IdentifierAuthority Sid;
        v0 ← ld8 Value 0;
        v1 ← ld8 Value 1;
        out ← (if negb (v0 =? 0) || negb (v1 =? 0) then Some (format_hex_authority Revision Value)
               else value ← authority_value Value; Some (format_authority Revision value));
        '(result, count) ← snprintf result 0 (u64 (size - 0)) out;
        result ← print_sub_authorities (Z.to_nat c) 0 Sid result size count;
        Some (STATUS_SUCCESS, Some result).

Definition RtlAllocateAnsiStringFromSid (malloc : Z -> bool) (StringSid : bool) (Sid : ptr) : option (NTSTATUS * STRING) :=
  if negb StringSid then Some (STATUS_INVALID_PARAMETER, null_string)
  else
    '(status, resultBuffer) ← RtlAllocateCStringFromSid malloc true Sid;
    if negb (is_ok status) then Some (status, null_string)
    else
      '(status, result) ← LwRtlAnsiStringInitEx resultBuffer;
      Some (status, if is_ok status then result else null_string).

Section Wide.
Context `{Locale}.

Definition RtlAllocateWC16StringFromSid (malloc : Z -> bool) (fresh : Z -> ptr) (eilseq StringSid : bool) (Sid : ptr) : option (NTSTATUS * ptr) :=
  if negb StringSid then Some (STATUS_INVALID_PARAMETER, None)
  else
    '(status, convertString) ← RtlAllocateCStringFromSid malloc true Sid;
    if negb (is_ok status) then Some (status, None)
    else
      '(status, result) ← LwRtlWC16StringAllocateFromCString fresh eilseq convertString;
      Some (status, if is_ok status then result else None).

Definition RtlAllocateUnicodeStringFromSid (malloc : Z -> bool) (fresh : Z -> ptr) (eilseq StringSid : bool) (Sid : ptr) : option (NTSTATUS * STRING) :=
  if negb StringSid then Some (STATUS_INVALID_PARAMETER, null_string)
  else
    '(status, resultBuffer) ← RtlAllocateWC16StringFromSid malloc fresh eilseq true Sid;
    if negb (is_ok status) then Some (status, null_string)
    else
      '(status, result) ← LwRtlUnicodeStringInitEx resultBuffer;
      Some (status, if is_ok status then result else null_string).
End Wide.

(** * Parsing *)

Section Parse.
Context (t : char_type).

(** One number is stored: the revision, then the authority, then the
    sub-authorities. *)
Definition store_number (sid : mem) (haveRevision haveAuthority : bool) (value : Z) : option (NTSTATUS * mem * bool * bool) :=
  if negb haveRevision then
    if 255 <? value then Some (STATUS_INVALID_SID, sid, haveRevision, haveAuthority)
    else sid ← st8 sid 0 (u8 value); Some (STATUS_SUCCESS, sid, true, haveAuthority)
  else if negb haveAuthority then
    sid ← st8 sid (2 + 5) (Z.land value 0x000000FF);
    sid ← st8 sid (2 + 4) (Z.shiftr (Z.land value 0x0000FF00) 8);
    sid ← st8 sid (2 + 3) (Z.shiftr (Z.land value 0x00FF0000) 16);
    sid ← st8 sid (2 + 2) (Z.shiftr (Z.land value 0xFF000000) 24);
    Some (STATUS_SUCCESS, sid, haveRevision, true)
  else
    c ← Sid_SubAuthorityCount sid;
    if SID_MAX_SUB_AUTHORITIES <=? c then Some (STATUS_INVALID_SID, sid, haveRevision, haveAuthority)
    else
      sid ← st32 sid (8 + 4 * c) value;
      sid ← st8 sid 1 (u8 (c + 1));
      Some (STATUS_SUCCESS, sid, haveRevision, haveAuthority).

(** The separator after a number. *)
Definition skip_dash (remaining : STRING) : option (NTSTATUS * STRING) :=
  if str_Length remaining =? 0 then Some (STATUS_SUCCESS, remaining)
  else
    b ← str_Buffer remaining;
    c ← ldc t b 0;
    if negb (c =? 45) then Some (STATUS_INVALID_SID, remaining)
    else let Length := u16 (str_Length remaining - width t) in
         Some (STATUS_SUCCESS, mk_string Length Length (Some (padd b (width t)))).

(** The [for (;;)] loop: an error, or the state when no number follows. Each turn
    moves on in the buffer, so that as many turns as it has bytes, and one more,
    are enough. *)
Fixpoint parse_loop (fuel : nat) (sid : mem) (haveRevision haveAuthority : bool) (remaining : STRING)
    : option (NTSTATUS + mem * bool * STRING) :=
  match fuel with
  | O => None
  | S fuel' =>
      '(status, value, remaining) ← StringParseULONG t (Some remaining);
      if negb (is_ok status) then Some (inr (sid, haveAuthority, remaining))
      else
        '(status, remaining) ← skip_dash remaining;
        if negb (is_ok status) then Some (inl status)
        else
          '(status, sid, haveRevision, haveAuthority) ← store_number sid haveRevision haveAuthority value;
          if negb (is_ok status) then Some (inl status)
          else parse_loop fuel' sid haveRevision haveAuthority remaining
  end.

Definition has_prefix (StringSid : STRING) : option bool :=
  if negb (2 * width t <? str_Length StringSid) then Some false
  else
    b ← str_Buffer StringSid;
    c0 ← ldc t b 0;
    if negb ((c0 =? 83) || (c0 =? 115)) then Some false
    else c1 ← ldc t b 1; Some (c1 =? 45).

(** The SID in the local buffer, or an error. *)
Definition parse_sid (StringSid : STRING) : option (NTSTATUS + mem) :=
  prefix ← has_prefix StringSid;
  if negb prefix then Some (inl STATUS_INVALID_SID)
  else
    b ← str_Buffer StringSid;
    let Length := u16 (str_Length StringSid - 2 * width t) in
    let remaining := mk_string Length Length (Some (padd b (2 * width t))) in
    r ← parse_loop (S (length b)) (zeros SID_MAX_SIZE) false false remaining;
    match r with
    | inl status => Some (inl status)
    | inr (sid, haveAuthority, remaining) =>
        if negb haveAuthority || negb (str_Length remaining =? 0) then Some (inl STATUS_INVALID_SID)
        else valid ← RtlValidSid (Some sid); Some (if (valid : bool) then inr sid else inl STATUS_INVALID_SID)
    end.

(** The status, the SID allocated, the caller's buffer and its size. [AllocateSid]
    tells whether that pointer is non-null. *)
Definition ConvertStringSidToSidEx (malloc : Z -> bool) (StringSid : option STRING) (AllocateSid : bool) (SidBuffer : ptr) (SidBufferSize : option Z)
    : option (NTSTATUS * ptr * ptr * option Z) :=
  let given {A} (o : option A) := match o with Some _ => true | None => false end in
  let size sizeRequired := _ ← SidBufferSize; Some sizeRequired in
  match StringSid with
  | None => Some (STATUS_INVALID_PARAMETER, None, SidBuffer, size 0)
  | Some StringSid =>
      if (AllocateSid && (given SidBuffer || given SidBufferSize)) || negb (AllocateSid || given SidBufferSize)
      then Some (STATUS_INVALID_PARAMETER, None, SidBuffer, size 0)
      else
        r ← parse_sid StringSid;
        match r with
        | inl status => Some (status, None, SidBuffer, size 0)
        | inr sid =>
            sizeRequired ← RtlLengthSid sid;
            if AllocateSid then
              let '(status, newSid) := RTL_ALLOCATE malloc sizeRequired in
              if negb (is_ok status) then Some (status, None, SidBuffer, size sizeRequired)
              else
                newSid ← newSid;
                bs ← rd sid 0 sizeRequired;
                newSid ← wr newSid 0 bs;
                Some (STATUS_SUCCESS, Some newSid, SidBuffer, size sizeRequired)
            else
              match SidBufferSize with
              | Some available =>
                  if available <? sizeRequired then Some (STATUS_BUFFER_TOO_SMALL, None, SidBuffer, Some sizeRequired)
                  else
                    match SidBuffer with
                    | Some b => bs ← rd sid 0 sizeRequired; b ← wr b 0 bs; Some (STATUS_SUCCESS, None, Some b, Some sizeRequired)
                    | None => Some (STATUS_SUCCESS, None, None, Some sizeRequired)
                    end
              | None => Some (STATUS_ASSERTION_FAILURE, None, SidBuffer, None)
              end
        end
  end.

(** [RtlAllocateSidFromAnsiString] and [RtlAllocateSidFromUnicodeString]. *)
Definition AllocateSidFromString (malloc : Z -> bool) (StringSid : option STRING) : option (NTSTATUS * ptr) :=
  '(status, sid, _, _) ← ConvertStringSidToSidEx malloc StringSid true None None;
  Some (status, sid).

(** [RtlAllocateSidFromCString] and [RtlAllocateSidFromWC16String]. *)
Definition AllocateSidFromPointer (malloc : Z -> bool) (StringSid : ptr) : option (NTSTATUS * ptr) :=
  '(status, stringSid) ← StringInitEx t StringSid;
  if negb (is_ok status) then Some (status, None)
  else
    '(status, sid) ← AllocateSidFromString malloc (Some stringSid);
    Some (status, if is_ok status then sid else None).
End Parse.

Definition RtlpConvertUnicodeStringSidToSidEx := ConvertStringSidToSidEx WCHAR.
Definition RtlpConvertAnsiStringSidToSidEx := ConvertStringSidToSidEx CHAR.
Definition RtlAllocateSidFromUnicodeString := AllocateSidFromString WCHAR.
Definition RtlAllocateSidFromAnsiString := AllocateSidFromString CHAR.
Definition RtlAllocateSidFromCString := AllocateSidFromPointer CHAR.
Definition RtlAllocateSidFromWC16String := AllocateSidFromPointer WCHAR.
End Operations.
