(* ===== verification/SidStringOps.v ===== *)
(** SIDs as text: the conversions of [SidString] against a grammar of SID strings. *)

From S2P Require Import Prelude SecurityTypes Sid Text Wc16Str RtlString SidString.

(** * Specification *)

(** The text of a number: a decimal number of 32 bits. *)
Definition number_text (ds : list Z) : Prop := ds <> [] /\ forallb digit ds = true /\ dec_value 0 ds < 2 ^ 32.

(** Numbers separated by dashes; a dash may follow the last one. *)
Inductive numbers : list Z -> list Z -> Prop :=
  | numbers_none : numbers [] []
  | numbers_last ds : number_text ds -> numbers ds [dec_value 0 ds]
  | numbers_more ds cs ns : number_text ds -> numbers cs ns -> numbers (ds ++ 45 :: cs) (dec_value 0 ds :: ns).

(** The six bytes of an authority of 32 bits. *)
Definition authority_bytes (a : Z) : mem :=
  [0; 0; Z.shiftr (Z.land a 0xFF000000) 24; Z.shiftr (Z.land a 0x00FF0000) 16; Z.shiftr (Z.land a 0x0000FF00) 8; Z.land a 0x000000FF].

(** [cs] is [S-] or [s-] and the numbers of the valid SID [s]. *)
Definition sid_text (cs : list Z) (s : sid) : Prop :=
  exists c a rest, cs = c :: 45 :: rest /\ (c = 83 \/ c = 115) /\ numbers rest (sid_revision s :: a :: sid_sub s) /\
    sid_authority s = authority_bytes a /\ sid_valid s = true.

(** The text of a SID. *)
Definition big_authority (s : sid) : bool := match sid_authority s with v0 :: v1 :: _ => negb (v0 =? 0) || negb (v1 =? 0) | _ => false end.
Definition authority_number (s : sid) : Z := le_decode (rev (drop 2 (sid_authority s))).
Definition sid_string (s : sid) : list Z :=
  (if big_authority s then format_hex_authority (sid_revision s) (sid_authority s) else format_authority (sid_revision s) (authority_number s))
  ++ concat (map format_sub (sid_sub s)).

(** * Numbers *)

Fixpoint take_digits (cs : list Z) : list Z := match cs with c :: r => if digit c then c :: take_digits r else [] | [] => [] end.
Fixpoint drop_digits (cs : list Z) : list Z := match cs with c :: r => if digit c then drop_digits r else cs | [] => [] end.

Lemma take_drop_digits cs : take_digits cs ++ drop_digits cs = cs.
Proof. induction cs as [|c r IH]; [done|]. cbn. destruct (digit c); [|done]. cbn. by rewrite IH. Qed.

Lemma take_digits_digits cs : forallb digit (take_digits cs) = true.
Proof. induction cs as [|c r IH]; [done|]. cbn. destruct (digit c) eqn:E; [|done]. cbn. by rewrite E. Qed.

Lemma take_digits_app ds cs : forallb digit ds = true -> take_digits (ds ++ cs) = ds ++ take_digits cs /\ drop_digits (ds ++ cs) = drop_digits cs.
Proof.
  induction ds as [|d ds IH]; [done|]. cbn [forallb app take_digits drop_digits]. intros [Hd Hds]%andb_true_iff. rewrite Hd.
  destruct (IH Hds) as [-> ->]. done.
Qed.

Lemma dec_value_range ds : forall v, 0 <= v -> forallb digit ds = true -> v <= dec_value v ds.
Proof.
  induction ds as [|d ds IH]; intros v Hv Hd; [cbn; lia|]. cbn [forallb] in Hd. apply andb_true_iff in Hd as [Hd Hds].
  change (dec_value v (d :: ds)) with (dec_value (v * 10 + (d - 48)) ds). unfold digit in Hd. bool_hyps. specialize (IH (v * 10 + (d - 48)) ltac:(lia) Hds). lia.
Qed.

Lemma number_text_split ds cs : number_text ds -> match cs with [] => True | c :: _ => digit c = false end ->
  take_digits (ds ++ cs) = ds /\ drop_digits (ds ++ cs) = cs.
Proof.
  intros (_ & Hd & _) Hc. destruct (take_digits_app ds cs Hd) as [-> ->]. destruct cs as [|c r]; cbn; [by rewrite app_nil_r|].
  rewrite Hc. by rewrite app_nil_r.
Qed.

Lemma number_text_take cs : take_digits cs <> [] -> dec_value 0 (take_digits cs) < 2 ^ 32 -> number_text (take_digits cs).
Proof. split; [done|]. split; [apply take_digits_digits|done]. Qed.

(** What follows the first number decides how the grammar goes on. *)
Lemma numbers_inv cs ns : numbers cs ns ->
  (cs = [] /\ ns = []) \/
  (number_text (take_digits cs) /\ ((drop_digits cs = [] /\ ns = [dec_value 0 (take_digits cs)]) \/
     exists r ns', drop_digits cs = 45 :: r /\ numbers r ns' /\ ns = dec_value 0 (take_digits cs) :: ns')).
Proof.
  intros [|ds Hf|ds r ns' Hf Hr]; [by left|right..].
  - pose proof (number_text_split ds [] Hf I) as [E1 E2]. rewrite app_nil_r in E1, E2. rewrite E1, E2. auto.
  - destruct (number_text_split ds (45 :: r) Hf eq_refl) as [-> ->]. split; [done|]. right. eauto.
Qed.

Lemma numbers_range cs ns : numbers cs ns -> Forall (fun v => 0 <= v < 2 ^ 32) ns.
Proof.
  induction 1 as [|ds (Hn & Hd & Hv)|ds cs ns (Hn & Hd & Hv) Hns IH]; constructor; try done; try constructor;
    pose proof (dec_value_range ds 0 ltac:(lia) Hd); lia.
Qed.

(** * The image of a SID while it is read *)

Section Functions.
Context `{Host}.

Definition sid_image (vs : list Z) : mem :=
  match vs with
  | [] => zeros 68
  | [r] => r :: zeros 67
  | r :: a :: subs => [r; Z.of_nat (length subs)] ++ authority_bytes a ++ sub_bytes host subs ++ zeros (60 - 4 * Z.of_nat (length subs))
  end.

(** The numbers there is room for. *)
Definition storable (vs : list Z) : Prop := (length vs <= 17)%nat /\ match vs with r :: _ => r <= 255 | [] => True end.

Definition have (n : nat) (vs : list Z) : bool := (n <=? length vs)%nat.

Lemma storable_prefix vs ns : storable (vs ++ ns) -> storable vs.
Proof. unfold storable. rewrite length_app. destruct vs; cbn; [lia|]. intros []. split; [lia|done]. Qed.

Lemma st8_cons x r v : 0 <= v < 256 -> st8 (x :: r) 0 v = Some (v :: r).
Proof. intros Hv. unfold st8. change (x :: r) with ([x] ++ r). rewrite wr_at_0 by done. cbn. by rewrite Z.mod_small. Qed.

Lemma wr_skip pre old bs post off : off = zlen pre -> zlen bs = zlen old -> wr (pre ++ old ++ post) off bs = Some (pre ++ bs ++ post).
Proof. intros -> Hl. by apply wr_at. Qed.

Lemma shifted_byte a k : 0 <= a -> 0 <= k -> 0 <= Z.shiftr (Z.land a (Z.shiftl 255 k)) k < 256.
Proof.
  intros Ha Hk. rewrite Z.shiftr_land, Z.shiftr_shiftl_l, Z.sub_diag, Z.shiftl_0_r by lia. change 255 with (Z.ones 8).
  rewrite Z.land_ones by lia. apply Z.mod_pos_bound. lia.
Qed.

Lemma authority_bytes_ok a : 0 <= a -> bytes_ok (authority_bytes a).
Proof.
  intros Ha. pose proof (shifted_byte a 24 Ha) as H3. pose proof (shifted_byte a 16 Ha) as H2. pose proof (shifted_byte a 8 Ha) as H1. pose proof (shifted_byte a 0 Ha) as H0'.
  rewrite Z.shiftr_0_r in H0'. repeat constructor; try lia; (apply H3 || apply H2 || apply H1 || apply H0'); lia.
Qed.

Lemma sid_image_zlen vs : storable vs -> zlen (sid_image vs) = 68.
Proof.
  intros [Hl _]. destruct vs as [|r [|a subs]]; [done..|]. cbn [sid_image]. cbn [length] in Hl.
  rewrite !zlen_app, zlen_sub_bytes, zlen_zeros by lia. change (zlen (authority_bytes a)) with 6. rewrite !zlen_cons, zlen_nil. lia.
Qed.

Lemma store_first v : 0 <= v < 2 ^ 32 ->
  store_number (sid_image []) false false v =
    Some (if 255 <? v then (STATUS_INVALID_SID, sid_image [], false, false) else (STATUS_SUCCESS, sid_image [v], true, false)).
Proof.
  intros Hv. unfold store_number. cbn [negb]. destruct (Z.ltb_spec 255 v); [done|]. unfold u8. rewrite Z.mod_small by lia.
  change (sid_image []) with (0 :: zeros 67). rewrite st8_cons by lia. done.
Qed.

Lemma store_authority r v : 0 <= v < 2 ^ 32 -> store_number (sid_image [r]) true false v = Some (STATUS_SUCCESS, sid_image [r; v], true, true).
Proof.
  intros Hv. unfold store_number. cbn [negb sid_image]. unfold authority_bytes.
  assert (Hs : forall k y off, 0 <= k -> st8 y off (Z.shiftr (Z.land v (Z.shiftl 255 k)) k) = wr y off [Z.shiftr (Z.land v (Z.shiftl 255 k)) k]).
  { intros k y off Hk. unfold st8. cbn. rewrite Z.mod_small; [done|]. apply shifted_byte; lia. }
  replace (Z.land v 255) with (Z.shiftr (Z.land v (Z.shiftl 255 0)) 0) by apply Z.shiftr_0_r.
  change 65280 with (Z.shiftl 255 8). change 16711680 with (Z.shiftl 255 16). change 4278190080 with (Z.shiftl 255 24).
  rewrite Hs by lia. etransitivity; [apply option_bind_ext_fun; intros m1; rewrite Hs by lia; apply option_bind_ext_fun; intros m2; rewrite Hs by lia; apply option_bind_ext_fun; intros m3; rewrite Hs by lia; reflexivity|].
  generalize (Z.shiftr (Z.land v (Z.shiftl 255 0)) 0), (Z.shiftr (Z.land v (Z.shiftl 255 8)) 8), (Z.shiftr (Z.land v (Z.shiftl 255 16)) 16), (Z.shiftr (Z.land v (Z.shiftl 255 24)) 24).
  intros x0 x1 x2 x3. vm_compute. reflexivity.
Qed.

Lemma sub_bytes_snoc l v : sub_bytes host (l ++ [v]) = sub_bytes host l ++ encode host 4 v.
Proof. rewrite sub_bytes_app. unfold sub_bytes. cbn. by rewrite app_nil_r. Qed.

Lemma store_sub r a subs v : (length subs <= 15)%nat -> 0 <= v < 2 ^ 32 ->
  store_number (sid_image (r :: a :: subs)) true true v =
    Some (if (length subs <? 15)%nat then (STATUS_SUCCESS, sid_image (r :: a :: subs ++ [v]), true, true)
          else (STATUS_INVALID_SID, sid_image (r :: a :: subs), true, true)).
Proof.
  intros Hl Hv. unfold store_number, Sid_SubAuthorityCount. cbn [negb sid_image app]. rewrite ld8_second. bsimpl. unfold SID_MAX_SUB_AUTHORITIES.
  destruct (Nat.ltb_spec (length subs) 15); destruct (Z.leb_spec 15 (Z.of_nat (length subs))); try lia; [|done].
  set (n := Z.of_nat (length subs)). rewrite (zeros_cut (60 - 4 * n) 4) by lia. unfold st32.
  assert (E : wr (r :: n :: authority_bytes a ++ sub_bytes host subs ++ zeros 4 ++ zeros (60 - 4 * n - 4)) (8 + 4 * n) (encode host 4 v)
              = Some (r :: n :: authority_bytes a ++ sub_bytes host subs ++ encode host 4 v ++ zeros (60 - 4 * n - 4))).
  { pose proof (wr_skip (r :: n :: authority_bytes a ++ sub_bytes host subs) (zeros 4) (encode host 4 v) (zeros (60 - 4 * n - 4)) (8 + 4 * n)) as W.
    cbn [app] in W. rewrite <- !app_assoc in W. apply W; [|by rewrite (zlen_encode _ 4)]. rewrite !zlen_cons, zlen_app, zlen_sub_bytes. change (zlen (authority_bytes a)) with 6. lia. }
  rewrite E. bsimpl. change (r :: n :: ?x) with ([r] ++ [n] ++ x). unfold st8, u8. rewrite (Z.mod_small (n + 1)) by lia.
  rewrite wr_skip by done. bsimpl. cbn [le_encode]. rewrite Z.mod_small by lia.
  rewrite sub_bytes_snoc, length_app, <- !app_assoc. replace (Z.of_nat (length subs + length [v])) with (n + 1) by (cbn [length]; lia).
  replace (60 - 4 * (n + 1)) with (60 - 4 * n - 4) by lia. done.
Qed.

(** One number more. *)
Lemma store_number_spec vs v : storable vs -> 0 <= v < 2 ^ 32 ->
  exists st vs', store_number (sid_image vs) (have 1 vs) (have 2 vs) v = Some (st, sid_image vs', have 1 vs', have 2 vs') /\
    ((st = STATUS_SUCCESS /\ vs' = vs ++ [v] /\ storable vs') \/ (st = STATUS_INVALID_SID /\ forall ns, ~ storable (vs ++ v :: ns))).
Proof.
  intros [Hl Hr] Hv. destruct vs as [|r [|a subs]]; unfold have; cbn [length Nat.leb] in *.
  - rewrite store_first by done. destruct (Z.ltb_spec 255 v).
    + exists STATUS_INVALID_SID, []. split; [done|]. right. split; [done|]. intros ns [_ Hx]. cbn in Hx. lia.
    + exists STATUS_SUCCESS, [v]. split; [done|]. left. split; [done|]. split; [done|]. split; cbn; lia.
  - rewrite store_authority by done. exists STATUS_SUCCESS, [r; v]. split; [done|]. left. split; [done|]. split; [done|]. split; [cbn; lia|done].
  - rewrite store_sub by (done || lia). destruct (Nat.ltb_spec (length subs) 15).
    + exists STATUS_SUCCESS, (r :: a :: subs ++ [v]). split; [done|]. left. split; [done|]. split; [done|]. split; [cbn; rewrite length_app; cbn; lia|done].
    + exists STATUS_INVALID_SID, (r :: a :: subs). split; [done|]. right. split; [done|]. intros ns [Hx _]. cbn in Hx. rewrite length_app in Hx. cbn in Hx. lia.
Qed.

(** * Parsing *)

Section Parse.
Context (t : char_type).

Lemma parse_digits_spec rs rest : forall pre v, Forall (char_ok t) rs -> 0 <= v < 2 ^ 32 ->
  if dec_value v (take_digits rs) <? 2 ^ 32
  then parse_digits t (length rs) (zlen pre) v (Some (chars t (pre ++ rs) ++ rest))
       = Some (STATUS_SUCCESS, zlen pre + zlen (take_digits rs), dec_value v (take_digits rs))
  else exists i w, parse_digits t (length rs) (zlen pre) v (Some (chars t (pre ++ rs) ++ rest)) = Some (STATUS_INTEGER_OVERFLOW, i, w).
Proof.
  induction rs as [|c rs IH]; intros pre v Hok Hv; cbn [length parse_digits take_digits].
  - destruct (Z.ltb_spec (dec_value v []) (2 ^ 32)); [|cbn in *; lia]. rewrite zlen_nil, Z.add_0_r. done.
  - apply Forall_cons_iff in Hok as [Hc Hok]. rewrite chars_split_at. bsimpl. rewrite ldc_at by done. bsimpl.
    change (LwRtlIsDecimalDigit c) with (digit c). destruct (digit c) eqn:Ed.
    2: { destruct (Z.ltb_spec (dec_value v []) (2 ^ 32)); [|cbn in *; lia]. rewrite zlen_nil, Z.add_0_r. done. }
    unfold LwRtlDecimalDigitValue. change (dec_value v (c :: take_digits rs)) with (dec_value (v * 10 + (c - 48)) (take_digits rs)).
    unfold digit in Ed. bool_hyps. unfold u64. rewrite Z.mod_small by lia.
    pose proof (dec_value_range (take_digits rs) (v * 10 + (c - 48)) ltac:(lia) (take_digits_digits rs)).
    destruct (Z.ltb_spec 0xFFFFFFFF (v * 10 + (c - 48))).
    + destruct (Z.ltb_spec (dec_value (v * 10 + (c - 48)) (take_digits rs)) (2 ^ 32)); [lia|]. eauto.
    + specialize (IH (pre ++ [c]) (v * 10 + (c - 48)) Hok ltac:(lia)). rewrite <- chars_split_at. rewrite <- app_assoc in IH. cbn [app] in IH.
      replace (zlen (pre ++ [c])) with (zlen pre + 1) in IH by (rewrite zlen_app, zlen_cons, zlen_nil; lia).
      rewrite zlen_cons. by rewrite Z.add_assoc.
Qed.

Lemma chars_drop_digits cs rest : padd (chars t cs ++ rest) (width t * zlen (take_digits cs)) = chars t (drop_digits cs) ++ rest.
Proof. rewrite <- (take_drop_digits cs) at 1. by rewrite chars_app, <- app_assoc, padd_chars. Qed.

(** [ParseULONG] reads the longest run of digits, or leaves the string as it was. *)
Lemma StringParseULONG_spec S cs : string_at t S cs ->
  exists st v S', StringParseULONG t (Some S) = Some (st, v, S') /\
    ((st = STATUS_SUCCESS /\ number_text (take_digits cs) /\ v = dec_value 0 (take_digits cs) /\ string_at t S' (drop_digits cs) /\
      forall b, str_Buffer S = Some b -> str_Buffer S' = Some (padd b (width t * zlen (take_digits cs)))) \/
     (is_ok st = false /\ S' = S /\ ~ number_text (take_digits cs))).
Proof.
  intros (Hok & Hl & H16 & rest & Hb). unfold StringParseULONG, LW_RTL_STRING_NUM_CHARS. rewrite Hl, width_num, Hb. replace (Z.to_nat (zlen cs)) with (length cs) by (unfold zlen; lia).
  pose proof (parse_digits_spec cs rest [] 0 Hok ltac:(lia)) as Hp. rewrite zlen_nil in Hp. cbn [app] in Hp.
  destruct (Z.ltb_spec (dec_value 0 (take_digits cs)) (2 ^ 32)) as [Hv|Hv].
  - rewrite Hp. bsimpl. cbn [is_ok negb]. rewrite Z.add_0_l. destruct (Z.eqb_spec (zlen (take_digits cs)) 0) as [E|E].
    + do 3 eexists. split; [done|]. right. split; [done|]. split; [done|]. apply zlen_0_inv in E. rewrite E. intros [Hn _]. done.
    + assert (Hf : number_text (take_digits cs)) by (apply number_text_take; [intros E'; by rewrite E' in E|done]).
      pose proof (dec_value_range _ 0 ltac:(lia) (take_digits_digits cs)).
      do 3 eexists. split; [done|]. left. split; [done|]. split; [done|]. split; [unfold u32; by rewrite Z.mod_small by lia|].
      split; [|by intros b [= <-]]. rewrite chars_drop_digits.
      pose proof (f_equal zlen (take_drop_digits cs)) as Hz. rewrite zlen_app in Hz. pose proof (zlen_nonneg (drop_digits cs)). pose proof (zlen_nonneg (take_digits cs)). pose proof (width_pos t).
      split; [rewrite <- (take_drop_digits cs) in Hok; by apply Forall_app in Hok as [_ ?]|]. cbn [str_Length str_Buffer]. unfold u16.
      rewrite Z.mod_small by nia. split; [nia|]. split; [nia|]. by exists rest.
  - destruct Hp as (i & w & ->). bsimpl. cbn [is_ok negb]. do 3 eexists. split; [done|]. right. split; [done|]. split; [done|]. intros (_ & _ & Hx). lia.
Qed.

(** What is left after a number and its dash. *)
Definition after_number (cs : list Z) : option (list Z) :=
  match drop_digits cs with [] => Some [] | c :: r => if c =? 45 then Some r else None end.

Lemma numbers_step cs ns : number_text (take_digits cs) ->
  numbers cs ns <-> exists cs' ns', after_number cs = Some cs' /\ numbers cs' ns' /\ ns = dec_value 0 (take_digits cs) :: ns'.
Proof.
  intros Hf. unfold after_number. split.
  - intros [[-> ->]|[_ [[-> ->]|(r & ns' & -> & Hn & ->)]]]%numbers_inv; [by destruct Hf|exists [], []; split; [done|split; [constructor|done]]|].
    exists r, ns'. done.
  - intros (cs' & ns' & E & Hn & ->). rewrite <- (take_drop_digits cs) at 1. destruct (drop_digits cs) as [|c r].
    + injection E as <-. rewrite app_nil_r. apply numbers_inv in Hn as [[_ ->]|[[Hx _] _]]; [by constructor|done].
    + destruct (Z.eqb_spec c 45) as [->|]; [|done]. injection E as <-. by constructor.
Qed.

Lemma skip_dash_spec S cs : string_at t S (drop_digits cs) ->
  match after_number cs with
  | Some cs' => exists S', skip_dash t S = Some (STATUS_SUCCESS, S') /\ string_at t S' cs'
  | None => exists S', skip_dash t S = Some (STATUS_INVALID_SID, S')
  end.
Proof.
  intros HS. pose proof HS as (Hok & Hl & H16 & rest & Hb). unfold skip_dash, after_number. pose proof (width_pos t) as Hw.
  destruct (drop_digits cs) as [|c r].
  - rewrite zlen_nil, Z.mul_0_r in Hl. rewrite Hl. eauto.
  - rewrite zlen_cons in Hl. pose proof (zlen_nonneg r). destruct (Z.eqb_spec (str_Length S) 0) as [|_]; [nia|]. rewrite Hb. bsimpl.
    apply Forall_cons_iff in Hok as [Hc Hok]. rewrite chars_cons, <- app_assoc.
    rewrite (ldc_at t [] c (chars t r ++ rest) Hc : ldc t (enc t c ++ chars t r ++ rest) 0 = Some c). bsimpl.
    destruct (Z.eqb_spec c 45) as [->|]; cbn [negb]; [|eauto]. eexists. split; [done|]. split; [done|]. cbn [str_Length str_Buffer]. unfold u16.
    rewrite Z.mod_small by nia. split; [nia|]. split; [nia|]. exists rest.
    pose proof (padd_chars t [45] (chars t r ++ rest)) as Ep. rewrite zlen_cons, zlen_nil, chars_cons, chars_nil, app_nil_r, Z.mul_1_r in Ep. by rewrite Ep.
Qed.

(** What the loop returns: the numbers that follow, or that there are none. *)
Definition loop_result (vs cs : list Z) (r : NTSTATUS + mem * bool * STRING) : Prop :=
  match r with
  | inl st => st = STATUS_INVALID_SID /\ forall ns, numbers cs ns -> ~ storable (vs ++ ns)
  | inr (sid, ha, S') =>
      if str_Length S' =? 0 then exists ns, numbers cs ns /\ storable (vs ++ ns) /\ sid = sid_image (vs ++ ns) /\ ha = have 2 (vs ++ ns)
      else forall ns, numbers cs ns -> ~ storable (vs ++ ns)
  end.

Lemma loop_result_step vs cs cs' r : number_text (take_digits cs) -> after_number cs = Some cs' ->
  loop_result (vs ++ [dec_value 0 (take_digits cs)]) cs' r -> loop_result vs cs r.
Proof.
  intros Hf Ha. assert (Hno : (forall ns, numbers cs' ns -> ~ storable ((vs ++ [dec_value 0 (take_digits cs)]) ++ ns)) -> forall ns, numbers cs ns -> ~ storable (vs ++ ns)).
  { intros Hno ns Hn. apply numbers_step in Hn as (x & ns' & Hx & Hn & ->); [|done]. rewrite Ha in Hx. injection Hx as <-. specialize (Hno ns' Hn). by rewrite <- app_assoc in Hno. }
  unfold loop_result. destruct r as [st|[[sid ha] S']]; [intros [-> Hr]; eauto|]. destruct (str_Length S' =? 0); [|eauto].
  intros (ns & Hn & Hs & -> & ->). exists (dec_value 0 (take_digits cs) :: ns). rewrite <- app_assoc in *. split; [|done].
  apply numbers_step; eauto.
Qed.

Lemma loop_result_none vs cs S : string_at t S cs -> storable vs -> ~ number_text (take_digits cs) -> loop_result vs cs (inr (sid_image vs, have 2 vs, S)).
Proof.
  intros (_ & Hl & _) Hvs Hnf. cbn. pose proof (width_pos t). destruct (Z.eqb_spec (str_Length S) 0) as [E|E].
  - assert (cs = []) as -> by (apply zlen_0_inv; nia). exists []. rewrite app_nil_r. split; [constructor|done].
  - intros ns [[-> ->]|[Hx _]]%numbers_inv; [|done]. rewrite zlen_nil in Hl. lia.
Qed.

Lemma after_number_length cs cs' : number_text (take_digits cs) -> after_number cs = Some cs' -> (length cs' < length cs)%nat.
Proof.
  intros (Hne & _) Ha. rewrite <- (take_drop_digits cs), length_app. unfold after_number in Ha. destruct (take_digits cs); [done|]. cbn [length].
  destruct (drop_digits cs) as [|c r]; [injection Ha as <-; cbn; lia|]. destruct (c =? 45); [|done]. injection Ha as <-. cbn [length]. lia.
Qed.

(** The loop reads the numbers that follow. *)
Lemma parse_loop_spec fuel : forall vs S cs, (length cs < fuel)%nat -> string_at t S cs -> storable vs ->
  exists r, parse_loop t fuel (sid_image vs) (have 1 vs) (have 2 vs) S = Some r /\ loop_result vs cs r.
Proof.
  induction fuel as [|fuel IH]; intros vs S cs Hf HS Hvs; [lia|]. cbn [parse_loop].
  destruct (StringParseULONG_spec S cs HS) as (st & v & S1 & -> & [(-> & Hfd & -> & HS1 & _)|(Hst & -> & Hnf)]); bsimpl.
  2: { rewrite Hst. eexists. split; [done|]. by apply loop_result_none. }
  cbn [is_ok negb]. pose proof (dec_value_range _ 0 ltac:(lia) (take_digits_digits cs)) as Hv0. pose proof Hfd as (_ & _ & Hv32).
  pose proof (skip_dash_spec S1 cs HS1) as Hd. destruct (after_number cs) as [cs'|] eqn:Ha.
  2: { destruct Hd as (S2 & ->). bsimpl. eexists. split; [done|]. split; [done|]. intros ns (cs' & ns' & E & _)%numbers_step; [|done]. congruence. }
  destruct Hd as (S2 & -> & HS2). bsimpl. cbn [is_ok negb].
  destruct (store_number_spec vs (dec_value 0 (take_digits cs)) Hvs ltac:(lia)) as (st & vs' & -> & [(-> & -> & Hvs')|(-> & Hno)]); bsimpl; cbn [is_ok negb].
  - pose proof (after_number_length cs cs' Hfd Ha). destruct (IH _ S2 cs' ltac:(lia) HS2 Hvs') as (r & -> & Hr). exists r. split; [done|].
    by eapply loop_result_step.
  - eexists. split; [done|]. split; [done|]. intros ns (x & ns' & _ & _ & ->)%numbers_step; [|done]. apply Hno.
Qed.

Lemma numbers_fun n : forall cs ns ns', (length cs < n)%nat -> numbers cs ns -> numbers cs ns' -> ns = ns'.
Proof.
  induction n as [|n IH]; intros cs ns ns' Hn H1 H2; [lia|].
  destruct (decide (cs = [])) as [->|Hne]; [by apply numbers_inv in H1 as [[_ ->]|[(? & _) _]]; apply numbers_inv in H2 as [[_ ->]|[(? & _) _]]|].
  pose proof (numbers_inv _ _ H1) as [[? _]|[Hf _]]; [done|].
  apply numbers_step in H1 as (c1 & n1 & E1 & H1 & ->); [|done]. apply numbers_step in H2 as (c2 & n2 & E2 & H2 & ->); [|done].
  rewrite E1 in E2. injection E2 as <-. f_equal. eapply IH; [|done..]. pose proof (after_number_length cs c1 Hf E1). lia.
Qed.

Lemma has_prefix_spec S cs : string_at t S cs ->
  has_prefix t S = Some (match cs with c0 :: c1 :: _ :: _ => ((c0 =? 83) || (c0 =? 115)) && (c1 =? 45) | _ => false end).
Proof.
  intros (Hok & Hl & _ & rest & Hb). unfold has_prefix. rewrite Hb, Hl. pose proof (width_pos t).
  destruct (Z.ltb_spec (2 * width t) (width t * zlen cs)) as [Hx|Hx]; (destruct cs as [|c0 [|c1 [|c2 cs]]]; rewrite ?zlen_cons, ?zlen_nil in Hx; [nia || done..|]).
  2: { pose proof (zlen_nonneg cs). nia. }
  cbn [negb]. bsimpl. apply Forall_cons_iff in Hok as [H0' Hok]. apply Forall_cons_iff in Hok as [H1 _]. rewrite chars_cons, <- app_assoc.
  rewrite (ldc_at t [] c0 _ H0' : ldc t (enc t c0 ++ _) 0 = Some c0). bsimpl. destruct ((c0 =? 83) || (c0 =? 115)); cbn [negb andb]; [|done].
  pose proof (ldc_at t [c0] c1 (chars t (c2 :: cs) ++ rest) H1) as El. rewrite chars_cons, chars_nil, app_nil_r in El.
  rewrite chars_cons, <- app_assoc. change (zlen [c0]) with 1 in El. rewrite El. done.
Qed.

(** The SID of the numbers read. *)
Lemma sid_image_means r a subs : storable (r :: a :: subs) -> Forall (fun v => 0 <= v < 2 ^ 32) (r :: a :: subs) ->
  let s := mk_sid r (authority_bytes a) subs in sid_at host (sid_image (r :: a :: subs)) s.
Proof.
  intros [Hl Hr] Hv s. apply Forall_cons_iff in Hv as [Hr' Hv]. apply Forall_cons_iff in Hv as [Ha Hv]. cbn [length] in Hl. split.
  - unfold sid_wf, sid_count. cbn [s sid_revision sid_authority sid_sub]. split; [lia|]. split; [done|]. split; [apply authority_bytes_ok; lia|]. split; [lia|done].
  - exists (zeros (60 - 4 * Z.of_nat (length subs))). unfold sid_bytes, sid_header, sid_count. cbn [s sid_revision sid_authority sid_sub sid_image]. by rewrite <- !app_assoc.
Qed.

Lemma sid_text_numbers c rest s : sid_text (c :: 45 :: rest) s ->
  exists a, numbers rest (sid_revision s :: a :: sid_sub s) /\ sid_authority s = authority_bytes a /\ sid_valid s = true /\ storable (sid_revision s :: a :: sid_sub s).
Proof.
  intros (c' & a & rest' & [= <- <-] & _ & Hn & Ha & Hv). exists a. split; [done|]. split; [done|]. split; [done|].
  unfold sid_valid, sid_count, SID_REVISION, SID_MAX_SUB_AUTHORITIES in Hv. bool_hyps. split; cbn [length]; lia.
Qed.

Lemma sid_text_fun cs s s' : sid_text cs s -> sid_text cs s' -> s = s'.
Proof.
  intros Hs Hs'. pose proof Hs as (c & _ & rest & -> & _). apply sid_text_numbers in Hs as (a & Hn & Ha & _). apply sid_text_numbers in Hs' as (a' & Hn' & Ha' & _).
  pose proof (numbers_fun _ _ _ _ (Nat.lt_succ_diag_r _) Hn Hn') as [= E1 -> E2]. destruct s, s'. cbn in *. congruence.
Qed.

Lemma parse_sid_spec S cs : string_at t S cs ->
  exists r, parse_sid t S = Some r /\
    match r with
    | inr m => exists s, sid_text cs s /\ sid_at host m s
    | inl st => st = STATUS_INVALID_SID /\ forall s, ~ sid_text cs s
    end.
Proof.
  intros HS. pose proof HS as (Hok & Hl & H16 & rest & Hb). unfold parse_sid. rewrite (has_prefix_spec S cs HS). bsimpl. rewrite Hb.
  destruct cs as [|c0 [|c1 [|c2 cs]]]; cbn [negb].
  1-2: by eexists; split; [done|]; split; [done|]; intros s (c & a & r & E & _).
  { eexists; split; [done|]; split; [done|]. intros s (c & a & r & [= <- -> <-] & _ & Hn & _). by apply numbers_inv in Hn as [[_ ?]|[(? & _) _]]. }
  destruct (((c0 =? 83) || (c0 =? 115)) && (c1 =? 45)) eqn:Ep; cbn [negb].
  2: { eexists; split; [done|]; split; [done|]. intros s (c & a & r & [= <- -> _] & Hc & _). rewrite andb_false_iff, orb_false_iff in Ep. lia. }
  bool_hyps. subst c1. bsimpl. apply Forall_cons_iff in Hok as [_ Hok]. apply Forall_cons_iff in Hok as [_ Hok]. rewrite !zlen_cons in Hl.
  set (S0 := mk_string _ _ _). assert (HS0 : string_at t S0 (c2 :: cs)).
  { pose proof (width_pos t). pose proof (zlen_nonneg cs). split; [done|]. subst S0. cbn [str_Length str_Buffer]. unfold u16. rewrite !zlen_cons, Z.mod_small by nia. split; [nia|]. split; [nia|].
    exists rest. f_equal. rewrite (chars_app t [c0; 45] (c2 :: cs) : chars t (c0 :: 45 :: c2 :: cs) = _). rewrite <- app_assoc. rewrite Z.mul_comm. exact (padd_chars t [c0; 45] _). }
  destruct (parse_loop_spec (Datatypes.S (length (chars t (c0 :: 45 :: c2 :: cs) ++ rest))) [] S0 (c2 :: cs)) as (r & Er & Hr).
  { rewrite length_app. pose proof (zlen_chars t (c0 :: 45 :: c2 :: cs)) as Hz. pose proof (width_pos t). rewrite !zlen_cons in Hz. unfold zlen in Hz. cbn [length]. nia. }
  { done. }
  { split; [cbn; lia|done]. }
  change (sid_image []) with (zeros SID_MAX_SIZE) in Er. change (have 1 []) with false in Er. change (have 2 []) with false in Er. rewrite Er. bsimpl. unfold loop_result in Hr. cbn [app] in Hr.
  assert (Hno : (forall ns, numbers (c2 :: cs) ns -> ~ storable ns) -> forall s, ~ sid_text (c0 :: 45 :: c2 :: cs) s).
  { intros Hx s (a & Hn & _ & _ & Hs)%sid_text_numbers. by apply (Hx _ Hn). }
  destruct r as [st|[[m ha] S']]; [destruct Hr as [-> Hr]; eexists; split; [done|]; split; [done|by apply Hno]|].
  destruct (str_Length S' =? 0); [|rewrite orb_true_r; eexists; split; [done|]; split; [done|by apply Hno]].
  destruct Hr as (ns & Hn & Hs & -> & ->). rewrite orb_false_r. destruct ns as [|r [|a subs]].
  1-2: eexists; split; [done|]; split; [done|]; intros s (a' & Hn' & _)%sid_text_numbers; by pose proof (numbers_fun _ _ _ _ (Nat.lt_succ_diag_r _) Hn Hn').
  cbn [have length Nat.leb negb]. pose proof (sid_image_means r a subs Hs (numbers_range _ _ Hn)) as Hat. cbv zeta in Hat.
  rewrite (sid_at_valid _ _ _ Hat). bsimpl. destruct (sid_valid _) eqn:Ev; eexists; (split; [done|]).
  - eexists. split; [|exact Hat]. exists c0, a, (c2 :: cs). split; [done|]. rewrite orb_true_iff, !Z.eqb_eq in *. done.
  - split; [done|]. intros s (a' & Hn' & Ha & Hv & _)%sid_text_numbers. pose proof (numbers_fun _ _ _ _ (Nat.lt_succ_diag_r _) Hn Hn') as [= -> -> ->].
    rewrite <- Ha in Ev. destruct s. cbn in *. congruence.
Qed.

Lemma AllocateSidFromString_spec malloc S cs : string_at t S cs ->
  (forall s, sid_text cs s ->
     AllocateSidFromString t malloc (Some S) =
       Some (if malloc (8 + 4 * sid_count s) then (STATUS_SUCCESS, Some (sid_bytes host s)) else (STATUS_INSUFFICIENT_RESOURCES, None))) /\
  ((forall s, ~ sid_text cs s) -> AllocateSidFromString t malloc (Some S) = Some (STATUS_INVALID_SID, None)).
Proof.
  intros HS. destruct (parse_sid_spec S cs HS) as (r & Er & Hr). unfold AllocateSidFromString, ConvertStringSidToSidEx. cbn [andb orb negb]. rewrite Er. bsimpl.
  destruct r as [st|m]; [destruct Hr as [-> Hr]; split; [intros s Hs; by destruct (Hr s)|done]|]. destruct Hr as (s & Hs & Hm). split; [|intros Hno; by destruct (Hno s)].
  intros s' Hs'. assert (s' = s) as -> by (by eapply sid_text_fun).
  rewrite (sid_at_length _ _ _ Hm). bsimpl. unfold RTL_ALLOCATE. destruct (malloc _); [|done]. cbn [is_ok negb]. bsimpl. rewrite (sid_at_rd _ _ _ Hm). bsimpl.
  rewrite wr_full; [done|]. pose proof Hm as [Hw _]. pose proof (Zle_0_nat (length (sid_sub s))). rewrite zlen_sid_bytes, zlen_zeros by (done || unfold sid_count; lia). done.
Qed.

Lemma string_of_cstr p cs : cstr t p cs -> zlen cs <= STRING_MAX_CHARS t ->
  exists S, StringInitEx t (Some p) = Some (STATUS_SUCCESS, S) /\ string_at t S cs.
Proof.
  intros Hp Hl. unfold StringInitEx, optional_strlen. rewrite (strlen_at t p cs Hp). bsimpl. destruct (Z.ltb_spec (STRING_MAX_CHARS t) (zlen cs)); [lia|].
  eexists. split; [done|]. destruct Hp as (Ht & rest & ->). pose proof (width_pos t). pose proof (zlen_nonneg cs).
  assert (zlen cs * width t < 65536) by (unfold STRING_MAX_CHARS in Hl; change (65535 / 2) with 32767 in Hl; destruct t; cbn [width]; lia).
  split; [by apply text_ok|]. cbn [string_of str_Length str_Buffer]. unfold u16. rewrite Z.mod_small by nia. split; [lia|]. split; [lia|].
  exists (chars t [0] ++ rest). by rewrite chars_app, <- app_assoc.
Qed.

Lemma AllocateSidFromPointer_spec malloc p cs : cstr t p cs -> zlen cs <= STRING_MAX_CHARS t ->
  (forall s, sid_text cs s ->
     AllocateSidFromPointer t malloc (Some p) =
       Some (if malloc (8 + 4 * sid_count s) then (STATUS_SUCCESS, Some (sid_bytes host s)) else (STATUS_INSUFFICIENT_RESOURCES, None))) /\
  ((forall s, ~ sid_text cs s) -> AllocateSidFromPointer t malloc (Some p) = Some (STATUS_INVALID_SID, None)).
Proof.
  intros Hp Hl. destruct (string_of_cstr p cs Hp Hl) as (S & ES & HS). unfold AllocateSidFromPointer. rewrite ES. bsimpl. cbn [is_ok negb].
  destruct (AllocateSidFromString_spec malloc S cs HS) as [Hok Hbad]. split.
  - intros s Hs. rewrite (Hok s Hs). bsimpl. by destruct (malloc _).
  - intros Hno. by rewrite Hbad.
Qed.
End Parse.

(** * Printing *)

Lemma snprintf_zeros out size w : zlen out + zlen w < size < 2 ^ 64 ->
  snprintf (out ++ zeros (size - zlen out)) (zlen out) (u64 (size - zlen out)) w = Some ((out ++ w) ++ zeros (size - zlen (out ++ w)), zlen w).
Proof.
  intros Hs. pose proof (zlen_nonneg out). pose proof (zlen_nonneg w). unfold u64. rewrite Z.mod_small by lia.
  rewrite (zeros_cut (size - zlen out) (zlen w + 1)) by lia. rewrite snprintf_at; [|done|by rewrite zlen_zeros by lia|lia].
  rewrite zlen_app, <- !app_assoc. do 4 f_equal. rewrite (zeros_cut (size - (zlen out + zlen w)) 1) by lia. cbn. do 2 f_equal. lia.
Qed.

Lemma format_sub_length v : 0 <= v < 2 ^ 32 -> zlen (format_sub v) <= 11.
Proof. intros Hv. destruct (format_u_spec 10 v) as [Hl _]; [lia|cbn; lia|]. unfold format_sub. rewrite zlen_cons. unfold zlen. lia. Qed.

Lemma print_sub_authorities_spec p s size : sid_at host p s -> size < 2 ^ 64 -> forall n i out, (i + n = length (sid_sub s))%nat ->
  zlen out + 11 * Z.of_nat n < size ->
  print_sub_authorities n (Z.of_nat i) p (out ++ zeros (size - zlen out)) size (zlen out)
    = let all := out ++ concat (map format_sub (drop i (sid_sub s))) in Some (all ++ zeros (size - zlen all)).
Proof.
  intros Hp Hsz. induction n as [|n IH]; intros i out Hi Hl; cbn [print_sub_authorities].
  - rewrite drop_ge by lia. cbn. by rewrite app_nil_r.
  - destruct (lookup_lt_is_Some_2 (sid_sub s) i) as [v Hv]; [lia|]. rewrite (sid_at_sub p s i v Hp Hv). bsimpl.
    assert (Hv32 : 0 <= v < 2 ^ 32) by (destruct Hp as [(_ & _ & _ & _ & Hf) _]; exact (Forall_lookup_1 _ _ _ _ Hf Hv)).
    pose proof (format_sub_length v Hv32). rewrite snprintf_zeros by lia. bsimpl. replace (Z.of_nat i + 1) with (Z.of_nat (S i)) by lia.
    rewrite <- zlen_app. rewrite IH by (rewrite ?zlen_app; lia). rewrite (drop_S _ v i) by done. cbn [map concat]. cbv zeta. by rewrite <- !app_assoc.
Qed.

Lemma lor_shiftl a b k : 0 <= k -> 0 <= a < 2 ^ k -> Z.lor a (Z.shiftl b k) = a + b * 2 ^ k.
Proof.
  intros Hk Ha. rewrite <- Z.add_nocarry_lor; [by rewrite Z.shiftl_mul_pow2|]. apply Z.bits_inj'. intros n Hn. rewrite Z.land_spec, Z.bits_0.
  destruct (Z.lt_ge_cases n k); [rewrite Z.shiftl_spec_low by done; by rewrite andb_false_r|].
  rewrite <- (Z.mod_small a (2 ^ k)) by done. by rewrite Z.mod_pow2_bits_high by lia.
Qed.

Lemma authority_value_spec v0 v1 v2 v3 v4 v5 : bytes_ok [v0; v1; v2; v3; v4; v5] ->
  authority_value [v0; v1; v2; v3; v4; v5] = Some (le_decode [v5; v4; v3; v2]).
Proof.
  intros Hb. repeat (apply Forall_cons_iff in Hb as [? Hb]).
  pose proof (ld8_nth [v0; v1; v2; v3; v4] v5 []) as E5. pose proof (ld8_nth [v0; v1; v2; v3] v4 [v5]) as E4.
  pose proof (ld8_nth [v0; v1; v2] v3 [v4; v5]) as E3. pose proof (ld8_nth [v0; v1] v2 [v3; v4; v5]) as E2. cbn [app] in *.
  unfold authority_value. rewrite (E5 5), (E4 4), (E3 3), (E2 2) by done. bsimpl.
  f_equal. rewrite Z.lor_0_l. rewrite (lor_shiftl v5 v4 8) by lia. rewrite (lor_shiftl _ v3 16) by lia. rewrite (lor_shiftl _ v2 24) by lia. cbn [le_decode]. lia.
Qed.

(** The text before the sub-authorities. *)
Definition sid_head (s : sid) : list Z :=
  if big_authority s then format_hex_authority (sid_revision s) (sid_authority s) else format_authority (sid_revision s) (authority_number s).

Lemma six_bytes (m : mem) : zlen m = 6 -> exists v0 v1 v2 v3 v4 v5, m = [v0; v1; v2; v3; v4; v5].
Proof. intros Hm. do 7 (destruct m as [|? m]; [rewrite ?zlen_cons, zlen_nil in Hm; lia || eauto 10|]). rewrite !zlen_cons in Hm. pose proof (zlen_nonneg m). lia. Qed.

Lemma sid_head_length s : sid_wf s -> zlen (sid_head s) <= 20.
Proof.
  intros (Hr & Ha & Hb & _). destruct (format_u_spec 3 (sid_revision s)) as [Hl _]; [lia|cbn; lia|].
  destruct (six_bytes _ Ha) as (v0 & v1 & v2 & v3 & v4 & v5 & E). unfold sid_head. destruct (big_authority s).
  - rewrite E. unfold format_hex_authority. rewrite !zlen_app. cbn [map concat format_2X app]. rewrite !zlen_cons, zlen_nil. unfold zlen. lia.
  - assert (0 <= authority_number s < 256 ^ 4) as Hn.
    { unfold authority_number. rewrite E in *. cbn [drop rev app]. repeat (apply Forall_cons_iff in Hb as [? Hb]). cbn. lia. }
    destruct (format_u_spec 10 (authority_number s)) as [Hl' _]; [lia|cbn in *; lia|]. unfold format_authority. rewrite !zlen_app, !zlen_cons, zlen_nil. unfold zlen. lia.
Qed.

Lemma sid_string_length s : sid_wf s -> zlen (sid_string s) <= 20 + 11 * sid_count s.
Proof.
  intros Hw. unfold sid_string. fold (sid_head s). rewrite zlen_app. pose proof (sid_head_length s Hw). destruct Hw as (_ & _ & _ & _ & Hs). unfold sid_count.
  assert (zlen (concat (map format_sub (sid_sub s))) <= 11 * Z.of_nat (length (sid_sub s))); [|lia].
  clear -Hs. induction Hs as [|v l Hv Hl IH]; [done|]. cbn [map concat length]. rewrite zlen_app. pose proof (format_sub_length v Hv). lia.
Qed.

Lemma sid_head_printed p s : sid_at host p s -> exists Value v0 v1, Sid_IdentifierAuthority p = Some Value /\ ld8 Value 0 = Some v0 /\ ld8 Value 1 = Some v1 /\
  (if negb (v0 =? 0) || negb (v1 =? 0) then Some (format_hex_authority (sid_revision s) Value)
   else value ← authority_value Value; Some (format_authority (sid_revision s) value)) = Some (sid_head s).
Proof.
  intros Hp. rewrite (sid_at_authority _ _ _ Hp). pose proof Hp as [(_ & Ha & Hb & _) _]. destruct (six_bytes _ Ha) as (v0 & v1 & v2 & v3 & v4 & v5 & E).
  exists (sid_authority s), v0, v1. unfold sid_head, big_authority, authority_number. rewrite E in *. split; [done|]. split; [apply ld8_first|]. split; [apply ld8_second|].
  destruct (negb (v0 =? 0) || negb (v1 =? 0)); [done|]. rewrite authority_value_spec by done. done.
Qed.

(** The block is exactly the text, its terminator and zeros. *)
Definition sid_string_block (s : sid) : mem := sid_string s ++ zeros (RTLP_STRING_SID_MAX_CHARS (sid_count s) - zlen (sid_string s)).

Lemma RtlAllocateCStringFromSid_spec malloc p s : sid_at host p s -> sid_valid s = true ->
  RtlAllocateCStringFromSid malloc true (Some p) =
    Some (if malloc (RTLP_STRING_SID_MAX_CHARS (sid_count s)) then (STATUS_SUCCESS, Some (sid_string_block s)) else (STATUS_INSUFFICIENT_RESOURCES, None)).
Proof.
  intros Hp Hv. pose proof Hp as [Hw _]. unfold RtlAllocateCStringFromSid. cbn [negb]. rewrite (sid_at_valid _ _ _ Hp), Hv. bsimpl. cbn [negb].
  rewrite (sid_at_count _ _ _ Hp). bsimpl. unfold RTL_ALLOCATE. destruct (malloc _); [|done]. cbn [is_ok negb]. bsimpl. rewrite (sid_at_revision _ _ _ Hp). bsimpl.
  destruct (sid_head_printed p s Hp) as (Value & v0 & v1 & -> & E0 & E1 & Eh). bsimpl. rewrite E0. bsimpl. rewrite E1. bsimpl. rewrite Eh. bsimpl.
  pose proof (sid_head_length s Hw). unfold sid_valid, SID_MAX_SUB_AUTHORITIES in Hv. bool_hyps. assert (0 <= sid_count s) by (unfold sid_count; lia).
  unfold RTLP_STRING_SID_MAX_CHARS. set (size := 2 + 3 + 1 + 14 + (1 + 10) * sid_count s + 1).
  pose proof (snprintf_zeros [] size (sid_head s)) as E. rewrite zlen_nil, Z.sub_0_r in E. cbn [app] in E. rewrite Z.sub_0_r, E by lia. bsimpl.
  pose proof (print_sub_authorities_spec p s size Hp ltac:(lia) (length (sid_sub s)) 0 (sid_head s)) as Ep. change (Z.of_nat 0) with 0 in Ep.
  unfold sid_count at 1. rewrite Nat2Z.id. rewrite Ep; [|lia|unfold sid_count in *; lia]. bsimpl. done.
Qed.

Lemma sid_string_text s : sid_wf s -> Forall (fun c => 0 < c < 128) (sid_string s).
Proof.
  assert (Hu : forall v, 0 <= v < 10 ^ 10 -> Forall (fun c => 0 < c < 128) (format_u v)).
  { intros v Hv. destruct (format_u_spec 10 v) as (_ & Hd & _); [lia|done|]. apply Forall_forall. intros c Hc.
    assert (Hx : digit c = true) by (apply (proj1 (forallb_forall digit (format_u v))); [done|by apply list_elem_of_In]). unfold digit in Hx. bool_hyps. lia. }
  intros (Hr & Ha & Hb & _ & Hs). destruct (six_bytes _ Ha) as (v0 & v1 & v2 & v3 & v4 & v5 & E). unfold sid_string. apply Forall_app_2.
  - destruct (big_authority s); unfold format_hex_authority, format_authority, authority_number; repeat apply Forall_app_2; try (apply Hu; lia); try (repeat constructor; lia).
    + rewrite E in *. cbn [map concat format_2X app]. repeat (apply Forall_cons_iff in Hb as [? Hb]).
      repeat (constructor; [apply hex_digit_char; first [apply Z.mod_pos_bound; lia | split; [apply Z.div_pos; lia | apply Z.div_lt_upper_bound; lia]]|]). constructor.
    + rewrite E in *. cbn [drop rev app]. repeat (apply Forall_cons_iff in Hb as [? Hb]). apply Hu. cbn. lia.
  - induction Hs as [|v l Hv Hl IH]; [constructor|]. cbn [map concat]. apply Forall_app_2; [|done]. constructor; [lia|]. apply Hu. lia.
Qed.

(** * Both ways *)

Lemma number_text_format v : 0 <= v < 2 ^ 32 -> number_text (format_u v) /\ dec_value 0 (format_u v) = v.
Proof.
  intros Hv. destruct (format_u_spec 10 v) as (Hl & Hd & Hval); [lia|cbn; lia|]. split; [|done]. split; [intros E; rewrite E in Hl; cbn in Hl; lia|].
  split; [done|]. rewrite Hval; lia.
Qed.

Lemma numbers_printed vs : Forall (fun v => 0 <= v < 2 ^ 32) vs -> forall v, 0 <= v < 2 ^ 32 -> numbers (format_u v ++ concat (map format_sub vs)) (v :: vs).
Proof.
  induction 1 as [|w vs Hw Hvs IH]; intros v Hv; destruct (number_text_format v Hv) as [Hf E]; rewrite <- E at 2; cbn [map concat].
  - rewrite app_nil_r. by constructor.
  - apply numbers_more; [done|]. by apply IH.
Qed.

Lemma shift_byte a k : 0 <= k -> Z.shiftr (Z.land a (Z.shiftl 255 k)) k = (a / 2 ^ k) mod 256.
Proof.
  intros Hk. rewrite Z.shiftr_land, Z.shiftr_shiftl_l, Z.sub_diag, Z.shiftl_0_r by lia. change 255 with (Z.ones 8). rewrite Z.land_ones by lia.
  by rewrite Z.shiftr_div_pow2 by lia.
Qed.

Lemma authority_bytes_number v2 v3 v4 v5 : bytes_ok [v2; v3; v4; v5] -> authority_bytes (le_decode [v5; v4; v3; v2]) = [0; 0; v2; v3; v4; v5].
Proof.
  intros Hb. repeat (apply Forall_cons_iff in Hb as [? Hb]). unfold authority_bytes. set (a := le_decode _).
  change 0xFF000000 with (Z.shiftl 255 24). change 0x00FF0000 with (Z.shiftl 255 16). change 0x0000FF00 with (Z.shiftl 255 8). rewrite !shift_byte by lia.
  pose proof (shift_byte a 0 ltac:(lia)) as E. rewrite Z.shiftr_0_r in E. change (Z.shiftl 255 0) with 255 in E. rewrite E.
  assert (Ea : a = v5 + 256 * (v4 + 256 * (v3 + 256 * v2))) by (subst a; cbn [le_decode]; lia). clearbody a.
  assert ((a / 2 ^ 24) mod 256 = v2 /\ (a / 2 ^ 16) mod 256 = v3 /\ (a / 2 ^ 8) mod 256 = v4 /\ (a / 2 ^ 0) mod 256 = v5) as (-> & -> & -> & ->); [|done].
  clear E. Z.div_mod_to_equations. lia.
Qed.

Lemma sid_string_sid_text s : sid_wf s -> sid_valid s = true -> big_authority s = false -> sid_text (sid_string s) s.
Proof.
  intros (Hr & Ha & Hb & _ & Hs) Hv Hbig. unfold sid_string. rewrite Hbig. destruct (six_bytes _ Ha) as (v0 & v1 & v2 & v3 & v4 & v5 & E).
  unfold big_authority in Hbig. unfold authority_number. rewrite E in *. bool_hyps. subst v0 v1. cbn [drop rev app]. do 2 apply Forall_cons_iff in Hb as [_ Hb].
  exists 83, (le_decode [v5; v4; v3; v2]), ((format_u (sid_revision s) ++ [45] ++ format_u (le_decode [v5; v4; v3; v2])) ++ concat (map format_sub (sid_sub s))).
  split; [done|]. split; [by left|]. rewrite E, authority_bytes_number by done. split; [|done].
  rewrite <- app_assoc. pose proof (numbers_printed (le_decode [v5; v4; v3; v2] :: sid_sub s)) as Hn. cbn [map concat] in Hn. apply Hn; [|lia].
  constructor; [|done]. repeat (apply Forall_cons_iff in Hb as [? Hb]). cbn [le_decode]. lia.
Qed.

Lemma big_authority_not_text s s' : sid_wf s -> big_authority s = true -> ~ sid_text (sid_string s) s'.
Proof.
  intros (Hr & _) Hbig Ht. unfold sid_string in Ht. rewrite Hbig in Ht. unfold format_hex_authority in Ht. rewrite <- !app_assoc in Ht.
  apply sid_text_numbers in Ht as (a & Hn & _). destruct (number_text_format (sid_revision s)) as [Hf _]; [lia|].
  destruct (number_text_split _ ([45; 48; 120] ++ concat (map format_2X (sid_authority s)) ++ concat (map format_sub (sid_sub s))) Hf eq_refl) as [E1 E2].
  apply numbers_step in Hn as (cs' & ns' & Ea & Hn & _); [|by rewrite E1]. unfold after_number in Ea. rewrite E2 in Ea. cbn in Ea. injection Ea as <-.
  apply numbers_inv in Hn as [[? _]|[_ [[? _]|(r & ns & E & _)]]]; done.
Qed.

Lemma sid_string_block_cstr s : sid_wf s -> cstr CHAR (sid_string_block s) (sid_string s).
Proof.
  intros Hw. pose proof (sid_string_text s Hw) as Ht. pose proof (sid_string_length s Hw).
  split; [eapply Forall_impl; [exact Ht|]; cbn; lia|]. unfold sid_string_block, RTLP_STRING_SID_MAX_CHARS.
  exists (zeros (2 + 3 + 1 + 14 + (1 + 10) * sid_count s + 1 - zlen (sid_string s) - 1)).
  rewrite chars_CHAR by (apply Forall_app_2; [eapply Forall_impl; [exact Ht|]; cbn; lia|repeat constructor; lia]).
  rewrite <- app_assoc, (zeros_cut _ 1) by lia. done.
Qed.
End Functions.

(** A locale whose encoding extends ASCII, as the encodings of the locales of Unix
    do: [mbstowcs] counts, and [iconv] converts, an ASCII character as itself. *)
Class AsciiLocale `{Host} `{Locale} : Prop := {
  mbstrlen_ascii cs : Forall (fun c => 0 < c < 128) cs -> mbstrlen cs = Some (zlen cs);
  iconv_ascii cs room : Forall (fun c => 0 < c < 128) cs -> 2 * zlen cs <= room -> iconv_from_mb cs room = Some (true, chars WCHAR cs)
}.

(** The blocks [malloc] returns have the size asked for. *)
Definition sized (fresh : Z -> ptr) : Prop := forall n p, 0 <= n -> fresh n = Some p -> zlen p = n.

Section Wide.
Context `{Host} `{Locale} (Hascii : AsciiLocale) (fresh : Z -> ptr) (Hfresh : sized fresh).

Lemma ascii_bytes cs : Forall (fun c => 0 < c < 128) cs -> Forall (fun c => 0 <= c < 256) cs.
Proof. intros Ha. eapply Forall_impl; [exact Ha|]. cbn. lia. Qed.

Lemma mbstowc16s_ascii dest src cs : Forall (fun c => 0 < c < 128) cs -> cstr CHAR src cs -> zlen dest = (zlen cs + 1) * 2 ->
  mbstowc16s dest src (zlen cs + 1) = Some (chars WCHAR (cs ++ [0]), zlen cs).
Proof.
  intros Ha Hs Hd. unfold mbstowc16s. rewrite (strlen_at CHAR src cs Hs). bsimpl. destruct Hs as (Ht & rest & ->).
  rewrite chars_app, (chars_CHAR cs (ascii_bytes cs Ha)), <- app_assoc, rd_at_0 by done. bsimpl.
  rewrite iconv_ascii by (done || lia). bsimpl. pose proof (zlen_chars WCHAR cs) as Hz. cbn [width] in Hz. pose proof (zlen_nonneg cs).
  destruct (zlen_split dest (zlen (chars WCHAR cs))) as (d1 & d2 & -> & Hd1); [lia|]. rewrite zlen_app in Hd.
  rewrite wr_at_0 by done. bsimpl. destruct (Z.leb_spec 2 ((zlen cs + 1) * 2 - zlen (chars WCHAR cs))); [|lia].
  pose proof (wr_at (chars WCHAR cs) d2 (enc WCHAR 0) []) as Hw. rewrite !app_nil_r in Hw. rewrite Hw by (done || rewrite zlen_enc; cbn; lia). bsimpl.
  cbn [negb andb]. rewrite chars_app, (chars_cons WCHAR 0 []), chars_nil, app_nil_r. rewrite Hz. replace ((zlen cs + 1) * 2 - 2 * zlen cs) with 2 by lia.
  replace (zlen cs + 1 - 2 / 2) with (zlen cs) by (change (2 / 2) with 1; lia). done.
Qed.

Lemma ambstowc16s_ascii src cs : Forall (fun c => 0 < c < 128) cs -> cstr CHAR src cs ->
  ambstowc16s fresh (Some src) = Some (_ ← fresh ((zlen cs + 1) * 2); Some (chars WCHAR (cs ++ [0]))).
Proof using Hfresh Hascii.
  intros Ha Hs. unfold ambstowc16s. rewrite (strlen_at CHAR src cs Hs). bsimpl.
  assert (Er : rd src 0 (zlen cs) = Some cs).
  { destruct Hs as (_ & rest & ->). rewrite chars_app, (chars_CHAR cs (ascii_bytes cs Ha)), <- app_assoc. by apply rd_at_0. }
  rewrite Er. bsimpl. rewrite mbstrlen_ascii by done. destruct (fresh ((zlen cs + 1) * 2)) as [buffer|] eqn:Ef; [|done].
  pose proof (zlen_nonneg cs). rewrite (mbstowc16s_ascii buffer src cs) by (done || (apply Hfresh; [lia|done])). bsimpl. by rewrite Z.eqb_refl.
Qed.

Lemma ascii_wide cs : Forall (fun c => 0 < c < 128) cs -> cstr WCHAR (chars WCHAR (cs ++ [0])) cs.
Proof. intros Ha. split; [eapply Forall_impl; [exact Ha|]; cbn; lia|]. exists []. by rewrite app_nil_r. Qed.

Lemma RtlAllocateWC16StringFromSid_spec malloc eilseq p s : sid_at host p s -> sid_valid s = true ->
  malloc (RTLP_STRING_SID_MAX_CHARS (sid_count s)) = true -> fresh ((zlen (sid_string s) + 1) * 2) <> None ->
  RtlAllocateWC16StringFromSid malloc fresh eilseq true (Some p) = Some (STATUS_SUCCESS, Some (chars WCHAR (sid_string s ++ [0]))).
Proof using Hfresh Hascii.
  intros Hp Hv Hm Hf. pose proof Hp as [Hw _]. unfold RtlAllocateWC16StringFromSid. cbn [negb]. rewrite (RtlAllocateCStringFromSid_spec malloc p s Hp Hv), Hm. bsimpl.
  cbn [is_ok negb LwRtlWC16StringAllocateFromCString]. rewrite (ambstowc16s_ascii _ _ (sid_string_text s Hw) (sid_string_block_cstr s Hw)). bsimpl.
  by destruct (fresh _).
Qed.
End Wide.

(** * Theorems *)

(** C32: The parser of SID strings ([ANSI_STRING] and [UNICODE_STRING]) accepts
    exactly the texts of the grammar [sid_text] and returns a block that holds
    exactly the SID of the text (or reports that there is no memory for it); every
    other text is refused with [STATUS_INVALID_SID]. *)
Theorem AllocateSidFromString_correct `{Host} t malloc S cs : string_at t S cs ->
  (forall s, sid_text cs s ->
     AllocateSidFromString t malloc (Some S) =
       Some (if malloc (8 + 4 * sid_count s) then (STATUS_SUCCESS, Some (sid_bytes host s)) else (STATUS_INSUFFICIENT_RESOURCES, None))) /\
  ((forall s, ~ sid_text cs s) -> AllocateSidFromString t malloc (Some S) = Some (STATUS_INVALID_SID, None)).
Proof. apply AllocateSidFromString_spec. Qed.

(** The block of [RTLP_STRING_SID_MAX_CHARS] characters that
    [RtlAllocateCStringFromSid] prints into is never too small: for every valid SID
    nothing is cut off, and the block is exactly the text, its terminator and
    zeros. *)
Theorem sid_string_bounds `{Host} malloc p s : sid_at host p s -> sid_valid s = true ->
  let size := RTLP_STRING_SID_MAX_CHARS (sid_count s) in
  zlen (sid_string s) < size /\
  (malloc size = true -> RtlAllocateCStringFromSid malloc true (Some p) = Some (STATUS_SUCCESS, Some (sid_string s ++ zeros (size - zlen (sid_string s))))) /\
  (malloc size = false -> RtlAllocateCStringFromSid malloc true (Some p) = Some (STATUS_INSUFFICIENT_RESOURCES, None)).
Proof.
  intros Hp Hv size. rewrite (RtlAllocateCStringFromSid_spec malloc p s Hp Hv). split; [|split; intros E; subst size; by rewrite E].
  pose proof (sid_string_length s (proj1 Hp)). subst size. unfold RTLP_STRING_SID_MAX_CHARS. lia.
Qed.

(** C33: A valid SID whose authority fits 32 bits, printed to a string of 8-bit
    characters on one host and read back on another (of the same byte order or of the
    other one), is the same SID. So is one that is printed to a string of 16-bit
    characters and read back on the same host, in any locale that extends ASCII (these
    characters are in the byte order of the host). *)
Theorem sid_string_roundtrip (h1 h2 : Host) `{Locale} (Hascii : @AsciiLocale h2 _) malloc fresh eilseq p p2 s :
  sid_at h1 p s -> sid_at h2 p2 s -> sid_valid s = true -> big_authority s = false -> (forall n, malloc n = true) -> sized fresh -> (forall n, fresh n <> None) ->
  (exists q, @RtlAllocateCStringFromSid h1 malloc true (Some p) = Some (STATUS_SUCCESS, Some q) /\
     @RtlAllocateSidFromCString h2 malloc (Some q) = Some (STATUS_SUCCESS, Some (sid_bytes h2 s))) /\
  (exists q, @RtlAllocateWC16StringFromSid h2 _ malloc fresh eilseq true (Some p2) = Some (STATUS_SUCCESS, Some q) /\
     @RtlAllocateSidFromWC16String h2 malloc (Some q) = Some (STATUS_SUCCESS, Some (sid_bytes h2 s))).
Proof.
  intros Hp Hp2 Hv Hb Hm Hf Hn. pose proof (proj1 Hp) as Hw. pose proof (sid_string_sid_text s Hw Hv Hb) as Ht. pose proof (sid_string_length s Hw) as Hl.
  assert (sid_count s <= 15) by (unfold sid_valid, SID_MAX_SUB_AUTHORITIES in Hv; bool_hyps; lia).
  split; eexists; split.
  - rewrite (RtlAllocateCStringFromSid_spec malloc p s Hp Hv), Hm. done.
  - destruct (@AllocateSidFromPointer_spec h2 CHAR malloc _ _ (sid_string_block_cstr s Hw)) as [Hok _]; [cbn; lia|]. unfold RtlAllocateSidFromCString. by rewrite (Hok s Ht), Hm.
  - by apply (RtlAllocateWC16StringFromSid_spec Hascii fresh Hf malloc eilseq p2 s).
  - destruct (@AllocateSidFromPointer_spec h2 WCHAR malloc _ _ (ascii_wide _ (sid_string_text s Hw))) as [Hok _]; [change (STRING_MAX_CHARS WCHAR) with 32767; lia|].
    unfold RtlAllocateSidFromWC16String. by rewrite (Hok s Ht), Hm.
Qed.

(** A SID whose authority takes more than 32 bits is printed in a form that the
    parser refuses. *)
Theorem big_authority_refused `{Host} malloc p s : sid_at host p s -> sid_valid s = true -> big_authority s = true -> (forall n, malloc n = true) ->
  exists q, RtlAllocateCStringFromSid malloc true (Some p) = Some (STATUS_SUCCESS, Some q) /\
    RtlAllocateSidFromCString malloc (Some q) = Some (STATUS_INVALID_SID, None).
Proof.
  intros Hp Hv Hb Hm. pose proof (proj1 Hp) as Hw. pose proof (sid_string_length s Hw).
  assert (sid_count s <= 15) by (unfold sid_valid, SID_MAX_SUB_AUTHORITIES in Hv; bool_hyps; lia).
  eexists. split; [by rewrite (RtlAllocateCStringFromSid_spec malloc p s Hp Hv), Hm|].
  destruct (AllocateSidFromPointer_spec CHAR malloc _ _ (sid_string_block_cstr s Hw)) as [_ Hbad]; [cbn; lia|]. apply Hbad. intros s'. by apply big_authority_not_text.
Qed.

(** * Concrete inputs *)

Definition sample_sid : sid := mk_sid 1 [0; 0; 0; 0; 0; 5] [32; 544].
Definition sample_big : sid := mk_sid 1 [1; 0; 0; 0; 0; 5] [7].

Lemma sample_sid_at e : sid_at e (sid_bytes e sample_sid) sample_sid /\ sid_at e (sid_bytes e sample_big) sample_big.
Proof.
  split; (split; [|exists []; by rewrite app_nil_r]); (split; [cbn; lia|split; [done|split; [repeat constructor; lia|split; [done|repeat constructor; lia]]]]).
Qed.

(** The [C] locale. *)
Definition ascii (c : Z) : bool := (0 <=? c) && (c <? 128).
#[local] Instance c_locale `{Host} : Locale := {|
  towupper c := if (97 <=? c) && (c <=? 122) then c - 32 else c;
  towlower c := if (65 <=? c) && (c <=? 90) then c + 32 else c;
  toupper c := if (97 <=? c) && (c <=? 122) then c - 32 else c;
  tolower c := if (65 <=? c) && (c <=? 90) then c + 32 else c;
  mbstrlen cs := if forallb ascii cs then Some (zlen cs) else None;
  iconv_from_mb cs room := Some (if forallb ascii cs && (2 * zlen cs <=? room) then (true, chars WCHAR cs) else (false, []))
|}.

#[local] Instance c_locale_ascii `{Host} : AsciiLocale.
Proof.
  assert (Ha : forall cs, Forall (fun c => 0 < c < 128) cs -> forallb ascii cs = true).
  { intros cs Hcs. apply forallb_forall. intros c Hc%list_elem_of_In. pose proof (proj1 (Forall_forall _ _) Hcs c Hc) as Hx. cbv beta in Hx.
    unfold ascii. rewrite andb_true_iff, Z.leb_le, Z.ltb_lt. lia. }
  split; intros; cbn; rewrite Ha by done; [done|]. destruct (Z.leb_spec (2 * zlen cs) room); [done|lia].
Qed.

Definition sample_text : list Z := [83; 45; 49; 45; 53; 45; 51; 50; 45; 53; 52; 52].
Definition sample_string : STRING := mk_string 12 13 (Some (sample_text ++ [0])).

Lemma sample_string_at : @string_at LittleEndian CHAR sample_string sample_text.
Proof. split; [repeat constructor; cbn; lia|]. split; [done|]. split; [done|]. exists [0]. done. Qed.

Lemma sample_sid_text : sid_text sample_text sample_sid.
Proof.
  change sample_text with (sid_string sample_sid). apply sid_string_sid_text; [apply (sample_sid_at LittleEndian)|done|done].
Qed.

Lemma AllocateSidFromString_correct_witness :
  @AllocateSidFromString LittleEndian CHAR (fun _ => true) (Some sample_string) = Some (STATUS_SUCCESS, Some (sid_bytes LittleEndian sample_sid)).
Proof. exact (proj1 (@AllocateSidFromString_correct LittleEndian CHAR (fun _ => true) sample_string sample_text sample_string_at) sample_sid sample_sid_text). Defined.

Lemma sid_string_bounds_witness :
  @RtlAllocateCStringFromSid BigEndian (fun _ => true) true (Some (sid_bytes BigEndian sample_sid))
    = Some (STATUS_SUCCESS, Some (sample_text ++ zeros 31)).
Proof. exact (proj1 (proj2 (@sid_string_bounds BigEndian (fun _ => true) _ sample_sid (proj1 (sample_sid_at BigEndian)) eq_refl)) eq_refl). Defined.

Lemma sid_string_roundtrip_witness :
  (exists q, @RtlAllocateCStringFromSid BigEndian (fun _ => true) true (Some (sid_bytes BigEndian sample_sid)) = Some (STATUS_SUCCESS, Some q) /\
    @RtlAllocateSidFromCString LittleEndian (fun _ => true) (Some q) = Some (STATUS_SUCCESS, Some (sid_bytes LittleEndian sample_sid))) /\
  (exists q, @RtlAllocateWC16StringFromSid LittleEndian (@c_locale LittleEndian) (fun _ => true) (fun n => Some (zeros (Z.max 0 n))) false true (Some (sid_bytes LittleEndian sample_sid)) = Some (STATUS_SUCCESS, Some q) /\
    @RtlAllocateSidFromWC16String LittleEndian (fun _ => true) (Some q) = Some (STATUS_SUCCESS, Some (sid_bytes LittleEndian sample_sid))).
Proof.
  refine (sid_string_roundtrip BigEndian LittleEndian (H := @c_locale LittleEndian) (@c_locale_ascii LittleEndian) (fun _ => true) (fun n => Some (zeros (Z.max 0 n))) false
    (sid_bytes BigEndian sample_sid) (sid_bytes LittleEndian sample_sid) sample_sid (proj1 (sample_sid_at BigEndian)) (proj1 (sample_sid_at LittleEndian)) eq_refl eq_refl (fun _ => eq_refl) _ _).
  - intros n p Hn [= <-]. rewrite Z.max_r by lia. by apply zlen_zeros.
  - done.
Defined.

Lemma big_authority_refused_witness :
  exists q, @RtlAllocateCStringFromSid LittleEndian (fun _ => true) true (Some (sid_bytes LittleEndian sample_big)) = Some (STATUS_SUCCESS, Some q) /\
    @RtlAllocateSidFromCString LittleEndian (fun _ => true) (Some q) = Some (STATUS_INVALID_SID, None).
Proof. exact (@big_authority_refused LittleEndian (fun _ => true) _ sample_big (proj2 (sample_sid_at LittleEndian)) eq_refl eq_refl (fun _ => eq_refl)). Defined.
