(* ===== verification/RbTree.v ===== *)
(** The red-black tree of [lwbase/src/rbtree.c]. Nodes live in a heap, a finite map
    from locations; a pointer is an optional location, [None] for the null pointer.
    Following a null or a freed pointer, or a failed [assert], is a fault ([None]).
    The leaves are one shared node, the sentinel. *)

From stdpp Require Import gmap.
From S2P Require Import Prelude SecurityTypes.

(** * Data *)

Inductive RBTreeNodeColor := RBTreeNodeColor_Red | RBTreeNodeColor_Black.

#[global] Instance RBTreeNodeColor_eq_dec : EqDecision RBTreeNodeColor.
Proof. solve_decision. Defined.

Section Tree.
Context {K D : Type}.

Record LWRTL_RB_TREE_NODE := mk_node {
  color : RBTreeNodeColor;
  pLeft : nptr;
  pRight : nptr;
  pParent : nptr;
  pKey : option K;
  pData : option D
}.

(** A call of [pfnFreeKey] or of [pfnFreeData]. *)
Inductive rb_call := FreeKey (k : K) | FreeData (d : D).

(** The tree, the heap its nodes live in, whether the functions that free keys and
    data are given, and the calls made of them. *)
Record LWRTL_RB_TREE := mk_rb {
  rb_heap : gmap loc LWRTL_RB_TREE_NODE;
  pRoot : nptr;
  pSentinel : nptr;
  pfnFreeKey : bool;
  pfnFreeData : bool;
  rb_calls : list rb_call
}.

Definition set_heap (t : LWRTL_RB_TREE) (h : gmap loc LWRTL_RB_TREE_NODE) : LWRTL_RB_TREE :=
  mk_rb h (pRoot t) (pSentinel t) (pfnFreeKey t) (pfnFreeData t) (rb_calls t).
Definition set_root (t : LWRTL_RB_TREE) (x : nptr) : LWRTL_RB_TREE :=
  mk_rb (rb_heap t) x (pSentinel t) (pfnFreeKey t) (pfnFreeData t) (rb_calls t).

Definition with_color (c : RBTreeNodeColor) (n : LWRTL_RB_TREE_NODE) := mk_node c (pLeft n) (pRight n) (pParent n) (pKey n) (pData n).
Definition with_left (p : nptr) (n : LWRTL_RB_TREE_NODE) := mk_node (color n) p (pRight n) (pParent n) (pKey n) (pData n).
Definition with_right (p : nptr) (n : LWRTL_RB_TREE_NODE) := mk_node (color n) (pLeft n) p (pParent n) (pKey n) (pData n).
Definition with_parent (p : nptr) (n : LWRTL_RB_TREE_NODE) := mk_node (color n) (pLeft n) (pRight n) p (pKey n) (pData n).
Definition with_key_data (k : option K) (d : option D) (n : LWRTL_RB_TREE_NODE) := mk_node (color n) (pLeft n) (pRight n) (pParent n) k d.

(** [*x], and a store into a field of it. *)
Definition ldn (t : LWRTL_RB_TREE) (x : nptr) : option LWRTL_RB_TREE_NODE := x ← x; rb_heap t !! x.
Definition stn (t : LWRTL_RB_TREE) (x : nptr) (f : LWRTL_RB_TREE_NODE -> LWRTL_RB_TREE_NODE) : option LWRTL_RB_TREE :=
  l ← x; n ← rb_heap t !! l; Some (set_heap t (<[l := f n]> (rb_heap t))).

Definition RB_IS_NIL (t : LWRTL_RB_TREE) (x : nptr) : bool := bool_decide (x = pSentinel t).
Definition RB_IS_RED (t : LWRTL_RB_TREE) (x : nptr) : option bool := n ← ldn t x; Some (bool_decide (color n = RBTreeNodeColor_Red)).
Definition RB_IS_BLACK (t : LWRTL_RB_TREE) (x : nptr) : option bool := n ← ldn t x; Some (bool_decide (color n = RBTreeNodeColor_Black)).
Definition RB_COLOR_RED (t : LWRTL_RB_TREE) (x : nptr) := stn t x (with_color RBTreeNodeColor_Red).
Definition RB_COLOR_BLACK (t : LWRTL_RB_TREE) (x : nptr) := stn t x (with_color RBTreeNodeColor_Black).
(** The macro assigns the color of [x] to itself. *)
Definition RB_COPY_COLOR (t : LWRTL_RB_TREE) (x y : nptr) := stn t x (fun n => with_color (color n) n).
Definition RB_PARENT (t : LWRTL_RB_TREE) (x : nptr) : option nptr := n ← ldn t x; Some (pParent n).
Definition RB_SET_PARENT (t : LWRTL_RB_TREE) (x y : nptr) := stn t x (with_parent y).

(** Loops and recursions end after as many turns as there are nodes, and one. *)
Definition fuel_of (t : LWRTL_RB_TREE) : nat := S (size (rb_heap t)).

(** * Creation *)

(** [malloc1] and [malloc2] tell whether there is memory for the tree and for its
    sentinel. *)
Definition LwRtlRBTreeCreate (malloc1 malloc2 : bool) (pfnRBTreeCompare pfnRBTreeFreeKey pfnRBTreeFreeData : bool) : NTSTATUS * option LWRTL_RB_TREE :=
  if negb pfnRBTreeCompare then (STATUS_INVALID_PARAMETER_1, None)
  else if negb (malloc1 && malloc2) then (STATUS_INSUFFICIENT_RESOURCES, None)
  else
    let sentinel := mk_node RBTreeNodeColor_Black None None None None None in
    (STATUS_SUCCESS, Some (mk_rb {[ 1%positive := sentinel ]} (Some 1%positive) (Some 1%positive) pfnRBTreeFreeKey pfnRBTreeFreeData [])).

(** * Rotations *)

(** The child of the parent of [x] becomes [y]. [first] and [second] are the
    children in the order the code tests them. *)
Definition replace_child (pRBTree : LWRTL_RB_TREE) (x y parent : nptr) (left_first : bool) : option LWRTL_RB_TREE :=
  if RB_IS_NIL pRBTree parent then Some (set_root pRBTree y)
  else
    np ← ldn pRBTree parent;
    if left_first then
      if bool_decide (x = pLeft np) then stn pRBTree parent (with_left y) else stn pRBTree parent (with_right y)
    else
      if bool_decide (x = pRight np) then stn pRBTree parent (with_right y) else stn pRBTree parent (with_left y).

Definition LwRtlRBTreeRotateLeft (pRBTree : LWRTL_RB_TREE) (pTreeNode : nptr) : option LWRTL_RB_TREE :=
  x ← ldn pRBTree pTreeNode;
  let pNode := pRight x in
  if RB_IS_NIL pRBTree pNode then None
  else
    y ← ldn pRBTree pNode;
    t ← stn pRBTree pTreeNode (with_right (pLeft y));
    y ← ldn t pNode;
    t ← RB_SET_PARENT t (pLeft y) pTreeNode;
    x ← ldn t pTreeNode;
    t ← RB_SET_PARENT t pNode (pParent x);
    x ← ldn t pTreeNode;
    t ← replace_child t pTreeNode pNode (pParent x) true;
    t ← stn t pNode (with_left pTreeNode);
    RB_SET_PARENT t pTreeNode pNode.

Definition LwRtlRBTreeRotateRight (pRBTree : LWRTL_RB_TREE) (pTreeNode : nptr) : option LWRTL_RB_TREE :=
  x ← ldn pRBTree pTreeNode;
  let pNode := pLeft x in
  if RB_IS_NIL pRBTree pNode then None
  else
    y ← ldn pRBTree pNode;
    t ← stn pRBTree pTreeNode (with_left (pRight y));
    y ← ldn t pNode;
    t ← RB_SET_PARENT t (pRight y) pTreeNode;
    x ← ldn t pTreeNode;
    t ← RB_SET_PARENT t pNode (pParent x);
    x ← ldn t pTreeNode;
    t ← replace_child t pTreeNode pNode (pParent x) false;
    t ← stn t pNode (with_right pTreeNode);
    RB_SET_PARENT t pTreeNode pNode.

(** * Search and insertion *)

Section Compare.
Context (pfnCompare : K -> K -> Z).

(** [pfnCompare(k, x->pKey)]. *)
Definition compare_with (t : LWRTL_RB_TREE) (k : K) (n : LWRTL_RB_TREE_NODE) : option Z := k' ← pKey n; Some (pfnCompare k k').

Fixpoint find_node_loop (n : nat) (pRBTree : LWRTL_RB_TREE) (k : K) (pIter : nptr) : option nptr :=
  match n with
  | O => None
  | S n' =>
      if bool_decide (pIter = None) || RB_IS_NIL pRBTree pIter then Some None
      else
        x ← ldn pRBTree pIter;
        compResult ← compare_with pRBTree k x;
        if compResult =? 0 then Some pIter
        else if compResult <? 0 then find_node_loop n' pRBTree k (pLeft x)
        else find_node_loop n' pRBTree k (pRight x)
  end.
Definition LwRtlRBTreeFindNode (pRBTree : LWRTL_RB_TREE) (k : K) : option nptr :=
  find_node_loop (fuel_of pRBTree) pRBTree k (pRoot pRBTree).

(** The status and [*ppItem]. *)
Definition LwRtlRBTreeFind (pRBTree : LWRTL_RB_TREE) (k : K) : option (NTSTATUS * option D) :=
  pResult ← LwRtlRBTreeFindNode pRBTree k;
  match pResult with
  | None => Some (STATUS_NOT_FOUND, None)
  | Some _ => x ← ldn pRBTree pResult; Some (STATUS_SUCCESS, pData x)
  end.

(** The loop of [LwRtlRBTreeInsert]: the last node on the way down. *)
Fixpoint insert_loop (n : nat) (pRBTree : LWRTL_RB_TREE) (k : K) (parent pCurrent : nptr) : option nptr :=
  match n with
  | O => None
  | S n' =>
      if RB_IS_NIL pRBTree pCurrent then Some parent
      else
        x ← ldn pRBTree pCurrent;
        c ← compare_with pRBTree k x;
        insert_loop n' pRBTree k pCurrent (if c <? 0 then pLeft x else pRight x)
  end.

Definition LwRtlRBTreeInsert (pRBTree : LWRTL_RB_TREE) (pTreeNode : nptr) : option LWRTL_RB_TREE :=
  n ← ldn pRBTree pTreeNode;
  k ← pKey n;
  parent ← insert_loop (fuel_of pRBTree) pRBTree k (pSentinel pRBTree) (pRoot pRBTree);
  t ← RB_SET_PARENT pRBTree pTreeNode parent;
  p ← RB_PARENT t pTreeNode;
  if RB_IS_NIL t p then Some (set_root t pTreeNode)
  else
    np ← ldn t parent;
    c ← compare_with t k np;
    if c <? 0 then stn t parent (with_left pTreeNode) else stn t parent (with_right pTreeNode).

(** A turn of the loop of [LwRtlRBTreeAdd] for a parent that is a left child (or,
    with [left] false, a right one): the other child of the grandparent is the
    uncle. [inl] when the loop goes on from another node. *)
Definition child (left : bool) (n : LWRTL_RB_TREE_NODE) : nptr := if left then pLeft n else pRight n.
Definition rotate (left : bool) := if left then LwRtlRBTreeRotateLeft else LwRtlRBTreeRotateRight.

Definition add_turn (left : bool) (t : LWRTL_RB_TREE) (pTreeNode parent pGrandParent : nptr) : option (LWRTL_RB_TREE * nptr) :=
  uncle_red ←
    (if RB_IS_NIL t pGrandParent then Some None
     else g ← ldn t pGrandParent; red ← RB_IS_RED t (child (negb left) g); Some (if (red : bool) then Some (child (negb left) g) else None));
  match uncle_red with
  | Some pUncle =>
      t ← RB_COLOR_BLACK t parent;
      t ← RB_COLOR_BLACK t pUncle;
      t ← RB_COLOR_RED t pGrandParent;
      Some (t, pGrandParent)
  | None =>
      p ← ldn t parent;
      '(t, pTreeNode, parent) ←
        (if bool_decide (pTreeNode = child (negb left) p) then
           t ← rotate left t parent;
           p ← RB_PARENT t parent;
           Some (t, parent, p)
         else Some (t, pTreeNode, parent));
      t ← RB_COLOR_BLACK t parent;
      t ← (if RB_IS_NIL t pGrandParent then Some t
           else t ← RB_COLOR_RED t pGrandParent; rotate (negb left) t pGrandParent);
      Some (t, pTreeNode)
  end.

Fixpoint add_loop (n : nat) (t : LWRTL_RB_TREE) (pTreeNode : nptr) : option LWRTL_RB_TREE :=
  match n with
  | O => None
  | S n' =>
      if bool_decide (pTreeNode = pRoot t) then Some t
      else
        parent ← RB_PARENT t pTreeNode;
        red ← RB_IS_RED t parent;
        if negb red then Some t
        else
          pGrandParent ← RB_PARENT t parent;
          g ← ldn t pGrandParent;
          '(t, pTreeNode) ← add_turn (bool_decide (parent = pLeft g)) t pTreeNode parent pGrandParent;
          add_loop n' t pTreeNode
  end.

(** A new node at a location that is not in use. *)
Definition LwRtlRBTreeAdd (malloc : bool) (pRBTree : LWRTL_RB_TREE) (k : option K) (d : option D) : option (NTSTATUS * LWRTL_RB_TREE) :=
  match k with
  | None => Some (STATUS_INVALID_PARAMETER_2, pRBTree)
  | Some _ =>
      if negb malloc then Some (STATUS_INSUFFICIENT_RESOURCES, pRBTree)
      else
        let l := fresh (dom (rb_heap pRBTree)) in
        let node := mk_node RBTreeNodeColor_Red (pSentinel pRBTree) (pSentinel pRBTree) None k d in
        t ← LwRtlRBTreeInsert (set_heap pRBTree (<[l := node]> (rb_heap pRBTree))) (Some l);
        t ← RB_COLOR_RED t (Some l);
        t ← add_loop (fuel_of t) t (Some l);
        t ← RB_COLOR_BLACK t (pRoot t);
        Some (STATUS_SUCCESS, t)
  end.

(** * Removal *)

Definition LwRtlRBTreeFreeNode (pRBTree : LWRTL_RB_TREE) (pTreeNode : nptr) : option LWRTL_RB_TREE :=
  l ← pTreeNode;
  n ← rb_heap pRBTree !! l;
  let keys := match pKey n with Some k => if pfnFreeKey pRBTree then [FreeKey k] else [] | None => [] end in
  let datas := match pData n with Some d => if pfnFreeData pRBTree then [FreeData d] else [] | None => [] end in
  Some (mk_rb (delete l (rb_heap pRBTree)) (pRoot pRBTree) (pSentinel pRBTree) (pfnFreeKey pRBTree) (pfnFreeData pRBTree)
          (rb_calls pRBTree ++ keys ++ datas)).

Fixpoint minimum_loop (n : nat) (pRBTree : LWRTL_RB_TREE) (pTreeNode : nptr) : option nptr :=
  match n with
  | O => None
  | S n' =>
      x ← ldn pRBTree pTreeNode;
      if RB_IS_NIL pRBTree (pLeft x) then Some pTreeNode else minimum_loop n' pRBTree (pLeft x)
  end.
Definition LwRtlRBTreeGetMinimum (pRBTree : LWRTL_RB_TREE) (pTreeNode : nptr) : option nptr := minimum_loop (fuel_of pRBTree) pRBTree pTreeNode.

Fixpoint successor_loop (n : nat) (pRBTree : LWRTL_RB_TREE) (pTreeNode pResult : nptr) : option nptr :=
  match n with
  | O => None
  | S n' =>
      if bool_decide (pResult = None) || RB_IS_NIL pRBTree pResult then Some pResult
      else
        r ← ldn pRBTree pResult;
        if bool_decide (pTreeNode = pRight r) then successor_loop n' pRBTree pResult (pParent r) else Some pResult
  end.
Definition LwRtlRBTreeGetSuccessor (pRBTree : LWRTL_RB_TREE) (pTreeNode : nptr) : option nptr :=
  x ← ldn pRBTree pTreeNode;
  if negb (RB_IS_NIL pRBTree (pRight x)) then LwRtlRBTreeGetMinimum pRBTree (pRight x)
  else successor_loop (fuel_of pRBTree) pRBTree pTreeNode (pParent x).

(** A turn of the loop of [LwRtlRBTreeFixColors] for a node that is a left child
    (or, with [left] false, a right one): the tree and the node to go on from. *)
Definition fix_turn (left : bool) (t : LWRTL_RB_TREE) (pTreeNode parent : nptr) : option (LWRTL_RB_TREE * nptr) :=
  p ← ldn t parent;
  let pUncle := child (negb left) p in
  '(t, pUncle) ←
    (if RB_IS_NIL t pUncle then Some (t, pUncle)
     else
       red ← RB_IS_RED t pUncle;
       if (red : bool) then
         t ← RB_COLOR_BLACK t pUncle;
         t ← RB_COLOR_RED t parent;
         t ← rotate left t parent;
         p ← ldn t parent;
         Some (t, child (negb left) p)
       else Some (t, pUncle));
  both_black ←
    (if RB_IS_NIL t pUncle then Some false
     else u ← ldn t pUncle; b1 ← RB_IS_BLACK t (pLeft u); b2 ← RB_IS_BLACK t (pRight u); Some (b1 && b2));
  if (both_black : bool) then t ← RB_COLOR_RED t pUncle; Some (t, parent)
  else
    '(t, pUncle) ←
      (if RB_IS_NIL t pUncle then Some (t, pUncle)
       else
         u ← ldn t pUncle;
         black ← RB_IS_BLACK t (child (negb left) u);
         if (black : bool) then
           t ← RB_COLOR_BLACK t (child left u);
           t ← RB_COLOR_RED t pUncle;
           t ← rotate (negb left) t pUncle;
           p ← ldn t parent;
           Some (t, child (negb left) p)
         else Some (t, pUncle));
    t ← (if RB_IS_NIL t pUncle then Some t else RB_COPY_COLOR t pUncle parent);
    t ← RB_COLOR_BLACK t parent;
    t ← (if RB_IS_NIL t pUncle then Some t
         else u ← ldn t pUncle; t ← RB_COLOR_BLACK t (child (negb left) u); rotate left t parent);
    Some (t, pRoot t).

Fixpoint fix_loop (n : nat) (t : LWRTL_RB_TREE) (pTreeNode : nptr) : option (LWRTL_RB_TREE * nptr) :=
  match n with
  | O => None
  | S n' =>
      if bool_decide (pRoot t = pTreeNode) then Some (t, pTreeNode)
      else
        black ← RB_IS_BLACK t pTreeNode;
        if negb black then Some (t, pTreeNode)
        else
          parent ← RB_PARENT t pTreeNode;
          _ ← RB_PARENT t parent;
          p ← ldn t parent;
          '(t, pTreeNode) ← fix_turn (bool_decide (pTreeNode = pLeft p)) t pTreeNode parent;
          fix_loop n' t pTreeNode
  end.

Definition LwRtlRBTreeFixColors (t : LWRTL_RB_TREE) (pTreeNode : nptr) : option LWRTL_RB_TREE :=
  '(t, pTreeNode) ← fix_loop (fuel_of t) t pTreeNode;
  RB_COLOR_BLACK t pTreeNode.

(** The tree and the node taken out of it. *)
Definition LwRtlRBTreeRemoveNode (pRBTree : LWRTL_RB_TREE) (pTreeNode : nptr) : option (LWRTL_RB_TREE * nptr) :=
  x ← ldn pRBTree pTreeNode;
  pSuccessor ← (if RB_IS_NIL pRBTree (pRight x) || RB_IS_NIL pRBTree (pLeft x) then Some pTreeNode
                else LwRtlRBTreeGetSuccessor pRBTree pTreeNode);
  s ← ldn pRBTree pSuccessor;
  let pTmp := if negb (RB_IS_NIL pRBTree (pLeft s)) then pLeft s else pRight s in
  t ← RB_SET_PARENT pRBTree pTmp (pParent s);
  s ← ldn t pSuccessor;
  t ← replace_child t pSuccessor pTmp (pParent s) true;
  t ← (if bool_decide (pSuccessor = pTreeNode) then Some t
       else
         x ← ldn t pTreeNode;
         s ← ldn t pSuccessor;
         t ← stn t pTreeNode (with_key_data (pKey s) (pData s));
         stn t pSuccessor (with_key_data (pKey x) (pData x)));
  black ← RB_IS_BLACK t pSuccessor;
  t ← (if (black : bool) then LwRtlRBTreeFixColors t pTmp else Some t);
  Some (t, pSuccessor).

Definition LwRtlRBTreeRemove (pRBTree : LWRTL_RB_TREE) (k : K) : option (NTSTATUS * LWRTL_RB_TREE) :=
  pNode ← LwRtlRBTreeFindNode pRBTree k;
  match pNode with
  | None => Some (STATUS_NOT_FOUND, pRBTree)
  | Some _ =>
      '(t, pNode) ← LwRtlRBTreeRemoveNode pRBTree pNode;
      t ← LwRtlRBTreeFreeNode t pNode;
      Some (STATUS_SUCCESS, t)
  end.

Fixpoint LwRtlRBTreeRemoveAllNodes (n : nat) (pRBTree : LWRTL_RB_TREE) (pNode : nptr) : option LWRTL_RB_TREE :=
  match n with
  | O => None
  | S n' =>
      x ← ldn pRBTree pNode;
      t ← (if RB_IS_NIL pRBTree (pLeft x) then Some pRBTree else LwRtlRBTreeRemoveAllNodes n' pRBTree (pLeft x));
      x ← ldn t pNode;
      t ← (if RB_IS_NIL t (pRight x) then Some t else LwRtlRBTreeRemoveAllNodes n' t (pRight x));
      LwRtlRBTreeFreeNode t pNode
  end.

Definition LwRtlRBTreeRemoveAll (pRBTree : LWRTL_RB_TREE) : option LWRTL_RB_TREE :=
  t ← (if bool_decide (pRoot pRBTree = None) || RB_IS_NIL pRBTree (pRoot pRBTree) then Some pRBTree
       else LwRtlRBTreeRemoveAllNodes (fuel_of pRBTree) pRBTree (pRoot pRBTree));
  Some (set_root t (pSentinel t)).

(** The heap and the calls when the tree itself is gone. *)
Definition LwRtlRBTreeFree (pRBTree : LWRTL_RB_TREE) : option (gmap loc LWRTL_RB_TREE_NODE * list rb_call) :=
  t ← (if bool_decide (pRoot pRBTree = None) || RB_IS_NIL pRBTree (pRoot pRBTree) then Some pRBTree
       else LwRtlRBTreeRemoveAllNodes (fuel_of pRBTree) pRBTree (pRoot pRBTree));
  Some (match pSentinel t with Some l => delete l (rb_heap t) | None => rb_heap t end, rb_calls t).
End Compare.

(** * Traversal *)

(** [pfnVisit] takes the user data and returns a status, the user data and what it
    leaves in [*pbContinue]. *)
Section Traverse.
Context {U : Type} (pfnVisit : option K -> option D -> U -> bool -> NTSTATUS * U * bool).

Inductive LWRTL_TREE_TRAVERSAL_TYPE := TYPE_PRE_ORDER | TYPE_IN_ORDER | TYPE_POST_ORDER.

Definition visit (x : LWRTL_RB_TREE_NODE) (u : U) (cont : bool) : option (NTSTATUS * U * bool) := Some (pfnVisit (pKey x) (pData x) u cont).

(** [rest] after [first] unless that failed. *)
Definition bail (first : option (NTSTATUS * U * bool)) (rest : U -> bool -> option (NTSTATUS * U * bool)) : option (NTSTATUS * U * bool) :=
  '(status, u, cont) ← first;
  if is_ok status then rest u cont else Some (status, u, cont).

Fixpoint traverse (order : LWRTL_TREE_TRAVERSAL_TYPE) (n : nat) (t : LWRTL_RB_TREE) (pNode : nptr) (u : U) (cont : bool) : option (NTSTATUS * U * bool) :=
  match n with
  | O => None
  | S n' =>
      if bool_decide (pNode = None) || RB_IS_NIL t pNode then Some (STATUS_SUCCESS, u, cont)
      else
        x ← ldn t pNode;
        let sub p u cont := if cont && negb (bool_decide (p = None)) then traverse order n' t p u cont else Some (STATUS_SUCCESS, u, cont) in
        match order with
        | TYPE_PRE_ORDER => bail (visit x u cont) (fun u cont => bail (sub (pLeft x) u cont) (sub (pRight x)))
        | TYPE_IN_ORDER => bail (sub (pLeft x) u cont) (fun u cont => bail (visit x u cont) (sub (pRight x)))
        | TYPE_POST_ORDER => bail (sub (pLeft x) u cont) (fun u cont => bail (sub (pRight x) u cont) (visit x))
        end
  end.

Definition LwRtlRBTreeTraverse (pRBTree : LWRTL_RB_TREE) (traversalType : LWRTL_TREE_TRAVERSAL_TYPE) (u : U) : option (NTSTATUS * U) :=
  match pRoot pRBTree with
  | None => Some (STATUS_SUCCESS, u)
  | Some _ => '(status, u, _) ← traverse traversalType (fuel_of pRBTree) pRBTree (pRoot pRBTree) u true; Some (status, u)
  end.
End Traverse.
End Tree.

Arguments LWRTL_RB_TREE_NODE : clear implicits.
Arguments LWRTL_RB_TREE : clear implicits.
Arguments rb_call : clear implicits.
