(* ===== verification/RbTreeRepr.v ===== *)
(** The tree that a red-black tree of [RbTree] holds: a binary tree whose nodes carry
    their locations, a node in focus and the path from it to the root, and how the
    heap represents them. The operations that change the shape of the tree are
    proved to do so, with everything else left alone. *)

From stdpp Require Import gmap.
From S2P Require Import Prelude SecurityTypes RbTree.

Create Rewrite HintDb rb.

Abbreviation Red := RBTreeNodeColor_Red.
Abbreviation Black := RBTreeNodeColor_Black.

(** Goals on membership, from the hypotheses on membership alone. *)
Ltac apart_step :=
  match goal with
  | |- ~ _ => intro
  | |- _ ⊆ _ => intros ? ?
  | |- forall _, _ => intro
  | H : _ ∈ [] |- _ => by apply not_elem_of_nil in H
  | H : _ ∉ [] |- _ => clear H
  | H : _ ∉ _ :: _ |- _ => apply not_elem_of_cons in H as [? H]
  | H : _ ∉ _ ++ _ |- _ => apply not_elem_of_app in H as [? H]
  | H : ?a ∈ _, H' : ?a ∉ _ |- _ => exfalso; exact (H' H)
  | H : _ ∈ _ :: _ |- _ => apply elem_of_cons in H as [H|H]; [subst; try congruence|]
  | H : _ ∈ _ ++ _ |- _ => apply elem_of_app in H as [H|H]
  | H : forall l, l ∈ ?L -> l ∉ _, Hm : ?l ∈ ?L |- _ => let Hn := fresh in pose proof (H l Hm) as Hn; clear H
  | H : _ /\ _ |- _ => destruct H
  end.
Ltac apart :=
  repeat match goal with H : ?T |- _ => lazymatch T with context [_ ∈ _] => fail | _ <> _ => fail | _ => clear H end end;
  repeat apart_step; repeat (rewrite elem_of_cons || rewrite elem_of_app); first [tauto | congruence | eauto].

(** * Trees and paths *)

Section Repr.
Context {K D : Type}.

Inductive tree := Leaf | Node (l : loc) (c : RBTreeNodeColor) (lt : tree) (k : K) (d : option D) (rt : tree).

(** A node seen from the left ([side] true) or from the right: its near child, then
    its far child. *)
Definition sided (side : bool) (l : loc) (c : RBTreeNodeColor) (near : tree) (k : K) (d : option D) (far : tree) : tree :=
  if side then Node l c near k d far else Node l c far k d near.

(** A step of the path: the node above, its color and contents, and its other
    child. [f_side] is true when the path goes to the left child. *)
Record frame := mk_frame { f_side : bool; f_loc : loc; f_color : RBTreeNodeColor; f_key : K; f_data : option D; f_sib : tree }.
Abbreviation path := (list frame).

Definition unframe (f : frame) (t : tree) : tree := sided (f_side f) (f_loc f) (f_color f) t (f_key f) (f_data f) (f_sib f).
Fixpoint plug (ctx : path) (t : tree) : tree := match ctx with [] => t | f :: ctx => plug ctx (unframe f t) end.

Fixpoint locs (t : tree) : list loc := match t with Leaf => [] | Node l _ lt _ _ rt => l :: locs lt ++ locs rt end.
Fixpoint path_locs (ctx : path) : list loc := match ctx with [] => [] | f :: ctx => f_loc f :: locs (f_sib f) ++ path_locs ctx end.

(** The contents in order. *)
Fixpoint inorder (t : tree) : list (K * option D) := match t with Leaf => [] | Node _ _ lt k d rt => inorder lt ++ (k, d) :: inorder rt end.

Definition tree_color (t : tree) : RBTreeNodeColor := match t with Leaf => Black | Node _ c _ _ _ _ => c end.
Definition recolor (c : RBTreeNodeColor) (t : tree) : tree := match t with Leaf => Leaf | Node l _ lt k d rt => Node l c lt k d rt end.

(** * In the heap *)

Section Heap.
Context (nil : loc).
Abbreviation heap := (gmap loc (LWRTL_RB_TREE_NODE K D)).

Definition root_of (t : tree) : loc := match t with Leaf => nil | Node l _ _ _ _ _ => l end.
Definition parent_of (ctx : path) : loc := match ctx with [] => nil | f :: _ => f_loc f end.

Fixpoint tree_ok (h : heap) (p : loc) (t : tree) : Prop :=
  match t with
  | Leaf => True
  | Node l c lt k d rt =>
      h !! l = Some (mk_node c (Some (root_of lt)) (Some (root_of rt)) (Some p) (Some k) d) /\ tree_ok h l lt /\ tree_ok h l rt
  end.

Definition frame_node (f : frame) (r p : loc) : LWRTL_RB_TREE_NODE K D :=
  if f_side f then mk_node (f_color f) (Some r) (Some (root_of (f_sib f))) (Some p) (Some (f_key f)) (f_data f)
  else mk_node (f_color f) (Some (root_of (f_sib f))) (Some r) (Some p) (Some (f_key f)) (f_data f).

Fixpoint path_ok (h : heap) (r : loc) (ctx : path) : Prop :=
  match ctx with
  | [] => True
  | f :: ctx => h !! f_loc f = Some (frame_node f r (parent_of ctx)) /\ tree_ok h (f_loc f) (f_sib f) /\ path_ok h (f_loc f) ctx
  end.

(** The sentinel is black; where it points is of no account. *)
Definition sentinel_ok (h : heap) : Prop := exists n, h !! nil = Some n /\ color n = Black.

(** The locations in use, and a heap that is exactly these and the nodes [g], which
    are of no concern to the tree (one about to go in, or one just taken out). *)
Definition cells (ctx : path) (t : tree) : list loc := nil :: locs t ++ path_locs ctx.

Record footprint (h g : heap) (ls : list loc) : Prop := {
  fp_nodup : NoDup ls;
  fp_dom : dom h = list_to_set ls ∪ dom g;
  fp_disjoint : forall l, l ∈ ls -> g !! l = None;
  fp_rest : g ⊆ h
}.

Record rep (g : heap) (s : LWRTL_RB_TREE K D) (ctx : path) (t : tree) : Prop := {
  rep_sentinel : pSentinel s = Some nil;
  rep_root : pRoot s = Some (root_of (plug ctx t));
  rep_tree : tree_ok (rb_heap s) (parent_of ctx) t;
  rep_path : path_ok (rb_heap s) (root_of t) ctx;
  rep_nil : sentinel_ok (rb_heap s);
  rep_cells : footprint (rb_heap s) g (cells ctx t)
}.

(** [s'] differs from [s] at the locations [w] and at the root. *)
Record writes (w : list loc) (s s' : LWRTL_RB_TREE K D) : Prop := {
  w_sentinel : pSentinel s' = pSentinel s;
  w_freekey : pfnFreeKey s' = pfnFreeKey s;
  w_freedata : pfnFreeData s' = pfnFreeData s;
  w_calls : rb_calls s' = rb_calls s;
  w_dom : dom (rb_heap s') = dom (rb_heap s);
  w_agree : forall l, l ∉ w -> rb_heap s' !! l = rb_heap s !! l
}.

(** What no operation on the shape of the tree changes. *)
Record same_calls (s s' : LWRTL_RB_TREE K D) : Prop := {
  sc_sentinel : pSentinel s' = pSentinel s;
  sc_freekey : pfnFreeKey s' = pfnFreeKey s;
  sc_freedata : pfnFreeData s' = pfnFreeData s;
  sc_calls : rb_calls s' = rb_calls s
}.

(** Where the sentinel says its parent is. *)
Definition nil_parent (s : LWRTL_RB_TREE K D) : option nptr := pParent <$> rb_heap s !! nil.

Implicit Types (s : LWRTL_RB_TREE K D) (t : tree) (ctx : path) (h g : heap).

(** * Frame lemmas *)

Lemma tree_ok_agree h h' t : forall p, (forall l, l ∈ locs t -> h' !! l = h !! l) -> tree_ok h p t -> tree_ok h' p t.
Proof.
  induction t as [|l c lt IHl k d rt IHr]; intros p Ha Hok; [done|]. cbn in *. destruct Hok as (Hl & H1 & H2). split; [rewrite Ha by set_solver; done|].
  split; [apply IHl|apply IHr]; (done || (intros; apply Ha; set_solver)).
Qed.

Lemma path_ok_agree h h' ctx : forall r, (forall l, l ∈ path_locs ctx -> h' !! l = h !! l) -> path_ok h r ctx -> path_ok h' r ctx.
Proof.
  induction ctx as [|f ctx IH]; intros r Ha Hok; [done|]. cbn in *. destruct Hok as (Hl & H1 & H2). split; [rewrite Ha by set_solver; done|].
  split; [eapply tree_ok_agree; [|exact H1]|apply IH; [|exact H2]]; intros; apply Ha; set_solver.
Qed.

Lemma tree_ok_insert h x v p t : x ∉ locs t -> tree_ok h p t -> tree_ok (<[x := v]> h) p t.
Proof. intros Hx. apply tree_ok_agree. intros l Hl. apply lookup_insert_ne. by intros ->. Qed.

Lemma path_ok_insert h x v r ctx : x ∉ path_locs ctx -> path_ok h r ctx -> path_ok (<[x := v]> h) r ctx.
Proof. intros Hx. apply path_ok_agree. intros l Hl. apply lookup_insert_ne. by intros ->. Qed.

Lemma sentinel_ok_insert h x v : x <> nil -> sentinel_ok h -> sentinel_ok (<[x := v]> h).
Proof. intros Hx (n & Hn & Hc). exists n. by rewrite lookup_insert_ne. Qed.

Lemma locs_sided side l c a k d b : locs (sided side l c a k d b) ≡ₚ l :: locs a ++ locs b.
Proof. destruct side; cbn; [done|]. by rewrite (Permutation_app_comm (locs b)). Qed.

Lemma root_of_sided side l c a k d b : root_of (sided side l c a k d b) = l.
Proof. by destruct side. Qed.

Lemma inorder_sided side l c a k d b : inorder (sided side l c a k d b) = if side then inorder a ++ (k, d) :: inorder b else inorder b ++ (k, d) :: inorder a.
Proof. by destruct side. Qed.

Lemma root_of_in t : root_of t = nil \/ root_of t ∈ locs t.
Proof. destruct t; cbn; [by left|right; set_solver]. Qed.

(** Moving the focus. *)
Lemma tree_ok_sided h p side l c a k d b :
  tree_ok h p (sided side l c a k d b) <->
  h !! l = Some (frame_node (mk_frame side l c k d b) (root_of a) p) /\ tree_ok h l a /\ tree_ok h l b.
Proof. unfold frame_node. destruct side; cbn; tauto. Qed.

Lemma footprint_perm h g ls ls' : ls ≡ₚ ls' -> footprint h g ls -> footprint h g ls'.
Proof.
  intros HP [H1 H2 H3 H4]. split; [by rewrite <- HP| |intros l; rewrite <- HP; apply H3|done].
  rewrite H2. f_equal. apply leibniz_equiv. by rewrite HP.
Qed.

Lemma footprint_writes s s' w g ls : writes w s s' -> w ⊆ ls -> footprint (rb_heap s) g ls -> footprint (rb_heap s') g ls.
Proof.
  intros Hw Hsub [H1 H2 H3 H4]. split; [done| |done|].
  - by rewrite (w_dom _ _ _ Hw).
  - apply map_subseteq_spec. intros l n Hl. rewrite (w_agree _ _ _ Hw); [by apply (lookup_weaken _ _ _ _ Hl)|].
    intros Hin. apply Hsub, H3 in Hin. congruence.
Qed.

Lemma cells_up f ctx t : cells (f :: ctx) t ≡ₚ cells ctx (unframe f t).
Proof. unfold cells, unframe. rewrite locs_sided. cbn [path_locs]. rewrite <- Permutation_middle. cbn. by rewrite app_assoc. Qed.

Lemma rep_up g s f ctx t : rep g s (f :: ctx) t <-> rep g s ctx (unframe f t).
Proof.
  split; intros [H1 H2 H3 H4 H5 H6]; split; try done.
  - unfold unframe. apply tree_ok_sided. destruct H4 as (Hl & Hs & _). by destruct f.
  - unfold unframe. rewrite root_of_sided. apply H4.
  - by eapply footprint_perm; [apply cells_up|].
  - unfold unframe in H3. apply tree_ok_sided in H3. apply H3.
  - unfold unframe in H3, H4. apply tree_ok_sided in H3 as (Hl & _ & Hs). rewrite root_of_sided in H4. destruct f. cbn in *. done.
  - by eapply footprint_perm; [symmetry; apply cells_up|].
Qed.

Lemma rep_close g s side l c k d b ctx t : rep g s (mk_frame side l c k d b :: ctx) t -> rep g s ctx (sided side l c t k d b).
Proof. apply rep_up. Qed.

Lemma rep_open g s side l c k d b ctx t : rep g s ctx (sided side l c t k d b) -> rep g s (mk_frame side l c k d b :: ctx) t.
Proof. apply (rep_up g s (mk_frame side l c k d b)). Qed.

Lemma plug_app c1 c2 t : plug (c1 ++ c2) t = plug c2 (plug c1 t).
Proof. revert t. induction c1 as [|f c1 IH]; intros t; [done|]. apply IH. Qed.

Lemma rep_app g s c1 c2 t : rep g s (c1 ++ c2) t <-> rep g s c2 (plug c1 t).
Proof. revert t. induction c1 as [|f c1 IH]; intros t; [done|]. cbn [app]. rewrite rep_up. apply IH. Qed.

Lemma rep_plug g s ctx t : rep g s ctx t <-> rep g s [] (plug ctx t).
Proof. rewrite <- rep_app. by rewrite app_nil_r. Qed.

(** * Writes *)

#[global] Instance same_calls_preorder : PreOrder same_calls.
Proof. split; [by split|]. intros s1 s2 s3 [] []. split; congruence. Qed.

Lemma writes_same w s s' : writes w s s' -> same_calls s s'.
Proof. intros []. by split. Qed.

Lemma writes_refl w s : writes w s s.
Proof. by split. Qed.

Lemma writes_trans w1 w2 s s1 s2 : writes w1 s s1 -> writes w2 s1 s2 -> writes (w1 ++ w2) s s2.
Proof.
  intros [] []. split; try congruence. intros l Hl. rewrite not_elem_of_app in Hl. destruct Hl. etrans; auto.
Qed.

Lemma writes_sub w w' s s' : w ⊆ w' -> writes w s s' -> writes w' s s'.
Proof. intros Hs []. split; try done. intros l Hl. apply w_agree0. set_solver. Qed.

Lemma writes_insert s x v : is_Some (rb_heap s !! x) -> writes [x] s (set_heap s (<[x := v]> (rb_heap s))).
Proof.
  intros Hx. split; try done; cbn.
  - apply elem_of_dom in Hx. rewrite dom_insert_L. set_solver.
  - intros l Hl. apply lookup_insert_ne. set_solver.
Qed.

Lemma writes_set_root s p : writes [] s (set_root s p).
Proof. by split. Qed.

Lemma stn_eq s x n f : rb_heap s !! x = Some n -> stn s (Some x) f = Some (set_heap s (<[x := f n]> (rb_heap s))).
Proof. intros Hn. unfold stn. cbn. by rewrite Hn. Qed.

Lemma ldn_eq s x n : rb_heap s !! x = Some n -> ldn s (Some x) = Some n.
Proof. done. Qed.

Lemma set_parent_eq s x n p : rb_heap s !! x = Some n -> RB_SET_PARENT s (Some x) p = Some (set_heap s (<[x := with_parent p n]> (rb_heap s))).
Proof. apply stn_eq. Qed.

(** The parent of a subtree, or of the sentinel. *)
Lemma set_parent_ok s t p q :
  tree_ok (rb_heap s) p t -> sentinel_ok (rb_heap s) -> nil ∉ locs t -> NoDup (locs t) ->
  exists s', RB_SET_PARENT s (Some (root_of t)) (Some q) = Some s' /\ tree_ok (rb_heap s') q t /\ writes [root_of t] s s' /\
    pRoot s' = pRoot s /\ sentinel_ok (rb_heap s') /\ nil_parent s' = (match t with Leaf => Some (Some q) | _ => nil_parent s end).
Proof.
  intros Ht (n & Hn & Hc) Hnil Hd. destruct t as [|l c lt k d rt]; cbn [root_of].
  - eexists. split; [by apply stn_eq|]. split; [done|]. split; [by apply writes_insert|]. split; [done|]. cbn.
    split; [exists (with_parent (Some q) n); by rewrite lookup_insert_eq|]. unfold nil_parent. cbn. by rewrite lookup_insert_eq.
  - cbn in Ht, Hnil, Hd. destruct Ht as (Hl & H1 & H2). apply NoDup_cons in Hd as [Hd _].
    eexists. split; [by apply stn_eq|]. cbn. rewrite lookup_insert_eq. split.
    { split; [done|]. split; apply tree_ok_insert; (done || set_solver). }
    split; [by apply writes_insert|]. split; [done|]. split; [apply sentinel_ok_insert; [set_solver|by exists n]|].
    unfold nil_parent. cbn. rewrite lookup_insert_ne by set_solver. done.
Qed.

(** The child of the node above the focus, or the root. *)
Lemma replace_child_ok s ctx x y lf :
  pSentinel s = Some nil -> path_ok (rb_heap s) x ctx -> x <> nil -> x ∉ path_locs ctx -> NoDup (nil :: path_locs ctx) ->
  exists s', replace_child s (Some x) (Some y) (Some (parent_of ctx)) lf = Some s' /\ path_ok (rb_heap s') y ctx /\ writes (path_locs ctx) s s' /\
    pRoot s' = match ctx with [] => Some y | _ => pRoot s end.
Proof.
  intros Hs Hp Hx Hxc Hd. unfold replace_child, RB_IS_NIL. rewrite Hs. destruct ctx as [|f ctx]; cbn [parent_of].
  - rewrite bool_decide_true by done. eexists. split; [done|]. split; [done|]. split; [apply writes_set_root|done].
  - apply NoDup_cons in Hd as [Hn Hd]. cbn in Hp, Hn, Hd, Hxc. rewrite bool_decide_false by set_solver. destruct Hp as (Hl & Ht & Hp).
    rewrite (ldn_eq _ _ _ Hl). apply NoDup_cons in Hd as [Hd _].
    assert (Hsib : x <> root_of (f_sib f)). { intros ->. destruct (root_of_in (f_sib f)); [done|set_solver]. }
    set (v := frame_node f y (parent_of ctx)).
    assert (E : forall b, stn s (Some (f_loc f)) (if f_side f then with_left (Some y) else with_right (Some y)) = b -> b = Some (set_heap s (<[f_loc f := v]> (rb_heap s)))).
    { intros b <-. erewrite stn_eq by exact Hl. unfold v, frame_node. by destruct (f_side f). }
    exists (set_heap s (<[f_loc f := v]> (rb_heap s))). split.
    { apply E. cbn. unfold frame_node. destruct (f_side f), lf; cbn; repeat case_bool_decide; (done || congruence). }
    split; [cbn; rewrite lookup_insert_eq; split; [done|]; split; [apply tree_ok_insert|apply path_ok_insert]; (done || set_solver)|].
    split; [|done]. eapply writes_sub; [|apply writes_insert; by eexists]. set_solver.
Qed.

(** A write at one location of the tree, whatever field it changes. *)
Lemma sentinel_ok_writes w s s' : writes w s s' -> nil ∉ w -> sentinel_ok (rb_heap s) -> sentinel_ok (rb_heap s').
Proof. intros Hw Hn (n & Hl & Hc). exists n. by rewrite (w_agree _ _ _ Hw). Qed.

Lemma nil_parent_writes w s s' : writes w s s' -> nil ∉ w -> nil_parent s' = nil_parent s.
Proof. intros Hw Hn. unfold nil_parent. by rewrite (w_agree _ _ _ Hw). Qed.

Lemma tree_ok_writes w s s' p t : writes w s s' -> (forall l, l ∈ locs t -> l ∉ w) -> tree_ok (rb_heap s) p t -> tree_ok (rb_heap s') p t.
Proof. intros Hw Hn. apply tree_ok_agree. intros l Hl. apply (w_agree _ _ _ Hw). auto. Qed.

Lemma path_ok_writes w s s' r ctx : writes w s s' -> (forall l, l ∈ path_locs ctx -> l ∉ w) -> path_ok (rb_heap s) r ctx -> path_ok (rb_heap s') r ctx.
Proof. intros Hw Hn. apply path_ok_agree. intros l Hl. apply (w_agree _ _ _ Hw). auto. Qed.

Definition with_child (left : bool) (p : nptr) (n : LWRTL_RB_TREE_NODE K D) := if left then with_left p n else with_right p n.

(** Both rotations, told apart by the side. *)
Lemma rotate_unfold side s x :
  rotate side s x =
    (n ← ldn s x;
     let y := child (negb side) n in
     if RB_IS_NIL s y then None
     else
       m ← ldn s y;
       s ← stn s x (with_child (negb side) (child side m));
       m ← ldn s y;
       s ← RB_SET_PARENT s (child side m) x;
       n ← ldn s x;
       s ← RB_SET_PARENT s y (pParent n);
       n ← ldn s x;
       s ← replace_child s x y (pParent n) side;
       s ← stn s y (with_child side x);
       RB_SET_PARENT s x y).
Proof. by destruct side. Qed.

Lemma cells_two ctx side x cx a kx dx y cy b ky dy c :
  cells ctx (sided side x cx a kx dx (sided side y cy b ky dy c)) ≡ₚ nil :: x :: y :: locs a ++ locs b ++ locs c ++ path_locs ctx.
Proof.
  unfold cells. rewrite !locs_sided. apply perm_skip. cbn. apply perm_skip. rewrite <- Permutation_middle. cbn. by rewrite <- !app_assoc.
Qed.

Lemma cells_two' ctx side x cx a kx dx y cy b ky dy c :
  cells ctx (sided side y cy (sided side x cx a kx dx b) ky dy c) ≡ₚ nil :: x :: y :: locs a ++ locs b ++ locs c ++ path_locs ctx.
Proof.
  unfold cells. rewrite !locs_sided. apply perm_skip. cbn. rewrite <- !app_assoc. apply Permutation_swap.
Qed.

Lemma root_of_plug f ctx t t' : root_of (plug (f :: ctx) t) = root_of (plug (f :: ctx) t').
Proof.
  revert f t t'. induction ctx as [|f' ctx IH]; intros f t t'; cbn; [unfold unframe; by rewrite !root_of_sided|apply IH].
Qed.

(** [y] takes the place of [x] below its parent, and [x] goes below [y]. *)
Lemma take_place s ctx side x y nx ny :
  pSentinel s = Some nil -> rb_heap s !! x = Some nx -> rb_heap s !! y = Some ny -> pParent nx = Some (parent_of ctx) ->
  path_ok (rb_heap s) x ctx -> x <> y -> x ∉ path_locs ctx -> y ∉ path_locs ctx -> x <> nil -> NoDup (nil :: path_locs ctx) ->
  exists s',
    (n ← ldn s (Some x); s ← RB_SET_PARENT s (Some y) (pParent n); n ← ldn s (Some x);
     s ← replace_child s (Some x) (Some y) (pParent n) side; s ← stn s (Some y) (with_child side (Some x)); RB_SET_PARENT s (Some x) (Some y)) = Some s' /\
    writes (x :: y :: path_locs ctx) s s' /\ path_ok (rb_heap s') y ctx /\ pRoot s' = match ctx with [] => Some y | _ => pRoot s end /\
    rb_heap s' !! x = Some (with_parent (Some y) nx) /\ rb_heap s' !! y = Some (with_child side (Some x) (with_parent (Some (parent_of ctx)) ny)).
Proof.
  intros H1 Hx Hy Hp Hctx Nxy Nx Ny Nn Hd. rewrite (ldn_eq _ _ _ Hx). cbn [mbind option_bind]. rewrite (set_parent_eq _ _ _ _ Hy), Hp. cbn [mbind option_bind].
  set (s1 := set_heap s _). assert (W1 : writes [y] s s1) by (apply writes_insert; by eexists).
  rewrite (ldn_eq s1 x nx) by (rewrite (w_agree _ _ _ W1); set_solver). cbn [mbind option_bind]. rewrite Hp.
  destruct (replace_child_ok s1 ctx x y side) as (s2 & -> & Hctx2 & W2 & R2); [done|by apply path_ok_insert|done..|]. cbn [mbind option_bind].
  erewrite stn_eq by (rewrite (w_agree _ _ _ W2) by done; apply lookup_insert_eq). cbn [mbind option_bind].
  set (s3 := set_heap s2 _). assert (W3 : writes [y] s2 s3).
  { apply writes_insert. eexists. rewrite (w_agree _ _ _ W2) by done. apply lookup_insert_eq. }
  assert (Hx3 : rb_heap s3 !! x = Some nx). { rewrite (w_agree _ _ _ W3), (w_agree _ _ _ W2), (w_agree _ _ _ W1); set_solver. }
  rewrite (set_parent_eq _ _ _ _ Hx3). eexists. split; [done|].
  assert (W4 := writes_insert s3 x (with_parent (Some y) nx) ltac:(by eexists)). split; [|split; [|split; [|split]]].
  - eapply writes_sub; [|exact (writes_trans _ _ _ _ _ W1 (writes_trans _ _ _ _ _ W2 (writes_trans _ _ _ _ _ W3 W4)))]. set_solver.
  - apply path_ok_insert; [done|]. by apply path_ok_insert.
  - cbn. by rewrite R2.
  - apply lookup_insert_eq.
  - cbn. rewrite lookup_insert_ne by done. apply lookup_insert_eq.
Qed.

Lemma rotate_ok g s ctx side x cx a kx dx y cy b ky dy c :
  rep g s ctx (sided side x cx a kx dx (sided side y cy b ky dy c)) ->
  exists s', rotate side s (Some x) = Some s' /\ rep g s' ctx (sided side y cy (sided side x cx a kx dx b) ky dy c) /\
    same_calls s s' /\ nil_parent s' = match b with Leaf => Some (Some x) | _ => nil_parent s end.
Proof.
  intros [H1 H2 H3 H4 H5 H6]. eapply footprint_perm in H6; [|apply cells_two]. pose proof (fp_nodup _ _ _ H6) as Hd.
  rewrite !NoDup_cons, !NoDup_app in Hd. destruct Hd as (Dn & Dx & Dy & _ & Da & Db & Hbc & _ & Hcc & Hctx).
  assert (Hrb : root_of b ∉ x :: y :: locs a ++ locs c ++ path_locs ctx) by (destruct (root_of_in b) as [->|]; apart).
  apply tree_ok_sided in H3 as (Hx & Ha & Hy). apply tree_ok_sided in Hy as (Hy & Hb & Hc). rewrite !root_of_sided in *.
  rewrite rotate_unfold. rewrite (ldn_eq _ _ _ Hx). cbn [mbind option_bind].
  replace (child (negb side) _) with (Some y) by (by destruct side).
  unfold RB_IS_NIL at 1. rewrite H1, bool_decide_false by apart. rewrite (ldn_eq _ _ _ Hy). cbn [mbind option_bind].
  replace (child side _) with (Some (root_of b)) by (by destruct side). rewrite (stn_eq _ _ _ _ Hx). cbn [mbind option_bind].
  set (nx := with_child _ _ _). set (s1 := set_heap s _). assert (W1 : writes [x] s s1) by (apply writes_insert; by eexists).
  assert (Hx1 : rb_heap s1 !! x = Some nx) by apply lookup_insert_eq.
  rewrite (ldn_eq s1 y _ (eq_trans (w_agree _ _ _ W1 y ltac:(apart)) Hy)). cbn [mbind option_bind].
  replace (child side _) with (Some (root_of b)) by (by destruct side).
  destruct (set_parent_ok s1 b y x) as (s2 & -> & Hb2 & W2 & R2 & N2 & P2); [eapply tree_ok_writes; [exact W1|apart|done]| | |done|].
  { eapply sentinel_ok_writes; [exact W1| |done]. apart. }
  { apart. }
  assert (W12 := writes_trans _ _ _ _ _ W1 W2). cbn [mbind option_bind].
  edestruct (take_place s2 ctx side x y nx) as (s' & -> & W3 & Hctx' & Hroot & Hx' & Hy').
  { by rewrite (w_sentinel _ _ _ W12). }
  { rewrite (w_agree _ _ _ W2); [done|apart]. }
  { rewrite (w_agree _ _ _ W12); [exact Hy|apart]. }
  { unfold nx, frame_node. by destruct side. }
  { eapply path_ok_writes; [exact W12|apart|done]. }
  1-5: clear -Dn Dx Dy Hctx; rewrite ?NoDup_cons; set_solver.
  assert (W := writes_trans _ _ _ _ _ W12 W3). exists s'. split; [done|].
  split; [|split].
  - split; [by rewrite (w_sentinel _ _ _ W)| | | | |].
    + rewrite Hroot. destruct ctx; [by cbn; rewrite root_of_sided|]. rewrite R2. cbn. rewrite H2. f_equal. apply root_of_plug.
    + apply tree_ok_sided. rewrite root_of_sided. split; [rewrite Hy'; by destruct side|]. split; [apply tree_ok_sided|].
      * split; [rewrite Hx'; by destruct side|]. split; [eapply tree_ok_writes; [exact W|apart|done]|eapply tree_ok_writes; [exact W3|apart|done]].
      * eapply tree_ok_writes; [exact W|apart|done].
    + by rewrite root_of_sided.
    + eapply sentinel_ok_writes; [exact W3|apart|done].
    + eapply footprint_perm; [symmetry; apply cells_two'|]. eapply footprint_writes; [exact W| |done].
      clear. destruct (root_of_in b) as [->|]; set_solver.
  - by eapply writes_same.
  - rewrite (nil_parent_writes _ _ _ W3) by apart. rewrite P2. destruct b; [done|]. apply (nil_parent_writes _ _ _ W1). apart.
Qed.

(** * Reading and recoloring at the focus *)

Definition cell side c (near far : loc) (p : loc) (k : K) (d : option D) : LWRTL_RB_TREE_NODE K D :=
  if side : bool then mk_node c (Some near) (Some far) (Some p) (Some k) d else mk_node c (Some far) (Some near) (Some p) (Some k) d.

Lemma color_cell side c a b p k d : color (cell side c a b p k d) = c.
Proof. by destruct side. Qed.
Lemma child_near_cell side c a b p k d : child side (cell side c a b p k d) = Some a.
Proof. by destruct side. Qed.
Lemma child_far_cell side c a b p k d : child (negb side) (cell side c a b p k d) = Some b.
Proof. by destruct side. Qed.
Lemma parent_cell side c a b p k d : pParent (cell side c a b p k d) = Some p.
Proof. by destruct side. Qed.
Lemma key_cell side c a b p k d : pKey (cell side c a b p k d) = Some k.
Proof. by destruct side. Qed.
Lemma data_cell side c a b p k d : pData (cell side c a b p k d) = d.
Proof. by destruct side. Qed.

Lemma rep_ldn g s ctx side x c a k d b :
  rep g s ctx (sided side x c a k d b) -> ldn s (Some x) = Some (cell side c (root_of a) (root_of b) (parent_of ctx) k d).
Proof. intros []. apply tree_ok_sided in rep_tree0 as (Hx & _). unfold ldn. cbn. rewrite Hx. by destruct side. Qed.

Lemma rep_is_nil g s ctx t : rep g s ctx t -> RB_IS_NIL s (Some (root_of t)) = match t with Leaf => true | _ => false end.
Proof.
  intros [H1 _ _ _ _ [Hd _ _ _]]. unfold RB_IS_NIL. rewrite H1. destruct t; cbn; [by apply bool_decide_true|].
  apply bool_decide_false. unfold cells in Hd. cbn in Hd. apply NoDup_cons in Hd as [Hd _]. set_solver.
Qed.

Lemma rep_node_not_nil g s ctx side l c a k d b : rep g s ctx (sided side l c a k d b) -> RB_IS_NIL s (Some l) = false.
Proof. intros H%rep_is_nil. rewrite root_of_sided in H. rewrite H. by destruct side. Qed.

Lemma rep_parent_nil g s ctx t : rep g s ctx t -> RB_IS_NIL s (Some (parent_of ctx)) = match ctx with [] => true | _ => false end.
Proof.
  intros H. destruct ctx as [|f ctx]; cbn [parent_of].
  - unfold RB_IS_NIL. rewrite (rep_sentinel _ _ _ _ H). by apply bool_decide_true.
  - apply rep_up, rep_is_nil in H. unfold unframe in H. rewrite root_of_sided in H. rewrite H. by destruct (f_side f).
Qed.

Lemma rep_ldn_root g s ctx t : rep g s ctx t -> exists n, ldn s (Some (root_of t)) = Some n /\ color n = tree_color t.
Proof.
  intros H. destruct t as [|l c lt k d rt].
  - destruct (rep_nil _ _ _ _ H) as (n & Hn & Hc). by exists n.
  - apply (rep_ldn _ _ _ true) in H. cbn [root_of]. by eexists.
Qed.

Lemma rep_is_red g s ctx t : rep g s ctx t -> RB_IS_RED s (Some (root_of t)) = Some (bool_decide (tree_color t = Red)).
Proof. intros (n & Hn & Hc)%rep_ldn_root. unfold RB_IS_RED. rewrite Hn. cbn. by rewrite Hc. Qed.

Lemma rep_is_black g s ctx t : rep g s ctx t -> RB_IS_BLACK s (Some (root_of t)) = Some (bool_decide (tree_color t = Black)).
Proof. intros (n & Hn & Hc)%rep_ldn_root. unfold RB_IS_BLACK. rewrite Hn. cbn. by rewrite Hc. Qed.

(** The focus knows its parent: a node always does, the sentinel when it was told
    last that it is here. *)
Definition anchored s ctx t : Prop := t = Leaf -> nil_parent s = Some (Some (parent_of ctx)).

Lemma rep_parent g s ctx t : rep g s ctx t -> anchored s ctx t -> RB_PARENT s (Some (root_of t)) = Some (Some (parent_of ctx)).
Proof.
  intros H Ha. unfold RB_PARENT. destruct t as [|l c lt k d rt].
  - specialize (Ha eq_refl). unfold nil_parent in Ha. cbn. destruct (rb_heap s !! nil); cbn in *; congruence.
  - apply (rep_ldn _ _ _ true) in H. cbn [root_of]. rewrite H. done.
Qed.

(** Children of one node are apart, unless both are the sentinel. *)
Lemma rep_apart g s ctx side x c a k d b : rep g s ctx (sided side x c a k d b) -> root_of a = root_of b -> a = Leaf /\ b = Leaf.
Proof.
  intros [_ _ _ _ _ [Hd _ _ _]] E. assert (Hd' : NoDup (nil :: locs a ++ locs b)).
  { unfold cells in Hd. rewrite locs_sided in Hd. rewrite NoDup_cons, NoDup_app, NoDup_cons in Hd. apply NoDup_cons. destruct Hd as (Hn & (_ & Hd) & _). split; [set_solver|done]. }
  rewrite NoDup_cons, NoDup_app in Hd'. destruct Hd' as (Hn & _ & Hab & _).
  destruct a as [|l ca la ka da ra], b as [|l' cb lb kb db rb]; cbn in E, Hn, Hab; [done|..]; exfalso.
  - rewrite E in Hn. set_solver.
  - rewrite <- E in Hn. set_solver.
  - rewrite E in Hab. apply (Hab l'); set_solver.
Qed.

Lemma rep_near_child g s ctx side x c a k d b n :
  rep g s ctx (sided side x c a k d b) -> ldn s (Some x) = Some n -> a <> Leaf -> bool_decide (Some (root_of a) = pLeft n) = side.
Proof.
  intros H Hn Ha. rewrite (rep_ldn _ _ _ _ _ _ _ _ _ _ H) in Hn. injection Hn as <-. destruct side; cbn; [by apply bool_decide_true|].
  apply bool_decide_false. intros [=]. by destruct (rep_apart _ _ _ _ _ _ _ _ _ _ H).
Qed.

Lemma sided_flip side l c a k d b : sided side l c a k d b = sided (negb side) l c b k d a.
Proof. by destruct side. Qed.

(** The other child comes into focus. *)
Lemma rep_swap g s side l c k d b ctx a :
  rep g s (mk_frame side l c k d b :: ctx) a -> rep g s (mk_frame (negb side) l c k d a :: ctx) b.
Proof. intros H%rep_close. apply rep_open. by rewrite <- sided_flip. Qed.

Lemma root_plug_in f ctx t : root_of (plug (f :: ctx) t) ∈ path_locs (f :: ctx).
Proof.
  revert f t. induction ctx as [|f' ctx IH]; intros f t; cbn [plug path_locs].
  - unfold unframe. rewrite root_of_sided. set_solver.
  - specialize (IH f' (unframe f t)). cbn [plug path_locs] in IH. set_solver.
Qed.

(** The focus is the root just when the path is empty. *)
Lemma rep_at_root g s ctx t : rep g s ctx t -> bool_decide (Some (root_of t) = pRoot s) = match ctx with [] => true | _ => false end.
Proof.
  intros [_ H2 _ _ _ [Hd _ _ _]]. rewrite H2. destruct ctx as [|f ctx]; [by apply bool_decide_true|]. apply bool_decide_false. intros [= E].
  assert (Hin := root_plug_in f ctx t). cbn [plug] in Hin, E. rewrite <- E in Hin. unfold cells in Hd. rewrite NoDup_cons, NoDup_app in Hd. destruct Hd as (Hn & _ & Hd & _).
  destruct (root_of_in t) as [Hr|Hr]; [rewrite Hr in Hin; set_solver|by apply (Hd _ Hr)].
Qed.

Lemma recolor_sided c0 side l c a k d b : recolor c0 (sided side l c a k d b) = sided side l c0 a k d b.
Proof. by destruct side. Qed.

Lemma tree_color_sided side l c a k d b : tree_color (sided side l c a k d b) = c.
Proof. by destruct side. Qed.

Lemma sided_node side l c a k d b : sided side l c a k d b <> Leaf.
Proof. by destruct side. Qed.

Definition color_with (c : RBTreeNodeColor) (s : LWRTL_RB_TREE K D) (x : nptr) := stn s x (with_color c).

Lemma recolor_ok g s ctx t c :
  rep g s ctx t -> (t = Leaf -> c = Black) ->
  exists s', color_with c s (Some (root_of t)) = Some s' /\ rep g s' ctx (recolor c t) /\ same_calls s s' /\ nil_parent s' = nil_parent s.
Proof.
  intros [H1 H2 H3 H4 H5 H6] Hc. destruct t as [|l c0 lt k d rt]; cbn [root_of recolor].
  - destruct H5 as (n & Hn & Hb). rewrite (Hc eq_refl). eexists. split; [by apply stn_eq|].
    replace (with_color Black n) with n by (destruct n; cbn in Hb; subst; done). rewrite insert_id by done.
    split; [|done]. split; try done. by exists n.
  - cbn in H3. destruct H3 as (Hl & Hlt & Hrt). assert (Hd := fp_nodup _ _ _ H6). unfold cells in Hd. cbn in Hd. rewrite !NoDup_cons in Hd. destruct Hd as (Hn & Hl0 & _).
    eexists. split; [by apply stn_eq|]. assert (W := writes_insert s l (with_color c (mk_node c0 (Some (root_of lt)) (Some (root_of rt)) (Some (parent_of ctx)) (Some k) d)) ltac:(by eexists)).
    split; [|split; [by eapply writes_same|eapply nil_parent_writes; [exact W|set_solver]]]. split; try done.
    + cbn. rewrite H2. destruct ctx; [done|]. f_equal. apply root_of_plug.
    + cbn. rewrite lookup_insert_eq. split; [done|]. split; apply tree_ok_insert; (done || set_solver).
    + apply path_ok_insert; [set_solver|done].
    + apply sentinel_ok_insert; [set_solver|done].
    + eapply footprint_writes; [exact W|set_solver|done].
Qed.

(** The node above the focus changes its color. *)
Lemma recolor_up_ok g s ctx side l c k d b t c' :
  rep g s (mk_frame side l c k d b :: ctx) t ->
  exists s', color_with c' s (Some l) = Some s' /\ rep g s' (mk_frame side l c' k d b :: ctx) t /\ same_calls s s' /\ nil_parent s' = nil_parent s.
Proof.
  intros H. apply rep_close in H. destruct (recolor_ok _ _ _ _ c' H) as (s' & E & H' & Hs); [by intros ?%sided_node|].
  rewrite root_of_sided in E. rewrite recolor_sided in H'. exists s'. split; [done|]. split; [by apply rep_up|done].
Qed.
End Heap.
End Repr.
#[export] Hint Rewrite @color_cell @child_near_cell @child_far_cell @parent_cell @key_cell @data_cell @root_of_sided @recolor_sided @tree_color_sided : rb.
Arguments tree : clear implicits.
Arguments frame : clear implicits.
Arguments rep_ldn {K D nil g s ctx side x c a k d b} _.
Arguments rep_is_nil {K D nil g s ctx t} _.
Arguments rep_node_not_nil {K D nil g s ctx side l c a k d b} _.
Arguments rep_is_red {K D nil g s ctx t} _.
Arguments rep_is_black {K D nil g s ctx t} _.
Arguments rep_parent {K D nil g s ctx t} _ _.
Arguments rep_parent_nil {K D nil g s ctx t} _.
Arguments rep_apart {K D nil g s ctx side x c a k d b} _ _.
Arguments rep_near_child {K D nil g s ctx side x c a k d b n} _ _ _.
Arguments rep_root {K D nil g s ctx t} _.
Arguments rep_sentinel {K D nil g s ctx t} _.
Arguments rep_close {K D nil g s side l c k d b ctx t} _.
Arguments rep_open {K D nil g s side l c k d b ctx t} _.
Arguments rep_swap {K D nil g s side l c k d b ctx a} _.
Arguments recolor_ok {K D nil g s ctx t} c _ _.
Arguments recolor_up_ok {K D nil g s ctx side l c k d b t} c' _.
Arguments rotate_ok {K D nil g s ctx side x cx a kx dx y cy b ky dy c} _.
Arguments rep_at_root {K D nil g s ctx t} _.
