(* ===== verification/RbTreeAdd.v ===== *)
(** Insertion into a red-black tree: [LwRtlRBTreeAdd] is a function on trees with
    paths, which puts the entry in its place in order and keeps the colors right. *)

From stdpp Require Import gmap.
From S2P Require Import Prelude SecurityTypes RbTree RbTreeRepr.

(** * Insertion on trees *)

Section Insert.
Context {K D : Type} (pfnCompare : K -> K -> Z).
Abbreviation path := (list (frame K D)).
Implicit Types (t : tree K D) (ctx : path).

(** The path to the leaf where a key goes. *)
Fixpoint ins_path (k : K) t ctx : path :=
  match t with
  | Leaf => ctx
  | Node l c lt k' d rt =>
      if pfnCompare k k' <? 0 then ins_path k lt (mk_frame true l c k' d rt :: ctx) else ins_path k rt (mk_frame false l c k' d lt :: ctx)
  end.

(** A red tree below a red node: recolor while the uncle is red, then rotate. *)
Fixpoint add_fix t ctx : tree K D :=
  match ctx with
  | p :: g :: ctx' =>
      if decide (f_color p = Red) then
        if decide (tree_color (f_sib g) = Red) then
          add_fix (sided (f_side g) (f_loc g) Red (sided (f_side p) (f_loc p) Black t (f_key p) (f_data p) (f_sib p)) (f_key g) (f_data g) (recolor Black (f_sib g))) ctx'
        else if decide (f_side p = f_side g) then
          plug ctx' (sided (f_side g) (f_loc p) Black t (f_key p) (f_data p) (sided (f_side g) (f_loc g) Red (f_sib p) (f_key g) (f_data g) (f_sib g)))
        else
          match t with
          | Leaf => plug ctx t
          | Node l c lt k d rt =>
              let '(near, far) := if f_side g then (lt, rt) else (rt, lt) in
              plug ctx' (sided (f_side g) l Black (sided (f_side g) (f_loc p) (f_color p) (f_sib p) (f_key p) (f_data p) near) k d
                           (sided (f_side g) (f_loc g) Red far (f_key g) (f_data g) (f_sib g)))
          end
      else plug ctx t
  | _ => plug ctx t
  end.

Definition add_tree (l : loc) (k : K) (d : option D) t : tree K D := recolor Black (add_fix (Node l Red Leaf k d Leaf) (ins_path k t [])).

Fixpoint height t : nat := match t with Leaf => 0 | Node _ _ lt _ _ rt => S (height lt `max` height rt) end.
Definition sided_by (k : K) (f : frame K D) : Prop := f_side f = (pfnCompare k (f_key f) <? 0).
(** The topmost node of a path is black. *)
Definition top_black ctx : Prop := from_option (fun f => f_color f = Black) True (last ctx).

(** * On the heap *)

Context (nil : loc).
Implicit Types (g : gmap loc (LWRTL_RB_TREE_NODE K D)) (s : LWRTL_RB_TREE K D).

Lemma ins_path_plug k t : forall ctx, plug (ins_path k t ctx) Leaf = plug ctx t.
Proof. induction t as [|l c lt IHl k' d rt IHr]; intros ctx; [done|]. cbn. case_match; [apply IHl|apply IHr]. Qed.

Lemma ins_path_sides k t : forall ctx, Forall (sided_by k) ctx -> Forall (sided_by k) (ins_path k t ctx).
Proof.
  induction t as [|l c lt IHl k' d rt IHr]; intros ctx H; [done|]. cbn. case_match eqn:E; [apply IHl|apply IHr]; by constructor.
Qed.

Lemma insert_loop_ok g s k t : forall ctx n,
  rep nil g s ctx t -> (height t < n)%nat ->
  insert_loop pfnCompare n s k (Some (parent_of nil ctx)) (Some (root_of nil t)) = Some (Some (parent_of nil (ins_path k t ctx))).
Proof.
  induction t as [|l c lt IHl k' d rt IHr]; intros ctx n H Hn; (destruct n as [|n]; [lia|]); cbn [insert_loop]; rewrite (rep_is_nil H); [done|].
  cbn [root_of]. rewrite (rep_ldn (side := true) (x := l) (a := lt) (b := rt) H). cbn [mbind option_bind]. unfold compare_with. rewrite key_cell.
  cbn [mbind option_bind ins_path height] in *. case_match eqn:E.
  - apply (IHl (mk_frame true l c k' d rt :: ctx)); [by apply rep_up|lia].
  - apply (IHr (mk_frame false l c k' d lt :: ctx)); [by apply rep_up|lia].
Qed.

Lemma footprint_adopt (h h' : gmap loc (LWRTL_RB_TREE_NODE K D)) l n ls ls' :
  footprint h {[l := n]} ls -> dom h' = dom h -> ls' ≡ₚ l :: ls -> footprint h' ∅ ls'.
Proof.
  intros [H1 H2 H3 H4] Hd HP. eapply footprint_perm; [symmetry; exact HP|]. assert (Hl : l ∉ ls).
  { intros Hl. apply H3 in Hl. by rewrite lookup_singleton_eq in Hl. }
  split; [by apply NoDup_cons| |done|apply map_empty_subseteq]. rewrite Hd, H2, dom_singleton_L, dom_empty_L. set_solver.
Qed.

(** The new node is linked in. *)
Lemma insert_ok s k d l t n :
  rep nil {[l := n]} s [] t -> color n = Red -> pLeft n = Some nil -> pRight n = Some nil -> pKey n = Some k -> pData n = d ->
  (height t < fuel_of s)%nat ->
  exists s', LwRtlRBTreeInsert pfnCompare s (Some l) = Some s' /\ rep nil ∅ s' (ins_path k t []) (Node l Red Leaf k d Leaf) /\ same_calls s s'.
Proof.
  intros H Hc Hl Hr Hk Hd Hf. assert (Hn : rb_heap s !! l = Some n).
  { eapply lookup_weaken; [apply lookup_singleton_eq|]. apply (fp_rest _ _ _ (rep_cells _ _ _ _ _ H)). }
  unfold LwRtlRBTreeInsert. rewrite (ldn_eq _ _ _ Hn). cbn [mbind option_bind]. rewrite Hk. cbn [mbind option_bind].
  rewrite (rep_sentinel H), (rep_root H). change (Some nil) with (Some (parent_of nil (@Datatypes.nil (frame K D)))).
  rewrite (insert_loop_ok _ _ _ _ _ _ H Hf). cbn [mbind option_bind]. rewrite (set_parent_eq _ _ _ _ Hn). cbn [mbind option_bind].
  set (ctx := ins_path k t []). assert (Hs : Forall (sided_by k) ctx) by (by apply ins_path_sides).
  assert (H' : rep nil {[l := n]} s ctx Leaf) by (apply rep_plug; unfold ctx; rewrite ins_path_plug; by apply rep_plug). clear H Hf. clearbody ctx.
  set (s1 := set_heap s _). assert (W1 : writes [l] s s1) by (apply writes_insert; by eexists). destruct H' as [R1 R2 R3 R4 R5 R6].
  assert (Hlc : l ∉ cells nil ctx Leaf). { intros Hin. apply (fp_disjoint _ _ _ R6) in Hin. by rewrite lookup_singleton_eq in Hin. }
  assert (Hnd := fp_nodup _ _ _ R6). unfold cells in Hlc, Hnd. cbn [locs app] in Hlc, Hnd.
  unfold RB_PARENT. rewrite (ldn_eq s1 l _ (lookup_insert_eq _ _ _)). cbn [mbind option_bind pParent with_parent].
  assert (Hnode : with_parent (Some (parent_of nil ctx)) n = mk_node Red (Some nil) (Some nil) (Some (parent_of nil ctx)) (Some k) d) by (destruct n; cbn in *; by subst).
  unfold RB_IS_NIL. cbn [pSentinel set_heap s1]. rewrite R1. destruct ctx as [|f ctx]; cbn [parent_of] in *.
  - rewrite bool_decide_true by done. eexists. split; [done|]. split; [|by split]. split; try done.
    + cbn. rewrite lookup_insert_eq. by rewrite Hnode.
    + apply (sentinel_ok_insert nil); [set_solver|done].
    + eapply footprint_adopt; [exact R6|exact (w_dom _ _ _ W1)|]. unfold cells. cbn. apply Permutation_swap.
  - cbn [path_locs path_ok] in *. destruct R4 as (Hfl & Hsib & Hup). rewrite !NoDup_cons in Hnd. destruct Hnd as (Hnil & Hf & _).
    rewrite bool_decide_false by set_solver.
    assert (Hf1 : rb_heap s1 !! f_loc f = Some (frame_node nil f nil (parent_of nil ctx))) by (cbn; rewrite lookup_insert_ne by set_solver; done).
    rewrite (ldn_eq _ _ _ Hf1). cbn [mbind option_bind]. unfold compare_with. replace (pKey (frame_node _ _ _ _)) with (Some (f_key f)) by (unfold frame_node; by destruct (f_side f)).
    apply Forall_cons in Hs as [Hs _]. unfold sided_by in Hs. cbn [mbind option_bind]. rewrite <- Hs.
    exists (set_heap s1 (<[f_loc f := frame_node nil f l (parent_of nil ctx)]> (rb_heap s1))). split.
    { unfold frame_node. destruct (f_side f) eqn:E; erewrite stn_eq by exact Hf1; unfold frame_node; by rewrite E. }
    split; [|by split]. split; try done.
    + cbn [pRoot set_heap s1 plug]. rewrite R2. f_equal. apply root_of_plug.
    + cbn. rewrite lookup_insert_ne by set_solver. rewrite lookup_insert_eq. by rewrite Hnode.
    + cbn. rewrite lookup_insert_eq. split; [done|]. split; [repeat (apply tree_ok_insert; [set_solver|])|repeat (apply path_ok_insert; [set_solver|])]; done.
    + cbn. repeat (apply (sentinel_ok_insert nil); [set_solver|]). done.
    + eapply footprint_adopt; [exact R6|cbn; rewrite !dom_insert_lookup_L by (try (by eexists); rewrite lookup_insert_ne by set_solver; by eexists); done|].
      unfold cells. cbn. apply Permutation_swap.
Qed.

(** The code colors through two macros. *)
Lemma color_black s x : RB_COLOR_BLACK s x = color_with Black s x.
Proof. done. Qed.
Lemma color_red s x : RB_COLOR_RED s x = color_with Red s x.
Proof. done. Qed.

(** A turn of the loop with a red uncle. *)
Lemma add_turn_recolor g s ctx t sp lp cp kp dp bp sg lg cg kg dg u :
  rep nil g s (mk_frame sp lp cp kp dp bp :: mk_frame sg lg cg kg dg u :: ctx) t -> tree_color u = Red ->
  exists s', add_turn sg s (Some (root_of nil t)) (Some lp) (Some lg) = Some (s', Some lg) /\
    rep nil g s' ctx (sided sg lg Red (sided sp lp Black t kp dp bp) kg dg (recolor Black u)) /\ same_calls s s'.
Proof.
  intros H Hu. assert (Hg := rep_close (rep_close H)). assert (Hsw := rep_swap (rep_close H)).
  unfold add_turn. rewrite (rep_node_not_nil Hg), (rep_ldn Hg). cbn [mbind option_bind]. rewrite child_far_cell.
  rewrite (rep_is_red Hsw). cbn [mbind option_bind]. rewrite bool_decide_true by done.
  destruct (recolor_up_ok Black H) as (s1 & E1 & H1 & S1 & _). rewrite color_black, E1. cbn [mbind option_bind].
  apply rep_close, rep_swap in H1. destruct (recolor_ok Black H1) as (s2 & E2 & H2 & S2 & _); [done|]. rewrite color_black, E2. cbn [mbind option_bind].
  destruct (recolor_up_ok Red H2) as (s3 & E3 & H3 & S3 & _). rewrite color_red, E3. cbn [mbind option_bind].
  exists s3. split; [done|]. apply rep_swap in H3. rewrite negb_involutive in H3. apply rep_close in H3. split; [done|]. by do 2 (etrans; [eassumption|]).
Qed.

(** The last part of a turn with a black uncle: the parent goes up in place of the
    grandparent. *)
Lemma add_turn_lift g s ctx t lp cp kp dp bp sg lg cg kg dg u :
  rep nil g s (mk_frame sg lp cp kp dp bp :: mk_frame sg lg cg kg dg u :: ctx) t ->
  exists s', (s ← RB_COLOR_BLACK s (Some lp); s ← (if RB_IS_NIL s (Some lg) then Some s else s ← RB_COLOR_RED s (Some lg); rotate (negb sg) s (Some lg)); Some (s, Some (root_of nil t))) =
      Some (s', Some (root_of nil t)) /\
    rep nil g s' (mk_frame sg lp Black kp dp (sided sg lg Red bp kg dg u) :: ctx) t /\ same_calls s s'.
Proof.
  intros H. destruct (recolor_up_ok Black H) as (s1 & E1 & H1 & S1 & _). rewrite color_black, E1. cbn [mbind option_bind]. apply rep_close in H1.
  rewrite (rep_node_not_nil (rep_close H1)). destruct (recolor_up_ok Red H1) as (s2 & E2 & H2 & S2 & _). rewrite color_red, E2. cbn [mbind option_bind].
  apply rep_close in H2. rewrite sided_flip, (sided_flip sg lp) in H2. destruct (rotate_ok H2) as (s3 & E3 & H3 & S3 & _). rewrite E3. cbn [mbind option_bind].
  exists s3. split; [done|]. split; [|by do 2 (etrans; [eassumption|])]. apply rep_open. rewrite sided_flip, (sided_flip sg lg). done.
Qed.

(** A turn with a black uncle: the node on the outer side, and on the inner side. *)
Lemma add_turn_straight g s ctx t lp cp kp dp bp sg lg cg kg dg u :
  rep nil g s (mk_frame sg lp cp kp dp bp :: mk_frame sg lg cg kg dg u :: ctx) t -> t <> Leaf -> tree_color u = Black ->
  exists s', add_turn sg s (Some (root_of nil t)) (Some lp) (Some lg) = Some (s', Some (root_of nil t)) /\
    rep nil g s' (mk_frame sg lp Black kp dp (sided sg lg Red bp kg dg u) :: ctx) t /\ same_calls s s'.
Proof.
  intros H Ht Hu. assert (Hp := rep_close H). assert (Hg := rep_close Hp). assert (Hsw := rep_swap Hp).
  unfold add_turn. rewrite (rep_node_not_nil Hg), (rep_ldn Hg). cbn [mbind option_bind]. rewrite child_far_cell.
  rewrite (rep_is_red Hsw). cbn [mbind option_bind]. rewrite bool_decide_false by (by rewrite Hu).
  rewrite (rep_ldn Hp). cbn [mbind option_bind]. rewrite child_far_cell, bool_decide_false.
  2: { intros [=]. by destruct (rep_apart Hp). }
  cbn [mbind option_bind]. by apply (add_turn_lift _ _ _ _ _ cp _ _ _ _ _ cg).
Qed.

Lemma add_turn_bent g s ctx lt cx near kx dx far lp cp kp dp bp sg lg cg kg dg u :
  rep nil g s (mk_frame (negb sg) lp cp kp dp bp :: mk_frame sg lg cg kg dg u :: ctx) (sided sg lt cx near kx dx far) -> tree_color u = Black ->
  exists s', add_turn sg s (Some lt) (Some lp) (Some lg) = Some (s', Some lp) /\
    rep nil g s' (mk_frame sg lt Black kx dx (sided sg lg Red far kg dg u) :: ctx) (sided sg lp cp bp kp dp near) /\ same_calls s s'.
Proof.
  intros H Hu. assert (Hp := rep_close H). assert (Hg := rep_close Hp). assert (Hsw := rep_swap Hp).
  unfold add_turn. rewrite (rep_node_not_nil Hg), (rep_ldn Hg). cbn [mbind option_bind]. rewrite child_far_cell.
  rewrite (rep_is_red Hsw). cbn [mbind option_bind]. rewrite bool_decide_false by (by rewrite Hu).
  rewrite sided_flip, negb_involutive in Hp. rewrite (rep_ldn Hp). cbn [mbind option_bind]. rewrite child_far_cell, root_of_sided, bool_decide_true by done.
  destruct (rotate_ok Hp) as (s1 & E1 & H1 & S1 & _). rewrite E1. cbn [mbind option_bind]. apply rep_open in H1.
  assert (Hpar := rep_parent H1 ltac:(by intros ?%sided_node)). rewrite root_of_sided in Hpar. rewrite Hpar. cbn [mbind option_bind parent_of f_loc].
  destruct (add_turn_lift _ _ _ _ _ _ _ _ _ _ _ _ _ _ _ H1) as (s2 & E2 & H2 & S2). rewrite root_of_sided in E2. rewrite E2.
  exists s2. split; [done|]. split; [done|]. by etrans.
Qed.

Lemma add_loop_black g s f ctx t n : rep nil g s (f :: ctx) t -> t <> Leaf -> f_color f = Black -> add_loop (S n) s (Some (root_of nil t)) = Some s.
Proof.
  intros H Ht Hc. cbn [add_loop]. rewrite (rep_at_root H). rewrite (rep_parent H ltac:(by intros ?)). cbn [mbind option_bind parent_of].
  destruct f as [sf lf cf kf df bf]. assert (Hr := rep_is_red (rep_close H)). rewrite root_of_sided, tree_color_sided in Hr. cbn in Hc. subst cf. cbn [f_loc]. by rewrite Hr.
Qed.

Lemma top_black_cons f f' ctx : top_black (f :: f' :: ctx) -> top_black (f' :: ctx).
Proof. done. Qed.

Lemma top_black_tail f ctx : top_black (f :: ctx) -> top_black ctx.
Proof. by destruct ctx. Qed.

Lemma add_loop_ok g m : forall s ctx t n,
  (length ctx <= m)%nat -> rep nil g s ctx t -> t <> Leaf -> top_black ctx -> (length ctx < n)%nat ->
  exists s', add_loop n s (Some (root_of nil t)) = Some s' /\ rep nil g s' [] (add_fix t ctx) /\ same_calls s s'.
Proof.
  induction m as [|m IH]; intros s ctx t n Hm H Ht Hb Hn; (destruct n as [|n]; [lia|]); (destruct ctx as [|[sp lp cp kp dp bp] ctx]).
  1,3: exists s; cbn [add_loop]; rewrite (rep_at_root H); split; [done|]; split; [by apply rep_plug in H|done].
  { cbn in Hm. lia. }
  destruct (decide (cp = Red)) as [->|Hcp]; [|].
  2: { exists s. rewrite (add_loop_black _ _ _ _ _ _ H Ht) by (destruct cp; done). split; [done|]. split; [|done].
       replace (add_fix _ _) with (plug (mk_frame sp lp cp kp dp bp :: ctx) t); [by apply rep_plug in H|]. cbn. destruct ctx; [done|]. by rewrite decide_False. }
  destruct ctx as [|[sg lg cg kg dg u] ctx]; [done|]. cbn [add_loop]. rewrite (rep_at_root H). assert (Hp := rep_close H). assert (Hg := rep_close Hp).
  rewrite (rep_parent H ltac:(by intros ?)). cbn [mbind option_bind parent_of f_loc].
  assert (Hr := rep_is_red Hp). rewrite root_of_sided, tree_color_sided in Hr. rewrite Hr. cbn [mbind option_bind]. rewrite bool_decide_true by done. cbn [negb].
  assert (Hpp := rep_parent Hp ltac:(by intros ?%sided_node)). rewrite root_of_sided in Hpp. rewrite Hpp. cbn [mbind option_bind parent_of f_loc].
  assert (Hl := rep_near_child Hg (rep_ldn Hg) ltac:(by apply sided_node)). rewrite root_of_sided in Hl. rewrite (rep_ldn Hg). cbn [mbind option_bind]. rewrite root_of_sided, Hl.
  cbn [add_fix f_color f_sib f_side f_loc f_key f_data]. rewrite decide_True by done. cbn in Hm, Hn. destruct (decide (tree_color u = Red)) as [Hu|Hu].
  - destruct (add_turn_recolor _ _ _ _ _ _ _ _ _ _ _ _ _ _ _ _ H Hu) as (s1 & -> & H1 & S1). cbn [mbind option_bind].
    destruct (IH s1 ctx (sided sg lg Red (sided sp lp Black t kp dp bp) kg dg (recolor Black u)) n) as (s2 & E2 & H2 & S2);
      [lia|done|by apply sided_node|by apply top_black_tail, top_black_tail in Hb|lia|].
    rewrite root_of_sided in E2. exists s2. split; [done|]. split; [done|by etrans].
  - assert (Hub : tree_color u = Black) by (by destruct (tree_color u)). destruct (decide (sp = sg)) as [->|Hs].
    + destruct (add_turn_straight _ _ _ _ _ _ _ _ _ _ _ _ _ _ _ H Ht Hub) as (s1 & -> & H1 & S1). cbn [mbind option_bind].
      exists s1. destruct n as [|n]; [lia|]. rewrite (add_loop_black _ _ _ _ _ _ H1 Ht) by done. split; [done|]. split; [by apply rep_close, rep_plug in H1|done].
    + destruct t as [|l c lt k d rt]; [done|]. assert (sp = negb sg) as -> by (by destruct sp, sg).
      set (nf := if sg then (lt, rt) else (rt, lt)). assert (Et : Node l c lt k d rt = sided sg l c nf.1 k d nf.2) by (by destruct sg). rewrite Et in H.
      destruct (add_turn_bent _ _ _ _ _ _ _ _ _ _ _ _ _ _ _ _ _ _ _ _ H Hub) as (s1 & E1 & H1 & S1). cbn [root_of]. rewrite E1. cbn [mbind option_bind].
      exists s1. destruct n as [|n]; [lia|]. assert (E2 := add_loop_black _ _ _ _ _ n H1 ltac:(by apply sided_node) eq_refl). rewrite root_of_sided in E2. rewrite E2.
      split; [done|]. split; [|done]. destruct nf as [near far]. by apply rep_close, rep_plug in H1.
Qed.

(** * The whole operation *)

Lemma height_locs t : (height t <= length (locs t))%nat.
Proof. induction t; cbn; [lia|]. rewrite length_app. lia. Qed.

Lemma footprint_size (h g : gmap loc (LWRTL_RB_TREE_NODE K D)) ls : footprint h g ls -> (length ls <= size h)%nat.
Proof.
  intros [H1 H2 _ _]. rewrite <- size_dom, H2. rewrite <- (size_list_to_set (C := gset loc) ls) by done. apply subseteq_size. set_solver.
Qed.

Lemma path_locs_length ctx : (length ctx <= length (path_locs ctx))%nat.
Proof. induction ctx as [|f ctx IH]; cbn; [lia|]. rewrite length_app. lia. Qed.

Lemma fuel_enough g s ctx t : rep nil g s ctx t -> (S (length (locs t) + length ctx) < fuel_of s)%nat.
Proof.
  intros H. apply rep_cells, footprint_size in H. unfold cells in H. cbn in H. rewrite length_app in H. assert (Hp := path_locs_length ctx). unfold fuel_of. lia.
Qed.

Lemma ins_path_top k t : forall ctx, top_black ctx -> (ctx = [] -> tree_color t = Black) -> top_black (ins_path k t ctx).
Proof.
  induction t as [|l c lt IHl k' d rt IHr]; intros ctx H1 H2; [done|]. cbn. case_match; [apply IHl|apply IHr]; try done; (destruct ctx; [by apply H2|done]).
Qed.

(** A node that the tree does not know about yet. *)
Lemma rep_fresh s t l n : rep nil ∅ s [] t -> l ∉ dom (rb_heap s) -> rep nil {[l := n]} (set_heap s (<[l := n]> (rb_heap s))) [] t.
Proof.
  intros [H1 H2 H3 H4 H5 H6] Hl. assert (Hc : l ∉ cells nil [] t). { rewrite (fp_dom _ _ _ H6) in Hl. set_solver. }
  split; [done|done| |done| |].
  - apply tree_ok_insert; [|done]. unfold cells in Hc. set_solver.
  - apply (sentinel_ok_insert nil); [|done]. unfold cells in Hc. set_solver.
  - destruct H6 as [F1 F2 F3 F4]. split; [done| | |].
    + cbn. rewrite dom_insert_L, F2, dom_singleton_L, dom_empty_L. set_solver.
    + intros l' Hl'. apply lookup_singleton_ne. by intros ->.
    + apply map_singleton_subseteq_l, lookup_insert_eq.
Qed.

Lemma LwRtlRBTreeAdd_spec s t k d :
  rep nil ∅ s [] t -> tree_color t = Black ->
  exists s', LwRtlRBTreeAdd pfnCompare true s (Some k) d = Some (STATUS_SUCCESS, s') /\
    rep nil ∅ s' [] (add_tree (fresh (dom (rb_heap s))) k d t) /\ same_calls s s'.
Proof.
  intros H Hb. unfold LwRtlRBTreeAdd. cbn [negb]. set (l := fresh _). assert (Hl : l ∉ dom (rb_heap s)) by apply is_fresh. clearbody l.
  rewrite (rep_sentinel H). set (n := mk_node _ _ _ _ _ _). assert (H1 := rep_fresh s t l n H Hl). set (s1 := set_heap _ _) in *.
  destruct (insert_ok s1 k d l t n H1) as (s2 & -> & H2 & S2); [done..| |]. { assert (Hf := fuel_enough _ _ _ _ H1). assert (Hh := height_locs t). lia. }
  cbn [mbind option_bind]. destruct (recolor_ok Red H2) as (s3 & E3 & H3 & S3 & _); [done|]. cbn [root_of recolor] in *. rewrite color_red, E3. cbn [mbind option_bind].
  destruct (add_loop_ok ∅ _ s3 (ins_path k t []) (Node l Red Leaf k d Leaf) (fuel_of s3) ltac:(done) H3) as (s4 & E4 & H4 & S4); [done|by apply ins_path_top| |].
  { assert (Hf := fuel_enough _ _ _ _ H3). lia. }
  cbn [root_of] in E4. rewrite E4. cbn [mbind option_bind]. destruct (recolor_ok Black H4) as (s5 & E5 & H5 & S5 & _); [done|]. rewrite (rep_root H4). cbn [plug]. rewrite color_black, E5. cbn [mbind option_bind].
  exists s5. split; [done|]. split; [done|]. etrans; [|exact S5]. etrans; [|exact S4]. etrans; [|exact S3]. etrans; [|exact S2]. by split.
Qed.
End Insert.
