(* ===== verification/RbTreeOrder.v ===== *)
(** The order and the colors of red-black trees: what insertion does to the entries
    in order and to the rules on colors, as facts on trees with paths. *)

From stdpp Require Import gmap sorting.
From S2P Require Import Prelude SecurityTypes RbTree RbTreeRepr RbTreeAdd.

(** * Order *)

(** What the tree relies on from its comparison function. *)
Class CompareOrder {K : Type} (pfnCompare : K -> K -> Z) : Prop := {
  compare_flip : forall a b, 0 < pfnCompare a b <-> pfnCompare b a < 0;
  compare_trans : forall a b c, pfnCompare a b <= 0 -> pfnCompare b c <= 0 -> pfnCompare a c <= 0
}.

#[global] Instance Zsub_order : CompareOrder Z.sub.
Proof. split; lia. Qed.

Section Order.
Context {K D : Type} (pfnCompare : K -> K -> Z) `{!CompareOrder pfnCompare}.
Implicit Types (t : tree K D) (ctx : list (frame K D)) (es : list (K * option D)).

Definition entry_le (e1 e2 : K * option D) : Prop := pfnCompare e1.1 e2.1 <= 0.
Definition ordered es : Prop := StronglySorted entry_le es.

(** A new entry goes after those that are not greater. *)
Definition put (k : K) (d : option D) es : list (K * option D) :=
  filter (fun e => ~ pfnCompare k e.1 < 0) es ++ (k, d) :: filter (fun e => pfnCompare k e.1 < 0) es.

Lemma compare_lt_le a b c : pfnCompare a b < 0 -> pfnCompare b c <= 0 -> pfnCompare a c < 0.
Proof using Type*.
  intros H1 H2. destruct (Z.ltb_spec (pfnCompare a c) 0) as [|H]; [done|exfalso]. assert (Hca : pfnCompare c a <= 0).
  { destruct (Z.leb_spec (pfnCompare c a) 0) as [|Hc]; [done|]. apply compare_flip in Hc. lia. }
  assert (Hba := compare_trans _ _ _ H2 Hca). apply compare_flip in H1. lia.
Qed.

Lemma compare_le_ge a b c : pfnCompare a b <= 0 -> ~ pfnCompare c b < 0 -> ~ pfnCompare c a < 0.
Proof using Type*. intros H1 H2 H3. apply H2. by eapply compare_lt_le. Qed.

Lemma filter_true (P : K * option D -> Prop) `{!forall e, Decision (P e)} es : (forall e, e ∈ es -> P e) -> filter P es = es.
Proof. induction es as [|e es IH]; intros Hp; [done|]. rewrite filter_cons_True by (apply Hp; set_solver). rewrite IH; [done|set_solver]. Qed.

Lemma filter_false (P : K * option D -> Prop) `{!forall e, Decision (P e)} es : (forall e, e ∈ es -> ~ P e) -> filter P es = [].
Proof. induction es as [|e es IH]; intros Hp; [done|]. rewrite filter_cons_False by (apply Hp; set_solver). apply IH. set_solver. Qed.

Lemma put_left k d es k' d' es' : ordered (es ++ (k', d') :: es') -> pfnCompare k k' < 0 -> put k d (es ++ (k', d') :: es') = put k d es ++ (k', d') :: es'.
Proof using Type*.
  intros Ho Hk. unfold put. rewrite !filter_app. rewrite (filter_false _ ((k', d') :: es')), (filter_true (fun e => pfnCompare k e.1 < 0) ((k', d') :: es')).
  - rewrite app_nil_r, <- app_assoc. done.
  - intros e [->|He]%elem_of_cons; [done|]. apply StronglySorted_app_1_r, StronglySorted_inv in Ho as [_ Ho]. rewrite Forall_forall in Ho. eapply compare_lt_le; [exact Hk|]. by apply (Ho e).
  - intros e He Hn. apply Hn. apply elem_of_cons in He as [->|He]; [done|]. apply StronglySorted_app_1_r, StronglySorted_inv in Ho as [_ Ho]. rewrite Forall_forall in Ho.
    eapply compare_lt_le; [exact Hk|]. by apply (Ho e).
Qed.

Lemma put_right k d es k' d' es' : ordered (es ++ (k', d') :: es') -> ~ pfnCompare k k' < 0 -> put k d (es ++ (k', d') :: es') = es ++ (k', d') :: put k d es'.
Proof using Type*.
  intros Ho Hk. assert (Hall : forall e, e ∈ es -> ~ pfnCompare k e.1 < 0).
  { intros e He. eapply compare_le_ge; [|exact Hk]. apply (StronglySorted_app_1_elem_of _ _ _ e (k', d') Ho); set_solver. }
  unfold put. rewrite !filter_app. rewrite (filter_true _ es), (filter_false (fun e => pfnCompare k e.1 < 0) es) by (done || (intros ? ? ?; by eapply Hall)).
  rewrite filter_cons_True, filter_cons_False by done. cbn. by rewrite <- app_assoc.
Qed.

(** Insertion at the leaf the path leads to. *)
Fixpoint leaf_insert (k : K) (new : tree K D) t : tree K D :=
  match t with
  | Leaf => new
  | Node l c lt k' d rt => if pfnCompare k k' <? 0 then Node l c (leaf_insert k new lt) k' d rt else Node l c lt k' d (leaf_insert k new rt)
  end.

Lemma ins_path_insert k new t : forall ctx, plug (ins_path pfnCompare k t ctx) new = plug ctx (leaf_insert k new t).
Proof. induction t as [|l c lt IHl k' d rt IHr]; intros ctx; [done|]. cbn. case_match; [apply IHl|apply IHr]. Qed.

Lemma leaf_insert_put l k d t : ordered (inorder t) -> inorder (leaf_insert k (Node l Red Leaf k d Leaf) t) = put k d (inorder t).
Proof using Type*.
  induction t as [|l' c lt IHl k' d' rt IHr]; intros Ho; [done|]. cbn [leaf_insert inorder] in *. assert (Ho' := Ho). unfold ordered in Ho'. rewrite StronglySorted_app in Ho'. destruct Ho' as (_ & H1 & H2).
  apply StronglySorted_inv in H2 as [H2 _]. case_match eqn:E; cbn [inorder].
  - rewrite IHl by done. rewrite put_left; [done|done|lia].
  - rewrite IHr by done. rewrite put_right; [done|done|lia].
Qed.

Lemma inorder_plug ctx : forall t t', inorder t = inorder t' -> inorder (plug ctx t) = inorder (plug ctx t').
Proof. induction ctx as [|f ctx IH]; intros t t' H; [done|]. cbn. apply IH. unfold unframe. rewrite !inorder_sided. by rewrite H. Qed.

Lemma inorder_recolor c t : inorder (recolor c t) = inorder t.
Proof. by destruct t. Qed.

Lemma add_fix_inorder ctx : forall t, inorder (add_fix t ctx) = inorder (plug ctx t).
Proof.
  induction ctx as [ctx IH] using (induction_ltof1 _ (@length _)); unfold ltof in IH. intros t.
  destruct ctx as [|[sp lp cp kp dp bp] [|[sg lg cg kg dg u] ctx]]; [done..|]. cbn [add_fix f_color f_sib f_side f_loc f_key f_data].
  destruct (decide (cp = Red)); [|done]. destruct (decide (tree_color u = Red)); [|destruct (decide (sp = sg)) as [->|Hs]].
  - rewrite IH by (cbn; lia). cbn [plug]. apply inorder_plug. unfold unframe. cbn [f_color f_sib f_side f_loc f_key f_data]. by rewrite !inorder_sided, inorder_recolor.
  - cbn [plug]. apply inorder_plug. unfold unframe. cbn [f_color f_sib f_side f_loc f_key f_data]. rewrite !inorder_sided. destruct sg; cbn; by rewrite <- ?app_assoc.
  - destruct t as [|l c lt k d rt]; [done|]. assert (sp = negb sg) as -> by (by destruct sp, sg).
    cbn [plug]. destruct sg; apply inorder_plug; unfold unframe; cbn; by rewrite <- ?app_assoc, ?app_comm_cons, <- ?app_assoc.
Qed.

Lemma add_tree_inorder l k d t : ordered (inorder t) -> inorder (add_tree pfnCompare l k d t) = put k d (inorder t).
Proof using Type*. intros Ho. unfold add_tree. rewrite inorder_recolor, add_fix_inorder, ins_path_insert. cbn [plug]. by apply leaf_insert_put. Qed.

Lemma filter_ordered (P : K * option D -> Prop) `{!forall e, Decision (P e)} es : ordered es -> ordered (filter P es).
Proof.
  unfold ordered. induction 1 as [|e es Hs IH Hf]; [constructor|]. rewrite filter_cons. case_decide; [|done]. constructor; [done|].
  apply Forall_forall. intros e' [_ He']%list_elem_of_filter. rewrite Forall_forall in Hf. by apply Hf.
Qed.

Lemma put_ordered k d es : ordered es -> ordered (put k d es).
Proof using Type*.
  intros Ho. unfold put, ordered. apply StronglySorted_app. split; [|split; [by apply filter_ordered|constructor; [by apply filter_ordered|]]].
  - intros e1 e2 [H1 He1]%list_elem_of_filter He2. assert (Hle : pfnCompare e1.1 k <= 0).
    { destruct (Z.leb_spec (pfnCompare e1.1 k) 0) as [|Hc]; [done|]. by apply compare_flip in Hc. }
    apply elem_of_cons in He2 as [->|[H2 He2]%list_elem_of_filter]; [done|]. unfold entry_le. eapply compare_trans; [exact Hle|lia].
  - apply Forall_forall. intros e [H1 _]%list_elem_of_filter. unfold entry_le. cbn. lia.
Qed.
End Order.

(** * Colors *)

Section Colors.
Context {K D : Type}.
Implicit Types (t : tree K D) (ctx : list (frame K D)).

(** The children of a red node are black. *)
Fixpoint colored t : Prop :=
  match t with
  | Leaf => True
  | Node _ c lt _ _ rt => (c = Red -> tree_color lt = Black /\ tree_color rt = Black) /\ colored lt /\ colored rt
  end.

(** Every way down meets [n] black nodes. *)
Fixpoint balanced t (n : nat) : Prop :=
  match t with
  | Leaf => n = O
  | Node _ c lt _ _ rt => exists m, n = (match c with Red => m | Black => S m end) /\ balanced lt m /\ balanced rt m
  end.

(** The same of a path whose focus has color [c], and height [m]. *)
Fixpoint colored_path ctx (c : RBTreeNodeColor) : Prop :=
  match ctx with
  | [] => True
  | f :: ctx => (f_color f = Red -> c = Black /\ tree_color (f_sib f) = Black) /\ colored (f_sib f) /\ colored_path ctx (f_color f)
  end.

Fixpoint balanced_path ctx (m n : nat) : Prop :=
  match ctx with
  | [] => m = n
  | f :: ctx => balanced (f_sib f) m /\ balanced_path ctx (match f_color f with Red => m | Black => S m end) n
  end.

(** A red-black tree: the root is black too. *)
Definition red_black t : Prop := tree_color t = Black /\ colored t /\ exists n, balanced t n.

Lemma colored_sided side l c a k (d : option D) b :
  colored (sided side l c a k d b) <-> (c = Red -> tree_color a = Black /\ tree_color b = Black) /\ colored a /\ colored b.
Proof. destruct side; cbn; naive_solver. Qed.

Lemma balanced_sided side l c a (k : K) (d : option D) b n :
  balanced (sided side l c a k d b) n <-> exists m, n = (match c with Red => m | Black => S m end) /\ balanced a m /\ balanced b m.
Proof. destruct side; cbn; naive_solver. Qed.

Lemma colored_plug ctx : forall t, colored (plug ctx t) <-> colored t /\ colored_path ctx (tree_color t).
Proof.
  induction ctx as [|f ctx IH]; intros t; cbn; [tauto|]. rewrite IH. unfold unframe. rewrite colored_sided, tree_color_sided. naive_solver.
Qed.

Lemma balanced_plug ctx : forall t n, balanced (plug ctx t) n <-> exists m, balanced t m /\ balanced_path ctx m n.
Proof.
  induction ctx as [|f ctx IH]; intros t n; cbn; [naive_solver|]. rewrite IH. unfold unframe. setoid_rewrite balanced_sided. naive_solver.
Qed.

Lemma colored_path_black ctx c : colored_path ctx c -> colored_path ctx Black.
Proof. destruct ctx; cbn; naive_solver. Qed.

Lemma colored_path_safe ctx c : colored_path ctx Black -> (forall f ctx', ctx = f :: ctx' -> f_color f = Red -> c = Black) -> colored_path ctx c.
Proof. destruct ctx as [|f ctx]; cbn; [done|]. intros (H1 & H2 & H3) H. split; [|done]. intros Hc. split; [by eapply H|]. by apply H1. Qed.

Lemma colored_black t : colored t -> colored (recolor Black t).
Proof. destruct t; cbn; naive_solver. Qed.

Lemma balanced_black t n : balanced t n -> exists n', balanced (recolor Black t) n'.
Proof. destruct t as [|l c lt k d rt]; cbn; [by eexists|]. intros (m & _ & H1 & H2). by exists (S m), m. Qed.

Lemma tree_color_black t : tree_color (recolor Black t) = Black.
Proof. by destruct t. Qed.

(** Insertion keeps a tree red and black. *)
Lemma add_fix_colored ctx : forall t, colored t -> tree_color t = Red -> colored_path ctx Black -> top_black ctx -> colored (add_fix t ctx).
Proof.
  induction ctx as [ctx IH] using (induction_ltof1 _ (@length _)); unfold ltof in IH. intros t Ht Hl Hp Hb.
  destruct ctx as [|[sp lp cp kp dp bp] ctx]; [done|]. destruct (decide (cp = Red)) as [->|Hc].
  2: { replace (add_fix t _) with (plug (mk_frame sp lp cp kp dp bp :: ctx) t) by (destruct ctx; [done|]; cbn; by rewrite decide_False).
       apply colored_plug. split; [done|]. apply colored_path_safe; [done|]. by intros f ctx' [= <- <-]. }
  destruct ctx as [|[sg lg cg kg dg u] ctx]; [done|]. cbn in Hp. destruct Hp as (Hbp & Hcbp & Hg & Hu & Hctx).
  assert (cg = Black) as -> by (destruct cg; naive_solver). cbn [add_fix f_color f_sib f_side f_loc f_key f_data]. rewrite decide_True by done.
  destruct (decide (tree_color u = Red)) as [Hur|Hur]; [|destruct (decide (sp = sg)) as [->|Hs]].
  - apply IH; [cbn; lia| |by rewrite tree_color_sided| |by apply top_black_tail, top_black_tail in Hb].
    + rewrite !colored_sided, tree_color_sided, tree_color_black. split; [done|]. split; [|by apply colored_black]. naive_solver.
    + by eapply colored_path_black.
  - apply colored_plug. rewrite !colored_sided, !tree_color_sided. destruct (tree_color u); naive_solver.
  - destruct t as [|l c lt k d rt]; [done|]. cbn in Ht, Hl. subst c. destruct Ht as (Hk & Hlt & Hrt), (Hk eq_refl), (Hbp eq_refl). destruct (tree_color u) eqn:Eu; [done|].
    destruct sg; apply colored_plug; rewrite !colored_sided, tree_color_sided; (split; [|done]); (split; [done|]); done.
Qed.

Lemma balanced_recolor_red t m : tree_color t = Red -> balanced t m -> balanced (recolor Black t) (S m).
Proof. destruct t as [|l c lt k d rt]; cbn; [done|]. intros -> (m' & -> & H1 & H2). by exists m'. Qed.

Lemma add_fix_balanced ctx : forall t m n, balanced t m -> tree_color t = Red -> balanced_path ctx m n -> colored_path ctx Black -> balanced (add_fix t ctx) n.
Proof.
  induction ctx as [ctx IH] using (induction_ltof1 _ (@length _)); unfold ltof in IH. intros t m n Ht Hl Hb Hp.
  destruct ctx as [|[sp lp cp kp dp bp] [|[sg lg cg kg dg u] ctx]]; [by cbn in *; subst|cbn [add_fix]; apply balanced_plug; by eexists|].
  cbn [add_fix f_color f_sib f_side f_loc f_key f_data]. destruct (decide (cp = Red)) as [->|Hc]; [|apply balanced_plug; by eexists].
  cbn in Hp, Hb. destruct Hp as (_ & _ & Hg & _ & Hctx), Hb as (Hbp & Hu & Hb).
  assert (cg = Black) as -> by (destruct cg; naive_solver).
  destruct (decide (tree_color u = Red)) as [Hur|Hur]; [|destruct (decide (sp = sg)) as [->|Hs]].
  - apply (IH ctx) with (m := S m); [cbn; lia| |by rewrite tree_color_sided|done|by eapply colored_path_black].
    rewrite balanced_sided. exists (S m). rewrite balanced_sided. split; [done|]. split; [by exists m|by apply balanced_recolor_red].
  - apply balanced_plug. exists (S m). rewrite balanced_sided. split; [|done]. exists m. rewrite balanced_sided. split; [done|]. split; [done|]. by exists m.
  - destruct t as [|l c lt k d rt]; [done|]. cbn in Ht, Hl. subst c. destruct Ht as (m' & <- & Hlt & Hrt).
    destruct sg; apply balanced_plug; exists (S m); rewrite balanced_sided; (split; [|done]); exists m; rewrite !balanced_sided; (split; [done|]); split; by exists m.
Qed.

(** A red-black tree is at most twice as deep as the logarithm of its size. *)
Lemma balanced_height t n : colored t -> balanced t n -> (height t <= 2 * n + match tree_color t with Red => 1 | Black => 0 end)%nat.
Proof.
  revert n. induction t as [|l c lt IHl k d rt IHr]; intros n; cbn; [lia|]. intros (Hc & H1 & H2) (m & -> & B1 & B2).
  specialize (IHl _ H1 B1). specialize (IHr _ H2 B2). destruct c; [destruct (Hc eq_refl) as [E1 E2]; rewrite E1 in IHl; rewrite E2 in IHr|destruct (tree_color lt), (tree_color rt)]; lia.
Qed.

Lemma balanced_size t n : balanced t n -> (2 ^ n <= S (length (locs t)))%nat.
Proof.
  revert n. induction t as [|l c lt IHl k d rt IHr]; intros n; cbn [balanced locs length]; [by intros ->|]. intros (m & -> & B1 & B2).
  specialize (IHl _ B1). specialize (IHr _ B2). rewrite length_app. destruct c; [|rewrite Nat.pow_succ_r']; lia.
Qed.

Lemma red_black_height t : red_black t -> (2 ^ (Nat.div2 (S (height t))) <= S (length (locs t)))%nat.
Proof.
  intros (Hb & Hc & n & Hn). apply balanced_height with (n := n) in Hc; [|done]. rewrite Hb in Hc. etrans; [|by apply balanced_size].
  apply Nat.pow_le_mono_r; [done|]. rewrite Nat.div2_div. apply Nat.lt_succ_r, Nat.Div0.div_lt_upper_bound. lia.
Qed.

Context (pfnCompare : K -> K -> Z).

Lemma add_tree_colored l k d t : tree_color t = Black -> colored t -> colored (add_tree pfnCompare l k d t).
Proof.
  intros Hb Hc. unfold add_tree. apply colored_black, add_fix_colored; [done|done| |by apply ins_path_top].
  replace t with (plug [] t) in Hc by done. rewrite <- (ins_path_plug pfnCompare k) in Hc. apply colored_plug in Hc as [_ Hc]. done.
Qed.

Lemma add_tree_red_black l k d t : red_black t -> red_black (add_tree pfnCompare l k d t).
Proof.
  intros (Hb & Hc & n & Hn). split; [by apply tree_color_black|]. split; [by apply add_tree_colored|]. unfold add_tree.
  change (colored (plug [] t)) in Hc. change (balanced (plug [] t) n) in Hn. rewrite <- (ins_path_plug pfnCompare k) in Hc, Hn.
  apply colored_plug in Hc as [_ Hc]. apply balanced_plug in Hn as (m & Hm & Hn). cbn in Hm. subst m.
  eapply balanced_black, add_fix_balanced; [|done|done|done]. by exists O.
Qed.
End Colors.
