(* ===== verification/RbTreeFix.v ===== *)
(** The repair of the colors after a removal: [LwRtlRBTreeFixColors] is a function on
    trees with paths. It keeps the entries, their order and the rules on colors. *)

From stdpp Require Import gmap sorting.
From S2P Require Import Prelude SecurityTypes RbTree RbTreeRepr RbTreeAdd RbTreeOrder.

(** * On trees *)

Section Fix.
Context {K D : Type}.
Abbreviation path := (list (frame K D)).
Implicit Types (t w : tree K D) (ctx : path).

(** The children of a node, the one on a side first. *)
Definition near_far (side : bool) (lt rt : tree K D) : tree K D * tree K D := if side then (lt, rt) else (rt, lt).

(** The sibling can be made red: it is a node with black children. *)
Definition can_redden w : bool :=
  match w with
  | Leaf => false
  | Node _ _ lt _ _ rt => bool_decide (tree_color lt = Black) && bool_decide (tree_color rt = Black)
  end.

(** Otherwise the sibling, or its near child, goes up in place of the parent. The
    color of the parent should go with it and does not. *)
Definition lift_sibling (side : bool) (l : loc) t (k : K) (d : option D) w : tree K D :=
  match w with
  | Leaf => sided side l Black t k d Leaf
  | Node wl wc wlt wk wd wrt =>
      let '(near, far) := near_far side wlt wrt in
      if decide (tree_color far = Black) then
        match near with
        | Leaf => sided side l Black t k d w
        | Node nl _ nlt nk nd nrt =>
            let '(nn, nf) := near_far side nlt nrt in
            sided side nl Black (sided side l Black t k d nn) nk nd (sided side wl Black nf wk wd far)
        end
      else sided side wl wc (sided side l Black t k d near) wk wd (recolor Black far)
  end.

(** The tree when the ways down through the focus are a black node short. *)
Fixpoint fix_up t ctx : tree K D :=
  match ctx with
  | [] => recolor Black t
  | f :: ctx' =>
      if decide (tree_color t = Red) then plug ctx (recolor Black t)
      else
        match f_sib f with
        | Node wl Red wlt wk wd wrt =>
            let '(near, far) := near_far (f_side f) wlt wrt in
            let ctx2 := mk_frame (f_side f) wl Black wk wd far :: ctx' in
            if can_redden near then plug ctx2 (sided (f_side f) (f_loc f) Black t (f_key f) (f_data f) (recolor Red near))
            else recolor Black (plug ctx2 (lift_sibling (f_side f) (f_loc f) t (f_key f) (f_data f) near))
        | w =>
            if can_redden w then fix_up (sided (f_side f) (f_loc f) (f_color f) t (f_key f) (f_data f) (recolor Red w)) ctx'
            else recolor Black (plug ctx' (lift_sibling (f_side f) (f_loc f) t (f_key f) (f_data f) w))
        end
  end.

(** * The entries and the colors *)

Lemma inorder_near_far side l c lt k d rt : Node l c lt k d rt = sided side l c (near_far side lt rt).1 k d (near_far side lt rt).2.
Proof. by destruct side. Qed.

Lemma lift_sibling_inorder side l c t k d w : inorder (lift_sibling side l t k d w) = inorder (sided side l c t k d w).
Proof.
  destruct w as [|wl wc wlt wk wd wrt]; cbn [lift_sibling]; [by rewrite !inorder_sided|]. rewrite (inorder_near_far side wl). destruct (near_far side wlt wrt) as [near far]. cbn [fst snd].
  case_decide; [|rewrite !inorder_sided, inorder_recolor; destruct side; cbn; by rewrite <- ?app_assoc].
  destruct near as [|nl nc nlt nk nd nrt]; [by rewrite !inorder_sided|]. rewrite (inorder_near_far side nl). destruct (near_far side nlt nrt) as [nn nf]. cbn [fst snd].
  rewrite !inorder_sided. destruct side; cbn; by rewrite <- ?app_assoc, ?app_comm_cons, <- ?app_assoc.
Qed.

Lemma fix_up_inorder ctx : forall t, inorder (fix_up t ctx) = inorder (plug ctx t).
Proof.
  induction ctx as [|[side l c k d w] ctx IH]; intros t; [apply inorder_recolor|]. cbn [fix_up f_color f_sib f_side f_loc f_key f_data].
  destruct (decide (tree_color t = Red)); [cbn [plug]; apply inorder_plug; unfold unframe; by rewrite !inorder_sided, inorder_recolor|].
  assert (Hrest : forall w0, w = w0 -> inorder (if can_redden w0 then fix_up (sided side l c t k d (recolor Red w0)) ctx else recolor Black (plug ctx (lift_sibling side l t k d w0))) =
    inorder (plug (mk_frame side l c k d w :: ctx) t)).
  { intros w0 <-. cbn [plug]. destruct (can_redden w).
    - rewrite IH. apply inorder_plug. unfold unframe. cbn. by rewrite !inorder_sided, inorder_recolor.
    - rewrite inorder_recolor. apply inorder_plug. unfold unframe. cbn. apply lift_sibling_inorder. }
  destruct w as [|wl [] wlt wk wd wrt]; [by apply Hrest| |by apply Hrest]. clear Hrest.
  cbn [plug]. rewrite (inorder_near_far side wl). destruct (near_far side wlt wrt) as [near far]. cbn [fst snd].
  destruct (can_redden near); [|rewrite inorder_recolor]; apply inorder_plug; unfold unframe; cbn [f_color f_sib f_side f_loc f_key f_data].
  - rewrite !inorder_sided, inorder_recolor. destruct side; by rewrite <- ?app_assoc.
  - rewrite !inorder_sided, (lift_sibling_inorder side l c), inorder_sided. destruct side; by rewrite <- ?app_assoc.
Qed.

Lemma plug_top f ctx : forall t, top_black (f :: ctx) -> tree_color (plug (f :: ctx) t) = Black.
Proof.
  revert f. induction ctx as [|f' ctx IH]; intros f t Hb; cbn [plug]; [unfold unframe; by rewrite tree_color_sided|]. by apply IH.
Qed.

Lemma recolor_black_id t : tree_color t <> Red -> recolor Black t = t.
Proof. by destruct t as [|l [] lt k d rt]. Qed.

Lemma not_red c : c <> Red -> c = Black.
Proof. by destruct c. Qed.

Lemma can_redden_sided side l c near k d far : can_redden (sided side l c near k d far) = true <-> tree_color near = Black /\ tree_color far = Black.
Proof. destruct side; cbn; rewrite andb_true_iff, !bool_decide_eq_true; tauto. Qed.

Lemma can_redden_colored w : can_redden w = true -> colored w -> colored (recolor Red w).
Proof. destruct w as [|l c lt k d rt]; cbn; [done|]. rewrite andb_true_iff, !bool_decide_eq_true. naive_solver. Qed.

Lemma lift_sibling_colored side l t k d w :
  colored t -> colored w -> tree_color w = Black -> can_redden w = false ->
  colored (lift_sibling side l t k d w) /\ tree_color (lift_sibling side l t k d w) = Black.
Proof.
  intros Ht Hw Hb Hr. destruct w as [|wl wc wlt wk wd wrt]; cbn [lift_sibling]; [rewrite colored_sided, tree_color_sided; done|].
  cbn in Hb. subst wc. rewrite (inorder_near_far side wl) in Hw, Hr. destruct (near_far side wlt wrt) as [near far]. cbn [fst snd] in *.
  rewrite colored_sided in Hw. destruct Hw as (_ & Hnear & Hfar). case_decide as Hfb.
  - destruct near as [|nl nc nlt nk nd nrt]; [rewrite (proj2 (can_redden_sided _ _ _ _ _ _ _)) in Hr by done; done|].
    rewrite (inorder_near_far side nl) in Hnear. destruct (near_far side nlt nrt) as [nn nf]. cbn [fst snd] in *. rewrite colored_sided in Hnear.
    rewrite !colored_sided, !tree_color_sided. naive_solver.
  - rewrite !colored_sided, !tree_color_sided. split; [|done]. split; [done|]. split; [done|by apply colored_black].
Qed.

Lemma fix_up_colored ctx : forall t,
  colored (recolor Black t) -> colored_path ctx Black -> top_black ctx -> colored (fix_up t ctx) /\ tree_color (fix_up t ctx) = Black.
Proof.
  induction ctx as [|[side l c k d w] ctx IH]; intros t Ht Hp Hb; [split; [done|apply tree_color_black]|].
  cbn [fix_up f_color f_sib f_side f_loc f_key f_data]. destruct (decide (tree_color t = Red)) as [Hr|Hr].
  { split; [|by apply plug_top]. apply colored_plug. rewrite tree_color_black. done. }
  rewrite (recolor_black_id t Hr) in Ht. apply not_red in Hr. cbn in Hp. destruct Hp as (Hc & Hw & Hp). assert (Hp' := colored_path_black _ _ Hp). assert (Hb' := top_black_tail _ _ Hb).
  assert (Hrest : forall w0, w = w0 -> tree_color w0 = Black ->
    let r := if can_redden w0 then fix_up (sided side l c t k d (recolor Red w0)) ctx else recolor Black (plug ctx (lift_sibling side l t k d w0)) in
    colored r /\ tree_color r = Black).
  { intros w0 <- Hwb. cbn. destruct (can_redden w) eqn:Hcr.
    - apply IH; [|done|done]. rewrite recolor_sided, colored_sided. split; [done|]. split; [done|by apply can_redden_colored].
    - destruct (lift_sibling_colored side l t k d w Ht Hw Hwb Hcr) as [H1 H2]. split; [|apply tree_color_black]. apply colored_black, colored_plug. rewrite H2. done. }
  destruct w as [|wl [] wlt wk wd wrt]; [by apply Hrest| |by apply Hrest]. clear Hrest.
  rewrite (inorder_near_far side wl) in Hw. destruct (near_far side wlt wrt) as [near far]. cbn [fst snd] in *. rewrite colored_sided in Hw. destruct Hw as (Hk & Hnear & Hfar). destruct (Hk eq_refl) as [Kn Kf].
  assert (Hc2 : colored_path (mk_frame side wl Black wk wd far :: ctx) Black) by done.
  destruct (can_redden near) eqn:Hcr.
  - split; [|apply plug_top; by destruct ctx]. apply colored_plug. rewrite tree_color_sided, colored_sided. split; [|done]. split; [done|]. split; [done|by apply can_redden_colored].
  - destruct (lift_sibling_colored side l t k d near Ht Hnear Kn Hcr) as [H1 H2]. split; [|apply tree_color_black]. apply colored_black, colored_plug. rewrite H2. done.
Qed.
End Fix.

(** * On the heap *)

Section FixHeap.
Context {K D : Type} (nil : loc).
Implicit Types (t w : tree K D) (ctx : list (frame K D)) (g : gmap loc (LWRTL_RB_TREE_NODE K D)) (s : LWRTL_RB_TREE K D).

(** A turn once the sibling is black or a leaf. *)
Definition fix_tail (left : bool) s (parent pUncle : nptr) : option (LWRTL_RB_TREE K D * nptr) :=
  both_black ←
    (if RB_IS_NIL s pUncle then Some false
     else u ← ldn s pUncle; b1 ← RB_IS_BLACK s (pLeft u); b2 ← RB_IS_BLACK s (pRight u); Some (b1 && b2));
  if (both_black : bool) then s ← RB_COLOR_RED s pUncle; Some (s, parent)
  else
    '(s, pUncle) ←
      (if RB_IS_NIL s pUncle then Some (s, pUncle)
       else
         u ← ldn s pUncle;
         black ← RB_IS_BLACK s (child (negb left) u);
         if (black : bool) then
           s ← RB_COLOR_BLACK s (child left u);
           s ← RB_COLOR_RED s pUncle;
           s ← rotate (negb left) s pUncle;
           p ← ldn s parent;
           Some (s, child (negb left) p)
         else Some (s, pUncle));
    s ← (if RB_IS_NIL s pUncle then Some s else RB_COPY_COLOR s pUncle parent);
    s ← RB_COLOR_BLACK s parent;
    s ← (if RB_IS_NIL s pUncle then Some s
         else u ← ldn s pUncle; s ← RB_COLOR_BLACK s (child (negb left) u); rotate left s parent);
    Some (s, pRoot s).

Lemma fix_turn_unfold left s x parent :
  fix_turn left s x parent =
    (p ← ldn s parent;
     let pUncle := child (negb left) p in
     '(s, pUncle) ←
       (if RB_IS_NIL s pUncle then Some (s, pUncle)
        else
          red ← RB_IS_RED s pUncle;
          if (red : bool) then
            s ← RB_COLOR_BLACK s pUncle; s ← RB_COLOR_RED s parent; s ← rotate left s parent; p ← ldn s parent; Some (s, child (negb left) p)
          else Some (s, pUncle));
     fix_tail left s parent pUncle).
Proof. done. Qed.

(** The color the copy leaves is the color there was. *)
Lemma copy_color_ok g s ctx t y : rep nil g s ctx t -> t <> Leaf -> RB_COPY_COLOR s (Some (root_of nil t)) y = Some s.
Proof.
  intros H Ht. destruct t as [|l c lt k d rt]; [done|]. destruct (rep_tree _ _ _ _ _ H) as (Hl & _). unfold RB_COPY_COLOR. cbn [root_of]. erewrite stn_eq by exact Hl.
  unfold with_color. cbn. rewrite insert_id by done. by destruct s.
Qed.

Lemma both_black_ok g s ctx w :
  rep nil g s ctx w ->
  (if RB_IS_NIL s (Some (root_of nil w)) then Some false
   else u ← ldn s (Some (root_of nil w)); b1 ← RB_IS_BLACK s (pLeft u); b2 ← RB_IS_BLACK s (pRight u); Some (b1 && b2)) = Some (can_redden w).
Proof.
  intros H. rewrite (rep_is_nil H). destruct w as [|l c lt k d rt]; [done|]. assert (Hl := rep_open (side := true) H). assert (Hr := rep_open (side := false) (t := rt) (b := lt) H).
  cbn [root_of]. rewrite (rep_ldn (side := true) (a := lt) (b := rt) H). cbn [mbind option_bind pLeft pRight cell]. rewrite (rep_is_black Hl). cbn [mbind option_bind]. rewrite (rep_is_black Hr). done.
Qed.

Lemma fix_tail_redden g s ctx side l c t k d w :
  rep nil g s (mk_frame side l c k d w :: ctx) t -> can_redden w = true ->
  exists s', fix_tail side s (Some l) (Some (root_of nil w)) = Some (s', Some l) /\ rep nil g s' ctx (sided side l c t k d (recolor Red w)) /\ same_calls s s'.
Proof.
  intros H Hr. assert (Hw := rep_swap H). unfold fix_tail. rewrite (both_black_ok _ _ _ _ Hw), Hr. cbn [mbind option_bind].
  destruct (recolor_ok Red Hw) as (s1 & E1 & H1 & S1 & _); [by intros ->|]. rewrite color_red, E1. cbn [mbind option_bind]. exists s1. split; [done|]. split; [|done].
  apply rep_swap in H1. rewrite negb_involutive in H1. by apply rep_close.
Qed.

(** The end of a turn: the sibling goes up, its far child black. *)
Lemma fix_tail_rotate g s ctx side l c t k d wl wc near wk wd far :
  rep nil g s (mk_frame side l c k d (sided side wl wc near wk wd far) :: ctx) t ->
  exists s', (s ← (if RB_IS_NIL s (Some wl) then Some s else RB_COPY_COLOR s (Some wl) (Some l)); s ← RB_COLOR_BLACK s (Some l);
     s ← (if RB_IS_NIL s (Some wl) then Some s else u ← ldn s (Some wl); s ← RB_COLOR_BLACK s (child (negb side) u); rotate side s (Some l)); Some (s, pRoot s)) = Some (s', pRoot s') /\
    rep nil g s' ctx (sided side wl wc (sided side l Black t k d near) wk wd (recolor Black far)) /\ same_calls s s'.
Proof.
  intros H. assert (Hw := rep_swap H). rewrite (rep_node_not_nil Hw). assert (Hcp := copy_color_ok _ _ _ _ (Some l) Hw ltac:(by apply sided_node)).
  rewrite root_of_sided in Hcp. rewrite Hcp. cbn [mbind option_bind]. destruct (recolor_up_ok Black H) as (s1 & E1 & H1 & S1 & _). rewrite color_black, E1. cbn [mbind option_bind].
  assert (Hw1 := rep_swap H1). rewrite (rep_node_not_nil Hw1), (rep_ldn Hw1). cbn [mbind option_bind]. rewrite child_far_cell.
  assert (Hf := rep_swap (rep_open Hw1)). destruct (recolor_ok Black Hf) as (s2 & E2 & H2 & S2 & _); [done|]. rewrite color_black, E2. cbn [mbind option_bind].
  apply rep_swap in H2. rewrite negb_involutive in H2. apply rep_close, rep_swap in H2. rewrite negb_involutive in H2. apply rep_close in H2.
  destruct (rotate_ok H2) as (s3 & E3 & H3 & S3 & _). rewrite E3. cbn [mbind option_bind]. exists s3. split; [done|]. split; [done|]. by do 2 (etrans; [eassumption|]).
Qed.

(** With a black far child the near one, which is red, takes the place of the
    sibling first. *)
Lemma fix_tail_near g s ctx side l c t k d wl wc nl nc nn nk nd nf wk wd far :
  rep nil g s (mk_frame side l c k d (sided side wl wc (sided side nl nc nn nk nd nf) wk wd far) :: ctx) t ->
  exists s', (s ← RB_COLOR_BLACK s (Some nl); s ← RB_COLOR_RED s (Some wl); s ← rotate (negb side) s (Some wl); p ← ldn s (Some l); Some (s, child (negb side) p)) = Some (s', Some nl) /\
    rep nil g s' (mk_frame side l c k d (sided side nl Black nn nk nd (sided side wl Red nf wk wd far)) :: ctx) t /\ same_calls s s'.
Proof.
  intros H. assert (Hn := rep_open (rep_swap H)). destruct (recolor_ok Black Hn) as (s1 & E1 & H1 & S1 & _); [done|]. rewrite root_of_sided in E1. rewrite color_black, E1. cbn [mbind option_bind].
  destruct (recolor_up_ok Red H1) as (s2 & E2 & H2 & S2 & _). rewrite color_red, E2. cbn [mbind option_bind]. rewrite recolor_sided in H2. apply rep_close in H2. rewrite sided_flip in H2.
  rewrite (sided_flip side nl) in H2. destruct (rotate_ok H2) as (s3 & E3 & H3 & S3 & _). rewrite E3. cbn [mbind option_bind].
  rewrite sided_flip, (sided_flip _ wl), !negb_involutive in H3. apply rep_swap in H3. rewrite negb_involutive in H3.
  rewrite (rep_ldn (rep_close H3)). cbn [mbind option_bind]. rewrite child_far_cell, root_of_sided. exists s3. split; [done|]. split; [done|]. by do 2 (etrans; [eassumption|]).
Qed.

Lemma fix_tail_lift g s ctx side l c t k d w :
  rep nil g s (mk_frame side l c k d w :: ctx) t -> can_redden w = false ->
  exists s', fix_tail side s (Some l) (Some (root_of nil w)) = Some (s', pRoot s') /\ rep nil g s' ctx (lift_sibling side l t k d w) /\ same_calls s s'.
Proof.
  intros H Hr. assert (Hw := rep_swap H). unfold fix_tail. rewrite (both_black_ok _ _ _ _ Hw), Hr. cbn [mbind option_bind]. rewrite (rep_is_nil Hw).
  destruct w as [|wl wc wlt wk wd wrt].
  - cbn [mbind option_bind]. rewrite (rep_is_nil Hw). cbn [mbind option_bind]. destruct (recolor_up_ok Black H) as (s1 & E1 & H1 & S1 & _). rewrite color_black, E1. cbn [mbind option_bind].
    rewrite (rep_is_nil (rep_swap H1)). cbn [mbind option_bind lift_sibling]. exists s1. split; [done|]. split; [by apply rep_close|done].
  - cbn [lift_sibling root_of]. rewrite (inorder_near_far side wl) in H, Hw, Hr. destruct (near_far side wlt wrt) as [near far]. cbn [fst snd] in *.
    rewrite (rep_ldn Hw). cbn [mbind option_bind]. rewrite child_far_cell, child_near_cell. assert (Hf := rep_swap (rep_open Hw)). rewrite (rep_is_black Hf). cbn [mbind option_bind].
    case_decide as Hfb; [rewrite bool_decide_true by done|rewrite bool_decide_false by done; by apply (fix_tail_rotate _ _ _ _ _ c)].
    destruct near as [|nl nc nlt nk nd nrt]; [by rewrite (proj2 (can_redden_sided _ _ _ _ _ _ _)) in Hr|]. cbn [root_of].
    rewrite (inorder_near_far side nl) in H. destruct (near_far side nlt nrt) as [nn nf]. cbn [fst snd] in *.
    destruct (fix_tail_near _ _ _ _ _ _ _ _ _ _ _ _ _ _ _ _ _ _ _ _ H) as (s1 & E1 & H1 & S1). rewrite E1. cbn [mbind option_bind].
    destruct (fix_tail_rotate _ _ _ _ _ _ _ _ _ _ _ _ _ _ _ H1) as (s2 & E2 & H2 & S2). rewrite E2. exists s2. rewrite recolor_sided in H2. split; [done|]. split; [done|by etrans].
Qed.

(** A red sibling goes up and the parent, red now, comes down with a black one. *)
Lemma fix_turn_red g s ctx side l c t k d wl near wk wd far x :
  rep nil g s (mk_frame side l c k d (sided side wl Red near wk wd far) :: ctx) t ->
  exists s', fix_turn side s x (Some l) = fix_tail side s' (Some l) (Some (root_of nil near)) /\
    rep nil g s' (mk_frame side l Red k d near :: mk_frame side wl Black wk wd far :: ctx) t /\ same_calls s s'.
Proof.
  intros H. assert (Hw := rep_swap H). rewrite fix_turn_unfold, (rep_ldn (rep_close H)). cbn [mbind option_bind]. rewrite child_far_cell, root_of_sided, (rep_node_not_nil Hw).
  assert (Hr := rep_is_red Hw). rewrite root_of_sided, tree_color_sided in Hr. rewrite Hr. cbn [mbind option_bind]. rewrite bool_decide_true by done.
  destruct (recolor_ok Black Hw) as (s1 & E1 & H1 & S1 & _); [done|]. rewrite root_of_sided in E1. rewrite color_black, E1. cbn [mbind option_bind].
  destruct (recolor_up_ok Red H1) as (s2 & E2 & H2 & S2 & _). rewrite color_red, E2. cbn [mbind option_bind]. rewrite recolor_sided in H2.
  apply rep_swap in H2. rewrite negb_involutive in H2. destruct (rotate_ok (rep_close H2)) as (s3 & E3 & H3 & S3 & _). rewrite E3. cbn [mbind option_bind].
  apply rep_open in H3. rewrite (rep_ldn H3). cbn [mbind option_bind]. rewrite child_far_cell. exists s3. split; [done|]. split; [by apply rep_open|]. by do 2 (etrans; [eassumption|]).
Qed.

Lemma fix_turn_black g s ctx side l c t k d w x :
  rep nil g s (mk_frame side l c k d w :: ctx) t -> tree_color w = Black -> fix_turn side s x (Some l) = fix_tail side s (Some l) (Some (root_of nil w)).
Proof.
  intros H Hb. assert (Hw := rep_swap H). rewrite fix_turn_unfold, (rep_ldn (rep_close H)). cbn [mbind option_bind]. rewrite child_far_cell, (rep_is_nil Hw).
  destruct w as [|wl wc wlt wk wd wrt]; [done|]. rewrite (rep_is_red Hw). cbn [mbind option_bind]. by rewrite bool_decide_false by (by rewrite Hb).
Qed.

(** Which child the code takes the focus for: with two sentinels below one node it
    cannot tell, and it does not matter. *)
Lemma which_child g s ctx side l c t k d w :
  rep nil g s (mk_frame side l c k d w :: ctx) t ->
  exists side', bool_decide (Some (root_of nil t) = pLeft (cell side c (root_of nil t) (root_of nil w) (parent_of nil ctx) k d)) = side' /\
    (side' = side \/ t = Leaf /\ w = Leaf).
Proof.
  intros H%rep_close. eexists. split; [done|]. destruct side; cbn; [left; by apply bool_decide_true|]. destruct (decide (root_of nil t = root_of nil w)) as [E|E].
  - right. by apply (rep_apart H).
  - left. apply bool_decide_false. congruence.
Qed.

Lemma fix_up_leaves side side' l c k (d : option D) ctx :
  fix_up Leaf (mk_frame side l c k d Leaf :: ctx) = fix_up Leaf (mk_frame side' l c k d (Leaf : tree K D) :: ctx).
Proof. by destruct side, side'. Qed.

Lemma sided_leaves side side' l c (k : K) (d : option D) : sided side l c Leaf k d Leaf = sided side' l c Leaf k d Leaf.
Proof. by destruct side, side'. Qed.

Definition run_fix (n : nat) s (x : nptr) : option (LWRTL_RB_TREE K D) := '(s, x) ← fix_loop n s x; RB_COLOR_BLACK s x.

Lemma run_fix_exit g s ctx t n :
  rep nil g s ctx t -> ctx = [] \/ tree_color t = Red ->
  exists s', run_fix (S n) s (Some (root_of nil t)) = Some s' /\ rep nil g s' [] (plug ctx (recolor Black t)) /\ same_calls s s'.
Proof.
  intros H Hx. unfold run_fix. cbn [fix_loop]. assert (E : bool_decide (pRoot s = Some (root_of nil t)) = match ctx with [] => true | _ => false end).
  { rewrite <- (rep_at_root H). apply bool_decide_ext. naive_solver. }
  rewrite E. destruct (recolor_ok Black H) as (s1 & E1 & H1 & S1 & _); [done|]. exists s1. split; [|split; [by apply rep_plug in H1|done]].
  destruct ctx; [done|]. destruct Hx as [|Hx]; [done|]. rewrite (rep_is_black H). cbn [mbind option_bind]. rewrite bool_decide_false by (by rewrite Hx). done.
Qed.

(** The loop at a black focus that is not the root. *)
Lemma run_fix_turn g s f ctx t n :
  rep nil g s (f :: ctx) t -> anchored nil s (f :: ctx) t -> tree_color t = Black ->
  run_fix (S n) s (Some (root_of nil t)) =
    (p ← ldn s (Some (f_loc f));
     '(s, x) ← fix_turn (bool_decide (Some (root_of nil t) = pLeft p)) s (Some (root_of nil t)) (Some (f_loc f)); run_fix n s x).
Proof.
  intros H Ha Hb. unfold run_fix. cbn [fix_loop]. assert (E : bool_decide (pRoot s = Some (root_of nil t)) = false).
  { rewrite <- (rep_at_root H). apply bool_decide_ext. naive_solver. }
  rewrite E, (rep_is_black H). cbn [mbind option_bind]. rewrite bool_decide_true by done. cbn [negb]. rewrite (rep_parent H Ha). cbn [mbind option_bind parent_of].
  destruct f as [side l c k d w]. cbn [f_loc]. assert (Hp := rep_parent (rep_close H) ltac:(by intros ?%sided_node)). rewrite root_of_sided in Hp. rewrite Hp. cbn [mbind option_bind].
  destruct (ldn s (Some l)); [|done]. cbn [mbind option_bind]. by destruct (fix_turn _ _ _ _) as [[]|].
Qed.

Lemma run_tail_lift g s ctx side l c t k d w n :
  rep nil g s (mk_frame side l c k d w :: ctx) t -> can_redden w = false ->
  exists s', ('(s, x) ← fix_tail side s (Some l) (Some (root_of nil w)); run_fix (S n) s x) = Some s' /\
    rep nil g s' [] (recolor Black (plug ctx (lift_sibling side l t k d w))) /\ same_calls s s'.
Proof.
  intros H Hr. destruct (fix_tail_lift _ _ _ _ _ _ _ _ _ _ H Hr) as (s1 & -> & H1 & S1). cbn [mbind option_bind]. apply rep_plug in H1.
  rewrite (rep_root H1). destruct (run_fix_exit _ _ _ _ n H1) as (s2 & E2 & H2 & S2); [by left|]. exists s2. split; [done|]. split; [done|by etrans].
Qed.

Lemma run_fix_ok g : forall ctx s t n,
  rep nil g s ctx t -> anchored nil s ctx t -> (length ctx < n)%nat ->
  exists s', run_fix n s (Some (root_of nil t)) = Some s' /\ rep nil g s' [] (fix_up t ctx) /\ same_calls s s'.
Proof.
  induction ctx as [|[side l c k d w] ctx IH]; intros s t n H Ha Hn; (destruct n as [|n]; [lia|]).
  { apply (run_fix_exit _ _ [] _ _ H). by left. }
  destruct (decide (tree_color t = Red)) as [Hr|Hr]; [cbn [fix_up]; rewrite decide_True by done; apply run_fix_exit; [done|by right]|].
  rewrite (run_fix_turn _ _ _ _ _ _ H Ha (not_red _ Hr)). cbn [f_loc]. rewrite (rep_ldn (rep_close H)). cbn [mbind option_bind].
  destruct (which_child _ _ _ _ _ _ _ _ _ _ H) as (side' & -> & Hside). assert (E : fix_up t (mk_frame side l c k d w :: ctx) = fix_up t (mk_frame side' l c k d w :: ctx)).
  { destruct Hside as [->|[-> ->]]; [done|apply fix_up_leaves]. }
  assert (H' : rep nil g s (mk_frame side' l c k d w :: ctx) t).
  { apply rep_open. apply rep_close in H. destruct Hside as [->|[-> ->]]; [done|]. by rewrite (sided_leaves _ side). }
  rewrite E. cbn in Hn. clear side H Ha Hside E. cbn [fix_up f_color f_sib f_side f_loc f_key f_data]. rewrite decide_False by done. cbn in Hn. destruct n as [|n]; [lia|].
  assert (Hblack : forall w0, w = w0 -> tree_color w0 = Black -> exists s', ('(s, x) ← fix_turn side' s (Some (root_of nil t)) (Some l); run_fix (S n) s x) = Some s' /\
    rep nil g s' [] (if can_redden w0 then fix_up (sided side' l c t k d (recolor Red w0)) ctx else recolor Black (plug ctx (lift_sibling side' l t k d w0))) /\ same_calls s s').
  { intros w0 <- Hb. rewrite (fix_turn_black _ _ _ _ _ _ _ _ _ _ _ H' Hb). destruct (can_redden w) eqn:Hcr; [|by apply (run_tail_lift _ _ _ _ _ c)].
    destruct (fix_tail_redden _ _ _ _ _ _ _ _ _ _ H' Hcr) as (s1 & -> & H1 & S1). cbn [mbind option_bind].
    destruct (IH s1 _ (S n) H1) as (s2 & E2 & H2 & S2); [by intros ?%sided_node|lia|]. rewrite root_of_sided in E2. exists s2. split; [done|]. split; [done|by etrans]. }
  destruct w as [|wl [] wlt wk wd wrt]; [by apply Hblack| |by apply Hblack]. clear Hblack.
  rewrite (inorder_near_far side' wl) in H'. destruct (near_far side' wlt wrt) as [near far]. cbn [fst snd] in *.
  destruct (fix_turn_red _ _ _ _ _ _ _ _ _ _ _ _ _ _ (Some (root_of nil t)) H') as (s1 & -> & H1 & S1). destruct (can_redden near) eqn:Hcr.
  - destruct (fix_tail_redden _ _ _ _ _ _ _ _ _ _ H1 Hcr) as (s2 & -> & H2 & S2). cbn [mbind option_bind].
    destruct (run_fix_exit _ _ _ _ n H2) as (s3 & E3 & H3 & S3); [right; by rewrite tree_color_sided|]. rewrite root_of_sided in E3. rewrite recolor_sided in H3.
    exists s3. split; [done|]. split; [done|]. by do 2 (etrans; [eassumption|]).
  - destruct (run_tail_lift _ _ _ _ _ _ _ _ _ _ n H1 Hcr) as (s2 & E2 & H2 & S2). exists s2. split; [done|]. split; [done|by etrans].
Qed.

Lemma LwRtlRBTreeFixColors_ok g s ctx t :
  rep nil g s ctx t -> anchored nil s ctx t ->
  exists s', LwRtlRBTreeFixColors s (Some (root_of nil t)) = Some s' /\ rep nil g s' [] (fix_up t ctx) /\ same_calls s s'.
Proof. intros H Ha. apply (run_fix_ok g ctx s t (fuel_of s) H Ha). assert (Hf := fuel_enough _ _ _ _ _ H). lia. Qed.
End FixHeap.
