(* ===== verification/RbTreeRemove.v ===== *)
(** Search in and removal from a red-black tree: [LwRtlRBTreeFind] and
    [LwRtlRBTreeRemove] as functions on trees with paths. *)

From stdpp Require Import gmap sorting.
From S2P Require Import Prelude SecurityTypes RbTree RbTreeRepr RbTreeAdd RbTreeOrder RbTreeFix.

(** * On trees *)

Section Remove.
Context {K D : Type} (pfnCompare : K -> K -> Z).
Abbreviation path := (list (frame K D)).
Implicit Types (t : tree K D) (ctx : path).

(** The node found, with its path. *)
Fixpoint find_zip (k : K) t ctx : option (path * tree K D) :=
  match t with
  | Leaf => None
  | Node l c lt k' d rt =>
      if pfnCompare k k' =? 0 then Some (ctx, t)
      else if pfnCompare k k' <? 0 then find_zip k lt (mk_frame true l c k' d rt :: ctx) else find_zip k rt (mk_frame false l c k' d lt :: ctx)
  end.

(** The leftmost node, with its path. *)
Fixpoint min_zip t ctx : path * tree K D :=
  match t with
  | Node l c (Node _ _ _ _ _ _ as lt) k d rt => min_zip lt (mk_frame true l c k d rt :: ctx)
  | _ => (ctx, t)
  end.

(** The node unlinked, the tree that takes its place and the path to there. *)
Definition unlinked t ctx : tree K D * tree K D * path :=
  match t with
  | Node l c lt k d rt =>
      match lt, rt with
      | Leaf, _ => (t, rt, ctx)
      | _, Leaf => (t, lt, ctx)
      | _, _ =>
          let '(seg, y) := min_zip rt [] in
          match y with
          | Node yl yc _ yk yd yrt => (Node yl yc Leaf k d yrt, yrt, seg ++ mk_frame false l c yk yd lt :: ctx)
          | Leaf => (t, t, ctx)
          end
      end
  | Leaf => (t, t, ctx)
  end.

Definition remove_tree t ctx : tree K D :=
  let '(gone, tmp, ctx') := unlinked t ctx in
  if decide (tree_color gone = Black) then fix_up tmp ctx' else plug ctx' tmp.

Lemma find_zip_plug k t : forall ctx ctx' x, find_zip k t ctx = Some (ctx', x) -> plug ctx' x = plug ctx t /\ exists l c lt k' d rt, x = Node l c lt k' d rt /\ pfnCompare k k' = 0.
Proof.
  induction t as [|l c lt IHl k' d rt IHr]; intros ctx ctx' x; cbn; [done|]. case_match eqn:E; [intros [= <- <-]; split; [done|]; do 6 eexists; split; [done|lia]|].
  case_match; intros Hf; [by apply IHl in Hf|by apply IHr in Hf].
Qed.

Lemma min_zip_app t : forall c1 c2, min_zip t (c1 ++ c2) = ((min_zip t c1).1 ++ c2, (min_zip t c1).2).
Proof using.
  induction t as [|l c lt IHl k d rt _]; intros c1 c2; [done|]. cbn. destruct lt as [|]; [done|]. apply (IHl (_ :: c1)).
Qed.

Lemma min_zip_plug t : forall ctx, plug (min_zip t ctx).1 (min_zip t ctx).2 = plug ctx t.
Proof using. induction t as [|l c lt IHl k d rt _]; intros ctx; [done|]. cbn. destruct lt as [|]; [done|]. apply (IHl (mk_frame true l c k d rt :: ctx)). Qed.

Lemma min_zip_node t : forall ctx, t <> Leaf -> exists l c k d rt, (min_zip t ctx).2 = Node l c Leaf k d rt.
Proof using. induction t as [|l c lt IHl k d rt _]; intros ctx Ht; [done|]. cbn. destruct lt as [|]; [by do 5 eexists|]. by apply (IHl (_ :: ctx)). Qed.

(** * Entries *)

Lemma inorder_split ctx : exists es1 es2, forall t, inorder (plug ctx t) = es1 ++ inorder t ++ es2.
Proof using.
  induction ctx as [|f ctx (es1 & es2 & IH)]; [exists [], []; intros t; by rewrite app_nil_r|]. destruct f as [side l c k d b].
  destruct side; [exists es1, ((k, d) :: inorder b ++ es2)|exists (es1 ++ inorder b ++ [(k, d)]), es2]; intros t; cbn [plug]; rewrite IH; unfold unframe; rewrite inorder_sided; cbn;
    by rewrite <- ?app_assoc.
Qed.

Lemma min_zip_sides t : forall ctx, Forall (fun f => f_side f = true) ctx -> Forall (fun f => f_side f = true) (min_zip t ctx).1.
Proof using. induction t as [|l c lt IHl k d rt _]; intros ctx H; [done|]. cbn. destruct lt as [|]; [done|]. apply (IHl (_ :: ctx)). by constructor. Qed.

Lemma inorder_left ctx : Forall (fun f => f_side f = true) ctx -> exists es, forall t, inorder (plug ctx t) = inorder t ++ es.
Proof using.
  induction 1 as [|[side l c k d b] ctx Hs _ (es & IH)]; [exists []; intros t; by rewrite app_nil_r|]. cbn in Hs. subst side. exists ((k, d) :: inorder b ++ es).
  intros t. cbn [plug]. rewrite IH. cbn. by rewrite <- app_assoc.
Qed.

(** Removal takes one entry out. *)
Lemma unlinked_inorder l c lt k d rt ctx gone tmp ctx' :
  unlinked (Node l c lt k d rt) ctx = (gone, tmp, ctx') -> exists es1 es2, inorder (plug ctx (Node l c lt k d rt)) = es1 ++ (k, d) :: es2 /\ inorder (plug ctx' tmp) = es1 ++ es2.
Proof using.
  destruct (inorder_split ctx) as (es1 & es2 & Hs). rewrite Hs. cbn [unlinked inorder].
  destruct lt as [|ll lc llt lk ld lrt] eqn:El; [intros [= <- <- <-]; exists es1, (inorder rt ++ es2); by rewrite Hs|].
  destruct rt as [|rl rc rlt rk rd rrt] eqn:Er; [intros [= <- <- <-]; exists (es1 ++ inorder lt), es2; rewrite Hs, El; cbn; by rewrite <- !app_assoc|].
  rewrite <- El, <- Er. destruct (min_zip rt []) as [seg y] eqn:Em. assert (Hp := min_zip_plug rt []). assert (Hsd := min_zip_sides rt [] (Forall_nil_2 _)).
  destruct (min_zip_node rt [] ltac:(by rewrite Er)) as (yl & yc & yk & yd & yrt & Ey). rewrite Em in Hp, Ey, Hsd. cbn [fst snd] in *. subst y. intros [= <- <- <-].
  destruct (inorder_left seg Hsd) as (es & Hes). cbn [plug] in Hp. rewrite <- Hp, Hes. exists (es1 ++ inorder lt), ((yk, yd) :: inorder yrt ++ es ++ es2). split; [cbn; rewrite <- !app_assoc; cbn; by rewrite <- ?app_assoc|].
  rewrite plug_app. cbn [plug]. rewrite Hs. cbn. rewrite Hes. rewrite <- !app_assoc. cbn. by rewrite <- ?app_assoc.
Qed.

(** * Colors *)

Lemma top_black_plug ctx : forall t, tree_color (plug ctx t) = Black -> top_black ctx.
Proof using.
  induction ctx as [|f ctx IH]; intros t H; [done|]. destruct ctx as [|f' ctx]; [cbn in H; unfold unframe in H; by rewrite tree_color_sided in H|].
  change (top_black (f' :: ctx)). by apply (IH (unframe f t)).
Qed.

Lemma unlinked_shape l c lt k d rt ctx gone tmp ctx' :
  unlinked (Node l c lt k d rt) ctx = (gone, tmp, ctx') ->
  (exists gl gc glt grt, gone = Node gl gc glt k d grt /\ (glt = Leaf /\ tmp = grt \/ grt = Leaf /\ tmp = glt)) /\
  (colored (plug ctx (Node l c lt k d rt)) -> colored (plug ctx' gone)) /\
  tree_color (plug ctx' gone) = tree_color (plug ctx (Node l c lt k d rt)).
Proof using.
  cbn [unlinked]. destruct lt as [|ll lc llt lk ld lrt] eqn:El; [intros [= <- <- <-]; split; [do 4 eexists; split; [done|by left]|done]|].
  destruct rt as [|rl rc rlt rk rd rrt] eqn:Er; [intros [= <- <- <-]; split; [do 4 eexists; split; [done|by right]|done]|].
  rewrite <- El, <- Er. destruct (min_zip rt []) as [seg y] eqn:Em. assert (Hp := min_zip_plug rt []).
  destruct (min_zip_node rt [] ltac:(by rewrite Er)) as (yl & yc & yk & yd & yrt & Ey). rewrite Em in Hp, Ey. cbn [fst snd] in *. subst y. intros [= <- <- <-].
  split; [do 4 eexists; split; [done|by left]|]. cbn [plug] in Hp. rewrite <- Hp, plug_app. cbn [plug]. unfold unframe. cbn [f_side f_loc f_color f_key f_data f_sib sided].
  assert (Hcol : tree_color (plug seg (Node yl yc Leaf k d yrt)) = tree_color (plug seg (Node yl yc Leaf yk yd yrt))).
  { clear. revert yk yd. induction seg as [|f seg _] using rev_ind; intros; [done|]. rewrite !plug_app. cbn. unfold unframe. by rewrite !tree_color_sided. }
  split; [|clear; revert lt; induction ctx as [|f ctx _] using rev_ind; intros; [done|]; rewrite !plug_app; cbn; unfold unframe; by rewrite !tree_color_sided].
  rewrite !colored_plug. cbn [colored tree_color]. rewrite Hcol, !colored_plug. done.
Qed.

Lemma remove_tree_colored l c lt k d rt ctx :
  colored (plug ctx (Node l c lt k d rt)) -> tree_color (plug ctx (Node l c lt k d rt)) = Black ->
  colored (remove_tree (Node l c lt k d rt) ctx) /\ tree_color (remove_tree (Node l c lt k d rt) ctx) = Black.
Proof using.
  clear pfnCompare. intros Hc Hb. unfold remove_tree. destruct (unlinked _ ctx) as [[gone tmp] ctx'] eqn:E. apply unlinked_shape in E as ((gl & gc & glt & grt & -> & Ht) & E1 & E2).
  specialize (E1 Hc). rewrite Hb in E2. apply colored_plug in E1 as [E1 Hp]. cbn [tree_color colored] in *. assert (Hctmp : colored tmp) by (destruct Ht as [[_ ->]|[_ ->]]; tauto).
  case_decide as Hg.
  - apply fix_up_colored; [by apply colored_black|by eapply colored_path_black|by eapply top_black_plug].
  - destruct gc; [|done]. destruct E1 as (Hk & _). assert (Htb : tree_color tmp = Black) by (destruct Ht as [[_ ->]|[_ ->]]; by apply Hk).
    destruct ctx' as [|f ctx']; [done|]. split; [|apply plug_top; by eapply top_black_plug]. apply colored_plug. rewrite Htb. split; [done|by eapply colored_path_black].
Qed.

Lemma remove_tree_inorder l c lt k d rt ctx :
  exists es1 es2, inorder (plug ctx (Node l c lt k d rt)) = es1 ++ (k, d) :: es2 /\ inorder (remove_tree (Node l c lt k d rt) ctx) = es1 ++ es2.
Proof using.
  unfold remove_tree. destruct (unlinked _ ctx) as [[gone tmp] ctx'] eqn:E. destruct (unlinked_inorder _ _ _ _ _ _ _ _ _ _ E) as (es1 & es2 & H1 & H2).
  exists es1, es2. split; [done|]. case_decide; [|done]. by rewrite fix_up_inorder.
Qed.
End Remove.

(** * On the heap *)

Section RemoveHeap.
Context {K D : Type} (pfnCompare : K -> K -> Z) (nil : loc).
Implicit Types (t : tree K D) (ctx : list (frame K D)) (g : gmap loc (LWRTL_RB_TREE_NODE K D)) (s : LWRTL_RB_TREE K D).

Lemma find_node_loop_ok g s k t : forall ctx n,
  rep nil g s ctx t -> (height t < n)%nat ->
  find_node_loop pfnCompare n s k (Some (root_of nil t)) = Some ((fun z => root_of nil z.2) <$> find_zip pfnCompare k t ctx).
Proof.
  induction t as [|l c lt IHl k' d rt IHr]; intros ctx n H Hn; (destruct n as [|n]; [lia|]); cbn [find_node_loop]; rewrite (rep_is_nil H); [done|].
  cbn [root_of]. rewrite (rep_ldn (side := true) (x := l) (a := lt) (b := rt) H). cbn [orb bool_decide mbind option_bind]. rewrite bool_decide_false by done.
  cbn [orb]. unfold compare_with. rewrite key_cell. cbn [mbind option_bind find_zip height] in *. case_match; [done|]. case_match.
  - apply (IHl (mk_frame true l c k' d rt :: ctx)); [by apply rep_open|lia].
  - apply (IHr (mk_frame false l c k' d lt :: ctx)); [by apply rep_open|lia].
Qed.

Lemma FindNode_ok g s k t : rep nil g s [] t -> LwRtlRBTreeFindNode pfnCompare s k = Some ((fun z => root_of nil z.2) <$> find_zip pfnCompare k t []).
Proof.
  intros H. unfold LwRtlRBTreeFindNode. rewrite (rep_root H). apply (find_node_loop_ok g s k t [] _ H). assert (Hf := fuel_enough _ _ _ _ _ H). assert (Hh := height_locs t). lia.
Qed.

Lemma minimum_loop_ok g s t : forall ctx n,
  rep nil g s ctx t -> t <> Leaf -> (height t < n)%nat -> minimum_loop n s (Some (root_of nil t)) = Some (Some (root_of nil (min_zip t ctx).2)).
Proof.
  induction t as [|l c lt IHl k d rt _]; intros ctx n H Ht Hn; [done|]. destruct n as [|n]; [lia|]. cbn [minimum_loop root_of].
  rewrite (rep_ldn (side := true) (x := l) (a := lt) (b := rt) H). cbn [mbind option_bind pLeft cell]. assert (Hl := rep_open (side := true) (t := lt) (b := rt) H).
  rewrite (rep_is_nil Hl). cbn [min_zip height] in *. destruct lt as [|]; [done|]. apply (IHl _ _ Hl); [done|lia].
Qed.

Lemma footprint_release (h h' : gmap loc (LWRTL_RB_TREE_NODE K D)) y n ls :
  footprint h ∅ (y :: ls) -> dom h' = dom h -> h' !! y = Some n -> footprint h' {[y := n]} ls.
Proof.
  intros [H1 H2 H3 H4] Hd Hy. apply NoDup_cons in H1 as [Hn H1]. split; [done| | |].
  - rewrite Hd, H2, dom_singleton_L, dom_empty_L. set_solver.
  - intros l Hl. apply lookup_singleton_ne. by intros ->.
  - by apply map_singleton_subseteq_l.
Qed.

(** A node with one child at most comes out of the tree, and stays in the heap. *)
Lemma unlink_ok s ctx y c lt k d rt tmp :
  rep nil ∅ s ctx (Node y c lt k d rt) -> lt = Leaf /\ tmp = rt \/ rt = Leaf /\ tmp = lt ->
  exists s', (s ← RB_SET_PARENT s (Some (root_of nil tmp)) (Some (parent_of nil ctx)); n ← ldn s (Some y); replace_child s (Some y) (Some (root_of nil tmp)) (pParent n) true) = Some s' /\
    rep nil {[y := cell true c (root_of nil lt) (root_of nil rt) (parent_of nil ctx) k d]} s' ctx tmp /\ anchored nil s' ctx tmp /\ same_calls s s'.
Proof.
  intros [H1 H2 H3 H4 H5 H6] Ht. cbn in H3. destruct H3 as (Hy & Hlt & Hrt).
  assert (Hcells : cells nil ctx (Node y c lt k d rt) ≡ₚ y :: nil :: locs tmp ++ path_locs ctx).
  { unfold cells. destruct Ht as [[-> ->]|[-> ->]]; cbn; rewrite ?app_nil_r; apply perm_swap. }
  eapply footprint_perm in H6; [|exact Hcells]. assert (Hd := fp_nodup _ _ _ H6). rewrite !NoDup_cons, NoDup_app in Hd. destruct Hd as (Dy & Dn & Dt & Dtp & Dp).
  assert (Htmp : tree_ok nil (rb_heap s) y tmp) by (destruct Ht as [[_ ->]|[_ ->]]; done).
  assert (Hr : root_of nil tmp ∉ y :: path_locs ctx). { destruct (root_of_in nil tmp) as [E|E]; [rewrite E|]; apart. }
  destruct (set_parent_ok nil s tmp y (parent_of nil ctx)) as (s1 & -> & Ht1 & W1 & R1 & N1 & P1); [done|done|apart|done|]. cbn [mbind option_bind].
  assert (Hy1 : rb_heap s1 !! y = rb_heap s !! y) by (apply (w_agree _ _ _ W1); apart). rewrite (ldn_eq s1 y _ (eq_trans Hy1 Hy)). cbn [mbind option_bind pParent].
  destruct (replace_child_ok nil s1 ctx y (root_of nil tmp) true) as (s2 & -> & Hp2 & W2 & R2).
  { by rewrite (w_sentinel _ _ _ W1). }
  { eapply path_ok_writes; [exact W1|apart|done]. }
  1-2: apart.
  { apply NoDup_cons. split; [apart|done]. }
  assert (W := writes_trans _ _ _ _ _ W1 W2). exists s2. split; [done|]. split; [|split].
  - split; [by rewrite (w_sentinel _ _ _ W)| | |done| |].
    + rewrite R2. destruct ctx as [|f ctx]; [done|]. rewrite R1, H2. cbn [plug]. f_equal. apply (root_of_plug nil f).
    + eapply tree_ok_writes; [exact W2|apart|done].
    + eapply sentinel_ok_writes; [exact W2|apart|done].
    + eapply footprint_release; [exact H6|exact (w_dom _ _ _ W)|]. rewrite (w_agree _ _ _ W2), Hy1 by apart. exact Hy.
  - intros ->. rewrite (nil_parent_writes nil _ _ _ W2) by apart. exact P1.
  - by eapply writes_same.
Qed.

(** The entry of a node of the tree changes. *)
Lemma rekey_ok g s ctx l c lt k d rt k' d' :
  rep nil g s ctx (Node l c lt k d rt) ->
  exists s', stn s (Some l) (with_key_data (Some k') d') = Some s' /\ rep nil g s' ctx (Node l c lt k' d' rt) /\ same_calls s s' /\ nil_parent nil s' = nil_parent nil s.
Proof.
  intros [H1 H2 H3 H4 H5 H6]. cbn in H3. destruct H3 as (Hl & Hlt & Hrt). assert (Hd := fp_nodup _ _ _ H6). unfold cells in Hd. cbn in Hd. rewrite !NoDup_cons in Hd. destruct Hd as (Hn & Hl0 & _).
  erewrite stn_eq by exact Hl. eexists. split; [done|]. match goal with |- context [set_heap s (<[l := ?v]> _)] => assert (W := writes_insert s l v ltac:(by eexists)) end.
  split; [|split; [by eapply writes_same|eapply nil_parent_writes; [exact W|set_solver]]]. split; try done.
  - cbn. rewrite H2. destruct ctx; [done|]. f_equal. apply root_of_plug.
  - cbn. rewrite lookup_insert_eq. split; [done|]. split; apply tree_ok_insert; (done || set_solver).
  - apply path_ok_insert; [set_solver|done].
  - apply sentinel_ok_insert; [set_solver|done].
  - eapply footprint_writes; [exact W|set_solver|done].
Qed.

(** A node outside the tree changes. *)
Lemma outside_ok s ctx t y n f :
  rep nil {[y := n]} s ctx t ->
  exists s', stn s (Some y) f = Some s' /\ rep nil {[y := f n]} s' ctx t /\ same_calls s s' /\ nil_parent nil s' = nil_parent nil s.
Proof.
  intros [H1 H2 H3 H4 H5 [F1 F2 F3 F4]]. assert (Hy : rb_heap s !! y = Some n) by (by apply map_singleton_subseteq_l in F4).
  assert (Hc : y ∉ cells nil ctx t). { intros Hin. apply F3 in Hin. by rewrite lookup_singleton_eq in Hin. }
  unfold cells in Hc. erewrite stn_eq by exact Hy. eexists. split; [done|]. assert (W := writes_insert s y (f n) ltac:(by eexists)).
  split; [|split; [by eapply writes_same|eapply nil_parent_writes; [exact W|set_solver]]]. split; try done.
  - apply tree_ok_insert; [set_solver|done].
  - apply path_ok_insert; [set_solver|done].
  - apply sentinel_ok_insert; [set_solver|done].
  - split; [done| | |].
    + rewrite (w_dom _ _ _ W), F2, !dom_singleton_L. done.
    + intros l Hl. apply lookup_singleton_ne. intros ->. by apply F3 in Hl; rewrite lookup_singleton_eq in Hl.
    + apply map_singleton_subseteq_l. cbn. apply lookup_insert_eq.
Qed.

Lemma outside_ldn s ctx t y n : rep nil {[y := n]} s ctx t -> ldn s (Some y) = Some n.
Proof. intros [_ _ _ _ _ [_ _ _ F4]]. by apply map_singleton_subseteq_l in F4. Qed.

(** The node that goes, when it has one child at most; and otherwise the leftmost
    node of its right subtree, which trades its entry with it. *)
Definition free_calls s (k : K) (d : option D) : list (rb_call K D) :=
  (if pfnFreeKey s then [FreeKey k] else []) ++ match d with Some d => if pfnFreeData s then [FreeData d] else [] | None => [] end.

Lemma FreeNode_ok s ctx t y c a b p k d :
  rep nil {[y := cell true c a b p k d]} s ctx t ->
  exists s', LwRtlRBTreeFreeNode s (Some y) = Some s' /\ rep nil ∅ s' ctx t /\
    pfnFreeKey s' = pfnFreeKey s /\ pfnFreeData s' = pfnFreeData s /\ rb_calls s' = rb_calls s ++ free_calls s k d.
Proof.
  intros H. assert (Hy := outside_ldn _ _ _ _ _ H). cbn in Hy. unfold LwRtlRBTreeFreeNode. cbn [mbind option_bind]. rewrite Hy. cbn [mbind option_bind pKey pData cell].
  eexists. split; [done|]. split; [|done]. destruct H as [H1 H2 H3 H4 H5 [F1 F2 F3 F4]].
  assert (Hc : y ∉ cells nil ctx t). { intros Hin. apply F3 in Hin. by rewrite lookup_singleton_eq in Hin. } unfold cells in Hc.
  split; try done; cbn.
  - eapply tree_ok_agree; [|exact H3]. intros l Hl. apply lookup_delete_ne. set_solver.
  - eapply path_ok_agree; [|exact H4]. intros l Hl. apply lookup_delete_ne. set_solver.
  - destruct H5 as (n & Hn & Hb). exists n. rewrite lookup_delete_ne by set_solver. done.
  - split; [done| |done|apply map_empty_subseteq]. rewrite dom_delete_L, F2, dom_singleton_L, dom_empty_L. unfold cells in *. set_solver.
Qed.

Lemma recolor_out_ok s ctx tmp y c a b p k d :
  rep nil {[y := cell true c a b p k d]} s ctx tmp -> anchored nil s ctx tmp ->
  exists s', (black ← RB_IS_BLACK s (Some y); s ← (if (black : bool) then LwRtlRBTreeFixColors s (Some (root_of nil tmp)) else Some s); Some (s, Some y)) = Some (s', Some y) /\
    rep nil {[y := cell true c a b p k d]} s' [] (if decide (c = Black) then fix_up tmp ctx else plug ctx tmp) /\ same_calls s s'.
Proof.
  intros H Ha. unfold RB_IS_BLACK. rewrite (outside_ldn _ _ _ _ _ H). cbn [mbind option_bind color cell]. case_decide; [rewrite bool_decide_true by done|rewrite bool_decide_false by done].
  - destruct (LwRtlRBTreeFixColors_ok nil _ _ _ _ H Ha) as (s1 & -> & H1 & S1). by exists s1.
  - exists s. split; [done|]. split; [by apply rep_plug in H|done].
Qed.

(** Removal of a node with one child at most. *)
Lemma RemoveNode_one s ctx l c lt k d rt :
  rep nil ∅ s ctx (Node l c lt k d rt) -> lt = Leaf \/ rt = Leaf ->
  exists s' y gc a b p, LwRtlRBTreeRemoveNode s (Some l) = Some (s', Some y) /\
    rep nil {[y := cell true gc a b p k d]} s' [] (remove_tree (Node l c lt k d rt) ctx) /\ same_calls s s'.
Proof.
  intros H Hone. set (tmp := match lt with Leaf => rt | _ => lt end). assert (Htmp : lt = Leaf /\ tmp = rt \/ rt = Leaf /\ tmp = lt) by (unfold tmp; destruct Hone as [->| ->]; [by left|destruct lt; auto]).
  assert (Hl := rep_is_nil (rep_open (side := true) (t := lt) (b := rt) H)). assert (Hr := rep_is_nil (rep_open (side := false) (t := rt) (b := lt) H)).
  unfold LwRtlRBTreeRemoveNode. rewrite (rep_ldn (side := true) (x := l) (a := lt) (b := rt) H). cbn [mbind option_bind pLeft pRight cell]. rewrite Hl, Hr.
  replace (_ || _) with true by (destruct Hone as [->| ->]; [by rewrite orb_true_r|done]). cbn [mbind option_bind].
  rewrite (rep_ldn (side := true) (x := l) (a := lt) (b := rt) H). cbn [mbind option_bind pLeft pRight pParent cell]. rewrite Hl.
  replace (if negb _ then _ else _) with (Some (root_of nil tmp)) by (unfold tmp; by destruct lt).
  destruct (unlink_ok s ctx l c lt k d rt tmp H Htmp) as (s1 & E1 & H1 & A1 & S1).
  destruct (recolor_out_ok _ _ _ _ _ _ _ _ _ _ H1 A1) as (s2 & E2 & H2 & S2). exists s2, l, c, (root_of nil lt), (root_of nil rt), (parent_of nil ctx). split; [|split; [|by etrans]].
  - destruct (RB_SET_PARENT _ _ _) as [s0|]; [|done]. cbn [mbind option_bind] in *. destruct (ldn s0 _) as [n|]; [|done]. cbn [mbind option_bind] in *. rewrite E1. cbn [mbind option_bind].
    rewrite bool_decide_true by done. exact E2.
  - replace (remove_tree _ ctx) with (if decide (c = Black) then fix_up tmp ctx else plug ctx tmp); [done|]. unfold remove_tree, tmp. cbn [unlinked]. destruct Hone as [->| ->]; [done|]. by destruct lt.
Qed.

(** The two nodes trade their entries. *)
Lemma trade_ok s ctx seg l c k d lt tmp y yc a b p yk yd :
  rep nil {[y := cell true yc a b p yk yd]} s (seg ++ mk_frame false l c k d lt :: ctx) tmp ->
  exists s', (x ← ldn s (Some l); n ← ldn s (Some y); s ← stn s (Some l) (with_key_data (pKey n) (pData n)); stn s (Some y) (with_key_data (pKey x) (pData x))) = Some s' /\
    rep nil {[y := cell true yc a b p k d]} s' (seg ++ mk_frame false l c yk yd lt :: ctx) tmp /\ same_calls s s' /\ nil_parent nil s' = nil_parent nil s.
Proof.
  intros H. assert (Hl := proj1 (rep_app _ _ _ _ _ _) H). apply rep_close in Hl. cbn [sided] in Hl. rewrite (rep_ldn (side := true) (x := l) (a := lt) Hl). cbn [mbind option_bind].
  rewrite (outside_ldn _ _ _ _ _ H). cbn [mbind option_bind pKey pData cell]. destruct (rekey_ok _ _ _ _ _ _ _ _ _ yk yd Hl) as (s1 & -> & H1 & S1 & N1). cbn [mbind option_bind].
  destruct (outside_ok _ _ _ _ _ (with_key_data (Some k) d) H1) as (s2 & -> & H2 & S2 & N2). exists s2. split; [done|]. split; [|split; [by etrans|congruence]].
  apply rep_app, rep_open. exact H2.
Qed.

(** Removal of a node with two children. *)
Lemma RemoveNode_two s ctx l c lt k d rt :
  rep nil ∅ s ctx (Node l c lt k d rt) -> lt <> Leaf -> rt <> Leaf ->
  exists s' y gc a b p, LwRtlRBTreeRemoveNode s (Some l) = Some (s', Some y) /\
    rep nil {[y := cell true gc a b p k d]} s' [] (remove_tree (Node l c lt k d rt) ctx) /\ same_calls s s'.
Proof.
  intros H Hlt Hrt. assert (Hl := rep_is_nil (rep_open (side := true) (t := lt) (b := rt) H)). assert (Hor := rep_open (side := false) (t := rt) (b := lt) H). assert (Hr := rep_is_nil Hor).
  assert (Hrem : remove_tree (Node l c lt k d rt) ctx = match min_zip rt [] with (seg, Node yl yc _ yk yd yrt) =>
    if decide (yc = Black) then fix_up yrt (seg ++ mk_frame false l c yk yd lt :: ctx) else plug (seg ++ mk_frame false l c yk yd lt :: ctx) yrt | _ => Leaf end).
  { unfold remove_tree. cbn [unlinked]. destruct (min_zip_node rt [] Hrt) as (yl & yc & yk & yd & yrt & E). destruct lt as [|]; [done|]. destruct rt as [|]; [done|]. destruct (min_zip _ []) as [seg y]. cbn in E. by subst y. }
  rewrite Hrem. clear Hrem. assert (Hmin := minimum_loop_ok _ _ _ _ (fuel_of s) Hor Hrt). assert (Happ := min_zip_app rt [] (mk_frame false l c k d lt :: ctx)). cbn [app] in Happ.
  assert (Hz : rep nil ∅ s (min_zip rt (mk_frame false l c k d lt :: ctx)).1 (min_zip rt (mk_frame false l c k d lt :: ctx)).2).
  { apply rep_plug. rewrite min_zip_plug. by apply rep_plug in Hor. }
  rewrite Happ in Hz, Hmin. destruct (min_zip_node rt [] Hrt) as (yl & yc & yk & yd & yrt & Ey). destruct (min_zip rt []) as [seg y]. cbn [fst snd] in *. subst y. clear Happ.
  unfold LwRtlRBTreeRemoveNode. rewrite (rep_ldn (side := true) (x := l) (a := lt) (b := rt) H). cbn [mbind option_bind pLeft pRight cell]. rewrite Hl, Hr.
  replace (_ || _) with false by (by destruct lt, rt). unfold LwRtlRBTreeGetSuccessor, LwRtlRBTreeGetMinimum.
  rewrite (rep_ldn (side := true) (x := l) (a := lt) (b := rt) H). cbn [mbind option_bind pLeft pRight cell]. rewrite Hr. replace (negb _) with true by (by destruct rt).
  rewrite Hmin. 2: { assert (Hf := fuel_enough _ _ _ _ _ Hor). assert (Hh := height_locs rt). lia. }
  cbn [mbind option_bind root_of]. rewrite (rep_ldn (side := true) (a := Leaf) (b := yrt) Hz). cbn [mbind option_bind pLeft pRight pParent cell].
  rewrite (rep_is_nil (rep_open (side := true) (t := Leaf) (b := yrt) Hz)). cbn [negb].
  destruct (unlink_ok _ _ _ _ _ _ _ _ yrt Hz ltac:(by left)) as (s1 & E1 & H1 & A1 & S1).
  destruct (trade_ok _ _ _ _ _ _ _ _ _ _ _ _ _ _ _ _ H1) as (s2 & E2 & H2 & S2 & N2).
  assert (A2 : anchored nil s2 (seg ++ mk_frame false l c yk yd lt :: ctx) yrt). { intros Hy. rewrite N2, (A1 Hy). by destruct seg. }
  destruct (recolor_out_ok _ _ _ _ _ _ _ _ _ _ H2 A2) as (s3 & E3 & H3 & S3).
  assert (Hne : yl <> l).
  { intros ->. assert (Hin : l ∈ cells nil (seg ++ mk_frame false l c k d lt :: ctx) yrt).
    { unfold cells. clear. induction seg as [|f seg IH]; cbn in *; set_solver. }
    apply (fp_disjoint _ _ _ (rep_cells _ _ _ _ _ H1)) in Hin. by rewrite lookup_singleton_eq in Hin. }
  exists s3. do 5 eexists. split; [|split; [exact H3|by do 2 (etrans; [eassumption|])]].
  destruct (RB_SET_PARENT _ _ _) as [s0|]; [|done]. cbn [mbind option_bind] in *. destruct (ldn s0 _) as [n|]; [|done]. cbn [mbind option_bind] in *. rewrite E1. cbn [mbind option_bind].
  rewrite bool_decide_false by congruence. rewrite E2. exact E3.
Qed.

Lemma RemoveNode_ok s ctx l c lt k d rt :
  rep nil ∅ s ctx (Node l c lt k d rt) ->
  exists s' y gc a b p, LwRtlRBTreeRemoveNode s (Some l) = Some (s', Some y) /\
    rep nil {[y := cell true gc a b p k d]} s' [] (remove_tree (Node l c lt k d rt) ctx) /\ same_calls s s'.
Proof.
  intros H. destruct lt as [|]; [apply RemoveNode_one; [done|by left]|]. destruct rt as [|]; [apply RemoveNode_one; [done|by right]|]. by apply RemoveNode_two.
Qed.

Lemma LwRtlRBTreeRemove_none s k t : rep nil ∅ s [] t -> find_zip pfnCompare k t [] = None -> LwRtlRBTreeRemove pfnCompare s k = Some (STATUS_NOT_FOUND, s).
Proof. intros H Hz. unfold LwRtlRBTreeRemove. rewrite (FindNode_ok _ _ _ _ H), Hz. done. Qed.

Lemma LwRtlRBTreeRemove_some s k t ctx l c lt k' d rt :
  rep nil ∅ s [] t -> find_zip pfnCompare k t [] = Some (ctx, Node l c lt k' d rt) ->
  exists s', LwRtlRBTreeRemove pfnCompare s k = Some (STATUS_SUCCESS, s') /\ rep nil ∅ s' [] (remove_tree (Node l c lt k' d rt) ctx) /\
    pfnFreeKey s' = pfnFreeKey s /\ pfnFreeData s' = pfnFreeData s /\ rb_calls s' = rb_calls s ++ free_calls s k' d.
Proof.
  intros H Hz. unfold LwRtlRBTreeRemove. rewrite (FindNode_ok _ _ _ _ H), Hz. cbn [fmap option_fmap option_map mbind option_bind snd root_of].
  apply find_zip_plug in Hz as [Hp _]. apply rep_plug in H. rewrite <- Hp in H. apply rep_plug in H.
  destruct (RemoveNode_ok _ _ _ _ _ _ _ _ H) as (s1 & y & gc & a & b & p & -> & H1 & [S1 S2 S3 S4]). cbn [mbind option_bind].
  destruct (FreeNode_ok _ _ _ _ _ _ _ _ _ _ H1) as (s2 & -> & H2 & F1 & F2 & F3). cbn [mbind option_bind]. exists s2. split; [done|]. split; [done|].
  rewrite F1, F2, F3, S2, S3, S4. unfold free_calls. by rewrite S2, S3.
Qed.

Lemma LwRtlRBTreeFind_ok g s k t :
  rep nil g s [] t ->
  LwRtlRBTreeFind pfnCompare s k = Some (match find_zip pfnCompare k t [] with Some (_, Node _ _ _ _ d _) => (STATUS_SUCCESS, d) | _ => (STATUS_NOT_FOUND, None) end).
Proof.
  intros H. unfold LwRtlRBTreeFind. rewrite (FindNode_ok _ _ _ _ H). cbn [mbind option_bind]. destruct (find_zip pfnCompare k t []) as [[ctx x]|] eqn:Hz; [|done].
  apply find_zip_plug in Hz as [Hp (l & c & lt & k' & d & rt & -> & _)]. apply rep_plug in H. rewrite <- Hp in H. apply rep_plug in H.
  cbn [fmap option_fmap option_map snd root_of]. rewrite (rep_ldn (side := true) (a := lt) (b := rt) H). done.
Qed.

(** What is in the tree is found. *)
Lemma find_zip_complete `{!CompareOrder pfnCompare} k t : forall ctx,
  ordered pfnCompare (inorder t) -> find_zip pfnCompare k t ctx = None -> forall e, e ∈ inorder t -> pfnCompare k e.1 <> 0.
Proof.
  induction t as [|l c lt IHl k' d rt IHr]; intros ctx Ho; cbn [find_zip inorder] in *; [set_solver|]. unfold ordered in Ho. assert (Ho' := Ho). rewrite StronglySorted_app in Ho'. destruct Ho' as (_ & Hl & Hr).
  apply StronglySorted_inv in Hr as [Hr Hall]. rewrite Forall_forall in Hall. case_match eqn:E1; [done|]. case_match eqn:E2; intros Hz e He; apply elem_of_app in He as [He|[->|He]%elem_of_cons]; try (cbn; lia).
  - by apply (IHl _ Hl Hz).
  - assert (Hlt : pfnCompare k e.1 < 0); [|lia]. apply (compare_lt_le pfnCompare k k' e.1); [lia|apply (Hall _ He)].
  - assert (Hle : pfnCompare e.1 k' <= 0) by (apply (StronglySorted_app_1_elem_of _ _ _ e (k', d) Ho); set_solver).
    assert (Hgt : pfnCompare e.1 k < 0); [|apply compare_flip in Hgt; lia]. destruct (Z.ltb_spec (pfnCompare e.1 k) 0) as [|Hge]; [done|exfalso].
    assert (Hke : pfnCompare k e.1 <= 0). { destruct (Z.leb_spec (pfnCompare k e.1) 0) as [|Hc]; [done|]. apply compare_flip in Hc. lia. }
    assert (Hkk := compare_trans _ _ _ Hke Hle). lia.
  - by apply (IHr _ Hr Hz).
Qed.
End RemoveHeap.
