(* ===== verification/RbTreeOps.v ===== *)
(** What a red-black tree is for: a table of entries in order. The operations of
    [RbTree] on the table, runs of them, traversal and disposal; and where the tree
    does not do what it is meant to. *)

From stdpp Require Import gmap sorting.
From S2P Require Import Prelude SecurityTypes RbTree RbTreeRepr RbTreeAdd RbTreeOrder RbTreeFix RbTreeRemove.

(** * Traversal *)

Section Walk.
Context {K D U : Type} (pfnVisit : option K -> option D -> U -> bool -> NTSTATUS * U * bool) (nil : loc).
Implicit Types (t : tree K D) (s : LWRTL_RB_TREE K D).

Fixpoint preorder t : list (K * option D) := match t with Leaf => [] | Node _ _ lt k d rt => (k, d) :: preorder lt ++ preorder rt end.
Fixpoint postorder t : list (K * option D) := match t with Leaf => [] | Node _ _ lt k d rt => postorder lt ++ postorder rt ++ [(k, d)] end.
Definition entries_in (order : LWRTL_TREE_TRAVERSAL_TYPE) t : list (K * option D) :=
  match order with TYPE_PRE_ORDER => preorder t | TYPE_IN_ORDER => inorder t | TYPE_POST_ORDER => postorder t end.

(** Visits to entries one after the other, up to the first that fails or that asks
    to stop. *)
Fixpoint walk (es : list (K * option D)) (u : U) (cont : bool) : NTSTATUS * U * bool :=
  match es with
  | [] => (STATUS_SUCCESS, u, cont)
  | (k, d) :: es =>
      if cont then
        let '(status, u, cont) := pfnVisit (Some k) d u cont in
        if is_ok status then walk es u cont else (status, u, cont)
      else (STATUS_SUCCESS, u, cont)
  end.

Lemma walk_stopped es u : walk es u false = (STATUS_SUCCESS, u, false).
Proof. by destruct es as [|[k d] es]. Qed.

Lemma walk_app es1 : forall es2 u cont,
  walk (es1 ++ es2) u cont = (let '(status, u, cont) := walk es1 u cont in if is_ok status then walk es2 u cont else (status, u, cont)).
Proof.
  induction es1 as [|[k d] es1 IH]; intros es2 u cont; [done|]. cbn [app walk]. destruct cont; [|by rewrite walk_stopped].
  destruct (pfnVisit _ _ _ _) as [[st u'] c']. destruct (is_ok st) eqn:E; [apply IH|]. by rewrite E.
Qed.

(** The visitor leaves [*pbContinue] set. *)
Definition never_stops : Prop := forall k d u, (pfnVisit k d u true).2 = true.

Lemma walk_goes_on : never_stops -> forall es u, (walk es u true).2 = true.
Proof.
  intros Hn es. induction es as [|[k d] es IH]; intros u; [done|]. cbn. assert (H := Hn (Some k) d u). destruct (pfnVisit _ _ _ _) as [[st u'] c']. cbn in H. subst c'. by destruct (is_ok st).
Qed.

Lemma bail_walk es1 es2 u cont rest :
  (forall u cont, rest u cont = Some (walk es2 u cont)) -> bail (Some (walk es1 u cont)) rest = Some (walk (es1 ++ es2) u cont).
Proof.
  intros Hr. unfold bail. rewrite walk_app. cbn. destruct (walk es1 u cont) as [[st u'] c']. destruct (is_ok st); [apply Hr|done].
Qed.

(** The same when the visitor never asks to stop. *)
Lemma bail_walk_on es1 es2 u rest :
  never_stops -> (forall u, rest u true = Some (walk es2 u true)) -> bail (Some (walk es1 u true)) rest = Some (walk (es1 ++ es2) u true).
Proof.
  intros Hn Hr. unfold bail. rewrite walk_app. cbn. assert (Hg := walk_goes_on Hn es1 u). destruct (walk es1 u true) as [[st u'] c']. cbn in Hg. subst c'. destruct (is_ok st); [apply Hr|done].
Qed.

Lemma walk_one k d u : walk [(k, d)] u true = (let '(st, u, c) := pfnVisit (Some k) d u true in (st, u, c)).
Proof. cbn. destruct (pfnVisit _ _ _ _) as [[st u'] c']. destruct st; done. Qed.

Lemma traverse_ok order g s t : (order = TYPE_PRE_ORDER \/ never_stops) -> forall ctx n u,
  rep nil g s ctx t -> (height t < n)%nat -> traverse pfnVisit order n s (Some (root_of nil t)) u true = Some (walk (entries_in order t) u true).
Proof.
  intros Hv. induction t as [|l c lt IHl k d rt IHr]; intros ctx n u H Hn; (destruct n as [|n]; [lia|]); cbn [traverse]; rewrite (rep_is_nil H); [by destruct order|].
  rewrite bool_decide_false by done. cbn [orb root_of]. rewrite (rep_ldn (side := true) (x := l) (a := lt) (b := rt) H). cbn [mbind option_bind pLeft pRight cell height] in *.
  assert (Hl : forall u, traverse pfnVisit order n s (Some (root_of nil lt)) u true = Some (walk (entries_in order lt) u true)).
  { intros u'. apply (IHl (mk_frame true l c k d rt :: ctx)); [by apply rep_open|lia]. }
  assert (Hr : forall u, traverse pfnVisit order n s (Some (root_of nil rt)) u true = Some (walk (entries_in order rt) u true)).
  { intros u'. apply (IHr (mk_frame false l c k d lt :: ctx)); [by apply rep_open|lia]. }
  clear IHl IHr. rewrite !bool_decide_false by done. unfold visit. cbn [pKey pData andb negb]. destruct order; cbn [entries_in preorder inorder postorder] in *.
  - unfold bail at 1. cbn [mbind option_bind walk]. destruct (pfnVisit _ _ _ _) as [[st u'] c']. destruct (is_ok st); [|done]. destruct c'; cbn [andb].
    + rewrite Hl. apply bail_walk. intros u1 c1. destruct c1; cbn [andb]; [apply Hr|by rewrite walk_stopped].
    + by rewrite walk_stopped.
  - destruct Hv as [|Hv]; [done|]. rewrite Hl. apply bail_walk_on; [done|]. intros u1. change ((k, d) :: inorder rt) with ([(k, d)] ++ inorder rt).
    replace (pfnVisit (Some k) d u1 true) with (walk [(k, d)] u1 true) by (rewrite walk_one; by destruct (pfnVisit _ _ _ _) as [[]]).
    apply bail_walk_on; [done|]. intros u2. apply Hr.
  - destruct Hv as [|Hv]; [done|]. rewrite Hl. apply bail_walk_on; [done|]. intros u1. cbn [andb]. rewrite Hr. apply bail_walk_on; [done|]. intros u2.
    rewrite walk_one. by destruct (pfnVisit _ _ _ _) as [[]].
Qed.

Lemma LwRtlRBTreeTraverse_ok order g s t u :
  (order = TYPE_PRE_ORDER \/ never_stops) -> rep nil g s [] t -> LwRtlRBTreeTraverse pfnVisit s order u = Some (walk (entries_in order t) u true).1.
Proof.
  intros Hv H. unfold LwRtlRBTreeTraverse. rewrite (rep_root H). cbn [plug]. rewrite (traverse_ok order g s t Hv [] _ u H).
  - cbn [mbind option_bind]. by destruct (walk _ _ _) as [[]].
  - assert (Hf := fuel_enough _ _ _ _ _ H). assert (Hh := height_locs t). lia.
Qed.
End Walk.

(** * Disposal *)

Section Dispose.
Context {K D : Type} (nil : loc).
Implicit Types (t : tree K D) (s : LWRTL_RB_TREE K D).

(** The calls that free a list of entries. *)
Definition frees s (es : list (K * option D)) : list (rb_call K D) := es ≫= fun e => free_calls s e.1 e.2.

(** [s'] is [s] without the nodes [ls], after the calls [calls]. *)
Record disposed (ls : list loc) (calls : list (rb_call K D)) s s' : Prop := {
  di_sentinel : pSentinel s' = pSentinel s;
  di_root : pRoot s' = pRoot s;
  di_freekey : pfnFreeKey s' = pfnFreeKey s;
  di_freedata : pfnFreeData s' = pfnFreeData s;
  di_calls : rb_calls s' = rb_calls s ++ calls;
  di_gone : forall l, l ∈ ls -> rb_heap s' !! l = None;
  di_rest : forall l, l ∉ ls -> rb_heap s' !! l = rb_heap s !! l
}.

Lemma disposed_refl s : disposed [] [] s s.
Proof. split; try done; [by rewrite app_nil_r|set_solver]. Qed.

Lemma disposed_trans ls1 ls2 c1 c2 s s1 s2 : disposed ls1 c1 s s1 -> disposed ls2 c2 s1 s2 -> disposed (ls1 ++ ls2) (c1 ++ c2) s s2.
Proof.
  intros [A1 A2 A3 A4 A5 A6 A7] [B1 B2 B3 B4 B5 B6 B7]. split; try congruence; [by rewrite B5, A5, app_assoc| |].
  - intros l Hl. destruct (decide (l ∈ ls2)) as [H2|H2]; [by apply B6|]. rewrite B7 by done. apply A6. set_solver.
  - intros l Hl. rewrite B7, A7; [done|set_solver|set_solver].
Qed.

Lemma frees_same ls c s s' es : disposed ls c s s' -> frees s' es = frees s es.
Proof. intros []. unfold frees, free_calls. by rewrite di_freekey0, di_freedata0. Qed.

Lemma FreeNode_disposes s l c a b p k (d : option D) :
  rb_heap s !! l = Some (mk_node c a b p (Some k) d) -> exists s', LwRtlRBTreeFreeNode s (Some l) = Some s' /\ disposed [l] (frees s [(k, d)]) s s'.
Proof.
  intros Hl. unfold LwRtlRBTreeFreeNode. cbn [mbind option_bind]. rewrite Hl. cbn [mbind option_bind pKey pData]. eexists. split; [done|]. split; try done; cbn.
  - unfold frees, free_calls. cbn. by rewrite app_nil_r.
  - intros l' ->%list_elem_of_singleton. apply lookup_delete_eq.
  - intros l' Hl'. apply lookup_delete_ne. set_solver.
Qed.

Lemma RemoveAllNodes_ok t : forall s p n,
  tree_ok nil (rb_heap s) p t -> t <> Leaf -> NoDup (nil :: locs t) -> pSentinel s = Some nil -> (height t <= n)%nat ->
  exists s', LwRtlRBTreeRemoveAllNodes n s (Some (root_of nil t)) = Some s' /\ disposed (locs t) (frees s (postorder t)) s s'.
Proof.
  induction t as [|l c lt IHl k d rt IHr]; intros s p n Hok Ht Hd Hs Hn; [done|]. cbn in Hn. destruct n as [|n]; [lia|]. cbn [root_of LwRtlRBTreeRemoveAllNodes].
  cbn in Hok. destruct Hok as (Hl & H1 & H2). cbn [locs] in Hd. rewrite !NoDup_cons, NoDup_app in Hd. destruct Hd as (Dn & Dl & D1 & D12 & D2).
  assert (Hsub : forall tt, tt = lt \/ tt = rt -> forall s', pSentinel s' = Some nil -> (exists p, tree_ok nil (rb_heap s') p tt) ->
    exists s'', (if RB_IS_NIL s' (Some (root_of nil tt)) then Some s' else LwRtlRBTreeRemoveAllNodes n s' (Some (root_of nil tt))) = Some s'' /\ disposed (locs tt) (frees s' (postorder tt)) s' s'').
  { intros tt Htt s' Hs' (p' & Hok). unfold RB_IS_NIL. rewrite Hs'. assert (Hcase : tt = Leaf \/ tt <> Leaf) by (destruct tt; auto). destruct Hcase as [->|Hne].
    - rewrite bool_decide_true by done. exists s'. split; [done|apply disposed_refl].
    - assert (Hr : root_of nil tt ∈ locs tt) by (destruct tt; [done|set_solver]). rewrite bool_decide_false by (intros [= E]; rewrite E in Hr; destruct Htt; subst tt; apart).
      destruct Htt as [->| ->]; [apply (IHl s' p' n)|apply (IHr s' p' n)]; try done; try lia; (apply NoDup_cons; split; [apart|done]). }
  rewrite (ldn_eq _ _ _ Hl). cbn [mbind option_bind pLeft]. destruct (Hsub lt ltac:(by left) s Hs ltac:(by exists l)) as (s1 & -> & G1). cbn [mbind option_bind].
  assert (Hl1 : rb_heap s1 !! l = rb_heap s !! l) by (apply (di_rest _ _ _ _ G1); apart). rewrite (ldn_eq _ _ _ (eq_trans Hl1 Hl)). cbn [mbind option_bind pRight].
  destruct (Hsub rt ltac:(by right) s1) as (s2 & -> & G2); [by rewrite (di_sentinel _ _ _ _ G1)| |].
  { exists l. eapply tree_ok_agree; [|exact H2]. intros l' Hl'. apply (di_rest _ _ _ _ G1). intros Hin. by apply (D12 l'). }
  cbn [mbind option_bind]. assert (G12 := disposed_trans _ _ _ _ _ _ _ G1 G2).
  destruct (FreeNode_disposes s2 l c (Some (root_of nil lt)) (Some (root_of nil rt)) (Some p) k d) as (s3 & -> & G3).
  { rewrite (di_rest _ _ _ _ G12) by done. exact Hl. }
  exists s3. split; [done|]. assert (G := disposed_trans _ _ _ _ _ _ _ G12 G3). rewrite (frees_same _ _ _ _ _ G12), (frees_same _ _ _ _ _ G1) in G. destruct G as [A1 A2 A3 A4 A5 A6 A7].
  split; try done; [|intros l' Hl'; apply A6; cbn in Hl'; set_solver|intros l' Hl'; apply A7; cbn in Hl'; set_solver].
  rewrite A5. cbn [postorder]. unfold frees. rewrite !bind_app. by rewrite <- !app_assoc.
Qed.
End Dispose.

(** * The table *)

Section Table.
Context {K D : Type} (pfnCompare : K -> K -> Z).
Implicit Types (t : tree K D) (s : LWRTL_RB_TREE K D) (es freed : list (K * option D)).

(** The entries of [t] are in the tree, in order; no red node has a red child, and
    the root is black. *)
Record holds nil s t : Prop := {
  hd_rep : rep nil ∅ s [] t;
  hd_ordered : ordered pfnCompare (inorder t);
  hd_colored : colored t;
  hd_black : tree_color t = Black
}.
Definition table s es : Prop := exists nil t, holds nil s t /\ inorder t = es.

Inductive rb_op := OpAdd (malloc : bool) (k : option K) (d : option D) | OpRemove (k : K) | OpRemoveAll.

Definition run_op s (op : rb_op) : option (NTSTATUS * LWRTL_RB_TREE K D) :=
  match op with
  | OpAdd malloc k d => LwRtlRBTreeAdd pfnCompare malloc s k d
  | OpRemove k => LwRtlRBTreeRemove pfnCompare s k
  | OpRemoveAll => s ← LwRtlRBTreeRemoveAll s; Some (STATUS_SUCCESS, s)
  end.

(** The operations on the entries alone, with the entries they free. *)
Inductive table_step es : rb_op -> NTSTATUS -> list (K * option D) -> list (K * option D) -> Prop :=
| step_add_null malloc d : table_step es (OpAdd malloc None d) STATUS_INVALID_PARAMETER_2 es []
| step_add_memory k d : table_step es (OpAdd false (Some k) d) STATUS_INSUFFICIENT_RESOURCES es []
| step_add k d : table_step es (OpAdd true (Some k) d) STATUS_SUCCESS (put pfnCompare k d es) []
| step_remove_none k : (forall e, e ∈ es -> pfnCompare k e.1 <> 0) -> table_step es (OpRemove k) STATUS_NOT_FOUND es []
| step_remove k e es1 es2 : es = es1 ++ e :: es2 -> pfnCompare k e.1 = 0 -> table_step es (OpRemove k) STATUS_SUCCESS (es1 ++ es2) [e]
| step_remove_all freed : freed ≡ₚ es -> table_step es OpRemoveAll STATUS_SUCCESS [] freed.

(** After an operation that frees the entries [freed]. *)
Record freeing freed s s' : Prop := {
  fr_freekey : pfnFreeKey s' = pfnFreeKey s;
  fr_freedata : pfnFreeData s' = pfnFreeData s;
  fr_calls : rb_calls s' = rb_calls s ++ frees s freed
}.

Lemma freeing_none s s' : same_calls s s' -> freeing [] s s'.
Proof. intros []. split; [done|done|]. by rewrite sc_calls, app_nil_r. Qed.

Lemma postorder_inorder t : postorder t ≡ₚ inorder t.
Proof. induction t as [|l c lt IHl k d rt IHr]; cbn; [done|]. rewrite IHl, IHr. apply Permutation_app_head. symmetry. apply Permutation_cons_append. Qed.

Lemma preorder_inorder t : preorder t ≡ₚ inorder t.
Proof. induction t as [|l c lt IHl k d rt IHr]; cbn; [done|]. rewrite IHl, IHr. apply Permutation_middle. Qed.

Lemma create_holds fk fd : exists s, LwRtlRBTreeCreate true true true fk fd = (STATUS_SUCCESS, Some s) /\ holds 1%positive s Leaf /\ pfnFreeKey s = fk /\ pfnFreeData s = fd /\ rb_calls s = [].
Proof.
  eexists. split; [done|]. split; [|done]. split; [|constructor|done|done]. split; try done.
  - eexists. split; [apply lookup_singleton_eq|done].
  - split; [apply NoDup_singleton| |done|apply map_empty_subseteq]. cbn. set_solver.
Qed.

Lemma clear_ok nil s t : rep nil ∅ s [] t ->
  exists s', (if bool_decide (pRoot s = None) || RB_IS_NIL s (pRoot s) then Some s else LwRtlRBTreeRemoveAllNodes (fuel_of s) s (pRoot s)) = Some s' /\
    disposed (locs t) (frees s (postorder t)) s s'.
Proof.
  intros H. rewrite (rep_root H). cbn [plug]. rewrite bool_decide_false by done. cbn [orb]. rewrite (rep_is_nil H). destruct t as [|l c lt k d rt] eqn:Et.
  - exists s. split; [done|apply disposed_refl].
  - rewrite <- Et in *. assert (Hn := fp_nodup _ _ _ (rep_cells _ _ _ _ _ H)). unfold cells in Hn. cbn in Hn. rewrite app_nil_r in Hn.
    apply (RemoveAllNodes_ok nil t s nil); [apply (rep_tree _ _ _ _ _ H)|by rewrite Et|done|apply (rep_sentinel H)|].
    assert (Hf := fuel_enough _ _ _ _ _ H). assert (Hh := height_locs t). lia.
Qed.

Lemma cleared_rep nil s s' t calls : rep nil ∅ s [] t -> disposed (locs t) calls s s' -> rep nil ∅ (set_root s' (pSentinel s')) [] Leaf.
Proof.
  intros [H1 H2 H3 H4 (n & Hn & Hb) [F1 F2 F3 F4]] [A1 A2 A3 A4 A5 A6 A7]. unfold cells in *. cbn in F1, F2. rewrite app_nil_r in F1, F2. apply NoDup_cons in F1 as [F1 _].
  split; cbn; try done; [congruence|congruence|exists n; by rewrite A7|]. split; [apply NoDup_singleton| |done|apply map_empty_subseteq].
  apply set_eq. intros l. rewrite elem_of_dom. destruct (decide (l ∈ locs t)) as [Hl|Hl].
  - rewrite A6 by done. split; [by intros []|]. unfold cells. set_solver.
  - rewrite A7, <- elem_of_dom, F2 by done. unfold cells. set_solver.
Qed.

Section Laws.
Context `{!CompareOrder pfnCompare}.

Lemma add_holds nil s t k d : holds nil s t ->
  exists s' t', LwRtlRBTreeAdd pfnCompare true s (Some k) d = Some (STATUS_SUCCESS, s') /\ holds nil s' t' /\ inorder t' = put pfnCompare k d (inorder t) /\ same_calls s s' /\
    (red_black t -> red_black t').
Proof using Type*.
  intros [H1 H2 H3 H4]. destruct (LwRtlRBTreeAdd_spec pfnCompare nil s t k d H1 H4) as (s' & E & H & S). do 2 eexists. split; [exact E|]. split; [|split; [by apply add_tree_inorder|split; [done|apply add_tree_red_black]]].
  split; [done| |by apply add_tree_colored|apply tree_color_black]. rewrite add_tree_inorder by done. by apply put_ordered.
Qed.

Lemma ordered_remove es1 e es2 : ordered pfnCompare (es1 ++ e :: es2) -> ordered pfnCompare (es1 ++ es2).
Proof.
  unfold ordered. rewrite !StronglySorted_app. intros (H1 & H2 & H3). apply StronglySorted_inv in H3 as [H3 _]. split; [|done]. intros x1 x2 Hx1 Hx2. apply H1; set_solver.
Qed.

Lemma remove_holds nil s t k : holds nil s t ->
  exists st s' t' freed, LwRtlRBTreeRemove pfnCompare s k = Some (st, s') /\ holds nil s' t' /\ table_step (inorder t) (OpRemove k) st (inorder t') freed /\ freeing freed s s'.
Proof using Type*.
  intros [H1 H2 H3 H4]. destruct (find_zip pfnCompare k t []) as [[ctx x]|] eqn:Hz.
  - destruct (find_zip_plug _ _ _ _ _ _ Hz) as [Hp (l & c & lt & k' & d & rt & -> & Hk)]. destruct (LwRtlRBTreeRemove_some _ _ _ _ _ _ _ _ _ _ _ _ H1 Hz) as (s' & E & Hr & F1 & F2 & F3).
    cbn [plug] in Hp. destruct (remove_tree_inorder l c lt k' d rt ctx) as (es1 & es2 & E1 & E2). rewrite Hp in E1.
    exists STATUS_SUCCESS, s', (remove_tree (Node l c lt k' d rt) ctx), [(k', d)]. rewrite <- Hp in H3, H4. destruct (remove_tree_colored _ _ _ _ _ _ _ H3 H4) as [C1 C2].
    split; [done|]. split; [|split; [rewrite E1, E2; by econstructor|split; [done|done|rewrite F3; unfold frees; cbn; by rewrite app_nil_r]]].
    split; [done| |done|done]. rewrite E2. rewrite E1 in H2. by eapply ordered_remove.
  - exists STATUS_NOT_FOUND, s, t, []. split; [by eapply LwRtlRBTreeRemove_none|]. split; [done|]. split; [constructor; by eapply find_zip_complete|by apply freeing_none].
Qed.

Lemma op_holds nil s t op : holds nil s t ->
  exists st s' t' freed, run_op s op = Some (st, s') /\ holds nil s' t' /\ table_step (inorder t) op st (inorder t') freed /\ freeing freed s s'.
Proof using Type*.
  intros H. destruct op as [malloc k d|k|]; cbn [run_op].
  - destruct k as [k|]; [|exists STATUS_INVALID_PARAMETER_2, s, t, []; split; [done|]; split; [done|]; split; [constructor|by apply freeing_none]].
    destruct malloc; [|exists STATUS_INSUFFICIENT_RESOURCES, s, t, []; split; [done|]; split; [done|]; split; [constructor|by apply freeing_none]].
    destruct (add_holds nil s t k d H) as (s' & t' & E & H' & Hp & S & _). exists STATUS_SUCCESS, s', t', []. split; [done|]. split; [done|]. rewrite Hp. split; [constructor|by apply freeing_none].
  - by apply remove_holds.
  - destruct H as [H1 H2 H3 H4]. unfold LwRtlRBTreeRemoveAll. destruct (clear_ok _ _ _ H1) as (s' & -> & G). cbn [mbind option_bind].
    eexists STATUS_SUCCESS, _, Leaf, (postorder t). split; [done|]. split; [split; [by eapply cleared_rep|constructor|done|done]|]. split; [constructor; apply postorder_inorder|].
    destruct G as [A1 A2 A3 A4 A5 A6 A7]. by split.
Qed.
End Laws.

(** * Runs *)

Fixpoint run_ops s (ops : list rb_op) : option (list NTSTATUS * LWRTL_RB_TREE K D) :=
  match ops with
  | [] => Some ([], s)
  | op :: ops => '(st, s) ← run_op s op; '(sts, s) ← run_ops s ops; Some (st :: sts, s)
  end.

Inductive table_run : list (K * option D) -> list rb_op -> list NTSTATUS -> list (K * option D) -> list (K * option D) -> Prop :=
| run_nil es : table_run es [] [] es []
| run_cons es op st es1 freed1 ops sts es2 freed2 :
    table_step es op st es1 freed1 -> table_run es1 ops sts es2 freed2 -> table_run es (op :: ops) (st :: sts) es2 (freed1 ++ freed2).

Lemma freeing_trans f1 f2 s s1 s2 : freeing f1 s s1 -> freeing f2 s1 s2 -> freeing (f1 ++ f2) s s2.
Proof.
  intros [A1 A2 A3] [B1 B2 B3]. split; [congruence|congruence|]. rewrite B3, A3, <- app_assoc. f_equal. unfold frees, free_calls. rewrite bind_app, A1, A2. done.
Qed.

Lemma run_holds `{!CompareOrder pfnCompare} nil ops : forall s t, holds nil s t ->
  exists sts s' t' freed, run_ops s ops = Some (sts, s') /\ holds nil s' t' /\ table_run (inorder t) ops sts (inorder t') freed /\ freeing freed s s'.
Proof.
  induction ops as [|op ops IH]; intros s t H.
  - exists [], s, t, []. split; [done|]. split; [done|]. split; [constructor|by apply freeing_none].
  - destruct (op_holds nil s t op H) as (st & s1 & t1 & f1 & E1 & H1 & T1 & F1). destruct (IH s1 t1 H1) as (sts & s2 & t2 & f2 & E2 & H2 & T2 & F2).
    exists (st :: sts), s2, t2, (f1 ++ f2). cbn [run_ops]. rewrite E1. cbn [mbind option_bind]. rewrite E2. split; [done|]. split; [done|]. split; [by econstructor|by eapply freeing_trans].
Qed.

Lemma adds_balanced `{!CompareOrder pfnCompare} nil ops : forall s t, holds nil s t -> red_black t -> (forall k, OpRemove k ∉ ops) -> OpRemoveAll ∉ ops ->
  exists sts s' t', run_ops s ops = Some (sts, s') /\ holds nil s' t' /\ red_black t'.
Proof.
  induction ops as [|op ops IH]; intros s t H Hb Hr Ha; [by exists [], s, t|].
  assert (Hop : exists st s1 t1, run_op s op = Some (st, s1) /\ holds nil s1 t1 /\ red_black t1).
  { destruct op as [malloc k d|k|]; [|exfalso; apply (Hr k); set_solver|exfalso; set_solver]. destruct k as [k|]; [|by exists STATUS_INVALID_PARAMETER_2, s, t].
    destruct malloc; [|by exists STATUS_INSUFFICIENT_RESOURCES, s, t]. destruct (add_holds nil s t k d H) as (s' & t' & E & H' & _ & _ & Hrb). exists STATUS_SUCCESS, s', t'. auto. }
  destruct Hop as (st & s1 & t1 & E1 & H1 & B1). destruct (IH s1 t1 H1 B1) as (sts & s2 & t2 & E2 & H2 & B2); [set_solver|set_solver|].
  exists (st :: sts), s2, t2. cbn [run_ops]. rewrite E1. cbn [mbind option_bind]. by rewrite E2.
Qed.

Lemma inorder_locs t : length (inorder t) = length (locs t).
Proof. induction t as [|l c lt IHl k d rt IHr]; cbn; [done|]. rewrite !length_app. cbn. lia. Qed.

Lemma holds_size nil s t : holds nil s t -> size (rb_heap s) = S (length (inorder t)).
Proof.
  intros [[_ _ _ _ _ [F1 F2 _ _]] _ _ _]. rewrite <- size_dom, F2, dom_empty_L, union_empty_r_L, size_list_to_set by done. unfold cells. cbn. by rewrite app_nil_r, inorder_locs.
Qed.
End Table.

(** C11: a red-black tree is a table of entries in the order of their keys. From its
    creation on, any sequence of additions, removals and clearings runs without a
    fault and does to the entries, with the same statuses, what the operations on an
    ordered list of entries do: an addition goes after the entries that are not
    greater, a removal takes out one entry with an equal key, if there is one. What
    is taken out is freed, in turn; the heap has a node for each entry and one more;
    no red node has a red child, and the root is black. *)
Theorem rbtree_refines {K D : Type} (pfnCompare : K -> K -> Z) `{!CompareOrder pfnCompare} (fk fd : bool) (ops : list (rb_op (K := K) (D := D))) :
  exists s0 sts s es freed,
    LwRtlRBTreeCreate true true true fk fd = (STATUS_SUCCESS, Some s0) /\
    run_ops pfnCompare s0 ops = Some (sts, s) /\ table_run pfnCompare [] ops sts es freed /\
    table pfnCompare s es /\ rb_calls s = frees s freed /\ size (rb_heap s) = S (length es).
Proof.
  destruct (create_holds (D := D) pfnCompare fk fd) as (s0 & E0 & H0 & _ & _ & Hc). destruct (run_holds pfnCompare _ ops s0 Leaf H0) as (sts & s & t & freed & E & H & T & [F1 F2 F3]).
  exists s0, sts, s, (inorder t), freed. split; [done|]. split; [done|]. split; [done|]. split; [by do 2 eexists|]. split; [|by eapply holds_size].
  rewrite F3, Hc. unfold frees, free_calls. by rewrite F1, F2.
Qed.

Lemma rbtree_refines_witness :
  CompareOrder Z.sub /\
  exists s0 sts s es freed,
    LwRtlRBTreeCreate true true true true true = (STATUS_SUCCESS, Some s0) /\
    run_ops Z.sub s0 [OpAdd true (Some 3) (Some 30); OpAdd true (Some 1) None; OpRemove 3; OpRemove 7; OpRemoveAll] = Some (sts, s) /\
    table_run Z.sub [] [OpAdd true (Some 3) (Some 30); OpAdd true (Some 1) None; OpRemove 3; OpRemove 7; OpRemoveAll] sts es freed /\
    table Z.sub s es /\ rb_calls s = frees s freed /\ size (rb_heap s) = S (length es).
Proof. split; [exact Zsub_order|]. apply (rbtree_refines Z.sub true true). Defined.

(** a search finds the data of an entry with an equal key, and fails only when
    there is none. *)
Theorem LwRtlRBTreeFind_correct {K D : Type} (pfnCompare : K -> K -> Z) `{!CompareOrder pfnCompare} (s : LWRTL_RB_TREE K D) es k :
  table pfnCompare s es ->
  (exists k' d, (k', d) ∈ es /\ pfnCompare k k' = 0 /\ LwRtlRBTreeFind pfnCompare s k = Some (STATUS_SUCCESS, d)) \/
  (forall e, e ∈ es -> pfnCompare k e.1 <> 0) /\ LwRtlRBTreeFind pfnCompare s k = Some (STATUS_NOT_FOUND, None).
Proof.
  intros (nil & t & [H1 H2 H3 H4] & <-). rewrite (LwRtlRBTreeFind_ok _ _ _ _ _ _ H1). destruct (find_zip pfnCompare k t []) as [[ctx x]|] eqn:Hz.
  - left. destruct (find_zip_plug _ _ _ _ _ _ Hz) as [Hp (l & c & lt & k' & d & rt & -> & Hk)]. exists k', d. split; [|done]. cbn in Hp. rewrite <- Hp.
    destruct (inorder_split ctx) as (es1 & es2 & ->). cbn. set_solver.
  - right. split; [by eapply find_zip_complete|done].
Qed.

(** A tree with the keys given, in turn, from its creation. *)
Definition tree_of (keys : list Z) : option (LWRTL_RB_TREE Z Z) :=
  match LwRtlRBTreeCreate true true true false false with
  | (_, Some s) => snd <$> run_ops Z.sub s ((fun k => OpAdd true (Some k) (Some (k * 10))) <$> keys)
  | _ => None
  end.

Lemma tree_of_table keys : exists s es, tree_of keys = Some s /\ table Z.sub s es.
Proof.
  destruct (create_holds (D := Z) Z.sub false false) as (s0 & E0 & H0 & _). destruct (run_holds Z.sub _ ((fun k => OpAdd true (Some k) (Some (k * 10))) <$> keys) s0 Leaf H0) as (sts & s & t & freed & E & H & _).
  exists s, (inorder t). unfold tree_of. rewrite E0, E. split; [done|by do 2 eexists].
Qed.

Lemma LwRtlRBTreeFind_correct_witness :
  exists s es, tree_of [2; 1; 3] = Some s /\ table Z.sub s es /\
  ((exists k' d, (k', d) ∈ es /\ 3 - k' = 0 /\ LwRtlRBTreeFind Z.sub s 3 = Some (STATUS_SUCCESS, d)) \/
   (forall e, e ∈ es -> 3 - e.1 <> 0) /\ LwRtlRBTreeFind Z.sub s 3 = Some (STATUS_NOT_FOUND, None)).
Proof.
  destruct (tree_of_table [2; 1; 3]) as (s & es & E & H). exists s, es. split; [exact E|]. split; [exact H|]. apply (LwRtlRBTreeFind_correct Z.sub s es 3 H).
Defined.

(** C23: a tree that only additions have built is balanced: from the root down, no way
    is more than twice as long as the logarithm of the number of entries, so that a
    search among [n] entries makes at most [2 log2 (n + 1)] comparisons. *)
Theorem rbtree_adds_balanced {K D : Type} (pfnCompare : K -> K -> Z) `{!CompareOrder pfnCompare} (fk fd : bool) (ops : list (rb_op (K := K) (D := D))) :
  (forall k, OpRemove k ∉ ops) -> OpRemoveAll ∉ ops ->
  exists s0 sts s nil t,
    LwRtlRBTreeCreate true true true fk fd = (STATUS_SUCCESS, Some s0) /\ run_ops pfnCompare s0 ops = Some (sts, s) /\
    rep nil ∅ s [] t /\ red_black t /\ (2 ^ Nat.div2 (S (height t)) <= S (length (inorder t)))%nat.
Proof.
  intros Hr Ha. destruct (create_holds (D := D) pfnCompare fk fd) as (s0 & E0 & H0 & _). destruct (adds_balanced pfnCompare _ ops s0 Leaf H0) as (sts & s & t & E & H & B); [|done|done|].
  { split; [done|]. split; [done|]. by exists O. }
  exists s0, sts, s, 1%positive, t. split; [done|]. split; [done|]. split; [apply H|]. split; [done|]. rewrite inorder_locs. by apply red_black_height.
Qed.

Lemma rbtree_adds_balanced_witness :
  let ops := (fun k => OpAdd true (Some k) (Some k)) <$> [5; 1; 4; 2; 3] in
  (forall k, OpRemove k ∉ ops) /\ (OpRemoveAll ∉ ops) /\
  exists s0 sts s nil t,
    LwRtlRBTreeCreate true true true false false = (STATUS_SUCCESS, Some s0) /\ run_ops Z.sub s0 ops = Some (sts, s) /\
    rep nil ∅ s [] t /\ red_black t /\ (2 ^ Nat.div2 (S (height t)) <= S (length (inorder t)))%nat.
Proof.
  intros ops. assert (H1 : forall k, OpRemove k ∉ ops) by set_solver. assert (H2 : OpRemoveAll ∉ ops) by set_solver. split; [exact H1|]. split; [exact H2|].
  apply (rbtree_adds_balanced Z.sub false false ops H1 H2).
Defined.

(** * Where the colors go wrong *)

(** The number of black nodes on every way down from a node, if they agree. *)
Fixpoint black_count {K D : Type} (n : nat) (s : LWRTL_RB_TREE K D) (x : nptr) : option nat :=
  match n with
  | O => None
  | S n =>
      if RB_IS_NIL s x then Some O
      else
        nx ← ldn s x; a ← black_count n s (pLeft nx); b ← black_count n s (pRight nx);
        if (a =? b)%nat then Some (match color nx with Red => a | Black => S a end) else None
  end.

(** a removal can leave the tree out of balance. The step that lifts the sibling
    of the node removed means to give it the color of their parent, and gives it its
    own ([RB_COPY_COLOR] ignores its second argument). With the keys 1 to 6, added in
    order, every way down meets two black nodes; without 3, they differ. *)
Theorem remove_unbalances :
  exists s s', tree_of [1; 2; 3; 4; 5; 6] = Some s /\ black_count 10 s (pRoot s) = Some 2%nat /\
    LwRtlRBTreeRemove Z.sub s 3 = Some (STATUS_SUCCESS, s') /\ black_count 10 s' (pRoot s') = None.
Proof. eexists _, _. split; [vm_compute; reflexivity|]. split; [vm_compute; reflexivity|]. split; [vm_compute; reflexivity|]. vm_compute. reflexivity. Qed.

(** * Traversal and disposal of a table *)

(** a traversal in order visits the entries in order, up to the first visit that
    fails, whose status it returns, and does so whatever the visitor does as long as
    it does not ask to stop. A traversal in preorder also stops when asked to. *)
Theorem LwRtlRBTreeTraverse_correct {K D U : Type} (pfnCompare : K -> K -> Z) (pfnVisit : option K -> option D -> U -> bool -> NTSTATUS * U * bool) (s : LWRTL_RB_TREE K D) es u :
  table pfnCompare s es ->
  (never_stops pfnVisit -> LwRtlRBTreeTraverse pfnVisit s TYPE_IN_ORDER u = Some (walk pfnVisit es u true).1 /\
    exists es', es' ≡ₚ es /\ LwRtlRBTreeTraverse pfnVisit s TYPE_POST_ORDER u = Some (walk pfnVisit es' u true).1) /\
  exists es', es' ≡ₚ es /\ LwRtlRBTreeTraverse pfnVisit s TYPE_PRE_ORDER u = Some (walk pfnVisit es' u true).1.
Proof.
  intros (nil & t & [H _ _ _] & <-). split; [intros Hn; split|].
  - by apply (LwRtlRBTreeTraverse_ok pfnVisit nil TYPE_IN_ORDER ∅); [right|].
  - exists (postorder t). split; [apply postorder_inorder|]. by apply (LwRtlRBTreeTraverse_ok pfnVisit nil TYPE_POST_ORDER ∅); [right|].
  - exists (preorder t). split; [apply preorder_inorder|]. by apply (LwRtlRBTreeTraverse_ok pfnVisit nil TYPE_PRE_ORDER ∅); [left|].
Qed.

(** A visitor that keeps the keys it sees and goes on, or stops after the first. *)
Definition note (go_on : bool) (k : option Z) (_ : option Z) (seen : list Z) (_ : bool) : NTSTATUS * list Z * bool :=
  (STATUS_SUCCESS, seen ++ option_list k, go_on).

Lemma LwRtlRBTreeTraverse_correct_witness :
  exists s es, tree_of [2; 1; 3] = Some s /\ table Z.sub s es /\ never_stops (note true) /\
  (LwRtlRBTreeTraverse (note true) s TYPE_IN_ORDER [] = Some (walk (note true) es [] true).1) /\
  exists es', es' ≡ₚ es /\ LwRtlRBTreeTraverse (note true) s TYPE_PRE_ORDER [] = Some (walk (note true) es' [] true).1.
Proof.
  destruct (tree_of_table [2; 1; 3]) as (s & es & E & H). exists s, es. split; [exact E|]. split; [exact H|]. assert (Hn : never_stops (note true)) by (intros ? ? ?; reflexivity). split; [exact Hn|].
  destruct (LwRtlRBTreeTraverse_correct Z.sub (note true) s es [] H) as [H1 H2]. split; [apply (H1 Hn)|exact H2].
Defined.

(** a visitor that asks to stop is still called for the nodes above the one it
    stopped at, in order and in postorder: only the subtrees are skipped. Asked to
    stop at once, a traversal of the keys 1 to 3 in order goes on to 2. *)
Theorem traverse_ignores_stop :
  exists s, tree_of [2; 1; 3] = Some s /\
    LwRtlRBTreeTraverse (note false) s TYPE_PRE_ORDER [] = Some (STATUS_SUCCESS, [2]) /\
    LwRtlRBTreeTraverse (note false) s TYPE_IN_ORDER [] = Some (STATUS_SUCCESS, [1; 2]) /\
    LwRtlRBTreeTraverse (note false) s TYPE_POST_ORDER [] = Some (STATUS_SUCCESS, [1; 2]).
Proof. eexists. split; [vm_compute; reflexivity|]. vm_compute. done. Qed.

(** a tree that is freed leaves nothing in the heap, and the keys and the data of
    all its entries have been freed, each once. *)
Theorem LwRtlRBTreeFree_correct {K D : Type} (pfnCompare : K -> K -> Z) (s : LWRTL_RB_TREE K D) es :
  table pfnCompare s es ->
  exists freed, freed ≡ₚ es /\ LwRtlRBTreeFree s = Some (∅, rb_calls s ++ frees s freed).
Proof.
  intros (nil & t & [H _ _ _] & <-). exists (postorder t). split; [apply postorder_inorder|]. unfold LwRtlRBTreeFree. destruct (clear_ok _ _ _ H) as (s' & -> & G). cbn [mbind option_bind].
  assert (H' := cleared_rep _ _ _ _ _ H G). destruct G as [A1 A2 A3 A4 A5 A6 A7]. rewrite A5, A1, (rep_sentinel H). do 2 f_equal. apply map_empty. intros l.
  destruct H' as [_ _ _ _ _ [_ F2 _ _]]. cbn in F2. destruct (decide (l = nil)) as [->|Hl]; [apply lookup_delete_eq|]. rewrite lookup_delete_ne by done. apply not_elem_of_dom. rewrite F2. unfold cells. cbn. set_solver.
Qed.

Lemma LwRtlRBTreeFree_correct_witness :
  exists s es, tree_of [2; 1; 3] = Some s /\ table Z.sub s es /\ exists freed, freed ≡ₚ es /\ LwRtlRBTreeFree s = Some (∅, rb_calls s ++ frees s freed).
Proof.
  destruct (tree_of_table [2; 1; 3]) as (s & es & E & H). exists s, es. split; [exact E|]. split; [exact H|]. apply (LwRtlRBTreeFree_correct Z.sub s es H).
Defined.
