(* ===== verification/Hash.v ===== *)
(** The hash tables and hash maps of [lwbase/src/hash.c]. The nodes live in a heap;
    a table has an array of pointers to the first node of each chain. A pointer to a
    pointer is a bucket of the array or the [pNext] of a node. Following a null or a
    freed pointer is a fault ([None]). *)

From stdpp Require Import gmap.
From S2P Require Import Prelude SecurityTypes Text Wc16Str RtlString.

(** * Data *)

Section Table.
Context {A K : Type}.

(** A node and what it is embedded in. *)
Record LW_HASHTABLE_NODE := mk_hnode { h_pNext : nptr; ulDigest : Z; h_body : A }.
Abbreviation nodes := (gmap loc LW_HASHTABLE_NODE).

(** A table and the heap its nodes live in. *)
Record LW_HASHTABLE := mk_ht {
  ht_nodes : nodes;
  ulSize : Z;
  ulThreshold : Z;
  ulCount : Z;
  ppBuckets : list nptr
}.

Definition set_nodes (t : LW_HASHTABLE) (h : nodes) : LW_HASHTABLE := mk_ht h (ulSize t) (ulThreshold t) (ulCount t) (ppBuckets t).
Definition set_count (t : LW_HASHTABLE) (c : Z) : LW_HASHTABLE := mk_ht (ht_nodes t) (ulSize t) (ulThreshold t) c (ppBuckets t).
Definition set_buckets (t : LW_HASHTABLE) (b : list nptr) : LW_HASHTABLE := mk_ht (ht_nodes t) (ulSize t) (ulThreshold t) (ulCount t) b.
Definition set_threshold (t : LW_HASHTABLE) (x : Z) : LW_HASHTABLE := mk_ht (ht_nodes t) (ulSize t) x (ulCount t) (ppBuckets t).

Record LW_HASHTABLE_ITER := mk_iter { it_pNext : nptr; ulIndex : Z }.

(** [RESIZE_THRESHOLD]: the product is computed in 64 bits. *)
Definition RESIZE_THRESHOLD (size : Z) : Z := u32 (size * 80 / 100).

(** What a [PLW_HASHTABLE_NODE*] points to. *)
Inductive slot := BucketOf (i : Z) | NextOf (l : loc).

Definition read_slot (t : LW_HASHTABLE) (s : slot) : option nptr :=
  match s with
  | BucketOf i => ppBuckets t !! Z.to_nat i
  | NextOf l => n ← ht_nodes t !! l; Some (h_pNext n)
  end.

Definition set_next (p : nptr) (n : LW_HASHTABLE_NODE) : LW_HASHTABLE_NODE := mk_hnode p (ulDigest n) (h_body n).
Definition set_digest (d : Z) (n : LW_HASHTABLE_NODE) : LW_HASHTABLE_NODE := mk_hnode (h_pNext n) d (h_body n).
Definition store_node (t : LW_HASHTABLE) (l : loc) (f : LW_HASHTABLE_NODE -> LW_HASHTABLE_NODE) : option LW_HASHTABLE :=
  n ← ht_nodes t !! l; Some (set_nodes t (<[l := f n]> (ht_nodes t))).

Definition write_slot (t : LW_HASHTABLE) (s : slot) (p : nptr) : option LW_HASHTABLE :=
  match s with
  | BucketOf i => _ ← ppBuckets t !! Z.to_nat i; Some (set_buckets t (<[Z.to_nat i := p]> (ppBuckets t)))
  | NextOf l => store_node t l (set_next p)
  end.

(** The bucket a digest selects; a division by zero is a fault. *)
Definition bucket_of (t : LW_HASHTABLE) (digest : Z) : option slot :=
  if ulSize t =? 0 then None else Some (BucketOf (digest mod ulSize t)).

(** A chain has no more nodes than the heap. *)
Definition chain_fuel (t : LW_HASHTABLE) : nat := S (size (ht_nodes t)).

(** * Hash tables *)

(** [ppTable] and the functions are given (true) or null; [malloc1] and [malloc2]
    tell whether there is memory for the table and for its buckets. *)
Definition LwRtlCreateHashTable (malloc1 malloc2 : bool) (h : nodes) (ppTable pfnGetKey pfnDigest pfnEqual : bool) (size : Z) : NTSTATUS * option LW_HASHTABLE :=
  if negb ppTable || negb pfnGetKey || negb pfnDigest || negb pfnEqual || (size <? 1) then (STATUS_INVALID_PARAMETER, None)
  else if negb malloc1 then (STATUS_INSUFFICIENT_RESOURCES, None)
  else if negb malloc2 then (STATUS_INSUFFICIENT_RESOURCES, None)
  else (STATUS_SUCCESS, Some (mk_ht h size (RESIZE_THRESHOLD size) 0 (replicate (Z.to_nat size) None))).

Section Functions.
Context (pfnGetKey : A -> K) (pfnDigest : K -> Z) (pfnEqual : K -> K -> bool).

(** The loop of [HashLookup]: the slot that leads to the node with the key, or the
    one at the end of the chain. *)
Fixpoint lookup_loop (n : nat) (pTable : LW_HASHTABLE) (pKey : K) (digest : Z) (ppNode : slot) : option (NTSTATUS * slot) :=
  match n with
  | O => None
  | S n' =>
      p ← read_slot pTable ppNode;
      match p with
      | None => Some (STATUS_NOT_FOUND, ppNode)
      | Some l =>
          pNode ← ht_nodes pTable !! l;
          if (ulDigest pNode =? digest) && pfnEqual pKey (pfnGetKey (h_body pNode)) then Some (STATUS_SUCCESS, ppNode)
          else lookup_loop n' pTable pKey digest (NextOf l)
      end
  end.
Definition HashLookup (pTable : LW_HASHTABLE) (pKey : K) (digest : Z) : option (NTSTATUS * slot) :=
  b ← bucket_of pTable digest; lookup_loop (chain_fuel pTable) pTable pKey digest b.

Fixpoint locate_loop (n : nat) (pTable : LW_HASHTABLE) (pNode : loc) (ppNode : slot) : option (NTSTATUS * option slot) :=
  match n with
  | O => None
  | S n' =>
      p ← read_slot pTable ppNode;
      match p with
      | None => Some (STATUS_NOT_FOUND, None)
      | Some l => if bool_decide (l = pNode) then Some (STATUS_SUCCESS, Some ppNode) else locate_loop n' pTable pNode (NextOf l)
      end
  end.
Definition HashLocate (pTable : LW_HASHTABLE) (pNode : loc) : option (NTSTATUS * option slot) :=
  n ← ht_nodes pTable !! pNode;
  b ← bucket_of pTable (ulDigest n);
  locate_loop (chain_fuel pTable) pTable pNode b.

(** The table and what is stored in [*ppPrevNode], if anything is. *)
Definition LwRtlHashTableInsert (pTable : LW_HASHTABLE) (pNode : loc) : option (LW_HASHTABLE * nptr) :=
  n ← ht_nodes pTable !! pNode;
  let pKey := pfnGetKey (h_body n) in
  t ← store_node pTable pNode (set_digest (pfnDigest pKey));
  '(status, ppNode) ← HashLookup t pKey (pfnDigest pKey);
  if is_ok status then
    prev ← read_slot t ppNode;
    l ← prev;
    m ← ht_nodes t !! l;
    t ← store_node t pNode (set_next (h_pNext m));
    t ← write_slot t ppNode (Some pNode);
    Some (t, prev)
  else
    t ← store_node t pNode (set_next None);
    t ← write_slot t ppNode (Some pNode);
    Some (set_count t (u32 (ulCount t + 1)), None).

Definition LwRtlHashTableRemove (pTable : option LW_HASHTABLE) (pNode : nptr) : option (NTSTATUS * option LW_HASHTABLE) :=
  match pTable, pNode with
  | Some t, Some l =>
      '(status, ppNode) ← HashLocate t l;
      if is_ok status then
        s ← ppNode;
        n ← ht_nodes t !! l;
        t ← write_slot t s (h_pNext n);
        Some (STATUS_SUCCESS, Some (set_count t (u32 (ulCount t - 1))))
      else Some (status, Some t)
  | _, _ => Some (STATUS_INVALID_PARAMETER, pTable)
  end.

(** The status and [*ppNode]. *)
Definition LwRtlHashTableFindKey (pTable : option LW_HASHTABLE) (pKey : K) : option (NTSTATUS * nptr) :=
  match pTable with
  | None => Some (STATUS_INVALID_PARAMETER, None)
  | Some t =>
      '(status, ppFound) ← HashLookup t pKey (pfnDigest pKey);
      if is_ok status then p ← read_slot t ppFound; Some (status, p) else Some (status, None)
  end.

Definition LwRtlHashTableResetIter : LW_HASHTABLE_ITER := mk_iter None 0.

(** The loop of [LwRtlHashTableIterate], over the buckets that are left. *)
Fixpoint iterate_loop (n : nat) (pTable : LW_HASHTABLE) (index : Z) : option (nptr * LW_HASHTABLE_ITER) :=
  match n with
  | O => Some (None, mk_iter None index)
  | S n' =>
      p ← ppBuckets pTable !! Z.to_nat index;
      match p with
      | Some l => n ← ht_nodes pTable !! l; Some (Some l, mk_iter (h_pNext n) (index + 1))
      | None => iterate_loop n' pTable (index + 1)
      end
  end.
Definition LwRtlHashTableIterate (pTable : LW_HASHTABLE) (pIter : LW_HASHTABLE_ITER) : option (nptr * LW_HASHTABLE_ITER) :=
  match it_pNext pIter with
  | Some l => n ← ht_nodes pTable !! l; Some (Some l, mk_iter (h_pNext n) (ulIndex pIter))
  | None => iterate_loop (Z.to_nat (ulSize pTable - ulIndex pIter)) pTable (ulIndex pIter)
  end.

Definition LwRtlHashTableGetSize (pTable : LW_HASHTABLE) : Z := ulSize pTable.
Definition LwRtlHashTableGetCount (pTable : LW_HASHTABLE) : Z := ulCount pTable.

(** The loops of [LwRtlHashTableResize]: a chain of the old array, and all of them. *)
Fixpoint rehash_chain (n : nat) (pTable : LW_HASHTABLE) (pNode : nptr) : option LW_HASHTABLE :=
  match pNode with
  | None => Some pTable
  | Some l =>
      match n with
      | O => None
      | S n' =>
          m ← ht_nodes pTable !! l;
          '(t, _) ← LwRtlHashTableInsert pTable l;
          rehash_chain n' t (h_pNext m)
      end
  end.
Fixpoint rehash (pTable : LW_HASHTABLE) (ppOldBuckets : list nptr) : option LW_HASHTABLE :=
  match ppOldBuckets with
  | [] => Some pTable
  | p :: ps => t ← rehash_chain (chain_fuel pTable) pTable p; rehash t ps
  end.

Definition LwRtlHashTableResize (malloc : bool) (pTable : option LW_HASHTABLE) (size : Z) : option (NTSTATUS * option LW_HASHTABLE) :=
  match pTable with
  | None => Some (STATUS_INVALID_PARAMETER, None)
  | Some t =>
      if size <? 1 then Some (STATUS_INVALID_PARAMETER, pTable)
      else if negb malloc then Some (STATUS_INSUFFICIENT_RESOURCES, pTable)
      else
        t' ← rehash (mk_ht (ht_nodes t) size (ulThreshold t) 0 (replicate (Z.to_nat size) None)) (ppBuckets t);
        Some (STATUS_SUCCESS, Some (set_threshold t' (RESIZE_THRESHOLD size)))
  end.

(** The status of the resizing is not looked at. *)
Definition LwRtlHashTableResizeAndInsert (malloc : bool) (pTable : LW_HASHTABLE) (pNode : loc) : option (LW_HASHTABLE * nptr) :=
  t ← (if ulThreshold pTable <=? ulCount pTable then '(_, t) ← LwRtlHashTableResize malloc (Some pTable) (u32 (ulSize pTable * 2)); t
       else Some pTable);
  LwRtlHashTableInsert t pNode.

(** [pFree] acts on the nodes and on a state of its own. The loop ends after as many
    turns as there are nodes. *)
Section Clear.
Context {W : Type}.

Fixpoint clear_loop (n : nat) (pFree : loc -> nodes -> W -> option (nodes * W)) (t : LW_HASHTABLE) (iter : LW_HASHTABLE_ITER) (w : W) : option (LW_HASHTABLE * W) :=
  match n with
  | O => None
  | S n' =>
      '(pNode, iter) ← LwRtlHashTableIterate t iter;
      match pNode with
      | None => Some (t, w)
      | Some l => '(h, w) ← pFree l (ht_nodes t) w; clear_loop n' pFree (set_nodes t h) iter w
      end
  end.

Definition LwRtlHashTableClear (pTable : LW_HASHTABLE) (pFree : option (loc -> nodes -> W -> option (nodes * W))) (w : W) : option (LW_HASHTABLE * W) :=
  '(t, w) ← (match pFree with
             | Some pFree => clear_loop (chain_fuel pTable) pFree pTable LwRtlHashTableResetIter w
             | None => Some (pTable, w)
             end);
  Some (set_count (set_buckets t (replicate (Z.to_nat (ulSize t)) None)) 0, w).
End Clear.

(** The heap when the table is gone. *)
Definition LwRtlFreeHashTable (pTable : LW_HASHTABLE) : nodes := ht_nodes pTable.
End Functions.
End Table.

Arguments LW_HASHTABLE_NODE : clear implicits.
Arguments LW_HASHTABLE : clear implicits.

(** * Hash maps *)

Section Map.
Context {K V : Type} (pfnDigest : K -> Z) (pfnEqual : K -> K -> bool).

(** The pairs; a map is a table of them. *)
Abbreviation pair := (K * V)%type.
Abbreviation hashmap := (LW_HASHTABLE pair).

Definition HashPairNodeGetKey (p : pair) : K := p.1.

(** The callback logs the pairs it gets; without one, the call is a fault. *)
Definition HashPairFreeNode (pFree : bool) (l : loc) (h : gmap loc (LW_HASHTABLE_NODE pair)) (log : list pair) : option (gmap loc (LW_HASHTABLE_NODE pair) * list pair) :=
  n ← h !! l;
  if negb pFree then None else Some (delete l h, log ++ [h_body n]).

Definition LwRtlCreateHashMap (malloc1 malloc2 : bool) (has_digest has_equal : bool) : NTSTATUS * option hashmap :=
  LwRtlCreateHashTable malloc1 malloc2 ∅ true true has_digest has_equal 17.

(** The status, the map and [*pPrevPair], [None] for a pair of null pointers. *)
Definition LwRtlHashMapInsert (malloc_node malloc_array : bool) (pMap : option hashmap) (k : K) (v : V) : option (NTSTATUS * option hashmap * option pair) :=
  match pMap with
  | None => Some (STATUS_INVALID_PARAMETER, None, None)
  | Some t =>
      if negb malloc_node then Some (STATUS_INSUFFICIENT_RESOURCES, pMap, None)
      else
        let l := fresh (dom (ht_nodes t)) in
        '(t, pPrevNode) ← LwRtlHashTableResizeAndInsert HashPairNodeGetKey pfnDigest pfnEqual malloc_array (set_nodes t (<[l := mk_hnode None 0 (k, v)]> (ht_nodes t))) l;
        match pPrevNode with
        | Some p => n ← ht_nodes t !! p; Some (STATUS_SUCCESS, Some (set_nodes t (delete p (ht_nodes t))), Some (h_body n))
        | None => Some (STATUS_SUCCESS, Some t, None)
        end
  end.

Definition LwRtlHashMapRemove (pMap : option hashmap) (k : K) : option (NTSTATUS * option hashmap * option pair) :=
  match pMap with
  | None => Some (STATUS_INVALID_PARAMETER, None, None)
  | Some t =>
      '(status, pNode) ← LwRtlHashTableFindKey HashPairNodeGetKey pfnDigest pfnEqual pMap k;
      '(status, pMap) ← (if is_ok status then LwRtlHashTableRemove pMap pNode else Some (status, pMap));
      match pNode with
      | Some p => t ← pMap; n ← ht_nodes t !! p; Some (status, Some (set_nodes t (delete p (ht_nodes t))), Some (h_body n))
      | None => Some (status, pMap, None)
      end
  end.

(** The status and [*ppValue]. *)
Definition LwRtlHashMapFindKey (pMap : option hashmap) (k : K) : option (NTSTATUS * option V) :=
  match pMap with
  | None => Some (STATUS_INVALID_PARAMETER, None)
  | Some t =>
      '(status, pNode) ← LwRtlHashTableFindKey HashPairNodeGetKey pfnDigest pfnEqual pMap k;
      match pNode with
      | Some p => n ← ht_nodes t !! p; Some (status, Some (h_body n).2)
      | None => Some (status, None)
      end
  end.

Definition LwRtlHashMapResetIter : LW_HASHTABLE_ITER := LwRtlHashTableResetIter.

Definition LwRtlHashMapIterate (pMap : hashmap) (pIter : LW_HASHTABLE_ITER) : option (option pair * LW_HASHTABLE_ITER) :=
  '(pNode, iter) ← LwRtlHashTableIterate pMap pIter;
  match pNode with
  | Some p => n ← ht_nodes pMap !! p; Some (Some (h_body n), iter)
  | None => Some (None, iter)
  end.

(** The map and the pairs that [pFree] is called for. *)
Definition LwRtlHashMapClear (pMap : hashmap) (pFree : bool) : option (hashmap * list pair) :=
  LwRtlHashTableClear pMap (Some (HashPairFreeNode pFree)) [].

Definition LwRtlHashMapGetCount (pMap : hashmap) : Z := LwRtlHashTableGetCount pMap.

(** The heap when the map is gone. *)
Definition LwRtlFreeHashMap (pMap : option hashmap) : option (gmap loc (LW_HASHTABLE_NODE pair)) :=
  match pMap with
  | None => Some ∅
  | Some t => '(t, _) ← LwRtlHashMapClear t false; Some (LwRtlFreeHashTable t)
  end.
End Map.

(** * Digests and equality of keys *)

Section Digests.
Context `{Host}.

(** The loop of the digests of strings: [f] is what is added for a character. *)
Fixpoint digest_loop (t : char_type) (f : Z -> Z) (n : nat) (i : Z) (p : mem) (digest : Z) : option Z :=
  match n with
  | O => None
  | S n' => c ← ldc t p i; if c =? 0 then Some digest else digest_loop t f n' (i + 1) p (u32 (digest * 31 + f c))
  end.
Definition digest_string (t : char_type) (f : Z -> Z) (pKey : ptr) : option Z :=
  match pKey with None => Some 0 | Some p => digest_loop t f (S (length p)) 0 p 0 end.

(** Two null pointers are equal; two strings as [equal] says. *)
Definition equal_strings (equal : mem -> mem -> option bool) (pKey1 pKey2 : ptr) : option bool :=
  match pKey1, pKey2 with
  | None, None => Some true
  | Some p1, Some p2 => equal p1 p2
  | _, _ => Some false
  end.

(** A [char] is signed. *)
Definition LwRtlHashDigestPstr (pKey : ptr) : option Z := digest_string CHAR s8 pKey.
Definition LwRtlHashDigestPwstr (pKey : ptr) : option Z := digest_string WCHAR (fun c => c) pKey.

Definition ToUpper (c : Z) : Z := if (97 <=? c) && (c <=? 122) then c - 32 else c.
Definition LwRtlHashDigestPwstrCaseless (pKey : ptr) : option Z := digest_string WCHAR ToUpper pKey.

Definition LwRtlHashDigestPointer (pKey : Z) : Z := u32 (Z.shiftr pKey 2).
Definition LwRtlHashEqualPointer (pKey1 pKey2 : Z) : bool := pKey1 =? pKey2.

Section Locale.
Context `{Locale}.
Definition LwRtlHashDigestPstrCaseless (pKey : ptr) : option Z := digest_string CHAR (fun c => toupper (s8 c)) pKey.
Definition LwRtlHashEqualPstr (pKey1 pKey2 : ptr) : option bool := equal_strings (fun a b => LwRtlCStringIsEqual a b true) pKey1 pKey2.
Definition LwRtlHashEqualPstrCaseless (pKey1 pKey2 : ptr) : option bool := equal_strings (fun a b => LwRtlCStringIsEqual a b false) pKey1 pKey2.
Definition LwRtlHashEqualPwstr (pKey1 pKey2 : ptr) : option bool := equal_strings (fun a b => LwRtlWC16StringIsEqual a b true) pKey1 pKey2.
Definition LwRtlHashEqualPwstrCaseless (pKey1 pKey2 : ptr) : option bool := equal_strings (fun a b => LwRtlWC16StringIsEqual a b false) pKey1 pKey2.
End Locale.
End Digests.
