(* ===== verification/HashRepr.v ===== *)
(** The chains of a hash table of [Hash] as lists of nodes, and what its operations do
    to them. *)

From stdpp Require Import gmap.
From S2P Require Import Prelude SecurityTypes Hash.

(** What a table relies on from its functions: equality is an equivalence, and equal
    keys have equal digests. *)
Class HashFunctions {K : Type} (pfnDigest : K -> Z) (pfnEqual : K -> K -> bool) : Prop := {
  equal_refl : forall k, pfnEqual k k = true;
  equal_sym : forall k1 k2, pfnEqual k1 k2 = true -> pfnEqual k2 k1 = true;
  equal_trans : forall k1 k2 k3, pfnEqual k1 k2 = true -> pfnEqual k2 k3 = true -> pfnEqual k1 k3 = true;
  digest_equal : forall k1 k2, pfnEqual k1 k2 = true -> pfnDigest k1 = pfnDigest k2;
  digest_range : forall k, 0 <= pfnDigest k < 2 ^ 32
}.

Section Repr.
Context {A K : Type} (pfnGetKey : A -> K) (pfnDigest : K -> Z) (pfnEqual : K -> K -> bool).
Abbreviation nodes := (gmap loc (LW_HASHTABLE_NODE A)).
Abbreviation chains := (list (list loc)).
Implicit Types (h g : nodes) (t : LW_HASHTABLE A) (bs : chains) (ls : list loc).

(** * Chains *)

Fixpoint chain h (p : nptr) ls : Prop :=
  match ls with
  | [] => p = None
  | l :: ls => p = Some l /\ exists n, h !! l = Some n /\ chain h (h_pNext n) ls
  end.

Lemma chain_agree h h' ls : forall p, (forall l, l ∈ ls -> h' !! l = h !! l) -> chain h p ls -> chain h' p ls.
Proof.
  induction ls as [|l ls IH]; intros p Ha; [done|]. cbn. intros (-> & n & Hn & Hc). split; [done|]. exists n. split; [rewrite Ha by set_solver; done|].
  apply IH; [|done]. intros l' Hl'. apply Ha. set_solver.
Qed.

Lemma chain_fun h ls : forall p ls', chain h p ls -> chain h p ls' -> ls = ls'.
Proof.
  induction ls as [|l ls IH]; intros p ls' H1 H2; destruct ls' as [|l' ls']; cbn in *; [done|naive_solver..|].
  destruct H1 as (-> & n & Hn & Hc), H2 as ([= ->] & n' & Hn' & Hc'). rewrite Hn in Hn'. injection Hn' as <-. f_equal. by eapply IH.
Qed.

(** The slot after the nodes [ls] of a chain that starts at [s]. *)
Definition slot_end (s : slot) ls : slot := match last ls with Some l => NextOf l | None => s end.

Lemma slot_end_cons s l ls : slot_end s (l :: ls) = slot_end (NextOf l) ls.
Proof. unfold slot_end. rewrite last_cons. by destruct (last ls). Qed.

(** The first node of a list that [P] holds of, with what is before and after. *)
Fixpoint split_by (P : loc -> bool) ls : option (list loc * loc * list loc) :=
  match ls with
  | [] => None
  | l :: ls => if P l then Some ([], l, ls) else '(ls1, x, ls2) ← split_by P ls; Some (l :: ls1, x, ls2)
  end.

Lemma split_by_Some P ls ls1 x ls2 : split_by P ls = Some (ls1, x, ls2) -> ls = ls1 ++ x :: ls2 /\ P x = true.
Proof.
  revert ls1. induction ls as [|l ls IH]; intros ls1; cbn; [done|]. destruct (P l) eqn:E; [by intros [= <- <- <-]|].
  destruct (split_by P ls) as [[[a b] c]|]; cbn; [|done]. intros [= <- <- <-]. by destruct (IH a eq_refl) as [-> ?].
Qed.

Lemma split_by_None P ls : split_by P ls = None -> forall l, l ∈ ls -> P l = false.
Proof.
  induction ls as [|l ls IH]; cbn; [set_solver|]. destruct (P l) eqn:E; [done|]. destruct (split_by P ls) as [[[a b] c]|]; cbn; [done|]. intros _ l' [->|Hl']%elem_of_cons; auto.
Qed.

Definition matches h (k : K) (d : Z) (l : loc) : bool :=
  match h !! l with Some n => (ulDigest n =? d) && pfnEqual k (pfnGetKey (h_body n)) | None => false end.

Lemma lookup_loop_ok t k d ls : forall s p n,
  read_slot t s = Some p -> chain (ht_nodes t) p ls -> (length ls < n)%nat ->
  lookup_loop pfnGetKey pfnEqual n t k d s =
    Some (match split_by (matches (ht_nodes t) k d) ls with Some (ls1, _, _) => (STATUS_SUCCESS, slot_end s ls1) | None => (STATUS_NOT_FOUND, slot_end s ls) end).
Proof.
  induction ls as [|l ls IH]; intros s p n Hs Hc Hn; (destruct n as [|n]; [cbn in Hn; lia|]); cbn in Hc |- *; rewrite Hs; cbn [mbind option_bind].
  - by subst p.
  - destruct Hc as (-> & m & Hm & Hc). unfold matches at 1. rewrite Hm. cbn [mbind option_bind]. destruct (_ && _) eqn:E; [done|].
    rewrite (IH (NextOf l) (h_pNext m)); [|by cbn; rewrite Hm|done|cbn in Hn; lia]. rewrite slot_end_cons.
    destruct (split_by _ ls) as [[[ls1 x] ls2]|]; cbn; [|done]. by rewrite slot_end_cons.
Qed.

Lemma locate_loop_ok t x ls : forall s p n,
  read_slot t s = Some p -> chain (ht_nodes t) p ls -> (length ls < n)%nat ->
  locate_loop n t x s =
    Some (match split_by (fun l => bool_decide (l = x)) ls with Some (ls1, _, _) => (STATUS_SUCCESS, Some (slot_end s ls1)) | None => (STATUS_NOT_FOUND, None) end).
Proof.
  induction ls as [|l ls IH]; intros s p n Hs Hc Hn; (destruct n as [|n]; [cbn in Hn; lia|]); cbn in Hc |- *; rewrite Hs; cbn [mbind option_bind].
  - by subst p.
  - destruct Hc as (-> & m & Hm & Hc). destruct (bool_decide (l = x)) eqn:E; [done|].
    rewrite (IH (NextOf l) (h_pNext m)); [|by cbn; rewrite Hm|done|cbn in Hn; lia].
    destruct (split_by _ ls) as [[[ls1 y] ls2]|]; cbn; [|done]. by rewrite slot_end_cons.
Qed.

(** * Writing through a slot *)

(** The same table but for the buckets and for where nodes point. *)
Record relinked (w : list loc) t t' : Prop := {
  rl_size : ulSize t' = ulSize t;
  rl_threshold : ulThreshold t' = ulThreshold t;
  rl_count : ulCount t' = ulCount t;
  rl_dom : dom (ht_nodes t') = dom (ht_nodes t);
  rl_nodes : forall l n, ht_nodes t' !! l = Some n -> exists n', ht_nodes t !! l = Some n' /\ ulDigest n = ulDigest n' /\ h_body n = h_body n';
  rl_agree : forall l, l ∉ w -> ht_nodes t' !! l = ht_nodes t !! l
}.

Definition table_chains t bs : Prop := Forall2 (chain (ht_nodes t)) (ppBuckets t) bs.

Lemma store_eq t l n f : ht_nodes t !! l = Some n -> store_node t l f = Some (set_nodes t (<[l := f n]> (ht_nodes t))).
Proof. intros Hn. unfold store_node. by rewrite Hn. Qed.

Lemma store_relinked t l p n : ht_nodes t !! l = Some n -> exists t', store_node t l (set_next p) = Some t' /\ relinked [l] t t' /\ ppBuckets t' = ppBuckets t /\ ht_nodes t' !! l = Some (set_next p n).
Proof.
  intros Hl. unfold store_node. rewrite Hl. cbn. eexists. split; [done|]. split; [|split; [done|apply lookup_insert_eq]]. split; try done; cbn.
  - apply dom_insert_lookup_L. by eexists.
  - intros l' n' Hn. destruct (decide (l' = l)) as [->|Hne]; [rewrite lookup_insert_eq in Hn; injection Hn as <-; by exists n|]. rewrite lookup_insert_ne in Hn by done. by exists n'.
  - intros l' Hl'. apply lookup_insert_ne. set_solver.
Qed.

(** The list of all nodes, with one chain set apart. *)
Lemma concat_apart bs i ls : bs !! i = Some ls -> concat bs ≡ₚ ls ++ concat (delete i bs).
Proof.
  intros Hi. rewrite (delete_Permutation bs i ls Hi) at 1. done.
Qed.

Lemma concat_update bs i ls ls' : bs !! i = Some ls -> concat (<[i := ls']> bs) ≡ₚ ls' ++ concat (delete i bs).
Proof.
  intros Hi. assert (Hl := lookup_lt_Some _ _ _ Hi). rewrite (concat_apart (<[i := ls']> bs) i ls') by (by apply list_lookup_insert_eq).
  replace (delete i (<[i := ls']> bs)) with (delete i bs); [done|]. apply list_eq. intros j. destruct (decide (j < i)%nat).
  - rewrite !list_lookup_delete_lt, list_lookup_insert_ne by lia. done.
  - rewrite !list_lookup_delete_ge, list_lookup_insert_ne by lia. done.
Qed.

(** The end of a chain is replaced through the slot that leads to it. *)
Lemma chain_relink h l n p ls1 : forall q ls2 ls2',
  chain h q (ls1 ++ l :: ls2) -> h !! l = Some n -> l ∉ ls1 -> l ∉ ls2' -> chain h p ls2' -> chain (<[l := set_next p n]> h) q (ls1 ++ l :: ls2').
Proof.
  induction ls1 as [|x ls1 IH]; intros q ls2 ls2' Hc Hl H1 H2 Hp; cbn in *.
  - destruct Hc as (-> & m & Hm & _). split; [done|]. exists (set_next p n). split; [apply lookup_insert_eq|]. cbn. eapply chain_agree; [|exact Hp]. intros l' Hl'. apply lookup_insert_ne. by intros ->.
  - destruct Hc as (-> & m & Hm & Hc). split; [done|]. exists m. split; [rewrite lookup_insert_ne by set_solver; done|]. eapply IH; [exact Hc|done|set_solver|done|done].
Qed.

Lemma chains_agree h h' ps bs : (forall l, l ∈ concat bs -> h' !! l = h !! l) -> Forall2 (chain h) ps bs -> Forall2 (chain h') ps bs.
Proof.
  intros Ha Hf. induction Hf as [|p ls ps bs Hc Hf IH]; constructor; cbn in Ha.
  - eapply chain_agree; [|exact Hc]. intros l Hl. apply Ha. set_solver.
  - apply IH. intros l Hl. apply Ha. set_solver.
Qed.

Lemma chains_lookup t bs i ls : table_chains t bs -> bs !! i = Some ls -> exists p, ppBuckets t !! i = Some p /\ chain (ht_nodes t) p ls.
Proof. intros Hf Hi. apply (Forall2_lookup_r _ _ _ _ _ Hf Hi). Qed.

Lemma concat_delete_apart bs i ls : NoDup (concat bs) -> bs !! i = Some ls -> NoDup ls /\ (forall l, l ∈ ls -> l ∉ concat (delete i bs)) /\ NoDup (concat (delete i bs)).
Proof. intros Hd Hi. rewrite (concat_apart _ _ _ Hi), NoDup_app in Hd. done. Qed.

Lemma elem_delete_concat bs i j ls l : bs !! j = Some ls -> j <> i -> l ∈ ls -> l ∈ concat (delete i bs).
Proof.
  intros Hj Hne Hl. apply list_elem_of_In, in_concat. exists ls. split; [|by apply list_elem_of_In]. apply list_elem_of_In, list_elem_of_lookup.
  destruct (decide (j < i)%nat); [exists j; rewrite list_lookup_delete_lt by lia|exists (j - 1)%nat; rewrite list_lookup_delete_ge by lia; replace (S (j - 1)) with j by lia]; done.
Qed.

Lemma write_slot_ok t bs i ls1 ls2 ls2' p :
  table_chains t bs -> NoDup (concat bs) -> bs !! i = Some (ls1 ++ ls2) -> chain (ht_nodes t) p ls2' -> (forall l, l ∈ ls1 -> l ∉ ls2') ->
  exists t', write_slot t (slot_end (BucketOf (Z.of_nat i)) ls1) p = Some t' /\ table_chains t' (<[i := ls1 ++ ls2']> bs) /\ relinked ls1 t t'.
Proof.
  intros Hf Hd Hi Hp Hdis. destruct (chains_lookup _ _ _ _ Hf Hi) as (q & Hq & Hc). destruct (concat_delete_apart _ _ _ Hd Hi) as (D1 & D2 & D3).
  unfold slot_end. destruct (last ls1) as [l|] eqn:El.
  - apply last_Some in El as [ls0 ->]. rewrite <- app_assoc in Hc, Hi, D1, D2. cbn [app] in *. rewrite NoDup_app, NoDup_cons in D1. destruct D1 as (_ & Dl & Dl2 & _).
    assert (Hl : exists n, ht_nodes t !! l = Some n).
    { clear -Hc. revert q Hc. induction ls0 as [|x ls0 IH]; intros q; cbn; [naive_solver|]. intros (_ & n & _ & Hc). by apply (IH _ Hc). }
    destruct Hl as [n Hn]. cbn [write_slot]. destruct (store_relinked t l p n Hn) as (t' & E & R & Hb & Hl'). exists t'. split; [done|]. split.
    + unfold table_chains. rewrite Hb. apply Forall2_lookup. intros j. destruct (decide (j = i)) as [->|Hne].
      * rewrite Hq, list_lookup_insert_eq by (by eapply lookup_lt_Some). constructor. rewrite <- app_assoc. cbn [app].
        unfold store_node in E. rewrite Hn in E. cbn in E. injection E as <-. cbn. eapply chain_relink; [exact Hc|done| |set_solver|done]. intros Hin. apply (Dl _ Hin). set_solver.
      * rewrite list_lookup_insert_ne by done. unfold table_chains in Hf. rewrite Forall2_lookup in Hf. specialize (Hf j). destruct (bs !! j) as [lsj|] eqn:Ej; inversion Hf as [x y Hxy|]; subst; [|constructor]. constructor.
        eapply chain_agree; [|exact Hxy]. intros l' Hl2. apply (rl_agree _ _ _ R). intros ->%list_elem_of_singleton. apply (D2 l); [set_solver|]. exact (elem_delete_concat _ _ _ _ _ Ej Hne Hl2).
    + destruct R. split; try done. intros l' Hl2. apply rl_agree0. set_solver.
  - apply last_None in El as ->. cbn [write_slot app]. rewrite Nat2Z.id, Hq. cbn [mbind option_bind]. eexists. split; [done|]. split.
    + unfold table_chains. cbn. by apply Forall2_insert.
    + split; try done. intros l n Hn. by exists n.
Qed.

(** * Tables *)

(** The chains [bs] of a table whose nodes have the bodies [β]. The heap has these
    nodes and the nodes [g], which are not in the table. *)
Record ht_rep (β : loc -> A) g t bs : Prop := {
  hr_size : 0 < ulSize t < 2 ^ 32;
  hr_len : Z.of_nat (length bs) = ulSize t;
  hr_chains : table_chains t bs;
  hr_nodup : NoDup (concat bs);
  hr_place : forall i ls l, bs !! i = Some ls -> l ∈ ls -> pfnDigest (pfnGetKey (β l)) mod ulSize t = Z.of_nat i;
  hr_digest : forall l n, l ∈ concat bs -> ht_nodes t !! l = Some n -> ulDigest n = pfnDigest (pfnGetKey (β l));
  hr_keys : forall l1 l2, l1 ∈ concat bs -> l2 ∈ concat bs -> pfnEqual (pfnGetKey (β l1)) (pfnGetKey (β l2)) = true -> l1 = l2;
  hr_body : forall l n, ht_nodes t !! l = Some n -> h_body n = β l;
  hr_count : ulCount t = u32 (Z.of_nat (length (concat bs)));
  hr_dom : dom (ht_nodes t) = list_to_set (concat bs) ∪ dom g;
  hr_out : forall l, l ∈ concat bs -> g !! l = None;
  hr_rest : g ⊆ ht_nodes t
}.

Lemma elem_concat bs i ls l : bs !! i = Some ls -> l ∈ ls -> l ∈ concat bs.
Proof. intros Hi Hl. rewrite (concat_apart _ _ _ Hi). set_solver. Qed.

Lemma elem_concat_inv bs l : l ∈ concat bs -> exists i ls, bs !! i = Some ls /\ l ∈ ls.
Proof.
  intros (ls & Hls & Hl)%list_elem_of_In%in_concat. apply list_elem_of_In, list_elem_of_lookup in Hls as [i Hi]. exists i, ls. split; [done|]. by apply list_elem_of_In.
Qed.

Lemma hr_node β g t bs l : ht_rep β g t bs -> l ∈ concat bs -> exists n, ht_nodes t !! l = Some n /\ ulDigest n = pfnDigest (pfnGetKey (β l)) /\ h_body n = β l.
Proof.
  intros R Hl. assert (Hd : l ∈ dom (ht_nodes t)) by (rewrite (hr_dom _ _ _ _ R); set_solver). apply elem_of_dom in Hd as [n Hn]. exists n. split; [done|].
  split; [by apply (hr_digest _ _ _ _ R)|by apply (hr_body _ _ _ _ R)].
Qed.

Lemma hr_fuel β g t bs i ls : ht_rep β g t bs -> bs !! i = Some ls -> (length ls < chain_fuel t)%nat.
Proof.
  intros R Hi. destruct (concat_delete_apart _ _ _ (hr_nodup _ _ _ _ R) Hi) as (D & _). unfold chain_fuel. rewrite <- size_dom, (hr_dom _ _ _ _ R). apply le_n_S.
  rewrite <- (size_list_to_set (C := gset loc) ls D). apply subseteq_size. intros l Hl. apply elem_of_list_to_set in Hl. rewrite elem_of_union, elem_of_list_to_set. left. by eapply elem_concat.
Qed.

(** A node outside the table changes, but for its body. *)
Lemma hr_outside β g t bs l n n' : ht_rep β g t bs -> g !! l = Some n -> h_body n' = h_body n ->
  ht_rep β (<[l := n']> g) (set_nodes t (<[l := n']> (ht_nodes t))) bs.
Proof.
  intros R Hl Hb. assert (Hn : ht_nodes t !! l = Some n) by (apply (lookup_weaken _ _ _ _ Hl), (hr_rest _ _ _ _ R)).
  assert (Hout : l ∉ concat bs). { intros Hin. by rewrite (hr_out _ _ _ _ R _ Hin) in Hl. }
  destruct R as [R1 R2 R3 R4 R5 R6 R7 R8 R9 R10 R11 R12]. split; try done; cbn.
  - unfold table_chains in *. cbn. eapply chains_agree; [|exact R3]. intros l' Hl'. apply lookup_insert_ne. by intros ->.
  - intros l' m Hl' Hm. rewrite lookup_insert_ne in Hm by (by intros ->). by apply R6.
  - intros l' m Hm. destruct (decide (l' = l)) as [->|Hne]; [rewrite lookup_insert_eq in Hm; injection Hm as <-; rewrite Hb; by apply R8|]. rewrite lookup_insert_ne in Hm by done. by apply R8.
  - rewrite !dom_insert_L, R10. set_solver.
  - intros l' Hl'. rewrite lookup_insert_ne by (by intros ->). by apply R11.
  - by apply insert_mono.
Qed.

(** One chain changes: nodes leave the table for [g'], or come into it from [g]. *)
Lemma hr_update β g g' t t' bs i ls ls' w :
  ht_rep β g t bs -> bs !! i = Some ls -> table_chains t' (<[i := ls']> bs) -> relinked w t t' -> w ⊆ ls' ->
  NoDup ls' -> (forall l, l ∈ ls' -> l ∈ ls \/ is_Some (g !! l)) ->
  (forall l n, l ∈ ls' -> ht_nodes t !! l = Some n -> ulDigest n = pfnDigest (pfnGetKey (β l)) /\ pfnDigest (pfnGetKey (β l)) mod ulSize t = Z.of_nat i) ->
  (forall l1 l2, l1 ∈ ls' ++ concat (delete i bs) -> l2 ∈ ls' ++ concat (delete i bs) -> pfnEqual (pfnGetKey (β l1)) (pfnGetKey (β l2)) = true -> l1 = l2) ->
  (forall l, l ∈ ls' ++ concat (delete i bs) -> g' !! l = None) -> (forall l n, g' !! l = Some n -> ht_nodes t !! l = Some n) ->
  (forall l, l ∈ ls \/ is_Some (g !! l) <-> l ∈ ls' \/ is_Some (g' !! l)) ->
  ht_rep β g' (set_count t' (u32 (Z.of_nat (length (concat (<[i := ls']> bs)))))) (<[i := ls']> bs).
Proof.
  intros R Hi Hc W Hw Hd Hfrom Hdig Hkeys Hout Hrest Hdom. destruct (concat_delete_apart _ _ _ (hr_nodup _ _ _ _ R) Hi) as (D1 & D2 & D3).
  assert (HP := concat_update bs i ls ls' Hi). assert (HP0 := concat_apart bs i ls Hi).
  destruct R as [R1 R2 R3 R4 R5 R6 R7 R8 R9 R10 R11 R12]. destruct W as [W1 W2 W3 W4 W5 W6].
  assert (Hdis : forall l, l ∈ ls' -> l ∉ concat (delete i bs)).
  { intros l Hl. destruct (Hfrom l Hl) as [|[m Hm]]; [by apply D2|]. intros Hin. rewrite R11 in Hm by (rewrite HP0; set_solver). done. }
  assert (Hnd : forall l, l ∈ ls' -> is_Some (ht_nodes t !! l)).
  { intros l Hl. destruct (Hfrom l Hl) as [Hin|[m Hm]]; [|exists m; by eapply lookup_weaken]. apply elem_of_dom. rewrite R10, HP0. set_solver. }
  split; cbn; rewrite ?W1; try done.
  - by rewrite length_insert.
  - rewrite HP. apply NoDup_app. auto.
  - intros j lsj l Hj Hl. destruct (decide (j = i)) as [->|Hne].
    + rewrite list_lookup_insert_eq in Hj by (eapply lookup_lt_Some, Hi). injection Hj as <-. destruct (Hnd l Hl) as [m Hm]. by apply (Hdig l m).
    + rewrite list_lookup_insert_ne in Hj by done. by eapply R5.
  - intros l n. rewrite HP, elem_of_app. intros Hl Hn. destruct (W5 l n Hn) as (n' & Hn' & -> & _). destruct Hl as [Hl|Hl]; [by apply (Hdig l n')|]. apply R6; [rewrite HP0; set_solver|done].
  - intros l1 l2. rewrite HP. apply Hkeys.
  - intros l n Hn. destruct (W5 l n Hn) as (n' & Hn' & _ & ->). by apply R8.
  - rewrite W4, R10, HP, HP0. apply set_eq. intros l. specialize (Hdom l). rewrite !elem_of_union, !elem_of_list_to_set, !elem_of_app, !elem_of_dom. tauto.
  - intros l. rewrite HP. apply Hout.
  - apply map_subseteq_spec. intros l n Hn. rewrite W6; [by apply Hrest|]. intros Hin. rewrite Hout in Hn; [done|]. set_solver.
Qed.

Section Laws.
Context `{!HashFunctions pfnDigest pfnEqual}.

Lemma hr_bucket β g t bs k : ht_rep β g t bs ->
  exists i ls, bs !! i = Some ls /\ pfnDigest k mod ulSize t = Z.of_nat i /\ bucket_of t (pfnDigest k) = Some (BucketOf (Z.of_nat i)).
Proof using Type*.
  intros R. destruct (hr_size _ _ _ _ R) as [Hs _]. assert (Hl := hr_len _ _ _ _ R). assert (Hm := Z.mod_pos_bound (pfnDigest k) (ulSize t) Hs).
  destruct (lookup_lt_is_Some_2 bs (Z.to_nat (pfnDigest k mod ulSize t))) as [ls Hi]; [lia|]. exists (Z.to_nat (pfnDigest k mod ulSize t)), ls. split; [done|]. rewrite Z2Nat.id by lia. split; [done|].
  unfold bucket_of. destruct (Z.eqb_spec (ulSize t) 0) as [|_]; [lia|done].
Qed.

Lemma matches_equal β g t bs k l : ht_rep β g t bs -> l ∈ concat bs -> matches (ht_nodes t) k (pfnDigest k) l = pfnEqual k (pfnGetKey (β l)).
Proof using Type*.
  intros R Hl. destruct (hr_node _ _ _ _ _ R Hl) as (n & Hn & Hd & Hb). unfold matches. rewrite Hn, Hd, Hb. destruct (pfnEqual k _) eqn:E; [|by rewrite andb_false_r].
  rewrite (digest_equal (pfnDigest := pfnDigest) _ _ E), Z.eqb_refl. done.
Qed.

(** A lookup finds the node with an equal key, wherever it is. *)
Lemma HashLookup_ok β g t bs k : ht_rep β g t bs ->
  exists i ls, bs !! i = Some ls /\ pfnDigest k mod ulSize t = Z.of_nat i /\
    ((exists ls1 l ls2, ls = ls1 ++ l :: ls2 /\ pfnEqual k (pfnGetKey (β l)) = true /\
        HashLookup pfnGetKey pfnEqual t k (pfnDigest k) = Some (STATUS_SUCCESS, slot_end (BucketOf (Z.of_nat i)) ls1)) \/
     (forall l, l ∈ concat bs -> pfnEqual k (pfnGetKey (β l)) = false) /\
        HashLookup pfnGetKey pfnEqual t k (pfnDigest k) = Some (STATUS_NOT_FOUND, slot_end (BucketOf (Z.of_nat i)) ls)).
Proof using Type*.
  intros R. destruct (hr_bucket _ _ _ _ k R) as (i & ls & Hi & Hmod & Hb). exists i, ls. split; [done|]. split; [done|]. unfold HashLookup. rewrite Hb. cbn [mbind option_bind].
  destruct (chains_lookup _ _ _ _ (hr_chains _ _ _ _ R) Hi) as (p & Hp & Hc). rewrite (lookup_loop_ok t k (pfnDigest k) ls _ p); [|cbn; by rewrite Nat2Z.id|done|by eapply hr_fuel].
  destruct (split_by _ ls) as [[[ls1 l] ls2]|] eqn:E.
  - left. apply split_by_Some in E as [-> E]. exists ls1, l, ls2. split; [done|]. split; [|done]. rewrite <- E. symmetry. eapply matches_equal; [done|]. eapply elem_concat; [done|]. set_solver.
  - right. split; [|done]. intros l Hl. destruct (pfnEqual k (pfnGetKey (β l))) eqn:Eq; [|done]. destruct (elem_concat_inv _ _ Hl) as (j & lsj & Hj & Hlj).
    assert (Hpl := hr_place _ _ _ _ R _ _ _ Hj Hlj). rewrite <- (digest_equal (pfnDigest := pfnDigest) _ _ Eq), Hmod in Hpl. apply Nat2Z.inj in Hpl. subst j. rewrite Hi in Hj. injection Hj as <-.
    rewrite <- (matches_equal _ _ _ _ _ _ R Hl) in Eq. rewrite (split_by_None _ _ E _ Hlj) in Eq. done.
Qed.
End Laws.
End Repr.
