(* ===== verification/HashTable.v ===== *)
(** The operations of hash tables on their chains: lookup, insertion, removal,
    resizing, iteration and clearing. *)

From stdpp Require Import gmap.
From S2P Require Import Prelude SecurityTypes Hash HashRepr.

Section Table.
Context {A K : Type} (pfnGetKey : A -> K) (pfnDigest : K -> Z) (pfnEqual : K -> K -> bool) `{!HashFunctions pfnDigest pfnEqual}.
Abbreviation nodes := (gmap loc (LW_HASHTABLE_NODE A)).
Abbreviation ht_rep := (ht_rep pfnGetKey pfnDigest pfnEqual).
Implicit Types (h g : nodes) (t : LW_HASHTABLE A) (bs : list (list loc)) (ls : list loc) (β : loc -> A).

Lemma read_slot_end t bs i ls1 l ls2 : table_chains t bs -> bs !! i = Some (ls1 ++ l :: ls2) ->
  read_slot t (slot_end (BucketOf (Z.of_nat i)) ls1) = Some (Some l) /\ exists m, ht_nodes t !! l = Some m /\ chain (ht_nodes t) (h_pNext m) ls2.
Proof.
  intros Hf Hi. destruct (chains_lookup _ _ _ _ Hf Hi) as (p & Hp & Hc). assert (Hs : read_slot t (BucketOf (Z.of_nat i)) = Some p) by (cbn; by rewrite Nat2Z.id).
  clear Hi Hp. revert p Hc Hs. generalize (BucketOf (Z.of_nat i)) as s. induction ls1 as [|x ls1 IH]; intros s p Hc Hs; cbn in Hc.
  - destruct Hc as (-> & m & Hm & Hc). split; [done|by exists m].
  - destruct Hc as (-> & m & Hm & Hc). rewrite slot_end_cons. apply (IH (NextOf x) (h_pNext m) Hc). cbn. by rewrite Hm.
Qed.

(** * Insertion *)

Lemma hr_keys_key β g t bs l1 l2 k : ht_rep β g t bs -> l1 ∈ concat bs -> l2 ∈ concat bs ->
  pfnEqual k (pfnGetKey (β l1)) = true -> pfnEqual k (pfnGetKey (β l2)) = true -> l1 = l2.
Proof using Type*.
  intros R H1 H2 E1 E2. apply (hr_keys _ _ _ _ _ _ _ R _ _ H1 H2). eapply (equal_trans (pfnDigest := pfnDigest)); [|exact E2]. by apply (equal_sym (pfnDigest := pfnDigest)).
Qed.

Lemma store_outside β g t bs l n f : ht_rep β g t bs -> g !! l = Some n -> h_body (f n) = h_body n ->
  exists t', store_node t l f = Some t' /\ ht_rep β (<[l := f n]> g) t' bs /\ ulSize t' = ulSize t /\ ulThreshold t' = ulThreshold t /\ ulCount t' = ulCount t /\
    (forall x, x <> l -> ht_nodes t' !! x = ht_nodes t !! x).
Proof using Type*.
  intros R Hl Hb. assert (Hn : ht_nodes t !! l = Some n) by (apply (lookup_weaken _ _ _ _ Hl), (hr_rest _ _ _ _ _ _ _ R)). rewrite (store_eq _ _ _ _ Hn).
  eexists. split; [done|]. split; [by eapply hr_outside|]. do 3 (split; [done|]). intros x Hx. by apply lookup_insert_ne.
Qed.

(** The nodes outside the table once [l] is in it, in place of [out]. *)
Definition swapped_out g (l : loc) (out : option (loc * LW_HASHTABLE_NODE A)) : nodes :=
  match out with Some (x, m) => <[x := m]> (delete l g) | None => delete l g end.
Definition out_list (out : option (loc * LW_HASHTABLE_NODE A)) : list loc := match out with Some (x, _) => [x] | None => [] end.

(** A node is linked in at a slot, in place of the node [out] or at the end. *)
Lemma link_in β g t bs i ls1 out ls2 l n :
  ht_rep β g t bs -> bs !! i = Some (ls1 ++ out_list out ++ ls2) -> (forall x m, out = Some (x, m) -> ht_nodes t !! x = Some m) ->
  g !! l = Some n -> ulDigest n = pfnDigest (pfnGetKey (β l)) -> pfnDigest (pfnGetKey (β l)) mod ulSize t = Z.of_nat i -> chain (ht_nodes t) (h_pNext n) ls2 ->
  (forall y, y ∈ concat bs -> y ∉ out_list out -> pfnEqual (pfnGetKey (β l)) (pfnGetKey (β y)) = false) ->
  exists t', write_slot t (slot_end (BucketOf (Z.of_nat i)) ls1) (Some l) = Some t' /\ ulSize t' = ulSize t /\ ulThreshold t' = ulThreshold t /\ ulCount t' = ulCount t /\
    ht_rep β (swapped_out g l out) (set_count t' (u32 (Z.of_nat (length (concat (<[i := ls1 ++ l :: ls2]> bs)))))) (<[i := ls1 ++ l :: ls2]> bs).
Proof using Type*.
  intros R Hi Hm Hl Hdig Hmod Hc Hno. assert (Hn : ht_nodes t !! l = Some n) by (apply (lookup_weaken _ _ _ _ Hl), (hr_rest _ _ _ _ _ _ _ R)).
  assert (Hout : l ∉ concat bs). { intros Hin. by rewrite (hr_out _ _ _ _ _ _ _ R _ Hin) in Hl. }
  destruct (concat_delete_apart _ _ _ (hr_nodup _ _ _ _ _ _ _ R) Hi) as (D1 & D2 & D3). assert (HP0 := concat_apart bs i _ Hi).
  assert (Hln : l ∉ ls1 ++ out_list out ++ ls2) by (intros Hin; apply Hout; rewrite HP0; set_solver). rewrite !NoDup_app in D1. destruct D1 as (D11 & D12 & _ & D13 & D14).
  destruct (write_slot_ok t bs i ls1 (out_list out ++ ls2) (l :: ls2) (Some l)) as (t' & E & Hc' & W).
  { apply (hr_chains _ _ _ _ _ _ _ R). } { apply (hr_nodup _ _ _ _ _ _ _ R). } { done. } { split; [done|]. by exists n. } { set_solver. }
  exists t'. split; [done|]. split; [apply (rl_size _ _ _ W)|]. split; [apply (rl_threshold _ _ _ W)|]. split; [apply (rl_count _ _ _ W)|].
  assert (Hin : forall x, x ∈ ls1 ++ l :: ls2 -> x = l \/ x ∈ concat bs /\ x ∉ out_list out).
  { intros x Hx. destruct (decide (x = l)) as [|Hne]; [by left|right]. rewrite HP0. set_solver. }
  assert (Hrest : forall x, x ∈ concat (delete i bs) -> x <> l /\ x ∈ concat bs /\ x ∉ out_list out).
  { intros x Hx. split; [intros ->; apply Hout; rewrite HP0; set_solver|]. split; [rewrite HP0; set_solver|]. intros Ho. apply (D2 x); set_solver. }
  eapply hr_update; [exact R|exact Hi|exact Hc'|exact W|set_solver| | | | | | |].
  - apply NoDup_app. split; [done|]. split; [set_solver|]. apply NoDup_cons. split; [set_solver|done].
  - intros x Hx. destruct (decide (x = l)) as [->|Hne]; [right; by eexists|left]. set_solver.
  - intros x m Hx Hxm. destruct (Hin x Hx) as [->|[Hxc Hxo]]; [rewrite Hn in Hxm; by injection Hxm as <-|]. split; [by apply (hr_digest _ _ _ _ _ _ _ R)|].
    eapply (hr_place _ _ _ _ _ _ _ R); [exact Hi|]. set_solver.
  - intros l1 l2 H1 H2 Eq. assert (Hcase : forall y, y ∈ (ls1 ++ l :: ls2) ++ concat (delete i bs) -> y = l \/ y ∈ concat bs /\ y ∉ out_list out).
    { intros y [Hy|Hy]%elem_of_app; [by apply Hin|right; by apply Hrest]. }
    destruct (Hcase l1 H1) as [->|[C1 O1]], (Hcase l2 H2) as [->|[C2 O2]]; [done| | |by apply (hr_keys _ _ _ _ _ _ _ R)].
    + by rewrite Hno in Eq.
    + apply (equal_sym (pfnDigest := pfnDigest)) in Eq. by rewrite Hno in Eq.
  - intros x Hx. assert (Hx' : (x ∉ out_list out) /\ (x = l \/ g !! x = None)).
    { apply elem_of_app in Hx as [Hx|Hx]; [destruct (Hin x Hx) as [->|[C O]]; [split; [set_solver|by left]|split; [done|right; by apply (hr_out _ _ _ _ _ _ _ R)]]|].
      destruct (Hrest x Hx) as (_ & C & O). split; [done|right; by apply (hr_out _ _ _ _ _ _ _ R)]. }
    destruct Hx' as [O G]. unfold swapped_out. assert (Hd : delete l g !! x = None) by (destruct G as [->|G]; [apply lookup_delete_eq|by rewrite lookup_delete_None; right]).
    destruct out as [[y m]|]; [|done]. rewrite lookup_insert_ne; [done|]. cbn in O. set_solver.
  - intros x m Hx. unfold swapped_out in Hx. destruct out as [[y m']|].
    + destruct (decide (x = y)) as [->|Hne]; [rewrite lookup_insert_eq in Hx; injection Hx as <-; by apply Hm|]. rewrite lookup_insert_ne in Hx by done. apply lookup_delete_Some in Hx as [_ Hx].
      apply (lookup_weaken _ _ _ _ Hx), (hr_rest _ _ _ _ _ _ _ R).
    + apply lookup_delete_Some in Hx as [_ Hx]. apply (lookup_weaken _ _ _ _ Hx), (hr_rest _ _ _ _ _ _ _ R).
  - intros x. unfold swapped_out. destruct (decide (x = l)) as [->|Hne]; [split; [intros _; left; set_solver|intros _; right; by eexists]|].
    destruct out as [[y m]|]; cbn [out_list] in *.
    + destruct (decide (x = y)) as [->|Hney]; [rewrite lookup_insert_eq; split; [intros _; right; by eexists|intros _; left; set_solver]|]. rewrite lookup_insert_ne, lookup_delete_ne by done. set_solver.
    + rewrite lookup_delete_ne by done. set_solver.
Qed.

(** The two outcomes of an insertion: the node is new, or takes the place of the one
    with an equal key. *)
Lemma table_insert_ok β g t bs l n0 : ht_rep β g t bs -> g !! l = Some n0 ->
  exists t' bs' out, LwRtlHashTableInsert pfnGetKey pfnDigest pfnEqual t l = Some (t', fst <$> out) /\ ulSize t' = ulSize t /\ ulThreshold t' = ulThreshold t /\
    ht_rep β (swapped_out g l out) t' bs' /\
    match out with
    | None => concat bs' ≡ₚ l :: concat bs /\ forall x, x ∈ concat bs -> pfnEqual (pfnGetKey (β l)) (pfnGetKey (β x)) = false
    | Some (x, m) => exists rest, concat bs ≡ₚ x :: rest /\ concat bs' ≡ₚ l :: rest /\ pfnEqual (pfnGetKey (β l)) (pfnGetKey (β x)) = true
    end.
Proof using Type*.
  intros R Hl. assert (Hn : ht_nodes t !! l = Some n0) by (apply (lookup_weaken _ _ _ _ Hl), (hr_rest _ _ _ _ _ _ _ R)). assert (Hb := hr_body _ _ _ _ _ _ _ R _ _ Hn).
  unfold LwRtlHashTableInsert. rewrite Hn. cbn [mbind option_bind]. rewrite Hb. set (k := pfnGetKey (β l)) in *.
  destruct (store_outside _ _ _ _ _ _ (set_digest (pfnDigest k)) R Hl eq_refl) as (t1 & -> & R1 & Z1 & T1 & C1 & N1). cbn [mbind option_bind].
  assert (Hl1 : <[l := set_digest (pfnDigest k) n0]> g !! l = Some (set_digest (pfnDigest k) n0)) by apply lookup_insert_eq.
  assert (Hg : forall p out, swapped_out (<[l := set_next p (set_digest (pfnDigest k) n0)]> (<[l := set_digest (pfnDigest k) n0]> g)) l out = swapped_out g l out).
  { intros p out. unfold swapped_out. by rewrite insert_insert_eq, delete_insert_eq. }
  assert (Hnl : l ∉ concat bs). { intros Hin. by rewrite (hr_out _ _ _ _ _ _ _ R _ Hin) in Hl. }
  destruct (HashLookup_ok _ _ _ _ _ _ _ k R1) as (i & ls & Hi & Hmod & [(ls1 & x & ls2 & -> & E & ->)|[Hno ->]]); cbn [mbind option_bind is_ok].
  - destruct (read_slot_end _ _ _ _ _ _ (hr_chains _ _ _ _ _ _ _ R1) Hi) as (-> & m & Hm & Hcm). cbn [mbind option_bind]. rewrite Hm. cbn [mbind option_bind].
    destruct (store_outside _ _ _ _ _ _ (set_next (h_pNext m)) R1 Hl1 eq_refl) as (t2 & -> & R2 & Z2 & T2 & C2 & N2). cbn [mbind option_bind].
    assert (Hx : x ∈ concat bs) by (eapply elem_concat; [exact Hi|set_solver]). assert (Hls2 : forall y, y ∈ ls2 -> y ∈ concat bs) by (intros y Hy; eapply elem_concat; [exact Hi|set_solver]).
    destruct (link_in β _ t2 bs i ls1 (Some (x, m)) ls2 l (set_next (h_pNext m) (set_digest (pfnDigest k) n0)) R2 Hi) as (t3 & -> & Z3 & T3 & C3 & R3); [|apply lookup_insert_eq|done|by rewrite Z2| | |].
    { intros y m' [= <- <-]. rewrite N2; [done|]. by intros ->. }
    { cbn. eapply chain_agree; [|exact Hcm]. intros y Hy. apply N2. intros ->. by apply Hnl, Hls2. }
    { intros y Hy Hyx. destruct (pfnEqual _ (pfnGetKey (β y))) eqn:Ey; [|done]. exfalso. apply Hyx. rewrite (hr_keys_key _ _ _ _ y x k R Hy Hx Ey E). cbn. set_solver. }
    cbn [mbind option_bind]. exists t3, (<[i := ls1 ++ l :: ls2]> bs), (Some (x, m)). rewrite Hg in R3. split; [done|]. split; [congruence|]. split; [congruence|].
    assert (HP := concat_update bs i _ (ls1 ++ l :: ls2) Hi). assert (HP0 := concat_apart bs i _ Hi). split.
    + replace t3 with (set_count t3 (u32 (Z.of_nat (length (concat (<[i := ls1 ++ l :: ls2]> bs)))))); [exact R3|]. destruct t3. unfold set_count. cbn in C3 |- *. f_equal.
      rewrite C3, C2, C1, (hr_count _ _ _ _ _ _ _ R). do 2 f_equal. rewrite HP, HP0, !length_app. cbn. done.
    + exists (ls1 ++ ls2 ++ concat (delete i bs)). split; [rewrite HP0|split; [rewrite HP|done]]; rewrite <- app_assoc; cbn; symmetry; apply Permutation_middle.
  - destruct (store_outside _ _ _ _ _ _ (set_next None) R1 Hl1 eq_refl) as (t2 & -> & R2 & Z2 & T2 & C2 & N2). cbn [mbind option_bind].
    destruct (link_in β _ t2 bs i ls None [] l (set_next None (set_digest (pfnDigest k) n0)) R2) as (t3 & -> & Z3 & T3 & C3 & R3); [by rewrite app_nil_r|done|apply lookup_insert_eq|done|by rewrite Z2|done|by intros y Hy _; apply Hno|].
    cbn [mbind option_bind]. exists (set_count t3 (u32 (ulCount t3 + 1))), (<[i := ls ++ [l]]> bs), None. rewrite Hg in R3. split; [done|]. split; [cbn; congruence|]. split; [cbn; congruence|].
    assert (HP := concat_update bs i _ (ls ++ [l]) Hi). assert (HP0 := concat_apart bs i _ Hi).
    assert (HPL : concat (<[i := ls ++ [l]]> bs) ≡ₚ l :: concat bs) by (rewrite HP, HP0, <- app_assoc; symmetry; apply Permutation_middle). split; [|done].
    replace (u32 (ulCount t3 + 1)) with (u32 (Z.of_nat (length (concat (<[i := ls ++ [l]]> bs))))); [exact R3|]. rewrite C3, C2, C1, (hr_count _ _ _ _ _ _ _ R), HPL. cbn [length].
    unfold u32. rewrite Nat2Z.inj_succ, Zplus_mod_idemp_l. done.
Qed.

(** * Search and removal *)

Lemma find_key_ok β g t bs k : ht_rep β g t bs ->
  (exists l, l ∈ concat bs /\ pfnEqual k (pfnGetKey (β l)) = true /\ LwRtlHashTableFindKey pfnGetKey pfnDigest pfnEqual (Some t) k = Some (STATUS_SUCCESS, Some l)) \/
  (forall l, l ∈ concat bs -> pfnEqual k (pfnGetKey (β l)) = false) /\ LwRtlHashTableFindKey pfnGetKey pfnDigest pfnEqual (Some t) k = Some (STATUS_NOT_FOUND, None).
Proof using Type*.
  intros R. unfold LwRtlHashTableFindKey. destruct (HashLookup_ok _ _ _ _ _ _ _ k R) as (i & ls & Hi & _ & [(ls1 & l & ls2 & -> & E & ->)|[Hno ->]]); [left|right; done].
  exists l. split; [eapply elem_concat; [exact Hi|set_solver]|]. split; [done|]. cbn [mbind option_bind is_ok].
  destruct (read_slot_end _ _ _ _ _ _ (hr_chains _ _ _ _ _ _ _ R) Hi) as (-> & _). done.
Qed.

Lemma split_at_elem ls (l : loc) : l ∈ ls -> exists ls1 ls2, split_by (fun x => bool_decide (x = l)) ls = Some (ls1, l, ls2).
Proof.
  intros Hl. destruct (split_by _ ls) as [[[ls1 x] ls2]|] eqn:E; [apply split_by_Some in E as [_ E]; apply bool_decide_eq_true in E as ->; by do 2 eexists|].
  apply split_by_None with (l := l) in E; [|done]. by rewrite bool_decide_true in E.
Qed.

(** The node leaves the table, and stays in the heap as it is. *)
Lemma remove_ok β g t bs l : ht_rep β g t bs -> l ∈ concat bs ->
  exists t' bs' m, LwRtlHashTableRemove (Some t) (Some l) = Some (STATUS_SUCCESS, Some t') /\ ht_nodes t !! l = Some m /\ ht_nodes t' !! l = Some m /\
    ht_rep β (<[l := m]> g) t' bs' /\ concat bs ≡ₚ l :: concat bs'.
Proof using Type*.
  intros R Hl. destruct (hr_node _ _ _ _ _ _ _ _ R Hl) as (m & Hm & Hd & _). destruct (elem_concat_inv _ _ Hl) as (i & ls & Hi & Hli). assert (Hpl := hr_place _ _ _ _ _ _ _ R _ _ _ Hi Hli).
  unfold LwRtlHashTableRemove, HashLocate. rewrite Hm. cbn [mbind option_bind]. unfold bucket_of. destruct (hr_size _ _ _ _ _ _ _ R) as [Hs _].
  destruct (Z.eqb_spec (ulSize t) 0) as [|_]; [lia|]. cbn [mbind option_bind]. rewrite Hd, Hpl.
  destruct (chains_lookup _ _ _ _ (hr_chains _ _ _ _ _ _ _ R) Hi) as (p & Hp & Hc). rewrite (locate_loop_ok t l ls _ p); [|cbn; by rewrite Nat2Z.id|done|by eapply hr_fuel].
  destruct (split_at_elem _ _ Hli) as (ls1 & ls2 & E). rewrite E. apply split_by_Some in E as [-> _]. cbn [mbind option_bind is_ok].
  destruct (concat_delete_apart _ _ _ (hr_nodup _ _ _ _ _ _ _ R) Hi) as (D1 & D2 & D3). rewrite NoDup_app, NoDup_cons in D1. destruct D1 as (D11 & D12 & D13 & D14).
  destruct (read_slot_end _ _ _ _ _ _ (hr_chains _ _ _ _ _ _ _ R) Hi) as (_ & m' & Hm' & Hcm). rewrite Hm in Hm'. injection Hm' as <-.
  destruct (write_slot_ok t bs i ls1 (l :: ls2) ls2 (h_pNext m)) as (t' & -> & Hc' & W).
  { apply (hr_chains _ _ _ _ _ _ _ R). } { apply (hr_nodup _ _ _ _ _ _ _ R). } { done. } { done. } { set_solver. }
  cbn [mbind option_bind]. assert (HP := concat_update bs i _ (ls1 ++ ls2) Hi). assert (HP0 := concat_apart bs i _ Hi).
  assert (HPL : concat bs ≡ₚ l :: concat (<[i := ls1 ++ ls2]> bs)). { rewrite HP, HP0, <- !app_assoc. symmetry. apply Permutation_middle. }
  exists (set_count t' (u32 (ulCount t' - 1))), (<[i := ls1 ++ ls2]> bs), m. split; [done|]. split; [done|]. split; [cbn; rewrite (rl_agree _ _ _ W); [done|set_solver]|]. split; [|done].
  assert (Hsub : forall x, x ∈ (ls1 ++ ls2) ++ concat (delete i bs) -> x ∈ concat bs /\ x <> l).
  { intros x Hx. split; [rewrite HP0; set_solver|]. intros ->. apply elem_of_app in Hx as [Hx|Hx]; [set_solver|]. apply (D2 l); set_solver. }
  replace (u32 (ulCount t' - 1)) with (u32 (Z.of_nat (length (concat (<[i := ls1 ++ ls2]> bs))))).
  2: { rewrite (rl_count _ _ _ W), (hr_count _ _ _ _ _ _ _ R), HPL. cbn [length]. unfold u32. rewrite Zminus_mod_idemp_l. f_equal. lia. }
  eapply hr_update; [exact R|exact Hi|exact Hc'|exact W|set_solver| | | | | | |].
  - apply NoDup_app. split; [done|]. split; [set_solver|done].
  - intros x Hx. left. set_solver.
  - intros x n Hx Hn. split; [apply (hr_digest _ _ _ _ _ _ _ R); [by apply Hsub; set_solver|done]|]. eapply (hr_place _ _ _ _ _ _ _ R); [exact Hi|set_solver].
  - intros l1 l2 H1 H2. apply (hr_keys _ _ _ _ _ _ _ R); by apply Hsub.
  - intros x Hx. destruct (Hsub x Hx) as [Hxc Hne]. rewrite lookup_insert_ne by done. by apply (hr_out _ _ _ _ _ _ _ R).
  - intros x n Hx. destruct (decide (x = l)) as [->|Hne]; [rewrite lookup_insert_eq in Hx; by injection Hx as <-|]. rewrite lookup_insert_ne in Hx by done. apply (lookup_weaken _ _ _ _ Hx), (hr_rest _ _ _ _ _ _ _ R).
  - intros x. destruct (decide (x = l)) as [->|Hne]; [rewrite lookup_insert_eq; split; [intros _; right; by eexists|intros _; left; set_solver]|]. rewrite lookup_insert_ne by done. set_solver.
Qed.

(** * Iteration *)

(** The nodes [rest] are still to come. *)
Definition pending t (iter : LW_HASHTABLE_ITER) (rest : list loc) : Prop :=
  exists ls bs, rest = ls ++ concat bs /\ chain (ht_nodes t) (it_pNext iter) ls /\ Forall2 (chain (ht_nodes t)) (drop (Z.to_nat (ulIndex iter)) (ppBuckets t)) bs /\
    0 <= ulIndex iter <= ulSize t /\ Z.of_nat (length (ppBuckets t)) = ulSize t.

Lemma pending_start β g t bs : ht_rep β g t bs -> pending t LwRtlHashTableResetIter (concat bs).
Proof using Type*.
  intros R. exists [], bs. split; [done|]. split; [done|]. split; [apply (hr_chains _ _ _ _ _ _ _ R)|]. destruct (hr_size _ _ _ _ _ _ _ R). split; [cbn; lia|].
  rewrite <- (hr_len _ _ _ _ _ _ _ R). f_equal. by eapply Forall2_length, (hr_chains _ _ _ _ _ _ _ R).
Qed.

Lemma iterate_loop_ok t bs : forall n index,
  Forall2 (chain (ht_nodes t)) (drop (Z.to_nat index) (ppBuckets t)) bs -> 0 <= index -> Z.of_nat n = ulSize t - index -> Z.of_nat (length (ppBuckets t)) = ulSize t ->
  exists iter, iterate_loop n t index = Some (head (concat bs), iter) /\ pending t iter (tail (concat bs)).
Proof using Type*.
  induction bs as [|ls bs IH]; intros n index Hf Hi Hn Hl.
  - apply Forall2_length in Hf. rewrite length_drop in Hf. cbn in Hf. assert (n = O) as -> by lia. eexists. split; [done|]. exists [], []. split; [done|]. split; [done|]. cbn.
    split; [rewrite drop_ge by lia; constructor|lia].
  - assert (Hlen := Forall2_length _ _ _ Hf). rewrite length_drop in Hlen. cbn in Hlen. destruct n as [|n]; [lia|]. cbn [iterate_loop].
    destruct (lookup_lt_is_Some_2 (ppBuckets t) (Z.to_nat index)) as [p Hp]; [lia|]. rewrite (drop_S _ p _ Hp) in Hf. apply Forall2_cons in Hf as [Hc Hf].
    rewrite Hp. cbn [mbind option_bind]. replace (S (Z.to_nat index)) with (Z.to_nat (index + 1)) in Hf by lia. destruct ls as [|l ls]; cbn in Hc.
    + subst p. cbn [concat app]. apply IH; [done|lia..].
    + destruct Hc as (-> & m & Hm & Hc). rewrite Hm. cbn [mbind option_bind]. eexists. split; [done|]. exists ls, bs. cbn. split; [done|]. split; [done|]. split; [done|]. lia.
Qed.

Lemma iterate_ok t iter rest : pending t iter rest ->
  exists iter', LwRtlHashTableIterate t iter = Some (head rest, iter') /\ pending t iter' (tail rest).
Proof using Type*.
  intros (ls & bs & -> & Hc & Hf & Hi & Hl). unfold LwRtlHashTableIterate. destruct ls as [|l ls]; cbn in Hc.
  - rewrite Hc. apply iterate_loop_ok; [done|lia..].
  - destruct Hc as (-> & m & Hm & Hc). rewrite Hm. cbn [mbind option_bind]. eexists. split; [done|]. by exists ls, bs.
Qed.

(** Iteration does not depend on the nodes already returned. *)
Lemma pending_agree t t' iter rest : pending t iter rest -> (forall l, l ∈ rest -> ht_nodes t' !! l = ht_nodes t !! l) -> ulSize t' = ulSize t -> ppBuckets t' = ppBuckets t -> pending t' iter rest.
Proof using Type*.
  intros (ls & bs & -> & Hc & Hf & Hi & Hl) Ha Hs Hb. exists ls, bs. rewrite Hs, Hb. split; [done|]. split; [eapply chain_agree; [|exact Hc]; set_solver|]. split; [eapply chains_agree; [|exact Hf]; set_solver|done].
Qed.

(** * Resizing *)

Lemma swapped_delete g l : swapped_out g l None = delete l g.
Proof. done. Qed.

(** All nodes of a chain that is outside the table go into it, when their keys are
    new. *)
Lemma rehash_chain_ok β ls : forall g t bs p n,
  ht_rep β g t bs -> chain g p ls -> NoDup ls -> (length ls <= n)%nat ->
  (forall l1 l2, l1 ∈ ls ++ concat bs -> l2 ∈ ls ++ concat bs -> pfnEqual (pfnGetKey (β l1)) (pfnGetKey (β l2)) = true -> l1 = l2) ->
  exists t' bs' g', rehash_chain pfnGetKey pfnDigest pfnEqual n t p = Some t' /\ ht_rep β g' t' bs' /\ (forall l, g' !! l = if bool_decide (l ∈ ls) then None else g !! l) /\
    concat bs' ≡ₚ ls ++ concat bs /\ ulSize t' = ulSize t.
Proof using Type*.
  induction ls as [|l ls IH]; intros g t bs p n R Hc Hd Hn Hk; cbn in Hc.
  - subst p. exists t, bs, g. destruct n; cbn; (split; [done|]); (split; [done|]); (split; [intros l; by rewrite bool_decide_false by set_solver|done]).
  - destruct Hc as (-> & m & Hm & Hc). destruct n as [|n]; [cbn in Hn; lia|]. apply NoDup_cons in Hd as [Hl Hd]. cbn [rehash_chain].
    rewrite (lookup_weaken _ _ _ _ Hm (hr_rest _ _ _ _ _ _ _ R)). cbn [mbind option_bind].
    assert (Hnl : l ∉ concat bs). { intros Hin. by rewrite (hr_out _ _ _ _ _ _ _ R _ Hin) in Hm. }
    destruct (table_insert_ok _ _ _ _ _ _ R Hm) as (t1 & bs1 & out & -> & Z1 & _ & R1 & Hout). cbn [mbind option_bind]. destruct out as [[x mx]|].
    { exfalso. destruct Hout as (rest & HP & _ & Eq). assert (Hx : x ∈ concat bs) by (rewrite HP; set_solver). apply Hnl. rewrite (Hk l x); [done|set_solver|set_solver|done]. }
    destruct Hout as [HP _]. rewrite swapped_delete in R1. destruct (IH (delete l g) t1 bs1 (h_pNext m) n R1) as (t2 & bs2 & g2 & E2 & R2 & G2 & HP2 & Z2); [|done|cbn in Hn; lia| |].
    { eapply chain_agree; [|exact Hc]. intros y Hy. apply lookup_delete_ne. by intros ->. }
    { intros l1 l2 H1 H2. apply Hk; [rewrite HP in H1|rewrite HP in H2]; set_solver. }
    exists t2, bs2, g2. split; [done|]. split; [done|]. split; [|split; [rewrite HP2, HP; symmetry; apply Permutation_middle|congruence]].
    intros y. rewrite G2. destruct (decide (y ∈ ls)) as [Hy|Hy]; [by rewrite !bool_decide_true by set_solver|]. rewrite (bool_decide_false (y ∈ ls)) by done.
    destruct (decide (y = l)) as [->|Hne]; [rewrite lookup_delete_eq; by rewrite bool_decide_true by set_solver|]. rewrite lookup_delete_ne by done. by rewrite bool_decide_false by set_solver.
Qed.

Lemma chain_subset h p ls : chain h p ls -> forall l, l ∈ ls -> is_Some (h !! l).
Proof.
  revert p. induction ls as [|x ls IH]; intros p Hc l Hl; [set_solver|]. cbn in Hc. destruct Hc as (_ & m & Hm & Hc). apply elem_of_cons in Hl as [->|Hl]; [by eexists|by eapply IH].
Qed.

Lemma rehash_ok β obs : forall g t bs ps,
  ht_rep β g t bs -> Forall2 (chain g) ps obs -> NoDup (concat obs) ->
  (forall l1 l2, l1 ∈ concat obs ++ concat bs -> l2 ∈ concat obs ++ concat bs -> pfnEqual (pfnGetKey (β l1)) (pfnGetKey (β l2)) = true -> l1 = l2) ->
  exists t' bs' g', rehash pfnGetKey pfnDigest pfnEqual t ps = Some t' /\ ht_rep β g' t' bs' /\ (forall l, g' !! l = if bool_decide (l ∈ concat obs) then None else g !! l) /\
    concat bs' ≡ₚ concat obs ++ concat bs /\ ulSize t' = ulSize t.
Proof using Type*.
  induction obs as [|ls obs IH]; intros g t bs ps R Hf Hd Hk.
  - apply Forall2_nil_inv_r in Hf as ->. exists t, bs, g. split; [done|]. split; [done|]. split; [intros l; by rewrite bool_decide_false by set_solver|done].
  - apply Forall2_cons_inv_r in Hf as (p & ps' & Hc & Hf & ->). cbn [concat] in *. rewrite NoDup_app in Hd. destruct Hd as (D1 & D12 & D2). cbn [rehash].
    destruct (rehash_chain_ok β ls g t bs p (chain_fuel t) R Hc D1) as (t1 & bs1 & g1 & -> & R1 & G1 & HP1 & Z1).
    { unfold chain_fuel. rewrite <- size_dom. rewrite <- (size_list_to_set (C := gset loc) ls D1). apply Nat.le_le_succ_r, subseteq_size. intros l Hl. apply elem_of_list_to_set in Hl.
      destruct (chain_subset _ _ _ Hc _ Hl) as [m Hm]. apply elem_of_dom. exists m. by apply (lookup_weaken _ _ _ _ Hm), (hr_rest _ _ _ _ _ _ _ R). }
    { intros l1 l2 H1 H2. apply Hk; set_solver. }
    cbn [mbind option_bind]. destruct (IH g1 t1 bs1 ps' R1) as (t2 & bs2 & g2 & -> & R2 & G2 & HP2 & Z2); [|done| |].
    { eapply chains_agree; [|exact Hf]. intros l Hl. rewrite G1, bool_decide_false; [done|]. intros Hin. by apply (D12 l). }
    { intros l1 l2. rewrite HP1. intros H1 H2. apply Hk; set_solver. }
    exists t2, bs2, g2. split; [done|]. split; [done|]. split; [|split; [rewrite HP2, HP1, app_assoc, (Permutation_app_comm (concat obs)); done|congruence]].
    intros l. rewrite G2, G1. destruct (decide (l ∈ concat obs)) as [H1|H1]; [by rewrite !(bool_decide_true _) by set_solver|]. rewrite (bool_decide_false (l ∈ concat obs)) by done.
    destruct (decide (l ∈ ls)) as [H2|H2]; [by rewrite !bool_decide_true by set_solver|by rewrite !bool_decide_false by set_solver].
Qed.

Lemma concat_replicate_nil n : concat (replicate n (@nil loc)) = [].
Proof. by induction n. Qed.

Lemma hr_empty β h size thr : 0 < size < 2 ^ 32 -> (forall l n, h !! l = Some n -> h_body n = β l) ->
  ht_rep β h (mk_ht h size thr 0 (replicate (Z.to_nat size) None)) (replicate (Z.to_nat size) []).
Proof using Type*.
  intros Hs Hb. split; cbn; rewrite ?concat_replicate_nil; try done.
  - rewrite length_replicate. lia.
  - apply Forall2_replicate. done.
  - constructor.
  - intros i ls l [-> _]%lookup_replicate. set_solver.
  - set_solver.
  - set_solver.
  - set_solver.
  - set_solver.
Qed.

Lemma resize_ok β g t bs size : ht_rep β g t bs -> 0 < size < 2 ^ 32 ->
  exists t' bs', LwRtlHashTableResize pfnGetKey pfnDigest pfnEqual true (Some t) size = Some (STATUS_SUCCESS, Some t') /\ ht_rep β g t' bs' /\ concat bs' ≡ₚ concat bs /\
    ulSize t' = size /\ ulThreshold t' = RESIZE_THRESHOLD size.
Proof using Type*.
  intros R Hs. unfold LwRtlHashTableResize. destruct (Z.ltb_spec size 1) as [|_]; [lia|]. cbn [negb]. assert (Hbd := hr_body _ _ _ _ _ _ _ R).
  assert (R0 := hr_empty β (ht_nodes t) size (ulThreshold t) Hs Hbd).
  destruct (rehash_ok β bs _ _ _ _ R0 (hr_chains _ _ _ _ _ _ _ R) (hr_nodup _ _ _ _ _ _ _ R)) as (t1 & bs1 & g1 & -> & R1 & G1 & HP1 & Z1).
  { rewrite concat_replicate_nil, app_nil_r. apply (hr_keys _ _ _ _ _ _ _ R). }
  cbn [mbind option_bind]. rewrite concat_replicate_nil, app_nil_r in HP1. assert (g1 = g) as ->.
  { apply map_eq. intros l. rewrite G1. destruct (decide (l ∈ concat bs)) as [Hl|Hl]; [rewrite bool_decide_true by done; symmetry; by apply (hr_out _ _ _ _ _ _ _ R)|]. rewrite bool_decide_false by done.
    destruct (g !! l) as [m|] eqn:Hg; [by apply (lookup_weaken _ _ _ _ Hg), (hr_rest _ _ _ _ _ _ _ R)|]. apply not_elem_of_dom. rewrite (hr_dom _ _ _ _ _ _ _ R).
    rewrite not_elem_of_union, elem_of_list_to_set, not_elem_of_dom. done. }
  exists (set_threshold t1 (RESIZE_THRESHOLD size)), bs1. split; [done|]. split; [|done]. by destruct R1.
Qed.

Lemma resize_fails t size malloc : size < 1 \/ malloc = false -> exists st, LwRtlHashTableResize pfnGetKey pfnDigest pfnEqual malloc (Some t) size = Some (st, Some t) /\ is_ok st = false.
Proof using Type.
  intros H. unfold LwRtlHashTableResize. destruct (Z.ltb_spec size 1) as [|Hs]; [by eexists|]. destruct H as [| ->]; [lia|]. by eexists.
Qed.

(** With or without the memory to grow, the insertion is done. *)
Lemma resize_and_insert_ok β g t bs l n0 malloc : ht_rep β g t bs -> g !! l = Some n0 ->
  exists t' bs' out, LwRtlHashTableResizeAndInsert pfnGetKey pfnDigest pfnEqual malloc t l = Some (t', fst <$> out) /\ ht_rep β (swapped_out g l out) t' bs' /\
    match out with
    | None => concat bs' ≡ₚ l :: concat bs /\ forall x, x ∈ concat bs -> pfnEqual (pfnGetKey (β l)) (pfnGetKey (β x)) = false
    | Some (x, m) => exists rest, concat bs ≡ₚ x :: rest /\ concat bs' ≡ₚ l :: rest /\ pfnEqual (pfnGetKey (β l)) (pfnGetKey (β x)) = true
    end.
Proof using Type*.
  intros R Hl. unfold LwRtlHashTableResizeAndInsert.
  assert (Hr : exists t1 bs1, (if ulThreshold t <=? ulCount t then '(_, t) ← LwRtlHashTableResize pfnGetKey pfnDigest pfnEqual malloc (Some t) (u32 (ulSize t * 2)); t else Some t) = Some t1 /\
    ht_rep β g t1 bs1 /\ concat bs1 ≡ₚ concat bs).
  { destruct (_ <=? _); [|by exists t, bs]. destruct (decide (u32 (ulSize t * 2) < 1 \/ malloc = false)) as [Hf|Hf].
    - destruct (resize_fails t _ _ Hf) as (st & -> & _). by exists t, bs.
    - assert (malloc = true) as -> by (destruct malloc; naive_solver). destruct (resize_ok β g t bs (u32 (ulSize t * 2)) R) as (t1 & bs1 & -> & R1 & HP & _); [|by exists t1, bs1].
      unfold u32 in *. assert (Hm := Z.mod_pos_bound (ulSize t * 2) (2 ^ 32) ltac:(lia)). lia. }
  destruct Hr as (t1 & bs1 & -> & R1 & HP). cbn [mbind option_bind]. destruct (table_insert_ok _ _ _ _ _ _ R1 Hl) as (t2 & bs2 & out & -> & _ & _ & R2 & Hout).
  exists t2, bs2, out. split; [done|]. split; [done|]. destruct out as [[x m]|].
  - destruct Hout as (rest & H1 & H2 & H3). exists rest. by rewrite <- HP.
  - destruct Hout as [H1 H2]. rewrite HP in H1. split; [done|]. intros x Hx. apply H2. by rewrite HP.
Qed.
End Table.
