(* ===== verification/HashMap.v ===== *)
(** Hash maps are sets of pairs with distinct keys: the operations of [Hash] on maps
    refine those on a list of pairs; iteration, clearing and the faults of freeing. *)

From stdpp Require Import gmap functions.
From S2P Require Import Prelude SecurityTypes Hash HashRepr HashTable.

(** * The abstract map *)

Section Spec.
Context {K V : Type} (pfnEqual : K -> K -> bool).
Abbreviation pair := (K * V)%type.

(** The pairs of a map. *)
Definition pairs_find (k : K) (ps : list pair) : option pair := find (fun p => pfnEqual k p.1) ps.
Definition pairs_remove (k : K) (ps : list pair) : list pair := List.filter (fun p => negb (pfnEqual k p.1)) ps.

Inductive map_op :=
  | OpMapInsert (malloc_node malloc_array : bool) (k : K) (v : V)
  | OpMapRemove (k : K)
  | OpMapFind (k : K)
  | OpMapCount.

(** What an operation gives back. *)
Inductive map_result :=
  | GotPair (status : NTSTATUS) (p : option pair)
  | GotValue (status : NTSTATUS) (v : option V)
  | GotCount (n : Z).

Definition found (p : option pair) : NTSTATUS := match p with Some _ => STATUS_SUCCESS | None => STATUS_NOT_FOUND end.

Definition spec_op (ps : list pair) (op : map_op) : map_result * list pair :=
  match op with
  | OpMapInsert false _ k v => (GotPair STATUS_INSUFFICIENT_RESOURCES None, ps)
  | OpMapInsert true _ k v => (GotPair STATUS_SUCCESS (pairs_find k ps), (k, v) :: pairs_remove k ps)
  | OpMapRemove k => (GotPair (found (pairs_find k ps)) (pairs_find k ps), pairs_remove k ps)
  | OpMapFind k => (GotValue (found (pairs_find k ps)) (snd <$> pairs_find k ps), ps)
  | OpMapCount => (GotCount (u32 (Z.of_nat (length ps))), ps)
  end.

Fixpoint spec_ops (ps : list pair) (ops : list map_op) : list map_result * list pair :=
  match ops with
  | [] => ([], ps)
  | op :: ops => let '(r, ps) := spec_op ps op in let '(rs, ps) := spec_ops ps ops in (r :: rs, ps)
  end.

(** The same on a map. *)
Context (pfnDigest : K -> Z).
Abbreviation hashmap := (LW_HASHTABLE pair).

Definition map_run_op (t : hashmap) (op : map_op) : option (map_result * hashmap) :=
  match op with
  | OpMapInsert m1 m2 k v => '(st, t, p) ← LwRtlHashMapInsert pfnDigest pfnEqual m1 m2 (Some t) k v; t ← t; Some (GotPair st p, t)
  | OpMapRemove k => '(st, t, p) ← LwRtlHashMapRemove pfnDigest pfnEqual (Some t) k; t ← t; Some (GotPair st p, t)
  | OpMapFind k => '(st, v) ← LwRtlHashMapFindKey pfnDigest pfnEqual (Some t) k; Some (GotValue st v, t)
  | OpMapCount => Some (GotCount (LwRtlHashMapGetCount t), t)
  end.

Fixpoint map_run_ops (t : hashmap) (ops : list map_op) : option (list map_result * hashmap) :=
  match ops with
  | [] => Some ([], t)
  | op :: ops => '(r, t) ← map_run_op t op; '(rs, t) ← map_run_ops t ops; Some (r :: rs, t)
  end.

(** A map has the pairs [ps], in some order: one node for each, and no other. *)
Definition map_rep (t : hashmap) (ps : list pair) : Prop :=
  exists β bs, ht_rep HashPairNodeGetKey pfnDigest pfnEqual β ∅ t bs /\ ps ≡ₚ β <$> concat bs.
End Spec.

Arguments map_op : clear implicits.
Arguments map_result : clear implicits.

Section Map.
Context {K V : Type} (pfnDigest : K -> Z) (pfnEqual : K -> K -> bool) `{!HashFunctions pfnDigest pfnEqual}.
Abbreviation pair := (K * V)%type.
Abbreviation hashmap := (LW_HASHTABLE pair).
Abbreviation map_rep := (map_rep pfnEqual pfnDigest).
Abbreviation ht_rep := (ht_rep HashPairNodeGetKey pfnDigest pfnEqual).
Implicit Types (t : hashmap) (ps : list pair) (β : loc -> pair).

(** * Pairs with distinct keys *)

Lemma pairs_find_None k ps : (forall p, p ∈ ps -> pfnEqual k p.1 = false) -> pairs_find pfnEqual k ps = None /\ pairs_remove pfnEqual k ps = ps.
Proof using Type*.
  induction ps as [|p ps IH]; intros Hp; [done|]. unfold pairs_find, pairs_remove in *. cbn. rewrite (Hp p) by set_solver. cbn. destruct IH as [-> ->]; [|done]. intros q Hq. apply Hp. set_solver.
Qed.

Lemma pairs_find_Some k p ps1 ps2 : pfnEqual k p.1 = true -> (forall q, q ∈ ps1 ++ ps2 -> pfnEqual k q.1 = false) ->
  pairs_find pfnEqual k (ps1 ++ p :: ps2) = Some p /\ pairs_remove pfnEqual k (ps1 ++ p :: ps2) = ps1 ++ ps2.
Proof using Type*.
  intros Ek. induction ps1 as [|q ps1 IH]; intros Hq; cbn in Hq |- *.
  - unfold pairs_find, pairs_remove. cbn. rewrite Ek. cbn. split; [done|]. by apply (pairs_find_None k ps2).
  - unfold pairs_find, pairs_remove in *. cbn. rewrite (Hq q) by set_solver. cbn. destruct IH as [-> ->]; [|done]. intros r Hr. apply Hq. set_solver.
Qed.

(** The pair with the key of a node, and the others. *)
Lemma pairs_at_node β g t bs l ls ps k : ht_rep β g t bs -> concat bs ≡ₚ l :: ls -> ps ≡ₚ β <$> concat bs -> pfnEqual k (β l).1 = true ->
  pairs_find pfnEqual k ps = Some (β l) /\ pairs_remove pfnEqual k ps ≡ₚ β <$> ls.
Proof using Type*.
  intros R HP Hps Ek. rewrite HP in Hps. cbn in Hps. symmetry in Hps. destruct (Permutation_cons_inv_r _ _ _ (Permutation_sym Hps)) as (ps1 & ps2 & -> & Hr).
  destruct (pairs_find_Some k (β l) ps1 ps2 Ek) as [-> ->]; [|by rewrite Hr].
  intros q Hq. rewrite <- Hr in Hq. apply list_elem_of_fmap in Hq as (x & -> & Hx). destruct (pfnEqual k (β x).1) eqn:E; [|done]. exfalso.
  assert (Hd := hr_nodup _ _ _ _ _ _ _ R). rewrite HP in Hd. apply NoDup_cons in Hd as [Hd _]. apply Hd.
  replace l with x; [done|]. eapply (hr_keys_key HashPairNodeGetKey pfnDigest pfnEqual); [exact R|rewrite HP; set_solver|rewrite HP; set_solver|exact E|exact Ek].
Qed.

Lemma pairs_no_node β bs ps k : ps ≡ₚ β <$> concat bs -> (forall l, l ∈ concat bs -> pfnEqual k (β l).1 = false) -> pairs_find pfnEqual k ps = None /\ pairs_remove pfnEqual k ps = ps.
Proof using Type*.
  intros Hps Hno. apply pairs_find_None. intros p Hp. rewrite Hps in Hp. apply list_elem_of_fmap in Hp as (l & -> & Hl). by apply Hno.
Qed.

(** * Nodes come and go *)

Lemma hr_alloc β g t bs l n : ht_rep β g t bs -> ht_nodes t !! l = None ->
  ht_rep (<[l := h_body n]> β) (<[l := n]> g) (set_nodes t (<[l := n]> (ht_nodes t))) bs.
Proof using Type*.
  intros R Hl. assert (Hb : forall x, x <> l -> <[l := h_body n]> β x = β x) by (intros x Hx; by apply fn_lookup_insert_ne).
  assert (Hout : forall x, x ∈ concat bs -> x <> l). { intros x Hx ->. destruct (hr_node _ _ _ _ _ _ _ _ R Hx) as (m & Hm & _). congruence. }
  destruct R as [R1 R2 R3 R4 R5 R6 R7 R8 R9 R10 R11 R12]. split; try done; cbn.
  - unfold table_chains in *. cbn. eapply chains_agree; [|exact R3]. intros x Hx. apply lookup_insert_ne. intros ->. by apply (Hout x).
  - intros i ls x Hi Hx. rewrite Hb by (eapply Hout, elem_concat; done). by apply (R5 _ ls).
  - intros x m Hx Hm. rewrite lookup_insert_ne in Hm by (intros ->; by apply (Hout x)). rewrite Hb by auto. by apply R6.
  - intros x y Hx Hy. rewrite !Hb by auto. auto.
  - intros x m. destruct (decide (x = l)) as [->|Hne]; [rewrite lookup_insert_eq; intros [= <-]; by rewrite fn_lookup_insert|]. rewrite lookup_insert_ne, Hb by done. apply R8.
  - rewrite !dom_insert_L, R10. set_solver.
  - intros x Hx. rewrite lookup_insert_ne by (intros ->; by apply (Hout x)). by apply R11.
  - by apply insert_mono.
Qed.

Lemma hr_free β g t bs l m : ht_rep β g t bs -> g !! l = Some m -> ht_rep β (delete l g) (set_nodes t (delete l (ht_nodes t))) bs.
Proof using Type*.
  intros R Hl. assert (Hout : forall x, x ∈ concat bs -> x <> l). { intros x Hx ->. by rewrite (hr_out _ _ _ _ _ _ _ R _ Hx) in Hl. }
  destruct R as [R1 R2 R3 R4 R5 R6 R7 R8 R9 R10 R11 R12]. split; try done; cbn.
  - unfold table_chains in *. cbn. eapply chains_agree; [|exact R3]. intros x Hx. apply lookup_delete_ne. intros ->. by apply (Hout x).
  - intros x n Hx Hn. apply lookup_delete_Some in Hn as [_ Hn]. by apply R6.
  - intros x n Hn. apply lookup_delete_Some in Hn as [_ Hn]. by apply R8.
  - rewrite !dom_delete_L, R10. apply leibniz_equiv. intros x. specialize (Hout x). rewrite !elem_of_difference, !elem_of_union, elem_of_difference, elem_of_list_to_set, elem_of_singleton. naive_solver.
  - intros x Hx. rewrite lookup_delete_None. right. by apply R11.
  - by apply delete_mono.
Qed.

(** * The operations *)

Lemma map_insert_ok t ps m2 k v : map_rep t ps ->
  exists t', LwRtlHashMapInsert pfnDigest pfnEqual true m2 (Some t) k v = Some (STATUS_SUCCESS, Some t', pairs_find pfnEqual k ps) /\ map_rep t' ((k, v) :: pairs_remove pfnEqual k ps).
Proof using Type*.
  intros (β & bs & R & Hps). unfold LwRtlHashMapInsert. cbn [negb]. set (l := fresh (dom (ht_nodes t))).
  assert (Hl : ht_nodes t !! l = None) by (apply not_elem_of_dom, is_fresh). assert (R1 := hr_alloc _ _ _ _ l (mk_hnode None 0 (k, v)) R Hl). cbn [h_body] in R1.
  set (β' := <[l := (k, v)]> β) in *. assert (Hbl : β' l = (k, v)) by (unfold β'; by rewrite fn_lookup_insert).
  assert (Hps' : ps ≡ₚ β' <$> concat bs).
  { rewrite Hps. apply Permutation_refl', list_fmap_ext. intros i x Hx. unfold β'. rewrite fn_lookup_insert_ne; [done|]. intros ->.
    destruct (hr_node _ _ _ _ _ _ _ _ R (list_elem_of_lookup_2 _ _ _ Hx)) as (m & Hm & _). congruence. }
  destruct (resize_and_insert_ok HashPairNodeGetKey pfnDigest pfnEqual β' _ _ bs l (mk_hnode None 0 (k, v)) m2 R1) as (t' & bs' & out & -> & R' & Hout); [apply lookup_insert_eq|].
  cbn [mbind option_bind]. destruct out as [[x m]|]; cbn [fmap option_fmap option_map fst].
  - destruct Hout as (rest & HP & HP' & Ek). unfold HashPairNodeGetKey in Ek. rewrite Hbl in Ek. cbn [fst] in Ek. cbn [swapped_out] in R'. rewrite delete_insert_id in R' by done.
    assert (Hx : ht_nodes t' !! x = Some m). { eapply lookup_weaken; [|apply (hr_rest _ _ _ _ _ _ _ R')]. apply lookup_insert_eq. }
    rewrite Hx. cbn [mbind option_bind]. destruct (pairs_at_node _ _ _ _ _ _ _ _ R1 HP Hps' Ek) as [-> Hr]. rewrite (hr_body _ _ _ _ _ _ _ R' _ _ Hx).
    eexists. split; [done|]. exists β', bs'. split; [|rewrite HP', Hr; cbn; by rewrite Hbl].
    assert (Hf := hr_free _ _ _ _ x m R' (lookup_insert_eq _ _ _)). by rewrite delete_insert_eq, delete_empty in Hf.
  - destruct Hout as [HP Hno]. cbn [swapped_out] in R'. rewrite delete_insert_id in R' by done. destruct (pairs_no_node β' bs ps k Hps') as [-> ->].
    { intros x Hx. specialize (Hno x Hx). unfold HashPairNodeGetKey in Hno. by rewrite Hbl in Hno. }
    exists t'. split; [done|]. exists β', bs'. split; [done|]. rewrite HP, Hps'. cbn. by rewrite Hbl.
Qed.

Lemma map_remove_ok t ps k : map_rep t ps ->
  exists t', LwRtlHashMapRemove pfnDigest pfnEqual (Some t) k = Some (found (pairs_find pfnEqual k ps), Some t', pairs_find pfnEqual k ps) /\ map_rep t' (pairs_remove pfnEqual k ps).
Proof using Type*.
  intros (β & bs & R & Hps). unfold LwRtlHashMapRemove. destruct (find_key_ok _ _ _ _ _ _ _ k R) as [(l & Hl & Ek & ->)|[Hno ->]]; cbn [mbind option_bind is_ok].
  - change (is_ok STATUS_SUCCESS) with true. cbn iota. destruct (remove_ok _ _ _ _ _ _ _ l R Hl) as (t' & bs' & m & -> & Hm & Hm' & R' & HP). cbn [mbind option_bind]. rewrite Hm'. cbn [mbind option_bind].
    destruct (pairs_at_node _ _ _ _ _ _ _ _ R HP Hps Ek) as [-> Hr]. rewrite (hr_body _ _ _ _ _ _ _ R' _ _ Hm'). eexists. split; [done|]. exists β, bs'. split; [|done].
    assert (Hf := hr_free _ _ _ _ l m R' (lookup_insert_eq _ _ _)). by rewrite delete_insert_eq, delete_empty in Hf.
  - destruct (pairs_no_node β bs ps k Hps Hno) as [-> ->]. exists t. split; [done|]. by exists β, bs.
Qed.

Lemma map_find_ok t ps k : map_rep t ps -> LwRtlHashMapFindKey pfnDigest pfnEqual (Some t) k = Some (found (pairs_find pfnEqual k ps), snd <$> pairs_find pfnEqual k ps).
Proof using Type*.
  intros (β & bs & R & Hps). unfold LwRtlHashMapFindKey. destruct (find_key_ok _ _ _ _ _ _ _ k R) as [(l & Hl & Ek & ->)|[Hno ->]]; cbn [mbind option_bind is_ok].
  - destruct (hr_node _ _ _ _ _ _ _ _ R Hl) as (m & -> & _ & Hb). cbn [mbind option_bind]. rewrite Hb. apply elem_of_Permutation in Hl as [ls HP].
    by destruct (pairs_at_node _ _ _ _ _ _ _ _ R HP Hps Ek) as [-> _].
  - by destruct (pairs_no_node β bs ps k Hps Hno) as [-> _].
Qed.

Lemma map_count_ok t ps : map_rep t ps -> LwRtlHashMapGetCount t = u32 (Z.of_nat (length ps)) /\ size (ht_nodes t) = length ps.
Proof using Type*.
  intros (β & bs & R & Hps). unfold LwRtlHashMapGetCount, LwRtlHashTableGetCount. rewrite Hps, length_fmap. split; [apply (hr_count _ _ _ _ _ _ _ R)|].
  rewrite <- size_dom, (hr_dom _ _ _ _ _ _ _ R), dom_empty_L, union_empty_r_L. apply size_list_to_set, (hr_nodup _ _ _ _ _ _ _ R).
Qed.

Lemma map_create_ok `{!Inhabited K, !Inhabited V} : exists t, LwRtlCreateHashMap (K := K) (V := V) true true true true = (STATUS_SUCCESS, Some t) /\ map_rep t [].
Proof using Type*.
  eexists. split; [reflexivity|]. exists (fun _ => inhabitant), (replicate 17 []). split; [|by rewrite concat_replicate_nil]. refine (hr_empty _ pfnDigest pfnEqual _ ∅ 17 (RESIZE_THRESHOLD 17) _ _); [done|]. intros l n. by rewrite lookup_empty.
Qed.

Lemma map_op_ok t ps op : map_rep t ps -> exists t', map_run_op pfnEqual pfnDigest t op = Some ((spec_op pfnEqual ps op).1, t') /\ map_rep t' (spec_op pfnEqual ps op).2.
Proof using Type*.
  intros R. destruct op as [m1 m2 k v|k|k|]; cbn [map_run_op].
  - destruct m1; [|by exists t]. destruct (map_insert_ok t ps m2 k v R) as (t' & -> & R'). by exists t'.
  - destruct (map_remove_ok t ps k R) as (t' & -> & R'). by exists t'.
  - rewrite (map_find_ok t ps k R). by exists t.
  - destruct (map_count_ok t ps R) as [-> _]. by exists t.
Qed.

Lemma map_ops_ok ops : forall t ps, map_rep t ps -> exists t', map_run_ops pfnEqual pfnDigest t ops = Some ((spec_ops pfnEqual ps ops).1, t') /\ map_rep t' (spec_ops pfnEqual ps ops).2.
Proof using Type*.
  induction ops as [|op ops IH]; intros t ps R; [by exists t|]. cbn [map_run_ops spec_ops]. destruct (map_op_ok t ps op R) as (t1 & -> & R1). destruct (spec_op pfnEqual ps op) as [r ps1]. cbn [mbind option_bind fst snd] in *.
  destruct (IH t1 ps1 R1) as (t2 & -> & R2). destruct (spec_ops pfnEqual ps1 ops) as [rs ps2]. by exists t2.
Qed.

(** * Iteration and clearing *)

(** The loop of a client over all pairs. *)
Fixpoint map_iterate (n : nat) (t : hashmap) (iter : LW_HASHTABLE_ITER) : option (list pair) :=
  match n with
  | O => None
  | S n' => '(p, iter) ← LwRtlHashMapIterate t iter; match p with None => Some [] | Some p => ps ← map_iterate n' t iter; Some (p :: ps) end
  end.

Definition bodies t (β : loc -> pair) (rest : list loc) : Prop := forall l, l ∈ rest -> exists m, ht_nodes t !! l = Some m /\ h_body m = β l.

Lemma map_iterate_ok t β rest : forall iter n, pending t iter rest -> bodies t β rest -> (length rest < n)%nat -> map_iterate n t iter = Some (β <$> rest).
Proof using Type*.
  induction rest as [|l rest IH]; intros iter n Hp Hb Hn; (destruct n as [|n]; [cbn in Hn; lia|]); cbn [map_iterate]; unfold LwRtlHashMapIterate; destruct (iterate_ok HashPairNodeGetKey pfnDigest pfnEqual _ _ _ Hp) as (iter' & -> & Hp'); cbn [mbind option_bind head].
  - done.
  - destruct (Hb l) as (m & -> & Hm); [set_solver|]. cbn [mbind option_bind]. rewrite (IH iter' n Hp'); [cbn; by rewrite Hm|intros x Hx; apply Hb; set_solver|cbn in Hn; lia].
Qed.

Lemma free_node_eq b l (h : gmap loc (LW_HASHTABLE_NODE pair)) m log : h !! l = Some m -> HashPairFreeNode b l h log = if b then Some (delete l h, log ++ [h_body m]) else None.
Proof using Type. intros Hm. unfold HashPairFreeNode. rewrite Hm. by destruct b. Qed.

Lemma clear_loop_ok β rest : forall t iter log n, pending t iter rest -> bodies t β rest -> NoDup rest -> (length rest < n)%nat ->
  exists h, clear_loop n (HashPairFreeNode true) t iter log = Some (set_nodes t h, log ++ (β <$> rest)) /\ dom h = dom (ht_nodes t) ∖ list_to_set rest.
Proof using Type*.
  induction rest as [|l rest IH]; intros t iter log n Hp Hb Hd Hn; (destruct n as [|n]; [cbn in Hn; lia|]); cbn [clear_loop]; destruct (iterate_ok HashPairNodeGetKey pfnDigest pfnEqual _ _ _ Hp) as (iter' & -> & Hp'); cbn [mbind option_bind head].
  - exists (ht_nodes t). rewrite app_nil_r. split; [by destruct t|]. set_solver.
  - apply NoDup_cons in Hd as [Hl Hd]. destruct (Hb l) as (m & Hlm & Hm); [set_solver|]. rewrite (free_node_eq _ _ _ _ _ Hlm). cbn [mbind option_bind].
    assert (Ha : forall x, x ∈ rest -> ht_nodes (set_nodes t (delete l (ht_nodes t))) !! x = ht_nodes t !! x) by (intros x Hx; apply lookup_delete_ne; by intros ->).
    destruct (IH (set_nodes t (delete l (ht_nodes t))) iter' (log ++ [h_body m]) n) as (h & E & Hh); [|intros x Hx; rewrite Ha by done; apply Hb; set_solver|done|cbn in Hn; lia|].
    { by eapply (pending_agree HashPairNodeGetKey pfnDigest pfnEqual). }
    exists h. split; [rewrite E, Hm, <- app_assoc; done|]. rewrite Hh. cbn. rewrite dom_delete_L. set_solver.
Qed.

Lemma map_bodies β g t bs : ht_rep β g t bs -> bodies t β (concat bs).
Proof using Type*. intros R l Hl. destruct (hr_node _ _ _ _ _ _ _ _ R Hl) as (m & Hm & _ & Hb). by exists m. Qed.

Lemma map_fuel β t bs : ht_rep β ∅ t bs -> length (concat bs) = size (ht_nodes t).
Proof using Type*. intros R. rewrite <- size_dom, (hr_dom _ _ _ _ _ _ _ R), dom_empty_L, union_empty_r_L. symmetry. apply size_list_to_set, (hr_nodup _ _ _ _ _ _ _ R). Qed.

Lemma map_clear_ok t ps : map_rep t ps -> exists t' log, LwRtlHashMapClear t true = Some (t', log) /\ log ≡ₚ ps /\ map_rep t' [] /\ ht_nodes t' = ∅.
Proof using Type*.
  intros (β & bs & R & Hps). unfold LwRtlHashMapClear, LwRtlHashTableClear.
  destruct (clear_loop_ok β (concat bs) t LwRtlHashTableResetIter [] (chain_fuel t)) as (h & -> & Hh).
  { by eapply pending_start. } { by eapply map_bodies. } { apply (hr_nodup _ _ _ _ _ _ _ R). } { unfold chain_fuel. rewrite (map_fuel _ _ _ R). lia. }
  assert (h = ∅) as ->. { apply dom_empty_inv_L. rewrite Hh, (hr_dom _ _ _ _ _ _ _ R). set_solver. }
  cbn [mbind option_bind]. eexists _, _. split; [done|]. split; [by rewrite Hps|]. split; [|done]. exists β, (replicate (Z.to_nat (ulSize t)) []). split; [|by rewrite concat_replicate_nil].
  refine (hr_empty _ pfnDigest pfnEqual β ∅ (ulSize t) (ulThreshold t) (hr_size _ _ _ _ _ _ _ R) _). intros l n. by rewrite lookup_empty.
Qed.

Lemma map_free_ok t ps : map_rep t ps -> LwRtlFreeHashMap (Some t) = match ps with [] => Some ∅ | _ => None end.
Proof using Type*.
  intros (β & bs & R & Hps). unfold LwRtlFreeHashMap, LwRtlHashMapClear, LwRtlHashTableClear, chain_fuel. cbn [clear_loop].
  destruct (iterate_ok HashPairNodeGetKey pfnDigest pfnEqual _ _ _ (pending_start _ _ _ _ _ _ _ R)) as (iter & -> & _). cbn [mbind option_bind]. destruct (concat bs) as [|l ls] eqn:E; cbn [head].
  - apply Permutation_nil_r in Hps as ->. cbn. f_equal. apply dom_empty_inv_L. cbn. rewrite (hr_dom _ _ _ _ _ _ _ R), E. set_solver.
  - destruct (map_bodies _ _ _ _ R l) as (m & Hm & _); [rewrite E; set_solver|]. rewrite (free_node_eq _ _ _ _ _ Hm). cbn. destruct ps; [|done]. by apply Permutation_nil_l in Hps.
Qed.
End Map.

(** * Properties *)

(** C12: a hash map is a set of pairs with distinct keys. From its creation on, any
    sequence of insertions, removals, searches and counts, whichever allocations
    fail, runs without a fault and gives the results of the same operations on a list
    of pairs: an insertion gives back the pair with an equal key that it replaces, a
    removal the pair it takes out, and a table that cannot grow is no worse. The map
    has one node for each pair and no other, so no node leaks. *)
Theorem hashmap_refines {K V : Type} (pfnDigest : K -> Z) (pfnEqual : K -> K -> bool) `{!HashFunctions pfnDigest pfnEqual, !Inhabited K, !Inhabited V} (ops : list (map_op K V)) :
  exists t0 t,
    LwRtlCreateHashMap true true true true = (STATUS_SUCCESS, Some t0) /\
    map_run_ops pfnEqual pfnDigest t0 ops = Some ((spec_ops pfnEqual [] ops).1, t) /\
    map_rep pfnEqual pfnDigest t (spec_ops pfnEqual [] ops).2 /\ size (ht_nodes t) = length (spec_ops pfnEqual [] ops).2.
Proof.
  destruct (map_create_ok (V := V) pfnDigest pfnEqual) as (t0 & E0 & R0). destruct (map_ops_ok pfnDigest pfnEqual ops t0 [] R0) as (t & E & R). exists t0, t.
  split; [done|]. split; [done|]. split; [done|]. by eapply map_count_ok.
Qed.

(** A pair of functions on numbers. *)
Lemma pointer_functions : HashFunctions LwRtlHashDigestPointer LwRtlHashEqualPointer.
Proof.
  unfold LwRtlHashDigestPointer, LwRtlHashEqualPointer. split; intros *; rewrite ?Z.eqb_eq; try lia; try congruence. unfold u32. apply Z.mod_pos_bound. lia.
Qed.

Definition sample_ops : list (map_op Z Z) :=
  [OpMapInsert true true 4 10; OpMapInsert true false 72 20; OpMapInsert true true 4 30; OpMapInsert false true 8 1; OpMapFind 72; OpMapRemove 4; OpMapRemove 4; OpMapCount].

Lemma hashmap_refines_witness :
  HashFunctions LwRtlHashDigestPointer LwRtlHashEqualPointer /\
  (spec_ops LwRtlHashEqualPointer [] sample_ops).1 =
    [GotPair STATUS_SUCCESS None; GotPair STATUS_SUCCESS None; GotPair STATUS_SUCCESS (Some (4, 10)); GotPair STATUS_INSUFFICIENT_RESOURCES None; GotValue STATUS_SUCCESS (Some 20);
     GotPair STATUS_SUCCESS (Some (4, 30)); GotPair STATUS_NOT_FOUND None; GotCount 1] /\
  exists t0 t,
    LwRtlCreateHashMap true true true true = (STATUS_SUCCESS, Some t0) /\
    map_run_ops LwRtlHashEqualPointer LwRtlHashDigestPointer t0 sample_ops = Some ((spec_ops LwRtlHashEqualPointer [] sample_ops).1, t) /\
    map_rep LwRtlHashEqualPointer LwRtlHashDigestPointer t (spec_ops LwRtlHashEqualPointer [] sample_ops).2 /\ size (ht_nodes t) = length (spec_ops LwRtlHashEqualPointer [] sample_ops).2.
Proof. split; [exact pointer_functions|]. split; [vm_compute; reflexivity|]. apply (hashmap_refines LwRtlHashDigestPointer LwRtlHashEqualPointer (HashFunctions0 := pointer_functions)). Defined.

(** C22: from a reset iterator, iteration gives every pair of a map once and then ends;
    clearing calls the function for every pair once and leaves an empty map and no
    node. *)
Theorem hashmap_enumerates {K V : Type} (pfnDigest : K -> Z) (pfnEqual : K -> K -> bool) `{!HashFunctions pfnDigest pfnEqual} (t : LW_HASHTABLE (K * V)) ps n :
  map_rep pfnEqual pfnDigest t ps -> (length ps < n)%nat ->
  (exists ps', map_iterate n t LwRtlHashMapResetIter = Some ps' /\ ps' ≡ₚ ps) /\
  (exists t' log, LwRtlHashMapClear t true = Some (t', log) /\ log ≡ₚ ps /\ map_rep pfnEqual pfnDigest t' [] /\ ht_nodes t' = ∅).
Proof.
  intros Hr Hn. split; [|by apply map_clear_ok]. destruct Hr as (β & bs & R & Hps). exists (β <$> concat bs). split; [|done]. apply (map_iterate_ok pfnDigest pfnEqual).
  - by eapply pending_start.
  - by eapply map_bodies.
  - by rewrite Hps, length_fmap in Hn.
Qed.

(** A map with pairs in one chain. *)
Definition sample_pairs : list (Z * Z) := (spec_ops LwRtlHashEqualPointer [] (take 3 sample_ops)).2.
Definition sample_map : LW_HASHTABLE (Z * Z) :=
  match snd (LwRtlCreateHashMap true true true true) with
  | Some t0 => match map_run_ops LwRtlHashEqualPointer LwRtlHashDigestPointer t0 (take 3 sample_ops) with Some (_, t) => t | None => t0 end
  | None => mk_ht ∅ 0 0 0 []
  end.

Lemma sample_rep : map_rep LwRtlHashEqualPointer LwRtlHashDigestPointer sample_map sample_pairs.
Proof.
  destruct (map_create_ok (V := Z) _ _ (HashFunctions0 := pointer_functions)) as (t0 & E0 & R0). destruct (map_ops_ok _ _ (HashFunctions0 := pointer_functions) (take 3 sample_ops) t0 [] R0) as (t & E & R).
  unfold sample_map. rewrite E0. cbn [snd]. by rewrite E.
Qed.

Lemma hashmap_enumerates_witness :
  HashFunctions LwRtlHashDigestPointer LwRtlHashEqualPointer /\ map_rep LwRtlHashEqualPointer LwRtlHashDigestPointer sample_map sample_pairs /\ (length sample_pairs < 3)%nat /\
  (exists ps', map_iterate 3 sample_map LwRtlHashMapResetIter = Some ps' /\ ps' ≡ₚ sample_pairs) /\
  (exists t' log, LwRtlHashMapClear sample_map true = Some (t', log) /\ log ≡ₚ sample_pairs /\ map_rep LwRtlHashEqualPointer LwRtlHashDigestPointer t' [] /\ ht_nodes t' = ∅).
Proof.
  split; [exact pointer_functions|]. split; [exact sample_rep|]. split; [vm_compute; lia|].
  apply (hashmap_enumerates LwRtlHashDigestPointer LwRtlHashEqualPointer (HashFunctions0 := pointer_functions) sample_map sample_pairs 3); [exact sample_rep|vm_compute; lia].
Defined.

(** freeing a map that has a pair calls a null function: it works on empty maps
    only. *)
Theorem LwRtlFreeHashMap_faults {K V : Type} (pfnDigest : K -> Z) (pfnEqual : K -> K -> bool) `{!HashFunctions pfnDigest pfnEqual} (t : LW_HASHTABLE (K * V)) ps :
  map_rep pfnEqual pfnDigest t ps -> LwRtlFreeHashMap (Some t) = match ps with [] => Some ∅ | _ => None end.
Proof. apply (map_free_ok pfnDigest pfnEqual). Qed.

Lemma LwRtlFreeHashMap_faults_witness :
  HashFunctions LwRtlHashDigestPointer LwRtlHashEqualPointer /\ map_rep LwRtlHashEqualPointer LwRtlHashDigestPointer sample_map sample_pairs /\ LwRtlFreeHashMap (Some sample_map) = None.
Proof.
  split; [exact pointer_functions|]. split; [exact sample_rep|].
  apply (LwRtlFreeHashMap_faults LwRtlHashDigestPointer LwRtlHashEqualPointer (HashFunctions0 := pointer_functions) sample_map sample_pairs). exact sample_rep.
Defined.
