(* ===== verification/HashDigest.v ===== *)
(** The digests and the equality of keys of [Hash]: equal strings have equal digests,
    but not always when case does not matter. *)

From stdpp Require Import gmap.
From S2P Require Import Prelude SecurityTypes Text Wc16Str RtlString Hash HashMap.

Section Strings.
Context `{Host}.

Lemma ldc_inside t p i c : ldc t p i = Some c -> i < zlen p.
Proof.
  unfold ldc, ld8, ld16. destruct t; (destruct (rd _ _ _) as [bs|] eqn:E; [|done]); intros _; apply rd_range in E; lia.
Qed.

(** Strings that a comparison finds equal after [f] have equal digests under any [g]
    that does not tell apart what [f] does not. *)
Lemma strcmp_digest f g s1 s2 : (forall c1 c2, f c1 = f c2 -> g c1 = g c2) -> (forall c, f c = f 0 -> c = 0) ->
  forall n m i d, strcmp f n i s1 s2 = Some 0 -> zlen s2 - i < Z.of_nat m ->
  exists d', digest_loop CHAR g n i s1 d = Some d' /\ digest_loop CHAR g m i s2 d = Some d'.
Proof.
  intros Hfg H0. induction n as [|n IH]; intros m i d; [done|]. cbn [strcmp]. destruct (ldc CHAR s1 i) as [c1|] eqn:E1; [|done]. cbn [mbind option_bind].
  destruct (ldc CHAR s2 i) as [c2|] eqn:E2; [|done]. cbn [mbind option_bind]. intros Hc Hm. assert (Hi := ldc_inside _ _ _ _ E2). destruct m as [|m]; [lia|]. cbn [digest_loop]. rewrite E1, E2. cbn [mbind option_bind].
  destruct (Z.eqb_spec (f c1) (f c2)) as [Hf|Hf]; [|injection Hc as Hc; lia]. destruct (Z.eqb_spec c1 0) as [->|Hz].
  - rewrite (H0 c2) by done. by exists d.
  - destruct (Z.eqb_spec c2 0) as [->|Hz2]; [by apply H0 in Hf|]. rewrite (Hfg _ _ Hf). apply IH; [done|lia].
Qed.

Lemma wc16_equal_digest f g s1 s2 : (forall c1 c2 x, f c1 = Some x -> f c2 = Some x -> g c1 = g c2) ->
  forall n m i d, wc16_equal f n i s1 s2 = Some true -> zlen s2 - i < Z.of_nat m ->
  exists d', digest_loop WCHAR g n i s1 d = Some d' /\ digest_loop WCHAR g m i s2 d = Some d'.
Proof.
  intros Hfg. induction n as [|n IH]; intros m i d; [done|]. cbn [wc16_equal]. destruct (ldc WCHAR s1 i) as [c1|] eqn:E1; [|done]. cbn [mbind option_bind].
  destruct (ldc WCHAR s2 i) as [c2|] eqn:E2; [|done]. cbn [mbind option_bind]. intros Hc Hm. assert (Hi := ldc_inside _ _ _ _ E2). destruct m as [|m]; [lia|]. cbn [digest_loop]. rewrite E1, E2. cbn [mbind option_bind].
  destruct (c1 =? 0), (c2 =? 0); cbn in Hc; [by exists d|done..|]. destruct (f c1) as [x|] eqn:F1; [|done]. destruct (f c2) as [y|] eqn:F2; [|done]. cbn in Hc.
  destruct (Z.eqb_spec x y) as [->|]; [|done]. rewrite (Hfg _ _ _ F1 F2). apply IH; [done|lia].
Qed.

(** strings that are equal as keys have equal digests, so that they lead to the
    same chain: the functions for strings with regard to case meet what a table
    relies on. *)
Theorem digests_respect_equality `{Locale} pKey1 pKey2 :
  (LwRtlHashEqualPstr pKey1 pKey2 = Some true -> exists d, LwRtlHashDigestPstr pKey1 = Some d /\ LwRtlHashDigestPstr pKey2 = Some d) /\
  (LwRtlHashEqualPwstr pKey1 pKey2 = Some true -> exists d, LwRtlHashDigestPwstr pKey1 = Some d /\ LwRtlHashDigestPwstr pKey2 = Some d).
Proof.
  unfold LwRtlHashEqualPstr, LwRtlHashEqualPwstr, LwRtlHashDigestPstr, LwRtlHashDigestPwstr, equal_strings, digest_string, LwRtlCStringIsEqual, LwRtlCStringCompare, LwRtlWC16StringIsEqual.
  destruct pKey1 as [s1|], pKey2 as [s2|]; (split; [|]); try done; try (intros _; by exists 0).
  - destruct (strcmp _ _ 0 s1 s2) as [r|] eqn:E; [|done]. cbn [mbind option_bind]. intros Hr. assert (r = 0) as ->. { destruct (Z.ltb_spec 0 r); [done|]. destruct (Z.ltb_spec r 0); [done|lia]. }
    apply (strcmp_digest (fun c => c) s8 s1 s2); [congruence|done|exact E|unfold zlen; lia].
  - intros E. apply (wc16_equal_digest Some (fun c => c) s1 s2); [congruence|exact E|unfold zlen; lia].
Qed.
End Strings.

Lemma digests_respect_equality_witness :
  exists d, @LwRtlHashDigestPstr LittleEndian (Some [228; 98; 0]) = Some d /\ @LwRtlHashDigestPstr LittleEndian (Some [228; 98; 0; 99]) = Some d.
Proof.
  apply (@digests_respect_equality LittleEndian {| towupper c := c; towlower c := c; tolower c := c; toupper c := c; mbstrlen cs := Some (zlen cs); iconv_from_mb _ _ := None |}
    (Some [228; 98; 0]) (Some [228; 98; 0; 99])). vm_compute. reflexivity.
Defined.

(** * Keys without regard to case *)

(** The upper case of Latin-1 letters, which is that of Unicode. *)
Definition latin1_upper (c : Z) : Z := if (97 <=? c) && (c <=? 122) || (224 <=? c) && (c <=? 254) && negb (c =? 247) then c - 32 else c.
Definition latin1_locale : Locale :=
  {| towupper := latin1_upper; towlower c := c; tolower c := c; toupper := latin1_upper; mbstrlen cs := Some (zlen cs); iconv_from_mb _ _ := None |}.

Abbreviation wide c := (Some (@chars LittleEndian WCHAR [c; 0])).
Definition caseless_digest (k : ptr) : Z := default 0 (@LwRtlHashDigestPwstrCaseless LittleEndian k).
Definition caseless_equal (k1 k2 : ptr) : bool := bool_decide (@LwRtlHashEqualPwstrCaseless LittleEndian latin1_locale k1 k2 = Some true).

(** without regard to case, the equality of wide strings folds every letter but
    the digest only those of ASCII: [e] with an acute accent and its capital are
    equal keys with different digests, and a map that has one does not find the
    other. *)
Theorem caseless_keys_lost :
  @LwRtlHashEqualPwstrCaseless LittleEndian latin1_locale (wide 233) (wide 201) = Some true /\
  @LwRtlHashDigestPwstrCaseless LittleEndian (wide 233) = Some 233 /\ @LwRtlHashDigestPwstrCaseless LittleEndian (wide 201) = Some 201 /\
  exists t0 rs, LwRtlCreateHashMap true true true true = (STATUS_SUCCESS, Some t0) /\
    fst <$> map_run_ops caseless_equal caseless_digest t0 [OpMapInsert true true (wide 233) 1; OpMapFind (wide 233); OpMapFind (wide 201); OpMapFind (wide 101)] = Some rs /\
    rs = [GotPair STATUS_SUCCESS None; GotValue STATUS_SUCCESS (Some 1); GotValue STATUS_NOT_FOUND None; GotValue STATUS_NOT_FOUND None].
Proof. split; [vm_compute; reflexivity|]. split; [reflexivity|]. split; [reflexivity|]. do 2 eexists. split; [reflexivity|]. split; [|reflexivity]. vm_compute. reflexivity. Qed.
