(* ===== verification/Sddl.v ===== *)
(** Security descriptors as text: [lwbase/src/security-sddl.c] and
    [security-sddlmapping.c]. A string is the list of its characters without the null
    at its end, a null pointer is [None]. A buffer that a string is built in has a
    size, and writing past it is a fault ([None]), as is following a null pointer. *)

From Stdlib Require Import Ascii String.
From S2P Require Import Prelude SecurityTypes Sid Acl AclIndex Token TokenState Sd SdRelative Text Wc16Str RtlString SidString.

(** * Results *)

(** A fault, a status other than success, or a result. *)
Definition run (A : Type) : Type := option (NTSTATUS + A).
Definition ok {A} (a : A) : run A := Some (inr a).
Definition stop {A} (status : NTSTATUS) : run A := Some (inl status).
Definition and_run {A B} (x : run A) (k : A -> run B) : run B :=
  match x with
  | Some (inr a) => k a
  | Some (inl status) => Some (inl status)
  | None => None
  end.
Definition lift {A} (x : option A) : run A := match x with Some a => ok a | None => None end.

(** A status and a result, then [GOTO_CLEANUP_ON_STATUS]. *)
Definition on_status {A} (x : option (NTSTATUS * A)) : run A :=
  match x with Some (status, a) => if is_ok status then ok a else stop status | None => None end.

Declare Scope sddl_scope.
Delimit Scope sddl_scope with sddl.
Notation "'let*' x := e 'in' k" := (and_run e (fun x => k)) (at level 10, x pattern, k at level 200) : sddl_scope.
Open Scope sddl_scope.

(** * Strings *)

Abbreviation str := (list Z).

(** A string literal. *)
Definition codes (s : string) : str := map (fun a => Z.of_nat (nat_of_ascii a)) (list_ascii_of_string s).

Definition IsNullOrEmpty (s : option str) : bool := match s with None | Some [] => true | _ => false end.

(** The string at the start of a block. *)
Definition cstring_of `{Host} (p : mem) : option str := n ← strlen CHAR p; rd p 0 n.

(** [strcat] of the strings whose condition holds, in a buffer of [size] bytes. *)
Fixpoint strcat_all (size : Z) (xs : list (bool * str)) (s : str) : option str :=
  match xs with
  | [] => Some s
  | (false, _) :: xs => strcat_all size xs s
  | (true, x) :: xs => if zlen s + zlen x + 1 <=? size then strcat_all size xs (s ++ x) else None
  end.

(** The same with [strncat] and the number of characters that are left. *)
Fixpoint strncat_all (size working : Z) (xs : list (bool * str)) (s : str) : option str :=
  match xs with
  | [] => Some s
  | (false, _) :: xs => strncat_all size working xs s
  | (true, x) :: xs =>
      let x' := take (Z.to_nat (size - working - 1)) x in
      if zlen s + zlen x' + 1 <=? size then strncat_all size (working + zlen x) xs (s ++ x') else None
  end.

(** The tokens of [strtok_r] with one delimiter: what is between delimiters, unless
    it is empty. *)
Fixpoint strtok (d : Z) (s token : str) : list str :=
  match s with
  | [] => match token with [] => [] | _ => [token] end
  | c :: s => if c =? d then match token with [] => strtok d s [] | _ => token :: strtok d s [] end else strtok d s (token ++ [c])
  end.

(** The parts between delimiters, found with [strchr]. *)
Fixpoint split_at (d : Z) (s part : str) : list str :=
  match s with
  | [] => [part]
  | c :: s => if c =? d then part :: split_at d s [] else split_at d s (part ++ [c])
  end.

(** [strchr]: the characters before the first [c], and the rest from there. *)
Fixpoint before (c : Z) (s : str) : option (str * str) :=
  match s with
  | [] => None
  | x :: s' => if x =? c then Some ([], s) else '(a, b) ← before c s'; Some (x :: a, b)
  end.

(** [strstr] as a condition. *)
Fixpoint starts_with (needle s : str) : bool :=
  match needle, s with
  | [], _ => true
  | x :: needle, y :: s => (x =? y) && starts_with needle s
  | _, [] => false
  end.
Fixpoint strstr (s needle : str) : bool :=
  starts_with needle s || match s with [] => false | _ :: s => strstr s needle end.

(** * Constants *)

Definition SDDL_REVISION_1 : Z := 1.
Definition SDDL_CONTROL_LENGTH : Z := 5.
Definition SDDL_ACEFLAG_LENGTH : Z := 15.
Definition SDDL_ACCESS_LENGTH : Z := 57.
Definition SDDL_ACE_PART_NUM : Z := 6.
Definition ACCESS_UNKNOWN_ACE_TYPE : Z := 20.
Definition SECURITY_DESCRIPTOR_RELATIVE_MAX_SIZE : Z := SECURITY_DESCRIPTOR_RELATIVE_MIN_SIZE + 2 * SID_MAX_SIZE + 2 * 65535.

Definition SDDL_DELIMINATOR_C : Z := 58.
Definition SDDL_SEPERATOR_C : Z := 59.
Definition SDDL_ACE_BEGIN_C : Z := 40.
Definition SDDL_ACE_END_C : Z := 41.

Definition SDDL_EVERYONE : str := codes "WD".
Definition SDDL_CREATOR_OWNER : str := codes "CO".
Definition SECURITY_WORLD_PREFIX : str := codes "S-1-1-0".
Definition SECURITY_CREATOR_OWNER_PREFIX : str := codes "S-1-3-0".

Definition DELETE : Z := 0x00010000.
Definition FILE_ALL_ACCESS : Z := 0x001F01FF.
Definition FILE_GENERIC_READ : Z := 0x00120089.
Definition FILE_GENERIC_WRITE : Z := 0x00120116.
Definition FILE_GENERIC_EXECUTE : Z := 0x001200A0.
Definition KEY_ALL_ACCESS : Z := 0x000F003F.
Definition KEY_READ : Z := 0x00020019.
Definition KEY_WRITE : Z := 0x00020006.
Definition KEY_EXECUTE : Z := 0x00020019.
Definition SYSTEM_MANDATORY_LABEL_NO_WRITE_UP : Z := 1.
Definition SYSTEM_MANDATORY_LABEL_NO_READ_UP : Z := 2.
Definition SYSTEM_MANDATORY_LABEL_NO_EXECUTE_UP : Z := 4.

(** * The names of SIDs *)

Record TABLE_ENTRY := mk_entry { te_rid : Z; te_pszSddl : str; te_pszSidString : str }.

Definition LwSddlSidStringTable : list TABLE_ENTRY :=
  [mk_entry SECURITY_ANONYMOUS_LOGON_RID (codes "AN") (codes "S-1-5-7");
   mk_entry SECURITY_CREATOR_GROUP_RID (codes "CG") (codes "S-1-3-1");
   mk_entry SECURITY_CREATOR_OWNER_RID (codes "CO") (codes "S-1-3-0");
   mk_entry SECURITY_AUTHENTICATED_USER_RID (codes "AU") (codes "S-1-5-11");
   mk_entry SECURITY_NETWORK_RID (codes "NU") (codes "S-1-5-2");
   mk_entry 10 (codes "PS") (codes "S-1-5-10");
   mk_entry 12 (codes "RC") (codes "S-1-5-12");
   mk_entry 6 (codes "SU") (codes "S-1-5-6");
   mk_entry SECURITY_LOCAL_SYSTEM_RID (codes "SY") (codes "S-1-5-18");
   mk_entry SECURITY_INTERACTIVE_RID (codes "IU") (codes "S-1-5-4");
   mk_entry DOMAIN_ALIAS_RID_ADMINS (codes "BA") (codes "S-1-5-32-544");
   mk_entry DOMAIN_ALIAS_RID_GUESTS (codes "BG") (codes "S-1-5-32-546");
   mk_entry DOMAIN_ALIAS_RID_USERS (codes "BU") (codes "S-1-5-32-545");
   mk_entry 0xFFFFFFFF [] []].

Definition RtlpSddlLookupRid (rid : Z) : option TABLE_ENTRY := find (fun e => te_rid e =? rid) LwSddlSidStringTable.
Definition RtlpRidToSddl (rid : Z) : option str := option_map te_pszSddl (RtlpSddlLookupRid rid).

Section Names.
Context `{Host} `{Locale}.

(** [strcasecmp] gives zero. *)
Definition caseless_same (a b : str) : option bool := r ← strcmp tolower (S (length a + 1)) 0 (a ++ [0]) (b ++ [0]); Some (r =? 0).

Fixpoint lookup_sddl (table : list TABLE_ENTRY) (pszSddl : str) : option (option TABLE_ENTRY) :=
  match table with
  | [] => Some None
  | e :: table => same ← caseless_same (te_pszSddl e) pszSddl; if same : bool then Some (Some e) else lookup_sddl table pszSddl
  end.
Definition RtlpSddlLookupSddl (pszSddl : option str) : option (option TABLE_ENTRY) := s ← pszSddl; lookup_sddl LwSddlSidStringTable s.

Definition RtlpSddlToRid (pszSddl : option str) : option Z :=
  e ← RtlpSddlLookupSddl pszSddl; Some (match e with Some e => te_rid e | None => 0xFFFFFFFF end).
Definition RtlpSddlToSidString (pszSddl : option str) : option (option str) :=
  e ← RtlpSddlLookupSddl pszSddl; Some (option_map te_pszSidString e).

(** [LwRtlCStringIsEqual] on strings. *)
Definition same_string (a b : str) (bIsCaseSensitive : bool) : option bool := LwRtlCStringIsEqual (a ++ [0]) (b ++ [0]) bIsCaseSensitive.

(** The first entry of a table with the code [s], and its value. *)
Fixpoint find_code (table : list (Z * str)) (s : str) : option (option Z) :=
  match table with
  | [] => Some None
  | (m, c) :: table => same ← same_string s c true; if same : bool then Some (Some m) else find_code table s
  end.

(** The values of the codes of two characters of a string, or-ed. A code that is not
    in the table and a last single character are passed over. *)
Fixpoint map_codes (table : list (Z * str)) (s : str) (acc : Z) : option Z :=
  match s with
  | a :: b :: s => m ← find_code table [a; b]; map_codes table s (match m with Some m => SetFlag acc m | None => acc end)
  | _ => Some acc
  end.

(** * Types, flags and rights of ACEs *)

Definition RtlpMapAceTypeToSddlType (AceType : Z) : option str :=
  if AceType =? ACCESS_ALLOWED_ACE_TYPE then Some (codes "A")
  else if AceType =? ACCESS_DENIED_ACE_TYPE then Some (codes "D")
  else if AceType =? SYSTEM_AUDIT_ACE_TYPE then Some (codes "AU")
  else None.

Definition RtlpMapSddlTypeToAceType (pszAceType : str) : option Z :=
  m ← find_code [(ACCESS_ALLOWED_ACE_TYPE, codes "A"); (ACCESS_DENIED_ACE_TYPE, codes "D"); (SYSTEM_AUDIT_ACE_TYPE, codes "AU")] pszAceType;
  Some (match m with Some t => t | None => ACCESS_UNKNOWN_ACE_TYPE end).

Definition ace_flag_codes : list (Z * str) :=
  [(CONTAINER_INHERIT_ACE, codes "CI"); (OBJECT_INHERIT_ACE, codes "OI"); (NO_PROPAGATE_INHERIT_ACE, codes "NP"); (INHERIT_ONLY_ACE, codes "IO");
   (INHERITED_ACE, codes "ID"); (SUCCESSFUL_ACCESS_ACE_FLAG, codes "SA"); (FAILED_ACCESS_ACE_FLAG, codes "FA")].

Definition RtlpMapSddlFlagToAceFlag (pszAceFlag : str) : option Z := map_codes ace_flag_codes pszAceFlag 0.

(** The generic and standard rights, the combinations for files and for registry
    keys, and the rights of mandatory labels. *)
Definition single_rights : list (Z * str) :=
  [(GENERIC_ALL, codes "GA"); (GENERIC_READ, codes "GR"); (GENERIC_WRITE, codes "GW"); (GENERIC_EXECUTE, codes "GX");
   (READ_CONTROL, codes "RC"); (DELETE, codes "SD"); (WRITE_DAC, codes "WD"); (WRITE_OWNER, codes "WO")].
Definition combined_rights : list (Z * str) :=
  [(FILE_ALL_ACCESS, codes "FA"); (FILE_GENERIC_READ, codes "FR"); (FILE_GENERIC_WRITE, codes "FW"); (FILE_GENERIC_EXECUTE, codes "FX");
   (KEY_ALL_ACCESS, codes "KA"); (KEY_READ, codes "KR"); (KEY_WRITE, codes "KW"); (KEY_EXECUTE, codes "KX")].
Definition label_rights : list (Z * str) :=
  [(SYSTEM_MANDATORY_LABEL_NO_READ_UP, codes "NR"); (SYSTEM_MANDATORY_LABEL_NO_WRITE_UP, codes "NW"); (SYSTEM_MANDATORY_LABEL_NO_EXECUTE_UP, codes "NX")].

Definition RtlpMapSddlRightsToAccessMask (pszMask : str) : option Z := map_codes (single_rights ++ combined_rights ++ label_rights) pszMask 0.
End Names.

(** * Operations *)

Section Operations.
Context `{Host} `{Layout} `{Locale} (malloc asprintf : Z -> bool).

(** Whether there is memory for a block, which is not empty; for a copy of a string;
    for a formatted string. *)
Definition allocate (Size : Z) : run unit := if (0 <? Size) && malloc Size then ok tt else stop STATUS_INSUFFICIENT_RESOURCES.
Definition duplicate (s : str) : run str := let* _ := allocate (zlen s + 1) in ok s.
Definition print_string (s : str) : run str := if asprintf (zlen s) then ok s else stop STATUS_INSUFFICIENT_RESOURCES.

(** ** Writing *)

Definition set_codes (table : list (Z * str)) (v : Z) : list (bool * str) := map (fun '(m, c) => (IsSetFlag v m, c)) table.
Definition all_codes (table : list (Z * str)) (v : Z) : list (bool * str) := map (fun '(m, c) => (Z.land v m =? m, c)) table.

Definition RtlpMapAceFlagToSddlFlag (AceFlag : Z) : run str :=
  let* _ := allocate SDDL_ACEFLAG_LENGTH in lift (strcat_all SDDL_ACEFLAG_LENGTH (set_codes ace_flag_codes AceFlag) []).

Definition RtlpMapAccessMaskToSddlRights (Access : Z) : run str :=
  let* _ := allocate SDDL_ACCESS_LENGTH in
  lift (strcat_all SDDL_ACCESS_LENGTH (set_codes single_rights Access ++ all_codes combined_rights Access ++ set_codes label_rights Access) []).

Definition RtlpGetSddlSidStringFromSid (pSid : ptr) : run str :=
  let* p := on_status (RtlAllocateCStringFromSid malloc true pSid) in
  let* p := lift p in
  let* pszSid := lift (cstring_of p) in
  let* world := lift (same_string pszSid SECURITY_WORLD_PREFIX false) in
  if world : bool then duplicate SDDL_EVERYONE
  else
    let* creator := lift (same_string pszSid SECURITY_CREATOR_OWNER_PREFIX false) in
    if creator : bool then duplicate SDDL_CREATOR_OWNER
    else
      let* ulRid := on_status (RtlGetRidSid true pSid) in
      let* ulRid := lift ulRid in
      match RtlpRidToSddl ulRid with
      | None => duplicate pszSid
      | Some pszSddlSid =>
          let* a := lift (same_string pszSddlSid SDDL_EVERYONE false) in
          if a : bool then duplicate pszSid
          else
            let* b := lift (same_string pszSddlSid SDDL_CREATOR_OWNER false) in
            if b : bool then duplicate pszSid else duplicate pszSddlSid
      end.

Definition RtlpGetSddlSidStringFromSecurityDescriptor (sd : SECURITY_DESCRIPTOR_ABSOLUTE) (get : SECURITY_DESCRIPTOR_ABSOLUTE -> NTSTATUS * ptr * bool) : run str :=
  let '(status, pSid, _) := get sd in
  let* _ := on_status (Some (status, tt)) in RtlpGetSddlSidStringFromSid pSid.

(** One ACE: the rights, the SID, the type and the flags, and the string of them. *)
Definition ace_string (ace : mem) : run str :=
  let* AceType := lift (Ace_AceType ace) in
  if negb ((AceType =? ACCESS_ALLOWED_ACE_TYPE) || (AceType =? ACCESS_DENIED_ACE_TYPE) || (AceType =? SYSTEM_AUDIT_ACE_TYPE)) then stop STATUS_NOT_SUPPORTED
  else
    let* Mask := lift (Ace_Mask ace) in
    let* pszAceAcl := RtlpMapAccessMaskToSddlRights Mask in
    let* pszSddlSidString := RtlpGetSddlSidStringFromSid (Some (RtlpGetSidAccessAllowedAce ace)) in
    if IsNullOrEmpty (RtlpMapAceTypeToSddlType AceType) then stop STATUS_NOT_SUPPORTED
    else
      let* pszAceType := lift (RtlpMapAceTypeToSddlType AceType) in
      let* AceFlags := lift (Ace_AceFlags ace) in
      let* pszAceFlag := RtlpMapAceFlagToSddlFlag AceFlags in
      if IsNullOrEmpty (Some pszSddlSidString) then stop STATUS_INVALID_PARAMETER
      else
        let sAceStringLength := 1 + (zlen pszAceType + 1) + (zlen pszAceFlag + 1) + (zlen pszAceAcl + 1) + (1 + 1) + (zlen pszSddlSidString + 1) in
        let* _ := allocate (sAceStringLength + 1) in
        lift (strcat_all (sAceStringLength + 1)
          [(true, codes "("); (true, pszAceType); (true, codes ";"); (negb (IsNullOrEmpty (Some pszAceFlag)), pszAceFlag); (true, codes ";");
           (negb (IsNullOrEmpty (Some pszAceAcl)), pszAceAcl); (true, codes ";"); (true, codes ";"); (true, codes ";"); (true, pszSddlSidString); (true, codes ")")] []).

Fixpoint ace_strings (n : nat) (ulAceIndex : Z) (pAcl : mem) : run (list str) :=
  match n with
  | O => ok []
  | S n' =>
      let* loc := on_status (RtlGetAce pAcl ulAceIndex) in
      let* loc := lift loc in
      let* s := ace_string (padd pAcl loc) in
      let* ss := ace_strings n' (ulAceIndex + 1) pAcl in
      ok (s :: ss)
  end.

Definition nonempty (s : str) : bool * str := (negb (IsNullOrEmpty (Some s)), s).

Definition RtlpGetSddlAceStringFromSecurityDescriptor (sd : SECURITY_DESCRIPTOR_ABSOLUTE) (get : SECURITY_DESCRIPTOR_ABSOLUTE -> NTSTATUS * bool * ptr * bool) : run (option str) :=
  let '(status, bPresent, pAcl, _) := get sd in
  let* _ := on_status (Some (status, tt)) in
  match bPresent, pAcl with
  | true, Some acl =>
      let* usAceCount := lift (RtlGetAclAceCount acl) in
      if usAceCount =? 0 then ok None
      else
        let* _ := allocate (sizeof_pointer * usAceCount) in
        let* ss := ace_strings (Z.to_nat usAceCount) 0 acl in
        let sFullLength := fold_right (fun s n => zlen s + n) 0 ss in
        let* _ := allocate (sFullLength + 1) in
        let* s := lift (strcat_all (sFullLength + 1) (map nonempty ss) []) in
        ok (Some s)
  | _, _ => ok None
  end.

(** The flags of one kind of ACL. *)
Definition acl_control_codes (bIsDacl : bool) : list (Z * str) :=
  [((if bIsDacl then SE_DACL_PROTECTED else SE_SACL_PROTECTED), codes "P"); ((if bIsDacl then SE_DACL_AUTO_INHERIT_REQ else SE_SACL_AUTO_INHERIT_REQ), codes "AR");
   ((if bIsDacl then SE_DACL_AUTO_INHERITED else SE_SACL_AUTO_INHERITED), codes "AI")].

Definition RtlpMapAclControlToSddlControl (Control : Z) (bIsDacl : bool) : run str :=
  let* _ := allocate SDDL_CONTROL_LENGTH in lift (strcat_all SDDL_CONTROL_LENGTH (set_codes (acl_control_codes bIsDacl) Control) []).

(** The strings of the parts that are asked for; null when they are not. *)
Definition sid_part_string (asked : bool) (sd : SECURITY_DESCRIPTOR_ABSOLUTE) (get : SECURITY_DESCRIPTOR_ABSOLUTE -> NTSTATUS * ptr * bool) : run (option str) :=
  if asked then let* s := RtlpGetSddlSidStringFromSecurityDescriptor sd get in ok (Some s) else ok None.
Definition acl_part_string (asked : bool) (sd : SECURITY_DESCRIPTOR_ABSOLUTE) (get : SECURITY_DESCRIPTOR_ABSOLUTE -> NTSTATUS * bool * ptr * bool) (bIsDacl : bool)
    : run (option str * option str) :=
  if asked then
    let* s := RtlpGetSddlAceStringFromSecurityDescriptor sd get in
    let* c := RtlpMapAclControlToSddlControl (sd_Control sd) bIsDacl in
    ok (s, Some c)
  else ok (None, None).

(** The pieces of the result in order. *)
Definition sid_pieces (tag : str) (s : option str) : list (bool * str) :=
  match s with
  | Some s => let there := negb (IsNullOrEmpty (Some s)) in [(there, tag); (there, codes ":"); (there, s)]
  | None => []
  end.
Definition acl_pieces (tag : str) (sc : option str * option str) : list (bool * str) :=
  match sc.1 with
  | Some s =>
      let there := negb (IsNullOrEmpty (Some s)) in
      [(there, tag); (there, codes ":")] ++ match sc.2 with Some c => [(there && negb (IsNullOrEmpty (Some c)), c)] | None => [] end ++ [(there, s)]
  | None => []
  end.
Definition pieces_length (xs : list (bool * str)) : Z := fold_right (fun '(there, x) n => if there : bool then zlen x + n else n) 0 xs.

(** The absolute form of the descriptor, in blocks of the sizes a first call gives. *)
Definition absolute_of (pSecurityDescriptor : mem) : run SECURITY_DESCRIPTOR_ABSOLUTE :=
  match RtlSelfRelativeToAbsoluteSD pSecurityDescriptor (mk_buffers None None None None None) (mk_lengths (Some 0) (Some 0) (Some 0) (Some 0) (Some 0)) with
  | None => None
  | Some (status, _, len) =>
      let status := if bool_decide (status = STATUS_BUFFER_TOO_SMALL) then STATUS_SUCCESS else status in
      let* _ := on_status (Some (status, tt)) in
      match len with
      | mk_lengths (Some ulSecDescAbsLen) (Some ulDaclLen) (Some ulSaclLen) (Some ulOwnerLen) (Some ulGroupLen) =>
          let* _ := allocate ulSecDescAbsLen in
          let* pDacl := on_status (Some (allocate_part malloc ulDaclLen)) in
          let* pSacl := on_status (Some (allocate_part malloc ulSaclLen)) in
          let* pOwner := on_status (Some (allocate_part malloc ulOwnerLen)) in
          let* pGroup := on_status (Some (allocate_part malloc ulGroupLen)) in
          let* out := on_status ('(status, out, _) ← RtlSelfRelativeToAbsoluteSD pSecurityDescriptor (mk_buffers (Some zero_sd) pDacl pSacl pOwner pGroup) len; Some (status, out)) in
          lift (b_sd out)
      | _ => None
      end
  end.

Definition RtlAllocateSddlCStringFromSecurityDescriptor (pSecurityDescriptor : ptr) (SddlRevision SecurityInformation : Z) : run str :=
  match pSecurityDescriptor with
  | Some sd =>
      if negb (SDDL_REVISION_1 =? SddlRevision) then stop STATUS_INVALID_PARAMETER
      else
        let* ulSecDescRelLength := lift (RtlLengthSecurityDescriptorRelative sd) in
        let* valid := lift (RtlValidRelativeSecurityDescriptor sd ulSecDescRelLength 0) in
        if negb valid then stop STATUS_INVALID_PARAMETER
        else
          let* pSecDescAbs := absolute_of sd in
          let* pszOwnerSid := sid_part_string (IsSetFlag SecurityInformation OWNER_SECURITY_INFORMATION) pSecDescAbs RtlGetOwnerSecurityDescriptor in
          let* pszGroupSid := sid_part_string (IsSetFlag SecurityInformation GROUP_SECURITY_INFORMATION) pSecDescAbs RtlGetGroupSecurityDescriptor in
          let* dacl := acl_part_string (IsSetFlag SecurityInformation DACL_SECURITY_INFORMATION) pSecDescAbs RtlGetDaclSecurityDescriptor true in
          let* sacl := acl_part_string (IsSetFlag SecurityInformation SACL_SECURITY_INFORMATION) pSecDescAbs RtlGetSaclSecurityDescriptor false in
          let pieces := sid_pieces (codes "O") pszOwnerSid ++ sid_pieces (codes "G") pszGroupSid ++ acl_pieces (codes "D") dacl ++ acl_pieces (codes "S") sacl in
          let sSddlLength := pieces_length pieces + 1 in
          let* _ := allocate sSddlLength in
          lift (strncat_all sSddlLength 0 pieces [])
  | None => stop STATUS_INVALID_PARAMETER
  end.

(** ** Reading *)

Record sddl_parts := mk_parts { p_owner : option str; p_group : option str; p_dacl : option str; p_sacl : option str }.

(** What follows the tag and the delimiter of a formatted token. *)
Definition part_of (pszFormattedToken : str) : run str :=
  if negb (bool_decide (pszFormattedToken !! 1%nat = Some SDDL_DELIMINATOR_C)) then stop STATUS_INVALID_PARAMETER
  else duplicate (drop 2 pszFormattedToken).

(** The loop over the tokens: the last character of a token is the tag of the next
    one, which loses its own last character. *)
Fixpoint parse_tokens (ppszTokens : list str) (parts : sddl_parts) : run sddl_parts :=
  match ppszTokens with
  | t :: ((t' :: _) as ts) =>
      let iTokenLength := zlen t' in
      let* _ := allocate iTokenLength in
      let pszTmpToken := take (Z.to_nat (iTokenLength - 1)) t' in
      let* tag := lift (last t) in
      let* pszFormattedToken := print_string (tag :: SDDL_DELIMINATOR_C :: pszTmpToken) in
      let* parts :=
        if starts_with (codes "O") pszFormattedToken then let* s := part_of pszFormattedToken in ok (mk_parts (Some s) (p_group parts) (p_dacl parts) (p_sacl parts))
        else if starts_with (codes "G") pszFormattedToken then let* s := part_of pszFormattedToken in ok (mk_parts (p_owner parts) (Some s) (p_dacl parts) (p_sacl parts))
        else if starts_with (codes "D") pszFormattedToken then let* s := part_of pszFormattedToken in ok (mk_parts (p_owner parts) (p_group parts) (Some s) (p_sacl parts))
        else if starts_with (codes "S") pszFormattedToken then let* s := part_of pszFormattedToken in ok (mk_parts (p_owner parts) (p_group parts) (p_dacl parts) (Some s))
        else ok parts in
      parse_tokens ts parts
  | _ => ok parts
  end.

Fixpoint duplicate_all (ss : list str) : run unit := match ss with [] => ok tt | s :: ss => let* _ := duplicate s in duplicate_all ss end.

Definition RtlpParseSddlString (pszSddlString : str) : run sddl_parts :=
  let* _ := duplicate pszSddlString in
  let* _ := duplicate pszSddlString in
  let tokens := strtok SDDL_DELIMINATOR_C pszSddlString [] in
  let* _ := allocate (sizeof_pointer * Z.of_nat (length tokens)) in
  let* _ := duplicate_all tokens in
  parse_tokens tokens (mk_parts None None None None).

(** Every token begins with a parenthesis, which is left out. *)
Fixpoint ace_tokens (tokens : list str) : run (list str) :=
  match tokens with
  | [] => ok []
  | t :: tokens =>
      if negb (bool_decide (head t = Some SDDL_ACE_BEGIN_C)) then stop STATUS_INVALID_PARAMETER
      else let* s := duplicate (tail t) in let* ss := ace_tokens tokens in ok (s :: ss)
  end.

Definition RtlpParseSddlAclString (pszSddlAclString : str) : run (list str) :=
  let* _ := duplicate pszSddlAclString in
  let* _ := duplicate pszSddlAclString in
  let tokens := strtok SDDL_ACE_END_C pszSddlAclString [] in
  if (length tokens =? 0)%nat then ok []
  else let* _ := allocate (sizeof_pointer * Z.of_nat (length tokens)) in ace_tokens tokens.

Record SDDL_ACE := mk_sddl_ace { sa_AceType : Z; sa_AceFlag : Z; sa_Access : Z; sa_pSid : mem }.
Definition sizeof_SDDL_ACE : Z := 8 + 3 * sizeof_pointer.

(** Copies of the parts of an ACE; an empty part is a null pointer. *)
Fixpoint copy_parts (parts : list str) : run (list (option str)) :=
  match parts with
  | [] => ok []
  | s :: parts =>
      let* p := (if 0 <? zlen s then let* s := duplicate s in ok (Some s) else ok None) in
      let* ps := copy_parts parts in
      ok (p :: ps)
  end.

(** The SID of an ACE, by its name or as text. *)
Definition ace_sid_string (s : str) : run str :=
  let* pszSid := lift (RtlpSddlToSidString (Some s)) in
  match pszSid with
  | Some ((_ :: _) as t) => ok t
  | _ =>
      let* a := lift (same_string s SDDL_EVERYONE false) in
      if a : bool then ok SECURITY_WORLD_PREFIX
      else
        let* b := lift (same_string s SDDL_CREATOR_OWNER false) in
        if b : bool then ok SECURITY_CREATOR_OWNER_PREFIX else ok s
  end.

Definition sid_from_string (s : str) : run mem :=
  let* p := on_status (RtlAllocateSidFromCString malloc (Some (s ++ [0]))) in lift p.

Definition RtlpParseSddlAceString (pszSddlAceString : str) : run SDDL_ACE :=
  let parts := split_at SDDL_SEPERATOR_C pszSddlAceString [] in
  if negb (Z.of_nat (length parts) =? SDDL_ACE_PART_NUM) then stop STATUS_INVALID_PARAMETER
  else
    let* _ := allocate (sizeof_pointer * Z.of_nat (length parts)) in
    let* ps := copy_parts parts in
    let* _ := allocate sizeof_SDDL_ACE in
    match ps with
    | [p0; p1; p2; _; _; p5] =>
        match p0 with
        | None => stop STATUS_INVALID_PARAMETER
        | Some t =>
            let* AceType := lift (RtlpMapSddlTypeToAceType t) in
            if AceType =? ACCESS_UNKNOWN_ACE_TYPE then stop STATUS_NOT_SUPPORTED
            else
              let* AceFlag := lift (match p1 with Some s => RtlpMapSddlFlagToAceFlag s | None => Some 0 end) in
              let* Access := lift (match p2 with Some s => RtlpMapSddlRightsToAccessMask s | None => Some 0 end) in
              match p5 with
              | None => stop STATUS_INVALID_PARAMETER
              | Some s => let* s := ace_sid_string s in let* pSid := sid_from_string s in ok (mk_sddl_ace AceType AceFlag Access pSid)
              end
        end
    | _ => None
    end.

(** The codes for flags of an ACL, from the position [i] on, [n] times. *)
Fixpoint control_codes (bIsDacl : bool) (n : nat) (s : str) (Control : Z) : option Z :=
  match n, s with
  | S n', a :: b :: s =>
      m ← find_code (tail (acl_control_codes bIsDacl)) [a; b];
      control_codes bIsDacl n' s (match m with Some m => SetFlag Control m | None => Control end)
  | S _, _ => None
  | O, _ => Some Control
  end.

(** [pszControl] is the buffer of the flags in front of the ACEs. *)
Definition RtlpMapSddlControlToAclControl (pszControl : mem) (bIsDacl : bool) (Control : Z) : run Z :=
  let* s := lift (cstring_of pszControl) in
  let sLength := zlen s in
  let protected := if bIsDacl then SE_DACL_PROTECTED else SE_SACL_PROTECTED in
  if sLength =? 0 then ok Control
  else
    let bIsFirstSddlProtected := starts_with (codes "P") s in
    if ((sLength mod 2 =? 0) && bIsFirstSddlProtected) || ((sLength =? 1) && negb bIsFirstSddlProtected) || (SDDL_CONTROL_LENGTH <? sLength)
    then stop STATUS_INVALID_PARAMETER
    else if (sLength mod 2 =? 0) || bIsFirstSddlProtected then
      lift (control_codes bIsDacl (Z.to_nat (sLength / 2)) (if bIsFirstSddlProtected then drop 1 s else s)
             (if bIsFirstSddlProtected then SetFlag Control protected else Control))
    else if (sLength =? SDDL_CONTROL_LENGTH - 2) || (sLength =? SDDL_CONTROL_LENGTH) then
      if negb (starts_with (codes "P") (drop 2 s)) then stop STATUS_INVALID_PARAMETER
      else lift (control_codes bIsDacl (Z.to_nat (sLength / 2)) (drop 1 s) (SetFlag Control protected))
    else ok Control.

(** The strings of the ACEs are parsed starting with the last one. *)
Fixpoint parse_aces (n sIndex : nat) (strings : list str) : run (list SDDL_ACE) :=
  match n with
  | O => ok []
  | S n' =>
      let* s := lift (strings !! ((sIndex + length strings - 1) mod length strings)%nat) in
      let* a := RtlpParseSddlAceString s in
      let* rest := parse_aces n' (S sIndex) strings in
      ok (a :: rest)
  end.

(** [RtlLengthAccessAllowedAce], [RtlLengthAccessDeniedAce] or
    [RtlLengthAccessAuditAce]. *)
Definition sddl_ace_length (a : SDDL_ACE) : run Z :=
  if sa_AceType a =? ACCESS_ALLOWED_ACE_TYPE then lift (RtlLengthAccessAllowedAce (sa_pSid a))
  else if sa_AceType a =? ACCESS_DENIED_ACE_TYPE then lift (RtlLengthAccessDeniedAce (sa_pSid a))
  else if sa_AceType a =? SYSTEM_AUDIT_ACE_TYPE then lift (RtlLengthAccessAuditAce (sa_pSid a))
  else stop STATUS_NOT_SUPPORTED.

Fixpoint aces_length (aces : list SDDL_ACE) (dwSizeAcl : Z) : run Z :=
  match aces with
  | [] => ok dwSizeAcl
  | a :: aces => let* n := sddl_ace_length a in aces_length aces (u32 (dwSizeAcl + n))
  end.

(** The ACE in memory, in a block with room to spare. *)
Definition build_ace (a : SDDL_ACE) (aceSize : Z) : option mem :=
  m ← st16 (zeros (12 + aceSize)) 2 aceSize;
  m ← st8 m 0 (sa_AceType a);
  m ← st8 m 1 (sa_AceFlag a);
  m ← st32 m 4 (sa_Access a);
  n ← RtlLengthSid (sa_pSid a);
  bs ← rd (sa_pSid a) 0 n;
  wr m 8 bs.

(** Each ACE goes before the one that was put in first, the last of the text. *)
Fixpoint add_aces (sIndex : Z) (aces : list SDDL_ACE) (pAcl : mem) : run mem :=
  match aces with
  | [] => ok pAcl
  | a :: aces =>
      let* aceSize := sddl_ace_length a in
      let aceSize := u16 aceSize in
      let* _ := allocate (12 + aceSize) in
      let* pAce := lift (build_ace a aceSize) in
      let* AceSize := lift (Ace_AceSize pAce) in
      let* pAcl := on_status (RtlAddAce (Some pAcl) ACL_REVISION (if sIndex =? 0 then MAXULONG else sIndex - 1) (Some pAce) AceSize) in
      let* pAcl := lift pAcl in
      add_aces (sIndex + 1) aces pAcl
  end.

(** The ACL, null when there is no string, and the control bits. The flags are
    copied to a buffer of six bytes. *)
Definition RtlpGetAclFromSddlAclString (Control : Z) (pszAclString : option str) (bIsDacl : bool) : run (ptr * Z) :=
  match pszAclString with
  | None | Some [] => ok (None, Control)
  | Some s =>
      let* (flags, pszAceBegin) := lift (before SDDL_ACE_BEGIN_C s) in
      let* szAclFlag := lift (wr (zeros (SDDL_CONTROL_LENGTH + 1)) 0 flags) in
      let* Control := RtlpMapSddlControlToAclControl szAclFlag bIsDacl Control in
      let* strings := RtlpParseSddlAclString pszAceBegin in
      let* _ := allocate (sizeof_pointer * Z.of_nat (length strings)) in
      let* aces := parse_aces (length strings) 0 strings in
      let* dwSizeAcl := aces_length aces ACL_HEADER_SIZE in
      let* _ := allocate dwSizeAcl in
      let* pAcl := on_status (RtlCreateAcl (zeros dwSizeAcl) dwSizeAcl ACL_REVISION) in
      let* pAcl := add_aces 0 aces pAcl in
      ok (Some pAcl, Control)
  end.

(** The name of an owner or group, or the text itself, which must not be empty. *)
Definition sddl_sid (pszPart : option str) : run mem :=
  let* pszSid := lift (RtlpSddlToSidString pszPart) in
  match (if IsNullOrEmpty pszSid then pszPart else pszSid) with
  | None | Some [] => stop STATUS_INVALID_PARAMETER
  | Some s => sid_from_string s
  end.

(** An ACL and the control bits that came with it, in a descriptor. *)
Definition set_acl_part (pszAcl : option str) (bIsDacl : bool) (sd : SECURITY_DESCRIPTOR_ABSOLUTE) : run SECURITY_DESCRIPTOR_ABSOLUTE :=
  let* (pAcl, Control) := RtlpGetAclFromSddlAclString (sd_Control sd) pszAcl bIsDacl in
  let sd := set_Control sd Control in
  match pAcl with
  | Some acl => on_status (Some ((if bIsDacl then RtlSetDaclSecurityDescriptor else RtlSetSaclSecurityDescriptor) sd true (Some acl) false))
  | None => ok sd
  end.

(** The descriptor in absolute form. *)
Definition absolute_from_sddl (pszString : option str) (SddlRevision : Z) : run SECURITY_DESCRIPTOR_ABSOLUTE :=
  let* _ := allocate sizeof_SECURITY_DESCRIPTOR_ABSOLUTE in
  let* sd := on_status (Some (RtlCreateSecurityDescriptorAbsolute zero_sd SECURITY_DESCRIPTOR_REVISION)) in
  match pszString with
  | Some ((_ :: _) as s) =>
      if negb (SDDL_REVISION_1 =? SddlRevision) then stop STATUS_INVALID_PARAMETER
      else
        let* parts := RtlpParseSddlString s in
        let* pOwnerSid := sddl_sid (p_owner parts) in
        let* sd := on_status (Some (RtlSetOwnerSecurityDescriptor sd (Some pOwnerSid) false)) in
        let* pGroupSid := sddl_sid (p_group parts) in
        let* sd := on_status (Some (RtlSetGroupSecurityDescriptor sd (Some pGroupSid) false)) in
        let* sd := set_acl_part (p_dacl parts) true sd in
        let* sd := set_acl_part (p_sacl parts) false sd in
        let* valid := lift (RtlValidSecurityDescriptor sd) in
        if negb valid then stop STATUS_INVALID_SECURITY_DESCR else ok sd
  | _ => stop STATUS_INVALID_PARAMETER
  end.

(** The loop over growing blocks: the status, the block and [ulSecDescLen]. A call
    that finds the block too small gives the size it needs. *)
Fixpoint relative_loop (n : nat) (sd : SECURITY_DESCRIPTOR_ABSOLUTE) (ulSecDescLen : Z) : option (NTSTATUS * ptr * Z) :=
  match n with
  | O => None
  | S n' =>
      if negb (malloc ulSecDescLen) then Some (STATUS_INSUFFICIENT_RESOURCES, None, ulSecDescLen)
      else
        '(status, p, len) ← RtlAbsoluteToSelfRelativeSD (Some sd) (Some (zeros ulSecDescLen)) (Some ulSecDescLen);
        len ← len;
        if bool_decide (status = STATUS_BUFFER_TOO_SMALL) then
          let ulSecDescLen := u32 (len * 2) in
          if ulSecDescLen <=? SECURITY_DESCRIPTOR_RELATIVE_MAX_SIZE then relative_loop n' sd ulSecDescLen
          else Some (STATUS_SUCCESS, p, ulSecDescLen)
        else Some (status, if is_ok status then p else None, len)
  end.

(** The status, [*ppSecurityDescriptor] and [*pSecurityDescriptorLength]. The second
    block is large enough. *)
Definition RtlAllocateSecurityDescriptorFromSddlCString (pszString : option str) (SddlRevision : Z) : option (NTSTATUS * ptr * Z) :=
  match absolute_from_sddl pszString SddlRevision with
  | None => None
  | Some (inl status) => Some (status, None, 1024)
  | Some (inr sd) => relative_loop 2 sd 1024
  end.

(** The status and [*pSecInfo]. Four strings of two characters are formatted first. *)
Definition RtlGetSecurityInformationFromSddlCString (pszString : option str) : NTSTATUS * Z :=
  match pszString with
  | Some ((_ :: _) as s) =>
      if negb (asprintf 2) then (STATUS_INSUFFICIENT_RESOURCES, 0)
      else if strstr s (codes "O:") then
        let SecInfo := OWNER_SECURITY_INFORMATION in
        let SecInfo := if strstr s (codes "G:") then Z.lor SecInfo GROUP_SECURITY_INFORMATION else SecInfo in
        let SecInfo := if strstr s (codes "D:") then Z.lor SecInfo DACL_SECURITY_INFORMATION else SecInfo in
        let SecInfo := if strstr s (codes "S:") then Z.lor SecInfo SACL_SECURITY_INFORMATION else SecInfo in
        (STATUS_SUCCESS, SecInfo)
      else (STATUS_INVALID_PARAMETER, 0)
  | _ => (STATUS_INVALID_PARAMETER, 0)
  end.
End Operations.
