(* ===== verification/SddlText.v ===== *)
(** The texts of [Sddl]: comparison of strings, codes of flags and rights, names of
    SIDs, and the cutting of a text into its parts. *)

From Stdlib Require Import Ascii String.
From S2P Require Import Prelude SecurityTypes Sid Text Wc16Str RtlString SidString SidStringOps Sddl.

(** What the texts rely on from the locale: the case of ASCII letters. *)
Class AsciiCase `{Locale} : Prop :=
  tolower_ascii : forall c, 0 <= c < 128 -> tolower c = if (65 <=? c) && (c <=? 90) then c + 32 else c.

(** Strings of ASCII characters. *)
Abbreviation plain := (Forall (fun c => 0 < c < 128)).

(** The lower case of ASCII. *)
Definition lower (c : Z) : Z := if (65 <=? c) && (c <=? 90) then c + 32 else c.

(** * Comparison *)

Section Compare.
Context `{Host}.

Lemma strcmp_list f : (forall c, 0 < c < 128 -> f c <> f 0) -> forall a b p1 p2 n, zlen p1 = zlen p2 -> plain a -> plain b -> (length a < n)%nat ->
  exists r, strcmp f n (zlen p1) (p1 ++ a ++ [0]) (p2 ++ b ++ [0]) = Some r /\ (r = 0 <-> map f a = map f b).
Proof.
  intros Hf. induction a as [|x a IH]; intros b p1 p2 n Hp Ha Hb Hn; (destruct n as [|n]; [cbn in Hn; lia|]); cbn [strcmp]; unfold ldc.
  - cbn [app]. rewrite ld8_nth by done. cbn [mbind option_bind]. destruct b as [|y b]; cbn [app]; rewrite ld8_nth by done; cbn [mbind option_bind].
    + rewrite Z.eqb_refl. by exists 0.
    + apply Forall_cons in Hb as [Hy _]. destruct (Z.eqb_spec (f 0) (f y)) as [E|E]; [by destruct (Hf y Hy)|]. exists (f 0 - f y). split; [done|]. cbn. split; [lia|done].
  - apply Forall_cons in Ha as [Hx Ha]. cbn [app]. rewrite ld8_nth by done. cbn [mbind option_bind]. destruct b as [|y b]; cbn [app]; rewrite ld8_nth by done; cbn [mbind option_bind].
    + destruct (Z.eqb_spec (f x) (f 0)) as [E|E]; [by destruct (Hf x Hx)|]. exists (f x - f 0). split; [done|]. cbn. split; [lia|done].
    + apply Forall_cons in Hb as [Hy Hb]. destruct (Z.eqb_spec (f x) (f y)) as [E|E]; [|exists (f x - f y); split; [done|]; cbn; split; [lia|]; by intros [=]].
      destruct (Z.eqb_spec x 0) as [|_]; [lia|]. destruct (IH b (p1 ++ [x]) (p2 ++ [y]) n) as (r & Hr & Hi); [zl|done|done|cbn in Hn; lia|].
      exists r. rewrite <- !app_assoc in Hr. cbn [app] in Hr. rewrite zlen_app in Hr. change (zlen [x]) with 1 in Hr. split; [done|]. cbn. rewrite Hi. split; [congruence|by intros [=]].
Qed.

Section Locale.
Context `{Locale}.

Lemma compare_list f a b : (forall c, 0 < c < 128 -> f c <> f 0) -> plain a -> plain b ->
  (r ← strcmp f (S (length (a ++ [0]))) 0 (a ++ [0]) (b ++ [0]); Some (r =? 0)) = Some (bool_decide (map f a = map f b)).
Proof.
  intros Hf Ha Hb. destruct (strcmp_list f Hf a b [] [] (S (length (a ++ [0])))) as (r & Hr & Hi); [done|done|done|rewrite length_app; cbn; lia|].
  cbn [app] in Hr. change (zlen []) with 0 in Hr. rewrite Hr. cbn [mbind option_bind]. f_equal. apply eq_true_iff_eq. by rewrite Z.eqb_eq, bool_decide_eq_true.
Qed.

Lemma equal_list a b (cs : bool) : (forall c, 0 < c < 128 -> (if cs then c else tolower c) <> (if cs then 0 else tolower 0)) -> plain a -> plain b ->
  same_string a b cs = Some (bool_decide (map (if cs then fun c => c else tolower) a = map (if cs then fun c => c else tolower) b)).
Proof.
  intros Hf Ha Hb. unfold same_string, LwRtlCStringIsEqual, LwRtlCStringCompare. rewrite <- compare_list; [|destruct cs; exact Hf|done|done].
  destruct (strcmp _ _ 0 _ _) as [r|]; [|done]. cbn [mbind option_bind]. f_equal. destruct (Z.ltb_spec 0 r); [|destruct (Z.ltb_spec r 0)]; apply eq_true_iff_eq; rewrite !Z.eqb_eq; lia.
Qed.

Lemma same_exact a b : plain a -> plain b -> same_string a b true = Some (bool_decide (a = b)).
Proof. intros Ha Hb. rewrite equal_list by (done || lia). by rewrite !map_id. Qed.

Context `{!AsciiCase}.

Lemma lower_plain a : plain a -> map tolower a = map lower a.
Proof. intros Ha. induction Ha as [|c a Hc Ha IH]; [done|]. cbn. rewrite IH. f_equal. apply tolower_ascii. lia. Qed.

Lemma tolower_nonzero c : 0 < c < 128 -> tolower c <> tolower 0.
Proof. intros Hc. rewrite !tolower_ascii by lia. cbn. destruct (_ && _); lia. Qed.

Lemma same_caseless a b : plain a -> plain b -> same_string a b false = Some (bool_decide (map lower a = map lower b)).
Proof. intros Ha Hb. rewrite equal_list by (done || apply tolower_nonzero). by rewrite !lower_plain. Qed.

Lemma caseless_same_list a b : plain a -> plain b -> caseless_same a b = Some (bool_decide (map lower a = map lower b)).
Proof.
  intros Ha Hb. unfold caseless_same. rewrite <- !lower_plain by done. rewrite <- compare_list by (done || apply tolower_nonzero). by rewrite length_app.
Qed.
End Locale.
End Compare.

(** * Strings put together *)

(** The pieces that are there, one after the other. *)
Definition joined (xs : list (bool * str)) : str := concat (map snd (List.filter fst xs)).

Lemma zlen_joined xs : zlen (joined xs) = pieces_length xs.
Proof. induction xs as [|[[] x] xs IH]; cbn; [done|unfold joined in *; cbn; by rewrite zlen_app, IH|done]. Qed.

Lemma pieces_length_nonneg xs : 0 <= pieces_length xs.
Proof. rewrite <- zlen_joined. apply zlen_nonneg. Qed.

Lemma joined_app xs ys : joined (xs ++ ys) = joined xs ++ joined ys.
Proof. unfold joined. by rewrite List.filter_app, map_app, concat_app. Qed.

Lemma strcat_all_fits size xs : forall s, zlen s + pieces_length xs + 1 <= size -> strcat_all size xs s = Some (s ++ joined xs).
Proof.
  induction xs as [|[[] x] xs IH]; intros s Hs; cbn [strcat_all]; [by rewrite app_nil_r| |by apply IH].
  cbn [pieces_length fold_right] in Hs. fold (pieces_length xs) in Hs. pose proof (pieces_length_nonneg xs). destruct (Z.leb_spec (zlen s + zlen x + 1) size); [|lia].
  rewrite IH by (rewrite zlen_app; lia). unfold joined. cbn. by rewrite <- app_assoc.
Qed.

(** No piece is cut off when they all fit. *)
Lemma strncat_all_fits size xs : forall s, zlen s + pieces_length xs + 1 <= size -> strncat_all size (zlen s) xs s = Some (s ++ joined xs).
Proof.
  induction xs as [|[[] x] xs IH]; intros s Hs; cbn [strncat_all]; [by rewrite app_nil_r| |by apply IH].
  cbn [pieces_length fold_right] in Hs. fold (pieces_length xs) in Hs. pose proof (pieces_length_nonneg xs). rewrite take_ge by (unfold zlen in *; lia).
  destruct (Z.leb_spec (zlen s + zlen x + 1) size); [|lia]. rewrite <- zlen_app, IH by (rewrite zlen_app; lia). unfold joined. cbn. by rewrite <- app_assoc.
Qed.

(** * Codes *)

(** Entries of a table that are printed or not; their text and their value. *)
Definition entry_text (es : list (bool * (Z * str))) : str := joined (map (fun '(b, (_, c)) => (b, c)) es).
Definition entry_value (es : list (bool * (Z * str))) : Z := fold_right Z.lor 0 (map (fun e => e.2.1) (List.filter fst es)).
Definition set_entries (table : list (Z * str)) (v : Z) : list (bool * (Z * str)) := map (fun e => (IsSetFlag v e.1, e)) table.
Definition all_entries (table : list (Z * str)) (v : Z) : list (bool * (Z * str)) := map (fun e => (Z.land v e.1 =? e.1, e)) table.

Lemma set_codes_entries table v : set_codes table v = map (fun '(b, (_, c)) => (b, c)) (set_entries table v).
Proof. induction table as [|[m c] table IH]; cbn; [done|]. by f_equal. Qed.
Lemma all_codes_entries table v : all_codes table v = map (fun '(b, (_, c)) => (b, c)) (all_entries table v).
Proof. induction table as [|[m c] table IH]; cbn; [done|]. by f_equal. Qed.

Lemma entry_value_app xs ys : entry_value (xs ++ ys) = Z.lor (entry_value xs) (entry_value ys).
Proof.
  unfold entry_value. rewrite List.filter_app, map_app. induction (List.filter fst xs) as [|x l IH]; [done|]. cbn. by rewrite IH, Z.lor_assoc.
Qed.

(** What is printed of a value is part of it. *)
Definition within (m v : Z) : Prop := Z.land m v = m.

Lemma within_lor a b v : within a v -> within b v -> within (Z.lor a b) v.
Proof. unfold within. intros Ha Hb. by rewrite Z.land_lor_distr_l, Ha, Hb. Qed.

Lemma entry_value_within es v : Forall (fun e => e.1 = true -> within e.2.1 v) es -> within (entry_value es) v.
Proof.
  intros He. unfold entry_value. induction He as [|[[] [m c]] es Hm He IH]; [done| |done]. cbn. apply within_lor; [by apply Hm|done].
Qed.

Section Codes.
Context `{Host} `{Locale}.

(** A table where every code stands for its value. *)
Definition coded (table es : list (Z * str)) : Prop := Forall (fun e => exists a b, e.2 = [a; b] /\ find_code table e.2 = Some (Some e.1)) es.

Lemma map_codes_entries table es : Forall (fun e => exists a b, e.2.2 = [a; b] /\ find_code table e.2.2 = Some (Some e.2.1)) es ->
  forall acc, map_codes table (entry_text es) acc = Some (Z.lor acc (entry_value es)).
Proof.
  intros He. induction He as [|[[] [m c]] es Hm He IH]; intros acc; [cbn; by rewrite Z.lor_0_r| |apply IH].
  destruct Hm as (a & b & E & Hf). cbn [snd fst] in *. subst c. change (entry_text ((true, (m, [a; b])) :: es)) with (a :: b :: entry_text es).
  change (entry_value ((true, (m, [a; b])) :: es)) with (Z.lor m (entry_value es)). cbn [map_codes]. rewrite Hf. cbn [mbind option_bind]. rewrite IH. unfold SetFlag. by rewrite Z.lor_assoc.
Qed.

Lemma coded_set table es v : coded table es -> Forall (fun e => exists a b, e.2.2 = [a; b] /\ find_code table e.2.2 = Some (Some e.2.1)) (set_entries es v).
Proof. intros Hc. unfold set_entries. by apply Forall_map. Qed.
Lemma coded_all table es v : coded table es -> Forall (fun e => exists a b, e.2.2 = [a; b] /\ find_code table e.2.2 = Some (Some e.2.1)) (all_entries es v).
Proof. intros Hc. unfold all_entries. by apply Forall_map. Qed.

Lemma flags_coded : coded ace_flag_codes ace_flag_codes.
Proof. repeat (constructor; [do 2 eexists; split; [reflexivity|vm_compute; reflexivity]|]). constructor. Qed.

Abbreviation rights := (single_rights ++ combined_rights ++ label_rights).
Lemma rights_coded : coded rights single_rights /\ coded rights combined_rights /\ coded rights label_rights.
Proof. split_and!; repeat (constructor; [do 2 eexists; split; [reflexivity|vm_compute; reflexivity]|]); constructor. Qed.

(** The text of flags and of rights, and what it stands for. *)
Definition flags_text (v : Z) : str := entry_text (set_entries ace_flag_codes v).
Definition flags_value (v : Z) : Z := entry_value (set_entries ace_flag_codes v).
Definition right_entries (v : Z) : list (bool * (Z * str)) := set_entries single_rights v ++ all_entries combined_rights v ++ set_entries label_rights v.
Definition rights_text (v : Z) : str := entry_text (right_entries v).
Definition rights_value (v : Z) : Z := entry_value (right_entries v).

Lemma flags_read v : RtlpMapSddlFlagToAceFlag (flags_text v) = Some (flags_value v).
Proof. unfold RtlpMapSddlFlagToAceFlag, flags_text. rewrite map_codes_entries by apply coded_set, flags_coded. by rewrite Z.lor_0_l. Qed.

Lemma rights_read v : RtlpMapSddlRightsToAccessMask (rights_text v) = Some (rights_value v).
Proof.
  unfold RtlpMapSddlRightsToAccessMask, rights_text, right_entries. destruct rights_coded as (C1 & C2 & C3). rewrite map_codes_entries; [by rewrite Z.lor_0_l|].
  apply Forall_app_2; [by apply coded_set|]. apply Forall_app_2; [by apply coded_all|by apply coded_set].
Qed.
End Codes.

Lemma pieces_length_app xs ys : pieces_length (xs ++ ys) = pieces_length xs + pieces_length ys.
Proof. by rewrite <- !zlen_joined, joined_app, zlen_app. Qed.

(** The length of all codes of a table. *)
Definition codes_length (table : list (Z * str)) : Z := fold_right (fun e n => zlen e.2 + n) 0 table.

Lemma codes_length_max (f : Z * str -> bool) table : pieces_length (map (fun e => (f e, e.2)) table) <= codes_length table.
Proof.
  induction table as [|[m c] table IH]; [done|]. cbn [map pieces_length fold_right codes_length snd fst]. fold (pieces_length (map (fun e => (f e, e.2)) table)). fold (codes_length table).
  pose proof (zlen_nonneg c). destruct (f (m, c)); lia.
Qed.

Lemma set_codes_length table v : pieces_length (set_codes table v) <= codes_length table.
Proof. erewrite <- (codes_length_max (fun e => IsSetFlag v e.1)). apply Z.eq_le_incl. f_equal. unfold set_codes. apply map_ext. by intros []. Qed.
Lemma all_codes_length table v : pieces_length (all_codes table v) <= codes_length table.
Proof. erewrite <- (codes_length_max (fun e => Z.land v e.1 =? e.1)). apply Z.eq_le_incl. f_equal. unfold all_codes. apply map_ext. by intros []. Qed.

(** A flag of one bit that is set is part of the value. *)
Lemma set_within v k : 0 <= k -> IsSetFlag v (2 ^ k) = true -> within (2 ^ k) v.
Proof.
  intros Hk Hs. rewrite IsSetFlag_bit in Hs by done. unfold within. rewrite Z.land_comm. apply Z.bits_inj'. intros i Hi. rewrite Z.land_spec, Z.pow2_bits_eqb by done.
  destruct (Z.eqb_spec k i) as [->|]; [by rewrite Hs|by rewrite andb_false_r].
Qed.

Definition one_bit (e : Z * str) : Prop := exists k, 0 <= k /\ e.1 = 2 ^ k.

Lemma set_entries_within table v : Forall one_bit table -> Forall (fun e => e.1 = true -> within e.2.1 v) (set_entries table v).
Proof. intros Ht. unfold set_entries. apply Forall_map. eapply Forall_impl; [exact Ht|]. intros [m c] (k & Hk & E). cbn in *. subst m. by apply set_within. Qed.

Lemma all_entries_within table v : Forall (fun e => e.1 = true -> within e.2.1 v) (all_entries table v).
Proof. unfold all_entries. apply Forall_map, Forall_true. intros [m c]. cbn. rewrite Z.eqb_eq. unfold within. by rewrite Z.land_comm. Qed.

Ltac one_bits := repeat (constructor; [first [by exists 0|by exists 1|by exists 2|by exists 3|by exists 4|by exists 5|by exists 6|by exists 7|by exists 16|by exists 17|by exists 18|by exists 19|by exists 28|by exists 29|by exists 30|by exists 31]|]); constructor.

Lemma flags_value_within v : within (flags_value v) v.
Proof. apply entry_value_within, set_entries_within. one_bits. Qed.

Lemma rights_value_within v : within (rights_value v) v.
Proof.
  apply entry_value_within. apply Forall_app_2; [apply set_entries_within; one_bits|]. apply Forall_app_2; [apply all_entries_within|apply set_entries_within; one_bits].
Qed.

(** * Writing *)

Section Write.
Context `{Host} `{Locale} (malloc : Z -> bool) (Hmem : forall n, 0 < n -> malloc n = true).

Lemma allocate_ok n : 0 < n -> allocate malloc n = ok tt.
Proof. intros Hn. unfold allocate. rewrite Hmem by done. destruct (Z.ltb_spec 0 n); [done|lia]. Qed.

Lemma duplicate_ok s : duplicate malloc s = ok s.
Proof. unfold duplicate. rewrite allocate_ok; [done|]. pose proof (zlen_nonneg s). lia. Qed.

Lemma flags_written v : RtlpMapAceFlagToSddlFlag malloc v = ok (flags_text v).
Proof.
  unfold RtlpMapAceFlagToSddlFlag. rewrite allocate_ok by done. cbn [and_run ok]. rewrite strcat_all_fits; [by rewrite set_codes_entries|].
  pose proof (set_codes_length ace_flag_codes v) as Hl. change (codes_length ace_flag_codes) with 14 in Hl. change (zlen []) with 0. unfold SDDL_ACEFLAG_LENGTH. lia.
Qed.

Lemma rights_written v : RtlpMapAccessMaskToSddlRights malloc v = ok (rights_text v).
Proof.
  unfold RtlpMapAccessMaskToSddlRights. rewrite allocate_ok by done. cbn [and_run ok]. rewrite strcat_all_fits.
  - unfold rights_text, entry_text, right_entries. rewrite !map_app, !set_codes_entries, all_codes_entries. done.
  - pose proof (set_codes_length single_rights v) as H1. pose proof (all_codes_length combined_rights v) as H2. pose proof (set_codes_length label_rights v) as H3.
    change (codes_length single_rights) with 16 in H1. change (codes_length combined_rights) with 16 in H2. change (codes_length label_rights) with 6 in H3.
    rewrite !pieces_length_app. change (zlen []) with 0. unfold SDDL_ACCESS_LENGTH. lia.
Qed.
End Write.

(** * Names of SIDs *)

(** Names that are not used for the SID with their RID. *)
Definition reserved (name : str) : bool := bool_decide (map lower name = map lower SDDL_EVERYONE) || bool_decide (map lower name = map lower SDDL_CREATOR_OWNER).

Definition alias_of (s : sid) : option TABLE_ENTRY := rid ← last (sid_sub s); RtlpSddlLookupRid rid.

Definition sid_name (s : sid) : str :=
  if decide (sid_string s = SECURITY_WORLD_PREFIX) then SDDL_EVERYONE
  else if decide (sid_string s = SECURITY_CREATOR_OWNER_PREFIX) then SDDL_CREATOR_OWNER
  else match alias_of s with Some e => if reserved (te_pszSddl e) then sid_string s else te_pszSddl e | None => sid_string s end.

(** SIDs that a name stands for: no other SID with an RID of the table gets its
    name. *)
Record named (s : sid) : Prop := {
  nm_wf : sid_wf s;
  nm_valid : sid_valid s = true;
  nm_sub : sid_sub s <> [];
  nm_small : big_authority s = false;
  nm_alias : forall e, alias_of s = Some e -> reserved (te_pszSddl e) = false -> te_pszSidString e = sid_string s
}.

Lemma table_plain : Forall (fun e => plain (te_pszSddl e)) LwSddlSidStringTable.
Proof. unfold LwSddlSidStringTable. repeat (constructor; [repeat (constructor; [done|]); constructor|]). constructor. Qed.

Lemma table_short : Forall (fun e => zlen (te_pszSddl e) <= 2) LwSddlSidStringTable.
Proof. unfold LwSddlSidStringTable. repeat (constructor; [done|]). constructor. Qed.

(** The characters of a SID. *)
Definition sid_char (c : Z) : Prop := c = 83 \/ c = 45 \/ 48 <= c <= 57.

Lemma format_u_digits v : 0 <= v < 10 ^ 10 -> Forall (fun c => 48 <= c <= 57) (format_u v).
Proof.
  intros Hv. destruct (format_u_spec 10 v) as (_ & Hd & _); [lia|done|]. apply Forall_forall. intros c Hc.
  assert (Hx : digit c = true) by (apply (proj1 (forallb_forall digit (format_u v))); [done|by apply list_elem_of_In]). unfold digit in Hx. bool_hyps. lia.
Qed.

Lemma sid_string_chars s : sid_wf s -> big_authority s = false -> Forall sid_char (sid_string s).
Proof.
  assert (Hu : forall v, 0 <= v < 10 ^ 10 -> Forall sid_char (format_u v)) by (intros v Hv; eapply Forall_impl; [by apply format_u_digits|]; unfold sid_char; cbn; lia).
  assert (Hd : Forall sid_char [45] /\ Forall sid_char [83; 45]) by (split; repeat constructor; unfold sid_char; lia). destruct Hd as [Hd1 Hd2].
  intros (Hr & Ha & Hb & _ & Hs) Hbig. destruct (six_bytes _ Ha) as (v0 & v1 & v2 & v3 & v4 & v5 & E). unfold sid_string. rewrite Hbig. apply Forall_app_2.
  - unfold format_authority, authority_number. rewrite E in *. cbn [drop rev app]. repeat (apply Forall_cons_iff in Hb as [? Hb]).
    apply (Forall_app_2 _ [83; 45]); [done|]. apply Forall_app_2; [apply Hu; lia|]. apply (Forall_app_2 _ [45]); [done|]. apply Hu. cbn [le_decode]. lia.
  - clear -Hs Hu Hd1. induction Hs as [|v l Hv Hl IH]; [constructor|]. cbn [map concat]. apply Forall_app_2; [|done]. apply (Forall_app_2 _ [45]); [done|]. apply Hu. lia.
Qed.

Lemma lower_inj a b : Forall sid_char a -> Forall sid_char b -> map lower a = map lower b -> a = b.
Proof.
  intros Ha. revert b. induction Ha as [|x a Hx Ha IH]; intros b Hb E; destruct Hb as [|y b Hy Hb]; [done..|]. cbn in E. injection E as E1 E2. f_equal; [|by apply IH].
  unfold lower, sid_char in *. destruct ((65 <=? x) && (x <=? 90)) eqn:C1, ((65 <=? y) && (y <=? 90)) eqn:C2;
    rewrite ?andb_true_iff, ?andb_false_iff, ?Z.leb_le, ?Z.leb_gt in *; lia.
Qed.

Lemma sid_string_long s : sid_wf s -> 4 <= zlen (sid_string s).
Proof.
  intros (Hr & Ha & Hb & _). destruct (six_bytes _ Ha) as (v0 & v1 & v2 & v3 & v4 & v5 & E). unfold sid_string, format_hex_authority, format_authority, authority_number. rewrite E in *.
  repeat (apply Forall_cons_iff in Hb as [? Hb]). rewrite zlen_app. pose proof (zlen_nonneg (concat (map format_sub (sid_sub s)))).
  destruct (format_u_spec 10 (sid_revision s)) as (L1 & _); [lia|lia|].
  destruct (big_authority s); rewrite !zlen_app; [change (zlen [83; 45]) with 2; cbn [map concat format_2X app]; rewrite ?zlen_cons, ?zlen_nil; unfold zlen; lia|].
  cbn [drop rev app]. destruct (format_u_spec 10 (le_decode [v5; v4; v3; v2])) as (L2 & _); [lia|cbn [le_decode]; lia|]. rewrite !zlen_cons, !zlen_nil. unfold zlen. lia.
Qed.

Section Names.
Context `{Host} `{Locale} `{!AsciiCase} (malloc : Z -> bool) (Hmem : forall n, 0 < n -> malloc n = true).

Lemma sid_chars_plain a : Forall sid_char a -> plain a.
Proof. intros Ha. eapply Forall_impl; [exact Ha|]. unfold sid_char. cbn. lia. Qed.

Lemma same_sid_string a b : Forall sid_char a -> Forall sid_char b -> same_string a b false = Some (bool_decide (a = b)).
Proof.
  intros Ha Hb. rewrite same_caseless by (by apply sid_chars_plain). f_equal. apply bool_decide_ext. split; [by apply lower_inj|by intros ->].
Qed.

Lemma cstring_of_sid s : sid_wf s -> cstring_of (sid_string_block s) = Some (sid_string s).
Proof.
  intros Hw. unfold cstring_of. rewrite (strlen_at CHAR _ _ (sid_string_block_cstr s Hw)). cbn [mbind option_bind]. unfold sid_string_block. by apply rd_at_0.
Qed.

Lemma get_rid p s rid : sid_at host p s -> last (sid_sub s) = Some rid -> RtlGetRidSid true (Some p) = Some (STATUS_SUCCESS, Some rid).
Proof.
  intros Hp Hr. unfold RtlGetRidSid. cbn [negb]. rewrite (sid_at_count _ _ _ Hp). cbn [mbind option_bind]. apply last_Some in Hr as [l E]. unfold sid_count. rewrite E, length_app. cbn [length].
  destruct (Z.eqb_spec (Z.of_nat (length l + 1)) 0); [lia|]. replace (Z.of_nat (length l + 1) - 1) with (Z.of_nat (length l)) by lia.
  rewrite (sid_at_sub _ _ (length l) rid Hp); [done|]. by rewrite E, list_lookup_middle.
Qed.

Lemma world_chars : Forall sid_char SECURITY_WORLD_PREFIX /\ Forall sid_char SECURITY_CREATOR_OWNER_PREFIX.
Proof.
  change SECURITY_WORLD_PREFIX with [83; 45; 49; 45; 49; 45; 48]. change SECURITY_CREATOR_OWNER_PREFIX with [83; 45; 49; 45; 51; 45; 48].
  split; repeat (constructor; [unfold sid_char; lia|]); constructor.
Qed.

Lemma alias_plain e rid : RtlpSddlLookupRid rid = Some e -> plain (te_pszSddl e).
Proof. intros He. apply find_some in He as [He _]. by apply (proj1 (Forall_forall _ _) table_plain), list_elem_of_In. Qed.

Lemma names_plain : plain SDDL_EVERYONE /\ plain SDDL_CREATOR_OWNER.
Proof. split; repeat (constructor; [done|]); constructor. Qed.

Lemma name_written p s : sid_at host p s -> sid_valid s = true -> sid_sub s <> [] -> big_authority s = false ->
  RtlpGetSddlSidStringFromSid malloc (Some p) = ok (sid_name s).
Proof.
  intros Hp Hv Hs Hb. pose proof (sid_at_wf _ _ _ Hp) as Hw. pose proof (sid_string_chars s Hw Hb) as Hc. destruct world_chars as [W C]. unfold RtlpGetSddlSidStringFromSid, sid_name.
  rewrite (RtlAllocateCStringFromSid_spec malloc p s Hp Hv), Hmem by (unfold RTLP_STRING_SID_MAX_CHARS, sid_count; lia). cbn [on_status is_ok bool_decide decide_rel]. rewrite is_ok_success. cbn [and_run ok lift].
  rewrite (cstring_of_sid s Hw). cbn [lift and_run ok]. rewrite (same_sid_string _ _ Hc W). cbn [lift and_run ok].
  destruct (decide (sid_string s = SECURITY_WORLD_PREFIX)) as [E|E]; [rewrite bool_decide_true by done; by apply duplicate_ok|rewrite bool_decide_false by done].
  rewrite (same_sid_string _ _ Hc C). cbn [lift and_run ok].
  destruct (decide (sid_string s = SECURITY_CREATOR_OWNER_PREFIX)) as [E2|E2]; [rewrite bool_decide_true by done; by apply duplicate_ok|rewrite bool_decide_false by done].
  destruct (last (sid_sub s)) as [rid|] eqn:Hr; [|by apply last_None in Hr]. rewrite (get_rid p s rid Hp Hr). cbn [on_status]. rewrite is_ok_success. cbn [and_run ok lift].
  unfold alias_of, RtlpRidToSddl. rewrite Hr. cbn [mbind option_bind]. destruct (RtlpSddlLookupRid rid) as [e|] eqn:He; cbn [option_map]; [|by apply duplicate_ok].
  destruct names_plain as [N1 N2]. pose proof (alias_plain e rid He) as Hpl. rewrite same_caseless by done. cbn [lift and_run ok]. unfold reserved.
  destruct (bool_decide _); cbn [orb]; [by apply duplicate_ok|]. rewrite same_caseless by done. cbn [lift and_run ok]. destruct (bool_decide _); by apply duplicate_ok.
Qed.

(** ** Reading names *)

Lemma lookup_sddl_find table s : Forall (fun e => plain (te_pszSddl e)) table -> plain s ->
  lookup_sddl table s = Some (find (fun e => bool_decide (map lower (te_pszSddl e) = map lower s)) table).
Proof.
  intros Ht Hs. induction Ht as [|e table He Ht IH]; [done|]. cbn [lookup_sddl find]. rewrite caseless_same_list by done. cbn [mbind option_bind]. by destruct (bool_decide _).
Qed.

(** A text longer than a name is no name. *)
Lemma no_name s : 2 < zlen s -> find (fun e => bool_decide (map lower (te_pszSddl e) = map lower s)) LwSddlSidStringTable = None.
Proof.
  intros Hs. destruct (find _ _) as [e|] eqn:E; [|done]. exfalso. apply find_some in E as [He E]. apply bool_decide_eq_true in E. apply (f_equal length) in E. rewrite !length_map in E.
  pose proof (proj1 (List.Forall_forall _ _) table_short e He) as Hl. cbv beta in Hl. unfold zlen in *. lia.
Qed.

Lemma longer_differs a b : zlen a <> zlen b -> map lower a <> map lower b.
Proof. intros Hl E. apply (f_equal length) in E. rewrite !length_map in E. unfold zlen in Hl. lia. Qed.

(** A name of the table is found at its entry. *)
Lemma alias_found e rid : RtlpSddlLookupRid rid = Some e -> find (fun e' => bool_decide (map lower (te_pszSddl e') = map lower (te_pszSddl e))) LwSddlSidStringTable = Some e.
Proof.
  intros He. apply find_some in He as [He _].
  assert (Hf : Forall (fun e => find (fun e' => bool_decide (map lower (te_pszSddl e') = map lower (te_pszSddl e))) LwSddlSidStringTable = Some e) LwSddlSidStringTable).
  { unfold LwSddlSidStringTable at 2. repeat (constructor; [vm_compute; reflexivity|]). constructor. }
  by apply (proj1 (Forall_forall _ _) Hf), list_elem_of_In.
Qed.

Lemma name_plain s : named s -> plain (sid_name s).
Proof.
  intros [Hw Hv Hs Hb Ha]. destruct names_plain as [N1 N2]. unfold sid_name. destruct (decide _); [done|]. destruct (decide _); [done|].
  pose proof (sid_chars_plain _ (sid_string_chars s Hw Hb)) as Hc. unfold alias_of in *. destruct (last (sid_sub s)) as [rid|]; [|done]. cbn [mbind option_bind] in *.
  destruct (RtlpSddlLookupRid rid) as [e|] eqn:He; [|done]. destruct (reserved _); [done|by eapply alias_plain].
Qed.

(** The text a name stands for. *)
Lemma name_lookup s : named s ->
  RtlpSddlToSidString (Some (sid_name s)) = Some (if decide (sid_name s = SDDL_EVERYONE \/ sid_name s = sid_string s) then None else Some (sid_string s)).
Proof.
  intros Hn. pose proof (name_plain s Hn) as Hp. destruct Hn as [Hw Hv Hs Hb Ha]. pose proof (sid_string_long s Hw) as Hl. unfold RtlpSddlToSidString, RtlpSddlLookupSddl. cbn [mbind option_bind].
  rewrite lookup_sddl_find by (done || apply table_plain). cbn [mbind option_bind]. f_equal. unfold sid_name in *.
  assert (Hstr : option_map te_pszSidString (find (fun e => bool_decide (map lower (te_pszSddl e) = map lower (sid_string s))) LwSddlSidStringTable) = None) by (rewrite no_name; [done|lia]).
  assert (Hself : forall X, (if decide (sid_string s = SDDL_EVERYONE \/ sid_string s = sid_string s) then None else X : option str) = None) by (intros X; rewrite decide_True; [done|by right]).
  destruct (decide (sid_string s = SECURITY_WORLD_PREFIX)); [rewrite decide_True by (by left); done|].
  destruct (decide (sid_string s = SECURITY_CREATOR_OWNER_PREFIX)) as [E|_].
  { rewrite decide_False; [by rewrite E|]. intros [?|E2]; [done|]. rewrite <- E2 in Hl. by vm_compute in Hl. }
  unfold alias_of in *. destruct (last (sid_sub s)) as [rid|]; cbn [mbind option_bind] in *; [|by rewrite Hself]. destruct (RtlpSddlLookupRid rid) as [e|] eqn:He; [|by rewrite Hself].
  destruct (reserved (te_pszSddl e)) eqn:Er; [by rewrite Hself|]. rewrite (alias_found e rid He). cbn [option_map]. rewrite (Ha e eq_refl Er). rewrite decide_False; [done|]. intros [E|E].
  - rewrite E in Er. done.
  - apply find_some in He as [He _]. pose proof (proj1 (List.Forall_forall _ _) table_short e He) as Hl2. cbv beta in Hl2. rewrite E in Hl2. lia.
Qed.

Lemma sid_string_read s : named s -> sid_from_string malloc (sid_string s) = ok (sid_bytes host s).
Proof.
  intros [Hw Hv Hs Hb Ha]. pose proof (sid_string_text s Hw) as Ht. pose proof (sid_string_length s Hw) as Hl. unfold sid_valid, SID_MAX_SUB_AUTHORITIES in Hv. bool_hyps.
  unfold sid_from_string, RtlAllocateSidFromCString. assert (Hc : cstr CHAR (sid_string s ++ [0]) (sid_string s)).
  { split; [eapply Forall_impl; [exact Ht|]; cbn; lia|]. exists []. rewrite app_nil_r, chars_CHAR; [done|]. apply Forall_app_2; [eapply Forall_impl; [exact Ht|]; cbn; lia|repeat constructor; lia]. }
  destruct (AllocateSidFromPointer_spec CHAR malloc _ _ Hc) as [Hok _]; [cbn; lia|].
  rewrite (Hok s) by (apply sid_string_sid_text; [done|unfold sid_valid, SID_MAX_SUB_AUTHORITIES; by rewrite andb_true_iff, Z.eqb_eq, Z.leb_le|done]).
  rewrite Hmem by (unfold sid_count; lia). cbn [on_status]. by rewrite is_ok_success.
Qed.

Lemma everyone_name s : named s -> sid_name s = SDDL_EVERYONE -> sid_string s = SECURITY_WORLD_PREFIX.
Proof.
  intros Hn E. pose proof (sid_string_long s (nm_wf s Hn)) as Hl. unfold sid_name in E. destruct (decide _) as [|_]; [done|]. destruct (decide _); [done|]. exfalso.
  destruct (alias_of s) as [e|]; [destruct (reserved (te_pszSddl e)) eqn:Er|]; [rewrite E in Hl; by vm_compute in Hl|rewrite E in Er; done|rewrite E in Hl; by vm_compute in Hl].
Qed.

Lemma name_read s : named s -> ace_sid_string (sid_name s) = ok (sid_string s).
Proof.
  intros Hn. pose proof (name_plain s Hn) as Hp. unfold ace_sid_string. rewrite (name_lookup s Hn). cbn [lift and_run ok]. destruct names_plain as [N1 N2].
  pose proof (sid_string_long s (nm_wf s Hn)) as Hl. destruct (decide (sid_name s = SDDL_EVERYONE \/ sid_name s = sid_string s)) as [D|D].
  - rewrite same_caseless by done. cbn [lift and_run ok]. destruct (decide (sid_name s = SDDL_EVERYONE)) as [E|E].
    + rewrite E, bool_decide_true by done. by rewrite (everyone_name s Hn E).
    + destruct D as [D|D]; [done|]. rewrite D in *. rewrite bool_decide_false by (apply longer_differs; change (zlen SDDL_EVERYONE) with 2; lia). cbn [lift and_run ok].
      rewrite same_caseless by done. cbn [lift and_run ok]. by rewrite bool_decide_false by (apply longer_differs; change (zlen SDDL_CREATOR_OWNER) with 2; lia).
  - destruct (sid_string s) as [|c r] eqn:E; [by vm_compute in Hl|done].
Qed.

(** An owner or a group; [Everyone] has no name there. *)
Lemma sid_part_read s : named s -> sid_string s <> SECURITY_WORLD_PREFIX -> sddl_sid malloc (Some (sid_name s)) = ok (sid_bytes host s).
Proof.
  intros Hn Hw. unfold sddl_sid. rewrite (name_lookup s Hn). cbn [lift and_run ok]. pose proof (sid_string_long s (nm_wf s Hn)) as Hl.
  assert (Hr : forall t, t = sid_string s -> match t with [] => stop STATUS_INVALID_PARAMETER | _ :: _ => sid_from_string malloc t end = ok (sid_bytes host s)).
  { intros t ->. rewrite <- (sid_string_read s Hn). destruct (sid_string s); [by vm_compute in Hl|done]. }
  destruct (decide (sid_name s = SDDL_EVERYONE \/ sid_name s = sid_string s)) as [D|D]; cbn [IsNullOrEmpty].
  - apply (Hr (sid_name s)). destruct D as [E|]; [|done]. by apply everyone_name in E.
  - destruct (sid_string s) as [|c r] eqn:E; [by vm_compute in Hl|]. by apply (Hr (c :: r)).
Qed.
End Names.
