(* ===== verification/SddlAcl.v ===== *)
(** ACEs and ACLs as text: what [Sddl] writes for an ACL of standard ACEs, and that
    it reads the same ACL from it. *)

From Stdlib Require Import Ascii String.
From S2P Require Import Prelude SecurityTypes Sid Acl AclRepr AclOps AclEdit AclCodec AclCodecOps AclIndex AclIndexOps Token TokenState Sd SdRelative SdRepr SdInheritOps.
From S2P Require Import Text Wc16Str RtlString SidString SidStringOps Sddl SddlText.

(** * The text of an ACE *)

Definition type_text (t : Z) : str :=
  if t =? ACCESS_ALLOWED_ACE_TYPE then codes "A" else if t =? ACCESS_DENIED_ACE_TYPE then codes "D" else codes "AU".

Definition ace_body (x : std_ace) : str :=
  type_text (sa_type x) ++ 59 :: flags_text (sa_flags x) ++ 59 :: rights_text (sa_mask x) ++ 59 :: 59 :: 59 :: sid_name (sa_sid x).
Definition ace_text (x : std_ace) : str := 40 :: ace_body x ++ [41].
Definition aces_text (xs : list std_ace) : str := concat (map ace_text xs).

(** ACEs that the text can express: the codes of the rights make up the mask. *)
Record expressible (x : std_ace) : Prop := {
  ex_wf : std_wf x;
  ex_rights : rights_value (sa_mask x) = sa_mask x;
  ex_named : named (sa_sid x)
}.

(** What remains of an ACE in the text. *)
Definition said_ace (x : std_ace) : std_ace := mk_std_ace (sa_type x) (sa_flags x) (rights_value (sa_mask x)) (sa_sid x).

(** The characters of words: upper case letters, digits and the dash. *)
Definition word_char (c : Z) : Prop := 65 <= c <= 90 \/ 48 <= c <= 57 \/ c = 45.
Abbreviation word := (Forall word_char).

#[global] Instance word_char_dec c : Decision (word_char c).
Proof. unfold word_char. apply _. Defined.

Ltac words := apply (bool_decide_unpack _); vm_compute; exact I.

Lemma type_word t : word (type_text t).
Proof. unfold type_text. repeat destruct (_ =? _); words. Qed.

Lemma joined_word (xs : list (bool * str)) : Forall (fun x => word x.2) xs -> word (joined xs).
Proof. unfold joined. induction 1 as [|[[] s] xs Hs Hx IH]; cbn; [constructor|by apply Forall_app_2|done]. Qed.

Lemma entries_word (f : Z * str -> bool) table : Forall (fun e => word e.2) table -> word (entry_text (map (fun e => (f e, e)) table)).
Proof. intros Ht. apply joined_word. rewrite map_map. apply Forall_map. eapply Forall_impl; [exact Ht|]. by intros [m c]. Qed.

Lemma flags_word v : word (flags_text v).
Proof. apply (entries_word (fun e => IsSetFlag v e.1)). repeat (constructor; [words|]). constructor. Qed.

Lemma entry_text_app xs ys : entry_text (xs ++ ys) = entry_text xs ++ entry_text ys.
Proof. unfold entry_text. by rewrite map_app, joined_app. Qed.

Lemma rights_word v : word (rights_text v).
Proof.
  unfold rights_text, right_entries. rewrite !entry_text_app. repeat apply Forall_app_2.
  1: apply (entries_word (fun e => IsSetFlag v e.1)). 2: apply (entries_word (fun e => Z.land v e.1 =? e.1)). 3: apply (entries_word (fun e => IsSetFlag v e.1)).
  all: repeat (constructor; [words|]); constructor.
Qed.

Lemma table_word : Forall (fun e => word (te_pszSddl e)) LwSddlSidStringTable.
Proof. unfold LwSddlSidStringTable. repeat (constructor; [words|]). constructor. Qed.

Lemma name_word s : sid_wf s -> big_authority s = false -> word (sid_name s).
Proof.
  intros Hw Hb. assert (Hs : word (sid_string s)) by (eapply Forall_impl; [by apply sid_string_chars|]; unfold sid_char, word_char; cbn; lia).
  unfold sid_name. destruct (decide _); [words|]. destruct (decide _); [words|]. unfold alias_of. destruct (last (sid_sub s)) as [rid|]; [|done]. cbn [mbind option_bind].
  destruct (RtlpSddlLookupRid rid) as [e|] eqn:He; [|done]. destruct (reserved _); [done|]. apply find_some in He as [He _]. by apply (proj1 (List.Forall_forall _ _) table_word).
Qed.

Lemma word_not d s : word s -> (d <? 45) || (58 <=? d) && (d <? 65) = true -> Forall (fun c => c <> d) s.
Proof. intros Hs Hd. eapply Forall_impl; [exact Hs|]. unfold word_char. cbn. intros c Hc ->. rewrite orb_true_iff, andb_true_iff, !Z.ltb_lt, Z.leb_le in Hd. lia. Qed.

(** * Cutting texts *)

Lemma strtok_skip d w s : Forall (fun c => c <> d) w -> forall token, strtok d (w ++ s) token = strtok d s (token ++ w).
Proof.
  induction 1 as [|c w Hc Hw IH]; intros token; [by rewrite app_nil_r|]. cbn [app strtok]. destruct (Z.eqb_spec c d); [done|]. by rewrite IH, <- app_assoc.
Qed.

Lemma split_at_skip d w s : Forall (fun c => c <> d) w -> forall part, split_at d (w ++ s) part = split_at d s (part ++ w).
Proof.
  induction 1 as [|c w Hc Hw IH]; intros part; [by rewrite app_nil_r|]. cbn [app split_at]. destruct (Z.eqb_spec c d); [done|]. by rewrite IH, <- app_assoc.
Qed.

Lemma split_at_part d w s : Forall (fun c => c <> d) w -> split_at d (w ++ d :: s) [] = w :: split_at d s [].
Proof. intros Hw. rewrite split_at_skip by done. cbn [split_at app]. by rewrite Z.eqb_refl. Qed.

Lemma before_skip c w s : Forall (fun x => x <> c) w -> before c (w ++ c :: s) = Some (w, c :: s).
Proof.
  induction 1 as [|x w Hx Hw IH]; cbn [app before]; [by rewrite Z.eqb_refl|]. destruct (Z.eqb_spec x c); [done|]. rewrite IH. done.
Qed.

Lemma strtok_token d w s : w <> [] -> Forall (fun c => c <> d) w -> strtok d (w ++ d :: s) [] = w :: strtok d s [].
Proof. intros Hn Hw. rewrite strtok_skip by done. cbn [strtok app]. rewrite Z.eqb_refl. by destruct w. Qed.

(** * Reading an ACE *)

(** Flags that an ACE may have are all expressed. *)
Lemma flags_exact f : LW_IS_VALID_FLAGS f VALID_ACE_FLAGS_MASK = true -> flags_value f = f.
Proof.
  intros Hf. pose proof (valid_ace_flags_range f Hf) as Hr.
  assert (Ha : forallb (fun n => negb (LW_IS_VALID_FLAGS (Z.of_nat n) VALID_ACE_FLAGS_MASK) || (flags_value (Z.of_nat n) =? Z.of_nat n)) (seq 0 256) = true) by (vm_compute; reflexivity).
  rewrite forallb_forall in Ha. specialize (Ha (Z.to_nat f)). rewrite Z2Nat.id in Ha by lia. rewrite Hf in Ha. apply Z.eqb_eq, Ha, in_seq. lia.
Qed.

Lemma types t : is_standard_ace t = true -> t = ACCESS_ALLOWED_ACE_TYPE \/ t = ACCESS_DENIED_ACE_TYPE \/ t = SYSTEM_AUDIT_ACE_TYPE.
Proof. unfold is_standard_ace. rewrite !orb_true_iff, !Z.eqb_eq. tauto. Qed.

Section Read.
Context `{Host} `{Layout} `{Locale} `{!AsciiCase} (malloc : Z -> bool) (Hmem : forall n, 0 < n -> malloc n = true).

Lemma type_read t : is_standard_ace t = true -> RtlpMapSddlTypeToAceType (type_text t) = Some t.
Proof using. intros Ht. destruct (types t Ht) as [-> | [-> | ->]]; vm_compute; reflexivity. Qed.

Lemma copy_parts_ok parts : copy_parts malloc parts = ok (map (fun s => if 0 <? zlen s then Some s else None) parts).
Proof using Hmem.
  induction parts as [|s parts IH]; [done|]. cbn [copy_parts map]. destruct (0 <? zlen s); [rewrite (duplicate_ok malloc Hmem)|]; cbn [and_run ok]; by rewrite IH.
Qed.

(** An empty part reads as zero. *)
Lemma part_read (f : str -> option Z) s : f [] = Some 0 -> match (if 0 <? zlen s then Some s else None) with Some s => f s | None => Some 0 end = f s.
Proof using. intros Hf. destruct s as [|c s]; [by rewrite Hf|]. destruct (Z.ltb_spec 0 (zlen (c :: s))); [done|]. rewrite zlen_cons in *. pose proof (zlen_nonneg s). lia. Qed.

Lemma ace_body_parts x : std_wf x -> big_authority (sa_sid x) = false ->
  split_at SDDL_SEPERATOR_C (ace_body x) [] = [type_text (sa_type x); flags_text (sa_flags x); rights_text (sa_mask x); []; []; sid_name (sa_sid x)].
Proof using.
  intros (_ & _ & _ & Hs) Hb. unfold ace_body, SDDL_SEPERATOR_C. rewrite split_at_part by (apply word_not; [apply type_word|done]).
  rewrite split_at_part by (apply word_not; [apply flags_word|done]). rewrite split_at_part by (apply word_not; [apply rights_word|done]). do 3 f_equal.
  cbn [split_at Z.eqb Pos.eqb]. do 2 f_equal. rewrite <- (app_nil_r (sid_name _)) at 1. rewrite split_at_skip by (apply word_not; [by apply name_word|done]). done.
Qed.

Lemma name_nonempty s : named s -> 0 < zlen (sid_name s).
Proof using H H1 H2.
  intros Hn. pose proof (name_read s Hn) as Hr. destruct (sid_name s) as [|c r] eqn:E; [|rewrite zlen_cons; pose proof (zlen_nonneg r); lia]. exfalso.
  pose proof (name_lookup s Hn) as Hl. rewrite E in Hl. assert (Hx : RtlpSddlToSidString (Some []) = Some (Some [])).
  { unfold RtlpSddlToSidString, RtlpSddlLookupSddl. cbn [mbind option_bind]. rewrite lookup_sddl_find by (apply table_plain || constructor). vm_compute. reflexivity. }
  rewrite Hx in Hl. pose proof (sid_string_long s (nm_wf s Hn)) as Hg. destruct (decide _); [done|]. injection Hl as Hl. rewrite <- Hl in Hg. by vm_compute in Hg.
Qed.

(** The ACE that the string of an ACE gives. *)
Definition ace_value (x : std_ace) : SDDL_ACE := mk_sddl_ace (sa_type x) (sa_flags x) (rights_value (sa_mask x)) (sid_bytes host (sa_sid x)).

Lemma ace_read x : std_wf x -> named (sa_sid x) -> RtlpParseSddlAceString malloc (ace_body x) = ok (ace_value x).
Proof using Type*.
  intros Hx Hn. unfold RtlpParseSddlAceString. rewrite (ace_body_parts x Hx (nm_small _ Hn)). destruct Hx as (Ht & Hf & _). cbn [length Z.of_nat Z.eqb Pos.eqb negb Pos.of_succ_nat Pos.succ SDDL_ACE_PART_NUM].
  pose proof sizeof_pointer_range as Hps. rewrite !(allocate_ok malloc Hmem) by lia. cbn [and_run ok]. rewrite copy_parts_ok. cbn [and_run ok map].
  replace (0 <? zlen (type_text (sa_type x))) with true by (destruct (types _ Ht) as [-> | [-> | ->]]; done). rewrite (allocate_ok malloc Hmem) by (unfold sizeof_SDDL_ACE; lia). cbn [and_run ok].
  rewrite (type_read _ Ht). cbn [lift and_run ok]. replace (sa_type x =? ACCESS_UNKNOWN_ACE_TYPE) with false by (destruct (types _ Ht) as [-> | [-> | ->]]; done).
  rewrite (part_read RtlpMapSddlFlagToAceFlag), flags_read, flags_exact by done. cbn [lift and_run ok]. rewrite (part_read RtlpMapSddlRightsToAccessMask), rights_read by done. cbn [lift and_run ok].
  pose proof (name_nonempty _ Hn) as Hl. destruct (Z.ltb_spec 0 (zlen (sid_name (sa_sid x)))); [|lia]. rewrite (name_read _ Hn). cbn [and_run ok].
  by rewrite (sid_string_read malloc Hmem _ Hn).
Qed.

(** ** The order of the ACEs *)

Lemma parse_aces_ok strings aces : Forall2 (fun s a => RtlpParseSddlAceString malloc s = ok a) strings aces ->
  forall n k, (k + n <= length strings)%nat -> parse_aces malloc n (S k) strings = ok (take n (drop k aces)).
Proof using.
  intros Hf. induction n as [|n IH]; intros k Hk; [done|]. cbn [parse_aces].
  destruct (lookup_lt_is_Some_2 strings k) as [s Hs]; [lia|]. destruct (Forall2_lookup_l _ _ _ _ _ Hf Hs) as (a & Ha & Hp).
  replace ((S k + length strings - 1) mod length strings)%nat with k; [|replace (S k + length strings - 1)%nat with (k + 1 * length strings)%nat by lia; rewrite Nat.Div0.mod_add, Nat.mod_small by lia; done].
  rewrite Hs. cbn [lift and_run ok]. rewrite Hp. cbn [and_run ok]. rewrite IH by lia. by rewrite (drop_S aces a k Ha).
Qed.

(** The last ACE of the text comes first. *)
Lemma parse_aces_rotate ss s aces a : Forall2 (fun s a => RtlpParseSddlAceString malloc s = ok a) ss aces -> RtlpParseSddlAceString malloc s = ok a ->
  parse_aces malloc (length (ss ++ [s])) 0 (ss ++ [s]) = ok (a :: aces).
Proof using.
  intros Hf Hs. rewrite length_app. cbn [length]. rewrite Nat.add_1_r. cbn [parse_aces]. rewrite length_app. cbn [length]. rewrite Nat.mod_small by lia.
  replace (0 + (length ss + 1) - 1)%nat with (length ss) by lia. rewrite list_lookup_middle by done. cbn [lift and_run ok]. rewrite Hs. cbn [and_run ok].
  assert (Hall : Forall2 (fun s a => RtlpParseSddlAceString malloc s = ok a) (ss ++ [s]) (aces ++ [a])) by (apply Forall2_app; [done|by constructor]).
  rewrite (parse_aces_ok _ _ Hall) by (rewrite length_app; lia). rewrite drop_0, (Forall2_length _ _ _ Hf). by rewrite take_app_length.
Qed.

(** ** Building the ACL *)

Lemma sid_image_at s : sid_wf s -> sid_at host (sid_bytes host s) s.
Proof using. intros Hs. split; [done|]. exists []. by rewrite app_nil_r. Qed.

Lemma read_length x : std_wf x -> sddl_ace_length (ace_value x) = ok (std_len x).
Proof using.
  intros (Ht & _ & _ & Hs). unfold sddl_ace_length, ace_value. cbn [sa_AceType sa_pSid].
  assert (Hl : RtlLengthAccessAllowedAce (sid_bytes host (sa_sid x)) = Some (std_len x)) by (apply length_ace; by apply sid_image_at).
  unfold RtlLengthAccessDeniedAce, RtlLengthAccessAuditAce. unfold RtlLengthAccessAllowedAce in Hl. destruct (types _ Ht) as [-> | [-> | ->]]; cbn; unfold RtlLengthAccessAllowedAce; by rewrite Hl.
Qed.

Lemma aces_length_ok xs : Forall std_wf xs -> forall n, 0 <= n -> n + std_lens xs < 65536 -> aces_length (map ace_value xs) n = ok (n + std_lens xs).
Proof using.
  induction 1 as [|x xs Hx Hxs IH]; intros n Hn Hl; cbn [map aces_length std_lens] in *; [by rewrite Z.add_0_r|]. rewrite (read_length x Hx). cbn [and_run ok].
  pose proof (std_lens_nonneg xs Hxs). destruct (std_wf_facts x Hx) as (_ & _ & ? & _). rewrite u32_small by lia. rewrite IH by lia. by rewrite Z.add_assoc.
Qed.

Lemma build_ace_ok x : std_wf x -> exists slack, build_ace (ace_value x) (std_len x) = Some (std_bytes host (said_ace x) ++ slack) /\ bytes_ok slack.
Proof using.
  intros Hx. destruct (std_wf_facts x Hx) as (Ht & Hf & Hl & _). destruct Hx as (_ & _ & _ & Hs). pose proof (sid_image_at _ Hs) as Hat. unfold build_ace, ace_value. cbn [sa_AceType sa_AceFlag sa_Access sa_pSid].
  assert (Hz : zlen (zeros (12 + std_len x)) = 12 + std_len x) by (rewrite zlen_zeros; lia).
  pose proof (bytes_ok_zeros (12 + std_len x)) as Hb. destruct (zeros (12 + std_len x)) as [|j0 [|j1 old]]; [zl..|]. rewrite !zlen_cons in Hz.
  destruct (zlen_split old 2) as (j2 & old2 & -> & L2); [lia|]. rewrite zlen_app in Hz. destruct (zlen_split old2 4) as (j4 & old4 & -> & L4); [lia|]. rewrite zlen_app in Hz.
  destruct (zlen_split old4 (std_len x - 8)) as (j8 & slack & -> & L8); [lia|]. unfold st16, st32. change (j0 :: j1 :: ?t) with ([j0; j1] ++ t). rewrite wr_at by zl. bsimpl. cbn [app].
  rewrite st_revision_0 by done. bsimpl. rewrite st_count_0 by done. bsimpl. change (sa_type x :: sa_flags x :: ?t) with ([sa_type x; sa_flags x] ++ t). rewrite app_assoc, wr_at by zl. bsimpl.
  rewrite (sid_at_length host _ _ Hat). bsimpl. rewrite (sid_at_rd host _ _ Hat). bsimpl. unfold std_len in L8.
  rewrite (app_assoc _ (encode host 4 _)), wr_at by (zl || (rewrite zlen_sid_bytes; lia)). exists slack. split; [f_equal|apply Forall_cons_iff in Hb as [_ Hb]; apply Forall_cons_iff in Hb as [_ Hb]; rewrite !bytes_ok_app in Hb; tauto].
  rewrite std_bytes_split. cbn [sa_type sa_flags sa_mask sa_sid said_ace]. change (std_len (said_ace x)) with (std_len x). by rewrite <- !app_assoc.
Qed.

Lemma within_range a v : within a v -> 0 <= v < 2 ^ 32 -> 0 <= a < 2 ^ 32.
Proof using.
  unfold within. intros Ha Hv.
  assert (Hn : 0 <= Z.land a v) by (apply Z.land_nonneg; lia). rewrite <- Ha. split; [done|]. apply Z.bounded_iff_bits_nonneg; [lia|done|]. intros i Hi. rewrite Z.land_spec.
  rewrite (proj1 (Z.bounded_iff_bits_nonneg 32 v ltac:(lia) ltac:(lia)) (proj2 Hv) i Hi). apply andb_false_r.
Qed.

Lemma said_wf x : std_wf x -> std_wf (said_ace x).
Proof using. intros (Ht & Hf & Hm & Hs). split; [done|]. split; [done|]. split; [|done]. apply (within_range _ (sa_mask x)); [apply rights_value_within|done]. Qed.

(** One ACE put between [l] and [r]. *)
Lemma add_step p new l r x slack : acl_at p (std_acl ACL_REVISION new (l ++ r)) -> Forall std_wf (l ++ r) -> std_wf x -> bytes_ok slack -> 8 + std_lens (l ++ r) + std_len x <= new ->
  exists p', RtlAddAce (Some p) ACL_REVISION (index_between (map (std_bytes host) l) (map (std_bytes host) r)) (Some (std_bytes host x ++ slack)) (std_len x) = Some (STATUS_SUCCESS, Some p') /\
    acl_at p' (std_acl ACL_REVISION new (l ++ x :: r)).
Proof using.
  intros Hat Hl Hx Hb Hn. destruct (std_wf_facts x Hx) as (_ & _ & _ & Hz). pose proof (std_ace_wf x Hx) as Ha.
  pose proof (RtlAddAce_correct p _ (map (std_bytes host) l) (map (std_bytes host) r) (std_bytes host x ++ slack) (std_len x) [std_bytes host x] ACL_REVISION Hat) as HA. cbv zeta in HA.
  unfold acl_used, std_acl in HA. cbn [acl_aces acl_size acl_revision] in HA. rewrite aces_len_std in HA by done. destruct (Z.leb_spec (8 + std_lens (l ++ r) + std_len x) new); [|lia].
  destruct HA as (p' & -> & Hp' & _); [by rewrite map_app|apply bytes_ok_app; split; [apply Ha|done]|rewrite zlen_app, Hz; pose proof (zlen_nonneg slack); lia| |done|done|done|].
  { split_and!; [by apply Forall_singleton|unfold aces_len; cbn [concat]; by rewrite app_nil_r, Hz|exists slack; cbn [concat]; by rewrite app_nil_r]. }
  exists p'. split; [done|]. unfold acl_with in Hp'. cbn [acl_revision acl_size app] in Hp'. unfold std_acl. by rewrite map_app.
Qed.

Lemma add_one p new k l r x : acl_at p (std_acl ACL_REVISION new (l ++ r)) -> Forall std_wf (l ++ r) -> std_wf x -> 8 + std_lens (l ++ r) + std_len x <= new ->
  (if k =? 0 then MAXULONG else k - 1) = index_between (map (std_bytes host) l) (map (std_bytes host) r) ->
  exists p', (forall xs, add_aces malloc k (ace_value x :: xs) p = add_aces malloc (k + 1) xs p') /\ acl_at p' (std_acl ACL_REVISION new (l ++ said_ace x :: r)).
Proof using Type*.
  intros Hat Hl Hx Hn Hk. pose proof (said_wf x Hx) as Hx'. destruct (std_wf_facts x Hx) as (_ & _ & Hlen & _). destruct (build_ace_ok x Hx) as (slack & Hb & Hok).
  destruct (add_step p new l r (said_ace x) slack Hat Hl Hx' Hok Hn) as (p' & Hadd & Hp'). change (std_len (said_ace x)) with (std_len x) in Hadd.
  exists p'. split; [|done]. intros xs. cbn [add_aces]. rewrite (read_length x Hx). cbn [and_run ok]. rewrite u16_small by lia. rewrite (allocate_ok malloc Hmem) by lia. cbn [and_run ok].
  rewrite Hb. cbn [lift and_run ok]. destruct (std_fields host (said_ace x) slack Hx') as (_ & _ & -> & _). rewrite decode_encode by (change (std_len (said_ace x)) with (std_len x); lia). cbn [lift and_run ok].
  change (std_len (said_ace x)) with (std_len x). rewrite Hk, Hadd. cbn [on_status]. by rewrite is_ok_success.
Qed.

Lemma add_before p new xs : Forall std_wf xs -> forall l z, acl_at p (std_acl ACL_REVISION new (l ++ [z])) -> Forall std_wf (l ++ [z]) -> 8 + std_lens (l ++ [z]) + std_lens xs <= new ->
  exists p', add_aces malloc (Z.of_nat (length l) + 1) (map ace_value xs) p = ok p' /\ acl_at p' (std_acl ACL_REVISION new (l ++ map said_ace xs ++ [z])).
Proof using Type*.
  intros Hxs. revert p. induction Hxs as [|x xs Hx Hxs IH]; intros p l z Hat Hl Hn; cbn [map std_lens] in *; [by exists p|]. pose proof (std_lens_nonneg xs Hxs).
  destruct (add_one p new (Z.of_nat (length l) + 1) l [z] x Hat Hl Hx) as (p1 & E & H1'); [lia|cbn [map index_between]; rewrite length_map; destruct (Z.eqb_spec (Z.of_nat (length l) + 1) 0); lia|].
  rewrite E. destruct (IH p1 (l ++ [said_ace x]) z) as (p' & E' & Hp'); [by rewrite <- app_assoc|rewrite <- app_assoc; apply Forall_app in Hl as [? ?]; apply Forall_app_2; [done|constructor; [by apply said_wf|done]]| |].
  { rewrite !std_lens_app in *. cbn [std_lens] in *. change (std_len (said_ace x)) with (std_len x). lia. }
  exists p'. rewrite length_app in E'. cbn [length] in E'. rewrite <- app_assoc in Hp'. split; [|done]. rewrite <- E'. f_equal. lia.
Qed.

(** ** Reading an ACL *)

(** The ACEs of a text whose last character may be missing. *)
Definition open_text (close : bool) (xs : list std_ace) (z : std_ace) : str := aces_text xs ++ 40 :: ace_body z ++ if close then [41] else [].

Definition legible (x : std_ace) : Prop := std_wf x /\ named (sa_sid x).

Lemma ace_body_not c x : legible x -> c = 40 \/ c = 41 -> Forall (fun y => y <> c) (ace_body x).
Proof using.
  intros [(_ & _ & _ & Hs) Hn] Hc. assert (Hd : (c <? 45) || (58 <=? c) && (c <? 65) = true) by (destruct Hc as [-> | ->]; done).
  assert (H59 : 59 <> c) by lia. unfold ace_body. apply Forall_app_2; [by apply word_not, Hd; apply type_word|]. constructor; [done|]. apply Forall_app_2; [by apply word_not, Hd; apply flags_word|].
  constructor; [done|]. apply Forall_app_2; [by apply word_not, Hd; apply rights_word|]. do 3 (constructor; [done|]). apply word_not, Hd. apply name_word; [done|apply Hn].
Qed.

Lemma ace_tokens_ok xs : ace_tokens malloc (map (fun x => 40 :: ace_body x) xs) = ok (map ace_body xs).
Proof using Hmem. induction xs as [|x xs IH]; [done|]. cbn [map ace_tokens head tail]. rewrite bool_decide_eq_true_2 by done. cbn [negb]. rewrite (duplicate_ok malloc Hmem). cbn [and_run ok]. by rewrite IH. Qed.

Lemma open_text_tokens close xs z : Forall legible xs -> legible z -> strtok SDDL_ACE_END_C (open_text close xs z) [] = map (fun x => 40 :: ace_body x) (xs ++ [z]).
Proof using.
  assert (Hb : forall x, legible x -> Forall (fun y => y <> SDDL_ACE_END_C) (40 :: ace_body x)) by (intros x Hx; constructor; [done|by apply ace_body_not; [|right]]).
  intros Hxs Hz. unfold open_text. induction Hxs as [|x xs Hx Hxs IH]; cbn [aces_text map concat app].
  - change (40 :: ace_body z ++ ?t) with ((40 :: ace_body z) ++ t). destruct close; [by rewrite strtok_token by auto|]. rewrite strtok_skip by auto. done.
  - unfold aces_text in *. cbn [map concat]. rewrite <- app_assoc. unfold ace_text at 1. cbn [app]. rewrite <- app_assoc. change (40 :: ace_body x ++ ?t) with ((40 :: ace_body x) ++ t). cbn [app].
    change (40 :: ace_body x ++ 41 :: ?t) with ((40 :: ace_body x) ++ 41 :: t). rewrite strtok_token by auto. f_equal. exact IH.
Qed.

Lemma acl_string_read close xs z : Forall legible xs -> legible z -> RtlpParseSddlAclString malloc (open_text close xs z) = ok (map ace_body (xs ++ [z])).
Proof using Type*.
  intros Hxs Hz. unfold RtlpParseSddlAclString. rewrite !(duplicate_ok malloc Hmem). cbn [and_run ok]. rewrite (open_text_tokens close xs z Hxs Hz), length_map, length_app. cbn [length].
  pose proof sizeof_pointer_range. destruct (Nat.eqb_spec (length xs + 1) 0); [lia|]. rewrite (allocate_ok malloc Hmem) by nia. cbn [and_run ok]. apply ace_tokens_ok.
Qed.

(** The flags in front of the ACEs. *)
Definition control_text (bIsDacl : bool) (c : Z) : str := entry_text (set_entries (acl_control_codes bIsDacl) c).
Definition control_value (bIsDacl : bool) (c : Z) : Z := entry_value (set_entries (acl_control_codes bIsDacl) c).

(** The buffers of the flags have no room for all three. *)
Definition control_fits (bIsDacl : bool) (c : Z) : bool := zlen (control_text bIsDacl c) <=? 4.

Lemma control_read bIsDacl c C : control_fits bIsDacl c = true -> exists m, wr (zeros (SDDL_CONTROL_LENGTH + 1)) 0 (control_text bIsDacl c) = Some m /\
  RtlpMapSddlControlToAclControl m bIsDacl C = ok (Z.lor C (control_value bIsDacl c)).
Proof using.
  unfold control_fits, control_text, control_value, set_entries, acl_control_codes. cbn [map fst].
  destruct (IsSetFlag c (if bIsDacl then SE_DACL_PROTECTED else _)), (IsSetFlag c (if bIsDacl then SE_DACL_AUTO_INHERIT_REQ else _)), (IsSetFlag c (if bIsDacl then SE_DACL_AUTO_INHERITED else _)); try done;
    intros _; eexists; (split; [vm_compute; reflexivity|]); destruct bIsDacl; cbv -[Z.lor]; by rewrite ?Z.lor_0_r, ?Z.lor_assoc.
Qed.

Lemma control_word bIsDacl c : word (control_text bIsDacl c).
Proof using. apply (entries_word (fun e => IsSetFlag c e.1)). destruct bIsDacl; repeat (constructor; [words|]); constructor. Qed.

Lemma legible_wf xs : Forall legible xs -> Forall std_wf xs.
Proof using. intros Hx. eapply Forall_impl; [exact Hx|]. by intros x [? _]. Qed.

(** The ACEs of a text, in the order of the text. *)
Lemma acl_built xs z : Forall legible xs -> legible z -> 8 + std_lens (xs ++ [z]) < 65536 ->
  exists p0 p, RtlCreateAcl (zeros (8 + std_lens (xs ++ [z]))) (8 + std_lens (xs ++ [z])) ACL_REVISION = Some (STATUS_SUCCESS, p0) /\
    add_aces malloc 0 (map ace_value (z :: xs)) p0 = ok p /\ acl_at p (std_acl ACL_REVISION (8 + std_lens (xs ++ [z])) (map said_ace (xs ++ [z]))).
Proof using Type*.
  intros Hxs [Hz _] Hn. apply legible_wf in Hxs. rewrite std_lens_app in *. cbn [std_lens] in *. set (need := 8 + (std_lens xs + (std_len z + 0))) in *. pose proof (std_lens_nonneg xs Hxs).
  destruct (std_wf_facts z Hz) as (_ & _ & Hl & _). destruct (empty_acl malloc need) as (p0 & _ & Hc & [Hp0 _]); [apply Hmem; lia|lia|].
  destruct (add_one p0 need 0 [] [] z Hp0) as (p1 & E1 & Hp1); [constructor|done|cbn [app std_lens]; lia|done|].
  destruct (add_before p1 need xs Hxs [] (said_ace z) Hp1) as (p & E & Hp).
  { by apply Forall_singleton, said_wf. }
  { cbn [app std_lens]. change (std_len (said_ace z)) with (std_len z). lia. }
  exists p0, p. split; [done|]. cbn [map]. rewrite E1. cbn [length Z.of_nat] in E. split; [done|]. by rewrite map_app.
Qed.

Lemma acl_read bIsDacl c C close xs z : control_fits bIsDacl c = true -> Forall legible xs -> legible z -> 8 + std_lens (xs ++ [z]) < 65536 ->
  exists p, RtlpGetAclFromSddlAclString malloc C (Some (control_text bIsDacl c ++ open_text close xs z)) bIsDacl = ok (Some p, Z.lor C (control_value bIsDacl c)) /\
    acl_at p (std_acl ACL_REVISION (8 + std_lens (xs ++ [z])) (map said_ace (xs ++ [z]))).
Proof using Type*.
  intros Hc Hxs Hz Hn. unfold RtlpGetAclFromSddlAclString. assert (Ht : exists t, open_text close xs z = 40 :: t).
  { unfold open_text. destruct xs as [|x xs]; [by eexists|]. unfold aces_text. cbn [map concat]. unfold ace_text at 1. cbn [app]. by eexists. }
  destruct (acl_built xs z Hxs Hz Hn) as (p0 & p & Hcr & Hadd & Hp). exists p. split; [|done].
  destruct (control_text bIsDacl c ++ open_text close xs z) eqn:E; [destruct Ht as [t Ht]; rewrite Ht in E; by destruct (control_text bIsDacl c)|]. rewrite <- E. clear E.
  assert (Hb : before SDDL_ACE_BEGIN_C (control_text bIsDacl c ++ open_text close xs z) = Some (control_text bIsDacl c, open_text close xs z)).
  { destruct Ht as [t Ht]. rewrite Ht. apply before_skip. by apply word_not; [apply control_word|]. }
  rewrite Hb. cbn [lift and_run ok]. destruct (control_read bIsDacl c C Hc) as (m & -> & Hr). cbn [lift and_run ok]. rewrite Hr. cbn [and_run ok]. rewrite (acl_string_read close xs z Hxs Hz). cbn [and_run ok].
  pose proof sizeof_pointer_range. rewrite (allocate_ok malloc Hmem) by (rewrite length_map, length_app; cbn [length]; nia). cbn [and_run ok].
  assert (Hf : Forall legible (xs ++ [z])) by (by apply Forall_app_2, Forall_singleton). pose proof (legible_wf _ Hf) as Hw. pose proof (std_lens_nonneg _ Hw).
  rewrite map_app. cbn [map]. assert (Hparse : parse_aces malloc (length (map ace_body xs ++ [ace_body z])) 0 (map ace_body xs ++ [ace_body z]) = ok (map ace_value (z :: xs))).
  { apply (parse_aces_rotate _ _ (map ace_value xs)); [|by apply ace_read; apply Hz]. apply Forall2_fmap_2, Forall_Forall2_diag. eapply Forall_impl; [exact Hxs|]. intros x [Hx Hnx]. by apply ace_read. }
  rewrite Hparse. cbn [and_run ok]. rewrite aces_length_ok; [|constructor; [apply Hz|by apply legible_wf]|done|rewrite std_lens_app in Hn; cbn [std_lens] in *; unfold ACL_HEADER_SIZE; lia]. cbn [and_run ok].
  replace (ACL_HEADER_SIZE + std_lens (z :: xs)) with (8 + std_lens (xs ++ [z])) by (rewrite std_lens_app; cbn [std_lens]; unfold ACL_HEADER_SIZE; lia).
  rewrite (allocate_ok malloc Hmem) by lia. cbn [and_run ok]. rewrite Hcr. cbn [on_status]. rewrite is_ok_success. cbn [and_run ok]. by rewrite Hadd.
Qed.
End Read.

(** * Writing an ACL *)

Lemma joined_nonempty s xs : joined (nonempty s :: xs) = s ++ joined xs.
Proof. by destruct s. Qed.
Lemma joined_true s xs : joined ((true, s) :: xs) = s ++ joined xs.
Proof. done. Qed.

Lemma strcat_pieces size xs : zlen (joined xs) < size -> strcat_all size xs [] = Some (joined xs).
Proof. intros Hs. rewrite strcat_all_fits; [done|]. rewrite zlen_nil, <- zlen_joined. lia. Qed.

Section Write.
Context `{Host} `{Layout} `{Locale} `{!AsciiCase} (malloc : Z -> bool) (Hmem : forall n, 0 < n -> malloc n = true).

Lemma type_written t : is_standard_ace t = true ->
  RtlpMapAceTypeToSddlType t = Some (type_text t) /\ IsNullOrEmpty (Some (type_text t)) = false /\
  ((t =? ACCESS_ALLOWED_ACE_TYPE) || (t =? ACCESS_DENIED_ACE_TYPE) || (t =? SYSTEM_AUDIT_ACE_TYPE)) = true.
Proof using. intros Ht. destruct (types t Ht) as [-> | [-> | ->]]; done. Qed.

Lemma ace_written ace x : legible x -> Ace_AceType ace = Some (sa_type x) -> Ace_AceFlags ace = Some (sa_flags x) -> Ace_Mask ace = Some (sa_mask x) ->
  sid_at host (RtlpGetSidAccessAllowedAce ace) (sa_sid x) -> ace_string malloc ace = ok (ace_text x).
Proof using Type*.
  intros [Hx Hn] Ht Hf Hm Hs. destruct (type_written (sa_type x) (proj1 Hx)) as (T1 & T2 & T3). unfold ace_string. rewrite Ht. cbn [lift and_run ok]. rewrite T3. cbn [negb]. rewrite Hm. cbn [lift and_run ok].
  rewrite (rights_written malloc Hmem). cbn [and_run ok]. rewrite (name_written malloc Hmem _ (sa_sid x) Hs) by apply Hn. cbn [and_run ok]. rewrite T1, T2. cbn [lift and_run ok]. rewrite Hf. cbn [lift and_run ok].
  rewrite (flags_written malloc Hmem). cbn [and_run ok]. pose proof (name_nonempty _ Hn) as Hl.
  replace (IsNullOrEmpty (Some (sid_name (sa_sid x)))) with false by (destruct (sid_name (sa_sid x)); [by rewrite zlen_nil in Hl|done]).
  rewrite (allocate_ok malloc Hmem); [|pose proof (zlen_nonneg (type_text (sa_type x))); pose proof (zlen_nonneg (flags_text (sa_flags x))); pose proof (zlen_nonneg (rights_text (sa_mask x))); lia]. cbn [and_run ok].
  fold (nonempty (flags_text (sa_flags x))). fold (nonempty (rights_text (sa_mask x))).
  assert (E : joined [(true, codes "("); (true, type_text (sa_type x)); (true, codes ";"); nonempty (flags_text (sa_flags x)); (true, codes ";"); nonempty (rights_text (sa_mask x));
    (true, codes ";"); (true, codes ";"); (true, codes ";"); (true, sid_name (sa_sid x)); (true, codes ")")] = ace_text x).
  { rewrite !joined_true, !joined_nonempty, !joined_true, joined_nonempty, !joined_true. unfold ace_text, ace_body. change (joined []) with (@nil Z). rewrite app_nil_r.
    change (codes "(") with [40]. change (codes ";") with [59]. change (codes ")") with [41]. cbn [app].
    do 3 (rewrite <- app_assoc; cbn [app]). reflexivity. }
  rewrite strcat_pieces; rewrite E; [done|]. unfold ace_text, ace_body. zl.
Qed.

Context (p : mem) (rev size : Z) (xs : list std_ace) (Hat : acl_at p (std_acl rev size xs)) (Hxs : Forall legible xs).

Lemma ace_strings_written r : forall l, xs = l ++ r -> ace_strings malloc (length r) (Z.of_nat (length l)) p = ok (map ace_text r).
Proof using Type*.
  induction r as [|x r IH]; intros l Hl; [done|]. cbn [length ace_strings map]. assert (Hx : legible x) by (rewrite Hl in Hxs; apply Forall_app in Hxs as [_ Hr]; by apply Forall_cons_iff in Hr as [? _]).
  destruct (std_ace_read p rev size xs l x r Hat (proj1 Hx) Hl) as (-> & _ & Ht & Hf & Hm & Hs). cbn [on_status]. rewrite is_ok_success. cbn [lift and_run ok]. rewrite (ace_written _ x Hx Ht Hf Hm Hs). cbn [and_run ok].
  specialize (IH (l ++ [x])). rewrite length_app in IH. cbn [length] in IH. replace (Z.of_nat (length l) + 1) with (Z.of_nat (length l + 1)) by lia. rewrite IH; [done|by rewrite <- app_assoc].
Qed.

Lemma joined_all ss : joined (map nonempty ss) = concat ss.
Proof using. induction ss as [|s ss IH]; [done|]. cbn [map concat]. by rewrite joined_nonempty, IH. Qed.

Lemma concat_length (ss : list str) : fold_right (fun s n => zlen s + n) 0 ss = zlen (concat ss).
Proof using. induction ss as [|s ss IH]; [done|]. cbn [fold_right concat]. by rewrite zlen_app, IH. Qed.

(** The text of an ACL; an ACL without ACEs has none. *)
Lemma acl_written sd get d : get sd = (STATUS_SUCCESS, true, Some p, d) ->
  RtlpGetSddlAceStringFromSecurityDescriptor malloc sd get = ok (match xs with [] => None | _ => Some (aces_text xs) end).
Proof using Type*.
  intros Hg. unfold RtlpGetSddlAceStringFromSecurityDescriptor. rewrite Hg. cbn [on_status]. rewrite is_ok_success. cbn [and_run ok]. unfold RtlGetAclAceCount.
  destruct (acl_at_fields p _ Hat) as (_ & _ & _ & -> & _). cbn [lift and_run ok]. unfold acl_count, std_acl. cbn [acl_aces]. rewrite length_map. pose proof sizeof_pointer_range.
  destruct (decide (xs = [])) as [Hnil|Hnil]; [by rewrite Hnil|].
  assert (Hlen : 0 < Z.of_nat (length xs)) by (clear -Hnil; destruct xs; [done|cbn [length]; lia]).
  destruct (Z.eqb_spec (Z.of_nat (length xs)) 0); [lia|]. rewrite (allocate_ok malloc Hmem) by nia. cbn [and_run ok]. rewrite Nat2Z.id. change 0 with (Z.of_nat (@length std_ace [])) at 1.
  rewrite (ace_strings_written xs []) by done. cbn [and_run ok]. rewrite concat_length. pose proof (zlen_nonneg (concat (map ace_text xs))). rewrite (allocate_ok malloc Hmem) by lia. cbn [and_run ok].
  rewrite strcat_pieces; rewrite joined_all; [|lia]. cbn [lift and_run ok]. clear -Hnil. by destruct xs.
Qed.
End Write.

Lemma control_written `{Host} (malloc : Z -> bool) (Hmem : forall n, 0 < n -> malloc n = true) bIsDacl c : control_fits bIsDacl c = true -> RtlpMapAclControlToSddlControl malloc c bIsDacl = ok (control_text bIsDacl c).
Proof.
  intros Hc. unfold RtlpMapAclControlToSddlControl. rewrite (allocate_ok malloc Hmem) by done. cbn [and_run ok]. rewrite set_codes_entries. fold (entry_text (set_entries (acl_control_codes bIsDacl) c)).
  apply Z.leb_le in Hc. unfold control_text, entry_text in *. rewrite strcat_pieces; [done|]. unfold SDDL_CONTROL_LENGTH. lia.
Qed.
