(* ===== verification/SddlRoundTrip.v ===== *)
(** Descriptors as text: what [Sddl] writes for a self-relative descriptor, and what
    it reads from that text, on hosts of either byte order. *)

From Stdlib Require Import Ascii String.
From S2P Require Import Prelude SecurityTypes Sid Acl AclRepr AclOps AclEdit AclCodec AclCodecOps AclIndex AclIndexOps Token AccessCheck TokenState Sd SdOps SdRelative SdRepr SdRelativeOps SdConvert SdInfo SdInherit SdInheritOps SdObject.
From S2P Require Import Text Wc16Str RtlString SidString SidStringOps Sddl SddlText SddlAcl.

(** * What a text says *)

(** The ACEs that are written: those of an ACL that is asked for and is there. *)
Definition shown_aces (asked : bool) (o : option (option acl_spec * bool)) : list std_ace :=
  if asked then match acl_of o with Some a => as_aces a | None => [] end else [].

Definition asked_dacl (info : Z) (s : sd_spec) : list std_ace := shown_aces (IsSetFlag info DACL_SECURITY_INFORMATION) (v_dacl s).
Definition asked_sacl (info : Z) (s : sd_spec) : list std_ace := shown_aces (IsSetFlag info SACL_SECURITY_INFORMATION) (v_sacl s).

(** The ACL and the control bits that are read back: no ACL when no ACE is shown. *)
Definition said_acl (xs : list std_ace) : option (option acl_spec * bool) :=
  match xs with [] => None | _ => Some (Some (mk_acl_spec ACL_REVISION (8 + std_lens xs) (map said_ace xs)), false) end.
Definition said_control (bIsDacl : bool) (bits : Z) (xs : list std_ace) : Z := match xs with [] => 0 | _ => control_value bIsDacl bits end.

Definition said (info : Z) (s : sd_spec) : sd_spec :=
  let d := asked_dacl info s in
  let a := asked_sacl info s in
  mk_view ((v_owner s).1, false) ((v_group s).1, false) (said_acl d) (said_acl a) (Z.lor (said_control true (v_bits s) d) (said_control false (v_bits s) a)) 0.

(** Descriptors with a text that can be read: an owner and a group with names, not
    everyone, and at least one ACE, all of them with names. *)
Record sayable (info : Z) (s : sd_spec) (owner group : sid) : Prop := {
  sy_info : IsSetFlag info OWNER_SECURITY_INFORMATION = true /\ IsSetFlag info GROUP_SECURITY_INFORMATION = true;
  sy_owner : (v_owner s).1 = Some owner /\ named owner /\ sid_string owner <> SECURITY_WORLD_PREFIX;
  sy_group : (v_group s).1 = Some group /\ named group /\ sid_string group <> SECURITY_WORLD_PREFIX;
  sy_dacl : Forall legible (asked_dacl info s);
  sy_sacl : Forall legible (asked_sacl info s);
  sy_some : asked_dacl info s ++ asked_sacl info s <> [];
  sy_control : control_fits true (v_bits s) = true /\ control_fits false (v_bits s) = true
}.

(** The text. *)
Definition acl_section (tag : Z) (bIsDacl : bool) (bits : Z) (xs : list std_ace) : str :=
  match xs with [] => [] | _ => tag :: 58 :: control_text bIsDacl bits ++ aces_text xs end.
Definition sd_text (info : Z) (s : sd_spec) (owner group : sid) : str :=
  79 :: 58 :: sid_name owner ++ 71 :: 58 :: sid_name group ++ acl_section 68 true (v_bits s) (asked_dacl info s) ++ acl_section 83 false (v_bits s) (asked_sacl info s).

(** * Writing *)

Section Write.
Context `{Host} `{Layout} `{Locale} `{!AsciiCase} (malloc : Z -> bool) (Hmem : forall n, 0 < n -> malloc n = true).

Lemma absolute_at b s : rel_at b s -> exists sd, absolute_of malloc b = ok sd /\ sd_at sd s.
Proof using Hmem.
  intros Hb. pose proof sizeof_pointer_range. destruct (rel_at_lens b s Hb) as ((Lo & Lo') & (Lg & Lg') & (Ld & Ld') & (La & La')).
  assert (Hfit : forall n, 0 <= n -> part_fits malloc n = true) by (intros n Hn; unfold part_fits; destruct (Z.eqb_spec n 0); [done|]; by rewrite Hmem by lia).
  pose proof (relative_to_absolute_at b s (mk_buffers None None None None None) 0 0 0 0 0 Hb eq_refl) as Q. cbv zeta in Q.
  replace (0 <? sizeof_SECURITY_DESCRIPTOR_ABSOLUTE) with true in Q by (symmetry; apply Z.ltb_lt; unfold sizeof_SECURITY_DESCRIPTOR_ABSOLUTE; lia).
  cbn [orb] in Q. unfold absolute_of. rewrite Q. clear Q. rewrite bool_decide_eq_true_2 by done. cbn [on_status]. rewrite is_ok_success. cbn [and_run ok lens_of].
  rewrite (allocate_ok malloc Hmem) by (unfold sizeof_SECURITY_DESCRIPTOR_ABSOLUTE; lia). rewrite !allocate_part_spec, !Hfit by done. cbn [on_status and_run ok]. rewrite !is_ok_success. cbn [and_run ok].
  destruct (allocated_room malloc _ _ Lo' Lo (Hfit _ Lo)) as [Ro Mo]. destruct (allocated_room malloc _ _ Lg' Lg (Hfit _ Lg)) as [Rg Mg].
  destruct (allocated_room malloc _ _ Ld' Ld (Hfit _ Ld)) as [Rd Md]. destruct (allocated_room malloc _ _ La' La (Hfit _ La)) as [Ra Ma].
  set (out := mk_buffers _ _ _ _ _).
  pose proof (relative_to_absolute_at b s out sizeof_SECURITY_DESCRIPTOR_ABSOLUTE (acl_room (acl_of (v_dacl s)))
    (acl_room (acl_of (v_sacl s))) (sid_len (v_owner s).1) (sid_len (v_group s).1) Hb) as Q.
  cbv zeta in Q. rewrite !Z.ltb_irrefl in Q. cbn [orb] in Q. destruct Q as (out' & sd & E & Esd & Hsd).
  - unfold out. cbn [b_sd b_dacl b_sacl b_owner b_group]. rewrite Mo, Mg, Md, Ma. unfold missing. bsimpl. by rewrite andb_false_r.
  - done.
  - change (mk_lengths _ _ _ _ _) with (lens_of s) in E at 1. rewrite E. cbn [mbind option_bind on_status]. rewrite is_ok_success. cbn [and_run ok]. rewrite Esd. by exists sd.
Qed.

Lemma sid_part_written sd get q d x : get sd = (STATUS_SUCCESS, Some q, d) -> sid_at host q x -> named x -> sid_part_string malloc true sd get = ok (Some (sid_name x)).
Proof using Type*.
  intros Hg Hq Hn. unfold sid_part_string, RtlpGetSddlSidStringFromSecurityDescriptor. rewrite Hg. cbn [on_status]. rewrite is_ok_success. cbn [and_run ok]. rewrite (name_written malloc Hmem q x Hq) by apply Hn. done.
Qed.

(** The strings of an ACL that is asked for. *)
Definition acl_strings (asked bIsDacl : bool) (bits : Z) (xs : list std_ace) : option str * option str :=
  (match xs with [] => None | _ => Some (aces_text xs) end, if asked then Some (control_text bIsDacl bits) else None).

Lemma acl_part_written asked bIsDacl sd get o : acl_answered (get sd) o -> Forall legible (shown_aces asked o) -> control_fits bIsDacl (sd_Control sd) = true ->
  acl_part_string malloc asked sd get bIsDacl = ok (acl_strings asked bIsDacl (sd_Control sd) (shown_aces asked o)).
Proof using Type*.
  intros (q & Hq & Ha) Hx Hc. unfold acl_part_string, acl_strings. destruct asked; [|done]. unfold shown_aces in *.
  assert (E : RtlpGetSddlAceStringFromSecurityDescriptor malloc sd get =
    ok match match acl_of o with Some a => as_aces a | None => [] end with [] => None | _ => Some (aces_text match acl_of o with Some a => as_aces a | None => [] end) end).
  { destruct o as [[a d]|]; cbn [acl_of is_present is_defaulted] in *.
    - destruct Ha as [q' a [_ Hat]|]; [by apply (acl_written malloc Hmem q' _ _ (as_aces a) Hat Hx sd get d)|].
      unfold RtlpGetSddlAceStringFromSecurityDescriptor. by rewrite Hq.
    - unfold RtlpGetSddlAceStringFromSecurityDescriptor. rewrite Hq. by destruct q. }
  rewrite E. cbn [and_run ok]. by rewrite (control_written malloc Hmem bIsDacl _ Hc).
Qed.

Lemma aces_text_nonempty x xs : IsNullOrEmpty (Some (aces_text (x :: xs))) = false.
Proof using. done. Qed.

Lemma acl_pieces_text tag asked bIsDacl bits xs : (xs <> [] -> asked = true) -> joined (acl_pieces [tag] (acl_strings asked bIsDacl bits xs)) = acl_section tag bIsDacl bits xs.
Proof using.
  intros Ha. unfold acl_pieces, acl_strings, acl_section. cbn [fst snd]. destruct xs as [|x xs]; [done|]. rewrite Ha by done. rewrite aces_text_nonempty. cbn [negb andb app].
  fold (nonempty (control_text bIsDacl bits)). rewrite !joined_true, joined_nonempty, joined_true. unfold joined at 1. cbn [map List.filter concat]. by rewrite app_nil_r.
Qed.

Lemma sid_pieces_text tag x : named x -> joined (sid_pieces [tag] (Some (sid_name x))) = tag :: 58 :: sid_name x.
Proof using H H1 H2.
  intros Hn. pose proof (name_nonempty x Hn) as Hl. unfold sid_pieces. replace (IsNullOrEmpty (Some (sid_name x))) with false by (destruct (sid_name x); [by rewrite zlen_nil in Hl|done]).
  cbn [negb]. rewrite !joined_true. unfold joined. cbn [map List.filter concat]. by rewrite app_nil_r.
Qed.

(** The flags in the text are those of the meaning. *)
Lemma control_text_bits RS RA sd s bIsDacl : sd_means RS RA sd s -> control_text bIsDacl (sd_Control sd) = control_text bIsDacl (v_bits s).
Proof using.
  intros [_ _ _ Hv]. pose proof (vr_bits _ _ _ _ Hv) as E. cbn [view v_bits] in E. rewrite <- E. unfold control_text, set_entries, acl_control_codes. cbn [map fst].
  assert (HF : forall m, Z.land part_bits m = 0 -> IsSetFlag (Z.ldiff (sd_Control sd) part_bits) m = IsSetFlag (sd_Control sd) m).
  { intros m Hm. unfold IsSetFlag. do 2 f_equal. zbits. }
  rewrite !HF by (by destruct bIsDacl). done.
Qed.

Theorem sddl_written b s info owner group : rel_at b s -> sayable info s owner group -> RtlValidRelativeSecurityDescriptor b (rel_room s) 0 = Some true ->
  RtlAllocateSddlCStringFromSecurityDescriptor malloc (Some b) SDDL_REVISION_1 info = ok (sd_text info s owner group).
Proof using Type*.
  intros Hb [[I1 I2] (Eo & No & _) (Eg & Ng & _) Hd Ha _ [C1 C2]] Hval. unfold RtlAllocateSddlCStringFromSecurityDescriptor. cbn [SDDL_REVISION_1 Z.eqb Pos.eqb negb].
  rewrite (length_relative_at b s Hb). cbn [lift and_run ok]. rewrite Hval. cbn [lift and_run ok negb]. destruct (absolute_at b s Hb) as (sd & -> & Hsd). cbn [and_run ok]. rewrite I1, I2.
  destruct (get_owner_at sd s Hsd) as (qo & Go & Ho). destruct (get_group_at sd s Hsd) as (qg & Gg & Hg). rewrite Eo in Ho. rewrite Eg in Hg. inversion Ho as [po ? Hpo|]; subst. inversion Hg as [pg ? Hpg|]; subst.
  rewrite (sid_part_written _ _ _ _ _ Go Hpo No). cbn [and_run ok]. rewrite (sid_part_written _ _ _ _ _ Gg Hpg Ng). cbn [and_run ok].
  pose proof (optional_dacl_at (Some sd) (Some s) ltac:(by constructor)) as Ad. pose proof (optional_sacl_at (Some sd) (Some s) ltac:(by constructor)) as Aa. cbn [optional_acl mbind option_bind] in Ad, Aa.
  pose proof (fun d => control_text_bits _ _ sd s d Hsd) as Ec.
  rewrite (acl_part_written _ true sd _ _ Ad Hd) by (unfold control_fits; by rewrite Ec). cbn [and_run ok]. rewrite (acl_part_written _ false sd _ _ Aa Ha) by (unfold control_fits; by rewrite Ec). cbn [and_run ok].
  set (pieces := sid_pieces _ _ ++ _). assert (Ep : joined pieces = sd_text info s owner group).
  { unfold pieces. rewrite !joined_app. change (codes "O") with [79]. change (codes "G") with [71]. change (codes "D") with [68]. change (codes "S") with [83].
    rewrite (sid_pieces_text 79 owner No), (sid_pieces_text 71 group Ng), !acl_pieces_text; unfold sd_text, asked_dacl, asked_sacl, shown_aces.
    - unfold acl_section. by rewrite !Ec.
    - by destruct (IsSetFlag info SACL_SECURITY_INFORMATION).
    - by destruct (IsSetFlag info DACL_SECURITY_INFORMATION). }
  pose proof (pieces_length_nonneg pieces). rewrite (allocate_ok malloc Hmem) by lia. cbn [and_run ok]. change 0 with (zlen (@nil Z)) at 1. rewrite strncat_all_fits by (rewrite zlen_nil; lia). by rewrite Ep.
Qed.
End Write.

(** * Reading *)

Section Read.
Context `{Host} `{Layout} `{Locale} `{!AsciiCase} (malloc asprintf : Z -> bool) (Hmem : forall n, 0 < n -> malloc n = true) (Hasp : forall n, asprintf n = true).

(** The part with the tag [tag] becomes [s]. *)
Definition set_part (tag : Z) (s : str) (parts : sddl_parts) : sddl_parts :=
  if tag =? 79 then mk_parts (Some s) (p_group parts) (p_dacl parts) (p_sacl parts)
  else if tag =? 71 then mk_parts (p_owner parts) (Some s) (p_dacl parts) (p_sacl parts)
  else if tag =? 68 then mk_parts (p_owner parts) (p_group parts) (Some s) (p_sacl parts)
  else mk_parts (p_owner parts) (p_group parts) (p_dacl parts) (Some s).

Lemma parse_step t tag t' c ts parts : In tag [79; 71; 68; 83] ->
  parse_tokens malloc asprintf ((t ++ [tag]) :: (t' ++ [c]) :: ts) parts = parse_tokens malloc asprintf ((t' ++ [c]) :: ts) (set_part tag t' parts).
Proof using Hmem Hasp.
  intros Ht. cbn [parse_tokens]. rewrite zlen_app. change (zlen [c]) with 1. pose proof (zlen_nonneg t'). rewrite (allocate_ok malloc Hmem) by lia. cbn [and_run ok].
  rewrite last_snoc. cbn [lift and_run ok]. replace (zlen t' + 1 - 1) with (zlen t') by lia. unfold zlen at 1. rewrite Nat2Z.id, take_app_length. unfold print_string. rewrite Hasp. cbn [and_run ok].
  assert (Hp : part_of malloc (tag :: SDDL_DELIMINATOR_C :: t') = ok t').
  { unfold part_of. rewrite bool_decide_eq_true_2 by done. cbn [negb drop]. by apply duplicate_ok. }
  cbn in Ht. destruct Ht as [<-|[<-|[<-|[<-|[]]]]]; cbn [starts_with codes list_ascii_of_string map nat_of_ascii]; rewrite Hp; done.
Qed.

(** ** The tokens *)

Lemma no_colon_word w : word w -> Forall (fun c => c <> SDDL_DELIMINATOR_C) w.
Proof using. intros Hw. by apply word_not. Qed.

Lemma no_colon_ace x : legible x -> Forall (fun c => c <> SDDL_DELIMINATOR_C) (ace_text x).
Proof using.
  intros [(_ & _ & _ & Hs) Hn]. unfold ace_text, ace_body. constructor; [done|]. apply Forall_app_2; [|by apply Forall_singleton]. apply Forall_app_2; [apply no_colon_word, type_word|].
  constructor; [done|]. apply Forall_app_2; [apply no_colon_word, flags_word|]. constructor; [done|]. apply Forall_app_2; [apply no_colon_word, rights_word|].
  do 3 (constructor; [done|]). apply no_colon_word, name_word; [done|apply Hn].
Qed.

Lemma no_colon_acl bIsDacl bits xs : Forall legible xs -> Forall (fun c => c <> SDDL_DELIMINATOR_C) (control_text bIsDacl bits ++ aces_text xs).
Proof using.
  intros Hx. apply Forall_app_2; [apply no_colon_word, control_word|]. unfold aces_text. induction Hx as [|x xs Hx Hxs IH]; [constructor|]. cbn [map concat]. apply Forall_app_2; [by apply no_colon_ace|done].
Qed.

Lemma colon_token w tag s : Forall (fun c => c <> SDDL_DELIMINATOR_C) w -> tag <> SDDL_DELIMINATOR_C ->
  strtok SDDL_DELIMINATOR_C (w ++ tag :: 58 :: s) [] = (w ++ [tag]) :: strtok SDDL_DELIMINATOR_C s [].
Proof using.
  intros Hw Ht. replace (w ++ tag :: 58 :: s) with ((w ++ [tag]) ++ SDDL_DELIMINATOR_C :: s) by (by rewrite <- app_assoc). apply strtok_token; [by destruct w|]. apply Forall_app_2; [done|by apply Forall_singleton].
Qed.

Lemma last_token w : w <> [] -> Forall (fun c => c <> SDDL_DELIMINATOR_C) w -> strtok SDDL_DELIMINATOR_C w [] = [w].
Proof using. intros Hn Hw. rewrite <- (app_nil_r w) at 1. rewrite strtok_skip by done. cbn [strtok app]. by destruct w. Qed.

(** The part of an ACL: the last part has lost its last character. *)
Definition acl_part_text (close bIsDacl : bool) (bits : Z) (xs : list std_ace) : option str :=
  match last xs with Some z => Some (control_text bIsDacl bits ++ open_text close (removelast xs) z) | None => None end.

Lemma aces_text_open xs z : aces_text (xs ++ [z]) = open_text true xs z /\ aces_text (xs ++ [z]) = open_text false xs z ++ [41].
Proof using.
  unfold open_text, aces_text. rewrite map_app, concat_app. cbn [map concat]. rewrite app_nil_r. unfold ace_text. split; [done|]. rewrite <- !app_assoc. cbn [app]. by rewrite app_nil_r.
Qed.

Section Parts.
Context (owner group : sid) (No : named owner) (Ng : named group) (bits : Z) (d a : list std_ace) (Hd : Forall legible d) (Ha : Forall legible a) (Hsome : d ++ a <> []).

Definition parts_text : str := 79 :: 58 :: sid_name owner ++ 71 :: 58 :: sid_name group ++ acl_section 68 true bits d ++ acl_section 83 false bits a.

Definition parts_read : sddl_parts :=
  mk_parts (Some (sid_name owner)) (Some (sid_name group)) (acl_part_text (negb (bool_decide (a = []))) true bits d) (acl_part_text false false bits a).

Lemma name_no_colon x : named x -> Forall (fun c => c <> SDDL_DELIMINATOR_C) (sid_name x).
Proof using. intros Hn. apply no_colon_word, name_word; apply Hn. Qed.

Lemma acl_section_token tag bIsDacl xs z s : Forall legible (xs ++ [z]) -> tag <> SDDL_DELIMINATOR_C ->
  strtok SDDL_DELIMINATOR_C (control_text bIsDacl bits ++ aces_text (xs ++ [z]) ++ tag :: 58 :: s) [] =
  ((control_text bIsDacl bits ++ open_text true xs z) ++ [tag]) :: strtok SDDL_DELIMINATOR_C s [].
Proof using. intros Hx Ht. rewrite app_assoc, colon_token; [|by apply no_colon_acl|done]. by rewrite (proj1 (aces_text_open xs z)). Qed.

Lemma acl_section_last bIsDacl xs z : Forall legible (xs ++ [z]) ->
  strtok SDDL_DELIMINATOR_C (control_text bIsDacl bits ++ aces_text (xs ++ [z])) [] = [(control_text bIsDacl bits ++ open_text false xs z) ++ [41]].
Proof using.
  intros Hx. rewrite last_token; [|rewrite (proj2 (aces_text_open xs z)); by destruct (control_text bIsDacl bits), (open_text false xs z)|by apply no_colon_acl].
  by rewrite (proj2 (aces_text_open xs z)), app_assoc.
Qed.

Lemma acl_section_snoc tag bIsDacl xs z : acl_section tag bIsDacl bits (xs ++ [z]) = tag :: 58 :: control_text bIsDacl bits ++ aces_text (xs ++ [z]).
Proof using. unfold acl_section. by destruct xs. Qed.

Lemma acl_part_snoc close bIsDacl xs z : acl_part_text close bIsDacl bits (xs ++ [z]) = Some (control_text bIsDacl bits ++ open_text close xs z).
Proof using. unfold acl_part_text. by rewrite last_snoc, removelast_last. Qed.

Lemma tokens_parsed : parse_tokens malloc asprintf (strtok SDDL_DELIMINATOR_C parts_text []) (mk_parts None None None None) = ok parts_read.
Proof using Hmem Hasp No Ng Hd Ha Hsome.
  unfold parts_text, parts_read. change (79 :: 58 :: ?t) with ([] ++ 79 :: 58 :: t). rewrite colon_token by (done || constructor). rewrite (colon_token (sid_name owner) 71) by (done || by apply name_no_colon).
  rewrite parse_step by (cbn; tauto). destruct (decide (d = [])) as [->|Nd], (decide (a = [])) as [->|Na]; [done|..].
  - destruct (exists_last Na) as (xs & z & ->). rewrite acl_section_snoc. cbn [acl_section app]. rewrite (colon_token (sid_name group) 83) by (done || by apply name_no_colon).
    rewrite (acl_section_last _ _ _ Ha). rewrite !parse_step by (cbn; tauto). rewrite acl_part_snoc. done.
  - destruct (exists_last Nd) as (xs & z & ->). rewrite acl_section_snoc. cbn [acl_section app]. rewrite app_nil_r. rewrite (colon_token (sid_name group) 68) by (done || by apply name_no_colon).
    rewrite (acl_section_last _ _ _ Hd). rewrite !parse_step by (cbn; tauto). rewrite acl_part_snoc. done.
  - destruct (exists_last Nd) as (xs & z & ->). destruct (exists_last Na) as (ys & y & ->). rewrite !acl_section_snoc. cbn [app]. rewrite (colon_token (sid_name group) 68) by (done || by apply name_no_colon).
    rewrite <- app_assoc. rewrite acl_section_token by done. rewrite (acl_section_last _ _ _ Ha). rewrite !parse_step by (cbn; tauto). rewrite !acl_part_snoc.
    rewrite bool_decide_eq_false_2 by done. done.
Qed.

Lemma duplicate_all_ok ss : duplicate_all malloc ss = ok tt.
Proof using Hmem. induction ss as [|s ss IH]; [done|]. cbn [duplicate_all]. by rewrite (duplicate_ok malloc Hmem). Qed.

Lemma string_parsed : RtlpParseSddlString malloc asprintf parts_text = ok parts_read.
Proof using Type*.
  unfold RtlpParseSddlString. rewrite !(duplicate_ok malloc Hmem). cbn [and_run ok]. pose proof sizeof_pointer_range.
  rewrite (allocate_ok malloc Hmem). 2:{ unfold parts_text. change (79 :: 58 :: ?t) with ([] ++ 79 :: 58 :: t). rewrite colon_token by (done || constructor). cbn [length]. lia. }
  cbn [and_run ok]. rewrite duplicate_all_ok. cbn [and_run ok]. apply tokens_parsed.
Qed.
End Parts.

(** ** Control bits and ACLs *)

Lemma control_value_bits bIsDacl bits : Z.land (control_value bIsDacl bits) 0xC03F = 0 /\ 0 <= control_value bIsDacl bits < 65536.
Proof using.
  unfold control_value, set_entries, acl_control_codes. cbn [map fst].
  destruct (IsSetFlag bits (if bIsDacl then SE_DACL_PROTECTED else _)), (IsSetFlag bits (if bIsDacl then SE_DACL_AUTO_INHERIT_REQ else _)), (IsSetFlag bits (if bIsDacl then SE_DACL_AUTO_INHERITED else _));
    destruct bIsDacl; done.
Qed.

Lemma other_flag c v m : Z.land v 0xC03F = 0 -> Z.land m 0xC03F = m -> IsSetFlag (Z.lor c v) m = IsSetFlag c m.
Proof using. intros Hv Hm. unfold IsSetFlag. do 2 f_equal. rewrite <- Hm. rewrite Z.land_lor_distr_l. replace (Z.land v (Z.land m 0xC03F)) with 0; [by rewrite Z.lor_0_r|]. rewrite (Z.land_comm m), Z.land_assoc, Hv. done. Qed.

Lemma more_control sd v : header_wf sd -> Z.land v 0xC03F = 0 -> header_wf (set_Control sd (Z.lor (sd_Control sd) v)) /\
  view (set_Control sd (Z.lor (sd_Control sd) v)) =
    mk_view (v_owner (view sd)) (v_group (view sd)) (v_dacl (view sd)) (v_sacl (view sd)) (Z.lor (v_bits (view sd)) v) (v_sbz1 (view sd)).
Proof using.
  intros [W1 W2 W3 W4 W5 W6 W7] Hv. assert (F : forall m, Z.land m 0xC03F = m -> IsSetFlag (Z.lor (sd_Control sd) v) m = IsSetFlag (sd_Control sd) m) by (intros m; by apply other_flag). split.
  - split; cbn [set_Control sd_Revision sd_Sbz1 sd_Control sd_Owner sd_Group sd_Dacl sd_Sacl]; rewrite ?F by done; done.
  - unfold view. cbn [set_Control sd_Revision sd_Sbz1 sd_Control sd_Owner sd_Group sd_Dacl sd_Sacl]. rewrite !F by done. f_equal.
    cbn [v_bits]. assert (Hp : Z.ldiff v part_bits = v); [|by rewrite <- Hp at 2; unfold part_bits; zbits].
    assert (Hl : Z.land v part_bits = 0) by (change part_bits with (Z.land 0xC03F part_bits); by rewrite Z.land_assoc, Hv). revert Hl. clear. intros Hl. zbits.
Qed.

(** A descriptor with the ACL and the control bits of a part. *)
Definition with_said (bIsDacl : bool) (s : sd_spec) (bits : Z) (xs : list std_ace) : sd_spec :=
  match xs with
  | [] => s
  | _ => if bIsDacl then mk_view (v_owner s) (v_group s) (said_acl xs) (v_sacl s) (Z.lor (v_bits s) (control_value bIsDacl bits)) (v_sbz1 s)
         else mk_view (v_owner s) (v_group s) (v_dacl s) (said_acl xs) (Z.lor (v_bits s) (control_value bIsDacl bits)) (v_sbz1 s)
  end.

Lemma lor_range x y : 0 <= x < 65536 -> 0 <= y < 65536 -> 0 <= Z.lor x y < 65536.
Proof using.
  intros Hx Hy. split; [apply Z.lor_nonneg; lia|]. change 65536 with (2 ^ 16) in *. apply Z.bounded_iff_bits_nonneg; [lia|apply Z.lor_nonneg; lia|]. intros k Hk.
  rewrite Z.lor_spec, (proj1 (Z.bounded_iff_bits_nonneg 16 x ltac:(lia) ltac:(lia)) (proj2 Hx) k Hk), (proj1 (Z.bounded_iff_bits_nonneg 16 y ltac:(lia) ltac:(lia)) (proj2 Hy) k Hk). done.
Qed.

Lemma set_acl_part_ok close bIsDacl bits xs sd s : sd_at sd s -> Forall legible xs -> control_fits bIsDacl bits = true -> 8 + std_lens xs < 65536 ->
  exists sd', set_acl_part malloc (acl_part_text close bIsDacl bits xs) bIsDacl sd = ok sd' /\ sd_at sd' (with_said bIsDacl s bits xs).
Proof using Type*.
  intros Hs Hx Hc Hn. destruct (decide (xs = [])) as [->|Nx]; [exists sd; split; [by destruct sd|done]|]. destruct (exists_last Nx) as (ys & z & ->).
  rewrite acl_part_snoc. unfold set_acl_part. pose proof Hx as Hyz. apply Forall_app in Hyz as [Hy Hz]. apply Forall_cons_iff in Hz as [Hz _].
  destruct (acl_read malloc Hmem bIsDacl bits (sd_Control sd) close ys z Hc Hy Hz Hn) as (p & -> & Hp). cbn [and_run ok]. destruct (control_value_bits bIsDacl bits) as [Hv Hvr].
  pose proof Hs as [Hw _ _ [Vo Vg Vd Va Vb Vz]]. destruct (means_bits _ _ _ _ Hs) as [Hb Hz1]. destruct (more_control sd _ Hw Hv) as [Hw1 V1].
  assert (Ha : acl_mem p (mk_acl_spec ACL_REVISION (8 + std_lens (ys ++ [z])) (map said_ace (ys ++ [z])))).
  { split; [|done]. assert (El : forall l, std_lens (map said_ace l) = std_lens l) by (induction l as [|x l IH]; [done|cbn; by rewrite IH]).
    split; [apply Forall_map; eapply Forall_impl; [by apply legible_wf|]; apply said_wf|]. split; [done|]. unfold as_used. cbn [as_aces as_size]. rewrite El. lia. }
  assert (Eq : forall A (e f : A), match ys ++ [z] with [] => e | _ :: _ => f end = f) by (intros A e f; by destruct ys).
  unfold with_said, said_acl. rewrite !Eq. pose proof (lor_range _ _ Hb Hvr) as Hr. destruct bIsDacl.
  - destruct (set_dacl_does _ true (Some p) false Hw1) as (sd' & -> & Hw' & V'). cbn [on_status]. rewrite is_ok_success. exists sd'. split; [done|].
    apply means_of_view; [done| |done|done]. rewrite V', V1. split; try done; cbn [v_dacl v_bits]; [|by rewrite Vb]. constructor. split; [by constructor|done].
  - destruct (set_sacl_does _ true (Some p) false Hw1) as (sd' & -> & Hw' & V'). cbn [on_status]. rewrite is_ok_success. exists sd'. split; [done|].
    apply means_of_view; [done| |done|done]. rewrite V', V1. split; try done; cbn [v_sacl v_bits]; [|by rewrite Vb]. constructor. split; [by constructor|done].
Qed.

(** ** The whole text *)

Lemma blank_at : sd_at (RtlCreateSecurityDescriptorAbsolute zero_sd SECURITY_DESCRIPTOR_REVISION).2 blank.
Proof using. apply means_of_view; [by apply verify_header_iff| |done|done]. split; try done; try constructor; try constructor. Qed.

Section Text.
Context (owner group : sid) (No : named owner) (Ng : named group) (Wo : sid_string owner <> SECURITY_WORLD_PREFIX) (Wg : sid_string group <> SECURITY_WORLD_PREFIX).
Context (bits : Z) (d a : list std_ace) (Hd : Forall legible d) (Ha : Forall legible a) (Hsome : d ++ a <> []).
Context (Cd : control_fits true bits = true) (Ca : control_fits false bits = true) (Ld : 8 + std_lens d < 65536) (La : 8 + std_lens a < 65536).

Definition said_view : sd_spec :=
  mk_view (Some owner, false) (Some group, false) (said_acl d) (said_acl a) (Z.lor (said_control true bits d) (said_control false bits a)) 0.

Lemma said_view_steps : with_said false (with_said true (with_group (with_owner blank (owner, false)) (group, false)) bits d) bits a = said_view.
Proof using. unfold said_view. generalize d a. intros [|x d'] [|y a']; cbn; by rewrite ?Z.lor_0_r. Qed.

Lemma said_sids_valid : sids_valid said_view.
Proof using No Ng. split; cbn; intros x [= <-]; [apply No|apply Ng]. Qed.

Lemma absolute_read : exists sd, absolute_from_sddl malloc asprintf (Some (parts_text owner group bits d a)) SDDL_REVISION_1 = ok sd /\ sd_at sd said_view.
Proof using Type*.
  unfold absolute_from_sddl. pose proof sizeof_pointer_range. rewrite (allocate_ok malloc Hmem) by (unfold sizeof_SECURITY_DESCRIPTOR_ABSOLUTE; lia). cbn [and_run ok].
  pose proof blank_at as H0'. destruct (RtlCreateSecurityDescriptorAbsolute zero_sd SECURITY_DESCRIPTOR_REVISION) as [st sd0] eqn:E. cbn [snd] in H0'. assert (st = STATUS_SUCCESS) as -> by (by injection E). clear E.
  cbn [on_status]. rewrite is_ok_success. cbn [and_run ok]. unfold parts_text at 1. cbn iota. fold (parts_text owner group bits d a). cbn [SDDL_REVISION_1 Z.eqb Pos.eqb negb].
  rewrite (string_parsed owner group No Ng bits d a Hd Ha Hsome). cbn [and_run ok parts_read p_owner p_group p_dacl p_sacl].
  rewrite (sid_part_read malloc Hmem owner No Wo). cbn [and_run ok]. destruct (set_owner_at _ _ _ owner false H0' (sid_image_at owner (nm_wf _ No))) as (sd1 & -> & H1'). cbn [on_status]. rewrite is_ok_success. cbn [and_run ok].
  rewrite (sid_part_read malloc Hmem group Ng Wg). cbn [and_run ok]. destruct (set_group_at _ _ _ group false H1' (sid_image_at group (nm_wf _ Ng))) as (sd2 & -> & H2'). cbn [on_status]. rewrite is_ok_success. cbn [and_run ok].
  destruct (set_acl_part_ok (negb (bool_decide (a = []))) true bits d sd2 _ H2' Hd Cd Ld) as (sd3 & -> & K3). cbn [and_run ok].
  destruct (set_acl_part_ok false false bits a sd3 _ K3 Ha Ca La) as (sd4 & -> & K4). cbn [and_run ok]. rewrite said_view_steps in K4.
  rewrite (valid_sd_at sd4 _ K4). destruct (proj1 (sids_bad_iff _) said_sids_valid) as [-> ->]. cbn [lift and_run ok negb andb]. by exists sd4.
Qed.

Lemma relative_read sd : sd_at sd said_view -> rel_size said_view <= 65613 ->
  exists b n, relative_loop malloc 2 sd 1024 = Some (STATUS_SUCCESS, Some b, n) /\ n = rel_size said_view /\ rel_at b (map_acls fit said_view).
Proof using Hmem No Ng.
  intros Hs Hn. destruct (size_used_at sd _ Hs said_sids_valid) as [_ Hr]. cbn [relative_loop]. rewrite !Hmem by lia. cbn [negb].
  pose proof (written_at sd said_view (zeros (1024 - 20)) 1024 Hs said_sids_valid) as Hw. rewrite <- zeros_split in Hw by lia. rewrite zlen_zeros in Hw by lia. specialize (Hw ltac:(lia) ltac:(lia)). unfold writes_relative in Hw.
  destruct (Z.ltb_spec 1024 (rel_size said_view)) as [Hl|Hl].
  - rewrite Hw. cbn [mbind option_bind]. rewrite bool_decide_eq_true_2 by done. rewrite u32_small by lia.
    destruct (Z.leb_spec (rel_size said_view * 2) SECURITY_DESCRIPTOR_RELATIVE_MAX_SIZE) as [_|Hx]; [|change SECURITY_DESCRIPTOR_RELATIVE_MAX_SIZE with 131226 in Hx; lia].
    rewrite Hmem by lia. cbn [negb].
    pose proof (written_at sd said_view (zeros (rel_size said_view * 2 - 20)) (rel_size said_view * 2) Hs said_sids_valid) as Hw2. rewrite <- zeros_split in Hw2 by lia. rewrite zlen_zeros in Hw2 by lia.
    specialize (Hw2 ltac:(lia) ltac:(lia)). unfold writes_relative in Hw2. destruct (Z.ltb_spec (rel_size said_view * 2) (rel_size said_view)); [lia|]. destruct Hw2 as (b & -> & Hb & _).
    cbn [mbind option_bind]. rewrite bool_decide_eq_false_2 by done. rewrite is_ok_success. by exists b, (rel_size said_view).
  - destruct Hw as (b & -> & Hb & _). cbn [mbind option_bind]. rewrite bool_decide_eq_false_2 by done. rewrite is_ok_success. by exists b, (rel_size said_view).
Qed.
End Text.
End Read.

(** * Properties *)

(** Nothing of a descriptor is lost in its text: what is not in the text has its
    value after reading. *)
Record all_said (info : Z) (s : sd_spec) : Prop := {
  al_owner : (v_owner s).2 = false;
  al_group : (v_group s).2 = false;
  al_dacl : v_dacl s = None \/ exists a, v_dacl s = Some (Some a, false) /\ as_revision a = ACL_REVISION /\ as_aces a <> [] /\ IsSetFlag info DACL_SECURITY_INFORMATION = true;
  al_sacl : v_sacl s = None \/ exists a, v_sacl s = Some (Some a, false) /\ as_revision a = ACL_REVISION /\ as_aces a <> [] /\ IsSetFlag info SACL_SECURITY_INFORMATION = true;
  al_rights : Forall (fun x => rights_value (sa_mask x) = sa_mask x) (asked_dacl info s ++ asked_sacl info s);
  al_bits : v_bits s = Z.lor (said_control true (v_bits s) (asked_dacl info s)) (said_control false (v_bits s) (asked_sacl info s));
  al_sbz1 : v_sbz1 s = 0
}.

(** The same ACE with at most its rights. *)
Definition weaker (x y : std_ace) : Prop :=
  sa_type y = sa_type x /\ sa_flags y = sa_flags x /\ sa_sid y = sa_sid x /\ within (sa_mask y) (sa_mask x).

Lemma said_weaker xs : Forall2 weaker xs (shown_aces true (said_acl xs)).
Proof.
  destruct xs as [|x xs]; [constructor|]. cbn [said_acl shown_aces acl_of as_aces]. generalize (x :: xs). clear. intros l. induction l as [|y l IH]; constructor; [|done].
  split_and!; [done..|]. apply rights_value_within.
Qed.

(** ** What the ACEs that are read back allow *)

Lemma map_single_within m m' f v : within m' m -> within (RtlpMapGenericMaskSingleFlag m' f v) (RtlpMapGenericMaskSingleFlag m f v).
Proof.
  unfold within. intros Hw. apply Z.bits_inj'. intros b Hb. rewrite Z.land_spec, !map_single_spec by done.
  assert (Hbit : forall i, Z.testbit m' i = Z.testbit m' i && Z.testbit m i) by (intros i; by rewrite <- Z.land_spec, Hw).
  assert (Hset : IsSetFlag m' f = true -> IsSetFlag m f = true).
  { unfold IsSetFlag. rewrite !negb_true_iff, !Z.eqb_neq. intros Hn E. apply Hn. rewrite <- Hw, <- Z.land_assoc, E. apply Z.land_0_r. }
  specialize (Hbit b). destruct (IsSetFlag m' f), (IsSetFlag m f), (Z.testbit m' b), (Z.testbit m b), (Z.testbit f b), (Z.testbit v b); cbn in *; try done; by rewrite Hset.
Qed.

Lemma map_mask_mono gm m m' : within m' m -> within (RtlMapGenericMask m' gm) (RtlMapGenericMask m gm).
Proof. intros Hw. unfold RtlMapGenericMask. by repeat apply map_single_within. Qed.

(** Allowed ACEs that lose rights and denied ACEs that keep theirs allow nothing new. *)
Lemma weaker_allows k gm b xs ys : 0 <= b -> Forall2 weaker xs ys -> Forall2 (fun x y => sa_type x = ACCESS_DENIED_ACE_TYPE -> sa_mask y = sa_mask x) xs ys ->
  decide_right k gm ys b = Some true -> decide_right k gm xs b = Some true.
Proof.
  intros Hb Hw. induction Hw as [|x y xs ys (Ht & _ & Hs & Hm) _ IH]; intros Hd; [done|]. apply Forall2_cons in Hd as [Hx Hd]. cbn [decide_right].
  unfold ace_decides. rewrite Ht, Hs. destruct (member k (sa_sid x)); cbn [andb]; [|by apply IH].
  assert (Hmono : Z.testbit (RtlMapGenericMask (sa_mask y) gm) b = true -> Z.testbit (RtlMapGenericMask (sa_mask x) gm) b = true).
  { intros E. rewrite <- (map_mask_mono gm _ _ Hm), Z.land_spec, andb_true_iff in E. tauto. }
  destruct (Z.eqb_spec (sa_type x) ACCESS_ALLOWED_ACE_TYPE).
  - destruct (Z.testbit (RtlMapGenericMask (sa_mask x) gm) b); [done|]. destruct (Z.testbit (RtlMapGenericMask (sa_mask y) gm) b); [by discriminate Hmono|by apply IH].
  - destruct (Z.eqb_spec (sa_type x) ACCESS_DENIED_ACE_TYPE) as [E|].
    + rewrite (Hx E). destruct (Z.testbit (RtlMapGenericMask (sa_mask x) gm) b); [intros E'; discriminate E'|by apply IH].
    + intros E. destruct (Z.testbit (RtlMapGenericMask (sa_mask x) gm) b), (Z.testbit (RtlMapGenericMask (sa_mask y) gm) b); by apply IH.
Qed.

Lemma said_ace_id xs : Forall (fun x => rights_value (sa_mask x) = sa_mask x) xs -> map said_ace xs = xs.
Proof. induction 1 as [|[t f m s] xs Hx _ IH]; [done|]. cbn [map]. unfold said_ace at 1. cbn [sa_type sa_flags sa_mask sa_sid] in *. by rewrite IH, Hx. Qed.

Lemma said_acl_id asked o :
  (o = None \/ exists a, o = Some (Some a, false) /\ as_revision a = ACL_REVISION /\ as_aces a <> [] /\ asked = true) ->
  Forall (fun x => rights_value (sa_mask x) = sa_mask x) (shown_aces asked o) -> said_acl (shown_aces asked o) = (fun x : option acl_spec * bool => (fit <$> x.1, x.2)) <$> o.
Proof.
  intros [-> | ([rev size xs] & -> & Hr & Hn & ->)] Hx; [by destruct asked|]. cbn [shown_aces acl_of as_revision as_aces] in *. subst rev. unfold said_acl. rewrite (said_ace_id xs Hx).
  destruct xs; [done|]. done.
Qed.

Lemma said_all info s : all_said info s -> said info s = map_acls fit s.
Proof.
  intros [Ho Hg Hd Ha Hr Hb Hz]. apply Forall_app in Hr as [Rd Ra]. unfold said, map_acls. rewrite <- Hb, Hz. unfold asked_dacl, asked_sacl in *.
  rewrite (said_acl_id _ _ Hd Rd), (said_acl_id _ _ Ha Ra), <- Ho at 1. rewrite <- Hg. by destruct (v_owner s), (v_group s).
Qed.

Lemma said_fit info s : map_acls fit (said info s) = said info s.
Proof.
  assert (El : forall l, std_lens (map said_ace l) = std_lens l) by (induction l as [|x l IH]; [done|cbn; by rewrite IH]).
  assert (E : forall xs, (fun x : option acl_spec * bool => (fit <$> x.1, x.2)) <$> said_acl xs = said_acl xs).
  { intros [|x xs]; [done|]. unfold said_acl. cbn [fmap option_fmap option_map fst snd]. unfold fit, as_used. cbn [as_aces as_revision]. by rewrite El. }
  unfold map_acls, said. cbn [v_owner v_group v_dacl v_sacl v_bits v_sbz1]. by rewrite !E.
Qed.

Lemma rel_size_fit s : rel_size (map_acls fit s) = rel_size s.
Proof. unfold rel_size. destruct (acl_of_map s) as [-> ->]. by destruct (acl_of (v_dacl s)), (acl_of (v_sacl s)). Qed.

Section Properties.
Context `{Layout} `{Locale} `{!AsciiCase} (malloc asprintf : Z -> bool) (Hmem : forall n, 0 < n -> malloc n = true) (Hasp : forall n, asprintf n = true).

Lemma shown_fits b s asked o : rel_at b s -> o = v_dacl s \/ o = v_sacl s -> 8 + std_lens (shown_aces asked o) < 65536 /\ acl_len (acl_of (said_acl (shown_aces asked o))) <= acl_len (acl_of o).
Proof using.
  intros (h & rest & _ & _ & _ & Hm) Ho. destruct (means_parts Hm) as (_ & _ & Pd & Ps). assert (Hw : forall a, acl_of o = Some a -> acl_spec_wf a).
  { intros a Ea. destruct Ho as [-> | ->]; [inversion Pd as [p x [Hx _] E1 E2|E1 E2]|inversion Ps as [p x [Hx _] E1 E2|E1 E2]]; congruence. }
  assert (El : forall l, std_lens (map said_ace l) = std_lens l) by (induction l as [|x l IH]; [done|cbn; by rewrite IH]).
  unfold shown_aces. destruct asked, (acl_of o) as [a|]; cbn [said_acl acl_of acl_len std_lens]; try (split; lia).
  - destruct (Hw a eq_refl) as (Hf & _ & Hu). pose proof (std_lens_nonneg _ Hf). unfold as_used in *. split; [lia|]. destruct (as_aces a) as [|x xs]; [cbn in *; lia|].
    unfold said_acl. cbn [acl_of acl_len]. unfold as_used. cbn [as_aces]. rewrite El. lia.
  - destruct (Hw a eq_refl) as (Hf & _ & Hu). pose proof (std_lens_nonneg _ Hf). unfold as_used. split; lia.
Qed.

(** What is written on one host and read on another. *)
Lemma said_read (h1 h2 : Host) b s info owner group :
  rel_at b s -> sayable info s owner group -> @RtlValidRelativeSecurityDescriptor h1 b (rel_room s) 0 = Some true -> rel_size s <= 65613 ->
  @RtlAllocateSddlCStringFromSecurityDescriptor h1 _ _ malloc (Some b) SDDL_REVISION_1 info = ok (sd_text info s owner group) /\
  exists b', @RtlAllocateSecurityDescriptorFromSddlCString h2 _ _ malloc asprintf (Some (sd_text info s owner group)) SDDL_REVISION_1 = Some (STATUS_SUCCESS, Some b', rel_size (said info s)) /\ rel_at b' (said info s).
Proof using Type*.
  intros Hb Hs Hv Hn. split; [by apply (@sddl_written h1)|]. destruct Hs as [_ (Eo & No & Wo) (Eg & Ng & Wg) Hd Ha Hsome [Cd Ca]].
  destruct (shown_fits b s (IsSetFlag info DACL_SECURITY_INFORMATION) (v_dacl s) Hb ltac:(by left)) as [Ld Sd]. destruct (shown_fits b s (IsSetFlag info SACL_SECURITY_INFORMATION) (v_sacl s) Hb ltac:(by right)) as [La Sa].
  fold (asked_dacl info s) in *. fold (asked_sacl info s) in *. unfold RtlAllocateSecurityDescriptorFromSddlCString. change (sd_text info s owner group) with (parts_text owner group (v_bits s) (asked_dacl info s) (asked_sacl info s)).
  destruct (@absolute_read h2 _ _ _ malloc asprintf Hmem Hasp owner group No Ng Wo Wg (v_bits s) _ _ Hd Ha Hsome Cd Ca Ld La) as (sd & -> & Hsd).
  assert (E : said info s = said_view owner group (v_bits s) (asked_dacl info s) (asked_sacl info s)) by (unfold said; by rewrite Eo, Eg).
  destruct (@relative_read h2 _ malloc Hmem owner group No Ng (v_bits s) (asked_dacl info s) (asked_sacl info s) sd Hsd) as (b' & n & Er & -> & Hb').
  { unfold rel_size in *. rewrite Eo, Eg in Hn. cbn [said_view v_owner v_group v_dacl v_sacl fst]. lia. }
  exists b'. cbn [ok]. rewrite Er, <- E. split; [done|]. by rewrite <- E, said_fit in Hb'.
Qed.

(** C30: A descriptor that can be expressed as text, printed on a host of one byte
    order and parsed on a host of either, comes back the same: owner, group, control
    bits, and both ACLs with the same ACEs in the same order. *)
Theorem sddl_roundtrip (h1 h2 : Host) b s info owner group :
  rel_at b s -> sayable info s owner group -> all_said info s -> @RtlValidRelativeSecurityDescriptor h1 b (rel_room s) 0 = Some true -> rel_size s <= 65613 ->
  exists text b', @RtlAllocateSddlCStringFromSecurityDescriptor h1 _ _ malloc (Some b) SDDL_REVISION_1 info = ok text /\
    @RtlAllocateSecurityDescriptorFromSddlCString h2 _ _ malloc asprintf (Some text) SDDL_REVISION_1 = Some (STATUS_SUCCESS, Some b', rel_size s) /\ rel_at b' (map_acls fit s).
Proof using Type*.
  intros Hb Hs Hall Hv Hn. destruct (said_read h1 h2 b s info owner group Hb Hs Hv Hn) as (Hw & b' & Hr & Hb'). rewrite (said_all info s Hall) in Hr, Hb'.
  exists (sd_text info s owner group), b'. split; [done|]. split; [|done]. by rewrite <- (rel_size_fit s).
Qed.

(** C31: A descriptor that has a text which can be read ([sayable]: its owner and group
    are asked for and have the names that are printed for them, the flags and SIDs of
    its ACEs have codes and names), with at least one ACE in a DACL that is asked for.
    What is read back from the text, on a host of either byte order, has the same owner
    and group, and a DACL of the same ACEs in order with the same type, flags and SID,
    each with at most its rights (those without codes are lost). When no denied ACE loses
    a right, no token gets from it a right that the DACL of the descriptor does not
    allow. (Without an ACE the text gives more: [sddl_empty_dacl_lost].) *)
Theorem sddl_never_widens (h1 h2 : Host) b s info owner group :
  rel_at b s -> sayable info s owner group -> @RtlValidRelativeSecurityDescriptor h1 b (rel_room s) 0 = Some true -> rel_size s <= 65613 ->
  asked_dacl info s <> [] ->
  exists text b' s' size ys, @RtlAllocateSddlCStringFromSecurityDescriptor h1 _ _ malloc (Some b) SDDL_REVISION_1 info = ok text /\
    @RtlAllocateSecurityDescriptorFromSddlCString h2 _ _ malloc asprintf (Some text) SDDL_REVISION_1 = Some (STATUS_SUCCESS, Some b', rel_size s') /\ rel_at b' s' /\
    (v_owner s').1 = (v_owner s).1 /\ (v_group s').1 = (v_group s).1 /\
    v_dacl s' = Some (Some (mk_acl_spec ACL_REVISION size ys), false) /\ Forall2 weaker (asked_dacl info s) ys /\
    (Forall (fun x => sa_type x = ACCESS_DENIED_ACE_TYPE -> rights_value (sa_mask x) = sa_mask x) (asked_dacl info s) ->
     forall k gm r, 0 <= r -> decide_right k gm ys r = Some true -> decide_right k gm (asked_dacl info s) r = Some true).
Proof using Type*.
  intros Hb Hs Hv Hn Hne. destruct (said_read h1 h2 b s info owner group Hb Hs Hv Hn) as (Hw & b' & Hr & Hb').
  exists (sd_text info s owner group), b', (said info s), (8 + std_lens (asked_dacl info s)), (map said_ace (asked_dacl info s)).
  assert (Hd : v_dacl (said info s) = Some (Some (mk_acl_spec ACL_REVISION (8 + std_lens (asked_dacl info s)) (map said_ace (asked_dacl info s))), false)).
  { cbn [said v_dacl]. unfold said_acl. by destruct (asked_dacl info s). }
  assert (Hwk : Forall2 weaker (asked_dacl info s) (map said_ace (asked_dacl info s))).
  { pose proof (said_weaker (asked_dacl info s)) as Hx. cbn [said v_dacl] in Hd. by rewrite Hd in Hx. }
  split_and!; try done. intros Hdeny k gm r Hr0. apply weaker_allows; [done|done|]. apply Forall2_fmap_r, Forall_Forall2_diag.
  eapply Forall_impl; [exact Hdeny|]. intros x Hx E. by apply Hx.
Qed.


(** A descriptor whose self-relative form is longer than 65613 bytes is reported
    as read: the caller gets success, a block of 1024 zeros, and a length of twice
    what the descriptor needs. *)
Theorem sddl_oversize (h : Host) sd s : sd_at sd s -> sids_valid s -> 65613 < rel_size s ->
  relative_loop malloc 2 sd 1024 = Some (STATUS_SUCCESS, Some (zeros 1024), 2 * rel_size s) /\ RtlValidRelativeSecurityDescriptor (zeros 1024) 1024 0 = Some false.
Proof using Hmem.
  intros Hs Hv Hn. split; [|destruct h; vm_compute; reflexivity]. destruct (size_used_at sd s Hs Hv) as [_ Hr]. cbn [relative_loop]. rewrite Hmem by lia. cbn [negb].
  rewrite (absolute_to_relative_at sd s) by (done || lia). destruct (Z.ltb_spec 1024 (rel_size s)); [|lia]. cbn [mbind option_bind]. rewrite bool_decide_eq_true_2 by done.
  rewrite u32_small by lia. destruct (Z.leb_spec (rel_size s * 2) SECURITY_DESCRIPTOR_RELATIVE_MAX_SIZE) as [Hx|_]; [change SECURITY_DESCRIPTOR_RELATIVE_MAX_SIZE with 131226 in Hx; lia|].
  by rewrite Z.mul_comm.
Qed.
End Properties.
