(* ===== verification/SddlDemo.v ===== *)
(** Concrete descriptors and their texts, and texts that are read differently from
    what they say. *)

From Stdlib Require Import Ascii String.
From S2P Require Import Prelude SecurityTypes Sid Acl AclRepr AclOps AclEdit AclCodec AclCodecOps Token AccessCheck TokenState TokenOps Sd SdOps SdRelative SdRepr SdRelativeOps SdConvert.
From S2P Require Import Text Wc16Str RtlString SidString SidStringOps Sddl SddlText SddlAcl SddlRoundTrip.

#[local] Existing Instance demo_layout.
#[local] Instance demo_locale : Locale := @c_locale LittleEndian.
#[local] Instance demo_ascii_case : AsciiCase.
Proof. intros c _. reflexivity. Qed.

Definition plenty (_ : Z) : bool := true.

(** * A descriptor *)

Definition sid_world : sid := mk_sid 1 [0; 0; 0; 0; 0; 1] [0].

Definition sddl_dacl : list std_ace :=
  [mk_std_ace ACCESS_DENIED_ACE_TYPE 0 DELETE sid_domain; mk_std_ace ACCESS_ALLOWED_ACE_TYPE 3 FILE_ALL_ACCESS sid_admins;
   mk_std_ace ACCESS_ALLOWED_ACE_TYPE 0 FILE_GENERIC_READ sid_world].
Definition sddl_sacl : list std_ace := [mk_std_ace SYSTEM_AUDIT_ACE_TYPE 0x40 GENERIC_ALL sid_world].

Definition fitted (xs : list std_ace) : acl_spec := mk_acl_spec ACL_REVISION (8 + std_lens xs) xs.
Definition sddl_spec (d a : list std_ace) : sd_spec :=
  mk_view (Some sid_admins, false) (Some sid_system, false) (Some (Some (fitted d), false)) (Some (Some (fitted a), false)) SE_DACL_PROTECTED 0.
Definition sddl_control : Z := Z.lor SE_DACL_PROTECTED (Z.lor SE_DACL_PRESENT SE_SACL_PRESENT).
Definition sddl_absolute (d a : list std_ace) : SECURITY_DESCRIPTOR_ABSOLUTE :=
  {| sd_Revision := 1; sd_Sbz1 := 0; sd_Control := sddl_control; sd_Owner := Some (sid_bytes LittleEndian sid_admins); sd_Group := Some (sid_bytes LittleEndian sid_system);
     sd_Sacl := Some (std_acl_image LittleEndian ACL_REVISION (8 + std_lens a) a ++ []); sd_Dacl := Some (std_acl_image LittleEndian ACL_REVISION (8 + std_lens d) d ++ []) |}.

(** Its self-relative form. *)
Definition sddl_rel (d : list std_ace) : mem := rel_image sddl_control (sddl_spec d sddl_sacl) (zeros 4) (zeros 4) (zeros 4) (zeros 4) [].

Lemma demo_named s : In s [sid_system; sid_admins; sid_domain; sid_world] -> named s.
Proof.
  assert (Hw : sid_wf sid_world) by (apply fixed_sid_wf; [lia|cbn; lia|repeat constructor; done]).
  assert (K : forall s, s ∈ [sid_system; sid_builtin; sid_admins; sid_domain] -> sid_wf s) by (intros x Hx; by apply (known_sid_wf LittleEndian)).
  intros Hs. cbn in Hs. destruct Hs as [<-|[<-|[<-|[<-|[]]]]]; split; try done; try (apply K; set_solver); intros e He; vm_compute in He; (discriminate || injection He as <-); intros Hr; done.
Qed.

Lemma demo_legible : Forall legible sddl_dacl /\ Forall legible sddl_sacl.
Proof.
  assert (N : forall s, In s [sid_system; sid_admins; sid_domain; sid_world] -> sid_wf s /\ named s) by (intros s Hs; split; [apply demo_named in Hs; apply Hs|by apply demo_named]).
  split; repeat (constructor; [split; [split; [done|split; [done|split; [done|apply N; cbn; tauto]]]|apply N; cbn; tauto]|]); constructor.
Qed.

Lemma demo_sddl_at d a : Forall std_wf d -> Forall std_wf a -> 8 + std_lens d < 65536 -> 8 + std_lens a < 65536 ->
  @sd_at LittleEndian (sddl_absolute d a) (sddl_spec d a) /\ sids_valid (sddl_spec d a).
Proof.
  intros Hd Ha Ld La. assert (N : forall s, In s [sid_system; sid_admins; sid_domain; sid_world] -> sid_at LittleEndian (sid_bytes LittleEndian s) s).
  { intros s Hs%demo_named. apply (@sid_image_at LittleEndian), Hs. }
  assert (A : forall xs, Forall std_wf xs -> 8 + std_lens xs < 65536 -> @acl_mem LittleEndian (std_acl_image LittleEndian ACL_REVISION (8 + std_lens xs) xs ++ []) (fitted xs)).
  { intros xs Hx Hl. pose proof (std_lens_nonneg xs Hx). 
    split; [split; [done|split; [done|unfold as_used; cbn [fitted as_aces as_size]; lia]]|].
    cbn [fitted as_revision as_size as_aces]. apply (@std_acl_image_at LittleEndian); [done|done|lia|rewrite zlen_nil; lia]. }
  split; [|split; intros x [= <-]; done]. split; [apply verify_header_iff; vm_compute; reflexivity|done|done|]. split; try done.
  - split; [constructor; apply N; cbn; tauto|done].
  - split; [constructor; apply N; cbn; tauto|done].
  - constructor. split; [constructor|done]. by apply A.
  - constructor. split; [constructor|done]. by apply A.
Qed.

Lemma demo_rel_at d : d = [] \/ d = sddl_dacl -> rel_at (sddl_rel d) (sddl_spec d sddl_sacl).
Proof.
  intros Hd. destruct demo_legible as [Ld La]. destruct (demo_sddl_at d sddl_sacl) as [Hs Hv]; [destruct Hd as [-> | ->]; [constructor|by apply legible_wf]|by apply legible_wf|by destruct Hd as [-> | ->]|done|]. pose proof (@rel_image_at LittleEndian demo_layout _ _ (zeros 4) (zeros 4) (zeros 4) (zeros 4) [] Hs Hv) as Hr.
  assert (E : map_acls fit (sddl_spec d sddl_sacl) = sddl_spec d sddl_sacl) by done. rewrite E in Hr. by apply Hr.
Qed.

Lemma demo_sayable d : d = [] \/ d = sddl_dacl -> sayable 15 (sddl_spec d sddl_sacl) sid_admins sid_system.
Proof.
  destruct demo_legible as [Ld La]. intros Hd. split; try done.
  - split; [done|]. split; [apply demo_named; cbn; tauto|done].
  - split; [done|]. split; [apply demo_named; cbn; tauto|done].
  - cbn. destruct Hd as [-> | ->]; [constructor|exact Ld].
  - destruct Hd as [-> | ->]; done.
Qed.

Lemma demo_all_said : all_said 15 (sddl_spec sddl_dacl sddl_sacl).
Proof.
  split; try done.
  - right. exists (fitted sddl_dacl). done.
  - right. exists (fitted sddl_sacl). done.
  - repeat (constructor; [vm_compute; reflexivity|]). constructor.
Qed.

Lemma demo_room d : d = [] \/ d = sddl_dacl -> (forall h : Host, @RtlValidRelativeSecurityDescriptor h (sddl_rel d) (rel_room (sddl_spec d sddl_sacl)) 0 = Some true) /\ rel_size (sddl_spec d sddl_sacl) <= 65613.
Proof. intros [-> | ->]; (split; [intros []; vm_compute; reflexivity|vm_compute; discriminate]). Qed.

Lemma sddl_roundtrip_witness :
  exists text b', @RtlAllocateSddlCStringFromSecurityDescriptor LittleEndian _ _ plenty (Some (sddl_rel sddl_dacl)) SDDL_REVISION_1 15 = ok text /\
    @RtlAllocateSecurityDescriptorFromSddlCString BigEndian _ _ plenty plenty (Some text) SDDL_REVISION_1 = Some (STATUS_SUCCESS, Some b', 160) /\ rel_at b' (sddl_spec sddl_dacl sddl_sacl).
Proof.
  assert (Hd : sddl_dacl = [] \/ sddl_dacl = sddl_dacl) by (by right). destruct (demo_room sddl_dacl Hd) as [Hv Hn].
  exact (sddl_roundtrip plenty plenty (fun _ _ => eq_refl) (fun _ => eq_refl) LittleEndian BigEndian (sddl_rel sddl_dacl) (sddl_spec sddl_dacl sddl_sacl) 15 sid_admins sid_system
    (demo_rel_at _ Hd) (demo_sayable _ Hd) demo_all_said (Hv LittleEndian) Hn).
Defined.

Lemma sddl_never_widens_witness :
  exists text b' s' size ys, @RtlAllocateSddlCStringFromSecurityDescriptor BigEndian _ _ plenty (Some (sddl_rel sddl_dacl)) SDDL_REVISION_1 15 = ok text /\
    @RtlAllocateSecurityDescriptorFromSddlCString LittleEndian _ _ plenty plenty (Some text) SDDL_REVISION_1 = Some (STATUS_SUCCESS, Some b', rel_size s') /\ rel_at b' s' /\
    v_dacl s' = Some (Some (mk_acl_spec ACL_REVISION size ys), false) /\ Forall2 weaker sddl_dacl ys /\
    forall k gm r, 0 <= r -> decide_right k gm ys r = Some true -> decide_right k gm sddl_dacl r = Some true.
Proof.
  assert (Hd : sddl_dacl = [] \/ sddl_dacl = sddl_dacl) by (by right). destruct (demo_room sddl_dacl Hd) as [Hv Hn].
  destruct (sddl_never_widens plenty plenty (fun _ _ => eq_refl) (fun _ => eq_refl) BigEndian LittleEndian (sddl_rel sddl_dacl) (sddl_spec sddl_dacl sddl_sacl) 15 sid_admins sid_system
    (demo_rel_at _ Hd) (demo_sayable _ Hd) (Hv BigEndian) Hn ltac:(discriminate)) as (text & b' & s' & size & ys & H1 & H2 & H3 & _ & _ & H4 & H5 & H6).
  exists text, b', s', size, ys. refine (conj H1 (conj H2 (conj H3 (conj H4 (conj H5 (H6 _)))))). repeat constructor; intros _; vm_compute; reflexivity.
Defined.


(** A descriptor that is too long. *)
Definition many_aces : list std_ace := replicate 2000 (mk_std_ace ACCESS_DENIED_ACE_TYPE 0 DELETE sid_domain).

Lemma sddl_oversize_witness :
  @relative_loop LittleEndian _ plenty 2 (sddl_absolute many_aces many_aces) 1024 = Some (STATUS_SUCCESS, Some (zeros 1024), 2 * rel_size (sddl_spec many_aces many_aces)).
Proof.
  assert (Hw : Forall std_wf many_aces).
  { apply Forall_replicate. split; [done|]. split; [done|]. split; [done|]. apply (nm_wf sid_domain), demo_named. cbn. tauto. }
  assert (Hl : 8 + std_lens many_aces < 65536) by (vm_compute; reflexivity). destruct (demo_sddl_at many_aces many_aces Hw Hw Hl Hl) as [Hs Hv].
  apply (sddl_oversize plenty (fun _ _ => eq_refl) LittleEndian (sddl_absolute many_aces many_aces) (sddl_spec many_aces many_aces) Hs Hv). vm_compute. reflexivity.
Defined.

(** * Texts *)

#[local] Existing Instance demo_host.

Definition read_text (s : string) : option (NTSTATUS * ptr * Z) := RtlAllocateSecurityDescriptorFromSddlCString plenty plenty (Some (codes s)) SDDL_REVISION_1.
Definition print_text (b : ptr) : run str := RtlAllocateSddlCStringFromSecurityDescriptor plenty b SDDL_REVISION_1 15.

(** The SID S-1-5-1. *)
Definition sid_dialup : sid := mk_sid 1 [0; 0; 0; 0; 0; 5] [1].

(** Texts that are read or printed as something else. The last character of a
    text without ACEs is lost, so the group [SY] is refused and [S-1-5-18] is read as
    [S-1-5-1]; a flag in front of [P] is lost; rights as a number are read as no
    rights; the owner Everyone, which is printed as [WD], is refused; and a SID of
    any domain is printed with the name of the built-in group with the same RID. *)
Theorem sddl_misread :
  read_text "O:BAG:SY" = Some (STATUS_INVALID_SID, None, 1024) /\
  (exists b, read_text "O:BAG:S-1-5-18" = Some (STATUS_SUCCESS, Some b, 48) /\ sid_at LittleEndian (padd b 36) sid_dialup) /\
  read_text "O:BAG:SYD:AIP(A;;GA;;;WD)" = read_text "O:BAG:SYD:P(A;;GA;;;WD)" /\
  read_text "O:BAG:SYD:(A;;0x1f01ff;;;WD)" = read_text "O:BAG:SYD:(A;;;;;WD)" /\
  (RtlpGetSddlSidStringFromSid plenty (Some (sid_bytes demo_host sid_world)) = ok (codes "WD") /\ read_text "O:WDG:SYD:(A;;GA;;;WD)" = Some (STATUS_INVALID_SID, None, 1024)) /\
  RtlpGetSddlSidStringFromSid plenty (Some (sid_bytes demo_host (mk_sid 1 [0; 0; 0; 0; 0; 5] [21; 11; 22; 544]))) = RtlpGetSddlSidStringFromSid plenty (Some (sid_bytes demo_host sid_admins)).
Proof.
  split; [vm_compute; reflexivity|]. split.
  - eexists. split; [vm_compute; reflexivity|]. split; [apply fixed_sid_wf; [cbn; lia|cbn; lia|repeat constructor; done]|]. eexists. vm_compute. reflexivity.
  - split; [vm_compute; reflexivity|]. split; [vm_compute; reflexivity|]. split; [split; vm_compute; reflexivity|]. vm_compute. reflexivity.
Qed.

(** Texts that make the reader follow a null pointer or write past a buffer: one
    without an owner, an ACL without a parenthesis, and more than five characters in
    front of the ACEs; printing an ACL with all three control flags writes past the
    five bytes of their string. *)
Theorem sddl_faults :
  read_text "G:SYD:(A;;GA;;;WD)" = None /\ read_text "O:BAG:SYD:PAI" = None /\ read_text "O:BAG:SYD:PARAIX(A;;GA;;;WD)" = None /\ read_text "O:BAG:SYD:PARAIXY(A;;GA;;;WD)" = None /\
  RtlpMapAclControlToSddlControl plenty (Z.lor SE_DACL_PROTECTED (Z.lor SE_DACL_AUTO_INHERIT_REQ SE_DACL_AUTO_INHERITED)) true = None.
Proof. repeat split; vm_compute; reflexivity. Qed.
