(* ===== verification/Lwmsg.v ===== *)
(** The base of the message library [lwmsg]: status codes, overflow-checked sizes
    ([util.c]), integers of any width and byte order ([convert.c]), buffers
    ([buffer-private.h], [buffer.c]), times and clocks ([time.c]). *)

From stdpp Require Import base list numbers.
From S2P Require Import Prelude.

(** * Status codes and enumerations *)

Inductive LWMsgStatus :=
  | LWMSG_STATUS_SUCCESS | LWMSG_STATUS_ERROR | LWMSG_STATUS_AGAIN | LWMSG_STATUS_MEMORY | LWMSG_STATUS_MALFORMED
  | LWMSG_STATUS_EOF | LWMSG_STATUS_NOT_FOUND | LWMSG_STATUS_UNIMPLEMENTED | LWMSG_STATUS_INVALID_PARAMETER
  | LWMSG_STATUS_OVERFLOW | LWMSG_STATUS_UNDERFLOW | LWMSG_STATUS_SYSTEM | LWMSG_STATUS_TIMEOUT | LWMSG_STATUS_SECURITY
  | LWMSG_STATUS_CANCELLED | LWMSG_STATUS_FILE_NOT_FOUND | LWMSG_STATUS_CONNECTION_REFUSED | LWMSG_STATUS_INVALID_STATE
  | LWMSG_STATUS_PEER_RESET | LWMSG_STATUS_PEER_CLOSE | LWMSG_STATUS_PEER_ABORT | LWMSG_STATUS_SESSION_LOST
  | LWMSG_STATUS_UNSUPPORTED | LWMSG_STATUS_INVALID_HANDLE | LWMSG_STATUS_BUSY | LWMSG_STATUS_PENDING
  | LWMSG_STATUS_INTERNAL | LWMSG_STATUS_RESOURCE_LIMIT | LWMSG_STATUS_BUFFER_TOO_SMALL.

Inductive LWMsgSignage := LWMSG_SIGNED | LWMSG_UNSIGNED.

#[global] Instance LWMsgStatus_eq_dec : EqDecision LWMsgStatus.
Proof. solve_decision. Defined.
#[global] Instance LWMsgSignage_eq_dec : EqDecision LWMsgSignage.
Proof. solve_decision. Defined.

(** * Sizes: [lwmsg_add_unsigned], [lwmsg_multiply_unsigned]

    The result is left as it is ([None]) unless the status is success. [size_t] has
    64 bits. *)

Definition SIZE_T_HALF_BITS : Z := 32.
Definition SIZE_T_LOWER_MASK : Z := Z.shiftr (2 ^ 64 - 1) SIZE_T_HALF_BITS.
Definition SIZE_T_UPPER_MASK : Z := u64 (Z.lnot SIZE_T_LOWER_MASK).

Definition lwmsg_add_unsigned (operand_a operand_b : Z) : LWMsgStatus * option Z :=
  let sum := u64 (operand_a + operand_b) in
  if sum <? operand_a then (LWMSG_STATUS_OVERFLOW, None) else (LWMSG_STATUS_SUCCESS, Some sum).

Definition lwmsg_multiply_unsigned (operand_a operand_b : Z) : LWMsgStatus * option Z :=
  let '(x, y) := if operand_b <=? operand_a then (operand_a, operand_b) else (operand_b, operand_a) in
  let c := Z.shiftr y SIZE_T_HALF_BITS in
  if negb (c =? 0) then (LWMSG_STATUS_OVERFLOW, None) else
  let a := Z.shiftr x SIZE_T_HALF_BITS in
  let b := Z.land x SIZE_T_LOWER_MASK in
  let d := Z.land y SIZE_T_LOWER_MASK in
  let ad := u64 (a * d) in
  if negb (Z.land ad SIZE_T_UPPER_MASK =? 0) then (LWMSG_STATUS_OVERFLOW, None) else
  let rad := u64 (Z.shiftl ad SIZE_T_HALF_BITS) in
  let bd := u64 (b * d) in
  let product := u64 (rad + bd) in
  if product <? rad then (LWMSG_STATUS_OVERFLOW, None) else (LWMSG_STATUS_SUCCESS, Some product).

(** * Integers: [lwmsg_convert_integer]

    [in_] and [out] are the objects the two pointers point into, from the pointers
    on; the result has the status and [out] as it is then. *)

(** The loop of [swap_memcpy]: [n] bytes of [in_] from [ioff] on, into [out] at [off]
    and after, last byte first. [k] more bytes are to be copied. *)
Fixpoint swap_loop (k : nat) (out : mem) (off : Z) (in_ : mem) (ioff n : Z) : option mem :=
  match k with
  | O => Some out
  | S k' =>
      let i := n - Z.of_nat k in
      b ← ld8 in_ (ioff + i);
      out ← st8 out (off + (n - 1 - i)) b;
      swap_loop k' out off in_ ioff n
  end.

Definition swap_memcpy (out : mem) (off : Z) (in_ : mem) (ioff n : Z) : option mem := swap_loop (Z.to_nat n) out off in_ ioff n.

(** The copy of [n] bytes in the same or in the other byte order. *)
Definition order_memcpy (in_order out_order : endian) (out : mem) (off : Z) (in_ : mem) (ioff n : Z) : option mem :=
  if decide (in_order = out_order) then bs ← rd in_ ioff n; wr out off bs else swap_memcpy out off in_ ioff n.

(** [signage == LWMSG_SIGNED && *sign_byte & 0x80]. *)
Definition sign_is_set (signage : LWMsgSignage) (m : mem) (off : Z) : option bool :=
  match signage with
  | LWMSG_SIGNED => b ← ld8 m off; Some (IsSetFlag b 0x80)
  | LWMSG_UNSIGNED => Some false
  end.

(** The loop over the high bytes: is each the expected one? *)
Fixpoint high_bytes_are (expected : Z) (k : nat) (in_ : mem) (off : Z) : option bool :=
  match k with
  | O => Some true
  | S k' => b ← ld8 in_ off; if b =? expected then high_bytes_are expected k' in_ (off + 1) else Some false
  end.

Definition lwmsg_convert_integer (in_ : mem) (in_size : Z) (in_order : endian) (out : mem) (out_size : Z) (out_order : endian)
    (signage : LWMsgSignage) : option (LWMsgStatus * mem) :=
  if in_size <=? out_size then
    (* widening *)
    let '(out_low, out_high, out_sign) :=
      match out_order with
      | LittleEndian => (0, in_size, in_size - 1)
      | BigEndian => (out_size - in_size, 0, out_size - in_size)
      end in
    out ← order_memcpy in_order out_order out out_low in_ 0 in_size;
    negative ← sign_is_set signage out out_sign;
    out ← wr out out_high (replicate (Z.to_nat (out_size - in_size)) (if (negative : bool) then 0xFF else 0x00));
    Some (LWMSG_STATUS_SUCCESS, out)
  else
    (* truncating *)
    let '(in_low, in_high, in_sign) :=
      match in_order with
      | LittleEndian => (0, out_size, out_size - 1)
      | BigEndian => (in_size - out_size, 0, in_size - out_size)
      end in
    negative ← sign_is_set signage in_ in_sign;
    fits ← high_bytes_are (if (negative : bool) then 0xFF else 0x00) (Z.to_nat (in_size - out_size)) in_ in_high;
    if (fits : bool) then
      out ← order_memcpy in_order out_order out 0 in_ in_low out_size;
      Some (LWMSG_STATUS_SUCCESS, out)
    else Some (LWMSG_STATUS_OVERFLOW, out).

(** [lwmsg_convert_uint32] and [lwmsg_convert_uint16]: the argument and the result are
    in the host's memory; the status is not looked at. *)
Definition lwmsg_convert_uint (n : nat) `{Host} (v : Z) (in_order out_order : endian) : option Z :=
  '(_, out) ← lwmsg_convert_integer (encode host n v) (Z.of_nat n) in_order (zeros (Z.of_nat n)) (Z.of_nat n) out_order LWMSG_UNSIGNED;
  Some (decode host out).
Definition lwmsg_convert_uint32 `{Host} := lwmsg_convert_uint 4.
Definition lwmsg_convert_uint16 `{Host} := lwmsg_convert_uint 2.

(** * Times: seconds and microseconds are [ssize_t]; an overflow is undefined *)

Record LWMsgTime := mkTime { seconds : Z; microseconds : Z }.

Definition ssize (x : Z) : option Z := if (- 2 ^ 63 <=? x) && (x <? 2 ^ 63) then Some x else None.

(** One turn of a loop of [lwmsg_time_normalize] while [cond] holds: [ds] seconds
    more, [dm] microseconds more. *)
Fixpoint time_loop (fuel : nat) (cond : LWMsgTime -> bool) (ds dm : Z) (t : LWMsgTime) : option LWMsgTime :=
  match fuel with
  | O => None
  | S fuel' =>
      if cond t then
        s ← ssize (seconds t + ds);
        m ← ssize (microseconds t + dm);
        time_loop fuel' cond ds dm (mkTime s m)
      else Some t
  end.

Definition USEC : Z := 1000000.

(** Turns enough for each loop. *)
Definition time_fuel (t : LWMsgTime) : nat := Z.to_nat (Z.abs (microseconds t) / USEC + 2).

Definition lwmsg_time_normalize (t : LWMsgTime) : option LWMsgTime :=
  t ← time_loop (time_fuel t) (fun t => (seconds t <? 0) && (0 <? microseconds t)) 1 (- USEC) t;
  t ← time_loop (time_fuel t) (fun t => (microseconds t <? 0) && (0 <? seconds t)) (-1) USEC t;
  t ← time_loop (time_fuel t) (fun t => microseconds t <=? - USEC) (-1) USEC t;
  time_loop (time_fuel t) (fun t => USEC <=? microseconds t) 1 (- USEC) t.

Definition lwmsg_time_difference (from to : LWMsgTime) : option LWMsgTime :=
  s ← ssize (seconds to - seconds from);
  m ← ssize (microseconds to - microseconds from);
  lwmsg_time_normalize (mkTime s m).

Definition lwmsg_time_sum (base offset : LWMsgTime) : option LWMsgTime :=
  s ← ssize (seconds base + seconds offset);
  m ← ssize (microseconds base + microseconds offset);
  lwmsg_time_normalize (mkTime s m).

Inductive LWMsgTimeComparison := LWMSG_TIME_EQUAL | LWMSG_TIME_GREATER | LWMSG_TIME_LESSER.

(** The values of the enumeration. *)
Definition comparison_value (c : LWMsgTimeComparison) : Z :=
  match c with LWMSG_TIME_EQUAL => 0 | LWMSG_TIME_GREATER => 1 | LWMSG_TIME_LESSER => -1 end.

Definition lwmsg_time_compare (a b : LWMsgTime) : option LWMsgTimeComparison :=
  diff ← lwmsg_time_difference a b;
  Some (if (seconds diff =? 0) && (microseconds diff =? 0) then LWMSG_TIME_EQUAL
        else if (seconds diff <? 0) || (microseconds diff <? 0) then LWMSG_TIME_GREATER else LWMSG_TIME_LESSER).

Definition lwmsg_time_is_positive (t : LWMsgTime) : bool := (0 <=? seconds t) && (0 <=? microseconds t).
Definition lwmsg_time_is_zero (t : LWMsgTime) : bool := (seconds t =? 0) && (microseconds t =? 0).

(** * Clocks. [now] is what [lwmsg_time_now] gives: the time of day, or the status its
    failure is mapped to. *)

Record LWMsgClock := mkClock { last_time : LWMsgTime; adjust : LWMsgTime }.

Definition lwmsg_clock_init : LWMsgClock := mkClock (mkTime 0 0) (mkTime 0 0).

Definition lwmsg_clock_update (clock : LWMsgClock) (now : LWMsgStatus + LWMsgTime) : option (LWMsgStatus * LWMsgClock) :=
  match now with
  | inl status => Some (status, clock)
  | inr now =>
      adj ←
        (if (seconds (last_time clock) =? 0) && (microseconds (last_time clock) =? 0) then
           s ← ssize (- seconds now); m ← ssize (- microseconds now); Some (mkTime s m)
         else
           c ← lwmsg_time_compare now (last_time clock);
           if comparison_value c <=? comparison_value LWMSG_TIME_EQUAL then
             diff ← lwmsg_time_difference now (last_time clock);
             m ← ssize (microseconds diff + 1);
             lwmsg_time_sum (adjust clock) (mkTime (seconds diff) m)
           else Some (adjust clock));
      Some (LWMSG_STATUS_SUCCESS, mkClock now adj)
  end.

(** The time is written when the update succeeds. *)
Definition lwmsg_clock_get_wall_time (clock : LWMsgClock) (now : LWMsgStatus + LWMsgTime) : option (LWMsgStatus * LWMsgClock * option LWMsgTime) :=
  '(status, clock) ← lwmsg_clock_update clock now;
  if decide (status = LWMSG_STATUS_SUCCESS) then Some (status, clock, Some (last_time clock)) else Some (status, clock, None).

Definition lwmsg_clock_get_monotonic_time (clock : LWMsgClock) (now : LWMsgStatus + LWMsgTime) : option (LWMsgStatus * LWMsgClock * option LWMsgTime) :=
  '(status, clock) ← lwmsg_clock_update clock now;
  if decide (status = LWMSG_STATUS_SUCCESS)
  then t ← lwmsg_time_sum (last_time clock) (adjust clock); Some (status, clock, Some t)
  else Some (status, clock, None).
