(* ===== verification/LwmsgType.v ===== *)
(** Type specifications of [lwmsg] and their iteration ([type-iterate.c],
    [type-private.h]).

    A specification is an array of words. All arrays are in one list of words,
    [specs], and a pointer into one of them is an index of the list; index 0 is the
    null pointer. Words that the code takes for pointers to strings or to functions
    are kept as numbers. Names and line numbers of the specifications (flags [META]
    and [DEBUG]), which only messages use, are skipped. *)

From stdpp Require Import base list numbers.
From S2P Require Import Prelude Lwmsg.

(** * Directives *)

Definition LWMSG_CMD_END : Z := 0.
Definition LWMSG_CMD_STRUCT : Z := 1.
Definition LWMSG_CMD_UNION : Z := 2.
Definition LWMSG_CMD_INTEGER : Z := 3.
Definition LWMSG_CMD_POINTER : Z := 4.
Definition LWMSG_CMD_ARRAY : Z := 5.
Definition LWMSG_CMD_TYPESPEC : Z := 6.
Definition LWMSG_CMD_TERMINATION : Z := 7.
Definition LWMSG_CMD_TAG : Z := 8.
Definition LWMSG_CMD_DISCRIM : Z := 9.
Definition LWMSG_CMD_CUSTOM : Z := 10.
Definition LWMSG_CMD_VERIFY : Z := 11.
Definition LWMSG_CMD_RANGE : Z := 12.
Definition LWMSG_CMD_NOT_NULL : Z := 13.
Definition LWMSG_CMD_CUSTOM_ATTR : Z := 14.
Definition LWMSG_CMD_VOID : Z := 15.
Definition LWMSG_CMD_ENCODING : Z := 16.
Definition LWMSG_CMD_SENSITIVE : Z := 17.
Definition LWMSG_CMD_ALIASABLE : Z := 18.
Definition LWMSG_CMD_ENUM : Z := 19.
Definition LWMSG_CMD_ENUM_VALUE : Z := 20.
Definition LWMSG_CMD_ENUM_MASK : Z := 21.
Definition LWMSG_CMD_MAX_ALLOC : Z := 22.

Definition LWMSG_FLAG_MEMBER : Z := 0x10000.
Definition LWMSG_FLAG_META : Z := 0x20000.
Definition LWMSG_FLAG_DEBUG : Z := 0x40000.
Definition LWMSG_CMD_MASK : Z := 0xFFFF.

Definition LWMSG_TYPE_FLAG_NOT_NULL : Z := 0x01.
Definition LWMSG_TYPE_FLAG_SENSITIVE : Z := 0x02.
Definition LWMSG_TYPE_FLAG_PROMOTED : Z := 0x04.
Definition LWMSG_TYPE_FLAG_RANGE : Z := 0x08.
Definition LWMSG_TYPE_FLAG_ALIASABLE : Z := 0x08.

(** * The macros that write specifications ([type.h]). [field] is the offset of a
    member. *)

Definition member_cmd (c : Z) : Z := Z.lor c LWMSG_FLAG_MEMBER.
Definition sign_word (s : LWMsgSignage) : Z := match s with LWMSG_SIGNED => 0 | LWMSG_UNSIGNED => 1 end.

Definition LWMSG_VOID : list Z := [LWMSG_CMD_VOID].
Definition LWMSG_MEMBER_VOID : list Z := [member_cmd LWMSG_CMD_VOID].
Definition LWMSG_TYPESPEC (spec : Z) : list Z := [LWMSG_CMD_TYPESPEC; spec].
Definition LWMSG_MEMBER_TYPESPEC (size field spec : Z) : list Z := [member_cmd LWMSG_CMD_TYPESPEC; size; field; spec].
Definition LWMSG_END : list Z := [LWMSG_CMD_END].
Definition LWMSG_STRUCT_BEGIN (size : Z) : list Z := [LWMSG_CMD_STRUCT; size].
Definition LWMSG_MEMBER_STRUCT_BEGIN (size field : Z) : list Z := [member_cmd LWMSG_CMD_STRUCT; size; field].
Definition LWMSG_UNION_BEGIN (size : Z) : list Z := [LWMSG_CMD_UNION; size].
Definition LWMSG_MEMBER_UNION_BEGIN (size field : Z) : list Z := [member_cmd LWMSG_CMD_UNION; size; field].
Definition LWMSG_MEMBER_INTEGER (size field width : Z) (sign : LWMsgSignage) : list Z := [member_cmd LWMSG_CMD_INTEGER; size; field; width; sign_word sign].
Definition LWMSG_INTEGER (size width : Z) (sign : LWMsgSignage) : list Z := [LWMSG_CMD_INTEGER; size; width; sign_word sign].
Definition LWMSG_ATTR_LENGTH_STATIC (count : Z) : list Z := [LWMSG_CMD_TERMINATION; 0; count].
Definition LWMSG_ATTR_LENGTH_MEMBER (field size : Z) : list Z := [LWMSG_CMD_TERMINATION; 2; field; size].
Definition LWMSG_ATTR_ZERO_TERMINATED : list Z := [LWMSG_CMD_TERMINATION; 1].
Definition LWMSG_ATTR_ALIASABLE : list Z := [LWMSG_CMD_ALIASABLE].
Definition LWMSG_ATTR_NOT_NULL : list Z := [LWMSG_CMD_NOT_NULL].
Definition LWMSG_ATTR_MAX_ALLOC (max : Z) : list Z := [LWMSG_CMD_MAX_ALLOC; max].
Definition LWMSG_ATTR_TAG (value : Z) : list Z := [LWMSG_CMD_TAG; value].
Definition LWMSG_ATTR_DISCRIM (field size : Z) : list Z := [LWMSG_CMD_DISCRIM; field; size].
Definition LWMSG_ATTR_RANGE (low high : Z) : list Z := [LWMSG_CMD_RANGE; low; high].
Definition LWMSG_MEMBER_POINTER_BEGIN (field : Z) : list Z := [member_cmd LWMSG_CMD_POINTER; field].
Definition LWMSG_POINTER_BEGIN : list Z := [LWMSG_CMD_POINTER].
Definition LWMSG_MEMBER_ARRAY_BEGIN (field : Z) : list Z := [member_cmd LWMSG_CMD_ARRAY; field].
Definition LWMSG_ENUM_BEGIN (size width : Z) (sign : LWMsgSignage) : list Z := [LWMSG_CMD_ENUM; size; width; sign_word sign].
Definition LWMSG_ENUM_VALUE (value : Z) : list Z := [LWMSG_CMD_ENUM_VALUE; value].
Definition LWMSG_ENUM_MASK (value : Z) : list Z := [LWMSG_CMD_ENUM_MASK; value].

Inductive LWMsgKind :=
  | LWMSG_KIND_NONE | LWMSG_KIND_VOID | LWMSG_KIND_INTEGER | LWMSG_KIND_ENUM | LWMSG_KIND_STRUCT | LWMSG_KIND_UNION
  | LWMSG_KIND_ARRAY | LWMSG_KIND_POINTER | LWMSG_KIND_CUSTOM.

#[global] Instance LWMsgKind_eq_dec : EqDecision LWMsgKind.
Proof. solve_decision. Defined.

(** [LWMsgArrayTermination] with its [term_info]. *)
Inductive term := TermStatic (static_length : Z) | TermZero | TermMember (offset size : Z).

(** The union [info]: what was written last. *)
Inductive iter_info :=
  | InfoNone
  | InfoVariant (is_mask : bool)
  | InfoInteger (width : Z) (sign : LWMsgSignage)
  | InfoCompound (discrim_offset discrim_size : Z)
  | InfoIndirect (t : term)
  | InfoCustom (typeclass typedata : Z).

Record LWMsgTypeAttrs := mkAttrs { a_flags : Z; a_custom : Z; range_low : Z; range_high : Z; max_alloc : Z }.

Record LWMsgTypeIter := mkIter {
  spec : Z; kind : LWMsgKind; offset : Z; size : Z; tag : Z; verify : Z; verify_data : Z; attrs : LWMsgTypeAttrs;
  info : iter_info; inner : Z; next : Z; dom_object : Z }.

Definition zero_attrs : LWMsgTypeAttrs := mkAttrs 0 0 0 0 0.
(** An iterator cleared with [memset]; also one that has not been set. *)
Definition zero_iter : LWMsgTypeIter := mkIter 0 LWMSG_KIND_NONE 0 0 0 0 0 zero_attrs InfoNone 0 0 0.

Definition set_kind (k : LWMsgKind) (i : LWMsgTypeIter) := mkIter (spec i) k (offset i) (size i) (tag i) (verify i) (verify_data i) (attrs i) (info i) (inner i) (next i) (dom_object i).
Definition set_offset (o : Z) (i : LWMsgTypeIter) := mkIter (spec i) (kind i) o (size i) (tag i) (verify i) (verify_data i) (attrs i) (info i) (inner i) (next i) (dom_object i).
Definition set_size (s : Z) (i : LWMsgTypeIter) := mkIter (spec i) (kind i) (offset i) s (tag i) (verify i) (verify_data i) (attrs i) (info i) (inner i) (next i) (dom_object i).
Definition set_tag (t : Z) (i : LWMsgTypeIter) := mkIter (spec i) (kind i) (offset i) (size i) t (verify i) (verify_data i) (attrs i) (info i) (inner i) (next i) (dom_object i).
Definition set_verify (f d : Z) (i : LWMsgTypeIter) := mkIter (spec i) (kind i) (offset i) (size i) (tag i) f d (attrs i) (info i) (inner i) (next i) (dom_object i).
Definition set_attrs (a : LWMsgTypeAttrs) (i : LWMsgTypeIter) := mkIter (spec i) (kind i) (offset i) (size i) (tag i) (verify i) (verify_data i) a (info i) (inner i) (next i) (dom_object i).
Definition set_info (x : iter_info) (i : LWMsgTypeIter) := mkIter (spec i) (kind i) (offset i) (size i) (tag i) (verify i) (verify_data i) (attrs i) x (inner i) (next i) (dom_object i).
Definition set_inner (p : Z) (i : LWMsgTypeIter) := mkIter (spec i) (kind i) (offset i) (size i) (tag i) (verify i) (verify_data i) (attrs i) (info i) p (next i) (dom_object i).
Definition set_next_spec (p : Z) (i : LWMsgTypeIter) := mkIter (spec i) (kind i) (offset i) (size i) (tag i) (verify i) (verify_data i) (attrs i) (info i) (inner i) p (dom_object i).
Definition set_dom (p : Z) (i : LWMsgTypeIter) := mkIter (spec i) (kind i) (offset i) (size i) (tag i) (verify i) (verify_data i) (attrs i) (info i) (inner i) (next i) p.

Definition add_flag (f : Z) (i : LWMsgTypeIter) : LWMsgTypeIter :=
  set_attrs (mkAttrs (Z.lor (a_flags (attrs i)) f) (a_custom (attrs i)) (range_low (attrs i)) (range_high (attrs i)) (max_alloc (attrs i))) i.
Definition has_flag (f : Z) (i : LWMsgTypeIter) : bool := IsSetFlag (a_flags (attrs i)) f.

Section Specs.
Context (specs : list Z).

(** [*(spec++)] *)
Definition word (p : Z) : option Z := if p <=? 0 then None else specs !! Z.to_nat p.

Definition is_member (cmd : Z) : bool := IsSetFlag cmd LWMSG_FLAG_MEMBER.
Definition skip_meta (cmd p : Z) : Z := p + (if IsSetFlag cmd LWMSG_FLAG_META then 1 else 0) + (if IsSetFlag cmd LWMSG_FLAG_DEBUG then 2 else 0).

(** * [lwmsg_type_find_end]: the loop, after [depth] open definitions.

    [cmd_args] is the number of words that follow a directive other than
    [TERMINATION], and [opens] tells whether it opens a definition; [None] is a
    directive for which the code aborts. *)
Definition cmd_args (c : Z) (member : bool) : option Z :=
  if c =? LWMSG_CMD_END then Some 0
  else if c =? LWMSG_CMD_VOID then Some 0
  else if (c =? LWMSG_CMD_INTEGER) || (c =? LWMSG_CMD_ENUM) then Some (if member then 4 else 3)
  else if (c =? LWMSG_CMD_STRUCT) || (c =? LWMSG_CMD_UNION) then Some (if member then 2 else 1)
  else if (c =? LWMSG_CMD_POINTER) || (c =? LWMSG_CMD_ARRAY) then Some (if member then 1 else 0)
  else if (c =? LWMSG_CMD_ENUM_VALUE) || (c =? LWMSG_CMD_ENUM_MASK) then Some 1
  else if c =? LWMSG_CMD_TYPESPEC then Some (if member then 3 else 1)
  else if c =? LWMSG_CMD_TAG then Some 1
  else if (c =? LWMSG_CMD_DISCRIM) || (c =? LWMSG_CMD_VERIFY) || (c =? LWMSG_CMD_RANGE) then Some 2
  else if c =? LWMSG_CMD_CUSTOM then Some (if member then 4 else 3)
  else if (c =? LWMSG_CMD_CUSTOM_ATTR) || (c =? LWMSG_CMD_ENCODING) || (c =? LWMSG_CMD_MAX_ALLOC) then Some 1
  else if (c =? LWMSG_CMD_SENSITIVE) || (c =? LWMSG_CMD_ALIASABLE) || (c =? LWMSG_CMD_NOT_NULL) then Some 0
  else None.

Definition opens (c : Z) : bool :=
  (c =? LWMSG_CMD_ENUM) || (c =? LWMSG_CMD_STRUCT) || (c =? LWMSG_CMD_UNION) || (c =? LWMSG_CMD_POINTER) || (c =? LWMSG_CMD_ARRAY).

Fixpoint find_end_loop (fuel : nat) (depth p : Z) : option Z :=
  match fuel with
  | O => None
  | S fuel =>
      cmd ← word p;
      let p := skip_meta cmd (p + 1) in
      let c := Z.land cmd LWMSG_CMD_MASK in
      if c =? LWMSG_CMD_END then
        if depth =? 1 then Some p else find_end_loop fuel (depth - 1) p
      else if c =? LWMSG_CMD_TERMINATION then
        t ← word p;
        find_end_loop fuel depth (p + 1 + (if t =? 0 then 1 else if t =? 2 then 2 else 0))
      else
        n ← cmd_args c (is_member cmd);
        find_end_loop fuel (depth + (if opens c then 1 else 0)) (p + n)
  end.

(** Every turn moves on by a word at least. *)
Definition lwmsg_type_find_end (p : Z) : option Z := find_end_loop (S (length specs)) 1 p.

(** * [lwmsg_type_iterate_inner] *)

(** The termination that the attribute gives, and the words it takes; another
    termination is undefined. *)
Definition read_term (p : Z) : option (term * Z) :=
  t ← word p;
  if t =? 0 then n ← word (p + 1); Some (TermStatic n, p + 2)
  else if t =? 1 then Some (TermZero, p + 1)
  else if t =? 2 then o ← word (p + 1); s ← word (p + 2); Some (TermMember o s, p + 3)
  else None.

(** The attributes. A termination of what is no pointer or array and a discriminator
    of what is no compound type would overwrite another member of the union [info]:
    that is undefined. *)
Fixpoint apply_attrs (fuel : nat) (iter : LWMsgTypeIter) (p : Z) : option LWMsgTypeIter :=
  match fuel with
  | O => None
  | S fuel =>
      let iter := set_next_spec p iter in
      cmd ← word p;
      let p := p + 1 + (if IsSetFlag cmd LWMSG_FLAG_DEBUG then 2 else 0) in
      let c := Z.land cmd LWMSG_CMD_MASK in
      let indirect := bool_decide (kind iter = LWMSG_KIND_POINTER) || bool_decide (kind iter = LWMSG_KIND_ARRAY) in
      let compound := bool_decide (kind iter = LWMSG_KIND_STRUCT) || bool_decide (kind iter = LWMSG_KIND_UNION) in
      let a := attrs iter in
      if c =? LWMSG_CMD_TERMINATION then
        '(t, p) ← read_term p;
        if indirect then apply_attrs fuel (set_info (InfoIndirect t) iter) p else None
      else if c =? LWMSG_CMD_TAG then
        v ← word p; apply_attrs fuel (set_tag v iter) (p + 1)
      else if c =? LWMSG_CMD_DISCRIM then
        o ← word p; s ← word (p + 1);
        if compound then apply_attrs fuel (set_info (InfoCompound o s) iter) (p + 2) else None
      else if c =? LWMSG_CMD_VERIFY then
        f ← word p; d ← word (p + 1); apply_attrs fuel (set_verify f d iter) (p + 2)
      else if c =? LWMSG_CMD_RANGE then
        lo ← word p; hi ← word (p + 1);
        apply_attrs fuel (add_flag LWMSG_TYPE_FLAG_RANGE (set_attrs (mkAttrs (a_flags a) (a_custom a) lo hi (max_alloc a)) iter)) (p + 2)
      else if c =? LWMSG_CMD_NOT_NULL then apply_attrs fuel (add_flag LWMSG_TYPE_FLAG_NOT_NULL iter) p
      else if c =? LWMSG_CMD_ENCODING then
        _ ← word p; if indirect then apply_attrs fuel iter (p + 1) else None
      else if c =? LWMSG_CMD_SENSITIVE then apply_attrs fuel (add_flag LWMSG_TYPE_FLAG_SENSITIVE iter) p
      else if c =? LWMSG_CMD_ALIASABLE then apply_attrs fuel (add_flag LWMSG_TYPE_FLAG_ALIASABLE iter) p
      else if c =? LWMSG_CMD_CUSTOM_ATTR then
        v ← word p; apply_attrs fuel (set_attrs (mkAttrs (a_flags a) (Z.lor (a_custom a) v) (range_low a) (range_high a) (max_alloc a)) iter) (p + 1)
      else if c =? LWMSG_CMD_MAX_ALLOC then
        v ← word p; apply_attrs fuel (set_attrs (mkAttrs (a_flags a) (a_custom a) (range_low a) (range_high a) v) iter) (p + 1)
      else if c =? LWMSG_CMD_END then Some (set_next_spec 0 iter)
      else Some iter
  end.

(** [iter->offset = *(spec++)] for a member. *)
Definition read_offset (cmd : Z) (iter : LWMsgTypeIter) (p : Z) : option (LWMsgTypeIter * Z) :=
  if is_member cmd then o ← word p; Some (set_offset o iter, p + 1) else Some (iter, p).

Definition read_size (iter : LWMsgTypeIter) (p : Z) : option (LWMsgTypeIter * Z) := s ← word p; Some (set_size s iter, p + 1).

Definition signage_of (w : Z) : LWMsgSignage := if w =? 0 then LWMSG_SIGNED else LWMSG_UNSIGNED.

(** A definition with an inner part: from [p] on to its end. *)
Definition read_inner (k : LWMsgKind) (iter : LWMsgTypeIter) (p : Z) : option (LWMsgTypeIter * Z) :=
  e ← lwmsg_type_find_end p; Some (set_inner p (set_kind k iter), e).

(** [fuel] bounds the number of specifications that refer to one another. *)
Fixpoint lwmsg_type_iterate_inner (fuel : nat) (p : Z) (iter : LWMsgTypeIter) : option LWMsgTypeIter :=
  match fuel with
  | O => None
  | S fuel =>
      cmd ← word p;
      let p := skip_meta cmd (p + 1) in
      let c := Z.land cmd LWMSG_CMD_MASK in
      let attributes iter p := apply_attrs (S (length specs)) iter p in
      if (c =? LWMSG_CMD_INTEGER) || (c =? LWMSG_CMD_ENUM) then
        '(iter, p) ← read_size iter p;
        '(iter, p) ← read_offset cmd iter p;
        width ← word p; sign ← word (p + 1);
        let iter := set_info (InfoInteger width (signage_of sign)) iter in
        if c =? LWMSG_CMD_ENUM then
          '(iter, p) ← read_inner LWMSG_KIND_ENUM iter (p + 2); attributes iter p
        else attributes (set_kind LWMSG_KIND_INTEGER iter) (p + 2)
      else if (c =? LWMSG_CMD_STRUCT) || (c =? LWMSG_CMD_UNION) then
        '(iter, p) ← read_size iter p;
        '(iter, p) ← read_offset cmd iter p;
        '(iter, p) ← read_inner (if c =? LWMSG_CMD_STRUCT then LWMSG_KIND_STRUCT else LWMSG_KIND_UNION) iter p;
        attributes iter p
      else if c =? LWMSG_CMD_POINTER then
        '(iter, p) ← read_offset cmd (set_size 8 iter) p;
        '(iter, p) ← read_inner LWMSG_KIND_POINTER (set_info (InfoIndirect (TermStatic 1)) iter) p;
        attributes iter p
      else if c =? LWMSG_CMD_ARRAY then
        '(iter, p) ← read_offset cmd iter p;
        '(iter, p) ← read_inner LWMSG_KIND_ARRAY (set_info (InfoIndirect (TermStatic 1)) iter) p;
        attributes iter p
      else if c =? LWMSG_CMD_TYPESPEC then
        '(my_size, my_offset, p) ←
          (if is_member cmd then s ← word p; o ← word (p + 1); Some (s, o, p + 2) else Some (0, 0, p));
        q ← word p;
        iter ← lwmsg_type_iterate_inner fuel q iter;
        let iter := if size iter =? 0 then set_size my_size iter else iter in
        attributes (set_offset my_offset iter) (p + 1)
      else if c =? LWMSG_CMD_CUSTOM then
        '(iter, p) ← read_size iter p;
        '(iter, p) ← read_offset cmd iter p;
        cls ← word p; data ← word (p + 1);
        attributes (set_info (InfoCustom cls data) (set_kind LWMSG_KIND_CUSTOM iter)) (p + 2)
      else if c =? LWMSG_CMD_VOID then attributes (set_kind LWMSG_KIND_VOID iter) p
      else if (c =? LWMSG_CMD_ENUM_VALUE) || (c =? LWMSG_CMD_ENUM_MASK) then
        v ← word p;
        attributes (set_tag v (set_info (InfoVariant (c =? LWMSG_CMD_ENUM_MASK)) (set_kind LWMSG_KIND_VOID iter))) (p + 1)
      else if (c =? LWMSG_CMD_TERMINATION) || (c =? LWMSG_CMD_TAG) || (c =? LWMSG_CMD_DISCRIM) || (c =? LWMSG_CMD_CUSTOM_ATTR) then None
      else if c =? LWMSG_CMD_END then Some (set_kind LWMSG_KIND_NONE iter)
      else attributes iter p
  end.

(** * The interface of iterators. [iter] is the iterator before the call. *)

Definition lwmsg_type_iterate (p : Z) (iter : LWMsgTypeIter) : option LWMsgTypeIter :=
  lwmsg_type_iterate_inner (S (length specs)) p
    (mkIter p (kind iter) 0 0 (tag iter) 0 (verify_data iter) zero_attrs (info iter) (inner iter) (next iter) (dom_object iter)).

Definition lwmsg_type_promote (p : Z) : LWMsgTypeIter :=
  mkIter 0 LWMSG_KIND_POINTER 0 8 0 0 0 (mkAttrs (Z.lor LWMSG_TYPE_FLAG_NOT_NULL LWMSG_TYPE_FLAG_PROMOTED) 0 0 0 0) (InfoIndirect (TermStatic 1)) p 0 0.

(** [is_pointer] is the member of that name of the class of a custom type. *)
Definition lwmsg_type_iterate_promoted (is_pointer : Z -> bool) (p : Z) (iter : LWMsgTypeIter) : option LWMsgTypeIter :=
  cmd ← word p;
  let c := Z.land cmd LWMSG_CMD_MASK in
  if c =? LWMSG_CMD_POINTER then lwmsg_type_iterate p iter
  else if c =? LWMSG_CMD_CUSTOM then
    iter ← lwmsg_type_iterate p iter;
    match info iter with
    | InfoCustom cls _ => Some (if is_pointer cls then iter else lwmsg_type_promote p)
    | _ => None
    end
  else Some (lwmsg_type_promote p).

Definition lwmsg_type_valid (iter : LWMsgTypeIter) : bool := negb (bool_decide (kind iter = LWMSG_KIND_NONE)).

Definition lwmsg_type_next (iter : LWMsgTypeIter) : option LWMsgTypeIter :=
  if next iter =? 0 then Some (set_kind LWMSG_KIND_NONE iter) else lwmsg_type_iterate (next iter) iter.

Definition lwmsg_type_enter (iter new_iter : LWMsgTypeIter) : option LWMsgTypeIter :=
  if inner iter =? 0 then Some (set_kind LWMSG_KIND_NONE new_iter)
  else new_iter ← lwmsg_type_iterate (inner iter) new_iter; Some (set_dom (dom_object iter) new_iter).

End Specs.
