(* ===== verification/LwmsgOps.v ===== *)
(** The base of [lwmsg]: sizes are added and multiplied exactly or refused, integers
    keep their value or are refused, clocks run forward. *)

From stdpp Require Import base list numbers sorting.
From S2P Require Import Prelude Lwmsg.

(** * Sizes *)

Lemma land_lower x : Z.land x SIZE_T_LOWER_MASK = x mod 2 ^ 32.
Proof. change SIZE_T_LOWER_MASK with (Z.ones 32). by rewrite Z.land_ones. Qed.

Lemma land_upper x : 0 <= x < 2 ^ 64 -> Z.land x SIZE_T_UPPER_MASK = x / 2 ^ 32 * 2 ^ 32.
Proof.
  intros Hx. replace SIZE_T_UPPER_MASK with (Z.shiftl (Z.ones 32) 32) by reflexivity. rewrite <-Z.shiftr_div_pow2, <-Z.shiftl_mul_pow2 by lia.
  rewrite <-(Z.mod_small (Z.shiftr x 32) (2 ^ 32)) by (rewrite Z.shiftr_div_pow2 by lia; split; [apply Z.div_pos; lia|apply Z.div_lt_upper_bound; lia]).
  rewrite <-Z.land_ones, Z.shiftl_land by lia. apply Z.bits_inj'. intros n Hn. rewrite !Z.land_spec, !Z.shiftl_spec by lia.
  destruct (decide (n < 32)); [by rewrite (Z.testbit_neg_r (Z.ones 32)) by lia; rewrite !andb_false_r|].
  rewrite Z.shiftr_spec by lia. by replace (n - 32 + 32) with n by lia.
Qed.

Lemma multiply_core x y : 0 <= y <= x -> x < 2 ^ 64 ->
  lwmsg_multiply_unsigned x y = (if x * y <? 2 ^ 64 then (LWMSG_STATUS_SUCCESS, Some (x * y)) else (LWMSG_STATUS_OVERFLOW, None)).
Proof.
  intros Hy Hx. unfold lwmsg_multiply_unsigned. destruct (Z.leb_spec y x) as [_|]; [|lia]. change SIZE_T_HALF_BITS with 32.
  rewrite !Z.shiftr_div_pow2, Z.shiftl_mul_pow2, !land_lower by lia. change (2 ^ 64) with (2 ^ 32 * 2 ^ 32) in *.
  set (r := 2 ^ 32) in *. assert (Hr : r = 4294967296) by reflexivity.
  pose proof (Z.div_mod x r ltac:(lia)). pose proof (Z.mod_pos_bound x r ltac:(lia)). pose proof (Z.div_mod y r ltac:(lia)). pose proof (Z.mod_pos_bound y r ltac:(lia)).
  set (a := x / r) in *. set (b := x mod r) in *. set (c := y / r) in *. set (d := y mod r) in *. clearbody a b c d.
  assert (0 <= a < r) by nia. destruct (Z.eqb_spec c 0) as [Hc|Hc]; cbn [negb].
  2: { destruct (Z.ltb_spec (x * y) (r * r)); [|done]. assert (r <= y) by nia. nia. }
  assert (y = d) by nia. assert (Had : u64 (a * d) = a * d) by (unfold u64; rewrite Z.mod_small; [done|change (2 ^ 64) with (r * r); nia]).
  rewrite Had, land_upper by (change (2 ^ 64) with (r * r); nia). fold r.
  pose proof (Z.div_mod (a * d) r ltac:(lia)). pose proof (Z.mod_pos_bound (a * d) r ltac:(lia)).
  destruct (Z.eqb_spec (a * d / r * r) 0) as [Hz|Hz]; cbn [negb].
  2: { destruct (Z.ltb_spec (x * y) (r * r)); [|done]. assert (r <= a * d) by nia. nia. }
  assert (a * d < r) by nia. unfold u64. change (2 ^ 64) with (r * r).
  rewrite (Z.mod_small (a * d * r)) by nia. rewrite (Z.mod_small (b * d)) by nia. replace (x * y) with (a * d * r + b * d) by (subst y; nia).
  assert (0 <= a * d * r < r * r) by nia. assert (0 <= b * d < r * r) by nia.
  destruct (Z.ltb_spec (a * d * r + b * d) (r * r)) as [Hl|Hl].
  - rewrite Z.mod_small by lia. destruct (Z.ltb_spec (a * d * r + b * d) (a * d * r)); [lia|done].
  - replace ((a * d * r + b * d) mod (r * r)) with (a * d * r + b * d - r * r) by (rewrite <-(Z_mod_plus_full _ (-1)), Z.mod_small; lia).
    by destruct (Z.ltb_spec (a * d * r + b * d - r * r) (a * d * r)); [|lia].
Qed.

Lemma multiply_comm a b : lwmsg_multiply_unsigned a b = lwmsg_multiply_unsigned b a.
Proof. unfold lwmsg_multiply_unsigned. destruct (Z.leb_spec b a), (Z.leb_spec a b); try reflexivity; [|lia]. by replace b with a by lia. Qed.

Lemma multiply_exact a b : 0 <= a < 2 ^ 64 -> 0 <= b < 2 ^ 64 ->
  lwmsg_multiply_unsigned a b = (if a * b <? 2 ^ 64 then (LWMSG_STATUS_SUCCESS, Some (a * b)) else (LWMSG_STATUS_OVERFLOW, None)).
Proof. intros Ha Hb. destruct (Z.le_ge_cases b a); [apply multiply_core; lia|]. rewrite multiply_comm, Z.mul_comm. apply multiply_core; lia. Qed.

Lemma add_exact a b : 0 <= a < 2 ^ 64 -> 0 <= b < 2 ^ 64 ->
  lwmsg_add_unsigned a b = (if a + b <? 2 ^ 64 then (LWMSG_STATUS_SUCCESS, Some (a + b)) else (LWMSG_STATUS_OVERFLOW, None)).
Proof.
  intros Ha Hb. unfold lwmsg_add_unsigned, u64. destruct (Z.ltb_spec (a + b) (2 ^ 64)).
  - rewrite Z.mod_small by lia. by destruct (Z.ltb_spec (a + b) a); [lia|].
  - replace ((a + b) mod 2 ^ 64) with (a + b - 2 ^ 64) by (rewrite <-(Z_mod_plus_full _ (-1)), Z.mod_small; lia). by destruct (Z.ltb_spec (a + b - 2 ^ 64) a); [|lia].
Qed.

(** [lwmsg_add_unsigned] and [lwmsg_multiply_unsigned] give the exact sum and the
    exact product of two sizes when it is a size of 64 bits, and report an overflow,
    with no result, exactly when it is not. *)
Theorem unsigned_arithmetic_exact a b : 0 <= a < 2 ^ 64 -> 0 <= b < 2 ^ 64 ->
  lwmsg_add_unsigned a b = (if a + b <? 2 ^ 64 then (LWMSG_STATUS_SUCCESS, Some (a + b)) else (LWMSG_STATUS_OVERFLOW, None)) /\
  lwmsg_multiply_unsigned a b = (if a * b <? 2 ^ 64 then (LWMSG_STATUS_SUCCESS, Some (a * b)) else (LWMSG_STATUS_OVERFLOW, None)).
Proof. intros Ha Hb. split; [by apply add_exact|by apply multiply_exact]. Qed.

Lemma unsigned_arithmetic_exact_witness :
  lwmsg_multiply_unsigned (2 ^ 33) (2 ^ 31 - 1) = (LWMSG_STATUS_SUCCESS, Some (2 ^ 64 - 2 ^ 33)) /\ lwmsg_multiply_unsigned (2 ^ 33) (2 ^ 31) = (LWMSG_STATUS_OVERFLOW, None).
Proof.
  split; [rewrite (proj2 (unsigned_arithmetic_exact (2 ^ 33) (2 ^ 31 - 1) ltac:(lia) ltac:(lia)))|rewrite (proj2 (unsigned_arithmetic_exact (2 ^ 33) (2 ^ 31) ltac:(lia) ltac:(lia)))]; reflexivity.
Defined.

(** * Integers *)

(** The bytes of an integer, given least significant first, in a byte order. *)
Definition ordered (e : endian) (le : mem) : mem := match e with LittleEndian => le | BigEndian => rev le end.

(** The number that bytes stand for, and the numbers of [n] bytes. *)
Definition int_value (s : LWMsgSignage) (e : endian) (bs : mem) : Z :=
  let v := decode e bs in
  match s with
  | LWMSG_SIGNED => if 256 ^ zlen bs <=? 2 * v then v - 256 ^ zlen bs else v
  | LWMSG_UNSIGNED => v
  end.
Definition int_fits (s : LWMsgSignage) (n v : Z) : bool :=
  match s with
  | LWMSG_SIGNED => (- 256 ^ n <=? 2 * v) && (2 * v <? 256 ^ n)
  | LWMSG_UNSIGNED => (0 <=? v) && (v <? 256 ^ n)
  end.

Lemma zlen_ordered e le : zlen (ordered e le) = zlen le.
Proof. destruct e; [done|]. apply zlen_rev. Qed.
Lemma decode_ordered e le : decode e (ordered e le) = le_decode le.
Proof. destruct e; cbn; [done|]. by rewrite rev_involutive. Qed.
Lemma encode_ordered e n v : encode e n v = ordered e (le_encode n v).
Proof. by destruct e. Qed.
Lemma ordered_ordered e bs : bs = ordered e (ordered e bs).
Proof. destruct e; cbn; [done|]. by rewrite rev_involutive. Qed.
#[local] Hint Rewrite zlen_ordered : zlen.

Lemma zlen_replicate n (b : Z) : zlen (replicate n b) = Z.of_nat n.
Proof. unfold zlen. by rewrite length_replicate. Qed.

Lemma rev_replicate n (b : Z) : rev (replicate n b) = replicate n b.
Proof. rewrite rev_alt. apply reverse_replicate. Qed.

Lemma swap_loop_spec p q a c todo : forall pre old off ioff n, bytes_ok todo ->
  length old = length todo -> off = zlen p -> ioff = zlen a -> n = zlen pre + zlen todo ->
  swap_loop (length todo) (p ++ old ++ rev pre ++ q) off (a ++ pre ++ todo ++ c) ioff n = Some (p ++ rev (pre ++ todo) ++ q).
Proof.
  induction todo as [|x todo IH]; intros pre old off ioff n Hb Hl -> -> ->.
  - destruct old; [|done]. cbn. by rewrite app_nil_r.
  - apply Forall_cons in Hb as (Hx & Hb). destruct old as [|y old _] using rev_ind; [done|]. rewrite length_app in Hl. cbn [length] in Hl. cbn [length swap_loop].
    replace (a ++ pre ++ (x :: todo) ++ c) with ((a ++ pre) ++ x :: (todo ++ c)) by (cbn; by rewrite <-!app_assoc).
    rewrite ld8_nth by (rewrite zlen_app, (zlen_cons x); unfold zlen; lia). bsimpl. unfold st8. cbn [le_encode]. rewrite Z.mod_small by lia.
    replace (p ++ (old ++ [y]) ++ rev pre ++ q) with ((p ++ old) ++ [y] ++ (rev pre ++ q)) by (by rewrite <-!app_assoc).
    rewrite wr_at; [|rewrite zlen_app, (zlen_cons x); unfold zlen; lia|done]. bsimpl.
    replace ((p ++ old) ++ [x] ++ rev pre ++ q) with (p ++ old ++ rev (pre ++ [x]) ++ q) by (rewrite rev_app_distr; by rewrite <-!app_assoc).
    replace ((a ++ pre) ++ x :: (todo ++ c)) with (a ++ (pre ++ [x]) ++ todo ++ c) by (by rewrite <-!app_assoc).
    rewrite IH; [|done|lia|done|done|]; [by rewrite <-app_assoc|]. rewrite zlen_app, !zlen_cons, zlen_nil. lia.
Qed.

Lemma order_memcpy_spec e e' p old q a le c off ioff n : bytes_ok le -> zlen old = zlen le -> off = zlen p -> ioff = zlen a -> n = zlen le ->
  order_memcpy e e' (p ++ old ++ q) off (a ++ ordered e le ++ c) ioff n = Some (p ++ ordered e' le ++ q).
Proof.
  intros Hb Hl -> -> ->. unfold order_memcpy. case_decide as He.
  - subst e'. rewrite rd_at by zl. bsimpl. by rewrite wr_at by zl.
  - replace (ordered e' le) with (rev (ordered e le)) by (destruct e, e'; try done; cbn; by rewrite ?rev_involutive).
    unfold swap_memcpy. rewrite <-(zlen_ordered e le). unfold zlen at 1. rewrite Nat2Z.id.
    apply (swap_loop_spec p q a c (ordered e le) []); [|rewrite <-(Nat2Z.id (length old)); unfold zlen in *; destruct e; cbn; rewrite ?length_rev; lia|done..].
    destruct e; [done|]. by apply bytes_ok_rev.
Qed.

(** The most significant byte holds the sign. *)
Lemma le_decode_app a b : le_decode (a ++ b) = le_decode a + 256 ^ zlen a * le_decode b.
Proof.
  induction a as [|x a IH]; cbn [app le_decode]; [rewrite zlen_nil; lia|]. rewrite IH, zlen_cons, Z.pow_add_r by zl. lia.
Qed.

Lemma pow256_pos n : 0 <= n -> 0 < 256 ^ n.
Proof. intros. apply Z.pow_pos_nonneg; lia. Qed.

Lemma sign_flag b : 0 <= b < 256 -> IsSetFlag b 0x80 = (128 <=? b).
Proof.
  intros Hb. unfold IsSetFlag. replace (Z.land b 0x80) with (if 128 <=? b then 128 else 0); [by destruct (128 <=? b)|].
  destruct (Z.leb_spec 128 b).
  - apply Z.bits_inj'. intros n Hn. rewrite Z.land_spec. change 128 with (2 ^ 7). destruct (decide (n = 7)) as [-> |].
    + rewrite Z.pow2_bits_true, andb_true_r by lia. symmetry. apply Z.testbit_true; [lia|]. replace (b / 2 ^ 7) with 1; [done|]. apply Z.div_unique with (b - 128); lia.
    + by rewrite Z.pow2_bits_false, andb_false_r by lia.
  - apply Z.bits_inj'. intros n Hn. rewrite Z.land_spec. change 128 with (2 ^ 7). destruct (decide (n = 7)) as [-> |].
    + rewrite Z.pow2_bits_true, andb_true_r by lia. rewrite Z.bits_0. symmetry. apply Z.testbit_false; [lia|]. by rewrite Z.div_small by lia.
    + by rewrite Z.pow2_bits_false, andb_false_r, Z.bits_0 by lia.
Qed.

Lemma top_sign low b : bytes_ok (low ++ [b]) -> (128 <=? b) = (256 ^ zlen (low ++ [b]) <=? 2 * le_decode (low ++ [b])).
Proof.
  intros Hb. apply bytes_ok_app in Hb as (Hl & (Hb & _)%Forall_cons_1). pose proof (le_decode_range low Hl). rewrite le_decode_app, zlen_app, Z.pow_add_r by zl.
  cbn [le_decode]. rewrite zlen_cons, zlen_nil. change (256 ^ (1 + 0)) with 256. pose proof (pow256_pos (zlen low) ltac:(zl)).
  destruct (Z.leb_spec 128 b), (Z.leb_spec (256 ^ zlen low * 256) (2 * (le_decode low + 256 ^ zlen low * (b + 256 * 0)))); try done; nia.
Qed.

(** The sign byte, where the code looks for it. *)
Lemma sign_is_set_spec s e p le q off : bytes_ok le -> le <> [] ->
  off = zlen p + (match e with LittleEndian => zlen le - 1 | BigEndian => 0 end) ->
  sign_is_set s (p ++ ordered e le ++ q) off =
    Some (match s with LWMSG_SIGNED => 256 ^ zlen le <=? 2 * le_decode le | LWMSG_UNSIGNED => false end).
Proof.
  intros Hb Hne ->. destruct s; [|done]. destruct le as [|b low _] using rev_ind; [done|]. cbn [sign_is_set].
  assert (Hs : ld8 (p ++ ordered e (low ++ [b]) ++ q) (zlen p + match e with LittleEndian => zlen (low ++ [b]) - 1 | BigEndian => 0 end) = Some b).
  { destruct e; cbn [ordered].
    - replace (p ++ (low ++ [b]) ++ q) with ((p ++ low) ++ b :: q) by (by rewrite <-!app_assoc). apply ld8_nth. zl.
    - rewrite rev_app_distr. cbn. apply ld8_nth. lia. }
  rewrite Hs. bsimpl. rewrite <-top_sign by done. rewrite sign_flag; [done|]. by apply bytes_ok_app in Hb as (_ & (? & _)%Forall_cons_1).
Qed.

Lemma high_bytes_spec x p hs q : forall off, off = zlen p ->
  high_bytes_are x (length hs) (p ++ hs ++ q) off = Some (bool_decide (hs = replicate (length hs) x)).
Proof.
  revert p. induction hs as [|h hs IH]; intros p off ->; cbn [length high_bytes_are replicate]; [done|].
  change ((h :: hs) ++ q) with (h :: (hs ++ q)). rewrite ld8_nth by done. bsimpl. destruct (Z.eqb_spec h x) as [-> |Hx].
  - replace (p ++ x :: hs ++ q) with ((p ++ [x]) ++ hs ++ q) by (by rewrite <-app_assoc). rewrite IH by (rewrite zlen_app, zlen_cons, zlen_nil; lia). f_equal. apply bool_decide_ext. split; [intros H; by f_equal|by intros [= H]].
  - rewrite bool_decide_eq_false_2; [done|congruence].
Qed.

Lemma le_decode_const x k : le_decode (replicate k x) * 255 = (256 ^ Z.of_nat k - 1) * x.
Proof. induction k as [|k IH]; cbn [replicate le_decode]; [done|]. rewrite Nat2Z.inj_succ, Z.pow_succ_r by lia. lia. Qed.

Lemma le_decode_zeros k : le_decode (replicate k 0) = 0.
Proof. pose proof (le_decode_const 0 k). lia. Qed.
Lemma le_decode_ones k : le_decode (replicate k 255) = 256 ^ Z.of_nat k - 1.
Proof. pose proof (le_decode_const 255 k). lia. Qed.

Lemma bytes_ok_replicate k x : 0 <= x < 256 -> bytes_ok (replicate k x).
Proof. intros. by apply Forall_replicate. Qed.

(** Bytes are the encoding of what they stand for, modulo their range. *)
Lemma le_encode_of le v : bytes_ok le -> v mod 256 ^ zlen le = le_decode le -> le_encode (length le) v = le.
Proof. intros Hb Hv. rewrite <-le_encode_mod. fold (zlen le). rewrite Hv. by apply le_encode_decode. Qed.

Lemma le_decode_inj a b : bytes_ok a -> bytes_ok b -> length a = length b -> le_decode a = le_decode b -> a = b.
Proof. intros Ha Hb Hl He. rewrite <-(le_encode_decode a), <-(le_encode_decode b) by done. by rewrite Hl, He. Qed.

(** ** Widening *)

Definition sign_fill (s : LWMsgSignage) (le : mem) : Z :=
  match s with LWMSG_SIGNED => if 256 ^ zlen le <=? 2 * le_decode le then 255 else 0 | LWMSG_UNSIGNED => 0 end.

Lemma int_value_ordered s e le : int_value s e (ordered e le) =
  le_decode le - (if sign_fill s le =? 255 then 256 ^ zlen le else 0).
Proof.
  unfold int_value, sign_fill. rewrite decode_ordered, zlen_ordered. destruct s; [case_match|]; cbn; lia.
Qed.

Lemma int_value_le s e le : int_value s e (ordered e le) = int_value s LittleEndian le.
Proof. by rewrite int_value_ordered, <-(int_value_ordered s LittleEndian le). Qed.

Lemma widen_value s le k : bytes_ok le -> le_encode (length le + k) (int_value s LittleEndian le) = le ++ replicate k (sign_fill s le).
Proof.
  intros Hb. pose proof (le_decode_range le Hb). pose proof (pow256_pos (zlen le) ltac:(zl)). pose proof (pow256_pos (Z.of_nat k) ltac:(lia)).
  replace (length le + k)%nat with (length (le ++ replicate k (sign_fill s le))) by (rewrite length_app, length_replicate; done).
  assert (Hf : sign_fill s le = 0 \/ sign_fill s le = 255) by (unfold sign_fill; destruct s; [case_match|]; auto).
  apply le_encode_of; [apply bytes_ok_app; split; [done|apply bytes_ok_replicate; lia]|].
  change le with (ordered LittleEndian le) at 1. rewrite int_value_ordered, zlen_app, le_decode_app. unfold zlen at 3. rewrite length_replicate, Z.pow_add_r by zl.
  destruct Hf as [-> | ->]; cbn [Z.eqb].
  - rewrite le_decode_zeros, Z.mod_small; [lia|nia].
  - cbn. rewrite le_decode_ones, <-(Z_mod_plus_full _ 1), Z.mod_small; [lia|nia].
Qed.

Lemma widen_fits s e le k : bytes_ok le -> 0 <= k -> le <> [] -> int_fits s (zlen le + k) (int_value s e (ordered e le)) = true.
Proof.
  intros Hb Hk Hne. pose proof (le_decode_range le Hb). assert (256 ^ zlen le <= 256 ^ (zlen le + k)) by (apply Z.pow_le_mono_r; lia).
  rewrite int_value_ordered. unfold int_fits, sign_fill. destruct s; [destruct (Z.leb_spec (256 ^ zlen le) (2 * le_decode le))|]; cbn; lia.
Qed.

(** ** Truncating *)

Lemma high_fill_iff low high x : bytes_ok (low ++ high) -> x = 0 \/ x = 255 ->
  high = replicate (length high) x <-> le_decode high = (if x =? 255 then 256 ^ zlen high - 1 else 0).
Proof.
  intros (_ & Hh)%bytes_ok_app Hx. assert (Hd : le_decode (replicate (length high) x) = if x =? 255 then 256 ^ zlen high - 1 else 0).
  { destruct Hx as [-> | ->]; cbn; [apply le_decode_zeros|apply le_decode_ones]. }
  rewrite <-Hd. split; [by intros <-|]. intros He. apply le_decode_inj; [done|apply bytes_ok_replicate; lia|by rewrite length_replicate|done].
Qed.

Lemma truncate_arith B K L H : 0 <= L < B -> 0 <= H < K -> 2 <= K ->
  let v := L + B * H - (if B * K <=? 2 * (L + B * H) then B * K else 0) in
  H = (if B <=? 2 * L then K - 1 else 0) <-> - B <= 2 * v < B.
Proof.
  intros HL HH HK v. subst v. assert (0 <= B * (K - 2)) by nia. destruct (Z.leb_spec B (2 * L)), (Z.leb_spec (B * K) (2 * (L + B * H))); split; intros Hx; subst; try nia.
  all: destruct (Z.lt_trichotomy H (K - 1)) as [?|[?|?]]; try nia.
Qed.

Lemma truncate_value s e low high : bytes_ok (low ++ high) -> high <> [] ->
  bool_decide (high = replicate (length high) (sign_fill s low)) = int_fits s (zlen low) (int_value s e (ordered e (low ++ high))) /\
  (high = replicate (length high) (sign_fill s low) -> le_encode (length low) (int_value s e (ordered e (low ++ high))) = low).
Proof.
  intros Hb Hh. pose proof Hb as (Hbl & Hbh)%bytes_ok_app. pose proof (le_decode_range low Hbl) as HL. pose proof (le_decode_range high Hbh) as HH.
  assert (Hf : sign_fill s low = 0 \/ sign_fill s low = 255) by (unfold sign_fill; destruct s; [case_match|]; auto).
  pose proof (high_fill_iff low high (sign_fill s low) Hb Hf) as Hiff. rewrite int_value_ordered. unfold sign_fill in *. rewrite le_decode_app.
  rewrite zlen_app, Z.pow_add_r by zl. assert (HK : 256 <= 256 ^ zlen high) by (change 256 with (256 ^ 1) at 1; apply Z.pow_le_mono_r; [lia|destruct high; [done|]; zl]).
  pose proof (truncate_arith (256 ^ zlen low) (256 ^ zlen high) (le_decode low) (le_decode high) HL HH ltac:(lia)) as Ha. cbn zeta in Ha.
  assert (HE : forall v, (exists k, v = le_decode low + k * 256 ^ zlen low) -> le_encode (length low) v = low).
  { intros v (k & ->). apply le_encode_of; [done|]. by rewrite Z_mod_plus_full, Z.mod_small. }
  assert (Hfill : forall c : bool, ((if c then 255 else 0) =? 255) = c) by (by intros []). split.
  - apply eq_true_iff_eq. rewrite bool_decide_eq_true, Hiff. unfold int_fits. destruct s; rewrite andb_true_iff, Z.leb_le, Z.ltb_lt; [by rewrite !Hfill, Ha|]. cbn. nia.
  - intros _. apply HE. destruct s; [rewrite Hfill; destruct (256 ^ zlen low * 256 ^ zlen high <=? _)|cbn].
    + exists (le_decode high - 256 ^ zlen high). lia.
    + exists (le_decode high). lia.
    + exists (le_decode high). lia.
Qed.

Lemma sign_fill_if s le :
  (if match s with LWMSG_SIGNED => 256 ^ zlen le <=? 2 * le_decode le | LWMSG_UNSIGNED => false end then 255 else 0) = sign_fill s le.
Proof. by destruct s. Qed.

(** The two halves of [lwmsg_convert_integer]. *)
Lemma convert_widen s e e' le tl old rest : bytes_ok le -> le <> [] -> zlen le <= zlen old ->
  (let '(out_low, out_high, out_sign) :=
      match e' with LittleEndian => (0, zlen le, zlen le - 1) | BigEndian => (zlen old - zlen le, 0, zlen old - zlen le) end in
    out ← order_memcpy e e' (old ++ rest) out_low (ordered e le ++ tl) 0 (zlen le);
    negative ← sign_is_set s out out_sign;
    out ← wr out out_high (replicate (Z.to_nat (zlen old - zlen le)) (if (negative : bool) then 0xFF else 0x00));
    Some (LWMSG_STATUS_SUCCESS, out)) =
  Some (if int_fits s (zlen old) (int_value s e (ordered e le))
        then (LWMSG_STATUS_SUCCESS, encode e' (length old) (int_value s e (ordered e le)) ++ rest)
        else (LWMSG_STATUS_OVERFLOW, old ++ rest)).
Proof.
  intros Hb Hl Hw. assert (Hf : int_fits s (zlen old) (int_value s e (ordered e le)) = true) by (replace (zlen old) with (zlen le + (zlen old - zlen le)) by lia; apply widen_fits; [done|lia|done]).
  rewrite Hf, int_value_le. set (k := Z.to_nat (zlen old - zlen le)). assert (Hk : Z.of_nat k = zlen old - zlen le) by lia. clearbody k.
  replace (length old) with (length le + k)%nat by (unfold zlen in *; lia).
  rewrite encode_ordered, widen_value by done. change (ordered e le ++ tl) with ([] ++ ordered e le ++ tl). destruct e'.
  - destruct (zlen_split old (zlen le)) as (o1 & o2 & -> & H1); [zl|]. change ((o1 ++ o2) ++ rest) with ([] ++ (o1 ++ o2) ++ rest). rewrite <-app_assoc.
    rewrite order_memcpy_spec by (done || zl). bsimpl. rewrite (sign_is_set_spec s LittleEndian []) by (done || zl). bsimpl. rewrite sign_fill_if.
    cbn [app ordered]. rewrite wr_at by (rewrite ?zlen_replicate; zl). bsimpl. by rewrite <-app_assoc.
  - destruct (zlen_split old (zlen old - zlen le)) as (o1 & o2 & -> & H1); [zl|]. rewrite <-app_assoc.
    rewrite order_memcpy_spec by (done || zl). bsimpl. rewrite (sign_is_set_spec s BigEndian) by (done || zl). bsimpl. rewrite sign_fill_if.
    cbn [ordered]. rewrite wr_at_0 by (rewrite ?zlen_replicate; zl). bsimpl. rewrite rev_app_distr, rev_replicate, <-app_assoc. done.
Qed.

Lemma convert_truncate s e e' le tl old rest : bytes_ok le -> old <> [] -> zlen old < zlen le ->
  (let '(in_low, in_high, in_sign) :=
      match e with LittleEndian => (0, zlen old, zlen old - 1) | BigEndian => (zlen le - zlen old, 0, zlen le - zlen old) end in
    negative ← sign_is_set s (ordered e le ++ tl) in_sign;
    fits ← high_bytes_are (if (negative : bool) then 0xFF else 0x00) (Z.to_nat (zlen le - zlen old)) (ordered e le ++ tl) in_high;
    if (fits : bool) then out ← order_memcpy e e' (old ++ rest) 0 (ordered e le ++ tl) in_low (zlen old); Some (LWMSG_STATUS_SUCCESS, out)
    else Some (LWMSG_STATUS_OVERFLOW, old ++ rest)) =
  Some (if int_fits s (zlen old) (int_value s e (ordered e le))
        then (LWMSG_STATUS_SUCCESS, encode e' (length old) (int_value s e (ordered e le)) ++ rest)
        else (LWMSG_STATUS_OVERFLOW, old ++ rest)).
Proof.
  intros Hb Ho Hw. destruct (zlen_split le (zlen old)) as (low & high & -> & H1); [zl|]. pose proof Hb as (Hbl & Hbh)%bytes_ok_app.
  assert (Hlo : low <> []) by (intros ->; apply Ho, zlen_0_inv; by rewrite <-H1). assert (Hhi : high <> []) by (intros ->; zl).
  destruct (truncate_value s e low high Hb Hhi) as (Hf & He). rewrite <-H1 in *. rewrite <-Hf. replace (length old) with (length low) by (unfold zlen in *; lia).
  replace (Z.to_nat (zlen (low ++ high) - zlen low)) with (length high) by (rewrite zlen_app; unfold zlen; lia). rewrite encode_ordered.
  change (old ++ rest) with ([] ++ old ++ rest) at 1. destruct e.
  - cbn [ordered]. rewrite <-app_assoc. rewrite (sign_is_set_spec s LittleEndian [] low (high ++ tl) _ Hbl Hlo eq_refl : sign_is_set s (low ++ high ++ tl) (zlen low - 1) = _). bsimpl. rewrite sign_fill_if.
    rewrite high_bytes_spec by done. bsimpl. case_bool_decide as Hd; [|done].
    change (low ++ high ++ tl) with ([] ++ ordered LittleEndian low ++ (high ++ tl)). rewrite order_memcpy_spec by (done || zl). bsimpl. cbn [ordered] in He. by rewrite He.
  - cbn [ordered]. rewrite rev_app_distr, <-app_assoc. rewrite (sign_is_set_spec s BigEndian (rev high) low tl (zlen (low ++ high) - zlen low) Hbl Hlo ltac:(rewrite zlen_rev; zl) : sign_is_set s (rev high ++ rev low ++ tl) _ = _). bsimpl. rewrite sign_fill_if.
    pose proof (high_bytes_spec (sign_fill s low) [] (rev high) (rev low ++ tl) 0 eq_refl) as Hr. cbn [app] in Hr. rewrite length_rev in Hr. rewrite Hr. bsimpl.
    replace (bool_decide (rev high = _)) with (bool_decide (high = replicate (length high) (sign_fill s low))).
    2: { apply bool_decide_ext. split; [intros Hd; rewrite Hd at 1; apply rev_replicate|intros Hd; by rewrite <-(rev_involutive high), Hd, rev_replicate at 1]. }
    clear Hr. case_bool_decide as Hd; [|done]. change (rev low ++ tl) with (ordered BigEndian low ++ tl). rewrite order_memcpy_spec by (done || zl).
    bsimpl. cbn [ordered] in He. by rewrite rev_app_distr in He; rewrite He.
Qed.

(** The conversion, on bytes in the order of their significance. *)
Lemma convert_spec s e e' le tl old rest in_size out_size : bytes_ok le -> le <> [] -> old <> [] -> in_size = zlen le -> out_size = zlen old ->
  lwmsg_convert_integer (ordered e le ++ tl) in_size e (old ++ rest) out_size e' s =
    Some (if int_fits s out_size (int_value s e (ordered e le))
          then (LWMSG_STATUS_SUCCESS, encode e' (length old) (int_value s e (ordered e le)) ++ rest)
          else (LWMSG_STATUS_OVERFLOW, old ++ rest)).
Proof.
  intros Hb Hl Ho -> ->. unfold lwmsg_convert_integer. destruct (Z.leb_spec (zlen le) (zlen old)) as [Hw|Hw]; [by apply convert_widen|by apply convert_truncate].
Qed.

Lemma convert_integer_spec s e e' bs tl old rest : bytes_ok bs -> bs <> [] -> old <> [] ->
  lwmsg_convert_integer (bs ++ tl) (zlen bs) e (old ++ rest) (zlen old) e' s =
    Some (if int_fits s (zlen old) (int_value s e bs) then (LWMSG_STATUS_SUCCESS, encode e' (length old) (int_value s e bs) ++ rest)
          else (LWMSG_STATUS_OVERFLOW, old ++ rest)).
Proof.
  intros Hb Hne Ho. pose proof (convert_spec s e e' (ordered e bs) tl old rest (zlen bs) (zlen old)) as H. rewrite <-ordered_ordered in H. apply H; [| |done|by rewrite zlen_ordered|done].
  - destruct e; [done|]. by apply bytes_ok_rev.
  - intros Hn. apply Hne. rewrite (ordered_ordered e bs), Hn. by destruct e.
Qed.

Lemma int_value_encode s e v (n : nat) : (n <> 0)%nat -> int_fits s (Z.of_nat n) v = true -> int_value s e (encode e n v) = v.
Proof.
  intros Hn Hf. unfold int_value. rewrite zlen_encode. assert (Hd : decode e (encode e n v) = v mod 256 ^ Z.of_nat n).
  { rewrite encode_ordered, decode_ordered, <-le_encode_mod. apply le_decode_encode, Z.mod_pos_bound, pow256_pos. lia. }
  rewrite Hd. pose proof (pow256_pos (Z.of_nat n) ltac:(lia)). unfold int_fits in Hf. destruct s; [|rewrite Z.mod_small; lia].
  destruct (Z.lt_ge_cases v 0).
  - rewrite <-(Z_mod_plus_full _ 1), Z.mod_small by lia. destruct (Z.leb_spec (256 ^ Z.of_nat n) (2 * (v + 1 * 256 ^ Z.of_nat n))); lia.
  - rewrite Z.mod_small by lia. destruct (Z.leb_spec (256 ^ Z.of_nat n) (2 * v)); lia.
Qed.

(** C17: Whatever the widths and the byte orders, [lwmsg_convert_integer] writes the
    integer that was read, in the number of bytes and the byte order asked for, when
    it can be expressed there, and reports an overflow and writes nothing when it
    cannot; it reads and writes within the two objects. *)
Theorem convert_integer_exact s e e' bs tl old rest : bytes_ok bs -> bs <> [] -> old <> [] ->
  (int_fits s (zlen old) (int_value s e bs) = true ->
     exists bs', lwmsg_convert_integer (bs ++ tl) (zlen bs) e (old ++ rest) (zlen old) e' s = Some (LWMSG_STATUS_SUCCESS, bs' ++ rest) /\
       zlen bs' = zlen old /\ bytes_ok bs' /\ int_value s e' bs' = int_value s e bs) /\
  (int_fits s (zlen old) (int_value s e bs) = false ->
     lwmsg_convert_integer (bs ++ tl) (zlen bs) e (old ++ rest) (zlen old) e' s = Some (LWMSG_STATUS_OVERFLOW, old ++ rest)).
Proof.
  intros Hb Hne Ho. split; intros Hf; rewrite (convert_integer_spec s e e') by done; rewrite Hf; [|done]. eexists. split; [done|].
  split; [apply zlen_encode|]. split; [apply bytes_ok_encode|]. apply int_value_encode; [by destruct old|done].
Qed.

Lemma convert_integer_exact_witness : exists bs',
  lwmsg_convert_integer [0xFF; 0xFE] 2 BigEndian (zeros 4) 4 LittleEndian LWMSG_SIGNED = Some (LWMSG_STATUS_SUCCESS, bs') /\ int_value LWMSG_SIGNED LittleEndian bs' = -2.
Proof.
  destruct (convert_integer_exact LWMSG_SIGNED BigEndian LittleEndian [0xFF; 0xFE] [] (zeros 4) []) as (Hs & _); [repeat constructor; lia|done..|].
  destruct (Hs eq_refl) as (bs' & H1 & _ & _ & H2). exists (bs' ++ []). split; [exact H1|]. rewrite app_nil_r, H2. reflexivity.
Defined.

(** * Times *)

(** A time in microseconds, times that do not overflow, and times in normal form. *)
Definition usec (t : LWMsgTime) : Z := seconds t * USEC + microseconds t.
Definition time_ok (B : Z) (t : LWMsgTime) : Prop := Z.abs (seconds t) <= B /\ Z.abs (microseconds t) <= B.
Definition time_of (v : Z) : LWMsgTime := mkTime (Z.quot v USEC) (Z.rem v USEC).

Lemma ssize_ok x : - 2 ^ 63 <= x < 2 ^ 63 -> ssize x = Some x.
Proof. intros. unfold ssize. by replace (_ && _) with true by lia. Qed.

Lemma time_loop_inv (I : LWMsgTime -> Prop) cond ds dm : (forall t, I t -> cond t = true ->
    - 2 ^ 63 <= seconds t + ds < 2 ^ 63 /\ - 2 ^ 63 <= microseconds t + dm < 2 ^ 63 /\ I (mkTime (seconds t + ds) (microseconds t + dm)) /\
    (cond (mkTime (seconds t + ds) (microseconds t + dm)) = true -> Z.abs (microseconds t + dm) / USEC < Z.abs (microseconds t) / USEC)) ->
  forall t, I t -> exists t', time_loop (time_fuel t) cond ds dm t = Some t' /\ I t' /\ cond t' = false.
Proof.
  intros Hstep. assert (Hpos : forall m, 0 <= Z.abs m / USEC) by (intros; apply Z.div_pos; unfold USEC; lia).
  assert (Hl : forall fuel t, I t -> (cond t = true -> Z.abs (microseconds t) / USEC + 1 < Z.of_nat fuel) -> (0 < fuel)%nat ->
    exists t', time_loop fuel cond ds dm t = Some t' /\ I t' /\ cond t' = false).
  { induction fuel as [|fuel IH]; intros t Ht Hf Hp; [lia|]. cbn [time_loop]. destruct (cond t) eqn:Hc; [|by exists t].
    destruct (Hstep t Ht Hc) as (H1 & H2 & H3 & H4). rewrite !ssize_ok by done. bsimpl. specialize (Hf eq_refl). pose proof (Hpos (microseconds t)).
    apply IH; [done| |lia]. intros Hc'. specialize (H4 Hc'). cbn [microseconds]. lia. }
  intros t Ht. apply Hl; [done| |]; unfold time_fuel; pose proof (Hpos (microseconds t)); lia.
Qed.

Lemma div_usec_less a b : 0 <= a -> a <= b - USEC -> a / USEC < b / USEC.
Proof. intros. unfold USEC in *. apply Z.div_le_mono with (c := 1000000) in H0; [|lia]. replace (b - 1000000) with (b + (-1) * 1000000) in H0 by lia. rewrite Z.div_add in H0 by lia. lia. Qed.

Lemma time_normal t : Z.abs (microseconds t) < USEC -> ~ (seconds t < 0 /\ 0 < microseconds t) -> ~ (microseconds t < 0 /\ 0 < seconds t) -> t = time_of (usec t).
Proof.
  destruct t as [s m]. unfold time_of, usec, USEC. cbn. intros Hm H1 H2.
  assert (Hq : Z.quot (s * 1000000 + m) 1000000 = s).
  { destruct (Z.lt_ge_cases (s * 1000000 + m) 0).
    - rewrite <-(Z.opp_involutive (s * 1000000 + m)), Z.quot_opp_l by lia. rewrite <-(Z.quot_unique _ 1000000 (- s) (- m)) by lia. lia.
    - symmetry. apply Z.quot_unique with m; lia. }
  rewrite Hq. f_equal. pose proof (Z.quot_rem' (s * 1000000 + m) 1000000). lia.
Qed.

(** [lwmsg_time_normalize] divides by a million, rounding toward zero. *)
Lemma time_normalize_spec t : time_ok (2 ^ 62) t -> lwmsg_time_normalize t = Some (time_of (usec t)).
Proof.
  intros (Hs & Hm). unfold lwmsg_time_normalize. set (v := usec t).
  destruct (time_loop_inv (fun t => usec t = v /\ time_ok (2 ^ 62) t) (fun t => (seconds t <? 0) && (0 <? microseconds t)) 1 (- USEC)) with t as (t1 & -> & (H1 & Ht1) & C1); [|done|].
  { intros x (<- & Hx) Hc. unfold usec, time_ok in *. cbn. split; [lia|]. split; [unfold USEC; lia|]. split; [unfold USEC; lia|]. intros Hc'. apply div_usec_less; unfold USEC in *; lia. }
  bsimpl. destruct (time_loop_inv (fun t => usec t = v /\ time_ok (2 ^ 62) t /\ ((seconds t <? 0) && (0 <? microseconds t) = false)) (fun t => (microseconds t <? 0) && (0 <? seconds t)) (-1) USEC) with t1
    as (t2 & -> & (H2 & Ht2 & C2) & D2); [|done|].
  { intros x (<- & Hx & Cx) Hc. unfold usec, time_ok in *. cbn. split; [lia|]. split; [unfold USEC; lia|]. split; [unfold USEC; lia|]. intros Hc'. apply div_usec_less; unfold USEC in *; lia. }
  bsimpl. set (agree := fun t => Z.abs (microseconds t) <= 2 ^ 62 /\ ((seconds t <? 0) && (0 <? microseconds t)) = false /\ ((microseconds t <? 0) && (0 <? seconds t)) = false).
  assert (HV : Z.abs v <= 2 ^ 62 * (USEC + 1)) by (rewrite <-H2; unfold usec, time_ok, USEC in *; lia). assert (A2 : agree t2) by (by destruct Ht2). clear C1 C2 D2 H1 Ht1.
  destruct (time_loop_inv (fun t => usec t = v /\ agree t) (fun t => microseconds t <=? - USEC) (-1) USEC) with t2 as (t3 & -> & (H3 & A3) & C3); [|done|].
  { intros x (Hv & Hx) Hc. unfold usec, agree in *. rewrite <-Hv in HV |- *. unfold USEC in *. cbn. split; [lia|]. split; [lia|]. split; [lia|]. intros Hc'. apply div_usec_less; unfold USEC in *; lia. }
  bsimpl. destruct (time_loop_inv (fun t => usec t = v /\ agree t /\ - USEC < microseconds t) (fun t => USEC <=? microseconds t) 1 (- USEC)) with t3 as (t4 & -> & (H4 & A4 & C4) & D4); [|split; [done|split; [done|lia]]|].
  { intros x (Hv & Hx & Hy) Hc. unfold usec, agree in *. rewrite <-Hv in HV |- *. unfold USEC in *. cbn. split; [lia|]. split; [lia|]. split; [lia|]. intros Hc'. apply div_usec_less; unfold USEC in *; lia. }
  f_equal. rewrite <-H4. clearbody v. unfold agree in A4. apply time_normal; lia.
Qed.

Lemma usec_time_of v : usec (time_of v) = v.
Proof. unfold usec, time_of. cbn. pose proof (Z.quot_rem' v USEC). lia. Qed.

Lemma time_of_ok B v : USEC <= B -> Z.abs v <= B * USEC -> time_ok B (time_of v).
Proof.
  intros HB Hv. unfold time_ok, time_of, USEC in *. cbn. pose proof (Z.quot_rem' v 1000000). pose proof (Z.rem_bound_abs v 1000000 ltac:(lia)).
  split; [|lia]. rewrite <-Z.quot_abs by lia. apply Z.quot_le_upper_bound; lia.
Qed.

Lemma time_of_sign v : (v < 0 -> seconds (time_of v) < 0 \/ microseconds (time_of v) < 0) /\ (0 <= v -> 0 <= seconds (time_of v) /\ 0 <= microseconds (time_of v)).
Proof.
  unfold time_of, USEC. cbn. pose proof (Z.quot_rem' v 1000000). split; intros Hv.
  - pose proof (Z.rem_nonpos v 1000000 ltac:(lia) ltac:(lia)). destruct (decide (Z.rem v 1000000 < 0)); [by right|left; lia].
  - split; [apply Z.quot_pos; lia|]. apply Z.rem_nonneg; lia.
Qed.

Lemma time_sum_spec a b : time_ok (2 ^ 61) a -> time_ok (2 ^ 61) b -> lwmsg_time_sum a b = Some (time_of (usec a + usec b)).
Proof.
  intros (Ha & Ha') (Hb & Hb'). unfold lwmsg_time_sum. rewrite !ssize_ok by lia. bsimpl. rewrite time_normalize_spec by (split; cbn; lia). do 2 f_equal. unfold usec. cbn. lia.
Qed.

Lemma time_difference_spec a b : time_ok (2 ^ 61) a -> time_ok (2 ^ 61) b -> lwmsg_time_difference a b = Some (time_of (usec b - usec a)).
Proof.
  intros (Ha & Ha') (Hb & Hb'). unfold lwmsg_time_difference. rewrite !ssize_ok by lia. bsimpl. rewrite time_normalize_spec by (split; cbn; lia). do 2 f_equal. unfold usec. cbn. lia.
Qed.

Lemma time_compare_spec a b : time_ok (2 ^ 61) a -> time_ok (2 ^ 61) b -> lwmsg_time_compare a b =
  Some (if usec a =? usec b then LWMSG_TIME_EQUAL else if usec b <? usec a then LWMSG_TIME_GREATER else LWMSG_TIME_LESSER).
Proof.
  intros Ha Hb. unfold lwmsg_time_compare. rewrite time_difference_spec by done. bsimpl. f_equal.
  destruct (time_of_sign (usec b - usec a)) as (Hn & Hp). pose proof (usec_time_of (usec b - usec a)) as Hu. set (d := time_of (usec b - usec a)) in *. clearbody d.
  unfold usec at 1 in Hu. unfold USEC in Hu. destruct (Z.eqb_spec (usec a) (usec b)); [|destruct (Z.ltb_spec (usec b) (usec a))].
  - by replace (_ && _) with true by lia.
  - replace (_ && _) with false by lia. by replace (_ || _) with true by lia.
  - replace (_ && _) with false by lia. by replace (_ || _) with false by lia.
Qed.

(** Times of less than 2^61 seconds and microseconds either way are added,
    subtracted and compared without an overflow: the sum and the difference are exact
    and in normal form (microseconds below a million and of the sign of the seconds),
    and the comparison is that of the times in microseconds. *)
Theorem time_arithmetic_exact a b : time_ok (2 ^ 61) a -> time_ok (2 ^ 61) b ->
  (exists t, lwmsg_time_sum a b = Some t /\ usec t = usec a + usec b /\ Z.abs (microseconds t) < USEC /\ 0 <= seconds t * microseconds t) /\
  (exists t, lwmsg_time_difference a b = Some t /\ usec t = usec b - usec a /\ Z.abs (microseconds t) < USEC /\ 0 <= seconds t * microseconds t) /\
  (exists c, lwmsg_time_compare a b = Some c /\ comparison_value c = Z.sgn (usec a - usec b)).
Proof.
  intros Ha Hb. assert (Hn : forall v, Z.abs (microseconds (time_of v)) < USEC /\ 0 <= seconds (time_of v) * microseconds (time_of v)).
  { intros v. unfold time_of, USEC. cbn. pose proof (Z.rem_bound_abs v 1000000 ltac:(lia)). split; [lia|]. destruct (Z.lt_ge_cases v 0).
    - pose proof (Z.rem_nonpos v 1000000 ltac:(lia) ltac:(lia)). pose proof (Z.quot_rem' v 1000000). apply Z.mul_nonpos_nonpos; lia.
    - pose proof (Z.rem_nonneg v 1000000 ltac:(lia) ltac:(lia)). pose proof (Z.quot_rem' v 1000000). apply Z.mul_nonneg_nonneg; lia. }
  split; [|split].
  - rewrite time_sum_spec by done. eexists. split; [done|]. by rewrite usec_time_of.
  - rewrite time_difference_spec by done. eexists. split; [done|]. by rewrite usec_time_of.
  - rewrite time_compare_spec by done. eexists. split; [done|]. destruct (Z.eqb_spec (usec a) (usec b)); [|destruct (Z.ltb_spec (usec b) (usec a))]; cbn; lia.
Qed.

Lemma time_arithmetic_exact_witness : exists t, lwmsg_time_sum (mkTime 1 700000) (mkTime (-3) 900000) = Some t /\ usec t = - 400000.
Proof.
  destruct (time_arithmetic_exact (mkTime 1 700000) (mkTime (-3) 900000)) as ((t & Ht & Hv & _) & _); [split; cbn; lia..|]. exists t. split; [exact Ht|]. rewrite Hv. reflexivity.
Defined.

(** * Clocks *)

Inductive clock_call := GetWall | GetMonotonic.

Definition clock_step (clock : LWMsgClock) (call : clock_call) (now : LWMsgStatus + LWMsgTime) : option (LWMsgStatus * LWMsgClock * option LWMsgTime) :=
  match call with GetWall => lwmsg_clock_get_wall_time clock now | GetMonotonic => lwmsg_clock_get_monotonic_time clock now end.

(** A sequence of calls, each with what the time of day is then: the results. *)
Fixpoint clock_run (clock : LWMsgClock) (calls : list (clock_call * (LWMsgStatus + LWMsgTime))) : option (list (LWMsgStatus * option LWMsgTime)) :=
  match calls with
  | [] => Some []
  | (call, now) :: rest => '(status, clock, t) ← clock_step clock call now; rs ← clock_run clock rest; Some ((status, t) :: rs)
  end.

(** What the calls mean: the state is the time of day and the monotonic time, in
    microseconds, of the last call that read a time. *)
Definition clock_advance (st : option (Z * Z)) (w : Z) : Z :=
  match st with None => 0 | Some (last, mono) => mono + (if last <? w then w - last else 1) end.
Fixpoint clock_spec (st : option (Z * Z)) (calls : list (clock_call * (LWMsgStatus + LWMsgTime))) : list (LWMsgStatus * option LWMsgTime) :=
  match calls with
  | [] => []
  | (_, inl status) :: rest => (status, None) :: clock_spec st rest
  | (call, inr now) :: rest =>
      let mono := clock_advance st (usec now) in
      (LWMSG_STATUS_SUCCESS, Some (match call with GetWall => now | GetMonotonic => time_of mono end)) :: clock_spec (Some (usec now, mono)) rest
  end.

(** A reading of the time of day: a failure, or a time after the epoch, by
    less than 2^40 seconds. *)
Definition reading_ok (now : LWMsgStatus + LWMsgTime) : Prop :=
  match now with
  | inl status => status <> LWMSG_STATUS_SUCCESS
  | inr t => 0 <= seconds t < 2 ^ 40 /\ 0 <= microseconds t < USEC /\ 0 < usec t
  end.

(** The clock in memory and its meaning; [n] bounds the number of calls so far. *)
Definition clock_rep (n : Z) (clock : LWMsgClock) (st : option (Z * Z)) : Prop :=
  match st with
  | None => clock = lwmsg_clock_init
  | Some (last, mono) =>
      reading_ok (inr (last_time clock)) /\ usec (last_time clock) = last /\ usec (adjust clock) = mono - last /\
      0 <= mono <= n * 2 ^ 40 * USEC /\ time_ok ((n + 2) * 2 ^ 40) (adjust clock)
  end.

Lemma clock_update_spec n clock st now : 1 <= n < 2 ^ 20 -> clock_rep n clock st -> reading_ok (inr now) ->
  exists clock', lwmsg_clock_update clock (inr now) = Some (LWMSG_STATUS_SUCCESS, clock') /\ last_time clock' = now /\
    clock_rep (n + 1) clock' (Some (usec now, clock_advance st (usec now))).
Proof.
  intros Hn Hr Hw. pose proof Hw as (Hs & Hm & Hu). destruct st as [[last mono]|]; cbn [clock_rep clock_advance] in *; cbn [lwmsg_clock_update].
  - destruct Hr as (Hl & <- & Ha & HM & Hok). assert (Hl' := Hl). destruct Hl' as (Ls & Lm & Lu).
    assert (Hz : (seconds (last_time clock) =? 0) && (microseconds (last_time clock) =? 0) = false) by (unfold usec in Lu; lia). rewrite Hz.
    assert (Ht : forall t, reading_ok (inr t) -> time_ok (2 ^ 61) t) by (intros t (? & ? & ?); unfold time_ok, USEC in *; lia).
    assert (Hao : time_ok (2 ^ 61) (adjust clock)) by (unfold time_ok in *; lia).
    assert (HUl : usec (last_time clock) < 2 ^ 40 * USEC) by (unfold usec, USEC in *; lia). assert (HUn : usec now < 2 ^ 40 * USEC) by (unfold usec, USEC in *; lia).
    rewrite time_compare_spec by auto. bsimpl. destruct (Z.ltb_spec (usec (last_time clock)) (usec now)) as [Hlt|Hge].
    + destruct (Z.eqb_spec (usec now) (usec (last_time clock))); [lia|]. bsimpl. eexists. split; [done|]. split; [done|]. cbn.
      split; [done|]. split; [done|]. split; [lia|]. split; [unfold USEC in *; lia|]. unfold time_ok in *. lia.
    + replace (comparison_value _ <=? comparison_value LWMSG_TIME_EQUAL) with true by (destruct (Z.eqb_spec (usec now) (usec (last_time clock))); done).
      rewrite time_difference_spec by auto. bsimpl. set (d := usec (last_time clock) - usec now).
      assert (Hd : time_ok (2 ^ 60) (time_of d)) by (apply time_of_ok; unfold USEC in *; lia). rewrite ssize_ok by (destruct Hd; lia). bsimpl.
      rewrite time_sum_spec; [|done|unfold time_ok in *; cbn in *; lia]. bsimpl. eexists. split; [done|]. split; [done|].
      assert (Hv : usec (mkTime (seconds (time_of d)) (microseconds (time_of d) + 1)) = d + 1) by (rewrite <-(usec_time_of d) at 3; unfold usec; cbn; lia). rewrite Hv.
      cbn [last_time adjust]. split; [done|]. split; [done|]. rewrite usec_time_of, Ha. split; [lia|]. split; [unfold USEC in *; lia|]. apply time_of_ok; unfold USEC in *; lia.
  - subst clock. cbn. rewrite !ssize_ok by (unfold USEC in *; lia). bsimpl. eexists. split; [done|]. split; [done|]. cbn. split; [done|]. split; [done|].
    unfold usec, time_ok, USEC in *. cbn. lia.
Qed.

Lemma clock_run_refines calls : forall n clock st, 1 <= n -> n + Z.of_nat (length calls) < 2 ^ 20 -> clock_rep n clock st -> Forall (fun c => reading_ok c.2) calls ->
  clock_run clock calls = Some (clock_spec st calls).
Proof.
  induction calls as [|[call [status|now]] calls IH]; intros n clock st Hn Hl Hr Hok; [done| |]; apply Forall_cons in Hok as (Hw & Hok); cbn [length] in Hl; cbn [clock_run clock_spec].
  - assert (Hs : clock_step clock call (inl status) = Some (status, clock, None)) by (destruct call; cbn; by rewrite decide_False). rewrite Hs. bsimpl. by rewrite (IH n clock st) by (done || lia).
  - destruct (clock_update_spec n clock st now ltac:(lia) Hr Hw) as (clock' & Hu & <- & Hr').
    assert (Hs : clock_step clock call (inr (last_time clock')) =
      Some (LWMSG_STATUS_SUCCESS, clock', Some (match call with GetWall => last_time clock' | GetMonotonic => time_of (clock_advance st (usec (last_time clock'))) end))).
    { unfold clock_step, lwmsg_clock_get_wall_time, lwmsg_clock_get_monotonic_time. rewrite Hu. destruct call; [done|]. cbn. destruct Hr' as ((? & ? & ?) & _ & Ha & _ & Ho).
      rewrite time_sum_spec by (unfold time_ok, USEC in *; lia). rewrite Ha. cbn. do 3 f_equal. f_equal. lia. }
    rewrite Hs. bsimpl. rewrite (IH (n + 1) clock' (Some (usec (last_time clock'), clock_advance st (usec (last_time clock'))))); [done|lia|lia|done|done].
Qed.

(** The monotonic times among the results of calls. *)
Fixpoint monotonic_times (calls : list (clock_call * (LWMsgStatus + LWMsgTime))) (rs : list (LWMsgStatus * option LWMsgTime)) : list Z :=
  match calls, rs with
  | (GetMonotonic, _) :: calls, (_, Some t) :: rs => usec t :: monotonic_times calls rs
  | _ :: calls, _ :: rs => monotonic_times calls rs
  | _, _ => []
  end.

Lemma monotonic_sorted calls : forall st, Sorted Z.lt (monotonic_times calls (clock_spec st calls)) /\
  Forall (fun v => match st with None => 0 <= v | Some (_, mono) => mono < v end) (monotonic_times calls (clock_spec st calls)).
Proof.
  induction calls as [|[call [status|now]] calls IH]; intros st; cbn [clock_spec monotonic_times]; [by split| |].
  - destruct (IH st) as (H1 & H2). by destruct call.
  - destruct (IH (Some (usec now, clock_advance st (usec now)))) as (H1 & H2). cbn in H2.
    assert (Ha : match st with None => 0 <= clock_advance st (usec now) | Some (_, mono) => mono < clock_advance st (usec now) end).
    { destruct st as [[last mono]|]; cbn; [|lia]. destruct (Z.ltb_spec last (usec now)); lia. }
    assert (H3 : Forall (fun v => match st with None => 0 <= v | Some (_, mono) => mono < v end) (monotonic_times calls (clock_spec (Some (usec now, clock_advance st (usec now))) calls))).
    { eapply Forall_impl; [exact H2|]. intros v Hv. cbn in Hv. destruct st as [[last mono]|]; lia. }
    destruct call; [done|]. rewrite usec_time_of. split; [|by constructor]. constructor; [done|]. destruct H2; by constructor.
Qed.

(** C18: A clock of less than a million calls, each with a time of day after the epoch
    (which may run backward) or a failure to read it, never overflows: wall times are
    what was read, failures are passed on and change nothing, and the monotonic time
    is 0 at first, advances with the time of day when that advances and by a
    microsecond when it does not; so monotonic times strictly increase. *)
Theorem clock_monotonic calls : Forall (fun c => reading_ok c.2) calls -> Z.of_nat (length calls) < 1000000 ->
  clock_run lwmsg_clock_init calls = Some (clock_spec None calls) /\ Sorted Z.lt (monotonic_times calls (clock_spec None calls)).
Proof.
  intros Hok Hl. split; [apply (clock_run_refines calls 1 lwmsg_clock_init None); [lia|lia|done|done]|]. apply monotonic_sorted.
Qed.

Lemma clock_monotonic_witness : clock_run lwmsg_clock_init [(GetMonotonic, inr (mkTime 1500 7)); (GetMonotonic, inr (mkTime 1400 9)); (GetMonotonic, inr (mkTime 1402 3))] =
  Some [(LWMSG_STATUS_SUCCESS, Some (mkTime 0 0)); (LWMSG_STATUS_SUCCESS, Some (mkTime 0 1)); (LWMSG_STATUS_SUCCESS, Some (mkTime 1 999995))].
Proof.
  rewrite (proj1 (clock_monotonic [(GetMonotonic, inr (mkTime 1500 7)); (GetMonotonic, inr (mkTime 1400 9)); (GetMonotonic, inr (mkTime 1402 3))]
    ltac:(repeat constructor; cbn; unfold USEC; lia) ltac:(cbn; lia))). reflexivity.
Defined.

(** At the epoch itself the clock takes itself for a new one: after it, the monotonic
    time is 0 again. *)
Theorem clock_restarts : clock_run lwmsg_clock_init [(GetMonotonic, inr (mkTime 5 0)); (GetMonotonic, inr (mkTime 8 0)); (GetMonotonic, inr (mkTime 0 0)); (GetMonotonic, inr (mkTime 9 0))] =
  Some [(LWMSG_STATUS_SUCCESS, Some (mkTime 0 0)); (LWMSG_STATUS_SUCCESS, Some (mkTime 3 0)); (LWMSG_STATUS_SUCCESS, Some (mkTime 3 1)); (LWMSG_STATUS_SUCCESS, Some (mkTime 0 0))].
Proof. reflexivity. Qed.
