(* ===== verification/LwmsgData.v ===== *)
(** The data engine of [lwmsg]: memory, buffers, the map of aliased objects
    ([data-context.c]), what is read off objects ([data-graph.c]) and the release of
    object graphs. [LwmsgMarshal] has the marshaller and the unmarshaller. *)

From stdpp Require Import gmap.
From S2P Require Import Prelude Lwmsg LwmsgType.

(** * Memory

    The bytes in use, by address, and the blocks that [malloc] has given out, with
    their sizes. A pointer in memory takes 8 bytes; 0 is the null pointer. *)

Record heap := mkHeap { cells : gmap Z Z; blocks : gmap Z Z }.

(** [malloc]: the address of a block, or no memory. *)
Class Malloc := malloc : heap -> Z -> option Z.

(** The address of a local variable whose address is taken. *)
Class Stack := stack_slot : heap -> Z.

Fixpoint load_bytes (c : gmap Z Z) (a : Z) (n : nat) : option mem :=
  match n with
  | O => Some []
  | S n => b ← c !! a; r ← load_bytes c (a + 1) n; Some (b :: r)
  end.

Fixpoint put_bytes (c : gmap Z Z) (a : Z) (bs : mem) : gmap Z Z :=
  match bs with
  | [] => c
  | b :: r => <[a := b]> (put_bytes c (a + 1) r)
  end.

Fixpoint drop_bytes (c : gmap Z Z) (a : Z) (n : nat) : gmap Z Z :=
  match n with
  | O => c
  | S n => delete a (drop_bytes c (a + 1) n)
  end.

Definition load (h : heap) (a n : Z) : option mem := load_bytes (cells h) a (Z.to_nat n).

(** Bytes are written where there are bytes. *)
Definition store (h : heap) (a : Z) (bs : mem) : option heap :=
  _ ← load_bytes (cells h) a (length bs); Some (mkHeap (put_bytes (cells h) a bs) (blocks h)).

Definition load_ptr `{Host} (h : heap) (a : Z) : option Z := bs ← load h a 8; Some (decode host bs).
Definition store_ptr `{Host} (h : heap) (a p : Z) : option heap := store h a (encode host 8 p).

(** [lwmsg_context_default_alloc]: a block of zeros, of a byte at least. *)
Definition alloc_size (size : Z) : Z := if size =? 0 then 1 else size.
Definition add_block (h : heap) (a : Z) (bs : mem) : heap := mkHeap (put_bytes (cells h) a bs) (<[a := zlen bs]> (blocks h)).
Definition lwmsg_context_default_alloc `{Malloc} (h : heap) (size : Z) : option (Z * heap) :=
  a ← malloc h (alloc_size size); Some (a, add_block h a (zeros (alloc_size size))).

(** [free]: the null pointer is nothing, anything else is a block. *)
Definition lwmsg_context_default_free (h : heap) (p : Z) : option heap :=
  if p =? 0 then Some h
  else n ← blocks h !! p; Some (mkHeap (drop_bytes (cells h) p (Z.to_nat n)) (delete p (blocks h))).

(** [lwmsg_context_default_realloc], for a block and a new size that is not 0 (which
    [realloc] leaves to the implementation): the block moves to the address that
    [malloc] finds once it is gone. *)
Definition lwmsg_context_default_realloc `{Malloc} (h : heap) (object old_size new_size : Z) : option (option (Z * heap)) :=
  if new_size =? 0 then None else
  n ← blocks h !! object;
  old ← load h object n;
  h' ← lwmsg_context_default_free h object;
  match malloc h' new_size with
  | None => Some None
  | Some a =>
      (* bytes past the old block are anything; the code clears those past [old_size] *)
      let kept := take (Z.to_nat new_size) old in
      bs ← (if old_size <? new_size
            then pre ← rd (kept ++ zeros (new_size - zlen kept)) 0 old_size; Some (pre ++ zeros (new_size - old_size))
            else if zlen kept <? new_size then None else Some kept);
      Some (Some (a, add_block h' a bs))
  end.

(** * Programs

    A program acts on memory, on the buffer and on the map of objects. It faults
    ([None]), or ends with a status other than success, or with a value. *)

(** The callbacks of buffers: none, and the two that enlarge the buffer. *)
Inductive LWMsgWrap := WRAP_NULL | WRAP_MARSHAL_ALLOC | WRAP_REALLOC.

(** A buffer: the block, and the cursor and the end as offsets in it. *)
Record LWMsgBuffer := mkBuffer { b_base : mem; b_end : Z; b_cursor : Z; b_wrap : LWMsgWrap }.

Record LWMsgObjectMapEntry := mkEntry { e_id : Z; e_object : Z; e_spec : Z }.

(** The two hash tables of an object map have the same entries, given here with the
    last one inserted first, the order in which they are searched; [m_init] tells
    whether the tables have been made. *)
Record LWMsgObjectMap := mkMap { next_id : Z; m_init : bool; entries : list LWMsgObjectMapEntry }.

Record state := mkState { st_heap : heap; st_buffer : LWMsgBuffer; st_map : LWMsgObjectMap }.

Definition prog (A : Type) : Type := state -> option (state * (LWMsgStatus + A)).

Definition ret {A} (x : A) : prog A := fun st => Some (st, inr x).
Definition raise {A} (s : LWMsgStatus) : prog A := fun st => Some (st, inl s).
Definition fault {A} : prog A := fun _ => None.
Definition bind {A B} (m : prog A) (k : A -> prog B) : prog B := fun st =>
  match m st with
  | None => None
  | Some (st, inl s) => Some (st, inl s)
  | Some (st, inr x) => k x st
  end.

Declare Scope prog_scope.
Delimit Scope prog_scope with prog.
Bind Scope prog_scope with prog.
Notation "'let*' x := e 'in' k" := (bind e (fun x => k)) (at level 10, x pattern, k at level 200) : prog_scope.
Notation "m ;; k" := (bind m (fun _ => k)) (at level 100, right associativity) : prog_scope.
#[global] Open Scope prog_scope.

(** A value that may be a fault; a status with a value; the state. *)
Definition get {A} (x : option A) : prog A := fun st => match x with Some x => Some (st, inr x) | None => None end.
Definition check_status {A} (r : LWMsgStatus * option A) : prog A := match r with (_, Some x) => ret x | (s, None) => raise s end.
Definition with_heap {A} (f : heap -> option (heap * A)) : prog A := fun st =>
  match f (st_heap st) with Some (h, x) => Some (mkState h (st_buffer st) (st_map st), inr x) | None => None end.
Definition read_heap {A} (f : heap -> option A) : prog A := fun st => match f (st_heap st) with Some x => Some (st, inr x) | None => None end.
Definition update_heap (f : heap -> option heap) : prog () := fun st =>
  match f (st_heap st) with Some h => Some (mkState h (st_buffer st) (st_map st), inr tt) | None => None end.

(** The label [error] of a function: the cleanup runs when the body has failed. *)
Definition on_error {A} (m : prog A) (cleanup : prog ()) : prog A := fun st =>
  match m st with
  | Some (st, inl s) => match cleanup st with Some (st, _) => Some (st, inl s) | None => None end
  | r => r
  end.

(** A cleanup that runs in any case. *)
Definition finally {A} (m : prog A) (cleanup : prog ()) : prog A := fun st =>
  match m st with
  | Some (st, r) => match cleanup st with Some (st, _) => Some (st, r) | None => None end
  | None => None
  end.

(** The status as a value. *)
Definition try {A} (m : prog A) : prog (LWMsgStatus + A) := fun st => match m st with Some (st, r) => Some (st, inr r) | None => None end.

(** [for (i = 0; i < count; i++)], [body] with the number of the turn. *)
Fixpoint for_pos (p : positive) (i : Z) (body : Z -> prog ()) : prog () :=
  match p with
  | xH => body i
  | xO q => for_pos q i body;; for_pos q (i + Z.pos q) body
  | xI q => body i;; for_pos q (i + 1) body;; for_pos q (i + 1 + Z.pos q) body
  end.
Definition for_loop (count : Z) (body : Z -> prog ()) : prog () := match count with Z.pos p => for_pos p 0 body | _ => ret tt end.

(** * Buffers: [lwmsg_buffer_read], [lwmsg_buffer_write], [lwmsg_buffer_finish] *)

Section Buffers.
Context `{Malloc}.

Definition get_buffer : prog LWMsgBuffer := fun st => Some (st, inr (st_buffer st)).
Definition set_buffer (b : LWMsgBuffer) : prog () := fun st => Some (mkState (st_heap st) b (st_map st), inr tt).
Definition set_cursor (c : Z) (b : LWMsgBuffer) : LWMsgBuffer := mkBuffer (b_base b) (b_end b) c (b_wrap b).

(** The buffer in a larger block, when there is memory for it. *)
Definition enlarge (new_length : Z) : prog () :=
  let* b := get_buffer in
  let* room := read_heap (fun h => Some (malloc h new_length)) in
  match room with
  | None => raise LWMSG_STATUS_MEMORY
  | Some _ => set_buffer (mkBuffer (take (Z.to_nat (b_end b)) (b_base b) ++ zeros (new_length - b_end b)) new_length (b_cursor b) (b_wrap b))
  end.
Definition new_length (b : LWMsgBuffer) : Z := if b_end b =? 0 then 256 else u64 (b_end b * 2).

Definition lwmsg_buffer_realloc_wrap (count : Z) : prog () :=
  let* b := get_buffer in
  if count =? 0 then ret tt else enlarge (new_length b).

Definition lwmsg_data_marshal_alloc_wrap (needed : Z) : prog () :=
  let* b := get_buffer in
  enlarge (new_length b).

(** [buffer->wrap(buffer, count)], which is not called when it is null. *)
Definition call_wrap (count : Z) : prog () :=
  let* b := get_buffer in
  match b_wrap b with
  | WRAP_NULL => fault
  | WRAP_REALLOC => lwmsg_buffer_realloc_wrap count
  | WRAP_MARSHAL_ALLOC => lwmsg_data_marshal_alloc_wrap count
  end.
Definition wrap_or_eof (count : Z) : prog () :=
  let* b := get_buffer in
  match b_wrap b with WRAP_NULL => raise LWMSG_STATUS_EOF | _ => call_wrap count end.

(** The loops. A wrap doubles the buffer, so that no more than 64 turns are taken.
    [put] copies bytes to an offset of the destination, [src] gives the bytes at an
    offset of the source. *)
Definition buffer_fuel : nat := 70.

Fixpoint read_loop (fuel : nat) (put : Z -> mem -> prog ()) (acc : mem) (out_bytes count : Z) : prog mem :=
  match fuel with
  | O => fault
  | S fuel =>
      if count =? 0 then ret acc else
      let* b := get_buffer in
      if b_end b <? b_cursor b + count then
        let remaining := b_end b - b_cursor b in
        let* bs := get (rd (b_base b) (b_cursor b) remaining) in
        put out_bytes bs;;
        set_buffer (set_cursor (b_cursor b + remaining) b);;
        wrap_or_eof (count - remaining);;
        read_loop fuel put (acc ++ bs) (out_bytes + remaining) (count - remaining)
      else
        let* bs := get (rd (b_base b) (b_cursor b) count) in
        put out_bytes bs;;
        set_buffer (set_cursor (b_cursor b + count) b);;
        ret (acc ++ bs)
  end.

Fixpoint write_loop (fuel : nat) (src : Z -> Z -> prog mem) (in_bytes count : Z) : prog () :=
  match fuel with
  | O => fault
  | S fuel =>
      if count =? 0 then ret tt else
      let* b := get_buffer in
      let remaining := b_end b - b_cursor b in
      let writable := if remaining <? count then remaining else count in
      let* bs := src in_bytes writable in
      let* base := get (wr (b_base b) (b_cursor b) bs) in
      set_buffer (mkBuffer base (b_end b) (b_cursor b + writable) (b_wrap b));;
      if count - writable =? 0 then ret tt else
      wrap_or_eof (count - writable);;
      write_loop fuel src (in_bytes + writable) (count - writable)
  end.

#[global] Arguments read_loop : simpl never.
#[global] Arguments write_loop : simpl never.

(** Into an object, and into a local array of [cap] bytes. *)
Definition lwmsg_buffer_read (out count : Z) : prog () :=
  read_loop buffer_fuel (fun o bs => update_heap (fun h => store h (out + o) bs)) [] 0 count;; ret tt.
Definition lwmsg_buffer_read_local (cap count : Z) : prog mem :=
  read_loop buffer_fuel (fun o bs => if o + zlen bs <=? cap then ret tt else fault) [] 0 count.

(** From an object, and from a local array. *)
Definition lwmsg_buffer_write (in_bytes count : Z) : prog () :=
  write_loop buffer_fuel (fun o n => read_heap (fun h => load h (in_bytes + o) n)) 0 count.
Definition lwmsg_buffer_write_local (bs : mem) (count : Z) : prog () :=
  write_loop buffer_fuel (fun o n => get (rd bs o n)) 0 count.

Definition lwmsg_buffer_finish : prog () :=
  let* b := get_buffer in
  match b_wrap b with WRAP_NULL => ret tt | _ => call_wrap 0 end.

(** * Allocation *)

Definition lwmsg_context_alloc (size : Z) : prog Z :=
  let* r := read_heap (fun h => Some (lwmsg_context_default_alloc h size)) in
  match r with None => raise LWMSG_STATUS_MEMORY | Some (a, h) => update_heap (fun _ => Some h);; ret a end.

Definition lwmsg_context_free (p : Z) : prog () := update_heap (fun h => lwmsg_context_default_free h p).

Definition lwmsg_context_realloc (object old_size new_size : Z) : prog Z :=
  let* r := read_heap (fun h => lwmsg_context_default_realloc h object old_size new_size) in
  match r with None => raise LWMSG_STATUS_MEMORY | Some (a, h) => update_heap (fun _ => Some h);; ret a end.

(** A local variable with the pointer [v], at an address. *)
Definition with_local `{Host, Stack} {A} (v : Z) (k : Z -> prog A) : prog A :=
  let* a := read_heap (fun h => Some (stack_slot h)) in
  update_heap (fun h => Some (mkHeap (put_bytes (cells h) a (encode host 8 v)) (blocks h)));;
  finally (k a) (update_heap (fun h => Some (mkHeap (drop_bytes (cells h) a 8) (blocks h)))).

(** * The map of objects: [lwmsg_data_object_map_init], [_find_id], [_find_object],
    [_insert]. An allocation for the map itself succeeds when [malloc] finds a block of
    its size; these blocks are not part of the modelled memory. *)

Context (specs : list Z).

Definition get_map : prog LWMsgObjectMap := fun st => Some (st, inr (st_map st)).
Definition set_map (m : LWMsgObjectMap) : prog () := fun st => Some (mkState (st_heap st) (st_buffer st) m, inr tt).
Definition calloc (size : Z) : prog () :=
  let* r := read_heap (fun h => Some (malloc h size)) in match r with None => raise LWMSG_STATUS_MEMORY | Some _ => ret tt end.

Definition sizeof_buckets : Z := 11 * 16.
Definition sizeof_entry : Z := 56.

Definition lwmsg_data_object_map_init : prog () :=
  let* m := get_map in
  if m_init m then ret tt else
  calloc sizeof_buckets;;
  calloc sizeof_buckets;;
  set_map (mkMap (next_id m) true (entries m)).

Definition lwmsg_data_object_map_find_id (id : Z) (iter : LWMsgTypeIter) : prog Z :=
  lwmsg_data_object_map_init;;
  let* m := get_map in
  let* inner := get (lwmsg_type_enter specs iter zero_iter) in
  match List.find (fun e => e_id e =? id) (entries m) with
  | None => raise LWMSG_STATUS_NOT_FOUND
  | Some e => if e_spec e =? spec inner then ret (e_object e) else raise LWMSG_STATUS_MALFORMED
  end.

Definition lwmsg_data_object_map_find_object (object : Z) : prog Z :=
  lwmsg_data_object_map_init;;
  let* m := get_map in
  match List.find (fun e => e_object e =? object) (entries m) with
  | None => raise LWMSG_STATUS_NOT_FOUND
  | Some e => ret (e_id e)
  end.

(** The callers pass an identifier of 0, which asks for a new one. Without tables the
    insertion divides by zero. *)
Definition lwmsg_data_object_map_insert (object : Z) (iter : LWMsgTypeIter) (id : Z) : prog Z :=
  calloc sizeof_entry;;
  let* inner := get (lwmsg_type_enter specs iter zero_iter) in
  let* m := get_map in
  let* id :=
    (if negb (id =? 0) then ret id
     else
       let n := if next_id m =? 0 then 1 else next_id m in
       if next_id m =? 2 ^ 32 - 1 then raise LWMSG_STATUS_OVERFLOW
       else set_map (mkMap (n + 1) (m_init m) (entries m));; ret n) in
  let* m := get_map in
  if m_init m then set_map (mkMap (next_id m) true (mkEntry id object (spec inner) :: entries m));; ret id else fault.

(** Every entry is freed with the tables. *)
Definition lwmsg_data_object_map_destroy : prog () := let* m := get_map in set_map (mkMap (next_id m) false []).

End Buffers.

(** * What is read off objects ([data-graph.c]) *)

(** The classes of custom types and the functions that verify values, by their
    addresses: code of the users of the library. *)
Record LWMsgTypeClass := mkClass {
  is_pointer : bool;
  transmit_type : Z;
  c_marshal : option (LWMsgTypeAttrs -> Z -> Z -> Z -> prog ());
  c_unmarshal : option (LWMsgTypeAttrs -> Z -> Z -> Z -> prog ());
  destroy_presented : option (LWMsgTypeAttrs -> Z -> Z -> prog ());
  destroy_transmitted : option (LWMsgTypeAttrs -> Z -> Z -> prog ()) }.

Class User := mkUser { typeclass : Z -> option LWMsgTypeClass; verify_function : Z -> option (bool -> Z -> Z -> prog ()) }.

(** An array without a fixed length is a flexible member of its structure. *)
Definition is_flexible (m : LWMsgTypeIter) : bool :=
  match kind m, info m with
  | LWMSG_KIND_ARRAY, InfoIndirect (TermStatic _) => false
  | LWMSG_KIND_ARRAY, _ => true
  | _, _ => false
  end.

Section Graph.
Context `{Host} `{Stack} `{User} (specs : list Z).

(** A conversion from an object to a local integer of [n] bytes. *)
Definition convert_object (object in_size n : Z) (signage : LWMsgSignage) : prog Z :=
  let* bs := read_heap (fun h => load h object in_size) in
  let* r := get (lwmsg_convert_integer bs in_size host (zeros n) n host signage) in
  match r with
  | (LWMSG_STATUS_SUCCESS, out) => ret (decode host out)
  | (s, _) => raise s
  end.

Definition lwmsg_data_extract_discrim_tag (iter : LWMsgTypeIter) (dominating_struct : Z) : prog Z :=
  match info iter with
  | InfoCompound o s => convert_object (dominating_struct + o) s 4 LWMSG_UNSIGNED
  | _ => fault
  end.

Definition lwmsg_data_extract_length (iter : LWMsgTypeIter) (dominating_struct : Z) : prog Z :=
  match info iter with
  | InfoIndirect (TermMember o s) => convert_object (dominating_struct + o) s 8 LWMSG_SIGNED
  | _ => fault
  end.

(** The iterators that [lwmsg_type_enter] and then [lwmsg_type_next] give, while valid:
    each gives at least a word of the specifications. *)
Fixpoint members_from (fuel : nat) (iter : LWMsgTypeIter) : option (list LWMsgTypeIter) :=
  match fuel with
  | O => None
  | S fuel =>
      if lwmsg_type_valid iter then
        n ← lwmsg_type_next specs iter; r ← members_from fuel n; Some (iter :: r)
      else Some []
  end.
Definition members (iter : LWMsgTypeIter) : option (list LWMsgTypeIter) :=
  i ← lwmsg_type_enter specs iter zero_iter; members_from (S (S (length specs))) i.

(** The first arm with the tag; its iterator is the result. *)
Definition lwmsg_data_extract_active_arm (iter : LWMsgTypeIter) (dominating_struct : Z) : prog LWMsgTypeIter :=
  let* t := lwmsg_data_extract_discrim_tag iter dominating_struct in
  let* arms := get (members iter) in
  match List.find (fun a => t =? tag a) arms with
  | Some a => ret a
  | None => raise LWMSG_STATUS_MALFORMED
  end.

(** Are the bytes of an object all 0? The loop stops at the first that is not. *)
Fixpoint is_zero_loop (n : nat) (object : Z) (h : heap) : option bool :=
  match n with
  | O => Some true
  | S n => b ← cells h !! object; if b =? 0 then is_zero_loop n (object + 1) h else Some false
  end.
Definition lwmsg_object_is_zero (iter : LWMsgTypeIter) (object : Z) (h : heap) : option bool := is_zero_loop (Z.to_nat (size iter)) object h.

Definition size_of_heap (h : heap) : nat := base.size (cells h).

(** The number of elements before the zero element. The elements before it are in
    memory, which bounds the number of turns. *)
Fixpoint count_loop (fuel : nat) (iter : LWMsgTypeIter) (element count : Z) (h : heap) : option Z :=
  match fuel with
  | O => None
  | S fuel =>
      z ← lwmsg_object_is_zero iter element h;
      if (z : bool) then Some count else count_loop fuel iter (element + size iter) (count + 1) h
  end.
Definition count_elements (iter : LWMsgTypeIter) (object : Z) (h : heap) : option Z := count_loop (S (size_of_heap h)) iter object 0 h.

(** The count and the size of the elements. *)
Definition lwmsg_data_calculate_indirect_metrics (iter : LWMsgTypeIter) (object : Z) : prog (Z * Z) :=
  let* inner := get (lwmsg_type_enter specs iter zero_iter) in
  let* count :=
    match info iter with
    | InfoIndirect (TermStatic n) => ret n
    | InfoIndirect (TermMember _ _) => lwmsg_data_extract_length iter (dom_object iter)
    | InfoIndirect TermZero => read_heap (count_elements inner object)
    | _ => fault
    end in
  ret (count, size inner).

Definition lwmsg_data_verify_range (iter : LWMsgTypeIter) (object object_size : Z) : prog () :=
  match info iter with
  | InfoInteger _ sign =>
      let* value := convert_object object object_size 8 sign in
      if (value <? range_low (attrs iter)) || (range_high (attrs iter) <? value) then raise LWMSG_STATUS_MALFORMED else ret tt
  | _ => fault
  end.

(** [None] for what is no variant. *)
Definition variant (v : LWMsgTypeIter) : option (bool * Z) := match info v with InfoVariant m => Some (m, tag v) | _ => None end.

(** The bits of the value that masks of the enumeration have, and the rest. *)
Definition lwmsg_data_decode_enum_value (iter : LWMsgTypeIter) (value : Z) : prog (Z * Z) :=
  let* vars := get (members iter ≫= mapM variant) in
  let mask := foldl (fun (m : Z) (v : bool * Z) => if v.1 then Z.lor m (Z.land v.2 value) else m) 0 vars in
  let res := Z.ldiff value mask in
  let values := filter (fun v : bool * Z => v.1 = false) vars in
  if existsb (fun v : bool * Z => res =? v.2) values then ret (mask, res)
  else if (res =? 0) && (match values with [] => true | _ => false end) then ret (mask, res)
  else raise LWMSG_STATUS_MALFORMED.

(** * Visiting and freeing object graphs

    [func] visits an object and threads a value, the head of the list of aliasable
    objects. *)

Definition lwmsg_is_zero (object size : Z) (h : heap) : option bool := is_zero_loop (Z.to_nat size) object h.

(** The elements up to and with the zero element. *)
Fixpoint visit_count_loop (fuel : nat) (size element count : Z) (h : heap) : option Z :=
  match fuel with
  | O => None
  | S fuel =>
      z ← lwmsg_is_zero element size h;
      if (z : bool) then Some count else visit_count_loop fuel size (element + size) (count + 1) h
  end.

(** A loop over the elements that threads a value. *)
Fixpoint fold_pos {B} (p : positive) (i : Z) (body : Z -> B -> prog B) (x : B) : prog B :=
  match p with
  | xH => body i x
  | xO q => let* x := fold_pos q i body x in fold_pos q (i + Z.pos q) body x
  | xI q => let* x := body i x in let* x := fold_pos q (i + 1) body x in fold_pos q (i + 1 + Z.pos q) body x
  end.
Definition fold_loop {B} (count : Z) (body : Z -> B -> prog B) (x : B) : prog B := match count with Z.pos p => fold_pos p 0 body x | _ => ret x end.

Definition lwmsg_data_visit_graph_indirect (iter : LWMsgTypeIter) (object : Z) (func : LWMsgTypeIter -> Z -> Z -> prog Z) (x : Z) : prog Z :=
  let* inner := get (lwmsg_type_enter specs iter zero_iter) in
  let* count :=
    match info iter with
    | InfoIndirect (TermStatic n) => ret n
    | InfoIndirect (TermMember _ _) => lwmsg_data_extract_length iter (dom_object iter)
    | InfoIndirect TermZero => read_heap (fun h => visit_count_loop (S (size_of_heap h)) (size inner) object 1 h)
    | _ => fault
    end in
  fold_loop count (fun i x => func inner (object + i * size inner) x) x.

Fixpoint visit_members (ms : list LWMsgTypeIter) (object : Z) (func : LWMsgTypeIter -> Z -> Z -> prog Z) (x : Z) : prog Z :=
  match ms with
  | [] => ret x
  | m :: ms => let* x := func (set_dom object m) (object + offset m) x in visit_members ms object func x
  end.

Definition lwmsg_data_visit_graph_children (iter : LWMsgTypeIter) (object : Z) (func : LWMsgTypeIter -> Z -> Z -> prog Z) (x : Z) : prog Z :=
  match kind iter with
  | LWMSG_KIND_STRUCT => let* ms := get (members iter) in visit_members ms object func x
  | LWMSG_KIND_UNION => let* arm := lwmsg_data_extract_active_arm iter (dom_object iter) in func arm object x
  | LWMSG_KIND_POINTER =>
      let* p := read_heap (fun h => load_ptr h object) in
      if p =? 0 then ret x else lwmsg_data_visit_graph_indirect iter p func x
  | LWMSG_KIND_ARRAY => lwmsg_data_visit_graph_indirect iter object func x
  | _ => ret x
  end.

(** [detect_alias]: the list goes through the first bytes of its objects. *)
Fixpoint detect_alias (fuel : nat) (alias pointer : Z) (h : heap) : option bool :=
  match fuel with
  | O => None
  | S fuel =>
      if alias =? 0 then Some false
      else if alias =? pointer then Some true
      else next ← load_ptr h alias; detect_alias fuel next pointer h
  end.
Definition detect_cycle (path : list Z) (pointer : Z) : bool := existsb (fun p => p =? pointer) path.

(** [fuel] bounds the nesting of the visits. *)
Fixpoint lwmsg_data_free_graph_visit (fuel : nat) (path : list Z) (iter : LWMsgTypeIter) (object alias_list : Z) : prog Z :=
  match fuel with
  | O => fault
  | S fuel =>
      match kind iter with
      | LWMSG_KIND_CUSTOM =>
          match info iter with
          | InfoCustom c data =>
              let* cls := get (typeclass c) in
              match destroy_presented cls with
              | Some f => f (attrs iter) object data;; ret alias_list
              | None => ret alias_list
              end
          | _ => fault
          end
      | LWMSG_KIND_POINTER =>
          let* pointer := read_heap (fun h => load_ptr h object) in
          if pointer =? 0 then ret alias_list
          else if has_flag LWMSG_TYPE_FLAG_ALIASABLE iter then
            let* seen := read_heap (fun h => if detect_cycle path pointer then Some true else detect_alias (S (size_of_heap h)) alias_list pointer h) in
            if (seen : bool) then ret alias_list
            else
              let* alias_list := lwmsg_data_visit_graph_children iter object (lwmsg_data_free_graph_visit fuel (pointer :: path)) alias_list in
              update_heap (fun h => store_ptr h pointer alias_list);;
              ret pointer
          else
            let* alias_list := lwmsg_data_visit_graph_children iter object (lwmsg_data_free_graph_visit fuel path) alias_list in
            lwmsg_context_free pointer;;
            ret alias_list
      | _ => lwmsg_data_visit_graph_children iter object (lwmsg_data_free_graph_visit fuel path) alias_list
      end
  end.

(** Free the aliasable objects that were found. *)
Fixpoint free_aliases (fuel : nat) (alias : Z) : prog () :=
  match fuel with
  | O => fault
  | S fuel =>
      if alias =? 0 then ret tt
      else
        let* next := read_heap (fun h => load_ptr h alias) in
        lwmsg_context_free alias;;
        free_aliases fuel next
  end.

Definition lwmsg_data_free_graph_internal (fuel : nat) (iter : LWMsgTypeIter) (object : Z) : prog () :=
  let* alias_list := lwmsg_data_free_graph_visit fuel [] iter object 0 in
  let* n := read_heap (fun h => Some (size_of_heap h)) in
  free_aliases (S n) alias_list.

(** [lwmsg_data_free_graph] and [lwmsg_data_destroy_graph]. *)
Definition class_is_pointer (c : Z) : bool := match typeclass c with Some cls => is_pointer cls | None => false end.

Definition lwmsg_data_free_graph (fuel : nat) (type root : Z) : prog () :=
  let* iter := get (lwmsg_type_iterate_promoted specs class_is_pointer type zero_iter) in
  with_local root (fun object => lwmsg_data_free_graph_internal fuel iter object).

Definition lwmsg_data_destroy_graph (fuel : nat) (type root : Z) : prog () :=
  let* iter := get (lwmsg_type_iterate specs type zero_iter) in
  lwmsg_data_free_graph_internal fuel iter root.

End Graph.
