(* ===== verification/LwmsgMarshal.v ===== *)
(** The marshaller ([data-marshal.c]) and the unmarshaller ([data-unmarshal.c]) of
    [lwmsg]. [byte_order] is that of the data context; [fuel] bounds the nesting of
    calls. *)

From stdpp Require Import gmap.
From S2P Require Import Prelude Lwmsg LwmsgType LwmsgData.

Definition MAX_INTEGER_SIZE : Z := 16.

(** An element that is one byte in memory and in the stream is copied directly. *)
Definition direct_copy (inner : LWMsgTypeIter) : bool :=
  match kind inner, info inner with
  | LWMSG_KIND_INTEGER, InfoInteger w _ | LWMSG_KIND_ENUM, InfoInteger w _ => (w =? 1) && (size inner =? 1)
  | _, _ => false
  end.

Section Marshal.
Context `{Host} `{Malloc} `{Stack} `{User} (specs : list Z) (byte_order : endian).

(** A conversion with its status raised. *)
Definition convert (bs : mem) (in_size : Z) (in_order : endian) (out_size : Z) (out_order : endian) (sign : LWMsgSignage) : prog mem :=
  let* r := get (lwmsg_convert_integer bs in_size in_order (zeros out_size) out_size out_order sign) in
  match r with (LWMSG_STATUS_SUCCESS, out) => ret out | (s, _) => raise s end.

(** * Marshalling *)

Definition lwmsg_data_marshal_indirect_prologue (dominating_object : Z) (iter : LWMsgTypeIter) (object : Z) : prog (LWMsgTypeIter * Z) :=
  let* inner_iter := get (lwmsg_type_enter specs iter zero_iter) in
  match info iter with
  | InfoIndirect (TermStatic n) => ret (inner_iter, n)
  | InfoIndirect (TermMember _ _) => let* count := lwmsg_data_extract_length iter dominating_object in ret (inner_iter, count)
  | InfoIndirect TermZero =>
      if object =? 0 then
        if has_flag LWMSG_TYPE_FLAG_NOT_NULL iter then raise LWMSG_STATUS_MALFORMED else ret (inner_iter, 0)
      else
        let* count := read_heap (count_elements inner_iter object) in
        let* implicit_length := convert (encode host 8 count) 8 host 4 byte_order LWMSG_UNSIGNED in
        lwmsg_buffer_write_local implicit_length 4;;
        ret (inner_iter, count)
  | _ => fault
  end.

Definition lwmsg_data_marshal_indirect (marshal_internal : Z -> LWMsgTypeIter -> Z -> prog ()) (dominating_object : Z) (iter : LWMsgTypeIter) (object : Z) : prog () :=
  let* (inner_iter, count) := lwmsg_data_marshal_indirect_prologue dominating_object iter object in
  if has_flag LWMSG_TYPE_FLAG_NOT_NULL iter && (object =? 0) && negb (count =? 0) then raise LWMSG_STATUS_MALFORMED
  else if direct_copy inner_iter then lwmsg_buffer_write object count
  else for_loop count (fun i => marshal_internal dominating_object inner_iter (object + i * size inner_iter)).

Definition lwmsg_data_marshal_integer (iter : LWMsgTypeIter) (object : Z) : prog () :=
  match info iter with
  | InfoInteger width sign =>
      (if has_flag LWMSG_TYPE_FLAG_RANGE iter then lwmsg_data_verify_range iter object (size iter) else ret tt);;
      let* in_ := read_heap (fun h => load h object (size iter)) in
      if MAX_INTEGER_SIZE <? width then fault else
      let* out := convert in_ (size iter) host width byte_order sign in
      lwmsg_buffer_write_local out width
  | _ => fault
  end.

Definition lwmsg_data_marshal_enum (iter : LWMsgTypeIter) (object : Z) : prog () :=
  match info iter with
  | InfoInteger width sign =>
      let* value := convert_object object (size iter) 8 sign in
      lwmsg_data_decode_enum_value specs iter value;;
      (if has_flag LWMSG_TYPE_FLAG_RANGE iter then lwmsg_data_verify_range iter object (size iter) else ret tt);;
      let* in_ := read_heap (fun h => load h object (size iter)) in
      if MAX_INTEGER_SIZE <? width then fault else
      let* out := convert in_ (size iter) host width byte_order sign in
      lwmsg_buffer_write_local out width
  | _ => fault
  end.

Definition lwmsg_data_marshal_custom (marshal_internal : Z -> LWMsgTypeIter -> Z -> prog ()) (dominating_object : Z) (iter : LWMsgTypeIter) (object : Z) : prog () :=
  match info iter with
  | InfoCustom c data =>
      let* cls := get (typeclass c) in
      let* transmit_iter := get (lwmsg_type_iterate specs (transmit_type cls) zero_iter) in
      match c_marshal cls with
      | Some f =>
          let* transmit_object := lwmsg_context_alloc (size transmit_iter) in
          finally (f (attrs iter) object transmit_object data;; marshal_internal 0 transmit_iter transmit_object)
            (match destroy_transmitted cls with Some g => try (g (attrs transmit_iter) transmit_object data);; ret tt | None => ret tt end;;
             lwmsg_context_free transmit_object)
      | None => marshal_internal dominating_object transmit_iter object
      end
  | _ => fault
  end.

(** The members of a structure dominate with the structure itself. *)
Fixpoint marshal_members (marshal_internal : Z -> LWMsgTypeIter -> Z -> prog ()) (ms : list LWMsgTypeIter) (object : Z) : prog () :=
  match ms with
  | [] => ret tt
  | m :: ms => marshal_internal object m (object + offset m);; marshal_members marshal_internal ms object
  end.
Definition lwmsg_data_marshal_struct (marshal_internal : Z -> LWMsgTypeIter -> Z -> prog ()) (iter : LWMsgTypeIter) (object : Z) : prog () :=
  let* ms := get (members specs iter) in marshal_members marshal_internal ms object.

Definition lwmsg_data_marshal_union (marshal_internal : Z -> LWMsgTypeIter -> Z -> prog ()) (dominating_object : Z) (iter : LWMsgTypeIter) (object : Z) : prog () :=
  let* arm := lwmsg_data_extract_active_arm specs iter dominating_object in
  marshal_internal dominating_object arm object.

Definition lwmsg_data_marshal_aliasable_pointer (marshal_internal : Z -> LWMsgTypeIter -> Z -> prog ()) (dominating_object : Z) (iter : LWMsgTypeIter) (object : Z) : prog () :=
  let* p := read_heap (fun h => load_ptr h object) in
  let* (id, write_pointee) :=
    (if negb (p =? 0) then
       let* r := try (lwmsg_data_object_map_find_object p) in
       match r with
       | inr id => ret (id, false)
       | inl LWMSG_STATUS_NOT_FOUND => let* id := lwmsg_data_object_map_insert specs p iter 0 in ret (id, true)
       | inl s => raise s
       end
     else if has_flag LWMSG_TYPE_FLAG_NOT_NULL iter then raise LWMSG_STATUS_MALFORMED
     else ret (0, false)) in
  let* id_rep := convert (encode host 4 id) 4 host 4 byte_order LWMSG_UNSIGNED in
  lwmsg_buffer_write_local id_rep 4;;
  if (write_pointee : bool) then lwmsg_data_marshal_indirect marshal_internal dominating_object iter p else ret tt.

Definition lwmsg_data_marshal_unaliasable_pointer (marshal_internal : Z -> LWMsgTypeIter -> Z -> prog ()) (dominating_object : Z) (iter : LWMsgTypeIter) (object : Z) : prog () :=
  let* p := read_heap (fun h => load_ptr h object) in
  let ptr_flag := if p =? 0 then 0x00 else 0xFF in
  let not_null := has_flag LWMSG_TYPE_FLAG_NOT_NULL iter in
  (if not_null then ret tt else lwmsg_buffer_write_local [ptr_flag] 1);;
  if negb (ptr_flag =? 0) || not_null then lwmsg_data_marshal_indirect marshal_internal dominating_object iter p else ret tt.

Definition lwmsg_data_marshal_pointer (marshal_internal : Z -> LWMsgTypeIter -> Z -> prog ()) (dominating_object : Z) (iter : LWMsgTypeIter) (object : Z) : prog () :=
  if has_flag LWMSG_TYPE_FLAG_ALIASABLE iter
  then lwmsg_data_marshal_aliasable_pointer marshal_internal dominating_object iter object
  else lwmsg_data_marshal_unaliasable_pointer marshal_internal dominating_object iter object.

(** [iter->verify], where there is one. *)
Definition run_verify (iter : LWMsgTypeIter) (unmarshalling : bool) (object : Z) : prog () :=
  if verify iter =? 0 then ret tt
  else let* f := get (verify_function (verify iter)) in f unmarshalling object (verify_data iter).

Fixpoint lwmsg_data_marshal_internal (fuel : nat) (dominating_object : Z) (iter : LWMsgTypeIter) (object : Z) : prog () :=
  match fuel with
  | O => fault
  | S fuel =>
      let rec := lwmsg_data_marshal_internal fuel in
      run_verify iter false object;;
      match kind iter with
      | LWMSG_KIND_VOID => ret tt
      | LWMSG_KIND_INTEGER => lwmsg_data_marshal_integer iter object
      | LWMSG_KIND_ENUM => lwmsg_data_marshal_enum iter object
      | LWMSG_KIND_CUSTOM => lwmsg_data_marshal_custom rec dominating_object iter object
      | LWMSG_KIND_STRUCT => lwmsg_data_marshal_struct rec iter object
      | LWMSG_KIND_UNION => lwmsg_data_marshal_union rec dominating_object iter object
      | LWMSG_KIND_POINTER => lwmsg_data_marshal_pointer rec dominating_object iter object
      | LWMSG_KIND_ARRAY => lwmsg_data_marshal_indirect rec dominating_object iter object
      | LWMSG_KIND_NONE => fault
      end
  end.

(** A new object map, and its end. *)
Definition with_map {A} (m : prog A) : prog A :=
  set_map (mkMap 0 false []);; finally m lwmsg_data_object_map_destroy.

Definition lwmsg_data_marshal (fuel : nat) (type object : Z) : prog () :=
  with_map
    (let* iter := get (lwmsg_type_iterate_promoted specs class_is_pointer type zero_iter) in
     with_local object (fun a => lwmsg_data_marshal_internal fuel 0 iter a);;
     lwmsg_buffer_finish).

(** * Into a block of the caller, and into a new one. The result has the memory, the
    status and the buffer; the length is that of what was written. *)

Definition empty_map : LWMsgObjectMap := mkMap 0 false [].

Definition lwmsg_data_marshal_flat (fuel : nat) (h : heap) (type object : Z) (buffer : mem) (length : Z) : option (heap * LWMsgStatus * mem) :=
  match lwmsg_data_marshal fuel type object (mkState h (mkBuffer buffer length 0 WRAP_NULL) empty_map) with
  | None => None
  | Some (st, r) => Some (st_heap st, match r with inl s => s | inr _ => LWMSG_STATUS_SUCCESS end, b_base (st_buffer st))
  end.

Definition lwmsg_data_marshal_flat_alloc (fuel : nat) (h : heap) (type object : Z) : option (heap * LWMsgStatus * mem) :=
  match lwmsg_data_marshal fuel type object (mkState h (mkBuffer [] 0 0 WRAP_MARSHAL_ALLOC) empty_map) with
  | None => None
  | Some (st, inl s) => Some (st_heap st, s, [])
  | Some (st, inr _) => Some (st_heap st, LWMSG_STATUS_SUCCESS, take (Z.to_nat (b_cursor (st_buffer st))) (b_base (st_buffer st)))
  end.

End Marshal.

(** * Unmarshalling. [free_fuel] bounds the nesting of the release of what was made
    when a call fails. *)

Section Unmarshal.
Context `{Host} `{Malloc} `{Stack} `{User} (specs : list Z) (byte_order : endian) (free_fuel : nat).

Definition free_graph_internal (iter : LWMsgTypeIter) (object : Z) : prog () := lwmsg_data_free_graph_internal specs free_fuel iter object.

(** A conversion into an object. *)
Definition convert_into (bs : mem) (in_size : Z) (object out_size : Z) (sign : LWMsgSignage) : prog () :=
  let* old := read_heap (fun h => load h object out_size) in
  let* (s, new) := get (lwmsg_convert_integer bs in_size byte_order old out_size host sign) in
  update_heap (fun h => store h object new);;
  match s with LWMSG_STATUS_SUCCESS => ret tt | _ => raise s end.

Definition lwmsg_data_unmarshal_integer (iter : LWMsgTypeIter) (object : Z) : prog () :=
  match info iter with
  | InfoInteger width sign =>
      let* temp := lwmsg_buffer_read_local MAX_INTEGER_SIZE width in
      convert_into temp width object (size iter) sign;;
      if has_flag LWMSG_TYPE_FLAG_RANGE iter then lwmsg_data_verify_range iter object (size iter) else ret tt
  | _ => fault
  end.

Definition lwmsg_data_unmarshal_enum (iter : LWMsgTypeIter) (object : Z) : prog () :=
  match info iter with
  | InfoInteger width sign =>
      let* temp := lwmsg_buffer_read_local MAX_INTEGER_SIZE width in
      let* value := convert temp width byte_order 8 host sign in
      lwmsg_data_decode_enum_value specs iter (decode host value);;
      convert_into temp width object (size iter) sign;;
      if has_flag LWMSG_TYPE_FLAG_RANGE iter then lwmsg_data_verify_range iter object (size iter) else ret tt
  | _ => fault
  end.

Definition lwmsg_data_unmarshal_custom (unmarshal_internal : Z -> LWMsgTypeIter -> Z -> prog ()) (dominating_object : Z) (iter : LWMsgTypeIter) (object : Z) : prog () :=
  match info iter with
  | InfoCustom c data =>
      let* cls := get (typeclass c) in
      let* transmit_iter := get (lwmsg_type_iterate specs (transmit_type cls) zero_iter) in
      match c_unmarshal cls with
      | Some f =>
          let* transmit_object := lwmsg_context_alloc (size transmit_iter) in
          finally (unmarshal_internal 0 transmit_iter transmit_object;; f (attrs iter) transmit_object object data)
            (try (free_graph_internal transmit_iter transmit_object);; lwmsg_context_free transmit_object)
      | None => unmarshal_internal dominating_object transmit_iter object
      end
  | _ => fault
  end.

(** The length of a pointer or array. *)
Definition lwmsg_data_unmarshal_indirect_prologue (dominating_object : Z) (iter : LWMsgTypeIter) : prog Z :=
  match info iter with
  | InfoIndirect (TermStatic n) => ret n
  | InfoIndirect (TermMember _ _) => lwmsg_data_extract_length iter dominating_object
  | InfoIndirect TermZero =>
      let* temp := lwmsg_buffer_read_local 4 4 in
      let* count := convert temp 4 byte_order 8 host LWMSG_UNSIGNED in
      ret (decode host count)
  | _ => fault
  end.

Definition lwmsg_data_unmarshal_indirect (unmarshal_internal : Z -> LWMsgTypeIter -> Z -> prog ()) (dominating_object : Z) (inner : LWMsgTypeIter) (object count : Z) : prog () :=
  if direct_copy inner then lwmsg_buffer_read object (u64 (count * size inner))
  else for_loop count (fun i => unmarshal_internal dominating_object inner (object + i * size inner)).

(** The number of elements to allocate: one more for the zero element. *)
Definition full_count (iter : LWMsgTypeIter) (count : Z) : prog Z :=
  match info iter with InfoIndirect TermZero => check_status (lwmsg_add_unsigned count 1) | _ => ret count end.
(** An aliasable object has room for a pointer. *)
Definition aliasable_size (iter : LWMsgTypeIter) (size : Z) : Z := if has_flag LWMSG_TYPE_FLAG_ALIASABLE iter && (size <? 8) then 8 else size.
Definition enforce_max_alloc (iter : LWMsgTypeIter) (size : Z) : prog () :=
  if negb (max_alloc (attrs iter) =? 0) && (max_alloc (attrs iter) <? size) then raise LWMSG_STATUS_OVERFLOW else ret tt.
Definition insert_alias (iter : LWMsgTypeIter) (object : Z) : prog () :=
  if has_flag LWMSG_TYPE_FLAG_ALIASABLE iter then lwmsg_data_object_map_insert specs object iter 0;; ret tt else ret tt.

(** The members of a structure: [dom] is the dominating object in the iterator of the
    members, which a member that is a structure itself replaces by its own. The result
    is the specification of the flexible member, or null. *)
Fixpoint unmarshal_members (unmarshal_internal : Z -> LWMsgTypeIter -> Z -> prog ()) (ms : list LWMsgTypeIter) (dom object flexible : Z) : prog Z :=
  match ms with
  | [] => ret flexible
  | m :: ms =>
      if is_flexible m then unmarshal_members unmarshal_internal ms dom object (spec m)
      else
        unmarshal_internal object (set_dom dom m) (object + offset m);;
        unmarshal_members unmarshal_internal ms (if bool_decide (kind m = LWMSG_KIND_STRUCT) then object + offset m else dom) object flexible
  end.
Definition lwmsg_data_unmarshal_struct (unmarshal_internal : Z -> LWMsgTypeIter -> Z -> prog ()) (iter : LWMsgTypeIter) (object : Z) : prog Z :=
  let* ms := get (members specs iter) in unmarshal_members unmarshal_internal ms object object 0.

(** Free the members before the flexible one, and the object. *)
Fixpoint free_partial_members (ms : list LWMsgTypeIter) (object : Z) : prog () :=
  match ms with
  | [] => ret tt
  | m :: ms => if is_flexible m then ret tt else free_graph_internal m (object + offset m);; free_partial_members ms object
  end.
Definition lwmsg_data_unmarshal_free_partial_struct (iter : LWMsgTypeIter) (object : Z) : prog () :=
  let* ms := get (members specs iter) in
  free_partial_members ms object;;
  lwmsg_context_free object.

(** The size of the structure with its flexible member of [count] elements. *)
Definition flexible_size (pointer_iter flex_iter inner_iter struct_iter : LWMsgTypeIter) (count : Z) : prog Z :=
  let* n := full_count flex_iter count in
  let* s := check_status (lwmsg_multiply_unsigned n (size inner_iter)) in
  let* full := check_status (lwmsg_add_unsigned (size struct_iter) s) in
  let full := aliasable_size pointer_iter full in
  enforce_max_alloc pointer_iter full;;
  ret full.

Definition lwmsg_data_unmarshal_struct_pointee (unmarshal_internal : Z -> LWMsgTypeIter -> Z -> prog ()) (pointer_iter struct_iter : LWMsgTypeIter) : prog Z :=
  let base_size := aliasable_size pointer_iter (size struct_iter) in
  enforce_max_alloc pointer_iter base_size;;
  let* base_object := lwmsg_context_alloc base_size in
  on_error (insert_alias pointer_iter base_object) (lwmsg_data_unmarshal_free_partial_struct struct_iter base_object);;
  (* from here on the iterator has the structure as the dominating object *)
  let struct_iter := set_dom base_object struct_iter in
  let free_partial := lwmsg_data_unmarshal_free_partial_struct struct_iter base_object in
  let* flexible_member := on_error (lwmsg_data_unmarshal_struct unmarshal_internal struct_iter base_object) free_partial in
  if flexible_member =? 0 then ret base_object
  else
    let* (flex_iter, inner_iter, count, full_object) :=
      on_error
        (let* flex_iter := get (lwmsg_type_iterate specs flexible_member zero_iter) in
         let* inner_iter := get (lwmsg_type_enter specs flex_iter zero_iter) in
         let* count := lwmsg_data_unmarshal_indirect_prologue base_object flex_iter in
         let* full_size := flexible_size pointer_iter flex_iter inner_iter struct_iter count in
         let* full_object := lwmsg_context_realloc base_object (size struct_iter) full_size in
         ret (flex_iter, inner_iter, count, full_object))
        free_partial in
    (* the dominating object is the address before the reallocation; on an error the
       address of a null pointer is passed to the release *)
    on_error (lwmsg_data_unmarshal_indirect unmarshal_internal base_object inner_iter (full_object + offset flex_iter) count)
      (with_local 0 (fun a => free_graph_internal pointer_iter a));;
    ret full_object.

Definition lwmsg_data_unmarshal_pointees (unmarshal_internal : Z -> LWMsgTypeIter -> Z -> prog ()) (dominating_object : Z) (iter : LWMsgTypeIter) : prog Z :=
  let* inner := get (lwmsg_type_enter specs iter zero_iter) in
  let* count := lwmsg_data_unmarshal_indirect_prologue dominating_object iter in
  if bool_decide (kind inner = LWMSG_KIND_STRUCT) && (count =? 1) then lwmsg_data_unmarshal_struct_pointee unmarshal_internal iter inner
  else
    let* n := full_count iter count in
    let* referent_size := check_status (lwmsg_multiply_unsigned n (size inner)) in
    let referent_size := aliasable_size iter referent_size in
    enforce_max_alloc iter referent_size;;
    let* object := lwmsg_context_alloc referent_size in
    on_error
      (insert_alias iter object;;
       lwmsg_data_unmarshal_indirect unmarshal_internal dominating_object inner object count)
      (with_local object (fun a => free_graph_internal iter a));;
    ret object.

Definition lwmsg_data_unmarshal_aliasable_pointer (unmarshal_internal : Z -> LWMsgTypeIter -> Z -> prog ()) (dominating_object : Z) (iter : LWMsgTypeIter) (out : Z) : prog () :=
  let* id_rep := lwmsg_buffer_read_local 4 4 in
  let* id := convert id_rep 4 byte_order 4 host LWMSG_UNSIGNED in
  let id := decode host id in
  let* r :=
    (if negb (id =? 0) then try (lwmsg_data_object_map_find_id specs id iter)
     else if has_flag LWMSG_TYPE_FLAG_NOT_NULL iter then raise LWMSG_STATUS_MALFORMED
     else ret (inr 0)) in
  let* object :=
    match r with
    | inr object => ret object
    | inl LWMSG_STATUS_NOT_FOUND => lwmsg_data_unmarshal_pointees unmarshal_internal dominating_object iter
    | inl s => raise s
    end in
  update_heap (fun h => store_ptr h out object).

Definition lwmsg_data_unmarshal_unaliasable_pointer (unmarshal_internal : Z -> LWMsgTypeIter -> Z -> prog ()) (dominating_object : Z) (iter : LWMsgTypeIter) (out : Z) : prog () :=
  let* ptr_flag := (if has_flag LWMSG_TYPE_FLAG_NOT_NULL iter then ret [0xFF] else lwmsg_buffer_read_local 1 1) in
  if bool_decide (ptr_flag = [0]) then ret tt
  else
    let* object := on_error (lwmsg_data_unmarshal_pointees unmarshal_internal dominating_object iter) (update_heap (fun h => store_ptr h out 0)) in
    update_heap (fun h => store_ptr h out object).

Definition lwmsg_data_unmarshal_pointer (unmarshal_internal : Z -> LWMsgTypeIter -> Z -> prog ()) (dominating_object : Z) (iter : LWMsgTypeIter) (out : Z) : prog () :=
  if has_flag LWMSG_TYPE_FLAG_ALIASABLE iter
  then lwmsg_data_unmarshal_aliasable_pointer unmarshal_internal dominating_object iter out
  else lwmsg_data_unmarshal_unaliasable_pointer unmarshal_internal dominating_object iter out.

Definition lwmsg_data_unmarshal_array (unmarshal_internal : Z -> LWMsgTypeIter -> Z -> prog ()) (dominating_object : Z) (iter : LWMsgTypeIter) (object : Z) : prog () :=
  let* inner := get (lwmsg_type_enter specs iter zero_iter) in
  let* count := lwmsg_data_unmarshal_indirect_prologue dominating_object iter in
  lwmsg_data_unmarshal_indirect unmarshal_internal dominating_object inner object count.

Definition lwmsg_data_unmarshal_union (unmarshal_internal : Z -> LWMsgTypeIter -> Z -> prog ()) (dominating_object : Z) (iter : LWMsgTypeIter) (object : Z) : prog () :=
  let* arm := lwmsg_data_extract_active_arm specs iter dominating_object in
  unmarshal_internal dominating_object arm object.

Fixpoint lwmsg_data_unmarshal_internal (fuel : nat) (dominating_object : Z) (iter : LWMsgTypeIter) (object : Z) : prog () :=
  match fuel with
  | O => fault
  | S fuel =>
      let rec := lwmsg_data_unmarshal_internal fuel in
      match kind iter with
      | LWMSG_KIND_VOID => ret tt
      | LWMSG_KIND_INTEGER => lwmsg_data_unmarshal_integer iter object
      | LWMSG_KIND_ENUM => lwmsg_data_unmarshal_enum iter object
      | LWMSG_KIND_CUSTOM => lwmsg_data_unmarshal_custom rec dominating_object iter object
      | LWMSG_KIND_STRUCT => lwmsg_data_unmarshal_struct rec iter object;; ret tt
      | LWMSG_KIND_UNION => lwmsg_data_unmarshal_union rec dominating_object iter object
      | LWMSG_KIND_POINTER => lwmsg_data_unmarshal_pointer rec dominating_object iter object
      | LWMSG_KIND_ARRAY => lwmsg_data_unmarshal_array rec dominating_object iter object
      | LWMSG_KIND_NONE => raise LWMSG_STATUS_UNIMPLEMENTED
      end;;
      run_verify iter true object
  end.

(** [out] is the address of the pointer that is set. *)
Definition lwmsg_data_unmarshal (fuel : nat) (type out : Z) : prog () :=
  with_map
    (let* iter := get (lwmsg_type_iterate_promoted specs class_is_pointer type zero_iter) in
     lwmsg_data_unmarshal_internal fuel 0 iter out;;
     lwmsg_buffer_finish).

Definition lwmsg_data_unmarshal_into (fuel : nat) (type object object_size : Z) : prog () :=
  with_map
    (let* iter := get (lwmsg_type_iterate specs type zero_iter) in
     if object_size <? size iter then raise LWMSG_STATUS_BUFFER_TOO_SMALL
     else lwmsg_data_unmarshal_internal fuel 0 iter object;; lwmsg_buffer_finish).

Definition lwmsg_data_unmarshal_flat (fuel : nat) (h : heap) (type : Z) (buffer : mem) (length out : Z) : option (heap * LWMsgStatus) :=
  match lwmsg_data_unmarshal fuel type out (mkState h (mkBuffer buffer length 0 WRAP_NULL) empty_map) with
  | None => None
  | Some (st, r) => Some (st_heap st, match r with inl s => s | inr _ => LWMSG_STATUS_SUCCESS end)
  end.

End Unmarshal.
