(* ===== verification/LwmsgHeap.v ===== *)
(** Memory as a map of bytes: regions of bytes, what loads, stores and allocations do
    to them, and the steps of programs on it. *)

From stdpp Require Import gmap.
From S2P Require Import Prelude Lwmsg LwmsgType LwmsgData.

(** * Regions *)

Definition region (a : Z) (bs : mem) : gmap Z Z := put_bytes ∅ a bs.

Lemma put_bytes_lookup c bs : forall a k, put_bytes c a bs !! k = if decide (a <= k < a + zlen bs) then bs !! Z.to_nat (k - a) else c !! k.
Proof.
  induction bs as [|b bs IH]; intros a k; cbn [put_bytes].
  - rewrite zlen_nil. by rewrite decide_False by lia.
  - rewrite zlen_cons, lookup_insert. case_decide as Ha.
    + subst k. rewrite decide_True by zl. by rewrite Z.sub_diag.
    + rewrite IH. repeat case_decide; try zl; [|done]. replace (Z.to_nat (k - a)) with (S (Z.to_nat (k - (a + 1)))) by lia. done.
Qed.

Lemma region_lookup a bs k : region a bs !! k = if decide (a <= k < a + zlen bs) then bs !! Z.to_nat (k - a) else None.
Proof. unfold region. by rewrite put_bytes_lookup, lookup_empty. Qed.

Lemma region_lookup_Some a bs k b : region a bs !! k = Some b <-> a <= k /\ bs !! Z.to_nat (k - a) = Some b.
Proof.
  rewrite region_lookup. case_decide as Hd; [intuition lia|]. split; [done|]. intros (Ha & Hb). apply lookup_lt_Some in Hb. unfold zlen in Hd. lia.
Qed.

Lemma region_lookup_None a bs k : region a bs !! k = None <-> ~ (a <= k < a + zlen bs).
Proof.
  rewrite region_lookup. case_decide as Hd; [|done]. split; [|done]. intros He. apply lookup_ge_None in He. unfold zlen in Hd. lia.
Qed.

Lemma put_bytes_region c a bs : put_bytes c a bs = region a bs ∪ c.
Proof.
  apply map_eq. intros k. rewrite put_bytes_lookup. case_decide as Hd.
  - destruct (bs !! Z.to_nat (k - a)) as [b|] eqn:Hb; [|apply lookup_ge_None in Hb; unfold zlen in Hd; lia]. symmetry. apply lookup_union_Some_l, region_lookup_Some. split; [lia|done].
  - symmetry. by apply lookup_union_r, region_lookup_None.
Qed.

Lemma region_nil a : region a [] = ∅.
Proof. done. Qed.

Lemma region_app a b1 b2 : region a (b1 ++ b2) = region a b1 ∪ region (a + zlen b1) b2.
Proof.
  apply map_eq. intros k. destruct (decide (a <= k < a + zlen b1)) as [Hd|Hd].
  - destruct (region a b1 !! k) as [b|] eqn:Hb; [|apply region_lookup_None in Hb; lia]. rewrite (lookup_union_Some_l _ _ _ _ Hb). apply region_lookup_Some in Hb as (? & Hb).
    apply region_lookup_Some. split; [done|]. by apply lookup_app_l_Some.
  - rewrite lookup_union_r by (by apply region_lookup_None). rewrite !region_lookup, zlen_app. pose proof (zlen_nonneg b1). repeat case_decide; try lia; try done.
    rewrite lookup_app_r by (unfold zlen in *; lia). f_equal. unfold zlen in *. lia.
Qed.

Lemma region_disjoint a b1 a' b2 : a + zlen b1 <= a' \/ a' + zlen b2 <= a -> region a b1 ##ₘ region a' b2.
Proof. intros Hd. apply map_disjoint_spec. intros k x y Hx Hy. rewrite region_lookup in Hx, Hy. repeat case_decide; try done. lia. Qed.

Lemma load_bytes_region c n : forall a bs, load_bytes c a n = Some bs <-> length bs = n /\ region a bs ⊆ c.
Proof.
  induction n as [|n IH]; intros a bs; cbn [load_bytes].
  - split; [intros [= <-]; split; [done|apply map_empty_subseteq]|]. intros (Hl & _). by destruct bs.
  - split.
    + intros (b & Hb & (r & Hr & [= <-])%bind_Some)%bind_Some. apply IH in Hr as (Hl & Hr). split; [cbn; lia|]. unfold region. cbn. by apply insert_subseteq_l.
    + intros (Hl & Hs). destruct bs as [|b bs]; [done|]. unfold region in Hs. cbn in *.
      assert (Hb : c !! a = Some b) by (apply (lookup_weaken _ _ _ _ (lookup_insert_eq _ a b) Hs)). rewrite Hb. bsimpl.
      assert (Hr : load_bytes c (a + 1) n = Some bs); [|by rewrite Hr]. apply IH. split; [lia|]. etrans; [|exact Hs].
      apply insert_subseteq. change (region (a + 1) bs !! a = None). apply region_lookup_None. lia.
Qed.

Lemma load_region h a bs n : n = zlen bs -> load h a n = Some bs <-> region a bs ⊆ cells h.
Proof. intros ->. unfold load, zlen. rewrite Nat2Z.id, load_bytes_region. naive_solver. Qed.

Lemma load_sub c a b1 b2 b3 n off : off = a + zlen b1 -> n = zlen b2 -> region a (b1 ++ b2 ++ b3) ⊆ c -> load_bytes c off (Z.to_nat n) = Some b2.
Proof.
  intros -> -> Hs. apply load_bytes_region. split; [unfold zlen; lia|]. rewrite !region_app in Hs. etrans; [|exact Hs]. etrans; [|apply map_union_subseteq_r].
  - apply map_union_subseteq_l.
  - pose proof (zlen_nonneg b2). apply map_disjoint_union_r_2; apply region_disjoint; lia.
Qed.

Lemma store_region h a old bs : region a old ⊆ cells h -> zlen bs = zlen old -> store h a bs = Some (mkHeap (region a bs ∪ cells h) (blocks h)).
Proof.
  intros Hs Hl. unfold store. assert (He : load_bytes (cells h) a (length bs) = Some old) by (apply load_bytes_region; split; [unfold zlen in Hl; lia|done]).
  rewrite He. bsimpl. by rewrite put_bytes_region.
Qed.

Lemma drop_bytes_lookup c n : forall a k, drop_bytes c a n !! k = if decide (a <= k < a + Z.of_nat n) then None else c !! k.
Proof.
  induction n as [|n IH]; intros a k; cbn [drop_bytes]; [by rewrite decide_False by lia|]. rewrite lookup_delete, IH. repeat case_decide; try done; lia.
Qed.
