(* ===== verification/LwmsgWire.v ===== *)
(** The wire form of objects: a relation between the bytes of an object of a type, the
    memory its pointers own, its value and the bytes it is marshalled to.

    The relation is the specification that the marshaller and the unmarshaller are
    proved against. It covers integers, enumerations, structures, unions, arrays of
    fixed length and pointers of every termination that may not be aliased. *)

From stdpp Require Import gmap.
From S2P Require Import Prelude Lwmsg LwmsgType LwmsgOps LwmsgData LwmsgHeap.

(** * The dominating object of an iterator is carried along and changes nothing else *)

Section Dom.
Context (specs : list Z).

(** Case analysis on everything that is read; the goals left are about an iterator
    that is given with and without its dominating object. *)
Ltac dom_cases :=
  repeat match goal with
    | |- ?x = ?x => reflexivity
    | |- context [?o ≫= _] => destruct o as [?|]; bsimpl
    | |- context [match ?p with (_, _) => _ end] => destruct p
    | |- context [if ?c then _ else _] => destruct c
    end.

Lemma apply_attrs_dom d fuel : forall i p, apply_attrs specs fuel (set_dom d i) p = set_dom d <$> apply_attrs specs fuel i p.
Proof.
  induction fuel as [|fuel IH]; intros i p; [done|]. cbn [apply_attrs]. cbv zeta. change (set_next_spec p (set_dom d i)) with (set_dom d (set_next_spec p i)). generalize (set_next_spec p i). intros j.
  change (kind (set_dom d j)) with (kind j). change (attrs (set_dom d j)) with (attrs j).
  dom_cases; try done; match goal with |- _ = set_dom d <$> apply_attrs _ _ ?y ?q => exact (IH y q) end.
Qed.

Definition dom_pair (d : Z) (r : LWMsgTypeIter * Z) : LWMsgTypeIter * Z := (set_dom d r.1, r.2).
Lemma read_offset_dom d cmd i p : read_offset specs cmd (set_dom d i) p = dom_pair d <$> read_offset specs cmd i p.
Proof. unfold read_offset. by dom_cases. Qed.
Lemma read_size_dom d i p : read_size specs (set_dom d i) p = dom_pair d <$> read_size specs i p.
Proof. unfold read_size. by dom_cases. Qed.
Lemma read_inner_dom d k i p : read_inner specs k (set_dom d i) p = dom_pair d <$> read_inner specs k i p.
Proof. unfold read_inner. by dom_cases. Qed.

(** The setters commute with [set_dom]. *)
Ltac dom_push d :=
  repeat match goal with
    | |- context [set_size ?x (set_dom d ?i)] => change (set_size x (set_dom d i)) with (set_dom d (set_size x i))
    | |- context [set_kind ?x (set_dom d ?i)] => change (set_kind x (set_dom d i)) with (set_dom d (set_kind x i))
    | |- context [set_info ?x (set_dom d ?i)] => change (set_info x (set_dom d i)) with (set_dom d (set_info x i))
    | |- context [set_offset ?x (set_dom d ?i)] => change (set_offset x (set_dom d i)) with (set_dom d (set_offset x i))
    | |- context [set_tag ?x (set_dom d ?i)] => change (set_tag x (set_dom d i)) with (set_dom d (set_tag x i))
    | |- context [size (set_dom d ?i)] => change (size (set_dom d i)) with (size i)
    end.
Ltac dom_step d :=
  dom_push d;
  match goal with
  | |- ?x = ?x => reflexivity
  | |- None = set_dom _ <$> None => reflexivity
  | |- apply_attrs _ _ (set_dom d _) _ = _ => apply apply_attrs_dom
  | |- context [read_size specs (set_dom d ?i) ?p] => rewrite (read_size_dom d i p); destruct (read_size specs i p) as [[? ?]|]; bsimpl; cbn [dom_pair fst snd]
  | |- context [read_offset specs ?c (set_dom d ?i) ?p] => rewrite (read_offset_dom d c i p); destruct (read_offset specs c i p) as [[? ?]|]; bsimpl; cbn [dom_pair fst snd]
  | |- context [read_inner specs ?k (set_dom d ?i) ?p] => rewrite (read_inner_dom d k i p); destruct (read_inner specs k i p) as [[? ?]|]; bsimpl; cbn [dom_pair fst snd]
  | |- context [word specs ?p ≫= _] => destruct (word specs p) as [?|]; bsimpl
  | |- context [if ?c then _ else _] => destruct c eqn:?; bsimpl
  end.

Lemma iterate_inner_dom d fuel : forall p i, lwmsg_type_iterate_inner specs fuel p (set_dom d i) = set_dom d <$> lwmsg_type_iterate_inner specs fuel p i.
Proof.
  induction fuel as [|fuel IH]; intros p i; [done|]. cbn [lwmsg_type_iterate_inner]. cbv zeta.
  repeat (dom_step d || match goal with |- context [lwmsg_type_iterate_inner specs fuel ?p (set_dom d ?i)] => rewrite (IH p i); destruct (lwmsg_type_iterate_inner specs fuel p i) as [?|]; bsimpl end).
Qed.

Lemma type_iterate_dom d p i : lwmsg_type_iterate specs p (set_dom d i) = set_dom d <$> lwmsg_type_iterate specs p i.
Proof. unfold lwmsg_type_iterate. rewrite <-iterate_inner_dom. done. Qed.

Lemma type_next_dom d i : lwmsg_type_next specs (set_dom d i) = set_dom d <$> lwmsg_type_next specs i.
Proof. unfold lwmsg_type_next. cbn [next set_dom]. destruct (next i =? 0); [done|]. apply type_iterate_dom. Qed.

Lemma type_enter_dom d i : lwmsg_type_enter specs (set_dom d i) zero_iter =
  (if inner i =? 0 then Some (set_kind LWMSG_KIND_NONE zero_iter) else set_dom d <$> lwmsg_type_enter specs i zero_iter).
Proof. unfold lwmsg_type_enter. cbn [inner set_dom dom_object]. destruct (inner i =? 0); [done|]. by destruct (lwmsg_type_iterate specs (inner i) zero_iter). Qed.

Lemma members_from_dom d fuel : forall i, members_from specs fuel (set_dom d i) = map (set_dom d) <$> members_from specs fuel i.
Proof.
  induction fuel as [|fuel IH]; intros i; [done|]. cbn [members_from]. change (lwmsg_type_valid (set_dom d i)) with (lwmsg_type_valid i).
  destruct (lwmsg_type_valid i); [|done]. rewrite type_next_dom. destruct (lwmsg_type_next specs i) as [j|]; [|done]. bsimpl. rewrite IH. by destruct (members_from specs fuel j).
Qed.

Lemma members_dom d i : members specs (set_dom d i) = map (set_dom d) <$> members specs i.
Proof.
  unfold members. rewrite type_enter_dom. destruct (Z.eqb_spec (inner i) 0) as [Hi|Hi].
  - unfold lwmsg_type_enter. by rewrite (proj2 (Z.eqb_eq _ _) Hi).
  - destruct (lwmsg_type_enter specs i zero_iter) as [j|]; [|done]. bsimpl. apply members_from_dom.
Qed.
End Dom.

(** * Values and the memory they own *)

Unset Elimination Schemes.
Inductive val :=
  | VVoid
  | VInt (v : Z)
  | VStruct (vs : list val)
  | VUnion (v : val)
  | VNull
  | VPtr (vs : list val)
  | VArray (vs : list val).
Set Elimination Schemes.

(** A value that is not represented by zeros on any host. *)
Fixpoint nonzero (v : val) : bool :=
  match v with
  | VVoid | VNull => false
  | VInt v => negb (v =? 0)
  | VStruct vs | VArray vs => existsb nonzero vs
  | VUnion v => nonzero v
  | VPtr _ => true
  end.

Definition hempty : heap := mkHeap ∅ ∅.
Definition hunion (h1 h2 : heap) : heap := mkHeap (cells h1 ∪ cells h2) (blocks h1 ∪ blocks h2).
Definition hdisj (h1 h2 : heap) : Prop := cells h1 ##ₘ cells h2 /\ blocks h1 ##ₘ blocks h2.
Definition block (p : Z) (bs : mem) : heap := mkHeap (region p bs) {[p := zlen bs]}.

Lemma hunion_empty_r h : hunion h hempty = h.
Proof. unfold hunion. destruct h. cbn. by rewrite !map_union_empty. Qed.
Lemma hunion_empty_l h : hunion hempty h = h.
Proof. unfold hunion. destruct h. cbn. by rewrite !map_empty_union. Qed.

(** What is known of the dominating structure: the integers at offset and size. *)
Definition known := gmap (Z * Z) Z.

Section Wire.
Context `{Host} (specs : list Z) (byte_order : endian).

(** The range of an integer, as the code compares it. *)
Definition in_range (i : LWMsgTypeIter) (s : LWMsgSignage) (v : Z) : Prop :=
  has_flag LWMSG_TYPE_FLAG_RANGE i = true -> int_fits s 8 v = true /\ range_low (attrs i) <= u64 v <= range_high (attrs i).

(** The value of an enumeration: what masks leave of it is one of the values, or 0
    when there are only masks. *)
Definition enum_residual (vars : list (bool * Z)) (value : Z) : Z :=
  Z.ldiff value (foldl (fun (m : Z) (v : bool * Z) => if v.1 then Z.lor m (Z.land v.2 value) else m) 0 vars).
Definition enum_value (vars : list (bool * Z)) (value : Z) : Prop :=
  (exists v, v ∈ vars /\ v.1 = false /\ v.2 = enum_residual vars value) \/ (enum_residual vars value = 0 /\ Forall (fun v => v.1 = true) vars).

(** The number of elements. *)
Definition term_count (dom : known) (t : term) (n : Z) : Prop :=
  match t with
  | TermStatic k => k = n /\ n < 2 ^ 63
  | TermMember o s => dom !! (o, s) = Some n /\ 1 <= s <= 8 /\ 2 * n < 256 ^ s
  | TermZero => n < 2 ^ 32
  end.
Definition length_prefix (t : term) (n : Z) : mem := match t with TermZero => encode byte_order 4 n | _ => [] end.
Definition terminator (t : term) (size : Z) : mem := match t with TermZero => zeros size | _ => [] end.

(** Elements of a zero-terminated array are integers, enumerations or pointers, and not
    zero. (For a single structure the code makes no room for the terminator.) *)
Definition scalar (i : LWMsgTypeIter) : bool := match kind i with LWMSG_KIND_INTEGER | LWMSG_KIND_ENUM => true | LWMSG_KIND_POINTER => size i =? 8 | _ => false end.
Definition elements_nonzero (t : term) (size : Z) (vs : list val) : Prop := t = TermZero -> 0 < size /\ Forall (fun v => nonzero v = true) vs.

(** What a member of [n] bytes adds to what is known of its structure. *)
Definition learn (m : LWMsgTypeIter) (n : Z) (v : val) (dom : known) : known :=
  match v with VInt x => <[(offset m, n) := x mod 256 ^ n]> dom | _ => dom end.

(** [obj i dom bs h v w]: the bytes [bs] are an object of the type of the iterator [i]
    with value [v], within a structure of which [dom] is known; its pointers own [h];
    it is marshalled to [w]. *)
Inductive obj : LWMsgTypeIter -> known -> mem -> heap -> val -> mem -> Prop :=
  | obj_void i dom : kind i = LWMSG_KIND_VOID -> verify i = 0 -> obj i dom [] hempty VVoid []
  | obj_int i dom w s v : kind i = LWMSG_KIND_INTEGER -> verify i = 0 -> info i = InfoInteger w s -> 1 <= w <= 16 -> 1 <= size i ->
      int_fits s (size i) v = true -> int_fits s w v = true -> in_range i s v ->
      obj i dom (encode host (Z.to_nat (size i)) v) hempty (VInt v) (encode byte_order (Z.to_nat w) v)
  | obj_enum i dom w s v vars : kind i = LWMSG_KIND_ENUM -> verify i = 0 -> info i = InfoInteger w s -> 1 <= w <= 16 -> 1 <= size i ->
      int_fits s (size i) v = true -> int_fits s w v = true -> in_range i s v ->
      int_fits s 8 v = true -> members specs i ≫= mapM variant = Some vars -> enum_value vars (u64 v) ->
      obj i dom (encode host (Z.to_nat (size i)) v) hempty (VInt v) (encode byte_order (Z.to_nat w) v)
  | obj_struct i dom ms bs h vs w : kind i = LWMSG_KIND_STRUCT -> verify i = 0 -> members specs i = Some ms -> zlen bs = size i ->
      obj_fields [] ∅ ms bs h vs w -> obj i dom bs h (VStruct vs) w
  | obj_union i dom o s u arms arm bs pad h v w : kind i = LWMSG_KIND_UNION -> verify i = 0 -> info i = InfoCompound o s -> 1 <= s ->
      dom !! (o, s) = Some u -> u < 2 ^ 32 -> members specs i = Some arms -> List.find (fun a => u =? tag a) arms = Some arm ->
      zlen (bs ++ pad) = size i -> obj arm dom bs h v w -> obj i dom (bs ++ pad) h (VUnion v) w
  | obj_null i dom : kind i = LWMSG_KIND_POINTER -> verify i = 0 -> has_flag LWMSG_TYPE_FLAG_ALIASABLE i = false -> has_flag LWMSG_TYPE_FLAG_NOT_NULL i = false ->
      obj i dom (encode host 8 0) hempty VNull [0]
  | obj_pointer i dom t inn p n bs extra h vs w : kind i = LWMSG_KIND_POINTER -> verify i = 0 -> has_flag LWMSG_TYPE_FLAG_ALIASABLE i = false ->
      info i = InfoIndirect t -> lwmsg_type_enter specs i zero_iter = Some inn -> inner i <> 0 -> 0 < p < 2 ^ 64 -> n = Z.of_nat (length vs) -> term_count dom t n ->
      (t = TermZero -> scalar inn = true) ->
      0 <= size inn < 2 ^ 63 -> elements_nonzero t (size inn) vs -> zlen (bs ++ terminator t (size inn)) < 2 ^ 63 ->
      (max_alloc (attrs i) = 0 \/ zlen (bs ++ terminator t (size inn)) <= max_alloc (attrs i)) ->
      obj_elems inn dom bs h vs w ->
      hdisj (block p (bs ++ terminator t (size inn) ++ extra)) h ->
      obj i dom (encode host 8 p) (hunion (block p (bs ++ terminator t (size inn) ++ extra)) h) (VPtr vs)
        ((if has_flag LWMSG_TYPE_FLAG_NOT_NULL i then [] else [0xFF]) ++ length_prefix t n ++ w)
  | obj_array i dom n inn bs h vs w : kind i = LWMSG_KIND_ARRAY -> verify i = 0 -> info i = InfoIndirect (TermStatic n) ->
      lwmsg_type_enter specs i zero_iter = Some inn -> inner i <> 0 -> n = Z.of_nat (length vs) -> n < 2 ^ 63 -> 0 <= size inn -> zlen bs < 2 ^ 63 ->
      obj_elems inn dom bs h vs w -> obj i dom bs h (VArray vs) w
with obj_elems : LWMsgTypeIter -> known -> mem -> heap -> list val -> mem -> Prop :=
  | elems_nil i dom : obj_elems i dom [] hempty [] []
  | elems_cons i dom b bs h1 h2 v vs w1 w2 : obj i dom b h1 v w1 -> zlen b = size i -> obj_elems i dom bs h2 vs w2 -> hdisj h1 h2 ->
      obj_elems i dom (b ++ bs) (hunion h1 h2) (v :: vs) (w1 ++ w2)
with obj_fields : list (Z * Z) -> known -> list LWMsgTypeIter -> mem -> heap -> list val -> mem -> Prop :=
  | fields_nil used dom bs : obj_fields used dom [] bs hempty [] []
  | fields_cons used dom m ms bs b h1 h2 v vs w1 w2 : is_flexible m = false -> obj m dom b h1 v w1 -> rd bs (offset m) (zlen b) = Some b ->
      Forall (fun u => u.1 + u.2 <= offset m \/ offset m + zlen b <= u.1) used ->
      obj_fields ((offset m, zlen b) :: used) (learn m (zlen b) v dom) ms bs h2 vs w2 -> hdisj h1 h2 ->
      obj_fields used dom (m :: ms) bs (hunion h1 h2) (v :: vs) (w1 ++ w2).

Scheme obj_mut := Minimality for obj Sort Prop
  with elems_mut := Minimality for obj_elems Sort Prop
  with fields_mut := Minimality for obj_fields Sort Prop.
Combined Scheme obj_mutual from obj_mut, elems_mut, fields_mut.
End Wire.
