(* ===== verification/LwmsgMarshalOps.v ===== *)
(** The marshaller writes the wire form of objects. *)

From stdpp Require Import gmap.
From S2P Require Import Prelude Lwmsg LwmsgType LwmsgOps LwmsgData LwmsgMarshal LwmsgHeap LwmsgWire.

(** * What the code relies on of the allocator: blocks are new and within the address
    space, and there is a block while there is room; the room depends on the addresses
    and the blocks in use, and a block takes its size and a little more. *)
Class MallocLaws `{Malloc} := {
  avail : heap -> Z;
  malloc_fresh h n a : 1 <= n -> malloc h n = Some a -> 0 < a /\ a + n < 2 ^ 64 /\ (forall k, a <= k < a + n -> cells h !! k = None) /\ blocks h !! a = None;
  malloc_ok h n : 1 <= n <= avail h -> is_Some (malloc h n);
  avail_dom h h' : dom (cells h) = dom (cells h') -> blocks h = blocks h' -> avail h = avail h';
  avail_block h n a bs : 1 <= n -> malloc h n = Some a -> zlen bs = n -> avail h - n - 64 <= avail (add_block h a bs) }.

(** Memory with a local variable that holds a pointer. *)
Definition local_heap `{Host, Stack} (h : heap) (v : Z) : heap := mkHeap (put_bytes (cells h) (stack_slot h) (encode host 8 v)) (blocks h).

(** Local variables are at new addresses and take a little room. *)
Class StackLaws `{Host, MallocLaws, Stack} := {
  stack_fresh h : 0 < stack_slot h /\ forall k, stack_slot h <= k < stack_slot h + 8 -> cells h !! k = None;
  avail_stack h v : avail h - 64 <= avail (local_heap h v) }.

(** * Steps of programs *)

Lemma bind_inr {A B} (m : prog A) (k : A -> prog B) st st' x : m st = Some (st', inr x) -> bind m k st = k x st'.
Proof. unfold bind. by intros ->. Qed.
Lemma bind_inl {A B} (m : prog A) (k : A -> prog B) st st' s : m st = Some (st', inl s) -> bind m k st = Some (st', inl s).
Proof. unfold bind. by intros ->. Qed.
Lemma read_heap_Some {A} (f : heap -> option A) st x : f (st_heap st) = Some x -> read_heap f st = Some (st, inr x).
Proof. unfold read_heap. by intros ->. Qed.
Lemma get_Some {A} (o : option A) st x : o = Some x -> get o st = Some (st, inr x).
Proof. unfold get. by intros ->. Qed.

Section Ops.
Context {hostI : Host} {mallocI : Malloc} {lawsI : MallocLaws} {stackI : Stack} {userI : User} (specs : list Z) (byte_order : endian).

(** * Writing to a buffer *)

(** A buffer that grows is at most twice as long as needed. *)
Definition buffer_wf (b : LWMsgBuffer) : Prop :=
  zlen (b_base b) = b_end b /\ 0 <= b_cursor b <= b_end b /\ (b_wrap b <> WRAP_NULL -> b_end b <= 2 * b_cursor b + 256).
Definition written (b : LWMsgBuffer) : mem := take (Z.to_nat (b_cursor b)) (b_base b).

(** There is room for [n] more bytes: in the buffer, or in memory for a buffer that
    grows. *)
Definition room (h : heap) (b : LWMsgBuffer) (n : Z) : Prop :=
  match b_wrap b with
  | WRAP_NULL => b_cursor b + n <= b_end b
  | _ => 2 * (b_cursor b + n) + 512 <= avail h /\ b_cursor b + n < 2 ^ 62
  end.

(** The buffer after [w] has been written. *)
Definition appended (b b' : LWMsgBuffer) (w : mem) : Prop :=
  buffer_wf b' /\ written b' = written b ++ w /\ b_cursor b' = b_cursor b + zlen w /\ b_wrap b' = b_wrap b /\ (b_wrap b = WRAP_NULL -> b_end b' = b_end b).

Lemma appended_nil b : buffer_wf b -> appended b b [].
Proof. intros Hb. split; [done|]. rewrite app_nil_r, zlen_nil. split; [done|]. split; [lia|done]. Qed.

Lemma appended_app b b1 b2 w1 w2 : appended b b1 w1 -> appended b1 b2 w2 -> appended b b2 (w1 ++ w2).
Proof.
  intros (_ & H1 & C1 & W1 & E1) (B2 & H2 & C2 & W2 & E2). split; [done|]. rewrite H2, H1, <-app_assoc, zlen_app. split; [done|]. split; [lia|]. split; [congruence|].
  intros Hn. rewrite E2, E1; congruence.
Qed.

Lemma room_after h b b' w n : appended b b' w -> room h b (zlen w + n) -> room h b' n.
Proof. intros (_ & _ & C & W & E). unfold room. rewrite W, C. destruct (b_wrap b); [rewrite E by done; lia|lia..]. Qed.

Lemma room_less h b n m : room h b n -> 0 <= m <= n -> room h b m.
Proof. unfold room. destruct (b_wrap b); lia. Qed.

(** A program that leaves memory and the map as they are and writes [w]. *)
Definition emits (m : prog ()) (h : heap) (w : mem) : Prop :=
  forall st, st_heap st = h -> buffer_wf (st_buffer st) -> room h (st_buffer st) (zlen w) ->
    exists b', m st = Some (mkState h b' (st_map st), inr tt) /\ appended (st_buffer st) b' w.

Lemma emits_ret h : emits (ret tt) h [].
Proof. intros [h' b m] <- Hb Hr. exists b. split; [done|]. by apply appended_nil. Qed.

Lemma emits_seq m1 m2 h w1 w2 : emits m1 h w1 -> emits m2 h w2 -> emits (m1;; m2) h (w1 ++ w2).
Proof.
  intros H1 H2 st Hh Hb Hr. rewrite zlen_app in Hr. destruct (H1 st Hh Hb) as (b1 & E1 & A1); [eapply room_less; [done|zl]|].
  destruct (H2 (mkState h b1 (st_map st)) eq_refl (proj1 A1)) as (b2 & E2 & A2); [by eapply room_after|]. cbn in *. exists b2. rewrite (bind_inr _ _ _ _ _ E1), E2. split; [done|]. by eapply appended_app.
Qed.

Lemma emits_bind {A} (m : prog A) x k h w : (forall st, st_heap st = h -> m st = Some (st, inr x)) -> emits (k x) h w -> emits (bind m k) h w.
Proof. intros Hm Hk st Hh Hb Hr. rewrite (bind_inr _ _ _ _ _ (Hm st Hh)). by apply Hk. Qed.

Lemma emits_try {A} (m : prog A) x k h w1 w2 : (forall st, st_heap st = h -> buffer_wf (st_buffer st) -> room h (st_buffer st) (zlen w1) ->
    exists b', m st = Some (mkState h b' (st_map st), inr x) /\ appended (st_buffer st) b' w1) -> emits (k x) h w2 -> emits (bind m k) h (w1 ++ w2).
Proof.
  intros H1 H2 st Hh Hb Hr. rewrite zlen_app in Hr. destruct (H1 st Hh Hb) as (b1 & E1 & A1); [eapply room_less; [done|zl]|].
  destruct (H2 (mkState h b1 (st_map st)) eq_refl (proj1 A1)) as (b2 & E2 & A2); [by eapply room_after|]. cbn in *. exists b2. rewrite (bind_inr _ _ _ _ _ E1), E2. split; [done|]. by eapply appended_app.
Qed.

(** Bytes written at the cursor. *)
Lemma write_at_cursor b bs base : buffer_wf b -> wr (b_base b) (b_cursor b) bs = Some base ->
  appended b (mkBuffer base (b_end b) (b_cursor b + zlen bs) (b_wrap b)) bs.
Proof.
  intros (Hl & Hc & Hg) Hw. apply wr_Some in Hw as (p & old & q & Hb & -> & Hp & Ho). unfold appended, buffer_wf, written. cbn. rewrite Hb in Hl |- *. rewrite <-Hp. autorewrite with zlen in *.
  split; [split; [zl|]; split; [zl|]; intros Hn; specialize (Hg Hn); zl|]. split; [|done]. unfold zlen. rewrite <-Nat2Z.inj_add, !Nat2Z.id, take_app_length, app_assoc, <-length_app, take_app_length. done.
Qed.

Lemma get_buffer_eq {A} (k : LWMsgBuffer -> prog A) st : bind get_buffer k st = k (st_buffer st) st.
Proof. done. Qed.

Lemma set_buffer_eq {A} (k : () -> prog A) b st : bind (set_buffer b) k st = k tt (mkState (st_heap st) b (st_map st)).
Proof. done. Qed.

Lemma enlarge_ok h b m n : 1 <= n <= avail h -> b_end b <= n <= 2 * b_cursor b + 256 -> buffer_wf b -> b_wrap b <> WRAP_NULL ->
  exists b', enlarge n (mkState h b m) = Some (mkState h b' m, inr tt) /\ b_end b' = n /\ appended b b' [].
Proof.
  intros Hn He (Hl & Hc & _) Hw. unfold enlarge. rewrite get_buffer_eq. cbn [st_buffer]. destruct (malloc_ok h n Hn) as (a & Ha).
  rewrite (bind_inr _ _ (mkState h b m) (mkState h b m) (Some a)) by (apply read_heap_Some; cbn; by rewrite Ha). eexists. split; [reflexivity|]. split; [done|].
  assert (Ht : take (Z.to_nat (b_end b)) (b_base b) = b_base b) by (apply take_ge; unfold zlen in Hl; lia). rewrite Ht.
  unfold appended, buffer_wf, written. cbn. rewrite app_nil_r, zlen_app, zlen_zeros, zlen_nil by lia. split; [split; [lia|split; [lia|lia]]|]. split; [|split; [lia|done]].
  apply take_app_le. unfold zlen in Hl. lia.
Qed.

(** The wraps that enlarge a buffer. *)
Lemma wrap_grows h b m count : 0 < count -> buffer_wf b -> b_wrap b <> WRAP_NULL -> new_length b <= avail h -> b_cursor b = b_end b -> b_end b < 2 ^ 62 ->
  exists b', wrap_or_eof count (mkState h b m) = Some (mkState h b' m, inr tt) /\ b_end b' = (if b_end b =? 0 then 256 else 2 * b_end b) /\ appended b b' [].
Proof.
  intros Hc Hb Hw Hn Hce He. assert (Hl : new_length b = (if b_end b =? 0 then 256 else 2 * b_end b)) by (unfold new_length, u64; destruct (b_end b =? 0); [done|rewrite Z.mod_small; destruct Hb; lia]).
  destruct (enlarge_ok h b m (new_length b)) as (b' & E & E' & A); [rewrite Hl in *; destruct Hb; destruct (Z.eqb_spec (b_end b) 0); lia|rewrite Hl; destruct Hb; destruct (Z.eqb_spec (b_end b) 0); lia|done|done|].
  exists b'. rewrite E', Hl. split; [|done]. unfold wrap_or_eof, call_wrap, lwmsg_buffer_realloc_wrap, lwmsg_data_marshal_alloc_wrap. rewrite get_buffer_eq. cbn [st_buffer].
  destruct (b_wrap b) eqn:Hk; [done| |]; rewrite !get_buffer_eq; cbn [st_buffer]; rewrite Hk, !get_buffer_eq; cbn [st_buffer]; [|destruct (Z.eqb_spec count 0); [lia|]]; exact E.
Qed.

(** How much a buffer can hold after a number of wraps. *)
Definition capacity (b : LWMsgBuffer) (wraps : nat) : Z := if b_end b =? 0 then 128 * (2 ^ Z.of_nat wraps - 1) else b_end b * 2 ^ Z.of_nat wraps.

(** The source of a write gives the bytes [bs]. *)
Definition source (src : Z -> Z -> prog mem) (h : heap) (bs : mem) : Prop :=
  forall st o n, st_heap st = h -> 0 <= o -> 0 <= n -> o + n <= zlen bs -> src o n st = Some (st, inr (take (Z.to_nat n) (drop (Z.to_nat o) bs))).

(** One turn of the loop. *)
Lemma write_loop_S fuel src o count st : write_loop (S fuel) src o count st =
  (if count =? 0 then ret tt else
   let* b := get_buffer in
   let remaining := b_end b - b_cursor b in
   let writable := if remaining <? count then remaining else count in
   let* bs := src o writable in
   let* base := get (wr (b_base b) (b_cursor b) bs) in
   set_buffer (mkBuffer base (b_end b) (b_cursor b + writable) (b_wrap b));;
   if count - writable =? 0 then ret tt else wrap_or_eof (count - writable);; write_loop fuel src (o + writable) (count - writable)) st.
Proof. done. Qed.

Lemma write_turn src bs h b m o n : source src h bs -> buffer_wf b -> 0 <= o -> 0 <= n -> o + n <= zlen bs -> b_cursor b + n <= b_end b ->
  exists base, src o n (mkState h b m) = Some (mkState h b m, inr (take (Z.to_nat n) (drop (Z.to_nat o) bs))) /\
    wr (b_base b) (b_cursor b) (take (Z.to_nat n) (drop (Z.to_nat o) bs)) = Some base /\
    appended b (mkBuffer base (b_end b) (b_cursor b + n) (b_wrap b)) (take (Z.to_nat n) (drop (Z.to_nat o) bs)).
Proof.
  intros Hs Hb Ho Hn Hl Hc. assert (Hz : zlen (take (Z.to_nat n) (drop (Z.to_nat o) bs)) = n) by (unfold zlen in *; rewrite length_take, length_drop; lia).
  destruct (wr_ok (b_base b) (b_cursor b) (take (Z.to_nat n) (drop (Z.to_nat o) bs))) as (base & Hw & _); [destruct Hb; lia|destruct Hb; lia|].
  exists base. split; [by apply Hs|]. split; [done|]. pose proof (write_at_cursor b _ base Hb Hw) as Ha. by rewrite Hz in Ha.
Qed.

(** A buffer that grows takes what is written to it. *)
Lemma write_loop_grows src bs h m fuel : source src h bs -> forall b o count, buffer_wf b -> b_wrap b <> WRAP_NULL -> 0 <= o -> 0 <= count -> o + count = zlen bs ->
  room h b count -> b_cursor b + count <= capacity b fuel ->
  exists b', write_loop (S fuel) src o count (mkState h b m) = Some (mkState h b' m, inr tt) /\ appended b b' (drop (Z.to_nat o) bs).
Proof.
  intros Hs. induction fuel as [|fuel IH]; intros b o count Hb Hw Ho Hc Hl Hr Hcap; rewrite write_loop_S.
  all: destruct (Z.eqb_spec count 0) as [->|Hc0]; [exists b; split; [reflexivity|]; rewrite drop_ge by (unfold zlen in Hl; lia); by apply appended_nil|]; rewrite get_buffer_eq; cbn [st_buffer].
  - assert (count <= b_end b - b_cursor b) by (unfold capacity in Hcap; destruct Hb; cbn in Hcap; destruct (Z.eqb_spec (b_end b) 0); lia).
    destruct (Z.ltb_spec (b_end b - b_cursor b) count); [lia|]. destruct (write_turn src bs h b m o count Hs Hb) as (base & E & Hwr & Ha); [lia..|].
    rewrite (bind_inr _ _ _ _ _ E), (bind_inr _ _ _ _ _ (get_Some _ _ _ Hwr)), set_buffer_eq, Z.sub_diag. eexists. split; [reflexivity|]. rewrite take_ge in Ha by (rewrite length_drop; unfold zlen in Hl; lia). done.
  - destruct (Z.ltb_spec (b_end b - b_cursor b) count) as [Hlt|Hge].
    + destruct (write_turn src bs h b m o (b_end b - b_cursor b) Hs Hb) as (base & E & Hwr & Ha); [destruct Hb; lia..|].
      rewrite (bind_inr _ _ _ _ _ E), (bind_inr _ _ _ _ _ (get_Some _ _ _ Hwr)). rewrite set_buffer_eq. cbn [st_heap st_map]. destruct (Z.eqb_spec (count - (b_end b - b_cursor b)) 0); [lia|].
      set (b1 := mkBuffer base (b_end b) (b_cursor b + (b_end b - b_cursor b)) (b_wrap b)) in *.
      assert (Hnr : 2 * (b_cursor b + count) + 512 <= avail h /\ b_cursor b + count < 2 ^ 62) by (unfold room in Hr; destruct (b_wrap b); done).
      destruct (wrap_grows h b1 m (count - (b_end b - b_cursor b))) as (b2 & E2 & L2 & A2).
      { lia. } { exact (proj1 Ha). } { done. }
      { unfold new_length, u64. cbn. destruct (Z.eqb_spec (b_end b) 0); [destruct Hb; lia|]. rewrite Z.mod_small; destruct Hb; lia. }
      { cbn. lia. } { cbn. destruct Hb. lia. }
      rewrite (bind_inr _ _ _ _ _ E2). cbn [b_end b1] in L2. destruct A2 as (W2 & T2 & C2 & K2 & _). cbn [b_wrap b_cursor b1] in K2, C2. rewrite zlen_nil in C2.
      destruct (IH b2 (o + (b_end b - b_cursor b)) (count - (b_end b - b_cursor b))) as (b3 & E3 & A3); [done|by rewrite K2|destruct Hb; lia|lia|lia| | |].
      { unfold room. rewrite K2, C2. destruct (b_wrap b); [done|lia..]. }
      { unfold capacity in Hcap |- *. rewrite L2, C2. rewrite Nat2Z.inj_succ, Z.pow_succ_r in Hcap by lia. destruct (Z.eqb_spec (b_end b) 0); cbn [Z.eqb]; [lia|]. destruct (Z.eqb_spec (2 * b_end b) 0); lia. }
      exists b3. split; [exact E3|]. replace (drop (Z.to_nat o) bs) with (take (Z.to_nat (b_end b - b_cursor b)) (drop (Z.to_nat o) bs) ++ [] ++ drop (Z.to_nat (o + (b_end b - b_cursor b))) bs).
      2: { rewrite Z2Nat.inj_add by (destruct Hb; lia). rewrite <-drop_drop. cbn. apply take_drop. }
      eapply appended_app; [exact Ha|]. eapply appended_app; [|exact A3]. split; [done|]. rewrite app_nil_r, zlen_nil. cbn in T2. rewrite app_nil_r in T2. split; [done|]. split; [cbn; lia|]. split; [done|]. cbn. done.
    + destruct (write_turn src bs h b m o count Hs Hb) as (base & E & Hwr & Ha); [lia..|].
      rewrite (bind_inr _ _ _ _ _ E), (bind_inr _ _ _ _ _ (get_Some _ _ _ Hwr)), set_buffer_eq, Z.sub_diag. eexists. split; [reflexivity|]. rewrite take_ge in Ha by (rewrite length_drop; unfold zlen in Hl; lia). done.
Qed.
Lemma write_emits src bs h count : source src h bs -> count = zlen bs -> emits (write_loop buffer_fuel src 0 count) h bs.
Proof.
  intros Hs -> [h' b m] Hh Hb Hr. cbn [st_heap st_buffer st_map] in *. subst h'. change buffer_fuel with (S 69). destruct (b_wrap b) eqn:Hk.
  - unfold room in Hr. rewrite Hk in Hr. rewrite write_loop_S. destruct (Z.eqb_spec (zlen bs) 0) as [Hz|Hz].
    { apply zlen_0_inv in Hz as ->. exists b. split; [reflexivity|]. by apply appended_nil. }
    rewrite get_buffer_eq. cbn [st_buffer]. destruct (Z.ltb_spec (b_end b - b_cursor b) (zlen bs)); [lia|].
    destruct (write_turn src bs h b m 0 (zlen bs) Hs Hb) as (base & E & Hwr & Ha); [zl..|].
    rewrite (bind_inr _ _ _ _ _ E), (bind_inr _ _ _ _ _ (get_Some _ _ _ Hwr)), set_buffer_eq, Z.sub_diag. eexists. split; [reflexivity|]. change (drop (Z.to_nat 0) bs) with bs in Ha.
    replace (take (Z.to_nat (zlen bs)) bs) with bs in Ha by (symmetry; apply take_ge; unfold zlen; lia). done.
  - apply (write_loop_grows src bs h m 69 Hs b 0 (zlen bs)); [done|by rewrite Hk|zl|zl|zl|done|]. unfold room, capacity in *. rewrite Hk in Hr. destruct Hb. destruct (Z.eqb_spec (b_end b) 0); lia.
  - apply (write_loop_grows src bs h m 69 Hs b 0 (zlen bs)); [done|by rewrite Hk|zl|zl|zl|done|]. unfold room, capacity in *. rewrite Hk in Hr. destruct Hb. destruct (Z.eqb_spec (b_end b) 0); lia.
Qed.

Lemma write_local_emits h bs n : n = zlen bs -> emits (lwmsg_buffer_write_local bs n) h bs.
Proof.
  intros Hn. apply write_emits; [|done]. intros st o k _ Ho Hk Hl. apply get_Some. unfold rd. by replace (_ && _) with true by lia.
Qed.

Lemma write_heap_emits h a bs n : n = zlen bs -> region a bs ⊆ cells h -> emits (lwmsg_buffer_write a n) h bs.
Proof.
  intros Hn Hs. apply write_emits; [|done]. intros st o k Hh Ho Hk Hl. apply read_heap_Some. rewrite Hh. unfold load.
  apply (load_sub _ a (take (Z.to_nat o) bs) _ (drop (Z.to_nat k) (drop (Z.to_nat o) bs))).
  - unfold zlen in *. rewrite length_take. lia.
  - unfold zlen in *. rewrite length_take, length_drop. lia.
  - by rewrite take_drop, take_drop.
Qed.

(** * Conversions *)

Lemma bytes_ok_encode_nil e n v : (0 < n)%nat -> encode e n v <> [].
Proof. intros Hn He. pose proof (zlen_encode e n v) as Hz. rewrite He, zlen_nil in Hz. lia. Qed.

Lemma convert_encode s e e' n m v old : 1 <= n -> 1 <= m -> int_fits s n v = true -> zlen old = m ->
  lwmsg_convert_integer (encode e (Z.to_nat n) v) n e old m e' s =
    Some (if int_fits s m v then (LWMSG_STATUS_SUCCESS, encode e' (Z.to_nat m) v) else (LWMSG_STATUS_OVERFLOW, old)).
Proof.
  intros Hn Hm Hf Ho. pose proof (convert_integer_spec s e e' (encode e (Z.to_nat n) v) [] old []) as Hc. rewrite !app_nil_r, zlen_encode, Z2Nat.id, Ho in Hc by lia.
  rewrite Hc; [|apply bytes_ok_encode|apply bytes_ok_encode_nil; lia|intros ->; rewrite zlen_nil in Ho; lia].
  rewrite int_value_encode; [|lia|by rewrite Z2Nat.id by lia]. replace (length old) with (Z.to_nat m) by (unfold zlen in Ho; lia). by destruct (int_fits s m v).
Qed.

Lemma convert_ok s e e' n m v st : 1 <= n -> 1 <= m -> int_fits s n v = true -> int_fits s m v = true ->
  convert (encode e (Z.to_nat n) v) n e m e' s st = Some (st, inr (encode e' (Z.to_nat m) v)).
Proof.
  intros Hn Hm Hf Hf'. unfold convert. erewrite bind_inr; [|apply get_Some, convert_encode; [done..|apply zlen_zeros; lia]]. by rewrite Hf'.
Qed.

Lemma decode_encode_mod e m v : 0 <= m -> decode e (encode e (Z.to_nat m) v) = v mod 256 ^ m.
Proof.
  intros Hm. rewrite encode_ordered, decode_ordered, <-le_encode_mod, Z2Nat.id by lia. apply le_decode_encode. rewrite Z2Nat.id by lia. apply Z.mod_pos_bound, pow256_pos. lia.
Qed.

Lemma convert_object_ok s a n m v st : 1 <= n -> 1 <= m -> int_fits s n v = true -> int_fits s m v = true -> region a (encode host (Z.to_nat n) v) ⊆ cells (st_heap st) ->
  convert_object a n m s st = Some (st, inr (v mod 256 ^ m)).
Proof.
  intros Hn Hm Hf Hf' Hs. unfold convert_object. erewrite bind_inr; [|apply read_heap_Some, load_region; [|exact Hs]; rewrite zlen_encode; lia].
  erewrite bind_inr; [|apply get_Some, convert_encode; [done..|apply zlen_zeros; lia]]. rewrite Hf'. unfold ret. do 3 f_equal.
  apply decode_encode_mod. lia.
Qed.

(** * What is known of the dominating structure at [d] *)

Definition dom_ok (h : heap) (d : Z) (dom : known) : Prop :=
  forall o s u, dom !! (o, s) = Some u -> 1 <= s /\ 0 <= u < 256 ^ s /\ region (d + o) (encode host (Z.to_nat s) u) ⊆ cells h.

Lemma pow256_mono s : 1 <= s <= 8 -> 256 ^ s <= 2 ^ 64.
Proof. intros. change (2 ^ 64) with (256 ^ 8). apply Z.pow_le_mono_r; lia. Qed.

Lemma extract_length_ok i o s n dom d st : info i = InfoIndirect (TermMember o s) -> dom !! (o, s) = Some n -> 1 <= s <= 8 -> 2 * n < 256 ^ s -> dom_ok (st_heap st) d dom ->
  lwmsg_data_extract_length i d st = Some (st, inr n).
Proof.
  intros Hi Hn Hs Hl Hd. destruct (Hd _ _ _ Hn) as (_ & Hr & Hsub). unfold lwmsg_data_extract_length. rewrite Hi. pose proof (pow256_mono s Hs).
  rewrite (convert_object_ok LWMSG_SIGNED (d + o) s 8 n st); [|lia|lia|unfold int_fits; lia|unfold int_fits; change (256 ^ 8) with (2 ^ 64); lia|done].
  rewrite Z.mod_small; [done|]. change (256 ^ 8) with (2 ^ 64). lia.
Qed.

Lemma extract_arm_ok i o s u arms arm dom d st : info i = InfoCompound o s -> dom !! (o, s) = Some u -> u < 2 ^ 32 -> dom_ok (st_heap st) d dom ->
  members specs i = Some arms -> List.find (fun a => u =? tag a) arms = Some arm -> lwmsg_data_extract_active_arm specs i d st = Some (st, inr arm).
Proof.
  intros Hi Hu Hl Hd Hm Hf. destruct (Hd _ _ _ Hu) as (Hs & Hr & Hsub). unfold lwmsg_data_extract_active_arm, lwmsg_data_extract_discrim_tag. rewrite Hi.
  erewrite bind_inr; [|apply (convert_object_ok LWMSG_UNSIGNED (d + o) s 4 u st); [lia|lia|unfold int_fits; lia|unfold int_fits; change (256 ^ 4) with (2 ^ 32); lia|done]].
  rewrite Z.mod_small by (change (256 ^ 4) with (2 ^ 32); lia). erewrite bind_inr; [|by apply get_Some]. by rewrite Hf.
Qed.

(** * Integers and enumerations *)

Lemma verify_range_ok i w s a v st : info i = InfoInteger w s -> 1 <= size i -> int_fits s (size i) v = true -> in_range i s v ->
  region a (encode host (Z.to_nat (size i)) v) ⊆ cells (st_heap st) ->
  (if has_flag LWMSG_TYPE_FLAG_RANGE i then lwmsg_data_verify_range i a (size i) else ret tt) st = Some (st, inr tt).
Proof.
  intros Hi Hs Hf Hr Hsub. destruct (has_flag LWMSG_TYPE_FLAG_RANGE i) eqn:Hfl; [|done]. destruct (Hr Hfl) as (H8 & Hlo & Hhi). unfold lwmsg_data_verify_range. rewrite Hi.
  erewrite bind_inr; [|by apply (convert_object_ok s a (size i) 8 v)]. change (v mod 256 ^ 8) with (u64 v). by replace (_ || _) with false by lia.
Qed.

Lemma decode_enum_ok i vars value : members specs i ≫= mapM variant = Some vars -> enum_value vars value ->
  exists r, forall st, lwmsg_data_decode_enum_value specs i value st = Some (st, inr r).
Proof.
  intros Hm Hv. unfold lwmsg_data_decode_enum_value, enum_value, enum_residual in *.
  set (mask := foldl _ 0 vars) in *. exists (mask, Z.ldiff value mask). intros st. erewrite bind_inr; [|by apply get_Some]. cbv zeta. fold mask.
  destruct Hv as [(v & Hin & Hf & Heq)|(H0 & Hall)].
  - assert (He : existsb (fun v0 : bool * Z => Z.ldiff value mask =? v0.2) (filter (fun v0 : bool * Z => v0.1 = false) vars) = true); [|by rewrite He].
    apply existsb_exists. exists v. split; [|by apply Z.eqb_eq]. by apply list_elem_of_In, list_elem_of_filter.
  - assert (Hn : filter (fun v0 : bool * Z => v0.1 = false) vars = []); [|by rewrite Hn, H0].
    apply elem_of_nil_inv. intros v (Hv & Hin)%list_elem_of_filter. rewrite Forall_forall in Hall. by rewrite (Hall _ Hin) in Hv.
Qed.

(** The end of [lwmsg_data_marshal_integer] and [lwmsg_data_marshal_enum]. *)
Lemma marshal_value_emits i w s a v h : info i = InfoInteger w s -> 1 <= w <= 16 -> 1 <= size i -> int_fits s (size i) v = true -> int_fits s w v = true -> in_range i s v ->
  region a (encode host (Z.to_nat (size i)) v) ⊆ cells h ->
  emits ((if has_flag LWMSG_TYPE_FLAG_RANGE i then lwmsg_data_verify_range i a (size i) else ret tt);;
    let* in_ := read_heap (fun h => load h a (size i)) in
    if MAX_INTEGER_SIZE <? w then fault else
    let* out := convert in_ (size i) host w byte_order s in
    lwmsg_buffer_write_local out w) h (encode byte_order (Z.to_nat w) v).
Proof.
  intros Hi Hw Hs Hf Hf' Hr Hsub. eapply emits_bind; [intros st <-; by eapply verify_range_ok|].
  eapply emits_bind; [intros st <-; apply read_heap_Some, load_region; [|done]; rewrite zlen_encode; lia|].
  destruct (Z.ltb_spec MAX_INTEGER_SIZE w); [unfold MAX_INTEGER_SIZE in *; lia|]. eapply emits_bind; [intros st _; apply convert_ok; [lia|lia|done|done]|].
  apply write_local_emits. rewrite zlen_encode. lia.
Qed.

Lemma marshal_integer_emits i w s a v h : info i = InfoInteger w s -> 1 <= w <= 16 -> 1 <= size i -> int_fits s (size i) v = true -> int_fits s w v = true -> in_range i s v ->
  region a (encode host (Z.to_nat (size i)) v) ⊆ cells h -> emits (lwmsg_data_marshal_integer byte_order i a) h (encode byte_order (Z.to_nat w) v).
Proof. intros Hi. intros. unfold lwmsg_data_marshal_integer. rewrite Hi. by apply marshal_value_emits. Qed.

Lemma marshal_enum_emits i w s a v vars h : info i = InfoInteger w s -> 1 <= w <= 16 -> 1 <= size i -> int_fits s (size i) v = true -> int_fits s w v = true -> in_range i s v ->
  int_fits s 8 v = true -> members specs i ≫= mapM variant = Some vars -> enum_value vars (u64 v) ->
  region a (encode host (Z.to_nat (size i)) v) ⊆ cells h -> emits (lwmsg_data_marshal_enum specs byte_order i a) h (encode byte_order (Z.to_nat w) v).
Proof.
  intros Hi Hw Hs Hf Hf' Hr H8 Hm Hv Hsub. unfold lwmsg_data_marshal_enum. rewrite Hi.
  eapply emits_bind; [intros st <-; by apply (convert_object_ok s a (size i) 8 v)|]. change (v mod 256 ^ 8) with (u64 v).
  destruct (decode_enum_ok i vars (u64 v) Hm Hv) as (r & Hd). eapply emits_bind; [intros st _; apply Hd|]. by apply marshal_value_emits.
Qed.

(** * Loops *)

Lemma for_pos_emits h body p : forall j ws, length ws = Pos.to_nat p -> (forall k w, ws !! k = Some w -> emits (body (j + Z.of_nat k)) h w) -> emits (for_pos p j body) h (concat ws).
Proof.
  assert (Hhalf : forall q, (forall j ws, length ws = Pos.to_nat q -> (forall k w, ws !! k = Some w -> emits (body (j + Z.of_nat k)) h w) -> emits (for_pos q j body) h (concat ws)) ->
    forall j ws, length ws = (Pos.to_nat q + Pos.to_nat q)%nat -> (forall k w, ws !! k = Some w -> emits (body (j + Z.of_nat k)) h w) ->
    emits (for_pos q j body;; for_pos q (j + Z.pos q) body) h (concat ws)).
  { intros q IH j ws Hl Hw. rewrite <-(take_drop (Pos.to_nat q) ws), concat_app. apply emits_seq; apply IH.
    - rewrite length_take. lia.
    - intros k w Hk. apply lookup_take_Some in Hk as (Hk & _). by apply Hw.
    - rewrite length_drop. lia.
    - intros k w Hk. rewrite lookup_drop in Hk. replace (j + Z.pos q + Z.of_nat k) with (j + Z.of_nat (Pos.to_nat q + k)) by lia. by apply Hw. }
  induction p as [q IH|q IH|]; intros j ws Hl Hw; cbn [for_pos].
  - destruct ws as [|w ws]; [cbn in Hl; lia|]. cbn in Hl |- *. apply emits_seq; [replace j with (j + Z.of_nat 0) by lia; by apply Hw|].
    apply Hhalf; [done|lia|]. intros k x Hk. replace (j + 1 + Z.of_nat k) with (j + Z.of_nat (S k)) by lia. by apply Hw.
  - apply Hhalf; [done|lia|done].
  - destruct ws as [|w [|? ?]]; [done| |cbn in Hl; lia]. cbn. rewrite app_nil_r. replace j with (j + Z.of_nat 0) by lia. by apply Hw.
Qed.

Lemma for_loop_emits h body n ws : Z.of_nat (length ws) = n -> (forall k w, ws !! k = Some w -> emits (body (Z.of_nat k)) h w) -> emits (for_loop n body) h (concat ws).
Proof.
  intros <- Hw. unfold for_loop. destruct ws as [|w ws]; [apply emits_ret|]. cbn [length Z.of_nat]. apply for_pos_emits; [cbn [length]; lia|]. intros k x Hk. by apply Hw.
Qed.

(** * Counting the elements of zero-terminated arrays *)

Lemma is_zero_loop_spec h bs : forall a, region a bs ⊆ cells h -> is_zero_loop (length bs) a h = Some (bool_decide (bs = replicate (length bs) 0)).
Proof.
  induction bs as [|b bs IH]; intros a Hs; [done|]. cbn [length is_zero_loop replicate]. change (b :: bs) with ([b] ++ bs) in Hs. rewrite (region_app a [b] bs) in Hs.
  assert (Hb : cells h !! a = Some b) by (eapply lookup_weaken; [|exact Hs]; apply lookup_union_Some_l, region_lookup_Some; rewrite Z.sub_diag; split; [lia|done]).
  rewrite Hb. bsimpl. destruct (Z.eqb_spec b 0) as [-> |Hb0].
  - rewrite IH. 2: { etrans; [|exact Hs]. apply map_union_subseteq_r, region_disjoint. left. unfold zlen. cbn. lia. } f_equal. apply bool_decide_ext. split; [intros Hx; by f_equal|by intros [= Hx]].
  - rewrite bool_decide_eq_false_2; [done|]. intros [= ? ?]. done.
Qed.

Lemma size_region a bs : base.size (region a bs) = length bs.
Proof.
  revert a. induction bs as [|b bs IH]; intros a; [apply map_size_empty|]. unfold region in *. cbn [put_bytes length]. rewrite map_size_insert_None; [by rewrite IH|].
  change (region (a + 1) bs !! a = None). apply region_lookup_None. lia.
Qed.

Lemma region_size_le h a bs : region a bs ⊆ cells h -> (length bs <= size_of_heap h)%nat.
Proof. intros Hs. rewrite <-(size_region a bs). by apply map_subseteq_size. Qed.

Lemma count_loop_spec i h a bs n rest fuel : 0 < size i -> zlen bs = n * size i -> (forall j, 0 <= j < n -> rd bs (j * size i) (size i) <> Some (zeros (size i))) ->
  region a (bs ++ zeros (size i) ++ rest) ⊆ cells h -> 0 <= n < Z.of_nat fuel ->
  forall k, 0 <= k <= n -> count_loop (fuel - Z.to_nat k) i (a + k * size i) k h = Some n.
Proof.
  intros Hs Hl Hnz Hsub Hf k Hk. remember (Z.to_nat (n - k)) as r eqn:Hr. revert k Hk Hr. induction r as [|r IH]; intros k Hk Hr.
  all: destruct (fuel - Z.to_nat k)%nat as [|fuel'] eqn:Hfuel; [lia|]; cbn [count_loop]; unfold lwmsg_object_is_zero.
  - assert (k = n) as -> by lia. pose proof (is_zero_loop_spec h (zeros (size i)) (a + n * size i)) as Hz. unfold zeros in Hz at 2 3. rewrite !length_replicate in Hz. rewrite Hz.
    + rewrite bool_decide_eq_true_2; [done|]. unfold zeros. by rewrite length_replicate.
    + rewrite <-Hl. assert (Hld : load_bytes (cells h) (a + zlen bs) (Z.to_nat (size i)) = Some (zeros (size i))) by (eapply load_sub; [done| |exact Hsub]; rewrite zlen_zeros; lia).
      by apply load_bytes_region in Hld as (_ & ?).
  - destruct (rd_ok bs (k * size i) (size i)) as (e & He & Hel); [nia|lia|nia|]. pose proof (Hnz k ltac:(lia)) as Hne. rewrite He in Hne.
    apply rd_Some in He as (p & q & -> & Hp & _). pose proof (is_zero_loop_spec h e (a + k * size i)) as Hz. replace (length e) with (Z.to_nat (size i)) in Hz by (unfold zlen in Hel; lia). rewrite Hz.
    + rewrite bool_decide_eq_false_2; [|intros He; apply Hne; by f_equal]. bsimpl. replace (a + k * size i + size i) with (a + (k + 1) * size i) by lia.
      replace fuel' with (fuel - Z.to_nat (k + 1))%nat by lia. apply IH; lia.
    + assert (Hld : load_bytes (cells h) (a + k * size i) (Z.to_nat (size i)) = Some e).
      { eapply (load_sub _ a p e (q ++ zeros (size i) ++ rest)); [lia|lia|]. by rewrite <-!app_assoc in Hsub. }
      by apply load_bytes_region in Hld as (_ & ?).
Qed.

Lemma count_elements_ok i h a bs n rest : 0 < size i -> zlen bs = n * size i -> 0 <= n -> (forall j, 0 <= j < n -> rd bs (j * size i) (size i) <> Some (zeros (size i))) ->
  region a (bs ++ zeros (size i) ++ rest) ⊆ cells h -> count_elements i a h = Some n.
Proof.
  intros Hs Hl Hn Hnz Hsub. unfold count_elements. pose proof (region_size_le _ _ _ Hsub) as Hle. rewrite length_app in Hle.
  pose proof (count_loop_spec i h a bs n rest (S (size_of_heap h)) Hs Hl Hnz Hsub) as Hc. specialize (Hc ltac:(unfold zlen in Hl; nia) 0 ltac:(lia)). by rewrite Z.mul_0_l, Z.add_0_r in Hc.
Qed.

(** * Elements that are copied directly *)

Lemma elems_length i dom bs h vs w : obj_elems specs byte_order i dom bs h vs w -> zlen bs = Z.of_nat (length vs) * size i.
Proof. induction 1 as [|? ? b bs ? ? ? vs ? ? _ Hb _ IH _]; [by rewrite zlen_nil|]. rewrite zlen_app, Hb, IH. cbn [length]. lia. Qed.

Lemma encode_one e e' v : encode e 1 v = encode e' 1 v.
Proof. by destruct e, e'. Qed.

Lemma direct_elems i dom bs h vs w : direct_copy i = true -> obj_elems specs byte_order i dom bs h vs w -> w = bs.
Proof.
  intros Hd. induction 1 as [|i dom b bs h1 h2 v vs w1 w2 Ho Hb _ IH _]; [done|]. f_equal; [|by apply IH]. unfold direct_copy in Hd.
  destruct Ho as [? ? Hk|? ? w s v Hk ? Hi|? ? w s v vars Hk ? Hi|? ? ? ? ? ? ? Hk|? ? ? ? ? ? ? ? ? ? ? ? Hk|? ? Hk|? ? ? ? ? ? ? ? ? ? ? Hk|? ? ? ? ? ? ? ? Hk]; rewrite Hk in Hd; try done.
  all: rewrite Hi in Hd; apply andb_true_iff in Hd as (->%Z.eqb_eq & Hd%Z.eqb_eq); rewrite Hd; apply encode_one.
Qed.

(** * Values that are not zero are not represented by zeros *)

Definition all_zero (bs : mem) : Prop := Forall (fun b => b = 0) bs.

Lemma all_zero_zeros n : all_zero (zeros n).
Proof. unfold all_zero, zeros. by apply Forall_replicate. Qed.

Lemma le_decode_zero bs : all_zero bs -> le_decode bs = 0.
Proof. induction 1 as [|b bs -> _ IH]; [done|]. cbn. rewrite IH. lia. Qed.

Lemma encode_nonzero e n v s : 0 <= n -> int_fits s n v = true -> v <> 0 -> ~ all_zero (encode e (Z.to_nat n) v).
Proof.
  intros Hn Hf Hv Hz. assert (Hd : v mod 256 ^ n = 0).
  { rewrite <-(decode_encode_mod e) by done. destruct e; cbn in *; [by apply le_decode_zero|]. apply le_decode_zero, Forall_rev. done. }
  pose proof (pow256_pos n Hn). apply Hv. unfold int_fits in Hf. destruct (Z.le_gt_cases 0 v).
  - rewrite Z.mod_small in Hd; [done|]. destruct s; lia.
  - rewrite <-(Z_mod_plus_full v 1), Z.mod_small in Hd; destruct s; lia.
Qed.

Lemma nonzero_spec :
  (forall i dom bs h v w, obj specs byte_order i dom bs h v w -> nonzero v = true -> ~ all_zero bs) /\
  (forall i dom bs h vs w, obj_elems specs byte_order i dom bs h vs w -> existsb nonzero vs = true -> ~ all_zero bs) /\
  (forall used dom ms bs h vs w, obj_fields specs byte_order used dom ms bs h vs w -> existsb nonzero vs = true -> ~ all_zero bs).
Proof.
  apply obj_mutual; try done.
  - intros i dom w s v _ _ _ _ Hs Hf _ _ Hv. apply (encode_nonzero _ _ _ s); [lia|done|]. cbn in Hv. lia.
  - intros i dom w s v vars _ _ _ _ Hs Hf _ _ _ _ _ Hv. apply (encode_nonzero _ _ _ s); [lia|done|]. cbn in Hv. lia.
  - intros i dom o s u arms arm bs pad h v w _ _ _ _ _ _ _ _ _ _ IH Hv Hz. apply Forall_app in Hz as (Hz & _). by apply IH.
  - intros i dom t inn p n bs extra h vs w _ _ _ _ _ _ Hp _ _ _ _ _ _ _ _ _ _ _. apply (encode_nonzero _ 8 p LWMSG_UNSIGNED); [lia| |lia]. unfold int_fits. change (256 ^ 8) with (2 ^ 64). lia.
  - intros i dom b bs h1 h2 v vs w1 w2 _ IH1 _ _ IH2 _ Hv Hz. apply Forall_app in Hz as (Hz1 & Hz2). cbn in Hv. apply orb_true_iff in Hv as [Hv|Hv]; [by apply IH1|by apply IH2].
  - intros used dom m ms bs b h1 h2 v vs w1 w2 _ _ IH1 Hrd _ _ IH2 _ Hv Hz. cbn in Hv. apply orb_true_iff in Hv as [Hv|Hv]; [|by apply IH2]. apply (IH1 Hv).
    apply rd_Some in Hrd as (p & q & -> & _). by apply Forall_app in Hz as (_ & (? & _)%Forall_app).
Qed.

Lemma elems_nonzero i dom bs h vs w : obj_elems specs byte_order i dom bs h vs w -> Forall (fun v => nonzero v = true) vs ->
  forall j, 0 <= j < Z.of_nat (length vs) -> rd bs (j * size i) (size i) <> Some (zeros (size i)).
Proof.
  induction 1 as [|i dom b bs h1 h2 v vs w1 w2 Ho Hb _ IH _]; intros Hnz j Hj Hr; [cbn in Hj; lia|]. apply Forall_cons in Hnz as (Hv & Hnz). rewrite <-Hb in Hr. destruct (decide (j = 0)) as [-> |Hj0].
  - rewrite Z.mul_0_l, rd_at_0 in Hr by done. injection Hr as Hr. apply (proj1 nonzero_spec _ _ _ _ _ _ Ho Hv). rewrite Hr. apply all_zero_zeros.
  - apply (IH Hnz (j - 1)); [cbn in Hj; lia|]. rewrite Hb in Hr. apply rd_Some in Hr as (p & q & He & Hp & Hz). assert (Hlp : zlen b <= zlen p) by (pose proof (zlen_nonneg b); nia).
    destruct (zlen_split p (zlen b)) as (p1 & p2 & -> & Hp1); [zl|]. rewrite <-app_assoc in He. apply app_inj_1 in He as (-> & ->); [|unfold zlen in Hp1; lia].
    apply rd_at; [|done]. rewrite zlen_app in Hp. lia.
Qed.

(** * Structures, arrays and pointers: all by induction on the wire form *)

Abbreviation marshal_internal := (lwmsg_data_marshal_internal specs byte_order).

Lemma run_verify_emits i b a h : verify i = 0 -> forall st, st_heap st = h -> run_verify i b a st = Some (st, inr tt).
Proof. intros Hv st _. unfold run_verify. by rewrite Hv. Qed.

(** An object of memory is marshalled. *)
Definition marshals (fuel : nat) (i : LWMsgTypeIter) (dom : known) (bs : mem) (h : heap) (w : mem) : Prop :=
  forall hp a d g, 0 < a -> cells h ⊆ cells hp -> region a bs ⊆ cells hp -> dom_ok hp d dom -> emits (marshal_internal fuel d (set_dom g i) a) hp w.

Lemma hunion_l h1 h2 hp : cells (hunion h1 h2) ⊆ cells hp -> cells h1 ⊆ cells hp.
Proof. intros Hs. etrans; [|exact Hs]. apply map_union_subseteq_l. Qed.
Lemma hunion_r h1 h2 hp : hdisj h1 h2 -> cells (hunion h1 h2) ⊆ cells hp -> cells h2 ⊆ cells hp.
Proof. intros (Hd & _) Hs. etrans; [|exact Hs]. by apply map_union_subseteq_r. Qed.

(** The elements at [a], one after the other. *)
Definition marshals_elems (fuel : nat) (i : LWMsgTypeIter) (dom : known) (bs : mem) (h : heap) (vs : list val) (w : mem) : Prop :=
  forall hp a d g, 0 < a -> cells h ⊆ cells hp -> region a bs ⊆ cells hp -> dom_ok hp d dom ->
    exists ws, concat ws = w /\ length ws = length vs /\ forall k x, ws !! k = Some x -> emits (marshal_internal fuel d (set_dom g i) (a + Z.of_nat k * size i)) hp x.

Lemma marshal_indirect_emits fuel i t inn dom hp d g p bs extra h vs w n : info i = InfoIndirect t -> lwmsg_type_enter specs i zero_iter = Some inn -> inner i <> 0 -> 0 < p ->
  n = Z.of_nat (length vs) -> term_count dom t n -> 0 <= size inn -> elements_nonzero t (size inn) vs -> obj_elems specs byte_order inn dom bs h vs w ->
  marshals_elems fuel inn dom bs h vs w -> cells h ⊆ cells hp -> region p (bs ++ terminator t (size inn) ++ extra) ⊆ cells hp -> dom_ok hp d dom ->
  emits (lwmsg_data_marshal_indirect specs byte_order (marshal_internal fuel) d (set_dom g i) p) hp (length_prefix byte_order t n ++ w).
Proof.
  intros Hi Hin Hne Hp Hn Ht Hs Hnz He Hm Hh Hr Hd. pose proof (elems_length _ _ _ _ _ _ He) as Hlen. rewrite <-Hn in Hlen.
  assert (Hr' : region p bs ⊆ cells hp) by (rewrite region_app in Hr; etrans; [|exact Hr]; apply map_union_subseteq_l).
  unfold lwmsg_data_marshal_indirect. apply emits_try with (x := (set_dom g inn, n)).
  - unfold lwmsg_data_marshal_indirect_prologue. intros st Hst Hb Hroom. erewrite bind_inr; [|apply get_Some; rewrite type_enter_dom, (proj2 (Z.eqb_neq _ _) Hne), Hin; reflexivity].
    change (info (set_dom g i)) with (info i). rewrite Hi. destruct t as [k| |o s]; cbn in Ht.
    + destruct Ht as (-> & _). exists (st_buffer st). split; [by destruct st; cbn in Hst; subst|]. by apply appended_nil.
    + destruct (Z.eqb_spec p 0); [lia|]. destruct (Hnz eq_refl) as (Hpos & Hall). pose proof (elems_nonzero _ _ _ _ _ _ He Hall) as Hnz'. rewrite <-Hn in Hnz'. cbn [terminator length_prefix] in *.
      rewrite (bind_inr _ _ st st n). 2: { apply read_heap_Some. rewrite Hst. by eapply (count_elements_ok (set_dom g inn) hp p bs n extra); [done|done|lia|done|]. }
      rewrite (bind_inr _ _ st st (encode byte_order 4 n)). 2: { apply (convert_ok LWMSG_UNSIGNED host byte_order 8 4 n); [lia|lia|unfold int_fits; lia|unfold int_fits; lia]. }
      destruct (write_local_emits hp (encode byte_order 4 n) 4) with st as (b' & E & A); [by rewrite zlen_encode|done|done|done|]. exists b'. by rewrite (bind_inr _ _ _ _ _ E).
    + destruct Ht as (Hk & Hs8 & Hl2). erewrite bind_inr; [|eapply (extract_length_ok (set_dom g i) o s n); [done|exact Hk|done|done|by rewrite Hst]].
      exists (st_buffer st). split; [by destruct st; cbn in Hst; subst|]. by apply appended_nil.
  - cbn beta iota. destruct (Z.eqb_spec p 0); [lia|]. rewrite andb_false_r, andb_false_l. change (direct_copy (set_dom g inn)) with (direct_copy inn). destruct (direct_copy inn) eqn:Hdc.
    + rewrite (direct_elems _ _ _ _ _ _ Hdc He). apply write_heap_emits; [|done]. rewrite Hlen. unfold direct_copy in Hdc. destruct (kind inn), (info inn); try done; apply andb_true_iff in Hdc as (_ & ->%Z.eqb_eq); lia.
    + destruct (Hm hp p d g Hp Hh Hr' Hd) as (ws & <- & Hl & Hws). apply for_loop_emits; [lia|]. done.
Qed.
Lemma region_rd a bs off n b c : rd bs off n = Some b -> region a bs ⊆ c -> region (a + off) b ⊆ c.
Proof.
  intros (p & q & -> & <- & _)%rd_Some Hs. assert (Hl : load_bytes c (a + zlen p) (Z.to_nat (zlen b)) = Some b) by (by eapply load_sub).
  by apply load_bytes_region in Hl as (_ & ?).
Qed.

Lemma encode_mod e n x : encode e n (x mod 256 ^ Z.of_nat n) = encode e n x.
Proof. by rewrite !encode_ordered, le_encode_mod. Qed.

(** An integer that has been read is known. *)
Lemma learn_ok hp a m dom b h v w : obj specs byte_order m dom b h v w -> region (a + offset m) b ⊆ cells hp -> dom_ok hp a dom -> dom_ok hp a (learn m (zlen b) v dom).
Proof.
  intros Ho Hr Hd. assert (Hi : forall x n, v = VInt x -> b = encode host (Z.to_nat n) x -> 1 <= n -> dom_ok hp a (learn m (zlen b) v dom)).
  { intros x n -> -> Hn o s u. cbn [learn]. rewrite zlen_encode, Z2Nat.id by lia. intros Hl. apply lookup_insert_Some in Hl as [([= <- <-] & <-)|(_ & Hl)]; [|by apply Hd].
    split; [done|]. split; [apply Z.mod_pos_bound, pow256_pos; lia|]. rewrite <-(Z2Nat.id n) at 2 by lia. by rewrite encode_mod. }
  destruct Ho; try exact Hd; by eapply Hi.
Qed.

Lemma find_dom g u arms arm : List.find (fun a => u =? tag a) arms = Some arm -> List.find (fun a => u =? tag a) (map (set_dom g) arms) = Some (set_dom g arm).
Proof. induction arms as [|x arms IH]; cbn; [done|]. destruct (u =? tag x); [by intros [= ->]|done]. Qed.

Lemma load_ptr_ok h a p : 0 <= p < 2 ^ 64 -> region a (encode host 8 p) ⊆ cells h -> load_ptr h a = Some p.
Proof.
  intros Hp Hs. unfold load_ptr. assert (Hl : load h a 8 = Some (encode host 8 p)) by (apply load_region; [by rewrite zlen_encode|done]). rewrite Hl. bsimpl. f_equal. apply decode_encode. done.
Qed.

Lemma has_flag_dom f g i : has_flag f (set_dom g i) = has_flag f i.
Proof. done. Qed.

Lemma marshal_pointer_emits fuel i d g a p hp : has_flag LWMSG_TYPE_FLAG_ALIASABLE i = false -> 0 <= p < 2 ^ 64 -> region a (encode host 8 p) ⊆ cells hp ->
  forall w, (p <> 0 -> emits (lwmsg_data_marshal_indirect specs byte_order (marshal_internal fuel) d (set_dom g i) p) hp w) ->
  (p = 0 -> has_flag LWMSG_TYPE_FLAG_NOT_NULL i = false /\ w = []) ->
  emits (lwmsg_data_marshal_pointer specs byte_order (marshal_internal fuel) d (set_dom g i) a) hp
    ((if has_flag LWMSG_TYPE_FLAG_NOT_NULL i then [] else [if p =? 0 then 0 else 0xFF]) ++ w).
Proof.
  intros Ha Hp Hs w Hw Hn. unfold lwmsg_data_marshal_pointer. rewrite has_flag_dom, Ha. unfold lwmsg_data_marshal_unaliasable_pointer. rewrite has_flag_dom.
  eapply emits_bind; [intros st <-; by apply read_heap_Some, load_ptr_ok|]. cbv zeta. apply emits_seq.
  - destruct (has_flag LWMSG_TYPE_FLAG_NOT_NULL i); [apply emits_ret|by apply write_local_emits].
  - destruct (Z.eqb_spec p 0) as [Hz|Hz]; cbn [Z.eqb negb orb]; [|by apply Hw]. destruct (Hn Hz) as (-> & ->). apply emits_ret.
Qed.

Lemma marshal_spec :
  (forall i dom bs h v w, obj specs byte_order i dom bs h v w -> exists n, forall fuel, (n <= fuel)%nat -> marshals fuel i dom bs h w) /\
  (forall i dom bs h vs w, obj_elems specs byte_order i dom bs h vs w -> exists n, forall fuel, (n <= fuel)%nat -> marshals_elems fuel i dom bs h vs w) /\
  (forall used dom ms bs h vs w, obj_fields specs byte_order used dom ms bs h vs w -> exists n, forall fuel, (n <= fuel)%nat -> forall hp a g,
     0 < a -> cells h ⊆ cells hp -> region a bs ⊆ cells hp -> dom_ok hp a dom -> emits (marshal_members (marshal_internal fuel) (map (set_dom g) ms) a) hp w).
Proof.
  apply obj_mutual.
  - intros i dom Hk Hv. exists 1%nat. intros [|fuel] Hf; [lia|]. intros hp a d g Hpos _ _ _. cbn [lwmsg_data_marshal_internal]. eapply emits_bind; [by apply run_verify_emits|]. cbn. rewrite Hk. apply emits_ret.
  - intros i dom w s v Hk Hv Hi Hw Hs Hf Hf' Hr. exists 1%nat. intros [|fuel] Hfu; [lia|]. intros hp a d g Hpos _ Hsub _. cbn [lwmsg_data_marshal_internal]. eapply emits_bind; [by apply run_verify_emits|].
    cbn. rewrite Hk. by apply (marshal_integer_emits (set_dom g i) w s).
  - intros i dom w s v vars Hk Hv Hi Hw Hs Hf Hf' Hr H8 Hm He. exists 1%nat. intros [|fuel] Hfu; [lia|]. intros hp a d g Hpos _ Hsub _. cbn [lwmsg_data_marshal_internal]. eapply emits_bind; [by apply run_verify_emits|].
    cbn. rewrite Hk. eapply (marshal_enum_emits (set_dom g i) w s a v vars); try done. rewrite members_dom. destruct (members specs i) as [ms|]; [|done]. cbn in *. rewrite <-Hm.
    clear. induction ms as [|m ms IH]; [done|]. cbn. by rewrite IH.
  - intros i dom ms bs h vs w Hk Hv Hm Hl _ (n & IH). exists (S n). intros [|fuel] Hfu; [lia|]. intros hp a d g Hpos Hh Hsub _. cbn [lwmsg_data_marshal_internal]. eapply emits_bind; [by apply run_verify_emits|].
    cbn. rewrite Hk. unfold lwmsg_data_marshal_struct. eapply emits_bind; [intros st _; apply get_Some; rewrite members_dom, Hm; reflexivity|]. apply IH; [lia|done|done|done|]. intros o s u Hn. done.
  - intros i dom o s u arms arm bs pad h v w Hk Hv Hi Hs Hu Hu32 Hm Hfd Hl _ (n & IH). exists (S n). intros [|fuel] Hfu; [lia|]. intros hp a d g Hpos Hh Hsub Hd. cbn [lwmsg_data_marshal_internal]. eapply emits_bind; [by apply run_verify_emits|].
    cbn. rewrite Hk. unfold lwmsg_data_marshal_union. eapply emits_bind.
    { intros st <-. eapply (extract_arm_ok (set_dom g i) o s u); [done|exact Hu|done|done| |by apply find_dom]. by rewrite members_dom, Hm. }
    apply IH; [lia|done|done| |done]. rewrite region_app in Hsub. etrans; [|exact Hsub]. apply map_union_subseteq_l.
  - intros i dom Hk Hv Ha Hnn. exists 1%nat. intros [|fuel] Hfu; [lia|]. intros hp a d g Hpos _ Hsub _. cbn [lwmsg_data_marshal_internal]. eapply emits_bind; [by apply run_verify_emits|].
    cbn [kind set_dom]. rewrite Hk. pose proof (marshal_pointer_emits fuel i d g a 0 hp Ha ltac:(lia) Hsub [] ltac:(done) ltac:(done)) as Hp. by rewrite Hnn in Hp.
  - intros i dom t inn p n bs extra h vs w Hk Hv Ha Hi Hin Hne Hp Hn Ht _ Hs Hnz _ _ He (m & IH) Hdj. exists (S m). intros [|fuel] Hfu; [lia|]. intros hp a d g Hpos Hh Hsub Hd.
    cbn [lwmsg_data_marshal_internal]. eapply emits_bind; [by apply run_verify_emits|]. cbn [kind set_dom]. rewrite Hk.
    pose proof (marshal_pointer_emits fuel i d g a p hp Ha ltac:(lia) Hsub (length_prefix byte_order t n ++ w)) as Hm. rewrite (proj2 (Z.eqb_neq p 0) ltac:(lia)) in Hm. apply Hm; [|lia]. intros _.
    eapply (marshal_indirect_emits fuel i t inn dom hp d g p bs extra h vs w n); try done; [lia|lia|by apply IH; lia|by eapply hunion_r|exact (hunion_l (block p _) h hp Hh)].
  - intros i dom n inn bs h vs w Hk Hv Hi Hin Hne Hn Hn63 Hs _ He (m & IH). exists (S m). intros [|fuel] Hfu; [lia|]. intros hp a d g Hpos Hh Hsub Hd.
    cbn [lwmsg_data_marshal_internal]. eapply emits_bind; [by apply run_verify_emits|]. cbn [kind set_dom]. rewrite Hk.
    eapply (marshal_indirect_emits fuel i (TermStatic n) inn dom hp d g a bs [] h vs w n); try done; [by apply IH; lia|by rewrite app_nil_r].
  - intros i dom. exists 0%nat. intros fuel _ hp a d g _ _ _ _. exists []. done.
  - intros i dom b bs h1 h2 v vs w1 w2 _ (n1 & IH1) Hb _ (n2 & IH2) Hdj. exists (max n1 n2). intros fuel Hfu hp a d g Hpos Hh Hsub Hd. rewrite region_app in Hsub.
    destruct (IH2 fuel ltac:(lia) hp (a + zlen b) d g) as (ws & Hw & Hl & Hws); [zl|by eapply hunion_r| |done|]. { etrans; [|exact Hsub]. apply map_union_subseteq_r, region_disjoint. lia. }
    exists (w1 :: ws). split; [cbn; by rewrite Hw|]. split; [cbn; by rewrite Hl|]. intros [|k] x Hx; cbn in Hx.
    + injection Hx as ->. rewrite Z.mul_0_l, Z.add_0_r. apply (IH1 fuel ltac:(lia)); [done|by eapply hunion_l| |done]. etrans; [|exact Hsub]. apply map_union_subseteq_l.
    + replace (a + Z.of_nat (S k) * size i) with (a + zlen b + Z.of_nat k * size i) by lia. by apply Hws.
  - intros used dom bs. exists 0%nat. intros fuel _ hp a g _ _ _ _. apply emits_ret.
  - intros used dom m ms bs b h1 h2 v vs w1 w2 Hfx Ho (n1 & IH1) Hrd Hus _ (n2 & IH2) Hdj. exists (max n1 n2). intros fuel Hfu hp a g Hpos Hh Hsub Hd. cbn [map marshal_members].
    pose proof (region_rd _ _ _ _ _ _ Hrd Hsub) as Hb. apply emits_seq.
    + apply (IH1 fuel ltac:(lia)); [change (offset (set_dom g m)) with (offset m); apply rd_range in Hrd; lia|by eapply hunion_l|done|done].
    + apply (IH2 fuel ltac:(lia)); [done|by eapply hunion_r|done|]. by eapply learn_ok.
Qed.

(** * The whole *)

Context {stacklawsI : StackLaws}.

Lemma set_dom_self i : set_dom (dom_object i) i = i.
Proof. by destruct i. Qed.

Lemma drop_local c a bs : (forall k, a <= k < a + zlen bs -> c !! k = None) -> drop_bytes (put_bytes c a bs) a (length bs) = c.
Proof.
  intros Hf. apply map_eq. intros k. rewrite drop_bytes_lookup, put_bytes_lookup. fold (zlen bs). case_decide as Hk; [symmetry; by apply Hf|done].
Qed.

Lemma local_region h v : region (stack_slot h) (encode host 8 v) ⊆ cells (local_heap h v).
Proof. cbn. rewrite put_bytes_region. apply map_union_subseteq_l. Qed.

Lemma local_heap_sub h v : cells h ⊆ cells (local_heap h v).
Proof.
  cbn. rewrite put_bytes_region. apply map_union_subseteq_r, map_disjoint_spec. intros k x y Hx Hy. apply region_lookup_Some in Hx as (Hk & Hx). apply lookup_lt_Some in Hx.
  pose proof (zlen_encode host 8 v) as Hz. unfold zlen in Hz. destruct (stack_fresh h) as (_ & Hf). rewrite Hf in Hy; [done|lia].
Qed.

(** A program on a local variable. *)
Lemma with_local_emits v k h w : emits (k (stack_slot h)) (local_heap h v) w ->
  forall st, st_heap st = h -> buffer_wf (st_buffer st) -> room (local_heap h v) (st_buffer st) (zlen w) ->
    exists b', with_local v k st = Some (mkState h b' (st_map st), inr tt) /\ appended (st_buffer st) b' w.
Proof.
  intros He [h' b m] Hh Hb Hr. cbn [st_heap st_buffer st_map] in *. subst h'. destruct (He (mkState (local_heap h v) b m) eq_refl Hb Hr) as (b' & E & A). exists b'. split; [|done].
  unfold with_local. rewrite (bind_inr _ _ (mkState h b m) (mkState h b m) (stack_slot h)) by done.
  rewrite (bind_inr _ _ (mkState h b m) (mkState (local_heap h v) b m) tt) by done. unfold finally. rewrite E. cbn [update_heap st_heap st_buffer st_map local_heap cells blocks].
  destruct (stack_fresh h) as (_ & Hf). pose proof (zlen_encode host 8 v) as Hz. pose proof (drop_local (cells h) (stack_slot h) (encode host 8 v)) as Hd.
  rewrite Hz in Hd. replace (length (encode host 8 v)) with 8%nat in Hd by (unfold zlen in Hz; lia). rewrite Hd by done. by destruct h.
Qed.

(** The body of [lwmsg_data_marshal], up to the end of the buffer. *)
Lemma marshal_root type object iter h v w hp : lwmsg_type_iterate_promoted specs class_is_pointer type zero_iter = Some iter ->
  obj specs byte_order iter ∅ (encode host 8 object) h v w -> cells h ⊆ cells hp ->
  exists n, forall fuel, (n <= fuel)%nat -> forall b, buffer_wf b -> room (local_heap hp object) b (zlen w) -> exists b', appended b b' w /\
    lwmsg_data_marshal specs byte_order fuel type object (mkState hp b empty_map) =
    match lwmsg_buffer_finish (mkState hp b' empty_map) with
    | Some (st, r) => Some (mkState (st_heap st) (st_buffer st) (mkMap (next_id (st_map st)) false []), r)
    | None => None
    end.
Proof.
  intros Hi Ho Hh. destruct (proj1 marshal_spec _ _ _ _ _ _ Ho) as (n & Hn). exists n. intros fuel Hf b Hb Hr.
  destruct (with_local_emits object (fun a => lwmsg_data_marshal_internal specs byte_order fuel 0 iter a) hp w) with (mkState hp b empty_map) as (b' & E & A); [|done..|].
  { rewrite <-(set_dom_self iter). apply (Hn fuel Hf); [apply stack_fresh| |apply local_region|by intros ? ? ? ?]. etrans; [exact Hh|]. apply local_heap_sub. }
  exists b'. split; [done|]. unfold lwmsg_data_marshal, with_map. rewrite (bind_inr _ _ _ (mkState hp b empty_map) tt) by done. unfold finally.
  rewrite (bind_inr _ _ _ (mkState hp b empty_map) iter) by (by apply get_Some). rewrite (bind_inr _ _ _ _ _ E). cbn [st_map].
  by destruct (lwmsg_buffer_finish (mkState hp b' empty_map)) as [[st r]|].
Qed.

Lemma finish_alloc hp b m : b_wrap b = WRAP_MARSHAL_ALLOC -> buffer_wf b -> 4 * b_cursor b + 512 <= avail hp -> b_cursor b < 2 ^ 60 ->
  exists b', lwmsg_buffer_finish (mkState hp b m) = Some (mkState hp b' m, inr tt) /\ written b' = written b /\ b_cursor b' = b_cursor b.
Proof.
  intros Hw (Hl & Hc & Hg) Ha Hb. specialize (Hg ltac:(by rewrite Hw)). unfold lwmsg_buffer_finish. rewrite get_buffer_eq. cbn [st_buffer]. rewrite Hw. unfold call_wrap. rewrite get_buffer_eq. cbn [st_buffer]. rewrite Hw.
  unfold lwmsg_data_marshal_alloc_wrap. rewrite get_buffer_eq. cbn [st_buffer]. unfold enlarge. rewrite get_buffer_eq. cbn [st_buffer].
  assert (Hn : 1 <= new_length b <= avail hp) by (unfold new_length, u64; destruct (Z.eqb_spec (b_end b) 0); [lia|rewrite Z.mod_small; lia]).
  destruct (malloc_ok hp _ Hn) as (a & Hm). rewrite (bind_inr _ _ _ (mkState hp b m) (Some a)) by (apply read_heap_Some; cbn; by rewrite Hm).
  eexists. split; [reflexivity|]. split; [|done]. unfold written. cbn. rewrite (take_ge (b_base b)) by (unfold zlen in Hl; lia). apply take_app_le. unfold zlen in Hl. lia.
Qed.

(** Into a new block. *)
Lemma marshal_alloc_ok type object iter h v w hp : lwmsg_type_iterate_promoted specs class_is_pointer type zero_iter = Some iter ->
  obj specs byte_order iter ∅ (encode host 8 object) h v w -> cells h ⊆ cells hp -> 4 * zlen w + 1024 <= avail hp -> zlen w < 2 ^ 60 ->
  exists n, forall fuel, (n <= fuel)%nat -> lwmsg_data_marshal_flat_alloc specs byte_order fuel hp type object = Some (hp, LWMSG_STATUS_SUCCESS, w).
Proof.
  intros Hi Ho Hh Ha Hl. destruct (marshal_root _ _ _ _ _ _ _ Hi Ho Hh) as (n & Hn). exists n. intros fuel Hf. pose proof (avail_stack hp object) as Hs.
  destruct (Hn fuel Hf (mkBuffer [] 0 0 WRAP_MARSHAL_ALLOC)) as (b' & (W & T & C & K & _) & E); [split; cbn; [done|lia]|unfold room; cbn [b_wrap b_cursor b_end]; zl|]. cbn in T, C, K.
  destruct (finish_alloc hp b' empty_map) as (b2 & F & T2 & C2); [done|done|lia|lia|]. unfold lwmsg_data_marshal_flat_alloc. change (mkMap 0 false []) with empty_map in *. rewrite E, F. cbn [st_heap st_buffer].
  fold (written b2). by rewrite T2, T.
Qed.

(** C14: An object graph in memory that has a value of its type is marshalled to the
    wire form of the value: into a new block that grows as needed, and into a block of
    the caller that is large enough. Memory is left as it was. A bound on the nesting
    suffices. *)
Theorem marshal_correct type object iter h v w hp : lwmsg_type_iterate_promoted specs class_is_pointer type zero_iter = Some iter ->
  obj specs byte_order iter ∅ (encode host 8 object) h v w -> cells h ⊆ cells hp -> 4 * zlen w + 1024 <= avail hp -> zlen w < 2 ^ 60 ->
  exists n, forall fuel, (n <= fuel)%nat ->
    lwmsg_data_marshal_flat_alloc specs byte_order fuel hp type object = Some (hp, LWMSG_STATUS_SUCCESS, w) /\
    forall buffer, zlen w <= zlen buffer -> exists rest,
      lwmsg_data_marshal_flat specs byte_order fuel hp type object buffer (zlen buffer) = Some (hp, LWMSG_STATUS_SUCCESS, w ++ rest) /\ zlen (w ++ rest) = zlen buffer.
Proof.
  intros Hi Ho Hh Ha Hl. destruct (marshal_alloc_ok _ _ _ _ _ _ _ Hi Ho Hh Ha Hl) as (n1 & Hn1). destruct (marshal_root _ _ _ _ _ _ _ Hi Ho Hh) as (n & Hn). exists (max n1 n).
  intros fuel Hf. pose proof (avail_stack hp object) as Hs. split; [apply Hn1; lia|].
  intros buffer Hb. destruct (Hn fuel ltac:(lia) (mkBuffer buffer (zlen buffer) 0 WRAP_NULL)) as (b' & (W & T & C & K & L) & E); [split; cbn; [done|split; [zl|done]]|unfold room; cbn [b_wrap b_cursor b_end]; zl|]. cbn in T, C, K, L. specialize (L eq_refl).
  exists (drop (Z.to_nat (b_cursor b')) (b_base b')). unfold lwmsg_data_marshal_flat. rewrite E. unfold lwmsg_buffer_finish. rewrite get_buffer_eq. cbn [st_buffer]. rewrite K. cbn. change (written (mkBuffer buffer (zlen buffer) 0 WRAP_NULL) ++ w) with w in T.
  rewrite <-T. unfold written. rewrite take_drop. split; [done|]. destruct W. lia.
Qed.

End Ops.
