(* ===== verification/LwmsgFill.v ===== *)
(** Programs that read from a buffer and fill memory: what they leave of memory as it
    was, what they make, how they are composed, and the loops and allocations among
    them. *)

From stdpp Require Import gmap.
From S2P Require Import Prelude Lwmsg LwmsgType LwmsgOps LwmsgData LwmsgMarshal LwmsgHeap LwmsgWire LwmsgMarshalOps.

(** * Reading from a buffer *)

(** The bytes that are left to be read. *)
Definition unread (b : LWMsgBuffer) (w : mem) : Prop := b_wrap b = WRAP_NULL /\ 0 <= b_cursor b /\ rd (b_base b) (b_cursor b) (b_end b - b_cursor b) = Some w.

Section Ops.
Context {hostI : Host} {mallocI : Malloc} {lawsI : MallocLaws}.

Lemma unread_split b w r : unread b (w ++ r) -> b_cursor b + zlen w <= b_end b /\ rd (b_base b) (b_cursor b) (zlen w) = Some w /\ unread (set_cursor (b_cursor b + zlen w) b) r.
Proof.
  intros (Hw & Hc & Hr). pose proof (rd_length _ _ _ _ Hr) as Hl. rewrite zlen_app in Hl. apply rd_Some in Hr as (p & q & Hb & Hp & _). rewrite Hb. split; [zl|]. split.
  - rewrite <-app_assoc. by apply rd_at.
  - split; [done|]. cbn [set_cursor b_cursor b_base b_end b_wrap]. rewrite Hb. split; [zl|]. replace (p ++ (w ++ r) ++ q) with ((p ++ w) ++ r ++ q) by (by rewrite <-!app_assoc). apply rd_at; zl.
Qed.

Lemma read_loop_ok put st w r : unread (st_buffer st) (w ++ r) -> w <> [] -> forall st', put 0 w st = Some (st', inr tt) -> st_buffer st' = st_buffer st ->
  read_loop buffer_fuel put [] 0 (zlen w) st = Some (mkState (st_heap st') (set_cursor (b_cursor (st_buffer st) + zlen w) (st_buffer st)) (st_map st'), inr w).
Proof.
  intros Hu Hw st' Hp Hb. destruct (unread_split _ _ _ Hu) as (Hc & Hr & _). change buffer_fuel with (S 69). unfold read_loop; fold read_loop.
  destruct (Z.eqb_spec (zlen w) 0) as [Hz|Hz]; [by apply zlen_0_inv in Hz|]. rewrite get_buffer_eq. destruct (Z.ltb_spec (b_end (st_buffer st)) (b_cursor (st_buffer st) + zlen w)); [lia|].
  rewrite (bind_inr _ _ _ _ _ (get_Some _ _ _ Hr)), (bind_inr _ _ _ _ _ Hp), set_buffer_eq. done.
Qed.

Lemma read_local_ok hp b mp w r cap n : unread b (w ++ r) -> n = zlen w -> n <= cap ->
  exists b', lwmsg_buffer_read_local cap n (mkState hp b mp) = Some (mkState hp b' mp, inr w) /\ unread b' r.
Proof.
  intros Hu -> Hc. destruct w as [|x w]; [exists b; by split|]. destruct (unread_split _ _ _ Hu) as (_ & _ & Hr). eexists. split; [|exact Hr]. unfold lwmsg_buffer_read_local.
  rewrite (read_loop_ok _ (mkState hp b mp) (x :: w) r Hu ltac:(done) (mkState hp b mp)); [done| |done]. destruct (Z.leb_spec (0 + zlen (x :: w)) cap); [done|lia].
Qed.

Lemma read_heap_ok hp a old b mp w r n : unread b (w ++ r) -> n = zlen w -> region a old ⊆ cells hp -> zlen old = zlen w ->
  exists b', lwmsg_buffer_read a n (mkState hp b mp) = Some (mkState (mkHeap (region a w ∪ cells hp) (blocks hp)) b' mp, inr tt) /\ unread b' r.
Proof.
  intros Hu -> Ho Hl. destruct w as [|x w].
  { exists b. split; [|done]. rewrite region_nil, map_empty_union. by destruct hp. }
  destruct (unread_split _ _ _ Hu) as (_ & _ & Hr). eexists. split; [|exact Hr]. unfold lwmsg_buffer_read. erewrite bind_inr; [reflexivity|].
  rewrite (read_loop_ok _ (mkState hp b mp) (x :: w) r Hu ltac:(done) (mkState (mkHeap (region a (x :: w) ∪ cells hp) (blocks hp)) b mp)); [done| |done].
  unfold update_heap. cbn [st_heap]. rewrite Z.add_0_r. by rewrite (store_region hp a old).
Qed.

(** * Memory after a program has filled the bytes at [a] and made new objects *)

Definition hput (hp : heap) (a : Z) (bs : mem) (h : heap) : heap := mkHeap (region a bs ∪ (cells hp ∪ cells h)) (blocks hp ∪ blocks h).

Lemma region_dom a bs : dom (region a bs) = dom (region a (zeros (zlen bs))).
Proof.
  apply set_eq. intros k. rewrite !elem_of_dom. unfold is_Some. split; intros (x & Hx); apply region_lookup_Some in Hx as (Ha & Hx); apply lookup_lt_Some in Hx.
  - exists 0. apply region_lookup_Some. split; [done|]. unfold zeros. apply lookup_replicate. split; [done|]. unfold zlen. lia.
  - unfold zeros in Hx. rewrite length_replicate in Hx. destruct (bs !! Z.to_nat (k - a)) as [y|] eqn:Hy; [|apply lookup_ge_None in Hy; unfold zlen in Hx; lia].
    exists y. by apply region_lookup_Some.
Qed.

Lemma avail_put hp a old bs : region a old ⊆ cells hp -> zlen bs = zlen old -> avail (hput hp a bs hempty) = avail hp.
Proof.
  intros Hs Hl. apply avail_dom; cbn; rewrite map_union_empty; [|done]. rewrite dom_union_L. apply subseteq_union_L. rewrite region_dom, Hl, <-region_dom. by apply subseteq_dom.
Qed.

Lemma hput_empty hp a bs : hput hp a bs hempty = mkHeap (region a bs ∪ cells hp) (blocks hp).
Proof. unfold hput, hempty. cbn. by rewrite !map_union_empty. Qed.

Lemma hput_same hp a bs : region a bs ⊆ cells hp -> hput hp a bs hempty = hp.
Proof. intros Hs. rewrite hput_empty, map_subseteq_union by done. by destruct hp. Qed.

Lemma hdisj_empty hp : hdisj hp hempty.
Proof. split; cbn; apply map_disjoint_empty_r. Qed.

(** What is known is kept by writes elsewhere. *)
Definition dom_away (d : Z) (dom : known) (a n : Z) : Prop := forall o s u, dom !! (o, s) = Some u -> d + o + s <= a \/ a + n <= d + o.

Lemma dom_ok_put hp d dom a bs h : dom_ok hp d dom -> dom_away d dom a (zlen bs) -> dom_ok (hput hp a bs h) d dom.
Proof.
  intros Hd Ha o s u Hu. destruct (Hd _ _ _ Hu) as (Hs & Hr & Hsub). split; [done|]. split; [done|]. cbn. apply map_subseteq_spec. intros k x Hx.
  rewrite lookup_union_r. { apply lookup_union_Some_l. by eapply lookup_weaken. }
  apply region_lookup_Some in Hx as (Hk & Hx). apply lookup_lt_Some in Hx. pose proof (zlen_encode host (Z.to_nat s) u) as Hz. unfold zlen in Hz. apply region_lookup_None. destruct (Ha _ _ _ Hu); lia.
Qed.

(** * Loops, one turn after the other *)

Fixpoint for_nat (n : nat) (j : Z) (body : Z -> prog ()) : prog () :=
  match n with O => ret tt | S n => body j;; for_nat n (j + 1) body end.

Lemma bind_assoc {A B C} (m : prog A) (k : A -> prog B) (l : B -> prog C) st : bind (bind m k) l st = bind m (fun x => bind (k x) l) st.
Proof. unfold bind. by destruct (m st) as [[? [?|?]]|]. Qed.

Lemma bind_ext {A B} (m m' : prog A) (k k' : A -> prog B) st : m st = m' st -> (forall x st, k x st = k' x st) -> bind m k st = bind m' k' st.
Proof. intros Hm Hk. unfold bind. rewrite Hm. by destruct (m' st) as [[? [?|?]]|]. Qed.

Lemma for_nat_add n m body : forall j st, for_nat (n + m) j body st = (for_nat n j body;; for_nat m (j + Z.of_nat n) body) st.
Proof.
  induction n as [|n IH]; intros j st; cbn [Nat.add for_nat].
  - change (bind (ret tt) (fun _ => for_nat m (j + Z.of_nat 0) body) st) with (for_nat m (j + Z.of_nat 0) body st). by rewrite Z.add_0_r.
  - rewrite bind_assoc. apply bind_ext; [done|]. intros _ st'. rewrite IH. by replace (j + 1 + Z.of_nat n) with (j + Z.of_nat (S n)) by lia.
Qed.

Lemma for_pos_nat p body : forall j st, for_pos p j body st = for_nat (Pos.to_nat p) j body st.
Proof.
  assert (H2 : forall q, (forall j st, for_pos q j body st = for_nat (Pos.to_nat q) j body st) -> forall j st,
    (for_pos q j body;; for_pos q (j + Z.pos q) body) st = for_nat (Pos.to_nat q + Pos.to_nat q) j body st).
  { intros q IH j st. rewrite for_nat_add, positive_nat_Z. apply bind_ext; [apply IH|]. intros _ st'. apply IH. }
  induction p as [q IH|q IH|]; intros j st; cbn [for_pos].
  - rewrite Pos2Nat.inj_xI. cbn [Nat.mul]. rewrite Nat.add_0_r. cbn [for_nat]. apply bind_ext; [done|]. intros _ st'. by apply H2.
  - rewrite Pos2Nat.inj_xO. cbn [Nat.mul]. rewrite Nat.add_0_r. by apply H2.
  - change (Pos.to_nat 1) with 1%nat. cbn [for_nat]. unfold bind, ret. by destruct (body j st) as [[? [?|[]]]|].
Qed.

Lemma for_loop_nat n body st : for_loop (Z.of_nat n) body st = for_nat n 0 body st.
Proof. destruct n as [|n]; [done|]. change (Z.of_nat (S n)) with (Z.pos (Pos.of_succ_nat n)). cbn [for_loop]. rewrite for_pos_nat. by rewrite SuccNat2Pos.id_succ. Qed.

Lemma for_nat_shift n body : forall j st, for_nat n (j + 1) body st = for_nat n j (fun k => body (k + 1)) st.
Proof. induction n as [|n IH]; intros j st; [done|]. cbn [for_nat]. apply bind_ext; [done|]. intros _ st'. apply IH. Qed.

Lemma on_error_inr {A} (m : prog A) cleanup st st' x : m st = Some (st', inr x) -> on_error m cleanup st = Some (st', inr x).
Proof. unfold on_error. by intros ->. Qed.

(** * Memory after several steps *)

Lemma region_over a bs old : zlen bs = zlen old -> region a bs ∪ region a old = region a bs.
Proof.
  intros Hl. apply map_eq. intros k. destruct (region a bs !! k) as [x|] eqn:Hx; [by apply lookup_union_Some_l|].
  rewrite lookup_union_r by done. apply region_lookup_None in Hx. apply region_lookup_None. by rewrite <-Hl.
Qed.

Lemma hput_seq hp a b1 h1 b2 h2 n : zlen b1 = n -> hput (hput hp a b1 h1) (a + n) b2 h2 = hput hp a (b1 ++ b2) (hunion h1 h2).
Proof.
  intros <-. unfold hput, hunion. cbn. f_equal; [|by rewrite !map_union_assoc]. rewrite region_app, !map_union_assoc. do 3 f_equal. apply map_union_comm, region_disjoint. lia.
Qed.

Lemma region_sub_l a p q c : region a (p ++ q) ⊆ c -> region a p ⊆ c.
Proof. rewrite region_app. intros Hs. etrans; [|exact Hs]. apply map_union_subseteq_l. Qed.
Lemma region_sub_r a p q c : region a (p ++ q) ⊆ c -> region (a + zlen p) q ⊆ c.
Proof. rewrite region_app. intros Hs. etrans; [|exact Hs]. apply map_union_subseteq_r, region_disjoint. lia. Qed.

Lemma hput_wr hp a cur off b cur1 h : region a cur ⊆ cells hp -> wr cur off b = Some cur1 -> hput hp (a + off) b h = hput hp a cur1 h.
Proof.
  intros Hs (p & old & q & -> & -> & <- & Ho)%wr_Some. pose proof (region_sub_l _ _ _ _ Hs) as Hp. apply region_sub_r in Hs as Hq. apply region_sub_r in Hq. rewrite Ho in Hq. unfold hput. f_equal.
  rewrite !region_app, <-!map_union_assoc. rewrite (map_subseteq_union (region (a + zlen p + zlen b) q)) by (etrans; [exact Hq|apply map_union_subseteq_l]).
  rewrite (map_union_assoc (region a p)), (map_union_comm (region a p)) by (apply region_disjoint; lia). rewrite <-map_union_assoc. f_equal. symmetry. apply map_subseteq_union. etrans; [exact Hp|apply map_union_subseteq_l].
Qed.

Lemma hput_over hp a c1 h1 c2 h2 : zlen c2 = zlen c1 -> hput (hput hp a c1 h1) a c2 h2 = hput hp a c2 (hunion h1 h2).
Proof. intros Hl. unfold hput, hunion. cbn. f_equal; [|by rewrite map_union_assoc]. rewrite !map_union_assoc. by rewrite region_over. Qed.

Lemma hput_pad hp a n k b h : region a (zeros (n + k)) ⊆ cells hp -> zlen b = n -> 0 <= k -> hput hp a (b ++ zeros k) h = hput hp a b h.
Proof.
  intros Hs <- Hk. symmetry. rewrite <-(Z.add_0_r a) at 1. eapply hput_wr; [exact Hs|]. rewrite (zeros_cut (zlen b + k) (zlen b)) by zl. replace (zlen b + k - zlen b) with k by lia. apply wr_at_0. apply zlen_zeros. zl.
Qed.

Lemma hdisj_put hp a b h1 h2 : hdisj (hput hp a b h1) h2 -> hdisj hp h2 /\ hdisj h1 h2.
Proof. intros (Hc & Hb). cbn in *. rewrite !map_disjoint_union_l in *. unfold hdisj. tauto. Qed.

Lemma hdisj_union hp h1 h2 : hdisj hp h1 -> hdisj hp h2 -> hdisj hp (hunion h1 h2).
Proof. intros (? & ?) (? & ?). split; cbn; by apply map_disjoint_union_r. Qed.

Lemma sub_put hp a b h x bs : region x bs ⊆ cells hp -> x + zlen bs <= a \/ a + zlen b <= x -> region x bs ⊆ cells (hput hp a b h).
Proof.
  intros Hs Hd. cbn. apply map_subseteq_spec. intros k y Hk. rewrite lookup_union_r; [apply lookup_union_Some_l; by eapply lookup_weaken|].
  apply region_lookup_Some in Hk as (Hx & Hk). apply lookup_lt_Some in Hk. apply region_lookup_None. unfold zlen in *. lia.
Qed.

(** * Programs that fill [n] bytes of zeros from the bytes [w] of the buffer: what they
    make has the property [O]; they take at most [c] of the room in memory. *)

Definition fills {A} (c n : Z) (w : mem) (dom : known) (O : mem -> heap -> Prop) (m : Z -> Z -> prog A) (x : A) : Prop :=
  0 <= c /\ forall hp a d b r mp, 0 < a -> region a (zeros n) ⊆ cells hp -> dom_ok hp d dom -> dom_away d dom a n -> unread b (w ++ r) -> c <= avail hp ->
    exists bs h b', m d a (mkState hp b mp) = Some (mkState (hput hp a bs h) b' mp, inr x) /\ unread b' r /\ zlen bs = n /\ O bs h /\
      hdisj hp h /\ avail hp - c <= avail (hput hp a bs h).

Section Fills.
Context {A B : Type}.
Implicit Types (m : Z -> Z -> prog A) (O : mem -> heap -> Prop).

Lemma fills_ext c n w dom O m m' x : (forall d a st, m d a st = m' d a st) -> fills c n w dom O m x -> fills c n w dom O m' x.
Proof. intros He (Hc & Hf). split; [done|]. intros. rewrite <-He. by apply Hf. Qed.

Lemma fills_mono c c' n w dom O O' m x : c <= c' -> (forall bs h, zlen bs = n -> O bs h -> O' bs h) -> fills c n w dom O m x -> fills c' n w dom O' m x.
Proof.
  intros Hc Ho (Hc0 & Hf). split; [lia|]. intros hp a d b r mp. intros. destruct (Hf hp a d b r mp) as (bs & h & b' & E & ? & ? & ? & ? & ?); [done..|lia|]. exists bs, h, b'. split_and!; try done; [by apply Ho|lia].
Qed.

(** A program that goes on with one that does nothing more to the state. *)
Lemma fills_bind c n w dom O m x (k : Z -> A -> prog B) y : (forall a st, k a x st = Some (st, inr y)) -> fills c n w dom O m x -> fills c n w dom O (fun d a => bind (m d a) (k a)) y.
Proof.
  intros Hk (Hc & Hf). split; [done|]. intros hp a d b r mp. intros. destruct (Hf hp a d b r mp) as (bs & h & b' & E & ?); [done..|]. exists bs, h, b'. by rewrite (bind_inr _ _ _ _ _ E), Hk.
Qed.

(** A program that depends on the address. *)
Lemma fills_dep c n w dom O (m : Z -> Z -> Z -> prog A) x : (forall g, fills c n w dom O (m g) x) -> fills c n w dom O (fun d a => m a d a) x.
Proof. intros Hf. split; [apply (Hf 0)|]. intros hp a d b r mp. intros. by apply (proj2 (Hf a) hp a d b r mp). Qed.

Lemma fills_pad c n k w dom O m x : 0 <= n -> 0 <= k -> fills c n w dom O m x -> fills c (n + k) w dom (fun bs h => exists b, bs = b ++ zeros k /\ zlen b = n /\ O b h) m x.
Proof.
  intros Hn Hk (Hc & Hf). split; [done|]. intros hp a d b r mp Ha Hz Hd Haw Hu Hav. destruct (Hf hp a d b r mp) as (bs & h & b' & E & U & L & Ho & Hh & Hr); [done| |done| |done|done|].
  { rewrite (zeros_cut (n + k) n) in Hz by lia. by apply region_sub_l in Hz. }
  { intros o s u Hl. destruct (Haw _ _ _ Hl); [by left|right; lia]. }
  exists (bs ++ zeros k), h, b'. rewrite (hput_pad hp a n k) by done. split; [done|]. split; [done|]. split; [rewrite zlen_app, zlen_zeros; lia|]. split; [by exists bs|done].
Qed.
End Fills.

(** A program that fills nothing. *)
Lemma fills_ret dom (O : mem -> heap -> Prop) : O [] hempty -> fills 0 0 [] dom O (fun _ _ => ret tt) tt.
Proof.
  intros Ho. split; [done|]. intros hp a d b r mp Ha Hz _ _ Hu Hav. exists [], hempty, b. rewrite hput_same by done. split; [done|]. do 3 (split; [done|]). split; [apply hdisj_empty|lia].
Qed.

Lemma fills_seq {A} c1 c2 n1 n2 w1 w2 dom O1 O2 (m1 : Z -> Z -> prog ()) (m2 : Z -> Z -> prog A) x : 0 <= n1 -> 0 <= n2 ->
  fills c1 n1 w1 dom O1 m1 tt -> fills c2 n2 w2 dom O2 m2 x ->
  fills (c1 + c2) (n1 + n2) (w1 ++ w2) dom (fun bs h => exists b1 b2 h1 h2, bs = b1 ++ b2 /\ h = hunion h1 h2 /\ hdisj h1 h2 /\ zlen b1 = n1 /\ O1 b1 h1 /\ O2 b2 h2)
    (fun d a => m1 d a;; m2 d (a + n1)) x.
Proof.
  intros Hn1 Hn2 (Hc1 & F1) (Hc2 & F2). split; [lia|]. intros hp a d b r mp Ha Hz Hd Haw Hu Hav. rewrite (zeros_cut (n1 + n2) n1) in Hz by lia. replace (n1 + n2 - n1) with n2 in Hz by lia. rewrite <-app_assoc in Hu.
  destruct (F1 hp a d b (w2 ++ r) mp) as (b1 & h1 & b' & E1 & U1 & L1 & O1' & D1 & A1); [done|by apply region_sub_l in Hz|done| |done|lia|].
  { intros o s u Hl. destruct (Haw _ _ _ Hl); [by left|right; lia]. }
  apply region_sub_r in Hz as Hz2. rewrite zlen_zeros in Hz2 by done.
  destruct (F2 (hput hp a b1 h1) (a + n1) d b' r mp) as (b2 & h2 & b'' & E2 & U2 & L2 & O2' & D2 & A2); [lia|apply sub_put; [done|lia]| | |done|lia|].
  { apply dom_ok_put; [done|]. rewrite L1. intros o s u Hl. destruct (Haw _ _ _ Hl); [by left|right; lia]. }
  { intros o s u Hl. destruct (Haw _ _ _ Hl); [left; lia|right; lia]. }
  exists (b1 ++ b2), (hunion h1 h2), b''. rewrite (bind_inr _ _ _ _ _ E1), E2, (hput_seq _ _ _ _ _ _ _ L1). apply hdisj_put in D2 as (D2 & D12). split; [done|]. split; [done|]. split; [rewrite zlen_app; lia|].
  split; [by exists b1, b2, h1, h2|]. split; [by apply hdisj_union|]. rewrite (hput_seq _ _ _ _ _ _ _ L1) in A2. lia.
Qed.

(** * Filling a new block *)

Lemma fresh_disjoint (m : gmap Z Z) p bs : (forall k, p <= k < p + zlen bs -> m !! k = None) -> m ##ₘ region p bs.
Proof.
  intros Hf. apply map_disjoint_spec. intros k x y Hx Hy. apply region_lookup_Some in Hy as (Hk & Hy). apply lookup_lt_Some in Hy. rewrite Hf in Hx; [done|unfold zlen; lia].
Qed.

(** What is known is away from a new block. *)
Lemma dom_away_fresh hp d dom p n : dom_ok hp d dom -> 1 <= n -> (forall k, p <= k < p + n -> cells hp !! k = None) -> forall n', n' <= n -> dom_away d dom p n'.
Proof.
  intros Hd Hn Hf n' Hn' o s u Hu. destruct (Hd _ _ _ Hu) as (Hs & _ & Hsub). destruct (Z.le_gt_cases (d + o + s) p) as [|H1]; [by left|]. destruct (Z.le_gt_cases (p + n) (d + o)) as [|H2]; [right; lia|]. exfalso.
  set (k := Z.max p (d + o)). assert (Hk : is_Some (region (d + o) (encode host (Z.to_nat s) u) !! k)).
  { destruct (region (d + o) (encode host (Z.to_nat s) u) !! k) as [x|] eqn:Hx; [done|]. apply region_lookup_None in Hx. rewrite zlen_encode in Hx. lia. }
  destruct Hk as (x & Hx). apply (lookup_weaken _ _ _ _ Hx) in Hsub. rewrite Hf in Hsub; [done|lia].
Qed.

Lemma dom_ok_sub hp hp' d dom : cells hp ⊆ cells hp' -> dom_ok hp d dom -> dom_ok hp' d dom.
Proof. intros Hs Hd o s u Hu. destruct (Hd _ _ _ Hu) as (? & ? & ?). split; [done|]. split; [done|]. by etrans. Qed.

Lemma alloc_ok hp b mp size : 0 <= size -> size + 1 <= avail hp ->
  exists p n, malloc hp n = Some p /\ n = alloc_size size /\ 1 <= n /\ size <= n <= size + 1 /\ lwmsg_context_alloc size (mkState hp b mp) = Some (mkState (add_block hp p (zeros n)) b mp, inr p).
Proof.
  intros Hs Ha. assert (Hn : 1 <= alloc_size size /\ size <= alloc_size size <= size + 1) by (unfold alloc_size; destruct (Z.eqb_spec size 0); lia).
  destruct (malloc_ok hp (alloc_size size)) as (p & Hp); [lia|]. exists p, (alloc_size size). do 2 (split; [done|]). do 2 (split; [lia|]).
  unfold lwmsg_context_alloc, lwmsg_context_default_alloc. rewrite (bind_inr _ _ _ (mkState hp b mp) (Some (p, add_block hp p (zeros (alloc_size size))))); [done|]. apply read_heap_Some. cbn [st_heap]. by rewrite Hp.
Qed.

Lemma block_filled hp p n bs h : (forall k, p <= k < p + n -> cells hp !! k = None) -> blocks hp !! p = None -> zlen bs <= n ->
  hput (add_block hp p (zeros n)) p bs h = hunion hp (hunion (block p (bs ++ zeros (n - zlen bs))) h).
Proof.
  intros Hf Hb Hl. assert (Hn : zlen (bs ++ zeros (n - zlen bs)) = n) by (rewrite zlen_app, zlen_zeros; lia). unfold hput, add_block, hunion, block. cbn. rewrite put_bytes_region, Hn. f_equal.
  - rewrite (map_union_assoc (cells hp)), (map_union_comm (cells hp) (region p _)) by (apply fresh_disjoint; rewrite Hn; done). rewrite !map_union_assoc. do 2 f_equal.
    rewrite (zeros_cut n (zlen bs)), !region_app by zl. rewrite zlen_zeros by zl. rewrite map_union_assoc, region_over; [done|]. apply eq_sym, zlen_zeros. zl.
  - rewrite zlen_zeros by zl. rewrite map_union_assoc. f_equal. rewrite <-insert_union_singleton_r by done. done.
Qed.

Lemma block_disjoint hp p n bs h : (forall k, p <= k < p + n -> cells hp !! k = None) -> blocks hp !! p = None -> zlen bs = n -> hdisj (add_block hp p (zeros n)) h ->
  hdisj (block p bs) h /\ hdisj hp (hunion (block p bs) h).
Proof.
  intros Hf Hb Hl (Hc & Hk). cbn in Hc, Hk. rewrite put_bytes_region, map_disjoint_union_l in Hc. rewrite insert_union_singleton_l, map_disjoint_union_l in Hk. destruct Hc as (Hc1 & Hc2), Hk as (Hk1 & Hk2).
  assert (Hbd : hdisj (block p bs) h).
  { split; cbn. { apply map_disjoint_dom. rewrite region_dom, Hl. by apply map_disjoint_dom. } apply map_disjoint_singleton_l. by apply map_disjoint_singleton_l in Hk1. }
  split; [done|]. apply hdisj_union; split; cbn; try done; [apply fresh_disjoint; by rewrite Hl|by apply map_disjoint_singleton_r].
Qed.

Lemma alloc_fills {A} c n k w dom O (m : Z -> Z -> prog A) x : 0 <= n -> 0 <= k -> fills c n w dom O m x ->
  forall hp d b r mp, dom_ok hp d dom -> unread b (w ++ r) -> c + n + k + 65 <= avail hp ->
  exists p e bs h b', (lwmsg_context_alloc (n + k) (mkState hp b mp) = Some (mkState (add_block hp p (zeros (alloc_size (n + k)))) b mp, inr p)) /\
    m d p (mkState (add_block hp p (zeros (alloc_size (n + k)))) b mp) = Some (mkState (hunion hp (hunion (block p (bs ++ zeros k ++ e)) h)) b' mp, inr x) /\
    unread b' r /\ zlen bs = n /\ O bs h /\ 0 < p < 2 ^ 64 /\ hdisj (block p (bs ++ zeros k ++ e)) h /\ hdisj hp (hunion (block p (bs ++ zeros k ++ e)) h) /\
    avail hp - (c + n + k + 65) <= avail (hunion hp (hunion (block p (bs ++ zeros k ++ e)) h)).
Proof.
  intros Hn Hk (Hc & Hf) hp d b r mp Hd Hu Ha. destruct (alloc_ok hp b mp (n + k)) as (p & N & Hm & HN & H1 & HN2 & E); [lia|lia|]. rewrite <-HN in *.
  destruct (malloc_fresh hp N p H1 Hm) as (Hp & Hp2 & Hfr & Hbl). pose proof (avail_block hp N p (zeros N) H1 Hm (zlen_zeros N ltac:(lia))) as Hav.
  assert (Hsub : cells hp ⊆ cells (add_block hp p (zeros N))) by (cbn; rewrite put_bytes_region; apply map_union_subseteq_r, symmetry, fresh_disjoint; by rewrite zlen_zeros by lia).
  destruct (Hf (add_block hp p (zeros N)) p d b r mp) as (bs & h & b' & E2 & U & L & Ho & Dj & Av); [done| |by eapply dom_ok_sub|eapply dom_away_fresh; [done|exact H1|done|lia]|done|lia|].
  { cbn. rewrite put_bytes_region, (zeros_cut N n), region_app by lia. etrans; [|apply map_union_subseteq_l]. apply map_union_subseteq_l. }
  assert (He : zeros (N - zlen bs) = zeros k ++ zeros (N - zlen bs - k)) by (apply zeros_cut; lia).
  rewrite block_filled in E2, Av by (done || lia). rewrite He in E2, Av. assert (HL : zlen (bs ++ zeros k ++ zeros (N - zlen bs - k)) = N) by (rewrite !zlen_app, !zlen_zeros; lia).
  destruct (block_disjoint hp p N _ h Hfr Hbl HL Dj) as (D1 & D2). exists p, (zeros (N - zlen bs - k)), bs, h, b'. do 5 (split; [done|]). split; [lia|]. do 2 (split; [done|]). lia.
Qed.
End Ops.
