(* ===== verification/LwmsgUnmarshalOps.v ===== *)
(** The unmarshaller reads the wire form of objects that a host of any byte order has
    written: it makes an object with the same value. *)

From stdpp Require Import gmap.
From S2P Require Import Prelude Lwmsg LwmsgType LwmsgOps LwmsgData LwmsgMarshal LwmsgHeap LwmsgWire LwmsgMarshalOps LwmsgFill.

Section Ops.
(** [host1] has written the objects, [host2] reads them. *)
Context {host1 host2 : Host} {mallocI : Malloc} {lawsI : MallocLaws} {stackI : Stack} {userI : User} (specs : list Z) (byte_order : endian) (free_fuel : nat).

Abbreviation obj1 := (@obj host1 specs byte_order).
Abbreviation obj2 := (@obj host2 specs byte_order).
Abbreviation elems1 := (@obj_elems host1 specs byte_order).
Abbreviation elems2 := (@obj_elems host2 specs byte_order).
Abbreviation fields1 := (@obj_fields host1 specs byte_order).
Abbreviation fields2 := (@obj_fields host2 specs byte_order).
Abbreviation unmarshal_internal := (lwmsg_data_unmarshal_internal specs byte_order free_fuel).

(** * Integers and enumerations *)

Lemma convert_into_ok hp a b mp w s n v : 1 <= w -> 1 <= n -> int_fits s w v = true -> int_fits s n v = true -> region a (zeros n) ⊆ cells hp ->
  convert_into byte_order (encode byte_order (Z.to_nat w) v) w a n s (mkState hp b mp) = Some (mkState (hput hp a (encode host (Z.to_nat n) v) hempty) b mp, inr tt).
Proof.
  intros Hw Hn Hf Hf' Hs. unfold convert_into. rewrite (bind_inr _ _ _ (mkState hp b mp) (zeros n)) by (apply read_heap_Some, load_region; [by rewrite zlen_zeros by lia|done]).
  erewrite bind_inr; [|apply get_Some, convert_encode; [done..|apply zlen_zeros; lia]]. rewrite Hf'. rewrite hput_empty.
  rewrite (bind_inr _ _ _ (mkState (mkHeap (region a (encode host (Z.to_nat n) v) ∪ cells hp) (blocks hp)) b mp) tt); [done|].
  unfold update_heap. cbn [st_heap]. rewrite (store_region hp a (zeros n)); [done|done|]. rewrite zlen_encode, zlen_zeros; lia.
Qed.

Section Integer.
Context (i : LWMsgTypeIter) (w : Z) (s : LWMsgSignage) (v : Z) (dom : known).
Hypothesis (Hi : info i = InfoInteger w s) (Hw : 1 <= w <= 16) (Hs : 1 <= size i).
Hypothesis (Hf : int_fits s (size i) v = true) (Hf' : int_fits s w v = true) (Hr : in_range i s v).

(** The value of an integer or enumeration, once [pre] has looked at the bytes. *)
Lemma unmarshal_value_fills (pre : mem -> prog ()) : (forall st, pre (encode byte_order (Z.to_nat w) v) st = Some (st, inr tt)) ->
  fills 0 (size i) (encode byte_order (Z.to_nat w) v) dom (fun bs h => bs = encode host2 (Z.to_nat (size i)) v /\ h = hempty)
    (fun _ a => let* temp := lwmsg_buffer_read_local MAX_INTEGER_SIZE w in
       pre temp;;
       convert_into byte_order temp w a (size i) s;;
       if has_flag LWMSG_TYPE_FLAG_RANGE i then lwmsg_data_verify_range i a (size i) else ret tt) tt.
Proof.
  intros Hpre. split; [done|]. intros hp a d b r mp Ha Hz _ _ Hu Hc.
  destruct (read_local_ok hp b mp _ _ MAX_INTEGER_SIZE w Hu) as (b' & E & Hu'); [rewrite zlen_encode; lia|unfold MAX_INTEGER_SIZE; lia|].
  exists (encode host (Z.to_nat (size i)) v), hempty, b'. split; [|split; [done|split; [rewrite zlen_encode; lia|split; [done|split; [apply hdisj_empty|]]]]].
  - rewrite (bind_inr _ _ _ _ _ E), (bind_inr _ _ _ _ _ (Hpre _)). rewrite (bind_inr _ _ _ _ _ (convert_into_ok hp a b' mp w s (size i) v ltac:(lia) ltac:(lia) Hf' Hf Hz)).
    eapply verify_range_ok; [exact Hi|done|done|done|]. cbn. apply map_union_subseteq_l.
  - rewrite (avail_put hp a (zeros (size i))); [lia|done|]. rewrite zlen_encode, zlen_zeros; lia.
Qed.

Lemma unmarshal_integer_fills : fills 0 (size i) (encode byte_order (Z.to_nat w) v) dom (fun bs h => bs = encode host2 (Z.to_nat (size i)) v /\ h = hempty)
  (fun _ a => lwmsg_data_unmarshal_integer byte_order i a) tt.
Proof. eapply fills_ext; [|exact (unmarshal_value_fills (fun _ => ret tt) ltac:(done))]. intros d a st. unfold lwmsg_data_unmarshal_integer. by rewrite Hi. Qed.

Lemma unmarshal_enum_fills vars : int_fits s 8 v = true -> members specs i ≫= mapM variant = Some vars -> enum_value vars (u64 v) ->
  fills 0 (size i) (encode byte_order (Z.to_nat w) v) dom (fun bs h => bs = encode host2 (Z.to_nat (size i)) v /\ h = hempty) (fun _ a => lwmsg_data_unmarshal_enum specs byte_order i a) tt.
Proof.
  intros H8 Hm Hv. destruct (decode_enum_ok specs i vars (u64 v) Hm Hv) as (x & Hd).
  eapply fills_ext; [|apply (unmarshal_value_fills (fun temp => let* value := convert temp w byte_order 8 host s in lwmsg_data_decode_enum_value specs i (decode host value);; ret tt))].
  - intros d a st. unfold lwmsg_data_unmarshal_enum. rewrite Hi. apply bind_ext; [done|]. intros temp st'. rewrite bind_assoc. apply bind_ext; [done|]. intros value st''. by rewrite bind_assoc.
  - intros st. rewrite (bind_inr _ _ st st (encode host 8 v)) by (apply (convert_ok s byte_order host w 8 v); [lia|lia|done|done]).
    rewrite (decode_encode_mod host 8 v) by lia. change (v mod 256 ^ 8) with (u64 v). by rewrite (bind_inr _ _ _ _ _ (Hd st)).
Qed.
End Integer.

(** * Arrays *)

(** The elements at [a], one after the other. *)
Definition unmarshal_elems (fuel : nat) (g : Z) (i : LWMsgTypeIter) (n : nat) (d a : Z) : prog () :=
  for_nat n 0 (fun k => unmarshal_internal fuel d (set_dom g i) (a + k * size i)).

Lemma elems_next fuel g i n d a st : unmarshal_elems fuel g i (S n) d a st = (unmarshal_internal fuel d (set_dom g i) a;; unmarshal_elems fuel g i n d (a + size i)) st.
Proof.
  unfold unmarshal_elems. cbn [for_nat]. rewrite Z.mul_0_l, Z.add_0_r. apply bind_ext; [done|]. intros _ st'. rewrite for_nat_shift. 
  assert (He : forall n j st, for_nat n j (fun k => unmarshal_internal fuel d (set_dom g i) (a + (k + 1) * size i)) st = for_nat n j (fun k => unmarshal_internal fuel d (set_dom g i) (a + size i + k * size i)) st); [|apply He].
  intros n'. induction n' as [|n' IH]; intros j st2; [done|]. cbn [for_nat]. apply bind_ext; [|intros _ ?; apply IH]. f_equal. lia.
Qed.

Lemma direct_elems2 i dom bs h vs w : direct_copy i = true -> elems1 i dom bs h vs w -> elems2 i dom w hempty vs w.
Proof.
  intros Hd. induction 1 as [|i dom b bs h1 h2 v vs w1 w2 Ho Hb _ IH _]; [constructor|].
  assert (Ho2 : obj2 i dom w1 hempty v w1 /\ zlen w1 = size i).
  { unfold direct_copy in Hd. destruct Ho as [? ? Hk|? ? w s v Hk ? Hi|? ? w s v vars Hk ? Hi|? ? ? ? ? ? ? Hk|? ? ? ? ? ? ? ? ? ? ? ? Hk|? ? Hk|? ? ? ? ? ? ? ? ? ? ? Hk|? ? ? ? ? ? ? ? Hk]; rewrite Hk in Hd; try done.
    all: rewrite Hi in Hd; apply andb_true_iff in Hd as (->%Z.eqb_eq & Hd%Z.eqb_eq); (split; [|by rewrite zlen_encode, Hd]).
    - pose proof (@obj_int host2 specs byte_order i dom 1 s v) as Hx. rewrite Hd in Hx. change (Z.to_nat 1) with 1%nat in *. rewrite (encode_one byte_order host2) at 1. apply Hx; try done; congruence.
    - pose proof (@obj_enum host2 specs byte_order i dom 1 s v vars) as Hx. rewrite Hd in Hx. change (Z.to_nat 1) with 1%nat in *. rewrite (encode_one byte_order host2) at 1. apply Hx; try done; congruence. }
  destruct Ho2 as (Ho2 & Hl). rewrite <-(hunion_empty_r hempty). apply elems_cons; [done|done|by apply IH|apply hdisj_empty].
Qed.

Lemma indirect_fills fuel g i dom bs h vs w n c : elems1 i dom bs h vs w -> n = Z.of_nat (length vs) -> zlen bs < 2 ^ 64 -> 0 <= c ->
  fills c (zlen bs) w dom (fun bs' h' => elems2 i dom bs' h' vs w) (unmarshal_elems fuel g i (length vs)) tt ->
  fills c (zlen bs) w dom (fun bs' h' => elems2 i dom bs' h' vs w) (fun d a => lwmsg_data_unmarshal_indirect (unmarshal_internal fuel) d (set_dom g i) a n) tt.
Proof.
  intros He -> Hl Hc Hf. unfold lwmsg_data_unmarshal_indirect. change (direct_copy (set_dom g i)) with (direct_copy i). destruct (direct_copy i) eqn:Hd.
  - split; [done|]. intros hp a d b r mp Ha Hz _ _ Hu Hav. pose proof (@elems_length host1 specs byte_order _ _ _ _ _ _ He) as Hlen. pose proof (@direct_elems host1 specs byte_order _ _ _ _ _ _ Hd He) as Hw. subst w.
    destruct (read_heap_ok hp a (zeros (zlen bs)) b mp bs r (u64 (Z.of_nat (length vs) * size (set_dom g i))) Hu) as (b' & E & U); [|done|apply zlen_zeros; zl|].
    { change (size (set_dom g i)) with (size i). rewrite <-Hlen. unfold u64. apply Z.mod_small. zl. }
    exists bs, hempty, b'. rewrite E, hput_empty. split; [done|]. split; [done|]. split; [done|]. split; [by eapply direct_elems2|]. split; [apply hdisj_empty|].
    rewrite <-hput_empty, (avail_put hp a (zeros (zlen bs))); [lia|done|]. rewrite zlen_zeros; zl.
  - eapply fills_ext; [|exact Hf]. intros d a st. rewrite for_loop_nat. done.
Qed.

(** The number of elements. *)
Lemma prologue_ok g i t n dom hp d b r mp : info i = InfoIndirect t -> term_count dom t n -> 0 <= n -> dom_ok hp d dom -> unread b (length_prefix byte_order t n ++ r) ->
  exists b', lwmsg_data_unmarshal_indirect_prologue byte_order d (set_dom g i) (mkState hp b mp) = Some (mkState hp b' mp, inr n) /\ unread b' r.
Proof.
  intros Hi Ht Hn Hd Hu. unfold lwmsg_data_unmarshal_indirect_prologue. change (info (set_dom g i)) with (info i). rewrite Hi. destruct t as [k| |o s]; cbn [term_count length_prefix] in *.
  - destruct Ht as (-> & _). by exists b.
  - destruct (read_local_ok hp b mp _ _ 4 4 Hu) as (b' & E & U); [by rewrite zlen_encode|lia|]. exists b'. split; [|done]. rewrite (bind_inr _ _ _ _ _ E).
    rewrite (bind_inr _ _ _ (mkState hp b' mp) (encode host 8 n)) by (apply (convert_ok LWMSG_UNSIGNED byte_order host 4 8 n); [lia|lia|unfold int_fits; lia|unfold int_fits; change (256 ^ 8) with (2 ^ 64); lia]).
    rewrite (decode_encode_mod host 8 n) by lia. rewrite Z.mod_small; [done|]. change (256 ^ 8) with (2 ^ 64). lia.
  - destruct Ht as (Hk & Hs & Hl). exists b. split; [|done]. by eapply (extract_length_ok (set_dom g i) o s n dom d (mkState hp b mp)).
Qed.

(** * Pointers *)

Lemma enforce_ok i n st : max_alloc (attrs i) = 0 \/ n <= max_alloc (attrs i) -> enforce_max_alloc i n st = Some (st, inr tt).
Proof. intros Hm. unfold enforce_max_alloc. destruct (Z.eqb_spec (max_alloc (attrs i)) 0); [done|]. destruct (Z.ltb_spec (max_alloc (attrs i)) n); [lia|done]. Qed.

Lemma full_count_ok g i t inn n dom bs st : info i = InfoIndirect t -> term_count dom t n -> 0 <= n -> zlen bs = n * size inn -> 0 <= size inn < 2 ^ 63 ->
  zlen (bs ++ terminator t (size inn)) < 2 ^ 63 ->
  exists n', full_count (set_dom g i) n st = Some (st, inr n') /\ lwmsg_multiply_unsigned n' (size inn) = (LWMSG_STATUS_SUCCESS, Some (zlen (bs ++ terminator t (size inn)))).
Proof.
  intros Hi Ht Hn Hl Hs Hb. unfold full_count. change (info (set_dom g i)) with (info i). rewrite Hi. rewrite zlen_app in *. destruct t as [k| |o s]; cbn [term_count terminator] in *; rewrite ?zlen_nil, ?zlen_zeros in * by lia.
  - exists n. split; [done|]. rewrite multiply_exact by lia. rewrite <-Hl, Z.add_0_r. destruct (Z.ltb_spec (zlen bs) (2 ^ 64)); [done|lia].
  - exists (n + 1). split; [rewrite add_exact by lia; destruct (Z.ltb_spec (n + 1) (2 ^ 64)); [done|lia]|]. rewrite multiply_exact by lia. replace ((n + 1) * size inn) with (zlen bs + size inn) by lia.
    destruct (Z.ltb_spec (zlen bs + size inn) (2 ^ 64)); [done|lia].
  - exists n. split; [done|]. destruct Ht as (_ & Hs8 & Hl2). pose proof (pow256_mono s Hs8). rewrite multiply_exact by lia. rewrite <-Hl, Z.add_0_r. destruct (Z.ltb_spec (zlen bs) (2 ^ 64)); [done|lia].
Qed.

Lemma terminator_zeros t n : 0 <= n -> terminator t n = zeros (zlen (terminator t n)).
Proof. intros Hn. destruct t; cbn; [done|by rewrite zlen_zeros|done]. Qed.

(** [hp'] is [hp] with the elements that a pointer points to, in a new block at [p]. *)
Definition made (t : term) (inn : LWMsgTypeIter) (dom : known) (vs : list val) (w : mem) (n c : Z) (hp hp' : heap) (p : Z) : Prop :=
  exists e bs h, hp' = hunion hp (hunion (block p (bs ++ terminator t (size inn) ++ e)) h) /\ zlen bs = n /\ elems2 inn dom bs h vs w /\ 0 < p < 2 ^ 64 /\
    hdisj (block p (bs ++ terminator t (size inn) ++ e)) h /\ hdisj hp (hunion (block p (bs ++ terminator t (size inn) ++ e)) h) /\ avail hp - c <= avail hp'.

Lemma flag_ok g i hp b r mp f : unread b ((if has_flag LWMSG_TYPE_FLAG_NOT_NULL i then [] else [f]) ++ r) -> (has_flag LWMSG_TYPE_FLAG_NOT_NULL i = true -> f = 0xFF) ->
  exists b', (if has_flag LWMSG_TYPE_FLAG_NOT_NULL (set_dom g i) then ret [0xFF] else lwmsg_buffer_read_local 1 1) (mkState hp b mp) = Some (mkState hp b' mp, inr [f]) /\ unread b' r.
Proof.
  intros Hu Hf. rewrite has_flag_dom. destruct (has_flag LWMSG_TYPE_FLAG_NOT_NULL i); [exists b; by rewrite Hf|]. by apply (read_local_ok hp b mp [f] r 1 1).
Qed.

(** A pointer is stored where there is one. *)
Lemma store_ptr_ok hp h a p : region a (zeros 8) ⊆ cells hp -> store_ptr (hunion hp h) a p = Some (hput hp a (encode host 8 p) h).
Proof.
  intros Hs. unfold store_ptr. rewrite (store_region (hunion hp h) a (zeros 8)); [done| |by rewrite zlen_encode]. etrans; [exact Hs|]. apply map_union_subseteq_l.
Qed.

Lemma avail_store hp h a p : region a (zeros 8) ⊆ cells hp -> avail (hput hp a (encode host 8 p) h) = avail (hunion hp h).
Proof.
  intros Hs. apply avail_dom; [|done]. cbn. rewrite dom_union_L. apply subseteq_union_L. rewrite region_dom, zlen_encode. apply subseteq_dom. etrans; [exact Hs|]. apply map_union_subseteq_l.
Qed.

Section Pointees.
Context (fuel : nat) (g : Z) (i : LWMsgTypeIter) (t : term) (inn : LWMsgTypeIter) (dom : known) (bs : mem) (h : heap) (vs : list val) (w : mem) (n c : Z).
Hypothesis (Ha : has_flag LWMSG_TYPE_FLAG_ALIASABLE i = false) (Hi : info i = InfoIndirect t).
Hypothesis (Hin : lwmsg_type_enter specs i zero_iter = Some inn) (Hne : inner i <> 0) (Hn : n = Z.of_nat (length vs)) (Ht : term_count dom t n).
Hypothesis (Hs : 0 <= size inn < 2 ^ 63) (Hl : zlen (bs ++ terminator t (size inn)) < 2 ^ 63).
Hypothesis (Hma : max_alloc (attrs i) = 0 \/ zlen (bs ++ terminator t (size inn)) <= max_alloc (attrs i)) (He : elems1 inn dom bs h vs w).
Hypothesis (Hc : 0 <= c).

Definition cost : Z := c + zlen (bs ++ terminator t (size inn)) + 65.

(** A program that allocates a block for the elements and fills it. *)
Lemma made_fills {A} (m : Z -> Z -> prog A) x hp d b r mp : fills c (zlen bs) w dom (fun bs' h' => elems2 inn dom bs' h' vs w) m x ->
  dom_ok hp d dom -> unread b (w ++ r) -> cost <= avail hp ->
  exists p hp1 hp' b', lwmsg_context_alloc (zlen (bs ++ terminator t (size inn))) (mkState hp b mp) = Some (mkState hp1 b mp, inr p) /\
    m d p (mkState hp1 b mp) = Some (mkState hp' b' mp, inr x) /\ unread b' r /\ made t inn dom vs w (zlen bs) cost hp hp' p.
Proof.
  unfold cost. intros Hf Hd Hu Hav. rewrite zlen_app in *. destruct (alloc_fills c (zlen bs) (zlen (terminator t (size inn))) w dom _ _ x ltac:(zl) ltac:(zl) Hf hp d b r mp Hd Hu ltac:(lia))
    as (p & e & bs' & h' & b' & E1 & E2 & U & L & O & Hp & D1 & D2 & A1).
  rewrite <-terminator_zeros in * by lia. eexists p, _, _, b'. split; [exact E1|]. split; [exact E2|]. split; [done|]. exists e, bs', h'. do 6 (split; [done|]). lia.
Qed.

Lemma struct_pointee_ok : t <> TermZero -> length vs = 1%nat ->
  (forall g, fills c (zlen bs) w dom (fun bs' h' => elems2 inn dom bs' h' vs w) (fun _ a => lwmsg_data_unmarshal_struct specs (unmarshal_internal fuel) (set_dom g inn) a) 0) ->
  forall hp d b r mp, dom_ok hp d dom -> unread b (w ++ r) -> cost <= avail hp ->
    exists p hp' b', lwmsg_data_unmarshal_struct_pointee specs byte_order free_fuel (unmarshal_internal fuel) (set_dom g i) (set_dom g inn) (mkState hp b mp) = Some (mkState hp' b' mp, inr p) /\
      unread b' r /\ made t inn dom vs w (zlen bs) cost hp hp' p.
Proof.
  intros Htz H1 Hf hp d b r mp Hd Hu Hav. destruct (made_fills _ 0 hp d b r mp (fills_dep _ _ _ _ _ (fun g _ a => lwmsg_data_unmarshal_struct specs (unmarshal_internal fuel) (set_dom g inn) a) 0 Hf) Hd Hu Hav) as (p & hp1 & hp' & b' & E1 & E2 & U & M).
  exists p, hp', b'. split; [|done]. assert (Hsz : zlen (bs ++ terminator t (size inn)) = size inn).
  { rewrite zlen_app, (@elems_length host1 specs byte_order _ _ _ _ _ _ He), H1. destruct t; cbn [terminator]; [rewrite zlen_nil; lia|done|rewrite zlen_nil; lia]. }
  unfold lwmsg_data_unmarshal_struct_pointee, aliasable_size, insert_alias. rewrite !has_flag_dom, Ha. cbn [andb]. change (size (set_dom g inn)) with (size inn). rewrite Hsz in *.
  rewrite (bind_inr _ _ _ _ _ (enforce_ok (set_dom g i) (size inn) (mkState hp b mp) Hma)), (bind_inr _ _ _ _ _ E1), (bind_inr _ _ _ _ _ (on_error_inr (ret tt) _ _ _ tt eq_refl)), (bind_inr _ _ _ _ _ (on_error_inr _ _ _ _ _ E2)). done.
Qed.

Lemma pointees_ok : (t = TermZero -> scalar inn = true) ->
  (forall g, fills c (zlen bs) w dom (fun bs' h' => elems2 inn dom bs' h' vs w) (unmarshal_elems fuel g inn (length vs)) tt) ->
  (length vs = 1%nat -> kind inn = LWMSG_KIND_STRUCT ->
    forall g, fills c (zlen bs) w dom (fun bs' h' => elems2 inn dom bs' h' vs w) (fun _ a => lwmsg_data_unmarshal_struct specs (unmarshal_internal fuel) (set_dom g inn) a) 0) ->
  forall hp d b r mp, dom_ok hp d dom -> unread b (length_prefix byte_order t n ++ w ++ r) -> cost <= avail hp ->
    exists p hp' b', lwmsg_data_unmarshal_pointees specs byte_order free_fuel (unmarshal_internal fuel) d (set_dom g i) (mkState hp b mp) = Some (mkState hp' b' mp, inr p) /\
      unread b' r /\ made t inn dom vs w (zlen bs) cost hp hp' p.
Proof.
  intros Hnz Hfe Hfs hp d b r mp Hd Hu Hav. unfold lwmsg_data_unmarshal_pointees.
  rewrite (bind_inr _ _ _ (mkState hp b mp) (set_dom g inn)) by (apply get_Some; by rewrite type_enter_dom, (proj2 (Z.eqb_neq _ _) Hne), Hin).
  destruct (prologue_ok g i t n dom hp d b (w ++ r) mp Hi Ht ltac:(lia) Hd Hu) as (b1 & E1 & U1). rewrite (bind_inr _ _ _ _ _ E1). change (kind (set_dom g inn)) with (kind inn).
  destruct (bool_decide (kind inn = LWMSG_KIND_STRUCT) && (n =? 1)) eqn:Hcase.
  - apply andb_true_iff in Hcase as (Hk%bool_decide_eq_true & H1%Z.eqb_eq). eapply struct_pointee_ok; [intros Hz; apply Hnz in Hz; unfold scalar in Hz; by rewrite Hk in Hz|lia|apply Hfs; [lia|done]|exact Hd|done|done].
  - pose proof (@elems_length host1 specs byte_order _ _ _ _ _ _ He) as Hlen. rewrite <-Hn in Hlen. destruct (full_count_ok g i t inn n dom bs (mkState hp b1 mp) Hi Ht ltac:(lia) Hlen Hs Hl) as (n' & Ef & Em).
    rewrite (bind_inr _ _ _ _ _ Ef). change (size (set_dom g inn)) with (size inn). rewrite Em, (bind_inr _ _ _ (mkState hp b1 mp) (zlen (bs ++ terminator t (size inn)))) by done.
    unfold aliasable_size, insert_alias. rewrite !has_flag_dom, Ha. cbn [andb]. rewrite (bind_inr _ _ _ _ _ (enforce_ok (set_dom g i) _ (mkState hp b1 mp) Hma)).
    assert (Hlb : zlen bs < 2 ^ 64) by (rewrite zlen_app in Hl; pose proof (zlen_nonneg (terminator t (size inn))); lia).
    destruct (made_fills _ tt hp d b1 r mp (indirect_fills fuel g inn dom bs h vs w n c He Hn Hlb Hc (Hfe g)) Hd U1 Hav) as (p & hp1 & hp' & b' & E2 & E3 & U & M).
    exists p, hp', b'. split; [|done]. rewrite (bind_inr _ _ _ _ _ E2). erewrite bind_inr; [reflexivity|]. apply on_error_inr. rewrite (bind_inr _ _ _ (mkState hp1 b1 mp) tt) by done. exact E3.
Qed.

Lemma pointer_fills : kind i = LWMSG_KIND_POINTER -> verify i = 0 -> elements_nonzero t (size inn) vs -> (t = TermZero -> scalar inn = true) ->
  (forall g, fills c (zlen bs) w dom (fun bs' h' => elems2 inn dom bs' h' vs w) (unmarshal_elems fuel g inn (length vs)) tt) ->
  (length vs = 1%nat -> kind inn = LWMSG_KIND_STRUCT ->
    forall g, fills c (zlen bs) w dom (fun bs' h' => elems2 inn dom bs' h' vs w) (fun _ a => lwmsg_data_unmarshal_struct specs (unmarshal_internal fuel) (set_dom g inn) a) 0) ->
  let wire := (if has_flag LWMSG_TYPE_FLAG_NOT_NULL i then [] else [0xFF]) ++ length_prefix byte_order t n ++ w in
  fills cost 8 wire dom (fun bs' h' => obj2 i dom bs' h' (VPtr vs) wire) (fun d a => lwmsg_data_unmarshal_pointer specs byte_order free_fuel (unmarshal_internal fuel) d (set_dom g i) a) tt.
Proof.
  intros Hk Hv Hnz Hns Hfe Hfs wire. split; [unfold cost; zl|]. intros hp a d b r mp Hpos Hz Hd _ Hu Hav. unfold wire in Hu. rewrite <-!app_assoc in Hu.
  destruct (flag_ok g i hp b _ mp _ Hu ltac:(done)) as (b1 & E1 & U1). destruct (pointees_ok Hns Hfe Hfs hp d b1 r mp Hd U1 Hav) as (p & hp' & b' & E2 & U2 & (e & bs' & h' & -> & L & O & Hp & D1 & D2 & A)).
  exists (encode host 8 p), (hunion (block p (bs' ++ terminator t (size inn) ++ e)) h'), b'. split; [|split; [done|split; [by rewrite zlen_encode|split; [|split; [done|by rewrite avail_store]]]]].
  - unfold lwmsg_data_unmarshal_pointer. rewrite has_flag_dom, Ha. unfold lwmsg_data_unmarshal_unaliasable_pointer. rewrite (bind_inr _ _ _ _ _ E1). rewrite bool_decide_eq_false_2 by done.
    rewrite (bind_inr _ _ _ _ _ (on_error_inr _ _ _ _ _ E2)). unfold update_heap. cbn [st_heap]. by rewrite store_ptr_ok.
  - apply (@obj_pointer host2 specs byte_order i dom t inn p n bs' e h' vs w); try done; try lia; rewrite zlen_app, L, <-zlen_app; done.
Qed.
End Pointees.

(** * Structures *)

(** What is not [used] of the bytes of a structure is zero; what is known is used. *)
Definition away (o k : Z) (used : list (Z * Z)) : Prop := Forall (fun u => u.1 + u.2 <= o \/ o + k <= u.1) used.
Definition clean (used : list (Z * Z)) (cur : mem) : Prop := forall o k, 0 <= o -> 0 <= k -> o + k <= zlen cur -> away o k used -> rd cur o k = Some (zeros k).
Definition dom_used (used : list (Z * Z)) (dom : known) : Prop := forall o s u, dom !! (o, s) = Some u -> (o, s) ∈ used.
Definition keeps (used : list (Z * Z)) (cur cur' : mem) : Prop := forall u, u ∈ used -> rd cur' u.1 u.2 = rd cur u.1 u.2.

(** The members fill the bytes [cur] of the structure further. *)
Definition fields_fill (fuel : nat) (c : Z) (used : list (Z * Z)) (dom : known) (ms : list LWMsgTypeIter) (n : Z) (vs : list val) (w : mem) : Prop :=
  0 <= c /\ forall hp a cur b r mp g dm, 0 < a -> zlen cur = n -> clean used cur -> region a cur ⊆ cells hp -> dom_ok hp a dom -> dom_used used dom -> unread b (w ++ r) -> c <= avail hp ->
    exists cur' h' b', unmarshal_members (unmarshal_internal fuel) (map (set_dom g) ms) dm a 0 (mkState hp b mp) = Some (mkState (hput hp a cur' h') b' mp, inr 0) /\
      unread b' r /\ zlen cur' = n /\ keeps used cur cur' /\ fields2 used dom ms cur' h' vs w /\ hdisj hp h' /\ avail hp - c <= avail (hput hp a cur' h').

Lemma fields_nil_fill fuel used dom n : fields_fill fuel 0 used dom [] n [] [].
Proof.
  split; [done|]. intros hp a cur b r mp g dm Hpos Hn Hc Hs Hd Hdu Hu Hav. exists cur, hempty, b. rewrite hput_same by done. split; [done|]. split; [done|]. split; [done|]. split; [done|]. split; [constructor|].
  split; [apply hdisj_empty|lia].
Qed.

Lemma clean_wr used cur off b cur1 : clean used cur -> wr cur off b = Some cur1 -> zlen cur1 = zlen cur -> clean ((off, zlen b) :: used) cur1.
Proof.
  intros Hc Hw Hl o k Ho Hk Hok (Ha & Haw)%Forall_cons. rewrite Hl in Hok. cbn in Ha. rewrite (rd_wr_other _ _ _ _ _ _ Hw) by lia. by apply Hc.
Qed.

Lemma keeps_wr used cur off b cur1 cur' : away off (zlen b) used -> wr cur off b = Some cur1 -> keeps ((off, zlen b) :: used) cur1 cur' -> keeps used cur cur' /\ rd cur' off (zlen b) = Some b.
Proof.
  intros Ha Hw Hk. split.
  - intros u Hu. rewrite (Hk u) by (by right). apply (rd_wr_other _ _ _ _ _ _ Hw). unfold away in Ha. rewrite Forall_forall in Ha. destruct (Ha u Hu); lia.
  - pose proof (Hk (off, zlen b) ltac:(by left)) as He. cbn in He. rewrite He. by eapply rd_wr_same.
Qed.

Lemma learn_used used dom m n v : dom_used used dom -> dom_used ((offset m, n) :: used) (learn m n v dom).
Proof.
  intros Hd o s u Hl. destruct v; cbn [learn] in Hl; try (right; by eapply Hd). apply lookup_insert_Some in Hl as [([= <- <-] & _)|(_ & Hl)]; [by left|right; by eapply Hd].
Qed.

Lemma fields_cons_fill fuel c1 c2 used dom m ms n b1 h1 v vs w1 w2 : is_flexible m = false -> obj1 m dom b1 h1 v w1 -> 0 <= offset m -> offset m + zlen b1 <= n -> away (offset m) (zlen b1) used ->
  (forall g, fills c1 (zlen b1) w1 dom (fun bs h => obj2 m dom bs h v w1) (fun d a => unmarshal_internal fuel d (set_dom g m) a) tt) ->
  fields_fill fuel c2 ((offset m, zlen b1) :: used) (learn m (zlen b1) v dom) ms n vs w2 -> fields_fill fuel (c1 + c2) used dom (m :: ms) n (v :: vs) (w1 ++ w2).
Proof.
  intros Hfx Ho Hoff Hlen Haw Hf (Hc2 & Hfs). split; [destruct (Hf 0); lia|]. intros hp a cur b r mp g dm Hpos Hn Hc Hs Hd Hdu Hu Hav. rewrite <-app_assoc in Hu. cbn [map unmarshal_members].
  change (is_flexible (set_dom g m)) with (is_flexible m). rewrite Hfx. change (set_dom dm (set_dom g m)) with (set_dom dm m). change (offset (set_dom g m)) with (offset m).
  destruct (proj2 (Hf dm) hp (a + offset m) a b (w2 ++ r) mp) as (bs & h' & b' & E & U & L & O & D & A); [lia| |done| |done|lia|].
  { eapply region_rd; [|exact Hs]. apply (Hc (offset m) (zlen b1)); [done|zl|lia|done]. }
  { intros o s u Hk. unfold away in Haw. rewrite Forall_forall in Haw. destruct (Haw _ (Hdu _ _ _ Hk)); cbn in *; lia. }
  assert (Haw' : dom_away a dom (a + offset m) (zlen bs)) by (intros o s u Hk; unfold away in Haw; rewrite Forall_forall in Haw; destruct (Haw _ (Hdu _ _ _ Hk)); cbn in *; lia).
  pose proof (dom_ok_put hp a dom (a + offset m) bs h' Hd Haw') as Hd1. destruct (wr_ok cur (offset m) bs) as (cur1 & Hw & Hl1); [done|lia|].
  rewrite (bind_inr _ _ _ _ _ E). rewrite (hput_wr hp a cur _ _ cur1 h' Hs Hw) in *. assert (Hs1 : region a cur1 ⊆ cells (hput hp a cur1 h')) by apply map_union_subseteq_l.
  change (kind (set_dom g m)) with (kind m). rewrite <-L in Hfs, Haw.
  edestruct (Hfs (hput hp a cur1 h') a cur1 b' r mp g) as (cur' & h2 & b2 & E2 & U2 & L2 & K & F & D2 & A2); [done|lia|by eapply clean_wr|done| |by apply learn_used|done|lia|].
  { eapply learn_ok; [exact O| |done]. eapply region_rd; [by eapply rd_wr_same|done]. }
  destruct (keeps_wr _ _ _ _ _ _ Haw Hw K) as (K1 & Hr). apply hdisj_put in D2 as (D2 & D12). rewrite hput_over in E2, A2 by lia.
  exists cur', (hunion h' h2), b2. split; [exact E2|]. split; [done|]. split; [done|]. split; [done|]. split; [|split; [by apply hdisj_union|lia]].
  by eapply fields_cons.
Qed.

(** A structure of its members. *)
Lemma struct_fills fuel g i ms dom n c vs w : members specs i = Some ms -> 0 <= n -> n = size i -> kind i = LWMSG_KIND_STRUCT -> verify i = 0 -> fields_fill fuel c [] ∅ ms n vs w ->
  fills c n w dom (fun bs h => obj2 i dom bs h (VStruct vs) w) (fun _ a => lwmsg_data_unmarshal_struct specs (unmarshal_internal fuel) (set_dom g i) a) 0.
Proof.
  intros Hm Hn Hsz Hk Hv (Hc & Hf). split; [done|]. intros hp a d b r mp Hpos Hz _ _ Hu Hav. unfold lwmsg_data_unmarshal_struct.
  rewrite (bind_inr _ _ _ (mkState hp b mp) (map (set_dom g) ms)) by (apply get_Some; by rewrite members_dom, Hm).
  destruct (Hf hp a (zeros n) b r mp g a) as (bs & h & b' & E & U & L & _ & F & D & A); [done|by apply zlen_zeros| |done|by intros ? ? ? ?|by intros ? ? ? ?|done|done|].
  { intros o k Ho Hk0 Hok _. rewrite zlen_zeros in Hok by done. apply rd_Some. exists (zeros o), (zeros (n - o - k)). rewrite !zlen_zeros by lia. split; [|done]. rewrite (zeros_cut n o), (zeros_cut (n - o) k) by lia. done. }
  exists bs, h, b'. do 3 (split; [done|]). split; [|done]. eapply obj_struct; [done|done|exact Hm|lia|exact F].
Qed.

(** * All by induction on the wire form *)

(** One call of the unmarshaller, with enough fuel. *)
Definition reads (fuel : nat) (c : Z) (i : LWMsgTypeIter) (dom : known) (n : Z) (v : val) (w : mem) : Prop :=
  forall g, fills c n w dom (fun bs h => obj2 i dom bs h v w) (fun d a => unmarshal_internal fuel d (set_dom g i) a) tt.
Definition reads_struct (fuel : nat) (c : Z) (i : LWMsgTypeIter) (dom : known) (n : Z) (v : val) (w : mem) : Prop :=
  kind i = LWMSG_KIND_STRUCT -> forall g, fills c n w dom (fun bs h => obj2 i dom bs h v w) (fun _ a => lwmsg_data_unmarshal_struct specs (unmarshal_internal fuel) (set_dom g i) a) 0.
Definition reads_elems (fuel : nat) (c : Z) (i : LWMsgTypeIter) (dom : known) (n : Z) (vs : list val) (w : mem) : Prop :=
  (forall g, fills c n w dom (fun bs h => elems2 i dom bs h vs w) (unmarshal_elems fuel g i (length vs)) tt) /\
  (length vs = 1%nat -> kind i = LWMSG_KIND_STRUCT ->
    forall g, fills c n w dom (fun bs h => elems2 i dom bs h vs w) (fun _ a => lwmsg_data_unmarshal_struct specs (unmarshal_internal fuel) (set_dom g i) a) 0).

(** From the function of the kind to the call. *)
Lemma internal_fills fuel c g i n w dom O (body : Z -> Z -> prog ()) : verify i = 0 ->
  (forall d a st, unmarshal_internal (S fuel) d (set_dom g i) a st = (body d a;; run_verify (set_dom g i) true a) st) -> fills c n w dom O body tt ->
  fills c n w dom O (fun d a => unmarshal_internal (S fuel) d (set_dom g i) a) tt.
Proof.
  intros Hv He Hf. eapply fills_ext; [|apply (fills_bind _ _ _ _ _ body tt (fun a (_ : ()) => run_verify (set_dom g i) true a) tt); [|exact Hf]].
  - intros d a st. by rewrite He.
  - intros a st. unfold run_verify. cbn [verify set_dom]. by rewrite Hv.
Qed.

Lemma encode_null e : encode e 8 0 = zeros 8.
Proof. by destruct e. Qed.

Lemma null_fills fuel g i dom : kind i = LWMSG_KIND_POINTER -> verify i = 0 -> has_flag LWMSG_TYPE_FLAG_ALIASABLE i = false -> has_flag LWMSG_TYPE_FLAG_NOT_NULL i = false ->
  fills 0 8 [0] dom (fun bs h => obj2 i dom bs h VNull [0]) (fun d a => lwmsg_data_unmarshal_pointer specs byte_order free_fuel (unmarshal_internal fuel) d (set_dom g i) a) tt.
Proof.
  intros Hk Hv Ha Hnn. split; [done|]. intros hp a d b r mp Hpos Hz _ _ Hu Hav. destruct (flag_ok g i hp b r mp 0) as (b' & E & U); [by rewrite Hnn|by rewrite Hnn|].
  exists (encode host2 8 0), hempty, b'. rewrite hput_same by (by rewrite encode_null). split; [|split; [done|split; [by rewrite zlen_encode|split; [by apply obj_null|split; [apply hdisj_empty|lia]]]]].
  unfold lwmsg_data_unmarshal_pointer. rewrite has_flag_dom, Ha. unfold lwmsg_data_unmarshal_unaliasable_pointer. by rewrite (bind_inr _ _ _ _ _ E).
Qed.

Lemma union_fills fuel c g i dom o s u arms arm bs pad v w : kind i = LWMSG_KIND_UNION -> verify i = 0 -> info i = InfoCompound o s -> 1 <= s -> dom !! (o, s) = Some u -> u < 2 ^ 32 ->
  members specs i = Some arms -> List.find (fun a => u =? tag a) arms = Some arm -> zlen (bs ++ pad) = size i -> reads fuel c arm dom (zlen bs) v w ->
  fills c (zlen (bs ++ pad)) w dom (fun bs h => obj2 i dom bs h (VUnion v) w) (fun d a => lwmsg_data_unmarshal_union specs (unmarshal_internal fuel) d (set_dom g i) a) tt.
Proof.
  intros Hk Hv Hi Hs Hu Hu32 Hm Hfd Hl Hr. rewrite zlen_app in Hl |- *. pose proof (fills_pad c (zlen bs) (zlen pad) w dom _ _ tt ltac:(zl) ltac:(zl) (Hr g)) as (Hc & Hf). split; [done|].
  intros hp a d b r mp Hpos Hz Hd Haw Hur Hav. destruct (Hf hp a d b r mp Hpos Hz Hd Haw Hur Hav) as (bs' & h & b' & E & U & L & (b1 & -> & Lb & O) & D & A). exists (b1 ++ zeros (zlen pad)), h, b'.
  split; [|split; [done|split; [done|split; [|done]]]].
  - unfold lwmsg_data_unmarshal_union. rewrite (bind_inr _ _ _ (mkState hp b mp) (set_dom g arm)); [exact E|].
    eapply (extract_arm_ok specs (set_dom g i) o s u); [done|exact Hu|done|done| |by apply find_dom]. by rewrite members_dom, Hm.
  - eapply obj_union; try done. lia.
Qed.

Lemma array_fills fuel c g i dom n inn bs h vs w : kind i = LWMSG_KIND_ARRAY -> verify i = 0 -> info i = InfoIndirect (TermStatic n) -> lwmsg_type_enter specs i zero_iter = Some inn -> inner i <> 0 ->
  n = Z.of_nat (length vs) -> n < 2 ^ 63 -> 0 <= size inn -> zlen bs < 2 ^ 63 -> 0 <= c -> elems1 inn dom bs h vs w -> reads_elems fuel c inn dom (zlen bs) vs w ->
  fills c (zlen bs) w dom (fun bs h => obj2 i dom bs h (VArray vs) w) (fun d a => lwmsg_data_unmarshal_array specs byte_order (unmarshal_internal fuel) d (set_dom g i) a) tt.
Proof.
  intros Hk Hv Hi Hin Hne Hn Hn63 Hs Hl Hc He (Hr & _). eapply fills_ext; [|eapply (fills_mono c c); [done| |apply (indirect_fills fuel g inn dom bs h vs w n c He Hn ltac:(lia) Hc (Hr g))]].
  - intros d a st. unfold lwmsg_data_unmarshal_array. rewrite (bind_inr _ _ _ st (set_dom g inn)) by (apply get_Some; by rewrite type_enter_dom, (proj2 (Z.eqb_neq _ _) Hne), Hin).
    rewrite (bind_inr _ _ _ st n); [done|]. unfold lwmsg_data_unmarshal_indirect_prologue. change (info (set_dom g i)) with (info i). by rewrite Hi.
  - intros bs' h' L' O'. eapply obj_array; try done. lia.
Qed.

Lemma elems_nil_reads fuel i dom : reads_elems fuel 0 i dom 0 [] [].
Proof. split; [|done]. intros g. apply (fills_ret dom (fun bs h => elems2 i dom bs h [] [])). constructor. Qed.

Lemma elems_cons_reads fuel c1 c2 i dom n1 n2 v vs w1 w2 : n1 = size i -> 0 <= n1 -> 0 <= n2 -> reads fuel c1 i dom n1 v w1 -> reads_struct fuel c1 i dom n1 v w1 -> reads_elems fuel c2 i dom n2 vs w2 ->
  (vs = [] -> n2 = 0 /\ w2 = []) -> reads_elems fuel (c1 + c2) i dom (n1 + n2) (v :: vs) (w1 ++ w2).
Proof.
  intros Hn Hn1 Hn2 H1 H1s (H2 & _) Hnil. split.
  - intros g. eapply fills_ext; [|eapply fills_mono; [reflexivity| |exact (fills_seq _ _ _ _ _ _ _ _ _ _ _ tt Hn1 Hn2 (H1 g) (H2 g))]].
    + intros d a st. cbn [length]. rewrite elems_next. by subst n1.
    + intros bs h _ (b1 & b2 & h1 & h2 & -> & -> & D & L & O1 & O2). apply elems_cons; [done|lia|done|done].
  - intros Hl Hk g. destruct vs; [|done]. destruct (Hnil eq_refl) as (-> & ->). rewrite Z.add_0_r, app_nil_r. eapply fills_mono; [| |exact (H1s Hk g)]; [destruct (H2 g); lia|].
    intros bs h L O. rewrite <-(app_nil_r bs), <-(app_nil_r w1), <-(hunion_empty_r h). apply elems_cons; [done|lia|constructor|apply hdisj_empty].
Qed.

(** With enough fuel and room. *)
Definition read_back (i : LWMsgTypeIter) (dom : known) (n : Z) (v : val) (w : mem) : Prop :=
  exists f c, forall fuel, (f <= fuel)%nat -> reads fuel c i dom n v w /\ reads_struct fuel c i dom n v w.

(** A type other than a structure, from the function of its kind. *)
Lemma read_back_kind i dom n v w f c (body : nat -> Z -> Z -> Z -> prog ()) : verify i = 0 -> kind i <> LWMSG_KIND_STRUCT ->
  (forall fuel g d a st, unmarshal_internal (S fuel) d (set_dom g i) a st = (body fuel g d a;; run_verify (set_dom g i) true a) st) ->
  (forall fuel g, (f <= fuel)%nat -> fills c n w dom (fun bs h => obj2 i dom bs h v w) (body fuel g) tt) -> read_back i dom n v w.
Proof.
  intros Hv Hk Hb Hf. exists (S f), c. intros [|fuel] Hfuel; [lia|]. split; [|done]. intros g. eapply internal_fills; [done|apply Hb|]. apply Hf. lia.
Qed.

Lemma variants_dom g i vars : members specs i ≫= mapM variant = Some vars -> members specs (set_dom g i) ≫= mapM variant = Some vars.
Proof.
  rewrite members_dom. destruct (members specs i) as [ms|]; [|done]. cbn. intros <-. induction ms as [|m ms IH]; [done|]. cbn. by rewrite IH.
Qed.

Lemma unmarshal_spec :
  (forall i dom bs h v w, obj1 i dom bs h v w -> read_back i dom (zlen bs) v w) /\
  (forall i dom bs h vs w, elems1 i dom bs h vs w -> exists f c, forall fuel, (f <= fuel)%nat -> reads_elems fuel c i dom (zlen bs) vs w) /\
  (forall used dom ms bs h vs w, fields1 used dom ms bs h vs w -> exists f c, forall fuel, (f <= fuel)%nat -> fields_fill fuel c used dom ms (zlen bs) vs w).
Proof.
  apply obj_mutual.
  - intros i dom Hk Hv. apply (read_back_kind _ _ _ _ _ 0 0 (fun _ _ _ _ => ret tt)); [done|by rewrite Hk|intros; cbn; by rewrite Hk|]. intros _ _ _. apply (fills_ret dom (fun bs h => obj2 i dom bs h VVoid [])). by constructor.
  - intros i dom w s v Hk Hv Hi Hw Hs Hf Hf' Hr. rewrite zlen_encode, Z2Nat.id by lia. apply (read_back_kind _ _ _ _ _ 0 0 (fun _ g _ a => lwmsg_data_unmarshal_integer byte_order (set_dom g i) a)); [done|by rewrite Hk|intros; cbn; by rewrite Hk|].
    intros _ g _. eapply fills_mono; [reflexivity| |by eapply (unmarshal_integer_fills (set_dom g i) w s v)]. intros bs h _ (-> & ->). change (size (set_dom g i)) with (size i). by eapply obj_int.
  - intros i dom w s v vars Hk Hv Hi Hw Hs Hf Hf' Hr H8 Hm He. rewrite zlen_encode, Z2Nat.id by lia.
    apply (read_back_kind _ _ _ _ _ 0 0 (fun _ g _ a => lwmsg_data_unmarshal_enum specs byte_order (set_dom g i) a)); [done|by rewrite Hk|intros; cbn; by rewrite Hk|].
    intros _ g _. eapply fills_mono; [reflexivity| |eapply (unmarshal_enum_fills (set_dom g i) w s v); try done; by apply variants_dom]. intros bs h _ (-> & ->). change (size (set_dom g i)) with (size i). by eapply obj_enum.
  - intros i dom ms bs h vs w Hk Hv Hm Hl _ (f & c & IH). exists (S f), c. intros fuel Hfu. assert (Hst : forall fuel, (f <= fuel)%nat -> reads_struct fuel c i dom (zlen bs) (VStruct vs) w).
    { intros fuel' Hf' _ g. eapply struct_fills; try done; [zl|by apply IH]. }
    split; [|apply Hst; lia]. destruct fuel as [|fuel]; [lia|]. intros g. apply (internal_fills _ _ _ _ _ _ _ _ (fun _ a => lwmsg_data_unmarshal_struct specs (unmarshal_internal fuel) (set_dom g i) a;; ret tt)); [done| |].
    { intros d a st. cbn [lwmsg_data_unmarshal_internal]. change (kind (set_dom g i)) with (kind i). by rewrite Hk. }
    apply (fills_bind _ _ _ _ _ _ 0 (fun _ _ => ret tt)); [done|]. apply Hst; [lia|done].
  - intros i dom o s u arms arm bs pad h v w Hk Hv Hi Hs Hu Hu32 Hm Hfd Hl _ (f & c & IH).
    apply (read_back_kind _ _ _ _ _ f c (fun fuel g d a => lwmsg_data_unmarshal_union specs (unmarshal_internal fuel) d (set_dom g i) a)); [done|by rewrite Hk|intros; cbn; by rewrite Hk|].
    intros fuel g Hfu. eapply union_fills; try done. by apply IH.
  - intros i dom Hk Hv Ha Hnn. apply (read_back_kind _ _ _ _ _ 0 0 (fun fuel g d a => lwmsg_data_unmarshal_pointer specs byte_order free_fuel (unmarshal_internal fuel) d (set_dom g i) a)); [done|by rewrite Hk|intros; cbn; by rewrite Hk|].
    intros fuel g _. rewrite zlen_encode. by apply null_fills.
  - intros i dom t inn p n bs extra h vs w Hk Hv Ha Hi Hin Hne Hp Hn Ht Hns Hs Hnz Hl Hma He (f & c & IH) Hdj. rewrite zlen_encode.
    eapply (read_back_kind _ _ _ _ _ f _ (fun fuel g d a => lwmsg_data_unmarshal_pointer specs byte_order free_fuel (unmarshal_internal fuel) d (set_dom g i) a)); [done|by rewrite Hk|intros; cbn; by rewrite Hk|].
    intros fuel g Hfu. destruct (IH fuel Hfu) as (H1 & H2). eapply (pointer_fills fuel g i t inn dom bs h vs w n c); try done. by destruct (H1 0).
  - intros i dom n inn bs h vs w Hk Hv Hi Hin Hne Hn Hn63 Hs Hl He (f & c & IH).
    eapply (read_back_kind _ _ _ _ _ f c (fun fuel g d a => lwmsg_data_unmarshal_array specs byte_order (unmarshal_internal fuel) d (set_dom g i) a)); [done|by rewrite Hk|intros; cbn; by rewrite Hk|].
    intros fuel g Hfu. eapply array_fills; try done; [by destruct (proj1 (IH fuel Hfu) 0)|by apply IH].
  - intros i dom. exists 0%nat, 0. intros fuel _. apply elems_nil_reads.
  - intros i dom b bs h1 h2 v vs w1 w2 _ (f1 & c1 & IH1) Hb He (f2 & c2 & IH2) _. exists (max f1 f2), (c1 + c2). intros fuel Hfu. rewrite zlen_app. destruct (IH1 fuel ltac:(lia)) as (R1 & R2).
    apply elems_cons_reads; [done|zl|zl|done|done|apply IH2; lia|]. intros ->. by inversion He.
  - intros used dom bs. exists 0%nat, 0. intros fuel _. apply fields_nil_fill.
  - intros used dom m ms bs b h1 h2 v vs w1 w2 Hfx Ho (f1 & c1 & IH1) Hrd Hus _ (f2 & c2 & IH2) _. exists (max f1 f2), (c1 + c2). intros fuel Hfu. apply rd_range in Hrd as (Hr1 & _ & Hr2).
    eapply fields_cons_fill; try done; [apply IH1; lia|apply IH2; lia].
Qed.
End Ops.
