(* ===== verification/LwmsgRelease.v ===== *)
(** The release of object graphs frees what the objects own, once, and nothing else. *)

From stdpp Require Import gmap.
From S2P Require Import Prelude Lwmsg LwmsgType LwmsgOps LwmsgData LwmsgMarshal LwmsgHeap LwmsgWire LwmsgMarshalOps LwmsgFill.

(** * Memory without the part [h] *)

Definition hminus (hp h : heap) : heap := mkHeap (cells hp ∖ cells h) (blocks hp ∖ blocks h).
Definition hsub (h hp : heap) : Prop := cells h ⊆ cells hp /\ blocks h ⊆ blocks hp.

Lemma difference_union (m m1 m2 : gmap Z Z) : (m ∖ m1) ∖ m2 = m ∖ (m1 ∪ m2).
Proof.
  apply map_eq. intros k. rewrite !lookup_difference, lookup_union. by destruct (m1 !! k), (m2 !! k).
Qed.

Lemma hminus_union hp h1 h2 : hminus (hminus hp h1) h2 = hminus hp (hunion h1 h2).
Proof. unfold hminus. cbn. by rewrite !difference_union. Qed.

Lemma hminus_empty hp : hminus hp hempty = hp.
Proof. unfold hminus. cbn. rewrite !map_difference_empty. by destruct hp. Qed.

Lemma sub_difference (m m1 m2 : gmap Z Z) : m2 ⊆ m -> m1 ##ₘ m2 -> m2 ⊆ m ∖ m1.
Proof.
  intros Hs Hd. apply map_subseteq_spec. intros k x Hx. rewrite lookup_difference. destruct (m1 !! k) as [y|] eqn:Hy; [|by eapply lookup_weaken]. exfalso. by eapply map_disjoint_spec.
Qed.

Lemma hsub_minus hp h1 h2 : hsub h2 hp -> hdisj h1 h2 -> hsub h2 (hminus hp h1).
Proof. intros (Hc & Hb) (Dc & Db). split; by apply sub_difference. Qed.

Lemma hsub_union_l h1 h2 hp : hsub (hunion h1 h2) hp -> hsub h1 hp.
Proof. intros (Hc & Hb). split; (etrans; [|eassumption]); apply map_union_subseteq_l. Qed.
Lemma hsub_union_r h1 h2 hp : hdisj h1 h2 -> hsub (hunion h1 h2) hp -> hsub h2 hp.
Proof. intros (Dc & Db) (Hc & Hb). split; (etrans; [|eassumption]); by apply map_union_subseteq_r. Qed.

Lemma drop_region c a bs : drop_bytes c a (length bs) = c ∖ region a bs.
Proof.
  apply map_eq. intros k. rewrite drop_bytes_lookup, lookup_difference, region_lookup. fold (zlen bs). case_decide as Hd; [|done]. destruct (bs !! Z.to_nat (k - a)) eqn:Hl; [done|].
  apply lookup_ge_None in Hl. unfold zlen in Hd. lia.
Qed.

(** [free] of a block. *)
Lemma free_block hp p bs : 0 < p -> hsub (block p bs) hp -> lwmsg_context_default_free hp p = Some (hminus hp (block p bs)).
Proof.
  intros Hp (Hc & Hb). unfold lwmsg_context_default_free. destruct (Z.eqb_spec p 0); [lia|]. cbn in Hb. apply map_singleton_subseteq_l in Hb. rewrite Hb. bsimpl. unfold hminus, block. cbn.
  unfold zlen. rewrite Nat2Z.id, drop_region. do 2 f_equal. apply map_eq. intros k. rewrite lookup_delete, lookup_difference. destruct (decide (p = k)) as [-> |Hk]; [by rewrite lookup_singleton_eq|by rewrite lookup_singleton_ne].
Qed.

Section Ops.
Context {hostI : Host} {stackI : Stack} {userI : User} (specs : list Z) (byte_order : endian).

(** * Loops that thread a value *)

Fixpoint fold_nat (n : nat) (j : Z) (body : Z -> Z -> prog Z) (x : Z) : prog Z :=
  match n with O => ret x | S n => let* x := body j x in fold_nat n (j + 1) body x end.

Lemma fold_nat_add n m body : forall j x st, fold_nat (n + m) j body x st = (let* x := fold_nat n j body x in fold_nat m (j + Z.of_nat n) body x) st.
Proof.
  induction n as [|n IH]; intros j x st; cbn [Nat.add fold_nat].
  - rewrite (bind_inr _ _ st st x) by done. by rewrite Z.add_0_r.
  - rewrite bind_assoc. apply bind_ext; [done|]. intros y st'. rewrite IH. by replace (j + 1 + Z.of_nat n) with (j + Z.of_nat (S n)) by lia.
Qed.

Lemma fold_pos_nat p body : forall j x st, fold_pos p j body x st = fold_nat (Pos.to_nat p) j body x st.
Proof.
  assert (H2 : forall q, (forall j x st, fold_pos q j body x st = fold_nat (Pos.to_nat q) j body x st) -> forall j x st,
    (let* x := fold_pos q j body x in fold_pos q (j + Z.pos q) body x) st = fold_nat (Pos.to_nat q + Pos.to_nat q) j body x st).
  { intros q IH j x st. rewrite fold_nat_add, positive_nat_Z. apply bind_ext; [apply IH|]. intros y st'. apply IH. }
  induction p as [q IH|q IH|]; intros j x st; cbn [fold_pos].
  - rewrite Pos2Nat.inj_xI. cbn [Nat.mul]. rewrite Nat.add_0_r. cbn [fold_nat]. apply bind_ext; [done|]. intros y st'. by apply H2.
  - rewrite Pos2Nat.inj_xO. cbn [Nat.mul]. rewrite Nat.add_0_r. by apply H2.
  - change (Pos.to_nat 1) with 1%nat. cbn [fold_nat]. unfold bind, ret. by destruct (body j x st) as [[? [?|?]]|].
Qed.

Lemma fold_loop_nat n body x st : fold_loop (Z.of_nat n) body x st = fold_nat n 0 body x st.
Proof. destruct n as [|n]; [done|]. change (Z.of_nat (S n)) with (Z.pos (Pos.of_succ_nat n)). cbn [fold_loop]. rewrite fold_pos_nat. by rewrite SuccNat2Pos.id_succ. Qed.

Lemma fold_nat_ext n body body' : (forall j x st, body j x st = body' j x st) -> forall j x st, fold_nat n j body x st = fold_nat n j body' x st.
Proof. intros He. induction n as [|n IH]; intros j x st; [done|]. cbn [fold_nat]. apply bind_ext; [apply He|]. intros y st'. apply IH. Qed.

Lemma fold_nat_shift n body : forall j x st, fold_nat n (j + 1) body x st = fold_nat n j (fun k => body (k + 1)) x st.
Proof. induction n as [|n IH]; intros j x st; [done|]. cbn [fold_nat]. apply bind_ext; [done|]. intros y st'. apply IH. Qed.

(** * Programs that free [h] *)

(** The bytes at [a] and what is known of the structure at [g] are not part of [h]. *)
Definition apart (g : Z) (dom : known) (h : heap) : Prop := forall o s u, dom !! (o, s) = Some u -> region (g + o) (encode host (Z.to_nat s) u) ##ₘ cells h.

Definition frees (m : prog Z) (hp h : heap) (x : Z) : Prop := forall b mp, m (mkState hp b mp) = Some (mkState (hminus hp h) b mp, inr x).

Lemma frees_ret hp x : frees (ret x) hp hempty x.
Proof. intros b mp. by rewrite hminus_empty. Qed.

Lemma frees_bind m k hp h1 h2 x y : frees m hp h1 x -> frees (k x) (hminus hp h1) h2 y -> frees (bind m k) hp (hunion h1 h2) y.
Proof. intros H1 H2 b mp. rewrite (bind_inr _ _ _ _ _ (H1 b mp)), H2, hminus_union. done. Qed.

Lemma frees_read {A} (r : prog A) (v : A) k hp h x : (forall b mp, r (mkState hp b mp) = Some (mkState hp b mp, inr v)) -> frees (k v) hp h x -> frees (bind r k) hp h x.
Proof. intros Hr Hk b mp. rewrite (bind_inr _ _ _ _ _ (Hr b mp)). apply Hk. Qed.

Lemma frees_ext m m' hp h x : (forall st, m st = m' st) -> frees m hp h x -> frees m' hp h x.
Proof. intros He Hf b mp. by rewrite <-He. Qed.

Lemma dom_ok_minus hp h g dom : dom_ok hp g dom -> apart g dom h -> dom_ok (hminus hp h) g dom.
Proof. intros Hd Ha o s u Hu. destruct (Hd _ _ _ Hu) as (H1 & H2 & H3). split; [done|]. split; [done|]. cbn. apply sub_difference; [done|]. symmetry. by eapply Ha. Qed.

Lemma apart_union_l g dom h1 h2 : apart g dom (hunion h1 h2) -> apart g dom h1.
Proof. intros Ha o s u Hu. specialize (Ha _ _ _ Hu). cbn in Ha. by apply map_disjoint_union_r in Ha as (? & _). Qed.
Lemma apart_union_r g dom h1 h2 : apart g dom (hunion h1 h2) -> apart g dom h2.
Proof. intros Ha o s u Hu. specialize (Ha _ _ _ Hu). cbn in Ha. by apply map_disjoint_union_r in Ha as (_ & ?). Qed.

Lemma hunion_comm h1 h2 : hdisj h1 h2 -> hunion h1 h2 = hunion h2 h1.
Proof. intros (Hc & Hb). unfold hunion. by rewrite (map_union_comm (cells h1)), (map_union_comm (blocks h1)). Qed.

(** * Counting the elements and the zero element *)

Lemma visit_count_eq i fuel : forall e k hp, visit_count_loop fuel (size i) e k hp = count_loop fuel i e k hp.
Proof. induction fuel as [|fuel IH]; intros e k hp; [done|]. cbn [visit_count_loop count_loop]. unfold lwmsg_is_zero, lwmsg_object_is_zero. destruct (is_zero_loop _ e hp) as [[|]|]; [done|apply IH|done]. Qed.

Lemma count_from i fuel : forall e k c hp r, count_loop fuel i e k hp = Some r -> count_loop fuel i e (k + c) hp = Some (r + c).
Proof.
  induction fuel as [|fuel IH]; intros e k c hp r; [done|]. cbn [count_loop]. destruct (lwmsg_object_is_zero i e hp) as [[|]|]; bsimpl; [by intros [= <-]| |done].
  intros Hr. replace (k + c + 1) with (k + 1 + c) by lia. by apply IH.
Qed.

Lemma visit_count_ok i hp a bs n rest : 0 < size i -> zlen bs = n * size i -> 0 <= n -> (forall j, 0 <= j < n -> rd bs (j * size i) (size i) <> Some (zeros (size i))) ->
  region a (bs ++ zeros (size i) ++ rest) ⊆ cells hp -> visit_count_loop (S (size_of_heap hp)) (size i) a 1 hp = Some (n + 1).
Proof. intros Hs Hl Hn Hnz Hsub. rewrite visit_count_eq. apply (count_from i _ a 0 1). by eapply count_elements_ok. Qed.

(** * All by induction on the form of the objects *)

Abbreviation visit := (lwmsg_data_free_graph_visit specs).

Definition releases (fuel : nat) (i : LWMsgTypeIter) (dom : known) (bs : mem) (h : heap) : Prop :=
  forall hp a g path x, hsub h hp -> region a bs ⊆ cells hp -> region a bs ##ₘ cells h -> dom_ok hp g dom -> apart g dom h -> frees (visit fuel path (set_dom g i) a x) hp h x.
Definition releases_elems (fuel : nat) (i : LWMsgTypeIter) (dom : known) (bs : mem) (h : heap) (n : nat) : Prop :=
  forall hp a g path x, hsub h hp -> region a bs ⊆ cells hp -> region a bs ##ₘ cells h -> dom_ok hp g dom -> apart g dom h ->
    frees (fold_nat n 0 (fun k x => visit fuel path (set_dom g i) (a + k * size i) x) x) hp h x.

(** What is known is part of the bytes of the structure. *)
Definition dom_in (dom : known) (bs : mem) : Prop := forall o s u, dom !! (o, s) = Some u -> 1 <= s /\ 0 <= u < 256 ^ s /\ rd bs o s = Some (encode host (Z.to_nat s) u).
Definition releases_fields (fuel : nat) (dom : known) (ms : list LWMsgTypeIter) (bs : mem) (h : heap) : Prop :=
  forall hp a g path x, hsub h hp -> region a bs ⊆ cells hp -> region a bs ##ₘ cells h -> dom_in dom bs -> frees (visit_members (map (set_dom g) ms) a (visit fuel path) x) hp h x.

(** The zero element of a zero-terminated array owns nothing. *)
Lemma visit_zero fuel i hp a g path x : scalar i = true -> region a (zeros (size i)) ⊆ cells hp -> frees (visit (S fuel) path (set_dom g i) a x) hp hempty x.
Proof.
  intros Hs Hz. unfold scalar in Hs. cbn [lwmsg_data_free_graph_visit]. change (kind (set_dom g i)) with (kind i). destruct (kind i) eqn:Hk; try done.
  - unfold lwmsg_data_visit_graph_children. change (kind (set_dom g i)) with (kind i). rewrite Hk. apply frees_ret.
  - unfold lwmsg_data_visit_graph_children. change (kind (set_dom g i)) with (kind i). rewrite Hk. apply frees_ret.
  - apply Z.eqb_eq in Hs. rewrite Hs in Hz. eapply (frees_read _ 0); [intros b mp; apply read_heap_Some, load_ptr_ok; [lia|]; by replace (encode host 8 0) with (zeros 8) by (by destruct host)|]. apply frees_ret.
Qed.

Lemma elems_release_next fuel i n g path a x st :
  fold_nat (S n) 0 (fun k x => visit fuel path (set_dom g i) (a + k * size i) x) x st =
  (let* x := visit fuel path (set_dom g i) a x in fold_nat n 0 (fun k x => visit fuel path (set_dom g i) (a + size i + k * size i) x) x) st.
Proof.
  cbn [fold_nat]. rewrite Z.mul_0_l, Z.add_0_r. apply bind_ext; [done|]. intros y st'. rewrite fold_nat_shift. apply fold_nat_ext. intros j z st2. f_equal. lia.
Qed.

Lemma releases_cons fuel i dom b bs h1 h2 n : releases fuel i dom b h1 -> zlen b = size i -> releases_elems fuel i dom bs h2 n -> hdisj h1 h2 -> releases_elems fuel i dom (b ++ bs) (hunion h1 h2) (S n).
Proof.
  intros H1 Hb H2 Hdj hp a g path x Hh Hsub Hda Hd Hap. rewrite region_app in Hda. apply map_disjoint_union_l in Hda as (Hda1 & Hda2).
  cbn in Hda1, Hda2. apply map_disjoint_union_r in Hda1 as (Hd11 & Hd12), Hda2 as (Hd21 & Hd22). apply region_sub_r in Hsub as Hsub2. apply region_sub_l in Hsub.
  eapply frees_ext; [intros st; symmetry; apply elems_release_next|]. eapply frees_bind.
  - apply H1; [by eapply hsub_union_l|done|done|done|by eapply apart_union_l].
  - replace (a + size i) with (a + zlen b) by lia. apply H2; [apply hsub_minus; [by eapply hsub_union_r|done]|cbn; apply sub_difference; [done|by symmetry]|done|apply dom_ok_minus; [done|by eapply apart_union_l]|by eapply apart_union_r].
Qed.

(** The elements behind a pointer, or of an array. *)
Lemma indirect_releases fuel g path x i t inn dom hp p bs extra h vs w n : info i = InfoIndirect t -> lwmsg_type_enter specs i zero_iter = Some inn -> inner i <> 0 ->
  n = Z.of_nat (length vs) -> term_count dom t n -> 0 <= size inn -> elements_nonzero t (size inn) vs -> (t = TermZero -> scalar inn = true) -> obj_elems specs byte_order inn dom bs h vs w ->
  releases_elems (S fuel) inn dom bs h (length vs) -> hsub h hp -> region p (bs ++ terminator t (size inn) ++ extra) ⊆ cells hp -> region p (bs ++ terminator t (size inn) ++ extra) ##ₘ cells h ->
  dom_ok hp g dom -> apart g dom h -> frees (lwmsg_data_visit_graph_indirect specs (set_dom g i) p (visit (S fuel) path) x) hp h x.
Proof.
  intros Hi Hin Hne Hn Ht Hs Hnz Hsc He Hr Hh Hsub Hdj Hd Ha. pose proof (elems_length specs byte_order _ _ _ _ _ _ He) as Hlen. rewrite <-Hn in Hlen. unfold lwmsg_data_visit_graph_indirect.
  eapply (frees_read _ (set_dom g inn)); [intros b mp; apply get_Some; by rewrite type_enter_dom, (proj2 (Z.eqb_neq _ _) Hne), Hin|].
  assert (Hall : frees (fold_nat (length vs) 0 (fun k x => visit (S fuel) path (set_dom g inn) (p + k * size inn) x) x) hp h x).
  { apply Hr; [done|by apply region_sub_l in Hsub| |done|done]. rewrite region_app in Hdj. by apply map_disjoint_union_l in Hdj as (? & _). }
  change (info (set_dom g i)) with (info i). rewrite Hi. destruct t as [k| |o s]; cbn [term_count terminator] in *.
  - destruct Ht as (-> & _). eapply (frees_read _ n); [done|]. rewrite Hn. eapply frees_ext; [|exact Hall]. intros st. by rewrite fold_loop_nat.
  - destruct (Hnz eq_refl) as (Hpos & Hv). pose proof (elems_nonzero specs byte_order _ _ _ _ _ _ He Hv) as Hnz'. rewrite <-Hn in Hnz'.
    eapply (frees_read _ (n + 1)); [intros b mp; apply read_heap_Some; by eapply (visit_count_ok (set_dom g inn) hp p bs n extra); [..|lia| |]|].
    rewrite Hn. replace (Z.of_nat (length vs) + 1) with (Z.of_nat (length vs + 1)) by lia.
    eapply frees_ext; [intros st; symmetry; rewrite fold_loop_nat, fold_nat_add; reflexivity|]. rewrite <-(hunion_empty_r h). eapply frees_bind; [exact Hall|]. cbn [fold_nat].
    rewrite <-(hunion_empty_r hempty). eapply frees_bind; [|apply frees_ret]. apply visit_zero; [by apply Hsc|]. change (size (set_dom g inn)) with (size inn). rewrite Z.add_0_l, <-Hn, <-Hlen. cbn.
    apply sub_difference; [apply region_sub_r in Hsub; by apply region_sub_l in Hsub|]. rewrite !region_app in Hdj. apply map_disjoint_union_l in Hdj as (_ & Hdj). apply map_disjoint_union_l in Hdj as (Hdj & _). by symmetry.
  - destruct Ht as (Hk & Hs8 & Hl2). eapply (frees_read _ n); [intros b mp; by eapply (extract_length_ok (set_dom g i) o s n dom g (mkState hp b mp))|]. rewrite Hn. eapply frees_ext; [|exact Hall]. intros st. by rewrite fold_loop_nat.
Qed.

(** A type other than a pointer. *)
Lemma visit_children fuel path i a x st : kind i <> LWMSG_KIND_CUSTOM -> kind i <> LWMSG_KIND_POINTER ->
  visit (S fuel) path i a x st = lwmsg_data_visit_graph_children specs i a (visit fuel path) x st.
Proof. intros H1 H2. cbn [lwmsg_data_free_graph_visit]. by destruct (kind i). Qed.

Lemma releases_plain fuel i dom bs : kind i = LWMSG_KIND_VOID \/ kind i = LWMSG_KIND_INTEGER \/ kind i = LWMSG_KIND_ENUM -> releases (S fuel) i dom bs hempty.
Proof.
  intros Hk hp a g path x _ _ _ _ _. eapply frees_ext; [intros st; symmetry; apply visit_children; cbn; destruct Hk as [-> |[-> | ->]]; done|].
  unfold lwmsg_data_visit_graph_children. change (kind (set_dom g i)) with (kind i). destruct Hk as [-> |[-> | ->]]; apply frees_ret.
Qed.

(** A pointer to a block with the contents [bs], once its elements are released. *)
Lemma releases_block fuel i dom p bs h : kind i = LWMSG_KIND_POINTER -> has_flag LWMSG_TYPE_FLAG_ALIASABLE i = false -> 0 < p < 2 ^ 64 -> hdisj (block p bs) h ->
  (forall hp g path x, hsub h hp -> region p bs ⊆ cells hp -> dom_ok hp g dom -> apart g dom h -> frees (lwmsg_data_visit_graph_indirect specs (set_dom g i) p (visit fuel path) x) hp h x) ->
  releases (S fuel) i dom (encode host 8 p) (hunion (block p bs) h).
Proof.
  intros Hk Ha Hp Hdj Hr hp a g path x Hh Hsub Hda Hd Hap.
  assert (Hptr : forall b mp, read_heap (fun h => load_ptr h a) (mkState hp b mp) = Some (mkState hp b mp, inr p)) by (intros b mp; apply read_heap_Some, load_ptr_ok; [lia|done]).
  cbn [lwmsg_data_free_graph_visit]. change (kind (set_dom g i)) with (kind i). rewrite Hk. eapply frees_read; [exact Hptr|]. destruct (Z.eqb_spec p 0); [lia|].
  rewrite has_flag_dom, Ha. rewrite (hunion_comm _ h Hdj). eapply frees_bind.
  - unfold lwmsg_data_visit_graph_children. change (kind (set_dom g i)) with (kind i). rewrite Hk. eapply frees_read; [exact Hptr|]. destruct (Z.eqb_spec p 0); [lia|].
    apply Hr; [by eapply hsub_union_r|exact (proj1 (hsub_union_l _ h hp Hh))|done|by eapply apart_union_r].
  - intros b mp. assert (Hf : lwmsg_context_free p (mkState (hminus hp h) b mp) = Some (mkState (hminus (hminus hp h) (block p bs)) b mp, inr tt)).
    { unfold lwmsg_context_free, update_heap. cbn [st_heap]. rewrite (free_block _ p bs); [done|lia|]. apply hsub_minus; [by eapply hsub_union_l|]. destruct Hdj. by split. }
    by rewrite (bind_inr _ _ _ _ _ Hf).
Qed.

Lemma dom_in_ok dom bs hp a : dom_in dom bs -> region a bs ⊆ cells hp -> dom_ok hp a dom.
Proof. intros Hd Hs o s u Hu. destruct (Hd _ _ _ Hu) as (H1 & H2 & H3). split; [done|]. split; [done|]. by eapply region_rd. Qed.

Lemma dom_in_apart dom bs a h : dom_in dom bs -> region a bs ##ₘ cells h -> apart a dom h.
Proof.
  intros Hd Hdj o s u Hu. destruct (Hd _ _ _ Hu) as (_ & _ & H3). eapply map_disjoint_weaken_l; [exact Hdj|]. by eapply region_rd.
Qed.

Lemma learn_in m dom bs b h v w : obj specs byte_order m dom b h v w -> rd bs (offset m) (zlen b) = Some b -> dom_in dom bs -> dom_in (learn m (zlen b) v dom) bs.
Proof.
  intros Ho Hr Hd. assert (Hi : forall x n, v = VInt x -> b = encode host (Z.to_nat n) x -> 1 <= n -> dom_in (learn m (zlen b) v dom) bs).
  { intros x n -> -> Hn o s u. cbn [learn]. rewrite zlen_encode, Z2Nat.id in * by lia. intros Hl. apply lookup_insert_Some in Hl as [([= <- <-] & <-)|(_ & Hl)]; [|by apply Hd].
    split; [done|]. split; [apply Z.mod_pos_bound, pow256_pos; lia|]. rewrite <-(Z2Nat.id n) at 3 by lia. by rewrite encode_mod. }
  destruct Ho; try exact Hd; by eapply Hi.
Qed.

Lemma releases_members fuel dom dom' m ms bs b h1 h2 : releases fuel m dom b h1 -> rd bs (offset m) (zlen b) = Some b -> (dom_in dom bs -> dom_in dom' bs) -> releases_fields fuel dom' ms bs h2 -> hdisj h1 h2 ->
  releases_fields fuel dom (m :: ms) bs (hunion h1 h2).
Proof.
  intros H1 Hrd Hdom H2 Hdj hp a g path x Hh Hsub Hda Hd. cbn in Hda. apply map_disjoint_union_r in Hda as (Hd1 & Hd2).
  cbn [map visit_members]. change (set_dom a (set_dom g m)) with (set_dom a m). change (offset (set_dom g m)) with (offset m). eapply frees_bind.
  - apply H1; [by eapply hsub_union_l|by eapply region_rd| |by eapply dom_in_ok|by eapply dom_in_apart]. eapply map_disjoint_weaken_l; [exact Hd1|by eapply region_rd].
  - apply H2; [apply hsub_minus; [by eapply hsub_union_r|done]|cbn; apply sub_difference; [done|by symmetry]|done|by apply Hdom].
Qed.

Lemma release_spec :
  (forall i dom bs h v w, obj specs byte_order i dom bs h v w -> exists f, forall fuel, (f <= fuel)%nat -> releases fuel i dom bs h) /\
  (forall i dom bs h vs w, obj_elems specs byte_order i dom bs h vs w -> exists f, forall fuel, (f <= fuel)%nat -> releases_elems fuel i dom bs h (length vs)) /\
  (forall used dom ms bs h vs w, obj_fields specs byte_order used dom ms bs h vs w -> exists f, forall fuel, (f <= fuel)%nat -> releases_fields fuel dom ms bs h).
Proof.
  apply obj_mutual.
  - intros i dom Hk _. exists 1%nat. intros [|fuel] Hf; [lia|]. apply releases_plain. auto.
  - intros i dom w s v Hk _ _ _ _ _ _ _. exists 1%nat. intros [|fuel] Hf; [lia|]. apply releases_plain. auto.
  - intros i dom w s v vars Hk _ _ _ _ _ _ _ _ _ _. exists 1%nat. intros [|fuel] Hf; [lia|]. apply releases_plain. auto.
  - intros i dom ms bs h vs w Hk _ Hm _ _ (f & IH). exists (S f). intros [|fuel] Hf; [lia|]. intros hp a g path x Hh Hsub Hda _ _.
    eapply frees_ext; [intros st; symmetry; apply visit_children; cbn; by rewrite Hk|]. unfold lwmsg_data_visit_graph_children. change (kind (set_dom g i)) with (kind i). rewrite Hk.
    eapply frees_read; [intros b mp; apply get_Some; by rewrite members_dom, Hm|]. apply IH; [lia|done|done|done|]. by intros o s u Hu.
  - intros i dom o s u arms arm bs pad h v w Hk _ Hi Hs Hu Hu32 Hm Hfd Hl _ (f & IH). exists (S f). intros [|fuel] Hf; [lia|]. intros hp a g path x Hh Hsub Hda Hd Hap.
    eapply frees_ext; [intros st; symmetry; apply visit_children; cbn; by rewrite Hk|]. unfold lwmsg_data_visit_graph_children. change (kind (set_dom g i)) with (kind i). rewrite Hk.
    eapply frees_read; [intros b mp; eapply (extract_arm_ok specs (set_dom g i) o s u); [done|exact Hu|done|exact Hd| |by apply find_dom]; by rewrite members_dom, Hm|].
    apply IH; [lia|done|by apply region_sub_l in Hsub| |done|done]. rewrite region_app in Hda. by apply map_disjoint_union_l in Hda as (? & _).
  - intros i dom Hk _ _ _. exists 1%nat. intros [|fuel] Hf; [lia|]. intros hp a g path x _ Hsub _ _ _. cbn [lwmsg_data_free_graph_visit]. change (kind (set_dom g i)) with (kind i). rewrite Hk.
    eapply (frees_read _ 0); [intros b mp; apply read_heap_Some, load_ptr_ok; [lia|done]|]. apply frees_ret.
  - intros i dom t inn p n bs extra h vs w Hk _ Ha Hi Hin Hne Hp Hn Ht Hsc Hs Hnz _ _ He (f & IH) Hdj. exists (S (S f)). intros [|[|fuel]] Hf; [lia|lia|].
    apply releases_block; [done|done|lia|done|]. intros hp g path x Hh Hsub Hd Hap. eapply (indirect_releases fuel g path x i t inn dom hp p bs extra h vs w n); try done; [lia|apply IH; lia|apply Hdj].
  - intros i dom n inn bs h vs w Hk _ Hi Hin Hne Hn Hn63 Hs _ He (f & IH). exists (S (S f)). intros [|[|fuel]] Hf; [lia|lia|]. intros hp a g path x Hh Hsub Hda Hd Hap.
    eapply frees_ext; [intros st; symmetry; apply visit_children; cbn; by rewrite Hk|]. unfold lwmsg_data_visit_graph_children. change (kind (set_dom g i)) with (kind i). rewrite Hk.
    eapply (indirect_releases fuel g path x i (TermStatic n) inn dom hp a bs [] h vs w n); try done; [apply IH; lia|by rewrite app_nil_r|by rewrite app_nil_r].
  - intros i dom. exists 0%nat. intros fuel _ hp a g path x _ _ _ _ _. apply frees_ret.
  - intros i dom b bs h1 h2 v vs w1 w2 _ (f1 & IH1) Hb _ (f2 & IH2) Hdj. exists (max f1 f2). intros fuel Hf. apply releases_cons; [apply IH1; lia|done|apply IH2; lia|done].
  - intros used dom bs. exists 0%nat. intros fuel _ hp a g path x _ _ _ _. apply frees_ret.
  - intros used dom m ms bs b h1 h2 v vs w1 w2 Hfx Ho (f1 & IH1) Hrd Hus _ (f2 & IH2) Hdj. exists (max f1 f2). intros fuel Hf.
    eapply releases_members; [apply IH1; lia|done|by eapply learn_in|apply IH2; lia|done].
Qed.

(** * The whole *)

Context {mallocI : Malloc} {lawsI : MallocLaws} {stacklawsI : StackLaws}.

Lemma local_minus hp v h : cells h ⊆ cells hp -> drop_bytes (cells (hminus (local_heap hp v) h)) (stack_slot hp) 8 = cells hp ∖ cells h.
Proof.
  intros Hs. destruct (stack_fresh hp) as (_ & Hf). apply map_eq. intros k. rewrite drop_bytes_lookup. cbn. rewrite !lookup_difference, put_bytes_lookup, zlen_encode. change (Z.of_nat 8) with 8. case_decide as Hk; [|done].
  rewrite (Hf k Hk). by destruct (cells h !! k).
Qed.

(** The release of a pointer in a local variable. *)
Lemma local_free fuel i dom p g h hp b mp : releases fuel i dom (encode host 8 p) h -> hsub h hp -> dom_ok hp g dom -> apart g dom h ->
  with_local p (fun a => lwmsg_data_free_graph_internal specs fuel (set_dom g i) a) (mkState hp b mp) = Some (mkState (hminus hp h) b mp, inr tt).
Proof.
  intros Hr Hh Hd Hap. unfold with_local. rewrite (bind_inr _ _ _ (mkState hp b mp) (stack_slot hp)) by done.
  rewrite (bind_inr _ _ _ (mkState (local_heap hp p) b mp) tt) by done. unfold finally, lwmsg_data_free_graph_internal.
  assert (Hv : frees (visit fuel [] (set_dom g i) (stack_slot hp) 0) (local_heap hp p) h 0).
  { apply Hr; [|apply local_region| |eapply dom_ok_sub; [apply local_heap_sub|done]|done].
    - destruct Hh as (Hc & Hb). split; [|done]. etrans; [exact Hc|apply local_heap_sub].
    - symmetry. apply fresh_disjoint. intros k Hk. destruct (cells h !! k) as [x|] eqn:Hx; [|done]. rewrite zlen_encode in Hk. pose proof (lookup_weaken _ _ _ _ Hx (proj1 Hh)) as Hy.
      destruct (stack_fresh hp) as (_ & Hf0). rewrite Hf0 in Hy; [done|lia]. }
  rewrite (bind_inr _ _ _ _ _ (Hv b mp)). rewrite (bind_inr _ _ _ (mkState (hminus (local_heap hp p) h) b mp) (size_of_heap (hminus (local_heap hp p) h))) by done.
  cbn [free_aliases]. change (0 =? 0) with true. unfold ret, update_heap. cbn [st_heap st_buffer st_map]. rewrite local_minus by apply Hh. done.
Qed.

Lemma free_graph_ok type root iter h v w hp : lwmsg_type_iterate_promoted specs class_is_pointer type zero_iter = Some iter -> obj specs byte_order iter ∅ (encode host 8 root) h v w -> hsub h hp ->
  exists n, forall fuel, (n <= fuel)%nat -> forall b mp, lwmsg_data_free_graph specs fuel type root (mkState hp b mp) = Some (mkState (hminus hp h) b mp, inr tt).
Proof.
  intros Hi Ho Hh. destruct (proj1 release_spec _ _ _ _ _ _ Ho) as (n & Hn). exists n. intros fuel Hf b mp. unfold lwmsg_data_free_graph.
  rewrite (bind_inr _ _ _ (mkState hp b mp) iter) by (by apply get_Some). pose proof (local_free fuel iter ∅ root (dom_object iter) h hp b mp (Hn fuel Hf) Hh ltac:(by intros ? ? ? ?) ltac:(by intros ? ? ? ?)) as Hl. by rewrite set_dom_self in Hl.
Qed.

(** C19: The release of an object graph frees every block that the graph owns, once, and
    leaves the rest of memory as it was. A bound on the nesting suffices. *)
Theorem free_graph_correct type root iter h v w hp : lwmsg_type_iterate_promoted specs class_is_pointer type zero_iter = Some iter -> obj specs byte_order iter ∅ (encode host 8 root) h v w ->
  cells h ⊆ cells hp -> blocks h ⊆ blocks hp ->
  exists n, forall fuel, (n <= fuel)%nat -> forall b mp,
    lwmsg_data_free_graph specs fuel type root (mkState hp b mp) = Some (mkState (mkHeap (cells hp ∖ cells h) (blocks hp ∖ blocks h)) b mp, inr tt).
Proof. intros Hi Ho Hc Hb. by apply (free_graph_ok type root iter h v w hp Hi Ho). Qed.
End Ops.
