(* ===== verification/LwmsgRoundTrip.v ===== *)
(** What one host marshals another one unmarshals: the object it makes has the same
    value. The hosts may differ in their byte order; structures have the same layout on
    both, that of the type specifications. Releasing the object gives back all that
    unmarshalling has taken. *)

From stdpp Require Import gmap.
From S2P Require Import Prelude Lwmsg LwmsgType LwmsgOps LwmsgData LwmsgMarshal LwmsgHeap LwmsgWire LwmsgMarshalOps LwmsgFill LwmsgUnmarshalOps LwmsgRelease.

Section Ops.
Context (host1 host2 : Host) {mallocI : Malloc} {lawsI : MallocLaws} {stackI : Stack} {userI : User} (specs : list Z) (byte_order : endian) (free_fuel : nat).

Lemma unread_all w r : unread (mkBuffer (w ++ r) (zlen (w ++ r)) 0 WRAP_NULL) (w ++ r).
Proof. split; [done|]. split; [done|]. cbn [b_base b_cursor b_end]. rewrite <-(app_nil_r (w ++ r)) at 1. apply rd_at_0. lia. Qed.

Lemma unmarshal_flat_ok type iter bs h v w : lwmsg_type_iterate_promoted specs class_is_pointer type zero_iter = Some iter -> @obj host1 specs byte_order iter ∅ bs h v w ->
  exists n c, forall fuel, (n <= fuel)%nat -> forall hp out r, 0 < out -> region out (zeros (zlen bs)) ⊆ cells hp -> c <= avail hp ->
    exists bs' h', @lwmsg_data_unmarshal_flat host2 _ _ _ specs byte_order free_fuel fuel hp type (w ++ r) (zlen (w ++ r)) out = Some (hput hp out bs' h', LWMSG_STATUS_SUCCESS) /\
      @obj host2 specs byte_order iter ∅ bs' h' v w /\ hdisj hp h' /\ zlen bs' = zlen bs.
Proof.
  intros Hi Ho. destruct (proj1 (@unmarshal_spec host1 host2 _ _ _ _ specs byte_order free_fuel) _ _ _ _ _ _ Ho) as (n & c & Hr). exists n, c. intros fuel Hf hp out r Hpos Hz Hav.
  destruct (Hr fuel Hf) as (Hrd & _). destruct (proj2 (Hrd (dom_object iter)) hp out 0 (mkBuffer (w ++ r) (zlen (w ++ r)) 0 WRAP_NULL) r empty_map) as (bs' & h' & b' & E & U & L & O & D & _);
    [done|done|by intros ? ? ? ?|by intros ? ? ? ?|apply unread_all|done|].
  exists bs', h'. split; [|done]. unfold lwmsg_data_unmarshal_flat, lwmsg_data_unmarshal, with_map. rewrite (bind_inr _ _ _ (mkState hp (mkBuffer (w ++ r) (zlen (w ++ r)) 0 WRAP_NULL) empty_map) tt) by done. unfold finally.
  rewrite (bind_inr _ _ _ (mkState hp (mkBuffer (w ++ r) (zlen (w ++ r)) 0 WRAP_NULL) empty_map) iter) by (by apply get_Some). rewrite set_dom_self in E. rewrite (bind_inr _ _ _ _ _ E).
  unfold lwmsg_buffer_finish. rewrite get_buffer_eq. cbn [st_buffer]. destruct U as (-> & _). done.
Qed.

Context {stacklawsI : @StackLaws host1 mallocI lawsI stackI}.

(** C15: An object graph of one host, marshalled there and unmarshalled on another host,
    of the same or the other byte order, into a variable that is null, gives a graph in
    new memory that has the same value; nothing else of the memory of the reader
    changes, whatever follows the message in the buffer. Some fuel is enough for both,
    and some amount of free memory for the reader. *)
Theorem lwmsg_roundtrip type object iter h v w hp1 : lwmsg_type_iterate_promoted specs class_is_pointer type zero_iter = Some iter ->
  @obj host1 specs byte_order iter ∅ (encode host1 8 object) h v w -> cells h ⊆ cells hp1 -> 4 * zlen w + 1024 <= avail hp1 -> zlen w < 2 ^ 60 ->
  exists n c, forall fuel, (n <= fuel)%nat ->
    @lwmsg_data_marshal_flat_alloc host1 _ _ _ specs byte_order fuel hp1 type object = Some (hp1, LWMSG_STATUS_SUCCESS, w) /\
    forall hp2 out r, 0 < out -> region out (zeros 8) ⊆ cells hp2 -> c <= avail hp2 ->
      exists bs h', @lwmsg_data_unmarshal_flat host2 _ _ _ specs byte_order free_fuel fuel hp2 type (w ++ r) (zlen (w ++ r)) out = Some (hput hp2 out bs h', LWMSG_STATUS_SUCCESS) /\
        @obj host2 specs byte_order iter ∅ bs h' v w /\ hdisj hp2 h' /\ zlen bs = 8.
Proof.
  intros Hi Ho Hh Ha Hl. destruct (@marshal_alloc_ok host1 _ _ _ _ specs byte_order _ _ _ _ _ _ _ _ Hi Ho Hh Ha Hl) as (n1 & H1). destruct (unmarshal_flat_ok _ _ _ _ _ _ Hi Ho) as (n2 & c & H2). exists (max n1 n2), c.
  intros fuel Hf. split; [apply H1; lia|]. rewrite zlen_encode in H2. apply H2. lia.
Qed.

(** * The root of a graph is a pointer *)

Lemma apply_attrs_kind fuel : forall i p j, apply_attrs specs fuel i p = Some j -> kind j = kind i.
Proof.
  induction fuel as [|fuel IH]; intros i p j; [done|]. cbn [apply_attrs]. cbv zeta.
  repeat match goal with
    | |- Some _ = Some _ -> _ => by intros [= <-]
    | |- None = Some _ -> _ => done
    | |- apply_attrs _ _ _ _ = Some _ -> _ => intros Hj; apply IH in Hj; exact Hj
    | |- context [?o ≫= _] => destruct o as [?|]; bsimpl
    | |- context [match ?p with (_, _) => _ end] => destruct p
    | |- context [if ?c then _ else _] => destruct c
    end.
Qed.

(** The words that an iterator has read. *)
Ltac read_all Hi := repeat match type of Hi with _ ≫= _ = Some _ => (let Hx := fresh "Hread" in apply bind_Some in Hi as (? & Hx & Hi)) | (let '(_, _) := ?x in _) = _ => destruct x end.

Lemma promoted_kind p iter : lwmsg_type_iterate_promoted specs class_is_pointer p zero_iter = Some iter -> kind iter = LWMSG_KIND_POINTER \/ kind iter = LWMSG_KIND_CUSTOM.
Proof.
  unfold lwmsg_type_iterate_promoted. destruct (word specs p) as [cmd|] eqn:Hw; [|done]. bsimpl. cbv zeta. set (c := Z.land cmd LWMSG_CMD_MASK).
  destruct (Z.eqb_spec c LWMSG_CMD_POINTER) as [Hc|Hc].
  - unfold lwmsg_type_iterate. cbn [lwmsg_type_iterate_inner]. rewrite Hw. bsimpl. cbv zeta. fold c. rewrite Hc. cbn -[apply_attrs read_inner read_offset]. intros Hi. left. read_all Hi.
    apply apply_attrs_kind in Hi. unfold read_inner in Hread0. read_all Hread0. injection Hread0 as <- <-. by rewrite Hi.
  - destruct (Z.eqb_spec c LWMSG_CMD_CUSTOM) as [Hc2|Hc2]; [|intros [= <-]; by left].
    intros (i & Hi & Hr)%bind_Some. destruct (info i) as [| | | | |cls data] eqn:Hinf; try done. injection Hr as <-. destruct (class_is_pointer cls); [|by left]. right.
    clear Hinf. revert Hi. unfold lwmsg_type_iterate. cbn [lwmsg_type_iterate_inner]. rewrite Hw. bsimpl. cbv zeta. fold c. rewrite Hc2. cbn -[apply_attrs read_size read_offset]. intros Hi. read_all Hi. by apply apply_attrs_kind in Hi.
Qed.

Lemma pointer_bytes iter bs h v w : kind iter = LWMSG_KIND_POINTER \/ kind iter = LWMSG_KIND_CUSTOM -> @obj host2 specs byte_order iter ∅ bs h v w -> exists p, bs = encode host2 8 p /\ 0 <= p < 2 ^ 64.
Proof.
  intros Hk Ho. destruct Ho as [? ? Hi|? ? ? ? ? Hi|? ? ? ? ? ? Hi|? ? ? ? ? ? ? Hi|? ? ? ? ? ? ? ? ? ? ? ? Hi|? ? Hi|? ? ? ? p ? ? ? ? ? ? Hi|? ? ? ? ? ? ? ? Hi]; rewrite Hi in Hk; try (by destruct Hk).
  - by exists 0.
  - exists p. split; [done|lia].
Qed.

Lemma hsub_put hp a bs h : region a (zeros (zlen bs)) ⊆ cells hp -> hdisj hp h -> hsub h (hput hp a bs h).
Proof.
  intros Hs (Hc & Hb). split; cbn; [|by apply map_union_subseteq_r]. apply map_subseteq_spec. intros k x Hx. rewrite lookup_union_r; [by apply lookup_union_Some_r|]. apply region_lookup_None. intros Hk.
  destruct (region a (zeros (zlen bs)) !! k) as [y|] eqn:Hy; [|apply region_lookup_None in Hy; rewrite zlen_zeros in Hy by zl; lia]. eapply map_disjoint_spec; [exact Hc| |exact Hx]. by eapply lookup_weaken.
Qed.

Lemma minus_put hp a bs h : region a (zeros (zlen bs)) ⊆ cells hp -> hdisj hp h -> hminus (hput hp a bs h) h = hput hp a bs hempty.
Proof.
  intros Hs (Hc & Hb). unfold hminus, hput. cbn. rewrite !map_union_empty. f_equal; apply map_eq; intros k; rewrite lookup_difference.
  - destruct (cells h !! k) as [x|] eqn:Hx.
    + symmetry. apply lookup_union_None. assert (Hn : cells hp !! k = None) by (by eapply map_disjoint_Some_r). split; [|done]. apply region_lookup_None. intros Hk.
      destruct (region a (zeros (zlen bs)) !! k) as [y|] eqn:Hy; [pose proof (lookup_weaken _ _ _ _ Hy Hs); congruence|]. apply region_lookup_None in Hy. rewrite zlen_zeros in Hy by zl. lia.
    + rewrite !lookup_union. rewrite Hx. by rewrite (right_id_L None _ (cells hp !! k)).
  - destruct (blocks h !! k) as [x|] eqn:Hx; [symmetry; by eapply map_disjoint_Some_r|]. rewrite lookup_union, Hx. by rewrite (right_id_L None _ (blocks hp !! k)).
Qed.

Context {stacklaws2 : @StackLaws host2 mallocI lawsI stackI}.

(** C16: The life of a message. A graph that one host has marshalled and another has
    unmarshalled into a null variable is released through that variable: all blocks that
    the unmarshaller has allocated are freed, and memory is as it was before, but for
    the variable. *)
Theorem message_lifecycle type object iter h v w hp1 : lwmsg_type_iterate_promoted specs class_is_pointer type zero_iter = Some iter ->
  @obj host1 specs byte_order iter ∅ (encode host1 8 object) h v w -> cells h ⊆ cells hp1 -> 4 * zlen w + 1024 <= avail hp1 -> zlen w < 2 ^ 60 ->
  exists n c, forall fuel, (n <= fuel)%nat ->
    @lwmsg_data_marshal_flat_alloc host1 _ _ _ specs byte_order fuel hp1 type object = Some (hp1, LWMSG_STATUS_SUCCESS, w) /\
    forall hp2 out r, 0 < out -> region out (zeros 8) ⊆ cells hp2 -> c <= avail hp2 ->
      exists p hp', @lwmsg_data_unmarshal_flat host2 _ _ _ specs byte_order free_fuel fuel hp2 type (w ++ r) (zlen (w ++ r)) out = Some (hp', LWMSG_STATUS_SUCCESS) /\
        @load_ptr host2 hp' out = Some p /\
        exists m, forall fuel', (m <= fuel')%nat -> forall b mp, @lwmsg_data_free_graph host2 _ _ specs fuel' type p (mkState hp' b mp) = Some (mkState (hput hp2 out (encode host2 8 p) hempty) b mp, inr tt).
Proof.
  intros Hi Ho Hh Ha Hl. destruct (@marshal_alloc_ok host1 _ _ _ _ specs byte_order _ _ _ _ _ _ _ _ Hi Ho Hh Ha Hl) as (n1 & H1). destruct (unmarshal_flat_ok _ _ _ _ _ _ Hi Ho) as (n2 & c & H2). exists (max n1 n2), c.
  intros fuel Hf. split; [apply H1; lia|]. rewrite zlen_encode in H2. intros hp2 out r Hpos Hz Hav. destruct (H2 fuel ltac:(lia) hp2 out r Hpos Hz Hav) as (bs & h' & E & O & D & L).
  destruct (pointer_bytes _ _ _ _ _ (promoted_kind _ _ Hi) O) as (p & -> & Hp). exists p, (hput hp2 out (encode host2 8 p) h'). split; [done|]. split; [apply load_ptr_ok; [done|]; apply map_union_subseteq_l|].
  destruct (free_graph_ok specs byte_order type p iter h' v w (hput hp2 out (encode host2 8 p) h') Hi O) as (m & Hm); [apply hsub_put; [by rewrite zlen_encode|done]|].
  exists m. intros fuel' Hf' b mp. rewrite Hm by done. rewrite minus_put; [done|by rewrite zlen_encode|done].
Qed.
End Ops.
