(* ===== verification/LwmsgTry.v ===== *)
(** Programs that read arbitrary bytes, with an allocator that may fail at any time: they
    do not fault, and what they have made, in full or in part, can be released. *)

From stdpp Require Import gmap.
From S2P Require Import Prelude Lwmsg LwmsgType LwmsgOps LwmsgData LwmsgMarshal LwmsgHeap LwmsgWire LwmsgMarshalOps LwmsgFill LwmsgUnmarshalOps LwmsgRelease.

(** * Types *)

Section Sane.
Context (specs : list Z).

(** The number of elements can be found: it is fixed, or an integer of the structure
    that comes before, one of the slots [L] (offset and size); or the elements are
    integers or enumerations and end with a zero one. Arrays of pointers or structures
    that end with a zero one are left out: they are released up to the first null
    element only, whatever number has been read. *)
Definition sane_term (L : list (Z * Z)) (t : term) (inn : LWMsgTypeIter) : Prop :=
  match t with
  | TermStatic k => 0 <= k < 2 ^ 64
  | TermMember o s => (o, s) ∈ L /\ s <= 8
  | TermZero => (kind inn = LWMSG_KIND_INTEGER \/ kind inn = LWMSG_KIND_ENUM) /\ 0 < size inn
  end.

(** [sane i L n]: a type of integers, enumerations, structures, arrays of fixed length
    and pointers that may not be aliased, which takes [n] bytes. The members of a
    structure do not overlap, and are not structures themselves. *)
Inductive sane : LWMsgTypeIter -> list (Z * Z) -> Z -> Prop :=
  | sane_int i L w s : kind i = LWMSG_KIND_INTEGER -> verify i = 0 -> info i = InfoInteger w s -> 1 <= w <= 16 -> 1 <= size i -> sane i L (size i)
  | sane_enum i L w s vars : kind i = LWMSG_KIND_ENUM -> verify i = 0 -> info i = InfoInteger w s -> 1 <= w <= 16 -> 1 <= size i ->
      members specs i ≫= mapM variant = Some vars -> sane i L (size i)
  | sane_struct i L ms : kind i = LWMSG_KIND_STRUCT -> verify i = 0 -> members specs i = Some ms -> 0 <= size i -> sane_fields [] [] ms (size i) -> sane i L (size i)
  | sane_pointer i L t inn : kind i = LWMSG_KIND_POINTER -> verify i = 0 -> has_flag LWMSG_TYPE_FLAG_ALIASABLE i = false -> info i = InfoIndirect t ->
      lwmsg_type_enter specs i zero_iter = Some inn -> inner i <> 0 -> size inn < 2 ^ 64 -> sane_term L t inn -> sane inn L (size inn) -> sane i L 8
  | sane_array i L k inn : kind i = LWMSG_KIND_ARRAY -> verify i = 0 -> info i = InfoIndirect (TermStatic k) -> 0 <= k < 2 ^ 64 ->
      lwmsg_type_enter specs i zero_iter = Some inn -> inner i <> 0 -> sane inn L (size inn) -> sane i L (k * size inn)
with sane_fields : list (Z * Z) -> list (Z * Z) -> list LWMsgTypeIter -> Z -> Prop :=
  | sane_nil used L n : sane_fields used L [] n
  | sane_cons used L m ms k n : is_flexible m = false -> kind m <> LWMSG_KIND_STRUCT -> sane m L k -> 0 <= offset m -> offset m + k <= n ->
      away (offset m) k used -> sane_fields ((offset m, k) :: used) (if decide (kind m = LWMSG_KIND_INTEGER) then (offset m, k) :: L else L) ms n ->
      sane_fields used L (m :: ms) n.

Scheme sane_mut := Minimality for sane Sort Prop
  with sane_fields_mut := Minimality for sane_fields Sort Prop.
Combined Scheme sane_mutual from sane_mut, sane_fields_mut.

Lemma sane_pos i L n : sane i L n -> 0 <= n.
Proof. induction 1; lia. Qed.
End Sane.

(** * Reading from a buffer with any contents *)

Definition buffer_ok (b : LWMsgBuffer) : Prop := b_wrap b = WRAP_NULL /\ 0 <= b_cursor b <= b_end b /\ b_end b <= zlen (b_base b) /\ bytes_ok (b_base b).

Section Ops.
Context {hostI : Host} {mallocI : Malloc} {lawsI : MallocLaws} {stackI : Stack} {stacklawsI : StackLaws} {userI : User} (specs : list Z) (byte_order : endian) (free_fuel : nat).

Lemma buffer_ok_move b c : buffer_ok b -> b_cursor b <= c <= b_end b -> buffer_ok (set_cursor c b).
Proof. intros (Hw & Hc & He & Hb) Hm. split; [done|]. cbn. split; [lia|done]. Qed.

(** The turn of a read: the bytes that are there, and the end of the buffer or success. *)
Lemma read_loop_any put n st : buffer_ok (st_buffer st) -> 1 <= n -> (forall w, bytes_ok w -> zlen w <= n -> exists h, put 0 w st = Some (mkState h (st_buffer st) (st_map st), inr tt)) ->
  exists w h b' r, bytes_ok w /\ zlen w <= n /\ put 0 w st = Some (mkState h (st_buffer st) (st_map st), inr tt) /\ buffer_ok b' /\
    read_loop buffer_fuel put [] 0 n st = Some (mkState h b' (st_map st), r) /\ (r = inl LWMSG_STATUS_EOF \/ r = inr w /\ zlen w = n).
Proof.
  intros Hb Hn Hput. destruct Hb as (Hw & Hc & He & Hok). change buffer_fuel with (S 69). unfold read_loop; fold read_loop. destruct (Z.eqb_spec n 0) as [Hz|Hz]; [lia|]. rewrite get_buffer_eq.
  destruct (Z.ltb_spec (b_end (st_buffer st)) (b_cursor (st_buffer st) + n)) as [Hlt|Hge].
  - destruct (rd_ok (b_base (st_buffer st)) (b_cursor (st_buffer st)) (b_end (st_buffer st) - b_cursor (st_buffer st))) as (w & Hr & Hl); [lia..|]. pose proof (bytes_ok_rd _ _ _ _ Hok Hr) as Hbw. destruct (Hput w Hbw ltac:(lia)) as (h & Hp).
    rewrite (bind_inr _ _ _ _ _ (get_Some _ _ _ Hr)), (bind_inr _ _ _ _ _ Hp), set_buffer_eq. cbn [st_heap st_map]. unfold wrap_or_eof. eexists w, h, _, _. split; [done|]. split; [lia|]. split; [done|].
    split; [|split; [unfold bind, get_buffer; cbn [st_buffer set_cursor b_wrap]; rewrite Hw; reflexivity|by left]]. apply buffer_ok_move; [done|lia].
  - destruct (rd_ok (b_base (st_buffer st)) (b_cursor (st_buffer st)) n) as (w & Hr & Hl); [lia..|]. pose proof (bytes_ok_rd _ _ _ _ Hok Hr) as Hbw. destruct (Hput w Hbw ltac:(lia)) as (h & Hp).
    rewrite (bind_inr _ _ _ _ _ (get_Some _ _ _ Hr)), (bind_inr _ _ _ _ _ Hp), set_buffer_eq. cbn [st_heap st_map]. eexists w, h, _, _. split; [done|]. split; [lia|]. split; [done|].
    split; [|split; [reflexivity|by right]]. apply buffer_ok_move; [done|lia].
Qed.

Lemma read_local_any hp b mp cap n : buffer_ok b -> 1 <= n <= cap -> exists b' r, lwmsg_buffer_read_local cap n (mkState hp b mp) = Some (mkState hp b' mp, r) /\ buffer_ok b' /\
  (r = inl LWMSG_STATUS_EOF \/ exists w, r = inr w /\ zlen w = n /\ bytes_ok w).
Proof.
  intros Hb Hn. destruct (read_loop_any (fun o bs => if o + zlen bs <=? cap then ret tt else fault) n (mkState hp b mp) Hb ltac:(lia)) as (w & h & b' & r & Hw & Hl & Hp & Hb' & E & Hr).
  { intros w _ Hl. exists hp. destruct (Z.leb_spec (0 + zlen w) cap); [done|lia]. }
  destruct (Z.leb_spec (0 + zlen w) cap); [|lia]. injection Hp as <-. exists b', r. split; [exact E|]. split; [done|]. destruct Hr as [-> |(-> & Hz)]; [by left|right]. by exists w.
Qed.

Lemma read_heap_any hp a b mp n : buffer_ok b -> 0 <= n -> region a (zeros n) ⊆ cells hp ->
  exists bs b' r, lwmsg_buffer_read a n (mkState hp b mp) = Some (mkState (hput hp a bs hempty) b' mp, r) /\ buffer_ok b' /\ zlen bs = n /\ bytes_ok bs.
Proof.
  intros Hb Hn Hz. destruct (decide (n = 0)) as [-> |Hn0].
  { exists [], b, (inr tt). rewrite hput_same by done. split; [done|]. split; [done|]. split; [done|constructor]. }
  assert (Hst : forall w, zlen w <= n -> update_heap (fun h => store h (a + 0) w) (mkState hp b mp) = Some (mkState (hput hp a (w ++ zeros (n - zlen w)) hempty) b mp, inr tt)).
  { intros w Hl. unfold update_heap. cbn [st_heap]. rewrite Z.add_0_r, (hput_pad hp a (zlen w) (n - zlen w)) by (done || lia || by replace (zlen w + (n - zlen w)) with n by lia).
    rewrite (store_region hp a (zeros (zlen w))); [by rewrite hput_empty| |by rewrite zlen_zeros by zl]. rewrite (zeros_cut n (zlen w)) in Hz by zl. by apply region_sub_l in Hz. }
  destruct (read_loop_any (fun o bs => update_heap (fun h => store h (a + o) bs)) n (mkState hp b mp) Hb ltac:(lia)) as (w & h & b' & r & Hw & Hl & Hp & Hb' & E & Hr); [intros w _ Hl; eexists; by apply Hst|].
  rewrite Hst in Hp by done. injection Hp as <-. exists (w ++ zeros (n - zlen w)), b', (match r with inl s => inl s | inr _ => inr tt end).
  split; [|split; [done|split; [rewrite zlen_app, zlen_zeros; lia|apply bytes_ok_app; split; [done|apply bytes_ok_zeros]]]]. unfold lwmsg_buffer_read, bind. cbn [st_map] in E. rewrite E. by destruct r.
Qed.

(** * Programs that do not fault *)

(** Those that leave the state as it is. *)
Definition total {A} (m : prog A) (st : state) : Prop := exists r, m st = Some (st, r).

Lemma total_bind {A B} (m : prog A) (k : A -> prog B) st : total m st -> (forall x, m st = Some (st, inr x) -> total (k x) st) -> total (bind m k) st.
Proof. intros ([e|x] & Hm) Hk; unfold total, bind; rewrite Hm; [by eexists|by apply Hk]. Qed.

Lemma convert_any s e e' bs old : bytes_ok bs -> 1 <= zlen bs -> bytes_ok old -> 1 <= zlen old ->
  exists c out, lwmsg_convert_integer bs (zlen bs) e old (zlen old) e' s = Some (c, out) /\ zlen out = zlen old /\ bytes_ok out.
Proof.
  intros Hb Hl Ho Hlo. pose proof (convert_integer_spec s e e' bs [] old []) as Hc. rewrite !app_nil_r in Hc. rewrite Hc; [|done|intros ->; rewrite zlen_nil in Hl; lia|intros ->; rewrite zlen_nil in Hlo; lia].
  destruct (int_fits s (zlen old) (int_value s e bs)); eexists _, _; (split; [reflexivity|]); [|done]. split; [rewrite zlen_encode; unfold zlen; done|apply bytes_ok_encode].
Qed.

Lemma convert_total s e e' bs n m st : zlen bs = n -> bytes_ok bs -> 1 <= n -> 1 <= m -> total (convert bs n e m e' s) st.
Proof.
  intros <- Hb Hn Hm. destruct (convert_any s e e' bs (zeros m) Hb Hn (bytes_ok_zeros m)) as (c & out & Hc & _); [rewrite zlen_zeros; lia|]. rewrite zlen_zeros in Hc by lia.
  unfold convert. apply total_bind; [eexists; by apply get_Some|]. intros [c' o'] _. destruct c'; by eexists.
Qed.

Lemma convert_object_total a n m s bs st : zlen bs = n -> bytes_ok bs -> 1 <= n -> 1 <= m -> region a bs ⊆ cells (st_heap st) -> total (convert_object a n m s) st.
Proof.
  intros <- Hb Hn Hm Hs. destruct (convert_any s host host bs (zeros m) Hb Hn (bytes_ok_zeros m)) as (c & out & Hc & _); [rewrite zlen_zeros; lia|]. rewrite zlen_zeros in Hc by lia.
  unfold convert_object. apply total_bind; [eexists; by apply read_heap_Some, load_region|]. intros x Hx. unfold read_heap in Hx. rewrite (proj2 (load_region _ _ _ _ eq_refl) Hs) in Hx. injection Hx as <-.
  apply total_bind; [eexists; by apply get_Some|]. intros [c' o'] _. destruct c'; by eexists.
Qed.

Lemma verify_range_total i w s a bs st : info i = InfoInteger w s -> zlen bs = size i -> bytes_ok bs -> 1 <= size i -> region a bs ⊆ cells (st_heap st) ->
  total (if has_flag LWMSG_TYPE_FLAG_RANGE i then lwmsg_data_verify_range i a (size i) else ret tt) st.
Proof.
  intros Hi Hl Hb Hs Hr. destruct (has_flag LWMSG_TYPE_FLAG_RANGE i); [|by eexists]. unfold lwmsg_data_verify_range. rewrite Hi. apply total_bind; [by eapply convert_object_total|].
  intros x _. destruct (_ || _); by eexists.
Qed.

Lemma decode_enum_total i vars value st : members specs i ≫= mapM variant = Some vars -> total (lwmsg_data_decode_enum_value specs i value) st.
Proof.
  intros Hm. unfold lwmsg_data_decode_enum_value. apply total_bind; [eexists; by apply get_Some|]. intros vs _. cbv zeta. destruct (existsb _ _); [by eexists|]. destruct (_ && _); by eexists.
Qed.

(** Those that fill [n] bytes, in full or in part. *)
Definition tries {A} (n : Z) (dom : known) (R : mem -> heap -> Prop) (ok : A -> Prop) (m : Z -> Z -> prog A) : Prop :=
  forall hp a d b mp, 0 < a -> region a (zeros n) ⊆ cells hp -> dom_ok hp d dom -> dom_away d dom a n -> buffer_ok b ->
    exists bs h b' r, m d a (mkState hp b mp) = Some (mkState (hput hp a bs h) b' mp, r) /\ buffer_ok b' /\ zlen bs = n /\ bytes_ok bs /\ hdisj hp h /\ R bs h /\ (forall x, r = inr x -> ok x).

Lemma tries_ext {A} n dom R ok (m m' : Z -> Z -> prog A) : (forall d a st, m d a st = m' d a st) -> tries n dom R ok m -> tries n dom R ok m'.
Proof. intros He Hf hp a d b mp. intros. rewrite <-He. by apply Hf. Qed.

Lemma tries_mono {A} n dom (R R' : mem -> heap -> Prop) (ok ok' : A -> Prop) m : (forall bs h, zlen bs = n -> bytes_ok bs -> R bs h -> R' bs h) -> (forall x, ok x -> ok' x) -> tries n dom R ok m -> tries n dom R' ok' m.
Proof. intros HR Hok Hf hp a d b mp. intros. destruct (Hf hp a d b mp) as (bs & h & b' & r & E & ? & ? & ? & ? & ? & Hx); [done..|]. exists bs, h, b', r. do 5 (split; [done|]). split; [by apply HR|]. intros x Hr. by apply Hok, Hx. Qed.

(** A program that goes on with one that leaves the state as it is. *)
Lemma tries_bind {A B} n dom R (ok : A -> Prop) (ok' : B -> Prop) m (k : Z -> A -> prog B) : (forall a x st, ok x -> exists r, k a x st = Some (st, r) /\ forall y, r = inr y -> ok' y) ->
  tries n dom R ok m -> tries n dom R ok' (fun d a => bind (m d a) (k a)).
Proof.
  intros Hk Hf hp a d b mp. intros. destruct (Hf hp a d b mp) as (bs & h & b' & [e|x] & E & ? & ? & ? & ? & ? & Hx); [done..| |].
  - exists bs, h, b', (inl e). rewrite (bind_inl _ _ _ _ _ E). by do 6 (split; [done|]).
  - destruct (Hk a x (mkState (hput hp a bs h) b' mp) (Hx x eq_refl)) as (r & Hr & Hy). exists bs, h, b', r. rewrite (bind_inr _ _ _ _ _ E), Hr. by do 6 (split; [done|]).
Qed.

(** * Integers and enumerations *)

Lemma value_tries i w s dom (pre : mem -> prog ()) : info i = InfoInteger w s -> 1 <= w <= 16 -> 1 <= size i -> (forall bs st, zlen bs = w -> bytes_ok bs -> total (pre bs) st) ->
  tries (size i) dom (fun _ h => h = hempty) (fun _ => True)
    (fun _ a => let* temp := lwmsg_buffer_read_local MAX_INTEGER_SIZE w in
       pre temp;;
       convert_into byte_order temp w a (size i) s;;
       if has_flag LWMSG_TYPE_FLAG_RANGE i then lwmsg_data_verify_range i a (size i) else ret tt).
Proof.
  intros Hi Hw Hs Hpre hp a d b mp Ha Hz _ _ Hb.
  destruct (read_local_any hp b mp MAX_INTEGER_SIZE w Hb) as (b' & r & E & Hb' & Hr); [unfold MAX_INTEGER_SIZE; lia|].
  assert (Hsame : forall m : prog (), (exists e, m (mkState hp b mp) = Some (mkState hp b' mp, inl e)) -> exists bs h b' r, m (mkState hp b mp) = Some (mkState (hput hp a bs h) b' mp, r) /\ buffer_ok b' /\
    zlen bs = size i /\ bytes_ok bs /\ hdisj hp h /\ h = hempty /\ (forall x, r = inr x -> True)).
  { intros m (e & He). exists (zeros (size i)), hempty, b', (inl e). rewrite hput_same by done. split; [done|]. split; [done|]. split; [apply zlen_zeros; lia|]. split; [apply bytes_ok_zeros|]. split; [apply hdisj_empty|done]. }
  destruct Hr as [-> |(temp & -> & Hl & Ht)]; [apply Hsame; exists LWMSG_STATUS_EOF; by rewrite (bind_inl _ _ _ _ _ E)|].
  destruct (Hpre temp (mkState hp b' mp) Hl Ht) as ([e|x] & Ep); [apply Hsame; exists e; by rewrite (bind_inr _ _ _ _ _ E), (bind_inl _ _ _ _ _ Ep)|].
  destruct (convert_any s byte_order host temp (zeros (size i)) Ht ltac:(lia) (bytes_ok_zeros _)) as (c & out & Hc & Ho & Hbo); [rewrite zlen_zeros; lia|]. rewrite zlen_zeros in Hc, Ho by lia. rewrite Hl in Hc.
  assert (Ec : convert_into byte_order temp w a (size i) s (mkState hp b' mp) = Some (mkState (hput hp a out hempty) b' mp, match c with LWMSG_STATUS_SUCCESS => inr tt | _ => inl c end)).
  { unfold convert_into. rewrite (bind_inr _ _ _ (mkState hp b' mp) (zeros (size i))) by (apply read_heap_Some, load_region; [by rewrite zlen_zeros by lia|done]). rewrite (bind_inr _ _ _ _ _ (get_Some _ _ _ Hc)).
    rewrite hput_empty. rewrite (bind_inr _ _ _ (mkState (mkHeap (region a out ∪ cells hp) (blocks hp)) b' mp) tt); [by destruct c|]. unfold update_heap. cbn [st_heap]. rewrite (store_region hp a (zeros (size i))); [done|done|]. rewrite zlen_zeros; lia. }
  destruct (verify_range_total i w s a out (mkState (hput hp a out hempty) b' mp) Hi Ho Hbo Hs ltac:(apply map_union_subseteq_l)) as (r & Er).
  exists out, hempty, b', (match c with LWMSG_STATUS_SUCCESS => r | _ => inl c end). rewrite (bind_inr _ _ _ _ _ E), (bind_inr _ _ _ _ _ Ep).
  split; [|split; [done|split; [done|split; [done|split; [apply hdisj_empty|done]]]]]. destruct c; (rewrite (bind_inr _ _ _ _ _ Ec) || rewrite (bind_inl _ _ _ _ _ Ec)); done.
Qed.

(** * What can be released with enough fuel *)

Definition releasable (f : nat) (i : LWMsgTypeIter) (dom : known) (bs : mem) (h : heap) : Prop := forall fuel, (f <= fuel)%nat -> releases specs fuel i dom bs h.
Definition releasable_elems (f : nat) (i : LWMsgTypeIter) (dom : known) (bs : mem) (h : heap) (n : nat) : Prop := forall fuel, (f <= fuel)%nat -> releases_elems specs fuel i dom bs h n.

Lemma releasable_nil f i dom : releasable_elems f i dom [] hempty 0.
Proof. intros fuel _ hp a g path x _ _ _ _ _. apply frees_ret. Qed.

Lemma releasable_cons f i dom b bs h1 h2 n : releasable f i dom b h1 -> zlen b = size i -> releasable_elems f i dom bs h2 n -> hdisj h1 h2 -> releasable_elems f i dom (b ++ bs) (hunion h1 h2) (S n).
Proof. intros H1 Hb H2 Hd fuel Hf. apply releases_cons; [by apply H1|done|by apply H2|done]. Qed.

Lemma releasable_zeros f i dom n : 0 <= size i -> releasable f i dom (zeros (size i)) hempty -> releasable_elems f i dom (zeros (Z.of_nat n * size i)) hempty n.
Proof.
  intros Hs Hz. induction n as [|n IH]; [apply releasable_nil|]. rewrite (zeros_cut _ (size i)) by nia. replace (Z.of_nat (S n) * size i - size i) with (Z.of_nat n * size i) by lia.
  rewrite <-(hunion_empty_r hempty). apply releasable_cons; [done|by apply zlen_zeros|done|apply hdisj_empty].
Qed.

Definition plain (i : LWMsgTypeIter) : Prop := kind i = LWMSG_KIND_INTEGER \/ kind i = LWMSG_KIND_ENUM.

(** Integers own nothing, whatever is in memory. *)
Lemma plain_frees fuel i path x hp a g : plain i -> frees (lwmsg_data_free_graph_visit specs (S fuel) path (set_dom g i) a x) hp hempty x.
Proof.
  intros Hk. eapply frees_ext; [intros st; symmetry; apply visit_children; cbn; destruct Hk as [-> | ->]; done|]. unfold lwmsg_data_visit_graph_children. change (kind (set_dom g i)) with (kind i).
  destruct Hk as [-> | ->]; apply frees_ret.
Qed.

Lemma plain_fold fuel i path hp g p : plain i -> forall n j x, frees (fold_nat n j (fun k x => lwmsg_data_free_graph_visit specs (S fuel) path (set_dom g i) (p + k * size i) x) x) hp hempty x.
Proof.
  intros Hk. induction n as [|n IH]; intros j x; [apply frees_ret|]. cbn [fold_nat]. rewrite <-(hunion_empty_r hempty). eapply frees_bind; [by apply plain_frees|]. rewrite hminus_empty. apply IH.
Qed.

Lemma plain_elems i dom bs n : plain i -> releasable_elems 1 i dom bs hempty n.
Proof. intros Hk [|fuel] Hf; [lia|]. intros hp a g path x _ _ _ _ _. by apply plain_fold. Qed.

(** * One after the other *)

Lemma tries_seq {A} n1 n2 dom R1 R2 R (ok1 : () -> Prop) (ok : A -> Prop) m1 m2 : 0 <= n1 -> 0 <= n2 -> tries n1 dom R1 ok1 m1 -> tries n2 dom R2 ok m2 ->
  (forall b1 h1 b2 h2, zlen b1 = n1 -> R1 b1 h1 -> R2 b2 h2 -> hdisj h1 h2 -> R (b1 ++ b2) (hunion h1 h2)) -> (forall b1 h1, zlen b1 = n1 -> R1 b1 h1 -> R (b1 ++ zeros n2) h1) ->
  tries (n1 + n2) dom R ok (fun d a => m1 d a;; m2 d (a + n1)).
Proof.
  intros Hn1 Hn2 F1 F2 HR HRz hp a d b mp Ha Hz Hd Haw Hb. pose proof Hz as Hz0. rewrite (zeros_cut (n1 + n2) n1) in Hz by lia. replace (n1 + n2 - n1) with n2 in Hz by lia.
  destruct (F1 hp a d b mp) as (b1 & h1 & b' & r1 & E1 & B1 & L1 & K1 & D1 & O1 & _); [done|by apply region_sub_l in Hz|done| |done|].
  { intros o s u Hl. destruct (Haw _ _ _ Hl); [by left|right; lia]. }
  destruct r1 as [e|[]].
  { exists (b1 ++ zeros n2), h1, b', (inl e). rewrite (bind_inl _ _ _ _ _ E1), (hput_pad hp a n1 n2) by done. split; [done|]. split; [done|]. split; [rewrite zlen_app, zlen_zeros; lia|].
    split; [apply bytes_ok_app; split; [done|apply bytes_ok_zeros]|]. split; [done|]. split; [by apply HRz|done]. }
  apply region_sub_r in Hz as Hz2. rewrite zlen_zeros in Hz2 by done.
  destruct (F2 (hput hp a b1 h1) (a + n1) d b' mp) as (b2 & h2 & b'' & r2 & E2 & B2 & L2 & K2 & D2 & O2 & Hok); [lia|apply sub_put; [done|lia]| | |done|].
  { apply dom_ok_put; [done|]. rewrite L1. intros o s u Hl. destruct (Haw _ _ _ Hl); [by left|right; lia]. }
  { intros o s u Hl. destruct (Haw _ _ _ Hl); [left; lia|right; lia]. }
  exists (b1 ++ b2), (hunion h1 h2), b'', r2. rewrite (bind_inr _ _ _ _ _ E1), E2, (hput_seq _ _ _ _ _ _ _ L1). apply hdisj_put in D2 as (D2 & D12). split; [done|]. split; [done|]. split; [rewrite zlen_app; lia|].
  split; [by apply bytes_ok_app|]. split; [by apply hdisj_union|]. split; [by apply HR|done].
Qed.

Abbreviation unmarshal_internal := (lwmsg_data_unmarshal_internal specs byte_order free_fuel).

(** An object that owns [h]; an integer owns nothing. *)
Definition owned (f : nat) (i : LWMsgTypeIter) (dom : known) (bs : mem) (h : heap) : Prop := releasable f i dom bs h /\ (plain i -> h = hempty).
Definition owned_elems (f : nat) (i : LWMsgTypeIter) (dom : known) (n : nat) (bs : mem) (h : heap) : Prop := releasable_elems f i dom bs h n /\ (plain i -> h = hempty).

(** A call of the unmarshaller for a type of [n] bytes; [f] is the fuel of releases. *)
Definition tries_type (fuel f : nat) (i : LWMsgTypeIter) (dom : known) (n : Z) : Prop :=
  tries n dom (owned f i dom) (fun _ => True) (fun d a => unmarshal_internal fuel d (set_dom d i) a).

Lemma elems_tries fuel f i dom : 0 <= size i -> tries_type fuel f i dom (size i) -> releasable f i dom (zeros (size i)) hempty ->
  forall n, tries (Z.of_nat n * size i) dom (owned_elems f i dom n) (fun _ => True) (fun d a => unmarshal_elems specs byte_order free_fuel fuel d i n d a).
Proof.
  intros Hs Ht Hz. induction n as [|n IH].
  - intros hp a d b mp Ha _ _ _ Hb. exists [], hempty, b, (inr tt). rewrite hput_same by apply map_empty_subseteq. split; [done|]. split; [done|]. split; [done|]. split; [constructor|]. split; [apply hdisj_empty|].
    split; [|done]. split; [apply releasable_nil|done].
  - replace (Z.of_nat (S n) * size i) with (size i + Z.of_nat n * size i) by lia. apply (tries_ext _ _ _ _ (fun d a => unmarshal_internal fuel d (set_dom d i) a;; unmarshal_elems specs byte_order free_fuel fuel d i n d (a + size i))); [intros d a st; symmetry; apply elems_next|].
    eapply (tries_seq _ _ _ _ _ _ _ _ _ (fun d a => unmarshal_elems specs byte_order free_fuel fuel d i n d a)); [done|lia|exact Ht|exact IH| |].
    + intros b1 h1 b2 h2 L1 (R1 & P1) (R2 & P2) D. split; [by apply releasable_cons|]. intros Hp. by rewrite P1, P2.
    + intros b1 h1 L1 (R1 & P1). split; [|done]. rewrite <-(hunion_empty_r h1). apply releasable_cons; [done|done|by apply releasable_zeros|apply hdisj_empty].
Qed.

Lemma indirect_tries fuel f i dom n : 0 <= n < 2 ^ 64 -> 0 <= size i -> (1 <= f)%nat -> tries_type fuel f i dom (size i) -> releasable f i dom (zeros (size i)) hempty ->
  tries (n * size i) dom (owned_elems f i dom (Z.to_nat n)) (fun _ => True) (fun d a => lwmsg_data_unmarshal_indirect (unmarshal_internal fuel) d (set_dom d i) a n).
Proof.
  intros Hn Hs Hf1 Ht Hz. unfold lwmsg_data_unmarshal_indirect. destruct (direct_copy i) eqn:Hd.
  - assert (Hp : plain i /\ size i = 1).
    { unfold direct_copy in Hd. unfold plain. destruct (kind i); try done; destruct (info i); try done; apply andb_true_iff in Hd as (_ & Hd%Z.eqb_eq); auto. }
    destruct Hp as (Hp & H1). intros hp a d b mp Ha Hzr _ _ Hb. change (direct_copy (set_dom d i)) with (direct_copy i). rewrite Hd. change (size (set_dom d i)) with (size i).
    destruct (read_heap_any hp a b mp (n * size i) Hb ltac:(lia) Hzr) as (bs & b' & r & E & Hb' & L & K). exists bs, hempty, b', r. replace (u64 (n * size i)) with (n * size i) by (unfold u64; rewrite Z.mod_small; lia).
    split; [done|]. split; [done|]. split; [done|]. split; [done|]. split; [apply hdisj_empty|]. split; [|done]. split; [|done]. intros fuel' Hf'. apply (plain_elems i dom bs _ Hp). lia.
  - rewrite <-(Z2Nat.id n) at 1 by lia. eapply tries_ext; [|by apply (elems_tries fuel f i dom Hs Ht Hz (Z.to_nat n))]. intros d a st. change (direct_copy (set_dom d i)) with (direct_copy i). rewrite Hd.
    rewrite <-(Z2Nat.id n) at 2 by lia. by rewrite for_loop_nat.
Qed.

(** * Lengths *)

(** The length that is read off an integer of [s] bytes with the digits [u], taken as
    signed. *)
Definition length_of (s u : Z) : Z := (if 256 ^ s <=? 2 * u then u - 256 ^ s else u) mod 2 ^ 64.

Lemma extract_length_any i o s u dom d st : info i = InfoIndirect (TermMember o s) -> dom !! (o, s) = Some u -> s <= 8 -> dom_ok (st_heap st) d dom ->
  lwmsg_data_extract_length i d st = Some (st, inr (length_of s u)).
Proof.
  intros Hi Hn Hs Hd. destruct (Hd _ _ _ Hn) as (H1 & Hr & Hsub). unfold lwmsg_data_extract_length. rewrite Hi. pose proof (pow256_mono s ltac:(lia)) as Hm.
  set (v := if 256 ^ s <=? 2 * u then u - 256 ^ s else u). assert (Hv : v mod 256 ^ s = u) by (unfold v; destruct (Z.leb_spec (256 ^ s) (2 * u)); [rewrite <-(Z_mod_plus_full _ 1)|]; rewrite Z.mod_small; lia).
  rewrite (convert_object_ok LWMSG_SIGNED (d + o) s 8 v st); [done|lia|lia| | |].
  - unfold int_fits, v. destruct (Z.leb_spec (256 ^ s) (2 * u)); lia.
  - unfold int_fits, v. change (256 ^ 8) with (2 ^ 64). destruct (Z.leb_spec (256 ^ s) (2 * u)); lia.
  - rewrite <-encode_mod, Z2Nat.id, Hv by lia. done.
Qed.

(** [n] is the number of elements, as far as it is known. *)
Definition counted (dom : known) (t : term) (n : Z) : Prop :=
  match t with TermStatic k => n = k | TermMember o s => s <= 8 /\ exists u, dom !! (o, s) = Some u /\ n = length_of s u | TermZero => True end.
Definition knows (L : list (Z * Z)) (dom : known) : Prop := forall o s, (o, s) ∈ L -> is_Some (dom !! (o, s)).

Lemma prologue_any L i t inn dom hp d b mp : info i = InfoIndirect t -> sane_term L t inn -> knows L dom -> dom_ok hp d dom -> buffer_ok b ->
  exists b' r, lwmsg_data_unmarshal_indirect_prologue byte_order d (set_dom d i) (mkState hp b mp) = Some (mkState hp b' mp, r) /\ buffer_ok b' /\
    forall n, r = inr n -> 0 <= n < 2 ^ 64 /\ counted dom t n.
Proof.
  intros Hi Ht Hk Hd Hb. unfold lwmsg_data_unmarshal_indirect_prologue. change (info (set_dom d i)) with (info i). rewrite Hi. destruct t as [k| |o s]; cbn [sane_term counted] in *.
  - exists b, (inr k). split; [done|]. split; [done|]. by intros n [= <-].
  - destruct (read_local_any hp b mp 4 4 Hb ltac:(lia)) as (b' & r & E & Hb' & [-> |(w & -> & Hl & Hw)]); [exists b', (inl LWMSG_STATUS_EOF); by rewrite (bind_inl _ _ _ _ _ E)|].
    rewrite (bind_inr _ _ _ _ _ E). pose proof (convert_integer_spec LWMSG_UNSIGNED byte_order host w [] (zeros 8) []) as Hc. rewrite !app_nil_r, Hl in Hc. change (zlen (zeros 8)) with 8 in Hc.
    specialize (Hc Hw ltac:(by intros ->) ltac:(done)). cbn [int_value] in Hc. pose proof (decode_range byte_order w Hw) as Hdr. rewrite Hl in Hdr.
    assert (Hfit : int_fits LWMSG_UNSIGNED 8 (decode byte_order w) = true) by (unfold int_fits; change (256 ^ 8) with (2 ^ 64); change (256 ^ 4) with (2 ^ 32) in Hdr; lia). unfold int_value in Hc. rewrite Hfit in Hc.
    rewrite (bind_inr _ _ _ (mkState hp b' mp) (encode host 8 (decode byte_order w))). 2: { unfold convert. by rewrite (bind_inr _ _ _ _ _ (get_Some _ _ _ Hc)). }
    eexists b', _. split; [reflexivity|]. split; [done|]. intros n [= <-]. split; [|done]. pose proof (decode_range host (encode host 8 (decode byte_order w)) (bytes_ok_encode _ _ _)) as Hr. by rewrite zlen_encode in Hr.
  - destruct Ht as (Hin & Hs). destruct (Hk _ _ Hin) as (u & Hu). exists b, (inr (length_of s u)). rewrite (extract_length_any (set_dom d i) o s u dom d) by done. split; [done|]. split; [done|].
    intros n [= <-]. split; [apply Z.mod_pos_bound; lia|]. split; [done|]. by exists u.
Qed.

(** * The release of pointers *)

Lemma frees_loop n body hp h x : 0 <= n -> frees (fold_nat (Z.to_nat n) 0 body x) hp h x -> frees (fold_loop n body x) hp h x.
Proof. intros Hn. apply frees_ext. intros st. rewrite <-fold_loop_nat. by rewrite Z2Nat.id. Qed.

Lemma count_any i hp a bs n rest : 0 < size i -> zlen bs = n * size i -> region a (bs ++ zeros (size i) ++ rest) ⊆ cells hp ->
  forall r k x fuel, 0 <= k -> n - k = Z.of_nat r -> (r < fuel)%nat -> exists c, x <= c /\ count_loop fuel i (a + k * size i) x hp = Some c.
Proof.
  intros Hs Hl Hsub. assert (He : forall k, 0 <= k <= n -> exists e, region (a + k * size i) e ⊆ cells hp /\ zlen e = size i /\ (k = n -> e = zeros (size i))).
  { intros k Hk. destruct (decide (k = n)) as [-> |Hne].
    - exists (zeros (size i)). rewrite zlen_zeros by lia. split; [|done]. rewrite <-Hl. apply region_sub_r in Hsub. by apply region_sub_l in Hsub.
    - destruct (rd_ok bs (k * size i) (size i)) as (e & He & Hel); [nia|lia|nia|]. exists e. split; [|done]. eapply region_rd; [exact He|by apply region_sub_l in Hsub]. }
  induction r as [|r IH]; intros k x [|fuel] Hk Hr Hf; try lia; cbn [count_loop]; unfold lwmsg_object_is_zero; destruct (He k ltac:(lia)) as (e & Hreg & Hze & Hend).
  all: pose proof (is_zero_loop_spec hp e (a + k * size i) Hreg) as Hz; replace (length e) with (Z.to_nat (size i)) in Hz by (unfold zlen in Hze; lia); rewrite Hz; bsimpl.
  - rewrite bool_decide_eq_true_2; [by exists x|]. by rewrite Hend by lia.
  - destruct (bool_decide _); [by exists x|]. destruct (IH (k + 1) (x + 1) fuel) as (c & Hc & E); [lia|lia|lia|]. exists c. split; [lia|]. by replace (a + k * size i + size i) with (a + (k + 1) * size i) by lia.
Qed.

Lemma visit_count_any i hp a bs n rest : 0 < size i -> 0 <= n -> zlen bs = n * size i -> region a (bs ++ zeros (size i) ++ rest) ⊆ cells hp ->
  exists k, 0 <= k /\ visit_count_loop (S (size_of_heap hp)) (size i) a 1 hp = Some k.
Proof.
  intros Hs Hn Hl Hsub. pose proof (region_size_le _ _ _ Hsub) as Hle. rewrite length_app in Hle. rewrite visit_count_eq.
  destruct (count_any i hp a bs n rest Hs Hl Hsub (Z.to_nat n) 0 1 (S (size_of_heap hp))) as (c & Hc & E); [lia|lia|unfold zlen in Hl; nia|]. exists c. rewrite Z.mul_0_l, Z.add_0_r in E. split; [lia|done].
Qed.

Section Pointer.
Context (L : list (Z * Z)) (i : LWMsgTypeIter) (t : term) (inn : LWMsgTypeIter) (dom : known) (f : nat).
Hypothesis (Hk : kind i = LWMSG_KIND_POINTER) (Ha : has_flag LWMSG_TYPE_FLAG_ALIASABLE i = false) (Hi : info i = InfoIndirect t).
Hypothesis (Hin : lwmsg_type_enter specs i zero_iter = Some inn) (Hne : inner i <> 0) (Hs : 0 <= size inn < 2 ^ 64) (Ht : sane_term L t inn) (Hf : (1 <= f)%nat).

Lemma visit_indirect_any fuel hp g path x p n bs e h : (f <= fuel)%nat -> counted dom t n -> 0 <= n -> zlen bs = n * size inn -> owned_elems f inn dom (Z.to_nat n) bs h ->
  hsub h hp -> region p (bs ++ terminator t (size inn) ++ e) ⊆ cells hp -> region p (bs ++ terminator t (size inn) ++ e) ##ₘ cells h -> dom_ok hp g dom -> apart g dom h ->
  frees (lwmsg_data_visit_graph_indirect specs (set_dom g i) p (lwmsg_data_free_graph_visit specs fuel path) x) hp h x.
Proof.
  intros Hfu Hc Hn Hl (Hr & Hp) Hh Hsub Hdj Hd Hap. unfold lwmsg_data_visit_graph_indirect.
  eapply (frees_read _ (set_dom g inn)); [intros b mp; apply get_Some; by rewrite type_enter_dom, (proj2 (Z.eqb_neq _ _) Hne), Hin|].
  assert (Hall : frees (fold_loop n (fun k x => lwmsg_data_free_graph_visit specs fuel path (set_dom g inn) (p + k * size (set_dom g inn)) x) x) hp h x).
  { apply frees_loop; [done|]. apply (Hr fuel Hfu); [done|by apply region_sub_l in Hsub| |done|done]. rewrite region_app in Hdj. by apply map_disjoint_union_l in Hdj as (? & _). }
  change (info (set_dom g i)) with (info i). rewrite Hi. destruct t as [k| |o s]; cbn [counted sane_term terminator] in *.
  - subst k. by eapply (frees_read _ n).
  - destruct Ht as (Hpl & Hpos). rewrite (Hp Hpl). destruct (visit_count_any (set_dom g inn) hp p bs n e Hpos Hn Hl Hsub) as (k & Hk0 & E).
    eapply (frees_read _ k); [intros b mp; by apply read_heap_Some|]. apply frees_loop; [done|]. destruct fuel as [|fuel]; [lia|]. change (size (set_dom g inn)) with (size inn). by apply plain_fold.
  - destruct Hc as (Hs8 & u & Hu & ->). eapply (frees_read _ (length_of s u)); [|exact Hall]. intros b mp. by eapply (extract_length_any (set_dom g i) o s u dom g (mkState hp b mp)).
Qed.

(** A pointer to its elements can be released. *)
Lemma pointer_owned p n bs e h : counted dom t n -> 0 <= n -> zlen bs = n * size inn -> owned_elems f inn dom (Z.to_nat n) bs h -> hdisj (block p (bs ++ terminator t (size inn) ++ e)) h -> 0 < p < 2 ^ 64 ->
  owned (S f) i dom (encode host 8 p) (hunion (block p (bs ++ terminator t (size inn) ++ e)) h).
Proof.
  intros Hc Hn Hl Ho Hdj Hp. split; [|intros [Hx|Hx]; congruence]. intros [|fuel] Hfu; [lia|]. apply releases_block; [done|done|done|done|]. intros hp g path x Hh Hsub Hd Hap.
  eapply visit_indirect_any; try done; [lia|apply Hdj].
Qed.
End Pointer.

(** * Filling a new block *)

Lemma alloc_any hp b mp size : 0 <= size -> lwmsg_context_alloc size (mkState hp b mp) = Some (mkState hp b mp, inl LWMSG_STATUS_MEMORY) \/
  exists p, malloc hp (alloc_size size) = Some p /\ lwmsg_context_alloc size (mkState hp b mp) = Some (mkState (add_block hp p (zeros (alloc_size size))) b mp, inr p).
Proof.
  intros Hs. unfold lwmsg_context_alloc, lwmsg_context_default_alloc. destruct (malloc hp (alloc_size size)) as [p|] eqn:Hm.
  - right. exists p. split; [done|]. rewrite (bind_inr _ _ _ (mkState hp b mp) (Some (p, add_block hp p (zeros (alloc_size size))))); [done|]. apply read_heap_Some. cbn [st_heap]. by rewrite Hm.
  - left. rewrite (bind_inr _ _ _ (mkState hp b mp) None); [done|]. apply read_heap_Some. cbn [st_heap]. by rewrite Hm.
Qed.

Lemma alloc_tries {A} n k dom R ok (m : Z -> Z -> prog A) : 0 <= n -> 0 <= k -> tries n dom R ok m ->
  forall hp d b mp p, malloc hp (alloc_size (n + k)) = Some p -> dom_ok hp d dom -> buffer_ok b ->
  exists e bs h b' r, m d p (mkState (add_block hp p (zeros (alloc_size (n + k)))) b mp) = Some (mkState (hunion hp (hunion (block p (bs ++ zeros k ++ e)) h)) b' mp, r) /\
    buffer_ok b' /\ zlen bs = n /\ R bs h /\ (forall x, r = inr x -> ok x) /\ 0 < p < 2 ^ 64 /\ hdisj (block p (bs ++ zeros k ++ e)) h /\ hdisj hp (hunion (block p (bs ++ zeros k ++ e)) h).
Proof.
  intros Hn Hk Hf hp d b mp p Hm Hd Hb. assert (HN : 1 <= alloc_size (n + k) /\ n + k <= alloc_size (n + k) <= n + k + 1) by (unfold alloc_size; destruct (Z.eqb_spec (n + k) 0); lia).
  set (N := alloc_size (n + k)) in *. destruct HN as (H1 & HN2). destruct (malloc_fresh hp N p H1 Hm) as (Hp & Hp2 & Hfr & Hbl).
  assert (Hsub : cells hp ⊆ cells (add_block hp p (zeros N))) by (cbn; rewrite put_bytes_region; apply map_union_subseteq_r, symmetry, fresh_disjoint; by rewrite zlen_zeros by lia).
  destruct (Hf (add_block hp p (zeros N)) p d b mp) as (bs & h & b' & r & E2 & B & L & K & Dj & Ho & Hok); [done| |by eapply dom_ok_sub|eapply dom_away_fresh; [done|exact H1|done|lia]|done|].
  { cbn. rewrite put_bytes_region, (zeros_cut N n), region_app by lia. etrans; [|apply map_union_subseteq_l]. apply map_union_subseteq_l. }
  assert (He : zeros (N - zlen bs) = zeros k ++ zeros (N - zlen bs - k)) by (apply zeros_cut; lia).
  rewrite block_filled in E2 by (done || lia). rewrite He in E2. assert (HL : zlen (bs ++ zeros k ++ zeros (N - zlen bs - k)) = N) by (rewrite !zlen_app, !zlen_zeros; lia).
  destruct (block_disjoint hp p N _ h Hfr Hbl HL Dj) as (D1 & D2). exists (zeros (N - zlen bs - k)), bs, h, b', r. do 5 (split; [done|]). split; [lia|done].
Qed.
End Ops.
