(* ===== verification/LwmsgSafe.v ===== *)
(** The unmarshaller on arbitrary bytes, with an allocator that may fail at any time: it
    never faults, an error gives all memory back, and the objects that it makes can be
    released. *)

From stdpp Require Import gmap.
From S2P Require Import Prelude Lwmsg LwmsgType LwmsgOps LwmsgData LwmsgMarshal LwmsgHeap LwmsgWire LwmsgMarshalOps LwmsgFill LwmsgUnmarshalOps LwmsgRelease LwmsgRoundTrip LwmsgTry.

(** * Memory after a failure *)

Lemma difference_cancel (m h : gmap Z Z) : m ##ₘ h -> (m ∪ h) ∖ h = m.
Proof.
  intros Hd. apply map_eq. intros k. rewrite lookup_difference, lookup_union. destruct (h !! k) as [y|] eqn:Hy.
  - symmetry. by eapply map_disjoint_Some_r.
  - by destruct (m !! k).
Qed.

Lemma hminus_cancel hp h : hdisj hp h -> hminus (hunion hp h) h = hp.
Proof. intros (Hc & Hb). unfold hminus, hunion. cbn. rewrite !difference_cancel by done. by destruct hp. Qed.

Lemma hsub_new hp h : hdisj hp h -> hsub h (hunion hp h).
Proof. intros (Hc & Hb). split; by apply map_union_subseteq_r. Qed.

Section Ops.
Context {hostI : Host} {mallocI : Malloc} {lawsI : MallocLaws} {stackI : Stack} {stacklawsI : StackLaws} {userI : User} (specs : list Z) (byte_order : endian) (free_fuel : nat).

Abbreviation unmarshal_internal := (lwmsg_data_unmarshal_internal specs byte_order free_fuel).
Abbreviation releasable := (releasable specs).
Abbreviation owned := (owned specs).
Abbreviation owned_elems := (owned_elems specs).
Abbreviation tries_type := (tries_type specs byte_order free_fuel).
Abbreviation sane := (sane specs).
Abbreviation sane_fields := (sane_fields specs).

Lemma apart_new hp d dom h : dom_ok hp d dom -> hdisj hp h -> apart d dom h.
Proof. intros Hd (Hc & _) o s u Hu. destruct (Hd _ _ _ Hu) as (_ & _ & Hs). by eapply map_disjoint_weaken_l. Qed.

Lemma releasable_mono f f' i dom bs h : (f <= f')%nat -> releasable f i dom bs h -> releasable f' i dom bs h.
Proof. intros Hf Hr fuel Hfu. apply Hr. lia. Qed.

Lemma owned_one f i dom bs h : zlen bs = size i -> owned f i dom bs h -> owned_elems f i dom 1 bs h.
Proof.
  intros Hl (Hr & Hp). split; [|done]. rewrite <-(app_nil_r bs), <-(hunion_empty_r h). apply releasable_cons; [done|done|apply releasable_nil|apply hdisj_empty].
Qed.

(** * The members of a structure *)

(** What the members own, and how a structure that is not complete is given back. *)
Definition frees_partial (fuel : nat) (dom : known) (ms : list LWMsgTypeIter) (bs : mem) (h : heap) : Prop :=
  forall hp a b mp, hsub h hp -> region a bs ⊆ cells hp -> region a bs ##ₘ cells h -> dom_in dom bs ->
    free_partial_members specs fuel (map (set_dom a) ms) a (mkState hp b mp) = Some (mkState (hminus hp h) b mp, inr tt).
Definition owned_fields (f : nat) (dom : known) (ms : list LWMsgTypeIter) (bs : mem) (h : heap) : Prop :=
  forall fuel, (f <= fuel)%nat -> releases_fields specs fuel dom ms bs h /\ frees_partial fuel dom ms bs h.

Lemma owned_fields_mono f f' dom ms bs h : (f <= f')%nat -> owned_fields f dom ms bs h -> owned_fields f' dom ms bs h.
Proof. intros Hf Hr fuel Hfu. apply Hr. lia. Qed.

Lemma owned_fields_nil dom bs : owned_fields 0 dom [] bs hempty.
Proof. intros fuel _. split; [intros hp a g path x _ _ _ _; apply frees_ret|]. intros hp a b mp _ _ _ _. by rewrite hminus_empty. Qed.

Lemma free_internal fuel i g a hp h b mp : frees (lwmsg_data_free_graph_visit specs fuel [] (set_dom g i) a 0) hp h 0 ->
  lwmsg_data_free_graph_internal specs fuel (set_dom g i) a (mkState hp b mp) = Some (mkState (hminus hp h) b mp, inr tt).
Proof. intros Hv. unfold lwmsg_data_free_graph_internal. by rewrite (bind_inr _ _ _ _ _ (Hv b mp)). Qed.

Lemma owned_fields_cons f dom dom' m ms bs b h1 h2 : is_flexible m = false -> releasable f m dom b h1 -> rd bs (offset m) (zlen b) = Some b -> (dom_in dom bs -> dom_in dom' bs) ->
  owned_fields f dom' ms bs h2 -> hdisj h1 h2 -> owned_fields f dom (m :: ms) bs (hunion h1 h2).
Proof.
  intros Hfx H1 Hrd Hdom H2 Hdj fuel Hf. destruct (H2 fuel Hf) as (R & P). specialize (H1 fuel Hf). split; [by eapply releases_members|].
  intros hp a b' mp Hh Hsub Hda Hd. cbn in Hda. apply map_disjoint_union_r in Hda as (Hd1 & Hd2).
  cbn [map free_partial_members]. change (is_flexible (set_dom a m)) with (is_flexible m). rewrite Hfx. change (offset (set_dom a m)) with (offset m).
  erewrite bind_inr; [|apply free_internal, H1; [by eapply hsub_union_l|by eapply region_rd| |by eapply dom_in_ok|by eapply dom_in_apart]].
  - rewrite P; [by rewrite hminus_union|apply hsub_minus; [by eapply hsub_union_r|done]|cbn; apply sub_difference; [done|by symmetry]|done|by apply Hdom].
  - eapply map_disjoint_weaken_l; [exact Hd1|by eapply region_rd].
Qed.

Lemma owned_struct f i ms dom bs h : kind i = LWMSG_KIND_STRUCT -> members specs i = Some ms -> owned_fields f ∅ ms bs h -> owned (S f) i dom bs h.
Proof.
  intros Hk Hm Hr. split; [|intros [Hx|Hx]; congruence]. intros [|fuel] Hf; [lia|]. intros hp a g path x Hh Hsub Hda _ _.
  eapply frees_ext; [intros st; symmetry; apply visit_children; cbn; by rewrite Hk|]. unfold lwmsg_data_visit_graph_children. change (kind (set_dom g i)) with (kind i). rewrite Hk.
  eapply frees_read; [intros b mp; apply get_Some; by rewrite members_dom, Hm|]. apply (Hr fuel); [lia|done|done|done|]. by intros o s u Hu.
Qed.

Lemma free_partial_ok f i ms p bs e h hp b mp : (f <= free_fuel)%nat -> members specs i = Some ms -> 0 < p -> owned_fields f ∅ ms bs h -> hdisj (block p (bs ++ e)) h -> hdisj hp (hunion (block p (bs ++ e)) h) ->
  lwmsg_data_unmarshal_free_partial_struct specs free_fuel (set_dom p i) p (mkState (hunion hp (hunion (block p (bs ++ e)) h)) b mp) = Some (mkState hp b mp, inr tt).
Proof.
  intros Hf Hm Hp Ho Hdj Hnew. unfold lwmsg_data_unmarshal_free_partial_struct. rewrite (bind_inr _ _ _ (mkState (hunion hp (hunion (block p (bs ++ e)) h)) b mp) (map (set_dom p) ms)) by (apply get_Some; by rewrite members_dom, Hm).
  pose proof (hsub_new _ _ Hnew) as Hsub. rewrite (bind_inr _ _ _ (mkState (hminus (hunion hp (hunion (block p (bs ++ e)) h)) h) b mp) tt).
  - unfold lwmsg_context_free, update_heap. cbn [st_heap]. rewrite (free_block _ p (bs ++ e)) by (done || (apply hsub_minus; [by eapply hsub_union_l|destruct Hdj; by split])).
    rewrite hminus_union, <-(hunion_comm _ h Hdj), hminus_cancel by done. done.
  - apply (Ho free_fuel Hf); [by eapply hsub_union_r| | |by intros o s u Hu].
    + apply hsub_union_l in Hsub as (Hc & _). cbn in Hc. by apply region_sub_l in Hc.
    + destruct Hdj as (Hc & _). cbn in Hc. rewrite region_app in Hc. by apply map_disjoint_union_l in Hc as (? & _).
Qed.

(** * Zeros own nothing *)

Lemma rd_zeros_sub n o k : 0 <= o -> 0 <= k -> o + k <= n -> rd (zeros n) o k = Some (zeros k).
Proof.
  intros Ho Hk Hn. apply rd_Some. exists (zeros o), (zeros (n - o - k)). rewrite !zlen_zeros by lia. split; [|done]. by rewrite (zeros_cut n o), (zeros_cut (n - o) k) by lia.
Qed.

Lemma owned_null f i dom : kind i = LWMSG_KIND_POINTER -> owned (S f) i dom (zeros 8) hempty.
Proof.
  intros Hk. split; [|done]. intros [|fuel] Hf; [lia|]. intros hp a g path x _ Hsub _ _ _. cbn [lwmsg_data_free_graph_visit]. change (kind (set_dom g i)) with (kind i). rewrite Hk.
  eapply (frees_read _ 0); [intros b mp; apply read_heap_Some, load_ptr_ok; [lia|by rewrite encode_null]|]. apply frees_ret.
Qed.

Lemma owned_plain i dom bs : plain i -> owned 1 i dom bs hempty.
Proof. intros Hk. split; [|done]. intros [|fuel] Hf; [lia|]. apply releases_plain. destruct Hk; auto. Qed.

(** An array of its elements. *)
Lemma owned_array f i inn k dom bs h : kind i = LWMSG_KIND_ARRAY -> info i = InfoIndirect (TermStatic k) -> 0 <= k -> lwmsg_type_enter specs i zero_iter = Some inn -> inner i <> 0 ->
  owned_elems f inn dom (Z.to_nat k) bs h -> owned (S f) i dom bs h.
Proof.
  intros Hk Hi Hk0 Hin Hne (Hr & Hp). split; [|intros [Hx|Hx]; congruence]. intros [|fuel] Hf; [lia|]. intros hp a g path x Hh Hsub Hda Hd Hap.
  eapply frees_ext; [intros st; symmetry; apply visit_children; cbn; by rewrite Hk|]. unfold lwmsg_data_visit_graph_children. change (kind (set_dom g i)) with (kind i). rewrite Hk.
  unfold lwmsg_data_visit_graph_indirect. eapply (frees_read _ (set_dom g inn)); [intros b mp; apply get_Some; by rewrite type_enter_dom, (proj2 (Z.eqb_neq _ _) Hne), Hin|].
  change (info (set_dom g i)) with (info i). rewrite Hi. eapply (frees_read _ k); [done|]. apply frees_loop; [done|]. apply (Hr fuel); [lia|done..].
Qed.

Lemma zero_spec :
  (forall i L n, sane i L n -> exists f, forall dom, releasable f i dom (zeros n) hempty) /\
  (forall used L ms n, sane_fields used L ms n -> exists f, forall cur dom, zlen cur = n -> clean used cur -> owned_fields f dom ms cur hempty).
Proof.
  apply sane_mutual.
  - intros i L w s Hk _ _ _ _. exists 1%nat. intros dom. apply (owned_plain i dom). by left.
  - intros i L w s vars Hk _ _ _ _ _. exists 1%nat. intros dom. apply (owned_plain i dom). by right.
  - intros i L ms Hk _ Hm Hs _ (f & IH). exists (S f). intros dom. eapply owned_struct; [done|exact Hm|]. apply IH; [by apply zlen_zeros|]. intros o k Ho Hk0 Hok _. apply rd_zeros_sub; [done|done|]. by rewrite zlen_zeros in Hok.
  - intros i L t inn Hk _ _ _ _ _ _ _ _ _. exists 1%nat. intros dom. by apply owned_null.
  - intros i L k inn Hk _ Hi Hk0 Hin Hne Hsn (f & IH). apply sane_pos in Hsn as Hs. exists (S f). intros dom. eapply owned_array; [done|done|lia|done|done|]. split; [|done].
    rewrite <-(Z2Nat.id k) at 1 by lia. by apply releasable_zeros.
  - intros used L n. exists 0%nat. intros cur dom _ _. apply owned_fields_nil.
  - intros used L m ms k n Hfx Hks Hsn (f1 & IH1) Ho Hok Haw _ (f2 & IH2). apply sane_pos in Hsn as Hs. exists (max f1 f2). intros cur dom Hn Hc. rewrite <-(hunion_empty_r hempty).
    eapply (owned_fields_cons _ _ ∅ _ _ _ (zeros k)); [done|eapply releasable_mono; [|apply IH1]; lia| |by intros _ ? ? ?| |apply hdisj_empty].
    + rewrite zlen_zeros by done. apply Hc; [done|done|lia|done].
    + eapply owned_fields_mono; [|apply IH2]; [lia|done|]. intros o k' Ho' Hk' Hok' (_ & Haw')%Forall_cons. by apply Hc.
Qed.

(** * Filling the members *)

(** What is known once the integer [b] of [m] has been filled. *)
Definition noted (m : LWMsgTypeIter) (b : mem) (dom : known) : known := if decide (kind m = LWMSG_KIND_INTEGER) then <[(offset m, zlen b) := decode host b]> dom else dom.

Lemma noted_in m b dom cur : bytes_ok b -> (kind m = LWMSG_KIND_INTEGER -> 1 <= zlen b) -> rd cur (offset m) (zlen b) = Some b -> dom_in dom cur -> dom_in (noted m b dom) cur.
Proof.
  intros Hb Hl Hr Hd. unfold noted. case_decide as Hk; [|done]. intros o s u [([= <- <-] & <-)|(_ & Hu)]%lookup_insert_Some; [|by apply Hd].
  split; [by apply Hl|]. split; [by apply decode_range|]. rewrite Hr. f_equal. symmetry. unfold zlen. rewrite Nat2Z.id. by apply encode_decode.
Qed.

Lemma noted_used used m b dom : dom_used used dom -> dom_used ((offset m, zlen b) :: used) (noted m b dom).
Proof.
  intros Hd o s u Hu. unfold noted in Hu. case_decide; [apply lookup_insert_Some in Hu as [([= <- <-] & _)|(_ & Hu)]; [by left|]|]; right; by eapply Hd.
Qed.

Lemma noted_knows L m b dom : knows L dom -> knows (if decide (kind m = LWMSG_KIND_INTEGER) then (offset m, zlen b) :: L else L) (noted m b dom).
Proof.
  intros Hk o s. unfold noted. case_decide; [|apply Hk]. intros [[= -> ->]|Hin]%elem_of_cons; [eexists; apply lookup_insert_eq|].
  destruct (Hk _ _ Hin) as (u & Hu). apply lookup_insert_is_Some'. right. by exists u.
Qed.

Lemma dom_in_wr used dom cur off b cur1 : dom_used used dom -> away off (zlen b) used -> wr cur off b = Some cur1 -> dom_in dom cur -> dom_in dom cur1.
Proof.
  intros Hdu Ha Hw Hd o s u Hu. destruct (Hd _ _ _ Hu) as (H1 & H2 & H3). split; [done|]. split; [done|]. rewrite (rd_wr_other _ _ _ _ _ _ Hw); [done|].
  unfold away in Ha. rewrite Forall_forall in Ha. pose proof (Ha _ (Hdu _ _ _ Hu)) as Hx. cbn in Hx. lia.
Qed.

Lemma dom_away_used used dom a off n : dom_used used dom -> away off n used -> dom_away a dom (a + off) n.
Proof. intros Hdu Ha o s u Hu. unfold away in Ha. rewrite Forall_forall in Ha. pose proof (Ha _ (Hdu _ _ _ Hu)) as Hx. cbn in Hx. lia. Qed.

(** The members fill the bytes [cur] of the structure further, or fail. *)
Definition fields_try (fuel f : nat) (used L : list (Z * Z)) (ms : list LWMsgTypeIter) (n : Z) : Prop :=
  forall hp a cur b mp g dom, 0 < a -> zlen cur = n -> bytes_ok cur -> clean used cur -> region a cur ⊆ cells hp -> dom_in dom cur -> dom_used used dom -> knows L dom -> buffer_ok b ->
    exists cur' h' b' r, unmarshal_members (unmarshal_internal fuel) (map (set_dom g) ms) a a 0 (mkState hp b mp) = Some (mkState (hput hp a cur' h') b' mp, r) /\
      buffer_ok b' /\ zlen cur' = n /\ bytes_ok cur' /\ keeps used cur cur' /\ owned_fields f dom ms cur' h' /\ hdisj hp h' /\ (forall x, r = inr x -> x = 0).

Lemma fields_nil_try fuel f used L n : fields_try fuel f used L [] n.
Proof.
  intros hp a cur b mp g dom Ha Hn Hb Hc Hs _ _ _ Hbuf. exists cur, hempty, b, (inr 0). rewrite hput_same by done. do 5 (split; [done|]). split; [eapply owned_fields_mono, owned_fields_nil; lia|]. split; [apply hdisj_empty|]. by intros x [= <-].
Qed.

Lemma fields_cons_try fuel f used L m ms k n : is_flexible m = false -> kind m <> LWMSG_KIND_STRUCT -> 0 <= k -> (kind m = LWMSG_KIND_INTEGER -> 1 <= k) -> 0 <= offset m -> offset m + k <= n -> away (offset m) k used ->
  (forall dom, knows L dom -> tries_type fuel f m dom k) ->
  (forall cur dom, zlen cur = n -> clean ((offset m, k) :: used) cur -> owned_fields f dom ms cur hempty) ->
  fields_try fuel f ((offset m, k) :: used) (if decide (kind m = LWMSG_KIND_INTEGER) then (offset m, k) :: L else L) ms n -> fields_try fuel f used L (m :: ms) n.
Proof.
  intros Hfx Hks Hk Hk1 Hoff Hlen Haw Hm Hz Hfs hp a cur b mp g dom Ha Hn Hb Hc Hs Hd Hdu Hkn Hbuf. cbn [map unmarshal_members].
  change (is_flexible (set_dom g m)) with (is_flexible m). rewrite Hfx. change (set_dom a (set_dom g m)) with (set_dom a m). change (offset (set_dom g m)) with (offset m). change (kind (set_dom g m)) with (kind m). rewrite (bool_decide_eq_false_2 _ Hks).
  destruct (Hm dom Hkn hp (a + offset m) a b mp) as (bs & h' & b' & r & E & B & L' & K & D & (O & _) & _); [lia| |by eapply dom_in_ok|by eapply dom_away_used|done|].
  { eapply region_rd; [|exact Hs]. apply Hc; [done|done|lia|done]. }
  subst k. destruct (wr_ok cur (offset m) bs) as (cur1 & Hw & Hl1); [done|lia|]. rewrite (hput_wr hp a cur _ _ cur1 h' Hs Hw) in E. pose proof (bytes_ok_wr _ _ _ _ Hb K Hw) as Hb1.
  assert (Hs1 : region a cur1 ⊆ cells (hput hp a cur1 h')) by apply map_union_subseteq_l. pose proof (clean_wr _ _ _ _ _ Hc Hw Hl1) as Hc1. pose proof (rd_wr_same _ _ _ _ Hw) as Hrd. pose proof (dom_in_wr _ _ _ _ _ _ Hdu Haw Hw Hd) as Hd1.
  destruct r as [e|[]].
  - exists cur1, h', b', (inl e). rewrite (bind_inl _ _ _ _ _ E). split; [done|]. split; [done|]. split; [lia|]. split; [done|]. split; [by eapply keeps_wr|]. split; [|done].
    rewrite <-(hunion_empty_r h'). eapply (owned_fields_cons _ _ dom); [done|done|exact Hrd|done|apply Hz; [lia|done]|apply hdisj_empty].
  - rewrite (bind_inr _ _ _ _ _ E).
    destruct (Hfs (hput hp a cur1 h') a cur1 b' mp g (noted m bs dom)) as (cur' & h2 & b2 & r & E2 & B2 & L2 & K2 & Kp & O2 & D2 & Hr); [done|lia|done|done|done|by apply noted_in|by apply noted_used|by apply noted_knows|done|].
    destruct (keeps_wr _ _ _ _ _ _ Haw Hw Kp) as (K1 & Hrd'). apply hdisj_put in D2 as (D2 & D12). rewrite hput_over in E2 by lia.
    exists cur', (hunion h' h2), b2, r. do 5 (split; [done|]). split; [|split; [by apply hdisj_union|done]]. eapply owned_fields_cons; [done|done|exact Hrd'| |done|done]. by apply noted_in.
Qed.

(** A structure of its members. *)
Lemma struct_tries fuel f i ms dom n g : members specs i = Some ms -> 0 <= n -> fields_try fuel f [] [] ms n ->
  tries n dom (owned_fields f ∅ ms) (fun x => x = 0) (fun d a => lwmsg_data_unmarshal_struct specs (unmarshal_internal fuel) (set_dom (g d a) i) a).
Proof.
  intros Hm Hn Hf hp a d b mp Ha Hz _ _ Hb. unfold lwmsg_data_unmarshal_struct. rewrite (bind_inr _ _ _ (mkState hp b mp) (map (set_dom (g d a)) ms)) by (apply get_Some; by rewrite members_dom, Hm).
  destruct (Hf hp a (zeros n) b mp (g d a) ∅) as (bs & h & b' & r & E & B & L' & K & _ & O & D & Hr); [done|by apply zlen_zeros|apply bytes_ok_zeros| |done|by intros ? ? ?|by intros ? ? ?|by intros ? ? ?%elem_of_nil|done|].
  { intros o k Ho Hk0 Hok _. rewrite zlen_zeros in Hok by done. by apply rd_zeros_sub. }
  exists bs, h, b', r. by do 6 (split; [done|]).
Qed.

(** * Pointers *)

(** An allocation that is filled, or given back. *)
Definition new_or_same (f : nat) (i : LWMsgTypeIter) (dom : known) (hp hp' : heap) (r : LWMsgStatus + Z) : Prop :=
  match r with inl _ => hp' = hp | inr p => 0 < p < 2 ^ 64 /\ exists h, hp' = hunion hp h /\ hdisj hp h /\ owned f i dom (encode host 8 p) h end.

Lemma on_error_inl {A} (m : prog A) cleanup st st1 st2 e r : m st = Some (st1, inl e) -> cleanup st1 = Some (st2, r) -> on_error m cleanup st = Some (st2, inl e).
Proof. intros Hm Hc. unfold on_error. by rewrite Hm, Hc. Qed.

Lemma enforce_total i n st : total (enforce_max_alloc i n) st.
Proof. unfold enforce_max_alloc. destruct (_ && _); by eexists. Qed.

Lemma check_total {A} (r : LWMsgStatus * option A) st : total (check_status r) st.
Proof. destruct r as [s [x|]]; by eexists. Qed.

(** The size of the elements and the zero element, unless it is too large. *)
Lemma referent_total i t n s st : info i = InfoIndirect t -> 0 <= n < 2 ^ 64 -> 0 <= s < 2 ^ 64 ->
  (exists e, (let* c := full_count i n in check_status (lwmsg_multiply_unsigned c s)) st = Some (st, inl e)) \/
  (let* c := full_count i n in check_status (lwmsg_multiply_unsigned c s)) st = Some (st, inr (n * s + zlen (terminator t s))) /\ n * s + zlen (terminator t s) < 2 ^ 64.
Proof.
  intros Hi Hn Hs. assert (Hmul : forall c, 0 <= c < 2 ^ 64 -> (exists e, check_status (lwmsg_multiply_unsigned c s) st = Some (st, inl e)) \/ check_status (lwmsg_multiply_unsigned c s) st = Some (st, inr (c * s)) /\ c * s < 2 ^ 64).
  { intros c Hc. rewrite multiply_exact by done. destruct (Z.ltb_spec (c * s) (2 ^ 64)); [by right|left; by eexists]. }
  unfold full_count. rewrite Hi. destruct t as [k| |o w]; cbn [terminator]; rewrite ?zlen_nil, ?zlen_zeros, ?Z.add_0_r by lia.
  - by apply Hmul.
  - rewrite add_exact by lia. destruct (Z.ltb_spec (n + 1) (2 ^ 64)); [|left; by eexists]. replace (n * s + s) with ((n + 1) * s) by lia. apply Hmul. lia.
  - by apply Hmul.
Qed.

Lemma run_verify_none i g a (m : prog ()) st st' r : verify i = 0 -> m st = Some (st', r) -> (m;; run_verify (set_dom g i) true a) st = Some (st', r).
Proof. intros Hv Hm. destruct r as [e|[]]; [by rewrite (bind_inl _ _ _ _ _ Hm)|]. rewrite (bind_inr _ _ _ _ _ Hm). unfold run_verify. cbn [verify set_dom]. by rewrite Hv. Qed.

Section Pointer.
Context (L : list (Z * Z)) (i : LWMsgTypeIter) (t : term) (inn : LWMsgTypeIter) (dom : known) (fuel f : nat).
Hypothesis (Hk : kind i = LWMSG_KIND_POINTER) (Ha : has_flag LWMSG_TYPE_FLAG_ALIASABLE i = false) (Hi : info i = InfoIndirect t).
Hypothesis (Hin : lwmsg_type_enter specs i zero_iter = Some inn) (Hne : inner i <> 0) (Hs : 0 <= size inn < 2 ^ 64) (Ht : sane_term L t inn) (Hf : (1 <= f)%nat) (Hff : (S f <= free_fuel)%nat).
Hypothesis (Htry : tries_type fuel f inn dom (size inn)) (Hzero : releasable f inn dom (zeros (size inn)) hempty).

Lemma pointees_filled n size hp d b mp : 0 <= n < 2 ^ 64 -> counted dom t n -> size = n * LwmsgType.size inn + zlen (terminator t (LwmsgType.size inn)) -> dom_ok hp d dom -> buffer_ok b ->
  exists hp' b' r, (let* object := lwmsg_context_alloc size in
      on_error (insert_alias specs (set_dom d i) object;; lwmsg_data_unmarshal_indirect (unmarshal_internal fuel) d (set_dom d inn) object n)
        (with_local object (fun a => lwmsg_data_free_graph_internal specs free_fuel (set_dom d i) a));;
      ret object) (mkState hp b mp) = Some (mkState hp' b' mp, r) /\ buffer_ok b' /\ new_or_same (S f) i dom hp hp' r.
Proof.
  intros Hn Hc -> Hd Hb. set (k := zlen (terminator t (size inn))). assert (Hk0 : 0 <= k) by apply zlen_nonneg. assert (Hns : 0 <= n * size inn) by nia.
  destruct (alloc_any hp b mp (n * size inn + k) ltac:(lia)) as [E|(p & Hm & E)]; [exists hp, b, (inl LWMSG_STATUS_MEMORY); by rewrite (bind_inl _ _ _ _ _ E)|]. rewrite (bind_inr _ _ _ _ _ E).
  destruct (alloc_tries (n * size inn) k dom _ _ _ Hns Hk0 (indirect_tries specs byte_order free_fuel fuel f inn dom n Hn (proj1 Hs) Hf Htry Hzero) hp d b mp p Hm Hd Hb) as (e & bs & h & b' & r & E2 & B & Lb & O & _ & Hp & D1 & D2).
  unfold k in E2, D1, D2. rewrite <-(terminator_zeros t (size inn)) in E2, D1, D2 by lia. assert (Hown : owned (S f) i dom (encode host 8 p) (hunion (block p (bs ++ terminator t (size inn) ++ e)) h)) by (eapply (pointer_owned specs) with (n := n); try done; lia).
  assert (E3 : (insert_alias specs (set_dom d i) p;; lwmsg_data_unmarshal_indirect (unmarshal_internal fuel) d (set_dom d inn) p n) (mkState (add_block hp p (zeros (alloc_size (n * size inn + k)))) b mp) =
    Some (mkState (hunion hp (hunion (block p (bs ++ terminator t (size inn) ++ e)) h)) b' mp, r)).
  { unfold insert_alias. by rewrite has_flag_dom, Ha, (bind_inr _ _ _ (mkState (add_block hp p (zeros (alloc_size (n * size inn + k)))) b mp) tt). }
  destruct r as [s|[]].
  - exists hp, b', (inl s). split; [|done]. erewrite bind_inl; [reflexivity|]. eapply on_error_inl; [exact E3|].
    rewrite (local_free specs free_fuel i dom p d (hunion (block p (bs ++ terminator t (size inn) ++ e)) h)); [by rewrite hminus_cancel|apply Hown; lia|by apply hsub_new| |by eapply apart_new]. eapply dom_ok_sub; [|exact Hd]. apply map_union_subseteq_l.
  - exists (hunion hp (hunion (block p (bs ++ terminator t (size inn) ++ e)) h)), b', (inr p). split; [erewrite bind_inr; [reflexivity|]; by eapply on_error_inr|]. split; [done|]. split; [done|]. by eexists.
Qed.

(** One structure is filled through another function, which releases it in parts. *)
Lemma struct_pointee_any ms f' hp d b mp : t <> TermZero -> counted dom t 1 -> f = S f' -> kind inn = LWMSG_KIND_STRUCT -> members specs inn = Some ms ->
  tries (size inn) dom (owned_fields f' ∅ ms) (fun x => x = 0) (fun d a => lwmsg_data_unmarshal_struct specs (unmarshal_internal fuel) (set_dom a inn) a) -> dom_ok hp d dom -> buffer_ok b ->
  exists hp' b' r, lwmsg_data_unmarshal_struct_pointee specs byte_order free_fuel (unmarshal_internal fuel) (set_dom d i) (set_dom d inn) (mkState hp b mp) = Some (mkState hp' b' mp, r) /\
    buffer_ok b' /\ new_or_same (S f) i dom hp hp' r.
Proof.
  intros Htz Hc Hf1 Hks Hm Hst Hd Hb. unfold lwmsg_data_unmarshal_struct_pointee, aliasable_size, insert_alias. rewrite !has_flag_dom, Ha. cbn [andb]. change (size (set_dom d inn)) with (size inn).
  destruct (enforce_total (set_dom d i) (size inn) (mkState hp b mp)) as ([e|[]] & Ee); [exists hp, b, (inl e); by rewrite (bind_inl _ _ _ _ _ Ee)|]. rewrite (bind_inr _ _ _ _ _ Ee).
  destruct (alloc_any hp b mp (size inn) ltac:(lia)) as [E|(p & Hmal & E)]; [exists hp, b, (inl LWMSG_STATUS_MEMORY); by rewrite (bind_inl _ _ _ _ _ E)|]. rewrite (bind_inr _ _ _ _ _ E), (bind_inr _ _ _ _ _ (on_error_inr (ret tt) _ _ _ tt eq_refl)).
  change (set_dom p (set_dom d inn)) with (set_dom p inn). rewrite <-(Z.add_0_r (size inn)) in Hmal.
  destruct (alloc_tries (size inn) 0 dom _ _ _ ltac:(lia) ltac:(lia) Hst hp d b mp p Hmal Hd Hb) as (e & bs & h & b' & r & E2 & B & Lb & O & Hx & Hp & D1 & D2). rewrite Z.add_0_r in E2. change (zeros 0 ++ e) with e in *.
  destruct r as [s|x].
  - exists hp, b', (inl s). split; [|done]. erewrite bind_inl; [reflexivity|]. eapply on_error_inl; [exact E2|]. eapply free_partial_ok; [|exact Hm|lia|exact O|done|done]. lia.
  - rewrite (Hx x eq_refl) in E2. exists (hunion hp (hunion (block p (bs ++ e)) h)), b', (inr p). split; [by rewrite (bind_inr _ _ _ _ _ (on_error_inr _ _ _ _ _ E2))|]. split; [done|]. split; [done|].
    eexists. split; [done|]. split; [done|]. assert (Hte : terminator t (size inn) = []) by (by destruct t). replace (bs ++ e) with (bs ++ terminator t (size inn) ++ e) in * by (by rewrite Hte).
    eapply (pointer_owned specs) with (n := 1); try done; [lia|]. apply owned_one; [done|]. rewrite Hf1. by eapply owned_struct.
Qed.

(** What a structure is filled by, should the pointer point to one. *)
Hypothesis Hstruct : kind inn = LWMSG_KIND_STRUCT -> exists ms f', f = S f' /\ members specs inn = Some ms /\
  tries (size inn) dom (owned_fields f' ∅ ms) (fun x => x = 0) (fun d a => lwmsg_data_unmarshal_struct specs (unmarshal_internal fuel) (set_dom a inn) a).

Lemma pointees_any hp d b mp : knows L dom -> dom_ok hp d dom -> buffer_ok b ->
  exists hp' b' r, lwmsg_data_unmarshal_pointees specs byte_order free_fuel (unmarshal_internal fuel) d (set_dom d i) (mkState hp b mp) = Some (mkState hp' b' mp, r) /\
    buffer_ok b' /\ new_or_same (S f) i dom hp hp' r.
Proof.
  intros Hkn Hd Hb. unfold lwmsg_data_unmarshal_pointees. rewrite (bind_inr _ _ _ (mkState hp b mp) (set_dom d inn)) by (apply get_Some; by rewrite type_enter_dom, (proj2 (Z.eqb_neq _ _) Hne), Hin).
  destruct (prologue_any byte_order L i t inn dom hp d b mp Hi Ht Hkn Hd Hb) as (b1 & [e|n] & E1 & B1 & Hn); [exists hp, b1, (inl e); by rewrite (bind_inl _ _ _ _ _ E1)|]. rewrite (bind_inr _ _ _ _ _ E1).
  destruct (Hn n eq_refl) as (Hn0 & Hc). change (kind (set_dom d inn)) with (kind inn). destruct (bool_decide (kind inn = LWMSG_KIND_STRUCT) && (n =? 1)) eqn:Hcase.
  - apply andb_true_iff in Hcase as (Hks%bool_decide_eq_true & ->%Z.eqb_eq). destruct (Hstruct Hks) as (ms & f' & Hf' & Hm & Hst). eapply struct_pointee_any; try done. intros ->. destruct Ht as ([Hx|Hx] & _); congruence.
  - destruct (referent_total (set_dom d i) t n (size inn) (mkState hp b1 mp) Hi Hn0 Hs) as [(e & E2)|(E2 & Hlt)]; rewrite <-bind_assoc; change (size (set_dom d inn)) with (size inn).
    + exists hp, b1, (inl e). by rewrite (bind_inl _ _ _ _ _ E2).
    + rewrite (bind_inr _ _ _ _ _ E2). unfold aliasable_size. rewrite !has_flag_dom, Ha. cbn [andb].
      destruct (enforce_total (set_dom d i) (n * size inn + zlen (terminator t (size inn))) (mkState hp b1 mp)) as ([e|[]] & Ee); [exists hp, b1, (inl e); by rewrite (bind_inl _ _ _ _ _ Ee)|]. rewrite (bind_inr _ _ _ _ _ Ee).
      by apply pointees_filled.
Qed.

(** The pointer stays null on an error. *)
Lemma pointer_any hp a d b mp : knows L dom -> region a (zeros 8) ⊆ cells hp -> dom_ok hp d dom -> buffer_ok b ->
  exists p h b' r, lwmsg_data_unmarshal_pointer specs byte_order free_fuel (unmarshal_internal fuel) d (set_dom d i) a (mkState hp b mp) = Some (mkState (hput hp a (encode host 8 p) h) b' mp, r) /\
    buffer_ok b' /\ hdisj hp h /\ owned (S f) i dom (encode host 8 p) h /\ (forall e, r = inl e -> p = 0 /\ h = hempty).
Proof.
  intros Hkn Hz Hd Hb. unfold lwmsg_data_unmarshal_pointer. rewrite has_flag_dom, Ha. unfold lwmsg_data_unmarshal_unaliasable_pointer. rewrite has_flag_dom.
  assert (Hnull : forall b' r, buffer_ok b' -> exists p h b2 r2, Some (mkState hp b' mp, r) = Some (mkState (hput hp a (encode host 8 p) h) b2 mp, r2) /\ buffer_ok b2 /\ hdisj hp h /\ owned (S f) i dom (encode host 8 p) h /\ (forall e : LWMsgStatus, r2 = @inl _ () e -> p = 0 /\ h = hempty)).
  { intros b' r B. exists 0, hempty, b', r. rewrite encode_null, hput_same by done. split; [done|]. split; [done|]. split; [apply hdisj_empty|]. split; [by apply owned_null|done]. }
  assert (Hflag : exists b1 r, (if has_flag LWMSG_TYPE_FLAG_NOT_NULL i then ret [0xFF] else lwmsg_buffer_read_local 1 1) (mkState hp b mp) = Some (mkState hp b1 mp, r) /\ buffer_ok b1).
  { destruct (has_flag LWMSG_TYPE_FLAG_NOT_NULL i); [by eexists _, _|]. destruct (read_local_any hp b mp 1 1 Hb ltac:(lia)) as (b1 & r & E & B & _). by exists b1, r. }
  destruct Hflag as (b1 & [e|w] & E1 & B1); [rewrite (bind_inl _ _ _ _ _ E1); by apply Hnull|]. rewrite (bind_inr _ _ _ _ _ E1). case_bool_decide; [by apply Hnull|].
  destruct (pointees_any hp d b1 mp Hkn Hd B1) as (hp' & b' & [e|p] & E2 & B2 & Hr); cbn [new_or_same] in Hr.
  - subst hp'. erewrite bind_inl; [by apply Hnull|]. eapply on_error_inl; [exact E2|]. unfold update_heap, store_ptr. cbn [st_heap].
    rewrite (store_region hp a (zeros 8)), encode_null, <-hput_empty, hput_same by (done || by rewrite encode_null). done.
  - destruct Hr as (Hp & h & -> & Hdj & Ho). rewrite (bind_inr _ _ _ _ _ (on_error_inr _ _ _ _ _ E2)). exists p, h, b', (inr tt). unfold update_heap. cbn [st_heap]. rewrite store_ptr_ok by done. by do 4 (split; [done|]).
Qed.

Lemma pointer_tries : verify i = 0 -> knows L dom -> tries_type (S fuel) (S f) i dom 8.
Proof.
  intros Hv Hkn hp a d b mp _ Hz Hd _ Hb. destruct (pointer_any hp a d b mp Hkn Hz Hd Hb) as (p & h & b' & r & E & B & D & O & _). exists (encode host 8 p), h, b', r.
  split; [|split; [done|split; [by rewrite zlen_encode|split; [apply bytes_ok_encode|split; [done|by split]]]]]. cbn [lwmsg_data_unmarshal_internal]. change (kind (set_dom d i)) with (kind i). rewrite Hk. by apply run_verify_none.
Qed.
End Pointer.

(** * All types *)

(** From the function of the kind to the call. *)
Lemma kind_tries fuel i dom n R (body : Z -> Z -> prog ()) : verify i = 0 -> (forall d a st, unmarshal_internal (S fuel) d (set_dom d i) a st = (body d a;; run_verify (set_dom d i) true a) st) ->
  tries n dom R (fun _ => True) body -> tries n dom R (fun _ => True) (fun d a => unmarshal_internal (S fuel) d (set_dom d i) a).
Proof.
  intros Hv Hb Ht hp a d b mp. intros. destruct (Ht hp a d b mp) as (bs & h & b' & r & E & ?); [done..|]. exists bs, h, b', r. rewrite Hb. split; [by apply run_verify_none|done].
Qed.

Lemma value_type fuel f i w s dom (pre : Z -> mem -> prog ()) : plain i -> verify i = 0 -> info i = InfoInteger w s -> 1 <= w <= 16 -> 1 <= size i -> (1 <= f)%nat ->
  (forall d bs st, zlen bs = w -> bytes_ok bs -> total (pre d bs) st) ->
  (forall d a st, unmarshal_internal (S fuel) d (set_dom d i) a st =
    ((let* temp := lwmsg_buffer_read_local MAX_INTEGER_SIZE w in
      pre d temp;;
      convert_into byte_order temp w a (size i) s;;
      if has_flag LWMSG_TYPE_FLAG_RANGE (set_dom d i) then lwmsg_data_verify_range (set_dom d i) a (size i) else ret tt);; run_verify (set_dom d i) true a) st) -> tries_type (S fuel) f i dom (size i).
Proof.
  intros Hp Hv Hi Hw Hs Hf Hpre He. eapply kind_tries; [done|exact He|]. intros hp a d b mp. intros.
  destruct (value_tries byte_order (set_dom d i) w s dom (pre d) Hi Hw Hs (Hpre d) hp a d b mp) as (bs & h & b' & r & E & ? & ? & ? & ? & -> & ?); [done..|].
  exists bs, hempty, b', r. do 5 (split; [done|]). split; [|done]. split; [|done]. eapply releasable_mono; [exact Hf|]. by apply owned_plain.
Qed.

Lemma integer_tries fuel f i w s dom : kind i = LWMSG_KIND_INTEGER -> verify i = 0 -> info i = InfoInteger w s -> 1 <= w <= 16 -> 1 <= size i -> (1 <= f)%nat -> tries_type (S fuel) f i dom (size i).
Proof.
  intros Hk Hv Hi Hw Hs Hf. eapply (value_type _ _ _ _ _ _ (fun _ _ => ret tt)); try done; [by left|by eexists|]. intros d a st. cbn [lwmsg_data_unmarshal_internal]. change (kind (set_dom d i)) with (kind i). rewrite Hk.
  unfold lwmsg_data_unmarshal_integer. change (info (set_dom d i)) with (info i). by rewrite Hi.
Qed.

Lemma enum_tries fuel f i w s vars dom : kind i = LWMSG_KIND_ENUM -> verify i = 0 -> info i = InfoInteger w s -> 1 <= w <= 16 -> 1 <= size i -> members specs i ≫= mapM variant = Some vars -> (1 <= f)%nat ->
  tries_type (S fuel) f i dom (size i).
Proof.
  intros Hk Hv Hi Hw Hs Hm Hf.
  eapply (value_type _ _ _ _ _ _ (fun d temp => let* value := convert temp w byte_order 8 host s in lwmsg_data_decode_enum_value specs (set_dom d i) (decode host value);; ret tt)); try done; [by right| |].
  - intros d bs st Hl Hb. apply total_bind; [apply convert_total; lia || done|]. intros v _. apply total_bind; [eapply decode_enum_total; by apply variants_dom|]. intros x _. by eexists.
  - intros d a st. cbn [lwmsg_data_unmarshal_internal]. change (kind (set_dom d i)) with (kind i). rewrite Hk. apply bind_ext; [|done]. unfold lwmsg_data_unmarshal_enum. change (info (set_dom d i)) with (info i). rewrite Hi.
    apply bind_ext; [done|]. intros temp st'. rewrite bind_assoc. apply bind_ext; [done|]. intros value st2. by rewrite bind_assoc.
Qed.

Lemma array_tries fuel f i inn k dom : kind i = LWMSG_KIND_ARRAY -> verify i = 0 -> info i = InfoIndirect (TermStatic k) -> 0 <= k < 2 ^ 64 -> lwmsg_type_enter specs i zero_iter = Some inn -> inner i <> 0 -> 0 <= size inn -> (1 <= f)%nat ->
  tries_type fuel f inn dom (size inn) -> releasable f inn dom (zeros (size inn)) hempty -> tries_type (S fuel) (S f) i dom (k * size inn).
Proof.
  intros Hk Hv Hi Hk0 Hin Hne Hs Hf Ht Hz. eapply (kind_tries _ _ _ _ _ (fun d a => lwmsg_data_unmarshal_array specs byte_order (unmarshal_internal fuel) d (set_dom d i) a)); [done|intros d a st; cbn [lwmsg_data_unmarshal_internal]; change (kind (set_dom d i)) with (kind i); by rewrite Hk|].
  eapply tries_ext; [|eapply tries_mono; [| |exact (indirect_tries specs byte_order free_fuel fuel f inn dom k Hk0 Hs Hf Ht Hz)]; [|done]].
  - intros d a st. unfold lwmsg_data_unmarshal_array. rewrite (bind_inr _ _ _ st (set_dom d inn)) by (apply get_Some; by rewrite type_enter_dom, (proj2 (Z.eqb_neq _ _) Hne), Hin).
    rewrite (bind_inr _ _ _ st k); [done|]. unfold lwmsg_data_unmarshal_indirect_prologue. change (info (set_dom d i)) with (info i). by rewrite Hi.
  - intros bs h _ _ Ho. eapply owned_array; try done. lia.
Qed.

(** What the unmarshaller does for a type: as a call, and for a structure by itself. *)
Definition safe_type (fuel f : nat) (i : LWMsgTypeIter) (L : list (Z * Z)) (n : Z) : Prop := forall dom, knows L dom ->
  tries_type fuel f i dom n /\
  (kind i = LWMSG_KIND_STRUCT -> exists ms f', f = S f' /\ members specs i = Some ms /\
    tries n dom (owned_fields f' ∅ ms) (fun x => x = 0) (fun d a => lwmsg_data_unmarshal_struct specs (unmarshal_internal fuel) (set_dom a i) a)).

Lemma sane_int_size i L n : sane i L n -> kind i = LWMSG_KIND_INTEGER -> 1 <= n.
Proof. intros Hs Hk. destruct Hs; congruence || done. Qed.

End Ops.

Section Whole.
Context {hostI : Host} {mallocI : Malloc} {lawsI : MallocLaws} {stackI : Stack} {stacklawsI : StackLaws} {userI : User} (specs : list Z) (byte_order : endian).

Lemma safe_spec :
  (forall i L n, sane specs i L n -> exists F, forall free_fuel fuel f, (F <= fuel)%nat -> (F <= f <= free_fuel)%nat -> safe_type specs byte_order free_fuel fuel f i L n) /\
  (forall used L ms n, sane_fields specs used L ms n -> exists F, forall free_fuel fuel f, (F <= fuel)%nat -> (F <= f <= free_fuel)%nat -> fields_try specs byte_order free_fuel fuel f used L ms n).
Proof.
  apply sane_mutual.
  - intros i L w s Hk Hv Hi Hw Hs. exists 1%nat. intros free_fuel [|fuel] f Hfu Hf dom _; [lia|]. split; [|by rewrite Hk]. eapply integer_tries; try done. lia.
  - intros i L w s vars Hk Hv Hi Hw Hs Hm. exists 1%nat. intros free_fuel [|fuel] f Hfu Hf dom _; [lia|]. split; [|by rewrite Hk]. eapply enum_tries; try done. lia.
  - intros i L ms Hk Hv Hm Hs _ (F & IH). exists (S F). intros free_fuel [|fuel] [|f] Hfu Hf dom _; try lia. split; [|intros _; exists ms, f; split; [done|]; split; [done|]; apply (struct_tries specs byte_order free_fuel (S fuel) f i ms dom (size i) (fun _ a => a)); [done..|apply IH; lia]].
    eapply (kind_tries _ _ _ _ _ _ _ _ (fun d a => lwmsg_data_unmarshal_struct specs (lwmsg_data_unmarshal_internal specs byte_order free_fuel fuel) (set_dom d i) a;; ret tt)); [done|intros d a st; cbn [lwmsg_data_unmarshal_internal]; change (kind (set_dom d i)) with (kind i); by rewrite Hk|].
    eapply (tries_bind _ _ _ _ _ _ (fun _ _ => ret tt)); [intros a x st _; by eexists|]. eapply tries_mono; [| |apply (struct_tries specs byte_order free_fuel fuel f i ms dom (size i) (fun d _ => d) Hm Hs)]; [|done|apply IH; lia].
    intros bs h _ _ Ho. by eapply owned_struct.
  - intros i L t inn Hk Hv Ha Hi Hin Hne Hlt Ht Hsn (F & IH). destruct (proj1 (zero_spec specs) _ _ _ Hsn) as (F0 & Hz). apply sane_pos in Hsn as Hs. exists (S (S (max F F0))).
    intros free_fuel [|fuel] [|f] Hfu Hf dom Hkn; try lia. split; [|by rewrite Hk]. destruct (IH free_fuel fuel f ltac:(lia) ltac:(lia) dom Hkn) as (H1 & H2).
    eapply pointer_tries; try done; [lia|lia|]. eapply releasable_mono; [|apply Hz]. lia.
  - intros i L k inn Hk Hv Hi Hk0 Hin Hne Hsn (F & IH). destruct (proj1 (zero_spec specs) _ _ _ Hsn) as (F0 & Hz). apply sane_pos in Hsn as Hs. exists (S (S (max F F0))).
    intros free_fuel [|fuel] [|f] Hfu Hf dom Hkn; try lia. split; [|by rewrite Hk]. eapply array_tries; try done; [lia|apply IH; [lia|lia|done]|]. eapply releasable_mono; [|apply Hz]. lia.
  - intros used L n. exists 0%nat. intros free_fuel fuel f _ _. apply fields_nil_try.
  - intros used L m ms k n Hfx Hks Hsn (F1 & IH1) Ho Hok Haw Hsf (F2 & IH2). destruct (proj2 (zero_spec specs) _ _ _ _ Hsf) as (F0 & Hz). apply sane_pos in Hsn as Hs. exists (max F0 (max F1 F2)). intros free_fuel fuel f Hfu Hf.
    eapply fields_cons_try; try done; [by eapply sane_int_size|intros dom Hkn; apply IH1; [lia|lia|done]| |apply IH2; lia]. intros cur dom Hc Hcl. eapply owned_fields_mono; [|by apply Hz]. lia.
Qed.

Lemma iterate_dom p i : lwmsg_type_iterate specs p zero_iter = Some i -> dom_object i = 0.
Proof. intros Hi. pose proof (type_iterate_dom specs 0 p zero_iter) as Hd. change (set_dom 0 zero_iter) with zero_iter in Hd. rewrite Hi in Hd. injection Hd as Hd. by rewrite Hd. Qed.

Lemma promoted_dom p i : lwmsg_type_iterate_promoted specs class_is_pointer p zero_iter = Some i -> dom_object i = 0.
Proof.
  unfold lwmsg_type_iterate_promoted. destruct (word specs p) as [cmd|]; [|done]. bsimpl. cbv zeta. destruct (_ =? _); [apply iterate_dom|]. destruct (_ =? _); [|by intros [= <-]].
  intros (j & Hj & Hr)%bind_Some. destruct (info j); try done. injection Hr as <-. destruct (class_is_pointer _); [by eapply iterate_dom|done].
Qed.

Lemma with_map_pure {A} (m : prog A) hp b hp' b' r : m (mkState hp b empty_map) = Some (mkState hp' b' empty_map, r) -> with_map m (mkState hp b empty_map) = Some (mkState hp' b' empty_map, r).
Proof. intros Hm. unfold with_map. rewrite (bind_inr _ _ _ (mkState hp b empty_map) tt) by done. unfold finally. by rewrite Hm. Qed.

(** C13: Whatever bytes it is given, and even when an allocation fails, the unmarshaller
    does not access memory that it does not own, and ends. Each error leaves memory as
    it was: what had been allocated is freed, and the variable for the result is null
    still. On success the graph that the variable points to is in new memory, and its
    release frees all of it. This is of the types of [sane], which are not recursive and
    have no verifiers: integers; enumerations; structures, whose members do not overlap
    and are neither flexible nor structures themselves; arrays of fixed length; and
    pointers that may not be aliased, to as many elements as are fixed, as an integer
    before in the same structure says, or, only for integers and enumerations, as come
    before a zero. The other types are not all read or released without a fault or a
    leak: [length_faults], [alias_faults], [flexible_member_leaks], [release_faults] and
    [null_element_leaks] of [LwmsgDemo] show some. *)
Theorem unmarshal_safe type iter : lwmsg_type_iterate_promoted specs class_is_pointer type zero_iter = Some iter -> sane specs iter [] 8 ->
  exists n, forall fuel free_fuel, (n <= fuel)%nat -> (n <= free_fuel)%nat ->
    forall hp buffer len out, bytes_ok buffer -> 0 <= len <= zlen buffer -> region out (zeros 8) ⊆ cells hp ->
      exists hp' s, lwmsg_data_unmarshal_flat specs byte_order free_fuel fuel hp type buffer len out = Some (hp', s) /\
        (s <> LWMSG_STATUS_SUCCESS -> hp' = hp) /\
        exists p h, hp' = hput hp out (encode host 8 p) h /\ hdisj hp h /\
          forall b mp, lwmsg_data_free_graph specs free_fuel type p (mkState hp' b mp) = Some (mkState (hput hp out (encode host 8 p) hempty) b mp, inr tt).
Proof.
  intros Hi Hsn. assert (Hkp : kind iter = LWMSG_KIND_POINTER) by (destruct (promoted_kind specs _ _ Hi); [done|inversion Hsn; congruence]).
  inversion Hsn as [? ? ? ? Hk|? ? ? ? ? Hk|? ? ? Hk|? ? t inn Hk Hv Ha Hinf Hin Hne Hlt Ht Hsi|? ? ? ? Hk]; subst; try congruence. apply sane_pos in Hsi as Hs.
  destruct (proj1 safe_spec _ _ _ Hsi) as (F & HF). destruct (proj1 (zero_spec specs) _ _ _ Hsi) as (F0 & Hz). set (f := S (max F F0)). exists (S f). intros [|fuel] free_fuel Hfu Hff hp buffer len out Hb Hlen Hout; [lia|].
  destruct (HF free_fuel fuel f ltac:(lia) ltac:(lia) ∅ ltac:(by intros ? ? ?%elem_of_nil)) as (H1 & H2).
  pose proof (set_dom_self iter) as Hdom. rewrite (promoted_dom _ _ Hi) in Hdom. set (b := mkBuffer buffer len 0 WRAP_NULL). assert (Hbuf : buffer_ok b) by (split; [done|]; cbn; split; [lia|]; split; [lia|done]).
  destruct (pointer_any specs byte_order free_fuel [] iter t inn ∅ fuel f) with (hp := hp) (a := out) (d := 0) (b := b) (mp := empty_map) as (p & h & b' & r & E & B & D & (O & _) & He); try done; try lia;
    [eapply releasable_mono; [|apply Hz]; lia|by intros ? ? ?%elem_of_nil|].
  rewrite Hdom in E. exists (hput hp out (encode host 8 p) h), (match r with inl s => s | inr _ => LWMSG_STATUS_SUCCESS end). split; [|split].
  - unfold lwmsg_data_unmarshal_flat, lwmsg_data_unmarshal. fold b. rewrite (with_map_pure _ hp b (hput hp out (encode host 8 p) h) b' r); [done|]. rewrite (bind_inr _ _ _ (mkState hp b empty_map) iter) by (by apply get_Some).
    pose proof (run_verify_none iter 0 out _ _ _ _ Hv E) as E2. rewrite Hdom in E2. assert (E3 : lwmsg_data_unmarshal_internal specs byte_order free_fuel (S fuel) 0 iter out (mkState hp b empty_map) = Some (mkState (hput hp out (encode host 8 p) h) b' empty_map, r)).
    { cbn [lwmsg_data_unmarshal_internal]. by rewrite Hkp. }
    destruct r as [e|[]]; [by rewrite (bind_inl _ _ _ _ _ E3)|]. rewrite (bind_inr _ _ _ _ _ E3). unfold lwmsg_buffer_finish. rewrite get_buffer_eq. cbn [st_buffer]. by destruct B as (-> & _).
  - intros Hr. destruct r as [e|]; [|done]. destruct (He e eq_refl) as (-> & ->). by rewrite encode_null, hput_same.
  - exists p, h. split; [done|]. split; [done|]. intros b2 mp. unfold lwmsg_data_free_graph. rewrite (bind_inr _ _ _ (mkState (hput hp out (encode host 8 p) h) b2 mp) iter) by (by apply get_Some).
    rewrite <-Hdom. rewrite (local_free specs free_fuel iter ∅ p 0 h); [|apply O; lia|apply hsub_put; [by rewrite zlen_encode|done]|by intros ? ? ? ?|by intros ? ? ? ?]. rewrite minus_put; [done|by rewrite zlen_encode|done].
Qed.
End Whole.
