(* ===== verification/LwmsgHost.v ===== *)
(** A host for [lwmsg] that can be run: a little-endian machine whose blocks and local
    variables are at the first free multiple of 16 after all others, and that has no
    custom types. It keeps what the theorems ask of the allocator and of the stack. *)

From stdpp Require Import gmap.
From S2P Require Import Prelude Lwmsg LwmsgType LwmsgData LwmsgMarshal LwmsgHeap LwmsgWire LwmsgMarshalOps.

(** The first multiple of 16 that is 16 past every key. *)
Definition above (m : gmap Z Z) : Z := map_fold (fun k _ acc => Z.max acc (16 * (k / 16) + 32)) 4096 m.
Definition fresh_address (h : heap) : Z := Z.max (above (cells h)) (above (blocks h)).

Definition memory_end : Z := 2 ^ 62.
Definition host_malloc : Malloc := fun h n => if fresh_address h + n <=? memory_end then Some (fresh_address h) else None.
Definition host_stack : Stack := fresh_address.
Definition host_user : User := mkUser (fun _ => None) (fun _ => None).

Lemma slot_bounds k : k + 16 < 16 * (k / 16) + 32 <= k + 32.
Proof. pose proof (Z.div_mod k 16). pose proof (Z.mod_pos_bound k 16). lia. Qed.

Lemma above_spec m : 4096 <= above m /\ (forall k x, m !! k = Some x -> 16 * (k / 16) + 32 <= above m) /\
  forall b, 4096 <= b -> (forall k x, m !! k = Some x -> 16 * (k / 16) + 32 <= b) -> above m <= b.
Proof.
  unfold above. apply (map_fold_weak_ind (fun r m => 4096 <= r /\ (forall k x, m !! k = Some x -> 16 * (k / 16) + 32 <= r) /\
    forall b, 4096 <= b -> (forall k x, m !! k = Some x -> 16 * (k / 16) + 32 <= b) -> r <= b)).
  - split; [done|]. by split; [intros ? ? ?|].
  - intros i x m' r Hi (Hr & Hk & Hb). split; [lia|]. split.
    + intros k y Hy. apply lookup_insert_Some in Hy as [(<- & _)|(_ & Hy)]; [lia|]. specialize (Hk _ _ Hy). lia.
    + intros b H4 Hall. apply Z.max_lub; [|eapply Hall, lookup_insert_eq]. apply Hb; [done|]. intros k y Hy. eapply Hall. rewrite lookup_insert_ne; [done|congruence].
Qed.

Lemma above_fresh m k : above m <= k -> m !! k = None.
Proof. intros Hk. destruct (m !! k) as [x|] eqn:Hx; [|done]. pose proof (proj1 (proj2 (above_spec m)) _ _ Hx). pose proof (slot_bounds k). lia. Qed.

Lemma above_dom m m' : dom m = dom m' -> above m = above m'.
Proof.
  assert (Hle : forall m m' : gmap Z Z, dom m = dom m' -> above m <= above m').
  { intros n n' Hd. apply (proj2 (proj2 (above_spec n))); [apply above_spec|]. intros k x Hx. apply elem_of_dom_2 in Hx. rewrite Hd in Hx. apply elem_of_dom in Hx as (y & Hy). by eapply above_spec. }
  intros Hd. apply Z.le_antisymm; apply Hle; [done|congruence].
Qed.

Lemma above_region m a bs n : above m <= a -> zlen bs = n -> above (region a bs ∪ m) <= Z.max (above m) (a + n + 32).
Proof.
  intros Ha <-. pose proof (above_spec m) as (H4 & Hk & _). apply above_spec; [lia|]. intros k x Hx. apply lookup_union_Some_raw in Hx as [Hx|(_ & Hx)]; [|specialize (Hk _ _ Hx); lia].
  apply region_lookup_Some in Hx as (Hka & Hx). apply lookup_lt_Some in Hx. pose proof (slot_bounds k). unfold zlen. lia.
Qed.

Lemma above_insert m a x : above (<[a := x]> m) <= Z.max (above m) (a + 32).
Proof.
  pose proof (above_spec m) as (H4 & Hk & _). apply above_spec; [lia|]. intros k y Hy. apply lookup_insert_Some in Hy as [(<- & _)|(_ & Hy)]; [pose proof (slot_bounds a); lia|]. specialize (Hk _ _ Hy). lia.
Qed.

#[export] Instance host_malloc_laws : @MallocLaws host_malloc.
Proof.
  refine (@Build_MallocLaws host_malloc (fun h => memory_end - fresh_address h) _ _ _ _); unfold malloc, host_malloc, fresh_address, memory_end.
  - intros h n a Hn. pose proof (above_spec (cells h)) as (H1 & _). pose proof (above_spec (blocks h)) as (H2 & _).
    destruct (Z.leb_spec (Z.max (above (cells h)) (above (blocks h)) + n) (2 ^ 62)) as [Hl|]; [|done]. intros [= <-]. split; [lia|]. split; [lia|]. split; [|apply above_fresh; lia].
    intros k Hk. apply above_fresh. lia.
  - intros h n Hn. destruct (Z.leb_spec (Z.max (above (cells h)) (above (blocks h)) + n) (2 ^ 62)); [done|lia].
  - intros h h' Hd Hb. by rewrite (above_dom _ _ Hd), Hb.
  - intros h n a bs Hn. destruct (Z.leb_spec (Z.max (above (cells h)) (above (blocks h)) + n) (2 ^ 62)) as [Hl|]; [|done]. intros [= <-] Hz. cbn. rewrite put_bytes_region.
    pose proof (above_region (cells h) (Z.max (above (cells h)) (above (blocks h))) bs n ltac:(lia) Hz). pose proof (above_insert (blocks h) (Z.max (above (cells h)) (above (blocks h))) (zlen bs)). lia.
Defined.

#[export] Instance host_stack_laws (e : Host) : @StackLaws e host_malloc host_malloc_laws host_stack.
Proof.
  constructor; unfold stack_slot, host_stack, local_heap, avail, fresh_address; cbn.
  - intros h. pose proof (above_spec (cells h)) as (H1 & _). split; [lia|]. intros k Hk. apply above_fresh. lia.
  - intros h v. rewrite put_bytes_region. unfold fresh_address. cbn [cells blocks].
    pose proof (above_region (cells h) (Z.max (above (cells h)) (above (blocks h))) (encode host 8 v) 8 ltac:(lia) (zlen_encode host 8 v)). unfold stack_slot, host_stack, fresh_address. lia.
Qed.
