(* ===== verification/LwmsgDemo.v ===== *)
(** Concrete types, graphs and streams of [lwmsg]: what the unmarshaller makes of
    streams that are cut short, of aliases and of lengths. *)

From stdpp Require Import gmap.
From S2P Require Import Prelude Lwmsg LwmsgType LwmsgOps LwmsgData LwmsgMarshal LwmsgHeap LwmsgWire LwmsgMarshalOps LwmsgFill LwmsgUnmarshalOps LwmsgRelease LwmsgRoundTrip LwmsgTry LwmsgSafe LwmsgHost.

(** The host of [LwmsgHost]; the result of unmarshalling is set at address 64. *)

#[local] Instance demo_malloc : Malloc := host_malloc.
#[local] Instance demo_stack : Stack := host_stack.
#[local] Instance demo_host : Host := LittleEndian.
#[local] Instance demo_user : User := host_user.

Definition demo_heap : heap := mkHeap (put_bytes ∅ 64 (zeros 8)) ∅.

(** The status, the blocks in use and the pointer at address 64. *)
Definition outcome (r : option (heap * LWMsgStatus)) : option (LWMsgStatus * list (Z * Z) * option Z) :=
  match r with None => None | Some (h, s) => Some (s, map_to_list (blocks h), load_ptr h 64) end.
Definition unmarshal (specs : list Z) (type : Z) (bs : mem) : option (heap * LWMsgStatus) :=
  lwmsg_data_unmarshal_flat specs BigEndian 20 20 demo_heap type bs (zlen bs) 64.

(** What is written for the object at [object] of [h]. *)
Definition marshalled (specs : list Z) (h : heap) (type object : Z) : option (LWMsgStatus * mem) :=
  match lwmsg_data_marshal_flat_alloc specs BigEndian 20 h type object with None => None | Some (_, s, bs) => Some (s, bs) end.

(** * Aliases

    [struct node { struct node* next; int number; }], with pointers that are not null
    and may be aliased: the type of the pointer is at word 1, that of the node at 7. *)
Definition node_specs : list Z :=
  [0] ++ LWMSG_POINTER_BEGIN ++ LWMSG_TYPESPEC 7 ++ LWMSG_END ++ LWMSG_ATTR_ALIASABLE ++ LWMSG_END ++
  LWMSG_STRUCT_BEGIN 16 ++ LWMSG_MEMBER_TYPESPEC 8 0 1 ++ LWMSG_ATTR_NOT_NULL ++ LWMSG_MEMBER_INTEGER 4 8 4 LWMSG_SIGNED ++ LWMSG_END ++ LWMSG_END.

(** [struct str { uint32_t len; uint8_t* text; uint8_t data[len]; }] at word 7, a
    pointer to it that may be aliased at word 1, and
    [struct pair { struct str* first; struct str* second; }] at the end. *)
Definition str_specs : list Z :=
  [0] ++ LWMSG_POINTER_BEGIN ++ LWMSG_TYPESPEC 7 ++ LWMSG_END ++ LWMSG_ATTR_ALIASABLE ++ LWMSG_END ++
  LWMSG_STRUCT_BEGIN 16 ++ LWMSG_MEMBER_INTEGER 4 0 4 LWMSG_UNSIGNED ++
    LWMSG_MEMBER_POINTER_BEGIN 8 ++ LWMSG_INTEGER 1 1 LWMSG_UNSIGNED ++ LWMSG_END ++
    LWMSG_MEMBER_ARRAY_BEGIN 16 ++ LWMSG_INTEGER 1 1 LWMSG_UNSIGNED ++ LWMSG_END ++ LWMSG_ATTR_LENGTH_MEMBER 0 4 ++ LWMSG_END ++ LWMSG_END ++
  LWMSG_STRUCT_BEGIN 16 ++ LWMSG_MEMBER_TYPESPEC 8 0 1 ++ LWMSG_MEMBER_TYPESPEC 8 8 1 ++ LWMSG_END ++ LWMSG_END.
Definition pair_type : Z := zlen str_specs - 12.

(** The pointers of a [struct pair] at an address. *)
Definition pair_pointers (r : option (heap * LWMsgStatus)) : option (option Z * option Z) :=
  match r with
  | None => None
  | Some (h, _) => match load_ptr h 64 with Some p => Some (load_ptr h p, load_ptr h (p + 8)) | None => None end
  end.

(** Aliases. A node that is its own successor is read back as a cycle; when the
    stream ends before its number, the release of the node follows the cycle and frees
    it twice. A structure with a flexible member moves when the member is read: an
    alias to it, read without an error, is left pointing to the freed block. *)
Theorem alias_faults :
  outcome (unmarshal node_specs 1 [0; 0; 0; 1; 0; 0; 0; 1; 0; 0; 0; 10]) = Some (LWMSG_STATUS_SUCCESS, [(4096, 16)], Some 4096) /\
  unmarshal node_specs 1 [0; 0; 0; 1; 0; 0; 0; 1; 0; 0] = None /\
  outcome (unmarshal str_specs pair_type [0; 0; 0; 1; 0; 0; 0; 3; 0xFF; 33; 65; 66; 67; 0; 0; 0; 1]) =
    Some (LWMSG_STATUS_SUCCESS, [(4192, 19); (4160, 1); (4096, 16)], Some 4096) /\
  pair_pointers (unmarshal str_specs pair_type [0; 0; 0; 1; 0; 0; 0; 3; 0xFF; 33; 65; 66; 67; 0; 0; 0; 1]) = Some (Some 4192, Some 4128).
Proof. by vm_compute. Qed.

(** A stream that ends within a flexible member: the structure is not freed, and no
    pointer to it is left. *)
Theorem flexible_member_leaks :
  outcome (unmarshal str_specs pair_type [0; 0; 0; 1; 0; 0; 0; 3; 0xFF; 33; 65; 66]) = Some (LWMSG_STATUS_EOF, [(4192, 19); (4160, 1)], Some 0).
Proof. by vm_compute. Qed.

(** * Lengths and ranges

    [struct list { uint8_t len; int16_t* items; }] with [len] items, and
    [struct table { uint32_t len; struct { uint32_t x; } n; uint8_t** items; }]. *)
Definition list_specs : list Z :=
  [0] ++ LWMSG_STRUCT_BEGIN 16 ++ LWMSG_MEMBER_INTEGER 1 0 1 LWMSG_UNSIGNED ++
    LWMSG_MEMBER_POINTER_BEGIN 8 ++ LWMSG_INTEGER 2 2 LWMSG_SIGNED ++ LWMSG_END ++ LWMSG_ATTR_LENGTH_MEMBER 0 1 ++ LWMSG_END ++ LWMSG_END.
Definition table_specs : list Z :=
  [0] ++ LWMSG_STRUCT_BEGIN 16 ++ LWMSG_MEMBER_INTEGER 4 0 4 LWMSG_UNSIGNED ++
    LWMSG_MEMBER_STRUCT_BEGIN 4 4 ++ LWMSG_MEMBER_INTEGER 4 0 4 LWMSG_UNSIGNED ++ LWMSG_END ++
    LWMSG_MEMBER_POINTER_BEGIN 8 ++ LWMSG_POINTER_BEGIN ++ LWMSG_INTEGER 1 1 LWMSG_UNSIGNED ++ LWMSG_END ++ LWMSG_END ++ LWMSG_ATTR_LENGTH_MEMBER 0 4 ++
  LWMSG_END ++ LWMSG_END.

(** A [struct list] of [n] items at address 4096, in memory with its items at 8192. *)
Definition list_heap (n : Z) : heap :=
  add_block (add_block (mkHeap ∅ ∅) 8192 (zeros (2 * n))) 4096 (n :: zeros 7 ++ encode LittleEndian 8 8192).

(** Lengths. A list of 127 items is written and read; one of 128 items, whose length
    fits in its member, makes the marshaller read past the items and the unmarshaller
    report an overflow: the length is taken as signed. When a pointer after a member
    that is a structure cannot be read, its elements are released by a length that is
    read at the wrong place: with a length of 1, and 7 in the structure, memory past
    the elements is taken for pointers. *)
Theorem length_faults :
  (exists bs, marshalled list_specs (list_heap 127) 1 4096 = Some (LWMSG_STATUS_SUCCESS, bs) /\ zlen bs = 256) /\
  marshalled list_specs (list_heap 128) 1 4096 = None /\
  outcome (unmarshal list_specs 1 (127 :: 0xFF :: zeros 254)) = Some (LWMSG_STATUS_SUCCESS, [(4128, 254); (4096, 16)], Some 4096) /\
  outcome (unmarshal list_specs 1 (128 :: 0xFF :: zeros 256)) = Some (LWMSG_STATUS_OVERFLOW, [], Some 0) /\
  outcome (unmarshal table_specs 1 [0; 0; 0; 1; 0; 0; 0; 1; 0xFF; 0xFF]) = Some (LWMSG_STATUS_EOF, [], Some 0) /\
  unmarshal table_specs 1 [0; 0; 0; 1; 0; 0; 0; 7; 0xFF; 0xFF] = None.
Proof. split; [eexists; split; [by vm_compute|done]|]. by vm_compute. Qed.

(** An integer of two bytes from 0 to 5 at word 1, a pointer to two integers of one byte
    from 0 to 5 at word 9, an integer of two bytes from -5 to 5 at word 21. *)
Definition range_specs : list Z :=
  [0] ++ LWMSG_INTEGER 2 2 LWMSG_UNSIGNED ++ LWMSG_ATTR_RANGE 0 5 ++ LWMSG_END ++
  LWMSG_POINTER_BEGIN ++ LWMSG_INTEGER 1 1 LWMSG_UNSIGNED ++ LWMSG_ATTR_RANGE 0 5 ++ LWMSG_END ++ LWMSG_ATTR_LENGTH_STATIC 2 ++
  LWMSG_INTEGER 2 2 LWMSG_SIGNED ++ LWMSG_ATTR_RANGE (u64 (-5)) 5 ++ LWMSG_END.

(** Ranges. An integer outside of its range is refused; elements of an array of
    integers of one byte are not, because the array is copied as a whole; and a range
    from -5 to 5 admits none of these numbers, because they are compared as unsigned
    ones. *)
Theorem range_faults :
  outcome (unmarshal range_specs 1 [0; 6]) = Some (LWMSG_STATUS_MALFORMED, [], Some 0) /\
  outcome (unmarshal range_specs 1 [0; 5]) = Some (LWMSG_STATUS_SUCCESS, [(4096, 2)], Some 4096) /\
  outcome (unmarshal range_specs 9 [0xFF; 200; 201]) = Some (LWMSG_STATUS_SUCCESS, [(4096, 2)], Some 4096) /\
  Forall (fun v => outcome (unmarshal range_specs 21 (encode BigEndian 2 v)) = Some (LWMSG_STATUS_MALFORMED, [], Some 0)) [-5; -4; -3; -2; -1; 0; 1; 2; 3; 4; 5].
Proof. split; [by vm_compute|]. split; [by vm_compute|]. split; [by vm_compute|]. repeat constructor. Qed.

(** * Releases that fail

    [struct { uint32_t tag; uint8_t* text; union { uint32_t number; } u; }] with the tag
    1 for the only arm of the union, and a zero-terminated array of
    [struct { uint8_t* text; }]. *)
Definition union_specs : list Z :=
  [0] ++ LWMSG_STRUCT_BEGIN 24 ++ LWMSG_MEMBER_INTEGER 4 0 4 LWMSG_UNSIGNED ++
    LWMSG_MEMBER_POINTER_BEGIN 8 ++ LWMSG_INTEGER 1 1 LWMSG_UNSIGNED ++ LWMSG_END ++
    LWMSG_MEMBER_UNION_BEGIN 8 16 ++ LWMSG_MEMBER_INTEGER 4 0 4 LWMSG_UNSIGNED ++ LWMSG_ATTR_TAG 1 ++ LWMSG_END ++ LWMSG_ATTR_DISCRIM 0 4 ++ LWMSG_END ++ LWMSG_END.
Definition texts_specs : list Z :=
  [0] ++ LWMSG_POINTER_BEGIN ++ LWMSG_STRUCT_BEGIN 8 ++ LWMSG_MEMBER_POINTER_BEGIN 0 ++ LWMSG_INTEGER 1 1 LWMSG_UNSIGNED ++ LWMSG_END ++ LWMSG_END ++ LWMSG_END ++
    LWMSG_ATTR_ZERO_TERMINATED ++ LWMSG_END.

(** The blocks that are left when what has been read is released. *)
Definition left_after (specs : list Z) (type : Z) (bs : mem) : option (list (Z * Z)) :=
  match unmarshal specs type bs with
  | Some (h, LWMSG_STATUS_SUCCESS) =>
      p ← load_ptr h 64;
      match lwmsg_data_free_graph specs 20 type p (mkState h (mkBuffer [] 0 0 WRAP_NULL) empty_map) with
      | Some (st, inr _) => Some (map_to_list (blocks (st_heap st)))
      | _ => None
      end
  | _ => None
  end.

(** A structure with a tag that no arm has is refused but not freed: the release looks
    for the arm again and gives up. A zero-terminated array of two structures is read
    and released; one with a single structure has no terminator, and its release reads
    past the block. *)
Theorem release_faults :
  left_after union_specs 1 [0; 0; 0; 1; 0xFF; 33; 0; 0; 0; 5] = Some [] /\
  outcome (unmarshal union_specs 1 [0; 0; 0; 2; 0xFF; 33; 0; 0; 0; 5]) = Some (LWMSG_STATUS_MALFORMED, [(4096, 24)], Some 0) /\
  left_after texts_specs 1 [0xFF; 0; 0; 0; 2; 0xFF; 33; 0xFF; 34] = Some [] /\
  outcome (unmarshal texts_specs 1 [0xFF; 0; 0; 0; 1; 0xFF; 33]) = Some (LWMSG_STATUS_SUCCESS, [(4128, 1); (4096, 8)], Some 4096) /\
  left_after texts_specs 1 [0xFF; 0; 0; 0; 1; 0xFF; 33] = None.
Proof. by vm_compute. Qed.

(** A zero-terminated array of pointers to bytes. *)
Definition bytes_specs : list Z :=
  [0] ++ LWMSG_POINTER_BEGIN ++ LWMSG_POINTER_BEGIN ++ LWMSG_INTEGER 1 1 LWMSG_UNSIGNED ++ LWMSG_END ++ LWMSG_END ++ LWMSG_ATTR_ZERO_TERMINATED ++ LWMSG_END.

(** An array of three pointers is read and released; one whose second pointer is null is
    read without an error too, but it is released only as far as the null one: the byte
    of the third pointer is left in memory. *)
Theorem null_element_leaks :
  left_after bytes_specs 1 [0xFF; 0; 0; 0; 3; 0xFF; 33; 0xFF; 34; 0xFF; 35] = Some [] /\
  outcome (unmarshal bytes_specs 1 [0xFF; 0; 0; 0; 3; 0xFF; 33; 0; 0xFF; 35]) = Some (LWMSG_STATUS_SUCCESS, [(4144, 1); (4176, 1); (4096, 32)], Some 4096) /\
  left_after bytes_specs 1 [0xFF; 0; 0; 0; 3; 0xFF; 33; 0; 0xFF; 35] = Some [(4176, 1)].
Proof. by vm_compute. Qed.

(** * A list of three items, as the specification sees it *)

Definition items3 : mem := encode LittleEndian 2 5 ++ encode LittleEndian 2 (-6) ++ encode LittleEndian 2 7.
Definition list3 : mem := 3 :: zeros 7 ++ encode LittleEndian 8 8192.
Definition list3_heap : heap := hunion (block 4096 list3) (block 8192 items3).

Definition list3_val : val := VPtr [VStruct [VInt 3; VPtr [VInt 5; VInt (-6); VInt 7]]].
Definition list3_wire : mem := [3; 0xFF; 0; 5; 255; 250; 0; 7].

Definition list_iter : LWMsgTypeIter := default zero_iter (lwmsg_type_iterate_promoted list_specs class_is_pointer 1 zero_iter).

(** An item. *)
Lemma item_obj i dom v w : info i = InfoInteger 2 LWMSG_SIGNED -> kind i = LWMSG_KIND_INTEGER -> verify i = 0 -> size i = 2 -> has_flag LWMSG_TYPE_FLAG_RANGE i = false ->
  int_fits LWMSG_SIGNED 2 v = true -> w = encode BigEndian 2 v -> obj list_specs BigEndian i dom (encode LittleEndian 2 v) hempty (VInt v) w.
Proof.
  intros Hi Hk Hv Hs Hr Hf ->. pose proof (obj_int list_specs BigEndian i dom 2 LWMSG_SIGNED v) as Ho. rewrite Hs in Ho. apply Ho; try done. intros Hx. congruence.
Qed.

Lemma items_obj i dom : info i = InfoInteger 2 LWMSG_SIGNED -> kind i = LWMSG_KIND_INTEGER -> verify i = 0 -> size i = 2 -> has_flag LWMSG_TYPE_FLAG_RANGE i = false ->
  obj_elems list_specs BigEndian i dom items3 hempty [VInt 5; VInt (-6); VInt 7] [0; 5; 255; 250; 0; 7].
Proof.
  intros Hi Hk Hv Hs Hr. assert (Hc : forall v b vs w w', int_fits LWMSG_SIGNED 2 v = true -> w = encode BigEndian 2 v -> obj_elems list_specs BigEndian i dom b hempty vs w' ->
    obj_elems list_specs BigEndian i dom (encode LittleEndian 2 v ++ b) hempty (VInt v :: vs) (w ++ w')).
  { intros v b vs w w' Hf Hw He. rewrite <-(eq_refl : hunion hempty hempty = hempty). apply elems_cons; [by apply item_obj|by rewrite Hs|done|]. by split. }
  apply (Hc 5 _ _ [0; 5]); [done|done|]. apply (Hc (-6) _ _ [255; 250]); [done|done|]. rewrite <-(app_nil_r (encode LittleEndian 2 7)). apply (Hc 7 [] [] [0; 7] []); [done|done|]. constructor.
Qed.

Definition list_struct : LWMsgTypeIter := default zero_iter (lwmsg_type_enter list_specs list_iter zero_iter).
Definition list_members : list LWMsgTypeIter := default [] (members list_specs list_struct).
Definition list_len : LWMsgTypeIter := default zero_iter (list_members !! 0%nat).
Definition list_items : LWMsgTypeIter := default zero_iter (list_members !! 1%nat).
Definition list_item : LWMsgTypeIter := default zero_iter (lwmsg_type_enter list_specs list_items zero_iter).

Lemma items_pointer_obj : obj list_specs BigEndian list_items {[(0, 1) := 3]} (encode LittleEndian 8 8192) (block 8192 items3) (VPtr [VInt 5; VInt (-6); VInt 7]) [0xFF; 0; 5; 255; 250; 0; 7].
Proof.
  rewrite <-(hunion_empty_r (block 8192 items3)). apply (obj_pointer list_specs BigEndian list_items {[(0, 1) := 3]} (TermMember 0 1) list_item 8192 3 items3 [] hempty [VInt 5; VInt (-6); VInt 7] [0; 5; 255; 250; 0; 7]).
  1-6, 8, 11, 13: by vm_compute.
  - lia.
  - by vm_compute.
  - by intros ?.
  - by intros ?.
  - by left.
  - by apply items_obj.
  - split; apply map_disjoint_empty_r.
Qed.

Lemma list3_fields : obj_fields list_specs BigEndian [] ∅ list_members list3 (block 8192 items3) [VInt 3; VPtr [VInt 5; VInt (-6); VInt 7]] ([3] ++ [0xFF; 0; 5; 255; 250; 0; 7] ++ []).
Proof.
  replace list_members with [list_len; list_items] by (by vm_compute). rewrite <-(hunion_empty_l (block 8192 items3)).
  apply (fields_cons list_specs BigEndian [] ∅ list_len [list_items] list3 [3]); [by vm_compute| |by vm_compute|constructor| |split; apply map_disjoint_empty_l].
  - pose proof (obj_int list_specs BigEndian list_len ∅ 1 LWMSG_UNSIGNED 3) as Ho. apply Ho; by vm_compute.
  - rewrite <-(hunion_empty_r (block 8192 items3)). eapply (fields_cons list_specs BigEndian _ _ list_items [] list3 (encode LittleEndian 8 8192)); [by vm_compute|exact items_pointer_obj|by vm_compute| |constructor|split; apply map_disjoint_empty_r].
    constructor; [by vm_compute; left|constructor].
Qed.

Lemma list3_obj : obj list_specs BigEndian list_iter ∅ (encode LittleEndian 8 4096) list3_heap list3_val list3_wire.
Proof.
  apply (obj_pointer list_specs BigEndian list_iter ∅ (TermStatic 1) list_struct 4096 1 list3 [] (block 8192 items3) [VStruct [VInt 3; VPtr [VInt 5; VInt (-6); VInt 7]]] list3_wire).
  1-6, 8, 9, 11, 13: by vm_compute.
  - lia.
  - by intros ?.
  - by intros ?.
  - by left.
  - rewrite <-(hunion_empty_r (block 8192 items3)). apply (elems_cons list_specs BigEndian list_struct ∅ list3 [] _ _ _ [] list3_wire []); [|done|constructor|split; apply map_disjoint_empty_r].
    eapply obj_struct; [done|done|by vm_compute|done|exact list3_fields].
  - split; [by apply region_disjoint; left|by apply map_disjoint_singleton_l].
Qed.

Lemma marshal_correct_witness : exists n, forall fuel, (n <= fuel)%nat ->
  lwmsg_data_marshal_flat_alloc list_specs BigEndian fuel list3_heap 1 4096 = Some (list3_heap, LWMSG_STATUS_SUCCESS, list3_wire) /\
  forall buffer, zlen list3_wire <= zlen buffer -> exists rest,
    lwmsg_data_marshal_flat list_specs BigEndian fuel list3_heap 1 4096 buffer (zlen buffer) = Some (list3_heap, LWMSG_STATUS_SUCCESS, list3_wire ++ rest) /\ zlen (list3_wire ++ rest) = zlen buffer.
Proof.
  eapply (marshal_correct list_specs BigEndian 1 4096 list_iter list3_heap list3_val list3_wire list3_heap); [by vm_compute|exact list3_obj|done|by vm_compute|done].
Defined.

(** The list of the little-endian host on a big-endian one. *)
Lemma lwmsg_roundtrip_witness : exists n c, forall fuel, (n <= fuel)%nat ->
  lwmsg_data_marshal_flat_alloc list_specs BigEndian fuel list3_heap 1 4096 = Some (list3_heap, LWMSG_STATUS_SUCCESS, list3_wire) /\
  forall hp2 out r, 0 < out -> region out (zeros 8) ⊆ cells hp2 -> c <= avail hp2 ->
    exists bs h', @lwmsg_data_unmarshal_flat BigEndian _ _ _ list_specs BigEndian 20 fuel hp2 1 (list3_wire ++ r) (zlen (list3_wire ++ r)) out = Some (hput hp2 out bs h', LWMSG_STATUS_SUCCESS) /\
      @obj BigEndian list_specs BigEndian list_iter ∅ bs h' list3_val list3_wire /\ hdisj hp2 h' /\ zlen bs = 8.
Proof.
  eapply (lwmsg_roundtrip LittleEndian BigEndian (stacklawsI := host_stack_laws LittleEndian) list_specs BigEndian 20 1 4096 list_iter list3_heap list3_val list3_wire list3_heap); [by vm_compute|exact list3_obj|done|by vm_compute|done].
Defined.

Lemma message_lifecycle_witness : exists n c, forall fuel, (n <= fuel)%nat ->
  lwmsg_data_marshal_flat_alloc list_specs BigEndian fuel list3_heap 1 4096 = Some (list3_heap, LWMSG_STATUS_SUCCESS, list3_wire) /\
  forall hp2 out r, 0 < out -> region out (zeros 8) ⊆ cells hp2 -> c <= avail hp2 ->
    exists p hp', @lwmsg_data_unmarshal_flat BigEndian _ _ _ list_specs BigEndian 20 fuel hp2 1 (list3_wire ++ r) (zlen (list3_wire ++ r)) out = Some (hp', LWMSG_STATUS_SUCCESS) /\
      @load_ptr BigEndian hp' out = Some p /\
      exists m, forall fuel', (m <= fuel')%nat -> forall b mp, @lwmsg_data_free_graph BigEndian _ _ list_specs fuel' 1 p (mkState hp' b mp) = Some (mkState (hput hp2 out (encode BigEndian 8 p) hempty) b mp, inr tt).
Proof.
  eapply (message_lifecycle LittleEndian BigEndian (stacklawsI := host_stack_laws LittleEndian) (stacklaws2 := host_stack_laws BigEndian) list_specs BigEndian 20 1 4096 list_iter list3_heap list3_val list3_wire list3_heap); [by vm_compute|exact list3_obj|done|by vm_compute|done].
Defined.

Lemma free_graph_correct_witness : exists n, forall fuel, (n <= fuel)%nat -> forall b mp,
  lwmsg_data_free_graph list_specs fuel 1 4096 (mkState list3_heap b mp) = Some (mkState (mkHeap (cells list3_heap ∖ cells list3_heap) (blocks list3_heap ∖ blocks list3_heap)) b mp, inr tt).
Proof.
  eapply (free_graph_correct (stacklawsI := host_stack_laws LittleEndian) list_specs BigEndian 1 4096 list_iter list3_heap list3_val list3_wire list3_heap); [by vm_compute|exact list3_obj|done|done].
Defined.

(** * The type of a list is one that is read safely *)

Lemma list_sane : sane list_specs list_iter [] 8.
Proof.
  assert (Hlen : sane list_specs list_len [] 1) by (apply (sane_int list_specs list_len [] 1 LWMSG_UNSIGNED); by vm_compute).
  assert (Hitem : sane list_specs list_item [(0, 1)] (size list_item)) by (apply (sane_int list_specs list_item [(0, 1)] 2 LWMSG_SIGNED); by vm_compute).
  assert (Hitems : sane list_specs list_items [(0, 1)] 8).
  { apply (sane_pointer list_specs list_items [(0, 1)] (TermMember 0 1) list_item); [by vm_compute..| |exact Hitem]. split; [by left|lia]. }
  apply (sane_pointer list_specs list_iter [] (TermStatic 1) list_struct); [by vm_compute..|]. apply (sane_struct list_specs list_struct [] [list_len; list_items]); [by vm_compute..|].
  apply (sane_cons list_specs [] [] list_len [list_items] 1); [by vm_compute|by vm_compute|exact Hlen|by vm_compute|by vm_compute|constructor|].
  rewrite decide_True by (by vm_compute). replace (offset list_len) with 0 by (by vm_compute).
  apply (sane_cons list_specs [(0, 1)] [(0, 1)] list_items [] 8); [by vm_compute|by vm_compute|exact Hitems|by vm_compute|by vm_compute| |constructor]. constructor; [by vm_compute; left|constructor].
Qed.

(** A list that ends within its items. *)
Lemma unmarshal_safe_witness : exists n, forall fuel free_fuel, (n <= fuel)%nat -> (n <= free_fuel)%nat ->
  exists hp' s, lwmsg_data_unmarshal_flat list_specs BigEndian free_fuel fuel demo_heap 1 [3; 0xFF; 0; 5] 4 64 = Some (hp', s) /\
    (s <> LWMSG_STATUS_SUCCESS -> hp' = demo_heap) /\
    exists p h, hp' = hput demo_heap 64 (encode host 8 p) h /\ hdisj demo_heap h /\
      forall b mp, lwmsg_data_free_graph list_specs free_fuel 1 p (mkState hp' b mp) = Some (mkState (hput demo_heap 64 (encode host 8 p) hempty) b mp, inr tt).
Proof.
  destruct (unmarshal_safe (stacklawsI := host_stack_laws LittleEndian) list_specs BigEndian 1 list_iter) as (n & Hn); [by vm_compute|exact list_sane|]. exists n. intros fuel free_fuel Hf Hff.
  apply (Hn fuel free_fuel Hf Hff); [repeat constructor; lia|by vm_compute|done].
Defined.
