(* ===== verification/LwmsgSession.v ===== *)
(** Security tokens of local peers ([security.c], [connection-security.c]) and the
    default sessions of associations with their handles ([assoc-session.c]). *)

From stdpp Require Import gmap.
From S2P Require Import Prelude Lwmsg.

(** * Security tokens

    A token is an allocated object; all tokens are of the class [local_class]. *)

Record LocalToken := mkToken { t_address : Z; t_euid : Z; t_egid : Z; t_pid : Z }.

(** Both sets of credentials are taken from [token]. *)
Definition lwmsg_local_token_equal (token other : LocalToken) : bool :=
  let my_priv := token in
  let other_priv := token in
  (t_euid my_priv =? t_euid other_priv) && (t_egid my_priv =? t_egid other_priv).
Definition lwmsg_security_token_equal (token other : LocalToken) : bool :=
  if t_address token =? t_address other then true else lwmsg_local_token_equal token other.
Definition lwmsg_local_token_can_access (token other : LocalToken) : bool := lwmsg_security_token_equal token other.
Definition lwmsg_security_token_can_access (token other : LocalToken) : bool := lwmsg_local_token_can_access token other.

(** * Sessions and handles *)

Inductive LWMsgHandleType := LWMSG_HANDLE_NULL | LWMSG_HANDLE_LOCAL | LWMSG_HANDLE_REMOTE.
#[global] Instance LWMsgHandleType_eq_dec : EqDecision LWMsgHandleType.
Proof. solve_decision. Defined.

(** A name is the characters of a string; [cleanup] is the address of a function, or
    null. *)
Record LWMsgHandle := mkHandle {
  h_type : mem; h_refs : Z; h_valid : bool; h_pointer : Z; h_locality : LWMsgHandleType; h_hid : Z; h_cleanup : Z; h_next : Z; h_prev : Z }.
Definition set_refs (n : Z) (h : LWMsgHandle) := mkHandle (h_type h) n (h_valid h) (h_pointer h) (h_locality h) (h_hid h) (h_cleanup h) (h_next h) (h_prev h).
Definition set_valid (v : bool) (h : LWMsgHandle) := mkHandle (h_type h) (h_refs h) v (h_pointer h) (h_locality h) (h_hid h) (h_cleanup h) (h_next h) (h_prev h).
Definition set_next (p : Z) (h : LWMsgHandle) := mkHandle (h_type h) (h_refs h) (h_valid h) (h_pointer h) (h_locality h) (h_hid h) (h_cleanup h) p (h_prev h).
Definition set_prev (p : Z) (h : LWMsgHandle) := mkHandle (h_type h) (h_refs h) (h_valid h) (h_pointer h) (h_locality h) (h_hid h) (h_cleanup h) (h_next h) p.

(** No function of the library sets the constructor and the destructor of a default
    session: they are null. *)
Record DefaultSession := mkSession {
  connect_id : mem; accept_id : mem; sec_token : option LocalToken; refs : Z; handles : Z; num_handles : Z; next_hid : Z }.
Definition set_ids (c a : mem) (s : DefaultSession) := mkSession c a (sec_token s) (refs s) (handles s) (num_handles s) (next_hid s).
Definition set_token (t : LocalToken) (s : DefaultSession) := mkSession (connect_id s) (accept_id s) (Some t) (refs s) (handles s) (num_handles s) (next_hid s).
Definition set_session_refs (n : Z) (s : DefaultSession) := mkSession (connect_id s) (accept_id s) (sec_token s) n (handles s) (num_handles s) (next_hid s).
Definition set_handles (p n : Z) (s : DefaultSession) := mkSession (connect_id s) (accept_id s) (sec_token s) (refs s) p n (next_hid s).
Definition set_next_hid (n : Z) (s : DefaultSession) := mkSession (connect_id s) (accept_id s) (sec_token s) (refs s) (handles s) (num_handles s) n.

(** The cleanup functions that have been called, with their arguments, and the tokens
    that have been freed, in order. *)
Inductive effect := Cleanup (f p : Z) | TokenDeleted (a : Z).

(** Sessions and handles by address. *)
Record sessions := mkSessions { session_at : gmap Z DefaultSession; handle_at : gmap Z LWMsgHandle; effects : list effect }.
Definition put_session (s : Z) (d : DefaultSession) (st : sessions) : sessions := mkSessions (<[s := d]> (session_at st)) (handle_at st) (effects st).
Definition put_handle (a : Z) (h : LWMsgHandle) (st : sessions) : sessions := mkSessions (session_at st) (<[a := h]> (handle_at st)) (effects st).
Definition add_effect (e : effect) (st : sessions) : sessions := mkSessions (session_at st) (handle_at st) (effects st ++ [e]).

(** The result of [calloc] for a handle and for a session, and the random bytes of a
    cookie. *)
Class SessionAlloc := { calloc_handle : gmap Z LWMsgHandle -> option Z; calloc_session : gmap Z DefaultSession -> option Z; random_cookie : Z -> mem }.

(** * Handles *)

Definition default_free_handle (entry : Z) (st : sessions) : option sessions :=
  e ← handle_at st !! entry;
  let st := if h_cleanup e =? 0 then st else add_effect (Cleanup (h_cleanup e) (h_pointer e)) st in
  st ← (if h_prev e =? 0 then Some st else p ← handle_at st !! h_prev e; Some (put_handle (h_prev e) (set_next (h_next e) p) st));
  st ← (if h_next e =? 0 then Some st else n ← handle_at st !! h_next e; Some (put_handle (h_next e) (set_prev (h_prev e) n) st));
  Some (mkSessions (session_at st) (delete entry (handle_at st)) (effects st)).

Definition default_add_handle `{SessionAlloc} (session : Z) (type : mem) (locality : LWMsgHandleType) (pointer hid cleanup : Z) (st : sessions) : option (sessions * (LWMsgStatus * Z)) :=
  s ← session_at st !! session;
  match calloc_handle (handle_at st) with
  | None => Some (st, (LWMSG_STATUS_MEMORY, 0))
  | Some handle =>
      let st := put_handle handle (mkHandle type 1 true pointer locality hid cleanup (handles s) 0) st in
      st ← (if handles s =? 0 then Some st else h ← handle_at st !! handles s; Some (put_handle (handles s) (set_prev handle h) st));
      Some (put_session session (set_handles handle (u64 (num_handles s + 1)) s) st, (LWMSG_STATUS_SUCCESS, handle))
  end.

Definition default_register_handle_remote `{SessionAlloc} (session : Z) (type : mem) (hid cleanup : Z) (st : sessions) : option (sessions * (LWMsgStatus * Z)) :=
  default_add_handle session type LWMSG_HANDLE_REMOTE 0 hid cleanup st.

(** The counter of handles is advanced in any case. *)
Definition default_register_handle_local `{SessionAlloc} (session : Z) (type : mem) (data cleanup : Z) (st : sessions) : option (sessions * (LWMsgStatus * Z)) :=
  s ← session_at st !! session;
  default_add_handle session type LWMSG_HANDLE_LOCAL data (next_hid s) cleanup (put_session session (set_next_hid (u32 (next_hid s + 1)) s) st).

Definition default_retain_handle (handle : Z) (st : sessions) : option sessions :=
  h ← handle_at st !! handle; Some (put_handle handle (set_refs (u64 (h_refs h + 1)) h) st).

(** A reference is dropped: the last one takes the handle off the session. *)
Definition default_drop_handle (session handle : Z) (st : sessions) : option sessions :=
  s ← session_at st !! session;
  h ← handle_at st !! handle;
  let st := put_handle handle (set_refs (u64 (h_refs h - 1)) h) st in
  if u64 (h_refs h - 1) =? 0 then
    st ← (if handle =? handles s
          then first ← handle_at st !! handles s; Some (put_session session (set_handles (h_next first) (num_handles s) s) st)
          else Some st);
    st ← default_free_handle handle st;
    s ← session_at st !! session;
    Some (put_session session (set_handles (handles s) (u64 (num_handles s - 1)) s) st)
  else Some st.
Definition default_release_handle (session handle : Z) (st : sessions) : option sessions := default_drop_handle session handle st.

Definition default_unregister_handle (session handle : Z) (st : sessions) : option (sessions * LWMsgStatus) :=
  h ← handle_at st !! handle;
  if negb (h_valid h) then Some (st, LWMSG_STATUS_INVALID_HANDLE)
  else st ← default_drop_handle session handle (put_handle handle (set_valid false h) st); Some (st, LWMSG_STATUS_SUCCESS).

Definition default_resolve_handle_to_id (handle : Z) (st : sessions) : option (LWMsgStatus * option (mem * LWMsgHandleType * Z)) :=
  h ← handle_at st !! handle;
  Some (if negb (h_valid h) then (LWMSG_STATUS_INVALID_HANDLE, None) else (LWMSG_STATUS_SUCCESS, Some (h_type h, h_locality h, h_hid h))).

(** [type] is [None] for a null pointer. *)
Fixpoint resolve_loop (fuel : nat) (type : option mem) (htype : LWMsgHandleType) (hid my_handle : Z) (st : sessions) : option (sessions * (LWMsgStatus * Z)) :=
  match fuel with
  | O => None
  | S fuel =>
      if my_handle =? 0 then Some (st, (LWMSG_STATUS_NOT_FOUND, 0)) else
      h ← handle_at st !! my_handle;
      if (h_hid h =? hid) && bool_decide (h_locality h = htype) then
        if negb (h_valid h) || match type with Some t => negb (bool_decide (t = h_type h)) | None => false end then Some (st, (LWMSG_STATUS_INVALID_HANDLE, 0))
        else Some (put_handle my_handle (set_refs (u64 (h_refs h + 1)) h) st, (LWMSG_STATUS_SUCCESS, my_handle))
      else resolve_loop fuel type htype hid (h_next h) st
  end.
Definition default_resolve_id_to_handle (session : Z) (type : option mem) (htype : LWMsgHandleType) (hid : Z) (st : sessions) : option (sessions * (LWMsgStatus * Z)) :=
  s ← session_at st !! session; resolve_loop (S (size (handle_at st))) type htype hid (handles s) st.

Definition default_get_handle_data (handle : Z) (st : sessions) : option (LWMsgStatus * option Z) :=
  h ← handle_at st !! handle; Some (if negb (h_valid h) then (LWMSG_STATUS_INVALID_HANDLE, None) else (LWMSG_STATUS_SUCCESS, Some (h_pointer h))).

Definition default_get_handle_count (session : Z) (st : sessions) : option Z := s ← session_at st !! session; Some (num_handles s).

(** * Sessions *)

Definition lwmsg_assoc_session_new `{SessionAlloc} (st : sessions) : sessions * (LWMsgStatus * Z) :=
  match calloc_session (session_at st) with
  | None => (st, (LWMSG_STATUS_MEMORY, 0))
  | Some session => (put_session session (mkSession (random_cookie session) (zeros 8) None 1 0 0 0) st, (LWMSG_STATUS_SUCCESS, session))
  end.

Fixpoint free_handles (fuel : nat) (handle : Z) (st : sessions) : option sessions :=
  match fuel with
  | O => None
  | S fuel =>
      if handle =? 0 then Some st else
      h ← handle_at st !! handle;
      st ← default_free_handle handle st;
      free_handles fuel (h_next h) st
  end.
Definition default_free_session (session : Z) (st : sessions) : option sessions :=
  s ← session_at st !! session;
  st ← free_handles (S (size (handle_at st))) (handles s) st;
  let st := match sec_token s with None => st | Some t => add_effect (TokenDeleted (t_address t)) st end in
  Some (mkSessions (delete session (session_at st)) (handle_at st) (effects st)).

Definition default_release (session : Z) (st : sessions) : option sessions :=
  s ← session_at st !! session;
  let st := put_session session (set_session_refs (u64 (refs s - 1)) s) st in
  if u64 (refs s - 1) =? 0 then default_free_session session st else Some st.

(** The peer of an accepting session; a token of an earlier peer is not freed. *)
Definition default_accept (session : Z) (connect : mem) (token : LocalToken) (st : sessions) : option (sessions * LWMsgStatus) :=
  s ← session_at st !! session;
  Some (put_session session (set_ids connect (accept_id s) (set_token token (set_session_refs (u64 (refs s + 1)) s))) st, LWMSG_STATUS_SUCCESS).

Definition default_connect (session : Z) (accept : mem) (token : LocalToken) (st : sessions) : option (sessions * LWMsgStatus) :=
  s ← session_at st !! session;
  match sec_token s with
  | Some t =>
      if negb (lwmsg_security_token_can_access t token) then Some (st, LWMSG_STATUS_SECURITY)
      else if negb (bool_decide (accept_id s = accept)) && (0 <? num_handles s) then Some (st, LWMSG_STATUS_SESSION_LOST)
      else Some (put_session session (set_session_refs (u64 (refs s + 1)) (set_ids (connect_id s) accept s)) (add_effect (TokenDeleted (t_address token)) st), LWMSG_STATUS_SUCCESS)
  | None => Some (put_session session (set_session_refs (u64 (refs s + 1)) (set_ids (connect_id s) accept (set_token token s))) st, LWMSG_STATUS_SUCCESS)
  end.
