(* ===== verification/LwmsgSessionOps.v ===== *)
(** The handles of a session are a list of counted references: the linked list of a
    default session refines it, each handle is freed by its last reference, and its
    cleanup function is called once. *)

From stdpp Require Import gmap.
From S2P Require Import Prelude Lwmsg LwmsgSession.

(** * Linked lists of handles *)

(** A handle with new links. *)
Definition link (next prev : Z) (h : LWMsgHandle) : LWMsgHandle := set_next next (set_prev prev h).

Abbreviation entry := (Z * LWMsgHandle)%type.
Definition addrs (l : list entry) : list Z := l.*1.
Lemma addrs_app l1 l2 : addrs (l1 ++ l2) = addrs l1 ++ addrs l2.
Proof. apply fmap_app. Qed.
Lemma addrs_cons a e l : addrs ((a, e) :: l) = a :: addrs l.
Proof. done. Qed.

Definition head_addr (l : list entry) (after : Z) : Z := match l with [] => after | (a, _) :: _ => a end.
Fixpoint last_addr (before : Z) (l : list entry) : Z := match l with [] => before | (a, _) :: l => last_addr a l end.

(** The handles [l] in memory: [before] and [after] are the ends of the list. *)
Fixpoint nodes (before : Z) (l : list entry) (after : Z) : gmap Z LWMsgHandle :=
  match l with [] => ∅ | (a, e) :: l => <[a := link (head_addr l after) before e]> (nodes a l after) end.

Lemma nodes_dom l : forall before after, dom (nodes before l after) = list_to_set (addrs l).
Proof. induction l as [|[a e] l IH]; intros before after; cbn; [done|]. by rewrite dom_insert_L, IH. Qed.

Lemma nodes_None l before after a : a ∉ addrs l -> nodes before l after !! a = None.
Proof. intros Ha. apply not_elem_of_dom. rewrite nodes_dom. by rewrite elem_of_list_to_set. Qed.

Lemma head_addr_app l1 l2 after : head_addr (l1 ++ l2) after = head_addr l1 (head_addr l2 after).
Proof. by destruct l1 as [|[a e] l1]. Qed.
Lemma last_addr_app l1 l2 before : last_addr before (l1 ++ l2) = last_addr (last_addr before l1) l2.
Proof. revert before. induction l1 as [|[a e] l1 IH]; intros before; [done|]. apply IH. Qed.

Lemma nodes_app l1 l2 after : forall before, NoDup (addrs (l1 ++ l2)) -> nodes before (l1 ++ l2) after = nodes before l1 (head_addr l2 after) ∪ nodes (last_addr before l1) l2 after.
Proof.
  induction l1 as [|[a e] l1 IH]; intros before Hd; cbn; [by rewrite map_empty_union|]. apply NoDup_cons in Hd as (_ & Hd). rewrite IH, head_addr_app by done. by rewrite insert_union_l.
Qed.

(** A handle in the middle. *)
Lemma nodes_mid l1 a e l2 : NoDup (addrs (l1 ++ (a, e) :: l2)) ->
  nodes 0 (l1 ++ (a, e) :: l2) 0 = <[a := link (head_addr l2 0) (last_addr 0 l1) e]> (nodes 0 l1 a ∪ nodes a l2 0) /\ (a ∉ addrs l1) /\ (a ∉ addrs l2) /\ NoDup (addrs (l1 ++ l2)).
Proof.
  intros Hd. rewrite nodes_app by done. rewrite addrs_app, addrs_cons in Hd. apply NoDup_app in Hd as (H1 & H12 & (H2 & H3)%NoDup_cons).
  assert (Ha : a ∉ addrs l1) by (intros Hx; apply (H12 a Hx); by left). split; [|split; [done|split; [done|]]].
  - cbn. rewrite insert_union_r; [done|]. by apply nodes_None.
  - rewrite addrs_app. apply NoDup_app. split; [done|]. split; [|done]. intros x Hx Hy. apply (H12 x Hx). by right.
Qed.

Lemma nodes_lookup l1 a e l2 : NoDup (addrs (l1 ++ (a, e) :: l2)) -> nodes 0 (l1 ++ (a, e) :: l2) 0 !! a = Some (link (head_addr l2 0) (last_addr 0 l1) e).
Proof. intros Hd. destruct (nodes_mid _ _ _ _ Hd) as (-> & _). by rewrite lookup_insert_eq. Qed.

Lemma nodes_update l1 a e e' l2 : NoDup (addrs (l1 ++ (a, e) :: l2)) -> <[a := link (head_addr l2 0) (last_addr 0 l1) e']> (nodes 0 (l1 ++ (a, e) :: l2) 0) = nodes 0 (l1 ++ (a, e') :: l2) 0.
Proof.
  intros Hd. assert (Hd' : NoDup (addrs (l1 ++ (a, e') :: l2))) by (rewrite addrs_app, addrs_cons in Hd |- *; done).
  destruct (nodes_mid _ _ _ _ Hd) as (-> & _), (nodes_mid _ _ _ _ Hd') as (-> & _). by rewrite insert_insert_eq.
Qed.

(** The ends of a list. *)
Lemma nodes_set_first l before before' after a e : <[a := link (head_addr l after) before' e]> (nodes before ((a, e) :: l) after) = nodes before' ((a, e) :: l) after.
Proof. cbn. by rewrite insert_insert_eq. Qed.

Lemma nodes_set_last l a e after after' : forall before, NoDup (addrs (l ++ [(a, e)])) -> <[a := link after' (last_addr before l) e]> (nodes before (l ++ [(a, e)]) after) = nodes before (l ++ [(a, e)]) after'.
Proof.
  induction l as [|[b f] l IH]; intros before Hd; [cbn; by rewrite insert_insert_eq|]. rewrite <-app_comm_cons, addrs_cons in Hd. apply NoDup_cons in Hd as (Hb & Hd). cbn. rewrite addrs_app in Hb. apply not_elem_of_app in Hb as (_ & Hb).
  rewrite insert_insert_ne by (intros ->; apply Hb; by left). by rewrite IH, !head_addr_app.
Qed.

(** The links of the neighbours of a handle. *)
Lemma relink_before l after after' (m : gmap Z LWMsgHandle) : NoDup (addrs l) -> Forall (fun x => x <> 0) (addrs l) ->
  (if last_addr 0 l =? 0 then Some (nodes 0 l after ∪ m) else p ← (nodes 0 l after ∪ m) !! last_addr 0 l; Some (<[last_addr 0 l := set_next after' p]> (nodes 0 l after ∪ m))) = Some (nodes 0 l after' ∪ m).
Proof.
  intros Hd Hz. destruct l as [|[b e] l _] using rev_ind; [done|]. rewrite last_addr_app. cbn [last_addr]. rewrite addrs_app in Hz. apply Forall_app in Hz as (_ & Hb%Forall_inv). cbn in Hb.
  destruct (Z.eqb_spec b 0); [done|]. assert (Hl : nodes 0 (l ++ [(b, e)]) after !! b = Some (link after (last_addr 0 l) e)) by (rewrite <-(nodes_set_last l b e after after 0 Hd); by rewrite lookup_insert_eq).
  rewrite (lookup_union_Some_l _ _ _ _ Hl). cbn [mbind option_bind]. change (set_next after' (link after (last_addr 0 l) e)) with (link after' (last_addr 0 l) e). by rewrite insert_union_l, (nodes_set_last l b e after after' 0 Hd).
Qed.

Lemma relink_after l before before' (m1 m2 : gmap Z LWMsgHandle) : Forall (fun x => x <> 0) (addrs l) -> Forall (fun x => m1 !! x = None) (addrs l) ->
  (if head_addr l 0 =? 0 then Some (m1 ∪ (nodes before l 0 ∪ m2)) else n ← (m1 ∪ (nodes before l 0 ∪ m2)) !! head_addr l 0; Some (<[head_addr l 0 := set_prev before' n]> (m1 ∪ (nodes before l 0 ∪ m2)))) =
    Some (m1 ∪ (nodes before' l 0 ∪ m2)).
Proof.
  intros Hz Hm. destruct l as [|[c e] l]; [done|]. cbn [head_addr]. apply Forall_inv in Hz, Hm. cbn in Hz, Hm. destruct (Z.eqb_spec c 0); [done|].
  rewrite lookup_union_r by done. erewrite lookup_union_Some_l by (cbn; by rewrite lookup_insert_eq). cbn [mbind option_bind]. rewrite insert_union_r by done. change (set_prev before' (link (head_addr l 0) before e)) with (link (head_addr l 0) before' e). by rewrite insert_union_l, <-(nodes_set_first l before before' 0 c e).
Qed.

(** * The specification: a list of counted handles, the newest one first *)

Record spec := mkSpec { sp_handles : list entry; sp_next : Z; sp_effects : list effect }.

Definition update (a : Z) (f : LWMsgHandle -> LWMsgHandle) (l : list entry) : list entry := (fun x => if decide (x.1 = a) then (x.1, f x.2) else x) <$> l.
Definition remove (a : Z) (l : list entry) : list entry := filter (fun x => x.1 <> a) l.
Definition get_handle (a : Z) (l : list entry) : option LWMsgHandle := snd <$> List.find (fun x => x.1 =? a) l.

Inductive handle_op :=
  | OpLocal (type : mem) (data cleanup : Z)
  | OpRemote (type : mem) (hid cleanup : Z)
  | OpRetain (a : Z)
  | OpRelease (a : Z)
  | OpUnregister (a : Z)
  | OpResolve (type : option mem) (htype : LWMsgHandleType) (hid : Z).

Definition run_op `{SessionAlloc} (s : Z) (op : handle_op) (st : sessions) : option (sessions * (LWMsgStatus * Z)) :=
  match op with
  | OpLocal type data cleanup => default_register_handle_local s type data cleanup st
  | OpRemote type hid cleanup => default_register_handle_remote s type hid cleanup st
  | OpRetain a => st ← default_retain_handle a st; Some (st, (LWMSG_STATUS_SUCCESS, 0))
  | OpRelease a => st ← default_release_handle s a st; Some (st, (LWMSG_STATUS_SUCCESS, 0))
  | OpUnregister a => '(st, r) ← default_unregister_handle s a st; Some (st, (r, 0))
  | OpResolve type htype hid => default_resolve_id_to_handle s type htype hid st
  end.

(** [fresh] is the result of the allocation. *)
Definition spec_add (fresh : option Z) (h : LWMsgHandle) (sp : spec) : spec * (LWMsgStatus * Z) :=
  match fresh with
  | None => (sp, (LWMSG_STATUS_MEMORY, 0))
  | Some a => (mkSpec ((a, h) :: sp_handles sp) (sp_next sp) (sp_effects sp), (LWMSG_STATUS_SUCCESS, a))
  end.
Definition spec_drop (a : Z) (h : LWMsgHandle) (sp : spec) : spec :=
  if h_refs h =? 1
  then mkSpec (remove a (sp_handles sp)) (sp_next sp) (sp_effects sp ++ if h_cleanup h =? 0 then [] else [Cleanup (h_cleanup h) (h_pointer h)])
  else mkSpec (update a (fun h => set_refs (h_refs h - 1) h) (sp_handles sp)) (sp_next sp) (sp_effects sp).
Definition map_handles (f : list entry -> list entry) (sp : spec) : spec := mkSpec (f (sp_handles sp)) (sp_next sp) (sp_effects sp).

Definition spec_op (fresh : option Z) (op : handle_op) (sp : spec) : option (spec * (LWMsgStatus * Z)) :=
  match op with
  | OpLocal type data cleanup =>
      Some (spec_add fresh (mkHandle type 1 true data LWMSG_HANDLE_LOCAL (sp_next sp) cleanup 0 0) (mkSpec (sp_handles sp) (u32 (sp_next sp + 1)) (sp_effects sp)))
  | OpRemote type hid cleanup => Some (spec_add fresh (mkHandle type 1 true 0 LWMSG_HANDLE_REMOTE hid cleanup 0 0) sp)
  | OpRetain a => _ ← get_handle a (sp_handles sp); Some (map_handles (update a (fun h => set_refs (h_refs h + 1) h)) sp, (LWMSG_STATUS_SUCCESS, 0))
  | OpRelease a => h ← get_handle a (sp_handles sp); Some (spec_drop a h sp, (LWMSG_STATUS_SUCCESS, 0))
  | OpUnregister a =>
      h ← get_handle a (sp_handles sp);
      Some (if h_valid h then (spec_drop a h (map_handles (update a (set_valid false)) sp), (LWMSG_STATUS_SUCCESS, 0)) else (sp, (LWMSG_STATUS_INVALID_HANDLE, 0)))
  | OpResolve type htype hid =>
      match List.find (fun x => (h_hid x.2 =? hid) && bool_decide (h_locality x.2 = htype)) (sp_handles sp) with
      | None => Some (sp, (LWMSG_STATUS_NOT_FOUND, 0))
      | Some (a, h) =>
          Some (if h_valid h && (match type with None => true | Some t => bool_decide (t = h_type h) end)
                then (map_handles (update a (fun h => set_refs (h_refs h + 1) h)) sp, (LWMSG_STATUS_SUCCESS, a)) else (sp, (LWMSG_STATUS_INVALID_HANDLE, 0)))
      end
  end.

(** Counts do not get near the width of [size_t]. *)
Definition small (sp : spec) : Prop := Z.of_nat (length (sp_handles sp)) + 1 < 2 ^ 64 /\ Forall (fun x => h_refs x.2 + 1 < 2 ^ 64) (sp_handles sp).

(** * A session in memory; [others] are the handles of other sessions *)

Class SessionAllocLaws `{SessionAlloc} := { calloc_fresh : forall m a, calloc_handle m = Some a -> a <> 0 /\ m !! a = None }.

Record rep (s : Z) (others : gmap Z LWMsgHandle) (st : sessions) (sp : spec) : Prop := mkRep {
  rep_session : exists d, session_at st !! s = Some d /\ handles d = head_addr (sp_handles sp) 0 /\ num_handles d = Z.of_nat (length (sp_handles sp)) /\ next_hid d = sp_next sp;
  rep_nodes : handle_at st = nodes 0 (sp_handles sp) 0 ∪ others;
  rep_others : Forall (fun a => others !! a = None) (addrs (sp_handles sp));
  rep_nodup : NoDup (addrs (sp_handles sp));
  rep_nonzero : Forall (fun a => a <> 0) (addrs (sp_handles sp));
  rep_refs : Forall (fun x => 1 <= h_refs x.2) (sp_handles sp);
  rep_effects : effects st = sp_effects sp }.

Section Lists.
Context (l1 : list entry) (a : Z) (e : LWMsgHandle) (l2 : list entry).
Hypothesis Hd : NoDup (addrs (l1 ++ (a, e) :: l2)).

Lemma not_in_sides : (a ∉ addrs l1) /\ (a ∉ addrs l2).
Proof. destruct (nodes_mid _ _ _ _ Hd) as (_ & H1 & H2 & _). done. Qed.

Lemma update_other f (l : list entry) : a ∉ addrs l -> update a f l = l.
Proof.
  induction l as [|[b x] l IH]; [done|]. rewrite addrs_cons. intros (Hb & Hl)%not_elem_of_cons. cbn. rewrite decide_False by (by intros ->). f_equal. by apply IH.
Qed.

Lemma update_mid f : update a f (l1 ++ (a, e) :: l2) = l1 ++ (a, f e) :: l2.
Proof.
  destruct not_in_sides as (H1 & H2). unfold update. rewrite fmap_app, fmap_cons. cbn. rewrite decide_True by done. f_equal; [by apply update_other|]. f_equal. by apply update_other.
Qed.

Lemma remove_other (l : list entry) : a ∉ addrs l -> remove a l = l.
Proof.
  unfold remove. induction l as [|[b x] l IH]; [done|]. rewrite addrs_cons. intros (Hb & Hl)%not_elem_of_cons. rewrite filter_cons_True by (cbn; by intros ->). f_equal. by apply IH.
Qed.

Lemma remove_mid : remove a (l1 ++ (a, e) :: l2) = l1 ++ l2.
Proof.
  destruct not_in_sides as (H1 & H2). unfold remove. rewrite filter_app, filter_cons_False by (cbn; tauto). f_equal; by apply remove_other.
Qed.
End Lists.

Lemma find_split {A} (f : A -> bool) l x : List.find f l = Some x -> exists l1 l2, l = l1 ++ x :: l2 /\ f x = true.
Proof.
  induction l as [|y l IH]; [done|]. cbn. destruct (f y) eqn:Hy; [intros [= ->]; by exists [], l|]. intros (l1 & l2 & -> & Hx)%IH. by exists (y :: l1), l2.
Qed.

Lemma get_handle_split a l e : get_handle a l = Some e -> exists l1 l2, l = l1 ++ (a, e) :: l2.
Proof. unfold get_handle. intros ([b x] & (l1 & l2 & -> & Hb%Z.eqb_eq)%find_split & ->)%fmap_Some. cbn in Hb |- *. subst b. by exists l1, l2. Qed.

Lemma get_update a f l : get_handle a (update a f l) = f <$> get_handle a l.
Proof.
  unfold get_handle. induction l as [|[b x] l IH]; [done|]. cbn. case_decide as Hb; cbn; [subst b; by rewrite Z.eqb_refl|]. destruct (Z.eqb_spec b a); [done|]. apply IH.
Qed.

Lemma small_update a sp : small sp -> small (map_handles (update a (set_valid false)) sp).
Proof.
  intros (Hl & Hr). split; cbn [map_handles sp_handles]; unfold update; [by rewrite length_fmap|]. apply Forall_fmap. eapply Forall_impl; [exact Hr|]. intros [b x] Hx. cbn. by case_decide.
Qed.

(** * The operations on the list *)

Section Rep.
Context (s : Z) (others : gmap Z LWMsgHandle).

(** A handle of the session, and the handle with other contents. *)
Lemma rep_lookup st sp l1 a e l2 : rep s others st sp -> sp_handles sp = l1 ++ (a, e) :: l2 -> handle_at st !! a = Some (link (head_addr l2 0) (last_addr 0 l1) e).
Proof. intros [Hs Hn Ho Hd Hz Hr He] Hl. rewrite Hn, Hl in *. by apply lookup_union_Some_l, nodes_lookup. Qed.

Lemma rep_count st sp l1 a e l2 : rep s others st sp -> small sp -> sp_handles sp = l1 ++ (a, e) :: l2 -> 1 <= h_refs e /\ h_refs e + 1 < 2 ^ 64.
Proof. intros [_ _ _ _ _ Hr _] (_ & Hsm) Hl. rewrite Hl in Hr, Hsm. apply Forall_app in Hr as (_ & ?%Forall_inv), Hsm as (_ & ?%Forall_inv). done. Qed.

Lemma rep_update st sp l1 a e l2 f : rep s others st sp -> sp_handles sp = l1 ++ (a, e) :: l2 -> 1 <= h_refs (f e) ->
  rep s others (put_handle a (link (head_addr l2 0) (last_addr 0 l1) (f e)) st) (map_handles (update a f) sp).
Proof.
  intros [Hs Hn Ho Hd Hz Hr He] Hl H1. rewrite Hl in *. assert (Ha : addrs (l1 ++ (a, f e) :: l2) = addrs (l1 ++ (a, e) :: l2)) by (by rewrite !addrs_app). constructor; cbn [map_handles sp_handles sp_next sp_effects put_handle session_at handle_at effects]; rewrite ?Hl, ?update_mid, ?Ha by done; try done.
  - destruct Hs as (d & H & Hh & Hc & Hx). exists d. split; [done|]. rewrite head_addr_app in Hh |- *. rewrite length_app in Hc |- *. done.
  - rewrite Hn, insert_union_l. by rewrite nodes_update.
  - apply Forall_app in Hr as (Hr1 & (_ & Hr2)%Forall_cons). apply Forall_app. split; [done|]. by apply Forall_cons.
Qed.

(** A step that changes the handles only. *)
Lemma step_handles (c : bool) k f (st : sessions) m : (if c then Some (handle_at st) else p ← handle_at st !! k; Some (<[k := f p]> (handle_at st))) = Some m ->
  (if c then Some st else p ← handle_at st !! k; Some (put_handle k (f p) st)) = Some (mkSessions (session_at st) m (effects st)).
Proof. destruct st as [ss hs es], c; cbn; [by intros [= ->]|]. destruct (hs !! k); cbn; [by intros [= <-]|done]. Qed.

Definition cleanup_of (e : LWMsgHandle) : list effect := if h_cleanup e =? 0 then [] else [Cleanup (h_cleanup e) (h_pointer e)].

(** The handle is taken off the list. *)
Lemma free_handle_ok st l1 a e l2 : handle_at st = nodes 0 (l1 ++ (a, e) :: l2) 0 ∪ others -> NoDup (addrs (l1 ++ (a, e) :: l2)) -> Forall (fun x => x <> 0) (addrs (l1 ++ (a, e) :: l2)) ->
  Forall (fun x => others !! x = None) (addrs (l1 ++ (a, e) :: l2)) -> default_free_handle a st = Some (mkSessions (session_at st) (nodes 0 (l1 ++ l2) 0 ∪ others) (effects st ++ cleanup_of e)).
Proof.
  intros Hn Hd Hz Ho. unfold default_free_handle. pose proof (nodes_lookup _ _ _ _ Hd) as Hl. rewrite Hn, (lookup_union_Some_l _ _ _ _ Hl). cbn [mbind option_bind].
  destruct (nodes_mid _ _ _ _ Hd) as (Hmid & Ha1 & Ha2 & Hd12). set (x := link (head_addr l2 0) (last_addr 0 l1) e) in *.
  change (h_prev x) with (last_addr 0 l1). change (h_next x) with (head_addr l2 0). change (h_cleanup x) with (h_cleanup e). change (h_pointer x) with (h_pointer e).
  set (st1 := if h_cleanup e =? 0 then st else add_effect (Cleanup (h_cleanup e) (h_pointer e)) st).
  assert (H1 : handle_at st1 = nodes 0 l1 a ∪ (<[a := x]> (nodes a l2 0) ∪ others) /\ session_at st1 = session_at st /\ effects st1 = effects st ++ cleanup_of e).
  { rewrite map_union_assoc, <-insert_union_r, <-Hmid by (by apply nodes_None). unfold st1, cleanup_of. destruct (h_cleanup e =? 0); [by rewrite app_nil_r|done]. }
  destruct H1 as (E1 & E2 & E3). rewrite addrs_app, addrs_cons in Hz, Ho, Hd. apply Forall_app in Hz as (Hz1 & (Hza & Hz2)%Forall_cons), Ho as (Ho1 & (Hoa & Ho2)%Forall_cons). apply NoDup_app in Hd as (Hn1 & Hn12 & (_ & Hn2)%NoDup_cons).
  erewrite step_handles; [|rewrite E1; by apply relink_before]. cbn [mbind option_bind handle_at session_at effects].
  assert (Hm : nodes 0 l1 (head_addr l2 0) ∪ (<[a := x]> (nodes a l2 0) ∪ others) = (nodes 0 l1 (head_addr l2 0) ∪ {[a := x]}) ∪ (nodes a l2 0 ∪ others)) by (by rewrite insert_union_singleton_l, <-!map_union_assoc).
  erewrite step_handles; [|cbn [handle_at]; rewrite Hm; apply relink_after; [done|]].
  - cbn [mbind option_bind handle_at session_at effects]. rewrite E2, E3. do 2 f_equal. rewrite nodes_app by done. rewrite <-!map_union_assoc, !delete_union, (delete_id (nodes 0 l1 _)), delete_singleton_eq, map_empty_union, (delete_id (nodes _ l2 0)), (delete_id others) by (done || by apply nodes_None). done.
  - apply Forall_forall. intros b Hb. apply lookup_union_None. split; [apply nodes_None; intros Hb1; apply (Hn12 b Hb1); by right|]. apply lookup_singleton_None. intros ->. done.
Qed.

(** A reference is dropped. *)
Lemma drop_ok st sp a e : rep s others st sp -> small sp -> get_handle a (sp_handles sp) = Some e -> exists st', default_drop_handle s a st = Some st' /\ rep s others st' (spec_drop a e sp).
Proof.
  intros Hrep (Hlen & Hsm) (l1 & l2 & Hl)%get_handle_split. pose proof (rep_lookup _ _ _ _ _ _ Hrep Hl) as Hlook. pose proof Hrep as [Hs Hn Ho Hd Hz Hr He]. destruct Hs as (d & Hsd & Hh & Hc & Hx).
  pose proof (rep_count _ _ _ _ _ _ Hrep (conj Hlen Hsm) Hl) as He1. rewrite Hl in Hn, Ho, Hd, Hz, Hr, Hh, Hc, Hlen.
  unfold default_drop_handle. rewrite Hsd. cbn [mbind option_bind]. rewrite Hlook. cbn [mbind option_bind]. change (h_refs (link (head_addr l2 0) (last_addr 0 l1) e)) with (h_refs e).
  replace (u64 (h_refs e - 1)) with (h_refs e - 1) by (unfold u64; rewrite Z.mod_small; lia). unfold spec_drop. set (e' := set_refs (h_refs e - 1) e).
  change (set_refs (h_refs e - 1) (link (head_addr l2 0) (last_addr 0 l1) e)) with (link (head_addr l2 0) (last_addr 0 l1) e').
  destruct (Z.eqb_spec (h_refs e - 1) 0) as [H0|H0]; destruct (Z.eqb_spec (h_refs e) 1) as [H1|H1]; try lia; [|eexists; split; [done|]; apply (rep_update st sp l1 a e l2 (fun h => set_refs (h_refs h - 1) h)); [done|done|cbn; lia]].
  set (st1 := put_handle a (link (head_addr l2 0) (last_addr 0 l1) e') st). assert (Hn1 : handle_at st1 = nodes 0 (l1 ++ (a, e') :: l2) 0 ∪ others) by (cbn; by rewrite Hn, insert_union_l, nodes_update).
  assert (Ha : addrs (l1 ++ (a, e') :: l2) = addrs (l1 ++ (a, e) :: l2)) by (by rewrite !addrs_app). pose proof (remove_mid _ _ _ _ Hd) as Hrm. rewrite <-Ha in Hd, Ho, Hz.
  assert (Hstep : exists d', (if a =? handles d then first ← handle_at st1 !! handles d; Some (put_session s (set_handles (h_next first) (num_handles d) d) st1) else Some st1) =
    Some (mkSessions (<[s := d']> (session_at st)) (handle_at st1) (effects st)) /\ handles d' = head_addr (l1 ++ l2) 0 /\ num_handles d' = num_handles d /\ next_hid d' = next_hid d).
  { rewrite head_addr_app in Hh |- *. rewrite Hh. destruct l1 as [|[b eb] l1]; cbn [head_addr].
    - rewrite Z.eqb_refl. cbn [handle_at st1 put_handle]. rewrite lookup_insert_eq. cbn [mbind option_bind]. by eexists.
    - destruct (Z.eqb_spec a b) as [->|Hne]; [apply NoDup_cons in Hd as (Hd & _); destruct Hd; fold (addrs (l1 ++ (b, e') :: l2)); rewrite addrs_app; apply elem_of_app; right; by left|].
      exists d. split; [|done]. rewrite insert_id by done. by destruct st. }
  destruct Hstep as (d' & -> & Hh' & Hc' & Hx'). cbn [mbind option_bind]. rewrite (free_handle_ok _ l1 a e' l2) by done. cbn [mbind option_bind session_at]. rewrite lookup_insert_eq. cbn [mbind option_bind]. eexists. split; [done|].
  destruct (nodes_mid _ _ _ _ Hd) as (_ & _ & _ & Hd12). rewrite addrs_app, addrs_cons in Ho, Hz. apply Forall_app in Ho as (Ho1 & (_ & Ho2)%Forall_cons), Hz as (Hz1 & (_ & Hz2)%Forall_cons), Hr as (Hr1 & (_ & Hr2)%Forall_cons).
  constructor; cbn [sp_handles sp_next sp_effects put_session session_at handle_at effects]; rewrite ?Hl, ?Hrm; try done.
  - eexists. split; [by rewrite lookup_insert_eq|]. cbn. split; [done|]. split; [|congruence]. rewrite Hc', Hc, !length_app. cbn [length]. rewrite !length_app in Hlen. cbn [length] in Hlen. unfold u64. rewrite Z.mod_small; lia.
  - rewrite addrs_app. by apply Forall_app.
  - rewrite addrs_app. by apply Forall_app.
  - by apply Forall_app.
  - by rewrite <-He.
Qed.

Context {allocI : SessionAlloc} {lawsI : SessionAllocLaws}.

(** A new handle. *)
Lemma add_ok st sp type locality pointer hid cleanup : rep s others st sp -> small sp ->
  exists st', default_add_handle s type locality pointer hid cleanup st = Some (st', (spec_add (calloc_handle (handle_at st)) (mkHandle type 1 true pointer locality hid cleanup 0 0) sp).2) /\
    rep s others st' (spec_add (calloc_handle (handle_at st)) (mkHandle type 1 true pointer locality hid cleanup 0 0) sp).1.
Proof.
  intros Hrep (Hlen & _). pose proof Hrep as [(d & Hsd & Hh & Hc & Hx) Hn Ho Hd Hz Hr He]. unfold default_add_handle. rewrite Hsd. cbn [mbind option_bind]. destruct (calloc_handle (handle_at st)) as [a|] eqn:Hcal; [|by exists st].
  destruct (calloc_fresh _ _ Hcal) as (Ha0 & Ha). rewrite Hn in Ha. apply lookup_union_None in Ha as (Ha1 & Ha2). set (h := mkHandle type 1 true pointer locality hid cleanup 0 0).
  assert (Hnin : a ∉ addrs (sp_handles sp)) by (apply not_elem_of_dom in Ha1; rewrite nodes_dom in Ha1; by rewrite elem_of_list_to_set in Ha1).
  change (mkHandle type 1 true pointer locality hid cleanup (handles d) 0) with (link (handles d) 0 h). rewrite Hh. set (st1 := put_handle a (link (head_addr (sp_handles sp) 0) 0 h) st).
  assert (H1 : handle_at st1 = {[a := link (head_addr (sp_handles sp) 0) 0 h]} ∪ (nodes 0 (sp_handles sp) 0 ∪ others)) by (cbn; by rewrite Hn, insert_union_singleton_l).
  erewrite step_handles; [|rewrite H1; apply (relink_after _ _ a); [done|]].
  - cbn [mbind option_bind]. eexists. split; [done|]. constructor; cbn [spec_add fst sp_handles sp_next sp_effects put_session session_at handle_at effects st1 put_handle]; try done.
    + eexists. split; [by rewrite lookup_insert_eq|]. cbn. split; [done|]. split; [|done]. rewrite Hc. unfold u64. rewrite Z.mod_small; lia.
    + rewrite map_union_assoc. f_equal. cbn [nodes]. by rewrite insert_union_singleton_l.
    + by apply Forall_cons.
    + by apply NoDup_cons.
    + by apply Forall_cons.
    + by apply Forall_cons.
  - apply Forall_forall. intros b Hb. apply lookup_singleton_None. by intros ->.
Qed.

Lemma length_nodes l before after : NoDup (addrs l) -> size (nodes before l after) = length l.
Proof. intros Hd. rewrite <-size_dom, nodes_dom, size_list_to_set by done. unfold addrs. by rewrite length_fmap. Qed.

Lemma rep_size st sp : rep s others st sp -> (length (sp_handles sp) <= size (handle_at st))%nat.
Proof.
  intros [_ Hn _ Hd _ _ _]. rewrite Hn, <-(length_nodes (sp_handles sp) 0 0 Hd). rewrite <-!size_dom. apply subseteq_size, subseteq_dom, map_union_subseteq_l.
Qed.

(** The search of a handle. *)
Lemma resolve_ok type htype hid st sp : rep s others st sp -> small sp -> forall l2 l1 fuel, sp_handles sp = l1 ++ l2 -> (length l2 < fuel)%nat ->
  exists st', resolve_loop fuel type htype hid (head_addr l2 0) st = Some (st', match List.find (fun x => (h_hid x.2 =? hid) && bool_decide (h_locality x.2 = htype)) l2 with
    | None => (LWMSG_STATUS_NOT_FOUND, 0)
    | Some (a, h) => if h_valid h && (match type with None => true | Some t => bool_decide (t = h_type h) end) then (LWMSG_STATUS_SUCCESS, a) else (LWMSG_STATUS_INVALID_HANDLE, 0) end) /\
  rep s others st' (match List.find (fun x => (h_hid x.2 =? hid) && bool_decide (h_locality x.2 = htype)) l2 with
    | Some (a, h) => if h_valid h && (match type with None => true | Some t => bool_decide (t = h_type h) end) then map_handles (update a (fun h => set_refs (h_refs h + 1) h)) sp else sp
    | None => sp end).
Proof.
  intros Hrep (Hlen & Hsm). induction l2 as [|[a h] l2 IH]; intros l1 [|fuel] Hl Hf; try (cbn in Hf; lia); [by exists st|]. cbn [resolve_loop head_addr List.find snd].
  destruct (Z.eqb_spec a 0) as [->|Ha0]; [destruct Hrep as [_ _ _ _ Hz _ _]; rewrite Hl, addrs_app in Hz; by apply Forall_app in Hz as (_ & ?%Forall_inv)|].
  rewrite (rep_lookup _ _ _ _ _ _ Hrep Hl). cbn [mbind option_bind]. set (x := link (head_addr l2 0) (last_addr 0 l1) h). change (h_hid x) with (h_hid h). change (h_locality x) with (h_locality h). change (h_valid x) with (h_valid h). change (h_type x) with (h_type h).
  destruct ((h_hid h =? hid) && bool_decide (h_locality h = htype)); [|change (h_next x) with (head_addr l2 0); apply (IH (l1 ++ [(a, h)])); [by rewrite <-app_assoc|cbn in Hf; lia]].
  pose proof (rep_count _ _ _ _ _ _ Hrep (conj Hlen Hsm) Hl) as Hr.
  assert (Hup : rep s others (put_handle a (set_refs (u64 (h_refs x + 1)) x) st) (map_handles (update a (fun h => set_refs (h_refs h + 1) h)) sp)).
  { change (h_refs x) with (h_refs h). replace (u64 (h_refs h + 1)) with (h_refs h + 1) by (unfold u64; rewrite Z.mod_small; lia). apply (rep_update st sp l1 a h l2 (fun h => set_refs (h_refs h + 1) h)); [done|done|cbn; lia]. }
  destruct (h_valid h); cbn [negb orb andb]; [|by exists st]. destruct type as [t|]; [|by eexists]. destruct (bool_decide (t = h_type h)); cbn [negb]; [by eexists|by exists st].
Qed.

(** C20: The handles of a session are a list of counted references: registering,
    retaining, releasing, unregistering and resolving a handle do to the linked list
    what they mean on the list, with the same result. A handle stays until its last
    reference is gone, and its cleanup function is called then, once; the handles of
    other sessions are not touched. *)
Theorem handles_refine st sp op sp' r : rep s others st sp -> small sp -> spec_op (calloc_handle (handle_at st)) op sp = Some (sp', r) ->
  exists st', run_op s op st = Some (st', r) /\ rep s others st' sp'.
Proof.
  intros Hrep Hsm Hop. destruct op as [type data cleanup|type hid cleanup|a|a|a|type htype hid]; cbn [spec_op run_op] in *.
  - injection Hop as Hop. unfold default_register_handle_local. pose proof Hrep as [(d & Hsd & Hh & Hc & Hx) Hn Ho Hd Hz Hr He]. rewrite Hsd. cbn [mbind option_bind]. rewrite Hx.
    assert (Hrep' : rep s others (put_session s (set_next_hid (u32 (sp_next sp + 1)) d) st) (mkSpec (sp_handles sp) (u32 (sp_next sp + 1)) (sp_effects sp))).
    { constructor; try done. eexists. split; [cbn; by rewrite lookup_insert_eq|]. done. }
    destruct (add_ok _ _ type LWMSG_HANDLE_LOCAL data (sp_next sp) cleanup Hrep' Hsm) as (st' & E & R). cbn [handle_at put_session] in E, R. rewrite Hop in E, R. by exists st'.
  - injection Hop as Hop. destruct (add_ok _ _ type LWMSG_HANDLE_REMOTE 0 hid cleanup Hrep Hsm) as (st' & E & R). rewrite Hop in E, R. by exists st'.
  - apply bind_Some in Hop as (h & (l1 & l2 & Hl)%get_handle_split & [= <- <-]). unfold default_retain_handle. rewrite (rep_lookup _ _ _ _ _ _ Hrep Hl). cbn [mbind option_bind]. eexists. split; [done|].
    pose proof (rep_count _ _ _ _ _ _ Hrep Hsm Hl) as Hr.
    cbn [h_refs link set_next set_prev]. replace (u64 (h_refs h + 1)) with (h_refs h + 1) by (unfold u64; rewrite Z.mod_small; lia). apply (rep_update st sp l1 a h l2 (fun h => set_refs (h_refs h + 1) h)); [done|done|cbn; lia].
  - apply bind_Some in Hop as (h & Hg & [= <- <-]). destruct (drop_ok st sp a h Hrep Hsm Hg) as (st' & E & R). exists st'. unfold default_release_handle. by rewrite E.
  - apply bind_Some in Hop as (h & Hg & Hop). destruct (get_handle_split _ _ _ Hg) as (l1 & l2 & Hl). unfold default_unregister_handle. rewrite (rep_lookup _ _ _ _ _ _ Hrep Hl). cbn [mbind option_bind].
    change (h_valid (link (head_addr l2 0) (last_addr 0 l1) h)) with (h_valid h). destruct (h_valid h) eqn:Hv; cbn [negb]; injection Hop as <- <-; [|by exists st].
    assert (Hrep' : rep s others (put_handle a (set_valid false (link (head_addr l2 0) (last_addr 0 l1) h)) st) (map_handles (update a (set_valid false)) sp)).
    { apply (rep_update st sp l1 a h l2 (set_valid false)); [done|done|]. destruct Hrep as [_ _ _ _ _ Hr _]. rewrite Hl in Hr. apply Forall_app in Hr as (_ & Hr%Forall_inv). done. }
    destruct (drop_ok _ _ a (set_valid false h) Hrep') as (st' & E & R); [by apply small_update|cbn [map_handles sp_handles]; by rewrite get_update, Hg|]. exists st'. rewrite E. split; [done|]. exact R.
  - unfold default_resolve_id_to_handle. pose proof Hrep as [(d & Hsd & Hh & Hc & Hx) Hn Ho Hd Hz Hr He]. rewrite Hsd. cbn [mbind option_bind]. rewrite Hh.
    pose proof (rep_size _ _ Hrep) as Hsize.
    destruct (resolve_ok type htype hid st sp Hrep Hsm (sp_handles sp) [] (S (size (handle_at st))) eq_refl ltac:(lia)) as (st' & E & R). rewrite E. exists st'.
    destruct (List.find _ (sp_handles sp)) as [[b h]|]; [|injection Hop as <- <-; done]. destruct (h_valid h && _); injection Hop as <- <-; done.
Qed.

(** * The end of a session *)

Lemma free_handles_ok l : forall st fuel, handle_at st = nodes 0 l 0 ∪ others -> NoDup (addrs l) -> Forall (fun a => a <> 0) (addrs l) -> Forall (fun a => others !! a = None) (addrs l) -> (length l < fuel)%nat ->
  free_handles fuel (head_addr l 0) st = Some (mkSessions (session_at st) others (effects st ++ concat (cleanup_of <$> l.*2))).
Proof.
  induction l as [|[a e] l IH]; intros st [|fuel] Hn Hd Hz Ho Hf; try (cbn in Hf; lia); cbn [free_handles head_addr].
  - cbn. rewrite app_nil_r. cbn in Hn. rewrite map_empty_union in Hn. rewrite <-Hn. by destruct st.
  - rewrite addrs_cons in Hz. apply Forall_cons in Hz as (Ha & Hz). destruct (Z.eqb_spec a 0); [done|]. rewrite Hn. erewrite lookup_union_Some_l by (cbn; by rewrite lookup_insert_eq). cbn [mbind option_bind h_next link set_next set_prev].
    rewrite (free_handle_ok st [] a e l) by (done || by apply Forall_cons). cbn [mbind option_bind app]. rewrite addrs_cons in Hd, Ho. apply NoDup_cons in Hd as (_ & Hd). apply Forall_cons in Ho as (_ & Ho).
    rewrite IH by (done || (cbn in Hf; lia)). cbn. by rewrite app_assoc.
Qed.

(** C21: A session lives as long as one reference: the release of the last one frees every
    handle, calls the cleanup function of each, once, and frees the token of the peer;
    any other release changes the count only. *)
Theorem session_release_correct st sp d : rep s others st sp -> session_at st !! s = Some d -> 1 <= refs d < 2 ^ 64 ->
  default_release s st = Some (if refs d =? 1
    then mkSessions (delete s (session_at st)) others (effects st ++ concat (cleanup_of <$> (sp_handles sp).*2) ++ match sec_token d with None => [] | Some t => [TokenDeleted (t_address t)] end)
    else put_session s (set_session_refs (refs d - 1) d) st).
Proof.
  intros Hrep Hs Hrefs. pose proof Hrep as [(d' & Hsd & Hh & Hc & Hx) Hn Ho Hd Hz Hr He]. rewrite Hs in Hsd. injection Hsd as <-. unfold default_release. rewrite Hs. cbn [mbind option_bind]. replace (u64 (refs d - 1)) with (refs d - 1) by (unfold u64; rewrite Z.mod_small; lia).
  destruct (Z.eqb_spec (refs d - 1) 0), (Z.eqb_spec (refs d) 1); try lia; [|done]. unfold default_free_session. cbn [session_at put_session]. rewrite lookup_insert_eq. cbn [mbind option_bind].
  pose proof (rep_size _ _ Hrep) as Hsize.
  change (handles (set_session_refs (refs d - 1) d)) with (handles d). rewrite Hh, (free_handles_ok (sp_handles sp)) by (done || (cbn [handle_at put_session]; lia)). cbn [mbind option_bind session_at put_session effects sec_token set_session_refs].
  destruct (sec_token d); cbn; rewrite delete_insert_eq, <-?app_assoc, ?app_nil_r; done.
Qed.
End Rep.

(** * Peers *)

(** Tokens of local peers are always equal. *)
Lemma token_equal_true token other : lwmsg_security_token_can_access token other = true.
Proof. unfold lwmsg_security_token_can_access, lwmsg_local_token_can_access, lwmsg_security_token_equal, lwmsg_local_token_equal. destruct (_ =? _); [done|]. by rewrite !Z.eqb_refl. Qed.

(** C39: A session that has been connected to one peer takes any other one for the same:
    whatever the user and group of the new peer, it is never refused for security; the
    session is taken over unless the cookie of the peer has changed and there are
    handles. *)
Theorem session_takes_any_peer s st d t accept token : session_at st !! s = Some d -> sec_token d = Some t ->
  exists st', default_connect s accept token st =
    Some (if negb (bool_decide (accept_id d = accept)) && (0 <? num_handles d) then (st, LWMSG_STATUS_SESSION_LOST) else (st', LWMSG_STATUS_SUCCESS)) /\
  (exists d', session_at st' !! s = Some d' /\ sec_token d' = Some t /\ accept_id d' = accept /\ refs d' = u64 (refs d + 1)).
Proof.
  intros Hs Ht. unfold default_connect. rewrite Hs. cbn [mbind option_bind]. rewrite Ht, token_equal_true. cbn [negb]. eexists. split; [by destruct (_ && _)|]. eexists. split; [cbn; by rewrite lookup_insert_eq|]. done.
Qed.

(** * A session with two handles, in memory that is used from address 1 on *)

Definition next_key {A} (m : gmap Z A) : Z := map_fold (fun k _ acc => Z.max acc (k + 1)) 1 m.
Lemma next_key_spec {A} (m : gmap Z A) : 1 <= next_key m /\ forall k x, m !! k = Some x -> k < next_key m.
Proof.
  unfold next_key. apply (map_fold_weak_ind (fun r m => 1 <= r /\ forall k x, m !! k = Some x -> k < r)); [done|].
  intros i x m' r _ (H1 & Hk). split; [lia|]. intros k y [(<- & _)|(_ & Hy)]%lookup_insert_Some; [lia|]. specialize (Hk _ _ Hy). lia.
Qed.

Definition demo_alloc : SessionAlloc := {| calloc_handle m := Some (next_key m); calloc_session m := Some (next_key m); random_cookie _ := zeros 8 |}.
Lemma demo_alloc_laws : @SessionAllocLaws demo_alloc.
Proof.
  constructor. intros m a [= <-]. destruct (next_key_spec m) as (H1 & Hk). split; [lia|]. destruct (m !! next_key m) as [x|] eqn:Hx; [|done]. specialize (Hk _ _ Hx). lia.
Qed.

Definition file_type : mem := [102; 105; 108; 101].
Definition demo_entries : list entry := [(2, mkHandle file_type 1 true 64 LWMSG_HANDLE_LOCAL 1 700 0 0); (1, mkHandle file_type 2 true 48 LWMSG_HANDLE_LOCAL 0 700 0 0)].
Definition demo_peer : LocalToken := mkToken 5 1000 1000 77.
Definition demo_session : DefaultSession := mkSession (zeros 8) (zeros 8) (Some demo_peer) 1 2 2 2.
Definition demo_sessions : sessions := mkSessions {[ 9 := demo_session ]} (nodes 0 demo_entries 0 ∪ ∅) [].
Definition demo_spec : spec := mkSpec demo_entries 2 [].

Lemma demo_rep : rep 9 ∅ demo_sessions demo_spec.
Proof.
  constructor; try done.
  - by exists demo_session.
  - repeat constructor.
  - repeat constructor; set_solver.
  - repeat constructor; done.
  - repeat constructor; cbn; lia.
Qed.

(** Releasing the handle with one reference cleans it up. *)
Lemma handles_refine_witness : exists st', @run_op demo_alloc 9 (OpRelease 2) demo_sessions = Some (st', (LWMSG_STATUS_SUCCESS, 0)) /\
  rep 9 ∅ st' (mkSpec [(1, mkHandle file_type 2 true 48 LWMSG_HANDLE_LOCAL 0 700 0 0)] 2 [Cleanup 700 64]).
Proof.
  apply (@handles_refine 9 ∅ demo_alloc demo_alloc_laws demo_sessions demo_spec (OpRelease 2)); [exact demo_rep|split; [done|repeat constructor]|by vm_compute].
Defined.

Lemma session_release_correct_witness : default_release 9 demo_sessions = Some (mkSessions (delete 9 (session_at demo_sessions)) ∅ [Cleanup 700 64; Cleanup 700 48; TokenDeleted 5]).
Proof. rewrite (session_release_correct 9 ∅ demo_sessions demo_spec demo_session demo_rep eq_refl); [reflexivity|cbn; lia]. Defined.

(** Another user connects to the session of the first one. *)
Lemma session_takes_any_peer_witness : exists st', default_connect 9 (zeros 8) (mkToken 6 0 0 78) demo_sessions = Some (st', LWMSG_STATUS_SUCCESS) /\
  (exists d', session_at st' !! 9 = Some d' /\ sec_token d' = Some demo_peer /\ accept_id d' = zeros 8 /\ refs d' = 2).
Proof. exact (session_takes_any_peer 9 demo_sessions demo_session demo_peer (zeros 8) (mkToken 6 0 0 78) eq_refl eq_refl). Defined.
